(* ===== verification/_CoqProject ===== *)
-Q . S2P
Prelude.v
Err.v
GLib.v
Float.v
Song.v
AudioFormat.v
EventPipe.v
PlayerControl.v
PlayQueue.v
PlayQueueRep.v
PlayQueueEdit.v
PlayQueueDelete.v
PlayQueueOrder.v
PlayQueueInv.v
CString.v
Uri.v
Playlist.v
PlaylistInv.v
PlaylistEdit.v
PlaylistDelete.v
PlaylistSafety.v
PlaylistDefects.v
DecoderControl.v
PlayerThread.v
PlayerThreadProofs.v
Handshake.v
Tokenizer.v
Strtod.v
ArgParser.v
FifoBuffer.v
ClientRead.v
ClientWrite.v
Client.v
Permission.v
Server.v
Command.v
AudioParser.v
Handlers.v
HandlerSafety.v
CommandSafety.v
ClientProcess.v
ServerSamples.v
QueueTheorems.v
PlaylistTheorems.v
PlayerTheorems.v
ProtocolTheorems.v
Pcm.v
PcmConvert.v
PcmFrames.v
PcmDsdProofs.v
PcmExport.v
PcmTheorems.v
TagPool.v
TagValue.v
Tag.v
TagTheorems.v
LinkedList.v
MergeSort.v
ListSortProofs.v
SongSort.v
TextFile.v
Directory.v
SortTheorems.v
SimpleDb.v
SimpleDbRoundtrip.v
DatabaseTheorems.v
Locate.v
StrSet.v
Query.v
QueryTheorems.v
Mixer.v
Output.v
OutputTheorems.v
OutputAll.v
StateFile.v
StateFileTheorems.v
Icy.v
Httpd.v
IcyTheorems.v
