(* ===== verification/Prelude.v ===== *)
(** * A verification library for the Music Player Daemon

    MPD is a music server.  A client sends commands over a socket; the main
    thread executes them on one global _playlist_, which owns a _play queue_
    (songs, identifiers, a playing order).  The _player thread_ plays the
    songs that the playlist hands to it through a shared _player control_
    object; it drives the _decoder thread_ and the audio outputs and reports
    back through the _event pipe_.  This library models that core and proves
    it correct, down to array indices and integer widths.

    ** Conventions

    A C function becomes a function in the error monad [res] of this file:
    [Err] stands for a failed [assert], an access out of bounds, a read of an
    uninitialized cell, an undefined conversion, or a wait that never ends.  A
    theorem [f x = Ok y] therefore also says that nothing of this happens.
    [wp m Q] says that [m] returns and the result satisfies [Q]; [safe H m Q]
    permits in addition that [m] waits forever, provided [H].  Unsigned
    arithmetic is written with [u32], conversions to [int] with [i32].  An
    array is a list of optional cells ([aget], [aset]); counted loops are
    [for_range] and [for_down], which need no fuel.  The few loops that are
    not counted take fuel (the length of the string, the number of
    identifiers), and the theorems show that it suffices: [OutOfFuel] is an
    [Err] and never occurs.  Strings are lists of characters without the
    terminator.  Floating point numbers are [SpecFloat]'s binary32 and
    binary64.

    ** Files

    - [Prelude], [GLib], [Float], [CString]: results, integers, arrays and
      loops; the random generator and stable sort of GLib as a class with its
      documented behaviour; C's [float], [double] and string functions.
    - [PlayQueue] models [src/playqueue.c] and [src/playqueue.h].
      [PlayQueueRep] relates the C structure to a list of items and a
      permutation ([q_rep], [q_inv]); [PlayQueueEdit], [PlayQueueDelete],
      [PlayQueueOrder] and [PlayQueueInv] show that every operation
      implements the corresponding operation on lists and keeps the
      invariant.
    - [PlayerControl] models [src/player_control.c]: a command is one
      exchange with a player thread behind the interface [PlayerThread],
      whose contract is the class [PlayerThreadSpec]; the operations
      [pc_*()] are proved against that contract.
    - [Playlist] models [src/playlist.c], [src/playlist_control.c] and
      [src/playlist_edit.c] on a [world] of playlist and player.
      [PlaylistInv] states the invariant [w_inv] and proves playback
      commands and modes, [PlaylistEdit] and [PlaylistDelete] the others;
      [PlaylistSafety] puts them together as a transition system.
    - [DecoderControl] and [PlayerThread] model [src/decoder_control.c] and
      [src/player_thread.c]; the decoder thread, the chunks in the pipes and
      the outputs are an environment within a contract ([env_ok]).
      [PlayerThreadProofs] proves that this thread is an instance of
      [PlayerThreadSpec], so that the theorems about the playlist hold for
      it; [PlaylistDefects] has a second, trivial instance.
    - [Handshake] models the critical sections of [player_command()] and of
      the thread's acknowledgement step by step.
    - [EventPipe] models [src/event_pipe.c] and [src/idle.c].
    - [Song], [AudioFormat], [Uri]: [src/song.c], [src/audio_format.c] with
      [src/audio_check.c], and [src/uri.c].
    - [Err] is [src/err.h].  [Tokenizer], [Strtod] and [ArgParser] model
      [src/tokenizer.c] with [src/string_util.c], the conversions of the C
      library that the protocol uses, and [src/protocol/argparser.c].
    - [FifoBuffer] models [src/fifo_buffer.c] and [src/growing_fifo.c];
      [ClientRead] [src/client_read.c], which reads a connection through it;
      [ClientWrite] [src/client_write.c] with a socket that accepts as much
      as a schedule says.
    - [Client] holds [struct client] and its operations from [src/client.c],
      [src/client_file.c], [src/client_message.c], [src/client_subscribe.c]
      and [src/client_idle.c]; [Permission] is [src/permission.c].
    - [Server] is the state a handler works on, in a state monad, with
      [src/protocol/result.c]; [Command] the registry and [Handlers] the
      handlers of [src/command.c] that concern playlist, player and clients,
      up to [command_process()]; [ClientProcess] is [src/client_process.c].
      The class [Env] holds what handlers ask of the database, the file
      system and the mixer, and the handlers that are not modelled.
    - [HandlerSafety], [CommandSafety] and the second half of
      [ClientProcess] prove dispatch, every handler and command lists against
      the theorems of [PlaylistSafety]: [playlist_request] maps a request to
      the playlist's command.
    - [AudioParser] models [src/audio_parser.c] and the printing of audio
      formats.
    - [Pcm] models samples, volume, mixing and dithering
      ([src/pcm/pcm_volume.c], [pcm_mix.c], [pcm_dither.c]); [PcmConvert] the
      conversion of formats, channels and rates up to [pcm_convert()], with
      DSD ([pcm_format.c], [pcm_channels.c], [pcm_resample_fallback.c],
      [dsd2pcm.c], [pcm_dsd.c], [pcm_convert.c], built without
      libsamplerate); [PcmExport] [pcm_export.c] with [pcm_pack.c],
      [pcm_dsd_usb.c] and [src/util/byte_reverse.c], on bytes in memory.
      Each file proves its functions; [PcmFrames] (a buffer as the
      concatenation of its frames) and [PcmDsdProofs] prove the composition.
      The byte order macros of GLib are the class [ByteSwap] with the law
      [ByteSwapOk].
    - [TagPool] models [src/tag_pool.c], [TagValue] the values and names of
      [src/tag.c] and what a tag means as a list of typed values, and [Tag]
      the operations on tags.  The pool implements a multiset of references,
      and a tag owns some of them ([holding]).
      GLib's character set functions are the class [Charset].
    - [LinkedList] models [src/util/list.h] and [src/util/list_sort.c] on a
      memory of nodes; [MergeSort] is the same sort on lists, and
      [ListSortProofs] shows that the pointers follow it.  [SongSort] is the
      order of [src/song_sort.c].
    - [TextFile] is [src/text_file.c]; [Directory] the tree of
      [src/directory.c], [src/playlist_vector.c] and [src/song.c], whose lists
      are Rocq lists; [SimpleDb] the file format, opening and visiting of
      [src/db/simple_db_plugin.c].  [Directory] proves look-up, pruning,
      sorting and walking; [SimpleDb] turns the text that is written into
      lines, and [SimpleDbRoundtrip] reads them back.
    - [Locate] models [src/locate.c], [StrSet] [src/strset.c], and [Query]
      what is built from them and from the tree: [src/db_print.c],
      [src/song_print.c], [src/tag_print.c], [src/dbUtils.c] and
      [src/stats.c], for any function that takes what is printed;
      Its second half are the commands that use it, with a client.  A query
      is a loop over the songs of the tree ([db_walk_root]).
    - [Mixer] models [src/mixer_api.c] and [src/mixer_control.c].  [Output]
      is [struct audio_output] with its thread ([src/output_thread.c]) and
      what the player thread does to it ([src/output_control.c]): the thread
      is cut into pieces at the places where it waits, calls a plugin or asks
      a filter or the pipe ([loc]), and [resume] runs one piece with the
      answer.  [OutputTheorems] makes the two threads a transition system
      ([step]) with an invariant ([out_inv]) and counts the pieces that a
      command takes ([distance]).  [OutputAll] is [src/output_all.c],
      [src/mixer_all.c], [src/volume.c], [src/mixer/software.c],
      [src/output_command.c] and [src/output_state.c]: the loops over all
      outputs are lists of operations.
    - [StateFile] models [src/state_file.c], [src/playlist_state.c] and
      [src/playqueue_save.c] on the playlist, the outputs and the volume.
    - [Icy] models [src/input/icy_metadata.c], the buffers, requests and
      response headers of [src/input/curl.c], and [src/output/icy_server.c];
      the protocol itself is an automaton on bytes ([reader], [feed]).
      [Httpd] is [src/output/httpd.c] with [src/output/httpd_client.c],
      [src/page.c], [src/timer.c] and the calls of [src/encoder_plugin.h]:
      pages are on a heap with counted references, and [radio] is what may
      happen to a client that receives the stream.
    - [PlaylistDefects] and the end of [PlayerThreadProofs] hold runs of the
      model that end in a fault or a wrong state; they show why the theorems
      have the guards they have.
    - [ServerSamples] holds concrete states and a boolean check of the invariants;
      the files named [...Theorems] state the properties, with an instance
      of each at a concrete state.

    ** What is proved

    - Queue: every operation refines its counterpart on lists; identifiers,
      positions and order numbers stay consistent; random order is sorted by
      priority; version numbers never exceed the queue's ([QueueTheorems]).
    - Playlist: every command of [PlaylistSafety.command] runs without fault
      within its [guard] and keeps [w_inv]; hence every reachable state is
      well formed; each command has its functional specification, error
      codes included ([PlaylistTheorems]).
    - Player: the thread answers with the state its clients expect, or, for
      the commands listed in [unanswered], never; the hand-shake completes
      if the thread was waiting, nobody else wakes it too early and it
      acknowledges, it never does otherwise, and it can deadlock if the
      thread was running; no event of [event_pipe_emit()] is lost
      ([PlayerTheorems]).
    - Protocol: a line of a client keeps the invariants of queue, playlist,
      player and clients; nothing runs without permission and the right
      number of arguments, and a refusal is exactly one line of error;
      command lists run in order; quoted arguments and ranges are read back
      unchanged; the registry's binary search is a linear search; neither
      input nor output loses or reorders bytes, however the socket cuts
      them; events reach the clients that wait for them
      ([ProtocolTheorems]).
    - Samples: volume and mixing never overflow and are within two units of
      the exact result; noise shaping keeps bounded errors; a conversion is
      the composition of three functions on frames and initializes every
      sample; the ring buffer of the DSD filter implements a filter over the
      last twelve bytes; packing and byte order are inverted by their
      counterparts; exported sizes agree ([PcmTheorems]).
    - Tags: the pool implements a multiset of references, a tag can be
      built, copied, merged and freed without losing one, and values are
      printable and stay within their arrays ([TagTheorems]).
    - Sorting: the pointer program sorts, is stable and restores the back
      links, up to [2^21 - 1] nodes ([SortTheorems]).
    - Database: the tree keeps its form, everything in it is found and
      walked, and what is saved is loaded again ([DatabaseTheorems]).
    - Queries: searching prints and appends exactly what satisfies the
      criteria, where findadd fails, unique values and statistics
      ([QueryTheorems]).
    - Outputs: no assertion of an output thread or its client fails as long
      as devices do not fail while a command waits and the client keeps to
      [op_ok], whatever the order in which the threads run; every command
      then ends after at most eleven pieces; and where these conditions do
      not hold, assertions do fail ([OutputTheorems]).  The result of setting
      the volume ([OutputAll]).
    - State file: what is written is read back line by line, as long as every
      song is found again, and the player is told to go on where it was
      ([StateFileTheorems]); the fuel of its loops is the length of the file,
      of which each line takes some.
    - Icy streams: the buffers and the parser follow the automaton over any
      cut of the bytes (up to [read_from_buffer()], which
      [input_curl_read()] never calls when there is data); a client of the
      HTTP output is sent the audio it was offered with blocks in the right
      places; a block that the server makes is parsed to its title; and runs
      in which the code fails ([IcyTheorems]).  The loops over buffers take the number
      of bytes that wait as fuel.

    ** What is not modelled

    The decoder thread, codecs and encoders; the plugins of outputs, mixers,
    inputs and archives (bindings to libraries and hardware); the filters;
    updating the database, stored playlists and playlist files; sockets and
    the GLib main loop; the configuration; logging.  Locks appear in
    [Handshake], [EventPipe] and [Output], where interleavings matter;
    elsewhere a critical section is one step.  [src/pipe.c] and [src/chunk.h]
    do not compile in this version of the program; the player thread observes
    pipes through their sizes, and an output through what it is given.
    Of the protocol: the handlers of stored playlists, outputs and stickers
    (parameters, [env_other]), the greeting and the timeouts of connections.
    The handlers of the database are in [Query]; the dispatch of
    [command_process()] reaches them through [env_other] as well.  A theorem
    about a line assumes that it does not run one of those handlers
    ([modelled]).
    Of the samples: libsamplerate ([src/pcm/pcm_resample_libsamplerate.c]) and
    the i386 assembly of [pcm_volume.c]; a host is little-endian.
    Of the outputs: their creation from the configuration, and the condition
    variables (a thread that waits may look at any time).
    Of HTTP: libcurl and the thread that runs it, the listening socket;
    encoders are parameters ([EncoderPlugin]).  [input_curl_read()] and
    [input_curl_open()] are modelled with the defects that keep the plugin
    from opening or reading any stream; the theorems about streams are about
    what they would call.

    This file holds what the others share: results with faults,
    fixed-width integers, bounds-checked arrays and counted loops. *)

From stdpp Require Export base tactics option list numbers list_numbers sorting sets relations.
From Stdlib Require Export ZArith Lia.

#[export] Set Default Goal Selector "!".

(** ** Results

    A C function that respects its contract returns; one that does not runs
    into undefined behaviour or a failing [assert].  Both are explicit
    values here, so that absence of faults is a theorem. *)

Inductive fault :=
| AssertFailed      (* an [assert()] whose condition is false *)
| OutOfBounds       (* array access outside the allocated object *)
| Uninitialized     (* read of a cell that was never written *)
| BadConversion     (* floating point value that the integer type cannot hold *)
| BadArithmetic     (* signed arithmetic beyond the range of the type, division by zero *)
| StackOverflow     (* variable length array of a wrapped-around size *)
| BadFree           (* free() or realloc() of memory that malloc() did not return *)
| NoAnswer          (* a wait for another thread that never ends *)
| OutOfFuel.        (* loop bound of the model reached: no such run exists *)

Inductive res (A : Type) :=
| Ok (a : A)
| Err (f : fault).
Arguments Ok {_} _.
Arguments Err {_} _.

#[global] Instance res_ret : MRet res := @Ok.
#[global] Instance res_bind : MBind res := fun A B f m =>
  match m with Ok a => f a | Err e => Err e end.
#[global] Instance res_fmap : FMap res := fun A B f m =>
  match m with Ok a => Ok (f a) | Err e => Err e end.

Definition assert (b : bool) : res unit :=
  if b then Ok tt else Err AssertFailed.

(** [wp m Q]: the computation [m] returns, and its result satisfies [Q]. *)
Definition wp {A} (m : res A) (Q : A -> Prop) : Prop :=
  match m with Ok a => Q a | Err _ => False end.

(** [safe h m Q]: [m] returns a result that satisfies [Q], or it waits for
    another thread for ever, which only happens if [h] holds.  It never
    fails an assertion or leaves an array. *)
Definition safe (h : Prop) {A} (m : res A) (Q : A -> Prop) : Prop :=
  match m with Ok a => Q a | Err NoAnswer => h | Err _ => False end.

(** ** Machine integers *)

Definition u8 (x : Z) : Z := x `mod` 2 ^ 8.
Definition u32 (x : Z) : Z := x `mod` 2 ^ 32.
Definition u64 (x : Z) : Z := x `mod` 2 ^ 64.
Definition i32 (x : Z) : Z := (x + 2 ^ 31) `mod` 2 ^ 32 - 2 ^ 31.
Definition G_MAXUINT : Z := 2 ^ 32 - 1.

(** Signed arithmetic: the result, if the type can hold it. *)
Definition int32 (x : Z) : res Z :=
  if ((- 2 ^ 31 <=? x) && (x <? 2 ^ 31))%Z then Ok x else Err BadArithmetic.
Definition int64 (x : Z) : res Z :=
  if ((- 2 ^ 63 <=? x) && (x <? 2 ^ 63))%Z then Ok x else Err BadArithmetic.

(** ** Arrays

    A heap block of [n] cells is a list of length [n]; [None] is a cell
    that has not been written since [malloc()]. *)

Abbreviation cells A := (list (option A)).

Definition aget {A} (l : cells A) (i : Z) : res A :=
  if (0 <=? i)%Z then
    match l !! Z.to_nat i with
    | Some (Some x) => Ok x
    | Some None => Err Uninitialized
    | None => Err OutOfBounds
    end
  else Err OutOfBounds.

Definition aset {A} (l : cells A) (i : Z) (x : A) : res (cells A) :=
  if ((0 <=? i) && (i <? Z.of_nat (length l)))%Z
  then Ok (<[Z.to_nat i := Some x]> l)
  else Err OutOfBounds.

(** [holds l xs]: the cells of [l] start with the values [xs]. *)
Definition holds {A} (l : cells A) (xs : list A) : Prop :=
  forall i x, xs !! i = Some x -> l !! i = Some (Some x).

(** ** Lists *)

(** Exchange the elements at two indices. *)
Definition swap_list {A} (i j : nat) (l : list A) : list A :=
  match l !! i, l !! j with
  | Some a, Some b => <[j := a]> (<[i := b]> l)
  | _, _ => l
  end.

(** Move the block [s..e-1] so that it starts at index [t]. *)
Definition move_block {A} (s e t : nat) (l : list A) : list A :=
  let rest := take s l ++ drop e l in
  take t rest ++ take (e - s) (drop s l) ++ drop t rest.

(** Where the element at index [p] of [move_block s e t l] comes from, and
    where the element at index [p] of [l] goes. *)
Definition move_block_src (s e t p : nat) : nat :=
  if p <? t then (if p <? s then p else p + (e - s))
  else if p <? t + (e - s) then s + (p - t)
  else if p - (e - s) <? s then p - (e - s) else p.

Definition move_block_dst (s e t p : nat) : nat :=
  if (e <=? p) && (p <? t + (e - s)) then p - (e - s)
  else if (p <? s) && (t <=? p) then p + (e - s)
  else if (s <=? p) && (p <? e) then p + t - s
  else p.

(** Apply [f] to the elements at indices [lo..hi-1]. *)
Definition alter_range {A} (f : A -> A) (lo hi : nat) (l : list A) : list A :=
  imap (fun i x => if (lo <=? i) && (i <? hi) then f x else x) l.

(** ** Loops

    [for_range a b body] is [for (i = a; i < b; i++) body(i)];
    [for_down a b body] is [for (i = a; i > b; i--) body(i)]. *)

Fixpoint for_up {S} (n : nat) (i : Z) (body : Z -> S -> res S) (s : S) : res S :=
  match n with
  | O => Ok s
  | Datatypes.S n' => s' ← body i s; for_up n' (i + 1)%Z body s'
  end.

Definition for_range {S} (a b : Z) (body : Z -> S -> res S) (s : S) : res S :=
  for_up (Z.to_nat (b - a)) a body s.

Fixpoint for_dn {S} (n : nat) (i : Z) (body : Z -> S -> res S) (s : S) : res S :=
  match n with
  | O => Ok s
  | Datatypes.S n' => s' ← body i s; for_dn n' (i - 1)%Z body s'
  end.

Definition for_down {S} (a b : Z) (body : Z -> S -> res S) (s : S) : res S :=
  for_dn (Z.to_nat (a - b)) a body s.

(** ** Lemmas: results *)

Create HintDb mpd.

Lemma wp_ok {A} (a : A) (Q : A -> Prop) : Q a -> wp (Ok a) Q.
Proof. done. Qed.

Lemma wp_bind {A B} (m : res A) (f : A -> res B) (Q : B -> Prop) :
  wp m (fun a => wp (f a) Q) -> wp (m ≫= f) Q.
Proof. by destruct m. Qed.

Lemma wp_mono {A} (m : res A) (P Q : A -> Prop) :
  wp m P -> (forall a, P a -> Q a) -> wp m Q.
Proof. destruct m; simpl; auto. Qed.

Lemma wp_bind_mono {A B} (m : res A) (f : A -> res B) P (Q : B -> Prop) :
  wp m P -> (forall a, P a -> wp (f a) Q) -> wp (m ≫= f) Q.
Proof. intros Hm Hf. apply wp_bind. eauto using wp_mono. Qed.

Lemma wp_inv {A} (m : res A) (Q : A -> Prop) :
  wp m Q -> exists a, m = Ok a /\ Q a.
Proof. destruct m; simpl; [eauto | done]. Qed.

Lemma wp_intro {A} (m : res A) a (Q : A -> Prop) :
  m = Ok a -> Q a -> wp m Q.
Proof. by intros ->. Qed.

Lemma wp_and {A} (m : res A) (P Q : A -> Prop) :
  wp m P -> wp m Q -> wp m (fun a => P a /\ Q a).
Proof. destruct m; simpl; auto. Qed.

Lemma wp_assert b (Q : unit -> Prop) : b = true -> Q tt -> wp (assert b) Q.
Proof. by intros ->. Qed.

Lemma bind_Ok {A B} (m : res A) (f : A -> res B) b :
  m ≫= f = Ok b <-> exists a, m = Ok a /\ f a = Ok b.
Proof. destruct m as [a|e]; simpl; split; try naive_solver. Qed.

Lemma safe_ok h {A} (a : A) (Q : A -> Prop) : Q a -> safe h (Ok a) Q.
Proof. done. Qed.

Lemma safe_bind h {A B} (m : res A) (f : A -> res B) (Q : B -> Prop) :
  safe h m (fun a => safe h (f a) Q) -> safe h (m ≫= f) Q.
Proof. by destruct m as [a|[]]. Qed.

Lemma safe_mono h {A} (m : res A) (P Q : A -> Prop) :
  safe h m P -> (forall a, P a -> Q a) -> safe h m Q.
Proof. destruct m as [a|[]]; simpl; auto. Qed.

Lemma safe_bind_mono h {A B} (m : res A) (f : A -> res B) P (Q : B -> Prop) :
  safe h m P -> (forall a, P a -> safe h (f a) Q) -> safe h (m ≫= f) Q.
Proof. intros Hm Hf. apply safe_bind. eauto using safe_mono. Qed.

Lemma safe_intro h {A} (m : res A) a (Q : A -> Prop) : m = Ok a -> Q a -> safe h m Q.
Proof. by intros ->. Qed.

Lemma safe_wp {A} (m : res A) (Q : A -> Prop) : safe False m Q <-> wp m Q.
Proof. by destruct m as [a|[]]. Qed.

Lemma safe_weaken (h h' : Prop) {A} (m : res A) (Q : A -> Prop) :
  (h -> h') -> safe h m Q -> safe h' m Q.
Proof. destruct m as [a|[]]; simpl; auto. Qed.

Lemma safe_assert h b (Q : unit -> Prop) : b = true -> Q tt -> safe h (assert b) Q.
Proof. by intros ->. Qed.

(** ** Lemmas: machine integers *)

Lemma u32_small x : (0 <= x < 2 ^ 32)%Z -> u32 x = x.
Proof. apply Z.mod_small. Qed.

Lemma u64_small x : (0 <= x < 2 ^ 64)%Z -> u64 x = x.
Proof. intros. unfold u64. by apply Z.mod_small. Qed.

Lemma u32_range x : (0 <= u32 x < 2 ^ 32)%Z.
Proof. by apply Z.mod_pos_bound. Qed.

Lemma u32_add_u32 a b : u32 (a + u32 b) = u32 (a + b).
Proof. apply Zplus_mod_idemp_r. Qed.

Lemma u32_wrap x k : (k * 2 ^ 32 <= x < (k + 1) * 2 ^ 32)%Z ->
  u32 x = (x - k * 2 ^ 32)%Z.
Proof.
  intros H. unfold u32. symmetry. apply Z.mod_unique_pos with k; lia.
Qed.

Lemma u8_range x : (0 <= u8 x < 2 ^ 8)%Z.
Proof. by apply Z.mod_pos_bound. Qed.

Lemma i32_small x : (- 2 ^ 31 <= x < 2 ^ 31)%Z -> i32 x = x.
Proof. intros H. unfold i32. rewrite Z.mod_small; lia. Qed.

Lemma int32_ok x : (- 2 ^ 31 <= x < 2 ^ 31)%Z -> int32 x = Ok x.
Proof.
  intros [H1 H2]. unfold int32. by rewrite (proj2 (Z.leb_le _ _) H1), (proj2 (Z.ltb_lt _ _) H2).
Qed.

Lemma int64_ok x : (- 2 ^ 63 <= x < 2 ^ 63)%Z -> int64 x = Ok x.
Proof.
  intros [H1 H2]. unfold int64. by rewrite (proj2 (Z.leb_le _ _) H1), (proj2 (Z.ltb_lt _ _) H2).
Qed.

Lemma i32_range x : (- 2 ^ 31 <= i32 x < 2 ^ 31)%Z.
Proof. unfold i32. pose proof (Z.mod_pos_bound (x + 2 ^ 31) (2 ^ 32)). lia. Qed.

(** ** Lemmas: arrays *)

Lemma aget_ok {A} (l : cells A) (i : nat) x :
  l !! i = Some (Some x) -> aget l (Z.of_nat i) = Ok x.
Proof.
  intros H. unfold aget. destruct (Z.leb_spec 0 (Z.of_nat i)); [|lia].
  by rewrite Nat2Z.id, H.
Qed.

Lemma aget_ok_Z {A} (l : cells A) (i : Z) x :
  (0 <= i)%Z -> l !! Z.to_nat i = Some (Some x) -> aget l i = Ok x.
Proof.
  intros Hi H. rewrite <- (Z2Nat.id i) by lia. by apply aget_ok.
Qed.

Lemma aset_ok {A} (l : cells A) (i : nat) x :
  i < length l -> aset l (Z.of_nat i) x = Ok (<[i := Some x]> l).
Proof.
  intros H. unfold aset.
  destruct (Z.leb_spec 0 (Z.of_nat i)); [|lia].
  destruct (Z.ltb_spec (Z.of_nat i) (Z.of_nat (length l))); [|lia].
  by rewrite Nat2Z.id.
Qed.

Lemma aset_ok_Z {A} (l : cells A) (i : Z) x :
  (0 <= i < Z.of_nat (length l))%Z ->
  aset l i x = Ok (<[Z.to_nat i := Some x]> l).
Proof.
  intros H. rewrite <- (Z2Nat.id i) at 1 by lia. apply aset_ok. lia.
Qed.

Lemma aset_length {A} (l l' : cells A) i x :
  aset l i x = Ok l' -> length l' = length l.
Proof.
  unfold aset. destruct (_ && _); intros [= <-]. apply length_insert.
Qed.

Lemma holds_get {A} (l : cells A) xs i x :
  holds l xs -> xs !! i = Some x -> aget l (Z.of_nat i) = Ok x.
Proof. intros Hl Hx. by apply aget_ok, Hl. Qed.

Lemma holds_insert {A} (l : cells A) xs i x :
  holds l xs -> i < length l -> holds (<[i := Some x]> l) (<[i := x]> xs).
Proof.
  intros Hl Hi j y Hy. destruct (decide (i = j)) as [->|Hne].
  - rewrite list_lookup_insert_eq by done.
    apply list_lookup_insert_Some in Hy. naive_solver.
  - rewrite list_lookup_insert_ne in Hy by done.
    rewrite list_lookup_insert_ne by done. auto.
Qed.

Lemma holds_length {A} (l : cells A) xs : holds l xs -> length xs <= length l.
Proof.
  intros Hl. destruct (decide (length xs <= length l)) as [|Hgt]; [done|].
  destruct (lookup_lt_is_Some_2 xs (length l)) as [x Hx]; [lia|].
  apply Hl, lookup_lt_Some in Hx. lia.
Qed.

Lemma holds_ext {A} (l : cells A) xs ys :
  holds l xs -> (forall i y, ys !! i = Some y -> xs !! i = Some y) -> holds l ys.
Proof. intros Hl Hxy i y Hy. auto. Qed.

(** ** Lemmas: lists *)

Lemma length_swap_list {A} i j (l : list A) : length (swap_list i j l) = length l.
Proof. unfold swap_list. repeat case_match; by rewrite ?length_insert. Qed.

Lemma swap_list_same {A} i (l : list A) : swap_list i i l = l.
Proof.
  unfold swap_list. destruct (l !! i) as [a|] eqn:Ha; [|done].
  by rewrite list_insert_insert_eq, list_insert_id.
Qed.

Lemma swap_list_lookup {A} i j k (l : list A) a b :
  l !! i = Some a -> l !! j = Some b ->
  swap_list i j l !! k =
    if decide (k = j) then Some a else if decide (k = i) then Some b else l !! k.
Proof.
  intros Ha Hb. unfold swap_list. rewrite Ha, Hb.
  pose proof (lookup_lt_Some _ _ _ Ha). pose proof (lookup_lt_Some _ _ _ Hb).
  destruct (decide (k = j)) as [->|].
  { by rewrite list_lookup_insert_eq by (rewrite length_insert; done). }
  rewrite list_lookup_insert_ne by done.
  destruct (decide (k = i)) as [->|].
  - by rewrite list_lookup_insert_eq.
  - by rewrite list_lookup_insert_ne.
Qed.

Lemma swap_list_lt_perm {A} i j (l : list A) : i < j -> swap_list i j l ≡ₚ l.
Proof.
  intros Hij. unfold swap_list.
  destruct (l !! i) as [a|] eqn:Ha; [|done].
  destruct (l !! j) as [b|] eqn:Hb; [|done].
  pose proof (lookup_lt_Some _ _ _ Hb).
  apply list_elem_of_split_length in Ha as (l1 & l2 & -> & Hi).
  rewrite lookup_app_r in Hb by lia. subst i.
  destruct (j - length l1) as [|k] eqn:Hk; [lia|]. simpl in Hb.
  apply list_elem_of_split_length in Hb as (l3 & l4 & -> & Hk').
  rewrite (insert_app_r_alt l1 _ (length l1)) by lia.
  rewrite Nat.sub_diag. simpl.
  rewrite (insert_app_r_alt l1 _ j) by lia. rewrite Hk. simpl.
  rewrite (insert_app_r_alt l3) by lia. subst k. rewrite Nat.sub_diag. simpl.
  solve_Permutation.
Qed.

Lemma swap_list_comm {A} i j (l : list A) : swap_list i j l = swap_list j i l.
Proof.
  destruct (decide (i = j)) as [->|Hne]; [done|]. unfold swap_list.
  destruct (l !! i), (l !! j); try done. by rewrite list_insert_insert_ne.
Qed.

Lemma swap_list_perm {A} i j (l : list A) : swap_list i j l ≡ₚ l.
Proof.
  destruct (Nat.lt_trichotomy i j) as [?|[->|?]].
  - by apply swap_list_lt_perm.
  - by rewrite swap_list_same.
  - rewrite swap_list_comm. by apply swap_list_lt_perm.
Qed.

Lemma perm_seq_intro (l : list nat) n :
  NoDup l -> (forall x, x ∈ l -> x < n) -> length l = n -> l ≡ₚ seq 0 n.
Proof.
  intros Hnd Hlt Hlen. apply submseteq_length_Permutation.
  - apply NoDup_submseteq; [done|]. intros x Hx. apply elem_of_seq.
    specialize (Hlt x Hx). lia.
  - rewrite length_seq. lia.
Qed.

Lemma fmap_perm_seq (f : nat -> nat) (l : list nat) n :
  l ≡ₚ seq 0 n -> (forall x, x < n -> f x < n) ->
  (forall x y, x < n -> y < n -> f x = f y -> x = y) -> f <$> l ≡ₚ seq 0 n.
Proof.
  intros Hp Hlt Hinj. rewrite Hp. apply perm_seq_intro.
  - apply NoDup_fmap_2_strong; [|apply NoDup_seq].
    intros x y Hx%elem_of_seq Hy%elem_of_seq. apply Hinj; lia.
  - intros x (y & -> & Hy%elem_of_seq)%list_elem_of_fmap. apply Hlt. lia.
  - by rewrite length_fmap, length_seq.
Qed.

Ltac case_nat :=
  repeat match goal with
  | |- context [(?a =? ?b)%nat] => destruct (Nat.eqb_spec a b)
  | |- context [(?a <? ?b)%nat] => destruct (Nat.ltb_spec a b)
  | |- context [(?a <=? ?b)%nat] => destruct (Nat.leb_spec a b)
  end.

Lemma length_move_block {A} s e t (l : list A) :
  s <= e <= length l -> t + (e - s) <= length l ->
  length (move_block s e t l) = length l.
Proof.
  intros. unfold move_block.
  rewrite !length_app, !length_take, !length_drop, !length_app, length_take, length_drop. lia.
Qed.

Lemma move_block_perm {A} s e t (l : list A) : s <= e -> move_block s e t l ≡ₚ l.
Proof.
  intros Hse. unfold move_block. rewrite Permutation_app_swap_app, take_drop.
  transitivity (take s l ++ take (e - s) (drop s l) ++ drop e l); [solve_Permutation|].
  apply reflexive_eq. rewrite <- (take_drop s l) at 4. f_equal.
  rewrite <- (take_drop (e - s) (drop s l)) at 2. f_equal.
  rewrite drop_drop. f_equal. lia.
Qed.

Lemma move_block_lookup {A} s e t (l : list A) p :
  s <= e <= length l -> t + (e - s) <= length l -> p < length l ->
  move_block s e t l !! p = l !! move_block_src s e t p.
Proof.
  intros Hse Ht Hp. unfold move_block, move_block_src.
  assert (length (take s l ++ drop e l) = length l - (e - s)) as Hrest
    by (rewrite length_app, length_take, length_drop; lia).
  assert (forall j, (take s l ++ drop e l) !! j = if j <? s then l !! j else l !! (j + (e - s)))
    as Hr.
  { intros j. case_nat.
    - rewrite lookup_app_l by (rewrite length_take; lia). by apply lookup_take_lt.
    - rewrite lookup_app_r by (rewrite length_take; lia).
      rewrite lookup_drop, length_take. f_equal. lia. }
  destruct (Nat.ltb_spec p t).
  { rewrite lookup_app_l by (rewrite length_take; lia).
    rewrite lookup_take_lt, Hr by done. by case_nat. }
  rewrite lookup_app_r by (rewrite length_take; lia).
  rewrite length_take, Hrest, Nat.min_l by lia.
  destruct (Nat.ltb_spec p (t + (e - s))).
  { rewrite lookup_app_l by (rewrite length_take, length_drop; lia).
    rewrite lookup_take_lt by lia. by rewrite lookup_drop. }
  rewrite lookup_app_r by (rewrite length_take, length_drop; lia).
  rewrite length_take, length_drop, lookup_drop, Hr, Nat.min_l by lia.
  replace (t + (p - t - (e - s))) with (p - (e - s)) by lia.
  case_nat; f_equal; lia.
Qed.

Lemma move_block_dst_src s e t p n :
  s <= e <= n -> t + (e - s) <= n -> p < n ->
  move_block_dst s e t (move_block_src s e t p) = p /\ move_block_src s e t p < n.
Proof.
  intros. unfold move_block_src. case_nat; simpl; unfold move_block_dst; case_nat; simpl; lia.
Qed.

Lemma move_block_src_dst s e t p n :
  s <= e <= n -> t + (e - s) <= n -> p < n ->
  move_block_src s e t (move_block_dst s e t p) = p /\ move_block_dst s e t p < n.
Proof.
  intros. unfold move_block_dst. case_nat; simpl; unfold move_block_src; case_nat; lia.
Qed.

Lemma length_alter_range {A} f lo hi (l : list A) :
  length (alter_range f lo hi l) = length l.
Proof. apply length_imap. Qed.

Lemma alter_range_lookup {A} f lo hi (l : list A) p :
  alter_range f lo hi l !! p =
    (if (lo <=? p) && (p <? hi) then f <$> l !! p else l !! p).
Proof.
  unfold alter_range. rewrite list_lookup_imap.
  destruct (l !! p); simpl; by destruct (_ && _).
Qed.

Lemma alter_range_fmap {A B} (g : A -> B) f lo hi (l : list A) :
  (forall x, g (f x) = g x) -> g <$> alter_range f lo hi l = g <$> l.
Proof.
  intros Hg. apply list_eq. intros p.
  rewrite !list_lookup_fmap, alter_range_lookup.
  case_match; [|done]. destruct (l !! p); simpl; by rewrite ?Hg.
Qed.

(** ** Lemmas: loops *)

Lemma for_up_inv {S} (P : nat -> S -> Prop) (body : Z -> S -> res S) n a s :
  P a s ->
  (forall k s, a <= k < a + n -> P k s ->
     wp (body (Z.of_nat k) s) (P (Datatypes.S k))) ->
  wp (for_up n (Z.of_nat a) body s) (P (a + n)).
Proof.
  revert a s. induction n as [|n IH]; intros a s H0 Hstep; simpl.
  - by rewrite Nat.add_0_r.
  - apply wp_bind. eapply wp_mono; [apply Hstep; [lia | done]|].
    intros s' Hs'. replace (Z.of_nat a + 1)%Z with (Z.of_nat (Datatypes.S a)) by lia.
    rewrite <- Nat.add_succ_comm. apply IH; [done|].
    intros k s'' ? ?. apply Hstep; [lia | done].
Qed.

(** The loop rule: an invariant that holds at [a] and is preserved by every
    iteration holds at [b] when the loop is left, and the loop is left. *)
Lemma for_range_inv {S} (P : nat -> S -> Prop) (body : Z -> S -> res S) a b s :
  a <= b -> P a s ->
  (forall k s, a <= k < b -> P k s -> wp (body (Z.of_nat k) s) (P (Datatypes.S k))) ->
  wp (for_range (Z.of_nat a) (Z.of_nat b) body s) (P b).
Proof.
  intros Hab H0 Hstep. unfold for_range.
  replace b with (a + (b - a)) at 2 by lia.
  replace (Z.to_nat (Z.of_nat b - Z.of_nat a)) with (b - a) by lia.
  apply for_up_inv; [done|]. intros k s' ?. apply Hstep. lia.
Qed.

Lemma for_range_empty {S} a b (body : Z -> S -> res S) s :
  (b <= a)%Z -> for_range a b body s = Ok s.
Proof. intros H. unfold for_range. by replace (Z.to_nat (b - a)) with 0 by lia. Qed.

Lemma for_dn_inv {S} (P : nat -> S -> Prop) (body : Z -> S -> res S) n a s :
  n <= a -> P a s ->
  (forall k s, a - n < k <= a -> P k s -> wp (body (Z.of_nat k) s) (P (k - 1))) ->
  wp (for_dn n (Z.of_nat a) body s) (P (a - n)).
Proof.
  revert a s. induction n as [|n IH]; intros a s Hn H0 Hstep; simpl.
  - by rewrite Nat.sub_0_r.
  - apply wp_bind. eapply wp_mono; [apply Hstep; [lia | done]|].
    intros s' Hs'. replace (Z.of_nat a - 1)%Z with (Z.of_nat (a - 1)) by lia.
    replace (a - Datatypes.S n) with (a - 1 - n) by lia. apply IH; [lia | done |].
    intros k s'' ? ?. apply Hstep; [lia | done].
Qed.

Lemma for_down_inv {S} (P : nat -> S -> Prop) (body : Z -> S -> res S) a b s :
  b <= a -> P a s ->
  (forall k s, b < k <= a -> P k s -> wp (body (Z.of_nat k) s) (P (k - 1))) ->
  wp (for_down (Z.of_nat a) (Z.of_nat b) body s) (P b).
Proof.
  intros Hab H0 Hstep. unfold for_down.
  replace b with (a - (a - b)) at 2 by lia.
  replace (Z.to_nat (Z.of_nat a - Z.of_nat b)) with (a - b) by lia.
  apply for_dn_inv; [lia | done |]. intros k s' ?. apply Hstep. lia.
Qed.

(** The loop [for (i = a - 1; i >= a - n; i--)] with calls that may wait for
    ever. *)
Lemma for_dn_safe (h : Prop) {S} (P : nat -> S -> Prop) (body : Z -> S -> res S) n a s :
  n <= a -> P a s ->
  (forall k s, a - n <= k < a -> P (Datatypes.S k) s -> safe h (body (Z.of_nat k) s) (P k)) ->
  safe h (for_dn n (Z.of_nat a - 1) body s) (P (a - n)).
Proof.
  revert a s. induction n as [|n IH]; intros a s Hn H0 Hstep; simpl.
  - by rewrite Nat.sub_0_r.
  - destruct a as [|a]; [lia|]. replace (Z.of_nat (Datatypes.S a) - 1)%Z with (Z.of_nat a) by lia.
    eapply safe_bind_mono; [apply Hstep; [lia|done]|]. intros s' Hs'.
    apply IH; [lia|done|]. intros k s'' Hk. apply Hstep. lia.
Qed.

Lemma for_down_empty {S} a b (body : Z -> S -> res S) s :
  (a <= b)%Z -> for_down a b body s = Ok s.
Proof. intros H. unfold for_down. by replace (Z.to_nat (a - b)) with 0 by lia. Qed.

(** Reading a range of cells into a list. *)
Lemma collect_loop {A B} (f : A -> B) (l : cells A) xs a b :
  holds l xs -> a <= b <= length xs ->
  for_range (Z.of_nat a) (Z.of_nat b)
    (fun i acc => x ← aget l i; Ok (acc ++ [f x])) []
  = Ok (f <$> take (b - a) (drop a xs)).
Proof.
  intros Hl Hab.
  assert (wp (for_range (Z.of_nat a) (Z.of_nat b)
    (fun i acc => x ← aget l i; Ok (acc ++ [f x])) [])
    (fun acc => acc = f <$> take (b - a) (drop a xs))) as Hwp.
  { apply (for_range_inv (fun k acc => acc = f <$> take (k - a) (drop a xs))); [lia| |].
    - by rewrite Nat.sub_diag.
    - intros k acc Hk ->. destruct (lookup_lt_is_Some_2 xs k) as [x Hx]; [lia|].
      rewrite (holds_get _ _ _ _ Hl Hx). simpl.
      replace (Datatypes.S k - a) with (Datatypes.S (k - a)) by lia.
      rewrite (take_S_r _ _ x), fmap_app; [done|].
      rewrite lookup_drop. by replace (a + (k - a)) with k by lia. }
  by apply wp_inv in Hwp as (acc & -> & ->).
Qed.

(** ** Automation *)

(** [wp_simpl] runs the next array access or assertion of a goal [wp m Q]
    whose side conditions are arithmetic or known lookups. *)
Ltac wp_step :=
  lazymatch goal with
  | |- wp (_ ≫= _) _ => apply wp_bind
  | |- wp (Ok _) _ => apply wp_ok
  | |- wp (assert _) _ => apply wp_assert
  end.

Ltac case_Z :=
  repeat match goal with
  | |- context [(?a =? ?b)%Z] => destruct (Z.eqb_spec a b)
  | |- context [(?a <? ?b)%Z] => destruct (Z.ltb_spec a b)
  | |- context [(?a <=? ?b)%Z] => destruct (Z.leb_spec a b)
  end.

Ltac solve_u32 := rewrite ?u32_small by lia; lia.

#[export] Hint Resolve wp_ok wp_bind : mpd.
