(* ===== verification/Err.v ===== *)
(** * Error codes

    [enum mpd_err] of [src/err.h].  Functions return them negated, 0 for
    success; functions that return a pointer cast the negated code to
    one. *)

From S2P Require Import Prelude.
Local Open Scope Z_scope.

Inductive mpd_err :=
| MPD_SUCCESS
| MPD_ERR_FIRST
| MPD_PERM
| MPD_ACCESS
| MPD_MISS_VALUE
| MPD_INVAL
| MPD_DUP
| MPD_NOENT
| MPD_3RD
| MPD_NIMPL
| MPD_DISABLED
| MPD_UNKNOWN
| PLAYLIST_ERRNO
| PLAYLIST_DENIED
| PLAYLIST_NO_SUCH_SONG
| PLAYLIST_NO_SUCH_LIST
| PLAYLIST_LIST_EXISTS
| PLAYLIST_BAD_NAME
| PLAYLIST_BAD_RANGE
| PLAYLIST_NOT_PLAYING
| PLAYLIST_TOO_LARGE
| PLAYLIST_DISABLED
| PLAYLIST_LAST
| DB_FIRST
| DB_DISABLED
| DB_ACCESS
| DB_CORRUPT
| DB_MALFORM
| DB_DUP
| DB_ERRNO
| DB_NOENT
| CMD_QUOTE
| MPD_ERR_LAST.

#[global] Instance mpd_err_eq_dec : EqDecision mpd_err.
Proof. solve_decision. Defined.

(** The number of the code, for messages. *)
Definition mpd_errs : list mpd_err :=
  [MPD_SUCCESS; MPD_ERR_FIRST; MPD_PERM; MPD_ACCESS; MPD_MISS_VALUE; MPD_INVAL; MPD_DUP; MPD_NOENT;
   MPD_3RD; MPD_NIMPL; MPD_DISABLED; MPD_UNKNOWN; PLAYLIST_ERRNO; PLAYLIST_DENIED;
   PLAYLIST_NO_SUCH_SONG; PLAYLIST_NO_SUCH_LIST; PLAYLIST_LIST_EXISTS; PLAYLIST_BAD_NAME;
   PLAYLIST_BAD_RANGE; PLAYLIST_NOT_PLAYING; PLAYLIST_TOO_LARGE; PLAYLIST_DISABLED; PLAYLIST_LAST;
   DB_FIRST; DB_DISABLED; DB_ACCESS; DB_CORRUPT; DB_MALFORM; DB_DUP; DB_ERRNO; DB_NOENT; CMD_QUOTE;
   MPD_ERR_LAST].

Definition mpd_err_code (e : mpd_err) : Z :=
  match list_find (fun e' => e = e') mpd_errs with
  | Some (n, _) => Z.of_nat n
  | None => 0
  end.

(** What a function returns. *)
Definition success : Z := 0.
Definition error (e : mpd_err) : Z := - mpd_err_code e.

Lemma mpd_err_code_spec e : mpd_errs !! Z.to_nat (mpd_err_code e) = Some e.
Proof. by destruct e. Qed.
