(* ===== verification/GLib.v ===== *)
(** * GLib

    The GLib functions the queue relies on.  GLib is not part of the
    repository: its operations are the fields of the class [GLib], and what
    its manual promises about them is the class [GLibSpec].  [glib_first]
    is an instance of both, so the promises can be met. *)

From S2P Require Import Prelude.
Local Open Scope Z_scope.

(** [GRand] and [g_qsort_with_data()].  The generator state is passed
    explicitly; the sort is used on arrays of [unsigned] only. *)
Class GLib := {
  GRand : Type;
  g_rand_int_range : GRand -> Z -> Z -> Z * GRand;
  g_qsort_with_data : list Z -> (Z -> Z -> Z) -> list Z;
}.

(** "Returns the next random gint32 from the range [begin..end-1]", and the
    sort puts the elements in an order the comparison function agrees
    with. *)
Class GLibSpec (G : GLib) : Prop := {
  g_rand_int_range_bounds g b e :
    -2 ^ 31 <= b < e -> e < 2 ^ 31 -> b <= (g_rand_int_range g b e).1 < e;
  g_qsort_perm l cmp : g_qsort_with_data l cmp ≡ₚ l;
  g_qsort_sorted l cmp :
    (forall x y, cmp x y <= 0 \/ cmp y x <= 0) ->
    (forall x y z, cmp x y <= 0 -> cmp y z <= 0 -> cmp x z <= 0) ->
    StronglySorted (fun x y => cmp x y <= 0) (g_qsort_with_data l cmp);
}.

(** ** A concrete instance: a generator that counts, and insertion sort *)

Fixpoint insert_by (cmp : Z -> Z -> Z) (x : Z) (l : list Z) : list Z :=
  match l with
  | [] => [x]
  | y :: l' => if cmp x y <=? 0 then x :: l else y :: insert_by cmp x l'
  end.

Definition sort_by (l : list Z) (cmp : Z -> Z -> Z) : list Z :=
  foldr (insert_by cmp) [] l.

#[export] Instance glib_first : GLib := {|
  GRand := Z;
  g_rand_int_range g b e := (b + g `mod` (e - b), g + 1);
  g_qsort_with_data := sort_by;
|}.

Lemma insert_by_perm cmp x l : insert_by cmp x l ≡ₚ x :: l.
Proof.
  induction l as [|y l IH]; simpl; [done|].
  case_match; [done|]. rewrite IH. apply Permutation_swap.
Qed.

Lemma insert_by_sorted cmp x l :
  (forall x y, cmp x y <= 0 \/ cmp y x <= 0) ->
  (forall x y z, cmp x y <= 0 -> cmp y z <= 0 -> cmp x z <= 0) ->
  StronglySorted (fun x y => cmp x y <= 0) l ->
  StronglySorted (fun x y => cmp x y <= 0) (insert_by cmp x l).
Proof.
  intros Htot Htrans. induction l as [|y l IH]; intros Hs; simpl.
  - by repeat constructor.
  - apply StronglySorted_inv in Hs as [Hs Hy].
    destruct (Z.leb_spec (cmp x y) 0) as [Hle|Hgt].
    + repeat constructor; auto. eapply Forall_impl; [done|]. naive_solver.
    + constructor; [by apply IH|]. rewrite insert_by_perm.
      constructor; [|done]. destruct (Htot x y); [lia | done].
Qed.

#[export] Instance glib_first_spec : GLibSpec glib_first.
Proof.
  split; simpl.
  - intros g b e ? ?. pose proof (Z.mod_pos_bound g (e - b)). lia.
  - intros l cmp. unfold sort_by. induction l as [|x l IH]; simpl; [done|].
    by rewrite insert_by_perm, IH.
  - intros l cmp ? ?. unfold sort_by. induction l as [|x l IH]; simpl.
    + constructor.
    + by apply insert_by_sorted.
Qed.
