(* ===== verification/Float.v ===== *)
(** * Floating point numbers

    The C types [float] and [double] as the Standard Library's executable
    IEEE 754 numbers, with the conversions the sources use. *)

From Stdlib Require Export SpecFloat.
From S2P Require Import Prelude.

Local Open Scope Z_scope.

Abbreviation float := spec_float.
Abbreviation double := spec_float.

(** Precision and exponent bound of the two formats. *)
Definition f32_prec : Z := 24.
Definition f32_emax : Z := 128.
Definition f64_prec : Z := 53.
Definition f64_emax : Z := 1024.

Definition f_zero : float := S754_zero false.
Definition f_nan : float := S754_nan.

(** [(float)i], [(double)i]: round to nearest even. *)
Definition f32_of_Z (i : Z) : float := binary_normalize f32_prec f32_emax i 0 false.
Definition f64_of_Z (i : Z) : double := binary_normalize f64_prec f64_emax i 0 false.

(** Conversions between the formats: the value is rounded (it is exact from
    [float] to [double]). *)
Definition f_round (prec emax : Z) (x : spec_float) : spec_float :=
  match x with
  | S754_finite s m e => binary_normalize prec emax (if s then Z.neg m else Z.pos m) e s
  | _ => x
  end.
Definition f64_of_f32 (x : float) : double := f_round f64_prec f64_emax x.
Definition f32_of_f64 (x : double) : float := f_round f32_prec f32_emax x.

(** [(int)x] and [(unsigned)x]: truncation towards zero.  Converting a value
    the integer type cannot represent is undefined: [None]. *)
Definition f_trunc (x : spec_float) : option Z :=
  match x with
  | S754_zero _ => Some 0
  | S754_finite s m e =>
      let a := if 0 <=? e then Z.pos m * 2 ^ e else Z.pos m / 2 ^ (- e) in
      Some (if s then - a else a)
  | _ => None
  end.

Definition f_to_int (x : spec_float) : option Z :=
  i ← f_trunc x; if (- 2 ^ 31 <=? i) && (i <? 2 ^ 31) then Some i else None.

Definition f_to_unsigned (x : spec_float) : option Z :=
  i ← f_trunc x; if (0 <=? i) && (i <? 2 ^ 32) then Some i else None.

Definition f64_add (x y : double) : double := SFadd f64_prec f64_emax x y.
Definition f64_sub (x y : double) : double := SFsub f64_prec f64_emax x y.
Definition f64_mul (x y : double) : double := SFmul f64_prec f64_emax x y.
Definition f64_div (x y : double) : double := SFdiv f64_prec f64_emax x y.
Definition f32_add (x y : float) : float := SFadd f32_prec f32_emax x y.
Definition f32_sub (x y : float) : float := SFsub f32_prec f32_emax x y.
Definition f32_mul (x y : float) : float := SFmul f32_prec f32_emax x y.
Definition f32_div (x y : float) : float := SFdiv f32_prec f32_emax x y.

Definition f_ltb (x y : spec_float) : bool := SFltb x y.
Definition f_leb (x y : spec_float) : bool := SFleb x y.
Definition f_is_nan (x : spec_float) : bool :=
  match x with S754_nan => true | _ => false end.

(** * Facts about floating point numbers

    Rounding keeps the sign and does not produce a NaN, so sums and
    quotients of numbers that are not negative are not negative. *)

Definition f_nonneg (x : spec_float) : bool := f_leb f_zero x.

(** The numbers with sign [s], and both zeros. *)
Definition has_sign (s : bool) (x : spec_float) : Prop :=
  match x with
  | S754_zero _ => True
  | S754_infinity s' | S754_finite s' _ _ => s' = s
  | S754_nan => False
  end.

Lemma has_sign_nonneg x : has_sign false x <-> f_nonneg x = true.
Proof. by destruct x as [|[]| |[]]. Qed.

Lemma has_sign_number s x : has_sign s x -> f_is_nan x = false.
Proof. by destruct x. Qed.

(** ** Rounding *)

Lemma shr_1_nonneg r : 0 <= shr_m r -> 0 <= shr_m (shr_1 r).
Proof. destruct r as [[|[p|p|]|p] ? ?]; simpl; lia. Qed.

Lemma iter_pos_nonneg p r : 0 <= shr_m r -> 0 <= shr_m (SpecFloat.iter_pos shr_1 p r).
Proof. revert r. induction p; simpl; auto using shr_1_nonneg. Qed.

Lemma shr_fexp_nonneg prec emax m e l : 0 <= m -> 0 <= shr_m (shr_fexp prec emax m e l).1.
Proof.
  intros Hm. unfold shr_fexp. assert (0 <= shr_m (shr_record_of_loc m l)) by (by destruct l as [|[]]).
  destruct (_ - e); simpl; auto using iter_pos_nonneg.
Qed.

Lemma round_nearest_even_nonneg m l : 0 <= m -> 0 <= round_nearest_even m l.
Proof. destruct l as [|[]]; simpl; try lia. destruct (Z.even m); lia. Qed.

Lemma binary_round_aux_sign prec emax s m e l :
  0 <= m -> has_sign s (binary_round_aux prec emax s m e l).
Proof.
  intros Hm. unfold binary_round_aux.
  pose proof (shr_fexp_nonneg prec emax m e l Hm) as H1.
  destruct (shr_fexp prec emax m e l) as [r1 e1]. simpl in H1.
  pose proof (shr_fexp_nonneg prec emax _ e1 loc_Exact
    (round_nearest_even_nonneg _ (loc_of_shr_record r1) H1)) as H2.
  destruct (shr_fexp _ _ _ e1 loc_Exact) as [r2 e2]. simpl in H2.
  destruct (shr_m r2) as [|p|p]; simpl; [done| |lia]. by case_match.
Qed.

Lemma binary_round_sign prec emax s m e : has_sign s (binary_round prec emax s m e).
Proof. unfold binary_round. destruct (shl_align _ _ _). apply binary_round_aux_sign. lia. Qed.

Lemma binary_normalize_nonneg prec emax m e s :
  0 <= m -> f_nonneg (binary_normalize prec emax m e s) = true.
Proof. intros. destruct m; [done| |lia]. apply has_sign_nonneg, binary_round_sign. Qed.

Lemma binary_normalize_number prec emax m e s : f_is_nan (binary_normalize prec emax m e s) = false.
Proof. destruct m; [done|..]; eapply has_sign_number, binary_round_sign. Qed.

(** ** Operations *)

Lemma f64_add_nonneg x y : f_nonneg x = true -> f_nonneg y = true -> f_nonneg (f64_add x y) = true.
Proof.
  intros Hx Hy. unfold f64_add.
  destruct x as [[]|[]| |[]], y as [[]|[]| |[]]; try done.
  apply binary_normalize_nonneg. simpl. lia.
Qed.

Lemma f64_div_nonneg x my ey :
  f_nonneg x = true -> f_nonneg (f64_div x (S754_finite false my ey)) = true.
Proof.
  intros Hx. unfold f64_div. destruct x as [[]|[]| |[] mx ex]; try done.
  simpl. unfold SFdiv_core_binary.
  set (m' := match _ with 0 => _ | _ => _ end).
  assert (0 <= m') as Hm by (subst m'; case_match; rewrite ?Z.shiftl_nonneg; lia).
  pose proof (Z.div_pos m' (Z.pos my) Hm ltac:(lia)) as Hq. unfold Z.div in Hq.
  destruct (Z.div_eucl m' (Z.pos my)) as [q r].
  by apply has_sign_nonneg, binary_round_aux_sign.
Qed.

Lemma f64_of_Z_nonneg i : 0 <= i -> f_nonneg (f64_of_Z i) = true.
Proof. apply binary_normalize_nonneg. Qed.

Lemma f64_sub_number x m e s :
  f_is_nan x = false -> f_is_nan (f64_sub x (S754_finite s m e)) = false.
Proof. destruct x; try done. intros _. apply binary_normalize_number. Qed.

(** A number that is not less than zero is not negative. *)
Lemma not_less_nonneg x : f_is_nan x = false -> f_ltb x f_zero = false -> f_nonneg x = true.
Proof. by destruct x as [|[]| |[]]. Qed.
