(* ===== verification/Song.v ===== *)
(** * Songs

    [struct song] of [src/song.h], as the queue, the playlist and the player
    see it: an address (songs are compared as pointers), the URI, the
    directory of the database it belongs to, the boundaries of a sub-song
    and the duration its tag gives (in seconds, if it has a tag). *)

From S2P Require Import Prelude Float.
From stdpp Require Export strings.
From Stdlib Require Import Ascii.
Local Open Scope Z_scope.

(** The fields of [struct directory] that songs need: the path, and whether
    its [parent] is [NULL]. *)
Record directory := Directory {
  dir_path : string;
  dir_is_root : bool;
}.

Record song := Song {
  song_ptr : Z;
  song_uri : string;
  song_parent : option directory;
  song_start_ms : Z;
  song_end_ms : Z;
  song_tag_time : option Z;
}.

#[global] Instance directory_eq_dec : EqDecision directory.
Proof. solve_decision. Defined.
#[global] Instance song_eq_dec : EqDecision song.
Proof. solve_decision. Defined.

(** Pointer comparison. *)
Definition song_eqb (a b : song) : bool := song_ptr a =? song_ptr b.

(** [a == b] for pointers that may be [NULL]. *)
Definition song_ptr_eqb (a b : option song) : bool :=
  match a, b with
  | Some x, Some y => song_eqb x y
  | None, None => true
  | _, _ => false
  end.

Definition song_in_database (s : song) : bool :=
  match song_parent s with Some _ => true | None => false end.

Definition song_is_file (s : song) : bool :=
  song_in_database s ||
  match song_uri s with
  | String.String c _ => bool_decide (c = "/"%char)
  | String.EmptyString => false
  end.

(** The address is the one [malloc()] returns. *)
Definition song_alloc (ptr : Z) (uri : string) (parent : option directory) : res song :=
  assert (bool_decide (uri <> String.EmptyString));;
  Ok (Song ptr uri parent 0 0 None).

Definition song_remote_new (ptr : Z) (uri : string) : res song := song_alloc ptr uri None.

(** [build_db_filename(c1, component, ..., NULL)] with [c1] not [NULL]. *)
Definition build_db_filename (c1 : string) (components : list string) : string :=
  foldl (fun acc component => (acc ++ "/" ++ component)%string) c1 components.

Definition directory_get_path (d : directory) : string := dir_path d.

Definition song_get_uri (s : song) : res string :=
  assert (bool_decide (song_uri s <> String.EmptyString));;
  match song_parent s with
  | Some d => if dir_is_root d then Ok (song_uri s)
              else Ok (build_db_filename (directory_get_path d) [song_uri s])
  | None => Ok (song_uri s)
  end.

(** Milliseconds in seconds. *)
Definition ms_to_s (ms : Z) : double := f64_div (f64_of_Z ms) (f64_of_Z 1000).

Definition song_get_duration (s : song) : double :=
  if 0 <? song_end_ms s then ms_to_s (u32 (song_end_ms s - song_start_ms s))
  else match song_tag_time s with
       | None => f_zero
       | Some time => f64_sub (f64_of_Z time) (ms_to_s (song_start_ms s))
       end.

Lemma song_ptr_eqb_refl s : song_ptr_eqb s s = true.
Proof. destruct s; simpl; [apply Z.eqb_refl | done]. Qed.

Lemma ms_to_s_nonneg ms : 0 <= ms -> f_nonneg (ms_to_s ms) = true.
Proof. intros Hms. by apply f64_div_nonneg, f64_of_Z_nonneg. Qed.
