(* ===== verification/AudioFormat.v ===== *)
(** * Audio formats

    [struct audio_format] and the operations of [src/audio_format.h],
    [src/audio_format.c] and [src/audio_check.c]. *)

From S2P Require Import Prelude.
Local Open Scope Z_scope.

(** ** Data *)

Inductive sample_format :=
| SAMPLE_FORMAT_UNDEFINED
| SAMPLE_FORMAT_S8
| SAMPLE_FORMAT_S16
| SAMPLE_FORMAT_S24_P32
| SAMPLE_FORMAT_S32
| SAMPLE_FORMAT_FLOAT
| SAMPLE_FORMAT_DSD.

#[global] Instance sample_format_eq_dec : EqDecision sample_format.
Proof. solve_decision. Defined.

Definition MAX_CHANNELS : Z := 8.

(** [sample_rate] is a [uint32_t] and [channels] a [uint8_t]. *)
Record audio_format := AudioFormat {
  af_sample_rate : Z;
  af_format : sample_format;
  af_channels : Z;
}.

#[global] Instance audio_format_eq_dec : EqDecision audio_format.
Proof. solve_decision. Defined.

(** ** Operations *)

Definition audio_format_clear : audio_format := AudioFormat 0 SAMPLE_FORMAT_UNDEFINED 0.

Definition audio_format_init (sample_rate : Z) (format : sample_format) (channels : Z)
  : audio_format := AudioFormat (u32 sample_rate) format (u8 channels).

Definition audio_format_defined (af : audio_format) : bool :=
  negb (af_sample_rate af =? 0).

Definition sample_format_undefined (f : sample_format) : bool :=
  match f with SAMPLE_FORMAT_UNDEFINED => true | _ => false end.

Definition audio_format_fully_defined (af : audio_format) : bool :=
  negb (af_sample_rate af =? 0) && negb (sample_format_undefined (af_format af))
  && negb (af_channels af =? 0).

Definition audio_format_mask_defined (af : audio_format) : bool :=
  negb (af_sample_rate af =? 0) || negb (sample_format_undefined (af_format af))
  || negb (af_channels af =? 0).

Definition audio_valid_sample_rate (sample_rate : Z) : bool :=
  (0 <? sample_rate) && (sample_rate <? 2 ^ 30).

Definition audio_valid_sample_format (format : sample_format) : bool :=
  match format with
  | SAMPLE_FORMAT_S8 | SAMPLE_FORMAT_S16 | SAMPLE_FORMAT_S24_P32
  | SAMPLE_FORMAT_S32 | SAMPLE_FORMAT_FLOAT | SAMPLE_FORMAT_DSD => true
  | SAMPLE_FORMAT_UNDEFINED => false
  end.

Definition audio_valid_channel_count (channels : Z) : bool :=
  (1 <=? channels) && (channels <=? MAX_CHANNELS).

Definition audio_format_valid (af : audio_format) : bool :=
  audio_valid_sample_rate (af_sample_rate af)
  && audio_valid_sample_format (af_format af)
  && audio_valid_channel_count (af_channels af).

Definition audio_format_mask_valid (af : audio_format) : bool :=
  ((af_sample_rate af =? 0) || audio_valid_sample_rate (af_sample_rate af))
  && (sample_format_undefined (af_format af) || audio_valid_sample_format (af_format af))
  && ((af_channels af =? 0) || audio_valid_channel_count (af_channels af)).

Definition audio_format_equals (a b : audio_format) : bool :=
  (af_sample_rate a =? af_sample_rate b)
  && bool_decide (af_format a = af_format b)
  && (af_channels a =? af_channels b).

Definition audio_format_mask_apply (af mask : audio_format) : res audio_format :=
  assert (audio_format_valid af);;
  assert (audio_format_mask_valid mask);;
  let af := if negb (af_sample_rate mask =? 0)
            then AudioFormat (af_sample_rate mask) (af_format af) (af_channels af) else af in
  let af := if negb (sample_format_undefined (af_format mask))
            then AudioFormat (af_sample_rate af) (af_format mask) (af_channels af) else af in
  let af := if negb (af_channels mask =? 0)
            then AudioFormat (af_sample_rate af) (af_format af) (af_channels mask) else af in
  assert (audio_format_valid af);;
  Ok af.

Definition sample_format_size (format : sample_format) : Z :=
  match format with
  | SAMPLE_FORMAT_S8 => 1
  | SAMPLE_FORMAT_S16 => 2
  | SAMPLE_FORMAT_S24_P32 | SAMPLE_FORMAT_S32 | SAMPLE_FORMAT_FLOAT => 4
  | SAMPLE_FORMAT_DSD => 1
  | SAMPLE_FORMAT_UNDEFINED => 0
  end.

Definition audio_format_sample_size (af : audio_format) : Z :=
  sample_format_size (af_format af).

Definition audio_format_frame_size (af : audio_format) : Z :=
  u32 (audio_format_sample_size af * af_channels af).

(** The product is computed in 32 bits before it becomes a [double]. *)
Definition audio_format_time_to_size (af : audio_format) : Z :=
  u32 (af_sample_rate af * audio_format_frame_size af).

(** [audio_check.c].  [audio_valid_sample_rate()] takes an [unsigned], the
    check an [unsigned long]: the value is truncated on the way. *)
Definition audio_check_sample_rate (sample_rate : Z) : bool :=
  audio_valid_sample_rate (u32 sample_rate).

Definition audio_check_sample_format (format : sample_format) : bool :=
  audio_valid_sample_format format.

Definition audio_check_channel_count (channels : Z) : bool :=
  audio_valid_channel_count (u32 channels).

(** [None] is [-MPD_INVAL]. *)
Definition audio_format_init_checked (sample_rate : Z) (format : sample_format) (channels : Z)
  : res (option audio_format) :=
  if negb (audio_check_sample_rate sample_rate) then Ok None else
  if negb (audio_check_sample_format format) then Ok None else
  if negb (audio_check_channel_count channels) then Ok None else
  let af := audio_format_init sample_rate format channels in
  assert (audio_format_valid af);;
  Ok (Some af).

(** ** Lemmas *)

Lemma audio_format_valid_spec af :
  audio_format_valid af = true <->
  0 < af_sample_rate af < 2 ^ 30 /\ af_format af <> SAMPLE_FORMAT_UNDEFINED /\
  1 <= af_channels af <= MAX_CHANNELS.
Proof.
  unfold audio_format_valid, audio_valid_sample_rate, audio_valid_channel_count.
  rewrite !andb_true_iff, !Z.ltb_lt, !Z.leb_le. destruct (af_format af); simpl; intuition done.
Qed.

Lemma audio_format_mask_apply_ok af mask :
  audio_format_valid af = true -> audio_format_mask_valid mask = true ->
  exists af', audio_format_mask_apply af mask = Ok af' /\ audio_format_valid af' = true.
Proof.
  intros Haf Hm. unfold audio_format_mask_apply. rewrite Haf, Hm. cbn [mbind res_bind assert].
  destruct af as [r f c], mask as [mr mf mc].
  unfold audio_format_valid, audio_format_mask_valid, audio_valid_sample_rate,
    audio_valid_channel_count in *. simpl in *.
  destruct (Z.eqb_spec mr 0), (Z.eqb_spec mc 0), mf; simpl in *;
    repeat (rewrite ?andb_true_iff in *; destruct_and?); simpl in *;
    eexists; (split; [match goal with |- context [assert ?b] => assert (b = true) as -> end|]);
    simpl; rewrite ?andb_true_iff; try done; auto.
Qed.
