(* ===== verification/EventPipe.v ===== *)
(** * The event pipe and the idle flags

    [src/event_pipe.c] and [src/idle.c]: worker threads set an event flag
    and write a byte into a pipe; the main thread reads the pipe and
    dispatches the flags.  [Module Interleaving] splits emitter and main
    thread into their critical sections, to show that no event of
    [event_pipe_emit()] is lost, while [event_pipe_emit_fast()] may be. *)

From S2P Require Import Prelude.
Local Open Scope Z_scope.

(** ** Events *)

Inductive pipe_event :=
| PIPE_EVENT_UPDATE
| PIPE_EVENT_DELETE
| PIPE_EVENT_IDLE
| PIPE_EVENT_PLAYLIST
| PIPE_EVENT_TAG
| PIPE_EVENT_RELOAD
| PIPE_EVENT_MIXER
| PIPE_EVENT_SHUTDOWN.

#[global] Instance pipe_event_eq_dec : EqDecision pipe_event.
Proof. solve_decision. Defined.

(** In the order of their numbers, which is the order of dispatch. *)
Definition all_pipe_events : list pipe_event :=
  [PIPE_EVENT_UPDATE; PIPE_EVENT_DELETE; PIPE_EVENT_IDLE; PIPE_EVENT_PLAYLIST;
   PIPE_EVENT_TAG; PIPE_EVENT_RELOAD; PIPE_EVENT_MIXER; PIPE_EVENT_SHUTDOWN].

(** ** State *)

(** The global variables of both files: [pipe_events[]] as a predicate, the
    number of unread bytes in the pipe, and [idle_flags]. *)
Record notify := Notify {
  n_pipe_events : pipe_event -> bool;
  n_pipe_bytes : Z;
  n_idle_flags : Z;
}.

Definition notify_init : notify := Notify (fun _ => false) 0 0.

(** How many bytes the kernel buffers (Linux); the pipe is non-blocking,
    [write()] fails with [EAGAIN] when it is full, which is ignored. *)
Definition PIPE_CAPACITY : Z := 65536.

Definition pipe_write (n : notify) : notify :=
  Notify (n_pipe_events n)
    (if n_pipe_bytes n <? PIPE_CAPACITY then n_pipe_bytes n + 1 else n_pipe_bytes n)
    (n_idle_flags n).

Definition set_event (e : pipe_event) (b : bool) (n : notify) : notify :=
  Notify (fun e' => if decide (e' = e) then b else n_pipe_events n e')
    (n_pipe_bytes n) (n_idle_flags n).

(** The critical section of [event_pipe_emit()], and whether it goes on to
    write. *)
Definition emit_flag (e : pipe_event) (n : notify) : bool * notify :=
  if n_pipe_events n e then (false, n) else (true, set_event e true n).

Definition event_pipe_emit (e : pipe_event) (n : notify) : notify :=
  let '(write, n) := emit_flag e n in if write then pipe_write n else n.

(** Without the mutex: it is called by signal handlers. *)
Definition event_pipe_emit_fast (e : pipe_event) (n : notify) : notify :=
  pipe_write (set_event e true n).

(** The first half of [main_notify_event()]: read up to 256 bytes, then
    take all flags. *)
Definition pipe_read (n : notify) : notify :=
  Notify (n_pipe_events n) (Z.max 0 (n_pipe_bytes n - 256)) (n_idle_flags n).

(** [memcpy()] and [memset()] under the mutex. *)
Definition copy_events (n : notify) : list pipe_event :=
  filter (fun e => n_pipe_events n e = true) all_pipe_events.
Definition clear_events (n : notify) : notify :=
  Notify (fun _ => false) (n_pipe_bytes n) (n_idle_flags n).

Definition take_events (n : notify) : list pipe_event * notify := (copy_events n, clear_events n).

(** The second half: invoke the callback of every event that was set. *)
Definition main_notify_event {S} (callbacks : pipe_event -> option (S -> res S))
    (get : S -> notify) (set : notify -> S -> S) (s : S) : res S :=
  let '(events, n) := take_events (pipe_read (get s)) in
  foldl (fun m e => s ← m;
           match callbacks e with
           | Some f => f s
           | None => Err AssertFailed
           end) (Ok (set n s)) events.

(** ** Idle flags *)

Definition IDLE_DATABASE : Z := 0x1.
Definition IDLE_STORED_PLAYLIST : Z := 0x2.
Definition IDLE_PLAYLIST : Z := 0x4.
Definition IDLE_PLAYER : Z := 0x8.
Definition IDLE_MIXER : Z := 0x10.
Definition IDLE_OUTPUT : Z := 0x20.
Definition IDLE_OPTIONS : Z := 0x40.
Definition IDLE_STICKER : Z := 0x80.
Definition IDLE_UPDATE : Z := 0x100.
Definition IDLE_SUBSCRIPTION : Z := 0x200.
Definition IDLE_MESSAGE : Z := 0x400.

(** [assert(flags != 0)] holds at every call in the sources: the argument is
    one of the constants above. *)
Definition idle_add (flags : Z) (n : notify) : notify :=
  event_pipe_emit PIPE_EVENT_IDLE
    (Notify (n_pipe_events n) (n_pipe_bytes n) (Z.lor (n_idle_flags n) flags)).

Definition idle_get (n : notify) : Z * notify :=
  (n_idle_flags n, Notify (n_pipe_events n) (n_pipe_bytes n) 0).

(** ** Interleavings

    Emitters run in several threads.  Each is between two of its steps at
    most once: after the critical section of [event_pipe_emit()] and before
    it writes.  The main thread runs [main_notify_event()] piece by piece;
    it holds the mutex between copying and clearing the flags. *)

Module Interleaving.

Inductive main_at :=
| MIdle
| MRead                                (* has read the pipe *)
| MCopied (events : list pipe_event)   (* holds the mutex *)
| MInvoking (events : list pipe_event).

(** [s_owed]: the events that have been emitted and whose callbacks have not
    been invoked since. *)
Record state := State {
  s_notify : notify;
  s_writers : nat;
  s_main : main_at;
  s_owed : pipe_event -> bool;
}.

Definition mark (e : pipe_event) (b : bool) (o : pipe_event -> bool) : pipe_event -> bool :=
  fun e' => if decide (e' = e) then b else o e'.

Definition mutex_free (m : main_at) : bool := match m with MCopied _ => false | _ => true end.

(** What happens once an event has been emitted. *)
Inductive handling : state -> state -> Prop :=
| emit_write n w m o :
    handling (State n (S w) m o) (State (pipe_write n) w m o)
| main_read n w o :
    0 < n_pipe_bytes n ->
    handling (State n w MIdle o) (State (pipe_read n) w MRead o)
| main_copy n w o :
    handling (State n w MRead o) (State n w (MCopied (copy_events n)) o)
| main_clear n w es o :
    handling (State n w (MCopied es) o) (State (clear_events n) w (MInvoking es) o)
| main_invoke n w e es o :
    handling (State n w (MInvoking (e :: es)) o) (State n w (MInvoking es) (mark e false o))
| main_return n w o :
    handling (State n w (MInvoking []) o) (State n w MIdle o).

Inductive step : state -> state -> Prop :=
| emit n w m o e :
    mutex_free m = true ->
    step (State n w m o)
      (State (emit_flag e n).2 (if (emit_flag e n).1 then S w else w) m (mark e true o))
| handle s s' : handling s s' -> step s s'.

(** [event_pipe_emit_fast()] up to its write. *)
Inductive fast : state -> state -> Prop :=
| fast_emit n w m o e :
    fast (State n w m o) (State (set_event e true n) (S w) m (mark e true o)).

Definition init : state := State notify_init 0 MIdle (fun _ => false).

(** The events that the main thread has taken, or holds the mutex to take. *)
Definition taken (m : main_at) : list pipe_event :=
  match m with MCopied es | MInvoking es => es | _ => [] end.

(** An event that is owed is about to be handled: the main thread has taken
    it; or its flag is set and the pipe is readable, or a byte is about to be
    written, or the main thread has read the pipe and not yet looked at the
    flags. *)
Definition no_lost_event (s : state) : Prop :=
  forall e, s_owed s e = true ->
    e ∈ taken (s_main s) \/
    (n_pipe_events (s_notify s) e = true /\
     (0 < n_pipe_bytes (s_notify s) \/ (0 < s_writers s)%nat \/ s_main s = MRead)).

End Interleaving.

(** ** Lemmas *)

Lemma event_pipe_emit_sets e n : n_pipe_events (event_pipe_emit e n) e = true.
Proof.
  unfold event_pipe_emit, emit_flag. destruct (n_pipe_events n e) eqn:H; [done|]. simpl.
  by rewrite decide_True.
Qed.

Lemma event_pipe_emit_keeps e e' n :
  n_pipe_events n e' = true -> n_pipe_events (event_pipe_emit e n) e' = true.
Proof.
  unfold event_pipe_emit, emit_flag. destruct (n_pipe_events n e) eqn:H; [done|]. simpl.
  by case_decide.
Qed.

Lemma event_pipe_emit_idle_flags e n :
  n_idle_flags (event_pipe_emit e n) = n_idle_flags n.
Proof. unfold event_pipe_emit, emit_flag. by destruct (n_pipe_events n e). Qed.

Lemma idle_add_flags flags n :
  n_idle_flags (idle_add flags n) = Z.lor (n_idle_flags n) flags.
Proof. unfold idle_add. rewrite event_pipe_emit_idle_flags. done. Qed.

Lemma all_pipe_events_complete e : e ∈ all_pipe_events.
Proof. destruct e; unfold all_pipe_events; set_solver. Qed.

Lemma take_events_spec n e : e ∈ (take_events n).1 <-> n_pipe_events n e = true.
Proof.
  unfold take_events, copy_events. cbn [fst]. rewrite list_elem_of_filter. pose proof (all_pipe_events_complete e). tauto.
Qed.

Lemma pipe_write_positive n : 0 <= n_pipe_bytes n -> 0 < n_pipe_bytes (pipe_write n).
Proof. intros H. simpl. unfold PIPE_CAPACITY. case_Z; lia. Qed.

Lemma copy_events_spec n e : e ∈ copy_events n <-> n_pipe_events n e = true.
Proof. apply (take_events_spec n e). Qed.

Section interleavings.
Import Interleaving.

(** A flag that is set will be noticed. *)
Record noticed (s : state) : Prop := {
  noticed_bytes : 0 <= n_pipe_bytes (s_notify s);
  noticed_flags e : n_pipe_events (s_notify s) e = true ->
    0 < n_pipe_bytes (s_notify s) \/ (0 < s_writers s)%nat \/ s_main s = MRead \/ mutex_free (s_main s) = false;
  noticed_copied es : s_main s = MCopied es -> es = copy_events (s_notify s);
  noticed_owed e : s_owed s e = true -> n_pipe_events (s_notify s) e = true \/ e ∈ taken (s_main s);
}.

Lemma noticed_emit n w m o e :
  mutex_free m = true -> noticed (State n w m o) ->
  noticed (State (emit_flag e n).2 (if (emit_flag e n).1 then S w else w) m (mark e true o)).
Proof.
  intros Hm [Hb Hf Hc Ho]. simpl in *. unfold emit_flag. destruct (n_pipe_events n e) eqn:He; cbn [fst snd].
  - split; [exact Hb|exact Hf|exact Hc|]. intros e'. cbn. unfold mark. case_decide; [subst; by left|apply Ho].
  - split; cbn [s_notify s_main s_writers s_owed]; [exact Hb|..].
    + intros e' _. right. left. lia.
    + by intros es ->.
    + intros e'. cbn. unfold mark. case_decide; [by left|apply Ho].
Qed.

Lemma noticed_handling s s' : handling s s' -> noticed s -> noticed s'.
Proof.
  intros Hs [Hb Hf Hc Ho]. destruct Hs as [n w m o|n w o Hpos|n w o|n w es o|n w e es o|n w o]; simpl in *.
  - pose proof (pipe_write_positive n Hb) as Hp. split; try (intros; left; exact Hp); try done; simpl in *; lia.
  - split; simpl; try done; [lia|]. intros e He. right. right. by left.
  - split; simpl; try done.
    + intros e He. by right; right; right.
    + by intros es [= <-].
    + intros e He. left. by destruct (Ho e He) as [|?%elem_of_nil].
  - split; simpl; try done. intros e He. right. destruct (Ho e He) as [Hn|Hn]; [|done].
    rewrite (Hc es eq_refl). by apply copy_events_spec.
  - split; cbn [s_notify s_main s_writers s_owed]; [exact Hb| |done|].
    + intros e' He. destruct (Hf e' He) as [?|[?|[?|?]]]; by auto.
    + intros e'. cbn. unfold mark. case_decide; [done|]. intros He.
      destruct (Ho e' He) as [|[?|?]%elem_of_cons]; [by left|done|by right].
  - split; cbn [s_notify s_main s_writers s_owed]; [exact Hb| |done|exact Ho].
    intros e' He. destruct (Hf e' He) as [?|[?|[?|?]]]; by auto.
Qed.

Lemma noticed_reachable s : rtc step init s -> noticed s.
Proof.
  intros Hr. assert (H0 : noticed init) by by split. revert H0. generalize init Hr. intros s0 Hr'.
  induction Hr' as [|s1 s2 s3 Hs Hr' IH]; [done|]. intros H1. apply IH; [done|].
  destruct Hs; [by apply noticed_emit|by eapply noticed_handling].
Qed.

Lemma noticed_not_lost s : noticed s -> no_lost_event s.
Proof.
  intros [Hb Hf Hc Ho] e He. destruct (Ho e He) as [Hn|]; [|by left].
  destruct (Hf e Hn) as [?|[?|[?|Hm]]]; [right; tauto..|]. left.
  destruct (s_main s) as [| |es|] eqn:Em; try done. cbn. rewrite (Hc es eq_refl). by apply copy_events_spec.
Qed.

(** The steps that are left to handle what has been emitted. *)
Definition main_left (m : main_at) : nat :=
  match m with
  | MIdle => 0 | MRead => 12 | MCopied es => 2 + length es | MInvoking es => 1 + length es
  end.

Definition handling_left (s : state) : nat :=
  21 * s_writers s + 20 * Z.to_nat (n_pipe_bytes (s_notify s)) + main_left (s_main s).

Lemma copy_events_length n : (length (copy_events n) <= 8)%nat.
Proof. apply (length_filter (fun e => n_pipe_events n e = true) all_pipe_events). Qed.

Lemma handling_decreases s s' : noticed s -> handling s s' -> (handling_left s' < handling_left s)%nat.
Proof.
  intros Hn Hs. pose proof (noticed_bytes _ Hn) as Hb.
  destruct Hs as [n w m o|n w o Hpos|n w o|n w es o|n w e es o|n w o]; unfold handling_left; simpl in *.
  - case_Z; lia.
  - lia.
  - pose proof (copy_events_length n). lia.
  - lia.
  - lia.
  - lia.
Qed.

Lemma handling_terminates s : noticed s -> Acc (flip handling) s.
Proof.
  intros Hn. remember (handling_left s) as k eqn:Hk. revert s Hn Hk.
  induction (lt_wf k) as [k _ IH]. intros s Hn ->. constructor. intros s' Hs.
  eapply IH; [by apply handling_decreases|by eapply noticed_handling|done].
Qed.

(** When nothing is left to do, nothing is owed. *)
Lemma handling_finished s e : noticed s -> (forall s', ~ handling s s') -> s_owed s e = false.
Proof.
  intros Hn Hdone. destruct (s_owed s e) eqn:He; [|done]. exfalso.
  destruct s as [n w m o]. destruct m as [| |es|es].
  - destruct (noticed_not_lost _ Hn e He) as [H%elem_of_nil|(_ & [H|[H|H]])]; simpl in *; [done| | |done].
    + by eapply Hdone, main_read.
    + destruct w as [|w]; [lia|]. eapply Hdone, emit_write.
  - eapply Hdone, main_copy.
  - eapply Hdone, main_clear.
  - destruct es; [eapply Hdone, main_return|eapply Hdone, main_invoke].
Qed.

(** [event_pipe_emit_fast()] between [memcpy()] and [memset()]: its flag is
    cleared and its callback is not invoked. *)
Lemma emit_fast_loses :
  exists s, rtc (fun s s' => step s s' \/ fast s s') init s /\
    (forall s', ~ handling s s') /\ s_owed s PIPE_EVENT_RELOAD = true.
Proof.
  eexists. split; [|split].
  - eapply rtc_l; [left; by apply (emit _ _ _ _ PIPE_EVENT_IDLE)|]. cbn [emit_flag notify_init n_pipe_events fst snd].
    eapply rtc_l; [left; apply handle, emit_write|].
    eapply rtc_l; [left; by apply handle, main_read|].
    eapply rtc_l; [left; apply handle, main_copy|].
    eapply rtc_l; [right; apply (fast_emit _ _ _ _ PIPE_EVENT_RELOAD)|].
    eapply rtc_l; [left; apply handle, main_clear|].
    eapply rtc_l; [left; apply handle, emit_write|].
    eapply rtc_l; [left; apply handle, main_invoke|].
    eapply rtc_l; [left; apply handle, main_return|].
    eapply rtc_l; [left; by apply handle, main_read|].
    eapply rtc_l; [left; apply handle, main_copy|].
    eapply rtc_l; [left; apply handle, main_clear|].
    eapply rtc_l; [left; apply handle, main_return|]. constructor.
  - intros s' Hs. inversion Hs. vm_compute in H. done.
  - done.
Qed.

End interleavings.
