(* ===== verification/PlayerControl.v ===== *)
(** * The player control object

    [struct player_control] and the client side of [src/player_control.c].
    A command is handed to the player thread, and the client waits until
    the thread has taken [error] out of the state "pending".  What the
    thread does meanwhile is the operation of the class [PlayerThread];
    [PlayerThreadSpec] is what the playlist relies on. *)

From S2P Require Import Prelude Float Song AudioFormat EventPipe.

Local Open Scope Z_scope.

(** ** Data *)

Inductive player_state :=
| PLAYER_STATE_STOP
| PLAYER_STATE_PAUSE
| PLAYER_STATE_PLAY.

Inductive player_command_t :=
| PLAYER_COMMAND_NONE
| PLAYER_COMMAND_EXIT
| PLAYER_COMMAND_STOP
| PLAYER_COMMAND_PAUSE
| PLAYER_COMMAND_SEEK
| PLAYER_COMMAND_CLOSE_AUDIO
| PLAYER_COMMAND_UPDATE_AUDIO
| PLAYER_COMMAND_QUEUE
| PLAYER_COMMAND_CANCEL
| PLAYER_COMMAND_REFRESH.

Inductive player_error :=
| PLAYER_ERROR_NOERROR
| PLAYER_ERROR_FILE
| PLAYER_ERROR_AUDIO
| PLAYER_ERROR_SYSTEM
| PLAYER_ERROR_UNKTYPE
| PLAYER_ERROR_FILENOTFOUND
| PLAYER_ERROR_PENDING.

#[global] Instance player_state_eq_dec : EqDecision player_state.
Proof. solve_decision. Defined.
#[global] Instance player_command_eq_dec : EqDecision player_command_t.
Proof. solve_decision. Defined.
#[global] Instance player_error_eq_dec : EqDecision player_error.
Proof. solve_decision. Defined.

Record player_control := PlayerControl {
  pc_buffer_chunks : Z;
  pc_buffered_before_play : Z;
  pc_command : player_command_t;
  pc_state : player_state;
  pc_error : player_error;
  pc_bit_rate : Z;
  pc_audio_format : audio_format;
  pc_total_time : float;
  pc_elapsed_time : float;
  pc_next_song : option song;
  pc_errored_song : option song;
  pc_seek_where : double;
  pc_cross_fade_seconds : float;
  pc_mixramp_db : float;
  pc_mixramp_delay_seconds : float;
  pc_total_play_time : double;
  pc_border_pause : bool;
}.

Definition pc_with_command (c : player_command_t) (p : player_control) : player_control :=
  PlayerControl (pc_buffer_chunks p) (pc_buffered_before_play p) c (pc_state p) (pc_error p)
    (pc_bit_rate p) (pc_audio_format p) (pc_total_time p) (pc_elapsed_time p) (pc_next_song p)
    (pc_errored_song p) (pc_seek_where p) (pc_cross_fade_seconds p) (pc_mixramp_db p)
    (pc_mixramp_delay_seconds p) (pc_total_play_time p) (pc_border_pause p).
Definition pc_with_state (s : player_state) (p : player_control) : player_control :=
  PlayerControl (pc_buffer_chunks p) (pc_buffered_before_play p) (pc_command p) s (pc_error p)
    (pc_bit_rate p) (pc_audio_format p) (pc_total_time p) (pc_elapsed_time p) (pc_next_song p)
    (pc_errored_song p) (pc_seek_where p) (pc_cross_fade_seconds p) (pc_mixramp_db p)
    (pc_mixramp_delay_seconds p) (pc_total_play_time p) (pc_border_pause p).
Definition pc_with_error (e : player_error) (p : player_control) : player_control :=
  PlayerControl (pc_buffer_chunks p) (pc_buffered_before_play p) (pc_command p) (pc_state p) e
    (pc_bit_rate p) (pc_audio_format p) (pc_total_time p) (pc_elapsed_time p) (pc_next_song p)
    (pc_errored_song p) (pc_seek_where p) (pc_cross_fade_seconds p) (pc_mixramp_db p)
    (pc_mixramp_delay_seconds p) (pc_total_play_time p) (pc_border_pause p).
Definition pc_with_next_song (s : option song) (p : player_control) : player_control :=
  PlayerControl (pc_buffer_chunks p) (pc_buffered_before_play p) (pc_command p) (pc_state p)
    (pc_error p) (pc_bit_rate p) (pc_audio_format p) (pc_total_time p) (pc_elapsed_time p) s
    (pc_errored_song p) (pc_seek_where p) (pc_cross_fade_seconds p) (pc_mixramp_db p)
    (pc_mixramp_delay_seconds p) (pc_total_play_time p) (pc_border_pause p).
Definition pc_with_errored_song (s : option song) (p : player_control) : player_control :=
  PlayerControl (pc_buffer_chunks p) (pc_buffered_before_play p) (pc_command p) (pc_state p)
    (pc_error p) (pc_bit_rate p) (pc_audio_format p) (pc_total_time p) (pc_elapsed_time p)
    (pc_next_song p) s (pc_seek_where p) (pc_cross_fade_seconds p) (pc_mixramp_db p)
    (pc_mixramp_delay_seconds p) (pc_total_play_time p) (pc_border_pause p).
Definition pc_with_seek_where (x : double) (p : player_control) : player_control :=
  PlayerControl (pc_buffer_chunks p) (pc_buffered_before_play p) (pc_command p) (pc_state p)
    (pc_error p) (pc_bit_rate p) (pc_audio_format p) (pc_total_time p) (pc_elapsed_time p)
    (pc_next_song p) (pc_errored_song p) x (pc_cross_fade_seconds p) (pc_mixramp_db p)
    (pc_mixramp_delay_seconds p) (pc_total_play_time p) (pc_border_pause p).
Definition pc_with_song_info (bit_rate : Z) (af : audio_format) (total elapsed : float)
    (p : player_control) : player_control :=
  PlayerControl (pc_buffer_chunks p) (pc_buffered_before_play p) (pc_command p) (pc_state p)
    (pc_error p) bit_rate af total elapsed (pc_next_song p) (pc_errored_song p)
    (pc_seek_where p) (pc_cross_fade_seconds p) (pc_mixramp_db p)
    (pc_mixramp_delay_seconds p) (pc_total_play_time p) (pc_border_pause p).
Definition pc_with_fading (cross_fade mixramp_db mixramp_delay : float) (p : player_control)
  : player_control :=
  PlayerControl (pc_buffer_chunks p) (pc_buffered_before_play p) (pc_command p) (pc_state p)
    (pc_error p) (pc_bit_rate p) (pc_audio_format p) (pc_total_time p) (pc_elapsed_time p)
    (pc_next_song p) (pc_errored_song p) (pc_seek_where p) cross_fade mixramp_db mixramp_delay
    (pc_total_play_time p) (pc_border_pause p).
Definition pc_with_border_pause (b : bool) (p : player_control) : player_control :=
  PlayerControl (pc_buffer_chunks p) (pc_buffered_before_play p) (pc_command p) (pc_state p)
    (pc_error p) (pc_bit_rate p) (pc_audio_format p) (pc_total_time p) (pc_elapsed_time p)
    (pc_next_song p) (pc_errored_song p) (pc_seek_where p) (pc_cross_fade_seconds p)
    (pc_mixramp_db p) (pc_mixramp_delay_seconds p) (pc_total_play_time p) b.

Definition pc_with_total_play_time (x : double) (p : player_control) : player_control :=
  PlayerControl (pc_buffer_chunks p) (pc_buffered_before_play p) (pc_command p) (pc_state p)
    (pc_error p) (pc_bit_rate p) (pc_audio_format p) (pc_total_time p) (pc_elapsed_time p)
    (pc_next_song p) (pc_errored_song p) (pc_seek_where p) (pc_cross_fade_seconds p)
    (pc_mixramp_db p) (pc_mixramp_delay_seconds p) x (pc_border_pause p).

(** [calloc()] clears the fields that are not set explicitly. *)
Definition pc_new (buffer_chunks buffered_before_play : Z) : player_control :=
  PlayerControl buffer_chunks buffered_before_play PLAYER_COMMAND_NONE PLAYER_STATE_STOP
    PLAYER_ERROR_NOERROR 0 audio_format_clear f_zero f_zero None None f_zero f_zero f_zero
    f_nan f_zero false.

(** ** The player thread *)

(** [thread_run t pc n] is what the player thread does from the moment it
    is signalled until the waiting client finds that [error] is not
    "pending" any more; [Err NoAnswer] if that never happens.
    [thread_move] is what it does on its own, between commands. *)
Class PlayerThread := {
  thread_state : Type;
  thread_run : thread_state -> player_control -> notify ->
               res (thread_state * player_control * notify);
  thread_move : thread_state * player_control * notify ->
                thread_state * player_control * notify -> Prop;
}.

(** The player as its clients see it. *)
Record player `{PlayerThread} := Player {
  p_control : player_control;
  p_thread : thread_state;
  p_notify : notify;
}.

Section with_thread.
Context {T : PlayerThread}.

Definition on_control (f : player_control -> player_control) (p : player) : player :=
  Player _ (f (p_control p)) (p_thread p) (p_notify p).

Definition p_idle_add (flags : Z) (p : player) : player :=
  Player _ (p_control p) (p_thread p) (idle_add flags (p_notify p)).

(** ** Operations *)

Definition pc_song_deleted (s : song) (p : player) : player :=
  if song_ptr_eqb (pc_errored_song (p_control p)) (Some s)
  then on_control (fun c => pc_with_errored_song None (pc_with_error PLAYER_ERROR_NOERROR c)) p
  else p.

Definition player_command (cmd : player_command_t) (p : player) : res player :=
  assert (bool_decide (pc_command (p_control p) = PLAYER_COMMAND_NONE));;
  let pc := pc_with_error PLAYER_ERROR_PENDING (pc_with_command cmd (p_control p)) in
  '(t, pc, n) ← thread_run (p_thread p) pc (p_notify p);
  if decide (pc_error pc = PLAYER_ERROR_PENDING) then Err NoAnswer else
  Ok (Player _ (pc_with_command PLAYER_COMMAND_NONE pc) t n).

Definition no_next_song (p : player) : bool :=
  match pc_next_song (p_control p) with None => true | Some _ => false end.

Definition pc_enqueue_song (s : song) (p : player) : res player :=
  assert (no_next_song p);;
  player_command PLAYER_COMMAND_QUEUE (on_control (pc_with_next_song (Some s)) p).

Definition pc_play (s : song) (p : player) : res player :=
  p ← (if decide (pc_state (p_control p) = PLAYER_STATE_STOP) then Ok p
       else player_command PLAYER_COMMAND_STOP p);
  assert (no_next_song p);;
  p ← pc_enqueue_song s p;
  assert (no_next_song p);;
  Ok p.

Definition pc_cancel (p : player) : res player :=
  p ← player_command PLAYER_COMMAND_CANCEL p;
  assert (no_next_song p);;
  Ok p.

Definition pc_stop (p : player) : res player :=
  p ← player_command PLAYER_COMMAND_CLOSE_AUDIO p;
  assert (no_next_song p);;
  Ok (p_idle_add IDLE_PLAYER p).

Definition pc_update_audio (p : player) : res player :=
  player_command PLAYER_COMMAND_UPDATE_AUDIO p.

(** [thrd_join()] returns because the thread has ended. *)
Definition pc_kill (p : player) : res player :=
  p ← player_command PLAYER_COMMAND_EXIT p;
  Ok (p_idle_add IDLE_PLAYER p).

Definition pc_pause (p : player) : res player :=
  if decide (pc_state (p_control p) = PLAYER_STATE_STOP) then Ok p else
  p ← player_command PLAYER_COMMAND_PAUSE p;
  Ok (p_idle_add IDLE_PLAYER p).

Definition pc_set_pause (pause_flag : bool) (p : player) : res player :=
  match pc_state (p_control p) with
  | PLAYER_STATE_STOP => Ok p
  | PLAYER_STATE_PLAY => if pause_flag then pc_pause p else Ok p
  | PLAYER_STATE_PAUSE => if negb pause_flag then pc_pause p else Ok p
  end.

Definition pc_set_border_pause (b : bool) (p : player) : player :=
  on_control (pc_with_border_pause b) p.

(** [struct player_status]; all but the state are left unset when the player
    is stopped. *)
Record player_status := PlayerStatus {
  status_state : player_state;
  status_info : option (Z * audio_format * float * float);
}.

Definition pc_get_status (p : player) : res (player_status * player) :=
  p ← player_command PLAYER_COMMAND_REFRESH p;
  let c := p_control p in
  Ok (PlayerStatus (pc_state c)
        (if decide (pc_state c = PLAYER_STATE_STOP) then None
         else Some (pc_bit_rate c, pc_audio_format c, pc_total_time c, pc_elapsed_time c)), p).

Definition pc_get_state (p : player) : player_state := pc_state (p_control p).

Definition pc_clear_error (p : player) : player :=
  on_control (fun c => pc_with_errored_song None (pc_with_error PLAYER_ERROR_NOERROR c)) p.

Definition pc_get_error (p : player) : player_error := pc_error (p_control p).

(** A string between double quotes. *)
Definition quoted (s : string) : string :=
  let q := String.String (Ascii.ascii_of_nat 34) String.EmptyString in (q ++ s ++ q)%string.

Definition pc_errored_song_uri (p : player) : res string :=
  match pc_errored_song (p_control p) with
  | None => Err AssertFailed
  | Some s => song_get_uri s
  end.

Definition pc_get_error_message (p : player) : res (option string) :=
  match pc_error (p_control p) with
  | PLAYER_ERROR_NOERROR => Ok None
  | PLAYER_ERROR_FILENOTFOUND =>
      u ← pc_errored_song_uri p;
      Ok (Some ("file " ++ quoted u ++ " does not exist or is inaccessible")%string)
  | PLAYER_ERROR_FILE =>
      u ← pc_errored_song_uri p;
      Ok (Some ("problems decoding " ++ quoted u)%string)
  | PLAYER_ERROR_AUDIO => Ok (Some "problems opening audio device"%string)
  | PLAYER_ERROR_SYSTEM => Ok (Some "system error occurred"%string)
  | PLAYER_ERROR_UNKTYPE =>
      u ← pc_errored_song_uri p;
      Ok (Some ("file type of " ++ quoted u ++ " is unknown")%string)
  | PLAYER_ERROR_PENDING => Err AssertFailed
  end.

Definition pc_seek (s : song) (seek_time : float) (p : player) : res (bool * player) :=
  let p := on_control (fun c =>
    pc_with_seek_where (f64_of_f32 seek_time) (pc_with_next_song (Some s) c)) p in
  p ← player_command PLAYER_COMMAND_SEEK p;
  assert (no_next_song p);;
  Ok (true, p_idle_add IDLE_PLAYER p).

Definition pc_get_cross_fade (p : player) : float := pc_cross_fade_seconds (p_control p).

Definition pc_set_cross_fade (seconds : float) (p : player) : player :=
  let seconds := if f_ltb seconds f_zero then f_zero else seconds in
  p_idle_add IDLE_OPTIONS (on_control (fun c =>
    pc_with_fading seconds (pc_mixramp_db c) (pc_mixramp_delay_seconds c) c) p).

Definition pc_get_mixramp_db (p : player) : float := pc_mixramp_db (p_control p).

Definition pc_set_mixramp_db (db : float) (p : player) : player :=
  p_idle_add IDLE_OPTIONS (on_control (fun c =>
    pc_with_fading (pc_cross_fade_seconds c) db (pc_mixramp_delay_seconds c) c) p).

Definition pc_get_mixramp_delay (p : player) : float := pc_mixramp_delay_seconds (p_control p).

Definition pc_set_mixramp_delay (seconds : float) (p : player) : player :=
  p_idle_add IDLE_OPTIONS (on_control (fun c =>
    pc_with_fading (pc_cross_fade_seconds c) (pc_mixramp_db c) seconds c) p).

Definition pc_get_total_play_time (p : player) : double := pc_total_play_time (p_control p).

End with_thread.

(** ** What the playlist relies on *)

(** [thread_ok] is the thread's own invariant; it only concerns the fields
    [command], [state] and [next_song] of the control object.  A run
    answers the command as [answered] says; [thread_may_hang] tells whether
    there are commands that are never answered. *)
Record quiescent (pc : player_control) : Prop := {
  quiescent_command : pc_command pc = PLAYER_COMMAND_NONE;
  quiescent_stopped : pc_state pc = PLAYER_STATE_STOP -> pc_next_song pc = None;
}.

(** The effect of a command on [state] and [next_song]; [pc] is the object
    before the command, [next] the song the client has put into
    [next_song]. *)
Definition answered (cmd : player_command_t) (pc pc' : player_control) : Prop :=
  match cmd with
  | PLAYER_COMMAND_STOP => pc_state pc' = PLAYER_STATE_STOP /\ pc_next_song pc' = None
  | PLAYER_COMMAND_CANCEL | PLAYER_COMMAND_CLOSE_AUDIO | PLAYER_COMMAND_SEEK =>
      pc_next_song pc' = None
  | PLAYER_COMMAND_QUEUE =>
      pc_state pc = PLAYER_STATE_STOP -> pc_next_song pc' = None
  | _ => pc_next_song pc' = pc_next_song pc \/ pc_next_song pc' = None
  end.

(** The position to seek to is converted to milliseconds in an [unsigned]. *)
Definition seek_fits (where_ : double) : bool :=
  match f_to_unsigned (f64_mul where_ (f64_of_Z 1000)) with Some _ => true | None => false end.

(** When a client may issue a command: [QUEUE] and [SEEK] come with a song,
    and [QUEUE] only when no song is queued; the others leave
    [next_song].  [before] is [next_song] before the client has put a song
    there. *)
Definition may_issue (cmd : player_command_t) (before : option song) (pc : player_control)
  : Prop :=
  match cmd with
  | PLAYER_COMMAND_NONE | PLAYER_COMMAND_EXIT => False
  | PLAYER_COMMAND_QUEUE => before = None /\ pc_next_song pc <> None
  | PLAYER_COMMAND_SEEK => pc_next_song pc <> None /\ seek_fits (pc_seek_where pc) = true
  | _ => pc_next_song pc = before
  end.

Class PlayerThreadSpec (T : PlayerThread) := {
  thread_ok : thread_state -> player_control -> Prop;
  thread_may_hang : Prop;
  thread_ok_quiescent t pc : thread_ok t pc -> quiescent pc;
  thread_ok_frame t pc pc' :
    thread_ok t pc -> pc_command pc' = pc_command pc -> pc_state pc' = pc_state pc ->
    pc_next_song pc' = pc_next_song pc -> thread_ok t pc';
  thread_run_ok t pc0 pc n cmd :
    thread_ok t pc0 -> pc_state pc = pc_state pc0 -> pc_command pc = cmd ->
    pc_error pc = PLAYER_ERROR_PENDING ->
    may_issue cmd (pc_next_song pc0) pc ->
    safe (thread_may_hang /\ pc_state pc <> PLAYER_STATE_STOP)
      (thread_run t pc n) (fun '(t', pc', _) =>
         pc_error pc' <> PLAYER_ERROR_PENDING /\
         thread_ok t' (pc_with_command PLAYER_COMMAND_NONE pc') /\ answered cmd pc pc');
  thread_move_ok t pc n t' pc' n' :
    thread_ok t pc -> thread_move (t, pc, n) (t', pc', n') ->
    thread_ok t' pc' /\ (pc_next_song pc' = pc_next_song pc \/ pc_next_song pc' = None);
}.

(** * The player control object: client operations

    Every operation of [player_control.c] keeps the protocol of
    [PlayerThreadSpec]: no assertion fails, and the operation returns
    unless the thread may leave a command unanswered. *)

Section with_thread.
Context {T : PlayerThread} {HT : PlayerThreadSpec T}.

Definition player_ok (p : player) : Prop := thread_ok (p_thread p) (p_control p).

Definition next_song (p : player) : option song := pc_next_song (p_control p).

(** A command issued while the player is playing may never be answered. *)
Definition may_hang (p : player) : Prop :=
  thread_may_hang /\ pc_state (p_control p) <> PLAYER_STATE_STOP.

Lemma may_hang_thread p : may_hang p -> thread_may_hang.
Proof. by intros []. Qed.

Lemma player_ok_frame p p' :
  player_ok p -> p_thread p' = p_thread p ->
  pc_command (p_control p') = pc_command (p_control p) ->
  pc_state (p_control p') = pc_state (p_control p) ->
  next_song p' = next_song p -> player_ok p'.
Proof. unfold player_ok. intros H -> ? ? ?. by eapply thread_ok_frame. Qed.

Lemma player_ok_stopped p :
  player_ok p -> pc_state (p_control p) = PLAYER_STATE_STOP -> next_song p = None.
Proof. intros H%thread_ok_quiescent. apply H. Qed.

(** [p] is the player before the client touched [next_song], [p1] after. *)
Lemma player_command_ok cmd p p1 :
  player_ok p -> p_thread p1 = p_thread p ->
  pc_command (p_control p1) = pc_command (p_control p) ->
  pc_state (p_control p1) = pc_state (p_control p) ->
  may_issue cmd (next_song p) (p_control p1) ->
  safe (may_hang p) (player_command cmd p1) (fun p' =>
    player_ok p' /\ answered cmd (p_control p1) (p_control p')).
Proof.
  intros Hok Ht Hc Hs Hmay. unfold player_command.
  pose proof (quiescent_command _ (thread_ok_quiescent _ _ Hok)) as Hq.
  rewrite bool_decide_true by congruence. cbn [mbind res_bind assert]. rewrite Ht.
  eapply safe_bind_mono.
  - eapply safe_weaken; [|apply (thread_run_ok (p_thread p) (p_control p)
      (pc_with_error PLAYER_ERROR_PENDING (pc_with_command cmd (p_control p1)))
      (p_notify p1) cmd); simpl; done]. simpl. intros [? Hne]. split; congruence.
  - intros [[t' pc'] n'] (Herr & Hok' & Hans). rewrite decide_False by done. simpl.
    split; [done|]. by destruct cmd.
Qed.

Lemma no_next_song_true p : next_song p = None -> no_next_song p = true.
Proof. unfold no_next_song, next_song. by intros ->. Qed.

(** A command that leaves [next_song] to the thread. *)
Lemma plain_command_ok cmd p :
  player_ok p -> may_issue cmd (next_song p) (p_control p) ->
  safe (may_hang p) (player_command cmd p) (fun p' =>
    player_ok p' /\ answered cmd (p_control p) (p_control p')).
Proof. intros. by apply player_command_ok. Qed.

(** A command after which no song is queued. *)
Lemma clearing_command_ok cmd p (f : player -> player) :
  player_ok p -> may_issue cmd (next_song p) (p_control p) ->
  (forall pc pc', answered cmd pc pc' -> pc_next_song pc' = None) ->
  (forall p', player_ok p' -> player_ok (f p')) ->
  (forall p', next_song (f p') = next_song p') ->
  safe (may_hang p) (p ← player_command cmd p; assert (no_next_song p);; Ok (f p))
    (fun p' => player_ok p' /\ next_song p' = None).
Proof.
  intros Hok Hmay Hans Hf1 Hf2. eapply safe_bind_mono; [by apply plain_command_ok|].
  intros p' [Hok' Ha%Hans]. simpl. rewrite no_next_song_true by done. simpl.
  split; [auto|]. by rewrite Hf2.
Qed.

Lemma player_ok_idle_add flags p : player_ok p -> player_ok (p_idle_add flags p).
Proof. done. Qed.

Lemma pc_cancel_ok p :
  player_ok p -> safe (may_hang p) (pc_cancel p) (fun p' => player_ok p' /\ next_song p' = None).
Proof. intros. by apply (clearing_command_ok _ _ (fun p => p)). Qed.

Lemma pc_stop_ok p :
  player_ok p -> safe (may_hang p) (pc_stop p) (fun p' => player_ok p' /\ next_song p' = None).
Proof. intros. by apply (clearing_command_ok _ _ (p_idle_add IDLE_PLAYER)). Qed.

Lemma pc_enqueue_song_ok s p :
  player_ok p -> next_song p = None ->
  safe (may_hang p) (pc_enqueue_song s p) (fun p' => player_ok p' /\
    (pc_state (p_control p) = PLAYER_STATE_STOP -> next_song p' = None)).
Proof.
  intros Hok Hn. unfold pc_enqueue_song. rewrite no_next_song_true by done.
  cbn [mbind res_bind assert].
  by apply (player_command_ok PLAYER_COMMAND_QUEUE p).
Qed.

(** Starting a song: the thread is stopped first if it is playing, so
    neither the enqueueing nor the assertions can go wrong. *)
Lemma pc_play_ok s p :
  player_ok p ->
  safe (may_hang p) (pc_play s p) (fun p' => player_ok p' /\ next_song p' = None).
Proof.
  intros Hok. unfold pc_play.
  assert (safe (may_hang p) (if decide (pc_state (p_control p) = PLAYER_STATE_STOP) then Ok p
    else player_command PLAYER_COMMAND_STOP p) (fun p' => player_ok p' /\
      pc_state (p_control p') = PLAYER_STATE_STOP /\ next_song p' = None)) as Hstop.
  { case_decide as Hs; [simpl; eauto using player_ok_stopped|].
    eapply safe_mono; [by apply plain_command_ok|]. by intros p' (? & ? & ?). }
  eapply safe_bind_mono; [done|]. intros p1 (Hok1 & Hs1 & Hn1).
  rewrite no_next_song_true by done. cbn [mbind res_bind assert].
  eapply safe_bind_mono.
  - eapply safe_weaken; [|by apply pc_enqueue_song_ok]. by intros [].
  - intros p2 [Hok2 Hn2]. rewrite no_next_song_true by auto. simpl. auto.
Qed.

Lemma pc_seek_ok s where_ p :
  player_ok p -> seek_fits (f64_of_f32 where_) = true ->
  safe (may_hang p) (pc_seek s where_ p) (fun '(b, p') =>
    b = true /\ player_ok p' /\ next_song p' = None).
Proof.
  intros Hok Hfit. unfold pc_seek. eapply safe_bind_mono.
  - by apply (player_command_ok PLAYER_COMMAND_SEEK p).
  - intros p' [Hok' Hn]. simpl in Hn. rewrite no_next_song_true by done. done.
Qed.

(** The commands that do not change what is queued (the thread may have
    started the queued song meanwhile). *)
Definition keeps_next (p p' : player) : Prop :=
  player_ok p' /\ (next_song p' = next_song p \/ next_song p' = None).

Lemma pc_pause_ok p : player_ok p -> safe (may_hang p) (pc_pause p) (keeps_next p).
Proof.
  intros Hok. unfold pc_pause. case_decide; [split; auto|].
  eapply safe_bind_mono; [by apply plain_command_ok|]. done.
Qed.

Lemma pc_set_pause_ok b p : player_ok p -> safe (may_hang p) (pc_set_pause b p) (keeps_next p).
Proof.
  intros Hok. unfold pc_set_pause.
  destruct (pc_state (p_control p)), b; simpl; try (by split; auto); by apply pc_pause_ok.
Qed.

Lemma pc_get_status_ok p :
  player_ok p -> safe (may_hang p) (pc_get_status p) (fun '(_, p') => keeps_next p p').
Proof.
  intros Hok. unfold pc_get_status. eapply safe_bind_mono; [by apply plain_command_ok|]. done.
Qed.

Lemma pc_song_deleted_frame s p :
  (player_ok p -> player_ok (pc_song_deleted s p)) /\
  next_song (pc_song_deleted s p) = next_song p /\
  pc_state (p_control (pc_song_deleted s p)) = pc_state (p_control p).
Proof.
  unfold pc_song_deleted. case_match; [|done]. split; [|done].
  intros. by apply (player_ok_frame p).
Qed.

Lemma pc_clear_error_frame p :
  (player_ok p -> player_ok (pc_clear_error p)) /\
  next_song (pc_clear_error p) = next_song p.
Proof. split; [|done]. intros. by apply (player_ok_frame p). Qed.

Lemma pc_set_border_pause_frame b p :
  (player_ok p -> player_ok (pc_set_border_pause b p)) /\
  next_song (pc_set_border_pause b p) = next_song p.
Proof. split; [|done]. intros. by apply (player_ok_frame p). Qed.

End with_thread.
