(* ===== verification/PlayQueue.v ===== *)
(** * The play queue

    [struct queue] and the operations of [src/playqueue.h] and
    [src/playqueue.c]: the arrays [items] (songs in position order),
    [order] (order numbers to positions) and [id_to_position], with their
    assertions, bounds and 32-bit arithmetic. *)

From S2P Require Import Prelude GLib Song.
Local Open Scope Z_scope.

(** ** Data *)

Definition QUEUE_HASH_MULT : Z := 4.

Record queue_item := Item {
  item_song : song;
  item_id : Z;
  item_version : Z;
  item_priority : Z;
}.

#[global] Instance queue_item_eq_dec : EqDecision queue_item.
Proof. solve_decision. Defined.

Section with_glib.
Context {G : GLib}.

(** [q_id_cur] is the function-static variable [cur] of
    [queue_generate_id()]; the program has a single queue. *)
Record queue := Queue {
  q_max_length : Z;
  q_length : Z;
  q_version : Z;
  q_items : cells queue_item;
  q_order : cells Z;
  q_id_to_position : cells Z;
  q_repeat : bool;
  q_single : bool;
  q_consume : bool;
  q_random : bool;
  q_rand : GRand;
  q_id_cur : Z;
}.

Definition set_length (n : Z) (q : queue) : queue :=
  Queue (q_max_length q) n (q_version q) (q_items q) (q_order q)
    (q_id_to_position q) (q_repeat q) (q_single q) (q_consume q) (q_random q)
    (q_rand q) (q_id_cur q).
Definition set_version (v : Z) (q : queue) : queue :=
  Queue (q_max_length q) (q_length q) v (q_items q) (q_order q)
    (q_id_to_position q) (q_repeat q) (q_single q) (q_consume q) (q_random q)
    (q_rand q) (q_id_cur q).
Definition set_items (l : cells queue_item) (q : queue) : queue :=
  Queue (q_max_length q) (q_length q) (q_version q) l (q_order q)
    (q_id_to_position q) (q_repeat q) (q_single q) (q_consume q) (q_random q)
    (q_rand q) (q_id_cur q).
Definition set_order (l : cells Z) (q : queue) : queue :=
  Queue (q_max_length q) (q_length q) (q_version q) (q_items q) l
    (q_id_to_position q) (q_repeat q) (q_single q) (q_consume q) (q_random q)
    (q_rand q) (q_id_cur q).
Definition set_id_to_position (l : cells Z) (q : queue) : queue :=
  Queue (q_max_length q) (q_length q) (q_version q) (q_items q) (q_order q)
    l (q_repeat q) (q_single q) (q_consume q) (q_random q)
    (q_rand q) (q_id_cur q).
Definition set_rand (g : GRand) (q : queue) : queue :=
  Queue (q_max_length q) (q_length q) (q_version q) (q_items q) (q_order q)
    (q_id_to_position q) (q_repeat q) (q_single q) (q_consume q) (q_random q)
    g (q_id_cur q).
Definition set_id_cur (c : Z) (q : queue) : queue :=
  Queue (q_max_length q) (q_length q) (q_version q) (q_items q) (q_order q)
    (q_id_to_position q) (q_repeat q) (q_single q) (q_consume q) (q_random q)
    (q_rand q) c.
Definition set_modes (repeat single consume random : bool) (q : queue) : queue :=
  Queue (q_max_length q) (q_length q) (q_version q) (q_items q) (q_order q)
    (q_id_to_position q) repeat single consume random (q_rand q) (q_id_cur q).

Definition item_set_version (v : Z) (it : queue_item) : queue_item :=
  Item (item_song it) (item_id it) v (item_priority it).
Definition item_set_priority (p : Z) (it : queue_item) : queue_item :=
  Item (item_song it) (item_id it) (item_version it) p.

(** ** Accessors *)

Definition queue_length (q : queue) : res Z :=
  assert (q_length q <=? q_max_length q);;
  Ok (q_length q).

Definition queue_is_empty (q : queue) : bool := q_length q =? 0.

Definition queue_is_full (q : queue) : res bool :=
  assert (q_length q <=? q_max_length q);;
  Ok (q_max_length q <=? q_length q).

Definition queue_valid_position (q : queue) (position : Z) : bool :=
  position <? q_length q.

Definition queue_valid_order (q : queue) (order : Z) : bool :=
  order <? q_length q.

Definition queue_id_to_position (q : queue) (id : Z) : res Z :=
  if u32 (q_max_length q * QUEUE_HASH_MULT) <=? id then Ok (-1) else
  p ← aget (q_id_to_position q) id;
  assert (-1 <=? p);;
  assert (p <? i32 (q_length q));;
  Ok p.

Definition queue_position_to_id (q : queue) (position : Z) : res Z :=
  assert (position <? q_length q);;
  it ← aget (q_items q) position;
  Ok (item_id it).

Definition queue_order_to_position (q : queue) (order : Z) : res Z :=
  assert (order <? q_length q);;
  aget (q_order q) order.

(** [for (i = 0;; ++i) { assert(i < length); if (order[i] == position)
    return i; }]: the assertion bounds the loop, the fuel is one more than
    the number of iterations it allows. *)
Fixpoint position_to_order_from (fuel : nat) (q : queue) (i position : Z) : res Z :=
  match fuel with
  | O => Err OutOfFuel
  | S fuel' =>
      assert (i <? q_length q);;
      p ← aget (q_order q) i;
      if p =? position then Ok i
      else position_to_order_from fuel' q (i + 1) position
  end.

Definition queue_position_to_order (q : queue) (position : Z) : res Z :=
  assert (position <? q_length q);;
  position_to_order_from (S (Z.to_nat (q_length q))) q 0 position.

Definition queue_get_priority_at_position (q : queue) (position : Z) : res Z :=
  assert (position <? q_length q);;
  it ← aget (q_items q) position;
  Ok (item_priority it).

Definition queue_get (q : queue) (position : Z) : res song :=
  assert (position <? q_length q);;
  it ← aget (q_items q) position;
  Ok (item_song it).

Definition queue_get_order (q : queue) (order : Z) : res song :=
  position ← queue_order_to_position q order;
  queue_get q position.

Definition queue_song_newer (q : queue) (position version : Z) : res bool :=
  assert (position <? q_length q);;
  it ← aget (q_items q) position;
  Ok ((q_version q <? version) || (version <=? item_version it)
      || (item_version it =? 0)).

(** ** Identifiers *)

Fixpoint generate_id_loop (fuel : nat) (q : queue) (cur : Z) : res Z :=
  match fuel with
  | O => Err OutOfFuel
  | S fuel' =>
      let cur := u32 (cur + 1) in
      let cur := if u32 (q_max_length q * QUEUE_HASH_MULT) <=? cur then 0 else cur in
      p ← aget (q_id_to_position q) cur;
      if p =? -1 then Ok cur else generate_id_loop fuel' q cur
  end.

(** The loop visits every identifier once before it repeats, so as many
    iterations as there are identifiers are enough. *)
Definition queue_generate_id (q : queue) : res (Z * queue) :=
  cur ← generate_id_loop (Z.to_nat (q_max_length q * QUEUE_HASH_MULT)) q (q_id_cur q);
  Ok (cur, set_id_cur cur q).

(** ** Playback order *)

Definition queue_next_order (q : queue) (order : Z) : res Z :=
  assert (order <? q_length q);;
  if q_single q && q_repeat q && negb (q_consume q) then Ok order
  else if u32 (order + 1) <? q_length q then Ok (u32 (order + 1))
  else if q_repeat q && ((0 <? order) || negb (q_consume q)) then Ok 0
  else Ok (-1).

(** ** Versions *)

Definition queue_max_version : Z := 2 ^ 31 - 1.

Definition queue_increment_version (q : queue) : res queue :=
  let q := set_version (u32 (q_version q + 1)) q in
  if queue_max_version <=? q_version q then
    q ← for_range 0 (q_length q) (fun i q =>
          it ← aget (q_items q) i;
          items ← aset (q_items q) i (item_set_version 0 it);
          Ok (set_items items q)) q;
    Ok (set_version 1 q)
  else Ok q.

Definition queue_modify (q : queue) (order : Z) : res queue :=
  assert (order <? q_length q);;
  position ← aget (q_order q) order;
  it ← aget (q_items q) position;
  items ← aset (q_items q) position (item_set_version (q_version q) it);
  queue_increment_version (set_items items q).

Definition queue_modify_all (q : queue) : res queue :=
  q ← for_range 0 (q_length q) (fun i q =>
        it ← aget (q_items q) i;
        items ← aset (q_items q) i (item_set_version (q_version q) it);
        Ok (set_items items q)) q;
  queue_increment_version q.

(** ** Editing *)

Definition queue_append (q : queue) (s : song) (priority : Z) : res (Z * queue) :=
  '(id, q) ← queue_generate_id q;
  full ← queue_is_full q;
  assert (negb full);;
  items ← aset (q_items q) (q_length q) (Item s id (q_version q) priority);
  order ← aset (q_order q) (q_length q) (q_length q);
  idp ← aset (q_id_to_position q) id (i32 (q_length q));
  Ok (id, set_length (u32 (q_length q + 1))
            (set_id_to_position idp (set_order order (set_items items q)))).

Definition queue_swap (q : queue) (position1 position2 : Z) : res queue :=
  it1 ← aget (q_items q) position1;
  it2 ← aget (q_items q) position2;
  let id1 := item_id it1 in
  let id2 := item_id it2 in
  let tmp := it1 in
  items ← aset (q_items q) position1 it2;
  items ← aset items position2 tmp;
  a ← aget items position1;
  items ← aset items position1 (item_set_version (q_version q) a);
  b ← aget items position2;
  items ← aset items position2 (item_set_version (q_version q) b);
  idp ← aset (q_id_to_position q) id1 (i32 position2);
  idp ← aset idp id2 (i32 position1);
  Ok (set_id_to_position idp (set_items items q)).

Definition queue_swap_order (q : queue) (order1 order2 : Z) : res queue :=
  tmp ← aget (q_order q) order1;
  b ← aget (q_order q) order2;
  ord ← aset (q_order q) order1 b;
  ord ← aset ord order2 tmp;
  Ok (set_order ord q).

Definition queue_move_song_to (q : queue) (from to : Z) : res queue :=
  it ← aget (q_items q) from;
  items ← aset (q_items q) to it;
  it' ← aget items to;
  items ← aset items to (item_set_version (q_version q) it');
  idp ← aset (q_id_to_position q) (item_id it) (i32 to);
  Ok (set_id_to_position idp (set_items items q)).

(** The new position of the song at position [p] after a move. *)
Definition queue_move_position (from to p : Z) : Z :=
  if (from <? p) && (p <=? to) then u32 (p - 1)
  else if (p <? from) && (to <=? p) then u32 (p + 1)
  else if from =? p then to
  else p.

Definition map_order (f : Z -> Z) (q : queue) : res queue :=
  for_range 0 (q_length q) (fun i q =>
    p ← aget (q_order q) i;
    ord ← aset (q_order q) i (f p);
    Ok (set_order ord q)) q.

Definition queue_move (q : queue) (from to : Z) : res queue :=
  item ← aget (q_items q) from;
  q ← for_range from to (fun i q => queue_move_song_to q (u32 (i + 1)) i) q;
  q ← for_down from to (fun i q => queue_move_song_to q (u32 (i - 1)) i) q;
  idp ← aset (q_id_to_position q) (item_id item) (i32 to);
  items ← aset (q_items q) to item;
  it ← aget items to;
  items ← aset items to (item_set_version (q_version q) it);
  let q := set_items items (set_id_to_position idp q) in
  if q_random q then map_order (queue_move_position from to) q else Ok q.

(** The body of the last loop of [queue_move_range()]. *)
Definition queue_move_range_position (start end_ to p : Z) : Z :=
  if (end_ <=? p) && (p <? u32 (to + end_ - start)) then u32 (p - u32 (end_ - start))
  else if (p <? start) && (to <=? p) then u32 (p + u32 (end_ - start))
  else if (start <=? p) && (p <? end_) then u32 (p + u32 (to - start))
  else p.

(** [for (i = start - 1; i >= to && i != G_MAXUINT; i--)]: the counter is
    unsigned, [start = 0] makes it [G_MAXUINT] before the first test, and
    decrementing 0 makes it [G_MAXUINT] after the last one; the loop runs
    for [i = start - 1] down to [to]. *)
Definition queue_move_range (q : queue) (start end_ to : Z) : res queue :=
  (if (end_ <? start) then Err StackOverflow else Ok tt);;
  saved ← for_range start end_ (fun i acc =>
            it ← aget (q_items q) i; Ok (acc ++ [Some it])) [];
  q ← for_range end_ (u32 (end_ + to - start)) (fun i q =>
        queue_move_song_to q i (u32 (start + i - end_))) q;
  q ← for_down (start - 1) (to - 1) (fun i q =>
        queue_move_song_to q i (u32 (i + end_ - start))) q;
  q ← for_range start end_ (fun i q =>
        it ← aget saved (i - start);
        idp ← aset (q_id_to_position q) (item_id it) (i32 (u32 (to + i - start)));
        items ← aset (q_items q) (u32 (to + i - start)) it;
        it' ← aget items (u32 (to + i - start));
        items ← aset items (u32 (to + i - start)) (item_set_version (q_version q) it');
        Ok (set_items items (set_id_to_position idp q))) q;
  if q_random q then map_order (queue_move_range_position start end_ to) q else Ok q.

Definition queue_move_order (q : queue) (from_order to_order : Z) : res queue :=
  assert (from_order <? q_length q);;
  assert (to_order <=? q_length q);;
  from_position ← queue_order_to_position q from_order;
  q ← (if from_order <? to_order then
         for_range from_order to_order (fun i q =>
           p ← aget (q_order q) (i + 1);
           ord ← aset (q_order q) i p;
           Ok (set_order ord q)) q
       else
         for_down from_order to_order (fun i q =>
           p ← aget (q_order q) (i - 1);
           ord ← aset (q_order q) i p;
           Ok (set_order ord q)) q);
  ord ← aset (q_order q) to_order from_position;
  Ok (set_order ord q).

(** Also returns the songs that were freed. *)
Definition queue_delete (q : queue) (position : Z) : res (list song * queue) :=
  assert (position <? q_length q);;
  s ← queue_get q position;
  let freed := if negb (song_in_database s) then [s] else [] in
  id ← queue_position_to_id q position;
  order ← queue_position_to_order q position;
  let q := set_length (u32 (q_length q - 1)) q in
  idp ← aset (q_id_to_position q) id (-1);
  let q := set_id_to_position idp q in
  q ← for_range position (q_length q) (fun i q => queue_move_song_to q (i + 1) i) q;
  q ← for_range order (q_length q) (fun i q =>
        p ← aget (q_order q) (i + 1);
        ord ← aset (q_order q) i p;
        Ok (set_order ord q)) q;
  q ← for_range 0 (q_length q) (fun i q =>
        p ← aget (q_order q) i;
        if position <? p then
          ord ← aset (q_order q) i (u32 (p - 1));
          Ok (set_order ord q)
        else Ok q) q;
  Ok (freed, q).

Definition queue_clear (q : queue) : res (list song * queue) :=
  '(freed, q) ← for_range 0 (q_length q) (fun i '(freed, q) =>
    it ← aget (q_items q) i;
    let freed := if negb (song_in_database (item_song it))
                 then freed ++ [item_song it] else freed in
    idp ← aset (q_id_to_position q) (item_id it) (-1);
    Ok (freed, set_id_to_position idp q)) ([], q);
  Ok (freed, set_length 0 q).

(** [rand] and [cur] are the generator returned by [g_rand_new()] and the
    value of the static variable at the time of the call. *)
Definition queue_init (max_length : Z) (rand : GRand) (cur : Z) : res queue :=
  idp ← for_range 0 (u32 (max_length * QUEUE_HASH_MULT))
          (fun i idp => aset idp i (-1))
          (replicate (Z.to_nat (max_length * QUEUE_HASH_MULT)) None);
  Ok {| q_max_length := max_length; q_length := 0; q_version := 1;
        q_items := replicate (Z.to_nat max_length) None;
        q_order := replicate (Z.to_nat max_length) None;
        q_id_to_position := idp;
        q_repeat := false; q_single := false; q_consume := false;
        q_random := false; q_rand := rand; q_id_cur := cur |}.

(** The arrays and the generator are gone; what remains to be said is which
    songs were freed with them. *)
Definition queue_finish (q : queue) : res (list song) :=
  '(freed, _) ← queue_clear q;
  Ok freed.

Definition queue_restore_order (q : queue) : res queue :=
  for_range 0 (q_length q) (fun i q =>
    ord ← aset (q_order q) i i;
    Ok (set_order ord q)) q.

(** ** Random order *)

Definition queue_get_order_item_const (q : queue) (order : Z) : res queue_item :=
  assert (order <? q_length q);;
  position ← aget (q_order q) order;
  aget (q_items q) position.

Definition queue_get_order_priority (q : queue) (order : Z) : res Z :=
  it ← queue_get_order_item_const q order;
  Ok (item_priority it).

(** The priority the comparison function reads for an element of [order];
    [queue_sort_order_by_priority] checks that it can be read. *)
Definition position_priority (q : queue) (position : Z) : Z :=
  match aget (q_items q) position with Ok it => item_priority it | Err _ => 0 end.

Definition queue_item_compare_order_priority (q : queue) (ap bp : Z) : Z :=
  let a := position_priority q ap in
  let b := position_priority q bp in
  if a =? b then 0 else if b <? a then -1 else 1.

(** The cells [start..end-1] of an array. *)
Definition read_range (l : cells Z) (start end_ : Z) : res (list Z) :=
  for_range start end_ (fun i acc => x ← aget l i; Ok (acc ++ [x])) [].

Definition write_range (l : cells Z) (start : Z) (xs : list Z) : res (cells Z) :=
  '(_, l) ← for_range 0 (Z.of_nat (length xs)) (fun i '(xs, l) =>
     match xs with
     | [] => Ok ([], l)
     | x :: xs' => l ← aset l (start + i) x; Ok (xs', l)
     end) (xs, l);
  Ok l.

Definition queue_sort_order_by_priority (q : queue) (start end_ : Z) : res queue :=
  assert (q_random q);;
  assert (start <=? end_);;
  assert (end_ <=? q_length q);;
  range ← read_range (q_order q) start end_;
  for_range 0 (Z.of_nat (length range)) (fun i u =>
    p ← aget (Some <$> range) i; aget (q_items q) p;; Ok u) tt;;
  let sorted := g_qsort_with_data range (queue_item_compare_order_priority q) in
  ord ← write_range (q_order q) start sorted;
  Ok (set_order ord q).

(** [g_rand_int_range(queue->rand, begin, end)]: the bounds are converted
    to [gint32], the result back to [unsigned]. *)
Definition queue_rand_range (q : queue) (b e : Z) : Z * queue :=
  let '(r, g) := g_rand_int_range (q_rand q) (i32 b) (i32 e) in
  (u32 r, set_rand g q).

Definition queue_shuffle_order_range (q : queue) (start end_ : Z) : res queue :=
  assert (q_random q);;
  assert (start <=? end_);;
  assert (end_ <=? q_length q);;
  for_range start end_ (fun i q =>
    let '(ri, q) := queue_rand_range q i end_ in
    queue_swap_order q i ri) q.

(** The body of the loop over the sorted range: extend the current priority
    group, or shuffle the one that has just ended and start a new one. *)
Definition shuffle_group_step (i : Z) '((group_start, group_priority, q) : Z * Z * queue)
  : res (Z * Z * queue) :=
  priority ← queue_get_order_priority q i;
  assert (priority <=? group_priority);;
  if negb (priority =? group_priority) then
    q ← queue_shuffle_order_range q group_start i;
    Ok (i, priority, q)
  else Ok (group_start, group_priority, q).

Definition queue_shuffle_order_range_with_priority (q : queue) (start end_ : Z) : res queue :=
  assert (q_random q);;
  assert (start <=? end_);;
  assert (end_ <=? q_length q);;
  if start =? end_ then Ok q else
  q ← queue_sort_order_by_priority q start end_;
  prio0 ← queue_get_order_priority q start;
  '(group_start, _, q) ← for_range (start + 1) end_ shuffle_group_step (start, prio0, q);
  queue_shuffle_order_range q group_start end_.

Definition queue_shuffle_order (q : queue) : res queue :=
  queue_shuffle_order_range_with_priority q 0 (q_length q).

Definition queue_shuffle_order_first (q : queue) (start end_ : Z) : res queue :=
  let '(ri, q) := queue_rand_range q start end_ in
  queue_swap_order q start ri.

Definition queue_shuffle_order_last (q : queue) (start end_ : Z) : res queue :=
  let '(ri, q) := queue_rand_range q start end_ in
  queue_swap_order q (u32 (end_ - 1)) ri.

Definition queue_shuffle_range (q : queue) (start end_ : Z) : res queue :=
  assert (start <=? end_);;
  assert (end_ <=? q_length q);;
  for_range start end_ (fun i q =>
    let '(ri, q) := queue_rand_range q i end_ in
    queue_swap q i ri) q.

(** ** Priorities *)

Fixpoint find_priority_from (fuel : nat) (q : queue) (order priority exclude_order : Z) : res Z :=
  match fuel with
  | O => Ok (q_length q)
  | S fuel' =>
      position ← queue_order_to_position q order;
      it ← aget (q_items q) position;
      if (item_priority it <=? priority) && negb (order =? exclude_order)
      then Ok order
      else find_priority_from fuel' q (order + 1) priority exclude_order
  end.

Definition queue_find_priority_order (q : queue) (start_order priority exclude_order : Z) : res Z :=
  assert (q_random q);;
  assert (start_order <=? q_length q);;
  find_priority_from (Z.to_nat (q_length q - start_order)) q start_order priority exclude_order.

Fixpoint count_same_priority_from (fuel : nat) (q : queue) (start_order order priority : Z) : res Z :=
  match fuel with
  | O => Ok (q_length q - start_order)
  | S fuel' =>
      position ← queue_order_to_position q order;
      it ← aget (q_items q) position;
      if negb (item_priority it =? priority) then Ok (order - start_order)
      else count_same_priority_from fuel' q start_order (order + 1) priority
  end.

Definition queue_count_same_priority (q : queue) (start_order priority : Z) : res Z :=
  assert (q_random q);;
  assert (start_order <=? q_length q);;
  count_same_priority_from (Z.to_nat (q_length q - start_order)) q start_order start_order priority.

(** The part of [queue_set_priority()] after the early returns: move the
    item at order number [order] to its priority group behind
    [after_order], and shuffle it into that group. *)
Definition queue_reorder_priority (q : queue) (order priority after_order : Z) : res queue :=
  before_order ← queue_find_priority_order q (u32 (after_order + 1)) priority order;
  let new_order := if order <? before_order then u32 (before_order - 1) else before_order in
  q ← queue_move_order q order new_order;
  priority_count ← queue_count_same_priority q new_order priority;
  assert (1 <=? priority_count);;
  queue_shuffle_order_first q new_order (u32 (new_order + priority_count)).

Definition queue_set_priority (q : queue) (position priority after_order : Z) : res (bool * queue) :=
  assert (position <? q_length q);;
  it ← aget (q_items q) position;
  let old_priority := item_priority it in
  if old_priority =? priority then Ok (false, q) else
  items ← aset (q_items q) position
            (item_set_priority priority (item_set_version (q_version q) it));
  let q := set_items items q in
  if negb (q_random q) then Ok (true, q) else
  order ← queue_position_to_order q position;
  stay ← (if 0 <=? after_order then
            if order =? u32 after_order then Ok true
            else if order <? u32 after_order then
              after_position ← queue_order_to_position q (u32 after_order);
              after_item ← aget (q_items q) after_position;
              Ok ((item_priority after_item <? old_priority)
                  || (priority <=? item_priority after_item))
            else Ok false
          else Ok false);
  if stay : bool then Ok (true, q) else
  q ← queue_reorder_priority q order priority after_order;
  Ok (true, q).

Definition queue_set_priority_range (q : queue) (start_position end_position priority after_order : Z)
  : res (bool * queue) :=
  assert (start_position <=? end_position);;
  assert (end_position <=? q_length q);;
  after_position ← (if 0 <=? after_order then
                      p ← queue_order_to_position q (u32 after_order); Ok (i32 p)
                    else Ok (-1));
  for_range start_position end_position (fun i '(modified, q) =>
    after_order ← (if 0 <=? after_position then
                     o ← queue_position_to_order q (u32 after_position); Ok (i32 o)
                   else Ok (-1));
    '(m, q) ← queue_set_priority q i priority after_order;
    Ok (modified || m, q)) (false, q).

End with_glib.
