(* ===== verification/PlayQueueRep.v ===== *)
(** * The abstract queue and its representation

    Abstractly the queue is a list of items (in position order) and a
    permutation of the positions (the playback order).  [q_rep q its ord]
    says that the arrays of [q] represent them; the lemmas show that the
    accessors, [queue_append()], [queue_swap()], the order primitives and
    the version counter respect it. *)

From S2P Require Import Prelude GLib Song PlayQueue.

Local Open Scope Z_scope.

(** ** Definitions *)

(** The identifier table of [n] entries is the inverse of the identifiers
    of the items; [f] gives the item at a position. *)
Record ids_ok (n : Z) (idp : cells Z) (f : nat -> option queue_item) : Prop := {
  ids_length : length idp = Z.to_nat n;
  ids_forward p it : f p = Some it ->
    0 <= item_id it < n /\
    idp !! Z.to_nat (item_id it) = Some (Some (Z.of_nat p));
  ids_backward i v : idp !! i = Some v ->
    v = Some (-1) \/
    exists p it, f p = Some it /\ item_id it = Z.of_nat i /\ v = Some (Z.of_nat p);
}.

Section with_glib.
Context {G : GLib}.

Record q_rep (q : queue) (its : list queue_item) (ord : list nat) : Prop := {
  rep_max : 0 <= q_max_length q /\ q_max_length q * QUEUE_HASH_MULT < 2 ^ 32;
  rep_id_cur : 0 <= q_id_cur q < 2 ^ 32;
  rep_len : q_length q = Z.of_nat (length its);
  rep_cap : Z.of_nat (length its) <= q_max_length q;
  rep_items_length : length (q_items q) = Z.to_nat (q_max_length q);
  rep_items : holds (q_items q) its;
  rep_order_length : length (q_order q) = Z.to_nat (q_max_length q);
  rep_order : holds (q_order q) (Z.of_nat <$> ord);
  rep_perm : ord ≡ₚ seq 0 (length its);
  rep_ids : ids_ok (q_max_length q * QUEUE_HASH_MULT) (q_id_to_position q) (fun p => its !! p);
}.

(** The queue's invariant: it represents some items and some order, which
    is the identity unless random mode is on; versions are those the
    counter has handed out. *)
Record q_inv (q : queue) (its : list queue_item) (ord : list nat) : Prop := {
  inv_rep : q_rep q its ord;
  inv_ident : q_random q = false -> ord = seq 0 (length its);
  inv_version : 1 <= q_version q < queue_max_version;
  inv_versions : Forall (fun it => 0 <= item_version it <= q_version q) its;
}.

(** Store the item [w.2] at position [w.1], with a new version, and record
    the position in the identifier table. *)
Definition put (v : Z) (q : queue) (w : nat * queue_item) : queue :=
  set_id_to_position
    (<[Z.to_nat (item_id w.2) := Some (Z.of_nat w.1)]> (q_id_to_position q))
    (set_items (<[w.1 := Some (item_set_version v w.2)]> (q_items q)) q).

(** The items at positions [b..b+m-1], to be written to [a..a+m-1]. *)
Definition slice_writes (a b m : nat) (its : list queue_item) : list (nat * queue_item) :=
  zip (seq a m) (take m (drop b its)).

Definition puts (v : Z) (ws : list (nat * queue_item)) (q : queue) : queue :=
  foldl (put v) q ws.

End with_glib.

(** ** The identifier table *)

Lemma ids_injective n idp f p1 p2 it1 it2 :
  ids_ok n idp f -> f p1 = Some it1 -> f p2 = Some it2 ->
  item_id it1 = item_id it2 -> p1 = p2.
Proof.
  intros [_ Hf _] H1 H2 Hid. apply Hf in H1 as [_ H1]. apply Hf in H2 as [_ H2].
  rewrite Hid in H1. simplify_eq. lia.
Qed.

Lemma ids_ok_ext n idp f g :
  ids_ok n idp f -> (forall p, f p = g p) -> ids_ok n idp g.
Proof.
  intros [Hl Hf Hb] Hfg. split; [done | |].
  - intros p it. rewrite <- Hfg. apply Hf.
  - intros i v Hv. destruct (Hb i v Hv) as [?|(p & it & ? & ?)]; [by left|].
    right. exists p, it. by rewrite <- Hfg.
Qed.

Lemma ids_remove n idp f p it g :
  ids_ok n idp f -> f p = Some it ->
  (forall p', g p' = if decide (p' = p) then None else f p') ->
  ids_ok n (<[Z.to_nat (item_id it) := Some (-1)]> idp) g.
Proof.
  intros Hok Hp Hg. pose proof Hok as [Hl Hf Hb].
  destruct (Hf p it Hp) as [Hr _]. split.
  - by rewrite length_insert.
  - intros p' it' H. rewrite Hg in H. case_decide as Hne; [done|].
    destruct (Hf p' it' H) as [? Hi]. split; [done|].
    rewrite list_lookup_insert_ne; [done|]. intros Heq.
    apply Hne. eapply ids_injective; [done..|]. lia.
  - intros i v Hv. apply list_lookup_insert_Some in Hv as [(<- & <- & _)|[Hne Hv]]; [by left|].
    destruct (Hb i v Hv) as [?|(p' & it' & H & ? & ?)]; [by left|]. right.
    exists p', it'. rewrite Hg. case_decide; [|done]. naive_solver lia.
Qed.

(** Entering a new identifier that was free. *)
Lemma ids_add n idp f p it g :
  ids_ok n idp f -> f p = None -> 0 <= item_id it < n ->
  idp !! Z.to_nat (item_id it) = Some (Some (-1)) ->
  (forall p', g p' = if decide (p' = p) then Some it else f p') ->
  ids_ok n (<[Z.to_nat (item_id it) := Some (Z.of_nat p)]> idp) g.
Proof.
  intros [Hl Hf Hb] Hp Hr Hfree Hg. split.
  - by rewrite length_insert.
  - intros p' it' H. rewrite Hg in H. case_decide as Heq.
    + simplify_eq. split; [done|]. rewrite list_lookup_insert_eq by lia. done.
    + destruct (Hf p' it' H) as [? Hi]. split; [done|].
      rewrite list_lookup_insert_ne; [done|]. intros He. rewrite He in Hfree.
      rewrite Hfree in Hi. simplify_eq. lia.
  - intros i v Hv. apply list_lookup_insert_Some in Hv as [(<- & <- & _)|[Hne Hv]].
    + right. exists p, it. rewrite Hg, decide_True by done. split_and!; [done|lia|done].
    + destruct (Hb i v Hv) as [?|(p' & it' & H & ? & ?)]; [by left|]. right.
      exists p', it'. rewrite Hg. case_decide; naive_solver.
Qed.

Section puts.
Context {G : GLib}.

Lemma puts_app v ws1 ws2 q : puts v (ws1 ++ ws2) q = puts v ws2 (puts v ws1 q).
Proof. apply foldl_app. Qed.

Lemma puts_frame v ws q :
  q_max_length (puts v ws q) = q_max_length q /\
  q_length (puts v ws q) = q_length q /\
  q_version (puts v ws q) = q_version q /\
  q_order (puts v ws q) = q_order q /\
  q_random (puts v ws q) = q_random q /\
  length (q_items (puts v ws q)) = length (q_items q) /\
  length (q_id_to_position (puts v ws q)) = length (q_id_to_position q) /\
  puts v ws q = set_id_to_position (q_id_to_position (puts v ws q))
                  (set_items (q_items (puts v ws q)) q).
Proof.
  induction ws as [|w ws IH] using rev_ind; [by destruct q|].
  rewrite puts_app. simpl. set (q' := puts v ws q) in *.
  destruct IH as (? & ? & ? & ? & ? & ? & ? & Heq).
  repeat split; simpl; rewrite ?length_insert; try done.
  rewrite Heq at 1. done.
Qed.

Lemma puts_items_notin v ws q p :
  p ∉ ws.*1 -> q_items (puts v ws q) !! p = q_items q !! p.
Proof.
  induction ws as [|w ws IH] using rev_ind; [done|].
  rewrite fmap_app, puts_app. intros Hp. simpl.
  rewrite list_lookup_insert_ne by set_solver. apply IH. set_solver.
Qed.

Lemma puts_items_in v ws q p it :
  NoDup ws.*1 -> (p, it) ∈ ws -> (p < length (q_items q))%nat ->
  q_items (puts v ws q) !! p = Some (Some (item_set_version v it)).
Proof.
  induction ws as [|w ws IH] using rev_ind; [set_solver|].
  rewrite fmap_app, puts_app. intros (Hnd & Hdis & _)%NoDup_app Hin Hp. simpl.
  apply elem_of_app in Hin as [Hin|Hin].
  - rewrite list_lookup_insert_ne; [by apply IH|]. intros <-.
    apply (Hdis w.1); [|set_solver]. apply list_elem_of_fmap. by exists (w.1, it).
  - apply list_elem_of_singleton in Hin as <-. simpl.
    apply list_lookup_insert_eq. pose proof (puts_frame v ws q). naive_solver lia.
Qed.

Lemma puts_ids_notin v ws q i :
  (forall w, w ∈ ws -> Z.to_nat (item_id w.2) <> i) ->
  q_id_to_position (puts v ws q) !! i = q_id_to_position q !! i.
Proof.
  induction ws as [|w ws IH] using rev_ind; [done|].
  rewrite puts_app. intros Hp. simpl. rewrite list_lookup_insert_ne.
  - apply IH. intros w' ?. apply Hp. set_solver.
  - apply Hp. set_solver.
Qed.

Lemma puts_ids_in v ws q p it :
  NoDup ((fun w => Z.to_nat (item_id w.2)) <$> ws) -> (p, it) ∈ ws ->
  (Z.to_nat (item_id it) < length (q_id_to_position q))%nat ->
  q_id_to_position (puts v ws q) !! Z.to_nat (item_id it) = Some (Some (Z.of_nat p)).
Proof.
  induction ws as [|w ws IH] using rev_ind; [set_solver|].
  rewrite fmap_app, puts_app. intros (Hnd & Hdis & _)%NoDup_app Hin Hp. simpl.
  apply elem_of_app in Hin as [Hin|Hin].
  - rewrite list_lookup_insert_ne; [by apply IH|]. intros Heq.
    apply (Hdis (Z.to_nat (item_id it))); [|rewrite <- Heq; set_solver].
    apply list_elem_of_fmap. by exists (p, it).
  - apply list_elem_of_singleton in Hin as <-. simpl.
    apply list_lookup_insert_eq. pose proof (puts_frame v ws q). naive_solver lia.
Qed.

(** Writes [ws] that rearrange the items [f] into the items [g] keep the
    identifier table in step with the items. *)
Lemma ids_puts v ws q n f g :
  ids_ok n (q_id_to_position q) f ->
  NoDup ((fun w => Z.to_nat (item_id w.2)) <$> ws) ->
  (forall p it, (p, it) ∈ ws -> exists p0, f p0 = Some it) ->
  (forall p it, (p, it) ∈ ws -> g p = Some (item_set_version v it)) ->
  (forall p it', g p = Some it' -> (exists it, (p, it) ∈ ws /\ it' = item_set_version v it) \/
     (f p = Some it' /\ forall w, w ∈ ws -> item_id w.2 <> item_id it')) ->
  (forall p it, f p = Some it -> (forall w, w ∈ ws -> item_id w.2 <> item_id it) ->
     g p = Some it) ->
  ids_ok n (q_id_to_position (puts v ws q)) g.
Proof.
  intros [Hl Hf Hb] Hnd Hsrc Hdst Hg Hkeep.
  assert (forall w, w ∈ ws -> 0 <= item_id w.2 < n) as Hr.
  { intros [p it] Hw. destruct (Hsrc _ _ Hw) as [p0 H0]. by apply Hf in H0 as []. }
  split.
  - pose proof (puts_frame v ws q). naive_solver congruence.
  - intros p it' Hp. destruct (Hg p it' Hp) as [(it & Hw & ->)|[Hfp Hne]].
    + specialize (Hr _ Hw). simpl in *. split; [done|].
      apply puts_ids_in; [done..|]. lia.
    + destruct (Hf p it' Hfp) as [Hr' Hi]. split; [done|].
      rewrite puts_ids_notin; [done|]. intros w Hw Heq. apply (Hne w Hw).
      specialize (Hr w Hw). lia.
  - intros i v' Hv.
    destruct (decide (Exists (fun w => Z.to_nat (item_id w.2) = i) ws)) as [He|He].
    + apply Exists_exists in He as ([p it] & Hw & Hi). simpl in Hi. subst i.
      specialize (Hr _ Hw). simpl in Hr. right. exists p, (item_set_version v it).
      rewrite (puts_ids_in _ _ _ p it) in Hv by (done || lia).
      split_and!; [auto | simpl; lia | congruence].
    + rewrite puts_ids_notin in Hv.
      2:{ intros w Hw Hi. apply He, Exists_exists. eauto. }
      destruct (Hb i v' Hv) as [?|(p & it & Hp & Hi & ->)]; [by left|].
      right. exists p, it. split_and!; [|done..]. apply Hkeep; [done|].
      intros w Hw Heq. apply He, Exists_exists. exists w. split; [done|]. lia.
Qed.

(** A loop that performs the writes [ws] one after the other. *)
Lemma puts_loop v ws q (a : nat) (body : Z -> queue -> res queue) :
  (forall k w, ws !! k = Some w ->
     body (Z.of_nat (a + k)) (puts v (take k ws) q) = Ok (puts v (take (S k) ws) q)) ->
  for_range (Z.of_nat a) (Z.of_nat (a + length ws)) body q = Ok (puts v ws q).
Proof.
  intros Hbody.
  assert (wp (for_range (Z.of_nat a) (Z.of_nat (a + length ws)) body q)
            (fun q' => q' = puts v (take (a + length ws - a) ws) q)) as Hwp.
  { apply (for_range_inv (fun k q' => q' = puts v (take (k - a) ws) q)); [lia | |].
    - by rewrite Nat.sub_diag.
    - intros k s Hk ->. destruct (lookup_lt_is_Some_2 ws (k - a)) as [w Hw]; [lia|].
      specialize (Hbody _ _ Hw). replace (a + (k - a))%nat with k in Hbody by lia.
      rewrite Hbody. simpl. by replace (S k - a)%nat with (S (k - a)) by lia. }
  apply wp_inv in Hwp as (q' & -> & ->). do 2 f_equal. apply take_ge. lia.
Qed.

Lemma puts_loop_down v ws q (a : nat) (body : Z -> queue -> res queue) :
  (forall k w, ws !! k = Some w ->
     body (Z.of_nat a - Z.of_nat k) (puts v (take k ws) q) = Ok (puts v (take (S k) ws) q)) ->
  for_down (Z.of_nat a) (Z.of_nat a - Z.of_nat (length ws)) body q = Ok (puts v ws q).
Proof.
  unfold for_down.
  replace (Z.to_nat (Z.of_nat a - (Z.of_nat a - Z.of_nat (length ws))))
    with (length ws) by lia.
  generalize (Z.of_nat a) as z. revert q.
  induction ws as [|w ws IH]; intros q z Hbody; [done|]. simpl.
  pose proof (Hbody 0%nat w eq_refl) as H0. simpl in H0. rewrite Z.sub_0_r in H0.
  rewrite H0. simpl. apply IH. intros k w' Hw'.
  specialize (Hbody (S k) w' Hw'). simpl in Hbody.
  by replace (z - 1 - Z.of_nat k) with (z - Z.pos (Pos.of_succ_nat k)) by lia.
Qed.

Lemma puts_snoc v ws q k w :
  ws !! k = Some w -> puts v (take (S k) ws) q = put v (puts v (take k ws) q) w.
Proof. intros Hw. rewrite (take_S_r _ _ w Hw), puts_app. done. Qed.

End puts.

(** * Queue operations on the abstract queue

    Accessors, identifiers, appending, swapping, the order primitives and
    version numbers, each specified on the items and the order that a queue
    represents.  Every specification also says that the operation returns:
    no assertion fails and no array is accessed out of bounds. *)

(** ** Definitions *)

(** Items up to their version numbers. *)
Definition unversioned (its : list queue_item) : list queue_item :=
  item_set_version 0 <$> its.

Section with_glib.
Context {G : GLib}.

(** The configuration of the queue, which no edit changes. *)
Record q_frame (q q' : queue) : Prop := {
  frame_max : q_max_length q' = q_max_length q;
  frame_repeat : q_repeat q' = q_repeat q;
  frame_single : q_single q' = q_single q;
  frame_consume : q_consume q' = q_consume q;
  frame_random : q_random q' = q_random q;
}.

#[global] Instance q_frame_refl : Reflexive q_frame.
Proof. by intros q. Qed.
#[global] Instance q_frame_trans : Transitive q_frame.
Proof. intros q1 q2 q3 [] []. split; congruence. Qed.

(** Steps of the identifier search until [i] is tried. *)
Definition id_distance (n cur i : Z) : Z :=
  if cur <? i then i - cur
  else if n - 1 <=? cur then i + 1
  else i - cur + n.

(** A loop that overwrites every order number. *)
Lemma order_write_loop (q : queue) (n : nat) (f : nat -> Z) (body : Z -> queue -> res queue) :
  q_length q = Z.of_nat n -> (n <= length (q_order q))%nat ->
  (forall k q', (k < n)%nat -> length (q_order q') = length (q_order q) ->
     q' = set_order (q_order q') q -> q_order q' !! k = q_order q !! k ->
     body (Z.of_nat k) q' = Ok (set_order (<[k := Some (f k)]> (q_order q')) q')) ->
  exists q', for_range 0 (q_length q) body q = Ok q' /\
    q' = set_order (q_order q') q /\ length (q_order q') = length (q_order q) /\
    holds (q_order q') (f <$> seq 0 n).
Proof.
  intros Hn Hroom Hbody. rewrite Hn. apply wp_inv. eapply wp_mono.
  { apply (for_range_inv (fun k q' => q' = set_order (q_order q') q /\
      length (q_order q') = length (q_order q) /\
      (forall j, (k <= j)%nat -> q_order q' !! j = q_order q !! j) /\
      holds (q_order q') (f <$> seq 0 k)) _ 0 n).
    - lia.
    - split_and!; [by destruct q | done | done | done].
    - intros k q' Hk (Hq & Hl & Hj & Hh). rewrite Hbody; [|auto with lia..].
      cbn [wp q_order set_order]. split_and!.
      + by rewrite Hq.
      + by rewrite length_insert.
      + intros j ?. rewrite list_lookup_insert_ne by lia. apply Hj. lia.
      + rewrite seq_S, fmap_app. intros j y Hy. destruct (decide (j = k)) as [->|Hne].
        * rewrite list_lookup_insert_eq by lia.
          rewrite lookup_app_r in Hy by (rewrite length_fmap, length_seq; lia).
          rewrite length_fmap, length_seq, Nat.sub_diag in Hy. by simplify_eq/=.
        * rewrite list_lookup_insert_ne by done. apply Hh.
          apply lookup_app_Some in Hy as [?|[Hge Hy]]; [done|].
          rewrite length_fmap, length_seq in Hy, Hge.
          destruct (j - k)%nat eqn:Hd; [lia | done]. }
  intros q' (? & ? & _ & ?). done.
Qed.

(** Shifting order numbers down by one index. *)
Lemma order_shift_loop (q : queue) (xs : list Z) (a b : nat) :
  holds (q_order q) xs -> (a <= b < length xs)%nat ->
  exists l, for_range (Z.of_nat a) (Z.of_nat b) (fun i q =>
      p ← aget (q_order q) (i + 1); ord ← aset (q_order q) i p; Ok (set_order ord q)) q
    = Ok (set_order l q) /\ length l = length (q_order q) /\
    (forall j x, xs !! j = Some x -> (j < a)%nat \/ (b <= j)%nat -> l !! j = Some (Some x)) /\
    (forall j x, (a <= j < b)%nat -> xs !! S j = Some x -> l !! j = Some (Some x)).
Proof.
  intros Hh Hab. pose proof (holds_length _ _ Hh) as Hroom.
  assert (wp (for_range (Z.of_nat a) (Z.of_nat b) (fun i q =>
      p ← aget (q_order q) (i + 1); ord ← aset (q_order q) i p; Ok (set_order ord q)) q)
    (fun q' => exists l, q' = set_order l q /\ length l = length (q_order q) /\
      (forall j x, xs !! j = Some x -> (j < a)%nat \/ (b <= j)%nat -> l !! j = Some (Some x)) /\
      (forall j x, (a <= j < b)%nat -> xs !! S j = Some x -> l !! j = Some (Some x)))) as Hwp.
  { apply (for_range_inv (fun k q' => exists l, q' = set_order l q /\
      length l = length (q_order q) /\
      (forall j x, xs !! j = Some x -> (j < a)%nat \/ (k <= j)%nat -> l !! j = Some (Some x)) /\
      (forall j x, (a <= j < k)%nat -> xs !! S j = Some x -> l !! j = Some (Some x)))); [lia| |].
    - exists (q_order q). split_and!; [by destruct q | done | auto | lia].
    - intros k q' Hk (l & -> & Hl & H1 & H2).
      destruct (lookup_lt_is_Some_2 xs (S k)) as [x Hx]; [lia|].
      replace (Z.of_nat k + 1) with (Z.of_nat (S k)) by lia. simpl q_order.
      rewrite (aget_ok _ _ x) by (apply H1; [done|lia]). simpl.
      rewrite aset_ok by lia. simpl. eexists. split_and!; [done|by rewrite length_insert| |].
      + intros j y Hy Hj. rewrite list_lookup_insert_ne by lia. apply H1; [done|lia].
      + intros j y Hj Hy. destruct (decide (j = k)) as [->|].
        * rewrite list_lookup_insert_eq by lia. congruence.
        * rewrite list_lookup_insert_ne by lia. apply H2; [lia|done]. }
  apply wp_inv in Hwp as (q' & Heq & l & -> & ?). exists l. done.
Qed.

(** Shifting order numbers up by one index. *)
Lemma order_shift_down_loop (q : queue) (xs : list Z) (a b : nat) :
  holds (q_order q) xs -> (b <= a < length xs)%nat ->
  exists l, for_down (Z.of_nat a) (Z.of_nat b) (fun i q =>
      p ← aget (q_order q) (i - 1); ord ← aset (q_order q) i p; Ok (set_order ord q)) q
    = Ok (set_order l q) /\ length l = length (q_order q) /\
    (forall j x, xs !! j = Some x -> (j <= b)%nat \/ (a < j)%nat -> l !! j = Some (Some x)) /\
    (forall j x, (b <= j < a)%nat -> xs !! j = Some x -> l !! S j = Some (Some x)).
Proof.
  intros Hh Hab. pose proof (holds_length _ _ Hh) as Hroom.
  assert (wp (for_down (Z.of_nat a) (Z.of_nat b) (fun i q =>
      p ← aget (q_order q) (i - 1); ord ← aset (q_order q) i p; Ok (set_order ord q)) q)
    (fun q' => exists l, q' = set_order l q /\ length l = length (q_order q) /\
      (forall j x, xs !! j = Some x -> (j <= b)%nat \/ (a < j)%nat -> l !! j = Some (Some x)) /\
      (forall j x, (b <= j < a)%nat -> xs !! j = Some x -> l !! S j = Some (Some x)))) as Hwp.
  { apply (for_down_inv (fun k q' => exists l, q' = set_order l q /\
      length l = length (q_order q) /\
      (forall j x, xs !! j = Some x -> (j <= k)%nat \/ (a < j)%nat -> l !! j = Some (Some x)) /\
      (forall j x, (k <= j < a)%nat -> xs !! j = Some x -> l !! S j = Some (Some x)))); [lia| |].
    - exists (q_order q). split_and!; [by destruct q | done | auto | lia].
    - intros k q' Hk (l & -> & Hl & H1 & H2).
      destruct (lookup_lt_is_Some_2 xs (k - 1)) as [x Hx]; [lia|].
      replace (Z.of_nat k - 1) with (Z.of_nat (k - 1)) by lia. simpl q_order.
      rewrite (aget_ok _ _ x) by (apply H1; [done|lia]). simpl.
      rewrite aset_ok by lia. simpl. eexists. split_and!; [done|by rewrite length_insert| |].
      + intros j y Hy Hj. rewrite list_lookup_insert_ne by lia. apply H1; [done|lia].
      + intros j y Hj Hy. destruct (decide (S j = k)) as [Hjk|].
        * rewrite Hjk, list_lookup_insert_eq by lia. replace j with (k - 1)%nat in Hy by lia.
          congruence.
        * rewrite list_lookup_insert_ne by lia. apply H2; [lia|done]. }
  apply wp_inv in Hwp as (q' & Heq & l & -> & ?). exists l. done.
Qed.

Section rep.
Context (q : queue) (its : list queue_item) (ord : list nat).
Hypothesis Hrep : q_rep q its ord.

(** ** Reading the representation *)

Lemma rep_length_ord : length ord = length its.
Proof. by rewrite (rep_perm _ _ _ Hrep), length_seq. Qed.

Lemma rep_length_pos : 0 <= Z.of_nat (length its) < 2 ^ 30.
Proof. destruct Hrep. unfold QUEUE_HASH_MULT in *. lia. Qed.

Lemma rep_ord_lt i p : ord !! i = Some p -> (p < length its)%nat.
Proof.
  intros H. apply list_elem_of_lookup_2 in H. rewrite (rep_perm _ _ _ Hrep) in H.
  apply elem_of_seq in H. lia.
Qed.

Lemma rep_ord_nodup : NoDup ord.
Proof. rewrite (rep_perm _ _ _ Hrep). apply NoDup_seq. Qed.

Lemma rep_ord_inj i j p : ord !! i = Some p -> ord !! j = Some p -> i = j.
Proof. apply NoDup_lookup, rep_ord_nodup. Qed.

Lemma rep_ord_find p : (p < length its)%nat -> exists i, ord !! i = Some p.
Proof.
  intros H. apply list_elem_of_lookup. rewrite (rep_perm _ _ _ Hrep).
  apply elem_of_seq. lia.
Qed.

Lemma rep_ord_is_Some i : (i < length its)%nat -> exists p, ord !! i = Some p.
Proof. intros H. apply lookup_lt_is_Some_2. by rewrite rep_length_ord. Qed.

Lemma rep_get_item p it : its !! p = Some it -> aget (q_items q) (Z.of_nat p) = Ok it.
Proof. apply holds_get, (rep_items _ _ _ Hrep). Qed.

Lemma rep_get_order i p :
  ord !! i = Some p -> aget (q_order q) (Z.of_nat i) = Ok (Z.of_nat p).
Proof.
  intros H. eapply holds_get; [apply (rep_order _ _ _ Hrep)|].
  by rewrite list_lookup_fmap, H.
Qed.

Lemma rep_items_room p : (p < length its)%nat -> (p < length (q_items q))%nat.
Proof. destruct Hrep. lia. Qed.

Lemma rep_order_room p : (p < length its)%nat -> (p < length (q_order q))%nat.
Proof. destruct Hrep. lia. Qed.

Lemma rep_lt_length p : (p < length its)%nat -> (Z.of_nat p <? q_length q) = true.
Proof. rewrite (rep_len _ _ _ Hrep). intros. apply Z.ltb_lt. lia. Qed.

(** ** Accessors *)

Lemma queue_length_ok : queue_length q = Ok (Z.of_nat (length its)).
Proof.
  unfold queue_length. destruct Hrep.
  replace (q_length q <=? q_max_length q) with true; [simpl; congruence|].
  symmetry. apply Z.leb_le. lia.
Qed.

Lemma queue_is_full_ok :
  queue_is_full q = Ok (q_max_length q <=? Z.of_nat (length its)).
Proof.
  unfold queue_is_full. destruct Hrep.
  replace (q_length q <=? q_max_length q) with true; [simpl; congruence|].
  symmetry. apply Z.leb_le. lia.
Qed.

Lemma queue_order_to_position_ok i p :
  ord !! i = Some p -> queue_order_to_position q (Z.of_nat i) = Ok (Z.of_nat p).
Proof.
  intros H. unfold queue_order_to_position. rewrite rep_lt_length.
  - simpl. by apply rep_get_order.
  - rewrite <- rep_length_ord. by eapply lookup_lt_Some.
Qed.

Lemma position_to_order_from_ok fuel i j p :
  (i <= j)%nat -> ord !! j = Some p -> (j - i < fuel)%nat ->
  position_to_order_from fuel q (Z.of_nat i) (Z.of_nat p) = Ok (Z.of_nat j).
Proof.
  revert i. induction fuel as [|fuel IH]; intros i Hij Hj Hfuel; [lia|]. simpl.
  pose proof (lookup_lt_Some _ _ _ Hj) as Hlt. rewrite rep_length_ord in Hlt.
  rewrite rep_lt_length by lia. simpl.
  destruct (rep_ord_is_Some i) as [p' Hp']; [lia|].
  rewrite (rep_get_order _ _ Hp'). simpl. case_Z.
  - assert (p' = p) as -> by lia. do 2 f_equal. by eapply rep_ord_inj.
  - replace (Z.of_nat i + 1) with (Z.of_nat (S i)) by lia.
    assert (i <> j) by congruence. apply IH; [lia | done | lia].
Qed.

Lemma queue_position_to_order_ok i p :
  ord !! i = Some p -> queue_position_to_order q (Z.of_nat p) = Ok (Z.of_nat i).
Proof.
  intros H. unfold queue_position_to_order.
  pose proof (lookup_lt_Some _ _ _ H) as Hlt. rewrite rep_length_ord in Hlt.
  rewrite rep_lt_length by (by eapply rep_ord_lt). cbn [mbind res_bind assert].
  apply (position_to_order_from_ok _ 0); [lia | done |].
  rewrite (rep_len _ _ _ Hrep). lia.
Qed.

Lemma queue_get_ok p it :
  its !! p = Some it -> queue_get q (Z.of_nat p) = Ok (item_song it).
Proof.
  intros H. unfold queue_get. rewrite rep_lt_length by (by eapply lookup_lt_Some).
  simpl. by rewrite (rep_get_item _ _ H).
Qed.

Lemma queue_get_order_ok i p it :
  ord !! i = Some p -> its !! p = Some it ->
  queue_get_order q (Z.of_nat i) = Ok (item_song it).
Proof.
  intros Hi Hp. unfold queue_get_order. rewrite (queue_order_to_position_ok _ _ Hi).
  simpl. by apply queue_get_ok.
Qed.

Lemma queue_position_to_id_ok p it :
  its !! p = Some it -> queue_position_to_id q (Z.of_nat p) = Ok (item_id it).
Proof.
  intros H. unfold queue_position_to_id.
  rewrite rep_lt_length by (by eapply lookup_lt_Some).
  simpl. by rewrite (rep_get_item _ _ H).
Qed.

Lemma rep_hash_size : u32 (q_max_length q * QUEUE_HASH_MULT) = q_max_length q * QUEUE_HASH_MULT.
Proof. destruct Hrep. unfold QUEUE_HASH_MULT in *. apply u32_small. lia. Qed.

Lemma queue_id_to_position_ok p it :
  its !! p = Some it -> queue_id_to_position q (item_id it) = Ok (Z.of_nat p).
Proof.
  intros H. unfold queue_id_to_position. rewrite rep_hash_size.
  destruct (ids_forward _ _ _ (rep_ids _ _ _ Hrep) _ _ H) as [Hr Hi].
  pose proof (lookup_lt_Some _ _ _ H). pose proof rep_length_pos.
  destruct (Z.leb_spec (q_max_length q * QUEUE_HASH_MULT) (item_id it)); [lia|].
  rewrite (aget_ok_Z _ _ _ (proj1 Hr) Hi). simpl. rewrite (rep_len _ _ _ Hrep).
  rewrite i32_small by lia.
  replace (-1 <=? Z.of_nat p) with true by (symmetry; apply Z.leb_le; lia).
  by replace (Z.of_nat p <? Z.of_nat (length its)) with true by (symmetry; apply Z.ltb_lt; lia).
Qed.

Lemma queue_id_to_position_none id :
  0 <= id -> (forall p it, its !! p = Some it -> item_id it <> id) ->
  queue_id_to_position q id = Ok (-1).
Proof.
  intros Hid Hne. unfold queue_id_to_position. rewrite rep_hash_size.
  destruct (Z.leb_spec (q_max_length q * QUEUE_HASH_MULT) id); [done|].
  pose proof (ids_length _ _ _ (rep_ids _ _ _ Hrep)) as Hl.
  destruct (lookup_lt_is_Some_2 (q_id_to_position q) (Z.to_nat id)) as [v Hv]; [lia|].
  destruct (ids_backward _ _ _ (rep_ids _ _ _ Hrep) _ _ Hv)
    as [->|(p & it & Hp & Hi & _)]; [|exfalso; apply (Hne p it Hp); lia].
  rewrite (aget_ok_Z _ _ _ Hid Hv). simpl. rewrite (rep_len _ _ _ Hrep).
  pose proof rep_length_pos. rewrite i32_small by lia.
  by replace (-1 <? Z.of_nat (length its)) with true by (symmetry; apply Z.ltb_lt; lia).
Qed.

(** ** Identifiers *)

Lemma rep_id_free :
  Z.of_nat (length its) < q_max_length q * QUEUE_HASH_MULT ->
  exists i, 0 <= i < q_max_length q * QUEUE_HASH_MULT /\
    q_id_to_position q !! Z.to_nat i = Some (Some (-1)).
Proof.
  intros Hlt. set (n := q_max_length q * QUEUE_HASH_MULT) in *.
  pose proof (rep_ids _ _ _ Hrep) as Hids. fold n in Hids.
  destruct (decide (Exists (fun i => q_id_to_position q !! i = Some (Some (-1)))
                      (seq 0 (Z.to_nat n)))) as [He|He].
  { apply Exists_exists in He as (i & Hi & Hv). apply elem_of_seq in Hi.
    exists (Z.of_nat i). rewrite Nat2Z.id. split; [lia | done]. }
  exfalso. assert (seq 0 (Z.to_nat n) ⊆+ (fun it => Z.to_nat (item_id it)) <$> its) as Hsub.
  { apply NoDup_submseteq; [apply NoDup_seq|]. intros i Hi.
    destruct (lookup_lt_is_Some_2 (q_id_to_position q) i) as [v Hv].
    { rewrite (ids_length _ _ _ Hids). apply elem_of_seq in Hi. lia. }
    destruct (ids_backward _ _ _ Hids _ _ Hv) as [->|(p & it & Hp & Hid & _)].
    - exfalso. apply He, Exists_exists. eauto.
    - apply list_elem_of_fmap. exists it. split; [lia|]. by eapply list_elem_of_lookup_2. }
  apply submseteq_length in Hsub. rewrite length_seq, length_fmap in Hsub. lia.
Qed.

Lemma generate_id_loop_ok fuel cur i :
  0 <= cur < 2 ^ 32 -> 0 <= i < q_max_length q * QUEUE_HASH_MULT ->
  q_id_to_position q !! Z.to_nat i = Some (Some (-1)) ->
  id_distance (q_max_length q * QUEUE_HASH_MULT) cur i <= Z.of_nat fuel ->
  exists id, generate_id_loop fuel q cur = Ok id /\
    0 <= id < q_max_length q * QUEUE_HASH_MULT /\
    q_id_to_position q !! Z.to_nat id = Some (Some (-1)).
Proof.
  pose proof rep_hash_size as Hu. destruct (rep_max _ _ _ Hrep) as [_ Hmax].
  pose proof (ids_length _ _ _ (rep_ids _ _ _ Hrep)) as Hl.
  set (n := q_max_length q * QUEUE_HASH_MULT) in *.
  revert cur. induction fuel as [|fuel IH]; intros cur Hcur Hi Hfree Hdist.
  { unfold id_distance in Hdist. exfalso. revert Hdist. case_Z; lia. }
  simpl. fold n. rewrite Hu.
  set (c := if n <=? u32 (cur + 1) then 0 else u32 (cur + 1)).
  assert (c = (if n - 1 <=? cur then 0 else cur + 1) /\ 0 <= c < n) as [Hc Hcr].
  { subst c. destruct (decide (cur = 2 ^ 32 - 1)) as [->|].
    - change (u32 (2 ^ 32 - 1 + 1)) with 0. case_Z; lia.
    - rewrite u32_small by lia. case_Z; lia. }
  destruct (lookup_lt_is_Some_2 (q_id_to_position q) (Z.to_nat c)) as [v Hv]; [lia|].
  destruct (ids_backward _ _ _ (rep_ids _ _ _ Hrep) _ _ Hv) as [->|(p & it & _ & _ & ->)].
  - rewrite (aget_ok_Z _ _ _ (proj1 Hcr) Hv). simpl. eauto.
  - rewrite (aget_ok_Z _ _ _ (proj1 Hcr) Hv). simpl. case_Z; [lia|].
    apply IH; [lia | done | done |].
    assert (c <> i) by (intros ->; congruence).
    clearbody c. revert Hdist Hc. unfold id_distance. case_Z; lia.
Qed.

(** The search for an unused identifier succeeds. *)
Lemma queue_generate_id_ok :
  Z.of_nat (length its) < q_max_length q * QUEUE_HASH_MULT ->
  exists id, queue_generate_id q = Ok (id, set_id_cur id q) /\
    0 <= id < q_max_length q * QUEUE_HASH_MULT /\
    q_id_to_position q !! Z.to_nat id = Some (Some (-1)).
Proof.
  intros Hlt. pose proof (rep_id_cur _ _ _ Hrep) as Hcur.
  destruct (rep_id_free Hlt) as (i & Hi & Hfree).
  destruct (generate_id_loop_ok (Z.to_nat (q_max_length q * QUEUE_HASH_MULT))
              (q_id_cur q) i Hcur Hi Hfree) as (id & Heq & Hid & Hv).
  { unfold id_distance. case_Z; lia. }
  exists id. split_and!; [|lia..|done]. unfold queue_generate_id. by rewrite Heq.
Qed.

(** ** Order primitives *)

Lemma rep_set_order l ord' :
  length l = length (q_order q) -> holds l (Z.of_nat <$> ord') ->
  ord' ≡ₚ seq 0 (length its) -> q_rep (set_order l q) its ord'.
Proof. intros Hl Hh Hp. destruct Hrep. split; simpl; try done. congruence. Qed.

Lemma queue_swap_order_ok i j :
  (i < length its)%nat -> (j < length its)%nat ->
  exists q', queue_swap_order q (Z.of_nat i) (Z.of_nat j) = Ok q' /\
    q_rep q' its (swap_list i j ord) /\ q' = set_order (q_order q') q.
Proof.
  intros Hi Hj. destruct (rep_ord_is_Some i Hi) as [a Ha].
  destruct (rep_ord_is_Some j Hj) as [b Hb].
  pose proof (rep_order_room _ Hi). pose proof (rep_order_room _ Hj).
  unfold queue_swap_order. rewrite (rep_get_order _ _ Ha), (rep_get_order _ _ Hb). simpl.
  rewrite aset_ok by done. simpl. rewrite aset_ok by (by rewrite length_insert). simpl.
  eexists. split; [done|]. split; [|done]. apply rep_set_order.
  - by rewrite !length_insert.
  - unfold swap_list. rewrite Ha, Hb, !list_fmap_insert.
    apply holds_insert; [|by rewrite length_insert].
    apply holds_insert; [apply Hrep | done].
  - by rewrite swap_list_perm, (rep_perm _ _ _ Hrep).
Qed.

Lemma queue_restore_order_ok :
  exists q', queue_restore_order q = Ok q' /\
    q_rep q' its (seq 0 (length its)) /\ q' = set_order (q_order q') q.
Proof.
  destruct (order_write_loop q (length its) Z.of_nat
    (fun i q => ord ← aset (q_order q) i i; Ok (set_order ord q)))
    as (q' & Heq & Hq & Hl & Hh).
  { apply (rep_len _ _ _ Hrep). }
  { destruct Hrep. lia. }
  { intros k q' Hk Hl _ _. rewrite aset_ok; [done|]. rewrite Hl. by apply rep_order_room. }
  exists q'. split_and!; [done| |done]. rewrite Hq. by apply rep_set_order.
Qed.

Lemma map_order_ok (f : Z -> Z) (g : nat -> nat) :
  (forall p, (p < length its)%nat -> f (Z.of_nat p) = Z.of_nat (g p)) ->
  g <$> ord ≡ₚ seq 0 (length its) ->
  exists q', map_order f q = Ok q' /\
    q_rep q' its (g <$> ord) /\ q' = set_order (q_order q') q.
Proof.
  intros Hfg Hperm.
  destruct (order_write_loop q (length its)
    (fun k => match ord !! k with Some p => Z.of_nat (g p) | None => 0 end)
    (fun i q => p ← aget (q_order q) i; ord ← aset (q_order q) i (f p);
                Ok (set_order ord q)))
    as (q' & Heq & Hq & Hl & Hh).
  { apply (rep_len _ _ _ Hrep). }
  { destruct Hrep. lia. }
  { intros k q' Hk Hl _ Hkk. destruct (rep_ord_is_Some k Hk) as [p Hp].
    rewrite (aget_ok _ _ (Z.of_nat p)).
    2:{ rewrite Hkk. apply (rep_order _ _ _ Hrep). by rewrite list_lookup_fmap, Hp. }
    simpl. rewrite aset_ok; [|rewrite Hl; by apply rep_order_room]. simpl.
    by rewrite Hp, Hfg by (by eapply rep_ord_lt). }
  exists q'. split_and!; [done| |done]. rewrite Hq. apply rep_set_order; [done| |done].
  intros i x Hx. apply Hh. rewrite !list_lookup_fmap in Hx. rewrite list_lookup_fmap.
  destruct (ord !! i) as [p|] eqn:Hp; simplify_eq/=.
  pose proof (lookup_lt_Some _ _ _ Hp) as Hlt. rewrite rep_length_ord in Hlt.
  rewrite lookup_seq_lt by done. simpl. by rewrite Hp.
Qed.

End rep.
End with_glib.
