(* ===== verification/PlayQueueEdit.v ===== *)
(** * Editing the queue

    [queue_append()], [queue_swap()], [queue_move_range()], [queue_move()],
    [queue_delete()], [queue_clear()] and the version counter refine the
    corresponding operations on lists of items. *)

From S2P Require Import Prelude GLib Song PlayQueue PlayQueueRep.

Local Open Scope Z_scope.

Section with_glib.
Context {G : GLib}.

(** ** Block writes *)

Lemma slice_writes_lookup a b m its k w :
  (b + m <= length its)%nat ->
  slice_writes a b m its !! k = Some w <->
  (k < m)%nat /\ w.1 = (a + k)%nat /\ its !! (b + k)%nat = Some w.2.
Proof.
  intros Hm. unfold slice_writes. destruct w as [p it].
  rewrite lookup_zip_Some, lookup_seq. simpl. split.
  - intros [[-> Hk] H]. rewrite lookup_take_lt, lookup_drop in H by done. done.
  - intros (? & -> & H). rewrite lookup_take_lt, lookup_drop by done. done.
Qed.

Lemma length_slice_writes a b m its :
  (b + m <= length its)%nat -> length (slice_writes a b m its) = m.
Proof.
  intros. unfold slice_writes. rewrite length_zip_with, length_seq, length_take, length_drop. lia.
Qed.

Lemma elem_of_slice_writes a b m its p it :
  (b + m <= length its)%nat ->
  (p, it) ∈ slice_writes a b m its <->
  (a <= p < a + m)%nat /\ its !! (b + (p - a))%nat = Some it.
Proof.
  intros Hm. rewrite list_elem_of_lookup.
  setoid_rewrite (slice_writes_lookup a b m its _ _ Hm). simpl. split.
  - intros (k & ? & -> & ?). split; [lia|]. by replace (a + k - a)%nat with k by lia.
  - intros [? ?]. exists (p - a)%nat. split_and!; [lia | lia | done].
Qed.

Lemma slice_writes_fst a b m its :
  (b + m <= length its)%nat -> (slice_writes a b m its).*1 = seq a m.
Proof.
  intros. apply fst_zip. rewrite length_seq, length_take, length_drop. lia.
Qed.

Lemma puts_ids_nodup n idp (its : list queue_item) ws :
  ids_ok n idp (fun p => its !! p) -> NoDup ws.*2 ->
  (forall w, w ∈ ws -> w.2 ∈ its) ->
  NoDup ((fun w : nat * queue_item => Z.to_nat (item_id w.2)) <$> ws).
Proof.
  intros Hids Hnd Hin.
  replace ((fun w : nat * queue_item => Z.to_nat (item_id w.2)) <$> ws)
    with ((fun it => Z.to_nat (item_id it)) <$> ws.*2) by (by rewrite <- list_fmap_compose).
  apply NoDup_fmap_2_strong; [|done].
  assert (forall it, it ∈ ws.*2 -> exists p, its !! p = Some it) as Hp.
  { intros it (w & -> & Hw)%list_elem_of_fmap. by apply list_elem_of_lookup, Hin. }
  intros x y [px Hx]%Hp [py Hy]%Hp Heq.
  destruct (ids_forward _ _ _ Hids _ _ Hx), (ids_forward _ _ _ Hids _ _ Hy).
  assert (px = py) by (eapply (ids_injective n idp (fun p => its !! p)); [done..|lia]).
  congruence.
Qed.

Lemma rep_items_nodup q its ord : q_rep q its ord -> NoDup its.
Proof.
  intros Hrep. apply NoDup_alt. intros i j x Hi Hj.
  by eapply (ids_injective _ _ _ _ _ _ _ (rep_ids _ _ _ Hrep)).
Qed.

Lemma rep_set_positions q its its' ord l idp :
  q_rep q its ord -> length its' = length its ->
  length l = length (q_items q) -> holds l its' ->
  ids_ok (q_max_length q * QUEUE_HASH_MULT) idp (fun p => its' !! p) ->
  q_rep (set_id_to_position idp (set_items l q)) its' ord.
Proof. intros [] ? ? ? ?. split; simpl; try done; congruence. Qed.

(** Writes that rearrange the items among the positions they touch. *)
Lemma rep_puts q its its' ord ws :
  q_rep q its ord -> length its' = length its ->
  NoDup ws.*1 -> NoDup ws.*2 ->
  (forall p it, (p, it) ∈ ws -> exists p0, p0 ∈ ws.*1 /\ its !! p0 = Some it) ->
  (forall p it, p ∈ ws.*1 -> its !! p = Some it -> exists p', (p', it) ∈ ws) ->
  (forall p it, (p, it) ∈ ws -> its' !! p = Some (item_set_version (q_version q) it)) ->
  (forall p, p ∉ ws.*1 -> its' !! p = its !! p) ->
  q_rep (puts (q_version q) ws q) its' ord.
Proof.
  intros Hrep Hlen Hnd1 Hnd2 Hsrc Hmoved Hin Hout.
  pose proof (rep_ids _ _ _ Hrep) as Hids.
  destruct (puts_frame (q_version q) ws q) as (_ & _ & _ & _ & _ & Hl & _ & Heq).
  assert (forall p it w, its !! p = Some it -> p ∉ ws.*1 -> w ∈ ws -> item_id w.2 <> item_id it)
    as Hne.
  { intros p it [pw iw] Hp Hpw Hw Hid. destruct (Hsrc _ _ Hw) as (p0 & Hp0 & H0).
    assert (p0 = p) as -> by (by eapply (ids_injective _ _ _ _ _ _ _ Hids)). done. }
  assert (forall w, w ∈ ws -> (w.1 < length its)%nat) as Hlt.
  { intros [p it] Hw. rewrite <- Hlen. by eapply lookup_lt_Some, Hin. }
  rewrite Heq. apply (rep_set_positions _ its); [done..| |].
  - intros p it' Hp. destruct (decide (p ∈ ws.*1)) as [Hw|Hw].
    + apply list_elem_of_fmap in Hw as ([p' it] & -> & Hw). simpl in *.
      rewrite (Hin _ _ Hw) in Hp. simplify_eq.
      apply puts_items_in; [done..|]. apply Hlt in Hw. simpl in Hw.
      by eapply rep_items_room.
    + rewrite puts_items_notin by done. apply (rep_items _ _ _ Hrep). by rewrite <- Hout.
  - apply (ids_puts _ _ _ _ (fun p => its !! p)); [done|..].
    + eapply puts_ids_nodup; [done..|]. intros [p it] Hw.
      destruct (Hsrc _ _ Hw) as (p0 & _ & ?). by eapply list_elem_of_lookup_2.
    + intros p it Hw. destruct (Hsrc _ _ Hw) as (? & _ & ?). eauto.
    + done.
    + intros p it' Hp. destruct (decide (p ∈ ws.*1)) as [Hw|Hw].
      * apply list_elem_of_fmap in Hw as ([p' it] & -> & Hw). simpl in *.
        rewrite (Hin _ _ Hw) in Hp. left. exists it. by simplify_eq.
      * right. rewrite Hout in Hp by done. eauto.
    + intros p it Hp Hall. rewrite Hout; [done|]. intros Hw.
      destruct (Hmoved _ _ Hw Hp) as [p' Hp']. by apply (Hall _ Hp').
Qed.

Lemma puts_q_frame v ws q : q_frame q (puts v ws q).
Proof. destruct (puts_frame v ws q) as (_ & _ & _ & _ & _ & _ & _ & ->). done. Qed.

(** One [queue_move_song_to()] is one write. *)
Lemma queue_move_song_to_ok q (from to : nat) it n :
  q_items q !! from = Some (Some it) -> (to < length (q_items q))%nat ->
  Z.of_nat to < 2 ^ 31 ->
  length (q_id_to_position q) = Z.to_nat n -> 0 <= item_id it < n ->
  queue_move_song_to q (Z.of_nat from) (Z.of_nat to) = Ok (put (q_version q) q (to, it)).
Proof.
  intros Hit Hto Hsmall Hl Hid. unfold queue_move_song_to.
  rewrite (aget_ok _ _ _ Hit). simpl. rewrite aset_ok by done. simpl.
  rewrite (aget_ok _ _ it) by (by apply list_lookup_insert_eq). simpl.
  rewrite aset_ok by (by rewrite length_insert). simpl.
  rewrite aset_ok_Z by lia. simpl. rewrite i32_small by lia.
  unfold put. simpl. by rewrite list_insert_insert_eq.
Qed.

(** What the write loops need of the arrays. *)
Record writable (q : queue) (its : list queue_item) (n : Z) : Prop := {
  writable_items : holds (q_items q) its;
  writable_small : Z.of_nat (length (q_items q)) < 2 ^ 31;
  writable_table : length (q_id_to_position q) = Z.to_nat n;
  writable_ids : Forall (fun it => 0 <= item_id it < n) its;
}.

Lemma rep_writable q its ord :
  q_rep q its ord -> writable q its (q_max_length q * QUEUE_HASH_MULT).
Proof.
  intros Hrep. pose proof (rep_ids _ _ _ Hrep) as Hids.
  destruct Hrep. unfold QUEUE_HASH_MULT in *. split.
  - done.
  - lia.
  - by apply Hids.
  - apply Forall_lookup. intros p it Hp. by apply (ids_forward _ _ _ Hids p).
Qed.

Lemma take_slice_fst_lt a b m its k p :
  (b + m <= length its)%nat -> p ∈ (take k (slice_writes a b m its)).*1 ->
  (a <= p < a + k)%nat.
Proof.
  intros Hm Hp. rewrite fmap_take, slice_writes_fst in Hp by done.
  apply elem_of_take in Hp as (i & Hi & Hk).
  apply lookup_seq in Hi. lia.
Qed.

(** Copying [m] items from [b] down to [a <= b], in ascending order. *)
Lemma move_up_loop q its n (i0 a b m : nat) body :
  writable q its n -> (b + m <= length its)%nat -> (a <= b)%nat ->
  (forall k q', (k < m)%nat -> body (Z.of_nat (i0 + k)) q' =
     queue_move_song_to q' (Z.of_nat (b + k)) (Z.of_nat (a + k))) ->
  for_range (Z.of_nat i0) (Z.of_nat (i0 + m)) body q
    = Ok (puts (q_version q) (slice_writes a b m its) q).
Proof.
  intros [Hit Hsmall Htab Hids] Hm Hab Hbody.
  pose proof (holds_length _ _ Hit) as Hroom.
  rewrite <- (length_slice_writes a b m its Hm) at 1.
  apply puts_loop. intros k [p it] Hw. pose proof Hw as Hw'.
  apply (slice_writes_lookup _ _ _ _ _ _ Hm) in Hw as (Hk & Hp & Hit'). simpl in *. subst p.
  rewrite Hbody by done. rewrite (puts_snoc _ _ _ _ _ Hw').
  destruct (puts_frame (q_version q) (take k (slice_writes a b m its)) q)
    as (_ & _ & Hv & _ & _ & Hl & Hl' & _).
  rewrite (queue_move_song_to_ok _ (b + k) (a + k) it n).
  - by rewrite Hv.
  - rewrite puts_items_notin; [by apply Hit|].
    intros Hin. apply take_slice_fst_lt in Hin; lia.
  - lia.
  - lia.
  - congruence.
  - by eapply Forall_lookup_1 in Hids.
Qed.

(** Copying [m] items from [b] up to [a >= b], in descending order. *)
Lemma move_down_loop q its n (i0 a b m : nat) body :
  writable q its n -> (b + m <= length its)%nat -> (b <= a)%nat ->
  (a + m <= length its)%nat ->
  (forall k q', (k < m)%nat -> body (Z.of_nat i0 - Z.of_nat k) q' =
     queue_move_song_to q' (Z.of_nat (b + (m - 1 - k))) (Z.of_nat (a + (m - 1 - k)))) ->
  for_down (Z.of_nat i0) (Z.of_nat i0 - Z.of_nat m) body q
    = Ok (puts (q_version q) (reverse (slice_writes a b m its)) q).
Proof.
  intros [Hit Hsmall Htab Hids] Hm Hab Ha Hbody.
  pose proof (holds_length _ _ Hit) as Hroom.
  rewrite <- (length_slice_writes a b m its Hm) at 1.
  rewrite <- (length_reverse (slice_writes a b m its)).
  apply puts_loop_down. intros k [p it] Hw. pose proof Hw as Hw'.
  assert (k < m)%nat as Hk.
  { apply lookup_lt_Some in Hw. by rewrite length_reverse, length_slice_writes in Hw. }
  rewrite reverse_lookup in Hw by (by rewrite length_slice_writes).
  rewrite length_slice_writes in Hw by done.
  apply (slice_writes_lookup _ _ _ _ _ _ Hm) in Hw as (_ & Hp & Hit'). simpl in *. subst p.
  replace (m - S k)%nat with (m - 1 - k)%nat in * by lia.
  rewrite Hbody by done. rewrite (puts_snoc _ _ _ _ _ Hw').
  set (ws := take k (reverse (slice_writes a b m its))) in *.
  destruct (puts_frame (q_version q) ws q) as (_ & _ & Hv & _ & _ & Hl & Hl' & _).
  rewrite (queue_move_song_to_ok _ (b + (m - 1 - k)) (a + (m - 1 - k)) it n).
  - by rewrite Hv.
  - rewrite puts_items_notin; [by apply Hit|].
    intros Hin. subst ws. rewrite fmap_take, fmap_reverse, slice_writes_fst in Hin by done.
    apply elem_of_take in Hin as (i & Hi & Hik).
    rewrite reverse_lookup in Hi by (rewrite length_seq; lia).
    apply lookup_seq in Hi. rewrite length_seq in Hi. lia.
  - lia.
  - lia.
  - congruence.
  - by eapply Forall_lookup_1 in Hids.
Qed.

(** ** Appending *)

Lemma queue_append_ok q its ord s prio :
  q_rep q its ord -> Z.of_nat (length its) < q_max_length q ->
  exists id q', queue_append q s prio = Ok (id, q') /\
    q_rep q' (its ++ [Item s id (q_version q) prio]) (ord ++ [length its]) /\
    (forall it, it ∈ its -> item_id it <> id) /\
    q_frame q q' /\ q_version q' = q_version q.
Proof.
  intros Hrep Hroom. pose proof (rep_length_pos _ _ _ Hrep) as Hpos.
  destruct (queue_generate_id_ok _ _ _ Hrep) as (id & Hgen & Hid & Hfree).
  { unfold QUEUE_HASH_MULT. lia. }
  pose proof (rep_ids _ _ _ Hrep) as Hids. pose proof (rep_max _ _ _ Hrep) as Hmax.
  pose proof (ids_length _ _ _ Hids) as Hlids.
  unfold queue_append. rewrite Hgen. cbn [mbind res_bind].
  assert (queue_is_full (set_id_cur id q) = Ok false) as ->.
  { unfold queue_is_full. simpl. rewrite (rep_len _ _ _ Hrep).
    replace (Z.of_nat (length its) <=? q_max_length q) with true by (symmetry; apply Z.leb_le; lia).
    simpl. f_equal. apply Z.leb_gt. lia. }
  simpl. rewrite (rep_len _ _ _ Hrep).
  rewrite (aset_ok (q_items q)) by (rewrite (rep_items_length _ _ _ Hrep); lia). simpl.
  rewrite (aset_ok (q_order q)) by (rewrite (rep_order_length _ _ _ Hrep); lia). simpl.
  rewrite aset_ok_Z by lia. simpl.
  eexists id, _. split; [done|]. split_and!.
  - destruct Hrep. split; simpl; rewrite ?length_app, ?length_insert; simpl; try done.
    + unfold QUEUE_HASH_MULT in *. lia.
    + rewrite u32_small by lia. lia.
    + lia.
    + intros p it Hp. apply lookup_snoc_Some in Hp as [[Hlt Hp]|[-> <-]].
      * rewrite list_lookup_insert_ne by lia. auto.
      * apply list_lookup_insert_eq. lia.
    + intros i x Hx. rewrite fmap_app in Hx. apply lookup_snoc_Some in Hx as [[Hlt Hx]|[-> <-]].
      * rewrite list_lookup_insert_ne; [auto|]. rewrite length_fmap, rep_perm, length_seq in Hlt. lia.
      * rewrite length_fmap, rep_perm, length_seq. apply list_lookup_insert_eq. lia.
    + rewrite Nat.add_1_r, seq_S. by rewrite rep_perm.
    + rewrite i32_small by lia. apply (ids_add _ _ (fun p => its !! p)
        (length its) (Item s id (q_version q) prio)); [done| |done..|].
      * by apply lookup_ge_None_2.
      * intros p. case_decide; subst; [by rewrite lookup_app_r, Nat.sub_diag by lia|].
        destruct (decide (p < length its)%nat).
        -- by rewrite lookup_app_l.
        -- rewrite !lookup_ge_None_2; [done| |rewrite length_app; simpl]; lia.
  - intros it [p Hp]%list_elem_of_lookup <-.
    destruct (ids_forward _ _ _ Hids _ _ Hp) as [_ Hi]. rewrite Hi in Hfree. simplify_eq. lia.
  - done.
  - done.
Qed.

(** ** Swapping *)

Lemma queue_swap_puts q its ord (p1 p2 : nat) it1 it2 :
  q_rep q its ord -> its !! p1 = Some it1 -> its !! p2 = Some it2 ->
  queue_swap q (Z.of_nat p1) (Z.of_nat p2) =
    Ok (puts (q_version q) (if decide (p1 = p2) then [(p1, it1)] else [(p1, it2); (p2, it1)]) q).
Proof.
  intros Hrep H1 H2. pose proof (rep_writable _ _ _ Hrep) as [Hit Hsmall Htab Hids].
  pose proof (lookup_lt_Some _ _ _ H1) as Hl1%(rep_items_room _ _ _ Hrep).
  pose proof (lookup_lt_Some _ _ _ H2) as Hl2%(rep_items_room _ _ _ Hrep).
  pose proof (Forall_lookup_1 _ _ _ _ Hids H1) as Hi1.
  pose proof (Forall_lookup_1 _ _ _ _ Hids H2) as Hi2. simpl in Hi1, Hi2.
  unfold queue_swap. rewrite (rep_get_item _ _ _ Hrep _ _ H1), (rep_get_item _ _ _ Hrep _ _ H2).
  simpl. rewrite aset_ok by done. simpl. rewrite aset_ok by (by rewrite length_insert). simpl.
  case_decide as Hp.
  - subst p2. rewrite H1 in H2. injection H2 as <-.
    rewrite (aget_ok _ _ it1) by (apply list_lookup_insert_eq; by rewrite length_insert).
    simpl. rewrite aset_ok by (by rewrite !length_insert). simpl.
    rewrite (aget_ok _ _ (item_set_version (q_version q) it1))
      by (apply list_lookup_insert_eq; by rewrite !length_insert).
    simpl. rewrite aset_ok by (by rewrite !length_insert). simpl.
    rewrite aset_ok_Z by lia. simpl. rewrite aset_ok_Z by (rewrite length_insert; lia). simpl.
    rewrite i32_small by lia. unfold put. simpl. by rewrite !list_insert_insert_eq.
  - rewrite (aget_ok _ _ it2).
    2:{ rewrite list_lookup_insert_ne by done. by apply list_lookup_insert_eq. }
    simpl. rewrite aset_ok by (by rewrite !length_insert). simpl.
    rewrite (aget_ok _ _ it1).
    2:{ rewrite list_lookup_insert_ne by done. apply list_lookup_insert_eq.
        by rewrite length_insert. }
    simpl. rewrite aset_ok by (by rewrite !length_insert). simpl.
    rewrite aset_ok_Z by lia. simpl. rewrite aset_ok_Z by (rewrite length_insert; lia). simpl.
    rewrite !i32_small by lia. unfold put. simpl.
    assert (Z.to_nat (item_id it1) <> Z.to_nat (item_id it2)) as Hne.
    { intros Heq. apply Hp. eapply (ids_injective _ _ _ _ _ _ _ (rep_ids _ _ _ Hrep)); [done..|].
      lia. }
    f_equal. unfold set_id_to_position, set_items. simpl. f_equal.
    + rewrite (list_insert_insert_ne _ p2 p1 (Some it1)) by done.
      rewrite list_insert_insert_eq.
      rewrite (list_insert_insert_ne _ p1 p2 _ (Some it1)) by done.
      by rewrite list_insert_insert_eq.
    + by apply list_insert_insert_ne.
Qed.

Definition swap_items (v : Z) (p1 p2 : nat) (its : list queue_item) : list queue_item :=
  alter (item_set_version v) p1 (alter (item_set_version v) p2 (swap_list p1 p2 its)).

Lemma swap_items_lookup v p1 p2 its it1 it2 p :
  its !! p1 = Some it1 -> its !! p2 = Some it2 ->
  unversioned (swap_items v p1 p2 its) = swap_list p1 p2 (unversioned its) /\
  swap_items v p1 p2 its !! p =
    if decide (p = p2) then Some (item_set_version v it1)
    else if decide (p = p1) then Some (item_set_version v it2) else its !! p.
Proof.
  intros H1 H2. unfold swap_items. split.
  - unfold unversioned. apply list_eq. intros i.
    assert (forall (l : list queue_item) j, item_set_version 0 <$>
      alter (item_set_version v) j l = item_set_version 0 <$> l) as Halt.
    { intros l j. apply list_eq. intros k. rewrite !list_lookup_fmap, list_lookup_alter.
      case_decide; [subst|done]. by destruct (l !! k). }
    rewrite !Halt, list_lookup_fmap. rewrite (swap_list_lookup _ _ _ _ _ _ H1 H2).
    rewrite (swap_list_lookup _ _ _ _ (item_set_version 0 it1) (item_set_version 0 it2))
      by (by rewrite list_lookup_fmap, ?H1, ?H2).
    rewrite list_lookup_fmap. by repeat case_decide.
  - rewrite !list_lookup_alter, !(swap_list_lookup _ _ _ _ _ _ H1 H2).
    repeat case_decide; simplify_eq/=; congruence || done.
Qed.

Lemma queue_swap_ok q its ord (p1 p2 : nat) :
  q_rep q its ord -> (p1 < length its)%nat -> (p2 < length its)%nat ->
  exists q', queue_swap q (Z.of_nat p1) (Z.of_nat p2) = Ok q' /\
    q_rep q' (swap_items (q_version q) p1 p2 its) ord /\
    q_frame q q' /\ q_version q' = q_version q /\ q_rand q' = q_rand q.
Proof.
  intros Hrep Hp1 Hp2. destruct (lookup_lt_is_Some_2 its p1 Hp1) as [it1 H1].
  destruct (lookup_lt_is_Some_2 its p2 Hp2) as [it2 H2].
  rewrite (queue_swap_puts _ _ _ _ _ _ _ Hrep H1 H2). eexists. split; [done|].
  split; [|split; [apply puts_q_frame|split; [apply puts_frame|]]].
  2:{ by destruct (puts_frame (q_version q)
        (if decide (p1 = p2) then [(p1, it1)] else [(p1, it2); (p2, it1)]) q)
        as (_ & _ & _ & _ & _ & _ & _ & ->). }
  pose proof (swap_items_lookup (q_version q) p1 p2 its it1 it2) as Hsw.
  assert (length (swap_items (q_version q) p1 p2 its) = length its) as Hlen.
  { unfold swap_items. by rewrite !length_alter, length_swap_list. }
  case_decide as Hp.
  - subst p2. rewrite H1 in H2. injection H2 as <-. apply (rep_puts _ its); [done..| | | | | |].
    + apply NoDup_singleton.
    + apply NoDup_singleton.
    + intros p it [= -> ->]%list_elem_of_singleton. exists p1. simpl. set_solver.
    + simpl. intros p it ->%list_elem_of_singleton Hp. set_solver.
    + intros p it [= -> ->]%list_elem_of_singleton.
      rewrite (proj2 (Hsw _ H1 H1)). by rewrite decide_True.
    + intros p Hp. rewrite (proj2 (Hsw _ H1 H1)). simpl in Hp. rewrite !decide_False; set_solver.
  - assert (it1 <> it2) as Hne.
    { intros <-. apply Hp. by eapply NoDup_lookup; [eapply rep_items_nodup|..]. }
    apply (rep_puts _ its); [done..| | | | | |]; simpl.
    + apply NoDup_cons. split; [set_solver | apply NoDup_singleton].
    + apply NoDup_cons. split; [set_solver | apply NoDup_singleton].
    + intros p it [[= -> ->]|[= -> ->]%list_elem_of_singleton]%elem_of_cons;
        [exists p2 | exists p1]; set_solver.
    + intros p it [->| ->%list_elem_of_singleton]%elem_of_cons Hp'; set_solver.
    + intros p it [[= -> ->]|[= -> ->]%list_elem_of_singleton]%elem_of_cons;
        rewrite (proj2 (Hsw _ H1 H2)); repeat case_decide; congruence.
    + intros p Hp'. rewrite (proj2 (Hsw _ H1 H2)), !decide_False; set_solver.
Qed.

End with_glib.

(** * Moving and deleting

    [queue_move_range()] and [queue_move()] move a block of the item list,
    [queue_delete()] removes one item, [queue_clear()] all of them; the
    identifier table and the playback order follow. *)

Section with_glib.
Context {G : GLib}.

(** The items after [queue_move_range(q, s, e, t)]. *)
Definition moved_items (v : Z) (s e t : nat) (its : list queue_item) : list queue_item :=
  alter_range (item_set_version v) (Nat.min s t) (Nat.max e (t + (e - s)))
    (move_block s e t its).

Definition moved_order (q : queue) (s e t : nat) (ord : list nat) : list nat :=
  if q_random q then move_block_dst s e t <$> ord else ord.

(** The writes of the loops of [queue_move_range()]. *)
Definition move_writes (s e t : nat) (its : list queue_item) : list (nat * queue_item) :=
  slice_writes s e (t - s) its ++
  reverse (slice_writes (t + (e - s)) t (s - t) its) ++
  slice_writes t s (e - s) its.

Lemma unversioned_alter_range v lo hi its :
  unversioned (alter_range (item_set_version v) lo hi its) = unversioned its.
Proof.
  apply list_eq. intros j. unfold unversioned. rewrite !list_lookup_fmap, alter_range_lookup.
  case_match; by destruct (its !! j).
Qed.

Lemma unversioned_moved v s e t its :
  unversioned (moved_items v s e t its) = move_block s e t (unversioned its).
Proof.
  unfold moved_items. rewrite unversioned_alter_range. unfold unversioned, move_block.
  by rewrite !fmap_app, !fmap_take, !fmap_drop, !fmap_app, !fmap_take, !fmap_drop.
Qed.

Lemma elem_of_move_writes s e t its p it :
  (s <= e <= length its)%nat -> (t + (e - s) <= length its)%nat ->
  (p, it) ∈ move_writes s e t its <->
  (Nat.min s t <= p < Nat.max e (t + (e - s)))%nat /\
  its !! move_block_src s e t p = Some it.
Proof.
  intros Hse Ht. unfold move_writes, move_block_src.
  rewrite !elem_of_app, elem_of_reverse, !elem_of_slice_writes by lia. split.
  - intros [[Hp H]|[[Hp H]|[Hp H]]]; (split; [lia|]); rewrite <- H; case_nat; f_equal; lia.
  - intros [Hp H]. destruct (decide (t <= p < t + (e - s))%nat) as [Hin|Hout].
    + right. right. split; [lia|]. rewrite <- H. case_nat; f_equal; lia.
    + destruct (decide (s <= t)%nat).
      * left. split; [lia|]. rewrite <- H. case_nat; f_equal; lia.
      * right. left. split; [lia|]. rewrite <- H. case_nat; f_equal; lia.
Qed.

Lemma move_writes_nodup s e t its :
  (s <= e <= length its)%nat -> (t + (e - s) <= length its)%nat ->
  NoDup (move_writes s e t its).*1.
Proof.
  intros Hse Ht. unfold move_writes.
  rewrite !fmap_app, fmap_reverse, !slice_writes_fst by lia.
  rewrite !NoDup_app, reverse_Permutation. repeat split; try apply NoDup_seq; intros p Hp.
  - apply elem_of_seq in Hp. rewrite elem_of_app, elem_of_reverse, !elem_of_seq. lia.
  - apply elem_of_reverse, elem_of_seq in Hp. rewrite elem_of_seq. lia.
Qed.

Lemma nodup_snd (ws : list (nat * queue_item)) :
  NoDup ws.*1 ->
  (forall p p' it, (p, it) ∈ ws -> (p', it) ∈ ws -> p = p') -> NoDup ws.*2.
Proof.
  intros Hnd Hinj. apply NoDup_fmap_2_strong; [|by eapply NoDup_fmap_1].
  intros [p it] [p' it'] Hp Hp' Heq. simpl in Heq. subst it'. f_equal. by eapply Hinj.
Qed.

Lemma rep_move_writes q its ord s e t :
  q_rep q its ord -> (s <= e <= length its)%nat -> (t + (e - s) <= length its)%nat ->
  q_rep (puts (q_version q) (move_writes s e t its) q) (moved_items (q_version q) s e t its) ord.
Proof.
  intros Hrep Hse Ht. pose proof (move_writes_nodup s e t its Hse Ht) as Hnd.
  pose proof (fun p it => elem_of_move_writes s e t its p it Hse Ht) as Hin.
  assert (forall p, p ∈ (move_writes s e t its).*1 <->
            (Nat.min s t <= p < Nat.max e (t + (e - s)))%nat) as Hfst.
  { intros p. rewrite list_elem_of_fmap. split.
    - intros ([p' it] & -> & Hw). by apply Hin in Hw as [].
    - intros Hp. destruct (lookup_lt_is_Some_2 its (move_block_src s e t p)) as [it Hit].
      { apply (move_block_dst_src s e t p (length its)); lia. }
      exists (p, it). split; [done|]. by apply Hin. }
  apply (rep_puts _ its); [done| |done|..].
  - unfold moved_items. by rewrite length_alter_range, length_move_block.
  - apply nodup_snd; [done|]. intros p p' it [Hp Hit]%Hin [Hp' Hit']%Hin.
    pose proof (NoDup_lookup _ _ _ _ (rep_items_nodup _ _ _ Hrep) Hit Hit') as Heq.
    destruct (move_block_dst_src s e t p (length its)) as [H1 _]; [lia..|].
    destruct (move_block_dst_src s e t p' (length its)) as [H2 _]; [lia..|]. congruence.
  - intros p it [Hp Hit]%Hin. exists (move_block_src s e t p). split; [|done].
    apply Hfst. unfold move_block_src. case_nat; lia.
  - intros p it Hp%Hfst Hit. exists (move_block_dst s e t p). apply Hin. split.
    + unfold move_block_dst. case_nat; simpl; lia.
    + by rewrite (proj1 (move_block_src_dst s e t p (length its) Hse Ht ltac:(lia))).
  - intros p it [Hp Hit]%Hin. unfold moved_items. rewrite alter_range_lookup.
    rewrite move_block_lookup, Hit by lia. case_nat; simpl; (done || lia).
  - intros p Hp. rewrite Hfst in Hp. unfold moved_items. rewrite alter_range_lookup.
    destruct (decide (p < length its)%nat).
    + rewrite move_block_lookup by lia.
      assert (move_block_src s e t p = p) as -> by (unfold move_block_src; case_nat; lia).
      case_nat; simpl; (done || lia).
    + rewrite !lookup_ge_None_2 by (rewrite ?length_move_block; lia). by case_match.
Qed.

(** The last write loop: put the saved block at its destination. *)
Lemma move_put_back q its n s t m :
  (length its <= length (q_items q))%nat -> Z.of_nat (length (q_items q)) < 2 ^ 31 ->
  length (q_id_to_position q) = Z.to_nat n ->
  Forall (fun it => 0 <= item_id it < n) its ->
  (s + m <= length its)%nat -> (t + m <= length its)%nat ->
  for_range (Z.of_nat s) (Z.of_nat (s + m)) (fun i q =>
    it ← aget (Some <$> take m (drop s its)) (i - Z.of_nat s);
    idp ← aset (q_id_to_position q) (item_id it) (i32 (u32 (Z.of_nat t + i - Z.of_nat s)));
    items ← aset (q_items q) (u32 (Z.of_nat t + i - Z.of_nat s)) it;
    it' ← aget items (u32 (Z.of_nat t + i - Z.of_nat s));
    items ← aset items (u32 (Z.of_nat t + i - Z.of_nat s)) (item_set_version (q_version q) it');
    Ok (set_items items (set_id_to_position idp q))) q
  = Ok (puts (q_version q) (slice_writes t s m its) q).
Proof.
  intros Hroom Hsmall Htab Hids Hs Ht.
  rewrite <- (length_slice_writes t s m its Hs) at 1.
  apply puts_loop. intros k [p it] Hw. pose proof Hw as Hw'.
  apply (slice_writes_lookup _ _ _ _ _ _ Hs) in Hw as (Hk & Hp & Hit'). simpl in Hp, Hit'. subst p.
  rewrite (puts_snoc _ _ _ _ _ Hw').
  set (ws := take k (slice_writes t s m its)) in *.
  destruct (puts_frame (q_version q) ws q) as (_ & _ & Hv & _ & _ & Hl & Hl' & _).
  pose proof (Forall_lookup_1 _ _ _ _ Hids Hit') as Hi. simpl in Hi.
  replace (Z.of_nat (s + k) - Z.of_nat s) with (Z.of_nat k) by lia.
  rewrite u32_small by lia.
  replace (Z.of_nat t + Z.of_nat (s + k) - Z.of_nat s) with (Z.of_nat (t + k)) by lia.
  rewrite (aget_ok _ k it)
    by (by rewrite list_lookup_fmap, lookup_take_lt, lookup_drop, Hit').
  set (q1 := puts (q_version q) ws q) in *.
  simpl. rewrite (aset_ok_Z (q_id_to_position q1)) by lia. simpl.
  rewrite (aset_ok (q_items q1)) by lia. simpl.
  rewrite (aget_ok _ _ it) by (apply list_lookup_insert_eq; lia). simpl.
  rewrite aset_ok by (rewrite length_insert; lia). simpl.
  rewrite i32_small by lia. unfold put. simpl. by rewrite list_insert_insert_eq, Hv.
Qed.

(** ** [queue_move_range()] *)

Lemma move_range_position_ok s e t p n :
  (s <= e <= n)%nat -> (t + (e - s) <= n)%nat -> (p < n)%nat -> Z.of_nat n < 2 ^ 30 ->
  queue_move_range_position (Z.of_nat s) (Z.of_nat e) (Z.of_nat t) (Z.of_nat p)
  = Z.of_nat (move_block_dst s e t p).
Proof.
  intros Hse Ht Hp Hn. unfold queue_move_range_position, move_block_dst.
  rewrite (u32_small (Z.of_nat t + Z.of_nat e - Z.of_nat s)) by lia.
  rewrite (u32_small (Z.of_nat e - Z.of_nat s)) by lia.
  rewrite u32_add_u32. case_Z; case_nat; simpl; try lia; rewrite u32_small by lia; lia.
Qed.

Lemma moved_order_perm s e t ord n :
  (s <= e <= n)%nat -> (t + (e - s) <= n)%nat -> ord ≡ₚ seq 0 n ->
  move_block_dst s e t <$> ord ≡ₚ seq 0 n.
Proof.
  intros Hse Ht Hp. apply fmap_perm_seq; [done| |].
  - intros x Hx. by apply (move_block_src_dst s e t x n).
  - intros x y Hx Hy Heq. rewrite <- (proj1 (move_block_src_dst s e t x n Hse Ht Hx)).
    rewrite <- (proj1 (move_block_src_dst s e t y n Hse Ht Hy)). congruence.
Qed.

(** The two copying loops; one of them is empty. *)
Lemma move_copy_loops q its ord s e t :
  q_rep q its ord -> (s <= e <= length its)%nat -> (t + (e - s) <= length its)%nat ->
  (q ← for_range (Z.of_nat e) (u32 (Z.of_nat e + Z.of_nat t - Z.of_nat s)) (fun i q =>
         queue_move_song_to q i (u32 (Z.of_nat s + i - Z.of_nat e))) q;
   for_down (Z.of_nat s - 1) (Z.of_nat t - 1) (fun i q =>
         queue_move_song_to q i (u32 (i + Z.of_nat e - Z.of_nat s))) q)
  = Ok (puts (q_version q) (slice_writes s e (t - s) its ++
          reverse (slice_writes (t + (e - s)) t (s - t) its)) q).
Proof.
  intros Hrep Hse Ht. pose proof (rep_length_pos _ _ _ Hrep) as Hpos.
  pose proof (rep_writable _ _ _ Hrep) as Hw. rewrite puts_app.
  rewrite u32_small by lia. destruct (decide (s <= t)%nat) as [Hst|Hst].
  - replace (Z.of_nat e + Z.of_nat t - Z.of_nat s) with (Z.of_nat (e + (t - s))) by lia.
    rewrite (move_up_loop _ its _ e s e (t - s) _ Hw); [|lia|lia|].
    2:{ intros k q' Hk. rewrite u32_small by lia. f_equal; lia. }
    simpl. rewrite for_down_empty by lia. by replace (s - t)%nat with 0%nat by lia.
  - rewrite for_range_empty by lia. simpl. replace (t - s)%nat with 0%nat by lia.
    change (slice_writes s e 0 its) with (@nil (nat * queue_item)).
    cbn [puts foldl]. fold (puts (G := G)).
    replace (Z.of_nat s - 1) with (Z.of_nat (s - 1)) by lia.
    replace (Z.of_nat t - 1) with (Z.of_nat (s - 1) - Z.of_nat (s - t)) by lia.
    apply (move_down_loop _ _ _ _ _ _ _ _ Hw); [lia..|].
    intros k q' Hk. rewrite u32_small by lia. f_equal; lia.
Qed.

(** [queue_move_range()] moves the block and keeps identifiers and
    playback order attached to the songs. *)
Lemma queue_move_range_ok q its ord (s e t : nat) :
  q_rep q its ord -> (s <= e <= length its)%nat -> (t + (e - s) <= length its)%nat ->
  exists q', queue_move_range q (Z.of_nat s) (Z.of_nat e) (Z.of_nat t) = Ok q' /\
    q_rep q' (moved_items (q_version q) s e t its) (moved_order q s e t ord) /\
    q_frame q q' /\ q_version q' = q_version q.
Proof.
  intros Hrep Hse Ht. pose proof (rep_length_pos _ _ _ Hrep) as Hpos.
  pose proof (rep_writable _ _ _ Hrep) as [Hit Hsmall Htab Hids].
  unfold queue_move_range. destruct (Z.ltb_spec (Z.of_nat e) (Z.of_nat s)); [lia|]. simpl.
  rewrite (collect_loop Some _ _ _ _ Hit) by lia. simpl.
  pose proof (move_copy_loops _ _ _ _ _ _ Hrep Hse Ht) as Hcopy.
  apply bind_Ok in Hcopy as (q1 & -> & Hcopy). simpl. rewrite Hcopy. simpl.
  set (ws := slice_writes s e (t - s) its ++ _) in *.
  destruct (puts_frame (q_version q) ws q) as (_ & _ & Hv & _ & _ & Hl & Hl' & _).
  assert (length its <= length (q_items (puts (q_version q) ws q)))%nat as Hroom.
  { rewrite Hl. by apply holds_length. }
  pose proof (move_put_back (puts (q_version q) ws q) its
    (q_max_length q * QUEUE_HASH_MULT) s t (e - s) Hroom ltac:(lia) ltac:(congruence)
    Hids ltac:(lia) Ht) as Hback.
  replace (s + (e - s))%nat with e in Hback by lia. simpl in Hback. rewrite Hback.
  simpl. rewrite Hv, <- puts_app. subst ws. rewrite <- app_assoc.
  fold (move_writes s e t its).
  pose proof (rep_move_writes _ _ _ _ _ _ Hrep Hse Ht) as Hrep'.
  pose proof (puts_q_frame (q_version q) (move_writes s e t its) q) as Hfr.
  destruct (puts_frame (q_version q) (move_writes s e t its) q) as (_ & _ & Hv2 & _ & Hr & _).
  unfold moved_order. rewrite Hr. destruct (q_random q); [|eauto].
  assert (length (moved_items (q_version q) s e t its) = length its) as Hlen.
  { unfold moved_items. by rewrite length_alter_range, length_move_block. }
  destruct (map_order_ok _ _ _ Hrep'
    (queue_move_range_position (Z.of_nat s) (Z.of_nat e) (Z.of_nat t)) (move_block_dst s e t))
    as (q' & Heq & Hrep'' & Hq').
  { intros p Hp. rewrite Hlen in Hp. apply (move_range_position_ok _ _ _ _ (length its)); lia. }
  { rewrite Hlen. by eapply moved_order_perm, rep_perm. }
  exists q'. split_and!; [done|done| |]; rewrite Hq'; [|done]. by etrans.
Qed.

(** ** [queue_move()] *)

Lemma queue_move_position_range (from to p : nat) :
  Z.of_nat from < 2 ^ 30 -> Z.of_nat to < 2 ^ 30 -> Z.of_nat p < 2 ^ 30 ->
  queue_move_position (Z.of_nat from) (Z.of_nat to) (Z.of_nat p) =
  queue_move_range_position (Z.of_nat from) (Z.of_nat (S from)) (Z.of_nat to) (Z.of_nat p).
Proof.
  intros Hf Ht Hp. unfold queue_move_position, queue_move_range_position.
  rewrite (u32_small (Z.of_nat to + Z.of_nat (S from) - Z.of_nat from)) by lia.
  rewrite (u32_small (Z.of_nat (S from) - Z.of_nat from)) by lia.
  rewrite u32_add_u32. case_Z; simpl; try lia; try (f_equal; lia); rewrite u32_small by lia; lia.
Qed.

Lemma queue_move_copy_loops q its ord (from to : nat) :
  q_rep q its ord -> (from < length its)%nat -> (to < length its)%nat ->
  (q ← for_range (Z.of_nat from) (Z.of_nat to)
         (fun i q => queue_move_song_to q (u32 (i + 1)) i) q;
   for_down (Z.of_nat from) (Z.of_nat to)
         (fun i q => queue_move_song_to q (u32 (i - 1)) i) q)
  = Ok (puts (q_version q) (slice_writes from (S from) (to - from) its ++
          reverse (slice_writes (to + (S from - from)) to (from - to) its)) q).
Proof.
  intros Hrep Hf Ht. pose proof (rep_length_pos _ _ _ Hrep) as Hpos.
  pose proof (rep_writable _ _ _ Hrep) as Hw.
  rewrite puts_app. destruct (decide (from <= to)%nat).
  - replace (Z.of_nat to) with (Z.of_nat (from + (to - from))) at 1 by lia.
    rewrite (move_up_loop _ its _ from from (S from) (to - from) _ Hw); [|lia|lia|].
    2:{ intros k q' Hk. rewrite u32_small by lia. f_equal; lia. }
    cbn [mbind res_bind]. rewrite for_down_empty by lia.
    by replace (from - to)%nat with 0%nat by lia.
  - rewrite for_range_empty by lia. cbn [mbind res_bind].
    replace (to - from)%nat with 0%nat by lia.
    change (slice_writes from (S from) 0 its) with (@nil (nat * queue_item)).
    cbn [puts foldl]. fold (puts (G := G)).
    replace (Z.of_nat to) with (Z.of_nat from - Z.of_nat (from - to)) at 1 by lia.
    apply (move_down_loop _ _ _ _ _ _ _ _ Hw); [lia..|].
    intros k q' Hk. rewrite u32_small by lia. f_equal; lia.
Qed.

(** [queue_move(q, from, to)] is [queue_move_range(q, from, from + 1, to)]. *)
Lemma queue_move_ok q its ord (from to : nat) :
  q_rep q its ord -> (from < length its)%nat -> (to < length its)%nat ->
  exists q', queue_move q (Z.of_nat from) (Z.of_nat to) = Ok q' /\
    q_rep q' (moved_items (q_version q) from (S from) to its)
             (moved_order q from (S from) to ord) /\
    q_frame q q' /\ q_version q' = q_version q.
Proof.
  intros Hrep Hf Ht. pose proof (rep_length_pos _ _ _ Hrep) as Hpos.
  pose proof (rep_writable _ _ _ Hrep) as Hw. pose proof Hw as [Hit Hsmall Htab Hids].
  destruct (lookup_lt_is_Some_2 its from Hf) as [it Hfrom].
  pose proof (holds_length _ _ Hit) as Hroom.
  pose proof (Forall_lookup_1 _ _ _ _ Hids Hfrom) as Hid. simpl in Hid.
  unfold queue_move. rewrite (rep_get_item _ _ _ Hrep _ _ Hfrom). cbn [mbind res_bind].
  pose proof (queue_move_copy_loops _ _ _ _ _ Hrep Hf Ht) as Hcopy.
  set (ws1 := slice_writes from (S from) (to - from) its) in *.
  set (ws2 := reverse (slice_writes (to + (S from - from)) to (from - to) its)) in *.
  apply bind_Ok in Hcopy as (q1 & -> & Hcopy). cbn [mbind res_bind]. rewrite Hcopy.
  set (q2 := puts (q_version q) (ws1 ++ ws2) q) in *.
  destruct (puts_frame (q_version q) (ws1 ++ ws2) q) as (_ & _ & Hv & _ & _ & Hl & Hl' & _).
  fold q2 in Hv, Hl, Hl'. cbn [mbind res_bind].
  rewrite (aset_ok_Z (q_id_to_position q2)) by lia. cbn [mbind res_bind].
  rewrite (aset_ok (q_items q2)) by lia. cbn [mbind res_bind].
  rewrite (aget_ok _ _ it) by (apply list_lookup_insert_eq; lia). cbn [mbind res_bind].
  rewrite aset_ok by (rewrite length_insert; lia). cbn [mbind res_bind].
  rewrite list_insert_insert_eq, i32_small by lia.
  set (q3 := set_items _ _).
  assert (q3 = puts (q_version q) (move_writes from (S from) to its) q) as Hq3.
  { unfold move_writes. fold ws1 ws2. rewrite app_assoc, puts_app.
    replace (slice_writes to from (S from - from) its) with [(to, it)].
    - subst q3. rewrite Hv. done.
    - replace (S from - from)%nat with 1%nat by lia. unfold slice_writes.
      by rewrite (drop_S _ it) by done. }
  clearbody q3. subst q3.
  pose proof (rep_move_writes _ _ _ from (S from) to Hrep ltac:(lia) ltac:(lia)) as Hrep'.
  pose proof (puts_q_frame (q_version q) (move_writes from (S from) to its) q) as Hfr.
  destruct (puts_frame (q_version q) (move_writes from (S from) to its) q)
    as (_ & _ & Hv2 & _ & Hr & _).
  unfold moved_order. rewrite Hr. destruct (q_random q); [|eauto].
  assert (length (moved_items (q_version q) from (S from) to its) = length its) as Hlen.
  { unfold moved_items. rewrite length_alter_range, length_move_block; lia. }
  destruct (map_order_ok _ _ _ Hrep'
    (queue_move_position (Z.of_nat from) (Z.of_nat to)) (move_block_dst from (S from) to))
    as (q' & Heq & Hrep'' & Hq').
  { intros p Hp. rewrite Hlen in Hp. rewrite queue_move_position_range by lia.
    apply (move_range_position_ok _ _ _ _ (length its)); lia. }
  { rewrite Hlen. eapply moved_order_perm; [lia..|]. by eapply rep_perm. }
  exists q'. split_and!; [done|done| |]; rewrite Hq'; [|done]. by etrans.
Qed.

End with_glib.
