(* ===== verification/PlayQueueDelete.v ===== *)
(** * Deleting, clearing, initialising and version numbers *)

From S2P Require Import Prelude GLib Song PlayQueue PlayQueueRep PlayQueueEdit.
Local Open Scope Z_scope.

Section with_glib.
Context {G : GLib}.

(** The items and the order after [queue_delete()] of position [p], which
    had order number [o]. *)
Definition deleted_items (v : Z) (p : nat) (its : list queue_item) : list queue_item :=
  alter_range (item_set_version v) p (length its) (delete p its).

Definition deleted_order (p o : nat) (ord : list nat) : list nat :=
  (fun x => if (p <? x)%nat then (x - 1)%nat else x) <$> delete o ord.

(** Songs that are not in the database belong to the queue. *)
Definition owned_songs (its : list queue_item) : list song :=
  filter (fun s => song_in_database s = false) (item_song <$> its).

(** ** [queue_delete()] *)

Lemma length_delete_alt {A} (l : list A) i :
  (i < length l)%nat -> length (delete i l) = (length l - 1)%nat.
Proof.
  intros Hi. destruct (lookup_lt_is_Some_2 l i Hi) as [x Hx].
  apply length_delete. by exists x.
Qed.

Lemma delete_lookup {A} (l : list A) i j :
  delete i l !! j = if (j <? i)%nat then l !! j else l !! S j.
Proof.
  case_nat; [by apply list_lookup_delete_lt | by apply list_lookup_delete_ge].
Qed.

Lemma deleted_items_lookup v p its j :
  deleted_items v p its !! j =
    if (j <? p)%nat then its !! j else item_set_version v <$> its !! S j.
Proof.
  unfold deleted_items. rewrite alter_range_lookup, delete_lookup.
  case_nat; simpl; try done; try lia.
  rewrite lookup_ge_None_2 by lia. done.
Qed.

Lemma unversioned_deleted v p its :
  unversioned (deleted_items v p its) = delete p (unversioned its).
Proof.
  apply list_eq. intros j. unfold unversioned.
  rewrite list_lookup_fmap, deleted_items_lookup, delete_lookup, !list_lookup_fmap.
  case_nat; [done|]. by destruct (its !! S j).
Qed.

Lemma length_deleted_items v p its :
  (p < length its)%nat -> length (deleted_items v p its) = (length its - 1)%nat.
Proof. intros. unfold deleted_items. by rewrite length_alter_range, length_delete_alt. Qed.

Lemma deleted_order_perm p o ord n :
  ord ≡ₚ seq 0 n -> ord !! o = Some p -> deleted_order p o ord ≡ₚ seq 0 (n - 1).
Proof.
  intros Hperm Ho. assert (NoDup ord) as Hnd by (rewrite Hperm; apply NoDup_seq).
  assert (length ord = n) as Hlen by (by rewrite Hperm, length_seq).
  pose proof (lookup_lt_Some _ _ _ Ho) as Hlt.
  assert (forall x, x ∈ delete o ord -> x <> p /\ (x < n)%nat) as Hin.
  { intros x [j Hj]%list_elem_of_lookup. rewrite delete_lookup in Hj. split.
    - intros ->. revert Hj. case_nat; intros Hj;
        pose proof (NoDup_lookup _ _ _ _ Hnd Hj Ho); lia.
    - assert (x ∈ ord) as Hx by (revert Hj; case_nat; eauto using list_elem_of_lookup_2).
      rewrite Hperm, elem_of_seq in Hx. lia. }
  assert (p < n)%nat as Hp.
  { apply list_elem_of_lookup_2 in Ho. rewrite Hperm, elem_of_seq in Ho. lia. }
  unfold deleted_order. apply perm_seq_intro.
  - apply NoDup_fmap_2_strong.
    + intros x y [? ?]%Hin [? ?]%Hin. case_nat; lia.
    + eapply sublist_NoDup; [done|]. apply sublist_delete.
  - intros y (x & -> & [? ?]%Hin)%list_elem_of_fmap. case_nat; lia.
  - rewrite length_fmap, length_delete_alt; lia.
Qed.

(** The identifier table after the item writes of [queue_delete()]. *)
Lemma delete_ids q q0 its ord p it :
  q_rep q its ord -> its !! p = Some it ->
  q_id_to_position q0 = <[Z.to_nat (item_id it) := Some (-1)]> (q_id_to_position q) ->
  ids_ok (q_max_length q * QUEUE_HASH_MULT)
    (q_id_to_position (puts (q_version q) (slice_writes p (S p) (length its - 1 - p) its) q0))
    (fun j => deleted_items (q_version q) p its !! j).
Proof.
  intros Hrep Hp Hq0. pose proof (rep_ids _ _ _ Hrep) as Hids.
  pose proof (lookup_lt_Some _ _ _ Hp) as Hlt.
  set (m := (length its - 1 - p)%nat).
  assert (forall j x, (j, x) ∈ slice_writes p (S p) m its <->
     (p <= j < p + m)%nat /\ its !! S j = Some x) as Hin.
  { intros j x. rewrite elem_of_slice_writes by lia. split; intros [Hj Hx]; split; [lia| |lia|].
    - by replace (S p + (j - p))%nat with (S j) in Hx by lia.
    - by replace (S p + (j - p))%nat with (S j) by lia. }
  apply (ids_puts _ _ _ _ (fun j => if decide (j = p) then None else its !! j)).
  - rewrite Hq0. by apply (ids_remove _ _ (fun j => its !! j) p).
  - eapply (puts_ids_nodup _ _ its); [done| |].
    + apply NoDup_alt. intros i j x Hi Hj.
      rewrite list_lookup_fmap_Some in Hi, Hj.
      destruct Hi as ([a b] & -> & Hi), Hj as ([a' b'] & Heq & Hj). simpl in Heq. subst b'.
      apply slice_writes_lookup in Hi as (_ & _ & Hi); [|lia].
      apply slice_writes_lookup in Hj as (_ & _ & Hj); [|lia]. simpl in *.
      pose proof (NoDup_lookup _ _ _ _ (rep_items_nodup _ _ _ Hrep) Hi Hj). lia.
    + intros [j x] [_ Hx]%Hin. by eapply list_elem_of_lookup_2.
  - intros j x [Hj Hx]%Hin. exists (S j). by rewrite decide_False by lia.
  - intros j x [Hj Hx]%Hin. rewrite deleted_items_lookup, Hx. case_nat; [lia|done].
  - intros j x Hx. rewrite deleted_items_lookup in Hx. revert Hx. case_nat; intros Hx.
    + right. rewrite decide_False by lia. split; [done|].
      intros [j' x'] [Hj' Hx']%Hin Heq. simpl in Heq.
      pose proof (ids_injective _ _ _ _ _ _ _ Hids Hx' Hx Heq). lia.
    + left. apply fmap_Some in Hx as (x' & Hx' & ->). exists x'. split; [|done].
      apply Hin. split; [|done]. apply lookup_lt_Some in Hx'. lia.
  - intros j x Hx Hall. case_decide as Hjp; [done|]. rewrite deleted_items_lookup.
    case_nat; [done|]. exfalso. pose proof (lookup_lt_Some _ _ _ Hx).
    apply (Hall ((j - 1)%nat, x)); [|done]. apply Hin.
    split; [lia|]. by replace (S (j - 1)) with j by lia.
Qed.

(** The two order loops of [queue_delete()]. *)
Lemma delete_order_loops q ord (p o : nat) n :
  q_length q = Z.of_nat n -> Z.of_nat n < 2 ^ 30 -> length ord = S n ->
  ord ≡ₚ seq 0 (S n) -> holds (q_order q) (Z.of_nat <$> ord) -> ord !! o = Some p ->
  exists q', (q ← for_range (Z.of_nat o) (q_length q) (fun i q =>
        p ← aget (q_order q) (i + 1); ord ← aset (q_order q) i p; Ok (set_order ord q)) q;
      for_range 0 (q_length q) (fun i q =>
        x ← aget (q_order q) i;
        if Z.of_nat p <? x then
          ord ← aset (q_order q) i (u32 (x - 1)); Ok (set_order ord q)
        else Ok q) q) = Ok q' /\
    q' = set_order (q_order q') q /\ length (q_order q') = length (q_order q) /\
    holds (q_order q') (Z.of_nat <$> deleted_order p o ord).
Proof.
  intros Hn Hsmall Hlen Hperm Hh Ho. pose proof (lookup_lt_Some _ _ _ Ho) as Hlt.
  destruct (order_shift_loop q (Z.of_nat <$> ord) o n Hh) as (l & Heq & Hl & H1 & H2).
  { rewrite length_fmap. lia. }
  rewrite Hn in *. rewrite Heq. cbn [mbind res_bind].
  pose proof (holds_length _ _ Hh) as Hroom. rewrite length_fmap in Hroom.
  assert (forall k, (k < n)%nat -> exists x, delete o ord !! k = Some x /\
            (x < S n)%nat /\ l !! k = Some (Some (Z.of_nat x))) as Hdel.
  { intros k Hk. destruct (lookup_lt_is_Some_2 (delete o ord) k) as [x Hx].
    { rewrite length_delete_alt; lia. }
    exists x. split; [done|]. rewrite delete_lookup in Hx. split.
    - assert (x ∈ ord) as Hxo by (revert Hx; case_nat; eauto using list_elem_of_lookup_2).
      rewrite Hperm, elem_of_seq in Hxo. lia.
    - revert Hx. case_nat; intros Hx.
      + apply H1; [by rewrite list_lookup_fmap, Hx | lia].
      + apply H2; [lia | by rewrite list_lookup_fmap, Hx]. }
  destruct (order_write_loop (set_order l q) n
    (fun k => match deleted_order p o ord !! k with Some x => Z.of_nat x | None => 0 end)
    (fun i q => x ← aget (q_order q) i;
        if Z.of_nat p <? x then
          ord ← aset (q_order q) i (u32 (x - 1)); Ok (set_order ord q)
        else Ok q)) as (q' & Heq' & Hq' & Hl' & Hh').
  { done. } { simpl. lia. }
  { intros k q' Hk Hlq _ Hkk. simpl in Hkk. destruct (Hdel k Hk) as (x & Hx & Hxn & Hlx).
    rewrite Hlx in Hkk. rewrite (aget_ok _ _ _ Hkk). cbn [mbind res_bind].
    unfold deleted_order. rewrite list_lookup_fmap, Hx. simpl in *.
    destruct (Nat.ltb_spec p x), (Z.ltb_spec (Z.of_nat p) (Z.of_nat x)); try lia.
    - rewrite aset_ok by lia. cbn [mbind res_bind]. rewrite u32_small by lia.
      by replace (Z.of_nat x - 1) with (Z.of_nat (x - 1)) by lia.
    - rewrite list_insert_id by done. by destruct q'. }
  exists q'. split; [exact Heq'|].
  split_and!; [by rewrite Hq' | simpl in *; congruence |].
  intros k x Hx. apply Hh'. rewrite list_lookup_fmap in Hx.
  destruct (deleted_order p o ord !! k) as [y|] eqn:Hy; simplify_eq/=.
  assert (k < n)%nat.
  { apply lookup_lt_Some in Hy. unfold deleted_order in Hy.
    rewrite length_fmap, length_delete_alt in Hy; lia. }
  rewrite list_lookup_fmap, lookup_seq_lt by done. simpl. by rewrite Hy.
Qed.

Lemma queue_delete_ok q its ord (p o : nat) it :
  q_rep q its ord -> its !! p = Some it -> ord !! o = Some p ->
  exists q', queue_delete q (Z.of_nat p) = Ok (owned_songs [it], q') /\
    q_rep q' (deleted_items (q_version q) p its) (deleted_order p o ord) /\
    q_frame q q' /\ q_version q' = q_version q.
Proof.
  intros Hrep Hp Ho. pose proof (rep_length_pos _ _ _ Hrep) as Hpos.
  pose proof (lookup_lt_Some _ _ _ Hp) as Hlt.
  pose proof (rep_writable _ _ _ Hrep) as Hw. pose proof Hw as [Hit Hsmall Htab Hids].
  pose proof (Forall_lookup_1 _ _ _ _ Hids Hp) as Hid. simpl in Hid.
  unfold queue_delete. rewrite (rep_lt_length _ _ _ Hrep) by done.
  rewrite (queue_get_ok _ _ _ Hrep _ _ Hp), (queue_position_to_id_ok _ _ _ Hrep _ _ Hp).
  rewrite (queue_position_to_order_ok _ _ _ Hrep _ _ Ho). cbn [mbind res_bind assert].
  rewrite (rep_len _ _ _ Hrep), u32_small by lia. simpl q_id_to_position.
  rewrite aset_ok_Z by lia. cbn [mbind res_bind].
  set (m := (length its - 1 - p)%nat).
  set (q0 := set_id_to_position _ (set_length _ q)).
  assert (writable q0 its (q_max_length q * QUEUE_HASH_MULT)) as Hw0.
  { split; simpl; [done..| |done]. by rewrite length_insert. }
  replace (q_length q0) with (Z.of_nat (p + m)) by (simpl; lia).
  rewrite (move_up_loop _ its _ p p (S p) m _ Hw0); [|lia|lia|].
  2:{ intros k q' Hk. f_equal. lia. }
  cbn [mbind res_bind]. set (q1 := puts (q_version q0) _ q0).
  destruct (puts_frame (q_version q0) (slice_writes p (S p) m its) q0)
    as (_ & Hlen1 & Hv1 & Hord1 & _ & Hl1 & _ & Hq1). fold q1 in Hlen1, Hv1, Hord1, Hl1, Hq1.
  destruct (delete_order_loops q1 ord p o (length its - 1)) as (q' & Heq & Hq' & Hl' & Hh').
  { rewrite Hlen1. simpl. lia. } { lia. }
  { rewrite (rep_length_ord _ _ _ Hrep). lia. }
  { replace (S (length its - 1)) with (length its) by lia. apply (rep_perm _ _ _ Hrep). }
  { rewrite Hord1. apply (rep_order _ _ _ Hrep). } { done. }
  apply bind_Ok in Heq as (q2 & -> & Heq). cbn [mbind res_bind]. rewrite Heq.
  cbn [mbind res_bind]. exists q'. split.
  { unfold owned_songs. simpl. by destruct (song_in_database (item_song it)) eqn:Hs;
      [rewrite filter_cons_False by congruence | rewrite filter_cons_True by done]. }
  split; [|rewrite Hq', Hq1; done].
  pose proof (delete_ids q q0 _ _ _ _ Hrep Hp eq_refl) as Hids'. fold m in Hids'.
  change (q_version q) with (q_version q0) in Hids' at 1. fold q1 in Hids'.
  pose proof (length_deleted_items (q_version q) p its Hlt) as Hld.
  rewrite Hq', Hq1. destruct Hrep. split; simpl; try done.
  - rewrite Hld. lia.
  - rewrite Hld. lia.
  - simpl in Hl1. congruence.
  - intros j x Hx. rewrite deleted_items_lookup in Hx. revert Hx. case_nat; intros Hx.
    + subst q1. rewrite puts_items_notin; [by apply Hit|].
      rewrite slice_writes_fst, elem_of_seq by lia. lia.
    + apply fmap_Some in Hx as (x' & Hx' & ->). pose proof (lookup_lt_Some _ _ _ Hx').
      subst q1. apply puts_items_in.
      * rewrite slice_writes_fst by lia. apply NoDup_seq.
      * apply elem_of_slice_writes; [lia|]. split; [lia|].
        by replace (S p + (j - p))%nat with (S j) by lia.
      * simpl. lia.
  - rewrite Hl', Hord1. done.
  - rewrite Hld. by apply deleted_order_perm.
Qed.

(** ** [queue_clear()] *)

Lemma queue_clear_ok q its ord :
  q_rep q its ord ->
  exists q', queue_clear q = Ok (owned_songs its, q') /\ q_rep q' [] [] /\
    q_frame q q' /\ q_version q' = q_version q.
Proof.
  intros Hrep. pose proof (rep_ids _ _ _ Hrep) as Hids.
  pose proof (rep_writable _ _ _ Hrep) as [Hit _ Htab Hr].
  unfold queue_clear. rewrite (rep_len _ _ _ Hrep).
  set (body := fun (i : Z) '((freed, q) : list song * queue) => _).
  assert (wp (for_range 0 (Z.of_nat (length its)) body ([], q)) (fun '(freed, q') =>
    freed = owned_songs its /\ q' = set_id_to_position (q_id_to_position q') q /\
    ids_ok (q_max_length q * QUEUE_HASH_MULT) (q_id_to_position q') (fun _ => None))) as Hwp.
  { eapply wp_mono.
    - apply (for_range_inv (fun k '(freed, q') =>
        freed = owned_songs (take k its) /\ q' = set_id_to_position (q_id_to_position q') q /\
        ids_ok (q_max_length q * QUEUE_HASH_MULT) (q_id_to_position q')
          (fun p => if (p <? k)%nat then None else its !! p)) _ 0); [lia| |].
      + split_and!; [done | by destruct q | done].
      + intros k [freed q'] Hk (-> & Hq' & Hids').
        destruct (lookup_lt_is_Some_2 its k) as [it Hk']; [lia|].
        pose proof (Forall_lookup_1 _ _ _ _ Hr Hk') as Hid. simpl in Hid.
        unfold body. rewrite Hq'. simpl q_items.
        rewrite (rep_get_item _ _ _ Hrep _ _ Hk'). simpl.
        rewrite aset_ok_Z by (rewrite (ids_length _ _ _ Hids'); lia).
        simpl. split_and!.
        * rewrite (take_S_r _ _ _ Hk'). unfold owned_songs. rewrite fmap_app, filter_app. simpl.
          destruct (song_in_database (item_song it)) eqn:Hs; simpl.
          -- by rewrite filter_cons_False, app_nil_r by congruence.
          -- by rewrite filter_cons_True by done.
        * done.
        * eapply (ids_remove _ _ _ k it _ Hids').
          -- case_nat; [lia | done].
          -- intros p. case_decide; case_nat; try lia; done.
    - intros [freed q'] (-> & Hq' & Hids'). split_and!; [|done|].
      + by rewrite firstn_all.
      + eapply ids_ok_ext; [done|]. intros p. simpl. case_nat; [done|].
        by apply lookup_ge_None_2. }
  apply wp_inv in Hwp as ([freed q'] & -> & -> & Hq' & Hids'). simpl.
  eexists. split; [done|]. rewrite Hq'. split; [|done].
  destruct Hrep. split; simpl; try done; lia.
Qed.

(** Every song outside of the database is freed exactly once. *)
Lemma queue_finish_ok q its ord : q_rep q its ord -> queue_finish q = Ok (owned_songs its).
Proof.
  intros Hrep. destruct (queue_clear_ok q its ord Hrep) as (q' & Hq & _).
  unfold queue_finish. by rewrite Hq.
Qed.

(** ** [queue_init()] *)

Lemma queue_init_ok max rand cur :
  0 <= max -> max * QUEUE_HASH_MULT < 2 ^ 32 -> 0 <= cur < 2 ^ 32 ->
  exists q, queue_init max rand cur = Ok q /\ q_inv q [] [] /\
    q_max_length q = max /\ q_random q = false.
Proof.
  intros Hmax Hn Hcur. unfold queue_init. rewrite u32_small by (unfold QUEUE_HASH_MULT in *; lia).
  set (n := max * QUEUE_HASH_MULT) in *.
  assert (wp (for_range 0 n (fun i idp => aset idp i (-1)) (replicate (Z.to_nat n) None))
    (fun idp => length idp = Z.to_nat n /\ forall i v, idp !! i = Some v -> v = Some (-1)))
    as Hwp.
  { rewrite <- (Z2Nat.id n) at 1 by (unfold n, QUEUE_HASH_MULT; lia). eapply wp_mono.
    - apply (for_range_inv (fun k idp => length idp = Z.to_nat n /\
        forall i v, (i < k)%nat -> idp !! i = Some v -> v = Some (-1)) _ 0); [lia| |].
      + split; [by rewrite length_replicate | lia].
      + intros k idp Hk [Hl Hv]. rewrite aset_ok by lia. simpl.
        split; [by rewrite length_insert|]. intros i v Hi Hiv.
        apply list_lookup_insert_Some in Hiv as [(<- & <- & _)|[Hne Hiv]]; [done|].
        eapply Hv; [|done]. lia.
    - intros idp [Hl Hv]. split; [done|]. intros i v Hi. eapply Hv; [|done].
      apply lookup_lt_Some in Hi. lia. }
  apply wp_inv in Hwp as (idp & -> & Hl & Hv). simpl. eexists. split; [done|].
  split; [|done]. split; simpl.
  - split; simpl; try done; rewrite ?length_replicate; try done.
    split; [done | done |]. intros i v Hi. left. by eapply Hv.
  - done.
  - done.
  - done.
Qed.

(** ** Version numbers *)

Lemma unversioned_idemp its f v :
  (forall it, f it = item_set_version v it \/ f it = it) ->
  unversioned (f <$> its) = unversioned its.
Proof.
  intros Hf. unfold unversioned. rewrite <- list_fmap_compose.
  apply list_fmap_ext. intros i it _. simpl. by destruct (Hf it) as [-> | ->].
Qed.

(** A loop that sets the version of every item. *)
Lemma version_loop q its ord (v : queue -> Z) :
  q_rep q its ord -> (forall q l, v (set_items l q) = v q) ->
  exists q', for_range 0 (q_length q) (fun i q =>
      it ← aget (q_items q) i;
      items ← aset (q_items q) i (item_set_version (v q) it);
      Ok (set_items items q)) q = Ok q' /\
    q_rep q' (item_set_version (v q) <$> its) ord /\ q' = set_items (q_items q') q.
Proof.
  intros Hrep Hv. pose proof (rep_writable _ _ _ Hrep) as [Hit _ _ _].
  pose proof (rep_ids _ _ _ Hrep) as Hids.
  rewrite (rep_len _ _ _ Hrep). apply wp_inv. eapply wp_mono.
  { apply (for_range_inv (fun k q' => q' = set_items (q_items q') q /\
      length (q_items q') = length (q_items q) /\
      (forall p it, its !! p = Some it -> q_items q' !! p = Some (Some
         (if (p <? k)%nat then item_set_version (v q) it else it)))) _ 0); [lia| |].
    - split_and!; [by destruct q | done |]. intros p it Hp. case_nat; [lia|]. by apply Hit.
    - intros k q' Hk (Hq' & Hl & Hj). destruct (lookup_lt_is_Some_2 its k) as [it Hk']; [lia|].
      pose proof (Hj _ _ Hk') as Hjk. revert Hjk. case_nat; [lia|]. intros Hjk.
      rewrite (aget_ok _ _ _ Hjk). simpl.
      pose proof (lookup_lt_Some _ _ _ Hjk). rewrite aset_ok by lia. simpl.
      assert (v q' = v q) as -> by (rewrite Hq'; apply Hv). split_and!.
      + by rewrite Hq'.
      + by rewrite length_insert.
      + intros p it' Hp. destruct (decide (p = k)) as [->|].
        * rewrite list_lookup_insert_eq by lia. case_nat; [|lia]. congruence.
        * rewrite list_lookup_insert_ne, (Hj _ _ Hp) by done. case_nat; (done || lia). }
  intros q' (Hq' & Hl & Hj). split; [|done]. rewrite Hq'.
  destruct Hrep. split; simpl; rewrite ?length_fmap; try done; [congruence| |].
  - intros p it Hp. rewrite list_lookup_fmap in Hp. apply fmap_Some in Hp as (it' & Hp & ->).
    rewrite (Hj _ _ Hp). apply lookup_lt_Some in Hp. case_nat; [done|lia].
  - split.
    + apply Hids.
    + intros p it Hp. rewrite list_lookup_fmap in Hp. apply fmap_Some in Hp as (it' & Hp & ->).
      by apply (ids_forward _ _ _ Hids p it').
    + intros i w Hw. destruct (ids_backward _ _ _ Hids i w Hw) as [?|(p & it & Hp & ? & ?)];
        [by left|]. right. exists p, (item_set_version (v q) it).
      by rewrite list_lookup_fmap, Hp.
Qed.

(** What the version counter does to the items: nothing, or it marks all
    of them as "never seen" when the numbers are used up. *)
Definition bumped_items (q : queue) (its : list queue_item) : list queue_item :=
  if queue_max_version <=? q_version q + 1 then item_set_version 0 <$> its else its.

Lemma queue_increment_version_ok q its ord :
  q_rep q its ord -> 1 <= q_version q < queue_max_version ->
  exists q', queue_increment_version q = Ok q' /\
    q_rep q' (bumped_items q its) ord /\ q_frame q q' /\
    1 <= q_version q' < queue_max_version /\
    (q_version q' = q_version q + 1 \/
     q_version q + 1 = queue_max_version /\ q_version q' = 1).
Proof.
  intros Hrep Hv. unfold queue_max_version in Hv. unfold queue_increment_version.
  rewrite u32_small by lia. set (q1 := set_version (q_version q + 1) q).
  assert (q_rep q1 its ord) as Hrep1 by (destruct Hrep; split; done).
  cbv zeta. unfold bumped_items. change (q_version q1) with (q_version q + 1).
  destruct (Z.leb_spec queue_max_version (q_version q + 1)) as [Hge|Hlt].
  - destruct (version_loop q1 its ord (fun _ => 0) Hrep1) as (q2 & Heq & Hrep2 & Hq2); [done|].
    rewrite Heq. simpl. eexists. split; [done|]. unfold queue_max_version in *.
    split_and!; [by destruct Hrep2| by rewrite Hq2 | done | done |]. right. simpl. lia.
  - exists q1. unfold queue_max_version in *. simpl. split_and!; [done|done|done|lia|lia|].
    by left.
Qed.

Lemma bumped_items_unversioned q its : unversioned (bumped_items q its) = unversioned its.
Proof.
  unfold bumped_items. case_match; [|done]. apply (unversioned_idemp _ _ 0). auto.
Qed.

End with_glib.
