(* ===== verification/PlayQueueOrder.v ===== *)
(** * Random order and priorities

    Shuffling only permutes the order numbers of the range it is given;
    the priority aware shuffle leaves the range sorted by descending
    priority, and changing priorities keeps the songs that are still to be
    played sorted. *)

From S2P Require Import Prelude GLib Song PlayQueue PlayQueueRep PlayQueueEdit.

Local Open Scope Z_scope.

(** ** Definitions *)

(** [l'] is [l] with the elements of the index range [s..e-1] permuted. *)
Definition range_perm {A} (s e : nat) (l l' : list A) : Prop :=
  exists a b b' c, l = a ++ b ++ c /\ l' = a ++ b' ++ c /\
    length a = s /\ length b = (e - s)%nat /\ b ≡ₚ b'.

(** The priority of the song at a position. *)
Definition prio_at (its : list queue_item) (p : nat) : Z :=
  match its !! p with Some it => item_priority it | None => 0 end.

(** On the order numbers [s..e-1] priorities never increase. *)
Definition sorted_range (s e : nat) (its : list queue_item) (ord : list nat) : Prop :=
  forall i j a b, (s <= i < j)%nat -> (j < e)%nat -> ord !! i = Some a -> ord !! j = Some b ->
    prio_at its b <= prio_at its a.

(** ** Permuted ranges *)

Section range_perm.
Context {A : Type}.
Implicit Types l : list A.

Lemma range_perm_refl s e l : (s <= e <= length l)%nat -> range_perm s e l l.
Proof.
  intros H. exists (take s l), (take (e - s) (drop s l)), (take (e - s) (drop s l)),
    (drop e l).
  assert (l = take s l ++ take (e - s) (drop s l) ++ drop e l) as Heq.
  { replace (drop e l) with (drop (e - s) (drop s l)) by (rewrite drop_drop; f_equal; lia).
    by rewrite take_drop, take_drop. }
  split_and!; [done..| | |done]; rewrite length_take, ?length_drop; lia.
Qed.

Lemma range_perm_trans s e l1 l2 l3 :
  range_perm s e l1 l2 -> range_perm s e l2 l3 -> range_perm s e l1 l3.
Proof.
  intros (a & b & b' & c & -> & -> & Ha & Hb & Hp) (a2 & b2 & b3 & c2 & Heq & -> & Ha2 & Hb2 & Hp2).
  apply app_inj_1 in Heq as [-> Heq]; [|lia].
  apply app_inj_1 in Heq as [-> ->]; [|rewrite <- Hp; lia].
  exists a2, b, b3, c2. split_and!; try done. by etrans.
Qed.

Lemma range_perm_widen s e s' e' l l' :
  range_perm s e l l' -> (s' <= s)%nat -> (s <= e)%nat -> (e <= e' <= length l)%nat ->
  range_perm s' e' l l'.
Proof.
  intros (a & b & b' & c & -> & -> & Ha & Hb & Hp) H1 H2 H3.
  rewrite !length_app in H3.
  exists (take s' a), (drop s' a ++ b ++ take (e' - e) c),
    (drop s' a ++ b' ++ take (e' - e) c), (drop (e' - e) c). split_and!.
  - rewrite <- !app_assoc, take_drop. by rewrite (app_assoc (take s' a)), take_drop.
  - rewrite <- !app_assoc, take_drop. by rewrite (app_assoc (take s' a)), take_drop.
  - rewrite length_take. lia.
  - rewrite !length_app, length_drop, length_take. lia.
  - by rewrite Hp.
Qed.

Lemma range_perm_perm s e l l' : range_perm s e l l' -> l' ≡ₚ l.
Proof. intros (a & b & b' & c & -> & -> & _ & _ & ->). done. Qed.

Lemma range_perm_length s e l l' : range_perm s e l l' -> length l' = length l.
Proof. intros H%range_perm_perm. by rewrite H. Qed.

Lemma range_perm_outside s e l l' j :
  range_perm s e l l' -> (s <= e)%nat -> (j < s)%nat \/ (e <= j)%nat -> l' !! j = l !! j.
Proof.
  intros (a & b & b' & c & -> & -> & Ha & Hb & Hp) Hse [Hj|Hj].
  - by rewrite !lookup_app_l by lia.
  - assert (length b' = length b) as Hbb by (by rewrite Hp).
    by rewrite !(lookup_app_r a), !lookup_app_r, Hbb by lia.
Qed.

Lemma range_perm_inside s e l l' j x :
  range_perm s e l l' -> l' !! j = Some x -> (s <= j < e)%nat ->
  exists i, (s <= i < e)%nat /\ l !! i = Some x.
Proof.
  intros (a & b & b' & c & -> & -> & Ha & Hb & Hp) Hx Hj.
  assert (length b' = length b) as Hbb by (by rewrite Hp).
  rewrite lookup_app_r, lookup_app_l in Hx by lia.
  apply list_elem_of_lookup_2 in Hx. rewrite <- Hp in Hx.
  apply list_elem_of_lookup in Hx as [i Hi]. pose proof (lookup_lt_Some _ _ _ Hi).
  exists (length a + i)%nat. split; [lia|].
  rewrite lookup_app_r, lookup_app_l by lia. by rewrite Nat.add_comm, Nat.add_sub.
Qed.

Lemma swap_list_range_perm s e i j l :
  (s <= i < e)%nat -> (s <= j < e)%nat -> (e <= length l)%nat ->
  range_perm s e l (swap_list i j l).
Proof.
  intros Hi Hj He.
  destruct (range_perm_refl s e l) as (a & b & b' & c & Hl & _ & Ha & Hb & _); [lia|].
  exists a, b, (swap_list (i - s) (j - s) b), c. split_and!; try done.
  - unfold swap_list. rewrite Hl. rewrite !(lookup_app_r a), !lookup_app_l by lia. rewrite Ha.
    destruct (lookup_lt_is_Some_2 b (i - s)) as [x Hx]; [lia|].
    destruct (lookup_lt_is_Some_2 b (j - s)) as [y Hy]; [lia|]. rewrite Hx, Hy.
    rewrite (insert_app_r_alt a), (insert_app_l b) by lia.
    rewrite (insert_app_r_alt a), (insert_app_l (<[_ := _]> b)) by (rewrite ?length_insert; lia).
    by rewrite Ha.
  - symmetry. apply swap_list_perm.
Qed.

(** Permuting elements with equal images does not change the images. *)
Lemma range_perm_fmap {B} (f : A -> B) s e l l' y :
  range_perm s e l l' -> (s <= e)%nat ->
  (forall i x, (s <= i < e)%nat -> l !! i = Some x -> f x = y) -> f <$> l' = f <$> l.
Proof.
  intros (a & b & b' & c & -> & -> & Ha & Hb & Hp) Hse Hf.
  rewrite !fmap_app. f_equal. f_equal.
  assert (forall x, x ∈ b -> f x = y) as Hfb.
  { intros x [i Hi]%list_elem_of_lookup. pose proof (lookup_lt_Some _ _ _ Hi).
    apply (Hf (s + i)%nat); [lia|]. rewrite lookup_app_r, lookup_app_l by lia.
    by replace (s + i - length a)%nat with i by lia. }
  assert (forall k : list A, (forall x, x ∈ k -> x ∈ b) -> f <$> k = replicate (length k) y) as Hrep.
  { induction k as [|x k IH]; intros Hk; [done|]. simpl. f_equal.
    - apply Hfb, Hk. set_solver.
    - apply IH. set_solver. }
  rewrite (Hrep b), (Hrep b'); [by rewrite Hp | by intros x; rewrite Hp | done].
Qed.

End range_perm.

Section with_glib.
Context {G : GLib} {HG : GLibSpec G}.

(** ** The random number generator *)

Lemma queue_rand_range_ok q (b e : nat) :
  (b < e)%nat -> Z.of_nat e < 2 ^ 31 ->
  exists r, (b <= r < e)%nat /\ (queue_rand_range q (Z.of_nat b) (Z.of_nat e)).1 = Z.of_nat r /\
    exists g, (queue_rand_range q (Z.of_nat b) (Z.of_nat e)).2 = set_rand g q.
Proof.
  intros Hbe He. unfold queue_rand_range. rewrite !i32_small by lia.
  pose proof (g_rand_int_range_bounds (q_rand q) (Z.of_nat b) (Z.of_nat e)) as Hr.
  destruct (g_rand_int_range (q_rand q) (Z.of_nat b) (Z.of_nat e)) as [r g]. simpl in *.
  exists (Z.to_nat r). split; [lia|]. split; [|by exists g]. rewrite u32_small; lia.
Qed.

Lemma rep_set_rand q its ord g : q_rep q its ord -> q_rep (set_rand g q) its ord.
Proof. intros []. by split. Qed.

(** A random swap of order numbers inside a range. *)
Lemma random_swap_ok q its ord (i b e : nat) :
  q_rep q its ord -> (b < e <= length its)%nat -> (i < length its)%nat ->
  exists r q', (let '(ri, q) := queue_rand_range q (Z.of_nat b) (Z.of_nat e) in
                queue_swap_order q (Z.of_nat i) ri) = Ok q' /\
    (b <= r < e)%nat /\ q_rep q' its (swap_list i r ord) /\
    q_frame q q' /\ q_version q' = q_version q /\ q_items q' = q_items q.
Proof.
  intros Hrep Hbe Hi. pose proof (rep_length_pos _ _ _ Hrep).
  destruct (queue_rand_range_ok q b e) as (r & Hr & H1 & g & H2); [lia..|].
  destruct (queue_rand_range q (Z.of_nat b) (Z.of_nat e)) as [ri q1]. simpl in *. subst.
  destruct (queue_swap_order_ok (set_rand g q) its ord) with (i := i) (j := r)
    as (q' & -> & Hrep' & Hq'); [by apply rep_set_rand|lia..|].
  exists r, q'. split_and!; [done|lia|lia|done| | |]; by rewrite Hq'.
Qed.

(** What shuffles guarantee: the items stay, the order of the range is
    permuted. *)
Definition order_shuffled (s e : nat) (q : queue) (its : list queue_item) (ord : list nat)
    (q' : queue) (ord' : list nat) : Prop :=
  q_rep q' its ord' /\ range_perm s e ord ord' /\
  q_frame q q' /\ q_version q' = q_version q /\ q_items q' = q_items q.

Lemma queue_shuffle_order_range_ok q its ord (s e : nat) :
  q_rep q its ord -> q_random q = true -> (s <= e <= length its)%nat ->
  exists q' ord', queue_shuffle_order_range q (Z.of_nat s) (Z.of_nat e) = Ok q' /\
    order_shuffled s e q its ord q' ord'.
Proof.
  intros Hrep Hrand Hse. unfold queue_shuffle_order_range. rewrite Hrand, (rep_len _ _ _ Hrep).
  replace (Z.of_nat s <=? Z.of_nat e) with true by (symmetry; apply Z.leb_le; lia).
  replace (Z.of_nat e <=? Z.of_nat (length its)) with true by (symmetry; apply Z.leb_le; lia).
  cbn [mbind res_bind assert].
  assert (wp (for_range (Z.of_nat s) (Z.of_nat e) (fun i q =>
    let '(ri, q) := queue_rand_range q i (Z.of_nat e) in queue_swap_order q i ri) q)
    (fun q' => exists ord', order_shuffled s e q its ord q' ord')) as Hwp.
  { apply (for_range_inv (fun _ q' => exists ord', order_shuffled s e q its ord q' ord')); [lia| |].
    - exists ord. unfold order_shuffled. split_and!; [done| |done..].
      apply range_perm_refl. by rewrite (rep_length_ord _ _ _ Hrep).
    - intros k q1 Hk (ord1 & Hrep1 & Hp1 & Hf1 & Hv1 & Hi1).
      destruct (random_swap_ok q1 its ord1 k k e) as (r & q' & -> & Hr & Hrep' & Hf & Hv & Hi);
        [done|lia..|]. simpl. exists (swap_list k r ord1).
      unfold order_shuffled. split_and!; [done| | |congruence|congruence].
      + eapply range_perm_trans; [done|]. apply swap_list_range_perm; [lia|lia|].
        rewrite (rep_length_ord _ _ _ Hrep1). lia.
      + by etrans. }
  apply wp_inv in Hwp as (q' & Heq & ord' & Ho). eauto.
Qed.

(** ** Sorting by priority *)

Lemma prio_lookup its p it : its !! p = Some it -> prio_at its p = item_priority it.
Proof. unfold prio_at. by intros ->. Qed.

Lemma position_priority_ok q its ord p :
  q_rep q its ord -> (p < length its)%nat -> position_priority q (Z.of_nat p) = prio_at its p.
Proof.
  intros Hrep Hp. destruct (lookup_lt_is_Some_2 its p Hp) as [it Hit].
  unfold position_priority. rewrite (rep_get_item _ _ _ Hrep _ _ Hit).
  by rewrite (prio_lookup _ _ _ Hit).
Qed.

Lemma compare_order_priority_le q a b :
  queue_item_compare_order_priority q a b <= 0 <-> position_priority q b <= position_priority q a.
Proof. unfold queue_item_compare_order_priority. case_Z; lia. Qed.

Lemma write_range_ok (l : cells Z) (s : nat) (xs : list Z) :
  (s + length xs <= length l)%nat ->
  exists l', write_range l (Z.of_nat s) xs = Ok l' /\ length l' = length l /\
    (forall j, (j < s)%nat \/ (s + length xs <= j)%nat -> l' !! j = l !! j) /\
    (forall j x, xs !! j = Some x -> l' !! (s + j)%nat = Some (Some x)).
Proof.
  intros Hroom. unfold write_range.
  set (body := fun (i : Z) '((ys, l) : list Z * cells Z) => _).
  assert (wp (for_range 0 (Z.of_nat (length xs)) body (xs, l)) (fun '(_, l') =>
    length l' = length l /\
    (forall j, (j < s)%nat \/ (s + length xs <= j)%nat -> l' !! j = l !! j) /\
    (forall j x, xs !! j = Some x -> l' !! (s + j)%nat = Some (Some x)))) as Hwp.
  { eapply wp_mono.
    - apply (for_range_inv (fun k '(ys, l') => ys = drop k xs /\ length l' = length l /\
        (forall j, (j < s)%nat \/ (s + k <= j)%nat -> l' !! j = l !! j) /\
        (forall j x, (j < k)%nat -> xs !! j = Some x -> l' !! (s + j)%nat = Some (Some x))) _ 0);
        [lia| |].
      + split_and!; [done | done | done | lia].
      + intros k [ys l'] Hk (-> & Hl & H1 & H2).
        destruct (lookup_lt_is_Some_2 xs k) as [x Hx]; [lia|].
        unfold body. rewrite (drop_S _ _ _ Hx).
        replace (Z.of_nat s + Z.of_nat k) with (Z.of_nat (s + k)) by lia.
        rewrite aset_ok by lia. simpl. split_and!; [done|by rewrite length_insert| |].
        * intros j Hj. rewrite list_lookup_insert_ne by lia. apply H1. lia.
        * intros j y Hj Hy. destruct (decide (j = k)) as [->|].
          -- rewrite list_lookup_insert_eq by lia. congruence.
          -- rewrite list_lookup_insert_ne by lia. apply H2; [lia|done].
    - intros [ys l'] (_ & Hl & H1 & H2). split_and!; [done|done|].
      intros j x Hx. apply H2; [|done]. by eapply lookup_lt_Some. }
  apply wp_inv in Hwp as ([ys l'] & -> & ?). simpl. eauto.
Qed.

(** Every priority the comparison function looks at can be read. *)
Lemma sort_readable q its ord (b : list nat) :
  q_rep q its ord -> (forall x, x ∈ b -> (x < length its)%nat) ->
  for_range 0 (Z.of_nat (length (Z.of_nat <$> b))) (fun i u =>
    p ← aget (Some <$> (Z.of_nat <$> b)) i; aget (q_items q) p;; Ok u) tt = Ok tt.
Proof.
  intros Hrep Hb. match goal with |- ?m = _ => assert (wp m (fun _ => True)) as Hwp end.
  { apply (for_range_inv (fun _ _ => True) _ 0); [lia|done|]. intros k [] Hk _.
    rewrite length_fmap in Hk. destruct (lookup_lt_is_Some_2 b k) as [x Hx]; [lia|].
    rewrite (aget_ok _ _ (Z.of_nat x)) by (by rewrite !list_lookup_fmap, Hx). simpl.
    destruct (lookup_lt_is_Some_2 its x) as [it Hit].
    { apply Hb. by eapply list_elem_of_lookup_2. }
    by rewrite (rep_get_item _ _ _ Hrep _ _ Hit). }
  by apply wp_inv in Hwp as ([] & -> & _).
Qed.

Lemma StronglySorted_lookup {A} (R : A -> A -> Prop) l i j x y :
  StronglySorted R l -> (i < j)%nat -> l !! i = Some x -> l !! j = Some y -> R x y.
Proof.
  intros Hs. revert i j. induction Hs as [|z l Hs IH Hz]; intros i j Hij Hi Hj; [done|].
  destruct i as [|i], j as [|j]; simplify_eq/=; [lia| |lia|].
  - by eapply Forall_lookup_1 in Hz.
  - eapply IH; [|done..]. lia.
Qed.

(** The sort on the abstract order. *)
Lemma sort_positions q its ord (b : list nat) :
  q_rep q its ord -> (forall x, x ∈ b -> (x < length its)%nat) ->
  exists b', g_qsort_with_data (Z.of_nat <$> b) (queue_item_compare_order_priority q)
      = Z.of_nat <$> b' /\ b ≡ₚ b' /\
    forall i j x y, (i < j)%nat -> b' !! i = Some x -> b' !! j = Some y ->
      prio_at its y <= prio_at its x.
Proof.
  intros Hrep Hb. set (cmp := queue_item_compare_order_priority q).
  pose proof (g_qsort_perm (Z.of_nat <$> b) cmp) as Hperm.
  assert (StronglySorted (fun x y => cmp x y <= 0) (g_qsort_with_data (Z.of_nat <$> b) cmp))
    as Hsorted.
  { apply g_qsort_sorted; subst cmp; intros *; rewrite !compare_order_priority_le; lia. }
  apply Permutation_map_inv in Hperm as (b' & Heq & Hp). exists b'. split_and!; [done..|].
  intros i j x y Hij Hx Hy. rewrite Heq in Hsorted.
  assert (forall z, z ∈ b' -> (z < length its)%nat) as Hb' by (intros z; rewrite <- Hp; auto).
  pose proof (StronglySorted_lookup _ _ i j (Z.of_nat x) (Z.of_nat y) Hsorted Hij) as Hle.
  subst cmp. simpl in Hle. rewrite compare_order_priority_le in Hle.
  rewrite <- !(position_priority_ok _ _ _ _ Hrep) by (eapply Hb', list_elem_of_lookup_2; eauto).
  apply Hle; change (map Z.of_nat b') with (Z.of_nat <$> b');
    by rewrite list_lookup_fmap, ?Hx, ?Hy.
Qed.

Lemma queue_sort_order_by_priority_ok q its ord (s e : nat) :
  q_rep q its ord -> q_random q = true -> (s <= e <= length its)%nat ->
  exists q' ord', queue_sort_order_by_priority q (Z.of_nat s) (Z.of_nat e) = Ok q' /\
    order_shuffled s e q its ord q' ord' /\ sorted_range s e its ord'.
Proof.
  intros Hrep Hrand Hse. pose proof (rep_length_ord _ _ _ Hrep) as Hlo.
  unfold queue_sort_order_by_priority. rewrite Hrand, (rep_len _ _ _ Hrep).
  replace (Z.of_nat s <=? Z.of_nat e) with true by (symmetry; apply Z.leb_le; lia).
  replace (Z.of_nat e <=? Z.of_nat (length its)) with true by (symmetry; apply Z.leb_le; lia).
  cbn [mbind res_bind assert]. unfold read_range.
  rewrite (collect_loop id _ _ _ _ (rep_order _ _ _ Hrep)) by (rewrite length_fmap; lia).
  rewrite list_fmap_id, <- fmap_drop, <- fmap_take. cbn [mbind res_bind].
  destruct (range_perm_refl s e ord) as (a & b & b0 & c & Hord & _ & Ha & Hb & _); [lia|].
  replace (take (e - s) (drop s ord)) with b.
  2:{ rewrite Hord, drop_app_length', take_app_length' by done. done. }
  assert (forall x, x ∈ b -> (x < length its)%nat) as Hblt.
  { intros x Hx. assert (x ∈ ord) as Hxo by (rewrite Hord; set_solver).
    apply list_elem_of_lookup in Hxo as [i Hi]. by eapply rep_ord_lt. }
  rewrite (sort_readable _ _ _ _ Hrep Hblt). cbn [mbind res_bind].
  destruct (sort_positions _ _ _ _ Hrep Hblt) as (b' & -> & Hp & Hsorted).
  assert (length b' = (e - s)%nat) as Hb' by (by rewrite <- Hp).
  destruct (write_range_ok (q_order q) s (Z.of_nat <$> b')) as (l & -> & Hl & H1 & H2).
  { rewrite length_fmap, (rep_order_length _ _ _ Hrep). destruct Hrep. lia. }
  rewrite length_fmap in H1. cbn [mbind res_bind].
  assert (range_perm s e ord (a ++ b' ++ c)) as Hrp by (exists a, b, b', c; done).
  eexists _, (a ++ b' ++ c). split; [done|]. split; [split_and!; try done|].
  - apply (rep_set_order _ _ _ Hrep); [done| |].
    + intros j x Hx. rewrite list_lookup_fmap in Hx. apply fmap_Some in Hx as (y & Hy & ->).
      destruct (decide (s <= j < e)%nat) as [Hj|Hj].
      * rewrite lookup_app_r, lookup_app_l in Hy by lia.
        replace j with (s + (j - s))%nat by lia. apply H2. rewrite list_lookup_fmap.
        rewrite Ha in Hy. by rewrite Hy.
      * rewrite H1 by lia. rewrite (range_perm_outside _ _ _ _ _ Hrp) in Hy by lia.
        apply (rep_order _ _ _ Hrep). by rewrite list_lookup_fmap, Hy.
    + rewrite (range_perm_perm _ _ _ _ Hrp). apply (rep_perm _ _ _ Hrep).
  - intros i j x y Hi Hj Hx Hy. rewrite lookup_app_r, lookup_app_l in Hx, Hy by lia.
    eapply Hsorted; [|done..]. lia.
Qed.

(** ** Shuffling by priority *)

Lemma queue_get_order_priority_ok q its ord i p :
  q_rep q its ord -> ord !! i = Some p ->
  queue_get_order_priority q (Z.of_nat i) = Ok (prio_at its p).
Proof.
  intros Hrep Hi. destruct (lookup_lt_is_Some_2 its p) as [it Hit].
  { by eapply rep_ord_lt. }
  unfold queue_get_order_priority, queue_get_order_item_const.
  rewrite (rep_lt_length _ _ _ Hrep)
    by (rewrite <- (rep_length_ord _ _ _ Hrep); by eapply lookup_lt_Some).
  simpl. rewrite (rep_get_order _ _ _ Hrep _ _ Hi). simpl.
  rewrite (rep_get_item _ _ _ Hrep _ _ Hit). simpl. by rewrite (prio_lookup _ _ _ Hit).
Qed.

Lemma order_shuffled_trans s e q1 its ord1 q2 ord2 q3 ord3 :
  order_shuffled s e q1 its ord1 q2 ord2 -> order_shuffled s e q2 its ord2 q3 ord3 ->
  order_shuffled s e q1 its ord1 q3 ord3.
Proof.
  intros (? & ? & ? & ? & ?) (? & ? & ? & ? & ?). unfold order_shuffled.
  split_and!; [done | by eapply range_perm_trans | by etrans | congruence | congruence].
Qed.

(** Shuffling a group of equal priority keeps the sequence of priorities. *)
Lemma shuffle_group_ok q its ord (s e gs ge : nat) prio :
  q_rep q its ord -> q_random q = true -> (s <= gs <= ge)%nat -> (ge <= e <= length its)%nat ->
  (forall j, (gs <= j < ge)%nat -> (prio_at its <$> ord) !! j = Some prio) ->
  exists q' ord', queue_shuffle_order_range q (Z.of_nat gs) (Z.of_nat ge) = Ok q' /\
    order_shuffled s e q its ord q' ord' /\ prio_at its <$> ord' = prio_at its <$> ord.
Proof.
  intros Hrep Hrand Hgs Hge Hprio.
  destruct (queue_shuffle_order_range_ok q its ord gs ge Hrep Hrand) as (q' & ord' & Heq & Hsh);
    [lia|]. pose proof Hsh as (? & Hp & ? & ? & ?).
  exists q', ord'. split; [done|]. split.
  - unfold order_shuffled. split_and!; try done. eapply range_perm_widen; [done|lia|lia|].
    rewrite (rep_length_ord _ _ _ Hrep). lia.
  - eapply (range_perm_fmap _ _ _ _ _ prio Hp); [lia|]. intros i x Hi Hx.
    specialize (Hprio i Hi). rewrite list_lookup_fmap, Hx in Hprio. by simplify_eq/=.
Qed.

Lemma sorted_range_prios s e its ord ord' :
  sorted_range s e its ord -> prio_at its <$> ord' = prio_at its <$> ord ->
  sorted_range s e its ord'.
Proof.
  intros Hs Heq i j x y Hi Hj Hx Hy.
  assert ((prio_at its <$> ord) !! i = Some (prio_at its x)) as Hpi
    by (by rewrite <- Heq, list_lookup_fmap, Hx).
  assert ((prio_at its <$> ord) !! j = Some (prio_at its y)) as Hpj
    by (by rewrite <- Heq, list_lookup_fmap, Hy).
  rewrite list_lookup_fmap in Hpi, Hpj.
  apply fmap_Some in Hpi as (x' & Hx' & ->). apply fmap_Some in Hpj as (y' & Hy' & ->).
  by eapply (Hs i j).
Qed.

(** The loop over the sorted range. *)
Definition group_inv (s e : nat) q its ord (k : nat) '((gs, gp, q') : Z * Z * queue) : Prop :=
  exists (g : nat) ord', gs = Z.of_nat g /\ (s <= g < k)%nat /\
    order_shuffled s e q its ord q' ord' /\
    prio_at its <$> ord' = prio_at its <$> ord /\
    (forall j, (g <= j < k)%nat -> (prio_at its <$> ord) !! j = Some gp).

Lemma shuffle_group_step_ok s e q its ord (k : nat) st :
  q_random q = true -> sorted_range s e its ord -> (s < k < e)%nat -> (e <= length its)%nat ->
  group_inv s e q its ord k st ->
  wp (shuffle_group_step (Z.of_nat k) st) (group_inv s e q its ord (S k)).
Proof.
  destruct st as [[gs gp] q'].
  intros Hrand Hsorted Hk He (g & ord' & -> & Hg & Hsh & Hpr & Hgp).
  pose proof Hsh as (Hrep' & _ & [] & _).
  destruct (lookup_lt_is_Some_2 ord' k) as [p Hp].
  { rewrite (rep_length_ord _ _ _ Hrep'). lia. }
  assert ((prio_at its <$> ord) !! k = Some (prio_at its p)) as Hpk.
  { by rewrite <- Hpr, list_lookup_fmap, Hp. }
  assert (prio_at its p <= gp) as Hle.
  { pose proof (Hgp g ltac:(lia)) as Hg'. rewrite <- Hpr, list_lookup_fmap in Hg'.
    apply fmap_Some in Hg' as (y & Hy & ->).
    eapply (sorted_range_prios _ _ _ _ _ Hsorted Hpr g k); [lia..|done|done]. }
  unfold shuffle_group_step. rewrite (queue_get_order_priority_ok _ _ _ _ _ Hrep' Hp).
  cbn [mbind res_bind].
  replace (prio_at its p <=? gp) with true by (symmetry; apply Z.leb_le; lia).
  cbn [mbind res_bind assert]. destruct (Z.eqb_spec (prio_at its p) gp) as [Heq|Hne]; simpl.
  - exists g, ord'. split_and!; [done|lia|lia|done|done|]. intros j Hj.
    destruct (decide (j = k)) as [->|]; [congruence|]. apply Hgp. lia.
  - destruct (shuffle_group_ok q' its ord' s e g k gp) as (q2 & ord2 & -> & Hsh2 & Hpr2);
      [done|congruence|lia|lia| |].
    { intros j Hj. rewrite Hpr. by apply Hgp. }
    simpl. exists k, ord2. split_and!; [done|lia|lia| |congruence|].
    + by eapply order_shuffled_trans.
    + intros j Hj. by replace j with k by lia.
Qed.

(** After [queue_shuffle_order_range_with_priority()] the range is sorted
    by descending priority. *)
Lemma queue_shuffle_order_range_with_priority_ok q its ord (s e : nat) :
  q_rep q its ord -> q_random q = true -> (s <= e <= length its)%nat ->
  exists q' ord', queue_shuffle_order_range_with_priority q (Z.of_nat s) (Z.of_nat e) = Ok q' /\
    order_shuffled s e q its ord q' ord' /\ sorted_range s e its ord'.
Proof.
  intros Hrep Hrand Hse. pose proof (rep_length_ord _ _ _ Hrep) as Hlo.
  unfold queue_shuffle_order_range_with_priority. rewrite Hrand, (rep_len _ _ _ Hrep).
  replace (Z.of_nat s <=? Z.of_nat e) with true by (symmetry; apply Z.leb_le; lia).
  replace (Z.of_nat e <=? Z.of_nat (length its)) with true by (symmetry; apply Z.leb_le; lia).
  cbn [mbind res_bind assert]. destruct (Z.eqb_spec (Z.of_nat s) (Z.of_nat e)) as [He|He].
  { exists q, ord. split; [done|]. split; [|intros i j; lia].
    unfold order_shuffled. split_and!; [done| |done..]. apply range_perm_refl. lia. }
  destruct (queue_sort_order_by_priority_ok q its ord s e Hrep Hrand Hse)
    as (q1 & ord1 & -> & Hsh1 & Hsorted). cbn [mbind res_bind].
  pose proof Hsh1 as (Hrep1 & _ & [] & _). pose proof (rep_length_ord _ _ _ Hrep1) as Hlo1.
  destruct (lookup_lt_is_Some_2 ord1 s) as [p0 Hp0]; [lia|].
  rewrite (queue_get_order_priority_ok _ _ _ _ _ Hrep1 Hp0). cbn [mbind res_bind].
  assert (wp (for_range (Z.of_nat s + 1) (Z.of_nat e) shuffle_group_step
                (Z.of_nat s, prio_at its p0, q1)) (group_inv s e q1 its ord1 e)) as Hwp.
  { replace (Z.of_nat s + 1) with (Z.of_nat (S s)) by lia.
    apply for_range_inv; [lia| |].
    - exists s, ord1. split_and!; [done|lia|lia| |done|].
      + unfold order_shuffled. split_and!; [done| |done..]. apply range_perm_refl. lia.
      + intros j Hj. replace j with s by lia. by rewrite list_lookup_fmap, Hp0.
    - intros k st Hk. apply shuffle_group_step_ok; [congruence|done|lia..]. }
  apply wp_inv in Hwp as ([[gs gp] q'] & Heq & g & ord' & -> & Hg & Hsh & Hpr & Hgp).
  rewrite Heq. cbn [mbind res_bind].
  pose proof Hsh as (Hrep' & _ & [] & _).
  destruct (shuffle_group_ok q' its ord' s e g e gp) as (q2 & ord2 & -> & Hsh2 & Hpr2);
    [done|congruence|lia|lia| |].
  { intros j Hj. rewrite Hpr. by apply Hgp. }
  exists q2, ord2. split; [done|]. split; [by eauto using order_shuffled_trans|].
  eapply sorted_range_prios; [done|]. congruence.
Qed.

End with_glib.

(** * Changing priorities, shuffling positions

    [queue_set_priority()] and [queue_set_priority_range()] keep the songs
    behind the current one sorted by priority; [queue_shuffle_range()]
    permutes songs, not order numbers. *)

(** ** Definitions *)

(** The item after its priority was set, at queue version [v]. *)
Definition prioritized (v prio : Z) (it : queue_item) : queue_item :=
  if item_priority it =? prio then it
  else item_set_priority prio (item_set_version v it).

(** The songs behind the current one are sorted by priority.  The current
    song is given by its position; without one, the whole order counts. *)
Definition tail_sorted (its : list queue_item) (ord : list nat) (current : option nat) : Prop :=
  match current with
  | None => sorted_range 0 (length its) its ord
  | Some p => exists a, ord !! a = Some p /\ sorted_range (S a) (length its) its ord
  end.

(** From order number [t] on the songs are sorted by priority, but for the
    one at order number [o]. *)
Definition sorted_but (o t : nat) (its : list queue_item) (ord : list nat) : Prop :=
  forall i j x y, (t <= i < j)%nat -> (j < length its)%nat -> i <> o -> j <> o ->
    ord !! i = Some x -> ord !! j = Some y -> prio_at its y <= prio_at its x.

(** The [after_order] argument for a current song. *)
Definition after_of (ord : list nat) (current : option nat) (after_order : Z) : Prop :=
  match current with
  | None => after_order = -1
  | Some p => exists a, ord !! a = Some p /\ after_order = Z.of_nat a
  end.

Section with_glib.
Context {G : GLib} {HG : GLibSpec G}.

(** ** [queue_move_order()] *)

(** The loops of [queue_move_order()] leave every order number but the
    target where a one-element [move_block] puts it. *)
Lemma move_order_loops q its ord (from to : nat) :
  q_rep q its ord -> (from < length its)%nat -> (to < length its)%nat ->
  exists l, (if Z.of_nat from <? Z.of_nat to then
       for_range (Z.of_nat from) (Z.of_nat to) (fun i q =>
         p ← aget (q_order q) (i + 1); ord ← aset (q_order q) i p; Ok (set_order ord q)) q
     else for_down (Z.of_nat from) (Z.of_nat to) (fun i q =>
         p ← aget (q_order q) (i - 1); ord ← aset (q_order q) i p; Ok (set_order ord q)) q)
     = Ok (set_order l q) /\ length l = length (q_order q) /\
     (forall j x, j <> to -> ord !! move_block_src from (S from) to j = Some x ->
        l !! j = Some (Some (Z.of_nat x))).
Proof.
  intros Hrep Hf Ht. pose proof (rep_length_ord _ _ _ Hrep) as Hlo.
  pose proof (rep_order _ _ _ Hrep) as Hh.
  assert (forall j k x, ord !! move_block_src from (S from) to j = Some x ->
    move_block_src from (S from) to j = k -> (Z.of_nat <$> ord) !! k = Some (Z.of_nat x)) as Hsrc.
  { intros j k x Hx <-. by rewrite list_lookup_fmap, Hx. }
  destruct (Z.ltb_spec (Z.of_nat from) (Z.of_nat to)).
  - destruct (order_shift_loop q _ from to Hh) as (l & Heq & Hl & H1 & H2);
      [rewrite length_fmap; lia|].
    exists l. split_and!; [done..|]. intros j x Hj Hx.
    destruct (decide (from <= j < to)%nat).
    + apply H2; [lia|]. eapply Hsrc; [done|]. unfold move_block_src. case_nat; lia.
    + apply H1; [|lia]. eapply Hsrc; [done|]. unfold move_block_src. case_nat; lia.
  - destruct (order_shift_down_loop q _ from to Hh) as (l & Heq & Hl & H1 & H2);
      [rewrite length_fmap; lia|].
    exists l. split_and!; [done..|]. intros j x Hj Hx.
    destruct (decide (to < j <= from)%nat).
    + replace j with (S (j - 1)) by lia. apply H2; [lia|]. eapply Hsrc; [done|].
      unfold move_block_src. case_nat; lia.
    + apply H1; [|lia]. eapply Hsrc; [done|]. unfold move_block_src. case_nat; lia.
Qed.

Lemma queue_move_order_ok q its ord (from to : nat) :
  q_rep q its ord -> (from < length its)%nat -> (to < length its)%nat ->
  exists q', queue_move_order q (Z.of_nat from) (Z.of_nat to) = Ok q' /\
    q_rep q' its (move_block from (S from) to ord) /\ q' = set_order (q_order q') q.
Proof.
  intros Hrep Hf Ht. pose proof (rep_length_ord _ _ _ Hrep) as Hlo.
  destruct (rep_ord_is_Some _ _ _ Hrep from Hf) as [p Hp].
  pose proof (rep_order_room _ _ _ Hrep to Ht) as Hroom.
  unfold queue_move_order. rewrite (rep_lt_length _ _ _ Hrep) by done.
  replace (Z.of_nat to <=? q_length q) with true
    by (symmetry; apply Z.leb_le; rewrite (rep_len _ _ _ Hrep); lia).
  cbn [mbind res_bind assert]. rewrite (queue_order_to_position_ok _ _ _ Hrep _ _ Hp).
  cbn [mbind res_bind].
  destruct (move_order_loops q its ord from to Hrep Hf Ht) as (l & -> & Hl & Hlk).
  cbn [mbind res_bind]. simpl q_order. rewrite aset_ok by lia. cbn [mbind res_bind].
  eexists. split; [done|]. split; [|done].
  apply (rep_set_order _ _ _ Hrep); [by rewrite length_insert| |].
  - intros j y Hy. rewrite list_lookup_fmap in Hy. apply fmap_Some in Hy as (x & Hx & ->).
    assert (j < length its)%nat as Hj.
    { apply lookup_lt_Some in Hx. rewrite length_move_block in Hx; lia. }
    rewrite move_block_lookup in Hx by lia. destruct (decide (j = to)) as [->|].
    + rewrite list_lookup_insert_eq by lia.
      replace (move_block_src from (S from) to to) with from in Hx
        by (unfold move_block_src; case_nat; lia). congruence.
    + rewrite list_lookup_insert_ne by done. by apply Hlk.
  - rewrite move_block_perm by lia. apply (rep_perm _ _ _ Hrep).
Qed.

(** ** Searching and counting priorities *)

Lemma order_item_priority q its ord i p {A} (k : Z -> res A) :
  q_rep q its ord -> ord !! i = Some p ->
  (position ← queue_order_to_position q (Z.of_nat i);
   it ← aget (q_items q) position; k (item_priority it)) = k (prio_at its p).
Proof.
  intros Hrep Hp. destruct (lookup_lt_is_Some_2 its p) as [it Hit]; [by eapply rep_ord_lt|].
  rewrite (queue_order_to_position_ok _ _ _ Hrep _ _ Hp). simpl.
  rewrite (rep_get_item _ _ _ Hrep _ _ Hit). simpl. by rewrite (prio_lookup _ _ _ Hit).
Qed.

Lemma find_priority_from_ok q its ord fuel (i excl : nat) pr :
  q_rep q its ord -> (i + fuel = length its)%nat ->
  exists b : nat, find_priority_from fuel q (Z.of_nat i) pr (Z.of_nat excl) = Ok (Z.of_nat b) /\
    (i <= b <= length its)%nat /\
    (forall k p, (i <= k < b)%nat -> k <> excl -> ord !! k = Some p -> pr < prio_at its p) /\
    (forall p, ord !! b = Some p -> b <> excl /\ prio_at its p <= pr).
Proof.
  intros Hrep. pose proof (rep_length_ord _ _ _ Hrep) as Hlo. revert i.
  induction fuel as [|fuel IH]; intros i Hi; simpl.
  - exists (length its). rewrite (rep_len _ _ _ Hrep). split_and!; [done|lia|lia| |].
    + intros k p Hk. lia.
    + intros p Hp. apply lookup_lt_Some in Hp. lia.
  - destruct (rep_ord_is_Some _ _ _ Hrep i) as [p Hp]; [lia|].
    rewrite (order_item_priority q its ord i p (fun pi =>
      if (pi <=? pr) && negb (Z.of_nat i =? Z.of_nat excl) then Ok (Z.of_nat i)
      else find_priority_from fuel q (Z.of_nat i + 1) pr (Z.of_nat excl))) by done.
    destruct ((prio_at its p <=? pr) && negb (Z.of_nat i =? Z.of_nat excl)) eqn:Hb.
    + apply andb_true_iff in Hb as [Hle%Z.leb_le Hne%negb_true_iff%Z.eqb_neq].
      exists i. split_and!; [done|lia|lia| |].
      * intros k p' Hk. lia.
      * intros p' Hp'. simplify_eq. split; [lia|done].
    + replace (Z.of_nat i + 1) with (Z.of_nat (S i)) by lia.
      destruct (IH (S i)) as (b & -> & Hbl & H1 & H2); [lia|].
      exists b. split_and!; [done|lia|lia| |done]. intros k p' Hk Hne Hp'.
      destruct (decide (k = i)) as [->|]; [|eapply (H1 k); (done || lia)].
      simplify_eq. apply andb_false_iff in Hb as [?%Z.leb_gt|?%negb_false_iff%Z.eqb_eq]; lia.
Qed.

Lemma count_same_priority_from_ok q its ord fuel (s i : nat) pr :
  q_rep q its ord -> (s <= i)%nat -> (i + fuel = length its)%nat ->
  exists e : nat, count_same_priority_from fuel q (Z.of_nat s) (Z.of_nat i) pr
      = Ok (Z.of_nat e - Z.of_nat s) /\
    (i <= e <= length its)%nat /\
    (forall k p, (i <= k < e)%nat -> ord !! k = Some p -> prio_at its p = pr) /\
    (forall p, ord !! e = Some p -> prio_at its p <> pr).
Proof.
  intros Hrep Hs. pose proof (rep_length_ord _ _ _ Hrep) as Hlo. revert i Hs.
  induction fuel as [|fuel IH]; intros i Hs Hi; simpl.
  - exists (length its). rewrite (rep_len _ _ _ Hrep). split_and!; [done|lia|lia| |].
    + intros k p Hk. lia.
    + intros p Hp. apply lookup_lt_Some in Hp. lia.
  - destruct (rep_ord_is_Some _ _ _ Hrep i) as [p Hp]; [lia|].
    rewrite (order_item_priority q its ord i p (fun pi =>
      if negb (pi =? pr) then Ok (Z.of_nat i - Z.of_nat s)
      else count_same_priority_from fuel q (Z.of_nat s) (Z.of_nat i + 1) pr)) by done.
    destruct (Z.eqb_spec (prio_at its p) pr); simpl.
    + replace (Z.of_nat i + 1) with (Z.of_nat (S i)) by lia.
      destruct (IH (S i)) as (e' & -> & Hb & H1 & H2); [lia..|].
      exists e'. split_and!; [done|lia|lia| |done]. intros k p' Hk Hp'.
      destruct (decide (k = i)) as [->|]; [by simplify_eq|apply (H1 k p'); [lia|done]].
    + exists i. split_and!; [done|lia|lia| |].
      * intros k p' Hk. lia.
      * intros p' Hp'. by simplify_eq.
Qed.

(** ** Moving an item into its priority group *)

(** Where a one-element move takes the order numbers other than the moved
    one from. *)
Lemma move_one_src (o b t j : nat) :
  (t <= b)%nat -> b <> o ->
  let n := if (o <? b)%nat then (b - 1)%nat else b in
  let t' := if (o <? t)%nat then (t - 1)%nat else t in
  j <> n -> move_block_src o (S o) n j <> o /\
    ((t' <= j < n)%nat -> (t <= move_block_src o (S o) n j < b)%nat) /\
    ((n < j)%nat -> (b <= move_block_src o (S o) n j)%nat).
Proof. intros Htb Hbo n t' Hj. subst n t'. revert Hj. unfold move_block_src. case_nat; lia. Qed.

Lemma move_one_mono (o n i j : nat) :
  (i < j)%nat -> i <> n -> j <> n ->
  (move_block_src o (S o) n i < move_block_src o (S o) n j)%nat.
Proof. intros. unfold move_block_src. case_nat; lia. Qed.

Lemma move_one_at (o n : nat) : move_block_src o (S o) n n = o.
Proof. unfold move_block_src. case_nat; lia. Qed.

(** Moving the item at order number [o] in front of [b], the first other
    item behind [t] whose priority is not higher, sorts the tail. *)
Lemma move_sorts its ord (o b t : nat) p :
  length ord = length its -> ord !! o = Some p -> (t <= b <= length its)%nat -> S o <> t ->
  (forall k x, (t <= k < b)%nat -> k <> o -> ord !! k = Some x -> prio_at its p < prio_at its x) ->
  (forall x, ord !! b = Some x -> b <> o /\ prio_at its x <= prio_at its p) ->
  let n := if (o <? b)%nat then (b - 1)%nat else b in
  let t' := if (o <? t)%nat then (t - 1)%nat else t in
  (sorted_but o t its ord -> sorted_range t' (length its) its (move_block o (S o) n ord)) /\
  (t' <= n < length its)%nat /\ move_block o (S o) n ord !! n = Some p /\
  ((0 < t)%nat -> move_block o (S o) n ord !! (t' - 1)%nat = ord !! (t - 1)%nat /\ (0 < t')%nat).
Proof.
  intros Hlo Hp Hb Hot Hbefore Hat n t'.
  pose proof (lookup_lt_Some _ _ _ Hp) as Ho.
  assert (b <> o) as Hbo.
  { intros ->. by destruct (Hat p Hp). }
  assert (t' <= n < length its)%nat as Hn by (subst n t'; case_nat; lia).
  pose proof (fun j => move_one_src o b t j (proj1 Hb) Hbo) as Hsrc.
  cbv zeta in Hsrc. fold n t' in Hsrc. pose proof (move_one_at o n) as Hnn.
  assert (sorted_but o t its ord -> forall x j, (b <= j < length its)%nat -> j <> o ->
    ord !! j = Some x -> prio_at its x <= prio_at its p) as Hafter.
  { intros Hsort x j Hj Hjo Hx. destruct (lookup_lt_is_Some_2 ord b) as [y Hy]; [lia|].
    destruct (Hat y Hy). destruct (decide (j = b)) as [->|]; [by simplify_eq|].
    etrans; [|done]. eapply (Hsort b j); (done || lia). }
  split_and!; [|lia|lia|by rewrite move_block_lookup, Hnn by lia|].
  - intros Hsort i j x y Hi Hj Hx Hy. rewrite move_block_lookup in Hx, Hy by lia.
    destruct (move_block_dst_src o (S o) n i (length its)) as [_ Hi']; [lia..|].
    destruct (move_block_dst_src o (S o) n j (length its)) as [_ Hj']; [lia..|].
    destruct (decide (i = n)) as [->|Hin]; [|destruct (decide (j = n)) as [->|Hjn]].
    + rewrite Hnn in Hx. simplify_eq. destruct (Hsrc j) as (? & _ & ?); [lia|].
      eapply (Hafter Hsort); [|done..]. lia.
    + rewrite Hnn in Hy. simplify_eq. destruct (Hsrc i) as (? & ? & _); [lia|].
      apply Z.lt_le_incl. eapply Hbefore; [|done..]. lia.
    + destruct (Hsrc i Hin) as (? & ? & ?), (Hsrc j Hjn) as (? & ? & ?).
      assert (t <= move_block_src o (S o) n i < move_block_src o (S o) n j)%nat as Hij
        by (split; [lia|apply move_one_mono; lia]).
      by apply (Hsort _ _ x y Hij Hj').
  - intros Ht. split; [|subst t'; case_nat; lia]. rewrite move_block_lookup by lia.
    f_equal. subst n t'. unfold move_block_src. case_nat; lia.
Qed.

(** What [queue_reorder_priority()] gets: the tail is sorted but for the
    item at order number [o]. *)
Lemma queue_reorder_priority_ok q its ord (o t : nat) p :
  q_rep q its ord -> q_random q = true -> ord !! o = Some p -> (t <= length its)%nat -> S o <> t ->
  let t' := if (o <? t)%nat then (t - 1)%nat else t in
  exists q' ord', queue_reorder_priority q (Z.of_nat o) (prio_at its p) (Z.of_nat t - 1) = Ok q' /\
    q_rep q' its ord' /\ q_frame q q' /\ q_version q' = q_version q /\
    (sorted_but o t its ord -> sorted_range t' (length its) its ord') /\
    ((0 < t)%nat -> ord' !! (t' - 1)%nat = ord !! (t - 1)%nat /\ (0 < t')%nat).
Proof.
  intros Hrep Hrand Hp Ht Hot t'. pose proof (rep_length_ord _ _ _ Hrep) as Hlo.
  pose proof (rep_length_pos _ _ _ Hrep) as Hpos. pose proof (lookup_lt_Some _ _ _ Hp) as Ho.
  unfold queue_reorder_priority, queue_find_priority_order.
  rewrite Hrand, (rep_len _ _ _ Hrep), Z.sub_add, u32_small by lia.
  replace (Z.of_nat t <=? Z.of_nat (length its)) with true by (symmetry; apply Z.leb_le; lia).
  cbn [mbind res_bind assert].
  destruct (find_priority_from_ok q its ord (Z.to_nat (Z.of_nat (length its) - Z.of_nat t)) t o
    (prio_at its p)) as (b & -> & Hb & H1 & H2); [done|lia|].
  cbn [mbind res_bind].
  destruct (move_sorts its ord o b t p) as (Hs & Hn & Hnp & Htop); try done.
  set (n := if (o <? b)%nat then (b - 1)%nat else b) in *. fold t' in Hs, Hn, Htop.
  replace (if Z.of_nat o <? Z.of_nat b then _ else _) with (Z.of_nat n).
  2:{ subst n. case_nat; case_Z; rewrite ?u32_small by lia; lia. }
  destruct (queue_move_order_ok q its ord o n) as (q1 & -> & Hrep1 & Hq1); [done|lia..|].
  cbn [mbind res_bind]. set (ord1 := move_block o (S o) n ord) in *.
  assert (q_random q1 = true) as Hrand1 by (by rewrite Hq1).
  unfold queue_count_same_priority. rewrite Hrand1, (rep_len _ _ _ Hrep1).
  replace (Z.of_nat n <=? Z.of_nat (length its)) with true by (symmetry; apply Z.leb_le; lia).
  cbn [mbind res_bind assert].
  destruct (count_same_priority_from_ok q1 its ord1 (Z.to_nat (Z.of_nat (length its) - Z.of_nat n))
    n n (prio_at its p)) as (e & -> & He & Hc1 & Hc2); [done|lia..|]. cbn [mbind res_bind].
  assert (n < e)%nat as Hne.
  { destruct (decide (n = e)) as [<-|]; [|lia]. by destruct (Hc2 p Hnp). }
  replace (1 <=? Z.of_nat e - Z.of_nat n) with true by (symmetry; apply Z.leb_le; lia).
  cbn [mbind res_bind assert]. unfold queue_shuffle_order_first.
  replace (u32 (Z.of_nat n + (Z.of_nat e - Z.of_nat n))) with (Z.of_nat e) by solve_u32.
  destruct (random_swap_ok q1 its ord1 n n e) as (r & q2 & -> & Hr & Hrep2 & Hf2 & Hv2 & _);
    [done|lia..|]. pose proof (rep_length_ord _ _ _ Hrep1) as Hlo1.
  assert (range_perm n e ord1 (swap_list n r ord1)) as Hrp
    by (apply swap_list_range_perm; lia).
  exists q2, (swap_list n r ord1). split_and!; [done|done| | | |].
  - etrans; [|done]. by rewrite Hq1.
  - rewrite Hv2. by rewrite Hq1.
  - intros Hsort. eapply sorted_range_prios; [by apply Hs|].
    eapply range_perm_fmap; [done|lia|]. eauto.
  - intros Ht0. destruct (Htop Ht0) as [Heq ?]. split; [|done].
    rewrite (range_perm_outside _ _ _ _ _ Hrp) by lia. done.
Qed.

(** ** [queue_set_priority()] *)

Lemma rep_set_item q its ord p it it' :
  q_rep q its ord -> its !! p = Some it -> item_id it' = item_id it ->
  q_rep (set_items (<[p := Some it']> (q_items q)) q) (<[p := it']> its) ord.
Proof.
  intros Hrep Hp Hid. pose proof (lookup_lt_Some _ _ _ Hp) as Hlt.
  pose proof (rep_items_room _ _ _ Hrep _ Hlt) as Hroom. pose proof (rep_ids _ _ _ Hrep) as Hids.
  destruct Hrep. split; simpl; rewrite ?length_insert; try done.
  - by apply holds_insert.
  - split.
    + apply Hids.
    + intros p' x Hx. apply list_lookup_insert_Some in Hx as [(<- & <- & _)|[_ Hx]];
        [|by apply (ids_forward _ _ _ Hids)].
      rewrite Hid. by apply (ids_forward _ _ _ Hids).
    + intros i v Hv. destruct (ids_backward _ _ _ Hids i v Hv) as [?|(p' & x & Hx & ? & ?)];
        [by left|]. right. destruct (decide (p = p')) as [<-|].
      * exists p, it'. rewrite list_lookup_insert_eq by done.
        split_and!; [done|congruence|done].
      * exists p', x. by rewrite list_lookup_insert_ne.
Qed.

Lemma prio_at_insert its p it p' :
  (p < length its)%nat ->
  prio_at (<[p := it]> its) p' = if decide (p' = p) then item_priority it else prio_at its p'.
Proof.
  intros Hp. unfold prio_at. destruct (decide (p' = p)) as [->|].
  - by rewrite list_lookup_insert_eq.
  - by rewrite list_lookup_insert_ne.
Qed.

(** A changed priority outside the tail does not matter for the tail. *)
Lemma sorted_range_insert s e its ord p it o :
  (p < length its)%nat -> NoDup ord -> ord !! o = Some p -> (o < s)%nat ->
  sorted_range s e its ord -> sorted_range s e (<[p := it]> its) ord.
Proof.
  intros Hp Hnd Ho Hs Hsort i j x y Hi Hj Hx Hy. rewrite !prio_at_insert by done.
  assert (forall k z, ord !! k = Some z -> (s <= k)%nat -> z <> p) as Hne.
  { intros k z Hz Hk ->. pose proof (NoDup_lookup _ _ _ _ Hnd Hz Ho). lia. }
  rewrite !decide_False by (eapply Hne; [done|lia]). by eapply Hsort.
Qed.

Lemma sorted_but_insert t its ord p it o :
  (p < length its)%nat -> NoDup ord -> ord !! o = Some p ->
  sorted_range t (length its) its ord -> sorted_but o t (<[p := it]> its) ord.
Proof.
  intros Hp Hnd Ho Hsort i j x y Hi Hj Hio Hjo Hx Hy. rewrite length_insert in Hj.
  assert (forall k z, ord !! k = Some z -> k <> o -> z <> p) as Hne.
  { intros k z Hz Hk ->. by apply Hk, (NoDup_lookup _ _ _ _ Hnd Hz Ho). }
  rewrite !prio_at_insert, !decide_False by eauto. by eapply Hsort.
Qed.

(** What a change of priorities does to the order: the song at order
    number [t - 1] (the current one) is now at [t' - 1], and a sorted tail
    behind it stays sorted. *)
Definition reprioritized (q : queue) (its : list queue_item) (ord : list nat) (t : nat)
    (q' : queue) (its' : list queue_item) (ord' : list nat) (t' : nat) : Prop :=
  q_rep q' its' ord' /\ q_frame q q' /\ q_version q' = q_version q /\
  (q_random q = false -> ord' = ord /\ t' = t) /\
  (q_random q = true -> sorted_range t (length its) its ord ->
     sorted_range t' (length its) its' ord') /\
  (t = 0%nat -> t' = 0%nat) /\
  ((0 < t)%nat -> ord' !! (t' - 1)%nat = ord !! (t - 1)%nat /\ (0 < t')%nat).

(** The case that reorders. *)
Lemma set_priority_reorder q its ord p it pr o t :
  q_rep q its ord -> q_random q = true -> its !! p = Some it -> ord !! o = Some p ->
  (t <= length its)%nat -> S o <> t -> item_priority it = pr ->
  exists q' ord' t', queue_reorder_priority q (Z.of_nat o) pr (Z.of_nat t - 1) = Ok q' /\
    q_rep q' its ord' /\ q_frame q q' /\ q_version q' = q_version q /\
    (sorted_but o t its ord -> sorted_range t' (length its) its ord') /\
    (t = 0%nat -> t' = 0%nat) /\
    ((0 < t)%nat -> ord' !! (t' - 1)%nat = ord !! (t - 1)%nat /\ (0 < t')%nat).
Proof.
  intros Hrep Hrand Hp Ho Ht Hot <-. rewrite <- (prio_lookup _ _ _ Hp).
  destruct (queue_reorder_priority_ok q its ord o t p) as (q' & ord' & -> & ? & ? & ? & ? & ?);
    try done. eexists q', ord', _. split_and!; try done. intros ->. by case_nat.
Qed.

(** The end of [queue_set_priority()]: the item keeps its order number, or
    it is moved to its priority group. *)
Lemma set_priority_stay q its ord p it it' o t (stay : bool) :
  q_rep q its ord -> q_random q = true -> its !! p = Some it -> ord !! o = Some p ->
  (t <= length its)%nat -> item_id it' = item_id it ->
  (stay = true -> (o < t)%nat) -> (stay = false -> S o <> t) ->
  let q1 := set_items (<[p := Some it']> (q_items q)) q in
  exists q' ord' t', (if stay then Ok (true, q1) else
      q ← queue_reorder_priority q1 (Z.of_nat o) (item_priority it') (Z.of_nat t - 1);
      Ok (true, q)) = Ok (true, q') /\
    reprioritized q its ord t q' (<[p := it']> its) ord' t'.
Proof.
  intros Hrep Hrand Hit Ho Ht Hid H1 H2 q1.
  pose proof (rep_set_item q its ord p it it' Hrep Hit Hid) as Hrep1. fold q1 in Hrep1.
  pose proof (lookup_lt_Some _ _ _ Hit) as Hp.
  pose proof (rep_ord_nodup _ _ _ Hrep) as Hnd. destruct stay.
  - exists q1, ord, t. split; [done|]. split_and!; try done.
    intros _. apply (sorted_range_insert _ _ _ _ _ _ o); auto.
  - destruct (set_priority_reorder q1 (<[p := it']> its) ord p it' (item_priority it') o t)
      as (q' & ord' & t' & -> & ? & [] & ? & Hs & ? & ?); try done; [| |by auto|].
    { by apply list_lookup_insert_eq. } { by rewrite length_insert. }
    exists q', ord', t'. split; [done|]. split_and!; try done; [congruence|].
    intros _ Hs0. rewrite length_insert in Hs. by apply Hs, sorted_but_insert.
Qed.

(** Whether the changed item stays, as the code decides it. *)
Lemma set_priority_decide q its ord (o t : nat) (old new : Z) :
  q_rep q its ord -> (t <= length its)%nat -> (o < length its)%nat ->
  exists stay : bool, (if 0 <=? Z.of_nat t - 1 then
      if Z.of_nat o =? u32 (Z.of_nat t - 1) then Ok true
      else if Z.of_nat o <? u32 (Z.of_nat t - 1) then
        after_position ← queue_order_to_position q (u32 (Z.of_nat t - 1));
        after_item ← aget (q_items q) after_position;
        Ok ((item_priority after_item <? old) || (new <=? item_priority after_item))
      else Ok false
    else Ok false) = Ok stay /\ (stay = true -> (o < t)%nat) /\ (stay = false -> S o <> t).
Proof.
  intros Hrep Ht Ho. pose proof (rep_length_pos _ _ _ Hrep) as Hpos.
  destruct (Z.leb_spec 0 (Z.of_nat t - 1)); [|exists false; split_and!; (done || lia)].
  rewrite u32_small by lia.
  destruct (Z.eqb_spec (Z.of_nat o) (Z.of_nat t - 1)); [exists true; split_and!; (done || lia)|].
  destruct (Z.ltb_spec (Z.of_nat o) (Z.of_nat t - 1)); [|exists false; split_and!; (done || lia)].
  destruct (rep_ord_is_Some _ _ _ Hrep (t - 1)) as [a Ha]; [lia|].
  replace (Z.of_nat t - 1) with (Z.of_nat (t - 1)) by lia.
  rewrite (order_item_priority q its ord (t - 1) a (fun pi =>
    Ok ((pi <? old) || (new <=? pi)))) by done.
  eexists. split; [done|]. lia.
Qed.

Lemma queue_set_priority_at q its ord (p t : nat) pr :
  q_rep q its ord -> (p < length its)%nat -> (t <= length its)%nat ->
  exists q' ord' t', queue_set_priority q (Z.of_nat p) pr (Z.of_nat t - 1)
      = Ok (negb (prio_at its p =? pr), q') /\
    reprioritized q its ord t q' (alter (prioritized (q_version q) pr) p its) ord' t'.
Proof.
  intros Hrep Hp Ht. destruct (lookup_lt_is_Some_2 its p Hp) as [it Hit].
  destruct (rep_ord_find _ _ _ Hrep p Hp) as [o Ho].
  pose proof (rep_length_ord _ _ _ Hrep) as Hlo. pose proof (lookup_lt_Some _ _ _ Ho).
  unfold queue_set_priority. rewrite (rep_lt_length _ _ _ Hrep) by done. cbn [mbind res_bind assert].
  rewrite (rep_get_item _ _ _ Hrep _ _ Hit), (prio_lookup _ _ _ Hit). cbn [mbind res_bind].
  assert (alter (prioritized (q_version q) pr) p its
          = <[p := prioritized (q_version q) pr it]> its) as ->.
  { apply list_eq. intros j. destruct (decide (p = j)) as [<-|].
    - by rewrite list_lookup_alter_eq, Hit, list_lookup_insert_eq.
    - by rewrite list_lookup_alter_ne, list_lookup_insert_ne. }
  unfold prioritized. destruct (Z.eqb_spec (item_priority it) pr) as [Heq|Hne]; simpl negb.
  { exists q, ord, t. rewrite list_insert_id by done. split; [done|]. by split_and!. }
  rewrite aset_ok by (by apply (rep_items_room _ _ _ Hrep)). cbn [mbind res_bind].
  set (it' := item_set_priority pr (item_set_version (q_version q) it)).
  pose proof (rep_set_item q its ord p it it' Hrep Hit eq_refl) as Hrep1.
  set (q1 := set_items (<[p := Some it']> (q_items q)) q) in *.
  change (q_random q1) with (q_random q). destruct (q_random q) eqn:Hrand; simpl negb.
  2:{ exists q1, ord, t. split; [done|]. split_and!; (done || congruence). }
  rewrite (queue_position_to_order_ok _ _ _ Hrep1 _ _ Ho). cbn [mbind res_bind].
  destruct (set_priority_decide q1 _ ord o t (item_priority it) pr Hrep1) as (stay & -> & H1 & H2);
    [rewrite length_insert; lia..|]. cbn [mbind res_bind].
  by apply (set_priority_stay q its ord p it it' o t stay).
Qed.

(** [queue_set_priority()] changes the priority of one song; in random mode
    the songs behind the current one stay sorted by priority. *)
Lemma queue_set_priority_ok q its ord (p : nat) pr current after :
  q_rep q its ord -> (p < length its)%nat -> after_of ord current after ->
  exists q' ord', queue_set_priority q (Z.of_nat p) pr after
      = Ok (negb (prio_at its p =? pr), q') /\
    q_rep q' (alter (prioritized (q_version q) pr) p its) ord' /\ q_frame q q' /\
    q_version q' = q_version q /\ (q_random q = false -> ord' = ord) /\
    (q_random q = true -> tail_sorted its ord current ->
       tail_sorted (alter (prioritized (q_version q) pr) p its) ord' current).
Proof.
  intros Hrep Hp Hafter. pose proof (rep_length_ord _ _ _ Hrep) as Hlo.
  destruct current as [pc|]; simpl in Hafter.
  - destruct Hafter as (a & Ha & ->). pose proof (lookup_lt_Some _ _ _ Ha).
    destruct (queue_set_priority_at q its ord p (S a) pr)
      as (q' & ord' & t' & Heq & ? & ? & ? & H1 & H2 & _ & H3); [done|lia..|].
    replace (Z.of_nat (S a) - 1) with (Z.of_nat a) in Heq by lia.
    exists q', ord'. split_and!; try done; [naive_solver|].
    intros Hr (a' & Ha' & Hs). unfold tail_sorted. rewrite length_alter.
    pose proof (rep_ord_inj _ _ _ Hrep _ _ _ Ha' Ha) as ->. destruct H3 as [Hc Ht']; [lia|].
    exists (t' - 1)%nat. simpl in Hc. rewrite Nat.sub_0_r in Hc. split; [congruence|].
    replace (S (t' - 1)) with t' by lia. auto.
  - subst after. destruct (queue_set_priority_at q its ord p 0 pr)
      as (q' & ord' & t' & Heq & ? & ? & ? & H1 & H2 & H3 & _); [done|lia..|].
    exists q', ord'. split_and!; try done; [naive_solver|].
    intros Hr Hs. unfold tail_sorted. rewrite length_alter, <- (H3 eq_refl). auto.
Qed.

(** ** [queue_set_priority_range()] *)

Lemma alter_range_snoc {A} (f : A -> A) (s k : nat) l :
  (s <= k)%nat -> alter f k (alter_range f s k l) = alter_range f s (S k) l.
Proof.
  intros Hs. apply list_eq. intros j. destruct (decide (k = j)) as [<-|Hne].
  - rewrite list_lookup_alter_eq, !alter_range_lookup. case_nat; simpl; (done || lia).
  - rewrite list_lookup_alter_ne, !alter_range_lookup by done. case_nat; simpl; (done || lia).
Qed.

Lemma after_of_order q its ord current after after_position :
  q_rep q its ord -> after_of ord current after ->
  (match current with None => after_position = -1 | Some p => after_position = Z.of_nat p end) ->
  exists a, (if 0 <=? after_position then
      o ← queue_position_to_order q (u32 after_position); Ok (i32 o) else Ok (-1)) = Ok a /\
    after_of ord current a.
Proof.
  intros Hrep Hafter Hpos. pose proof (rep_length_pos _ _ _ Hrep).
  destruct current as [p|]; simpl in *; subst; [|by exists (-1)].
  destruct Hafter as (a & Ha & ->). pose proof (rep_ord_lt _ _ _ Hrep _ _ Ha).
  destruct (Z.leb_spec 0 (Z.of_nat p)); [|lia]. rewrite u32_small by lia.
  rewrite (queue_position_to_order_ok _ _ _ Hrep _ _ Ha). simpl.
  apply lookup_lt_Some in Ha as Hlt. rewrite (rep_length_ord _ _ _ Hrep) in Hlt.
  rewrite i32_small by lia. eauto.
Qed.

Lemma after_of_position q its ord current after :
  q_rep q its ord -> after_of ord current after ->
  exists ap, (if 0 <=? after then p ← queue_order_to_position q (u32 after); Ok (i32 p)
              else Ok (-1)) = Ok ap /\
    (match current with None => ap = -1 | Some p => ap = Z.of_nat p end).
Proof.
  intros Hrep Hafter. pose proof (rep_length_pos _ _ _ Hrep).
  destruct current as [p|]; simpl in *; subst; [|by exists (-1)].
  destruct Hafter as (a & Ha & ->). pose proof (rep_ord_lt _ _ _ Hrep _ _ Ha).
  apply lookup_lt_Some in Ha as Hlt. rewrite (rep_length_ord _ _ _ Hrep) in Hlt.
  destruct (Z.leb_spec 0 (Z.of_nat a)); [|lia]. rewrite u32_small by lia.
  rewrite (queue_order_to_position_ok _ _ _ Hrep _ _ Ha). simpl.
  rewrite i32_small by lia. eauto.
Qed.

(** The current song has an order number in every order. *)
Lemma after_of_exists q its ord current :
  q_rep q its ord -> (match current with None => True | Some p => (p < length its)%nat end) ->
  exists after, after_of ord current after.
Proof.
  intros Hrep Hc. destruct current as [p|]; simpl; [|by eexists].
  destruct (rep_ord_find _ _ _ Hrep p Hc) as [a Ha]. eauto.
Qed.

Lemma queue_set_priority_range_ok q its ord (s e : nat) pr current after :
  q_rep q its ord -> (s <= e <= length its)%nat -> after_of ord current after ->
  exists m q' ord', queue_set_priority_range q (Z.of_nat s) (Z.of_nat e) pr after = Ok (m, q') /\
    q_rep q' (alter_range (prioritized (q_version q) pr) s e its) ord' /\ q_frame q q' /\
    q_version q' = q_version q /\ (q_random q = false -> ord' = ord) /\
    (q_random q = true -> tail_sorted its ord current ->
       tail_sorted (alter_range (prioritized (q_version q) pr) s e its) ord' current).
Proof.
  intros Hrep Hse Hafter. unfold queue_set_priority_range. rewrite (rep_len _ _ _ Hrep).
  replace (Z.of_nat s <=? Z.of_nat e) with true by (symmetry; apply Z.leb_le; lia).
  replace (Z.of_nat e <=? Z.of_nat (length its)) with true by (symmetry; apply Z.leb_le; lia).
  cbn [mbind res_bind assert].
  destruct (after_of_position _ _ _ _ _ Hrep Hafter) as (ap & -> & Hap). cbn [mbind res_bind].
  set (f := prioritized (q_version q) pr). set (body := fun (i : Z) '((m, q) : bool * queue) => _).
  assert (wp (for_range (Z.of_nat s) (Z.of_nat e) body (false, q)) (fun '(_, q') => exists ord',
    q_rep q' (alter_range f s e its) ord' /\ q_frame q q' /\ q_version q' = q_version q /\
    (q_random q = false -> ord' = ord) /\ (q_random q = true -> tail_sorted its ord current ->
     tail_sorted (alter_range f s e its) ord' current))) as Hwp.
  { apply (for_range_inv (fun k '(_, q') => exists ord',
      q_rep q' (alter_range f s k its) ord' /\ q_frame q q' /\ q_version q' = q_version q /\
      (q_random q = false -> ord' = ord) /\ (q_random q = true -> tail_sorted its ord current ->
       tail_sorted (alter_range f s k its) ord' current))); [lia| |].
    - exists ord. assert (alter_range f s s its = its) as ->; [|by split_and!].
      apply list_eq. intros j. rewrite alter_range_lookup. case_nat; simpl; (done || lia).
    - intros k [m q1] Hk (ord1 & Hrep1 & Hf1 & Hv1 & Hn1 & Hs1). unfold body.
      destruct (after_of_exists _ _ _ current Hrep1) as [after1 Hafter1].
      { rewrite length_alter_range. destruct current; [|done]. simpl in Hafter.
        destruct Hafter as (a & Ha & _). by eapply rep_ord_lt. }
      destruct (after_of_order _ _ _ _ _ _ Hrep1 Hafter1 Hap) as (a & -> & Ha).
      cbn [mbind res_bind].
      destruct (queue_set_priority_ok q1 _ ord1 k pr current a Hrep1)
        as (q2 & ord2 & -> & Hrep2 & Hf2 & Hv2 & Hn2 & Hs2); [rewrite length_alter_range; lia|done|].
      cbn [mbind res_bind wp]. exists ord2. rewrite Hv1 in Hrep2, Hs2. fold f in Hrep2, Hs2.
      rewrite alter_range_snoc in Hrep2, Hs2 by lia. pose proof Hf1 as [? ? ? ? Hr].
      rewrite Hr in Hn2, Hs2. split_and!; [done|by etrans|congruence|naive_solver|auto]. }
  apply wp_inv in Hwp as ([m q'] & -> & ord' & ?). eauto.
Qed.

End with_glib.
