(* ===== verification/PlayQueueInv.v ===== *)
(** * The queue's invariant

    Every operation of the queue keeps [q_inv]: the arrays represent some
    items and some order, the order is the identity unless random mode is
    on, and version numbers stay in range. *)

From S2P Require Import Prelude GLib Song PlayQueue PlayQueueRep PlayQueueEdit.
From S2P Require Import PlayQueueDelete PlayQueueOrder.
Local Open Scope Z_scope.

(** The versions the counter has handed out. *)
Definition versions_ok (v : Z) (its : list queue_item) : Prop :=
  Forall (fun it => 0 <= item_version it <= v) its.

(** ** Versions *)

Lemma versions_ok_from v its its' :
  0 <= v -> versions_ok v its ->
  (forall it, it ∈ its' -> it ∈ its \/ item_version it = v) -> versions_ok v its'.
Proof.
  intros Hv Hok Hfrom. apply Forall_forall. intros it Hit.
  destruct (Hfrom it Hit) as [H| ->]; [|lia].
  by apply (proj1 (Forall_forall _ _) Hok).
Qed.

Lemma elem_of_alter_range {A} (f : A -> A) lo hi l x :
  x ∈ alter_range f lo hi l -> x ∈ l \/ exists y, y ∈ l /\ x = f y.
Proof.
  intros [i Hi]%list_elem_of_lookup. rewrite alter_range_lookup in Hi.
  destruct (_ && _); [|left; by eapply list_elem_of_lookup_2].
  apply fmap_Some in Hi as (y & Hy & ->). right. eauto using list_elem_of_lookup_2.
Qed.

Lemma elem_of_alter {A} (f : A -> A) p (l : list A) x :
  x ∈ alter f p l -> x ∈ l \/ exists y, y ∈ l /\ x = f y.
Proof.
  intros [i Hi]%list_elem_of_lookup. rewrite list_lookup_alter in Hi. case_decide.
  - apply fmap_Some in Hi as (y & Hy & ->). right. eauto using list_elem_of_lookup_2.
  - left. by eapply list_elem_of_lookup_2.
Qed.

Lemma versions_alter_range v its its' f lo hi :
  0 <= v -> versions_ok v its -> its' ⊆ its -> (forall it, f it = it \/ item_version (f it) = v) ->
  versions_ok v (alter_range f lo hi its').
Proof.
  intros Hv Hok Hsub Hf. apply (versions_ok_from v its); [done..|].
  intros it [Hit|(y & Hy & ->)]%elem_of_alter_range; [by left; apply Hsub|].
  destruct (Hf y) as [-> | ->]; [by left; apply Hsub | by right].
Qed.

Lemma versions_moved v its s e t :
  0 <= v -> (s <= e)%nat -> versions_ok v its -> versions_ok v (moved_items v s e t its).
Proof.
  intros Hv Hse Hok. apply (versions_alter_range v its); [done..| |by right].
  intros it. by rewrite move_block_perm.
Qed.

Lemma versions_deleted v its p :
  0 <= v -> versions_ok v its -> versions_ok v (deleted_items v p its).
Proof.
  intros Hv Hok. apply (versions_alter_range v its); [done..| |by right].
  intros it [i Hi]%list_elem_of_lookup. rewrite delete_lookup in Hi.
  case_match; by eapply list_elem_of_lookup_2.
Qed.

Lemma versions_swapped v its p1 p2 :
  0 <= v -> versions_ok v its -> versions_ok v (swap_items v p1 p2 its).
Proof.
  intros Hv Hok. apply (versions_ok_from v its); [done..|]. unfold swap_items.
  intros it [Hit|(y & Hy & ->)]%elem_of_alter; [|by right].
  apply elem_of_alter in Hit as [Hit|(y & Hy & ->)]; [|by right].
  left. by rewrite swap_list_perm in Hit.
Qed.

Lemma versions_prioritized v its pr s e :
  0 <= v -> versions_ok v its -> versions_ok v (alter_range (prioritized v pr) s e its).
Proof.
  intros Hv Hok. apply (versions_alter_range v its); [done..|set_solver|].
  intros it. unfold prioritized. case_match; auto.
Qed.

(** ** Identity order *)

Lemma deleted_order_seq p n :
  (p < n)%nat -> deleted_order p p (seq 0 n) = seq 0 (n - 1).
Proof.
  intros Hp. unfold deleted_order. apply list_eq. intros i.
  rewrite list_lookup_fmap, delete_lookup. case_nat.
  - destruct (decide (i < n)%nat); [|lia].
    rewrite !lookup_seq_lt by lia. simpl. f_equal. case_nat; lia.
  - destruct (decide (S i < n)%nat).
    + rewrite !lookup_seq_lt by lia. simpl. f_equal. case_nat; lia.
    + by rewrite !lookup_seq_ge by lia.
Qed.

Section with_glib.
Context {G : GLib} {HG : GLibSpec G}.

Lemma q_inv_versions q its ord : q_inv q its ord -> versions_ok (q_version q) its.
Proof. by intros []. Qed.

Lemma q_inv_version_pos q its ord : q_inv q its ord -> 0 <= q_version q.
Proof. intros []. lia. Qed.

(** Rebuilding the invariant after an operation that does not touch the
    version counter. *)
Lemma q_inv_step q its ord q' its' ord' :
  q_inv q its ord -> q_rep q' its' ord' -> q_version q' = q_version q ->
  (q_random q' = false -> ord' = seq 0 (length its')) ->
  versions_ok (q_version q) its' -> q_inv q' its' ord'.
Proof. intros Hinv Hrep Hv Hid Hvs. destruct Hinv. split; rewrite ?Hv; done. Qed.

Lemma q_inv_append q its ord s :
  q_inv q its ord -> Z.of_nat (length its) < q_max_length q ->
  exists id q', queue_append q s 0 = Ok (id, q') /\
    q_inv q' (its ++ [Item s id (q_version q) 0]) (ord ++ [length its]) /\ q_frame q q' /\
    (forall it, it ∈ its -> item_id it <> id).
Proof.
  intros Hinv Hroom.
  destruct (queue_append_ok q its ord s 0 (inv_rep _ _ _ Hinv) Hroom)
    as (id & q' & Heq & Hrep & Hid & Hf & Hv).
  exists id, q'. split_and!; try done. eapply q_inv_step; [done..| |].
  - intros Hr. rewrite length_app. simpl. rewrite Nat.add_1_r, seq_S.
    f_equal. apply (inv_ident _ _ _ Hinv). destruct Hf. congruence.
  - apply Forall_app. split; [by eapply q_inv_versions|].
    apply Forall_singleton. simpl. pose proof (q_inv_version_pos _ _ _ Hinv). lia.
Qed.

Lemma q_inv_swap q its ord (p1 p2 : nat) :
  q_inv q its ord -> (p1 < length its)%nat -> (p2 < length its)%nat ->
  exists q', queue_swap q (Z.of_nat p1) (Z.of_nat p2) = Ok q' /\
    q_inv q' (swap_items (q_version q) p1 p2 its) ord /\ q_frame q q' /\
    q_version q' = q_version q.
Proof.
  intros Hinv H1 H2.
  destruct (queue_swap_ok q its ord p1 p2 (inv_rep _ _ _ Hinv) H1 H2)
    as (q' & Heq & Hrep & Hf & Hv & _).
  exists q'. split_and!; try done. eapply q_inv_step; [done..| |].
  - intros Hr. unfold swap_items. rewrite !length_alter, length_swap_list.
    apply (inv_ident _ _ _ Hinv). destruct Hf. congruence.
  - apply versions_swapped; [by eapply q_inv_version_pos|by eapply q_inv_versions].
Qed.

Lemma length_moved_items v s e t its :
  (s <= e <= length its)%nat -> (t + (e - s) <= length its)%nat ->
  length (moved_items v s e t its) = length its.
Proof. intros. unfold moved_items. by rewrite length_alter_range, length_move_block. Qed.

Lemma q_inv_move_range q its ord (s e t : nat) :
  q_inv q its ord -> (s <= e <= length its)%nat -> (t + (e - s) <= length its)%nat ->
  exists q', queue_move_range q (Z.of_nat s) (Z.of_nat e) (Z.of_nat t) = Ok q' /\
    q_inv q' (moved_items (q_version q) s e t its) (moved_order q s e t ord) /\ q_frame q q'.
Proof.
  intros Hinv Hse Ht.
  destruct (queue_move_range_ok q its ord s e t (inv_rep _ _ _ Hinv) Hse Ht)
    as (q' & Heq & Hrep & Hf & Hv).
  exists q'. split_and!; try done. eapply q_inv_step; [done..| |].
  - intros Hr. rewrite length_moved_items by done. unfold moved_order.
    assert (q_random q = false) as Hr' by (destruct Hf; congruence). rewrite Hr'.
    by apply (inv_ident _ _ _ Hinv).
  - apply versions_moved; [by eapply q_inv_version_pos|lia|by eapply q_inv_versions].
Qed.

Lemma q_inv_delete q its ord (p o : nat) it :
  q_inv q its ord -> its !! p = Some it -> ord !! o = Some p ->
  exists q', queue_delete q (Z.of_nat p) = Ok (owned_songs [it], q') /\
    q_inv q' (deleted_items (q_version q) p its) (deleted_order p o ord) /\ q_frame q q' /\
    q_version q' = q_version q.
Proof.
  intros Hinv Hp Ho. pose proof (lookup_lt_Some _ _ _ Hp) as Hlt.
  destruct (queue_delete_ok q its ord p o it (inv_rep _ _ _ Hinv) Hp Ho)
    as (q' & Heq & Hrep & Hf & Hv).
  exists q'. split_and!; try done. eapply q_inv_step; [done..| |].
  - intros Hr. rewrite length_deleted_items by done.
    assert (ord = seq 0 (length its)) as -> by (apply (inv_ident _ _ _ Hinv); destruct Hf; congruence).
    apply lookup_seq in Ho as [-> _]. by apply deleted_order_seq.
  - apply versions_deleted; [by eapply q_inv_version_pos|by eapply q_inv_versions].
Qed.

Lemma q_inv_clear q its ord :
  q_inv q its ord ->
  exists q', queue_clear q = Ok (owned_songs its, q') /\ q_inv q' [] [] /\ q_frame q q'.
Proof.
  intros Hinv. destruct (queue_clear_ok q its ord (inv_rep _ _ _ Hinv)) as (q' & ? & ? & ? & ?).
  exists q'. split_and!; try done. eapply q_inv_step; try done. apply Forall_nil_2.
Qed.

Lemma q_inv_shuffle_order q its ord :
  q_inv q its ord -> q_random q = true ->
  exists q' ord', queue_shuffle_order q = Ok q' /\ q_inv q' its ord' /\ q_frame q q' /\
    q_version q' = q_version q /\ sorted_range 0 (length its) its ord'.
Proof.
  intros Hinv Hrand. pose proof (inv_rep _ _ _ Hinv) as Hrep.
  destruct (queue_shuffle_order_range_with_priority_ok q its ord 0 (length its) Hrep Hrand)
    as (q' & ord' & Heq & (Hrep' & _ & Hf & Hv & _) & Hs); [lia|].
  exists q', ord'. unfold queue_shuffle_order. rewrite (rep_len _ _ _ Hrep).
  split_and!; try done. eapply q_inv_step; [done..| |by eapply q_inv_versions].
  destruct Hf. congruence.
Qed.

Lemma q_inv_swap_order q its ord i j :
  q_inv q its ord -> q_random q = true -> (i < length its)%nat -> (j < length its)%nat ->
  exists q', queue_swap_order q (Z.of_nat i) (Z.of_nat j) = Ok q' /\
    q_inv q' its (swap_list i j ord) /\ q_frame q q' /\ q_version q' = q_version q.
Proof.
  intros Hinv Hrand Hi Hj.
  destruct (queue_swap_order_ok q its ord (inv_rep _ _ _ Hinv) i j Hi Hj) as (q' & ? & ? & Hq).
  exists q'. split_and!; try done; [|by rewrite Hq..].
  eapply q_inv_step; [done..|by rewrite Hq| |by eapply q_inv_versions].
  rewrite Hq. simpl. congruence.
Qed.

Lemma q_inv_shuffle_order_last q its ord (s : nat) :
  q_inv q its ord -> q_random q = true -> (s < length its)%nat ->
  exists r q', queue_shuffle_order_last q (Z.of_nat s) (Z.of_nat (length its)) = Ok q' /\
    (s <= r < length its)%nat /\
    q_inv q' its (swap_list (length its - 1) r ord) /\ q_frame q q' /\ q_version q' = q_version q.
Proof.
  intros Hinv Hrand Hs. pose proof (inv_rep _ _ _ Hinv) as Hrep.
  pose proof (rep_length_pos _ _ _ Hrep).
  destruct (random_swap_ok q its ord (length its - 1) s (length its) Hrep)
    as (r & q' & Heq & Hr & Hrep' & Hf & Hv & _); [lia..|].
  exists r, q'. unfold queue_shuffle_order_last.
  replace (u32 (Z.of_nat (length its) - 1)) with (Z.of_nat (length its - 1)) by solve_u32.
  split_and!; try done; [lia..|].
  eapply q_inv_step; [done..| |by eapply q_inv_versions]. destruct Hf. congruence.
Qed.

(** Random mode is switched off together with restoring the order. *)
Lemma q_inv_restore_order q its ord :
  q_inv q its ord \/ (q_rep q its ord /\ 1 <= q_version q < queue_max_version /\
                      versions_ok (q_version q) its) ->
  exists q', queue_restore_order q = Ok q' /\ q_inv q' its (seq 0 (length its)) /\ q_frame q q' /\
    q_version q' = q_version q.
Proof.
  intros Hinv. assert (q_rep q its ord /\ 1 <= q_version q < queue_max_version /\
    versions_ok (q_version q) its) as (Hrep & Hv & Hvs).
  { destruct Hinv as [[]|]; done. }
  destruct (queue_restore_order_ok q its ord Hrep) as (q' & ? & ? & Hq).
  exists q'. split_and!; try done; [|by rewrite Hq..].
  split; [done|done| |]; by rewrite Hq.
Qed.

(** ** The version counter *)

Lemma q_inv_increment_version q its ord :
  q_inv q its ord ->
  exists q' its', queue_increment_version q = Ok q' /\ q_inv q' its' ord /\ q_frame q q' /\
    unversioned its' = unversioned its.
Proof.
  intros Hinv. destruct (queue_increment_version_ok q its ord (inv_rep _ _ _ Hinv)
    (inv_version _ _ _ Hinv)) as (q' & Heq & Hrep & Hf & Hv & Hcase).
  exists q', (bumped_items q its). split_and!; try done; [|apply bumped_items_unversioned].
  assert (length (bumped_items q its) = length its) as Hl.
  { unfold bumped_items. case_match; by rewrite ?length_fmap. }
  pose proof (inv_versions _ _ _ Hinv) as Hvs. split; [done| |done|].
  - intros Hr. rewrite Hl. apply (inv_ident _ _ _ Hinv). destruct Hf. congruence.
  - unfold bumped_items in *. destruct (Z.leb_spec queue_max_version (q_version q + 1)).
    + apply Forall_fmap, Forall_true. intros it. simpl. lia.
    + eapply Forall_impl; [done|]. simpl. intros it Hit.
      destruct Hcase as [->|[? _]]; lia.
Qed.

Lemma q_inv_modify q its ord (o : nat) :
  q_inv q its ord -> (o < length its)%nat ->
  exists q' its', queue_modify q (Z.of_nat o) = Ok q' /\ q_inv q' its' ord /\ q_frame q q' /\
    unversioned its' = unversioned its.
Proof.
  intros Hinv Ho. pose proof (inv_rep _ _ _ Hinv) as Hrep.
  destruct (rep_ord_is_Some _ _ _ Hrep o Ho) as [p Hp].
  pose proof (rep_ord_lt _ _ _ Hrep _ _ Hp) as Hlt.
  destruct (lookup_lt_is_Some_2 its p Hlt) as [it Hit]. unfold queue_modify.
  rewrite (rep_lt_length _ _ _ Hrep), (rep_get_order _ _ _ Hrep _ _ Hp) by done.
  cbn [mbind res_bind assert]. rewrite (rep_get_item _ _ _ Hrep _ _ Hit). cbn [mbind res_bind].
  rewrite aset_ok by (by apply (rep_items_room _ _ _ Hrep)). cbn [mbind res_bind].
  set (it' := item_set_version (q_version q) it).
  pose proof (rep_set_item q its ord p it it' Hrep Hit eq_refl) as Hrep1.
  set (q1 := set_items (<[p := Some it']> (q_items q)) q) in *.
  assert (q_inv q1 (<[p := it']> its) ord) as Hinv1.
  { eapply q_inv_step; [done..| |].
    - rewrite length_insert. apply (inv_ident _ _ _ Hinv).
    - apply Forall_insert; [by eapply q_inv_versions|]. simpl.
      pose proof (q_inv_version_pos _ _ _ Hinv). lia. }
  destruct (q_inv_increment_version q1 _ ord Hinv1) as (q' & its' & ? & ? & Hf & Hu).
  exists q', its'. split_and!; try done; [by destruct Hf|]. rewrite Hu. unfold unversioned.
  rewrite list_fmap_insert. apply list_insert_id. by rewrite list_lookup_fmap, Hit.
Qed.

Lemma q_inv_modify_all q its ord :
  q_inv q its ord ->
  exists q' its', queue_modify_all q = Ok q' /\ q_inv q' its' ord /\ q_frame q q' /\
    unversioned its' = unversioned its.
Proof.
  intros Hinv. unfold queue_modify_all.
  destruct (version_loop q its ord q_version (inv_rep _ _ _ Hinv)) as (q1 & -> & Hrep1 & Hq1);
    [done|]. cbn [mbind res_bind].
  assert (q_version q1 = q_version q) as Hv1 by (by rewrite Hq1).
  assert (q_inv q1 (item_set_version (q_version q) <$> its) ord) as Hinv1.
  { eapply q_inv_step; [done..| |].
    - rewrite length_fmap. rewrite Hq1. apply (inv_ident _ _ _ Hinv).
    - apply Forall_fmap. apply Forall_true. intros it. simpl.
      pose proof (q_inv_version_pos _ _ _ Hinv). lia. }
  destruct (q_inv_increment_version q1 _ ord Hinv1) as (q' & its' & ? & ? & Hf & Hu).
  exists q', its'. split_and!; try done.
  - etrans; [|done]. rewrite Hq1. done.
  - rewrite Hu. apply (unversioned_idemp _ _ (q_version q)). auto.
Qed.

(** ** Priorities and positions *)

Lemma q_inv_set_priority_range q its ord (s e : nat) pr current after :
  q_inv q its ord -> (s <= e <= length its)%nat -> after_of ord current after ->
  exists m q' ord', queue_set_priority_range q (Z.of_nat s) (Z.of_nat e) pr after = Ok (m, q') /\
    q_inv q' (alter_range (prioritized (q_version q) pr) s e its) ord' /\ q_frame q q' /\
    (q_random q = true -> tail_sorted its ord current ->
       tail_sorted (alter_range (prioritized (q_version q) pr) s e its) ord' current).
Proof.
  intros Hinv Hse Hafter.
  destruct (queue_set_priority_range_ok q its ord s e pr current after (inv_rep _ _ _ Hinv)
    Hse Hafter) as (m & q' & ord' & Heq & Hrep & Hf & Hv & Hn & Hs).
  exists m, q', ord'. split_and!; try done. eapply q_inv_step; [done..| |].
  - rewrite length_alter_range. intros Hr.
    assert (q_random q = false) as Hr' by (destruct Hf; congruence).
    rewrite (Hn Hr'). by apply (inv_ident _ _ _ Hinv).
  - apply versions_prioritized; [by eapply q_inv_version_pos|by eapply q_inv_versions].
Qed.

(** A random swap of positions, and the loop of them. *)
Lemma q_inv_shuffle_range q its ord (s e : nat) :
  q_inv q its ord -> (s <= e <= length its)%nat ->
  exists q' its', queue_shuffle_range q (Z.of_nat s) (Z.of_nat e) = Ok q' /\
    q_inv q' its' ord /\ q_frame q q' /\ range_perm s e (unversioned its) (unversioned its').
Proof.
  intros Hinv Hse. pose proof (rep_length_pos _ _ _ (inv_rep _ _ _ Hinv)) as Hpos.
  unfold queue_shuffle_range. rewrite (rep_len _ _ _ (inv_rep _ _ _ Hinv)).
  replace (Z.of_nat s <=? Z.of_nat e) with true by (symmetry; apply Z.leb_le; lia).
  replace (Z.of_nat e <=? Z.of_nat (length its)) with true by (symmetry; apply Z.leb_le; lia).
  cbn [mbind res_bind assert]. set (body := fun (i : Z) (q : queue) => _).
  assert (wp (for_range (Z.of_nat s) (Z.of_nat e) body q) (fun q' => exists its',
    q_inv q' its' ord /\ q_frame q q' /\ range_perm s e (unversioned its) (unversioned its')))
    as Hwp.
  { apply (for_range_inv (fun _ q' => exists its', q_inv q' its' ord /\ q_frame q q' /\
      range_perm s e (unversioned its) (unversioned its'))); [lia| |].
    - exists its. split_and!; [done..|]. apply range_perm_refl.
      unfold unversioned. by rewrite length_fmap.
    - intros k q1 Hk (its1 & Hinv1 & Hf1 & Hrp). unfold body.
      pose proof (range_perm_length _ _ _ _ Hrp) as Hl. unfold unversioned in Hl.
      rewrite !length_fmap in Hl.
      destruct (queue_rand_range_ok q1 k e) as (r & Hr & H1 & g & H2); [lia..|].
      destruct (queue_rand_range q1 (Z.of_nat k) (Z.of_nat e)) as [ri q2]. simpl in H1, H2. subst.
      assert (q_inv (set_rand g q1) its1 ord) as Hinv2.
      { destruct Hinv1. split; [by apply rep_set_rand|done..]. }
      destruct (q_inv_swap _ _ _ k r Hinv2) as (q' & -> & Hinv' & Hf' & _); [lia..|].
      destruct (lookup_lt_is_Some_2 its1 k) as [it1 Hi1]; [lia|].
      destruct (lookup_lt_is_Some_2 its1 r) as [it2 Hi2]; [lia|].
      exists (swap_items (q_version (set_rand g q1)) k r its1). split_and!; [done| |].
      + etrans; [exact Hf1|]. by destruct Hf'.
      + eapply range_perm_trans; [done|].
        rewrite (proj1 (swap_items_lookup _ _ _ _ _ _ 0 Hi1 Hi2)).
        apply swap_list_range_perm; [lia..|]. unfold unversioned. rewrite length_fmap. lia. }
  apply wp_inv in Hwp as (q' & Heq & its' & ?). eauto.
Qed.

End with_glib.
