(* ===== verification/CString.v ===== *)
(** * C strings

    A string is the list of its characters without the terminating null; a
    pointer into it is the rest of the list.  The [<string.h>], [<ctype.h>]
    and [<stdlib.h>] functions the sources call, in the C locale. *)

From S2P Require Import Prelude.
From stdpp Require Export strings.
From Stdlib Require Export Ascii.
Local Open Scope Z_scope.

Abbreviation cstring := (list ascii).

#[global] Instance ascii_eq_dec : EqDecision ascii := Ascii.ascii_dec.

(** A string literal. *)
Definition lit (s : string) : cstring := String.list_ascii_of_string s.

Definition char_code (c : ascii) : Z := Z.of_N (N_of_ascii c).
Definition char_of (z : Z) : ascii := ascii_of_N (Z.to_N z).

(** ** Character classes *)

Definition is_digit (c : ascii) : bool := (48 <=? char_code c) && (char_code c <=? 57).
Definition is_alpha (c : ascii) : bool :=
  ((65 <=? char_code c) && (char_code c <=? 90)) || ((97 <=? char_code c) && (char_code c <=? 122)).
Definition is_alnum (c : ascii) : bool := is_alpha c || is_digit c.

(** [isspace()]: the blank and the characters from tab to carriage return.
    [g_ascii_isspace()] does not count the vertical tab (11). *)
Definition is_space (c : ascii) : bool :=
  (char_code c =? 32) || ((9 <=? char_code c) && (char_code c <=? 13)).
Definition g_ascii_isspace (c : ascii) : bool :=
  is_space c && negb (char_code c =? 11).

(** ** Searching *)

(** [strncmp(s, prefix, strlen(prefix)) == 0]. *)
Fixpoint has_prefix (prefix s : cstring) : bool :=
  match prefix, s with
  | [], _ => true
  | a :: prefix', b :: s' => bool_decide (a = b) && has_prefix prefix' s'
  | _ :: _, [] => false
  end.

(** [strstr(s, needle) != NULL]. *)
Fixpoint contains (needle s : cstring) : bool :=
  has_prefix needle s ||
  match s with [] => false | _ :: s' => contains needle s' end.

(** [strchr()]: the rest of the string from the first [c]. *)
Fixpoint strchr (c : ascii) (s : cstring) : option cstring :=
  match s with
  | [] => None
  | a :: s' => if decide (a = c) then Some s else strchr c s'
  end.

(** [strrchr()]: the rest of the string from the last [c]. *)
Fixpoint strrchr (c : ascii) (s : cstring) : option cstring :=
  match s with
  | [] => None
  | a :: s' =>
      match strrchr c s' with
      | Some r => Some r
      | None => if decide (a = c) then Some s else None
      end
  end.

(** The part of [s] in front of the first [c], if there is one. *)
Fixpoint before (c : ascii) (s : cstring) : option cstring :=
  match s with
  | [] => None
  | a :: s' => if decide (a = c) then Some [] else cons a <$> before c s'
  end.

(** ** Numbers *)

Fixpoint span (f : ascii -> bool) (s : cstring) : cstring * cstring :=
  match s with
  | [] => ([], [])
  | a :: s' => if f a then let '(x, r) := span f s' in (a :: x, r) else ([], s)
  end.

Definition digit_value (c : ascii) : Z := char_code c - 48.

Definition decimal_value (ds : cstring) : Z :=
  foldl (fun v c => v * 10 + digit_value c) 0 ds.

Definition strip_sign (s : cstring) : bool * cstring :=
  match s with
  | c :: s' => if decide (c = "-"%char) then (true, s')
               else if decide (c = "+"%char) then (false, s') else (false, s)
  | [] => (false, s)
  end.

(** [strtoul(s, &end, 10)] and [strtol(s, &end, 10)] for 64-bit [long]: the
    value and the string at [end], which is [s] when there are no
    digits. *)
Definition ULONG_MAX : Z := 2 ^ 64 - 1.
Definition LONG_MAX : Z := 2 ^ 63 - 1.
Definition LONG_MIN : Z := - 2 ^ 63.

Definition strtoul (s : cstring) : Z * cstring :=
  let '(neg, s2) := strip_sign (span is_space s).2 in
  let '(ds, rest) := span is_digit s2 in
  match ds with
  | [] => (0, s)
  | _ => let v := decimal_value ds in
         (if ULONG_MAX <? v then ULONG_MAX else if neg : bool then u64 (- v) else v, rest)
  end.

Definition strtol (s : cstring) : Z * cstring :=
  let '(neg, s2) := strip_sign (span is_space s).2 in
  let '(ds, rest) := span is_digit s2 in
  match ds with
  | [] => (0, s)
  | _ => let v := if neg : bool then - decimal_value ds else decimal_value ds in
         (Z.max LONG_MIN (Z.min LONG_MAX v), rest)
  end.

(** [printf("%u")]: decimal digits, most significant first.  Ten digits are
    enough for 32 bits, twenty for 64. *)
Fixpoint digits_of (fuel : nat) (n : Z) : cstring :=
  match fuel with
  | O => []
  | S fuel' =>
      (if n <? 10 then [] else digits_of fuel' (n / 10)) ++ [char_of (48 + n `mod` 10)]
  end.

Definition print_u (n : Z) : cstring := digits_of 20 n.

(** ** Lemmas *)

Lemma char_code_of z : 0 <= z < 256 -> char_code (char_of z) = z.
Proof.
  intros Hz. unfold char_code, char_of. rewrite N_ascii_embedding by lia. lia.
Qed.

Lemma span_app f s r :
  forallb f s = true -> (match r with [] => True | c :: _ => f c = false end) ->
  span f (s ++ r) = (s, r).
Proof.
  intros Hs Hr. induction s as [|a s IH]; simpl in *.
  - destruct r as [|c r]; simpl; [done|]. by rewrite Hr.
  - apply andb_true_iff in Hs as [-> Hs]. by rewrite IH.
Qed.

Lemma decimal_value_snoc ds c : decimal_value (ds ++ [c]) = decimal_value ds * 10 + digit_value c.
Proof. unfold decimal_value. by rewrite foldl_app. Qed.

Lemma digit_char_code d : 0 <= d < 10 -> char_code (char_of (48 + d)) = 48 + d.
Proof. intros. apply char_code_of. lia. Qed.

Lemma digits_of_spec fuel n :
  0 <= n < 10 ^ Z.of_nat fuel -> (0 < fuel)%nat ->
  forallb is_digit (digits_of fuel n) = true /\ decimal_value (digits_of fuel n) = n /\
  digits_of fuel n <> [].
Proof.
  revert n. induction fuel as [|fuel IH]; intros n Hn Hf; [lia|]. simpl.
  assert (0 <= n `mod` 10 < 10) as Hm by (apply Z.mod_pos_bound; lia).
  assert (is_digit (char_of (48 + n `mod` 10)) = true) as Hd.
  { unfold is_digit. rewrite digit_char_code by done. case_Z; simpl; (done || lia). }
  destruct (Z.ltb_spec n 10) as [Hlt|Hge].
  - rewrite Z.mod_small in * by lia. simpl. rewrite Hd. split_and!; [done| |done].
    unfold decimal_value, digit_value. simpl. rewrite digit_char_code by lia. lia.
  - destruct fuel as [|fuel]; [simpl in Hn; lia|].
    destruct (IH (n / 10)) as (H1 & H2 & H3); [|lia|].
    { rewrite Nat2Z.inj_succ, Z.pow_succ_r in Hn by lia.
      split; [apply Z.div_pos; lia|]. apply Z.div_lt_upper_bound; lia. }
    rewrite forallb_app, decimal_value_snoc, H1, H2. cbn [forallb]. rewrite Hd.
    split_and!; [done| |by destruct (digits_of (S fuel) (n / 10))].
    unfold digit_value. rewrite digit_char_code by done.
    pose proof (Z.div_mod n 10). lia.
Qed.

Lemma print_u_spec n :
  0 <= n < 2 ^ 64 ->
  forallb is_digit (print_u n) = true /\ decimal_value (print_u n) = n /\ print_u n <> [].
Proof. intros Hn. apply digits_of_spec; [|lia]. change (Z.of_nat 20) with 20. lia. Qed.

Lemma is_digit_not_space c : is_digit c = true -> is_space c = false.
Proof.
  unfold is_digit, is_space. intros [?%Z.leb_le ?%Z.leb_le]%andb_true_iff.
  case_Z; simpl; (done || lia).
Qed.

Lemma strip_sign_digit c s : is_digit c = true -> strip_sign (c :: s) = (false, c :: s).
Proof.
  intros Hd. simpl. destruct (decide (c = "-"%char)) as [->|]; [done|].
  by destruct (decide (c = "+"%char)) as [->|].
Qed.

(** Reading back a printed number, whatever follows it. *)
Lemma strtoul_print n r :
  0 <= n < 2 ^ 64 -> (match r with [] => True | c :: _ => is_digit c = false end) ->
  strtoul (print_u n ++ r) = (n, r).
Proof.
  intros Hn Hr. destruct (print_u_spec n Hn) as (Hd & Hv & Hne). unfold strtoul.
  destruct (print_u n) as [|c ds] eqn:He; [done|].
  pose proof Hd as Hd0. simpl in Hd0. apply andb_true_iff in Hd0 as [Hc Hds].
  simpl app. cbn [span]. rewrite is_digit_not_space by done. cbn [snd].
  rewrite strip_sign_digit by done.
  change (c :: ds ++ r) with ((c :: ds) ++ r). rewrite span_app by done.
  rewrite Hv. unfold ULONG_MAX. case_Z; [lia|done].
Qed.

Lemma strtol_print n r :
  0 <= n < 2 ^ 63 -> (match r with [] => True | c :: _ => is_digit c = false end) ->
  strtol (print_u n ++ r) = (n, r).
Proof.
  intros Hn Hr. destruct (print_u_spec n ltac:(lia)) as (Hd & Hv & Hne). unfold strtol.
  destruct (print_u n) as [|c ds] eqn:He; [done|].
  pose proof Hd as Hd0. simpl in Hd0. apply andb_true_iff in Hd0 as [Hc Hds].
  simpl app. cbn [span]. rewrite is_digit_not_space by done. cbn [snd].
  rewrite strip_sign_digit by done.
  change (c :: ds ++ r) with ((c :: ds) ++ r). rewrite span_app by done.
  rewrite Hv. f_equal. unfold LONG_MIN, LONG_MAX. lia.
Qed.
