(* ===== verification/Uri.v ===== *)
(** * URIs

    [src/uri.c].  Pointers are the rest of the string they point to; a
    pointer behind the terminating null is an access out of bounds. *)

From S2P Require Import Prelude CString.
Local Open Scope Z_scope.

(** ** Operations *)

Definition uri_has_scheme (uri : cstring) : bool := contains (lit "://") uri.

Definition uri_get_suffix (uri : cstring) : option cstring :=
  match strrchr "."%char uri with
  | Some (_ :: suffix) =>
      if existsb (fun c => bool_decide (c = "/"%char) || bool_decide (c = "\"%char)) suffix
      then None else Some suffix
  | _ => None
  end.

Definition is_dot (c : ascii) : bool := bool_decide (c = "."%char).

Definition at_segment_end (p : cstring) : bool :=
  match p with [] => true | c :: _ => bool_decide (c = "/"%char) end.

(** [Ok None] is [NULL].  [strchr(p + 1, '/')] is out of bounds when [p] is
    at the end of the string. *)
Definition verify_uri_segment (p : cstring) : res (option cstring) :=
  let '(dots, p) := span is_dot p in
  if (length dots <=? 2)%nat && at_segment_end p then Ok None else
  match p with
  | [] => Err OutOfBounds
  | _ :: p1 => Ok (Some (default [] (strchr "/"%char p1)))
  end.

(** Every iteration consumes a character, so the length of the string
    bounds their number. *)
Fixpoint uri_safe_loop (fuel : nat) (uri : cstring) : res bool :=
  match fuel with
  | O => Err OutOfFuel
  | S fuel' =>
      r ← verify_uri_segment uri;
      match r with
      | None => Ok false
      | Some [] => Ok true
      | Some (c :: uri') =>
          assert (bool_decide (c = "/"%char));;
          uri_safe_loop fuel' uri'
      end
  end.

Definition uri_safe_local (uri : cstring) : res bool := uri_safe_loop (S (length uri)) uri.

(** The authority of an HTTP URI starts behind the scheme. *)
Definition http_auth (uri : cstring) : option (cstring * cstring) :=
  if has_prefix (lit "http://") uri then Some (lit "http://", drop 7 uri)
  else if has_prefix (lit "https://") uri then Some (lit "https://", drop 8 uri)
  else None.

(** The text in front of [slash], or all of it. *)
Definition authority (auth : cstring) : cstring := default auth (before "/"%char auth).

Definition uri_remove_auth (uri : cstring) : option cstring :=
  '(scheme, auth) ← http_auth uri;
  user ← before "@"%char (authority auth);
  Some (take (length scheme) uri ++ drop (length scheme + length user + 1) uri).

(** ** Specification *)

(** The parts between slashes. *)
Fixpoint segments (s : cstring) : list cstring :=
  match s with
  | [] => [[]]
  | c :: s' =>
      if decide (c = "/"%char) then [] :: segments s'
      else match segments s' with
           | seg :: segs => (c :: seg) :: segs
           | [] => [[c]]
           end
  end.

Definition safe_segment (seg : cstring) : bool :=
  negb (bool_decide (seg = [])) && negb (bool_decide (seg = lit "."))
  && negb (bool_decide (seg = lit "..")).

(** Three or more dots and nothing else. *)
Definition long_dots (seg : cstring) : bool :=
  (3 <=? length seg)%nat && forallb is_dot seg.

(** ** Lemmas *)

Lemma strchr_Some c s r :
  strchr c s = Some r -> exists a, s = a ++ r /\ c ∉ a /\ head r = Some c.
Proof.
  revert r. induction s as [|x s IH]; intros r; simpl; [done|].
  destruct (decide (x = c)) as [->|Hne].
  - intros [= <-]. exists []. split_and!; [done|set_solver|done].
  - intros (a & -> & Hc & Hh)%IH. exists (x :: a). split_and!; [done|set_solver|done].
Qed.

Lemma strchr_None c s : strchr c s = None -> c ∉ s.
Proof.
  induction s as [|x s IH]; simpl; [set_solver|].
  case_decide; [done|]. intros Hn%IH. set_solver.
Qed.

Lemma segments_app a s :
  "/"%char ∉ a -> segments (a ++ "/"%char :: s) = a :: segments s.
Proof.
  induction a as [|c a IH]; intros Ha; simpl; [done|].
  rewrite decide_False by set_solver. by rewrite IH by set_solver.
Qed.

Lemma segments_no_slash a : "/"%char ∉ a -> segments a = [a].
Proof.
  induction a as [|c a IH]; intros Ha; simpl; [done|].
  rewrite decide_False by set_solver. by rewrite IH by set_solver.
Qed.

Lemma span_spec f s : span f s = (s, []) /\ forallb f s = true \/
  exists a c r, s = a ++ c :: r /\ span f s = (a, c :: r) /\ forallb f a = true /\ f c = false.
Proof.
  induction s as [|x s IH]; simpl; [by left|]. destruct (f x) eqn:Hx.
  - destruct IH as [[-> Hf]|(a & c & r & -> & Hsp & Ha & Hc)].
    + left. by rewrite Hf.
    + right. exists (x :: a), c, r. rewrite Hsp. simpl. by rewrite Hx, Ha.
  - right. by exists [], x, s.
Qed.

Lemma forallb_dots_length a : forallb is_dot a = true -> a = replicate (length a) "."%char.
Proof.
  induction a as [|x a IH]; simpl; [done|].
  intros [Hx%bool_decide_eq_true Ha%IH]%andb_true_iff. congruence.
Qed.

Lemma safe_segment_dots a : forallb is_dot a = true -> safe_segment a = (3 <=? length a)%nat.
Proof.
  intros Ha. rewrite (forallb_dots_length a Ha). rewrite length_replicate.
  by destruct (length a) as [|[|[|n]]].
Qed.

Lemma safe_segment_nondot a c r : is_dot c = false -> safe_segment (a ++ c :: r) = true.
Proof.
  unfold safe_segment, is_dot. rewrite bool_decide_eq_false. intros Hc.
  rewrite !bool_decide_false; [done|..]; intros H;
    destruct a as [|? [|? [|]]]; simpl in H; simplify_eq; done.
Qed.

Lemma segments_inv uri seg segs :
  segments uri = seg :: segs -> "/"%char ∉ seg /\
  ((segs = [] /\ uri = seg) \/ exists u, uri = seg ++ "/"%char :: u /\ segments u = segs).
Proof.
  intros Hseg. destruct (strchr "/"%char uri) as [r|] eqn:Hr.
  - apply strchr_Some in Hr as (a & -> & Ha & Hh). destruct r as [|c u]; [done|].
    simpl in Hh. injection Hh as ->. rewrite segments_app in Hseg by done.
    injection Hseg as <- <-. split; [done|]. right. eauto.
  - apply strchr_None in Hr. rewrite segments_no_slash in Hseg by done.
    injection Hseg as <- <-. auto.
Qed.

Lemma strchr_skip c a s : c ∉ a -> strchr c (a ++ s) = strchr c s.
Proof.
  induction a as [|x a IH]; intros Ha; simpl; [done|].
  rewrite decide_False by set_solver. apply IH. set_solver.
Qed.

(** One step of the check looks at the first segment. *)
Lemma verify_uri_segment_ok seg tail :
  "/"%char ∉ seg -> tail = [] \/ head tail = Some "/"%char -> long_dots seg = false ->
  verify_uri_segment (seg ++ tail) = Ok (if safe_segment seg then Some tail else None).
Proof.
  intros Hs Htail Hlong. unfold verify_uri_segment.
  assert (at_segment_end tail = true) as Hend.
  { destruct tail as [|c t]; [done|]. destruct Htail as [|[= ->]]; done. }
  assert (default [] (strchr "/"%char tail) = tail) as Hchr.
  { destruct tail as [|c t]; [done|]. destruct Htail as [|[= ->]]; done. }
  destruct (span_spec is_dot seg) as [[_ Hall]|(b & c & r & -> & _ & Hb & Hc)].
  - rewrite span_app; [|done|].
    2:{ destruct tail; [done|]. destruct Htail as [|[= ->]]; done. }
    rewrite safe_segment_dots by done. unfold long_dots in Hlong. rewrite Hall in Hlong.
    rewrite andb_true_r in Hlong. rewrite Hlong, Hend, andb_true_r.
    apply Nat.leb_gt in Hlong. by rewrite (proj2 (Nat.leb_le _ _)) by lia.
  - rewrite <- app_assoc. simpl. rewrite span_app by done. simpl.
    rewrite bool_decide_false by set_solver. rewrite andb_false_r.
    rewrite strchr_skip by set_solver. by rewrite Hchr, safe_segment_nondot.
Qed.

Lemma uri_safe_loop_ok fuel uri :
  (length uri < fuel)%nat -> forallb (fun seg => negb (long_dots seg)) (segments uri) = true ->
  uri_safe_loop fuel uri = Ok (forallb safe_segment (segments uri)).
Proof.
  revert uri. induction fuel as [|fuel IH]; intros uri Hf Hl; [lia|]. simpl.
  destruct (segments uri) as [|seg segs] eqn:Hseg.
  { destruct uri; simpl in Hseg; [done|]. repeat case_match; done. }
  simpl in *. apply andb_true_iff in Hl as [Hl1%negb_true_iff Hl2].
  apply segments_inv in Hseg as [Hs [[-> ->]|(u & -> & <-)]].
  - rewrite <- (app_nil_r seg) at 1. rewrite verify_uri_segment_ok by auto. simpl.
    by destruct (safe_segment seg).
  - rewrite verify_uri_segment_ok by auto. simpl.
    destruct (safe_segment seg); simpl; [|done]. apply IH; [|done].
    rewrite length_app in Hf. simpl in Hf. lia.
Qed.
