(* ===== verification/Playlist.v ===== *)
(** * The playlist

    [struct playlist] and the operations of [src/playlist.c],
    [src/playlist_control.c] and [src/playlist_edit.c].  Each operation is
    a function on the playlist and the player it controls; log messages
    are left out. *)

From S2P Require Import Prelude Err GLib Song CString Uri Float EventPipe PlayQueue PlayerControl.
Local Open Scope Z_scope.

(** ** Data *)

Section with_player.
Context {G : GLib} {T : PlayerThread}.

Record playlist := Playlist {
  pl_queue : queue;
  pl_playing : bool;
  pl_stop_on_error : bool;
  pl_error_count : Z;
  pl_current : Z;
  pl_queued : Z;
}.

(** The playlist together with the player. *)
Record world := World {
  w_playlist : playlist;
  w_player : player;
}.

Definition w_queue (w : world) : queue := pl_queue (w_playlist w).
Definition w_playing (w : world) : bool := pl_playing (w_playlist w).
Definition w_current (w : world) : Z := pl_current (w_playlist w).
Definition w_queued (w : world) : Z := pl_queued (w_playlist w).

Definition on_playlist (f : playlist -> playlist) (w : world) : world :=
  World (f (w_playlist w)) (w_player w).
Definition set_player (p : player) (w : world) : world := World (w_playlist w) p.
Definition set_queue (q : queue) : world -> world := on_playlist (fun pl =>
  Playlist q (pl_playing pl) (pl_stop_on_error pl) (pl_error_count pl) (pl_current pl)
    (pl_queued pl)).
Definition set_playing (b : bool) : world -> world := on_playlist (fun pl =>
  Playlist (pl_queue pl) b (pl_stop_on_error pl) (pl_error_count pl) (pl_current pl)
    (pl_queued pl)).
Definition set_stop_on_error (b : bool) : world -> world := on_playlist (fun pl =>
  Playlist (pl_queue pl) (pl_playing pl) b (pl_error_count pl) (pl_current pl) (pl_queued pl)).
Definition set_error_count (n : Z) : world -> world := on_playlist (fun pl =>
  Playlist (pl_queue pl) (pl_playing pl) (pl_stop_on_error pl) n (pl_current pl) (pl_queued pl)).
Definition set_current (c : Z) : world -> world := on_playlist (fun pl =>
  Playlist (pl_queue pl) (pl_playing pl) (pl_stop_on_error pl) (pl_error_count pl) c
    (pl_queued pl)).
Definition set_queued (c : Z) : world -> world := on_playlist (fun pl =>
  Playlist (pl_queue pl) (pl_playing pl) (pl_stop_on_error pl) (pl_error_count pl)
    (pl_current pl) c).

Definition w_idle_add (flags : Z) (w : world) : world :=
  set_player (p_idle_add flags (w_player w)) w.

(** An operation of the player on the world. *)
Definition with_player (f : player -> res player) (w : world) : res world :=
  p ← f (w_player w); Ok (set_player p w).

(** ** Versions *)

Definition playlist_increment_version_all (w : world) : res world :=
  q ← queue_modify_all (w_queue w);
  Ok (w_idle_add IDLE_PLAYLIST (set_queue q w)).

Definition playlist_tag_changed (w : world) : res world :=
  if negb (w_playing w) then Ok w else
  assert (0 <=? w_current w);;
  q ← queue_modify (w_queue w) (u32 (w_current w));
  Ok (w_idle_add IDLE_PLAYLIST (set_queue q w)).

Definition playlist_increment_version (w : world) : res world :=
  q ← queue_increment_version (w_queue w);
  Ok (w_idle_add IDLE_PLAYLIST (set_queue q w)).

(** The other fields of the global object are zero. *)
Definition playlist_init (max_length : Z) (rand : GRand) (cur : Z) (p : player) : res world :=
  q ← queue_init max_length rand cur;
  Ok (World (Playlist q false false 0 (-1) (-1)) p).

(** Returns the songs that were freed. *)
Definition playlist_finish (w : world) : res (list song) :=
  queue_finish (w_queue w).

(** ** The queued song *)

Definition playlist_get_queued_song (w : world) : res (option song) :=
  if negb (w_playing w) || (w_queued w <? 0) then Ok None else
  s ← queue_get_order (w_queue w) (u32 (w_queued w));
  Ok (Some s).

Definition playlist_queue_song_order (order : Z) (w : world) : res world :=
  assert (queue_valid_order (w_queue w) order);;
  let w := set_queued (i32 order) w in
  s ← queue_get_order (w_queue w) order;
  with_player (pc_enqueue_song s) w.

(** Shuffle the order and keep [current] on its song. *)
Definition playlist_reshuffle (w : world) : res world :=
  current_position ← queue_order_to_position (w_queue w) (u32 (w_current w));
  q ← queue_shuffle_order (w_queue w);
  c ← queue_position_to_order q current_position;
  Ok (set_current (i32 c) (set_queue q w)).

Definition playlist_update_queued_song (prev : option song) (w : world) : res world :=
  if negb (w_playing w) then Ok w else
  assert (negb (queue_is_empty (w_queue w)));;
  assert (Bool.eqb (w_queued w <? 0) (bool_decide (prev = None)));;
  next_order ← (if 0 <=? w_current w then queue_next_order (w_queue w) (u32 (w_current w))
                else Ok 0);
  w ← (if (next_order =? 0) && q_random (w_queue w) && negb (q_single (w_queue w))
       then playlist_reshuffle w else Ok w);
  next_song ← (if 0 <=? next_order then
                 s ← queue_get_order (w_queue w) (u32 next_order); Ok (Some s)
               else Ok None);
  w ← (if negb (bool_decide (prev = None)) && negb (song_ptr_eqb next_song prev) then
         w ← with_player pc_cancel w;
         Ok (set_queued (-1) w)
       else Ok w);
  if 0 <=? next_order then
    if negb (song_ptr_eqb next_song prev)
    then playlist_queue_song_order (u32 next_order) w
    else Ok (set_queued next_order w)
  else Ok w.

Definition playlist_play_order (orderNum : Z) (w : world) : res world :=
  let w := set_queued (-1) (set_playing true w) in
  s ← queue_get_order (w_queue w) (u32 orderNum);
  w ← with_player (pc_play s) w;
  Ok (set_current orderNum w).

(** ** Control, part 1: [playlist_stop()] *)

Definition playlist_stop (w : world) : res world :=
  if negb (w_playing w) then Ok w else
  w ← with_player pc_stop w;
  let w := set_playing false (set_queued (-1) w) in
  if q_random (w_queue w) then playlist_reshuffle w else Ok w.

(** ** Deleting *)

(** The first half of [playlist_delete_internal()]: if the song to be deleted
    is the current one, play the next one or stop.  Returns the new value
    of [*queued_p]. *)
Definition playlist_before_delete (songOrder : Z) (queued : option song) (w : world)
  : res (option song * world) :=
  if w_playing w && (w_current w =? i32 songOrder) then
    let paused := bool_decide (pc_get_state (w_player w) = PLAYER_STATE_PAUSE) in
    next ← queue_next_order (w_queue w) (u32 (w_current w));
    let w := set_current next w in
    let w := if w_current w =? i32 songOrder then set_current (-1) w else w in
    w ← (if (0 <=? w_current w) && negb paused then playlist_play_order (w_current w) w
         else
           w ← playlist_stop w;
           w ← with_player pc_stop w;
           Ok (set_playing false w));
    Ok (None, w)
  else if w_current w =? i32 songOrder then Ok (queued, set_current (-1) w)
  else Ok (queued, w).

Definition playlist_delete_internal (song : Z) (queued : option Song.song) (w : world)
  : res (option Song.song * world) :=
  len ← queue_length (w_queue w);
  assert (song <? len);;
  songOrder ← queue_position_to_order (w_queue w) song;
  '(queued, w) ← playlist_before_delete songOrder queued w;
  s ← queue_get (w_queue w) song;
  let w := if negb (song_in_database s)
           then set_player (pc_song_deleted s (w_player w)) w else w in
  '(_, q) ← queue_delete (w_queue w) song;
  let w := set_queue q w in
  Ok (queued, if i32 songOrder <? w_current w then set_current (w_current w - 1) w else w).

Definition playlist_delete (song : Z) (w : world) : res (mpd_err * world) :=
  len ← queue_length (w_queue w);
  if len <=? song then Ok (PLAYLIST_BAD_RANGE, w) else
  queued ← playlist_get_queued_song w;
  '(queued, w) ← playlist_delete_internal song queued w;
  w ← playlist_increment_version w;
  w ← playlist_update_queued_song queued w;
  Ok (MPD_SUCCESS, w).

(** [do playlist_delete_internal(..., --end, ...) while (end != start)]. *)
Definition playlist_delete_range (start end_ : Z) (w : world) : res (mpd_err * world) :=
  len ← queue_length (w_queue w);
  if len <=? start then Ok (PLAYLIST_BAD_RANGE, w) else
  let end_ := if len <? end_ then len else end_ in
  if end_ <=? start then Ok (MPD_SUCCESS, w) else
  queued ← playlist_get_queued_song w;
  '(queued, w) ← for_down (end_ - 1) (start - 1)
    (fun song '(queued, w) => playlist_delete_internal song queued w) (queued, w);
  w ← playlist_increment_version w;
  w ← playlist_update_queued_song queued w;
  Ok (MPD_SUCCESS, w).

Definition playlist_delete_id (id : Z) (w : world) : res (mpd_err * world) :=
  song ← queue_id_to_position (w_queue w) id;
  if song <? 0 then Ok (PLAYLIST_NO_SUCH_SONG, w) else playlist_delete song w.

Definition playlist_delete_song (s : Song.song) (w : world) : res world :=
  len ← queue_length (w_queue w);
  w ← for_down (i32 len - 1) (-1) (fun i w =>
        s' ← queue_get (w_queue w) i;
        if song_eqb s s' then '(_, w) ← playlist_delete i w; Ok w else Ok w) w;
  Ok (set_player (pc_song_deleted s (w_player w)) w).

(** ** Control, part 2 *)

(** The second half of [playlist_play()]: start order number [i], which is
    exchanged with [current] in random mode. *)
Definition playlist_play_start (song i : Z) (w : world) : res (mpd_err * world) :=
  '(i, w) ← (if q_random (w_queue w) then
               i ← (if 0 <=? song then queue_position_to_order (w_queue w) song else Ok i);
               let w := if negb (w_playing w) then set_current 0 w else w in
               q ← queue_swap_order (w_queue w) i (u32 (w_current w));
               Ok (u32 (w_current w), set_queue q w)
             else Ok (i, w));
  let w := set_error_count 0 (set_stop_on_error false w) in
  w ← playlist_play_order (i32 i) w;
  Ok (MPD_SUCCESS, w).

Definition playlist_play (song : Z) (w : world) : res (mpd_err * world) :=
  let w := set_player (pc_clear_error (w_player w)) w in
  if song =? -1 then
    if queue_is_empty (w_queue w) then Ok (MPD_SUCCESS, w) else
    if w_playing w then
      w ← with_player (pc_set_pause false) w;
      Ok (MPD_SUCCESS, w)
    else playlist_play_start song (u32 (if 0 <=? w_current w then w_current w else 0)) w
  else if negb (queue_valid_position (w_queue w) (u32 song)) then Ok (PLAYLIST_BAD_RANGE, w)
  else playlist_play_start song (u32 song) w.

Definition playlist_play_id (id : Z) (w : world) : res (mpd_err * world) :=
  if id =? -1 then playlist_play id w else
  song ← queue_id_to_position (w_queue w) (u32 id);
  if song <? 0 then Ok (PLAYLIST_NO_SUCH_SONG, w) else playlist_play song w.

(** Consume mode removes the song that was played. *)
Definition playlist_consume (current : Z) (w : world) : res world :=
  if q_consume (w_queue w) then
    position ← queue_order_to_position (w_queue w) (u32 current);
    '(_, w) ← playlist_delete position w;
    Ok w
  else Ok w.

Definition playlist_next (w : world) : res world :=
  if negb (w_playing w) then Ok w else
  assert (negb (queue_is_empty (w_queue w)));;
  assert (queue_valid_order (w_queue w) (u32 (w_current w)));;
  let current := w_current w in
  let w := set_stop_on_error false w in
  next_order ← queue_next_order (w_queue w) (u32 (w_current w));
  w ← (if next_order <? 0 then
         w ← playlist_stop w;
         Ok (set_current (-1) w)
       else
         w ← (if (next_order =? 0) && q_random (w_queue w) then
                assert (q_repeat (w_queue w));;
                q ← queue_shuffle_order (w_queue w);
                Ok (set_queue q w)
              else Ok w);
         playlist_play_order next_order w);
  playlist_consume current w.

Definition playlist_previous (w : world) : res world :=
  if negb (w_playing w) then Ok w else
  len ← queue_length (w_queue w);
  assert (0 <? len);;
  if 0 <? w_current w then playlist_play_order (w_current w - 1) w
  else if q_repeat (w_queue w) then playlist_play_order (i32 (u32 (len - 1))) w
  else playlist_play_order (w_current w) w.

Definition playlist_seek_song (song : Z) (seek_time : float) (w : world)
  : res (mpd_err * world) :=
  if negb (queue_valid_position (w_queue w) song) then Ok (PLAYLIST_BAD_RANGE, w) else
  queued ← playlist_get_queued_song w;
  i ← (if q_random (w_queue w) then queue_position_to_order (w_queue w) song else Ok song);
  let w := set_player (pc_clear_error (w_player w)) w in
  let w := set_error_count 0 (set_stop_on_error true w) in
  let '(queued, w) :=
    if negb (w_playing w) || negb (u32 (w_current w) =? i)
    then (None, set_current (i32 i) (set_playing true w))
    else (queued, w) in
  s ← queue_get_order (w_queue w) i;
  '(success, p) ← pc_seek s seek_time (w_player w);
  let w := set_player p w in
  if negb success then
    w ← playlist_update_queued_song queued w;
    Ok (PLAYLIST_NOT_PLAYING, w)
  else
    w ← playlist_update_queued_song None (set_queued (-1) w);
    Ok (MPD_SUCCESS, w).

Definition playlist_seek_song_id (id : Z) (seek_time : float) (w : world)
  : res (mpd_err * world) :=
  song ← queue_id_to_position (w_queue w) id;
  if song <? 0 then Ok (PLAYLIST_NO_SUCH_SONG, w) else playlist_seek_song song seek_time w.

(** The elapsed time is converted to [int]. *)
Definition playlist_seek_current (seek_time : float) (relative : bool) (w : world)
  : res (mpd_err * world) :=
  if negb (w_playing w) then Ok (PLAYLIST_NOT_PLAYING, w) else
  let seek (seek_time : float) (w : world) :=
    let seek_time := if f_ltb seek_time f_zero then f_zero else seek_time in
    playlist_seek_song (u32 (w_current w)) seek_time w in
  if relative then
    '(status, p) ← pc_get_status (w_player w);
    let w := set_player p w in
    match status_info status with
    | None => Ok (PLAYLIST_NOT_PLAYING, w)
    | Some (_, _, _, elapsed) =>
        match f_to_int elapsed with
        | Some i => seek (f32_add seek_time (f32_of_Z i)) w
        | None => Err BadConversion
        end
    end
  else seek seek_time w.

(** ** Events from the player *)

Definition playlist_song_started (w : world) : res world :=
  assert (no_next_song (w_player w));;
  assert (-1 <=? w_queued w);;
  let current := w_current w in
  let w := set_queued (-1) (set_current (w_queued w) w) in
  w ← playlist_consume current w;
  Ok (w_idle_add IDLE_PLAYER w).

Definition playlist_resume_playback (w : world) : res world :=
  assert (w_playing w);;
  assert (bool_decide (pc_get_state (w_player w) = PLAYER_STATE_STOP));;
  let error := pc_get_error (w_player w) in
  let w := if decide (error = PLAYER_ERROR_NOERROR) then set_error_count 0 w
           else set_error_count (u32 (pl_error_count (w_playlist w) + 1)) w in
  len ← queue_length (w_queue w);
  if (pl_stop_on_error (w_playlist w) && negb (bool_decide (error = PLAYER_ERROR_NOERROR)))
     || bool_decide (error = PLAYER_ERROR_AUDIO) || bool_decide (error = PLAYER_ERROR_SYSTEM)
     || (len <=? pl_error_count (w_playlist w))
  then playlist_stop w
  else playlist_next w.

Definition playlist_sync (w : world) : res world :=
  if negb (w_playing w) then Ok w else
  if decide (pc_get_state (w_player w) = PLAYER_STATE_STOP) then playlist_resume_playback w
  else
    w ← (if no_next_song (w_player w) && negb (w_queued w =? -1)
         then playlist_song_started w else Ok w);
    if no_next_song (w_player w) && (w_queued w <? 0)
    then playlist_update_queued_song None w else Ok w.

(** ** Options *)

Definition playlist_set_repeat (status : bool) (w : world) : res world :=
  let q := w_queue w in
  if Bool.eqb status (q_repeat q) then Ok w else
  let q := set_modes status (q_single q) (q_consume q) (q_random q) q in
  let w := set_queue q w in
  let w := set_player (pc_set_border_pause (q_single q && negb (q_repeat q)) (w_player w)) w in
  queued ← playlist_get_queued_song w;
  w ← playlist_update_queued_song queued w;
  Ok (w_idle_add IDLE_OPTIONS w).

Definition playlist_set_single (status : bool) (w : world) : res world :=
  let q := w_queue w in
  if Bool.eqb status (q_single q) then Ok w else
  let q := set_modes (q_repeat q) status (q_consume q) (q_random q) q in
  let w := set_queue q w in
  let w := set_player (pc_set_border_pause (q_single q && negb (q_repeat q)) (w_player w)) w in
  queued ← playlist_get_queued_song w;
  w ← playlist_update_queued_song queued w;
  Ok (w_idle_add IDLE_OPTIONS w).

Definition playlist_set_consume (status : bool) (w : world) : world :=
  let q := w_queue w in
  if Bool.eqb status (q_consume q) then w else
  w_idle_add IDLE_OPTIONS
    (set_queue (set_modes (q_repeat q) (q_single q) status (q_random q) q) w).

Definition playlist_order (w : world) : res world :=
  w ← (if 0 <=? w_current w then
         c ← queue_order_to_position (w_queue w) (u32 (w_current w));
         Ok (set_current (i32 c) w)
       else Ok w);
  q ← queue_restore_order (w_queue w);
  Ok (set_queue q w).

Definition playlist_set_random (status : bool) (w : world) : res world :=
  let q := w_queue w in
  if Bool.eqb status (q_random q) then Ok w else
  queued ← playlist_get_queued_song w;
  let w := set_queue (set_modes (q_repeat q) (q_single q) (q_consume q) status q) w in
  w ← (if q_random (w_queue w) then
         current_position ← (if w_playing w && (0 <=? w_current w) then
                               p ← queue_order_to_position (w_queue w) (u32 (w_current w));
                               Ok (i32 p)
                             else Ok (-1));
         q ← queue_shuffle_order (w_queue w);
         let w := set_queue q w in
         if 0 <=? current_position then
           current_order ← queue_position_to_order (w_queue w) (u32 current_position);
           q ← queue_swap_order (w_queue w) 0 current_order;
           Ok (set_current 0 (set_queue q w))
         else Ok (set_current (-1) w)
       else playlist_order w);
  w ← playlist_update_queued_song queued w;
  Ok (w_idle_add IDLE_OPTIONS w).

(** ** Queries *)

Definition playlist_get_current_song (w : world) : res Z :=
  if 0 <=? w_current w then queue_order_to_position (w_queue w) (u32 (w_current w)) else Ok (-1).

Definition playlist_get_next_song (w : world) : res Z :=
  if 0 <=? w_current w then
    if q_single (w_queue w) && q_repeat (w_queue w)
    then queue_order_to_position (w_queue w) (u32 (w_current w))
    else
      len ← queue_length (w_queue w);
      if w_current w + 1 <? i32 len
      then queue_order_to_position (w_queue w) (u32 (w_current w + 1))
      else if q_repeat (w_queue w) then queue_order_to_position (w_queue w) 0
      else Ok (-1)
  else Ok (-1).

(** ** Editing *)

Definition playlist_clear (w : world) : res world :=
  w ← playlist_stop w;
  len ← queue_length (w_queue w);
  w ← for_range 0 len (fun i w =>
        s ← queue_get (w_queue w) i;
        Ok (if negb (song_in_database s)
            then set_player (pc_song_deleted s (w_player w)) w else w)) w;
  '(_, q) ← queue_clear (w_queue w);
  playlist_increment_version (set_current (-1) (set_queue q w)).

(** Also returns the new identifier. *)
Definition playlist_append_song (s : song) (w : world) : res (mpd_err * option Z * world) :=
  full ← queue_is_full (w_queue w);
  if full : bool then Ok (PLAYLIST_TOO_LARGE, None, w) else
  queued ← playlist_get_queued_song w;
  '(id, q) ← queue_append (w_queue w) s 0;
  let w := set_queue q w in
  w ← (if q_random (w_queue w) then
         let start := u32 ((if 0 <=? w_queued w then w_queued w else w_current w) + 1) in
         len ← queue_length (w_queue w);
         if start <? len then
           q ← queue_shuffle_order_last (w_queue w) start len;
           Ok (set_queue q w)
         else Ok w
       else Ok w);
  w ← playlist_increment_version w;
  w ← playlist_update_queued_song queued w;
  Ok (MPD_SUCCESS, Some id, w).

(** [song_file_load()] reads the file: its result is a parameter. *)
Definition playlist_append_file (loaded : option song) (w : world)
  : res (mpd_err * option Z * world) :=
  match loaded with
  | None => Ok (PLAYLIST_NO_SUCH_SONG, None, w)
  | Some s => playlist_append_song s w
  end.

(** [db_get_song()] is the database lookup, [ptr] the address of a newly
    allocated song. *)
Definition song_by_uri (db_get_song : string -> option song) (ptr : Z) (uri : string)
  : res (option song) :=
  match db_get_song uri with
  | Some s => Ok (Some s)
  | None => if uri_has_scheme (lit uri)
            then s ← song_remote_new ptr uri; Ok (Some s) else Ok None
  end.

Definition playlist_append_uri (db_get_song : string -> option song) (ptr : Z) (uri : string)
    (w : world) : res (mpd_err * option Z * world) :=
  s ← song_by_uri db_get_song ptr uri;
  match s with
  | None => Ok (PLAYLIST_NO_SUCH_SONG, None, w)
  | Some s => playlist_append_song s w
  end.

Definition playlist_swap_songs (song1 song2 : Z) (w : world) : res (mpd_err * world) :=
  if negb (queue_valid_position (w_queue w) song1) || negb (queue_valid_position (w_queue w) song2)
  then Ok (PLAYLIST_BAD_RANGE, w) else
  queued ← playlist_get_queued_song w;
  q ← queue_swap (w_queue w) song1 song2;
  let w := set_queue q w in
  w ← (if q_random (w_queue w) then
         o1 ← queue_position_to_order (w_queue w) song1;
         o2 ← queue_position_to_order (w_queue w) song2;
         q ← queue_swap_order (w_queue w) o1 o2;
         Ok (set_queue q w)
       else if w_current w =? i32 song1 then Ok (set_current (i32 song2) w)
       else if w_current w =? i32 song2 then Ok (set_current (i32 song1) w)
       else Ok w);
  w ← playlist_increment_version w;
  w ← playlist_update_queued_song queued w;
  Ok (MPD_SUCCESS, w).

Definition playlist_swap_songs_id (id1 id2 : Z) (w : world) : res (mpd_err * world) :=
  song1 ← queue_id_to_position (w_queue w) id1;
  song2 ← queue_id_to_position (w_queue w) id2;
  if (song1 <? 0) || (song2 <? 0) then Ok (PLAYLIST_NO_SUCH_SONG, w)
  else playlist_swap_songs song1 song2 w.

Definition playlist_set_priority (start end_ priority : Z) (w : world) : res (mpd_err * world) :=
  len ← queue_length (w_queue w);
  if len <=? start then Ok (PLAYLIST_BAD_RANGE, w) else
  let end_ := if len <? end_ then len else end_ in
  if end_ <=? start then Ok (MPD_SUCCESS, w) else
  current_position ← (if 0 <=? w_current w then
                        p ← queue_order_to_position (w_queue w) (u32 (w_current w)); Ok (i32 p)
                      else Ok (-1));
  queued ← playlist_get_queued_song w;
  '(_, q) ← queue_set_priority_range (w_queue w) start end_ priority (w_current w);
  w ← playlist_increment_version (set_queue q w);
  w ← (if 0 <=? current_position then
         c ← queue_position_to_order (w_queue w) (u32 current_position);
         Ok (set_current (i32 c) w)
       else Ok w);
  w ← playlist_update_queued_song queued w;
  Ok (MPD_SUCCESS, w).

Definition playlist_set_priority_id (song_id priority : Z) (w : world) : res (mpd_err * world) :=
  song_position ← queue_id_to_position (w_queue w) song_id;
  if song_position <? 0 then Ok (PLAYLIST_NO_SUCH_SONG, w)
  else playlist_set_priority song_position (u32 (song_position + 1)) priority w.

(** The end of [playlist_move_range()]: move the songs, update [current]. *)
Definition playlist_move_apply (queued : option song) (start end_ to : Z) (w : world)
  : res (mpd_err * world) :=
  q ← queue_move_range (w_queue w) start end_ (u32 to);
  let w := set_queue q w in
  let w :=
    if q_random (w_queue w) then w
    else if (i32 start <=? w_current w) && (u32 (w_current w) <? end_)
    then set_current (i32 (u32 (w_current w + u32 (to - start)))) w
    else if (i32 end_ <=? w_current w) && (w_current w <=? to)
    then set_current (i32 (u32 (w_current w - u32 (end_ - start)))) w
    else if (to <=? w_current w) && (w_current w <? i32 start)
    then set_current (i32 (u32 (w_current w + u32 (end_ - start)))) w
    else w in
  w ← playlist_increment_version w;
  w ← playlist_update_queued_song queued w;
  Ok (MPD_SUCCESS, w).

(** [abs()]: the result for [INT_MIN] does not fit. *)
Definition c_abs (x : Z) : res Z := if x =? - 2 ^ 31 then Err BadArithmetic else Ok (Z.abs x).

(** [start], [end] are [unsigned], [to] is an [int]; mixed arithmetic and
    comparisons are unsigned. *)
Definition playlist_move_range (start end_ to : Z) (w : world) : res (mpd_err * world) :=
  if negb (queue_valid_position (w_queue w) start)
     || negb (queue_valid_position (w_queue w) (u32 (end_ - 1)))
  then Ok (PLAYLIST_BAD_RANGE, w) else
  len ← queue_length (w_queue w);
  outside ← (if 0 <=? to then Ok (len <=? u32 (to + end_ - start - 1))
             else distance ← c_abs to; Ok (i32 len <? distance));
  if outside : bool then Ok (PLAYLIST_BAD_RANGE, w) else
  if i32 start =? to then Ok (MPD_SUCCESS, w) else
  queued ← playlist_get_queued_song w;
  currentSong ← (if 0 <=? w_current w then
                   p ← queue_order_to_position (w_queue w) (u32 (w_current w)); Ok (i32 p)
                 else Ok (-1));
  let relative := (to <? 0) && (0 <=? w_current w) in
  if relative && (start <=? u32 currentSong) && (u32 currentSong <? end_)
  then Ok (MPD_SUCCESS, w) else
  to ← (if relative then
          distance ← c_abs to;
          let to := i32 (u32 (currentSong + distance) `mod` len) in
          Ok (if start <? u32 to then to - 1 else to)
        else Ok to);
  playlist_move_apply queued start end_ to w.

Definition playlist_move_id (id1 to : Z) (w : world) : res (mpd_err * world) :=
  song ← queue_id_to_position (w_queue w) id1;
  if song <? 0 then Ok (PLAYLIST_NO_SUCH_SONG, w)
  else playlist_move_range song (u32 (song + 1)) to w.

(** Exclude the current song from a shuffle: while it is played it becomes
    the first song of the range.  Returns the new start. *)
Definition playlist_shuffle_start (start end_ : Z) (w : world) : res (Z * world) :=
  if w_playing w && (0 <=? w_current w) then
    current_position ← queue_order_to_position (w_queue w) (u32 (w_current w));
    if (start <=? current_position) && (current_position <? end_) then
      q ← queue_swap (w_queue w) start current_position;
      let w := set_queue q w in
      w ← (if q_random (w_queue w) then
             c ← queue_position_to_order (w_queue w) start;
             Ok (set_current (i32 c) w)
           else Ok (set_current (i32 start) w));
      Ok (u32 (start + 1), w)
    else Ok (start, w)
  else Ok (start, set_current (-1) w).

Definition playlist_shuffle (start end_ : Z) (w : world) : res world :=
  len ← queue_length (w_queue w);
  let end_ := if len <? end_ then len else end_ in
  if end_ <=? u32 (start + 1) then Ok w else
  queued ← playlist_get_queued_song w;
  '(start, w) ← playlist_shuffle_start start end_ w;
  q ← queue_shuffle_range (w_queue w) start end_;
  w ← playlist_increment_version (set_queue q w);
  playlist_update_queued_song queued w.

End with_player.
