(* ===== verification/PlaylistInv.v ===== *)
(** * The playlist's invariant

    What holds between two operations of the playlist, and how the
    building blocks of the operations ([playlist_update_queued_song()],
    [playlist_play_order()], [playlist_stop()], ...) keep it. *)

From S2P Require Import Prelude Err GLib Float Song EventPipe PlayerControl PlayQueue PlayQueueRep PlayQueueEdit.
From S2P Require Import PlayQueueDelete PlayQueueOrder PlayQueueInv CString Uri Playlist.

Local Open Scope Z_scope.

(** ** Definitions *)

(** The identifier of the song at order number [o], and of the song the
    variable [current] (or [queued]) stands for. *)
Definition order_id (its : list queue_item) (ord : list nat) (o : nat) : option Z :=
  p ← ord !! o; item_id <$> its !! p.

Definition cursor_id (its : list queue_item) (ord : list nat) (c : Z) : option Z :=
  if c <? 0 then None else order_id its ord (Z.to_nat c).

Ltac fin := first [done | lia | by auto | congruence | intros; lia].
Ltac wsimpl := unfold w_queue, w_playing, w_current, w_queued in *; simpl in *.

Section with_player.
Context {G : GLib} {HG : GLibSpec G} {T : PlayerThread} {HT : PlayerThreadSpec T}.

(** The invariant: [current] and [queued] are -1 or valid order numbers;
    while playing there is a current song; while not playing nothing is
    queued; the player only has a next song if one is queued. *)
Record w_inv (w : world) (its : list queue_item) (ord : list nat) : Prop := {
  inv_queue : q_inv (w_queue w) its ord;
  inv_current : -1 <= w_current w < Z.of_nat (length its);
  inv_playing : w_playing w = true -> 0 <= w_current w;
  inv_queued : -1 <= w_queued w < Z.of_nat (length its);
  inv_stopped : w_playing w = false -> w_queued w = -1;
  inv_player : player_ok (w_player w);
  inv_next : w_queued w = -1 -> next_song (w_player w) = None;
}.

(** The state in the middle of an operation, before [queued] is
    recomputed: it may be stale, [prev] remembers the song. *)
Record w_mid (prev : option song) (w : world) (its : list queue_item) (ord : list nat) : Prop := {
  mid_queue : q_inv (w_queue w) its ord;
  mid_current : -1 <= w_current w < Z.of_nat (length its);
  mid_playing : w_playing w = true -> 0 <= w_current w;
  mid_queued : w_playing w = true -> -1 <= w_queued w /\ (w_queued w < 0 <-> prev = None);
  mid_stopped : w_playing w = false -> w_queued w = -1;
  mid_player : player_ok (w_player w);
  mid_next : w_queued w = -1 -> next_song (w_player w) = None;
}.

(** An operation leaves items [its'] and some order, keeps the invariant,
    and [current] stands for the song with identifier [id]. *)
Definition settled (its' : list queue_item) (id : option Z) (playing : bool) (q : queue)
    (w' : world) : Prop :=
  exists ord', w_inv w' its' ord' /\ cursor_id its' ord' (w_current w') = id /\
    w_playing w' = playing /\ q_frame q (w_queue w').

(** ** Cursors *)

Lemma cursor_nat its ord (o : nat) : cursor_id its ord (Z.of_nat o) = order_id its ord o.
Proof. unfold cursor_id. case_Z; [lia|]. by rewrite Nat2Z.id. Qed.

Lemma unversioned_ids its its' :
  unversioned its' = unversioned its -> item_id <$> its' = item_id <$> its.
Proof.
  intros H. assert (forall l, item_id <$> unversioned l = item_id <$> l) as Hid.
  { intros l. unfold unversioned. by rewrite <- list_fmap_compose. }
  by rewrite <- (Hid its), <- H, Hid.
Qed.

Lemma unversioned_length its its' :
  unversioned its' = unversioned its -> length its' = length its.
Proof. intros H%unversioned_ids%(f_equal length). by rewrite !length_fmap in H. Qed.

Lemma order_id_fmap its ord o : order_id its ord o = (p ← ord !! o; (item_id <$> its) !! p).
Proof. unfold order_id. destruct (ord !! o); simpl; [by rewrite list_lookup_fmap|done]. Qed.

Lemma cursor_id_ids its its' ord c :
  item_id <$> its' = item_id <$> its -> cursor_id its' ord c = cursor_id its ord c.
Proof. intros H. unfold cursor_id. by rewrite !order_id_fmap, H. Qed.

(** A valid cursor as a natural number. *)
Lemma cursor_valid (c : Z) (n : nat) :
  0 <= c < Z.of_nat n -> exists o, c = Z.of_nat o /\ (o < n)%nat.
Proof. intros H. exists (Z.to_nat c). lia. Qed.

Lemma w_inv_mid w its ord prev :
  w_inv w its ord -> playlist_get_queued_song w = Ok prev -> w_mid prev w its ord.
Proof.
  intros [Hq Hc Hp Hqd Hs Hpl Hn] Hprev. split; try done. intros Hplay. split; [lia|].
  unfold playlist_get_queued_song in Hprev. rewrite Hplay in Hprev. simpl in Hprev.
  destruct (Z.ltb_spec (w_queued w) 0).
  - injection Hprev as <-. done.
  - apply bind_Ok in Hprev as (s & _ & [= <-]). split; [lia|done].
Qed.

Lemma playlist_get_queued_song_ok w its ord :
  w_inv w its ord -> exists prev, playlist_get_queued_song w = Ok prev.
Proof.
  intros Hinv. unfold playlist_get_queued_song.
  destruct (w_playing w); [|by eexists]. simpl.
  destruct (Z.ltb_spec (w_queued w) 0); [by eexists|].
  pose proof (inv_rep _ _ _ (inv_queue _ _ _ Hinv)) as Hrep.
  pose proof (rep_length_pos _ _ _ Hrep).
  destruct (cursor_valid (w_queued w) (length its)) as (o & -> & Ho).
  { split; [lia|]. apply (inv_queued _ _ _ Hinv). }
  rewrite u32_small by lia.
  destruct (rep_ord_is_Some _ _ _ Hrep o Ho) as [p Hp].
  destruct (lookup_lt_is_Some_2 its p) as [it Hit]; [by eapply rep_ord_lt|].
  rewrite (queue_get_order_ok _ _ _ Hrep _ _ _ Hp Hit). by eexists.
Qed.

(** ** The next song *)

(** The order number after [o], and -1 at the end: the contract of
    [queue_next_order()]. *)
Definition next_order_spec (repeat single consume : bool) (len o : Z) : Z :=
  if single && repeat && negb consume then o
  else if o + 1 <? len then o + 1
  else if repeat && ((0 <? o) || negb consume) then 0
  else -1.

Lemma queue_next_order_ok q its ord (o : nat) :
  q_rep q its ord -> (o < length its)%nat ->
  queue_next_order q (Z.of_nat o) =
  Ok (next_order_spec (q_repeat q) (q_single q) (q_consume q) (Z.of_nat (length its)) (Z.of_nat o)).
Proof.
  intros Hrep Ho. pose proof (rep_length_pos _ _ _ Hrep).
  unfold queue_next_order, next_order_spec. rewrite (rep_lt_length _ _ _ Hrep) by done.
  cbn [mbind res_bind assert]. rewrite (rep_len _ _ _ Hrep).
  rewrite u32_small by lia. by repeat case_match.
Qed.

Lemma next_order_spec_range r s c len o :
  0 <= o < len -> -1 <= next_order_spec r s c len o < len.
Proof. intros. unfold next_order_spec. repeat case_match; case_Z; lia. Qed.

Lemma next_order_spec_zero r s c len o :
  0 <= o -> next_order_spec r s c len o = 0 -> r = true.
Proof.
  unfold next_order_spec. destruct r; [done|]. rewrite andb_false_r. simpl. case_Z; lia.
Qed.

(** Consume mode never plays the same song again. *)
Lemma next_order_spec_consume r s len o :
  0 <= o < len -> next_order_spec r s true len o <> o.
Proof.
  unfold next_order_spec. rewrite andb_false_r. intros H. case_Z; try lia.
  - destruct r; simpl; lia.
  - rewrite orb_false_r. destruct r; simpl; lia.
Qed.

(** ** Reshuffling *)

Lemma playlist_reshuffle_ok w its ord (c : nat) :
  q_inv (w_queue w) its ord -> q_random (w_queue w) = true ->
  w_current w = Z.of_nat c -> (c < length its)%nat ->
  exists q' ord' c', playlist_reshuffle w = Ok (set_current (Z.of_nat c') (set_queue q' w)) /\
    q_inv q' its ord' /\ q_frame (w_queue w) q' /\ q_version q' = q_version (w_queue w) /\
    ord' !! c' = ord !! c /\ (c' < length its)%nat.
Proof.
  intros Hinv Hrand Hc Hlt. pose proof (inv_rep _ _ _ Hinv) as Hrep.
  pose proof (rep_length_pos _ _ _ Hrep). unfold playlist_reshuffle. rewrite Hc, u32_small by lia.
  destruct (rep_ord_is_Some _ _ _ Hrep c Hlt) as [p Hp].
  rewrite (queue_order_to_position_ok _ _ _ Hrep _ _ Hp). cbn [mbind res_bind].
  destruct (q_inv_shuffle_order _ _ _ Hinv Hrand) as (q' & ord' & -> & Hinv' & Hf & Hv & _).
  cbn [mbind res_bind]. pose proof (inv_rep _ _ _ Hinv') as Hrep'.
  destruct (rep_ord_find _ _ _ Hrep' p) as [c' Hc'].
  { by apply (rep_ord_lt _ _ _ Hrep c). }
  rewrite (queue_position_to_order_ok _ _ _ Hrep' _ _ Hc'). cbn [mbind res_bind].
  pose proof (lookup_lt_Some _ _ _ Hc') as Hlt'. rewrite (rep_length_ord _ _ _ Hrep') in Hlt'.
  exists q', ord', c'. rewrite i32_small by lia. split_and!; try done. congruence.
Qed.

Lemma order_id_lookup its ord ord' (c c' : nat) :
  ord' !! c' = ord !! c -> order_id its ord' c' = order_id its ord c.
Proof. unfold order_id. by intros ->. Qed.

(** ** Queueing the next song *)

Lemma with_player_safe h (f : player -> res player) (w : world) (P : player -> Prop) Q :
  safe h (f (w_player w)) P -> (forall p, P p -> Q (set_player p w)) ->
  safe h (with_player f w) Q.
Proof. intros Hf HQ. unfold with_player. eapply safe_bind_mono; [done|]. intros p Hp. simpl. auto. Qed.

Lemma weaken_hang {A} p (m : res A) Q : safe (may_hang p) m Q -> safe thread_may_hang m Q.
Proof. apply safe_weaken, may_hang_thread. Qed.

(** Queueing the song with a valid order number when none is queued. *)
Lemma playlist_queue_song_order_ok w its ord (o : nat) :
  q_inv (w_queue w) its ord -> (o < length its)%nat -> player_ok (w_player w) ->
  next_song (w_player w) = None ->
  safe thread_may_hang (playlist_queue_song_order (Z.of_nat o) w) (fun w' =>
    exists p, w' = set_player p (set_queued (Z.of_nat o) w) /\ player_ok p).
Proof.
  intros Hinv Ho Hpl Hn. pose proof (inv_rep _ _ _ Hinv) as Hrep.
  pose proof (rep_length_pos _ _ _ Hrep). unfold playlist_queue_song_order, queue_valid_order.
  rewrite (rep_lt_length _ _ _ Hrep) by done. cbn [mbind res_bind assert].
  destruct (rep_ord_is_Some _ _ _ Hrep o Ho) as [p Hp].
  destruct (lookup_lt_is_Some_2 its p) as [it Hit]; [by eapply rep_ord_lt|].
  change (w_queue (set_queued _ w)) with (w_queue w).
  rewrite (queue_get_order_ok _ _ _ Hrep _ _ _ Hp Hit). cbn [mbind res_bind].
  rewrite i32_small by lia. eapply with_player_safe.
  - eapply weaken_hang, pc_enqueue_song_ok; done.
  - intros p' [Hok _]. eauto.
Qed.

(** The two last steps of [playlist_update_queued_song()]: cancel the old
    song, queue the new one. *)
Definition requeue (prev next_song : option song) (next_order : Z) (w : world) : res world :=
  w ← (if negb (bool_decide (prev = None)) && negb (song_ptr_eqb next_song prev) then
         w ← with_player pc_cancel w;
         Ok (set_queued (-1) w)
       else Ok w);
  if 0 <=? next_order then
    if negb (song_ptr_eqb next_song prev)
    then playlist_queue_song_order (u32 next_order) w
    else Ok (set_queued next_order w)
  else Ok w.

Lemma requeue_ok prev next n w its ord :
  w_mid prev w its ord -> w_playing w = true ->
  -1 <= n < Z.of_nat (length its) -> (n < 0 -> next = None) -> (0 <= n -> next <> None) ->
  safe thread_may_hang (requeue prev next n w) (fun w' => w_inv w' its ord /\
    w_current w' = w_current w /\ w_playing w' = true /\ w_queue w' = w_queue w).
Proof.
  intros Hmid Hplay Hn Hnone Hsome. pose proof Hmid as [Hq Hc Hp Hqd Hs Hpl Hnext].
  pose proof (rep_length_pos _ _ _ (inv_rep _ _ _ Hq)). destruct (Hqd Hplay) as [Hqd1 Hqd2].
  unfold requeue. eapply (safe_bind_mono _ _ _ (fun w1 => w_queue w1 = w_queue w /\
    w_playing w1 = true /\ w_current w1 = w_current w /\ player_ok (w_player w1) /\
    (song_ptr_eqb next prev = false -> next_song (w_player w1) = None /\ w_queued w1 = -1) /\
    (song_ptr_eqb next prev = true -> w1 = w))).
  - destruct (bool_decide_reflect (prev = None)) as [->|Hprev]; simpl.
    + split_and!; try done. intros _.
      assert (w_queued w = -1) as Hqm by (apply proj2 in Hqd2; specialize (Hqd2 eq_refl); lia).
      auto.
    + destruct (song_ptr_eqb next prev) eqn:He; simpl; [by split_and!|].
      apply safe_bind. eapply with_player_safe; [eapply weaken_hang, pc_cancel_ok; done|].
      intros p [Hok Hnn]. simpl. split_and!; done.
  - intros w1 (Hq1 & Hplay1 & Hc1 & Hok1 & Hdiff & Hsame).
    destruct (Z.leb_spec 0 n) as [Hn0|Hn0].
    + destruct (cursor_valid n (length its)) as (o & -> & Ho); [lia|].
      destruct (song_ptr_eqb next prev) eqn:He; simpl.
      * rewrite (Hsame eq_refl). split; [|done]. split; wsimpl; (done || lia || congruence).
      * destruct (Hdiff eq_refl) as [Hnn _]. rewrite u32_small by lia.
        eapply safe_mono; [apply (playlist_queue_song_order_ok w1 its ord); try done; congruence|].
        intros w2 (p & -> & Hok). wsimpl. split_and!; try done.
        split; wsimpl; try congruence; try lia. intros _. rewrite Hc1. auto.
    + assert (next = None) as -> by (apply Hnone; lia).
      destruct (song_ptr_eqb None prev) eqn:He.
      * rewrite (Hsame eq_refl). split; [|done].
        assert (prev = None) as -> by (by destruct prev).
        assert (w_queued w = -1) by (apply proj2 in Hqd2; specialize (Hqd2 eq_refl); lia).
        split; try done; lia.
      * destruct (Hdiff eq_refl) as [Hnn Hqm]. split; [|done].
        split; rewrite ?Hq1, ?Hc1, ?Hplay1, ?Hqm; fin.
Qed.

(** Looking up the next song and queueing it, after the order may have been
    shuffled. *)
Lemma update_rest_ok prev n q w its ord ord0 (c c0 : nat) :
  w_mid prev w its ord -> w_playing w = true -> -1 <= n < Z.of_nat (length its) ->
  w_current w = Z.of_nat c -> ord !! c = ord0 !! c0 -> q_frame q (w_queue w) ->
  safe thread_may_hang (next_song ← (if 0 <=? n then
      s ← queue_get_order (w_queue w) (u32 n); Ok (Some s) else Ok None);
    requeue prev next_song n w)
  (settled its (cursor_id its ord0 (Z.of_nat c0)) true q).
Proof.
  intros Hmid Hplay Hn Hc Hcur Hf.
  pose proof (inv_rep _ _ _ (mid_queue _ _ _ _ Hmid)) as Hrep.
  pose proof (rep_length_pos _ _ _ Hrep).
  assert (exists next, (if 0 <=? n then s ← queue_get_order (w_queue w) (u32 n); Ok (Some s)
    else Ok None) = Ok next /\ (n < 0 -> next = None) /\ (0 <= n -> next <> None))
    as (next & -> & Hnone & Hsome).
  { destruct (Z.leb_spec 0 n); [|exists None; split_and!; (done || lia)].
    destruct (cursor_valid n (length its)) as (o & -> & Ho); [lia|]. rewrite u32_small by lia.
    destruct (rep_ord_is_Some _ _ _ Hrep o Ho) as [p Hp'].
    destruct (lookup_lt_is_Some_2 its p) as [it Hit]; [by eapply rep_ord_lt|].
    rewrite (queue_get_order_ok _ _ _ Hrep _ _ _ Hp' Hit). eexists.
    split_and!; [done|lia|done]. }
  cbn [mbind res_bind]. eapply safe_mono; [by apply (requeue_ok _ _ _ _ its ord)|].
  intros w2 (Hinv2 & Hc2 & Hplay2 & Hq2). exists ord. split_and!; [done| |done|congruence].
  rewrite Hc2, Hc, !cursor_nat. by apply order_id_lookup.
Qed.

(** [playlist_update_queued_song()] recomputes the queued song.  It may
    shuffle the order, but [current] keeps standing for the same song. *)
Lemma playlist_update_queued_song_ok prev w its ord :
  w_mid prev w its ord ->
  safe thread_may_hang (playlist_update_queued_song prev w)
    (settled its (cursor_id its ord (w_current w)) (w_playing w) (w_queue w)).
Proof.
  intros Hmid. pose proof Hmid as [Hq Hc Hp Hqd Hs Hpl Hnext].
  pose proof (inv_rep _ _ _ Hq) as Hrep. pose proof (rep_length_pos _ _ _ Hrep).
  unfold playlist_update_queued_song. destruct (w_playing w) eqn:Hplay; simpl.
  2:{ exists ord. split_and!; try done. rewrite Hs in * by done. split; rewrite ?Hs; fin. }
  destruct (Hqd eq_refl) as [Hqd1 Hqd2].
  destruct (cursor_valid (w_current w) (length its)) as (c & Hcc & Hclt); [split; [auto|lia]|].
  replace (queue_is_empty (w_queue w)) with false.
  2:{ symmetry. apply Z.eqb_neq. rewrite (rep_len _ _ _ Hrep). lia. }
  replace (Bool.eqb (w_queued w <? 0) (bool_decide (prev = None))) with true.
  2:{ symmetry. apply eqb_true_iff, eq_true_iff_eq. by rewrite Z.ltb_lt, bool_decide_eq_true. }
  cbn [mbind res_bind assert negb]. rewrite Hcc, u32_small by lia.
  rewrite (proj2 (Z.leb_le 0 (Z.of_nat c))) by lia.
  rewrite (queue_next_order_ok _ _ _ _ Hrep Hclt). cbn [mbind res_bind].
  set (n := next_order_spec _ _ _ _ _).
  assert (-1 <= n < Z.of_nat (length its)) as Hn by (apply next_order_spec_range; lia).
  destruct ((n =? 0) && q_random (w_queue w) && negb (q_single (w_queue w))) eqn:Hsh.
  - apply andb_true_iff in Hsh as [[_ Hr]%andb_true_iff _].
    destruct (playlist_reshuffle_ok w its ord c Hq Hr Hcc Hclt)
      as (q' & ord' & c' & -> & Hq' & Hf & _ & Hcur & Hc').
    cbn [mbind res_bind]. apply (update_rest_ok _ n _ _ its ord' ord c' c); try done.
    wsimpl. split; wsimpl; fin.
  - cbn [mbind res_bind]. by apply (update_rest_ok _ n _ _ its ord ord c c).
Qed.

End with_player.

(** * Playlist operations keep the invariant: control and options

    [playlist_play_order()], [playlist_stop()], [playlist_play()],
    [playlist_previous()], seeking, the options and the versions. *)

Section with_player.
Context {G : GLib} {HG : GLibSpec G} {T : PlayerThread} {HT : PlayerThreadSpec T}.

(** The items are [its] up to version numbers. *)
Definition edited (its : list queue_item) (id : option Z) (playing : bool) (q : queue)
    (w' : world) : Prop :=
  exists its', unversioned its' = unversioned its /\ settled its' id playing q w'.

(** The invariant for some items and some order. *)
Definition invariant (w : world) : Prop := exists its ord, w_inv w its ord.

Lemma edited_invariant its id playing q w : edited its id playing q w -> invariant w.
Proof. intros (its' & _ & ord' & Hinv & _). by exists its', ord'. Qed.

Lemma settled_edited its id playing q w : settled its id playing q w -> edited its id playing q w.
Proof. intros H. by exists its. Qed.

Lemma settled_frame its id playing q q' w :
  q_frame q' q -> settled its id playing q w -> settled its id playing q' w.
Proof. intros Hf (ord & ? & ? & ? & ?). exists ord. split_and!; try done. by etrans. Qed.

Lemma edited_frame its id playing q q' w :
  q_frame q' q -> edited its id playing q w -> edited its id playing q' w.
Proof. intros Hf (its' & ? & ?). exists its'. eauto using settled_frame. Qed.

Lemma w_inv_idle_add flags w its ord : w_inv w its ord -> w_inv (w_idle_add flags w) its ord.
Proof. intros []. by split. Qed.

Lemma settled_idle_add flags its id playing q w :
  settled its id playing q w -> settled its id playing q (w_idle_add flags w).
Proof. intros (ord & ? & ? & ? & ?). exists ord. split_and!; eauto using w_inv_idle_add. Qed.

(** ** Versions *)

Lemma playlist_increment_version_ok prev w its ord :
  w_mid prev w its ord ->
  exists w' its', playlist_increment_version w = Ok w' /\ w_mid prev w' its' ord /\
    unversioned its' = unversioned its /\ w_current w' = w_current w /\
    w_playing w' = w_playing w /\ q_frame (w_queue w) (w_queue w').
Proof.
  intros [Hq ? ? ? ? ? ?]. unfold playlist_increment_version.
  destruct (q_inv_increment_version _ _ _ Hq) as (q' & its' & -> & Hq' & Hf & Hu).
  pose proof (unversioned_length _ _ Hu) as Hl. cbn [mbind res_bind].
  eexists _, its'. split_and!; try done. split; rewrite ?Hl; done.
Qed.

(** The end of every edit: count up the version, then choose the queued
    song again. *)
Lemma finish_edit_ok prev w its ord :
  w_mid prev w its ord ->
  safe thread_may_hang (w ← playlist_increment_version w; playlist_update_queued_song prev w)
    (edited its (cursor_id its ord (w_current w)) (w_playing w) (w_queue w)).
Proof.
  intros Hmid. destruct (playlist_increment_version_ok _ _ _ _ Hmid)
    as (w1 & its1 & -> & Hmid1 & Hu & Hc & Hp & Hf). cbn [mbind res_bind].
  eapply safe_mono; [by apply playlist_update_queued_song_ok|]. intros w2 H2.
  exists its1. split; [done|]. rewrite Hc, Hp in H2.
  rewrite (cursor_id_ids its its1) in H2 by (by apply unversioned_ids).
  by eapply settled_frame.
Qed.

Lemma finish_edit_ret {B} prev w its ord (b : B) :
  w_mid prev w its ord ->
  safe thread_may_hang (w ← playlist_increment_version w;
    w ← playlist_update_queued_song prev w; Ok (b, w))
    (fun '(b', w') => b' = b /\
       edited its (cursor_id its ord (w_current w)) (w_playing w) (w_queue w) w').
Proof.
  intros Hmid. pose proof (finish_edit_ok _ _ _ _ Hmid) as Hfin.
  destruct (playlist_increment_version w) as [w1|[]]; simpl in *; try done.
  eapply safe_bind_mono; [done|]. intros w2 H2. done.
Qed.

Lemma playlist_tag_changed_ok w its ord :
  w_inv w its ord ->
  wp (playlist_tag_changed w)
    (edited its (cursor_id its ord (w_current w)) (w_playing w) (w_queue w)).
Proof.
  intros Hinv. pose proof Hinv as [Hq Hc Hp ? ? ? ?].
  pose proof (rep_length_pos _ _ _ (inv_rep _ _ _ Hq)).
  unfold playlist_tag_changed. destruct (w_playing w) eqn:Hplay; simpl.
  2:{ exists its. split; [done|]. exists ord. by split_and!. }
  destruct (cursor_valid (w_current w) (length its)) as (c & Hcc & Hclt); [split; [auto|lia]|].
  rewrite (proj2 (Z.leb_le 0 (w_current w))) by lia. cbn [mbind res_bind assert].
  rewrite Hcc, u32_small by lia.
  destruct (q_inv_modify _ _ _ c Hq Hclt) as (q' & its' & -> & Hq' & Hf & Hu).
  pose proof (unversioned_length _ _ Hu) as Hl. simpl.
  exists its'. split; [done|]. exists ord. split_and!; try done.
  - split; wsimpl; rewrite ?Hl, ?Hplay; fin.
  - wsimpl. rewrite <- Hcc. by apply cursor_id_ids, unversioned_ids.
Qed.

Lemma playlist_increment_version_all_ok w its ord :
  w_inv w its ord ->
  wp (playlist_increment_version_all w)
    (edited its (cursor_id its ord (w_current w)) (w_playing w) (w_queue w)).
Proof.
  intros Hinv. pose proof Hinv as [Hq ? ? ? ? ? ?]. unfold playlist_increment_version_all.
  destruct (q_inv_modify_all _ _ _ Hq) as (q' & its' & -> & Hq' & Hf & Hu).
  pose proof (unversioned_length _ _ Hu) as Hl. simpl.
  exists its'. split; [done|]. exists ord. split_and!; try done.
  - split; rewrite ?Hl; done.
  - by apply cursor_id_ids, unversioned_ids.
Qed.

(** ** Starting a song *)

(** After starting order number [o] the invariant holds and nothing is
    queued yet. *)
Definition started (o : nat) (its : list queue_item) (ord : list nat) (q : queue) (w' : world)
  : Prop :=
  w_inv w' its ord /\ w_current w' = Z.of_nat o /\ w_playing w' = true /\ w_queue w' = q /\
  w_queued w' = -1.

Lemma playlist_play_order_ok w its ord (o : nat) :
  q_inv (w_queue w) its ord -> (o < length its)%nat -> player_ok (w_player w) ->
  safe (may_hang (w_player w)) (playlist_play_order (Z.of_nat o) w)
    (started o its ord (w_queue w)).
Proof.
  intros Hq Ho Hpl. pose proof (inv_rep _ _ _ Hq) as Hrep. pose proof (rep_length_pos _ _ _ Hrep).
  unfold playlist_play_order. rewrite u32_small by lia.
  destruct (rep_ord_is_Some _ _ _ Hrep o Ho) as [p Hp].
  destruct (lookup_lt_is_Some_2 its p) as [it Hit]; [by eapply rep_ord_lt|].
  change (w_queue (set_queued _ (set_playing true w))) with (w_queue w).
  rewrite (queue_get_order_ok _ _ _ Hrep _ _ _ Hp Hit). cbn [mbind res_bind].
  eapply safe_bind. eapply with_player_safe; [by apply pc_play_ok|].
  intros p' [Hok Hn]. simpl. wsimpl. split_and!; try done. split; wsimpl; fin.
Qed.

Lemma started_invariant o its ord q w : started o its ord q w -> invariant w.
Proof. intros [H _]. by exists its, ord. Qed.

(** ** Stopping *)

(** The precondition does not ask for a current song: deleting the last
    song stops the player with [current = -1]. *)
Record stoppable (w : world) (its : list queue_item) (ord : list nat) : Prop := {
  stop_queue : q_inv (w_queue w) its ord;
  stop_current : -1 <= w_current w < Z.of_nat (length its);
  stop_random : w_playing w = true -> q_random (w_queue w) = true -> 0 <= w_current w;
  stop_stopped : w_playing w = false -> w_queued w = -1 /\ next_song (w_player w) = None;
  stop_player : player_ok (w_player w);
}.

Lemma w_inv_stoppable w its ord : w_inv w its ord -> stoppable w its ord.
Proof. intros [? ? ? ? Hs ? ?]. split; auto. Qed.

(** [playlist_stop()] stops playback; [current] keeps its song, although
    random mode shuffles the order. *)
Lemma playlist_stop_ok w its ord :
  stoppable w its ord ->
  safe (may_hang (w_player w)) (playlist_stop w) (fun w' =>
    settled its (cursor_id its ord (w_current w)) false (w_queue w) w' /\
    (q_random (w_queue w) = false -> w_queue w' = w_queue w /\ w_current w' = w_current w) /\
    q_version (w_queue w') = q_version (w_queue w)).
Proof.
  intros [Hq Hc Hr Hs Hpl]. unfold playlist_stop. destruct (w_playing w) eqn:Hplay; simpl.
  2:{ destruct Hs as [Hs1 Hs2]; [done|]. split; [|done]. exists ord. split_and!; try done.
      split; rewrite ?Hs1, ?Hplay; fin. }
  apply safe_bind. eapply with_player_safe; [by apply pc_stop_ok|]. intros p [Hok Hn].
  change (q_random (w_queue _)) with (q_random (w_queue w)).
  set (w1 := set_playing false (set_queued (-1) (set_player p w))).
  destruct (q_random (w_queue w)) eqn:Hrand.
  - destruct (cursor_valid (w_current w) (length its)) as (c & Hcc & Hclt); [split; [auto|lia]|].
    destruct (playlist_reshuffle_ok w1 its ord c)
      as (q' & ord' & c' & -> & Hq' & Hf & Hv & Hcur & Hc'); try done.
    simpl. split_and!; try done. exists ord'. wsimpl. split_and!; try done.
    + split; wsimpl; fin.
    + rewrite Hcc, !cursor_nat. by apply order_id_lookup.
  - simpl. split_and!; try done. exists ord. split_and!; try done. split; wsimpl; fin.
Qed.

(** ** Play *)

Lemma set_modes_inv (q : queue) its ord r s c :
  q_inv q its ord -> q_inv (set_modes r s c (q_random q) q) its ord.
Proof. intros [[] ? ? ?]. split; [by split|done..]. Qed.

(** The end of [playlist_play()], with the order number [i] of the song (in
    random mode [i] is first exchanged with [current]). *)
Lemma play_start_ok w its ord (i : nat) a song :
  w_inv w its ord -> (i < length its)%nat ->
  (song < 0 -> q_random (w_queue w) = true -> w_playing w = false) ->
  (0 <= song -> q_random (w_queue w) = true -> ord !! i = Some (Z.to_nat song)) ->
  (0 <= song -> (Z.to_nat song < length its)%nat) ->
  (song < 0 \/ q_random (w_queue w) = false -> a = Z.of_nat i) ->
  safe (may_hang (w_player w)) (playlist_play_start song a w)
  (fun '(r, w') => r = MPD_SUCCESS /\ exists o ord' q', started o its ord' q' w' /\
     q_frame (w_queue w) q' /\ ord' !! o = ord !! i).
Proof.
  intros Hinv Hi Hneg Hpos Hplt Ha. pose proof Hinv as [Hq Hc Hp ? ? Hpl ?].
  pose proof (inv_rep _ _ _ Hq) as Hrep. pose proof (rep_length_pos _ _ _ Hrep).
  unfold playlist_play_start. destruct (q_random (w_queue w)) eqn:Hrand.
  - replace (if 0 <=? song then _ else _) with (Ok (Z.of_nat i)).
    2:{ destruct (Z.leb_spec 0 song); [|by rewrite Ha by auto]. rewrite <- (Z2Nat.id song) by lia.
        by rewrite (queue_position_to_order_ok _ _ _ Hrep i) by auto. }
    cbn [mbind res_bind].
    set (w1 := if negb (w_playing w) then set_current 0 w else w).
    assert (exists c, w_current w1 = Z.of_nat c /\ (c < length its)%nat /\
      w_queue w1 = w_queue w /\ w_player w1 = w_player w) as (c & Hcc & Hclt & Hq1 & Hp1).
    { unfold w1. destruct (w_playing w); simpl.
      - destruct (cursor_valid (w_current w) (length its)) as (c & ? & ?); [split; [auto|lia]|].
        by exists c.
      - exists 0%nat. wsimpl. split_and!; try done. lia. }
    rewrite Hcc, Hq1, u32_small by lia.
    destruct (q_inv_swap_order _ _ _ i c Hq Hrand) as (q' & -> & Hq' & Hf & _); [done..|].
    cbn [mbind res_bind]. rewrite i32_small by lia. eapply safe_bind_mono.
    + rewrite <- Hp1. eapply (playlist_play_order_ok (set_error_count 0
        (set_stop_on_error false (set_queue q' w1))) its _ c); [done|done|]. simpl. by rewrite Hp1.
    + intros w2 H2. simpl. split; [done|]. exists c, (swap_list i c ord), q'. split_and!; try done.
      destruct (rep_ord_is_Some _ _ _ Hrep i Hi) as [x Hx].
      destruct (rep_ord_is_Some _ _ _ Hrep c Hclt) as [y Hy].
      rewrite (swap_list_lookup _ _ _ _ _ _ Hx Hy). by rewrite decide_True.
  - rewrite Ha by auto. cbn [mbind res_bind]. rewrite i32_small by lia. eapply safe_bind_mono.
    + by eapply (playlist_play_order_ok (set_error_count 0 (set_stop_on_error false w)) its ord i).
    + intros w2 H2. simpl. split; [done|]. by exists i, ord, (w_queue w).
Qed.

Lemma w_inv_clear_error w its ord :
  w_inv w its ord -> w_inv (set_player (pc_clear_error (w_player w)) w) its ord.
Proof. intros []. split; try done. by apply pc_clear_error_frame. Qed.

(** What [play] guarantees: the invariant, and if it started a song, it is
    the one that was asked for. *)
Definition played (song : Z) (its : list queue_item) (w : world) '((r, w') : mpd_err * world)
  : Prop :=
  exists ord', w_inv w' its ord' /\ q_frame (w_queue w) (w_queue w') /\
    (r = PLAYLIST_BAD_RANGE <-> song <> -1 /\ Z.of_nat (length its) <= u32 song) /\
    (r = MPD_SUCCESS -> 0 <= song -> w_playing w' = true /\ 0 <= w_current w' /\
       ord' !! Z.to_nat (w_current w') = Some (Z.to_nat song)).

Lemma started_played o its ord' q' w song w' :
  started o its ord' q' w' -> q_frame (w_queue w) q' ->
  (0 <= song -> ord' !! o = Some (Z.to_nat song)) ->
  song = -1 \/ u32 song < Z.of_nat (length its) -> played song its w (MPD_SUCCESS, w').
Proof.
  intros (Hinv & Hc & Hp & Hq & _) Hf Hs Hr. exists ord'. split_and!; try done.
  - by rewrite Hq.
  - split; [done|]. intros [??]. destruct Hr; lia.
  - intros _ H0. split_and!; [done|lia|]. rewrite Hc, Nat2Z.id. auto.
Qed.

Lemma playlist_play_ok w its ord song :
  w_inv w its ord -> - 2 ^ 31 <= song < 2 ^ 31 ->
  safe (may_hang (w_player w)) (playlist_play song w) (played song its w).
Proof.
  intros Hinv0 Hsong. pose proof (w_inv_clear_error _ _ _ Hinv0) as Hinv. unfold playlist_play.
  change (w_queue w) with (w_queue (set_player (pc_clear_error (w_player w)) w)).
  change (may_hang (w_player w)) with
    (may_hang (w_player (set_player (pc_clear_error (w_player w)) w))).
  change (played song its w) with (played song its (set_player (pc_clear_error (w_player w)) w)).
  clear Hinv0. generalize dependent (set_player (pc_clear_error (w_player w)) w).
  clear w. intros w Hinv. pose proof Hinv as [Hq Hc Hp ? ? Hpl ?].
  pose proof (inv_rep _ _ _ Hq) as Hrep. pose proof (rep_length_pos _ _ _ Hrep).
  unfold queue_is_empty, queue_valid_position. rewrite (rep_len _ _ _ Hrep).
  destruct (Z.eqb_spec song (-1)) as [->|Hne].
  - destruct (Z.eqb_spec (Z.of_nat (length its)) 0).
    { exists ord. split_and!; try done. split; [done|]. intros [??]. done. }
    destruct (w_playing w) eqn:Hplay.
    + apply safe_bind. eapply with_player_safe; [by apply pc_set_pause_ok|].
      intros p [Hok Hn]. simpl. exists ord. split_and!; try done; [|split; [done|by intros []]].
      split; wsimpl; try fin. intros. destruct Hn as [->|]; fin.
    + set (i := if 0 <=? w_current w then Z.to_nat (w_current w) else 0%nat).
      assert (i < length its)%nat as Hi by (subst i; case_match; lia).
      replace (u32 (if 0 <=? w_current w then w_current w else 0)) with (Z.of_nat i)
        by (subst i; case_Z; rewrite ?u32_small; lia).
      eapply safe_mono; [apply (play_start_ok w its ord i _ (-1)); fin|].
      intros [r w'] (-> & o & ord' & q' & Hst & Hf & Hcur).
      eapply started_played; [done..|lia|by left].
  - destruct (Z.ltb_spec (u32 song) (Z.of_nat (length its))) as [Hlt|Hge]; simpl.
    2:{ exists ord. by split_and!. }
    assert (0 <= song) as Hpos.
    { destruct (Z.lt_ge_cases song 0); [|done]. rewrite (u32_wrap song (-1)) in Hlt; lia. }
    rewrite u32_small in * by lia.
    assert (exists i, (i < length its)%nat /\ ord !! i = Some (Z.to_nat song) /\
      (q_random (w_queue w) = false -> i = Z.to_nat song)) as (i & Hi & Hio & Hii).
    { destruct (rep_ord_find _ _ _ Hrep (Z.to_nat song)) as [i Hi]; [lia|]. exists i.
      pose proof (lookup_lt_Some _ _ _ Hi) as Hlt'. rewrite (rep_length_ord _ _ _ Hrep) in Hlt'.
      split_and!; try done. intros Hr. rewrite (inv_ident _ _ _ Hq Hr) in Hi.
      apply lookup_seq in Hi as [-> _]. done. }
    eapply safe_mono.
    + apply (play_start_ok w its ord i _ song); try fin.
      intros [|Hr]; [lia|]. rewrite (Hii Hr). lia.
    + intros [r w'] (-> & o & ord' & q' & Hst & Hf & Hcur).
      eapply started_played; [done..|intros _; congruence|right; solve_u32].
Qed.

End with_player.

(** * Playlist operations keep the invariant: previous, seeking, options *)

Section with_player.
Context {G : GLib} {HG : GLibSpec G} {T : PlayerThread} {HT : PlayerThreadSpec T}.

Lemma settled_same w its ord :
  w_inv w its ord -> settled its (cursor_id its ord (w_current w)) (w_playing w) (w_queue w) w.
Proof. intros Hinv. exists ord. by split_and!. Qed.

(** ** [playlist_previous()] *)

(** The order number [playlist_previous()] starts. *)
Definition previous_order (repeat : bool) (len c : Z) : Z :=
  if 0 <? c then c - 1 else if repeat then len - 1 else c.

Lemma playlist_previous_ok w its ord :
  w_inv w its ord -> w_playing w = true ->
  safe (may_hang (w_player w)) (playlist_previous w) (fun w' => exists o, started o its ord (w_queue w) w' /\
    Z.of_nat o = previous_order (q_repeat (w_queue w)) (Z.of_nat (length its)) (w_current w)).
Proof.
  intros Hinv Hplay. pose proof Hinv as [Hq Hc Hp ? ? Hpl ?]. specialize (Hp Hplay).
  pose proof (inv_rep _ _ _ Hq) as Hrep. pose proof (rep_length_pos _ _ _ Hrep).
  unfold playlist_previous, previous_order. rewrite Hplay. simpl.
  rewrite (queue_length_ok _ _ _ Hrep). cbn [mbind res_bind].
  rewrite (proj2 (Z.ltb_lt 0 (Z.of_nat (length its)))) by lia. cbn [mbind res_bind assert].
  assert (forall z, 0 <= z < Z.of_nat (length its) ->
    safe (may_hang (w_player w)) (playlist_play_order z w) (fun w' => exists o,
      started o its ord (w_queue w) w' /\ Z.of_nat o = z)) as Hstart.
  { intros z (o & -> & Ho)%cursor_valid.
    eapply safe_mono; [by apply playlist_play_order_ok|]. eauto. }
  destruct (Z.ltb_spec 0 (w_current w)); [apply Hstart; lia|].
  destruct (q_repeat (w_queue w)); [|apply Hstart; lia].
  rewrite u32_small, i32_small by lia. apply Hstart. lia.
Qed.

(** ** Seeking *)

(** A seek makes the song at the position the current one, and playback is
    on. *)
Lemma playlist_seek_song_ok w its ord (song : nat) t :
  w_inv w its ord -> (song < length its)%nat -> seek_fits (f64_of_f32 t) = true ->
  safe thread_may_hang (playlist_seek_song (Z.of_nat song) t w) (fun '(r, w') =>
    r = MPD_SUCCESS /\ settled its (item_id <$> its !! song) true (w_queue w) w').
Proof.
  intros Hinv Hs Hfit. pose proof Hinv as [Hq Hc Hp ? ? Hpl ?].
  pose proof (inv_rep _ _ _ Hq) as Hrep. pose proof (rep_length_pos _ _ _ Hrep).
  unfold playlist_seek_song, queue_valid_position. rewrite (rep_lt_length _ _ _ Hrep) by done.
  cbn [negb]. destruct (playlist_get_queued_song_ok w its ord Hinv) as [queued ->].
  cbn [mbind res_bind]. destruct (rep_ord_find _ _ _ Hrep song Hs) as [i Hi].
  pose proof (lookup_lt_Some _ _ _ Hi) as Hil. rewrite (rep_length_ord _ _ _ Hrep) in Hil.
  replace (if q_random (w_queue w) then _ else _) with (Ok (Z.of_nat i)).
  2:{ destruct (q_random (w_queue w)) eqn:Hr.
      - by rewrite (queue_position_to_order_ok _ _ _ Hrep i) by done.
      - rewrite (inv_ident _ _ _ Hq Hr) in Hi. apply lookup_seq in Hi as [-> _]. done. }
  cbn [mbind res_bind].
  set (w1 := set_error_count 0 (set_stop_on_error true (set_player _ w))).
  assert (exists queued', (if negb (w_playing w1) || negb (u32 (w_current w1) =? Z.of_nat i)
     then (None, set_current (i32 (Z.of_nat i)) (set_playing true w1)) else (queued, w1))
     = (queued', set_current (Z.of_nat i) (set_playing true w1))) as [queued' ->].
  { destruct (w_playing w1) eqn:Hp1; simpl; [|by rewrite i32_small by lia; eexists].
    destruct (Z.eqb_spec (u32 (w_current w1)) (Z.of_nat i)) as [He|]; simpl;
      [|by rewrite i32_small by lia; eexists].
    exists queued. f_equal. unfold w1 in *. wsimpl. rewrite u32_small in He by (specialize (Hp Hp1); lia).
    destruct w as [[] ?]. simpl in *. subst. done. }
  set (w2 := set_current (Z.of_nat i) (set_playing true w1)).
  destruct (lookup_lt_is_Some_2 its song Hs) as [it Hit].
  change (w_queue w2) with (w_queue w). rewrite (queue_get_order_ok _ _ _ Hrep _ _ _ Hi Hit).
  cbn [mbind res_bind]. eapply safe_bind_mono.
  { eapply weaken_hang, pc_seek_ok; [by apply pc_clear_error_frame|done]. }
  intros [b p] (-> & Hok & Hn). cbn [negb]. eapply safe_bind_mono.
  - apply (playlist_update_queued_song_ok None (set_queued (-1) (set_player p w2)) its ord).
    split; wsimpl; fin.
  - intros w3 H3. simpl. split; [done|]. wsimpl. rewrite cursor_nat in H3.
    unfold order_id in H3. rewrite Hi in H3. simpl in H3. exact H3.
Qed.

(** ** Options *)

Lemma set_option_ok w its ord r s c f :
  w_inv w its ord ->
  (forall p, player_ok p -> player_ok (f p)) -> (forall p, next_song (f p) = next_song p) ->
  let w1 := set_player (f (w_player w))
              (set_queue (set_modes r s c (q_random (w_queue w)) (w_queue w)) w) in
  safe thread_may_hang (queued ← playlist_get_queued_song w1;
    w ← playlist_update_queued_song queued w1; Ok (w_idle_add IDLE_OPTIONS w))
    (settled its (cursor_id its ord (w_current w)) (w_playing w) (w_queue w1)).
Proof.
  intros Hinv Hf1 Hf2 w1. assert (w_inv w1 its ord) as Hinv1.
  { destruct Hinv. split; try done; [by apply set_modes_inv|by apply Hf1|]. simpl. by rewrite Hf2. }
  destruct (playlist_get_queued_song_ok w1 its ord Hinv1) as [queued Hqd]. rewrite Hqd.
  cbn [mbind res_bind]. eapply safe_bind_mono.
  - apply playlist_update_queued_song_ok. by apply w_inv_mid.
  - intros w2 H2. simpl. by apply settled_idle_add.
Qed.

Lemma playlist_set_repeat_ok w its ord b :
  w_inv w its ord ->
  safe thread_may_hang (playlist_set_repeat b w) (fun w' =>
    (exists q, settled its (cursor_id its ord (w_current w)) (w_playing w) q w') /\
    q_repeat (w_queue w') = b).
Proof.
  intros Hinv. unfold playlist_set_repeat. destruct (Bool.eqb b _) eqn:He.
  - apply eqb_prop in He as ->. simpl. eauto using settled_same.
  - eapply safe_mono; [apply (set_option_ok w its ord); [done| |done];
      apply pc_set_border_pause_frame|].
    intros w' Hs. pose proof Hs as (ord' & _ & _ & _ & []). by eauto.
Qed.

Lemma playlist_set_single_ok w its ord b :
  w_inv w its ord ->
  safe thread_may_hang (playlist_set_single b w) (fun w' =>
    (exists q, settled its (cursor_id its ord (w_current w)) (w_playing w) q w') /\
    q_single (w_queue w') = b).
Proof.
  intros Hinv. unfold playlist_set_single. destruct (Bool.eqb b _) eqn:He.
  - apply eqb_prop in He as ->. simpl. eauto using settled_same.
  - eapply safe_mono; [apply (set_option_ok w its ord); [done| |done];
      apply pc_set_border_pause_frame|].
    intros w' Hs. pose proof Hs as (ord' & _ & _ & _ & []). by eauto.
Qed.

Lemma playlist_set_consume_ok w its ord b :
  w_inv w its ord ->
  w_inv (playlist_set_consume b w) its ord /\ q_consume (w_queue (playlist_set_consume b w)) = b.
Proof.
  intros Hinv. unfold playlist_set_consume. destruct (Bool.eqb b _) eqn:He.
  - by apply eqb_prop in He as ->.
  - split; [|done]. destruct Hinv. split; try done. by apply set_modes_inv.
Qed.

(** ** [playlist_set_random()] *)

Lemma set_random_rep (q : queue) its ord r s c b :
  q_rep q its ord -> q_rep (set_modes r s c b q) its ord.
Proof. intros []. by split. Qed.

(** Switching random mode on: the current song moves to the front of the
    new order; without a song being played there is no current song any
    more. *)
Lemma set_random_on_ok w its ord :
  q_inv (w_queue w) its ord -> q_random (w_queue w) = true ->
  -1 <= w_current w < Z.of_nat (length its) -> (w_playing w = true -> 0 <= w_current w) ->
  exists q' ord', (current_position ← (if w_playing w && (0 <=? w_current w) then
        p ← queue_order_to_position (w_queue w) (u32 (w_current w)); Ok (i32 p) else Ok (-1));
      q ← queue_shuffle_order (w_queue w);
      let w := set_queue q w in
      if 0 <=? current_position then
        current_order ← queue_position_to_order (w_queue w) (u32 current_position);
        q ← queue_swap_order (w_queue w) 0 current_order;
        Ok (set_current 0 (set_queue q w))
      else Ok (set_current (-1) w))
    = Ok (set_current (if w_playing w then 0 else -1) (set_queue q' w)) /\
    q_inv q' its ord' /\ q_frame (w_queue w) q' /\
    (w_playing w = true -> ord' !! 0%nat = ord !! Z.to_nat (w_current w) /\ its <> []).
Proof.
  intros Hq Hr Hc Hp. pose proof (inv_rep _ _ _ Hq) as Hrep.
  pose proof (rep_length_pos _ _ _ Hrep).
  destruct (q_inv_shuffle_order _ _ _ Hq Hr) as (q1 & ord1 & Hsh & Hq1 & Hf1 & _).
  pose proof (inv_rep _ _ _ Hq1) as Hrep1. destruct (w_playing w) eqn:Hplay; simpl.
  - destruct (cursor_valid (w_current w) (length its)) as (c & Hcc & Hclt); [split; [auto|lia]|].
    rewrite Hcc, (proj2 (Z.leb_le 0 (Z.of_nat c))), u32_small by lia.
    destruct (rep_ord_is_Some _ _ _ Hrep c Hclt) as [p Hpc].
    pose proof (rep_ord_lt _ _ _ Hrep _ _ Hpc) as Hplt.
    rewrite (queue_order_to_position_ok _ _ _ Hrep _ _ Hpc). cbn [mbind res_bind].
    rewrite Hsh. cbn [mbind res_bind]. rewrite i32_small by lia.
    rewrite (proj2 (Z.leb_le 0 (Z.of_nat p))), u32_small by lia.
    destruct (rep_ord_find _ _ _ Hrep1 p) as [o Ho]; [done|]. change (w_queue (set_queue q1 w)) with q1.
    rewrite (queue_position_to_order_ok _ _ _ Hrep1 _ _ Ho). cbn [mbind res_bind].
    pose proof (lookup_lt_Some _ _ _ Ho) as Hol. rewrite (rep_length_ord _ _ _ Hrep1) in Hol.
    destruct (q_inv_swap_order q1 its ord1 0 o Hq1) as (q2 & Heq & Hq2 & Hf2 & _);
      [destruct Hf1; congruence|lia|done|]. change (Z.of_nat 0) with 0 in Heq.
    change (w_queue (set_queue q1 w)) with q1. rewrite Heq. cbn [mbind res_bind].
    exists q2, (swap_list 0 o ord1). split_and!; [done|done|by etrans|]. intros _.
    rewrite Nat2Z.id, Hpc. destruct (rep_ord_is_Some _ _ _ Hrep1 0%nat) as [x Hx]; [lia|].
    rewrite (swap_list_lookup _ _ _ _ _ _ Hx Ho). split; [|by intros ->; simpl in *; lia].
    case_decide as H0; [subst; by simplify_eq|]. by rewrite decide_True.
  - rewrite Hsh. cbn [mbind res_bind]. exists q1, ord1. by split_and!.
Qed.

(** Switching it off: the order is the position order again, and [current]
    keeps its song. *)
Lemma playlist_order_ok w its ord :
  q_rep (w_queue w) its ord -> 1 <= q_version (w_queue w) < queue_max_version ->
  versions_ok (q_version (w_queue w)) its ->
  -1 <= w_current w < Z.of_nat (length its) ->
  exists q' c', playlist_order w = Ok (set_queue q' (set_current c' w)) /\
    q_inv q' its (seq 0 (length its)) /\ q_frame (w_queue w) q' /\
    -1 <= c' < Z.of_nat (length its) /\ (0 <= w_current w -> 0 <= c') /\
    cursor_id its (seq 0 (length its)) c' = cursor_id its ord (w_current w).
Proof.
  intros Hrep Hv Hvs Hc. pose proof (rep_length_pos _ _ _ Hrep).
  destruct (q_inv_restore_order (w_queue w) its ord) as (q' & Heq & Hq' & Hf & _); [by right|].
  unfold playlist_order. destruct (Z.leb_spec 0 (w_current w)).
  - destruct (cursor_valid (w_current w) (length its)) as (c & Hcc & Hclt); [lia|].
    rewrite Hcc, u32_small by lia. destruct (rep_ord_is_Some _ _ _ Hrep c Hclt) as [p Hp].
    pose proof (rep_ord_lt _ _ _ Hrep _ _ Hp) as Hplt.
    rewrite (queue_order_to_position_ok _ _ _ Hrep _ _ Hp). cbn [mbind res_bind].
    rewrite i32_small by lia. change (w_queue (set_current _ w)) with (w_queue w).
    rewrite Heq. exists q', (Z.of_nat p). split_and!; try done; [lia..|].
    rewrite !cursor_nat. unfold order_id. rewrite Hp. by rewrite lookup_seq_lt by done.
  - cbn [mbind res_bind]. rewrite Heq. exists q', (w_current w).
    split_and!; try done; try lia.
    unfold cursor_id. by rewrite (proj2 (Z.ltb_lt _ _)) by lia.
Qed.

Lemma playlist_set_random_ok w its ord b :
  w_inv w its ord ->
  safe thread_may_hang (playlist_set_random b w) (fun w' =>
    (exists id q, settled its id (w_playing w) q w' /\
       (w_playing w = true \/ b = false \/ q_random (w_queue w) = b ->
        id = cursor_id its ord (w_current w))) /\
    q_random (w_queue w') = b).
Proof.
  intros Hinv. pose proof Hinv as [Hq Hc Hp Hqd Hs Hpl Hn].
  unfold playlist_set_random. destruct (Bool.eqb b _) eqn:He.
  { apply eqb_prop in He as ->. simpl. eauto 6 using settled_same. }
  apply eqb_false_iff in He.
  destruct (playlist_get_queued_song_ok w its ord Hinv) as [queued Hqs]. rewrite Hqs.
  pose proof (w_inv_mid _ _ _ _ Hinv Hqs) as [_ _ _ Hmq _ _ _]. cbn [mbind res_bind].
  set (q0 := set_modes _ _ _ b (w_queue w)). set (w1 := set_queue q0 w).
  change (q_random (w_queue w1)) with b.
  assert (exists w2 ord2, (if b then _ else playlist_order w1) = Ok w2 /\
    w_mid queued w2 its ord2 /\ w_playing w2 = w_playing w /\ q_random (w_queue w2) = b /\
    (w_playing w = true \/ b = false ->
       cursor_id its ord2 (w_current w2) = cursor_id its ord (w_current w)))
    as (w2 & ord2 & -> & Hmid2 & Hplay2 & Hr2 & Hcur2).
  { destruct b.
    - destruct (set_random_on_ok w1 its ord) as (q' & ord' & Heq & Hq' & [] & Hfst); try done.
      { destruct Hq as [Hr ? ? ?]. split; [by apply set_random_rep|done..]. }
      eexists _, ord'. split; [exact Heq|]. wsimpl. split_and!; try done.
      + split; wsimpl; try fin; destruct (pl_playing (w_playlist w)); try fin.
      + intros [Hplay|]; [|done]. rewrite Hplay in *. destruct Hfst as [Hcur _]; [done|].
        rewrite (cursor_nat _ _ 0). unfold cursor_id. rewrite (proj2 (Z.ltb_ge _ _)) by auto.
        by apply order_id_lookup.
    - destruct (playlist_order_ok w1 its ord) as (q' & c' & Heq & Hq' & [] & Hc' & Hpos & Hcur);
        try done; [by apply set_random_rep, inv_rep|by apply (inv_version _ _ _ Hq)
        |by apply (q_inv_versions _ _ _ Hq)|].
      eexists _, (seq 0 (length its)). split; [exact Heq|]. wsimpl. split_and!; try done.
      split; wsimpl; fin. }
  cbn [mbind res_bind]. eapply safe_bind_mono; [by apply playlist_update_queued_song_ok|].
  intros w3 H3. simpl. rewrite Hplay2 in H3. split.
  - eexists _, _. split; [by apply settled_idle_add|]. intros [?|[?|?]]; [auto..|done].
  - destruct H3 as (ord3 & _ & _ & _ & []). wsimpl. congruence.
Qed.

End with_player.
