(* ===== verification/PlaylistEdit.v ===== *)
(** * Playlist operations keep the invariant: editing

    [playlist_clear()], [playlist_append_song()], [playlist_swap_songs()],
    [playlist_set_priority()], [playlist_move_range()] and
    [playlist_shuffle()]: the items change as the abstract operations on
    lists say, and the current song stays the current song. *)

From S2P Require Import Prelude Err GLib Float Song EventPipe PlayerControl PlayQueue PlayQueueRep PlayQueueEdit.
From S2P Require Import PlayQueueDelete PlayQueueOrder PlayQueueInv CString Uri Playlist PlaylistInv.

Local Open Scope Z_scope.

Section with_player.
Context {G : GLib} {HG : GLibSpec G} {T : PlayerThread} {HT : PlayerThreadSpec T}.

(** Replacing the queue in the middle of an operation. *)
Lemma w_mid_set_queue prev w its ord q' its' ord' c' :
  w_mid prev w its ord -> q_inv q' its' ord' ->
  -1 <= c' < Z.of_nat (length its') -> (w_playing w = true -> 0 <= c') ->
  w_mid prev (set_current c' (set_queue q' w)) its' ord'.
Proof. intros []. split; wsimpl; fin. Qed.

Lemma set_current_same w : set_current (w_current w) w = w.
Proof. by destruct w as [[] ?]. Qed.

(** ** Clearing *)

Lemma song_deleted_loop (w : world) (its : list queue_item) (l : Z) :
  l = Z.of_nat (length its) ->
  (forall k, (k < length its)%nat -> exists s, queue_get (w_queue w) (Z.of_nat k) = Ok s) ->
  wp (for_range 0 l (fun i w =>
        s ← queue_get (w_queue w) i;
        Ok (if negb (song_in_database s)
            then set_player (pc_song_deleted s (w_player w)) w else w)) w)
    (fun w' => w_playlist w' = w_playlist w /\ (player_ok (w_player w) -> player_ok (w_player w')) /\
       next_song (w_player w') = next_song (w_player w)).
Proof.
  intros -> Hget.
  apply (for_range_inv (fun _ w' => w_playlist w' = w_playlist w /\
    (player_ok (w_player w) -> player_ok (w_player w')) /\
    next_song (w_player w') = next_song (w_player w)) _ 0); [lia|done|].
  intros k w1 Hk (Hpl & Hok & Hn). destruct (Hget k) as [s Hs]; [lia|].
  unfold w_queue in *. rewrite Hpl, Hs. simpl.
  destruct (song_in_database s); simpl; [done|].
  destruct (pc_song_deleted_frame s (w_player w1)) as (H1 & H2 & _).
  split_and!; [done|auto|congruence].
Qed.

Lemma playlist_clear_ok w its ord :
  w_inv w its ord ->
  safe (may_hang (w_player w)) (playlist_clear w) (fun w' =>
    w_inv w' [] [] /\ w_current w' = -1 /\ w_playing w' = false /\ w_queued w' = -1).
Proof.
  intros Hinv. unfold playlist_clear.
  eapply safe_bind_mono; [by apply playlist_stop_ok, w_inv_stoppable|].
  intros w1 ((ord1 & Hinv1 & _ & Hplay1 & _) & _). pose proof Hinv1 as [Hq1 ? ? ? Hs1 ? ?].
  pose proof (inv_rep _ _ _ Hq1) as Hrep1. rewrite (queue_length_ok _ _ _ Hrep1).
  cbn [mbind res_bind].
  pose proof (song_deleted_loop w1 its (Z.of_nat (length its)) eq_refl) as Hwp.
  apply wp_inv in Hwp as (w2 & -> & Hpl & Hok & Hn).
  2:{ intros k Hk. destruct (lookup_lt_is_Some_2 its k Hk) as [it Hit].
      rewrite (queue_get_ok _ _ _ Hrep1 _ _ Hit). by eexists. }
  cbn [mbind res_bind]. unfold w_queue. rewrite Hpl. fold (w_queue w1).
  destruct (q_inv_clear _ _ _ Hq1) as (q' & -> & Hq' & Hf). cbn [mbind res_bind].
  assert (w_mid None (set_current (-1) (set_queue q' w2)) [] []) as Hmid.
  { unfold w_playing, w_queued in *. split; wsimpl; rewrite ?Hpl, ?Hn; fin. }
  destruct (playlist_increment_version_ok _ _ _ _ Hmid)
    as (w3 & its3 & -> & [] & Hu & Hc & Hp & _). simpl.
  apply unversioned_length in Hu. destruct its3; [|done]. wsimpl. rewrite Hpl in *.
  assert (pl_playing (w_playlist w3) = false) as Hp3 by congruence.
  assert (pl_queued (w_playlist w3) = -1) as Hq3 by auto.
  split_and!; auto. split; wsimpl; rewrite ?Hp3, ?Hc, ?Hq3; fin.
Qed.

(** ** Appending *)

Definition appended (s : song) (id v : Z) (its : list queue_item) : list queue_item :=
  its ++ [Item s id v 0].

Lemma order_id_append its ord it (o : nat) :
  (o < length ord)%nat -> (forall p, p ∈ ord -> (p < length its)%nat) ->
  order_id (its ++ [it]) (ord ++ [length its]) o = order_id its ord o.
Proof.
  intros Ho Hlt. unfold order_id. rewrite lookup_app_l by done.
  destruct (ord !! o) as [p|] eqn:Hp; simpl; [|done].
  by rewrite lookup_app_l by (eapply Hlt, list_elem_of_lookup_2; eauto).
Qed.

(** Shuffling the new song behind the current one. *)
Lemma append_shuffle_ok w its ord (c start : Z) :
  q_inv (w_queue w) its ord -> its <> [] -> 0 <= start < 2 ^ 32 ->
  exists q' ord', (if q_random (w_queue w) then
      len ← queue_length (w_queue w);
      if start <? len then
        q ← queue_shuffle_order_last (w_queue w) start len; Ok (set_queue q w)
      else Ok w
    else Ok w) = Ok (set_queue q' w) /\
    q_inv q' its ord' /\ q_frame (w_queue w) q' /\
    (c < start -> c < Z.of_nat (length its) - 1 -> cursor_id its ord' c = cursor_id its ord c).
Proof.
  intros Hq Hne Hst. pose proof (inv_rep _ _ _ Hq) as Hrep.
  assert (set_queue (w_queue w) w = w) as Hsame by (by destruct w as [[] ?]).
  destruct (q_random (w_queue w)) eqn:Hr; [|exists (w_queue w), ord; by rewrite Hsame].
  rewrite (queue_length_ok _ _ _ Hrep). cbn [mbind res_bind].
  destruct (Z.ltb_spec start (Z.of_nat (length its))) as [Hlt|];
    [|exists (w_queue w), ord; by rewrite Hsame].
  destruct (cursor_valid start (length its)) as (s & -> & Hs); [lia|].
  destruct (q_inv_shuffle_order_last _ _ _ s Hq Hr Hs) as (r & q' & -> & Hrr & Hq' & Hf & _).
  cbn [mbind res_bind]. eexists q', _. split_and!; try done. intros Hc1 Hc2.
  unfold cursor_id. destruct (Z.ltb_spec c 0); [done|]. apply order_id_lookup.
  destruct (rep_ord_is_Some _ _ _ Hrep (length its - 1)) as [x Hx]; [lia|].
  destruct (rep_ord_is_Some _ _ _ Hrep r) as [y Hy]; [lia|].
  rewrite (swap_list_lookup _ _ _ _ _ _ Hx Hy). rewrite !decide_False by lia. done.
Qed.

Lemma playlist_append_song_ok w its ord s :
  w_inv w its ord ->
  safe thread_may_hang (playlist_append_song s w) (fun '(r, idopt, w') =>
    (q_max_length (w_queue w) <= Z.of_nat (length its) ->
       r = PLAYLIST_TOO_LARGE /\ idopt = None /\ w' = w) /\
    (Z.of_nat (length its) < q_max_length (w_queue w) ->
       r = MPD_SUCCESS /\ exists id v cur, idopt = Some id /\
       (forall it, it ∈ its -> item_id it <> id) /\
       edited (appended s id v its) cur (w_playing w) (w_queue w) w' /\
       (q_random (w_queue w) = false \/ w_queued w < 0 \/ w_current w <= w_queued w ->
        cur = cursor_id its ord (w_current w)))).
Proof.
  intros Hinv. pose proof Hinv as [Hq Hc Hp Hqd ? ? ?].
  pose proof (inv_rep _ _ _ Hq) as Hrep. pose proof (rep_length_pos _ _ _ Hrep).
  unfold playlist_append_song. rewrite (queue_is_full_ok _ _ _ Hrep). cbn [mbind res_bind].
  destruct (Z.leb_spec (q_max_length (w_queue w)) (Z.of_nat (length its))) as [Hfull|Hroom].
  { split; [done|]. lia. }
  destruct (playlist_get_queued_song_ok w its ord Hinv) as [queued Hqs]. rewrite Hqs.
  cbn [mbind res_bind]. pose proof (w_inv_mid _ _ _ _ Hinv Hqs) as Hmid.
  destruct (q_inv_append _ _ _ s Hq Hroom) as (id & q1 & -> & Hq1 & Hf1 & Hid).
  cbn [mbind res_bind]. change (w_queued (set_queue q1 w)) with (w_queued w).
  change (w_current (set_queue q1 w)) with (w_current w).
  set (start := u32 _). set (its1 := its ++ [_]) in *.
  assert (length its1 = S (length its)) as Hl1 by (unfold its1; rewrite length_app; simpl; lia).
  destruct (append_shuffle_ok (set_queue q1 w) its1 (ord ++ [length its]) (w_current w) start)
    as (q2 & ord2 & -> & Hq2 & Hf2 & Hcur);
    [done|by destruct its|subst start; apply u32_range|].
  cbn [mbind res_bind].
  assert (set_queue q2 (set_queue q1 w) = set_current (w_current w) (set_queue q2 w)) as ->
    by (by destruct w as [[] ?]).
  pose proof (w_mid_set_queue _ _ _ _ q2 its1 ord2 (w_current w) Hmid Hq2) as Hmid2.
  pose proof (finish_edit_ret _ _ _ _ (MPD_SUCCESS, Some id) (Hmid2 ltac:(lia) Hp)) as Hfin.
  eapply safe_mono; [exact Hfin|]. intros [[r idopt] w'] [[= -> ->] He].
  split; [lia|]. intros _. split; [done|]. exists id, (q_version (w_queue w)).
  eexists. split_and!; [done|done|eapply edited_frame; [|exact He]; by etrans|].
  change (w_current (set_current _ _)) with (w_current w). intros Hguard.
  assert (cursor_id its1 (ord ++ [length its]) (w_current w) = cursor_id its ord (w_current w))
    as <-.
  { unfold cursor_id. destruct (Z.ltb_spec (w_current w) 0); [done|].
    apply order_id_append; [rewrite (rep_length_ord _ _ _ Hrep); lia|].
    intros p [i Hi]%list_elem_of_lookup. by eapply rep_ord_lt. }
  destruct (Z.lt_ge_cases (w_current w) 0).
  { unfold cursor_id. by rewrite (proj2 (Z.ltb_lt _ _)) by lia. }
  destruct (q_random q1) eqn:Hr1.
  - apply Hcur; [|lia]. subst start. rewrite u32_small by (case_Z; lia).
    destruct Hf1, Hguard as [|[|]]; [congruence|case_Z; lia..].
  - assert (ord2 = ord ++ [length its]) as ->; [|done].
    assert (q_random q2 = false) as Hr2 by (destruct Hf2; wsimpl; congruence).
    by rewrite (inv_ident _ _ _ Hq2 Hr2), (inv_ident _ _ _ Hq1 Hr1).
Qed.

(** ** Swapping *)

Lemma swap_items_id v p1 p2 its p :
  (p1 < length its)%nat -> (p2 < length its)%nat ->
  item_id <$> swap_items v p1 p2 its !! p =
  item_id <$> its !! (if decide (p = p2) then p1 else if decide (p = p1) then p2 else p).
Proof.
  intros H1 H2. destruct (lookup_lt_is_Some_2 its p1 H1) as [it1 Hi1].
  destruct (lookup_lt_is_Some_2 its p2 H2) as [it2 Hi2].
  rewrite (proj2 (swap_items_lookup v p1 p2 its it1 it2 p Hi1 Hi2)).
  repeat case_decide; by rewrite ?Hi1, ?Hi2.
Qed.

Lemma length_swap_items v p1 p2 its : length (swap_items v p1 p2 its) = length its.
Proof. unfold swap_items. by rewrite !length_alter, length_swap_list. Qed.

(** Random mode: the order numbers are swapped back, the cursor stays. *)
Lemma swap_random_ok q its ord v (p1 p2 : nat) :
  q_inv q (swap_items v p1 p2 its) ord -> q_random q = true ->
  (p1 < length its)%nat -> (p2 < length its)%nat ->
  exists q' ord', (o1 ← queue_position_to_order q (Z.of_nat p1);
      o2 ← queue_position_to_order q (Z.of_nat p2); queue_swap_order q o1 o2) = Ok q' /\
    q_inv q' (swap_items v p1 p2 its) ord' /\ q_frame q q' /\
    forall o, order_id (swap_items v p1 p2 its) ord' o = order_id its ord o.
Proof.
  intros Hq Hr H1 H2. pose proof (inv_rep _ _ _ Hq) as Hrep.
  pose proof (length_swap_items v p1 p2 its) as Hl.
  destruct (rep_ord_find _ _ _ Hrep p1) as [o1 Ho1]; [lia|].
  destruct (rep_ord_find _ _ _ Hrep p2) as [o2 Ho2]; [lia|].
  rewrite (queue_position_to_order_ok _ _ _ Hrep _ _ Ho1). cbn [mbind res_bind].
  rewrite (queue_position_to_order_ok _ _ _ Hrep _ _ Ho2). cbn [mbind res_bind].
  pose proof (lookup_lt_Some _ _ _ Ho1) as Hl1. pose proof (lookup_lt_Some _ _ _ Ho2) as Hl2.
  rewrite (rep_length_ord _ _ _ Hrep) in Hl1, Hl2.
  destruct (q_inv_swap_order _ _ _ o1 o2 Hq Hr) as (q' & -> & Hq' & Hf' & _); [lia..|].
  exists q', (swap_list o1 o2 ord). split_and!; try done. intros o. unfold order_id.
  rewrite (swap_list_lookup _ _ _ _ _ _ Ho1 Ho2).
  pose proof (rep_ord_inj _ _ _ Hrep) as Hinj.
  destruct (decide (o = o2)) as [->|Hn2]; [|destruct (decide (o = o1)) as [->|Hn1]].
  - rewrite Ho2. simpl. rewrite swap_items_id by done. repeat case_decide; congruence.
  - rewrite Ho1. simpl. rewrite swap_items_id by done. by rewrite decide_True.
  - destruct (ord !! o) as [p|] eqn:Hp; simpl; [|done]. rewrite swap_items_id by done.
    rewrite !decide_False; [done|..]; intros ->; eauto.
Qed.

(** Otherwise the cursor follows its song. *)
Definition swap_pos (p1 p2 p : nat) : nat :=
  if decide (p = p1) then p2 else if decide (p = p2) then p1 else p.

Lemma swap_linear_id its v (p1 p2 p : nat) :
  (p1 < length its)%nat -> (p2 < length its)%nat -> (p < length its)%nat ->
  order_id (swap_items v p1 p2 its) (seq 0 (length its)) (swap_pos p1 p2 p)
  = order_id its (seq 0 (length its)) p.
Proof.
  intros H1 H2 Hp. unfold order_id, swap_pos.
  rewrite !lookup_seq_lt by (repeat case_decide; lia). simpl. rewrite swap_items_id by done.
  f_equal. f_equal. repeat case_decide; congruence.
Qed.

(** What a swap does to [current]. *)
Definition swap_current (w : world) (p1 p2 : nat) : Z :=
  if q_random (w_queue w) || (w_current w <? 0) then w_current w
  else Z.of_nat (swap_pos p1 p2 (Z.to_nat (w_current w))).

Lemma swap_current_code w (p1 p2 : nat) :
  q_random (w_queue w) = false -> -1 <= w_current w ->
  (if w_current w =? Z.of_nat p1 then Ok (set_current (Z.of_nat p2) w)
   else if w_current w =? Z.of_nat p2 then Ok (set_current (Z.of_nat p1) w)
   else Ok w) = Ok (set_current (swap_current w p1 p2) w).
Proof.
  intros Hr Hc. unfold swap_current, swap_pos. rewrite Hr. simpl.
  destruct (Z.ltb_spec (w_current w) 0).
  - case_Z; try lia. by rewrite set_current_same.
  - case_Z; repeat case_decide; try lia; try done.
    rewrite Z2Nat.id by lia. by rewrite set_current_same.
Qed.

Lemma swap_current_ok w its v (p1 p2 : nat) :
  (p1 < length its)%nat -> (p2 < length its)%nat ->
  -1 <= w_current w < Z.of_nat (length its) -> q_random (w_queue w) = false ->
  -1 <= swap_current w p1 p2 < Z.of_nat (length its) /\
  (0 <= w_current w -> 0 <= swap_current w p1 p2) /\
  cursor_id (swap_items v p1 p2 its) (seq 0 (length its)) (swap_current w p1 p2)
  = cursor_id its (seq 0 (length its)) (w_current w).
Proof.
  intros H1 H2 Hc Hr. unfold swap_current. rewrite Hr. simpl.
  destruct (Z.ltb_spec (w_current w) 0) as [Hn|Hn].
  - split_and!; [lia..|]. unfold cursor_id. by rewrite (proj2 (Z.ltb_lt _ _) Hn).
  - destruct (cursor_valid (w_current w) (length its)) as (p & -> & Hp); [lia|].
    rewrite Nat2Z.id, !cursor_nat, swap_linear_id by done. split_and!; try lia; try done.
    unfold swap_pos. repeat case_decide; lia.
Qed.

Lemma playlist_swap_songs_ok w its ord (p1 p2 : nat) :
  w_inv w its ord -> (p1 < length its)%nat -> (p2 < length its)%nat ->
  safe thread_may_hang (playlist_swap_songs (Z.of_nat p1) (Z.of_nat p2) w) (fun '(r, w') =>
    r = MPD_SUCCESS /\
    edited (swap_items (q_version (w_queue w)) p1 p2 its) (cursor_id its ord (w_current w))
      (w_playing w) (w_queue w) w').
Proof.
  intros Hinv H1 H2. pose proof Hinv as [Hq Hc Hp ? ? ? ?].
  pose proof (inv_rep _ _ _ Hq) as Hrep. pose proof (rep_length_pos _ _ _ Hrep).
  unfold playlist_swap_songs, queue_valid_position.
  rewrite !(rep_lt_length _ _ _ Hrep) by done. cbn [negb orb].
  destruct (playlist_get_queued_song_ok w its ord Hinv) as [queued Hqs]. rewrite Hqs.
  cbn [mbind res_bind]. pose proof (w_inv_mid _ _ _ _ Hinv Hqs) as Hmid.
  destruct (q_inv_swap _ _ _ p1 p2 Hq H1 H2) as (q1 & -> & Hq1 & Hf1 & _).
  cbn [mbind res_bind]. set (its1 := swap_items _ p1 p2 its) in *.
  assert (length its1 = length its) as Hl1 by apply length_swap_items.
  change (w_queue (set_queue q1 w)) with q1. rewrite !i32_small by lia.
  assert (exists q' ord' c', (if q_random q1 then _ else _) = Ok (set_current c' (set_queue q' w)) /\
    q_inv q' its1 ord' /\ q_frame (w_queue w) q' /\ -1 <= c' < Z.of_nat (length its1) /\
    (0 <= w_current w -> 0 <= c') /\
    cursor_id its1 ord' c' = cursor_id its ord (w_current w))
    as (q' & ord' & c' & -> & Hq' & Hf' & Hc' & Hpos & Hcur).
  { destruct (q_random q1) eqn:Hr.
    - destruct (swap_random_ok _ _ _ _ _ _ Hq1 Hr H1 H2) as (q' & ord' & Heq & Hq' & Hf' & Hid).
      apply bind_Ok in Heq as (o1 & -> & (o2 & -> & Heq)%bind_Ok). cbn [mbind res_bind].
      rewrite Heq. cbn [mbind res_bind]. exists q', ord', (w_current w).
      split_and!; try done; [by etrans|lia..|].
      unfold cursor_id. case_match; [done|]. apply Hid.
    - rewrite swap_current_code by (done || (wsimpl; lia)).
      destruct (swap_current_ok (set_queue q1 w) its (q_version (w_queue w)) p1 p2) as (? & ? & Hcur);
        try done. exists q1, ord, (swap_current (set_queue q1 w) p1 p2). rewrite Hl1.
      split_and!; try done; try lia; try auto.
      assert (ord = seq 0 (length its)) as -> by (apply (inv_ident _ _ _ Hq); destruct Hf1; congruence).
      done. }
  cbn [mbind res_bind].
  pose proof (w_mid_set_queue _ _ _ _ q' its1 ord' c' Hmid Hq' Hc' ltac:(auto)) as Hmid2.
  eapply safe_mono; [by apply finish_edit_ret|]. intros [r w'] [-> He]. split; [done|].
  change (w_current (set_current c' _)) with c' in He. rewrite Hcur in He.
  by eapply edited_frame.
Qed.

End with_player.

(** * Playlist operations keep the invariant: priorities, moving, shuffling *)

Section with_player.
Context {G : GLib} {HG : GLibSpec G} {T : PlayerThread} {HT : PlayerThreadSpec T}.

(** ** Priorities *)

(** The position of the current song. *)
Definition cursor_pos (ord : list nat) (c : Z) : option nat :=
  if c <? 0 then None else ord !! Z.to_nat c.

Lemma cursor_after ord c : -1 <= c < Z.of_nat (length ord) -> after_of ord (cursor_pos ord c) c.
Proof.
  intros Hc. unfold cursor_pos. destruct (Z.ltb_spec c 0); simpl; [lia|].
  destruct (lookup_lt_is_Some_2 ord (Z.to_nat c)) as [p Hp]; [lia|]. rewrite Hp. simpl.
  exists (Z.to_nat c). split; [done|lia].
Qed.

Lemma cursor_position_code (w : world) its ord :
  q_rep (w_queue w) its ord -> -1 <= w_current w < Z.of_nat (length its) ->
  (if 0 <=? w_current w then
     p ← queue_order_to_position (w_queue w) (u32 (w_current w)); Ok (i32 p)
   else Ok (-1)) = Ok (match cursor_pos ord (w_current w) with
                       | Some p => Z.of_nat p | None => -1 end).
Proof.
  intros Hrep Hc. pose proof (rep_length_pos _ _ _ Hrep). unfold cursor_pos.
  destruct (Z.leb_spec 0 (w_current w)); destruct (Z.ltb_spec (w_current w) 0); try lia; [|done].
  destruct (cursor_valid (w_current w) (length its)) as (c & -> & Hcl); [lia|].
  rewrite u32_small, Nat2Z.id by lia. destruct (rep_ord_is_Some _ _ _ Hrep c Hcl) as [p Hp].
  rewrite (queue_order_to_position_ok _ _ _ Hrep _ _ Hp), Hp. simpl.
  pose proof (rep_ord_lt _ _ _ Hrep _ _ Hp). by rewrite i32_small by lia.
Qed.

(** Going back from the position to the order number. *)
Lemma cursor_restore_ok w its ord p :
  q_rep (w_queue w) its ord -> (p < length its)%nat ->
  exists c, queue_position_to_order (w_queue w) (u32 (Z.of_nat p)) = Ok (Z.of_nat c) /\
    ord !! c = Some p /\ i32 (Z.of_nat c) = Z.of_nat c /\ (c < length its)%nat.
Proof.
  intros Hrep Hp. pose proof (rep_length_pos _ _ _ Hrep).
  destruct (rep_ord_find _ _ _ Hrep p Hp) as [c Hc]. exists c. rewrite u32_small by lia.
  pose proof (lookup_lt_Some _ _ _ Hc) as Hl. rewrite (rep_length_ord _ _ _ Hrep) in Hl.
  split_and!; [by apply (queue_position_to_order_ok _ _ _ Hrep)|done|apply i32_small; lia|done].
Qed.

Lemma prioritized_ids v pr s e its :
  item_id <$> alter_range (prioritized v pr) s e its = item_id <$> its.
Proof. apply alter_range_fmap. intros it. unfold prioritized. by case_match. Qed.

(** Restoring [current] after the order has changed, for items with the
    same identifiers. *)
Lemma restore_current_ok w its its2 ord ord2 :
  q_rep (w_queue w) its2 ord2 -> item_id <$> its2 = item_id <$> its ->
  -1 <= w_current w < Z.of_nat (length its) -> ord ≡ₚ seq 0 (length its) ->
  let pos := match cursor_pos ord (w_current w) with Some p => Z.of_nat p | None => -1 end in
  exists c', (if 0 <=? pos then
      c ← queue_position_to_order (w_queue w) (u32 pos); Ok (set_current (i32 c) w)
    else Ok w) = Ok (set_current c' w) /\
    -1 <= c' < Z.of_nat (length its2) /\ (0 <= w_current w -> 0 <= c') /\
    cursor_id its2 ord2 c' = cursor_id its ord (w_current w).
Proof.
  intros Hrep2 Hids Hc Hperm pos. unfold pos, cursor_pos.
  assert (length its2 = length its) as Hl.
  { apply (f_equal length) in Hids. by rewrite !length_fmap in Hids. }
  destruct (Z.ltb_spec (w_current w) 0) as [Hn|Hn].
  - exists (w_current w). rewrite set_current_same. split_and!; try done; [lia..|].
    unfold cursor_id. by rewrite (proj2 (Z.ltb_lt _ _) Hn).
  - destruct (cursor_valid (w_current w) (length its)) as (c & -> & Hcl); [lia|].
    destruct (lookup_lt_is_Some_2 ord c) as [p Hpc]; [by rewrite Hperm, length_seq|].
    rewrite Nat2Z.id, Hpc, (proj2 (Z.leb_le 0 (Z.of_nat p))) by lia.
    destruct (cursor_restore_ok w its2 ord2 p Hrep2) as (c' & -> & Ho & Hi & Hlt).
    { apply list_elem_of_lookup_2 in Hpc. rewrite Hperm in Hpc. apply elem_of_seq in Hpc. lia. }
    cbn [mbind res_bind]. rewrite Hi. exists (Z.of_nat c'). split_and!; try done; [lia..|].
    by rewrite !cursor_nat, !order_id_fmap, Hids, Ho, Hpc.
Qed.

Lemma playlist_set_priority_ok w its ord (s e : nat) pr :
  w_inv w its ord -> (s < e <= length its)%nat ->
  safe thread_may_hang (playlist_set_priority (Z.of_nat s) (Z.of_nat e) pr w) (fun '(r, w') =>
    r = MPD_SUCCESS /\
    edited (alter_range (prioritized (q_version (w_queue w)) pr) s e its)
      (cursor_id its ord (w_current w)) (w_playing w) (w_queue w) w').
Proof.
  intros Hinv Hse. pose proof Hinv as [Hq Hc Hp ? ? ? ?].
  pose proof (inv_rep _ _ _ Hq) as Hrep. unfold playlist_set_priority.
  rewrite (queue_length_ok _ _ _ Hrep). cbn [mbind res_bind].
  rewrite (proj2 (Z.leb_gt (Z.of_nat (length its)) (Z.of_nat s))) by lia.
  rewrite (proj2 (Z.ltb_ge (Z.of_nat (length its)) (Z.of_nat e))) by lia.
  rewrite (proj2 (Z.leb_gt (Z.of_nat e) (Z.of_nat s))) by lia.
  rewrite (cursor_position_code w its ord Hrep Hc). cbn [mbind res_bind].
  destruct (playlist_get_queued_song_ok w its ord Hinv) as [queued Hqs]. rewrite Hqs.
  cbn [mbind res_bind]. pose proof (w_inv_mid _ _ _ _ Hinv Hqs) as Hmid.
  destruct (q_inv_set_priority_range (w_queue w) its ord s e pr (cursor_pos ord (w_current w))
    (w_current w) Hq) as (m & q1 & ord1 & -> & Hq1 & Hf1 & _); [lia| |].
  { apply cursor_after. by rewrite (rep_length_ord _ _ _ Hrep). }
  cbn [mbind res_bind]. set (its1 := alter_range _ s e its) in *.
  assert (length its1 = length its) as Hl1 by apply length_alter_range.
  assert (w_mid queued (set_queue q1 w) its1 ord1) as Hmid1.
  { rewrite <- (set_current_same (set_queue q1 w)).
    apply (w_mid_set_queue _ _ _ _ _ _ _ _ Hmid Hq1); [by rewrite Hl1|done]. }
  destruct (playlist_increment_version_ok _ _ _ _ Hmid1)
    as (w2 & its2 & -> & Hmid2 & Hu & Hc2 & Hp2 & Hf2). cbn [mbind res_bind].
  change (w_current (set_queue q1 w)) with (w_current w) in Hc2. rewrite <- Hc2.
  pose proof (inv_rep _ _ _ (mid_queue _ _ _ _ Hmid2)) as Hrep2.
  destruct (restore_current_ok w2 its its2 ord ord1) as (c' & -> & Hc' & Hpos & Hcur); try done.
  { rewrite (unversioned_ids _ _ Hu). apply prioritized_ids. }
  { by rewrite Hc2. }
  { apply (rep_perm _ _ _ Hrep). }
  rewrite Hc2 in *.
  cbn [mbind res_bind]. eapply safe_bind_mono.
  - eapply (playlist_update_queued_song_ok queued (set_current c' w2) its2 ord1).
    rewrite <- (set_current_same w2) in Hmid2. destruct Hmid2. split; wsimpl; try fin.
    intros. apply Hpos, Hp. congruence.
  - intros w3 H3. simpl. split; [done|]. exists its2. split; [by rewrite Hu|].
    wsimpl. rewrite Hcur, Hp2 in H3. eapply settled_frame; [|exact H3]. etrans; done.
Qed.

(** ** Moving *)

Lemma moved_items_id v (s e t : nat) its p :
  (s <= e <= length its)%nat -> (t + (e - s) <= length its)%nat -> (p < length its)%nat ->
  item_id <$> moved_items v s e t its !! move_block_dst s e t p = item_id <$> its !! p.
Proof.
  intros Hse Ht Hp. destruct (move_block_src_dst s e t p (length its)) as [Hsd Hlt]; [done..|].
  unfold moved_items. rewrite alter_range_lookup, move_block_lookup, Hsd by done.
  case_match; [|done]. by destruct (its !! p).
Qed.

(** Random mode: the order numbers are rewritten, cursors stay. *)
Lemma moved_random_id q v (s e t : nat) its ord o :
  (s <= e <= length its)%nat -> (t + (e - s) <= length its)%nat ->
  ord ≡ₚ seq 0 (length its) -> q_random q = true ->
  order_id (moved_items v s e t its) (moved_order q s e t ord) o = order_id its ord o.
Proof.
  intros Hse Ht Hperm Hr. unfold order_id, moved_order. rewrite Hr, list_lookup_fmap.
  destruct (ord !! o) as [p|] eqn:Hp; simpl; [|done].
  apply moved_items_id; [done..|]. apply list_elem_of_lookup_2 in Hp.
  rewrite Hperm in Hp. apply elem_of_seq in Hp. lia.
Qed.

(** What the code does to [current] when random mode is off. *)
Definition move_cur (s e t : nat) (c : Z) : Z :=
  if (Z.of_nat s <=? c) && (c <? Z.of_nat e) then c + Z.of_nat t - Z.of_nat s
  else if (Z.of_nat e <=? c) && (c <=? Z.of_nat t) then c - Z.of_nat (e - s)
  else if (Z.of_nat t <=? c) && (c <? Z.of_nat s) then c + Z.of_nat (e - s)
  else c.

(** The comparison [current <= to] is too strict: it should cover the
    whole block, [current < to + end - start]. *)
Definition move_misses (s e t : nat) (c : Z) : Prop :=
  Z.of_nat e <= c /\ Z.of_nat t < c < Z.of_nat t + Z.of_nat (e - s).

Lemma move_cur_code (w : world) (s e t : nat) :
  (s < e)%nat -> Z.of_nat e < 2 ^ 30 -> Z.of_nat t < 2 ^ 30 -> -1 <= w_current w < 2 ^ 30 ->
  (if (i32 (Z.of_nat s) <=? w_current w) && (u32 (w_current w) <? Z.of_nat e)
   then set_current (i32 (u32 (w_current w + u32 (Z.of_nat t - Z.of_nat s)))) w
   else if (i32 (Z.of_nat e) <=? w_current w) && (w_current w <=? Z.of_nat t)
   then set_current (i32 (u32 (w_current w - u32 (Z.of_nat e - Z.of_nat s)))) w
   else if (Z.of_nat t <=? w_current w) && (w_current w <? i32 (Z.of_nat s))
   then set_current (i32 (u32 (w_current w + u32 (Z.of_nat e - Z.of_nat s)))) w
   else w) = set_current (move_cur s e t (w_current w)) w.
Proof.
  intros Hse He Ht Hc. rewrite (i32_small (Z.of_nat s)), (i32_small (Z.of_nat e)) by lia.
  unfold move_cur.
  assert (forall x, -1 <= x < 2 ^ 31 -> i32 (u32 x) = x) as Hiu.
  { intros x Hx. destruct (Z.eq_dec x (-1)) as [->|]; [done|].
    rewrite u32_small, i32_small by lia. done. }
  destruct (Z.ltb_spec (w_current w) 0) as [Hn|Hn].
  - assert (w_current w = -1) as Hm by lia. rewrite Hm.
    rewrite (proj2 (Z.leb_gt (Z.of_nat s) (-1))), (proj2 (Z.leb_gt (Z.of_nat e) (-1))),
      (proj2 (Z.leb_gt (Z.of_nat t) (-1))) by lia. cbn [andb]. rewrite <- Hm.
    by rewrite set_current_same.
  - rewrite (u32_small (w_current w)) by lia. rewrite (u32_add_u32 (w_current w)).
    rewrite (u32_small (Z.of_nat e - Z.of_nat s)) by lia.
    destruct (Z.leb_spec (Z.of_nat s) (w_current w)), (Z.ltb_spec (w_current w) (Z.of_nat e));
      simpl; [rewrite Hiu by lia; f_equal; lia| | |];
    destruct (Z.leb_spec (Z.of_nat e) (w_current w)), (Z.leb_spec (w_current w) (Z.of_nat t));
      simpl; try lia; try (rewrite Hiu by lia; f_equal; lia);
    destruct (Z.leb_spec (Z.of_nat t) (w_current w)), (Z.ltb_spec (w_current w) (Z.of_nat s));
      simpl; try lia; try (rewrite Hiu by lia; f_equal; lia); by rewrite set_current_same.
Qed.

Lemma move_cur_range (s e t n : nat) c :
  (s < e <= n)%nat -> (t + (e - s) <= n)%nat -> -1 <= c < Z.of_nat n ->
  -1 <= move_cur s e t c < Z.of_nat n /\ (0 <= c -> 0 <= move_cur s e t c).
Proof.
  intros Hse Ht Hc. unfold move_cur. case_Z; simpl; lia.
Qed.

Lemma move_cur_dst (s e t : nat) c :
  (s < e)%nat -> 0 <= c -> ~ move_misses s e t c ->
  move_cur s e t c = Z.of_nat (move_block_dst s e t (Z.to_nat c)).
Proof.
  intros Hse Hc Hm. unfold move_cur, move_misses, move_block_dst in *.
  case_Z; case_nat; simpl; lia.
Qed.

Lemma moved_linear_id v (s e t : nat) its (c : Z) :
  (s < e <= length its)%nat -> (t + (e - s) <= length its)%nat ->
  -1 <= c < Z.of_nat (length its) -> ~ move_misses s e t c ->
  cursor_id (moved_items v s e t its) (seq 0 (length its)) (move_cur s e t c)
  = cursor_id its (seq 0 (length its)) c.
Proof.
  intros Hse Ht Hc Hm. destruct (move_cur_range s e t (length its) c) as [Hr Hpos]; [done..|].
  unfold cursor_id at 2. destruct (Z.ltb_spec c 0) as [Hn|Hn].
  - assert (move_cur s e t c = -1) as ->; [|done]. unfold move_cur. case_Z; simpl; lia.
  - rewrite move_cur_dst, cursor_nat by (done || lia). unfold order_id.
    destruct (move_block_src_dst s e t (Z.to_nat c) (length its)) as [_ Hlt]; [lia..|].
    rewrite !lookup_seq_lt by lia. simpl. apply moved_items_id; lia.
Qed.

Lemma playlist_move_apply_ok w its ord queued (s e t : nat) :
  w_inv w its ord -> playlist_get_queued_song w = Ok queued ->
  (s < e <= length its)%nat -> (t + (e - s) <= length its)%nat ->
  safe thread_may_hang (playlist_move_apply queued (Z.of_nat s) (Z.of_nat e) (Z.of_nat t) w)
    (fun '(r, w') => r = MPD_SUCCESS /\ exists cur,
      edited (moved_items (q_version (w_queue w)) s e t its) cur (w_playing w) (w_queue w) w' /\
      (q_random (w_queue w) = true \/ ~ move_misses s e t (w_current w) ->
       cur = cursor_id its ord (w_current w))).
Proof.
  intros Hinv Hqs Hse Ht. pose proof Hinv as [Hq Hc Hp ? ? ? ?].
  pose proof (inv_rep _ _ _ Hq) as Hrep. pose proof (rep_length_pos _ _ _ Hrep).
  pose proof (w_inv_mid _ _ _ _ Hinv Hqs) as Hmid. unfold playlist_move_apply.
  rewrite (u32_small (Z.of_nat t)) by lia.
  destruct (q_inv_move_range _ _ _ s e t Hq) as (q1 & -> & Hq1 & Hf1); [lia..|].
  cbn [mbind res_bind]. set (its1 := moved_items _ s e t its) in *.
  set (ord1 := moved_order _ s e t ord) in *.
  assert (length its1 = length its) as Hl1 by (apply length_moved_items; lia).
  change (w_queue (set_queue q1 w)) with q1.
  rewrite (move_cur_code (set_queue q1 w)) by (wsimpl; lia).
  change (w_current (set_queue q1 w)) with (w_current w).
  set (c' := if q_random q1 then w_current w else move_cur s e t (w_current w)).
  replace (if q_random q1 then _ else _) with (set_current c' (set_queue q1 w))
    by (unfold c'; destruct (q_random q1); [by destruct w as [[] ?]|done]).
  destruct (move_cur_range s e t (length its) (w_current w)) as [Hr Hpos]; [done..|].
  assert (w_mid queued (set_current c' (set_queue q1 w)) its1 ord1) as Hmid1.
  { apply (w_mid_set_queue _ _ _ _ _ _ _ _ Hmid Hq1); unfold c'; rewrite ?Hl1;
      destruct (q_random q1); auto. }
  eapply safe_mono; [by apply finish_edit_ret|]. intros [r w'] [-> He]. split; [done|].
  eexists. split; [by eapply edited_frame|].
  change (w_current (set_current c' _)) with c'. intros Hguard. unfold c', its1, ord1.
  destruct Hf1 as [_ _ _ _ Hfr]. rewrite Hfr. destruct (q_random (w_queue w)) eqn:Hrand.
  - unfold cursor_id. case_match; [done|]. apply moved_random_id; [lia..|apply Hrep|done].
  - destruct Hguard as [|Hguard]; [done|]. unfold moved_order. rewrite Hrand.
    rewrite (inv_ident _ _ _ Hq Hrand). by apply moved_linear_id.
Qed.

(** Absolute moves. *)
Lemma playlist_move_range_ok w its ord (s e t : nat) :
  w_inv w its ord -> (s < e <= length its)%nat -> (t + (e - s) <= length its)%nat -> s <> t ->
  safe thread_may_hang (playlist_move_range (Z.of_nat s) (Z.of_nat e) (Z.of_nat t) w)
    (fun '(r, w') => r = MPD_SUCCESS /\ exists cur,
      edited (moved_items (q_version (w_queue w)) s e t its) cur (w_playing w) (w_queue w) w' /\
      (q_random (w_queue w) = true \/ ~ move_misses s e t (w_current w) ->
       cur = cursor_id its ord (w_current w))).
Proof.
  intros Hinv Hse Ht Hst. pose proof Hinv as [Hq Hc ? ? ? ? ?].
  pose proof (inv_rep _ _ _ Hq) as Hrep. pose proof (rep_length_pos _ _ _ Hrep).
  unfold playlist_move_range, queue_valid_position. rewrite (rep_len _ _ _ Hrep).
  rewrite (u32_small (Z.of_nat e - 1)) by lia.
  rewrite !(proj2 (Z.ltb_lt _ (Z.of_nat (length its)))) by lia. simpl orb. cbn iota.
  rewrite (queue_length_ok _ _ _ Hrep). cbn [mbind res_bind].
  rewrite (proj2 (Z.leb_le 0 (Z.of_nat t))) by lia. rewrite (u32_small (Z.of_nat t + _ - _ - 1)) by lia.
  rewrite (proj2 (Z.leb_gt (Z.of_nat (length its)) _)) by lia. cbn [mbind res_bind].
  rewrite (proj2 (Z.ltb_ge (Z.of_nat t) 0)), i32_small by lia. rewrite (proj2 (Z.eqb_neq _ _)) by lia.
  destruct (playlist_get_queued_song_ok w its ord Hinv) as [queued Hqs]. rewrite Hqs.
  cbn [mbind res_bind]. rewrite (cursor_position_code w its ord Hrep Hc).
  cbn [mbind res_bind andb]. by apply playlist_move_apply_ok.
Qed.

(** Relative moves of one song: [-k] means [k] positions behind the current
    song at position [cp], wrapping around at the end of the list. *)
Definition relative_target (len cp s k : nat) : nat :=
  let t := ((cp + k) `mod` len)%nat in if (s <? t)%nat then (t - 1)%nat else t.

Lemma relative_target_lt len cp s k : (0 < len)%nat -> (relative_target len cp s k < len)%nat.
Proof.
  intros Hl. unfold relative_target. pose proof (Nat.mod_upper_bound (cp + k) len).
  case_nat; lia.
Qed.

Lemma c_abs_ok x : - 2 ^ 31 < x -> c_abs x = Ok (Z.abs x).
Proof. intros H. unfold c_abs. by rewrite (proj2 (Z.eqb_neq _ _)) by lia. Qed.

Lemma playlist_move_relative_ok w its ord (s k cp : nat) :
  w_inv w its ord -> (s < length its)%nat -> (0 < k <= length its)%nat ->
  cursor_pos ord (w_current w) = Some cp -> cp <> s ->
  safe thread_may_hang (playlist_move_range (Z.of_nat s) (Z.of_nat s + 1) (- Z.of_nat k) w)
    (fun '(r, w') => r = MPD_SUCCESS /\
      edited (moved_items (q_version (w_queue w)) s (S s)
                (relative_target (length its) cp s k) its)
        (cursor_id its ord (w_current w)) (w_playing w) (w_queue w) w').
Proof.
  intros Hinv Hs Hk Hcp Hne. pose proof Hinv as [Hq Hc ? ? ? ? ?].
  pose proof (inv_rep _ _ _ Hq) as Hrep. pose proof (rep_length_pos _ _ _ Hrep).
  assert (0 <= w_current w /\ (cp < length its)%nat) as [Hc0 Hcpl].
  { unfold cursor_pos in Hcp. destruct (Z.ltb_spec (w_current w) 0); [done|].
    split; [done|]. by eapply rep_ord_lt. }
  unfold playlist_move_range, queue_valid_position. rewrite (rep_len _ _ _ Hrep).
  rewrite (Z.add_simpl_r (Z.of_nat s) 1), (u32_small (Z.of_nat s)) by lia.
  rewrite (proj2 (Z.ltb_lt _ (Z.of_nat (length its)))) by lia. simpl orb. cbn iota.
  rewrite (queue_length_ok _ _ _ Hrep). cbn [mbind res_bind].
  rewrite (proj2 (Z.leb_gt 0 (- Z.of_nat k))), (proj2 (Z.ltb_lt (- Z.of_nat k) 0)), c_abs_ok by lia.
  cbn [andb mbind res_bind]. rewrite (i32_small (Z.of_nat (length its))), (i32_small (Z.of_nat s)) by lia.
  rewrite (proj2 (Z.ltb_ge (Z.of_nat (length its)) (Z.abs _))) by lia.
  rewrite (proj2 (Z.eqb_neq _ _)) by lia.
  destruct (playlist_get_queued_song_ok w its ord Hinv) as [queued Hqs]. rewrite Hqs.
  cbn [mbind res_bind]. rewrite (cursor_position_code w its ord Hrep Hc), Hcp.
  cbn [mbind res_bind]. rewrite (proj2 (Z.leb_le 0 (w_current w))) by lia. cbn [andb].
  rewrite (u32_small (Z.of_nat cp)) by lia.
  replace ((Z.of_nat s <=? Z.of_nat cp) && (Z.of_nat cp <? Z.of_nat s + 1)) with false
    by (symmetry; case_Z; simpl; lia).
  set (t := relative_target (length its) cp s k).
  replace (if Z.of_nat s <? _ then _ else _) with (Z.of_nat t).
  2:{ rewrite (u32_small (Z.of_nat cp + _)) by lia.
      replace (Z.of_nat cp + Z.abs (- Z.of_nat k))
        with (Z.of_nat (cp + k)) by lia. rewrite <- Nat2Z.inj_mod.
      pose proof (Nat.mod_upper_bound (cp + k) (length its)). unfold t, relative_target.
      rewrite i32_small by lia. rewrite u32_small by lia. case_nat; case_Z; lia. }
  pose proof (relative_target_lt (length its) cp s k) as Ht. fold t in Ht.
  replace (Z.of_nat s + 1) with (Z.of_nat (S s)) by lia.
  eapply safe_mono; [apply (playlist_move_apply_ok w its ord queued s (S s) t); [done..|lia|lia]|].
  intros [r w'] (-> & cur & He & Hcur). split; [done|]. rewrite <- Hcur; [done|].
  right. unfold move_misses. lia.
Qed.

(** ** Shuffling *)

(** The current song goes first, the rest of the range is shuffled. *)
Lemma shuffle_current_first_ok w its ord (s e cp : nat) :
  q_inv (w_queue w) its ord -> (s < e <= length its)%nat -> (s <= cp < e)%nat ->
  cursor_pos ord (w_current w) = Some cp ->
  exists q1 c1, (q ← queue_swap (w_queue w) (Z.of_nat s) (Z.of_nat cp);
      let w := set_queue q w in
      w ← (if q_random (w_queue w) then
             c ← queue_position_to_order (w_queue w) (Z.of_nat s); Ok (set_current (i32 c) w)
           else Ok (set_current (i32 (Z.of_nat s)) w));
      Ok (u32 (Z.of_nat s + 1), w))
    = Ok (Z.of_nat (S s), set_current (Z.of_nat c1) (set_queue q1 w)) /\
    q_inv q1 (swap_items (q_version (w_queue w)) s cp its) ord /\ q_frame (w_queue w) q1 /\
    ord !! c1 = Some s /\ (c1 < length its)%nat.
Proof.
  intros Hq Hse Hcp Hpos. pose proof (rep_length_pos _ _ _ (inv_rep _ _ _ Hq)).
  destruct (q_inv_swap _ _ _ s cp Hq) as (q1 & -> & Hq1 & Hf1 & _); [lia..|].
  cbn [mbind res_bind]. pose proof (inv_rep _ _ _ Hq1) as Hrep1.
  pose proof (length_swap_items (q_version (w_queue w)) s cp its) as Hl1.
  change (w_queue (set_queue q1 w)) with q1.
  rewrite i32_small, u32_small by lia. replace (Z.of_nat s + 1) with (Z.of_nat (S s)) by lia.
  destruct (rep_ord_find _ _ _ Hrep1 s) as [c Hc]; [lia|].
  pose proof (lookup_lt_Some _ _ _ Hc) as Hcl. rewrite (rep_length_ord _ _ _ Hrep1) in Hcl.
  exists q1, c. destruct (q_random q1) eqn:Hr.
  - rewrite (queue_position_to_order_ok _ _ _ Hrep1 _ _ Hc). cbn [mbind res_bind].
    rewrite i32_small by lia. split_and!; (done || lia).
  - cbn [mbind res_bind]. assert (c = s) as ->; [|split_and!; (done || lia)].
    rewrite (inv_ident _ _ _ Hq1 Hr) in Hc. by apply lookup_seq in Hc as [-> _].
Qed.

Lemma range_perm_lookup_outside {A} (s e : nat) (l l' : list A) j :
  range_perm s e l l' -> (s <= e)%nat -> (j < s)%nat -> l' !! j = l !! j.
Proof. intros H1 H2 H3. eapply range_perm_outside; [done..|]. by left. Qed.

Lemma unversioned_id_lookup its its' j :
  unversioned its' !! j = unversioned its !! j -> item_id <$> its' !! j = item_id <$> its !! j.
Proof.
  unfold unversioned. rewrite !list_lookup_fmap.
  destruct (its' !! j) as [a|], (its !! j) as [b|]; simpl; try done.
  intros [= H1 H2 H3]. congruence.
Qed.

(** The choice of the start of the shuffled range. *)
Definition shuffle_start_spec (w : world) its ord (s e : nat) (r : res (Z * world)) : Prop :=
  exists (s1 : nat) q1 its1 c1, r = Ok (Z.of_nat s1, set_current c1 (set_queue q1 w)) /\
    q_inv q1 its1 ord /\ q_frame (w_queue w) q1 /\ (s <= s1 <= e)%nat /\
    length its1 = length its /\ range_perm s e (unversioned its) (unversioned its1) /\
    -1 <= c1 < Z.of_nat (length its) /\
    (w_playing w = false -> c1 = -1) /\
    (w_playing w = true -> 0 <= c1 /\ cursor_id its1 ord c1 = cursor_id its ord (w_current w) /\
       exists cp, ord !! Z.to_nat c1 = Some cp /\ ((cp < s1)%nat \/ (e <= cp)%nat)).

Lemma shuffle_start_ok w its ord (s e : nat) :
  w_inv w its ord -> (s < e <= length its)%nat ->
  shuffle_start_spec w its ord s e (playlist_shuffle_start (Z.of_nat s) (Z.of_nat e) w).
Proof.
  intros Hinv Hse. pose proof Hinv as [Hq Hc Hp ? ? ? ?].
  pose proof (inv_rep _ _ _ Hq) as Hrep. pose proof (rep_length_pos _ _ _ Hrep).
  assert (forall l, length l = length its -> range_perm s e (unversioned l) (unversioned l)) as Hrefl.
  { intros l Hl. apply range_perm_refl. unfold unversioned. rewrite length_fmap. lia. }
  assert (set_queue (w_queue w) w = w) as Hsame by (by destruct w as [[] ?]).
  unfold playlist_shuffle_start. destruct (w_playing w) eqn:Hplay; cbn [andb].
  2:{ exists s, (w_queue w), its, (-1). rewrite Hsame. split_and!; try (done || lia). { by apply Hrefl. } congruence. }
  destruct (cursor_valid (w_current w) (length its)) as (c & Hcc & Hcl); [split; [auto|lia]|].
  destruct (rep_ord_is_Some _ _ _ Hrep c Hcl) as [cp Hcp].
  pose proof (rep_ord_lt _ _ _ Hrep _ _ Hcp) as Hcpl.
  rewrite Hcc, (proj2 (Z.leb_le 0 (Z.of_nat c))), (u32_small (Z.of_nat c)) by lia.
  rewrite (queue_order_to_position_ok _ _ _ Hrep _ _ Hcp). cbn [mbind res_bind].
  destruct (decide (s <= cp < e)%nat) as [Hin|Hout].
  - rewrite (proj2 (Z.leb_le (Z.of_nat s) (Z.of_nat cp))),
      (proj2 (Z.ltb_lt (Z.of_nat cp) (Z.of_nat e))) by lia. cbn [andb].
    destruct (shuffle_current_first_ok w its ord s e cp) as (q1 & c1 & Heq & Hq1 & Hf1 & Hc1 & Hl1);
      try done.
    { unfold cursor_pos. rewrite (proj2 (Z.ltb_ge _ _)), Hcc, Nat2Z.id by lia. done. }
    set (its1 := swap_items _ s cp its) in *. exists (S s), q1, its1, (Z.of_nat c1).
    pose proof (length_swap_items (q_version (w_queue w)) s cp its) as Hls. fold its1 in Hls.
    destruct (lookup_lt_is_Some_2 its s) as [it1 Hi1]; [lia|].
    destruct (lookup_lt_is_Some_2 its cp) as [it2 Hi2]; [lia|].
    split; [exact Heq|]. split_and!; try (done || lia || congruence).
    + unfold its1. rewrite (proj1 (swap_items_lookup _ _ _ _ _ _ 0 Hi1 Hi2)).
      apply swap_list_range_perm; [lia..|]. unfold unversioned. rewrite length_fmap. lia.
    + intros _. split_and!; [lia| |exists s; rewrite Nat2Z.id; split; [done|lia]].
      rewrite Hcc, !cursor_nat. unfold order_id. rewrite Hc1, Hcp. simpl. unfold its1.
      rewrite swap_items_id by lia. repeat case_decide; congruence.
  - replace ((Z.of_nat s <=? Z.of_nat cp) && (Z.of_nat cp <? Z.of_nat e)) with false
      by (symmetry; case_Z; simpl; lia).
    exists s, (w_queue w), its, (w_current w). rewrite Hsame, set_current_same.
    split_and!; try (done || lia || congruence); [by apply Hrefl|]. intros _.
    split_and!; [lia|done|].
    exists cp. rewrite Hcc, Nat2Z.id. split; [done|lia].
Qed.

Lemma playlist_shuffle_ok w its ord (s e : nat) :
  w_inv w its ord -> (S s < e <= length its)%nat ->
  safe thread_may_hang (playlist_shuffle (Z.of_nat s) (Z.of_nat e) w) (fun w' =>
    exists its', range_perm s e (unversioned its) (unversioned its') /\
      edited its' (if w_playing w then cursor_id its ord (w_current w) else None)
        (w_playing w) (w_queue w) w').
Proof.
  intros Hinv Hse. pose proof Hinv as [Hq Hc Hp ? ? ? ?].
  pose proof (inv_rep _ _ _ Hq) as Hrep. pose proof (rep_length_pos _ _ _ Hrep).
  unfold playlist_shuffle. rewrite (queue_length_ok _ _ _ Hrep). cbn [mbind res_bind].
  rewrite (proj2 (Z.ltb_ge (Z.of_nat (length its)) (Z.of_nat e))) by lia.
  rewrite (proj2 (Z.leb_gt (Z.of_nat e) (u32 (Z.of_nat s + 1)))) by (rewrite u32_small; lia).
  destruct (playlist_get_queued_song_ok w its ord Hinv) as [queued Hqs]. rewrite Hqs.
  cbn [mbind res_bind]. pose proof (w_inv_mid _ _ _ _ Hinv Hqs) as Hmid.
  destruct (shuffle_start_ok w its ord s e Hinv ltac:(lia))
    as (s1 & q1 & its1 & c1 & -> & Hq1 & Hf1 & Hs1 & Hl1 & Hrp1 & Hc1 & Hstop & Hplay).
  cbn [mbind res_bind]. change (w_queue (set_current c1 (set_queue q1 w))) with q1.
  destruct (q_inv_shuffle_range _ _ _ s1 e Hq1) as (q2 & its2 & -> & Hq2 & Hf2 & Hrp2); [lia|].
  cbn [mbind res_bind].
  assert (length its2 = length its) as Hl2.
  { pose proof (range_perm_length _ _ _ _ Hrp2) as Hl. unfold unversioned in Hl.
    rewrite !length_fmap in Hl. lia. }
  assert (set_queue q2 (set_current c1 (set_queue q1 w)) = set_current c1 (set_queue q2 w)) as ->
    by (by destruct w as [[] ?]).
  assert (w_mid queued (set_current c1 (set_queue q2 w)) its2 ord) as Hmid2.
  { apply (w_mid_set_queue _ _ _ _ _ _ _ _ Hmid Hq2); [by rewrite Hl2|]. intros. by apply Hplay. }
  eapply safe_mono; [by apply finish_edit_ok|]. intros w' He. exists its2. split.
  - eapply range_perm_trans; [done|]. eapply range_perm_widen; [done|lia|lia|].
    unfold unversioned. rewrite length_fmap. lia.
  - change (w_current (set_current c1 _)) with c1 in He.
    change (w_playing (set_current c1 _)) with (w_playing w) in He.
    replace (if w_playing w then _ else _) with (cursor_id its2 ord c1);
      [eapply edited_frame; [|exact He]; by etrans|].
    destruct (w_playing w); [|by rewrite Hstop].
    destruct Hplay as (Hpos & <- & cp & Hcp & Hout); [done|].
    unfold cursor_id, order_id. rewrite (proj2 (Z.ltb_ge _ _)), Hcp by done. simpl.
    apply unversioned_id_lookup. eapply range_perm_outside; [done|lia|lia].
Qed.

End with_player.
