(* ===== verification/PlaylistDelete.v ===== *)
(** * Playlist operations keep the invariant: deleting

    [playlist_delete_internal()] and its callers.  Deleting the song that is
    being played in random mode is excluded when playback stops as a
    consequence ([delete_safe]). *)

From S2P Require Import Prelude Err GLib Float Song EventPipe PlayerControl PlayQueue PlayQueueRep PlayQueueEdit.
From S2P Require Import PlayQueueDelete PlayQueueOrder PlayQueueInv CString Uri Playlist PlaylistInv PlaylistEdit.

Local Open Scope Z_scope.

Section with_player.
Context {G : GLib} {HG : GLibSpec G} {T : PlayerThread} {HT : PlayerThreadSpec T}.

(** The order number that follows the current one. *)
Definition w_next_order (w : world) (len : Z) : Z :=
  next_order_spec (q_repeat (w_queue w)) (q_single (w_queue w)) (q_consume (w_queue w)) len
    (w_current w).

(** Deleting order number [o] does not stop playback in random mode. *)
Definition delete_safe (w : world) (len : Z) (o : nat) : Prop :=
  q_random (w_queue w) = false \/ w_playing w = false \/ w_current w <> Z.of_nat o \/
  (pc_get_state (w_player w) <> PLAYER_STATE_PAUSE /\ 0 <= w_next_order w len /\
   w_next_order w len <> Z.of_nat o).

(** ** Cursors and deletion *)

Definition delete_cursor (o : nat) (c : Z) : Z := if Z.of_nat o <? c then c - 1 else c.

Lemma deleted_order_id v its ord (p o c : nat) :
  NoDup ord -> ord !! o = Some p -> (p < length its)%nat -> c <> o ->
  order_id (deleted_items v p its) (deleted_order p o ord) (if (o <? c)%nat then (c - 1)%nat else c)
  = order_id its ord c.
Proof.
  intros Hnd Ho Hp Hne. unfold order_id, deleted_order. rewrite list_lookup_fmap, delete_lookup.
  assert ((if ((if o <? c then c - 1 else c) <? o)%nat
           then ord !! (if (o <? c)%nat then (c - 1)%nat else c)
           else ord !! S (if (o <? c)%nat then (c - 1)%nat else c)) = ord !! c) as ->.
  { case_nat; try lia; f_equal; lia. }
  destruct (ord !! c) as [x|] eqn:Hx; simpl; [|done].
  assert (x <> p) as Hxp.
  { intros ->. apply Hne. by eapply NoDup_lookup. }
  rewrite deleted_items_lookup. case_nat; try lia; try done.
  replace (S (x - 1)) with x by lia. by destruct (its !! x).
Qed.

Lemma delete_cursor_id v its ord (p o : nat) c :
  NoDup ord -> ord !! o = Some p -> (p < length its)%nat -> c <> Z.of_nat o ->
  cursor_id (deleted_items v p its) (deleted_order p o ord) (delete_cursor o c)
  = cursor_id its ord c.
Proof.
  intros Hnd Ho Hp Hne. unfold cursor_id at 2. destruct (Z.ltb_spec c 0) as [Hn|Hn].
  - unfold delete_cursor, cursor_id. case_Z; (done || lia).
  - rewrite <- (deleted_order_id v its ord p o) by (done || lia).
    rewrite <- cursor_nat. f_equal. unfold delete_cursor. case_nat; case_Z; lia.
Qed.

(** ** The part of [playlist_delete_internal()] before the deletion *)

(** What it leaves behind: the same queue contents, a cursor that is not on
    the deleted song, and the remembered queued song. *)
Record before_delete (w : world) (its : list queue_item) (ord : list nat) (o : nat)
    (queued : option song) (w' : world) : Prop := {
  bd_mid : w_mid queued w' its ord;
  bd_queue : w_queue w' = w_queue w;
  bd_current : w_current w' <> Z.of_nat o;
}.

(** The song that takes over when the current one is deleted. *)
Definition successor (w : world) (len : Z) (o : nat) : Z :=
  if w_next_order w len =? Z.of_nat o then -1 else w_next_order w len.

Lemma before_delete_current_ok queued w its ord (o : nat) :
  w_mid queued w its ord -> (o < length its)%nat -> w_playing w = true ->
  w_current w = Z.of_nat o -> delete_safe w (Z.of_nat (length its)) o ->
  safe thread_may_hang (playlist_before_delete (Z.of_nat o) queued w) (fun '(queued', w') =>
    before_delete w its ord o queued' w' /\
    w_current w' = successor w (Z.of_nat (length its)) o /\
    w_playing w' = (0 <=? successor w (Z.of_nat (length its)) o)
                   && negb (bool_decide (pc_get_state (w_player w) = PLAYER_STATE_PAUSE))).
Proof.
  intros [Hq Hc Hp Hqd Hs Hpl Hn] Ho Hplay Hcur Hsafe. pose proof (inv_rep _ _ _ Hq) as Hrep.
  pose proof (rep_length_pos _ _ _ Hrep). unfold playlist_before_delete.
  rewrite Hplay, Hcur, i32_small, Z.eqb_refl, u32_small by lia. cbn [andb].
  rewrite (queue_next_order_ok _ _ _ _ Hrep Ho), <- Hcur. fold (w_next_order w (Z.of_nat (length its))).
  cbn [mbind res_bind]. set (n := w_next_order w (Z.of_nat (length its))).
  change (w_current (set_current n w)) with n.
  assert (-1 <= n < Z.of_nat (length its)) as Hnr
    by (unfold n, w_next_order; rewrite Hcur; apply next_order_spec_range; lia).
  replace (if n =? w_current w then _ else _)
    with (set_current (successor w (Z.of_nat (length its)) o) w).
  2:{ unfold successor. fold n. rewrite Hcur. by case_match. }
  set (m := successor w (Z.of_nat (length its)) o).
  assert (m <> Z.of_nat o /\ -1 <= m < Z.of_nat (length its)) as [Hmo Hmr]
    by (unfold m, successor; fold n; case_Z; lia).
  change (w_current (set_current m w)) with m.
  destruct ((0 <=? m) && _) eqn:Hplays.
  - apply andb_true_iff in Hplays as [Hm0%Z.leb_le _].
    destruct (cursor_valid m (length its)) as (m' & Hmm & Hml); [lia|]. rewrite Hmm.
    apply safe_bind. eapply safe_mono.
    { eapply weaken_hang, (playlist_play_order_ok (set_current (Z.of_nat m') w) its ord); done. }
    intros w1 ([? ? ? ? ? ? ?] & Hc1 & Hp1 & Hq1 & Hqd1). simpl. split_and!; [|done|done].
    split; [|done|congruence]. split; try done. intros _. rewrite Hqd1. done.
  - assert (q_random (w_queue w) = false) as Hrand.
    { destruct Hsafe as [|[|[|(H1 & H2 & H3)]]]; try congruence. fold n in H2, H3.
      apply andb_false_iff in Hplays as [Hm%Z.leb_gt|Hb].
      - unfold m, successor in Hm. fold n in Hm. rewrite (proj2 (Z.eqb_neq _ _)) in Hm by done. lia.
      - by rewrite bool_decide_false in Hb. }
    apply safe_bind, safe_bind. eapply safe_mono.
    { eapply weaken_hang, (playlist_stop_ok (set_current m w) its ord). split; try done.
      - wsimpl. congruence.
      - wsimpl. congruence. }
    intros w1 ((ord1 & [Hq1 Hc1 ? ? Hs1 Hpl1 ?] & _ & Hp1 & _) & Hfix & _).
    destruct (Hfix Hrand) as [Hqq Hcc]. apply safe_bind.
    eapply with_player_safe; [eapply weaken_hang, pc_stop_ok; done|].
    intros p [Hok Hnn]. simpl. wsimpl. specialize (Hs1 Hp1). split_and!; [|done|done].
    split; wsimpl; try done; [|congruence]. rewrite Hqq, Hcc in *. split; wsimpl; rewrite ?Hcc; fin.
Qed.

(** [current] after the song at order number [o] was deleted, still counted
    in the old order: the successor, nothing, or what it was. *)
Definition delete_current (w : world) (len : Z) (o : nat) : Z :=
  if w_current w =? Z.of_nat o then (if w_playing w then successor w len o else -1)
  else w_current w.

(** Whether the player goes on. *)
Definition delete_playing (w : world) (len : Z) (o : nat) : bool :=
  w_playing w && ((negb (w_current w =? Z.of_nat o)) || ((0 <=? successor w len o)
    && negb (bool_decide (pc_get_state (w_player w) = PLAYER_STATE_PAUSE)))).

Lemma before_delete_ok queued w its ord (o : nat) :
  w_mid queued w its ord -> (o < length its)%nat ->
  delete_safe w (Z.of_nat (length its)) o ->
  safe thread_may_hang (playlist_before_delete (Z.of_nat o) queued w) (fun '(queued', w') =>
    before_delete w its ord o queued' w' /\
    w_current w' = delete_current w (Z.of_nat (length its)) o /\
    w_playing w' = delete_playing w (Z.of_nat (length its)) o).
Proof.
  intros Hmid Ho Hsafe. pose proof Hmid as [Hq Hc Hp Hqd Hs Hpl Hn].
  pose proof (rep_length_pos _ _ _ (inv_rep _ _ _ Hq)). unfold delete_current, delete_playing.
  destruct (w_playing w) eqn:Hplay; [destruct (Z.eqb_spec (w_current w) (Z.of_nat o)) as [He|Hne]|].
  - eapply safe_mono; [by apply (before_delete_current_ok queued w its ord o)|]. done.
  - unfold playlist_before_delete. rewrite Hplay, i32_small, (proj2 (Z.eqb_neq _ _)) by (done || lia).
    simpl. by split_and!.
  - unfold playlist_before_delete. rewrite Hplay, i32_small by lia. cbn [andb].
    destruct (Z.eqb_spec (w_current w) (Z.of_nat o)) as [He|Hne]; simpl; [|by split_and!].
    split_and!; try done. split; wsimpl; try lia; try done. split; wsimpl; fin.
Qed.

(** [playlist_delete_internal()] removes the item and leaves a consistent
    state. *)
Lemma playlist_delete_internal_ok queued w its ord (p o : nat) :
  w_mid queued w its ord -> (p < length its)%nat -> ord !! o = Some p ->
  delete_safe w (Z.of_nat (length its)) o ->
  safe thread_may_hang (playlist_delete_internal (Z.of_nat p) queued w) (fun '(queued', w') =>
    let its' := deleted_items (q_version (w_queue w)) p its in
    let ord' := deleted_order p o ord in
    w_mid queued' w' its' ord' /\ q_frame (w_queue w) (w_queue w') /\
    cursor_id its' ord' (w_current w')
      = cursor_id its ord (delete_current w (Z.of_nat (length its)) o) /\
    w_playing w' = delete_playing w (Z.of_nat (length its)) o).
Proof.
  intros Hmid Hp Ho Hsafe. pose proof (mid_queue _ _ _ _ Hmid) as Hq.
  pose proof (inv_rep _ _ _ Hq) as Hrep. pose proof (rep_length_pos _ _ _ Hrep).
  pose proof (lookup_lt_Some _ _ _ Ho) as Hol. rewrite (rep_length_ord _ _ _ Hrep) in Hol.
  unfold playlist_delete_internal. rewrite (queue_length_ok _ _ _ Hrep). cbn [mbind res_bind].
  rewrite (proj2 (Z.ltb_lt _ _)) by lia. cbn [mbind res_bind assert].
  rewrite (queue_position_to_order_ok _ _ _ Hrep _ _ Ho). cbn [mbind res_bind].
  eapply safe_bind_mono; [by apply before_delete_ok|].
  intros [queued1 w1] ([[Hq1 Hc1 Hp1 Hqd1 Hs1 Hpl1 Hn1] Hqq Hne] & Hcc & Hpp).
  destruct (lookup_lt_is_Some_2 its p Hp) as [it Hit]. rewrite Hqq in Hq1.
  rewrite Hqq, (queue_get_ok _ _ _ Hrep _ _ Hit). cbn [mbind res_bind].
  set (w2 := if negb (song_in_database (item_song it)) then _ else w1).
  assert (w_playlist w2 = w_playlist w1 /\ player_ok (w_player w2) /\
    next_song (w_player w2) = next_song (w_player w1)) as (Hw2 & Hpl2 & Hn2).
  { unfold w2. destruct (song_in_database (item_song it)); simpl; [done|].
    destruct (pc_song_deleted_frame (item_song it) (w_player w1)) as (? & ? & _). auto. }
  assert (w_queue w2 = w_queue w) as Hq2 by (unfold w_queue in *; by rewrite Hw2).
  rewrite Hq2. destruct (q_inv_delete _ _ _ p o it Hq Hit Ho) as (q' & -> & Hq' & Hf & _).
  cbn [mbind res_bind]. rewrite i32_small by lia.
  change (w_current (set_queue q' w2)) with (w_current w2).
  assert (w_current w2 = w_current w1) as Hc2 by (unfold w_current; by rewrite Hw2).
  replace (if Z.of_nat o <? w_current w2 then _ else _)
    with (set_current (delete_cursor o (w_current w2)) (set_queue q' w2)).
  2:{ unfold delete_cursor. case_match; [done|]. by destruct w2 as [[] ?]. }
  pose proof (length_deleted_items (q_version (w_queue w)) p its Hp) as Hl. simpl. split_and!.
  - unfold w_playing, w_queued, w_current, w_queue in *. rewrite <- Hw2 in *.
    split; wsimpl; rewrite ?Hl, ?Hn2; try done.
    + unfold delete_cursor. case_Z; lia.
    + intros Hplay. specialize (Hp1 Hplay). unfold delete_cursor. case_Z; lia.
  - done.
  - change (w_current (set_current ?c _)) with c. rewrite Hc2, delete_cursor_id by
      (done || by apply (rep_ord_nodup _ _ _ Hrep)). by rewrite Hcc.
  - unfold w_playing in *. simpl. congruence.
Qed.

(** [playlist_delete()]: the song is gone, the others stay; unless the
    current song was deleted it stays the current song and playback goes
    on. *)
Lemma playlist_delete_ok w its ord (p o : nat) :
  w_inv w its ord -> (p < length its)%nat -> ord !! o = Some p ->
  delete_safe w (Z.of_nat (length its)) o ->
  safe thread_may_hang (playlist_delete (Z.of_nat p) w) (fun '(r, w') => r = MPD_SUCCESS /\
    edited (deleted_items (q_version (w_queue w)) p its)
      (cursor_id its ord (delete_current w (Z.of_nat (length its)) o))
      (delete_playing w (Z.of_nat (length its)) o) (w_queue w) w').
Proof.
  intros Hinv Hp Ho Hsafe. pose proof (inv_rep _ _ _ (inv_queue _ _ _ Hinv)) as Hrep.
  unfold playlist_delete. rewrite (queue_length_ok _ _ _ Hrep). cbn [mbind res_bind].
  rewrite (proj2 (Z.leb_gt _ _)) by lia.
  destruct (playlist_get_queued_song_ok w its ord Hinv) as [queued Hqs]. rewrite Hqs.
  cbn [mbind res_bind]. eapply safe_bind_mono.
  { apply (playlist_delete_internal_ok queued w its ord p o); try done. by apply w_inv_mid. }
  intros [queued1 w1] (Hmid & Hf & Hcur & Hpl).
  eapply safe_mono; [by apply finish_edit_ret|]. intros [r w'] [-> He]. split; [done|].
  rewrite Hcur, Hpl in He. by eapply edited_frame.
Qed.

(** ** Deleting several songs *)

Lemma delete_middle {A} (l r : list A) k :
  (k < length l)%nat -> delete k (take (S k) l ++ r) = take k l ++ r.
Proof.
  intros Hk. destruct (lookup_lt_is_Some_2 l k Hk) as [x Hx].
  rewrite (take_S_r _ _ x Hx), <- app_assoc. simpl.
  assert (length (take k l) = k) as Hl by (rewrite length_take; lia).
  rewrite <- Hl at 1. clear. induction (take k l); simpl; congruence.
Qed.

(** Random mode is off or nothing is played: every deletion is safe. *)
Definition quiet (w : world) : Prop := q_random (w_queue w) = false \/ w_playing w = false.

Lemma quiet_delete_safe w len o : quiet w -> delete_safe w len o.
Proof. unfold quiet, delete_safe. tauto. Qed.

Lemma quiet_step q w w' len o :
  quiet w -> q_frame (w_queue w) q -> w_queue w' = q -> w_playing w' = delete_playing w len o ->
  quiet w'.
Proof.
  intros [Hr|Hp] [] Hq Hpl; [left; congruence|right]. rewrite Hpl. unfold delete_playing.
  by rewrite Hp.
Qed.

Lemma delete_range_loop_ok queued w its ord (s e : nat) :
  w_mid queued w its ord -> (s <= e <= length its)%nat -> quiet w ->
  safe thread_may_hang (for_down (Z.of_nat e - 1) (Z.of_nat s - 1)
      (fun song '(queued, w) => playlist_delete_internal song queued w) (queued, w))
    (fun '(queued', w') => exists its' ord', w_mid queued' w' its' ord' /\
       unversioned its' = take s (unversioned its) ++ drop e (unversioned its) /\
       q_frame (w_queue w) (w_queue w') /\ (w_playing w = false -> w_playing w' = false)).
Proof.
  intros Hmid Hse Hquiet. unfold for_down.
  replace (Z.to_nat (Z.of_nat e - 1 - (Z.of_nat s - 1))) with (e - s)%nat by lia.
  set (U := unversioned its). assert (length U = length its) as HU by apply length_fmap.
  set (P := fun (k : nat) '((queued', w') : option song * world) => exists its' ord',
    w_mid queued' w' its' ord' /\ unversioned its' = take k U ++ drop e U /\
    q_frame (w_queue w) (w_queue w') /\ quiet w' /\ (w_playing w = false -> w_playing w' = false)).
  eapply safe_mono; [apply (for_dn_safe _ P)|].
  - lia.
  - exists its, ord. split_and!; try done. by rewrite take_drop.
  - intros k [queued1 w1] Hk (its1 & ord1 & Hmid1 & HU1 & Hf1 & Hquiet1 & Hp1).
    assert (length its1 = (S k + (length its - e))%nat) as Hl1.
    { rewrite <- (length_fmap (item_set_version 0) its1). fold (unversioned its1).
      rewrite HU1, length_app, length_take, length_drop. lia. }
    destruct (rep_ord_find _ _ _ (inv_rep _ _ _ (mid_queue _ _ _ _ Hmid1)) k) as [o Ho]; [lia|].
    eapply safe_mono; [apply (playlist_delete_internal_ok queued1 w1 its1 ord1 k o); try done;
      [lia|by apply quiet_delete_safe]|].
    intros [queued2 w2] (Hmid2 & Hf2 & _ & Hpl2). eexists _, _. split; [exact Hmid2|].
    split_and!.
    + rewrite unversioned_deleted, HU1. apply delete_middle. lia.
    + by etrans.
    + by eapply quiet_step.
    + intros Hp0. rewrite Hpl2. unfold delete_playing. by rewrite Hp1.
  - intros [queued' w']. replace (e - (e - s))%nat with s by lia.
    intros (its' & ord' & ? & ? & ? & _ & ?). exists its', ord'. by split_and!.
Qed.

Lemma playlist_delete_range_ok w its ord (s e : nat) :
  w_inv w its ord -> (s < e <= length its)%nat -> quiet w ->
  safe thread_may_hang (playlist_delete_range (Z.of_nat s) (Z.of_nat e) w) (fun '(r, w') =>
    r = MPD_SUCCESS /\ exists its' cur playing, edited its' cur playing (w_queue w) w' /\
      unversioned its' = take s (unversioned its) ++ drop e (unversioned its)).
Proof.
  intros Hinv Hse Hquiet. pose proof (inv_rep _ _ _ (inv_queue _ _ _ Hinv)) as Hrep.
  unfold playlist_delete_range. rewrite (queue_length_ok _ _ _ Hrep). cbn [mbind res_bind].
  rewrite (proj2 (Z.leb_gt (Z.of_nat (length its)) (Z.of_nat s))) by lia.
  rewrite (proj2 (Z.ltb_ge (Z.of_nat (length its)) (Z.of_nat e))) by lia.
  rewrite (proj2 (Z.leb_gt (Z.of_nat e) (Z.of_nat s))) by lia.
  destruct (playlist_get_queued_song_ok w its ord Hinv) as [queued Hqs]. rewrite Hqs.
  cbn [mbind res_bind]. eapply safe_bind_mono.
  { apply (delete_range_loop_ok queued w its ord s e); [by apply w_inv_mid|lia|done]. }
  intros [queued1 w1] (its1 & ord1 & Hmid & HU & Hf & _).
  eapply safe_mono; [by apply finish_edit_ret|]. intros [r w'] [-> He]. split; [done|].
  eexists its1, _, _. split; [by eapply edited_frame|done].
Qed.

(** The songs other than [s]. *)
Definition other_songs (s : song) (its : list queue_item) : list queue_item :=
  filter (fun it => song_ptr (item_song it) <> song_ptr s) its.

Lemma playlist_delete_song_ok w its ord s :
  w_inv w its ord -> quiet w ->
  safe thread_may_hang (playlist_delete_song s w) (fun w' => exists its' ord',
    w_inv w' its' ord' /\ unversioned its' = other_songs s (unversioned its)).
Proof.
  intros Hinv Hquiet. pose proof (inv_rep _ _ _ (inv_queue _ _ _ Hinv)) as Hrep.
  pose proof (rep_length_pos _ _ _ Hrep). unfold playlist_delete_song.
  rewrite (queue_length_ok _ _ _ Hrep). cbn [mbind res_bind]. rewrite i32_small by lia.
  set (U := unversioned its). assert (length U = length its) as HU by apply length_fmap.
  set (P := fun (k : nat) (w' : world) => exists its' ord', w_inv w' its' ord' /\ quiet w' /\
    unversioned its' = take k U ++ other_songs s (drop k U)).
  eapply (safe_bind_mono _ _ _ (P 0%nat)).
  - unfold for_down. replace (Z.to_nat (Z.of_nat (length its) - 1 - -1)) with (length its) by lia.
    replace 0%nat with (length its - length its)%nat by lia. apply (for_dn_safe _ P); [lia| |].
    { exists its, ord. split_and!; try done. rewrite drop_ge, take_ge by lia.
      by rewrite app_nil_r. }
    intros k w1 Hk (its1 & ord1 & Hinv1 & Hquiet1 & HU1).
    pose proof (inv_rep _ _ _ (inv_queue _ _ _ Hinv1)) as Hrep1.
    destruct (lookup_lt_is_Some_2 U k) as [x Hx]; [lia|].
    assert (unversioned its1 !! k = Some x) as Hx1.
    { rewrite HU1, lookup_app_l by (rewrite length_take; lia). by rewrite lookup_take_lt by lia. }
    unfold unversioned in Hx1. rewrite list_lookup_fmap in Hx1.
    apply fmap_Some in Hx1 as (it & Hit & ->). pose proof (lookup_lt_Some _ _ _ Hit) as Hkl.
    rewrite (queue_get_ok _ _ _ Hrep1 _ _ Hit). cbn [mbind res_bind]. unfold song_eqb.
    destruct (Z.eqb_spec (song_ptr s) (song_ptr (item_song it))) as [He|Hne].
    + destruct (rep_ord_find _ _ _ Hrep1 k Hkl) as [o Ho]. apply safe_bind.
      eapply safe_mono; [apply (playlist_delete_ok w1 its1 ord1 k o); try done;
        by apply quiet_delete_safe|].
      intros [r w2] (_ & its2 & Hu2 & ord2 & Hinv2 & _ & Hp2 & Hf2). exists its2, ord2.
      split_and!; [done|by eapply quiet_step|].
      rewrite Hu2, unversioned_deleted, HU1, delete_middle by lia. f_equal.
      rewrite (drop_S _ _ _ Hx). unfold other_songs at 2. rewrite filter_cons_False; [done|]. simpl. congruence.
    + simpl. exists its1, ord1. split_and!; try done. rewrite HU1, (take_S_r _ _ _ Hx).
      rewrite <- app_assoc. simpl. f_equal. rewrite (drop_S _ _ _ Hx). unfold other_songs at 2.
      rewrite filter_cons_True; [done|]. simpl. congruence.
  - intros w1 (its1 & ord1 & Hinv1 & _ & HU1). simpl. exists its1, ord1. split; [|done].
    destruct (pc_song_deleted_frame s (w_player w1)) as (H1 & H2 & _).
    destruct Hinv1. split; try done; simpl; [auto|intros; rewrite H2; auto].
Qed.

End with_player.

(** * Playlist operations keep the invariant: next song, player events

    [playlist_next()], [playlist_song_started()],
    [playlist_resume_playback()] and [playlist_sync()]. *)

Section with_player.
Context {G : GLib} {HG : GLibSpec G} {T : PlayerThread} {HT : PlayerThreadSpec T}.

(** Consume mode deletes one song, otherwise nothing happens. *)
Lemma playlist_consume_ok w its ord (c p : nat) :
  w_inv w its ord -> ord !! c = Some p ->
  (q_consume (w_queue w) = true -> delete_safe w (Z.of_nat (length its)) c) ->
  safe thread_may_hang (playlist_consume (Z.of_nat c) w) (fun w' => exists its',
    unversioned its' = (if q_consume (w_queue w) then delete p (unversioned its)
                        else unversioned its) /\
    settled its' (cursor_id its ord (if q_consume (w_queue w)
        then delete_current w (Z.of_nat (length its)) c else w_current w))
      (if q_consume (w_queue w) then delete_playing w (Z.of_nat (length its)) c
       else w_playing w) (w_queue w) w').
Proof.
  intros Hinv Hp Hsafe. pose proof (inv_rep _ _ _ (inv_queue _ _ _ Hinv)) as Hrep.
  pose proof (rep_length_pos _ _ _ Hrep). pose proof (rep_ord_lt _ _ _ Hrep _ _ Hp) as Hpl.
  pose proof (lookup_lt_Some _ _ _ Hp) as Hcl. rewrite (rep_length_ord _ _ _ Hrep) in Hcl.
  unfold playlist_consume. destruct (q_consume (w_queue w)) eqn:Hc.
  - rewrite u32_small by lia. rewrite (queue_order_to_position_ok _ _ _ Hrep _ _ Hp).
    cbn [mbind res_bind]. apply safe_bind.
    eapply safe_mono; [apply (playlist_delete_ok w its ord p c); auto|].
    intros [r w'] (_ & its' & Hu & Hset). exists its'. split; [|done].
    by rewrite Hu, unversioned_deleted.
  - exists its. split; [done|]. by apply settled_same.
Qed.

Lemma w_inv_no_current w its ord :
  w_inv w its ord -> w_playing w = false -> w_inv (set_current (-1) w) its ord.
Proof. intros [] Hp. split; wsimpl; fin. Qed.

(** ** [playlist_next()] *)

(** The song that is started, before consume mode deletes the old one. *)
Lemma next_started_ok w its ord (c : nat) :
  w_inv w its ord -> w_playing w = true -> w_current w = Z.of_nat c ->
  let n := w_next_order w (Z.of_nat (length its)) in
  safe thread_may_hang (
    if n <? 0 then w ← playlist_stop w; Ok (set_current (-1) w)
    else
      w ← (if (n =? 0) && q_random (w_queue w) then
             assert (q_repeat (w_queue w));;
             q ← queue_shuffle_order (w_queue w);
             Ok (set_queue q w)
           else Ok w);
      playlist_play_order n w)
  (fun w' => exists ord', w_inv w' its ord' /\ w_current w' = n /\ w_playing w' = (0 <=? n) /\
     q_frame (w_queue w) (w_queue w') /\
     (0 < n \/ q_random (w_queue w) = false -> ord' = ord)).
Proof.
  intros Hinv Hplay Hc n. pose proof Hinv as [Hq Hcr Hp ? ? Hpl ?].
  pose proof (inv_rep _ _ _ Hq) as Hrep. specialize (Hp Hplay).
  assert (-1 <= n < Z.of_nat (length its)) as Hn
    by (apply next_order_spec_range; lia).
  destruct (Z.ltb_spec n 0) as [Hn0|Hn0].
  - apply safe_bind. eapply safe_mono; [by eapply weaken_hang, playlist_stop_ok, w_inv_stoppable|].
    intros w1 ((ord1 & Hinv1 & _ & Hp1 & Hf1) & Hfix & _). simpl. exists ord1.
    assert (n = -1) as -> by lia. split_and!; try done; [by apply w_inv_no_current|].
    intros [|Hr]; [lia|]. destruct (Hfix Hr) as [Hqq _].
    rewrite (inv_ident _ _ _ Hq Hr), (inv_ident _ _ _ (inv_queue _ _ _ Hinv1)); [done|congruence].
  - destruct (cursor_valid n (length its)) as (o & Ho & Hol); [lia|]. rewrite Ho in *.
    rewrite (proj2 (Z.leb_le 0 (Z.of_nat o))) by lia.
    destruct ((Z.of_nat o =? 0) && q_random (w_queue w)) eqn:Hsh.
    + apply andb_true_iff in Hsh as [Ho0%Z.eqb_eq Hr].
      rewrite (next_order_spec_zero (q_repeat (w_queue w)) (q_single (w_queue w))
        (q_consume (w_queue w)) (Z.of_nat (length its)) (w_current w))
        by (lia || (change (n = 0); lia)).
      cbn [mbind res_bind assert].
      destruct (q_inv_shuffle_order _ _ _ Hq Hr) as (q1 & ord1 & -> & Hq1 & Hf1 & _).
      cbn [mbind res_bind]. eapply safe_mono.
      { by eapply weaken_hang, (playlist_play_order_ok (set_queue q1 w) its ord1 o). }
      intros w2 (Hinv2 & Hc2 & Hp2 & Hq2 & _). exists ord1. split_and!; try done; [by rewrite Hq2|].
      intros [|]; [lia|congruence].
    + cbn [mbind res_bind]. eapply safe_mono.
      { by eapply weaken_hang, (playlist_play_order_ok w its ord o). }
      intros w2 (Hinv2 & Hc2 & Hp2 & Hq2 & _). exists ord. by split_and!; [| | |rewrite Hq2|].
Qed.

(** [playlist_next()] goes to the next song of the order, or stops at its
    end; consume mode deletes one song afterwards. *)
Lemma playlist_next_ok w its ord :
  w_inv w its ord -> w_playing w = true ->
  let n := w_next_order w (Z.of_nat (length its)) in
  safe thread_may_hang (playlist_next w) (fun w' => exists its' p ord1,
    unversioned its' = (if q_consume (w_queue w) then delete p (unversioned its)
                        else unversioned its) /\
    settled its' (cursor_id its ord1 n) (0 <=? n) (w_queue w) w' /\
    (0 < n \/ q_random (w_queue w) = false -> ord1 = ord /\ ord !! Z.to_nat (w_current w) = Some p)).
Proof.
  intros Hinv Hplay n. pose proof Hinv as [Hq Hcr Hp ? ? Hpl ?].
  pose proof (inv_rep _ _ _ Hq) as Hrep. pose proof (rep_length_pos _ _ _ Hrep).
  specialize (Hp Hplay).
  destruct (cursor_valid (w_current w) (length its)) as (c & Hcc & Hcl); [lia|].
  unfold playlist_next. rewrite Hplay. cbn [negb].
  replace (queue_is_empty (w_queue w)) with false
    by (symmetry; apply Z.eqb_neq; rewrite (rep_len _ _ _ Hrep); lia).
  unfold queue_valid_order. rewrite Hcc, (u32_small (Z.of_nat c)) by lia.
  rewrite (rep_lt_length _ _ _ Hrep c) by done.
  cbn [mbind res_bind assert negb]. change (w_queue (set_stop_on_error false w)) with (w_queue w).
  change (w_current (set_stop_on_error false w)) with (w_current w).
  rewrite Hcc, u32_small by lia.
  rewrite (queue_next_order_ok _ _ _ _ Hrep Hcl), <- Hcc.
  fold (w_next_order w (Z.of_nat (length its))). fold n. cbn [mbind res_bind].
  assert (w_inv (set_stop_on_error false w) its ord) as Hinv1 by (destruct Hinv; by split).
  eapply safe_bind_mono; [by apply (next_started_ok (set_stop_on_error false w) its ord c)|].
  change (w_next_order (set_stop_on_error false w)) with (w_next_order w). fold n.
  intros w1 (ord1 & Hinv2 & Hc2 & Hp2 & Hf2 & Hord).
  change (w_queue (set_stop_on_error false w)) with (w_queue w) in *.
  pose proof (inv_rep _ _ _ (inv_queue _ _ _ Hinv2)) as Hrep2.
  destruct (rep_ord_is_Some _ _ _ Hrep2 c Hcl) as [p Hpc]. rewrite Hcc.
  assert (q_consume (w_queue w1) = true -> w_current w1 <> Z.of_nat c) as Hne.
  { destruct Hf2 as [_ _ _ Hfc _]. rewrite Hfc, Hc2. intros Hcon. unfold n, w_next_order.
    rewrite Hcon, Hcc. apply next_order_spec_consume. lia. }
  eapply safe_mono; [apply (playlist_consume_ok w1 its ord1 c p); try done|].
  { intros Hcon. right. right. left. auto. }
  intros w2 (its2 & Hu & Hset). exists its2, p, ord1.
  pose proof (frame_consume _ _ Hf2) as Hfc. rewrite Hfc in Hu, Hset, Hne. split; [done|]. split.
  - replace (if q_consume (w_queue w) then _ else w_current w1) with n in Hset.
    2:{ destruct (q_consume (w_queue w)) eqn:Hcon; [|done]. unfold delete_current.
        by rewrite (proj2 (Z.eqb_neq _ _)) by auto. }
    replace (if q_consume (w_queue w) then _ else w_playing w1) with (0 <=? n) in Hset.
    2:{ destruct (q_consume (w_queue w)) eqn:Hcon; [|done]. unfold delete_playing.
        rewrite (proj2 (Z.eqb_neq _ _)) by auto. by rewrite andb_true_r. }
    by eapply settled_frame.
  - intros Hcase. rewrite (Hord Hcase) in *. by rewrite Nat2Z.id.
Qed.

(** ** Events from the player *)

(** What consume mode demands when the player has started the queued song:
    the song that is deleted then is not the one being played, or random
    mode is off. *)
Definition started_safe (w : world) : Prop :=
  q_consume (w_queue w) = true -> q_random (w_queue w) = true -> w_queued w <> w_current w.

(** [playlist_song_started()]: the queued song becomes the current one, and
    consume mode deletes the old one. *)
Lemma playlist_song_started_ok w its ord :
  w_inv w its ord -> w_playing w = true -> next_song (w_player w) = None -> 0 <= w_queued w ->
  started_safe w ->
  safe thread_may_hang (playlist_song_started w) (fun w' => exists its' p playing id,
    unversioned its' = (if q_consume (w_queue w) then delete p (unversioned its)
                        else unversioned its) /\
    ord !! Z.to_nat (w_current w) = Some p /\ settled its' id playing (w_queue w) w' /\
    (q_consume (w_queue w) = false \/ w_queued w <> w_current w ->
     id = cursor_id its ord (w_queued w) /\ playing = true)).
Proof.
  intros Hinv Hplay Hn Hq0 Hsafe. pose proof Hinv as [Hq Hcr Hp Hqd ? Hpl ?].
  pose proof (inv_rep _ _ _ Hq) as Hrep. specialize (Hp Hplay).
  destruct (cursor_valid (w_current w) (length its)) as (c & Hcc & Hcl); [lia|].
  destruct (rep_ord_is_Some _ _ _ Hrep c Hcl) as [p Hpc].
  unfold playlist_song_started. rewrite no_next_song_true by done.
  rewrite (proj2 (Z.leb_le (-1) (w_queued w))) by lia. cbn [mbind res_bind assert].
  set (w1 := set_queued (-1) (set_current (w_queued w) w)).
  assert (w_inv w1 its ord) as Hinv1 by (split; subst w1; wsimpl; fin).
  rewrite Hcc. apply safe_bind. eapply safe_mono; [apply (playlist_consume_ok w1 its ord c p); try done|].
  - intros Hcon. destruct (q_random (w_queue w)) eqn:Hr; [|by left].
    right. right. left. rewrite <- Hcc. by apply Hsafe.
  - intros w2 (its2 & Hu & Hset). exists its2, p.
    eexists _, _. split; [exact Hu|]. split; [by rewrite Nat2Z.id|].
    split; [by eapply settled_idle_add|].
    intros Hcase. change (w_queue w1) with (w_queue w).
    destruct (q_consume (w_queue w)); [|done]. destruct Hcase as [|Hne]; [done|].
    unfold delete_current, delete_playing. change (w_current w1) with (w_queued w).
    rewrite (proj2 (Z.eqb_neq _ _)) by done. split; [done|].
    change (w_playing w1) with (w_playing w). by rewrite Hplay.
Qed.

(** [playlist_resume_playback()] stops after too many errors, otherwise it
    goes on with the next song. *)
Lemma playlist_resume_playback_ok w its ord :
  w_inv w its ord -> w_playing w = true -> pc_get_state (w_player w) = PLAYER_STATE_STOP ->
  safe thread_may_hang (playlist_resume_playback w) invariant.
Proof.
  intros Hinv Hplay Hst. unfold playlist_resume_playback. rewrite Hplay.
  rewrite (bool_decide_true (pc_get_state _ = _)) by done. cbn [mbind res_bind assert].
  set (w1 := if decide _ then set_error_count 0 w else _).
  assert (w_inv w1 its ord /\ w_playing w1 = true) as [Hinv1 Hplay1].
  { subst w1. destruct Hinv. case_decide; (split; [by split|done]). }
  rewrite (queue_length_ok _ _ _ (inv_rep _ _ _ (inv_queue _ _ _ Hinv1))). cbn [mbind res_bind].
  case_match.
  - eapply safe_mono; [by eapply weaken_hang, playlist_stop_ok, w_inv_stoppable|].
    intros w2 [(ord2 & Hinv2 & _) _]. by exists its, ord2.
  - eapply safe_mono; [by apply (playlist_next_ok w1 its ord)|].
    intros w2 (its2 & _ & _ & _ & (ord2 & Hinv2 & _) & _). by exists its2, ord2.
Qed.

(** Choosing the next song when none is queued. *)
Lemma update_unqueued_ok w its ord :
  w_inv w its ord -> w_queued w < 0 ->
  safe thread_may_hang (playlist_update_queued_song None w)
    (settled its (cursor_id its ord (w_current w)) (w_playing w) (w_queue w)).
Proof.
  intros Hinv Hlt. apply playlist_update_queued_song_ok, (w_inv_mid _ _ _ _ Hinv).
  unfold playlist_get_queued_song. by rewrite (proj2 (Z.ltb_lt _ _)), orb_true_r by done.
Qed.

Lemma playlist_sync_ok w its ord :
  w_inv w its ord -> started_safe w -> safe thread_may_hang (playlist_sync w) invariant.
Proof.
  intros Hinv Hsafe. unfold playlist_sync.
  destruct (w_playing w) eqn:Hplay; simpl; [|by exists its, ord].
  case_decide as Hst; [by eapply playlist_resume_playback_ok|].
  eapply (safe_bind_mono _ _ _ invariant).
  - destruct (no_next_song (w_player w)) eqn:Hn; simpl; [|by exists its, ord].
    destruct (Z.eqb_spec (w_queued w) (-1)); simpl; [by exists its, ord|].
    pose proof (inv_queued _ _ _ Hinv). unfold no_next_song in Hn.
    eapply safe_mono; [apply (playlist_song_started_ok w its ord); try done|].
    + unfold next_song. by destruct (pc_next_song _).
    + lia.
    + intros w' (its' & p & pl & id & _ & _ & (ord' & Hinv' & _) & _). by exists its', ord'.
  - intros w1 (its1 & ord1 & Hinv1). case_match eqn:Hc; [|by exists its1, ord1].
    apply andb_true_iff in Hc as [_ Hlt%Z.ltb_lt].
    eapply safe_mono; [by apply (update_unqueued_ok w1 its1 ord1)|].
    intros w2 (ord2 & Hinv2 & _). by exists its1, ord2.
Qed.

End with_player.
