(* ===== verification/PlaylistSafety.v ===== *)
(** * All commands of the playlist

    The playlist's operations as one type of commands, with the error
    results of each, and the invariant over every sequence of commands and
    moves of the player thread.

    The conditions a command must meet ([guard]) are exactly those without
    which an operation of the repository goes wrong; [PlaylistDefects]
    has the counterexamples. *)

From S2P Require Import Prelude Err GLib Song CString Uri Float EventPipe PlayQueue PlayQueueRep.
From S2P Require Import PlayQueueEdit PlayQueueDelete PlayQueueOrder.
From S2P Require Import PlayQueueInv PlayerControl Playlist.
From S2P Require Import PlaylistInv PlaylistEdit.
From S2P Require Import PlaylistDelete.
Local Open Scope Z_scope.

(** ** Commands *)

Inductive command :=
| CmdPlay (song : Z)
| CmdPlayId (id : Z)
| CmdStop
| CmdNext
| CmdPrevious
| CmdSeek (song : Z) (seek_time : float)
| CmdSeekId (id : Z) (seek_time : float)
| CmdSeekCurrent (seek_time : float) (relative : bool)
| CmdRepeat (status : bool)
| CmdSingle (status : bool)
| CmdConsume (status : bool)
| CmdRandom (status : bool)
| CmdClear
| CmdAppend (s : song)
| CmdSwap (song1 song2 : Z)
| CmdSwapId (id1 id2 : Z)
| CmdDelete (song : Z)
| CmdDeleteId (id : Z)
| CmdDeleteRange (start end_ : Z)
| CmdDeleteSong (s : song)
| CmdPriority (start end_ priority : Z)
| CmdPriorityId (id priority : Z)
| CmdMove (start end_ to : Z)
| CmdMoveId (id to : Z)
| CmdShuffle (start end_ : Z)
| CmdTagChanged
| CmdDatabaseModified
| CmdSync.

Definition unsigned_arg (x : Z) : Prop := 0 <= x < 2 ^ 32.
Definition int_arg (x : Z) : Prop := - 2 ^ 31 <= x < 2 ^ 31.

(** The arguments have their C types. *)
Definition args_ok (c : command) : Prop :=
  match c with
  | CmdPlay x | CmdPlayId x => int_arg x
  | CmdSeek x _ | CmdSeekId x _ | CmdDelete x | CmdDeleteId x => unsigned_arg x
  | CmdSwap x y | CmdSwapId x y | CmdDeleteRange x y | CmdShuffle x y =>
      unsigned_arg x /\ unsigned_arg y
  | CmdPriority x y p => unsigned_arg x /\ unsigned_arg y /\ 0 <= p < 256
  | CmdPriorityId x p => unsigned_arg x /\ 0 <= p < 256
  | CmdMove x y t => unsigned_arg x /\ unsigned_arg y /\ int_arg t
  | CmdMoveId x t => unsigned_arg x /\ int_arg t
  | _ => True
  end.

Section with_player.
Context {G : GLib} {HG : GLibSpec G} {T : PlayerThread} {HT : PlayerThreadSpec T}.

Definition done_with (m : res world) : res (mpd_err * world) := w ← m; Ok (MPD_SUCCESS, w).

Definition run (c : command) (w : world) : res (mpd_err * world) :=
  match c with
  | CmdPlay song => playlist_play song w
  | CmdPlayId id => playlist_play_id id w
  | CmdStop => done_with (playlist_stop w)
  | CmdNext => done_with (playlist_next w)
  | CmdPrevious => done_with (playlist_previous w)
  | CmdSeek song t => playlist_seek_song song t w
  | CmdSeekId id t => playlist_seek_song_id id t w
  | CmdSeekCurrent t relative => playlist_seek_current t relative w
  | CmdRepeat b => done_with (playlist_set_repeat b w)
  | CmdSingle b => done_with (playlist_set_single b w)
  | CmdConsume b => Ok (MPD_SUCCESS, playlist_set_consume b w)
  | CmdRandom b => done_with (playlist_set_random b w)
  | CmdClear => done_with (playlist_clear w)
  | CmdAppend s => '(r, _, w) ← playlist_append_song s w; Ok (r, w)
  | CmdSwap p1 p2 => playlist_swap_songs p1 p2 w
  | CmdSwapId id1 id2 => playlist_swap_songs_id id1 id2 w
  | CmdDelete p => playlist_delete p w
  | CmdDeleteId id => playlist_delete_id id w
  | CmdDeleteRange s e => playlist_delete_range s e w
  | CmdDeleteSong s => done_with (playlist_delete_song s w)
  | CmdPriority s e p => playlist_set_priority s e p w
  | CmdPriorityId id p => playlist_set_priority_id id p w
  | CmdMove s e t => playlist_move_range s e t w
  | CmdMoveId id t => playlist_move_id id t w
  | CmdShuffle s e => done_with (playlist_shuffle s e w)
  | CmdTagChanged => done_with (playlist_tag_changed w)
  | CmdDatabaseModified => done_with (playlist_increment_version_all w)
  | CmdSync => done_with (playlist_sync w)
  end.

(** The time [playlist_seek_current()] seeks to. *)
Definition not_negative (t : float) : float := if f_ltb t f_zero then f_zero else t.

(** Deleting the song at position [p] does not stop playback in random
    mode. *)
Definition delete_guard (w : world) (p : Z) : Prop :=
  forall o : nat, queue_position_to_order (w_queue w) p = Ok (Z.of_nat o) ->
    delete_safe w (q_length (w_queue w)) o.

(** A relative move needs a current song, and moves one song; the absolute
    value of the distance has to be an [int]. *)
Definition move_guard (w : world) (s e t : Z) : Prop :=
  s < e /\ (0 <= t \/ (e = s + 1 /\ 0 <= w_current w /\ - 2 ^ 31 < t)).

Definition guard (c : command) (w : world) : Prop :=
  match c with
  | CmdDelete p => p < q_length (w_queue w) -> delete_guard w p
  | CmdDeleteId id => forall p, queue_id_to_position (w_queue w) id = Ok p -> 0 <= p ->
      delete_guard w p
  | CmdDeleteRange _ _ | CmdDeleteSong _ => quiet w
  | CmdMove s e t => move_guard w s e t
  | CmdMoveId _ t => 0 <= t \/ (0 <= w_current w /\ - 2 ^ 31 < t)
  | CmdShuffle s _ => s < 2 ^ 32 - 1
  | CmdSync => started_safe w
  | CmdSeek _ t | CmdSeekId _ t => seek_fits (f64_of_f32 t) = true
  | CmdSeekCurrent t false => seek_fits (f64_of_f32 (not_negative t)) = true
  | CmdSeekCurrent t true => forall st p b a tt el,
      pc_get_status (w_player w) = Ok (st, p) -> status_info st = Some (b, a, tt, el) ->
      exists i, f_to_int el = Some i /\
        seek_fits (f64_of_f32 (not_negative (f32_add t (f32_of_Z i)))) = true
  | _ => True
  end.

(** ** Error results: the playlist is left alone *)

Section errors.
Context {w : world} {its : list queue_item} {ord : list nat} (Hinv : w_inv w its ord).

Lemma w_rep : q_rep (w_queue w) its ord.
Proof using Hinv. apply (inv_rep _ _ _ (inv_queue _ _ _ Hinv)). Qed.

Lemma w_length : q_length (w_queue w) = Z.of_nat (length its).
Proof using Hinv. apply (rep_len _ _ _ w_rep). Qed.

Lemma valid_position_spec p : queue_valid_position (w_queue w) p = (p <? Z.of_nat (length its)).
Proof using Hinv. unfold queue_valid_position. by rewrite w_length. Qed.

(** What [queue_id_to_position()] finds. *)
Lemma id_lookup_cases id :
  unsigned_arg id ->
  queue_id_to_position (w_queue w) id = Ok (-1) /\ (forall it, it ∈ its -> item_id it <> id) \/
  exists p it, its !! p = Some it /\ item_id it = id /\
    queue_id_to_position (w_queue w) id = Ok (Z.of_nat p).
Proof using Hinv.
  intros Hid. destruct (decide (id ∈ item_id <$> its)) as [He|Hne].
  - right. apply list_elem_of_fmap in He as (it & -> & [p Hp]%list_elem_of_lookup).
    exists p, it. split_and!; try done. by apply (queue_id_to_position_ok _ _ _ w_rep).
  - left. assert (forall it, it ∈ its -> item_id it <> id) as Hno.
    { intros it Hit <-. apply Hne. by apply list_elem_of_fmap_2. }
    split; [|done]. apply (queue_id_to_position_none _ _ _ w_rep); [apply Hid|].
    intros p it Hp. apply Hno. by apply list_elem_of_lookup_2 in Hp.
Qed.

Lemma playlist_delete_bad p :
  Z.of_nat (length its) <= p -> playlist_delete p w = Ok (PLAYLIST_BAD_RANGE, w).
Proof using Hinv.
  intros H. unfold playlist_delete. rewrite (queue_length_ok _ _ _ w_rep). simpl.
  by rewrite (proj2 (Z.leb_le _ _)).
Qed.

Lemma playlist_seek_song_bad p t :
  Z.of_nat (length its) <= p -> playlist_seek_song p t w = Ok (PLAYLIST_BAD_RANGE, w).
Proof using Hinv.
  intros H. unfold playlist_seek_song. rewrite valid_position_spec.
  by rewrite (proj2 (Z.ltb_ge _ _)).
Qed.

Lemma playlist_swap_songs_bad p1 p2 :
  Z.of_nat (length its) <= p1 \/ Z.of_nat (length its) <= p2 ->
  playlist_swap_songs p1 p2 w = Ok (PLAYLIST_BAD_RANGE, w).
Proof using Hinv.
  intros H. unfold playlist_swap_songs. rewrite !valid_position_spec.
  case_Z; simpl; try done; lia.
Qed.

(** A range that ends behind the last song is cut, an empty one ignored. *)
Lemma playlist_delete_range_cases s e :
  0 <= s ->
  (Z.of_nat (length its) <= s /\ playlist_delete_range s e w = Ok (PLAYLIST_BAD_RANGE, w)) \/
  (s < Z.of_nat (length its) /\ e <= s /\ playlist_delete_range s e w = Ok (MPD_SUCCESS, w)) \/
  exists s' e' : nat, s = Z.of_nat s' /\ (s' < e' <= length its)%nat /\
    Z.of_nat e' = e `min` Z.of_nat (length its) /\
    playlist_delete_range s e w = playlist_delete_range s (Z.of_nat e') w.
Proof using Hinv.
  intros H. unfold playlist_delete_range. rewrite (queue_length_ok _ _ _ w_rep). cbn [mbind res_bind].
  destruct (Z.leb_spec (Z.of_nat (length its)) s) as [Hs|Hs]; [by left|right].
  destruct (Z.leb_spec e s) as [He|He].
  - left. rewrite (proj2 (Z.ltb_ge _ e)) by lia. by rewrite (proj2 (Z.leb_le e s)) by lia.
  - right. exists (Z.to_nat s), (Z.to_nat (e `min` Z.of_nat (length its))).
    split_and!; try lia.
    rewrite (proj2 (Z.ltb_ge _ (Z.of_nat _))) by lia. rewrite Z2Nat.id by lia.
    destruct (Z.ltb_spec (Z.of_nat (length its)) e).
    + by replace (e `min` Z.of_nat (length its)) with (Z.of_nat (length its)) by lia.
    + by replace (e `min` Z.of_nat (length its)) with e by lia.
Qed.

Lemma playlist_set_priority_cases s e pr :
  0 <= s ->
  (Z.of_nat (length its) <= s /\ playlist_set_priority s e pr w = Ok (PLAYLIST_BAD_RANGE, w)) \/
  (s < Z.of_nat (length its) /\ e <= s /\
   playlist_set_priority s e pr w = Ok (MPD_SUCCESS, w)) \/
  exists s' e' : nat, s = Z.of_nat s' /\ (s' < e' <= length its)%nat /\
    Z.of_nat e' = e `min` Z.of_nat (length its) /\
    playlist_set_priority s e pr w = playlist_set_priority s (Z.of_nat e') pr w.
Proof using Hinv.
  intros H. unfold playlist_set_priority. rewrite (queue_length_ok _ _ _ w_rep). cbn [mbind res_bind].
  destruct (Z.leb_spec (Z.of_nat (length its)) s) as [Hs|Hs]; [by left|right].
  destruct (Z.leb_spec e s) as [He|He].
  - left. rewrite (proj2 (Z.ltb_ge _ e)) by lia. by rewrite (proj2 (Z.leb_le e s)) by lia.
  - right. exists (Z.to_nat s), (Z.to_nat (e `min` Z.of_nat (length its))).
    split_and!; try lia.
    rewrite (proj2 (Z.ltb_ge _ (Z.of_nat _))) by lia. rewrite Z2Nat.id by lia.
    destruct (Z.ltb_spec (Z.of_nat (length its)) e).
    + by replace (e `min` Z.of_nat (length its)) with (Z.of_nat (length its)) by lia.
    + by replace (e `min` Z.of_nat (length its)) with e by lia.
Qed.

Lemma playlist_shuffle_cases s e :
  0 <= s < 2 ^ 32 - 1 ->
  playlist_shuffle s e w = Ok w \/
  exists s' e' : nat, s = Z.of_nat s' /\ (S s' < e' <= length its)%nat /\
    playlist_shuffle s e w = playlist_shuffle s (Z.of_nat e') w.
Proof using Hinv.
  intros H. unfold playlist_shuffle. rewrite (queue_length_ok _ _ _ w_rep). cbn [mbind res_bind].
  rewrite u32_small by lia. set (e1 := if Z.of_nat (length its) <? e then _ else e).
  destruct (Z.leb_spec e1 (s + 1)) as [He|He]; [by left|right].
  assert (e1 <= Z.of_nat (length its)) by (subst e1; case_match; case_Z; lia).
  exists (Z.to_nat s), (Z.to_nat e1). split_and!; try lia.
  rewrite (proj2 (Z.ltb_ge _ (Z.of_nat _))) by lia. rewrite Z2Nat.id by lia.
  by rewrite (proj2 (Z.leb_gt e1 (s + 1))) by lia.
Qed.

(** An absolute move either fails, does nothing or has a destination
    within the queue. *)
Lemma playlist_move_cases s e t :
  0 <= s < e -> e < 2 ^ 32 -> 0 <= t < 2 ^ 31 ->
  ((Z.of_nat (length its) < e \/ Z.of_nat (length its) < t + (e - s)) /\
   playlist_move_range s e t w = Ok (PLAYLIST_BAD_RANGE, w)) \/
  (s = t /\ playlist_move_range s e t w = Ok (MPD_SUCCESS, w)) \/
  exists s' e' t' : nat, s = Z.of_nat s' /\ e = Z.of_nat e' /\ t = Z.of_nat t' /\
    (s' < e' <= length its)%nat /\ (t' + (e' - s') <= length its)%nat /\ s' <> t'.
Proof using Hinv.
  intros Hs He Ht. pose proof (rep_length_pos _ _ _ w_rep) as Hlen. unfold playlist_move_range.
  rewrite !valid_position_spec, (u32_small (e - 1)) by lia.
  destruct (Z.ltb_spec s (Z.of_nat (length its))), (Z.ltb_spec (e - 1) (Z.of_nat (length its)));
    simpl; try (left; split; [lia|done]).
  rewrite (queue_length_ok _ _ _ w_rep). cbn [mbind res_bind].
  rewrite (proj2 (Z.leb_le 0 t)), (u32_small (t + e - s - 1)) by lia. cbn [mbind res_bind].
  destruct (Z.leb_spec (Z.of_nat (length its)) (t + e - s - 1)) as [Hb|Hb]; simpl.
  { left. split; [lia|done]. }
  right. rewrite (i32_small s) by lia. destruct (Z.eqb_spec s t) as [->|Hst]; [by left|].
  right. exists (Z.to_nat s), (Z.to_nat e), (Z.to_nat t). lia.
Qed.

(** A relative move of one song. *)
Lemma playlist_move_relative_cases s t :
  0 <= s < 2 ^ 32 - 1 -> - 2 ^ 31 < t < 0 -> 0 <= w_current w ->
  (exists r, playlist_move_range s (s + 1) t w = Ok (r, w)) \/
  exists s' k cp : nat, s = Z.of_nat s' /\ t = - Z.of_nat k /\ (s' < length its)%nat /\
    (0 < k <= length its)%nat /\ cursor_pos ord (w_current w) = Some cp /\ cp <> s'.
Proof using Hinv.
  intros Hs Ht Hc. pose proof (rep_length_pos _ _ _ w_rep) as Hlen.
  pose proof (inv_current _ _ _ Hinv) as Hcr.
  destruct (cursor_valid (w_current w) (length its)) as (c & Hcc & Hcl); [lia|].
  destruct (rep_ord_is_Some _ _ _ w_rep c Hcl) as [cp Hcp].
  assert (cursor_pos ord (w_current w) = Some cp) as Hpos.
  { unfold cursor_pos. rewrite (proj2 (Z.ltb_ge _ _)) by lia. by rewrite Hcc, Nat2Z.id. }
  pose proof (rep_ord_lt _ _ _ w_rep _ _ Hcp) as Hcpl.
  unfold playlist_move_range. rewrite !valid_position_spec, (u32_small (s + 1 - 1)) by lia.
  destruct (Z.ltb_spec s (Z.of_nat (length its))), (Z.ltb_spec (s + 1 - 1) (Z.of_nat (length its)));
    simpl; try (left; by eexists).
  rewrite (queue_length_ok _ _ _ w_rep). cbn [mbind res_bind].
  rewrite (proj2 (Z.leb_gt 0 t)), (proj2 (Z.ltb_lt t 0)), c_abs_ok by lia. cbn [mbind res_bind].
  rewrite (i32_small (Z.of_nat (length its))) by lia.
  destruct (Z.ltb_spec (Z.of_nat (length its)) (Z.abs t)); [left; by eexists|].
  rewrite i32_small, (proj2 (Z.eqb_neq s t)) by lia.
  destruct (playlist_get_queued_song_ok _ _ _ Hinv) as [prev ->]. cbn [mbind res_bind].
  rewrite (cursor_position_code _ _ _ w_rep Hcr), Hpos. cbn [mbind res_bind].
  rewrite (proj2 (Z.leb_le 0 _)) by lia. rewrite u32_small by lia. cbn [andb].
  destruct (decide (cp = Z.to_nat s)) as [->|Hne].
  - rewrite Z2Nat.id, Z.leb_refl, (proj2 (Z.ltb_lt s (s + 1))) by lia. left. by eexists.
  - right. exists (Z.to_nat s), (Z.to_nat (- t)), cp. split_and!; try done; lia.
Qed.

End errors.

(** ** Every command keeps the invariant *)

Lemma done_with_safe h (m : res world) (Q : world -> Prop) :
  safe h m Q -> safe h (done_with m) (fun '(_, w) => Q w).
Proof. intros H. unfold done_with. by apply safe_bind. Qed.

Lemma wp_safe {A} h (m : res A) Q : wp m Q -> safe h m Q.
Proof. intros H. apply (safe_weaken False); [done|]. by apply safe_wp. Qed.

Definition kept (x : mpd_err * world) : Prop := invariant x.2.

Lemma done_with_kept h m (Q : world -> Prop) :
  safe h m Q -> (forall w, Q w -> invariant w) -> safe h (done_with m) kept.
Proof. intros H HQ. unfold done_with. apply safe_bind. eapply safe_mono; [done|]. auto. Qed.

Section commands.
Context {w : world} {its : list queue_item} {ord : list nat} (Hinv : w_inv w its ord).

Lemma kept_same r : kept (r, w).
Proof using Hinv. by exists its, ord. Qed.

Lemma delete_kept p :
  0 <= p -> (p < q_length (w_queue w) -> delete_guard w p) ->
  safe thread_may_hang (playlist_delete p w) kept.
Proof using HG HT Hinv.
  intros Hp Hg. rewrite (w_length Hinv) in Hg.
  destruct (Z.le_gt_cases (Z.of_nat (length its)) p) as [Hb|Hb].
  { rewrite (playlist_delete_bad Hinv) by done. apply kept_same. }
  specialize (Hg ltac:(lia)). rewrite <- (Z2Nat.id p) in * by done.
  destruct (rep_ord_find _ _ _ (w_rep Hinv) (Z.to_nat p)) as [o Ho]; [lia|].
  specialize (Hg o (queue_position_to_order_ok _ _ _ (w_rep Hinv) _ _ Ho)).
  rewrite (w_length Hinv) in Hg.
  eapply safe_mono; [apply (playlist_delete_ok w its ord _ o); try done; lia|].
  intros [r w'] [_ H]. by eapply edited_invariant.
Qed.

Lemma delete_range_kept s e :
  0 <= s -> quiet w -> safe thread_may_hang (playlist_delete_range s e w) kept.
Proof using HG HT Hinv.
  intros Hs Hq. destruct (playlist_delete_range_cases Hinv s e Hs)
    as [[_ ->]|[(_ & _ & ->)|(s' & e' & -> & Hse & _ & ->)]]; [apply kept_same..|].
  eapply safe_mono; [by apply (playlist_delete_range_ok w its ord)|].
  intros [r w'] (_ & its' & cur & pl & H & _). by eapply edited_invariant.
Qed.

Lemma priority_kept s e pr :
  0 <= s -> safe thread_may_hang (playlist_set_priority s e pr w) kept.
Proof using HG HT Hinv.
  intros Hs. destruct (playlist_set_priority_cases Hinv s e pr Hs)
    as [[_ ->]|[(_ & _ & ->)|(s' & e' & -> & Hse & _ & ->)]]; [apply kept_same..|].
  eapply safe_mono; [by apply (playlist_set_priority_ok w its ord)|].
  intros [r w'] (_ & H). by eapply edited_invariant.
Qed.

Lemma seek_kept p t :
  0 <= p -> seek_fits (f64_of_f32 t) = true -> safe thread_may_hang (playlist_seek_song p t w) kept.
Proof using HG HT Hinv.
  intros Hp Hfit. destruct (Z.le_gt_cases (Z.of_nat (length its)) p) as [Hb|Hb].
  { rewrite (playlist_seek_song_bad Hinv) by done. apply kept_same. }
  rewrite <- (Z2Nat.id p) in * by done.
  eapply safe_mono; [apply (playlist_seek_song_ok w its ord); [done|lia|done]|].
  intros [r w'] (_ & H). by eapply edited_invariant, settled_edited.
Qed.

Lemma swap_kept p1 p2 :
  0 <= p1 -> 0 <= p2 -> safe thread_may_hang (playlist_swap_songs p1 p2 w) kept.
Proof using HG HT Hinv.
  intros H1 H2.
  destruct (Z.le_gt_cases (Z.of_nat (length its)) p1), (Z.le_gt_cases (Z.of_nat (length its)) p2);
    try (rewrite (playlist_swap_songs_bad Hinv) by auto; apply kept_same).
  rewrite <- (Z2Nat.id p1), <- (Z2Nat.id p2) in * by done.
  eapply safe_mono; [apply (playlist_swap_songs_ok w its ord); [done|lia..]|].
  intros [r w'] (_ & H'). by eapply edited_invariant.
Qed.

Lemma move_kept s e t :
  unsigned_arg s -> unsigned_arg e -> int_arg t -> move_guard w s e t ->
  safe thread_may_hang (playlist_move_range s e t w) kept.
Proof using HG HT Hinv.
  unfold unsigned_arg, int_arg, move_guard. intros Hs He Ht [Hse Hg].
  destruct (Z.le_gt_cases 0 t) as [H0|H0].
  - destruct (playlist_move_cases Hinv s e t) as
      [[_ ->]|[[_ ->]|(s' & e' & t' & -> & -> & -> & H1 & H2 & H3)]]; try lia; [apply kept_same..|].
    eapply safe_mono; [by apply (playlist_move_range_ok w its ord)|].
    intros [r w'] (_ & cur & H & _). by eapply edited_invariant.
  - destruct Hg as [|[-> [Hc Hmin]]]; [lia|]. destruct (playlist_move_relative_cases Hinv s t) as
      [[r ->]|(s' & k & cp & -> & -> & H1 & H2 & H3 & H4)]; try lia; [apply kept_same|].
    eapply safe_mono; [by apply (playlist_move_relative_ok w its ord s' k cp)|].
    intros [r w'] (_ & H). by eapply edited_invariant.
Qed.

Lemma shuffle_kept s e :
  0 <= s < 2 ^ 32 - 1 -> safe thread_may_hang (done_with (playlist_shuffle s e w)) kept.
Proof using HG HT Hinv.
  intros Hs. destruct (playlist_shuffle_cases Hinv s e Hs) as [->|(s' & e' & -> & Hse & ->)].
  - apply (kept_same MPD_SUCCESS).
  - eapply done_with_kept; [by apply (playlist_shuffle_ok w its ord)|].
    intros w' (its' & _ & H). by eapply edited_invariant.
Qed.

Lemma play_kept song : int_arg song -> safe thread_may_hang (playlist_play song w) kept.
Proof using HG HT Hinv.
  intros Hs. eapply safe_mono; [by eapply weaken_hang, playlist_play_ok|].
  intros [r w'] (ord' & H & _). by exists its, ord'.
Qed.

End commands.

(** Seeking within the current song; a relative seek asks the player for
    the elapsed time first. *)
Lemma seek_current_kept w its ord t relative :
  w_inv w its ord -> guard (CmdSeekCurrent t relative) w ->
  safe thread_may_hang (playlist_seek_current t relative w) kept.
Proof.
  intros Hinv Hg. pose proof Hinv as [Hq Hc Hp ? ? Hpl Hn].
  unfold playlist_seek_current. destruct (w_playing w) eqn:Hplay; [|by eapply kept_same].
  cbn [negb]. specialize (Hp eq_refl). pose proof (rep_length_pos _ _ _ (inv_rep _ _ _ Hq)).
  destruct relative.
  - simpl in Hg. pose proof (weaken_hang _ _ _ (pc_get_status_ok _ Hpl)) as Hst.
    destruct (pc_get_status (w_player w)) as [[st p]|f]; [|by destruct f].
    destruct Hst as [Hok Hnext]. cbn [mbind res_bind].
    assert (w_inv (set_player p w) its ord) as Hinv1.
    { split; wsimpl; try fin. intros. destruct Hnext as [->|]; auto. }
    destruct (status_info st) as [[[[b a] tt] el]|] eqn:Hi; [|by exists its, ord].
    destruct (Hg st p b a tt el eq_refl Hi) as (i & -> & Hfit).
    apply (seek_kept Hinv1); [|done]. wsimpl. rewrite u32_small; lia.
  - apply (seek_kept Hinv); [|done]. rewrite u32_small; lia.
Qed.

(** A command that names a song by its identifier. *)
Lemma by_id_kept w its ord id (f : Z -> res (mpd_err * world)) :
  w_inv w its ord -> unsigned_arg id ->
  (forall p, queue_id_to_position (w_queue w) id = Ok p -> 0 <= p < Z.of_nat (length its) ->
   safe thread_may_hang (f p) kept) ->
  safe thread_may_hang (song ← queue_id_to_position (w_queue w) id;
    if song <? 0 then Ok (PLAYLIST_NO_SUCH_SONG, w) else f song) kept.
Proof.
  intros Hinv Hid Hf. destruct (id_lookup_cases Hinv id Hid) as [[He _]|(p & it & Hp & _ & He)];
    rewrite He; cbn [mbind res_bind].
  - simpl. by eapply kept_same.
  - apply lookup_lt_Some in Hp. rewrite (proj2 (Z.ltb_ge _ _)) by lia. apply Hf; [done|lia].
Qed.

Lemma play_id_kept w its ord id :
  w_inv w its ord -> int_arg id -> safe thread_may_hang (playlist_play_id id w) kept.
Proof.
  intros Hinv Hid. unfold playlist_play_id. case_match; [by eapply play_kept|].
  apply (by_id_kept w its ord); [done|apply u32_range|].
  intros p _ Hp. pose proof (rep_length_pos _ _ _ (w_rep Hinv)).
  eapply play_kept; [done|]. unfold int_arg. lia.
Qed.

Lemma swap_id_kept w its ord id1 id2 :
  w_inv w its ord -> unsigned_arg id1 -> unsigned_arg id2 ->
  safe thread_may_hang (playlist_swap_songs_id id1 id2 w) kept.
Proof.
  intros Hinv H1 H2. unfold playlist_swap_songs_id.
  destruct (id_lookup_cases Hinv id1 H1) as [[-> _]|(p1 & it1 & _ & _ & ->)],
    (id_lookup_cases Hinv id2 H2) as [[-> _]|(p2 & it2 & _ & _ & ->)]; cbn [mbind res_bind];
    try (by simpl; eapply kept_same);
    try (rewrite orb_true_r; by eapply kept_same).
  rewrite !(proj2 (Z.ltb_ge _ _)) by lia. simpl. apply (swap_kept Hinv); lia.
Qed.

(** No command goes wrong: with the invariant and the command's guard, it
    ends in a state with the invariant, or the player thread does not
    answer (which only some threads may do). *)
Lemma run_ok c w :
  invariant w -> args_ok c -> guard c w -> safe thread_may_hang (run c w) kept.
Proof.
  intros (its & ord & Hinv) Ha Hg. destruct c; simpl in Ha, Hg; unfold run.
  - by eapply play_kept.
  - by eapply play_id_kept.
  - eapply done_with_kept; [by eapply weaken_hang, playlist_stop_ok, w_inv_stoppable|].
    intros w' [(ord' & H & _) _]. by exists its, ord'.
  - destruct (w_playing w) eqn:Hp.
    + eapply done_with_kept; [by apply (playlist_next_ok w its ord)|].
      intros w' (its' & _ & _ & _ & (ord' & H & _) & _). by exists its', ord'.
    + unfold playlist_next. rewrite Hp. by eapply kept_same.
  - destruct (w_playing w) eqn:Hp.
    + eapply done_with_kept; [by eapply weaken_hang, (playlist_previous_ok w its ord)|].
      intros w' (o & H & _). by eapply started_invariant.
    + unfold playlist_previous. rewrite Hp. by eapply kept_same.
  - apply (seek_kept Hinv); [apply Ha|done].
  - apply (by_id_kept w its ord); [done..|]. intros p _ Hp. apply (seek_kept Hinv); [lia|done].
  - by apply (seek_current_kept w its ord).
  - eapply done_with_kept; [by eapply playlist_set_repeat_ok|].
    intros w' [[q H] _]. by eapply edited_invariant, settled_edited.
  - eapply done_with_kept; [by eapply playlist_set_single_ok|].
    intros w' [[q H] _]. by eapply edited_invariant, settled_edited.
  - exists its, ord. by apply playlist_set_consume_ok.
  - eapply done_with_kept; [by eapply playlist_set_random_ok|].
    intros w' [(id & q & H & _) _]. by eapply edited_invariant, settled_edited.
  - eapply done_with_kept; [by eapply weaken_hang, playlist_clear_ok|].
    intros w' (H & _). by exists [], [].
  - eapply safe_bind_mono; [by apply (playlist_append_song_ok w its ord)|].
    intros [[r id] w'] [Hfull Hroom]. simpl.
    destruct (Z.le_gt_cases (q_max_length (w_queue w)) (Z.of_nat (length its))) as [Hl|Hl].
    + destruct (Hfull Hl) as (_ & _ & ->). by exists its, ord.
    + destruct (Hroom ltac:(lia)) as (_ & i & v & cur & _ & _ & H & _).
      by eapply edited_invariant.
  - apply (swap_kept Hinv); apply Ha.
  - apply (swap_id_kept w its ord); [done|apply Ha..].
  - apply (delete_kept Hinv); [apply Ha|done].
  - apply (by_id_kept w its ord); [done..|]. intros p He Hp.
    apply (delete_kept Hinv); [lia|]. intros _. apply Hg; [done|lia].
  - apply (delete_range_kept Hinv); [apply Ha|done].
  - eapply done_with_kept; [by apply (playlist_delete_song_ok w its ord)|].
    intros w' (its' & ord' & H & _). by exists its', ord'.
  - apply (priority_kept Hinv), Ha.
  - apply (by_id_kept w its ord); [done|apply Ha|]. intros p _ Hp. apply (priority_kept Hinv). lia.
  - apply (move_kept Hinv); try apply Ha. done.
  - apply (by_id_kept w its ord); [done|apply Ha|]. intros p _ Hp.
    pose proof (rep_length_pos _ _ _ (w_rep Hinv)). unfold unsigned_arg, int_arg in Ha.
    rewrite u32_small by lia.
    apply (move_kept Hinv); unfold unsigned_arg, int_arg, move_guard; lia.
  - apply (shuffle_kept Hinv). unfold unsigned_arg in Ha. lia.
  - eapply done_with_kept; [by apply wp_safe, (playlist_tag_changed_ok w its ord)|].
    apply edited_invariant.
  - eapply done_with_kept; [by apply wp_safe, (playlist_increment_version_all_ok w its ord)|].
    apply edited_invariant.
  - eapply done_with_kept; [by apply (playlist_sync_ok w its ord)|]. done.
Qed.

(** ** The system: commands and the player thread *)

(** One step: a client's command, or a move of the player thread. *)
Inductive step : world -> world -> Prop :=
| StepCommand c w r w' :
    args_ok c -> guard c w -> run c w = Ok (r, w') -> step w w'
| StepThread w t' pc' n' :
    thread_move (p_thread (w_player w), p_control (w_player w), p_notify (w_player w))
      (t', pc', n') ->
    step w (set_player (Player _ pc' t' n') w).

(** The state after start-up: an empty queue and a stopped player. *)
Definition initial (w : world) : Prop :=
  exists max rand cur p, playlist_init max rand cur p = Ok w /\
    0 <= max /\ max * QUEUE_HASH_MULT < 2 ^ 32 /\ 0 <= cur < 2 ^ 32 /\
    player_ok p /\ next_song p = None.

Lemma thread_move_inv w its ord t' pc' n' :
  w_inv w its ord ->
  thread_move (p_thread (w_player w), p_control (w_player w), p_notify (w_player w)) (t', pc', n') ->
  w_inv (set_player (Player _ pc' t' n') w) its ord.
Proof.
  intros [Hq Hc Hp ? Hs Hpl Hn] Hm.
  destruct (thread_move_ok _ _ _ _ _ _ Hpl Hm) as [Hok Hnext]. split; wsimpl; try done.
  intros Hq1. unfold next_song. simpl. destruct Hnext as [->|]; [by apply Hn|done].
Qed.

Lemma step_invariant w w' : invariant w -> step w w' -> invariant w'.
Proof.
  intros Hinv Hstep. destruct Hstep as [c w r w' Ha Hg Hr|w t' pc' n' Hm].
  - pose proof (run_ok c w Hinv Ha Hg) as H. rewrite Hr in H. exact H.
  - destruct Hinv as (its & ord & Hinv). exists its, ord. by apply thread_move_inv.
Qed.

Lemma initial_invariant w : initial w -> invariant w.
Proof.
  intros (max & rand & cur & p & Hi & H0 & Hm & Hc & Hok & Hn). unfold playlist_init in Hi.
  destruct (queue_init_ok max rand cur) as (q & Hq & Hinv & _); try lia.
  rewrite Hq in Hi. injection Hi as <-. exists [], []. split; wsimpl; fin.
Qed.

Lemma reachable_invariant w w' : initial w -> rtc step w w' -> invariant w'.
Proof.
  intros Hi%initial_invariant Hs. induction Hs; eauto using step_invariant.
Qed.

End with_player.
