(* ===== verification/PlaylistDefects.v ===== *)
(** * A player thread that answers every command

    An executable instance of [PlayerThread] that meets
    [PlayerThreadSpec] and never hangs: what the playlist relies on can be
    met.  The thread of the repository is in [PlayerThread]. *)

From S2P Require Import Prelude Err GLib Float Song AudioFormat EventPipe PlayerControl PlayQueue CString Uri Playlist.
From S2P Require Import PlaylistInv PlaylistSafety.

Local Open Scope Z_scope.

(** Start the song in [next_song], or stop. *)
Definition simple_start (pc : player_control) : player_control :=
  pc_with_state PLAYER_STATE_PLAY (pc_with_next_song None pc).
Definition simple_stop (pc : player_control) : player_control :=
  pc_with_state PLAYER_STATE_STOP (pc_with_next_song None pc).

Definition simple_command (pc : player_control) : player_control :=
  match pc_command pc with
  | PLAYER_COMMAND_STOP | PLAYER_COMMAND_CLOSE_AUDIO | PLAYER_COMMAND_EXIT => simple_stop pc
  | PLAYER_COMMAND_SEEK => simple_start pc
  | PLAYER_COMMAND_CANCEL => pc_with_next_song None pc
  | PLAYER_COMMAND_QUEUE =>
      if decide (pc_state pc = PLAYER_STATE_STOP) then simple_start pc else pc
  | PLAYER_COMMAND_PAUSE =>
      match pc_state pc with
      | PLAYER_STATE_STOP => pc
      | PLAYER_STATE_PLAY => pc_with_state PLAYER_STATE_PAUSE pc
      | PLAYER_STATE_PAUSE => pc_with_state PLAYER_STATE_PLAY pc
      end
  | _ => pc
  end.

(** On its own the thread goes to the queued song, or stops at the end. *)
Inductive simple_move : unit * player_control * notify -> unit * player_control * notify -> Prop :=
| SimpleBorder pc n s :
    pc_next_song pc = Some s -> simple_move (tt, pc, n) (tt, pc_with_next_song None pc, n)
| SimpleEnd pc n :
    pc_next_song pc = None -> simple_move (tt, pc, n) (tt, simple_stop pc, n).

#[export] Instance simple_thread : PlayerThread := {|
  thread_state := unit;
  thread_run t pc n :=
    Ok (t, pc_with_command PLAYER_COMMAND_NONE
             (pc_with_error PLAYER_ERROR_NOERROR (simple_command pc)), n);
  thread_move := simple_move;
|}.

#[export, refine] Instance simple_thread_spec : PlayerThreadSpec simple_thread := {|
  thread_ok _ pc := quiescent pc;
  thread_may_hang := False;
|}.
Proof.
  - done.
  - intros _ pc pc' [Hc Hq] Hc' Hs' Hn'. split; [congruence|]. rewrite Hn', Hs'. done.
  - intros t pc0 pc n cmd [Hc Hq] Hs Hcmd Herr Hmay. rewrite <- Hs in Hq. simpl.
    unfold simple_command. rewrite Hcmd. split; [by destruct cmd, (pc_state pc)|].
    destruct cmd; simpl in Hmay |- *; try done;
      try (by rewrite <- Hmay in Hq; split; [split; simpl|auto]).
    + rewrite <- Hmay in Hq. destruct (pc_state pc) eqn:He; simpl; (split; [split|auto]); simpl;
        try done; rewrite ?He; done.
    + case_decide; simpl; by split; try split.
  - intros t pc n t' pc' n' [Hc Hq] Hm. inversion Hm; subst; simpl; (split; [by split|auto]).
Defined.

(** * Where the playlist goes wrong

    Concrete runs of the operations that the guards of [PlaylistSafety]
    exclude: failed assertions, accesses out of bounds, and [current] or the
    consumed song ending up on the wrong song.  They are computed with the
    instances [glib_first] and [simple_thread]. *)

(** A stopped player. *)
Definition demo_player : player := Player simple_thread (pc_new 1024 100) tt notify_init.

Definition demo_song (k : Z) : song := Song k "http://example.org/stream"%string None 0 0 None.

(** A playlist with songs [0..n-1] (the song's address is its number), after
    the given commands. *)
Fixpoint run_all (cs : list command) (w : world) : res world :=
  match cs with
  | [] => Ok w
  | c :: cs => '(_, w) ← run c w; run_all cs w
  end.

Definition demo (n : nat) (cs : list command) : res world :=
  w ← playlist_init 16 0 1 demo_player;
  run_all ((fun k => CmdAppend (demo_song (Z.of_nat k))) <$> seq 0 n) w ≫= run_all cs.

(** The numbers of the songs in the queue, in order of positions, and the
    number of the song [current] stands for. *)
Definition song_numbers (w : world) : res (list Z) :=
  len ← queue_length (w_queue w);
  for_range 0 len (fun i l => s ← queue_get (w_queue w) i; Ok (l ++ [song_ptr s])) [].

Definition current_number (w : world) : res Z :=
  s ← queue_get_order (w_queue w) (u32 (w_current w)); Ok (song_ptr s).

Definition observe (m : res world) : res (list Z * Z) :=
  w ← m; l ← song_numbers w; c ← current_number w; Ok (l, c).

(** ** [playlist_move_range()] *)

(** With song 3 playing, moving songs 0..2 behind it: the destination is only
    decremented by one, so the songs are written behind the end of the
    queue. *)
Lemma move_relative_range_defect :
  observe (demo 5 [CmdPlay 3; CmdMove 0 3 (-1)]) = Err Uninitialized.
Proof. vm_compute. reflexivity. Qed.

(** Without a current song the relative destination stays negative. *)
Lemma move_relative_no_current_defect :
  observe (demo 5 [CmdMove 0 1 (-1)]) = Err OutOfBounds.
Proof. vm_compute. reflexivity. Qed.

(** A range whose end is before its start is accepted. *)
Lemma move_reversed_range_defect :
  observe (demo 5 [CmdPlay 2; CmdMove 3 1 4]) = Err StackOverflow.
Proof. vm_compute. reflexivity. Qed.

(** Song 4 is playing; after moving songs 1 and 2 to position 3, [current]
    stands for song 2. *)
Lemma move_current_defect :
  observe (demo 6 [CmdPlay 4]) = Ok ([0; 1; 2; 3; 4; 5], 4) /\
  observe (demo 6 [CmdPlay 4; CmdMove 1 3 3]) = Ok ([0; 3; 4; 1; 2; 5], 2).
Proof. split; vm_compute; reflexivity. Qed.

(** ** Random mode *)

(** Deleting the only song while it plays. *)
Lemma delete_random_defect :
  observe (demo 1 [CmdRandom true; CmdPlay 0; CmdDelete 0]) = Err AssertFailed.
Proof. vm_compute. reflexivity. Qed.

(** Song 3 has been played; consume mode deletes song 2 instead, because the
    order has been shuffled meanwhile. *)
Lemma consume_random_defect :
  let before := [CmdRandom true; CmdRepeat true; CmdPlay 0; CmdNext; CmdNext; CmdNext;
                 CmdConsume true] in
  observe (demo 4 before) = Ok ([0; 1; 2; 3], 3) /\
  observe (demo 4 (before ++ [CmdNext])) = Ok ([0; 1; 3], 0).
Proof. split; vm_compute; reflexivity. Qed.

(** Song 3 is playing; appending song 9 makes [current] stand for song 9. *)
Lemma append_random_defect :
  let before := [CmdRandom true; CmdRepeat true; CmdPlay 0; CmdNext; CmdNext; CmdNext; CmdSync] in
  observe (demo 4 before) = Ok ([0; 1; 2; 3], 3) /\
  observe (demo 4 (before ++ [CmdAppend (demo_song 9)])) = Ok ([0; 1; 2; 3; 9], 9).
Proof. split; vm_compute; reflexivity. Qed.

(** Seeking within the current song (song 2) seeks in song 1: the order
    number is passed as a position. *)
Lemma seek_current_random_defect :
  let before := [CmdRandom true; CmdPlay 0; CmdNext] in
  observe (demo 4 before) = Ok ([0; 1; 2; 3], 2) /\
  observe (demo 4 (before ++ [CmdSeekCurrent f_zero false])) = Ok ([0; 1; 2; 3], 1).
Proof. split; vm_compute; reflexivity. Qed.

(** ** [playlist_shuffle()] *)

(** A range that starts at the largest [unsigned] number. *)
Lemma shuffle_wrap_defect :
  observe (demo 4 [CmdPlay 0; CmdShuffle (2 ^ 32 - 1) 4]) = Err AssertFailed.
Proof. vm_compute. reflexivity. Qed.

(** ** [abs(INT_MIN)] *)

(** A target of [-2^31], which the check of the range admits. *)
Lemma move_int_min_defect :
  observe (demo 5 [CmdMove 0 1 (- 2 ^ 31)]) = Err BadArithmetic.
Proof. vm_compute. reflexivity. Qed.
