(* ===== verification/DecoderControl.v ===== *)
(** * The decoder control object

    [struct decoder_control] of [src/decoder_control.h] and the player's side
    of it in [src/decoder_control.c].  The decoder thread itself is a
    parameter: a function that says what the thread has made of the object
    when the waiting player finds that [state] is not "pending" any more
    ([None] if that never happens); [decoder_spec] is what the player thread
    relies on. *)

From S2P Require Import Prelude Float Song AudioFormat.
Local Open Scope Z_scope.

(** ** Data *)

Inductive decoder_state :=
| DECODE_STATE_STOP
| DECODE_STATE_START
| DECODE_STATE_DECODE
| DECODE_STATE_ERROR
| DECODE_STATE_PENDING.

Inductive decoder_command :=
| DECODE_COMMAND_NONE
| DECODE_COMMAND_START
| DECODE_COMMAND_STOP
| DECODE_COMMAND_SEEK.

#[global] Instance decoder_state_eq_dec : EqDecision decoder_state.
Proof. solve_decision. Defined.
#[global] Instance decoder_command_eq_dec : EqDecision decoder_command.
Proof. solve_decision. Defined.

(** The music pipe is known by its address; [NULL] is [None].  The replay
    gain and mixramp data are left out: they are only used to compute how
    long a cross-fade is. *)
Record decoder_control := DecoderControl {
  dc_state : decoder_state;
  dc_command : decoder_command;
  dc_quit : bool;
  dc_seek_error : bool;
  dc_seekable : bool;
  dc_seek_where : double;
  dc_in_audio_format : audio_format;
  dc_out_audio_format : audio_format;
  dc_song : option song;
  dc_start_ms : Z;
  dc_end_ms : Z;
  dc_total_time : float;
  dc_pipe : option Z;
}.

Definition dc_with_command (s : decoder_state) (c : decoder_command) (dc : decoder_control)
  : decoder_control :=
  DecoderControl s c (dc_quit dc) (dc_seek_error dc) (dc_seekable dc) (dc_seek_where dc)
    (dc_in_audio_format dc) (dc_out_audio_format dc) (dc_song dc) (dc_start_ms dc)
    (dc_end_ms dc) (dc_total_time dc) (dc_pipe dc).
Definition dc_with_song (s : song) (start_ms end_ms : Z) (pipe : Z) (dc : decoder_control)
  : decoder_control :=
  DecoderControl (dc_state dc) (dc_command dc) (dc_quit dc) (dc_seek_error dc) (dc_seekable dc)
    (dc_seek_where dc) (dc_in_audio_format dc) (dc_out_audio_format dc) (Some s) start_ms end_ms
    (dc_total_time dc) (Some pipe).
Definition dc_with_seek (where_ : double) (dc : decoder_control) : decoder_control :=
  DecoderControl (dc_state dc) (dc_command dc) (dc_quit dc) false (dc_seekable dc) where_
    (dc_in_audio_format dc) (dc_out_audio_format dc) (dc_song dc) (dc_start_ms dc)
    (dc_end_ms dc) (dc_total_time dc) (dc_pipe dc).
Definition dc_with_pipe (pipe : option Z) (dc : decoder_control) : decoder_control :=
  DecoderControl (dc_state dc) (dc_command dc) (dc_quit dc) (dc_seek_error dc) (dc_seekable dc)
    (dc_seek_where dc) (dc_in_audio_format dc) (dc_out_audio_format dc) (dc_song dc)
    (dc_start_ms dc) (dc_end_ms dc) (dc_total_time dc) pipe.

(** [malloc()] does not clear the object; the fields that are not set here
    are written before they are read, and are zero in the model. *)
Definition dc_new : decoder_control :=
  DecoderControl DECODE_STATE_STOP DECODE_COMMAND_NONE false false false f_zero
    audio_format_clear audio_format_clear None 0 0 f_zero None.

Definition decoder_is_idle (dc : decoder_control) : bool :=
  bool_decide (dc_state dc = DECODE_STATE_STOP) || bool_decide (dc_state dc = DECODE_STATE_ERROR).

Definition decoder_is_starting (dc : decoder_control) : bool :=
  bool_decide (dc_state dc = DECODE_STATE_START).

Definition decoder_has_failed (dc : decoder_control) : res bool :=
  assert (bool_decide (dc_command dc = DECODE_COMMAND_NONE));;
  Ok (bool_decide (dc_state dc = DECODE_STATE_ERROR)).

Definition decoder_current_song (dc : decoder_control) : res (option song) :=
  match dc_state dc with
  | DECODE_STATE_STOP | DECODE_STATE_ERROR => Ok None
  | DECODE_STATE_START | DECODE_STATE_DECODE => Ok (dc_song dc)
  | DECODE_STATE_PENDING => Err AssertFailed
  end.

(** ** Operations *)

(** What the decoder thread does with a command. *)
Definition decoder_thread := decoder_control -> option decoder_control.

Section with_decoder.
Context (decode : decoder_thread).

Definition dc_send (cmd : decoder_command) (dc : decoder_control) : res decoder_control :=
  match decode (dc_with_command DECODE_STATE_PENDING cmd dc) with
  | None => Err NoAnswer
  | Some dc => if decide (dc_state dc = DECODE_STATE_PENDING) then Err NoAnswer else Ok dc
  end.

(** [empty] is [music_pipe_empty(pipe)]. *)
Definition dc_start (s : song) (start_ms end_ms pipe : Z) (empty : bool) (dc : decoder_control)
  : res decoder_control :=
  assert empty;;
  dc_send DECODE_COMMAND_START (dc_with_song s start_ms end_ms pipe dc).

Definition dc_stop (dc : decoder_control) : res decoder_control :=
  dc ← (if decide (dc_command dc = DECODE_COMMAND_NONE) then Ok dc
        else dc_send DECODE_COMMAND_STOP dc);
  if decoder_is_idle dc then Ok dc else dc_send DECODE_COMMAND_STOP dc.

Definition dc_seek (where_ : double) (dc : decoder_control) : res (bool * decoder_control) :=
  assert (negb (decoder_is_starting dc));;
  assert (f_leb f_zero where_);;
  if decoder_is_idle dc || negb (dc_seekable dc) then Ok (false, dc) else
  dc ← dc_send DECODE_COMMAND_SEEK (dc_with_seek where_ dc);
  Ok (negb (dc_seek_error dc), dc).

End with_decoder.

(** ** What the player relies on *)

(** The parts of the object that the player owns. *)
Definition same_song (dc dc' : decoder_control) : Prop :=
  dc_song dc' = dc_song dc /\ dc_pipe dc' = dc_pipe dc.

(** A decoder that has started has an output format. *)
Definition format_known (dc : decoder_control) : Prop :=
  dc_state dc = DECODE_STATE_DECODE \/ dc_state dc = DECODE_STATE_STOP ->
  audio_format_defined (dc_out_audio_format dc) = true.

(** A command is answered: [command] is cleared, the decoder is idle after
    [STOP], and is not starting after [SEEK]. *)
Record decoder_spec (decode : decoder_thread) : Prop := {
  decode_answers dc : exists dc', decode dc = Some dc' /\ same_song dc dc' /\
    dc_command dc' = DECODE_COMMAND_NONE /\ dc_state dc' <> DECODE_STATE_PENDING /\
    (dc_command dc = DECODE_COMMAND_STOP -> decoder_is_idle dc' = true) /\
    (dc_command dc = DECODE_COMMAND_SEEK -> dc_state dc' <> DECODE_STATE_START) /\
    (dc_command dc = DECODE_COMMAND_START -> format_known dc');
}.

(** What the decoder does on its own: it leaves the state [START], and
    becomes idle; an idle decoder stays idle. *)
Record decoder_progress (dc dc' : decoder_control) : Prop := {
  progress_same : same_song dc dc';
  progress_command : dc_command dc' = dc_command dc;
  progress_pending : dc_state dc <> DECODE_STATE_PENDING -> dc_state dc' <> DECODE_STATE_PENDING;
  progress_start : dc_state dc <> DECODE_STATE_START -> dc_state dc' <> DECODE_STATE_START;
  progress_idle : decoder_is_idle dc = true -> decoder_is_idle dc' = true;
  progress_format : format_known dc -> format_known dc';
}.
