(* ===== verification/PlayerThread.v ===== *)
(** * The player thread

    [src/player_thread.c].  The thread is idle in [player_task()] or inside
    the loop of [do_play()]; [struct_player] is [struct player] together with
    the objects it points to.  The decoder thread, the audio outputs and the
    contents of the music pipes are the thread's environment: what it finds
    there during one step is an [observation].  Tags and the duration of a
    cross-fade come from there, too.

    A step of the thread is one command, or one iteration of the loop with no
    command pending. *)

From S2P Require Import Prelude Float Song AudioFormat EventPipe PlayerControl DecoderControl.
Local Open Scope Z_scope.

(** ** Data *)

Inductive xfade_state :=
| XFADE_DISABLED
| XFADE_UNKNOWN
| XFADE_ENABLED.

#[global] Instance xfade_state_eq_dec : EqDecision xfade_state.
Proof. solve_decision. Defined.

(** Music pipes are numbered in the order of their creation; [y_pipes] is
    the number of the next one. *)
Record struct_player := StructPlayer {
  y_dc : decoder_control;
  y_pipes : Z;
  y_pc : player_control;
  y_notify : notify;
  y_pipe : Z;
  y_buffering : bool;
  y_decoder_starting : bool;
  y_paused : bool;
  y_queued : bool;
  y_output_open : bool;
  y_song : option song;
  y_xfade : xfade_state;
  y_cross_fading : bool;
  y_cross_fade_chunks : Z;
  y_play_audio_format : audio_format;
  y_elapsed_time : float;
}.

Definition y_set_dc (x : decoder_control) (y : struct_player) : struct_player :=
  StructPlayer x (y_pipes y) (y_pc y) (y_notify y) (y_pipe y) (y_buffering y)
    (y_decoder_starting y) (y_paused y) (y_queued y) (y_output_open y) (y_song y) (y_xfade y)
    (y_cross_fading y) (y_cross_fade_chunks y) (y_play_audio_format y) (y_elapsed_time y).
Definition y_set_pc (x : player_control) (y : struct_player) : struct_player :=
  StructPlayer (y_dc y) (y_pipes y) x (y_notify y) (y_pipe y) (y_buffering y)
    (y_decoder_starting y) (y_paused y) (y_queued y) (y_output_open y) (y_song y) (y_xfade y)
    (y_cross_fading y) (y_cross_fade_chunks y) (y_play_audio_format y) (y_elapsed_time y).
Definition y_set_notify (x : notify) (y : struct_player) : struct_player :=
  StructPlayer (y_dc y) (y_pipes y) (y_pc y) x (y_pipe y) (y_buffering y) (y_decoder_starting y)
    (y_paused y) (y_queued y) (y_output_open y) (y_song y) (y_xfade y) (y_cross_fading y)
    (y_cross_fade_chunks y) (y_play_audio_format y) (y_elapsed_time y).
Definition y_set_pipe (x : Z) (y : struct_player) : struct_player :=
  StructPlayer (y_dc y) (y_pipes y) (y_pc y) (y_notify y) x (y_buffering y)
    (y_decoder_starting y) (y_paused y) (y_queued y) (y_output_open y) (y_song y) (y_xfade y)
    (y_cross_fading y) (y_cross_fade_chunks y) (y_play_audio_format y) (y_elapsed_time y).
Definition y_set_buffering (x : bool) (y : struct_player) : struct_player :=
  StructPlayer (y_dc y) (y_pipes y) (y_pc y) (y_notify y) (y_pipe y) x (y_decoder_starting y)
    (y_paused y) (y_queued y) (y_output_open y) (y_song y) (y_xfade y) (y_cross_fading y)
    (y_cross_fade_chunks y) (y_play_audio_format y) (y_elapsed_time y).
Definition y_set_decoder_starting (x : bool) (y : struct_player) : struct_player :=
  StructPlayer (y_dc y) (y_pipes y) (y_pc y) (y_notify y) (y_pipe y) (y_buffering y) x
    (y_paused y) (y_queued y) (y_output_open y) (y_song y) (y_xfade y) (y_cross_fading y)
    (y_cross_fade_chunks y) (y_play_audio_format y) (y_elapsed_time y).
Definition y_set_paused (x : bool) (y : struct_player) : struct_player :=
  StructPlayer (y_dc y) (y_pipes y) (y_pc y) (y_notify y) (y_pipe y) (y_buffering y)
    (y_decoder_starting y) x (y_queued y) (y_output_open y) (y_song y) (y_xfade y)
    (y_cross_fading y) (y_cross_fade_chunks y) (y_play_audio_format y) (y_elapsed_time y).
Definition y_set_queued (x : bool) (y : struct_player) : struct_player :=
  StructPlayer (y_dc y) (y_pipes y) (y_pc y) (y_notify y) (y_pipe y) (y_buffering y)
    (y_decoder_starting y) (y_paused y) x (y_output_open y) (y_song y) (y_xfade y)
    (y_cross_fading y) (y_cross_fade_chunks y) (y_play_audio_format y) (y_elapsed_time y).
Definition y_set_output_open (x : bool) (y : struct_player) : struct_player :=
  StructPlayer (y_dc y) (y_pipes y) (y_pc y) (y_notify y) (y_pipe y) (y_buffering y)
    (y_decoder_starting y) (y_paused y) (y_queued y) x (y_song y) (y_xfade y) (y_cross_fading y)
    (y_cross_fade_chunks y) (y_play_audio_format y) (y_elapsed_time y).
Definition y_set_song (x : option song) (y : struct_player) : struct_player :=
  StructPlayer (y_dc y) (y_pipes y) (y_pc y) (y_notify y) (y_pipe y) (y_buffering y)
    (y_decoder_starting y) (y_paused y) (y_queued y) (y_output_open y) x (y_xfade y)
    (y_cross_fading y) (y_cross_fade_chunks y) (y_play_audio_format y) (y_elapsed_time y).
Definition y_set_xfade (x : xfade_state) (y : struct_player) : struct_player :=
  StructPlayer (y_dc y) (y_pipes y) (y_pc y) (y_notify y) (y_pipe y) (y_buffering y)
    (y_decoder_starting y) (y_paused y) (y_queued y) (y_output_open y) (y_song y) x
    (y_cross_fading y) (y_cross_fade_chunks y) (y_play_audio_format y) (y_elapsed_time y).
Definition y_set_play_audio_format (x : audio_format) (y : struct_player) : struct_player :=
  StructPlayer (y_dc y) (y_pipes y) (y_pc y) (y_notify y) (y_pipe y) (y_buffering y)
    (y_decoder_starting y) (y_paused y) (y_queued y) (y_output_open y) (y_song y) (y_xfade y)
    (y_cross_fading y) (y_cross_fade_chunks y) x (y_elapsed_time y).
Definition y_set_elapsed_time (x : float) (y : struct_player) : struct_player :=
  StructPlayer (y_dc y) (y_pipes y) (y_pc y) (y_notify y) (y_pipe y) (y_buffering y)
    (y_decoder_starting y) (y_paused y) (y_queued y) (y_output_open y) (y_song y) (y_xfade y)
    (y_cross_fading y) (y_cross_fade_chunks y) (y_play_audio_format y) x.
Definition y_set_fade (cross_fading : bool) (chunks : Z) (y : struct_player) : struct_player :=
  StructPlayer (y_dc y) (y_pipes y) (y_pc y) (y_notify y) (y_pipe y) (y_buffering y)
    (y_decoder_starting y) (y_paused y) (y_queued y) (y_output_open y) (y_song y) (y_xfade y)
    cross_fading chunks (y_play_audio_format y) (y_elapsed_time y).
Definition y_new_pipe (y : struct_player) : struct_player :=
  StructPlayer (y_dc y) (y_pipes y + 1) (y_pc y) (y_notify y) (y_pipe y) (y_buffering y)
    (y_decoder_starting y) (y_paused y) (y_queued y) (y_output_open y) (y_song y) (y_xfade y)
    (y_cross_fading y) (y_cross_fade_chunks y) (y_play_audio_format y) (y_elapsed_time y).

(** A chunk as [play_chunk()] sees it. *)
Record music_chunk := MusicChunk {
  mc_length : Z;
  mc_bit_rate : Z;
  mc_has_tag : bool;
}.

(** The environment during one step: the decoder's answers to commands
    ([ob_decode]) and what it has done on its own before the step
    ([ob_progress]) and while the player waits for it to start
    ([ob_startup]); the music pipes; the audio outputs. *)
Record observation := Observation {
  ob_decode : decoder_thread;
  ob_progress : decoder_control -> decoder_control;
  ob_startup : list (decoder_control -> decoder_control);
  ob_pipe_size : Z;           (* music_pipe_size(player->pipe) *)
  ob_pipe_empty : bool;       (* music_pipe_empty(player.pipe), looked at again *)
  ob_chunk : music_chunk;     (* music_pipe_shift(player->pipe) *)
  ob_other : option music_chunk;  (* music_pipe_shift(dc->pipe) *)
  ob_cross_fade : Z;          (* cross_fade_calc() *)
  ob_output_check : Z;        (* audio_output_all_check() *)
  ob_output_wait : bool;      (* audio_output_all_wait() *)
  ob_output_open : bool;      (* audio_output_all_open() *)
  ob_output_play : bool;      (* audio_output_all_play() *)
  ob_output_elapsed : float;  (* audio_output_all_get_elapsed_time() *)
}.

Definition y_on_pc (f : player_control -> player_control) (y : struct_player) : struct_player :=
  y_set_pc (f (y_pc y)) y.
Definition y_idle_add (flags : Z) (y : struct_player) : struct_player :=
  y_set_notify (idle_add flags (y_notify y)) y.
Definition y_emit (e : pipe_event) (y : struct_player) : struct_player :=
  y_set_notify (event_pipe_emit e (y_notify y)) y.
Definition y_command (y : struct_player) : player_command_t := pc_command (y_pc y).

(** ** Acknowledging a command *)

Definition pc_finished (pc : player_control) : res player_control :=
  assert (negb (bool_decide (pc_command pc = PLAYER_COMMAND_NONE)));;
  let pc := pc_with_command PLAYER_COMMAND_NONE pc in
  Ok (if decide (pc_error pc = PLAYER_ERROR_PENDING)
      then pc_with_error PLAYER_ERROR_NOERROR pc else pc).

Definition player_command_finished (y : struct_player) : res struct_player :=
  pc ← pc_finished (y_pc y); Ok (y_set_pc pc y).

(** ** The decoder *)

Definition player_dc_at_current_song (y : struct_player) : bool :=
  bool_decide (dc_pipe (y_dc y) = Some (y_pipe y)).

Definition player_dc_at_next_song (y : struct_player) : bool :=
  negb (bool_decide (dc_pipe (y_dc y) = None)) && negb (player_dc_at_current_song y).

Definition real_song_duration (s : song) (decoder_duration : double) : double :=
  if f_leb decoder_duration f_zero then song_get_duration s
  else if (0 <? song_end_ms s) && f_ltb (ms_to_s (song_end_ms s)) decoder_duration
  then ms_to_s (u32 (song_end_ms s - song_start_ms s))
  else f64_sub decoder_duration (ms_to_s (song_start_ms s)).

Section with_environment.
Context (ob : observation).

(** The pipe is a new one, or has just been cleared. *)
Definition player_dc_start (pipe : Z) (y : struct_player) : res struct_player :=
  assert (y_queued y || bool_decide (y_command y = PLAYER_COMMAND_SEEK));;
  match pc_next_song (y_pc y) with
  | None => Err AssertFailed
  | Some s =>
      start_ms ← (if decide (y_command y = PLAYER_COMMAND_SEEK) then
                    match f_to_unsigned (f64_mul (pc_seek_where (y_pc y)) (f64_of_Z 1000)) with
                    | Some ms => Ok (u32 (song_start_ms s + ms))
                    | None => Err BadConversion
                    end
                  else Ok (u32 (song_start_ms s)));
      dc ← dc_start (ob_decode ob) s start_ms (song_end_ms s) pipe true (y_dc y);
      Ok (y_set_dc dc y)
  end.

Definition player_dc_stop (y : struct_player) : res struct_player :=
  dc ← dc_stop (ob_decode ob) (y_dc y);
  Ok (y_set_dc (dc_with_pipe None dc) y).

Definition player_wait_for_decoder (y : struct_player) : res (bool * struct_player) :=
  assert (y_queued y || bool_decide (y_command y = PLAYER_COMMAND_SEEK));;
  match pc_next_song (y_pc y) with
  | None => Err AssertFailed
  | Some s =>
      let y := y_set_queued false y in
      failed ← decoder_has_failed (y_dc y);
      if failed : bool then
        Ok (false, y_on_pc (fun pc => pc_with_next_song None (pc_with_error PLAYER_ERROR_FILE
                     (pc_with_errored_song (dc_song (y_dc y)) pc))) y)
      else
        let y := y_set_decoder_starting true (y_set_elapsed_time f_zero (y_set_song (Some s) y)) in
        let y := y_on_pc (fun pc => pc_with_next_song None
                   (pc_with_song_info 0 audio_format_clear (f32_of_f64 (song_get_duration s))
                      (pc_elapsed_time pc) pc)) y in
        Ok (true, y_emit PIPE_EVENT_PLAYLIST y)
  end.

Definition player_open_output (y : struct_player) : res (bool * struct_player) :=
  assert (audio_format_defined (y_play_audio_format y));;
  assert (negb (bool_decide (pc_state (y_pc y) = PLAYER_STATE_STOP)));;
  if ob_output_open ob then
    let y := y_set_paused false (y_set_output_open true y) in
    let y := y_on_pc (pc_with_state PLAYER_STATE_PLAY) y in
    Ok (true, y_idle_add IDLE_PLAYER y)
  else
    let y := y_set_paused true (y_set_output_open false y) in
    let y := y_on_pc (fun pc => pc_with_state PLAYER_STATE_PAUSE
               (pc_with_error PLAYER_ERROR_AUDIO pc)) y in
    Ok (false, y_idle_add IDLE_PLAYER y).

Definition player_check_decoder_startup (y : struct_player) : res (bool * struct_player) :=
  assert (y_decoder_starting y);;
  failed ← decoder_has_failed (y_dc y);
  if failed : bool then
    Ok (false, y_on_pc (fun pc => pc_with_error PLAYER_ERROR_FILE
                 (pc_with_errored_song (dc_song (y_dc y)) pc)) y)
  else if negb (decoder_is_starting (y_dc y)) then
    if y_output_open y && negb (ob_output_wait ob) then Ok (true, y) else
    match dc_song (y_dc y) with
    | None => Err AssertFailed
    | Some s =>
        let y := y_on_pc (fun pc => pc_with_song_info (pc_bit_rate pc) (dc_in_audio_format (y_dc y))
                   (f32_of_f64 (real_song_duration s (f64_of_f32 (dc_total_time (y_dc y)))))
                   (pc_elapsed_time pc) pc) y in
        let y := y_idle_add IDLE_PLAYER y in
        let y := y_set_decoder_starting false
                   (y_set_play_audio_format (dc_out_audio_format (y_dc y)) y) in
        if negb (y_paused y) then '(_, y) ← player_open_output y; Ok (true, y) else Ok (true, y)
    end
  else Ok (true, y).

Definition player_send_silence (y : struct_player) : res bool :=
  assert (y_output_open y);;
  assert (audio_format_defined (y_play_audio_format y));;
  Ok true.

(** ** Commands during playback *)

(** [while (player->decoder_starting)]: every round the decoder may have made
    progress.  A decoder that never starts is waited for forever. *)
Fixpoint wait_startup (progress : list (decoder_control -> decoder_control)) (y : struct_player)
  : res (bool * struct_player) :=
  if negb (y_decoder_starting y) then Ok (true, y) else
  match progress with
  | [] => Err NoAnswer
  | f :: progress =>
      '(ok, y) ← player_check_decoder_startup (y_set_dc (f (y_dc y)) y);
      if ok : bool then wait_startup progress y else Ok (false, y)
  end.

(** The position to seek to, within the song. *)
Definition seek_position (pc : player_control) : double :=
  let where_ := pc_seek_where pc in
  let total := f64_of_f32 (pc_total_time pc) in
  let where_ := if f_ltb total where_
                then f64_sub total (f64_div (f64_of_Z 1) (f64_of_Z 10)) else where_ in
  if f_ltb where_ f_zero then f_zero else where_.

Definition player_seek_start (s : song) (y : struct_player) : res (bool * struct_player) :=
  current ← decoder_current_song (y_dc y);
  if negb (song_ptr_eqb current (Some s)) then
    y ← player_dc_stop y;
    y ← player_dc_start (y_pipe y) y;
    player_wait_for_decoder y
  else
    y ← (if negb (player_dc_at_current_song y) then
           match dc_pipe (y_dc y) with
           | Some pipe => Ok (y_set_pipe pipe y)
           | None => Err AssertFailed
           end
         else Ok y);
    Ok (true, y_set_queued false (y_on_pc (pc_with_next_song None) y)).

(** The last part of the seek: the [SEEK] command of the decoder. *)
Definition player_seek_send (start_ms : Z) (y : struct_player) : res (bool * struct_player) :=
  let where_ := seek_position (y_pc y) in
  '(ok, dc) ← dc_seek (ob_decode ob) (f64_add where_ (ms_to_s start_ms)) (y_dc y);
  let y := y_set_dc dc y in
  if negb ok then y ← player_command_finished y; Ok (false, y) else
  y ← player_command_finished (y_set_elapsed_time (f32_of_f64 where_) y);
  Ok (true, y_set_buffering true (y_set_xfade XFADE_UNKNOWN y)).

Definition player_seek_decoder (y : struct_player) : res (bool * struct_player) :=
  match pc_next_song (y_pc y) with
  | None => Err AssertFailed
  | Some s =>
      let start_ms := u32 (song_start_ms s) in
      '(ok, y) ← player_seek_start s y;
      if negb ok then y ← player_command_finished y; Ok (false, y) else
      '(ok, y) ← wait_startup (ob_startup ob) y;
      if negb ok then y ← player_command_finished y; Ok (false, y) else
      player_seek_send start_ms y
  end.

Definition player_pause (y : struct_player) : res struct_player :=
  let y := y_set_paused (negb (y_paused y)) y in
  if y_paused y then Ok (y_on_pc (pc_with_state PLAYER_STATE_PAUSE) y)
  else if negb (audio_format_defined (y_play_audio_format y))
  then Ok (y_on_pc (pc_with_state PLAYER_STATE_PLAY) y)
  else '(_, y) ← player_open_output y; Ok y.

Definition player_process_command (y : struct_player) : res struct_player :=
  match y_command y with
  | PLAYER_COMMAND_NONE | PLAYER_COMMAND_STOP | PLAYER_COMMAND_EXIT
  | PLAYER_COMMAND_CLOSE_AUDIO => Ok y
  | PLAYER_COMMAND_UPDATE_AUDIO => player_command_finished y
  | PLAYER_COMMAND_QUEUE =>
      assert (negb (bool_decide (pc_next_song (y_pc y) = None)));;
      assert (negb (y_queued y));;
      assert (negb (player_dc_at_next_song y));;
      player_command_finished (y_set_queued true y)
  | PLAYER_COMMAND_PAUSE => y ← player_pause y; player_command_finished y
  | PLAYER_COMMAND_SEEK => '(_, y) ← player_seek_decoder y; Ok y
  | PLAYER_COMMAND_CANCEL =>
      if decide (pc_next_song (y_pc y) = None)
      then Ok (y_on_pc (pc_with_command PLAYER_COMMAND_STOP) y)
      else
        y ← (if player_dc_at_next_song y then player_dc_stop y else Ok y);
        player_command_finished (y_set_queued false (y_on_pc (pc_with_next_song None) y))
  | PLAYER_COMMAND_REFRESH =>
      let elapsed := if f_ltb (ob_output_elapsed ob) f_zero then y_elapsed_time y
                     else ob_output_elapsed ob in
      player_command_finished (y_on_pc (fun pc => pc_with_song_info (pc_bit_rate pc)
        (pc_audio_format pc) (pc_total_time pc) elapsed pc) y)
  end.

(** ** Playing chunks *)

Definition update_song_tag (s : option song) (y : struct_player) : struct_player :=
  match s with
  | Some s => if song_is_file s then y
              else y_idle_add IDLE_PLAYER (y_emit PIPE_EVENT_TAG y)
  | None => y
  end.

Definition play_chunk (chunk : music_chunk) (y : struct_player) : bool * struct_player :=
  let y := if mc_has_tag chunk then update_song_tag (y_song y) y else y in
  if mc_length chunk =? 0 then (true, y) else
  let y := y_on_pc (fun pc => pc_with_song_info (mc_bit_rate chunk) (pc_audio_format pc)
             (pc_total_time pc) (pc_elapsed_time pc) pc) y in
  if negb (ob_output_play ob) then (false, y) else
  (true, y_on_pc (fun pc => pc_with_total_play_time (f64_add (pc_total_play_time pc)
     (f64_div (f64_of_Z (mc_length chunk))
        (f64_of_Z (audio_format_time_to_size (y_play_audio_format y))))) pc) y).

(** The cross-fade part of [play_next_chunk()]; [false] if it must wait for
    the decoder. *)
Definition cross_fade_chunk (y : struct_player) : bool * struct_player :=
  if bool_decide (y_xfade y = XFADE_ENABLED) && player_dc_at_next_song y
     && (ob_pipe_size ob <=? y_cross_fade_chunks y)
  then
    let y := if negb (y_cross_fading y) then y_set_fade true (ob_pipe_size ob) y else y in
    match ob_other ob with
    | Some _ => (true, y)
    | None => if decoder_is_idle (y_dc y) then (true, y_set_xfade XFADE_DISABLED y) else (false, y)
    end
  else (true, y).

Definition play_next_chunk (y : struct_player) : bool * struct_player :=
  if negb (ob_output_wait ob) then (true, y) else
  let '(ready, y) := cross_fade_chunk y in
  if negb ready then (true, y) else
  let '(ok, y) := play_chunk (ob_chunk ob) y in
  if negb ok then
    let y := y_set_paused true (y_on_pc (fun pc => pc_with_state PLAYER_STATE_PAUSE
               (pc_with_error PLAYER_ERROR_AUDIO pc)) y) in
    (false, y_idle_add IDLE_PLAYER y)
  else (true, y).

(** The thread takes over the pipe of the decoder; the caller has checked
    that there is one. *)
Definition player_song_border (y : struct_player) : res (bool * struct_player) :=
  let y := y_set_xfade XFADE_UNKNOWN y in
  match dc_pipe (y_dc y) with
  | None => Err AssertFailed
  | Some pipe =>
      '(ok, y) ← player_wait_for_decoder (y_set_pipe pipe y);
      if negb ok then Ok (false, y) else
      if pc_border_pause (y_pc y) then
        let y := y_set_paused true (y_on_pc (pc_with_state PLAYER_STATE_PAUSE) y) in
        Ok (true, y_idle_add IDLE_PLAYER y)
      else Ok (true, y)
  end.

(** ** The loop of [do_play()] *)

(** Make the idle decoder decode the queued song. *)
Definition player_start_next (y : struct_player) : res struct_player :=
  if decoder_is_idle (y_dc y) && y_queued y && player_dc_at_current_song y then
    player_dc_start (y_pipes y) (y_new_pipe y)
  else Ok y.

Definition player_calc_fade (y : struct_player) : struct_player :=
  if negb (pc_border_pause (y_pc y)) && player_dc_at_next_song y
     && bool_decide (y_xfade y = XFADE_UNKNOWN) && negb (decoder_is_starting (y_dc y))
  then
    if 0 <? ob_cross_fade ob
    then y_set_xfade XFADE_ENABLED (y_set_fade false (ob_cross_fade ob) y)
    else y_set_xfade XFADE_DISABLED (y_set_fade (y_cross_fading y) (ob_cross_fade ob) y)
  else y.

(** The last part of an iteration; [false] leaves the loop. *)
Definition player_feed (y : struct_player) : res (bool * struct_player) :=
  if y_paused y then Ok (true, y)
  else if 0 <? ob_pipe_size ob then Ok (true, (play_next_chunk y).2)
  else if 0 <? ob_output_check ob then Ok (true, y)
  else if player_dc_at_next_song y then player_song_border y
  else if decoder_is_idle (y_dc y) then Ok (negb (ob_pipe_empty ob), y)
  else if y_output_open y then b ← player_send_silence y; Ok (b, y)
  else Ok (true, y).

(** One iteration, behind the command. *)
Definition do_play_body (y : struct_player) : res (bool * struct_player) :=
  if y_buffering y && (ob_pipe_size ob <? pc_buffered_before_play (y_pc y))
     && negb (decoder_is_idle (y_dc y))
  then
    if negb (y_paused y) && y_output_open y && (ob_output_check ob <? 4)
    then b ← player_send_silence y; Ok (b, y)
    else Ok (true, y)
  else
    let y := y_set_buffering false y in
    if y_decoder_starting y then player_check_decoder_startup y else
    y ← player_start_next y;
    player_feed (player_calc_fade y).

Definition leaves_loop (c : player_command_t) : bool :=
  match c with
  | PLAYER_COMMAND_STOP | PLAYER_COMMAND_EXIT | PLAYER_COMMAND_CLOSE_AUDIO => true
  | _ => false
  end.

Definition do_play_iteration (y : struct_player) : res (bool * struct_player) :=
  y ← player_process_command y;
  if leaves_loop (y_command y) then Ok (false, y) else
  do_play_body y.

(** ** The ends of [do_play()] *)

(** Everything in front of the loop: [false] if the decoder has failed. *)
Definition do_play_start (dc : decoder_control) (pipes : Z) (pc : player_control) (n : notify)
  : res (bool * struct_player) :=
  let y := StructPlayer dc (pipes + 1) pc n pipes true false false true false None XFADE_UNKNOWN
             false 0 audio_format_clear f_zero in
  y ← player_dc_start (y_pipe y) y;
  '(ok, y) ← player_wait_for_decoder y;
  if negb ok then
    y ← player_dc_stop y;
    y ← player_command_finished y;
    Ok (false, y_emit PIPE_EVENT_PLAYLIST y)
  else
    let y := y_on_pc (pc_with_state PLAYER_STATE_PLAY) y in
    let y := if decide (y_command y = PLAYER_COMMAND_SEEK)
             then y_set_elapsed_time (f32_of_f64 (pc_seek_where (y_pc y))) y else y in
    y ← player_command_finished y;
    Ok (true, y).

(** Behind the loop. *)
Definition do_play_end (y : struct_player) : res struct_player :=
  y ← player_dc_stop y;
  y ← (if y_queued y then
         assert (negb (bool_decide (pc_next_song (y_pc y) = None)));;
         Ok (y_on_pc (pc_with_next_song None) y)
       else Ok y);
  Ok (y_emit PIPE_EVENT_PLAYLIST (y_on_pc (pc_with_state PLAYER_STATE_STOP) y)).

End with_environment.

(** ** [player_task()] *)

(** Where the thread is: waiting for a command, in the loop of [do_play()],
    or ended.  [struct_player]'s copies of the control object and the
    notifications are those of the step. *)
Inductive thread_mode :=
| Idle
| Playing (y : struct_player)
| Exited.

(** [th_tick] numbers the commands; the environment of a command depends
    on it. *)
Record thread := Thread {
  th_mode : thread_mode;
  th_dc : decoder_control;
  th_pipes : Z;
  th_tick : nat;
}.

(** [decoder_thread_start()] leaves the decoder "pending" until its first
    command. *)
Definition thread_init : thread :=
  Thread Idle (dc_with_command DECODE_STATE_PENDING DECODE_COMMAND_NONE dc_new) 0 0.

(** The state of the thread and of the objects it shares. *)
Definition thread_result : Type := thread * player_control * notify.

Definition at_idle (tick : nat) (y : struct_player) (pc : player_control) : thread_result :=
  (Thread Idle (y_dc y) (y_pipes y) tick, pc, y_notify y).

(** A command in [player_task()]; [pc->command] is cleared at the end of the
    iteration in any case. *)
Definition player_task_command (ob : observation) (t : thread) (pc : player_control) (n : notify)
  : res thread_result :=
  let tick := S (th_tick t) in
  let idle (pc : player_control) : thread_result :=
    (Thread Idle (th_dc t) (th_pipes t) tick, pc_with_command PLAYER_COMMAND_NONE pc, n) in
  match pc_command pc with
  | PLAYER_COMMAND_SEEK | PLAYER_COMMAND_QUEUE =>
      assert (negb (bool_decide (pc_next_song pc = None)));;
      '(ok, y) ← do_play_start ob (th_dc t) (th_pipes t) pc n;
      Ok (if ok : bool then (Thread (Playing y) (y_dc y) (y_pipes y) tick, y_pc y, y_notify y)
          else at_idle tick y (pc_with_command PLAYER_COMMAND_NONE (y_pc y)))
  | PLAYER_COMMAND_STOP | PLAYER_COMMAND_PAUSE | PLAYER_COMMAND_CANCEL =>
      pc ← pc_finished (pc_with_next_song None pc); Ok (idle pc)
  | PLAYER_COMMAND_CLOSE_AUDIO | PLAYER_COMMAND_UPDATE_AUDIO | PLAYER_COMMAND_REFRESH =>
      pc ← pc_finished pc; Ok (idle pc)
  | PLAYER_COMMAND_EXIT =>
      pc ← pc_finished pc; Ok (Thread Exited (th_dc t) (th_pipes t) tick, pc, n)
  | PLAYER_COMMAND_NONE => Ok (idle pc)
  end.

(** A command in the loop of [do_play()].  When it leaves the loop, nothing
    has acknowledged it: [player_task()] goes on waiting. *)
Definition do_play_command (ob : observation) (y : struct_player) (t : thread)
    (pc : player_control) (n : notify) : res thread_result :=
  let tick := S (th_tick t) in
  let y := y_set_notify n (y_set_pc pc y) in
  y ← player_process_command ob (y_set_dc (ob_progress ob (y_dc y)) y);
  if leaves_loop (y_command y) then
    y ← do_play_end ob y;
    Ok (at_idle tick y (pc_with_command PLAYER_COMMAND_NONE (y_pc y)))
  else Ok (Thread (Playing y) (y_dc y) (y_pipes y) tick, y_pc y, y_notify y).

(** An iteration of the loop without a command. *)
Definition do_play_move (ob : observation) (y : struct_player) (t : thread)
    (pc : player_control) (n : notify) : res thread_result :=
  let y := y_set_notify n (y_set_pc pc y) in
  '(go_on, y) ← do_play_iteration ob (y_set_dc (ob_progress ob (y_dc y)) y);
  if go_on : bool then Ok (Thread (Playing y) (y_dc y) (y_pipes y) (th_tick t), y_pc y, y_notify y)
  else
    y ← do_play_end ob y;
    Ok (at_idle (th_tick t) y (pc_with_command PLAYER_COMMAND_NONE (y_pc y))).

Definition player_thread_run (env : nat -> observation) (t : thread) (pc : player_control)
    (n : notify) : res thread_result :=
  r ← (match th_mode t with
       | Idle => player_task_command (env (th_tick t)) t pc n
       | Playing y => do_play_command (env (th_tick t)) y t pc n
       | Exited => Err NoAnswer
       end);
  let '(_, pc, _) := r in
  if decide (pc_error pc = PLAYER_ERROR_PENDING) then Err NoAnswer else Ok r.
