(* ===== verification/PlayerThreadProofs.v ===== *)
(** * The player thread keeps its part of the protocol

    [mpd_thread] is the thread of [PlayerThread] as an instance of the class
    [PlayerThread], and [mpd_thread_spec] shows that it meets
    [PlayerThreadSpec]: whatever the decoder and the outputs do, no assertion
    of the thread fails, and every command is answered when the player is
    stopped.  During playback a command may stay unanswered;
    [unanswered_hangs] tells which ones do. *)

From S2P Require Import Prelude Err GLib Float Song AudioFormat EventPipe PlayerControl Playlist PlaylistSafety.
From S2P Require Import DecoderControl PlayerThread.

Local Open Scope Z_scope.

(** ** What is assumed of the environment *)

Record env_ok (ob : observation) : Prop := {
  env_decode : decoder_spec (ob_decode ob);
  env_progress dc : decoder_progress dc (ob_progress ob dc);
  env_startup : Forall (fun f => forall dc, decoder_progress dc (f dc)) (ob_startup ob);
}.

(** The decoder has opened the next song before the next command arrives;
    [seek_while_starting_defect] shows what happens otherwise. *)
Definition prompt (ob : observation) : Prop :=
  forall dc dc', dc_command dc = DECODE_COMMAND_START -> ob_decode ob dc = Some dc' ->
    dc_state dc' <> DECODE_STATE_START.

(** ** The invariant during playback *)

Record y_core (y : struct_player) : Prop := {
  core_command : dc_command (y_dc y) = DECODE_COMMAND_NONE;
  core_pending : dc_state (y_dc y) <> DECODE_STATE_PENDING;
  core_pipe : dc_pipe (y_dc y) = None -> decoder_is_idle (y_dc y) = true;
  core_song : dc_song (y_dc y) <> None;
  core_starting : y_decoder_starting y = false -> dc_state (y_dc y) <> DECODE_STATE_START;
  core_format : y_decoder_starting y = true \/ player_dc_at_next_song y = true ->
                format_known (y_dc y);
  core_open : y_output_open y = true -> audio_format_defined (y_play_audio_format y) = true;
  core_at_next : player_dc_at_next_song y = true ->
                 y_queued y = true /\ y_decoder_starting y = false;
}.

(** The state is "play" or "pause". *)
Definition y_active (y : struct_player) : Prop := pc_state (y_pc y) <> PLAYER_STATE_STOP.

(** [queued] tells whether there is a song in [pc->next_song]. *)
Definition y_linked (y : struct_player) : Prop :=
  y_queued y = true <-> pc_next_song (y_pc y) <> None.

(** What the control object and the thread agree on between two steps. *)
Definition mpd_thread_ok (t : thread) (pc : player_control) : Prop :=
  pc_command pc = PLAYER_COMMAND_NONE /\
  match th_mode t with
  | Idle => pc_state pc = PLAYER_STATE_STOP /\ pc_next_song pc = None /\
            dc_command (th_dc t) = DECODE_COMMAND_NONE
  | Playing y => pc_state pc <> PLAYER_STATE_STOP /\ y_core y /\ y_linked (y_set_pc pc y)
  | Exited => False
  end.

(** The parts that the steps below a command do not touch. *)
Record y_frame (y y' : struct_player) : Prop := {
  frame_pc_command : pc_command (y_pc y') = pc_command (y_pc y);
  frame_next : pc_next_song (y_pc y') = pc_next_song (y_pc y);
  frame_seek : pc_seek_where (y_pc y') = pc_seek_where (y_pc y);
  frame_queued : y_queued y' = y_queued y;
  frame_active : y_active y -> y_active y';
}.

Lemma y_frame_linked y y' : y_frame y y' -> y_linked y -> y_linked y'.
Proof. intros [_ Hn _ Hq _]. unfold y_linked. by rewrite Hn, Hq. Qed.

#[global] Instance y_frame_trans : Transitive y_frame.
Proof. intros y1 y2 y3 [] []. split; [congruence..|auto]. Qed.
#[global] Instance y_frame_refl : Reflexive y_frame.
Proof. by intros y. Qed.

(** ** The decoder *)

Lemma idle_state dc :
  decoder_is_idle dc = true <-> dc_state dc = DECODE_STATE_STOP \/ dc_state dc = DECODE_STATE_ERROR.
Proof. unfold decoder_is_idle. rewrite orb_true_iff, !bool_decide_eq_true. done. Qed.

Lemma idle_not_pending dc : decoder_is_idle dc = true -> dc_state dc <> DECODE_STATE_PENDING.
Proof. rewrite idle_state. intros [-> | ->]; done. Qed.

Lemma idle_not_start dc : decoder_is_idle dc = true -> dc_state dc <> DECODE_STATE_START.
Proof. rewrite idle_state. intros [-> | ->]; done. Qed.

Lemma dc_send_ok decode cmd dc :
  decoder_spec decode ->
  exists dc', dc_send decode cmd dc = Ok dc' /\ same_song dc dc' /\
    dc_command dc' = DECODE_COMMAND_NONE /\ dc_state dc' <> DECODE_STATE_PENDING /\
    (cmd = DECODE_COMMAND_STOP -> decoder_is_idle dc' = true) /\
    (cmd = DECODE_COMMAND_SEEK -> dc_state dc' <> DECODE_STATE_START) /\
    (cmd = DECODE_COMMAND_START -> format_known dc') /\
    decode (dc_with_command DECODE_STATE_PENDING cmd dc) = Some dc'.
Proof.
  intros [Hdec]. unfold dc_send.
  destruct (Hdec (dc_with_command DECODE_STATE_PENDING cmd dc))
    as (dc' & -> & Hs & Hc & Hp & H1 & H2 & H3).
  rewrite decide_False by done. exists dc'. by split_and!.
Qed.

Lemma dc_stop_ok decode dc :
  decoder_spec decode -> dc_command dc = DECODE_COMMAND_NONE ->
  exists dc', dc_stop decode dc = Ok dc' /\ dc_song dc' = dc_song dc /\
    dc_command dc' = DECODE_COMMAND_NONE /\ decoder_is_idle dc' = true.
Proof.
  intros Hdec Hc. unfold dc_stop. rewrite decide_True by done. cbn [mbind res_bind].
  destruct (decoder_is_idle dc) eqn:Hi; [by exists dc|].
  destruct (dc_send_ok decode DECODE_COMMAND_STOP dc Hdec)
    as (dc' & -> & [Hs _] & Hc' & _ & H1 & _).
  exists dc'. split_and!; auto.
Qed.

Section with_environment.
Context {ob : observation} (Hob : env_ok ob).

Lemma player_dc_stop_ok y :
  dc_command (y_dc y) = DECODE_COMMAND_NONE ->
  exists dc', player_dc_stop ob y = Ok (y_set_dc dc' y) /\ dc_song dc' = dc_song (y_dc y) /\
    dc_command dc' = DECODE_COMMAND_NONE /\ dc_pipe dc' = None /\ decoder_is_idle dc' = true.
Proof using Hob.
  intros Hc. unfold player_dc_stop.
  destruct (dc_stop_ok (ob_decode ob) (y_dc y)) as (dc' & -> & Hs & Hc' & Hi);
    [apply Hob|done|]. by eexists.
Qed.

Lemma player_dc_start_ok pipe s y :
  y_queued y = true \/ y_command y = PLAYER_COMMAND_SEEK ->
  pc_next_song (y_pc y) = Some s ->
  (y_command y = PLAYER_COMMAND_SEEK -> seek_fits (pc_seek_where (y_pc y)) = true) ->
  exists dc', player_dc_start ob pipe y = Ok (y_set_dc dc' y) /\ dc_song dc' = Some s /\
    dc_command dc' = DECODE_COMMAND_NONE /\ dc_state dc' <> DECODE_STATE_PENDING /\
    dc_pipe dc' = Some pipe /\ format_known dc' /\ (prompt ob -> dc_state dc' <> DECODE_STATE_START).
Proof using Hob.
  intros Hq Hn Hfit. unfold player_dc_start.
  replace (y_queued y || bool_decide (y_command y = PLAYER_COMMAND_SEEK)) with true.
  2:{ symmetry. rewrite orb_true_iff, bool_decide_eq_true. done. }
  cbn [mbind res_bind assert]. rewrite Hn.
  assert (exists ms, (if decide (y_command y = PLAYER_COMMAND_SEEK) then
      match f_to_unsigned (f64_mul (pc_seek_where (y_pc y)) (f64_of_Z 1000)) with
      | Some ms => Ok (u32 (song_start_ms s + ms)) | None => Err BadConversion end
    else Ok (u32 (song_start_ms s))) = Ok ms) as [ms ->].
  { case_decide as Hs; [|by eexists]. specialize (Hfit Hs). unfold seek_fits in Hfit.
    destruct (f_to_unsigned _); [by eexists|done]. }
  cbn [mbind res_bind]. unfold dc_start. cbn [assert mbind res_bind].
  destruct (dc_send_ok (ob_decode ob) DECODE_COMMAND_START
    (dc_with_song s ms (song_end_ms s) pipe (y_dc y)))
    as (dc' & -> & [Hs Hp] & Hc & Hst & _ & _ & Hf & Hd); [apply Hob|].
  exists dc'. split_and!; auto. intros Hprompt. by eapply Hprompt, Hd.
Qed.

(** The core of the invariant does not mention the control object. *)
Lemma y_core_pc y y' :
  y_core y -> y_dc y' = y_dc y -> y_pipe y' = y_pipe y -> y_queued y' = y_queued y ->
  y_decoder_starting y' = y_decoder_starting y -> y_output_open y' = y_output_open y ->
  y_play_audio_format y' = y_play_audio_format y -> y_core y'.
Proof.
  intros [] Hd Hp Hq Hs Ho Hf.
  assert (player_dc_at_next_song y' = player_dc_at_next_song y) as Hat
    by (unfold player_dc_at_next_song, player_dc_at_current_song; by rewrite Hd, Hp).
  split; rewrite ?Hat, ?Hd, ?Hs, ?Ho, ?Hf, ?Hq; done.
Qed.

Lemma y_core_progress y dc :
  y_core y -> decoder_progress (y_dc y) dc -> y_core (y_set_dc dc y).
Proof.
  intros [] [[Hs Hp] Hc Hpd Hst Hi Hf].
  assert (player_dc_at_next_song (y_set_dc dc y) = player_dc_at_next_song y) as Hat
    by (unfold player_dc_at_next_song, player_dc_at_current_song; simpl; by rewrite Hp).
  split; rewrite ?Hat; simpl; rewrite ?Hs, ?Hp; auto; congruence.
Qed.

(** The decoder does not work on the next song. *)
Lemma y_core_unqueued y :
  player_dc_at_next_song y = false -> dc_command (y_dc y) = DECODE_COMMAND_NONE ->
  dc_state (y_dc y) <> DECODE_STATE_PENDING ->
  (dc_pipe (y_dc y) = None -> decoder_is_idle (y_dc y) = true) -> dc_song (y_dc y) <> None ->
  (y_decoder_starting y = false -> dc_state (y_dc y) <> DECODE_STATE_START) ->
  (y_decoder_starting y = true -> format_known (y_dc y)) ->
  (y_output_open y = true -> audio_format_defined (y_play_audio_format y) = true) -> y_core y.
Proof. intros Hat. intros. split; rewrite ?Hat; try done. intros []; auto. done. Qed.

(** The decoder works on the player's song. *)
Lemma y_core_current y :
  dc_command (y_dc y) = DECODE_COMMAND_NONE -> dc_state (y_dc y) <> DECODE_STATE_PENDING ->
  dc_pipe (y_dc y) = Some (y_pipe y) -> dc_song (y_dc y) <> None ->
  (y_decoder_starting y = false -> dc_state (y_dc y) <> DECODE_STATE_START) ->
  (y_decoder_starting y = true -> format_known (y_dc y)) ->
  (y_output_open y = true -> audio_format_defined (y_play_audio_format y) = true) -> y_core y.
Proof.
  intros ? ? Hp ? ? ? ?.
  assert (player_dc_at_next_song y = false) as Hat.
  { unfold player_dc_at_next_song, player_dc_at_current_song. rewrite Hp.
    rewrite (bool_decide_true (Some (y_pipe y) = Some (y_pipe y))) by done. by rewrite andb_false_r. }
  apply y_core_unqueued; try done. congruence.
Qed.

Lemma queued_or_seek y :
  y_queued y = true \/ y_command y = PLAYER_COMMAND_SEEK ->
  y_queued y || bool_decide (y_command y = PLAYER_COMMAND_SEEK) = true.
Proof. rewrite orb_true_iff, bool_decide_eq_true. done. Qed.

(** Taking over the song in [next_song]. *)
Lemma player_wait_for_decoder_ok y :
  y_queued y = true \/ y_command y = PLAYER_COMMAND_SEEK -> pc_next_song (y_pc y) <> None ->
  dc_command (y_dc y) = DECODE_COMMAND_NONE -> dc_state (y_dc y) <> DECODE_STATE_PENDING ->
  dc_pipe (y_dc y) = Some (y_pipe y) -> dc_song (y_dc y) <> None -> format_known (y_dc y) ->
  (y_output_open y = true -> audio_format_defined (y_play_audio_format y) = true) ->
  exists b y', player_wait_for_decoder y = Ok (b, y') /\ y_core y' /\
    y_queued y' = false /\ pc_next_song (y_pc y') = None /\
    pc_command (y_pc y') = pc_command (y_pc y) /\ pc_state (y_pc y') = pc_state (y_pc y) /\
    pc_seek_where (y_pc y') = pc_seek_where (y_pc y).
Proof.
  intros Hq Hn Hc Hp Hpipe Hsong Hfk Hopen. unfold player_wait_for_decoder.
  rewrite queued_or_seek by done. cbn [mbind res_bind assert].
  destruct (pc_next_song (y_pc y)) as [s|]; [|done].
  unfold decoder_has_failed. simpl. rewrite (bool_decide_true (dc_command _ = _)) by done. simpl.
  destruct (bool_decide_reflect (dc_state (y_dc y) = DECODE_STATE_ERROR)) as [He|He];
    (eexists _, _; split; [done|]; split_and!; try done); apply y_core_current; try done.
  intros _. simpl. congruence.
Qed.

Lemma player_open_output_ok y :
  y_core y -> y_active y -> audio_format_defined (y_play_audio_format y) = true ->
  exists b y', player_open_output ob y = Ok (b, y') /\ y_core y' /\ y_frame y y' /\
    y_decoder_starting y' = y_decoder_starting y.
Proof.
  intros Hcore Hact Hdef. unfold player_open_output. rewrite Hdef. cbn [mbind res_bind assert].
  rewrite bool_decide_false by done. cbn [mbind res_bind assert negb].
  destruct Hcore. destruct (ob_output_open ob); (eexists _, _; split; [done|]); split_and!; try done;
    by split.
Qed.

Lemma player_check_decoder_startup_ok y :
  y_core y -> y_active y -> y_decoder_starting y = true ->
  exists b y', player_check_decoder_startup ob y = Ok (b, y') /\ y_core y' /\ y_frame y y'.
Proof.
  intros Hcore Hact Hst. pose proof Hcore as [Hc Hp Hpipe Hsong Hs Hf Ho Hn].
  unfold player_check_decoder_startup, decoder_has_failed. rewrite Hst, (bool_decide_true (dc_command _ = _)) by done.
  cbn [mbind res_bind assert].
  destruct (bool_decide_reflect (dc_state (y_dc y) = DECODE_STATE_ERROR)) as [He|He].
  { eexists _, _. split; [done|]. split; [by eapply y_core_pc|by split]. }
  unfold decoder_is_starting.
  destruct (bool_decide_reflect (dc_state (y_dc y) = DECODE_STATE_START)) as [He2|He2]; simpl.
  { eexists _, _. split; [done|]. by split. }
  destruct (y_output_open y && negb (ob_output_wait ob)); [by eexists _, _|].
  destruct (dc_song (y_dc y)) as [s|] eqn:Hds; [|done].
  assert (audio_format_defined (dc_out_audio_format (y_dc y)) = true) as Hdef.
  { apply Hf; [by left|]. by destruct (dc_state (y_dc y)); auto. }
  set (y1 := y_set_decoder_starting false _). cbn zeta.
  assert (y_core y1) as Hcore1.
  { subst y1. split; simpl; try done; [congruence|by intros [|?%Hn]; [|apply Hf; left]|].
    intros H. by destruct (Hn H). }
  destruct (y_paused y); simpl; [eexists _, _; split; [done|]; split; [done|by split]|].
  destruct (player_open_output_ok y1) as (b & y2 & -> & Hcore2 & Hfr & _); try done.
  eexists _, _. split; [done|]. split; [done|]. etrans; [|done]. by split.
Qed.

Lemma wait_startup_ok l y :
  Forall (fun f => forall dc, decoder_progress dc (f dc)) l -> y_core y -> y_active y ->
  safe True (wait_startup ob l y) (fun '(b, y') => y_core y' /\ y_frame y y' /\
    (b = true -> y_decoder_starting y' = false)).
Proof.
  intros Hl. revert y. induction Hl as [|f l Hf Hl IH]; intros y Hcore Hact; simpl;
    destruct (y_decoder_starting y) eqn:Hs; simpl; try done.
  pose proof (y_core_progress y (f (y_dc y)) Hcore (Hf _)) as Hcore1.
  destruct (player_check_decoder_startup_ok _ Hcore1) as (b & y1 & -> & Hcore2 & Hfr); [done..|].
  cbn [mbind res_bind]. assert (y_frame y y1) as Hfr1 by (etrans; [|done]; by split).
  destruct b; [|done].
  eapply safe_mono; [apply IH; [done|by apply Hfr1]|].
  intros [b y2] (? & ? & ?). split_and!; try done. by etrans.
Qed.

(** ** Commands *)

Lemma pc_finished_ok pc :
  pc_command pc <> PLAYER_COMMAND_NONE ->
  exists pc', pc_finished pc = Ok pc' /\ pc_command pc' = PLAYER_COMMAND_NONE /\
    pc_error pc' <> PLAYER_ERROR_PENDING /\ pc_state pc' = pc_state pc /\
    pc_next_song pc' = pc_next_song pc.
Proof.
  intros Hc. unfold pc_finished. rewrite bool_decide_false by done. simpl.
  case_decide; (eexists; split; [done|]; by split_and!).
Qed.

(** The state when a command has been acknowledged. *)
Definition y_answered (queued : bool) (next : option song) (y : struct_player) : Prop :=
  y_core y /\ y_active y /\ pc_command (y_pc y) = PLAYER_COMMAND_NONE /\
  pc_error (y_pc y) <> PLAYER_ERROR_PENDING /\ y_queued y = queued /\ pc_next_song (y_pc y) = next.

Lemma player_command_finished_ok y :
  y_core y -> y_active y -> y_command y <> PLAYER_COMMAND_NONE ->
  exists y', player_command_finished y = Ok y' /\
    y_answered (y_queued y) (pc_next_song (y_pc y)) y'.
Proof.
  intros Hcore Hact Hc. unfold player_command_finished.
  destruct (pc_finished_ok (y_pc y) Hc) as (pc' & -> & ? & ? & Hs & Hn).
  eexists. split; [done|]. split_and!; try done; [by eapply y_core_pc|].
  unfold y_active. simpl. by rewrite Hs.
Qed.

(** An early return of [player_seek_decoder()], and its end. *)
Lemma finished_ret {B} y (b : B) (f : struct_player -> struct_player) Q :
  y_core y -> y_active y -> y_command y <> PLAYER_COMMAND_NONE ->
  (forall y', y_answered (y_queued y) (pc_next_song (y_pc y)) y' -> Q (b, f y')) ->
  safe True (y ← player_command_finished y; Ok (b, f y)) Q.
Proof.
  intros Hcore Hact Hc HQ. destruct (player_command_finished_ok y) as (y' & -> & H); [done..|].
  by apply HQ.
Qed.

Lemma song_ptr_eqb_some a s : song_ptr_eqb a (Some s) = true -> a <> None.
Proof. by destruct a. Qed.

(** The first part of a seek: afterwards the decoder works on the song, and
    [next_song] has been taken. *)
Lemma player_seek_start_ok s y :
  y_core y -> y_active y -> y_command y = PLAYER_COMMAND_SEEK ->
  pc_next_song (y_pc y) = Some s -> seek_fits (pc_seek_where (y_pc y)) = true ->
  exists b y', player_seek_start ob s y = Ok (b, y') /\ y_core y' /\ y_active y' /\
    y_queued y' = false /\ pc_next_song (y_pc y') = None /\
    y_command y' = PLAYER_COMMAND_SEEK /\ pc_seek_where (y_pc y') = pc_seek_where (y_pc y).
Proof using Hob.
  intros Hcore Hact Hcmd Hnext Hfit. pose proof Hcore as [Hc Hp Hpipe Hsong Hst Hf Ho Hn].
  unfold player_seek_start.
  assert (exists current, decoder_current_song (y_dc y) = Ok current /\
    (current <> None -> decoder_is_idle (y_dc y) = false)) as (current & -> & Hcur).
  { unfold decoder_current_song, decoder_is_idle.
    destruct (dc_state (y_dc y)); try done; eexists; (split; [done|]); done. }
  cbn [mbind res_bind]. destruct (song_ptr_eqb current (Some s)) eqn:He; cbn [negb].
  - specialize (Hcur (song_ptr_eqb_some _ _ He)).
    destruct (dc_pipe (y_dc y)) as [pipe|] eqn:Hdp; [|by rewrite Hpipe in Hcur].
    assert (exists y1, (if negb (player_dc_at_current_song y) then Ok (y_set_pipe pipe y) else Ok y)
      = Ok y1 /\ y1 = y_set_pipe pipe y) as (y1 & -> & ->).
    { unfold player_dc_at_current_song. rewrite Hdp.
      case_bool_decide as Heq; simpl; [|by eexists]. exists y. split; [done|].
      injection Heq as ->. by destruct y. }
    cbn [mbind res_bind]. eexists true, _. split; [done|]. split_and!; try done.
    apply y_core_current; try done; simpl; (congruence || auto).
  - destruct (player_dc_stop_ok y Hc) as (dc1 & -> & Hs1 & Hc1 & _ & Hi1). cbn [mbind res_bind].
    destruct (player_dc_start_ok (y_pipe y) s (y_set_dc dc1 y))
      as (dc2 & Hstart & Hs2 & Hc2 & Hp2 & Hpp2 & Hf2 & _); [by right|done..|].
    change (y_pipe (y_set_dc dc1 y)) with (y_pipe y). rewrite Hstart. cbn [mbind res_bind].
    destruct (player_wait_for_decoder_ok (y_set_dc dc2 (y_set_dc dc1 y)))
      as (b & y' & -> & Hcore' & Hq' & Hn' & Hcmd' & Hs' & Hw'); simpl; try done; try congruence.
    { by right. }
    exists b, y'. split_and!; try done; [unfold y_active; by rewrite Hs'|].
    unfold y_command. by rewrite Hcmd'.
Qed.

Lemma seek_position_nonneg pc :
  seek_fits (pc_seek_where pc) = true -> f_nonneg (seek_position pc) = true.
Proof.
  intros Hfit. unfold seek_position.
  assert (f_is_nan (pc_seek_where pc) = false) as Hnn by (by destruct (pc_seek_where pc)).
  set (w := if f_ltb _ (pc_seek_where pc) then _ else _).
  assert (f_is_nan w = false) as Hw.
  { subst w. destruct (f_ltb _ (pc_seek_where pc)) eqn:Hlt; [|done].
    assert (exists m e, f64_div (f64_of_Z 1) (f64_of_Z 10) = S754_finite false m e)
      as (m & e & ->) by (by vm_compute; eexists _, _).
    apply f64_sub_number. by destruct (f64_of_f32 (pc_total_time pc)). }
  destruct (f_ltb w f_zero) eqn:Hlt; [done|]. by apply not_less_nonneg.
Qed.

Lemma player_seek_send_ok start_ms y :
  y_core y -> y_active y -> y_command y <> PLAYER_COMMAND_NONE -> y_decoder_starting y = false ->
  y_queued y = false -> 0 <= start_ms -> seek_fits (pc_seek_where (y_pc y)) = true ->
  safe True (player_seek_send ob start_ms y) (fun '(_, y') =>
    y_answered (y_queued y) (pc_next_song (y_pc y)) y').
Proof using Hob.
  intros Hcore Hact Hcmd Hs Hq Hms Hfit. pose proof Hcore as [Hc Hp Hpipe Hsong Hst Hf Ho Hn].
  unfold player_seek_send, dc_seek, decoder_is_starting.
  rewrite bool_decide_false by auto. cbn [mbind res_bind assert negb].
  rewrite (f64_add_nonneg (seek_position (y_pc y)));
    [|by apply seek_position_nonneg|by apply ms_to_s_nonneg].
  cbn [mbind res_bind assert].
  destruct (decoder_is_idle (y_dc y) || negb (dc_seekable (y_dc y))) eqn:Hidle;
    cbn [mbind res_bind negb].
  { by apply (finished_ret (y_set_dc (y_dc y) y) false (fun y => y)). }
  destruct (dc_send_ok (ob_decode ob) DECODE_COMMAND_SEEK (dc_with_seek
    (f64_add (seek_position (y_pc y)) (ms_to_s start_ms)) (y_dc y)))
    as (dc' & -> & [Hss Hsp] & Hsc & Hspd & _ & Hsst & _); [apply Hob|]. cbn [mbind res_bind].
  assert (y_core (y_set_dc dc' y)) as Hcore3.
  { simpl in Hss, Hsp.
    assert (player_dc_at_next_song (y_set_dc dc' y) = player_dc_at_next_song y) as Hat
      by (unfold player_dc_at_next_song, player_dc_at_current_song; simpl; by rewrite Hsp).
    split; rewrite ?Hat; simpl; try done; [ |congruence|by auto|].
    - rewrite Hsp. intros Hnone. specialize (Hpipe Hnone). by rewrite Hpipe in Hidle.
    - intros [?|[? _]%Hn]; congruence. }
  destruct (negb (dc_seek_error dc')); cbn [negb].
  - set (y3 := y_set_elapsed_time _ _).
    apply (finished_ret y3 true (fun y => y_set_buffering true (y_set_xfade XFADE_UNKNOWN y)));
      try done; [by apply (y_core_pc (y_set_dc dc' y))|].
    intros y' (Hco & ? & ? & ? & ? & ?). split_and!; try done. by apply (y_core_pc y').
  - by apply (finished_ret (y_set_dc dc' y) false (fun y => y)).
Qed.

Lemma player_seek_decoder_ok y :
  y_core y -> y_active y -> y_command y = PLAYER_COMMAND_SEEK ->
  pc_next_song (y_pc y) <> None -> seek_fits (pc_seek_where (y_pc y)) = true ->
  safe True (player_seek_decoder ob y) (fun '(_, y') => y_answered false None y').
Proof using Hob.
  intros Hcore Hact Hcmd Hnext Hfit. unfold player_seek_decoder.
  destruct (pc_next_song (y_pc y)) as [s|] eqn:Hs; [|done].
  destruct (player_seek_start_ok s y) as (b1 & y1 & -> & Hcore1 & Hact1 & Hq1 & Hn1 & Hc1 & Hw1);
    try done. cbn [mbind res_bind].
  destruct b1; cbn [negb].
  2:{ apply (finished_ret y1 false (fun y => y)); try done; [congruence|]. by rewrite Hq1, Hn1. }
  eapply safe_bind_mono; [apply (wait_startup_ok _ y1); try done; apply Hob|].
  intros [b2 y2] (Hcore2 & [Hc2 Hn2 Hw2 Hq2 Hact2] & Hst2). specialize (Hact2 Hact1).
  assert (y_command y2 <> PLAYER_COMMAND_NONE) by (unfold y_command in *; congruence).
  rewrite Hn1 in Hn2. rewrite Hq1 in Hq2.
  destruct b2; cbn [negb].
  - eapply safe_mono; [apply player_seek_send_ok; try done; auto; [apply u32_range|congruence]|].
    intros [? ?]. by rewrite Hq2, Hn2.
  - apply (finished_ret y2 false (fun y => y)); try done. by rewrite Hq2, Hn2.
Qed.

Lemma player_pause_ok y :
  y_core y -> y_active y ->
  exists y', player_pause ob y = Ok y' /\ y_core y' /\ y_frame y y'.
Proof.
  intros Hcore Hact. unfold player_pause.
  assert (y_core (y_set_paused (negb (y_paused y)) y)) as Hcore1 by (by apply (y_core_pc y)).
  change (y_paused (y_set_paused _ y)) with (negb (y_paused y)).
  destruct (negb (y_paused y)).
  { eexists. split; [done|]. split; [by apply (y_core_pc y)|by split]. }
  destruct (audio_format_defined _) eqn:Hdef; simpl.
  - destruct (player_open_output_ok (y_set_paused false y))
      as (b & y' & -> & ? & Hf & _); try done. eexists. split; [done|]. split; [done|].
    etrans; [|done]. by split.
  - eexists. split; [done|]. split; [by apply (y_core_pc y)|by split].
Qed.

(** A command during playback is acknowledged, or makes the thread leave the
    loop with the command still pending. *)
Definition processed (cmd : player_command_t) (y y' : struct_player) : Prop :=
  y_core y' /\ y_linked y' /\
  (leaves_loop (y_command y') = true /\ pc_error (y_pc y') = pc_error (y_pc y) \/
   y_active y' /\ y_command y' = PLAYER_COMMAND_NONE /\
   pc_error (y_pc y') <> PLAYER_ERROR_PENDING /\ answered cmd (y_pc y) (y_pc y')).

Lemma answered_processed cmd y y' q next :
  y_answered q next y' -> (q = true <-> next <> None) ->
  (forall pc', pc_next_song pc' = next -> answered cmd (y_pc y) pc') -> processed cmd y y'.
Proof.
  intros (? & ? & ? & ? & Hq & Hn) Hl Hans. split_and!; [done| |right; by split_and!; auto].
  unfold y_linked. by rewrite Hq, Hn.
Qed.

(** Acknowledging in a state where [queued] and [next_song] agree. *)
Lemma finish_processed cmd y0 y :
  y_core y -> y_active y -> y_command y <> PLAYER_COMMAND_NONE -> y_linked y ->
  (forall pc', pc_next_song pc' = pc_next_song (y_pc y) -> answered cmd (y_pc y0) pc') ->
  safe True (player_command_finished y) (processed cmd y0).
Proof.
  intros Hcore Hact Hc Hl Hans. destruct (player_command_finished_ok y) as (y' & -> & H); [done..|].
  by eapply answered_processed.
Qed.

Lemma player_cancel_ok y :
  y_core y -> y_active y -> y_linked y -> y_command y = PLAYER_COMMAND_CANCEL ->
  safe True (player_process_command ob y) (processed PLAYER_COMMAND_CANCEL y).
Proof using Hob.
  intros Hcore Hact Hl Hcmd. unfold player_process_command. rewrite Hcmd.
  case_decide as Hn.
  - split_and!; [by apply (y_core_pc y)|done|by left].
  - pose proof Hcore as [Hc Hp Hpipe Hsong Hst Hf Ho Hnx].
    assert (exists y1, (if player_dc_at_next_song y then player_dc_stop ob y else Ok y) = Ok y1 /\
      y_active y1 /\ y_command y1 = PLAYER_COMMAND_CANCEL /\
      y_core (y_set_queued false (y_on_pc (pc_with_next_song None) y1))) as (y1 & -> & H1 & H2 & H3).
    { destruct (player_dc_at_next_song y) eqn:Hat.
      - destruct (Hnx eq_refl) as [_ Hs].
        destruct (player_dc_stop_ok y Hc) as (dc' & -> & Hs' & Hc' & Hp' & Hi').
        eexists. split; [done|]. split_and!; try done.
        apply y_core_unqueued; simpl; try done; try congruence; eauto using idle_not_pending, idle_not_start.
        unfold player_dc_at_next_song. simpl. by rewrite Hp'.
      - eexists. split; [done|]. split_and!; try done. apply y_core_unqueued; auto. }
    cbn [mbind res_bind]. apply finish_processed; try done.
    unfold y_command in *. simpl. congruence.
Qed.

Lemma player_process_command_ok cmd before y :
  y_core y -> y_active y -> (y_queued y = true <-> before <> None) ->
  y_command y = cmd -> may_issue cmd before (y_pc y) ->
  safe True (player_process_command ob y) (processed cmd y).
Proof using Hob.
  intros Hcore Hact Hl Hcmd Hmay.
  destruct (decide (cmd = PLAYER_COMMAND_CANCEL)) as [->|Hnc].
  { simpl in Hmay. apply player_cancel_ok; try done. unfold y_linked. by rewrite Hmay. }
  unfold player_process_command. rewrite Hcmd. unfold y_command in Hcmd.
  destruct cmd; simpl in Hmay; try done.
  - split_and!; [done|unfold y_linked; by rewrite Hmay|left; unfold y_command; by rewrite Hcmd].
  - destruct (player_pause_ok y) as (y1 & -> & Hcore1 & Hfr); [done..|]. cbn [mbind res_bind].
    apply finish_processed; [done|by apply Hfr|unfold y_command; destruct Hfr; congruence| |].
    + eapply y_frame_linked; [done|]. unfold y_linked. by rewrite Hmay.
    + intros pc' Hpc. left. rewrite Hpc. apply Hfr.
  - destruct Hmay as [Hn Hfit]. apply safe_bind.
    eapply safe_mono; [by apply player_seek_decoder_ok|].
    intros [b y'] H. by eapply answered_processed.
  - split_and!; [done|unfold y_linked; by rewrite Hmay|left; unfold y_command; by rewrite Hcmd].
  - apply finish_processed; try done; [unfold y_command; congruence|unfold y_linked; by rewrite Hmay|].
    by left.
  - destruct Hmay as [-> Hn]. rewrite (bool_decide_false (_ = None)) by done.
    assert (y_queued y = false) as Hq by (destruct (y_queued y); [by destruct Hl as [H _]; destruct (H eq_refl)|done]).
    rewrite Hq. cbn [mbind res_bind assert negb].
    assert (player_dc_at_next_song y = false) as Hat.
    { destruct (player_dc_at_next_song y) eqn:H; [|done]. apply Hcore in H as [? _]. congruence. }
    rewrite Hat. cbn [mbind res_bind assert negb].
    apply finish_processed; try done; [|unfold y_command; simpl; congruence|intros pc' _ Hst; by destruct Hact].
    destruct Hcore. by apply y_core_unqueued; auto.
  - apply finish_processed; try done; [by apply (y_core_pc y)|unfold y_command; simpl; congruence| |by left].
    unfold y_linked. simpl. by rewrite Hmay.
Qed.

(** ** Iterations of the loop *)

(** What an iteration keeps; it may take the song in [next_song]. *)
Definition y_step (y y' : struct_player) : Prop :=
  y_core y' /\ y_linked y' /\ (y_active y -> y_active y') /\
  pc_command (y_pc y') = pc_command (y_pc y) /\
  (pc_next_song (y_pc y') = pc_next_song (y_pc y) \/ pc_next_song (y_pc y') = None).

Lemma frame_step y y' : y_linked y -> y_core y' -> y_frame y y' -> y_step y y'.
Proof.
  intros Hl Hc Hf. pose proof (y_frame_linked _ _ Hf Hl). destruct Hf. by split_and!; auto.
Qed.

Lemma y_step_trans y1 y2 y3 : y_frame y1 y2 -> y_step y2 y3 -> y_step y1 y3.
Proof.
  intros [Hc Hn Hs Hq Ha] (H1 & H2 & H3 & H4 & H5). split_and!; try done; [auto|congruence|].
  by rewrite <- Hn.
Qed.

Lemma player_start_next_ok y :
  prompt ob -> y_core y -> y_linked y -> y_command y = PLAYER_COMMAND_NONE ->
  y_decoder_starting y = false ->
  exists y', player_start_next ob y = Ok y' /\ y_core y' /\ y_frame y y' /\
    y_decoder_starting y' = false.
Proof using Hob.
  intros Hpr Hcore Hl Hcmd Hst. unfold player_start_next. case_match eqn:Hc; [|by exists y].
  apply andb_true_iff in Hc as [[_ Hq]%andb_true_iff _].
  destruct (pc_next_song (y_pc y)) as [s|] eqn:Hn; [|by apply Hl in Hq].
  destruct (player_dc_start_ok (y_pipes y) s (y_new_pipe y))
    as (dc' & -> & Hs & Hc & Hp & Hpipe & Hf & Hnst); try done; [by left|unfold y_command in *; simpl; congruence|].
  eexists. split; [done|]. split_and!; try done. destruct Hcore. split; simpl; try done; try congruence.
  intros _. auto.
Qed.

Lemma player_calc_fade_frame y :
  (y_core y -> y_core (player_calc_fade ob y)) /\ y_frame y (player_calc_fade ob y).
Proof.
  unfold player_calc_fade. case_match; [|done]. case_match; (split; [|by split]);
    intros; by apply (y_core_pc y).
Qed.

(** Sending a chunk only changes the song's data, or pauses. *)
Lemma play_next_chunk_frame y :
  (y_core y -> y_core (play_next_chunk ob y).2) /\ y_frame y (play_next_chunk ob y).2.
Proof.
  assert (forall y, (y_core y -> y_core (cross_fade_chunk ob y).2) /\
    y_frame y (cross_fade_chunk ob y).2) as Hfade.
  { intros y0. unfold cross_fade_chunk. repeat case_match; simpl; (split; [|by split]);
      intros; try done; by apply (y_core_pc y0). }
  assert (forall c y, (y_core y -> y_core (play_chunk ob c y).2) /\
    y_frame y (play_chunk ob c y).2) as Hplay.
  { intros c y0. unfold play_chunk, update_song_tag. repeat case_match; simpl; (split; [|by split]);
      intros; try done; by apply (y_core_pc y0). }
  unfold play_next_chunk. destruct (ob_output_wait ob); simpl; [|done].
  specialize (Hfade y). destruct (cross_fade_chunk ob y) as [ready y1]. destruct Hfade as [Hc1 Hf1].
  destruct ready; simpl in *; [|done].
  specialize (Hplay (ob_chunk ob) y1). destruct (play_chunk ob _ y1) as [ok y2].
  destruct Hplay as [Hc2 Hf2]. destruct ok; simpl in *.
  - split; [auto|by etrans].
  - split; [|etrans; [done|]; etrans; [done|by split]].
    intros. apply (y_core_pc y2); auto.
Qed.

Lemma player_song_border_ok y :
  y_core y -> y_linked y -> player_dc_at_next_song y = true ->
  exists b y', player_song_border y = Ok (b, y') /\ y_step y y'.
Proof.
  intros Hcore Hl Hat. pose proof Hcore as [Hc Hp Hpipe Hsong Hst Hf Ho Hn].
  destruct (Hn Hat) as [Hq Hs]. unfold player_song_border. simpl.
  destruct (dc_pipe (y_dc y)) as [pipe|] eqn:Hdp.
  2:{ unfold player_dc_at_next_song in Hat. by rewrite Hdp in Hat. }
  destruct (player_wait_for_decoder_ok (y_set_pipe pipe (y_set_xfade XFADE_UNKNOWN y)))
    as (b & y1 & -> & Hcore1 & Hq1 & Hn1 & Hc1 & Hs1 & _); simpl; try done; auto.
  { by apply Hl. }
  assert (y_step y y1) as Hstep.
  { split_and!; try done; [|unfold y_active; by rewrite Hs1|by right].
    unfold y_linked. by rewrite Hq1, Hn1. }
  destruct b; simpl; [|by eexists _, _]. destruct (pc_border_pause (y_pc y1)); [|by eexists _, _].
  eexists _, _. split; [done|]. destruct Hstep as (? & ? & ? & ? & ?).
  split_and!; try done. by apply (y_core_pc y1).
Qed.

Lemma player_feed_ok y :
  y_core y -> y_linked y -> exists b y', player_feed ob y = Ok (b, y') /\ y_step y y'.
Proof.
  intros Hcore Hl. assert (y_step y y) as Hsame by (by apply frame_step).
  unfold player_feed. destruct (y_paused y); [by eexists _, _|].
  destruct (0 <? ob_pipe_size ob).
  { destruct (play_next_chunk_frame y) as [Hc Hf].
    eexists _, _. split; [done|]. apply frame_step; auto. }
  destruct (0 <? ob_output_check ob); [by eexists _, _|].
  destruct (player_dc_at_next_song y) eqn:Hat; [by apply player_song_border_ok|].
  destruct (decoder_is_idle (y_dc y)); [by eexists _, _|].
  destruct (y_output_open y) eqn:Ho; [|by eexists _, _].
  unfold player_send_silence. rewrite Ho, (core_open _ Hcore Ho). by eexists _, _.
Qed.

Lemma do_play_body_ok y :
  prompt ob -> y_core y -> y_linked y -> y_active y -> y_command y = PLAYER_COMMAND_NONE ->
  exists b y', do_play_body ob y = Ok (b, y') /\ y_step y y'.
Proof using Hob.
  intros Hpr Hcore Hl Hact Hcmd. unfold do_play_body. case_match eqn:Hb.
  { assert (y_step y y) as Hsame by (by apply frame_step). case_match eqn:Hc; [|by eexists _, _].
    apply andb_true_iff in Hc as [[_ Ho]%andb_true_iff _].
    unfold player_send_silence. rewrite Ho, (core_open _ Hcore Ho). by eexists _, _. }
  assert (y_core (y_set_buffering false y)) as Hcore1 by (by apply (y_core_pc y)).
  assert (y_frame y (y_set_buffering false y)) as Hf1 by done.
  destruct (y_decoder_starting _) eqn:Hst.
  { destruct (player_check_decoder_startup_ok _ Hcore1) as (b & y' & -> & Hc & Hf); try done.
    eexists _, _. split; [done|]. apply frame_step; [done..|by etrans]. }
  destruct (player_start_next_ok (y_set_buffering false y)) as (y2 & -> & Hcore2 & Hf2 & _); try done.
  cbn [mbind res_bind]. destruct (player_calc_fade_frame y2) as [Hcore3 Hf3].
  assert (y_frame y (player_calc_fade ob y2)) as Hf by (etrans; [done|]; etrans; done).
  destruct (player_feed_ok (player_calc_fade ob y2)) as (b & y' & -> & Hstep);
    [auto|by eapply y_frame_linked|].
  eexists _, _. split; [done|]. by eapply y_step_trans.
Qed.

(** ** The ends of [do_play()] *)

Lemma do_play_start_ok dc pipes pc n :
  dc_command dc = DECODE_COMMAND_NONE -> pc_next_song pc <> None ->
  pc_command pc <> PLAYER_COMMAND_NONE ->
  (pc_command pc = PLAYER_COMMAND_SEEK -> seek_fits (pc_seek_where pc) = true) ->
  exists b y, do_play_start ob dc pipes pc n = Ok (b, y) /\
    pc_command (y_pc y) = PLAYER_COMMAND_NONE /\ pc_error (y_pc y) <> PLAYER_ERROR_PENDING /\
    pc_next_song (y_pc y) = None /\ y_queued y = false /\
    dc_command (y_dc y) = DECODE_COMMAND_NONE /\
    (if b : bool then y_core y /\ y_active y else pc_state (y_pc y) = pc_state pc).
Proof using Hob.
  intros Hc Hn Hcmd Hfit. unfold do_play_start.
  destruct (pc_next_song pc) as [s|] eqn:Hs; [|done]. set (y0 := StructPlayer _ _ _ _ _ _ _ _ _ _ _ _ _ _ _ _).
  destruct (player_dc_start_ok pipes s y0) as (dc1 & Hst & Hs1 & Hc1 & Hp1 & Hpp1 & Hf1 & _);
    [by left|done|done|].
  change (y_pipe y0) with pipes. rewrite Hst. cbn [mbind res_bind].
  destruct (player_wait_for_decoder_ok (y_set_dc dc1 y0))
    as (b & y2 & -> & Hcore2 & Hq2 & Hn2 & Hcm2 & Hst2 & _); simpl; try done; try congruence.
  { by left. }
  destruct b; cbn [negb].
  - set (y3 := if decide _ then _ else _).
    assert (y_core y3 /\ y_active y3 /\ y_command y3 <> PLAYER_COMMAND_NONE /\ y_queued y3 = false /\
      pc_next_song (y_pc y3) = None) as (H1 & H2 & H3 & H4 & H5).
    { subst y3. unfold y_command. simpl. case_decide; simpl; split_and!; try done;
        try (by apply (y_core_pc y2)); unfold y_command; simpl; by rewrite Hcm2. }
    destruct (player_command_finished_ok y3 H1 H2 H3) as (y4 & -> & Hc4 & Ha4 & Hcm4 & He4 & Hq4 & Hn4).
    exists true, y4. rewrite Hq4, Hn4. split_and!; try done. apply Hc4.
  - destruct (player_dc_stop_ok y2) as (dc3 & -> & _ & Hc3 & _ & _); [apply Hcore2|].
    cbn [mbind res_bind]. unfold player_command_finished.
    destruct (pc_finished_ok (y_pc y2)) as (pc4 & Hpc4 & Hcm4 & He4 & Hst4 & Hn4); [by rewrite Hcm2|].
    simpl in *. rewrite Hpc4. eexists false, _. split; [done|]. split_and!; try done; simpl; congruence.
Qed.

Lemma do_play_end_ok y :
  y_core y -> y_linked y ->
  exists y', do_play_end ob y = Ok y' /\ dc_command (y_dc y') = DECODE_COMMAND_NONE /\
    pc_state (y_pc y') = PLAYER_STATE_STOP /\ pc_next_song (y_pc y') = None /\
    pc_error (y_pc y') = pc_error (y_pc y).
Proof using Hob.
  intros Hcore Hl. unfold do_play_end.
  destruct (player_dc_stop_ok y) as (dc' & -> & _ & Hc & _); [apply Hcore|].
  cbn [mbind res_bind]. change (y_queued (y_set_dc dc' y)) with (y_queued y).
  change (y_pc (y_set_dc dc' y)) with (y_pc y).
  destruct (y_queued y) eqn:Hq.
  - rewrite bool_decide_false by (by apply Hl). eexists. by split_and!.
  - eexists. split; [done|]. split_and!; try done. simpl.
    destruct (pc_next_song (y_pc y)) eqn:Hn; [|done].
    assert (y_queued y = true) by (apply Hl; congruence). congruence.
Qed.

End with_environment.

(** ** The thread as an instance *)

(** What the thread does on its own: iterations of the loop. *)
Inductive mpd_move : thread_result -> thread_result -> Prop :=
| MpdIteration ob y t pc n r :
    env_ok ob -> prompt ob -> th_mode t = Playing y -> do_play_move ob y t pc n = Ok r ->
    mpd_move (t, pc, n) r.

Definition mpd_thread (env : nat -> observation) : PlayerThread := {|
  thread_state := thread;
  thread_run := player_thread_run env;
  thread_move := mpd_move;
|}.

Lemma y_linked_before y pc0 pc n dc :
  y_linked (y_set_pc pc0 y) ->
  y_queued (y_set_dc dc (y_set_notify n (y_set_pc pc y))) = true <-> pc_next_song pc0 <> None.
Proof. done. Qed.

Lemma may_issue_pc cmd before pc pc' :
  may_issue cmd before pc -> pc_next_song pc' = pc_next_song pc ->
  pc_seek_where pc' = pc_seek_where pc -> may_issue cmd before pc'.
Proof. intros H Hn Hs. destruct cmd; simpl in *; by rewrite ?Hn, ?Hs. Qed.

(** A command during playback. *)
Lemma do_play_command_ok ob y t pc0 pc n cmd :
  env_ok ob -> y_core y -> y_linked (y_set_pc pc0 y) -> pc_state pc <> PLAYER_STATE_STOP ->
  pc_command pc = cmd -> pc_error pc = PLAYER_ERROR_PENDING ->
  may_issue cmd (pc_next_song pc0) pc ->
  safe True (do_play_command ob y t pc n) (fun '(t', pc', _) =>
    pc_error pc' = PLAYER_ERROR_PENDING \/
    (pc_error pc' <> PLAYER_ERROR_PENDING /\
     mpd_thread_ok t' (pc_with_command PLAYER_COMMAND_NONE pc') /\ answered cmd pc pc')).
Proof.
  intros Hob Hcore Hl Hst Hcmd Herr Hmay. unfold do_play_command.
  set (y1 := y_set_notify n (y_set_pc pc y)).
  assert (y_core (y_set_dc (ob_progress ob (y_dc y1)) y1)) as Hcore1.
  { apply y_core_progress; [by apply (y_core_pc y)|apply Hob]. }
  eapply safe_bind_mono.
  { by apply (player_process_command_ok Hob cmd (pc_next_song pc0)). }
  intros y2 (Hcore2 & Hl2 & [[Hleave He]|(Hact & Hc & He & Hans)]).
  - rewrite Hleave. destruct (do_play_end_ok Hob y2 Hcore2 Hl2) as (y3 & -> & _ & _ & _ & He3).
    simpl. left. simpl in He. congruence.
  - rewrite Hc. simpl. right. split_and!; try done.
Qed.

(** The answer of an idle thread: still stopped and idle, or playing. *)
Definition task_answered (cmd : player_command_t) (pc : player_control) (r : thread_result) : Prop :=
  let '(t', pc', _) := r in
  pc_error pc' <> PLAYER_ERROR_PENDING /\
  mpd_thread_ok t' (pc_with_command PLAYER_COMMAND_NONE pc') /\
  pc_next_song pc' = None /\ (cmd = PLAYER_COMMAND_STOP -> pc_state pc' = PLAYER_STATE_STOP).

Lemma task_finished_ok cmd pc dc pipes tick n pc1 :
  dc_command dc = DECODE_COMMAND_NONE -> pc_command pc1 <> PLAYER_COMMAND_NONE ->
  pc_state pc1 = PLAYER_STATE_STOP -> pc_next_song pc1 = None ->
  wp (pc ← pc_finished pc1;
      Ok (Thread Idle dc pipes tick, pc_with_command PLAYER_COMMAND_NONE pc, n))
    (task_answered cmd pc).
Proof.
  intros Hdc Hc Hs Hn. destruct (pc_finished_ok pc1 Hc) as (pc2 & -> & Hc2 & He2 & Hs2 & Hn2).
  rewrite Hs in Hs2. rewrite Hn in Hn2. simpl. by split_and!.
Qed.

Lemma task_play_ok ob cmd t pc n :
  env_ok ob -> dc_command (th_dc t) = DECODE_COMMAND_NONE -> pc_next_song pc <> None ->
  pc_command pc = cmd -> pc_state pc = PLAYER_STATE_STOP ->
  cmd = PLAYER_COMMAND_QUEUE \/
    cmd = PLAYER_COMMAND_SEEK /\ seek_fits (pc_seek_where pc) = true ->
  wp (player_task_command ob t pc n) (task_answered cmd pc).
Proof.
  intros Hob Hdc Hn Hcmd Hst Hcase. unfold player_task_command.
  destruct (do_play_start_ok Hob (th_dc t) (th_pipes t) pc n)
    as (b & y & Hstart & Hc & He & Hnx & Hq & Hd & Hb); try done.
  { rewrite Hcmd. by destruct Hcase as [->|[-> _]]. }
  { rewrite Hcmd. by destruct Hcase as [->|[_ ?]]. }
  rewrite bool_decide_false by done. rewrite Hstart.
  assert (cmd <> PLAYER_COMMAND_STOP) as Hns by (by destruct Hcase as [->|[-> _]]).
  rewrite Hcmd. destruct Hcase as [->|[-> _]]; cbn [mbind res_bind assert negb];
    (destruct b; [destruct Hb|rewrite Hst in Hb]; simpl; split_and!; try done).
  all: split; [done|]; split_and!; try done; unfold y_linked; simpl; by rewrite Hq, Hnx.
Qed.

(** A command while the player is stopped is always answered. *)
Lemma player_task_command_ok ob t pc0 pc n cmd :
  env_ok ob -> th_mode t = Idle -> mpd_thread_ok t pc0 -> pc_state pc = pc_state pc0 ->
  pc_command pc = cmd -> may_issue cmd (pc_next_song pc0) pc ->
  wp (player_task_command ob t pc n) (task_answered cmd pc).
Proof.
  intros Hob Hmode Hok Hst Hcmd Hmay. unfold mpd_thread_ok in Hok. rewrite Hmode in Hok.
  destruct Hok as (Hc0 & Hs0 & Hn0 & Hdc). rewrite Hs0 in Hst. rewrite Hn0 in Hmay.
  destruct cmd; simpl in Hmay; try done;
    try (apply task_play_ok; naive_solver);
    unfold player_task_command; rewrite Hcmd; (apply task_finished_ok; try done; simpl; congruence).
Qed.

Lemma do_play_move_ok ob y t pc n r :
  env_ok ob -> prompt ob -> mpd_thread_ok t pc -> th_mode t = Playing y ->
  do_play_move ob y t pc n = Ok r ->
  mpd_thread_ok r.1.1 r.1.2 /\
  (pc_next_song r.1.2 = pc_next_song pc \/ pc_next_song r.1.2 = None).
Proof.
  intros Hob Hpr [Hcmd Hok] Hmode. rewrite Hmode in Hok. destruct Hok as (Hst & Hcore & Hl).
  unfold do_play_move, do_play_iteration.
  set (y1 := y_set_dc _ _).
  assert (y_core y1) as Hcore1.
  { apply y_core_progress; [by apply (y_core_pc y)|apply Hob]. }
  assert (player_process_command ob y1 = Ok y1) as ->.
  { unfold player_process_command. change (y_command y1) with (pc_command pc). by rewrite Hcmd. }
  cbn [mbind res_bind]. change (y_command y1) with (pc_command pc). rewrite Hcmd. cbn [leaves_loop].
  destruct (do_play_body_ok Hob y1) as (b & y2 & -> & Hcore2 & Hl2 & Hact2 & Hcm2 & Hn2); try done.
  cbn [mbind res_bind]. destruct b.
  - intros [= <-]. simpl. split; [|done]. split; [by rewrite Hcm2|]. split_and!; try done. by apply Hact2.
  - destruct (do_play_end_ok Hob y2 Hcore2 Hl2) as (y3 & -> & Hc3 & Hs3 & Hn3 & _).
    intros [= <-]. simpl. split; [by split_and!|by right].
Qed.

Definition mpd_thread_spec env (Henv : forall k, env_ok (env k))
  : PlayerThreadSpec (mpd_thread env).
Proof.
  refine (Build_PlayerThreadSpec (mpd_thread env) mpd_thread_ok True _ _ _ _).
  - intros t pc [Hc Hm]. split; [done|]. intros Hs. by destruct (th_mode t); naive_solver.
  - intros t pc pc' [Hc Hm] Hc' Hs' Hn'. split; [congruence|].
    destruct (th_mode t); [by rewrite Hs', Hn'| |done].
    destruct Hm as (Hs & Hcore & Hl). rewrite Hs'. split_and!; try done.
    unfold y_linked in *. simpl in *. by rewrite Hn'.
  - intros t pc0 pc n cmd Hok Hs Hcmd Herr Hmay. simpl. unfold player_thread_run.
    destruct (th_mode t) as [|y|] eqn:Hmode.
    + pose proof (player_task_command_ok (env (th_tick t)) t pc0 pc n cmd (Henv _) Hmode Hok Hs
        Hcmd Hmay) as Hans. pose proof Hok as [_ Hok']. rewrite Hmode in Hok'.
      destruct (player_task_command _ _ _ _) as [[[t' pc'] n']|]; [|done].
      destruct Hans as (He & Hok1 & Hn1 & Hst1). cbn [mbind res_bind]. rewrite decide_False by done.
      split_and!; try done. destruct cmd; simpl in *; try done; auto.
    + pose proof Hok as [_ Hok']. rewrite Hmode in Hok'. destruct Hok' as (Hst & Hcore & Hl).
      rewrite <- Hs in Hst.
      pose proof (do_play_command_ok (env (th_tick t)) y t pc0 pc n cmd (Henv _) Hcore Hl Hst Hcmd
        Herr Hmay) as Hans.
      destruct (do_play_command _ _ _ _ _) as [[[t' pc'] n']|f]; [|by destruct f].
      cbn [mbind res_bind]. case_decide; [done|]. by destruct Hans.
    + destruct Hok as [_ Hok]. by rewrite Hmode in Hok.
  - intros t pc n t' pc' n' Hok Hm. inversion Hm as [ob y t1 pc1 n1 r Hob Hpr Hmode Hmv]; subst.
    by apply (do_play_move_ok _ _ _ _ _ _ Hob Hpr Hok Hmode) in Hmv.
Defined.

(** The contract, for the function itself. *)
Lemma player_thread_run_ok env t pc0 pc n cmd :
  (forall k, env_ok (env k)) -> mpd_thread_ok t pc0 -> pc_state pc = pc_state pc0 ->
  pc_command pc = cmd -> pc_error pc = PLAYER_ERROR_PENDING ->
  may_issue cmd (pc_next_song pc0) pc ->
  safe (pc_state pc <> PLAYER_STATE_STOP) (player_thread_run env t pc n) (fun '(t', pc', _) =>
    pc_error pc' <> PLAYER_ERROR_PENDING /\
    mpd_thread_ok t' (pc_with_command PLAYER_COMMAND_NONE pc') /\ answered cmd pc pc').
Proof.
  intros Henv Hok Hs Hc He Hmay.
  eapply safe_weaken; [|exact (@thread_run_ok _ (mpd_thread_spec env Henv) t pc0 pc n cmd Hok Hs Hc He
    Hmay)]. by intros [].
Qed.

(** ** Commands that are never answered *)

(** [STOP], [CLOSE_AUDIO] and [EXIT] during playback, and a [CANCEL] that
    arrives when the queued song has been taken: the thread leaves the loop
    and waits for the next command, [error] stays "pending". *)
Definition unanswered (pc : player_control) : Prop :=
  leaves_loop (pc_command pc) = true \/
  pc_command pc = PLAYER_COMMAND_CANCEL /\ pc_next_song pc = None.

Lemma unanswered_hangs env t y pc n :
  env_ok (env (th_tick t)) -> th_mode t = Playing y -> y_core y -> y_linked (y_set_pc pc y) ->
  pc_error pc = PLAYER_ERROR_PENDING -> unanswered pc ->
  player_thread_run env t pc n = Err NoAnswer.
Proof.
  intros Hob Hmode Hcore Hl Herr Hun. unfold player_thread_run. rewrite Hmode. unfold do_play_command.
  set (y1 := y_set_dc _ _).
  assert (y_core y1) as Hcore1.
  { apply y_core_progress; [by apply (y_core_pc y)|apply Hob]. }
  assert (exists y2, player_process_command (env (th_tick t)) y1 = Ok y2 /\ y_core y2 /\
    y_linked y2 /\ leaves_loop (y_command y2) = true /\ pc_error (y_pc y2) = PLAYER_ERROR_PENDING)
    as (y2 & -> & Hcore2 & Hl2 & Hlv & He).
  { unfold player_process_command. change (y_command y1) with (pc_command pc).
    destruct Hun as [Hlv|[-> Hn]].
    - destruct (pc_command pc) eqn:Hc; try done; (exists y1; split_and!; try done;
        unfold y_command; simpl; by rewrite Hc).
    - rewrite decide_True by done. eexists. split; [done|]. split_and!; try done.
      by apply (y_core_pc y1). }
  cbn [mbind res_bind]. rewrite Hlv.
  destruct (do_play_end_ok Hob y2 Hcore2 Hl2) as (y3 & -> & _ & _ & _ & He3).
  cbn [mbind res_bind at_idle]. by rewrite decide_True by (simpl; congruence).
Qed.

(** * Where the player thread goes wrong

    A concrete environment for the player thread (which shows that the
    assumptions [env_ok] and [prompt] can be met), and runs of the thread
    that end badly. *)

(** ** A well-behaved environment *)

Definition cd_format : audio_format := AudioFormat 44100 SAMPLE_FORMAT_S16 2.

(** A decoder that does at once what it is told; [start] is its state after a
    [START] command. *)
Definition demo_decode (start : decoder_state) : decoder_thread := fun dc =>
  let state := match dc_command dc with
               | DECODE_COMMAND_START => start
               | DECODE_COMMAND_STOP => DECODE_STATE_STOP
               | DECODE_COMMAND_SEEK => DECODE_STATE_DECODE
               | DECODE_COMMAND_NONE => DECODE_STATE_STOP
               end in
  Some (DecoderControl state DECODE_COMMAND_NONE (dc_quit dc) false true (dc_seek_where dc)
          cd_format cd_format (dc_song dc) (dc_start_ms dc) (dc_end_ms dc)
          (f32_of_Z 180) (dc_pipe dc)).

Definition demo_env (start : decoder_state) : observation :=
  Observation (demo_decode start) (fun dc => dc) [] 10 false (MusicChunk 4096 128 false) None 0
    0 true true true (f32_of_Z 5).

(** The same, but the pipe and the outputs have run empty, and the decoder
    has finished the current song. *)
Definition decoder_finished (dc : decoder_control) : decoder_control :=
  dc_with_command (if decide (dc_state dc = DECODE_STATE_DECODE) then DECODE_STATE_STOP
                   else dc_state dc) (dc_command dc) dc.

Definition drained_env : observation :=
  Observation (demo_decode DECODE_STATE_DECODE) decoder_finished [] 0 true
    (MusicChunk 4096 128 false) None 0 0 true true true (f32_of_Z 5).

Lemma demo_decode_spec start : start <> DECODE_STATE_PENDING -> decoder_spec (demo_decode start).
Proof.
  intros Hs. split. intros dc. eexists. split; [done|]. simpl.
  split_and!; try done; destruct (dc_command dc); try done.
Qed.

Lemma demo_env_ok start : start <> DECODE_STATE_PENDING -> env_ok (demo_env start).
Proof.
  intros Hs. split; simpl; [by apply demo_decode_spec|by split|constructor].
Qed.

Lemma drained_env_ok : env_ok drained_env.
Proof.
  split; simpl; [by apply demo_decode_spec| |constructor]. intros dc.
  unfold decoder_finished, decoder_is_idle, format_known. destruct dc as [st].
  destruct st; split; simpl; try done; intros H _; apply H; auto.
Qed.

Lemma demo_prompt : prompt (demo_env DECODE_STATE_DECODE).
Proof. intros dc dc' Hc [= <-]. simpl. by rewrite Hc. Qed.

(** ** The thread in the playlist *)

Definition mpd_env : nat -> observation := fun _ => demo_env DECODE_STATE_DECODE.

Definition mpd_player : @player (mpd_thread mpd_env) :=
  Player (mpd_thread mpd_env) (pc_new 1024 100) thread_init notify_init.

(** Playing a song, and then [stop]: the command is never acknowledged and the
    main thread waits forever. *)
Definition play_then_stop : res (@world glib_first (mpd_thread mpd_env)) :=
  let t := mpd_thread mpd_env in
  w ← playlist_init 16 0 1 mpd_player;
  '(_, w) ← run (CmdAppend (Song 0 "http://example.org/stream" None 0 0 None)) w;
  '(_, w) ← run (CmdPlay 0) w;
  '(_, w) ← run CmdStop w;
  Ok w.

Definition fault_of {A} (m : res A) : option fault :=
  match m with Ok _ => None | Err f => Some f end.

Lemma stop_during_playback_defect : fault_of play_then_stop = Some NoAnswer.
Proof. vm_compute. reflexivity. Qed.

(** ** Seeking *)

Definition demo_track (k : Z) : song := Song k "track.flac"%string None 0 0 (Some 180).

(** The control object after a client has put a song there and set the
    command. *)
Definition issue (cmd : player_command_t) (s : option song) (pc : player_control) : player_control :=
  pc_with_error PLAYER_ERROR_PENDING (pc_with_command cmd (pc_with_next_song s pc)).

(** A thread that plays track 1, with track [next] queued, and has begun to
    decode it; the decoder is in state [start] then. *)
Definition decoding_next (next : song) (start : decoder_state) : res struct_player :=
  '(_, y) ← do_play_start (demo_env DECODE_STATE_DECODE) dc_new 0
              (issue PLAYER_COMMAND_QUEUE (Some (demo_track 1)) (pc_new 1024 0)) notify_init;
  '(_, y) ← do_play_body (demo_env DECODE_STATE_DECODE) y;
  y ← player_process_command (demo_env DECODE_STATE_DECODE)
        (y_on_pc (issue PLAYER_COMMAND_QUEUE (Some next)) y);
  '(_, y) ← do_play_body (demo_env start) (y_set_dc (decoder_finished (y_dc y)) y);
  Ok y.

(** The queued song is the same one again (repeat and single mode), its
    decoder is still starting, and the user seeks: [dc_seek()] insists on a
    decoder that has started. *)
Lemma seek_while_starting_defect :
  fault_of (y ← decoding_next (demo_track 1) DECODE_STATE_START;
            player_process_command (demo_env DECODE_STATE_DECODE)
              (y_on_pc (issue PLAYER_COMMAND_SEEK (Some (demo_track 1))) y)) = Some AssertFailed.
Proof. vm_compute. reflexivity. Qed.

(** The same with a decoder that is ready: the seek succeeds. *)
Lemma seek_same_song_example :
  fault_of (y ← decoding_next (demo_track 1) DECODE_STATE_DECODE;
            player_process_command (demo_env DECODE_STATE_DECODE)
              (y_on_pc (issue PLAYER_COMMAND_SEEK (Some (demo_track 1))) y)) = None.
Proof. vm_compute. reflexivity. Qed.

(** The client issues [SEEK] while the thread is on its way to the border
    between two songs: the thread takes the song to be sought for the queued
    one, and finds none when it looks at the command. *)
Lemma seek_at_border_defect :
  fault_of (y ← decoding_next (demo_track 2) DECODE_STATE_DECODE;
            let y := y_on_pc (issue PLAYER_COMMAND_SEEK (Some (demo_track 1))) y in
            '(_, y) ← do_play_body drained_env y;
            player_process_command (demo_env DECODE_STATE_DECODE) y) = Some AssertFailed.
Proof. vm_compute. reflexivity. Qed.

(** The command [seek 0 4294968]: the position in milliseconds does not fit
    into an [unsigned]. *)
Lemma seek_overflow_defect :
  fault_of (player_thread_run mpd_env thread_init
    (pc_with_seek_where (f64_of_Z 4294968)
       (issue PLAYER_COMMAND_SEEK (Some (demo_track 1)) (pc_new 1024 0))) notify_init)
  = Some BadConversion.
Proof. vm_compute. reflexivity. Qed.
