(* ===== verification/Handshake.v ===== *)
(** * Handing a command to the player thread

    The two halves of the hand-shake, step by step: [player_command()] of
    [src/player_control.c], and the player thread of [src/player_thread.c]
    from the moment it looks at [pc->command] until it has run
    [player_command_finished_locked()].  [PlayerControl] treats a command as
    one atomic exchange; here the critical sections interleave. *)

From S2P Require Import Prelude.

(** Where the client is in [player_command()]. *)
Inductive client_at :=
| CStart                (* before the first [player_lock()] *)
| CCommandSet           (* behind the first [player_unlock()] *)
| CTest                 (* holds [client_mutex], about to test [error] *)
| CWaiting              (* in [cnd_wait(&pc->client_cond, ...)] *)
| CAnswered             (* behind the loop *)
| CReturned.

(** Where the player thread is.  It holds [pc->mutex] in [TTaken] and
    [TAcknowledged]. *)
Inductive thread_at :=
| TRunning              (* busy; will look at [pc->command] *)
| TTaken                (* has cleared [pc->command] *)
| TAcknowledged         (* has updated [pc->error], about to signal *)
| TSleeping.            (* in [cnd_wait(&pc->cond, ...)] *)

#[global] Instance client_at_eq_dec : EqDecision client_at.
Proof. solve_decision. Defined.
#[global] Instance thread_at_eq_dec : EqDecision thread_at.
Proof. solve_decision. Defined.

(** [h_command]: [pc->command] is not [NONE]; [h_pending]: [pc->error] is
    [PENDING]. *)
Record handshake := Handshake {
  h_command : bool;
  h_pending : bool;
  h_client : client_at;
  h_thread : thread_at;
}.

Definition holds_mutex (t : thread_at) : bool :=
  match t with TTaken | TAcknowledged => true | _ => false end.

(** The signal of the client wakes a sleeping thread, that of the thread
    wakes a waiting client; nobody else notices it. *)
Definition wake_thread (t : thread_at) : thread_at :=
  match t with TSleeping => TRunning | t => t end.
Definition wake_client (c : client_at) : client_at :=
  match c with CWaiting => CTest | c => c end.

(** Who moves: the two sides, or somebody else who wakes one of them. *)
Inductive actor := Client | Player | Others.

#[global] Instance actor_eq_dec : EqDecision actor.
Proof. solve_decision. Defined.

(** One step.  [thread_forget]: the thread leaves its loop because of the
    command, [player_task()] clears [pc->command] and waits, nobody touches
    [error].  [thread_woken], [client_woken]: wake-ups that do not come from
    the other side, like [player_signal()] of an output thread ([ao_play()]),
    and those that a condition variable may have without a signal. *)
Inductive hstep : actor -> handshake -> handshake -> Prop :=
| client_set_command p t :
    holds_mutex t = false ->
    hstep Client (Handshake false p CStart t) (Handshake true p CCommandSet t)
| client_set_pending c p t :
    hstep Client (Handshake c p CCommandSet t) (Handshake c true CTest (wake_thread t))
| client_wait c t :
    hstep Client (Handshake c true CTest t) (Handshake c true CWaiting t)
| client_leave_loop c t :
    hstep Client (Handshake c false CTest t) (Handshake c false CAnswered t)
| client_clear c p t :
    holds_mutex t = false ->
    hstep Client (Handshake c p CAnswered t) (Handshake false p CReturned t)
| thread_take p k :
    hstep Player (Handshake true p k TRunning) (Handshake false p k TTaken)
| thread_acknowledge c p k :
    k <> CTest ->
    hstep Player (Handshake c p k TTaken) (Handshake c false k TAcknowledged)
| thread_signal c p k :
    hstep Player (Handshake c p k TAcknowledged) (Handshake c p (wake_client k) TRunning)
| thread_forget c p k :
    hstep Player (Handshake c p k TTaken) (Handshake c p k TSleeping)
| thread_sleep p k :
    hstep Player (Handshake false p k TRunning) (Handshake false p k TSleeping)
| thread_woken c p k :
    hstep Others (Handshake c p k TSleeping) (Handshake c p k TRunning)
| client_woken c p t :
    hstep Others (Handshake c p CWaiting t) (Handshake c p CTest t).

Definition happens (s s' : handshake) : Prop := exists a, hstep a s s'.

(** A step of one of the two sides. *)
Definition moves (s s' : handshake) : Prop := exists a, a <> Others /\ hstep a s s'.

(** The thread acknowledges before the client has set [error] to pending. *)
Definition acknowledges_early (s s' : handshake) : Prop :=
  h_client s = CCommandSet /\ h_thread s = TTaken /\ h_thread s' = TAcknowledged.

(** The thread does not acknowledge. *)
Definition forgets (s s' : handshake) : Prop :=
  h_thread s = TTaken /\ h_thread s' = TSleeping.

(** The step does not spoil the exchange. *)
Definition good (s s' : handshake) : Prop := ~ acknowledges_early s s' /\ ~ forgets s s'.

Definition in_time (s s' : handshake) : Prop := happens s s' /\ good s s'.
Definition good_move (s s' : handshake) : Prop := moves s s' /\ good s s'.

(** Nobody else wakes the thread until [error] is pending, and it does not
    forget the command. *)
Definition calm (s s' : handshake) : Prop :=
  ~ forgets s s' /\ (moves s s' \/ (hstep Others s s' /\ h_client s <> CStart /\ h_client s <> CCommandSet)).

(** The thread sleeps in [player_wait()], or is in the middle of
    [do_play()]. *)
Definition thread_asleep : handshake := Handshake false false CStart TSleeping.
Definition thread_running : handshake := Handshake false false CStart TRunning.

Lemma moves_happens s s' : moves s s' -> happens s s'.
Proof. intros (a & _ & Hs). by exists a. Qed.

(** ** A sleeping thread answers in time *)

(** The states that are reachable in time when the thread is asleep at
    first. *)
Definition in_order (s : handshake) : Prop :=
  let c := h_command s in let p := h_pending s in
  match h_client s, h_thread s with
  | CStart, (TSleeping | TRunning) => c = false /\ p = false
  | CCommandSet, (TSleeping | TRunning) => c = true /\ p = false
  | CCommandSet, TTaken => c = false /\ p = false
  | CTest, TRunning => c = p
  | CWaiting, TRunning => c = true /\ p = true
  | (CTest | CWaiting), TTaken => c = false /\ p = true
  | CTest, TSleeping => c = false /\ p = false
  | (CTest | CWaiting | CAnswered), TAcknowledged => c = false /\ p = false
  | (CAnswered | CReturned), (TRunning | TSleeping) => c = false /\ p = false
  | _, _ => False
  end.

(** Case analysis on the state before a step. *)
Ltac handshake_cases :=
  unfold good, acknowledges_early, forgets in *; simpl in *;
  repeat match goal with
  | t : thread_at |- _ => destruct t
  | k : client_at |- _ => destruct k
  end; simpl in *.

Lemma in_order_step s s' : in_order s -> in_time s s' -> in_order s'.
Proof.
  intros Hin [[a Hs] He]; destruct Hs; unfold in_order in *; handshake_cases; naive_solver.
Qed.

Lemma in_order_reachable s : rtc in_time thread_asleep s -> in_order s.
Proof.
  intros Hr. assert (in_order thread_asleep) as Hi by done. revert Hi.
  induction Hr; eauto using in_order_step.
Qed.

(** It cannot get stuck before [player_command()] returns. *)
Lemma in_order_progress s :
  in_order s -> h_client s <> CReturned -> exists s', good_move s s'.
Proof.
  destruct s as [c p k t]. unfold in_order. simpl. intros Hin Hk.
  assert (exists a s', hstep a (Handshake c p k t) s' /\ a <> Others /\ good (Handshake c p k t) s') as (a & s' & ? & ? & ?);
    [|exists s'; split; [by exists a|done]].
  destruct k, t, c, p; try done; try (by destruct Hin);
    (eexists _, _; split;
      [first [by apply client_set_command|apply client_set_pending|apply client_wait|apply client_leave_loop|
              by apply client_clear|apply thread_take|by apply thread_acknowledge|apply thread_signal]|
       split; [done|unfold good, acknowledges_early, forgets; simpl; naive_solver]]).
Qed.

(** The steps of the two threads end: what is left of each. *)
Definition client_left (k : client_at) (pending : bool) : nat :=
  match k with
  | CStart => 20 | CCommandSet => 12 | CTest => if pending then 6 else 2 | CWaiting => 4 | CAnswered => 1 | CReturned => 0
  end.

Definition thread_left (t : thread_at) (command : bool) : nat :=
  match t with
  | TRunning => if command then 4 else 1
  | TTaken => 3
  | TAcknowledged => 2
  | TSleeping => if command then 4 else 0
  end.

Definition steps_left (s : handshake) : nat :=
  client_left (h_client s) (h_pending s) + thread_left (h_thread s) (h_command s).

Lemma in_order_decreases s s' : in_order s -> good_move s s' -> steps_left s' < steps_left s.
Proof.
  intros Hin [(a & Ha & Hs) He]. destruct Hs; unfold in_order, steps_left in *; handshake_cases;
    repeat match goal with b : bool |- _ => destruct b end; simpl in *; try lia; naive_solver.
Qed.

(** Every run ends, and when it ends, [player_command()] has returned. *)
Lemma in_order_terminates s : in_order s -> Acc (flip good_move) s.
Proof.
  intros Hin. remember (steps_left s) as n eqn:Hn. revert s Hin Hn.
  induction (lt_wf n) as [n _ IH]. intros s Hin ->. constructor. intros s' Hs.
  eapply IH; [by eapply in_order_decreases| |done]. destruct Hs as [Hs He].
  eapply in_order_step; [done|]. split; [by apply moves_happens|done].
Qed.

(** Without other wake-ups the thread still sleeps when the client sets
    [error]. *)
Definition undisturbed (s : handshake) : Prop :=
  match h_client s with CStart | CCommandSet => h_thread s = TSleeping | _ => True end.

Lemma undisturbed_step s s' : undisturbed s -> calm s s' -> undisturbed s' /\ in_time s s'.
Proof.
  intros Hu [Hf Hs]. assert (happens s s') as Hh.
  { destruct Hs as [Hs|[Hs _]]; [by apply moves_happens|by exists Others]. }
  assert (undisturbed s' /\ ~ acknowledges_early s s') as []; [|done].
  destruct Hs as [(a & Ha & Hs)|[Hs Hc]]; destruct Hs; unfold undisturbed in *; handshake_cases; naive_solver.
Qed.

Lemma calm_in_time s : rtc calm thread_asleep s -> rtc in_time thread_asleep s.
Proof.
  enough (Hg : forall s0, rtc calm s0 s -> undisturbed s0 -> rtc in_time s0 s) by (intros Hr; by apply Hg).
  intros s0 Hr. induction Hr as [|s1 s2 s3 Hs Hr IH]; intros Hu; [constructor|].
  destruct (undisturbed_step _ _ Hu Hs) as [Hu2 He]. eapply rtc_l; [exact He|by apply IH].
Qed.

(** ** A spoiled exchange never ends *)

(** Nothing is left of the command, but the client has not been answered, or
    has forgotten about it. *)
Definition missed (s : handshake) : Prop :=
  h_command s = false /\ h_thread s <> TTaken /\
  match h_client s with CCommandSet => True | CTest | CWaiting => h_pending s = true | _ => False end.

Lemma missed_forever s s' : rtc happens s s' -> missed s -> missed s'.
Proof.
  induction 1 as [|s1 s2 s3 [a Hs] Hr IH]; intros Hm; [done|]. apply IH. destruct Hs;
    unfold missed in *; handshake_cases; naive_solver.
Qed.

Lemma missed_not_returned s s' : rtc happens s s' -> missed s -> h_client s' <> CReturned.
Proof. intros Hr (_ & _ & Hm)%(missed_forever _ _ Hr) E. by rewrite E in Hm. Qed.

(** While the command is on its way, the client waits for the answer. *)
Definition expecting (s : handshake) : Prop :=
  (h_thread s = TTaken -> h_command s = false) /\
  (h_command s = true \/ h_thread s = TTaken ->
   match h_client s with CCommandSet => True | CTest | CWaiting => h_pending s = true | _ => False end).

Lemma expecting_reachable s0 s : rtc happens s0 s -> expecting s0 -> expecting s.
Proof.
  induction 1 as [|s1 s2 s3 [a Hs] Hr IH]; intros Hm; [done|]. apply IH. destruct Hs;
    unfold expecting in *; handshake_cases; naive_solver.
Qed.

Lemma spoiled_misses s0 s s' : expecting s0 -> rtc happens s0 s -> happens s s' -> ~ good s s' -> missed s'.
Proof.
  intros H0 Hr [a Hs] Hg. pose proof (expecting_reachable _ _ Hr H0) as Hx.
  destruct (decide (acknowledges_early s s')) as [He|He]; [|destruct (decide (forgets s s')) as [Hf|Hf]; [|by destruct Hg]].
  - destruct Hs; unfold expecting, missed in *; handshake_cases; naive_solver.
  - destruct Hs; unfold expecting, missed in *; handshake_cases; naive_solver.
Qed.

(** ** A running thread may miss the command *)

(** The state in which both wait for each other. *)
Definition stuck : handshake := Handshake false true CWaiting TSleeping.

Lemma stuck_no_move s : ~ moves stuck s.
Proof. intros (a & Ha & Hs). by inversion Hs; subst. Qed.

(** The thread acknowledges before the client has set [error] to pending. *)
Lemma stuck_reachable : rtc (fun s s' => moves s s' /\ ~ forgets s s') thread_running stuck.
Proof.
  assert (Hstep : forall a s s', hstep a s s' -> a <> Others -> ~ forgets s s' -> moves s s' /\ ~ forgets s s')
    by (intros a s s' Hs Ha Hf; split; [by exists a|done]).
  assert (Hf : forall s s', h_thread s <> TTaken \/ h_thread s' <> TSleeping -> ~ forgets s s')
    by (intros s s' H []; naive_solver).
  eapply rtc_l; [eapply Hstep; [by apply client_set_command|done|apply Hf; by left]|].
  eapply rtc_l; [eapply Hstep; [by apply thread_take|done|apply Hf; by left]|].
  eapply rtc_l; [eapply Hstep; [by apply thread_acknowledge|done|apply Hf; by right]|].
  eapply rtc_l; [eapply Hstep; [by apply thread_signal|done|apply Hf; by left]|].
  eapply rtc_l; [eapply Hstep; [by apply client_set_pending|done|apply Hf; by left]|].
  eapply rtc_l; [eapply Hstep; [by apply client_wait|done|apply Hf; by left]|].
  eapply rtc_l; [eapply Hstep; [by apply thread_sleep|done|apply Hf; by left]|]. constructor.
Qed.
