(* ===== verification/Tokenizer.v ===== *)
(** * The tokenizer

    [src/tokenizer.c] and [src/string_util.c].  A tokenizer function takes
    the rest of the line and returns a token and the new rest.  The code
    works in place: it terminates a word inside the line and moves unescaped
    characters to the left.  Both touch only characters that have been read
    already, so a word and the rest of the line never overlap. *)

From S2P Require Import Prelude Err CString.
Local Open Scope Z_scope.

(** The pointer that a tokenizer function returns: a word, [NULL], or
    [ERR_PTR(-code)]. *)
Inductive token :=
| TWord (word : cstring)
| TNull
| TError (code : mpd_err).

#[global] Instance token_eq_dec : EqDecision token.
Proof. solve_decision. Defined.

(** The double quote and the backslash. *)
Definition dquote : ascii := char_of 34.
Definition squote : ascii := char_of 39.
Definition backslash : ascii := char_of 92.

(** ** Operations *)

Definition strchug_fast (p : cstring) : cstring := (span g_ascii_isspace p).2.

(** [g_ascii_tolower()] and [g_ascii_strcasecmp(a, b) == 0]. *)
Definition to_lower (c : ascii) : ascii :=
  if (65 <=? char_code c) && (char_code c <=? 90) then char_of (char_code c + 32) else c.
Definition g_ascii_strcasecmp_eq (a b : cstring) : bool :=
  bool_decide (map to_lower a = map to_lower b).

Definition string_array_contains (haystack : list cstring) (needle : cstring) : bool :=
  existsb (fun s => g_ascii_strcasecmp_eq s needle) haystack.

Definition valid_word_first_char (ch : ascii) : bool := is_alpha ch.
Definition valid_word_char (ch : ascii) : bool := is_alnum ch || bool_decide (ch = "_"%char).
Definition valid_unquoted_char (ch : ascii) : bool :=
  (32 <? char_code ch) && negb (bool_decide (ch = dquote)) && negb (bool_decide (ch = squote)).

(** The loop behind the first character, the same in
    [tokenizer_next_word()] and [tokenizer_next_unquoted()]: [word] has been
    read, [valid] is the check of a character, [error] the pointer to return
    when it fails. *)
Fixpoint word_loop (valid : ascii -> bool) (error : token) (word input : cstring)
  : token * cstring :=
  match input with
  | [] => (TWord word, [])
  | c :: input' =>
      if g_ascii_isspace c then (TWord word, strchug_fast input')
      else if negb (valid c) then (error, input)
      else word_loop valid error (word ++ [c]) input'
  end.

Definition tokenizer_next_word (input : cstring) : token * cstring :=
  match input with
  | [] => (TNull, input)
  | c :: input' =>
      if negb (valid_word_first_char c) then (TNull, input)
      else word_loop valid_word_char TNull [c] input'
  end.

Definition tokenizer_next_unquoted (input : cstring) : token * cstring :=
  match input with
  | [] => (TNull, input)
  | c :: input' =>
      if negb (valid_unquoted_char c) then (TError CMD_QUOTE, input)
      else word_loop valid_unquoted_char (TError CMD_QUOTE) [c] input'
  end.

(** Behind the closing quote. *)
Definition string_end (word input : cstring) : token * cstring :=
  match input with
  | [] => (TWord word, [])
  | c :: _ => if negb (g_ascii_isspace c) then (TNull, input) else (TWord word, strchug_fast input)
  end.

(** The loop that copies characters to [dest]; [prev] is the character in
    front of [input]. *)
Fixpoint string_loop (dest : cstring) (prev : ascii) (input : cstring) : token * cstring :=
  match input with
  | [] => (TNull, [prev])
  | c :: input' =>
      if decide (c = dquote) then string_end dest input'
      else if decide (c = backslash) then
        match input' with
        | [] => (TNull, [c])
        | d :: input'' => string_loop (dest ++ [d]) d input''
        end
      else string_loop (dest ++ [c]) c input'
  end.

Definition tokenizer_next_string (input : cstring) : token * cstring :=
  match input with
  | [] => (TNull, input)
  | c :: input' =>
      if decide (c = dquote) then string_loop [] c input' else (TNull, input)
  end.

Definition tokenizer_next_param (input : cstring) : token * cstring :=
  if bool_decide (head input = Some dquote) then tokenizer_next_string input
  else tokenizer_next_unquoted input.

(** ** Specification *)

(** How a client quotes an argument. *)
Definition escape (s : cstring) : cstring :=
  s ≫= fun c => if decide (c = dquote \/ c = backslash) then [backslash; c] else [c].
Definition quote (s : cstring) : cstring := dquote :: escape s ++ [dquote].

(** The rest of a line begins with white space or is empty. *)
Definition separated (r : cstring) : Prop :=
  match r with [] => True | c :: _ => g_ascii_isspace c = true end.

(** ** Lemmas *)

Lemma string_loop_escape s dest prev r :
  separated r ->
  string_loop dest prev (escape s ++ dquote :: r) = (TWord (dest ++ s), strchug_fast r).
Proof.
  intros Hr. revert dest prev. induction s as [|c s IH]; intros dest prev.
  - rewrite app_nil_r. destruct r as [|c r]; [done|]. simpl in Hr. cbn. by rewrite Hr.
  - unfold escape. rewrite bind_cons. fold (escape s). rewrite <- app_assoc.
    destruct (decide (c = dquote \/ c = backslash)) as [Hc|Hc]; cbn [app string_loop].
    + rewrite decide_False by done. rewrite decide_True by done.
      rewrite IH. by rewrite <- app_assoc.
    + rewrite !decide_False by tauto. rewrite IH. by rewrite <- app_assoc.
Qed.

Lemma tokenizer_next_string_quote s r :
  separated r -> tokenizer_next_string (quote s ++ r) = (TWord s, strchug_fast r).
Proof.
  intros Hr. unfold quote, tokenizer_next_string. cbn [app]. rewrite decide_True by done.
  rewrite <- app_assoc. apply (string_loop_escape s [] dquote r Hr).
Qed.

Lemma tokenizer_next_param_quote s r :
  separated r -> tokenizer_next_param (quote s ++ r) = (TWord s, strchug_fast r).
Proof.
  intros Hr. unfold tokenizer_next_param. rewrite bool_decide_true by done.
  by apply tokenizer_next_string_quote.
Qed.

Lemma word_loop_ok valid error word s r :
  forallb (fun c => valid c && negb (g_ascii_isspace c)) s = true -> separated r ->
  word_loop valid error word (s ++ r) = (TWord (word ++ s), strchug_fast r).
Proof.
  revert word. induction s as [|c s IH]; intros word Hs Hr; simpl.
  - rewrite app_nil_r. destruct r as [|c r]; simpl in *; [done|].
    rewrite Hr. f_equal. unfold strchug_fast. simpl. rewrite Hr. by destruct (span _ r).
  - simpl in Hs. apply andb_true_iff in Hs as [[-> ->%negb_true_iff]%andb_true_iff Hs].
    simpl. rewrite IH by done. by rewrite <- app_assoc.
Qed.

Lemma word_char_not_space c : valid_word_char c = true -> g_ascii_isspace c = false.
Proof.
  unfold valid_word_char, g_ascii_isspace, is_space, is_alnum, is_alpha, is_digit.
  destruct (decide (c = "_"%char)) as [->|Hc]; [done|]. rewrite bool_decide_false by done.
  rewrite orb_false_r, !orb_true_iff, !andb_true_iff, !Z.leb_le.
  intros H. apply andb_false_iff. left. apply orb_false_iff.
  rewrite Z.eqb_neq, andb_false_iff, !Z.leb_gt. lia.
Qed.

(** Words of letters, digits and underscores that start with a letter. *)
Definition is_word (w : cstring) : bool :=
  match w with [] => false | c :: w' => valid_word_first_char c && forallb valid_word_char w' end.

Lemma tokenizer_next_word_ok w r :
  is_word w = true -> separated r -> tokenizer_next_word (w ++ r) = (TWord w, strchug_fast r).
Proof.
  destruct w as [|c w]; [done|]. simpl. intros [-> Hw]%andb_true_iff Hr. simpl.
  rewrite word_loop_ok; [done| |done]. rewrite forallb_forall in *. intros x Hx.
  rewrite (Hw x Hx). by rewrite (word_char_not_space x (Hw x Hx)).
Qed.

Lemma strchug_fast_length p : (length (strchug_fast p) <= length p)%nat.
Proof.
  unfold strchug_fast. induction p as [|c p IH]; simpl; [lia|].
  destruct (g_ascii_isspace c); [|simpl; lia]. destruct (span g_ascii_isspace p) eqn:?. simpl in *. lia.
Qed.

Lemma word_loop_length valid error word s w r :
  word_loop valid error word s = (TWord w, r) -> (forall w', error <> TWord w') ->
  (length r <= length s)%nat.
Proof.
  intros Hl He. revert word Hl. induction s as [|c s IH]; intros word; simpl.
  - intros [= _ <-]. done.
  - destruct (g_ascii_isspace c).
    + intros [= _ <-]. pose proof (strchug_fast_length s). lia.
    + destruct (negb (valid c)); [intros [= Hx _]; by destruct (He w)|]. intros H%IH. lia.
Qed.

Lemma string_loop_length dest prev s w r :
  string_loop dest prev s = (TWord w, r) -> (length r < length s)%nat.
Proof.
  remember (length s) as n eqn:Hn. revert dest prev s Hn.
  induction n as [n IH] using lt_wf_ind. intros dest prev s ->.
  destruct s as [|c s]; simpl; [done|]. case_decide; [|case_decide].
  - unfold string_end. destruct s as [|d s]; [by intros [= _ <-]; simpl; lia|].
    destruct (negb (g_ascii_isspace d)); intros [= _ <-].
    pose proof (strchug_fast_length (d :: s)). simpl in *. lia.
  - destruct s as [|d s]; [done|]. simpl in IH. intros H2%(IH (length s)); simpl; lia.
  - simpl in IH. intros H2%(IH (length s)); lia.
Qed.

(** A token consumes at least one character. *)
Lemma tokenizer_next_param_length s w r :
  tokenizer_next_param s = (TWord w, r) -> (length r < length s)%nat.
Proof.
  unfold tokenizer_next_param, tokenizer_next_string, tokenizer_next_unquoted.
  destruct s as [|c s]; [by rewrite bool_decide_false|].
  case_bool_decide as Hq.
  - injection Hq as ->. rewrite decide_True by done. intros H%string_loop_length. simpl. lia.
  - destruct (negb (valid_unquoted_char c)); [done|].
    intros H%word_loop_length; [simpl; lia|done].
Qed.
