(* ===== verification/Strtod.v ===== *)
(** * Decimal and floating point text

    [strtof()], [strtod()] and the floating point conversions of [printf()], in the C
    locale ([src/main.c] sets only [LC_CTYPE]). *)

From S2P Require Import Prelude CString Float Tokenizer.
Local Open Scope Z_scope.

(** ** [strtof()] and [strtod()] *)

Definition hex_value (c : ascii) : Z :=
  if is_digit c then char_code c - 48 else char_code (to_lower c) - 87.
Definition is_xdigit (c : ascii) : bool :=
  is_digit c || ((97 <=? char_code (to_lower c)) && (char_code (to_lower c) <=? 102)).

(** The digits in front of and behind the point, and what follows. *)
Definition scan_mantissa (digit : ascii -> bool) (s : cstring) : cstring * cstring * cstring :=
  let '(ip, s1) := span digit s in
  match s1 with
  | c :: s2 =>
      if decide (c = "."%char)
      then let '(fp, s3) := span digit s2 in
           if bool_decide (ip = [] /\ fp = []) then (ip, fp, s1) else (ip, fp, s3)
      else (ip, [], s1)
  | [] => (ip, [], s1)
  end.

(** An exponent introduced by [mark], or 0 and the same rest. *)
Definition scan_exponent (mark : ascii) (s : cstring) : Z * cstring :=
  match s with
  | c :: s1 =>
      if decide (to_lower c = mark) then
        let '(neg, s2) := strip_sign s1 in
        let '(ds, s3) := span is_digit s2 in
        match ds with
        | [] => (0, s)
        | _ => (if neg : bool then - decimal_value ds else decimal_value ds, s3)
        end
      else (0, s)
  | [] => (0, s)
  end.

Definition signed (neg : bool) (m : Z) : Z := if neg then - m else m.

(** [m * 10^e], rounded once to a format. *)
Definition f_of_decimal (prec emax : Z) (neg : bool) (m e : Z) : spec_float :=
  match m with
  | Z.pos p =>
      if 0 <=? e then binary_normalize prec emax (signed neg (m * 10 ^ e)) 0 neg
      else SFdiv prec emax (S754_finite neg p 0) (S754_finite false (Z.to_pos (10 ^ (- e))) 0)
  | _ => S754_zero neg
  end.

Definition f32_of_decimal : bool -> Z -> Z -> float := f_of_decimal f32_prec f32_emax.

Definition f_of_hex (prec emax : Z) (neg : bool) (m e : Z) : spec_float :=
  if m =? 0 then S754_zero neg else binary_normalize prec emax (signed neg m) e neg.

Definition hex_digits_value (ds : cstring) : Z := foldl (fun v c => v * 16 + hex_value c) 0 ds.

Definition strto_decimal (prec emax : Z) (neg : bool) (s : cstring) : option (spec_float * cstring) :=
  let '(ip, fp, s1) := scan_mantissa is_digit s in
  if decide (ip ++ fp = []) then None else
  let '(e, s2) := scan_exponent "e"%char s1 in
  Some (f_of_decimal prec emax neg (decimal_value (ip ++ fp)) (e - Z.of_nat (length fp)), s2).

Definition strto_hex (prec emax : Z) (neg : bool) (s : cstring) : option (spec_float * cstring) :=
  let '(ip, fp, s1) := scan_mantissa is_xdigit s in
  if decide (ip ++ fp = []) then None else
  let '(e, s2) := scan_exponent "p"%char s1 in
  Some (f_of_hex prec emax neg (hex_digits_value (ip ++ fp)) (e - 4 * Z.of_nat (length fp)), s2).

(** [prefix], which is in lower case, in any case. *)
Definition has_prefix_nocase (prefix s : cstring) : bool :=
  has_prefix prefix (map to_lower s).

(** The optional [(...)] behind [nan]. *)
Definition strtof_nan (s : cstring) : cstring :=
  match s with
  | c :: s1 =>
      if decide (c = "("%char) then
        match (span (fun c => is_alnum c || bool_decide (c = "_"%char)) s1).2 with
        | d :: s2 => if decide (d = ")"%char) then s2 else s
        | [] => s
        end
      else s
  | [] => s
  end.

(** The value and the string at [endptr], which is [s] if there is no
    number. *)
Definition strto (prec emax : Z) (s : cstring) : spec_float * cstring :=
  let '(neg, s1) := strip_sign (span is_space s).2 in
  if has_prefix_nocase (lit "infinity") s1 then (S754_infinity neg, drop 8 s1)
  else if has_prefix_nocase (lit "inf") s1 then (S754_infinity neg, drop 3 s1)
  else if has_prefix_nocase (lit "nan") s1 then (S754_nan, strtof_nan (drop 3 s1))
  else
    let hex := if has_prefix_nocase (lit "0x") s1 then strto_hex prec emax neg (drop 2 s1) else None in
    match hex, strto_decimal prec emax neg s1 with
    | Some r, _ | None, Some r => r
    | None, None => (S754_zero false, s)
    end.

Definition strtof : cstring -> float * cstring := strto f32_prec f32_emax.
Definition strtod : cstring -> double * cstring := strto f64_prec f64_emax.
Definition atof (s : cstring) : double := (strtod s).1.

(** ** [printf()] of numbers *)

(** ["%i"]. *)
Definition print_i (n : Z) : cstring :=
  if n <? 0 then "-"%char :: print_u (- n) else print_u n.

(** [n] with at least [k] digits, and the last [k] of them. *)
Definition pad_zeros (k : nat) (ds : cstring) : cstring :=
  replicate (k - length ds) "0"%char ++ ds.

(** The integer nearest to [num / den], ties to even. *)
Definition div_nearest_even (num den : Z) : Z :=
  let q := num / den in
  let r := num mod den in
  if 2 * r <? den then q
  else if den <? 2 * r then q + 1
  else if Z.even q then q else q + 1.

(** ["%.*f"] with [k] digits behind the point: exact, rounded to even.
    Enough digits are printed for a [double]: less than 400. *)
Definition print_f (k : nat) (x : double) : cstring :=
  let fixed (s : bool) (scaled : Z) : cstring :=
    let ip := scaled / 10 ^ Z.of_nat k in
    let fp := scaled mod 10 ^ Z.of_nat k in
    (if s then lit "-" else []) ++ digits_of 400 ip ++
    (if decide (k = 0%nat) then [] else lit "." ++ pad_zeros k (digits_of 400 fp)) in
  match x with
  | S754_zero s => fixed s 0
  | S754_infinity s => (if s then lit "-" else []) ++ lit "inf"
  | S754_nan => lit "nan"
  | S754_finite s m e =>
      fixed s (if 0 <=? e then Z.pos m * 2 ^ e * 10 ^ Z.of_nat k
               else div_nearest_even (Z.pos m * 10 ^ Z.of_nat k) (2 ^ (- e)))
  end.

(** ** Lemmas *)

Lemma strtof_examples :
  strtof (lit "1.5e1 x") = (f32_of_Z 15, lit " x") /\
  strtof (lit "-0x1.8p3") = (f32_of_Z (-12), []) /\
  strtof (lit "0xg") = (S754_zero false, lit "xg") /\
  strtof (lit ".") = (S754_zero false, lit ".") /\
  strtof (lit "nan(1)2") = (S754_nan, lit "2").
Proof. vm_compute. split_and!; reflexivity. Qed.

Lemma print_f_examples :
  print_f 3 (f64_div (f64_of_Z 1) (f64_of_Z 8)) = lit "0.125" /\
  print_f 6 (f64_of_Z (-17)) = lit "-17.000000" /\
  print_f 1 (f64_div (f64_of_Z 1) (f64_of_Z 4)) = lit "0.2".
Proof. vm_compute. split_and!; reflexivity. Qed.

(** Reading back a printed integer. *)
Lemma strtol_print_i n r :
  - 2 ^ 63 < n < 2 ^ 63 -> (match r with [] => True | c :: _ => is_digit c = false end) ->
  strtol (print_i n ++ r) = (n, r).
Proof.
  intros Hn Hr. unfold print_i. destruct (Z.ltb_spec n 0); [|by apply strtol_print; [lia|]].
  destruct (print_u_spec (- n) ltac:(lia)) as (Hd & Hv & Hne).
  unfold strtol. simpl app. cbn [span]. change (is_space "-") with false. cbn [snd].
  change (strip_sign ("-"%char :: print_u (- n) ++ r)) with (true, print_u (- n) ++ r).
  cbv beta iota. rewrite span_app by done. rewrite Hv. destruct (print_u (- n)); [done|].
  f_equal. unfold LONG_MIN, LONG_MAX. lia.
Qed.
