(* ===== verification/ArgParser.v ===== *)
(** * Arguments of protocol commands

    [src/protocol/argparser.c]: a check either yields the value or the error
    that is sent to the client.  [long] has 64 bits, [int] has 32. *)

From S2P Require Import Prelude CString Float Tokenizer Strtod.
Local Open Scope Z_scope.

(** [enum ack] of [src/ack.h]. *)
Inductive ack :=
| ACK_ERROR_NOT_LIST
| ACK_ERROR_ARG
| ACK_ERROR_PASSWORD
| ACK_ERROR_PERMISSION
| ACK_ERROR_UNKNOWN
| ACK_ERROR_NO_EXIST
| ACK_ERROR_PLAYLIST_MAX
| ACK_ERROR_SYSTEM
| ACK_ERROR_PLAYLIST_LOAD
| ACK_ERROR_UPDATE_ALREADY
| ACK_ERROR_PLAYER_SYNC
| ACK_ERROR_EXIST.

#[global] Instance ack_eq_dec : EqDecision ack.
Proof. solve_decision. Defined.

Definition ack_code (a : ack) : Z :=
  match a with
  | ACK_ERROR_NOT_LIST => 1
  | ACK_ERROR_ARG => 2
  | ACK_ERROR_PASSWORD => 3
  | ACK_ERROR_PERMISSION => 4
  | ACK_ERROR_UNKNOWN => 5
  | ACK_ERROR_NO_EXIST => 50
  | ACK_ERROR_PLAYLIST_MAX => 51
  | ACK_ERROR_SYSTEM => 52
  | ACK_ERROR_PLAYLIST_LOAD => 53
  | ACK_ERROR_UPDATE_ALREADY => 54
  | ACK_ERROR_PLAYER_SYNC => 55
  | ACK_ERROR_EXIST => 56
  end.

(** The arguments of [command_error()], the format applied. *)
Record cmd_error := CmdError {
  ce_ack : ack;
  ce_text : cstring;
}.

(** The result of a check. *)
Inductive checked (A : Type) :=
| Accepted (a : A)
| Rejected (e : cmd_error).
Arguments Accepted {_} _.
Arguments Rejected {_} _.

Definition arg_error {A} (text s : cstring) : checked A :=
  Rejected (CmdError ACK_ERROR_ARG (text ++ s)).

Definition G_MAXINT : Z := 2 ^ 31 - 1.
Definition G_MININT : Z := - 2 ^ 31.

(** ** The checks *)

(** [endptr == s || *endptr != 0]. *)
Definition no_number (s endptr : cstring) : bool :=
  bool_decide (endptr = s) || negb (bool_decide (endptr = [])).

Definition check_uint32 (s : cstring) : checked Z :=
  let '(value, test) := strtoul s in
  if no_number s test then arg_error (lit "Integer expected: ") s
  else Accepted (u32 value).

Definition check_int (s : cstring) : checked Z :=
  let '(value, test) := strtol s in
  if no_number s test then arg_error (lit "Integer expected: ") s
  else if (value <? G_MININT) || (G_MAXINT <? value) then arg_error (lit "Number too large: ") s
  else Accepted value.

(** The part of [check_range()] behind the colon. *)
Definition check_range_end (value1 : Z) (s test : cstring) : checked (Z * Z) :=
  let '(value, test2) := strtol test in
  if negb (bool_decide (test2 = [])) then arg_error (lit "Integer or range expected: ") s
  else
    let value := if bool_decide (test = test2) then G_MAXUINT else value in
    if value <? 0 then arg_error (lit "Number is negative: ") s
    else if G_MAXUINT <? value then arg_error (lit "Number too large: ") s
    else Accepted (value1, value).

Definition check_range (s : cstring) : checked (Z * Z) :=
  let '(value, test) := strtol s in
  if bool_decide (test = s) ||
     negb (bool_decide (test = []) || bool_decide (head test = Some ":"%char))
  then arg_error (lit "Integer or range expected: ") s
  else if (value =? -1) && bool_decide (test = []) then Accepted (0, G_MAXUINT)
  else if value <? 0 then arg_error (lit "Number is negative: ") s
  else if G_MAXUINT <? value then arg_error (lit "Number too large: ") s
  else match test with
       | _ :: test' => check_range_end value s test'
       | [] => Accepted (value, u32 (value + 1))
       end.

Definition check_unsigned (s : cstring) : checked Z :=
  let '(value, endptr) := strtoul s in
  if no_number s endptr then arg_error (lit "Integer expected: ") s
  else if G_MAXUINT <? value then arg_error (lit "Number too large: ") s
  else Accepted value.

Definition check_bool (s : cstring) : checked bool :=
  let '(value, endptr) := strtol s in
  if no_number s endptr || (negb (value =? 0) && negb (value =? 1))
  then arg_error (lit "Boolean (0/1) expected: ") s
  else Accepted (negb (value =? 0)).

Definition check_float (s : cstring) : checked float :=
  let '(value, endptr) := strtof s in
  if no_number s endptr then arg_error (lit "Float expected: ") s
  else Accepted value.

(** ** Lemmas *)

Lemma decimal_value_nonneg ds : forallb is_digit ds = true -> 0 <= decimal_value ds.
Proof.
  intros Hd. induction ds as [|ds c IH] using rev_ind; [done|].
  rewrite decimal_value_snoc. rewrite forallb_app in Hd. apply andb_true_iff in Hd as [H1 H2].
  specialize (IH H1). simpl in H2. rewrite andb_true_r in H2.
  unfold is_digit, digit_value in *. rewrite andb_true_iff, !Z.leb_le in H2. lia.
Qed.

Lemma span_digits s : forallb is_digit (span is_digit s).1 = true.
Proof.
  induction s as [|c s IH]; simpl; [done|]. destruct (is_digit c) eqn:Hc; [|done].
  destruct (span is_digit s). simpl in *. by rewrite Hc, IH.
Qed.

Lemma strtoul_nonneg s : 0 <= (strtoul s).1.
Proof.
  unfold strtoul. destruct (strip_sign _) as [neg s2].
  pose proof (span_digits s2). destruct (span is_digit s2) as [ds rest]. simpl in *.
  destruct ds; simpl; [lia|]. pose proof (decimal_value_nonneg _ H).
  destruct (ULONG_MAX <? _); simpl; [unfold ULONG_MAX; lia|].
  destruct neg; simpl; [|lia]. apply Z.mod_pos_bound. lia.
Qed.

(** Accepted values fit their C types. *)
Lemma check_uint32_range s v : check_uint32 s = Accepted v -> 0 <= v < 2 ^ 32.
Proof.
  unfold check_uint32. destruct (strtoul s). destruct (no_number _ _); [done|].
  intros [= <-]. apply u32_range.
Qed.

Lemma check_int_range s v : check_int s = Accepted v -> - 2 ^ 31 <= v < 2 ^ 31.
Proof.
  unfold check_int. destruct (strtol s). destruct (no_number _ _); [done|].
  unfold G_MININT, G_MAXINT. case_Z; simpl; try done. intros [= <-]. lia.
Qed.

Lemma check_unsigned_range s v : check_unsigned s = Accepted v -> 0 <= v < 2 ^ 32.
Proof.
  unfold check_unsigned. pose proof (strtoul_nonneg s). destruct (strtoul s). simpl in *.
  destruct (no_number _ _); [done|]. unfold G_MAXUINT. case_Z; [done|]. intros [= <-]. lia.
Qed.

Lemma check_range_range s a b :
  check_range s = Accepted (a, b) -> 0 <= a < 2 ^ 32 /\ 0 <= b < 2 ^ 32.
Proof.
  unfold check_range, check_range_end. destruct (strtol s) as [v t].
  destruct (_ || _); [done|]. destruct ((v =? -1) && _).
  { intros [= <- <-]. unfold G_MAXUINT. lia. }
  unfold G_MAXUINT. destruct (Z.ltb_spec v 0); [done|]. destruct (Z.ltb_spec (2 ^ 32 - 1) v); [done|].
  destruct t as [|c t].
  - intros [= <- <-]. split; [lia|apply u32_range].
  - destruct (strtol t) as [v2 t2]. destruct (negb _); [done|].
    destruct (bool_decide (t = t2)); case_Z; try done; intros [= <- <-]; lia.
Qed.

(** Printed values are accepted. *)
Lemma no_number_nil s : s <> [] -> no_number s [] = false.
Proof. intros Hs. unfold no_number. by rewrite bool_decide_false, bool_decide_true by congruence. Qed.

Lemma print_u_nonempty n : 0 <= n < 2 ^ 64 -> print_u n <> [].
Proof. apply print_u_spec. Qed.

Lemma print_i_nonempty n : - 2 ^ 63 < n < 2 ^ 63 -> print_i n <> [].
Proof.
  intros Hn. unfold print_i. destruct (Z.ltb_spec n 0); [done|]. apply print_u_nonempty. lia.
Qed.

Lemma strtoul_whole n : 0 <= n < 2 ^ 64 -> strtoul (print_u n) = (n, []).
Proof. intros Hn. rewrite <- (app_nil_r (print_u n)). by apply strtoul_print. Qed.

Lemma strtol_whole n : - 2 ^ 63 < n < 2 ^ 63 -> strtol (print_i n) = (n, []).
Proof. intros Hn. rewrite <- (app_nil_r (print_i n)). by apply strtol_print_i. Qed.

Lemma print_u_i n : 0 <= n -> print_u n = print_i n.
Proof. intros Hn. unfold print_i. by destruct (Z.ltb_spec n 0); [lia|]. Qed.

Lemma check_unsigned_print n : 0 <= n < 2 ^ 32 -> check_unsigned (print_u n) = Accepted n.
Proof.
  intros Hn. unfold check_unsigned. rewrite strtoul_whole by lia.
  rewrite no_number_nil by (apply print_u_nonempty; lia). unfold G_MAXUINT. case_Z; [lia|done].
Qed.

Lemma check_int_print n : - 2 ^ 31 <= n < 2 ^ 31 -> check_int (print_i n) = Accepted n.
Proof.
  intros Hn. unfold check_int. rewrite strtol_whole by lia.
  rewrite no_number_nil by (apply print_i_nonempty; lia).
  unfold G_MININT, G_MAXINT. case_Z; simpl; (done || lia).
Qed.

Lemma strtol_print_range a r :
  0 <= a < 2 ^ 32 -> strtol (print_u a ++ ":"%char :: r) = (a, ":"%char :: r).
Proof. intros Ha. by apply strtol_print; [lia|]. Qed.

Lemma print_u_range_neq a r : 0 <= a < 2 ^ 32 -> ":"%char :: r <> print_u a ++ ":"%char :: r.
Proof.
  intros Ha H. apply (f_equal length) in H. rewrite length_app in H. simpl in H.
  pose proof (print_u_nonempty a ltac:(lia)). destruct (print_u a); [done|]. simpl in H. lia.
Qed.

(** [check_range()] up to the colon. *)
Lemma check_range_colon a r :
  0 <= a < 2 ^ 32 ->
  check_range (print_u a ++ ":"%char :: r) = check_range_end a (print_u a ++ ":"%char :: r) r.
Proof.
  intros Ha. unfold check_range. rewrite strtol_print_range by done.
  rewrite bool_decide_false by (by apply print_u_range_neq). simpl.
  rewrite andb_false_r. unfold G_MAXUINT. case_Z; (done || lia).
Qed.

Lemma check_range_print a b :
  0 <= a < 2 ^ 32 -> 0 <= b < 2 ^ 32 ->
  check_range (print_u a ++ ":"%char :: print_u b) = Accepted (a, b).
Proof.
  intros Ha Hb. rewrite check_range_colon by done. unfold check_range_end.
  rewrite (print_u_i b) by lia. rewrite strtol_whole by lia.
  rewrite bool_decide_true by done. simpl.
  rewrite bool_decide_false by (apply print_i_nonempty; lia).
  unfold G_MAXUINT. case_Z; (done || lia).
Qed.

Lemma check_range_open a :
  0 <= a < 2 ^ 32 -> check_range (print_u a ++ [":"%char]) = Accepted (a, G_MAXUINT).
Proof. intros Ha. by rewrite check_range_colon. Qed.

(** A single position is a range of length 1, except for the greatest
    number, for which the end wraps around. *)
Lemma check_range_single a :
  0 <= a < 2 ^ 32 -> check_range (print_u a) = Accepted (a, u32 (a + 1)).
Proof.
  intros Ha. unfold check_range. rewrite (print_u_i a) by lia. rewrite strtol_whole by lia.
  rewrite bool_decide_false by (by apply not_eq_sym, print_i_nonempty; lia).
  rewrite bool_decide_true by done. simpl. rewrite andb_true_r. unfold G_MAXUINT.
  case_Z; (done || lia).
Qed.
