(* ===== verification/FifoBuffer.v ===== *)
(** * FIFO buffers

    [src/fifo_buffer.c] and [src/growing_fifo.c], and their refinement of a
    list of bytes. *)

From S2P Require Import Prelude CString.
Local Open Scope Z_scope.

(** [size_t] has 64 bits.  [fb_data] are the bytes behind the header; those
    that were never written are undefined. *)
Record fifo_buffer := FifoBuffer {
  fb_size : Z;
  fb_start : Z;
  fb_end : Z;
  fb_data : cells ascii;
}.

Definition fb_set_range (start end_ : Z) (b : fifo_buffer) : fifo_buffer :=
  FifoBuffer (fb_size b) start end_ (fb_data b).

(** ** Operations *)

Definition fifo_buffer_new (size : Z) : res fifo_buffer :=
  assert (0 <? size);;
  Ok (FifoBuffer size 0 0 (replicate (Z.to_nat size) None)).

Definition fifo_buffer_capacity (b : fifo_buffer) : Z := fb_size b.
Definition fifo_buffer_available (b : fifo_buffer) : Z := u64 (fb_end b - fb_start b).
Definition fifo_buffer_clear (b : fifo_buffer) : fifo_buffer := fb_set_range 0 0 b.

(** The bytes of a region that is read. *)
Definition defined_cells {A} (l : cells A) : res (list A) :=
  foldr (fun c acc => match c with Some x => cons x <$> acc | None => Err Uninitialized end)
    (Ok []) l.

(** [NULL], or the bytes at the pointer that is returned. *)
Definition fifo_buffer_read (b : fifo_buffer) : res (option cstring) :=
  assert (fb_start b <=? fb_end b);;
  if fb_start b =? fb_end b then Ok None
  else
    (if fb_size b <? fb_end b then Err OutOfBounds else Ok tt);;
    l ← defined_cells (take (Z.to_nat (fb_end b - fb_start b))
                         (drop (Z.to_nat (fb_start b)) (fb_data b)));
    Ok (Some l).

Definition fifo_buffer_consume (length : Z) (b : fifo_buffer) : res fifo_buffer :=
  assert (fb_start b <=? fb_end b);;
  assert (u64 (fb_start b + length) <=? fb_end b);;
  Ok (fb_set_range (u64 (fb_start b + length)) (fb_end b) b).

(** [memmove(buffer, buffer + from, n)]. *)
Definition move_front (from n : nat) (l : cells ascii) : cells ascii :=
  take n (drop from l) ++ drop n l.

Definition fifo_buffer_move (b : fifo_buffer) : fifo_buffer :=
  if fb_start b =? 0 then b else
  let data := if fb_start b <? fb_end b
              then move_front (Z.to_nat (fb_start b)) (Z.to_nat (fb_end b - fb_start b)) (fb_data b)
              else fb_data b in
  FifoBuffer (fb_size b) 0 (u64 (fb_end b - fb_start b)) data.

(** The buffer and [*max_length_r], or no room. *)
Definition fifo_buffer_write (b : fifo_buffer) : res (option Z * fifo_buffer) :=
  assert (fb_end b <=? fb_size b);;
  if fb_end b =? fb_size b then
    let b := fifo_buffer_move b in
    Ok (if fb_end b =? fb_size b then None else Some (u64 (fb_size b - fb_end b)), b)
  else
    let b := if (0 <? fb_start b) && (fb_start b =? fb_end b) then fb_set_range 0 0 b else b in
    Ok (Some (u64 (fb_size b - fb_end b)), b).

(** What the caller does with the pointer that [fifo_buffer_write()]
    returns: store bytes behind the end. *)
Definition fifo_store (bytes : cstring) (b : fifo_buffer) : res fifo_buffer :=
  let n := Z.to_nat (fb_end b) in
  (if fb_size b <? fb_end b + Z.of_nat (length bytes) then Err OutOfBounds else Ok tt);;
  Ok (FifoBuffer (fb_size b) (fb_start b) (fb_end b)
        (take n (fb_data b) ++ (Some <$> bytes) ++ drop (n + length bytes) (fb_data b))).

Definition fifo_buffer_append (length : Z) (b : fifo_buffer) : res fifo_buffer :=
  assert (fb_start b <=? fb_end b);;
  assert (u64 (fb_end b + length) <=? fb_size b);;
  Ok (fb_set_range (fb_start b) (u64 (fb_end b + length)) b).

Definition fifo_buffer_is_empty (b : fifo_buffer) : bool := fb_start b =? fb_end b.
Definition fifo_buffer_is_full (b : fifo_buffer) : bool :=
  (fb_start b =? 0) && (fb_end b =? fb_size b).

(** [realloc()] keeps the bytes up to the smaller size. *)
Definition fifo_buffer_realloc (b : option fifo_buffer) (new_size : Z) : res (option fifo_buffer) :=
  match b with
  | None => if 0 <? new_size then Some <$> fifo_buffer_new new_size else Ok None
  | Some b =>
      assert (u64 (fb_end b - fb_start b) <=? new_size);;
      if new_size =? 0 then Ok None else
      let b := if new_size <? fb_end b then fifo_buffer_move b else b in
      assert (fb_end b <=? new_size);;
      let n := Z.to_nat new_size in
      Ok (Some (FifoBuffer new_size (fb_start b) (fb_end b)
                  (take n (fb_data b) ++ replicate (n - length (fb_data b)) None)))
  end.

(** ** Growing buffers *)

Definition GROWING_FIFO_ALIGN : Z := 8192.

Definition align (size : Z) : Z :=
  u64 (Z.lor (u64 (size - 1)) (GROWING_FIFO_ALIGN - 1) + 1).

Definition growing_fifo_new : res fifo_buffer := fifo_buffer_new GROWING_FIFO_ALIGN.

(** The buffer with room for [length] bytes at the pointer returned. *)
Definition growing_fifo_write (length : Z) (b : fifo_buffer) : res fifo_buffer :=
  '(p, b) ← fifo_buffer_write b;
  if (match p with Some max_length => length <=? max_length | None => false end) then Ok b
  else
    let new_size := u64 (fifo_buffer_available b + length) in
    assert (fifo_buffer_capacity b <? new_size);;
    b ← fifo_buffer_realloc (Some b) (align new_size);
    match b with
    | None => Err AssertFailed
    | Some b =>
        '(p, b) ← fifo_buffer_write b;
        match p with
        | Some max_length => assert (length <=? max_length);; Ok b
        | None => Err AssertFailed
        end
    end.

(** ** Refinement *)

(** The buffer holds the bytes [l]. *)
Record fifo_rep (b : fifo_buffer) (l : cstring) : Prop := {
  fifo_order : 0 <= fb_start b /\ fb_end b = fb_start b + Z.of_nat (length l) /\
               fb_end b <= fb_size b < 2 ^ 62;
  fifo_length : length (fb_data b) = Z.to_nat (fb_size b);
  fifo_bytes : take (length l) (drop (Z.to_nat (fb_start b)) (fb_data b)) = Some <$> l;
}.

Lemma defined_cells_ok {A} (l : list A) : defined_cells (Some <$> l) = Ok l.
Proof. induction l as [|x l IH]; [done|]. rewrite fmap_cons. simpl. by rewrite IH. Qed.

Lemma fifo_new_ok size :
  0 < size < 2 ^ 62 -> exists b, fifo_buffer_new size = Ok b /\ fifo_rep b [] /\ fb_size b = size.
Proof.
  intros Hs. unfold fifo_buffer_new. rewrite (proj2 (Z.ltb_lt 0 size)) by lia. simpl.
  eexists. split_and!; [done| |done]. split; simpl; [lia|by rewrite length_replicate|done].
Qed.

Lemma fifo_available_ok b l : fifo_rep b l -> fifo_buffer_available b = Z.of_nat (length l).
Proof. intros [Ho _ _]. unfold fifo_buffer_available. rewrite u64_small; lia. Qed.

Lemma fifo_read_ok b l :
  fifo_rep b l -> fifo_buffer_read b = Ok (if decide (l = []) then None else Some l).
Proof.
  intros [Ho Hl Hb]. unfold fifo_buffer_read. rewrite (proj2 (Z.leb_le _ _)) by lia. simpl.
  destruct (Z.eqb_spec (fb_start b) (fb_end b)) as [He|He].
  - rewrite decide_True; [done|]. destruct l; [done|]. simpl in Ho. lia.
  - rewrite decide_False by (intros ->; simpl in Ho; lia).
    rewrite (proj2 (Z.ltb_ge _ _)) by lia. simpl.
    replace (Z.to_nat (fb_end b - fb_start b)) with (length l) by lia.
    by rewrite Hb, defined_cells_ok.
Qed.

Lemma fifo_consume_ok b l n :
  fifo_rep b l -> (n <= length l)%nat ->
  exists b', fifo_buffer_consume (Z.of_nat n) b = Ok b' /\ fifo_rep b' (drop n l) /\
             fb_size b' = fb_size b.
Proof.
  intros [Ho Hl Hb] Hn. unfold fifo_buffer_consume. rewrite u64_small by lia.
  rewrite !(proj2 (Z.leb_le _ _)) by lia. simpl. eexists. split_and!; [done| |done].
  split; simpl; [rewrite length_drop; lia|done|].
  rewrite length_drop, fmap_drop, <- Hb, skipn_firstn_comm, skipn_skipn.
  do 2 f_equal. lia.
Qed.

Lemma move_front_length from n l : (from + n <= length l)%nat -> length (move_front from n l) = length l.
Proof.
  intros H. unfold move_front. rewrite length_app, length_take, !length_drop. lia.
Qed.

Lemma fifo_move_ok b l :
  fifo_rep b l -> fifo_rep (fifo_buffer_move b) l /\ fb_start (fifo_buffer_move b) = 0 /\
  fb_size (fifo_buffer_move b) = fb_size b.
Proof.
  intros [Ho Hl Hb]. unfold fifo_buffer_move.
  destruct (Z.eqb_spec (fb_start b) 0) as [H0|H0]; [by split_and!|]. simpl.
  rewrite u64_small by lia.
  replace (Z.to_nat (fb_end b - fb_start b)) with (length l) by lia.
  split_and!; [|done|done]. split; cbn [fb_start fb_end fb_size fb_data]; [lia| |].
  - destruct (_ <? _); [rewrite move_front_length; lia|done].
  - rewrite drop_0. destruct (Z.ltb_spec (fb_start b) (fb_end b)) as [H|H].
    + unfold move_front. rewrite Hb.
      apply take_app_length'. by rewrite length_fmap.
    + assert (length l = 0%nat) as E by lia. apply nil_length_inv in E as ->. done.
Qed.

(** [fifo_buffer_write()] finds room unless the buffer is full. *)
Lemma fifo_write_ok b l :
  fifo_rep b l -> exists b',
    fifo_buffer_write b =
      Ok (if fb_end b' =? fb_size b' then None else Some (fb_size b' - fb_end b'), b') /\
    fifo_rep b' l /\ fb_size b' = fb_size b /\
    (fb_end b' = fb_size b' -> Z.of_nat (length l) = fb_size b) /\
    (fb_start b = 0 -> fb_start b' = 0).
Proof.
  intros Hrep. pose proof (fifo_order _ _ Hrep) as Ho. unfold fifo_buffer_write.
  rewrite (proj2 (Z.leb_le _ _)) by lia. simpl.
  destruct (Z.eqb_spec (fb_end b) (fb_size b)) as [He|He].
  - destruct (fifo_move_ok b l Hrep) as (Hm & Hs & Hz). exists (fifo_buffer_move b).
    pose proof (fifo_order _ _ Hm) as Ho'. rewrite u64_small by lia.
    split_and!; [done|done|done| |done]. intros. lia.
  - set (c := (0 <? fb_start b) && (fb_start b =? fb_end b)).
    assert (fifo_rep (if c then fb_set_range 0 0 b else b) l) as Hr.
    { unfold c. destruct (Z.ltb_spec 0 (fb_start b)); [|done].
      destruct (Z.eqb_spec (fb_start b) (fb_end b)); [|done]. simpl.
      assert (length l = 0%nat) as E by lia. apply nil_length_inv in E as ->.
      split; simpl; [lia|apply Hrep|done]. }
    exists (if c then fb_set_range 0 0 b else b). pose proof (fifo_order _ _ Hr) as Ho'.
    rewrite u64_small by (destruct c; simpl in *; lia).
    assert (fb_size (if c then fb_set_range 0 0 b else b) = fb_size b) as Hz by by destruct c.
    assert (fb_end (if c then fb_set_range 0 0 b else b) <> fb_size b) as Hne.
    { unfold c. destruct (Z.ltb_spec 0 (fb_start b)); [|done].
      destruct (Z.eqb_spec (fb_start b) (fb_end b)); [|done]. simpl. lia. }
    rewrite Hz. rewrite (proj2 (Z.eqb_neq _ _) Hne). split_and!; [done|done|done|congruence|by destruct c].
Qed.

(** Storing bytes at the end and appending them. *)
Lemma fifo_store_append_ok b l bytes :
  fifo_rep b l -> fb_end b + Z.of_nat (length bytes) <= fb_size b ->
  exists b', (fifo_store bytes b ≫= fifo_buffer_append (Z.of_nat (length bytes))) = Ok b' /\
    fifo_rep b' (l ++ bytes) /\ fb_size b' = fb_size b.
Proof.
  intros [Ho Hl Hb] Hroom. unfold fifo_store, fifo_buffer_append.
  rewrite (proj2 (Z.ltb_ge _ _)) by lia. simpl. rewrite u64_small by lia.
  rewrite !(proj2 (Z.leb_le _ _)) by lia. simpl. eexists. split_and!; [done| |done].
  split; cbn [fb_start fb_end fb_size fb_data fb_set_range].
  - rewrite length_app. lia.
  - rewrite !length_app, length_take, length_fmap, length_drop. lia.
  - rewrite length_app, fmap_app.
    rewrite skipn_app, length_take, Nat.min_l by lia.
    replace (Z.to_nat (fb_start b) - Z.to_nat (fb_end b))%nat with 0%nat by lia. rewrite drop_0.
    rewrite skipn_firstn_comm.
    replace (Z.to_nat (fb_end b) - Z.to_nat (fb_start b))%nat with (length l) by lia.
    rewrite Hb, <- take_take_drop. rewrite take_app_length' by by rewrite length_fmap.
    f_equal. rewrite drop_app_length' by by rewrite length_fmap.
    apply take_app_length'. by rewrite length_fmap.
Qed.

Lemma fifo_realloc_ok b l new_size :
  fifo_rep b l -> Z.of_nat (length l) <= new_size -> 0 < new_size < 2 ^ 62 ->
  exists b', fifo_buffer_realloc (Some b) new_size = Ok (Some b') /\ fifo_rep b' l /\
    fb_size b' = new_size /\ (fb_start b = 0 -> fb_start b' = 0).
Proof.
  intros Hrep Hfit Hs. pose proof (fifo_order _ _ Hrep) as Ho. simpl.
  rewrite u64_small by lia. rewrite (proj2 (Z.leb_le (fb_end b - fb_start b) new_size)) by lia.
  simpl. rewrite (proj2 (Z.eqb_neq _ _)) by lia.
  set (b1 := if new_size <? fb_end b then fifo_buffer_move b else b).
  assert (fifo_rep b1 l /\ fb_end b1 <= new_size /\ (fb_start b = 0 -> fb_start b1 = 0))
    as (H1 & He1 & H0).
  { unfold b1. destruct (Z.ltb_spec new_size (fb_end b)); [|done].
    destruct (fifo_move_ok b l Hrep) as (Hm & Hm0 & _). split_and!; [done| |done].
    pose proof (fifo_order _ _ Hm). lia. }
  clearbody b1. destruct H1 as [Ho1 Hl1 Hb1]. rewrite (proj2 (Z.leb_le _ _)) by done. simpl.
  eexists. split_and!; [done| |done|done]. split; cbn [fb_start fb_end fb_size fb_data]; [lia| |].
  - rewrite length_app, length_take, length_replicate. lia.
  - rewrite skipn_app, skipn_firstn_comm, firstn_app, firstn_firstn.
    rewrite Nat.min_l by lia. rewrite Hb1. rewrite length_take, length_drop.
    rewrite (proj2 (Nat.sub_0_le _ _)) by lia. simpl. by rewrite app_nil_r.
Qed.

Lemma align_spec size :
  0 < size < 2 ^ 61 -> align size = size + (8191 - (size - 1) mod 8192).
Proof.
  intros Hs. unfold align, GROWING_FIFO_ALIGN. rewrite (u64_small (size - 1)) by lia.
  pose proof (Z.add_lor_land (size - 1) (8192 - 1)) as H.
  change (8192 - 1) with (Z.ones 13) in *. rewrite Z.land_ones in H by lia.
  change (2 ^ 13) with 8192 in H. change (Z.ones 13) with 8191 in *.
  pose proof (Z.mod_pos_bound (size - 1) 8192 ltac:(lia)). rewrite u64_small; lia.
Qed.

(** A buffer from which nothing has been consumed can always grow. *)
Lemma growing_fifo_write_ok b l n :
  fifo_rep b l -> fb_start b = 0 -> 0 < n -> fb_size b + n < 2 ^ 61 ->
  exists b', growing_fifo_write n b = Ok b' /\ fifo_rep b' l /\ fb_end b' + n <= fb_size b'.
Proof.
  intros Hrep H0 Hn Hs. unfold growing_fifo_write.
  destruct (fifo_write_ok b l Hrep) as (b1 & -> & Hrep1 & Hs1 & Hfull & Hz). cbn [mbind res_bind].
  pose proof (fifo_order _ _ Hrep) as Ho. pose proof (fifo_order _ _ Hrep1) as Ho1.
  specialize (Hz H0).
  match goal with |- context [if ?c then Ok b1 else _] => destruct c eqn:Henough end.
  { exists b1. split_and!; [done|done|]. destruct (Z.eqb_spec (fb_end b1) (fb_size b1)); [done|].
    apply Z.leb_le in Henough. lia. }
  assert (fb_size b1 - fb_end b1 < n) as Hless.
  { destruct (Z.eqb_spec (fb_end b1) (fb_size b1)); [lia|]. by apply Z.leb_gt in Henough. }
  rewrite (fifo_available_ok b1 l Hrep1), u64_small by lia. unfold fifo_buffer_capacity.
  rewrite (proj2 (Z.ltb_lt _ _)) by lia. cbn [assert mbind res_bind].
  pose proof (align_spec (Z.of_nat (length l) + n) ltac:(lia)) as Ha.
  pose proof (Z.mod_pos_bound (Z.of_nat (length l) + n - 1) 8192 ltac:(lia)).
  destruct (fifo_realloc_ok b1 l (align (Z.of_nat (length l) + n)) Hrep1) as
    (b2 & -> & Hrep2 & Hs2 & Hz2); [lia|lia|]. cbn [mbind res_bind].
  destruct (fifo_write_ok b2 l Hrep2) as (b3 & -> & Hrep3 & Hs3 & Hfull3 & Hz3).
  pose proof (fifo_order _ _ Hrep3) as Ho3. specialize (Hz3 (Hz2 Hz)). cbn [mbind res_bind].
  rewrite (proj2 (Z.eqb_neq _ _)) by lia.
  rewrite (proj2 (Z.leb_le _ _)) by lia. cbn [assert mbind res_bind].
  exists b3. split_and!; [done|done|lia].
Qed.

(** A buffer from which bytes have been consumed cannot: 3000 bytes at
    offset 5000 leave no room for 5000 more, which would fit after a
    move. *)
Definition consumed_buffer : res fifo_buffer :=
  b ← growing_fifo_new;
  b ← fifo_store (replicate 8000 "x"%char) b;
  b ← fifo_buffer_append 8000 b;
  fifo_buffer_consume 5000 b.

Lemma growing_fifo_write_defect :
  (b ← consumed_buffer; fb_end <$> growing_fifo_write 5000 b) = Err AssertFailed.
Proof. vm_compute. reflexivity. Qed.
