(* ===== verification/ClientRead.v ===== *)
(** * Reading command lines

    [src/client_read.c]: bytes arrive in pieces of any size, lines leave the
    FIFO buffer in order.  The socket is a channel with a read operation;
    what happens with a line is a parameter. *)

From S2P Require Import Prelude CString FifoBuffer Tokenizer.
Local Open Scope Z_scope.

(** [enum command_return] of [src/command.h], and the value 1 that
    [handle_idle()] returns. *)
Inductive command_return :=
| COMMAND_RETURN_ERROR
| COMMAND_RETURN_OK
| COMMAND_RETURN_IDLE
| COMMAND_RETURN_KILL
| COMMAND_RETURN_CLOSE.

#[global] Instance command_return_eq_dec : EqDecision command_return.
Proof. solve_decision. Defined.

(** The result of [g_io_channel_read_chars()]. *)
Inductive io_status :=
| IoNormal (bytes : cstring)
| IoAgain
| IoEof
| IoError.

Definition newline : ascii := char_of 10.

(** [strndup()] stops at a null byte; [g_strchomp()] removes trailing white
    space. *)
Fixpoint strndup (s : cstring) : cstring :=
  match s with
  | [] => []
  | c :: s' => if decide (c = char_of 0) then [] else c :: strndup s'
  end.
Definition g_strchomp (s : cstring) : cstring := rev (strchug_fast (rev s)).

(** The text of a line, from the bytes in front of the newline. *)
Definition line_text (raw : cstring) : cstring := g_strchomp (strndup raw).

Section with_client.
Context {C : Type} (process_line : cstring -> C -> res (command_return * C)) (is_expired : C -> bool).
Context {Ch : Type} (read_chars : Ch -> Z -> io_status * Ch).

Definition client_read_line (b : fifo_buffer) : res (option cstring * fifo_buffer) :=
  p ← fifo_buffer_read b;
  match p ≫= before newline with
  | None => Ok (None, b)
  | Some raw =>
      b ← fifo_buffer_consume (Z.of_nat (length raw) + 1) b;
      Ok (Some (line_text raw), b)
  end.

(** The loop of [client_input_received()]: every line consumes a byte. *)
Fixpoint process_all_lines (fuel : nat) (b : fifo_buffer) (c : C)
  : res (command_return * fifo_buffer * C) :=
  match fuel with
  | O => Err OutOfFuel
  | S fuel' =>
      '(line, b) ← client_read_line b;
      match line with
      | None => Ok (COMMAND_RETURN_OK, b, c)
      | Some line =>
          '(ret, c) ← process_line line c;
          match ret with
          | COMMAND_RETURN_KILL | COMMAND_RETURN_CLOSE => Ok (ret, b, c)
          | _ => if is_expired c then Ok (COMMAND_RETURN_CLOSE, b, c)
                 else process_all_lines fuel' b c
          end
      end
  end.

Definition client_input_received (bytesRead : Z) (b : fifo_buffer) (c : C)
  : res (command_return * fifo_buffer * C) :=
  b ← fifo_buffer_append bytesRead b;
  process_all_lines (S (Z.to_nat (fifo_buffer_available b))) b c.

Definition client_read (ch : Ch) (b : fifo_buffer) (c : C)
  : res (command_return * Ch * fifo_buffer * C) :=
  '(p, b) ← fifo_buffer_write b;
  match p with
  | None => Ok (COMMAND_RETURN_CLOSE, ch, b, c)
  | Some max_length =>
      let '(status, ch) := read_chars ch max_length in
      match status with
      | IoNormal bytes =>
          b ← fifo_store bytes b;
          '(ret, b, c) ← client_input_received (Z.of_nat (length bytes)) b c;
          Ok (ret, ch, b, c)
      | IoAgain => Ok (COMMAND_RETURN_OK, ch, b, c)
      | IoEof | IoError => Ok (COMMAND_RETURN_CLOSE, ch, b, c)
      end
  end.

(** [n] times [client_in_event()], as long as the connection is open. *)
Fixpoint client_events (n : nat) (ch : Ch) (b : fifo_buffer) (c : C)
  : res (command_return * Ch * fifo_buffer * C) :=
  match n with
  | O => Ok (COMMAND_RETURN_OK, ch, b, c)
  | S n' =>
      '(ret, ch, b, c) ← client_read ch b c;
      match ret with
      | COMMAND_RETURN_KILL | COMMAND_RETURN_CLOSE => Ok (ret, ch, b, c)
      | _ => client_events n' ch b c
      end
  end.

(** ** Specification *)

(** The complete lines of a text and what follows the last of them. *)
Fixpoint split_lines (s : cstring) : list cstring * cstring :=
  match s with
  | [] => ([], [])
  | c :: s' =>
      let '(ls, r) := split_lines s' in
      if decide (c = newline) then ([] :: ls, r)
      else match ls with
           | [] => ([], c :: r)
           | l :: ls' => ((c :: l) :: ls', r)
           end
  end.

(** The lines are handled one after the other, until one ends the
    connection. *)
Fixpoint process_lines (ls : list cstring) (c : C) : res (command_return * C) :=
  match ls with
  | [] => Ok (COMMAND_RETURN_OK, c)
  | raw :: ls' =>
      '(ret, c) ← process_line (line_text raw) c;
      match ret with
      | COMMAND_RETURN_KILL | COMMAND_RETURN_CLOSE => Ok (ret, c)
      | _ => if is_expired c then Ok (COMMAND_RETURN_CLOSE, c) else process_lines ls' c
      end
  end.

(** ** Lemmas *)

Lemma before_split s raw :
  before newline s = Some raw -> exists s', s = raw ++ newline :: s' /\
    split_lines s = (raw :: (split_lines s').1, (split_lines s').2).
Proof.
  revert raw. induction s as [|x s IH]; intros raw; simpl; [done|].
  destruct (decide (x = newline)) as [->|Hx].
  - intros [= <-]. exists s. by destruct (split_lines s).
  - destruct (before newline s) as [raw'|]; [|done]. simpl. intros [= <-].
    destruct (IH raw' eq_refl) as (s' & -> & Hs). exists s'. by rewrite Hs.
Qed.

Lemma before_none s : before newline s = None -> split_lines s = ([], s).
Proof.
  induction s as [|x s IH]; simpl; [done|]. destruct (decide (x = newline)); [done|].
  destruct (before newline s); [done|]. intros _. by rewrite IH.
Qed.

Lemma split_lines_rest s : before newline (split_lines s).2 = None.
Proof.
  induction s as [|x s IH]; simpl; [done|]. destruct (split_lines s) as [ls r]. simpl in IH.
  destruct (decide (x = newline)) as [->|Hx]; [done|]. destruct ls; simpl; [|done].
  rewrite decide_False by done. by rewrite IH.
Qed.

Lemma split_lines_app a s :
  split_lines (a ++ s) =
  ((split_lines a).1 ++ (split_lines ((split_lines a).2 ++ s)).1,
   (split_lines ((split_lines a).2 ++ s)).2).
Proof.
  induction a as [|x a IH]; simpl; [by destruct (split_lines s)|]. rewrite IH.
  destruct (split_lines a) as [ls r]. simpl. destruct (decide (x = newline)) as [->|Hx]; simpl; [done|].
  destruct ls as [|l ls]; simpl; [|done].
  destruct (split_lines (r ++ s)) as [[|l2 ls2] r2]; simpl; by rewrite ?decide_False by done.
Qed.

Lemma process_lines_app l1 l2 c :
  process_lines (l1 ++ l2) c =
  '(ret, c) ← process_lines l1 c;
  if decide (ret = COMMAND_RETURN_OK) then process_lines l2 c else Ok (ret, c).
Proof.
  revert c. induction l1 as [|raw l1 IH]; intros c; simpl; [done|].
  destruct (process_line (line_text raw) c) as [[ret c']|]; [|done]. simpl.
  destruct ret; simpl; try done; destruct (is_expired c'); simpl; done.
Qed.

Lemma process_lines_ret ls c ret c' :
  process_lines ls c = Ok (ret, c') ->
  ret = COMMAND_RETURN_OK \/ ret = COMMAND_RETURN_KILL \/ ret = COMMAND_RETURN_CLOSE.
Proof.
  revert c. induction ls as [|raw ls IH]; intros c; simpl; [intros [= <- _]; auto|].
  destruct (process_line (line_text raw) c) as [[r c1]|]; [|done]. simpl.
  destruct r; try (destruct (is_expired c1); [intros [= <- _]; auto|by apply IH]);
    intros [= <- _]; auto.
Qed.

Lemma client_read_line_ok b l :
  fifo_rep b l ->
  match before newline l with
  | None => client_read_line b = Ok (None, b)
  | Some raw => exists b', client_read_line b = Ok (Some (line_text raw), b') /\
      fifo_rep b' (drop (S (length raw)) l) /\ fb_size b' = fb_size b
  end.
Proof.
  intros Hrep. unfold client_read_line. rewrite (fifo_read_ok b l Hrep). cbn [mbind res_bind].
  destruct (decide (l = [])) as [->|Hl]; [done|]. simpl.
  destruct (before newline l) as [raw|] eqn:Hb; [|done].
  destruct (before_split l raw Hb) as (s' & Hs & _).
  destruct (fifo_consume_ok b l (S (length raw)) Hrep) as (b' & Hc & Hr & Hz).
  { rewrite Hs, length_app. simpl. lia. }
  replace (Z.of_nat (S (length raw))) with (Z.of_nat (length raw) + 1) in Hc by lia.
  rewrite Hc. by exists b'.
Qed.

Lemma process_all_lines_ok fuel b l c :
  fifo_rep b l -> (length l < fuel)%nat ->
  exists b', process_all_lines fuel b c =
      ('(ret, c') ← process_lines (split_lines l).1 c; Ok (ret, b', c')) /\
    (forall c', process_lines (split_lines l).1 c = Ok (COMMAND_RETURN_OK, c') ->
       fifo_rep b' (split_lines l).2 /\ fb_size b' = fb_size b).
Proof.
  revert b l c. induction fuel as [|fuel IH]; intros b l c Hrep Hf; [lia|].
  pose proof (client_read_line_ok b l Hrep) as Hline. simpl.
  destruct (before newline l) as [raw|] eqn:Hb.
  2:{ rewrite Hline. rewrite (before_none l Hb). simpl. exists b. by split. }
  destruct Hline as (b1 & -> & Hr1 & Hz1). cbn [mbind res_bind].
  destruct (before_split l raw Hb) as (s' & Hl & Hsp). rewrite Hsp. simpl.
  assert (drop (S (length raw)) l = s') as Hd.
  { rewrite Hl. by rewrite drop_app_ge, (Nat.sub_succ_l), Nat.sub_diag by lia. }
  rewrite Hd in Hr1.
  destruct (process_line (line_text raw) c) as [[ret c1]|e]; [|by exists b1].
  cbn [mbind res_bind].
  destruct (IH b1 s' c1 Hr1) as (b2 & H2 & H3); [rewrite Hl, length_app in Hf; simpl in Hf; lia|].
  destruct ret; try (destruct (is_expired c1);
      [exists b1; by split|exists b2; split; [by rewrite H2|rewrite <- Hz1; exact H3]]);
    (exists b1; by split).
Qed.

End with_client.

(** ** Any fragmentation *)

(** A channel on which the bytes [s] arrive; the schedule says how many of
    them a read returns, at least one and at most as many as fit. *)
Definition stream : Type := list nat * cstring.

Definition read_stream (ch : stream) (max_length : Z) : io_status * stream :=
  let '(ns, s) := ch in
  match s with
  | [] => (IoAgain, ch)
  | _ => let room := Z.to_nat max_length in
         let n := match ns with [] => room | n :: _ => Nat.min (S n) room end in
         (IoNormal (take n s), (tail ns, drop n s))
  end.

(** No line is as long as the buffer. *)
Definition lines_fit (size : Z) (s : cstring) : Prop :=
  Forall (fun l => Z.of_nat (length l) < size) ((split_lines s).1 ++ [(split_lines s).2]).

Section fragmentation.
Context {C : Type} (process_line : cstring -> C -> res (command_return * C)) (is_expired : C -> bool).

Lemma read_stream_ok ns x s max_length :
  0 < max_length -> exists c s' ns', read_stream (ns, x :: s) max_length = (IoNormal c, (ns', s')) /\
    x :: s = c ++ s' /\ c <> [] /\ Z.of_nat (length c) <= max_length.
Proof.
  intros Hm. unfold read_stream. eexists _, _, _. split; [reflexivity|].
  assert (0 < Z.to_nat max_length)%nat by lia.
  split_and!; [by rewrite take_drop| |].
  - destruct ns, (Z.to_nat max_length); simpl; lia || done.
  - rewrite length_take. destruct ns; lia.
Qed.

(** One read: the buffer holds [pre], which is the beginning of a line. *)
Lemma client_read_ok ns x s b pre c :
  fifo_rep b pre -> Z.of_nat (length pre) < fb_size b ->
  exists chunk s' ns' b', x :: s = chunk ++ s' /\ chunk <> [] /\
    client_read process_line is_expired read_stream (ns, x :: s) b c =
      ('(ret, c') ← process_lines process_line is_expired (split_lines (pre ++ chunk)).1 c;
       Ok (ret, (ns', s'), b', c')) /\
    (forall c', process_lines process_line is_expired (split_lines (pre ++ chunk)).1 c =
       Ok (COMMAND_RETURN_OK, c') ->
     fifo_rep b' (split_lines (pre ++ chunk)).2 /\ fb_size b' = fb_size b).
Proof.
  intros Hrep Hroom. unfold client_read.
  destruct (fifo_write_ok b pre Hrep) as (b1 & -> & Hrep1 & Hz1 & Hfull & _). cbn [mbind res_bind].
  rewrite (proj2 (Z.eqb_neq (fb_end b1) (fb_size b1))) by (intros H%Hfull; lia).
  pose proof (fifo_order _ _ Hrep1) as Ho1.
  destruct (read_stream_ok ns x s (fb_size b1 - fb_end b1)) as (chunk & s' & ns' & -> & Hs & Hne & Hlen).
  { assert (fb_end b1 <> fb_size b1) by (intros H%Hfull; lia). lia. }
  destruct (fifo_store_append_ok b1 pre chunk Hrep1) as (b2 & H2 & Hrep2 & Hz2); [lia|].
  destruct (fifo_store chunk b1) as [bs|]; [|done]. cbn [mbind res_bind] in *.
  unfold client_input_received. rewrite H2. cbn [mbind res_bind].
  rewrite (fifo_available_ok b2 _ Hrep2), Nat2Z.id.
  destruct (process_all_lines_ok process_line is_expired (S (length (pre ++ chunk))) b2 _ c Hrep2)
    as (b3 & -> & H3); [lia|].
  exists chunk, s', ns', b3. split_and!; [done|done| |by rewrite <- Hz1, <- Hz2].
  by destruct (process_lines _ _ _ c) as [[ret c']|].
Qed.

Lemma split_lines_prefix pre s :
  before newline pre = None ->
  split_lines (pre ++ s) =
  match (split_lines s).1 with
  | [] => ([], pre ++ (split_lines s).2)
  | l :: ls => ((pre ++ l) :: ls, (split_lines s).2)
  end.
Proof.
  induction pre as [|x pre IH]; simpl; [by destruct (split_lines s) as [[] ?]|].
  destruct (decide (x = newline)); [done|]. destruct (before newline pre); [done|]. intros _.
  rewrite IH by done. by destruct (split_lines s) as [[] ?].
Qed.

Lemma lines_fit_prefix size pre s :
  before newline pre = None -> lines_fit size (pre ++ s) -> Z.of_nat (length pre) < size.
Proof.
  intros Hp. unfold lines_fit. rewrite split_lines_prefix by done.
  destruct (split_lines s) as [[|l ls] r]; simpl; intros Hf; inversion Hf as [|? ? H _]; subst;
    rewrite length_app in H; lia.
Qed.

Lemma lines_fit_rest size a s : lines_fit size (a ++ s) -> lines_fit size ((split_lines a).2 ++ s).
Proof.
  unfold lines_fit. rewrite split_lines_app. simpl. rewrite <- app_assoc. by intros [_ H]%Forall_app.
Qed.

(** However the bytes are split up, the same lines are handled in the same
    order, and the rest of the last line waits in the buffer. *)
Lemma client_events_ok n ns s b pre c :
  fifo_rep b pre -> before newline pre = None -> lines_fit (fb_size b) (pre ++ s) ->
  (length s <= n)%nat ->
  exists ch' b', client_events process_line is_expired read_stream n (ns, s) b c =
      ('(ret, c') ← process_lines process_line is_expired (split_lines (pre ++ s)).1 c;
       Ok (ret, ch', b', c')) /\
    (forall c', process_lines process_line is_expired (split_lines (pre ++ s)).1 c =
       Ok (COMMAND_RETURN_OK, c') ->
     ch'.2 = [] /\ fifo_rep b' (split_lines (pre ++ s)).2).
Proof.
  revert ns s b pre c. induction n as [|n IH]; intros ns s b pre c Hrep Hpre Hfit Hn.
  { destruct s; [|simpl in Hn; lia]. rewrite app_nil_r, (before_none pre Hpre).
    exists (ns, []), b. by split. }
  pose proof (lines_fit_prefix _ _ _ Hpre Hfit) as Hroom. destruct s as [|x s].
  - unfold client_events, client_read. fold (client_events process_line is_expired read_stream).
    destruct (fifo_write_ok b pre Hrep) as (b1 & -> & Hrep1 & Hz1 & Hfull & _). cbn [mbind res_bind].
    rewrite (proj2 (Z.eqb_neq (fb_end b1) (fb_size b1))) by (intros H%Hfull; lia). simpl.
    apply IH; [done|done|by rewrite Hz1|simpl; lia].
  - destruct (client_read_ok ns x s b pre c Hrep Hroom)
      as (chunk & s' & ns' & b1 & Hs & Hne & Hread & Hok). rewrite Hs in *.
    cbn [client_events]. rewrite Hread. clear Hread. rewrite app_assoc in *.
    rewrite (split_lines_app (pre ++ chunk) s'). cbn [fst snd]. rewrite process_lines_app.
    destruct (process_lines _ _ (split_lines (pre ++ chunk)).1 c) as [[ret c1]|e] eqn:Hp.
    2:{ exists (ns, []), b. cbn. by split. }
    cbn [mbind res_bind]. destruct (process_lines_ret _ _ _ _ _ _ Hp) as [-> |Hstop].
    + destruct (Hok c1 eq_refl) as [Hrep1 Hz1]. rewrite decide_True by done.
      apply (IH ns' s' b1); [done|apply split_lines_rest|rewrite Hz1; by apply lines_fit_rest|].
      rewrite length_app in Hn. destruct chunk; [done|]. simpl in Hn. lia.
    + rewrite decide_False by (destruct Hstop as [-> | ->]; done).
      exists (ns', s'), b1. destruct Hstop as [-> | ->]; by split.
Qed.

End fragmentation.
