(* ===== verification/ClientWrite.v ===== *)
(** * Output to a client

    [src/client_write.c]: text is collected in a buffer of fixed size, written
    to the socket, and queued when the socket does not take it.  The socket
    accepts as much as a schedule says; [sk_accepted] are the bytes it has
    taken. *)

From S2P Require Import Prelude CString FifoBuffer.
Local Open Scope Z_scope.

(** The result of [g_io_channel_write_chars()]. *)
Inductive io_write :=
| WNormal (bytes_written : nat)
| WAgain
| WEof
| WError.

Record sink := Sink {
  sk_schedule : list io_write;
  sk_accepted : cstring;
}.

(** At most as much as there is is written; without an entry of the schedule,
    all of it. *)
Definition write_chars (data : cstring) (ch : sink) : io_write * sink :=
  let ns := tail (sk_schedule ch) in
  match head (sk_schedule ch) with
  | None => (WNormal (length data), Sink ns (sk_accepted ch ++ data))
  | Some (WNormal n) =>
      let n := Nat.min n (length data) in
      (WNormal n, Sink ns (sk_accepted ch ++ take n data))
  | Some st => (st, Sink ns (sk_accepted ch))
  end.

(** The output fields of [struct client], together with the socket.
    [o_channel] is [None] when the client has expired ([channel == NULL]);
    [o_send_buf] are the used bytes of [send_buf]. *)
Record output := Output {
  o_expired : bool;
  o_sink : sink;
  o_send_buf : cstring;
  o_deferred : list cstring;
  o_deferred_bytes : Z;
}.

Definition o_set_expired (o : output) : output :=
  Output true (o_sink o) (o_send_buf o) (o_deferred o) (o_deferred_bytes o).
Definition o_set_sink (ch : sink) (o : output) : output :=
  Output (o_expired o) ch (o_send_buf o) (o_deferred o) (o_deferred_bytes o).
Definition o_set_send_buf (buf : cstring) (o : output) : output :=
  Output (o_expired o) (o_sink o) buf (o_deferred o) (o_deferred_bytes o).
Definition o_set_deferred (bufs : list cstring) (bytes : Z) (o : output) : output :=
  Output (o_expired o) (o_sink o) (o_send_buf o) bufs bytes.

Definition SEND_BUF_SIZE : Z := 16384.

(** [sizeof(struct deferred_buffer) - sizeof(data)]. *)
Definition DEFERRED_HEADER : Z := 8.

(** ** Operations *)

(** The number of bytes written; the client expires on an error. *)
Definition client_write_deferred_buffer (buf : cstring) (o : output) : res (nat * output) :=
  assert (negb (o_expired o));;
  let '(status, ch) := write_chars buf (o_sink o) in
  let o := o_set_sink ch o in
  match status with
  | WNormal n => Ok (n, o)
  | WAgain => Ok (0%nat, o)
  | WEof | WError => Ok (0%nat, o_set_expired o)
  end.

(** The loop over the queue [bufs]. *)
Fixpoint write_deferred_loop (bufs : list cstring) (o : output) : res output :=
  match bufs with
  | [] => Ok o
  | buf :: rest =>
      let size := Z.of_nat (length buf) in
      assert (0 <? size);;
      assert (size <=? o_deferred_bytes o);;
      '(n, o) ← client_write_deferred_buffer buf o;
      if (n =? 0)%nat then Ok o
      else if Z.of_nat n <? size then
        assert (Z.of_nat n <=? o_deferred_bytes o);;
        Ok (o_set_deferred (drop n buf :: rest) (o_deferred_bytes o - Z.of_nat n) o)
      else
        let decr := DEFERRED_HEADER + size in
        assert (decr <=? o_deferred_bytes o);;
        write_deferred_loop rest (o_set_deferred rest (o_deferred_bytes o - decr) o)
  end.

Definition client_write_deferred (o : output) : res output :=
  o ← write_deferred_loop (o_deferred o) o;
  match o_deferred o with
  | [] => assert (o_deferred_bytes o =? 0);; Ok o
  | _ => Ok o
  end.

Section with_limit.
Context (client_max_output_buffer_size : Z).

Definition client_defer_output (data : cstring) (o : output) : res output :=
  assert (0 <? Z.of_nat (length data));;
  let alloc := DEFERRED_HEADER + Z.of_nat (length data) in
  let bytes := u64 (o_deferred_bytes o + alloc) in
  if client_max_output_buffer_size <? bytes
  then Ok (o_set_expired (o_set_deferred (o_deferred o) bytes o))
  else Ok (o_set_deferred (o_deferred o ++ [data]) bytes o).

Definition client_write_direct (data : cstring) (o : output) : res output :=
  assert (negb (o_expired o));;
  assert (0 <? Z.of_nat (length data));;
  assert (bool_decide (o_deferred o = []));;
  let '(status, ch) := write_chars data (o_sink o) in
  let o := o_set_sink ch o in
  let defer (n : nat) : res output :=
    if Z.of_nat n <? Z.of_nat (length data) then client_defer_output (drop n data) o else Ok o in
  match status with
  | WNormal n => defer n
  | WAgain => defer 0%nat
  | WEof | WError => Ok (o_set_expired o)
  end.

Definition client_write_output (o : output) : res output :=
  if o_expired o || bool_decide (o_send_buf o = []) then Ok o
  else if bool_decide (o_deferred o = []) then
    o ← client_write_direct (o_send_buf o) o;
    Ok (o_set_send_buf [] o)
  else
    o ← client_defer_output (o_send_buf o) o;
    if o_expired o then Ok o else
    o ← client_write_deferred o;
    Ok (o_set_send_buf [] o).

(** The loop of [client_write()]; every iteration copies a byte. *)
Fixpoint client_write_loop (fuel : nat) (buffer : cstring) (o : output) : res output :=
  match fuel with
  | O => Err OutOfFuel
  | S fuel' =>
      if bool_decide (buffer = []) || o_expired o then Ok o else
      let used := Z.of_nat (length (o_send_buf o)) in
      assert (used <? SEND_BUF_SIZE);;
      let copylen := Nat.min (Z.to_nat (SEND_BUF_SIZE - used)) (length buffer) in
      let o := o_set_send_buf (o_send_buf o ++ take copylen buffer) o in
      o ← (if SEND_BUF_SIZE <=? Z.of_nat (length (o_send_buf o))
           then client_write_output o else Ok o);
      client_write_loop fuel' (drop copylen buffer) o
  end.

Definition client_write (buffer : cstring) (o : output) : res output :=
  if o_expired o then Ok o else client_write_loop (S (length buffer)) buffer o.

Definition client_puts (s : cstring) (o : output) : res output := client_write s o.

(** [client_out_event()]: the socket is writable again.  [false] if the
    watch ends. *)
Definition client_out_event (o : output) : res (bool * output) :=
  assert (negb (o_expired o));;
  o ← client_write_deferred o;
  if o_expired o then Ok (false, o)
  else Ok (negb (bool_decide (o_deferred o = [])), o).

(** ** Invariant and refinement *)

(** The memory that the queue is charged for. *)
Definition deferred_size (bufs : list cstring) : Z :=
  foldr (fun buf n => DEFERRED_HEADER + Z.of_nat (length buf) + n) 0 bufs.

Record out_inv (o : output) : Prop := {
  out_room : Z.of_nat (length (o_send_buf o)) < SEND_BUF_SIZE;
  out_bytes : o_deferred_bytes o = deferred_size (o_deferred o);
  out_limit : o_deferred_bytes o <= client_max_output_buffer_size;
  out_nonempty : Forall (fun buf => buf <> []) (o_deferred o);
}.

(** Everything that has been written so far. *)
Definition written (o : output) : cstring :=
  sk_accepted (o_sink o) ++ concat (o_deferred o) ++ o_send_buf o.

(** The client has got, or will get, exactly [total]; if the connection is
    lost, a prefix of it. *)
Definition delivers (total : cstring) (o : output) : Prop :=
  if o_expired o then sk_accepted (o_sink o) `prefix_of` total else written o = total.

Context (limit_ok : 0 <= client_max_output_buffer_size < 2 ^ 62).

(** What holds of the queue, whatever the send buffer contains. *)
Record queue_ok (o : output) : Prop := {
  queue_bytes : o_deferred_bytes o = deferred_size (o_deferred o);
  queue_limit : o_deferred_bytes o <= client_max_output_buffer_size;
  queue_nonempty : Forall (fun buf => buf <> []) (o_deferred o);
}.

Lemma out_inv_queue o : out_inv o -> queue_ok o.
Proof. intros []. by split. Qed.

Lemma deferred_size_nonneg bufs : 0 <= deferred_size bufs.
Proof. induction bufs as [|b bufs IH]; simpl; unfold DEFERRED_HEADER in *; lia. Qed.

Lemma deferred_size_app a b : deferred_size (a ++ b) = deferred_size a + deferred_size b.
Proof. induction a as [|x a IH]; simpl; [done|]. rewrite IH. lia. Qed.

Lemma write_chars_spec data ch st ch' :
  write_chars data ch = (st, ch') ->
  match st with
  | WNormal n => (n <= length data)%nat /\ sk_accepted ch' = sk_accepted ch ++ take n data
  | _ => sk_accepted ch' = sk_accepted ch
  end.
Proof.
  unfold write_chars. destruct (head (sk_schedule ch)) as [[n| | |]|]; intros [= <- <-]; simpl; try done.
  - split; [lia|done].
  - split; [lia|]. by rewrite take_ge.
Qed.

(** What the socket has got and what is queued for it. *)
Definition flow (o : output) : cstring := sk_accepted (o_sink o) ++ concat (o_deferred o).

Lemma write_deferred_loop_ok bufs o :
  o_expired o = false -> o_deferred o = bufs -> queue_ok o ->
  wp (write_deferred_loop bufs o) (fun o' =>
    queue_ok o' /\ flow o' = flow o /\ o_send_buf o' = o_send_buf o).
Proof.
  revert o. induction bufs as [|buf rest IH]; intros o He Hd Hq; [by split_and!|].
  destruct Hq as [Hb Hl Hn]. rewrite Hd in Hb, Hn. inversion Hn as [|? ? Hne Hn']; subst.
  simpl in Hb. pose proof (deferred_size_nonneg rest). unfold DEFERRED_HEADER in Hb.
  assert (0 < length buf)%nat by (destruct buf; [done|simpl; lia]). cbn [write_deferred_loop].
  rewrite (proj2 (Z.ltb_lt _ _)) by lia. rewrite (proj2 (Z.leb_le _ _)) by lia.
  cbn [assert mbind res_bind]. unfold client_write_deferred_buffer. rewrite He.
  cbn [negb assert mbind res_bind].
  destruct (write_chars buf (o_sink o)) as [st ch] eqn:Hw. apply write_chars_spec in Hw.
  assert (forall b, queue_ok (Output b ch (o_send_buf o) (o_deferred o) (o_deferred_bytes o))) as Hsame.
  { intros b. split; simpl; rewrite ?Hd; simpl; unfold DEFERRED_HEADER; done || lia. }
  destruct st as [n| | |]; cbn [mbind res_bind];
    try (split_and!; [apply Hsame|unfold flow; simpl; by rewrite Hw|done]).
  destruct Hw as [Hle Hw]. destruct (Nat.eqb_spec n 0) as [->|Hn0].
  { split_and!; [apply Hsame|unfold flow; simpl; by rewrite Hw, app_nil_r|done]. }
  destruct (Z.ltb_spec (Z.of_nat n) (Z.of_nat (length buf))) as [Hlt|Hge].
  - simpl. rewrite (proj2 (Z.leb_le _ _)) by lia. cbn [assert mbind res_bind]. split_and!; [|..|done].
    + split; simpl; unfold DEFERRED_HEADER; rewrite ?length_drop; [lia|lia|].
      constructor; [|done]. intros Hz. apply (f_equal length) in Hz. rewrite length_drop in Hz.
      simpl in Hz. lia.
    + unfold flow. simpl. rewrite Hw, Hd. simpl. rewrite <- app_assoc. f_equal.
      by rewrite app_assoc, take_drop.
  - unfold DEFERRED_HEADER. simpl. rewrite (proj2 (Z.leb_le _ _)) by lia. cbn [assert mbind res_bind].
    eapply wp_mono; [apply IH; [done|done|]|].
    + split; simpl; [lia|lia|done].
    + intros o' (H1 & H2 & H3). split_and!; [done| |done]. rewrite H2. unfold flow. simpl.
      rewrite Hw, Hd, take_ge by lia. by rewrite <- app_assoc.
Qed.

Lemma client_write_deferred_ok o :
  o_expired o = false -> queue_ok o ->
  wp (client_write_deferred o) (fun o' =>
    queue_ok o' /\ flow o' = flow o /\ o_send_buf o' = o_send_buf o).
Proof.
  intros He Hq. unfold client_write_deferred.
  eapply wp_bind_mono; [by apply write_deferred_loop_ok|]. intros o' (H1 & H2 & H3).
  destruct (o_deferred o') eqn:Hd; [|done].
  rewrite (queue_bytes o' H1), Hd. by split_and!.
Qed.

(** Queued, or given up. *)
Lemma client_defer_output_ok data o :
  data <> [] -> Z.of_nat (length data) < 2 ^ 62 -> o_expired o = false -> queue_ok o ->
  wp (client_defer_output data o) (fun o' =>
    o_sink o' = o_sink o /\ o_send_buf o' = o_send_buf o /\
    (o_expired o' = false -> queue_ok o' /\ o_deferred o' = o_deferred o ++ [data])).
Proof.
  intros Hne Hlen He [Hb Hl Hn]. unfold client_defer_output, DEFERRED_HEADER.
  assert (0 < length data)%nat by (destruct data; [done|simpl; lia]).
  pose proof (deferred_size_nonneg (o_deferred o)).
  rewrite (proj2 (Z.ltb_lt 0 _)) by lia. cbn [assert mbind res_bind].
  rewrite u64_small by lia.
  destruct (Z.ltb_spec client_max_output_buffer_size
    (o_deferred_bytes o + (8 + Z.of_nat (length data)))) as [Hgt|Hle]; [by split_and!|].
  split_and!; [done|done|]. intros _. split; [|done]. split; simpl; [|lia|].
  - rewrite deferred_size_app. simpl. unfold DEFERRED_HEADER. lia.
  - apply Forall_app. by split; [|constructor].
Qed.

Lemma written_flow o : written o = flow o ++ o_send_buf o.
Proof. unfold written, flow. by rewrite app_assoc. Qed.

(** The state after an attempt to flush. *)
Lemma delivers_flushed total o :
  flow o = total -> queue_ok o ->
  delivers total (o_set_send_buf [] o) /\
  (o_expired (o_set_send_buf [] o) = false -> out_inv (o_set_send_buf [] o)).
Proof.
  intros Hf [Hb Hl Hn]. split.
  - unfold delivers. simpl. destruct (o_expired o).
    + exists (concat (o_deferred o)). by rewrite <- Hf.
    + rewrite written_flow. by rewrite app_nil_r.
  - intros _. split; simpl; [done|done|done|done].
Qed.

(** The rest of [client_write_direct()], when the socket has taken [n]
    bytes. *)
Lemma defer_rest_ok data acc n o :
  flow o = acc ++ take n data -> (n <= length data)%nat -> Z.of_nat (length data) < 2 ^ 62 ->
  o_expired o = false -> o_deferred o = [] -> queue_ok o ->
  wp (if Z.of_nat n <? Z.of_nat (length data) then client_defer_output (drop n data) o else Ok o)
    (fun o' => (o_expired o' = true /\ sk_accepted (o_sink o') `prefix_of` acc ++ data) \/
               (flow o' = acc ++ data /\ queue_ok o')).
Proof.
  intros Hf Hn Hlen He Hd Hq. destruct (Z.ltb_spec (Z.of_nat n) (Z.of_nat (length data))).
  - eapply wp_mono; [apply client_defer_output_ok; [|rewrite length_drop; lia|done|done]|].
    { intros Hz. apply (f_equal length) in Hz. rewrite length_drop in Hz. simpl in Hz. lia. }
    unfold flow in *. rewrite Hd, app_nil_r in Hf. intros o' (H1 & H2 & H3).
    destruct (o_expired o') eqn:He'.
    + left. split; [done|]. rewrite H1, Hf. exists (drop n data). by rewrite <- app_assoc, take_drop.
    + right. destruct (H3 eq_refl) as [Hq2 Hd2]. split; [|done].
      rewrite H1, Hd2, Hd, Hf. simpl. by rewrite app_nil_r, <- app_assoc, take_drop.
  - right. split; [|done]. by rewrite Hf, take_ge by lia.
Qed.

Lemma client_write_direct_ok data o :
  data <> [] -> Z.of_nat (length data) < 2 ^ 62 -> o_expired o = false -> o_deferred o = [] ->
  queue_ok o ->
  wp (client_write_direct data o) (fun o' =>
    (o_expired o' = true /\ sk_accepted (o_sink o') `prefix_of` flow o ++ data) \/
    (flow o' = flow o ++ data /\ queue_ok o')).
Proof.
  intros Hne Hlen He Hd Hq. unfold client_write_direct. rewrite He, Hd. cbn [negb assert mbind res_bind].
  assert (0 < length data)%nat by (destruct data; [done|simpl; lia]).
  rewrite (proj2 (Z.ltb_lt 0 (Z.of_nat (length data)))) by lia. cbn [assert mbind res_bind].
  rewrite bool_decide_true by done. cbn [assert mbind res_bind].
  destruct (write_chars data (o_sink o)) as [st ch] eqn:Hw. apply write_chars_spec in Hw.
  assert (queue_ok (o_set_sink ch o)) as Hq' by (by destruct Hq; split).
  assert (flow o = sk_accepted (o_sink o)) as Hflow by (unfold flow; by rewrite Hd, app_nil_r).
  destruct st as [n| | |].
  - destruct Hw as [Hn Hw]. apply defer_rest_ok; try done.
    unfold flow at 1. simpl. by rewrite Hd, app_nil_r, Hw, Hflow.
  - apply (defer_rest_ok data (flow o) 0); try done; [|lia].
    unfold flow at 1. simpl. by rewrite Hd, app_nil_r, Hw, Hflow, app_nil_r.
  - left. split; [done|]. simpl. rewrite Hw, <- Hflow. by exists data.
  - left. split; [done|]. simpl. rewrite Hw, <- Hflow. by exists data.
Qed.

(** Flushing the send buffer loses nothing and reorders nothing. *)
Lemma client_write_output_ok total o :
  delivers total o ->
  (o_expired o = false -> queue_ok o /\ Z.of_nat (length (o_send_buf o)) <= SEND_BUF_SIZE) ->
  wp (client_write_output o) (fun o' => delivers total o' /\ (o_expired o' = false -> out_inv o')).
Proof.
  intros Hd Hok. unfold client_write_output. destruct (o_expired o) eqn:He; simpl.
  { by rewrite He. }
  destruct (Hok eq_refl) as [Hq Hlen]. clear Hok.
  unfold delivers in Hd. rewrite He, written_flow in Hd. unfold SEND_BUF_SIZE in Hlen.
  case_bool_decide as Hempty.
  { split; [unfold delivers; by rewrite He, written_flow|]. intros _. destruct Hq.
    split; [by rewrite Hempty|done..]. }
  case_bool_decide as Hq0.
  - eapply wp_bind_mono; [apply client_write_direct_ok; (done || lia)|].
    intros o' [[He' Hp]|[Hf Hq']]; simpl.
    + unfold delivers. simpl. rewrite He'. by rewrite Hd in Hp.
    + apply delivers_flushed; congruence.
  - eapply wp_bind_mono; [apply client_defer_output_ok; (done || lia)|].
    intros o1 (H1 & H2 & H3). destruct (o_expired o1) eqn:He1.
    + split; [|congruence]. unfold delivers. rewrite He1, H1, <- Hd. unfold flow. rewrite <- app_assoc.
      by apply prefix_app_r.
    + destruct (H3 eq_refl) as [Hq1 Hd1].
      eapply wp_bind_mono; [by apply client_write_deferred_ok|]. intros o2 (H4 & H5 & H6). simpl.
      apply delivers_flushed; [|done]. rewrite H5, <- Hd. unfold flow. rewrite H1, Hd1, concat_app.
      simpl. by rewrite app_nil_r, app_assoc.
Qed.

Lemma client_write_loop_ok fuel buffer total o :
  (length buffer < fuel)%nat -> delivers total o -> (o_expired o = false -> out_inv o) ->
  wp (client_write_loop fuel buffer o) (fun o' =>
    delivers (total ++ buffer) o' /\ (o_expired o' = false -> out_inv o')).
Proof.
  revert buffer total o. induction fuel as [|fuel IH]; intros buffer total o Hf Hd Hok; [lia|].
  cbn [client_write_loop]. case_bool_decide as Hb; simpl.
  { subst buffer. rewrite app_nil_r. by split. }
  destruct (o_expired o) eqn:He; simpl.
  { rewrite He. split; [|done]. unfold delivers in *. rewrite He in *. by apply prefix_app_r. }
  destruct (Hok eq_refl) as [Hroom Hby Hli Hne]. rewrite (proj2 (Z.ltb_lt _ _)) by done.
  cbn [assert mbind res_bind].
  set (n := Nat.min (Z.to_nat (SEND_BUF_SIZE - Z.of_nat (length (o_send_buf o)))) (length buffer)).
  assert (0 < n <= length buffer)%nat as Hn.
  { unfold n. destruct buffer; [done|]. simpl. lia. }
  set (o1 := o_set_send_buf (o_send_buf o ++ take n buffer) o).
  assert (delivers (total ++ take n buffer) o1) as Hd1.
  { unfold delivers in *. simpl. rewrite He in *. rewrite written_flow in *. simpl.
    rewrite app_assoc. unfold flow in *. simpl. by rewrite Hd. }
  assert (Z.of_nat (length (o_send_buf o1)) <= SEND_BUF_SIZE) as Hlen1.
  { simpl. rewrite length_app, length_take. lia. }
  apply wp_bind_mono with (P := fun o2 => delivers (total ++ take n buffer) o2 /\
    (o_expired o2 = false -> out_inv o2)).
  - change (o_send_buf o ++ take n buffer) with (o_send_buf o1).
    destruct (Z.leb_spec SEND_BUF_SIZE (Z.of_nat (length (o_send_buf o1)))).
    + apply client_write_output_ok; [done|]. intros _. split; [by split|done].
    + split; [done|]. intros _. split; [lia|done..].
  - intros o2 [Hd2 Hi2]. eapply wp_mono; [apply (IH _ (total ++ take n buffer)); [|done|done]|].
    { rewrite length_drop. lia. }
    intros o3. by rewrite <- app_assoc, take_drop.
Qed.

Lemma client_write_ok buffer total o :
  delivers total o -> (o_expired o = false -> out_inv o) ->
  wp (client_write buffer o) (fun o' =>
    delivers (total ++ buffer) o' /\ (o_expired o' = false -> out_inv o')).
Proof.
  intros Hd Hok. unfold client_write. destruct (o_expired o) eqn:He.
  - split; [|by rewrite He]. unfold delivers in *. rewrite He in *. by apply prefix_app_r.
  - apply client_write_loop_ok; [lia|done|by rewrite He].
Qed.

End with_limit.
