(* ===== verification/Client.v ===== *)
(** * Clients

    [struct client] of [src/client_internal.h], with the operations of
    [src/client.c], [src/client_list.c], [src/client_message.c],
    [src/client_subscribe.c], [src/client_idle.c] and [src/client_file.c].
    Timers are left out. *)

From S2P Require Import Prelude Err CString FifoBuffer Tokenizer EventPipe ClientWrite.
Local Open Scope Z_scope.

(** ** Data *)

Record client_message := ClientMessage {
  msg_channel : cstring;
  msg_message : cstring;
}.

(** Lists that the code builds by prepending have their newest element
    first.  [cl_cmd_list_OK] is -1 outside of a command list. *)
Record client := Client {
  cl_num : Z;
  cl_permission : Z;
  cl_uid : Z;
  cl_cmd_list : list cstring;
  cl_cmd_list_OK : Z;
  cl_cmd_list_size : Z;
  cl_idle_waiting : bool;
  cl_idle_flags : Z;
  cl_idle_subscriptions : Z;
  cl_subscriptions : list cstring;
  cl_num_subscriptions : Z;
  cl_messages : list client_message;
  cl_num_messages : Z;
  cl_output : output;
}.

Definition CLIENT_MAX_SUBSCRIPTIONS : Z := 16.
Definition CLIENT_MAX_MESSAGES : Z := 64.

Definition cl_set_permission (p : Z) (c : client) : client :=
  Client (cl_num c) p (cl_uid c) (cl_cmd_list c) (cl_cmd_list_OK c) (cl_cmd_list_size c)
    (cl_idle_waiting c) (cl_idle_flags c) (cl_idle_subscriptions c) (cl_subscriptions c)
    (cl_num_subscriptions c) (cl_messages c) (cl_num_messages c) (cl_output c).
Definition cl_set_cmd_list (l : list cstring) (ok size : Z) (c : client) : client :=
  Client (cl_num c) (cl_permission c) (cl_uid c) l ok size
    (cl_idle_waiting c) (cl_idle_flags c) (cl_idle_subscriptions c) (cl_subscriptions c)
    (cl_num_subscriptions c) (cl_messages c) (cl_num_messages c) (cl_output c).
Definition cl_set_idle (waiting : bool) (flags subscriptions : Z) (c : client) : client :=
  Client (cl_num c) (cl_permission c) (cl_uid c) (cl_cmd_list c) (cl_cmd_list_OK c)
    (cl_cmd_list_size c) waiting flags subscriptions (cl_subscriptions c)
    (cl_num_subscriptions c) (cl_messages c) (cl_num_messages c) (cl_output c).
Definition cl_set_subscriptions (l : list cstring) (n : Z) (c : client) : client :=
  Client (cl_num c) (cl_permission c) (cl_uid c) (cl_cmd_list c) (cl_cmd_list_OK c)
    (cl_cmd_list_size c) (cl_idle_waiting c) (cl_idle_flags c) (cl_idle_subscriptions c) l n
    (cl_messages c) (cl_num_messages c) (cl_output c).
Definition cl_set_messages (l : list client_message) (n : Z) (c : client) : client :=
  Client (cl_num c) (cl_permission c) (cl_uid c) (cl_cmd_list c) (cl_cmd_list_OK c)
    (cl_cmd_list_size c) (cl_idle_waiting c) (cl_idle_flags c) (cl_idle_subscriptions c)
    (cl_subscriptions c) (cl_num_subscriptions c) l n (cl_output c).
Definition cl_set_output (o : output) (c : client) : client :=
  Client (cl_num c) (cl_permission c) (cl_uid c) (cl_cmd_list c) (cl_cmd_list_OK c)
    (cl_cmd_list_size c) (cl_idle_waiting c) (cl_idle_flags c) (cl_idle_subscriptions c)
    (cl_subscriptions c) (cl_num_subscriptions c) (cl_messages c) (cl_num_messages c) o.

(** A new client; the fields [client_new()] does not set are zero. *)
Definition client_init (num permission uid : Z) (ch : sink) : client :=
  Client num permission uid [] (-1) 0 false 0 0 [] 0 [] 0 (Output false ch [] [] 0).

(** ** [client.c] *)

Definition client_is_expired (c : client) : bool := o_expired (cl_output c).
Definition client_get_uid (c : client) : Z := cl_uid c.
Definition client_is_local (c : client) : bool := 0 <? client_get_uid c.
Definition client_get_permission (c : client) : Z := cl_permission c.
Definition client_set_permission (permission : Z) (c : client) : client :=
  cl_set_permission permission c.

(** ** [client_file.c] *)

(** [geteuid()] and [stat()]: the owner and the mode of a file, or an
    error. *)
Definition client_allow_file (geteuid : Z) (stat : cstring -> option (Z * Z)) (c : client)
    (path_fs : cstring) : mpd_err :=
  let uid := client_get_uid c in
  if (0 <=? uid) && (uid =? geteuid) then MPD_PERM
  else if uid <=? 0 then MPD_PERM
  else match stat path_fs with
       | None => MPD_ACCESS
       | Some (st_uid, st_mode) =>
           if negb (st_uid =? uid) && negb (Z.land st_mode 0x124 =? 0x124) then MPD_PERM
           else MPD_SUCCESS
       end.

(** ** Messages *)

Definition valid_channel_char (ch : ascii) : bool :=
  is_alnum ch || bool_decide (ch = "_"%char) || bool_decide (ch = "-"%char)
  || bool_decide (ch = "."%char) || bool_decide (ch = ":"%char).

(** The first character is checked even if it is the terminator. *)
Definition client_message_valid_channel_name (name : cstring) : bool :=
  match name with [] => false | _ => forallb valid_channel_char name end.

Inductive client_subscribe_result :=
| CLIENT_SUBSCRIBE_OK
| CLIENT_SUBSCRIBE_INVALID
| CLIENT_SUBSCRIBE_ALREADY
| CLIENT_SUBSCRIBE_FULL.

#[global] Instance client_subscribe_result_eq_dec : EqDecision client_subscribe_result.
Proof. solve_decision. Defined.

(** Is there an element for the channel? *)
Definition client_find_subscription (c : client) (channel : cstring) : bool :=
  bool_decide (channel ∈ cl_subscriptions c).

Definition client_subscribe (channel : cstring) (c : client) (n : notify)
  : client_subscribe_result * client * notify :=
  if negb (client_message_valid_channel_name channel) then (CLIENT_SUBSCRIBE_INVALID, c, n)
  else if client_find_subscription c channel then (CLIENT_SUBSCRIBE_ALREADY, c, n)
  else if CLIENT_MAX_SUBSCRIPTIONS <=? cl_num_subscriptions c then (CLIENT_SUBSCRIBE_FULL, c, n)
  else (CLIENT_SUBSCRIBE_OK,
        cl_set_subscriptions (channel :: cl_subscriptions c) (u32 (cl_num_subscriptions c + 1)) c,
        idle_add IDLE_SUBSCRIPTION n).

(** [g_slist_remove()]: the first element that is equal. *)
Fixpoint remove_first (x : cstring) (l : list cstring) : list cstring :=
  match l with
  | [] => []
  | y :: l' => if decide (y = x) then l' else y :: remove_first x l'
  end.

Definition client_unsubscribe (channel : cstring) (c : client) (n : notify)
  : res (bool * client * notify) :=
  if negb (client_find_subscription c channel) then Ok (false, c, n)
  else
    assert (0 <? cl_num_subscriptions c);;
    let c := cl_set_subscriptions (remove_first channel (cl_subscriptions c))
               (u32 (cl_num_subscriptions c - 1)) c in
    assert (Bool.eqb (cl_num_subscriptions c =? 0) (bool_decide (cl_subscriptions c = [])));;
    Ok (true, c, idle_add IDLE_SUBSCRIPTION n).

Definition client_unsubscribe_all (c : client) : client := cl_set_subscriptions [] 0 c.

(** The oldest message first. *)
Definition client_read_messages (c : client) : list client_message * client :=
  (rev (cl_messages c), cl_set_messages [] 0 c).

(** ** Idle notifications *)

Definition idle_names : list cstring :=
  [lit "database"; lit "stored_playlist"; lit "playlist"; lit "player"; lit "mixer"; lit "output";
   lit "options"; lit "sticker"; lit "update"; lit "subscription"; lit "message"].

(** The bytes that end a line of the protocol. *)
Definition nl : cstring := [char_of 10].

Section with_limit.
Context (client_max_output_buffer_size : Z).
Let puts := client_puts client_max_output_buffer_size.
Let write_output := client_write_output client_max_output_buffer_size.

Definition cl_puts (s : cstring) (c : client) : res client :=
  o ← puts s (cl_output c); Ok (cl_set_output o c).

Definition cl_write_output (c : client) : res client :=
  o ← write_output (cl_output c); Ok (cl_set_output o c).

Fixpoint cl_puts_all (ls : list cstring) (c : client) : res client :=
  match ls with
  | [] => Ok c
  | l :: ls' => c ← cl_puts l c; cl_puts_all ls' c
  end.

(** The lines of an idle response: the loop over [idle_names]. *)
Definition changed_lines (flags subscriptions : Z) : list cstring :=
  concat (imap (fun i name =>
    if negb (Z.land (Z.land flags (Z.shiftl 1 (Z.of_nat i))) subscriptions =? 0)
    then [lit "changed: " ++ name ++ nl] else []) idle_names).

Definition client_idle_notify (c : client) : res client :=
  assert (cl_idle_waiting c);;
  assert (negb (cl_idle_flags c =? 0));;
  let flags := cl_idle_flags c in
  let c := cl_set_idle false 0 (cl_idle_subscriptions c) c in
  c ← cl_puts_all (changed_lines flags (cl_idle_subscriptions c)) c;
  cl_puts (lit "OK" ++ nl) c.

Definition client_idle_add (flags : Z) (c : client) : res client :=
  if client_is_expired c then Ok c else
  let c := cl_set_idle (cl_idle_waiting c) (Z.lor (cl_idle_flags c) flags)
             (cl_idle_subscriptions c) c in
  if cl_idle_waiting c && negb (Z.land (cl_idle_flags c) (cl_idle_subscriptions c) =? 0) then
    c ← client_idle_notify c;
    cl_write_output c
  else Ok c.

(** [client_list_foreach()]. *)
Fixpoint foreach_client (f : client -> res client) (l : list client) : res (list client) :=
  match l with
  | [] => Ok []
  | c :: l' => c ← f c; l' ← foreach_client f l'; Ok (c :: l')
  end.

Definition client_manager_idle_add (flags : Z) (l : list client) : res (list client) :=
  assert (negb (flags =? 0));;
  foreach_client (client_idle_add flags) l.

Definition client_idle_wait (flags : Z) (c : client) : res (bool * client) :=
  assert (negb (cl_idle_waiting c));;
  let c := cl_set_idle true (cl_idle_flags c) flags c in
  if negb (Z.land (cl_idle_flags c) (cl_idle_subscriptions c) =? 0)
  then c ← client_idle_notify c; Ok (true, c)
  else Ok (false, c).

(** The copy of a message is a message with the same text. *)
Definition client_push_message (msg : client_message) (c : client) : res (bool * client) :=
  if (CLIENT_MAX_MESSAGES <=? cl_num_messages c) || negb (client_find_subscription c (msg_channel msg))
  then Ok (false, c)
  else
    c ← (if bool_decide (cl_messages c = []) then client_idle_add IDLE_MESSAGE c else Ok c);
    Ok (true, cl_set_messages (msg :: cl_messages c) (u32 (cl_num_messages c + 1)) c).

(** ** Invariant *)

Context (limit_ok : 0 <= client_max_output_buffer_size < 2 ^ 62).

(** A client that waits has been told about everything it waits for. *)
Record client_inv (c : client) : Prop := {
  ci_output : client_is_expired c = false -> out_inv client_max_output_buffer_size (cl_output c);
  ci_num_subscriptions : cl_num_subscriptions c = Z.of_nat (length (cl_subscriptions c));
  ci_max_subscriptions : cl_num_subscriptions c <= CLIENT_MAX_SUBSCRIPTIONS;
  ci_subscriptions : NoDup (cl_subscriptions c);
  ci_names : Forall (fun s => client_message_valid_channel_name s = true) (cl_subscriptions c);
  ci_num_messages : cl_num_messages c = Z.of_nat (length (cl_messages c));
  ci_max_messages : cl_num_messages c <= CLIENT_MAX_MESSAGES;
  ci_idle : client_is_expired c = false -> cl_idle_waiting c = true ->
            Z.land (cl_idle_flags c) (cl_idle_subscriptions c) = 0;
}.

Lemma client_init_inv num permission uid ch : client_inv (client_init num permission uid ch).
Proof using limit_ok.
  split; try done; simpl; try (by constructor); try lia.
  intros _. split; simpl; try done; lia.
Qed.

(** The same client with another output that is not worse. *)
Definition same_client (c c' : client) : Prop := c' = cl_set_output (cl_output c') c.

Lemma client_inv_output o c :
  client_inv c -> (o_expired o = false -> client_is_expired c = false) ->
  (o_expired o = false -> out_inv client_max_output_buffer_size o) ->
  client_inv (cl_set_output o c).
Proof. intros [] Hexp Ho. split; try done. simpl. intros. auto. Qed.

Lemma client_write_keeps_expired s o :
  o_expired o = true -> client_puts client_max_output_buffer_size s o = Ok o.
Proof. intros He. unfold client_puts, client_write. by rewrite He. Qed.

Lemma cl_puts_ok s total c :
  delivers total (cl_output c) ->
  (client_is_expired c = false -> out_inv client_max_output_buffer_size (cl_output c)) ->
  wp (cl_puts s c) (fun c' => same_client c c' /\ delivers (total ++ s) (cl_output c') /\
    (client_is_expired c' = false -> client_is_expired c = false /\
       out_inv client_max_output_buffer_size (cl_output c'))).
Proof using limit_ok.
  intros Hd Ho. unfold cl_puts, puts. unfold client_is_expired in *.
  destruct (o_expired (cl_output c)) eqn:He.
  - rewrite client_write_keeps_expired by done. simpl. split_and!; [done| |by rewrite He].
    unfold delivers in *. rewrite He in *. by apply prefix_app_r.
  - eapply wp_bind_mono; [by apply client_write_ok; [done|done|rewrite He]|].
    intros o' [H1 H2]. simpl. split_and!; [done|done|]. auto.
Qed.

Lemma cl_puts_all_ok ls total c :
  delivers total (cl_output c) ->
  (client_is_expired c = false -> out_inv client_max_output_buffer_size (cl_output c)) ->
  wp (cl_puts_all ls c) (fun c' => same_client c c' /\ delivers (total ++ concat ls) (cl_output c') /\
    (client_is_expired c' = false -> client_is_expired c = false /\
       out_inv client_max_output_buffer_size (cl_output c'))).
Proof using limit_ok.
  revert total c. induction ls as [|l ls IH]; intros total c Hd Ho; simpl.
  { rewrite app_nil_r. split_and!; [by destruct c|done|auto]. }
  eapply wp_bind_mono; [by apply cl_puts_ok|]. intros c1 (H1 & H2 & H3).
  eapply wp_mono; [apply (IH (total ++ l)); [done|naive_solver]|].
  intros c2 (H4 & H5 & H6). rewrite <- app_assoc in H5. split_and!; [|done|naive_solver].
  unfold same_client in *. by rewrite H1 in H4.
Qed.

Lemma cl_write_output_ok total c :
  delivers total (cl_output c) ->
  (client_is_expired c = false -> out_inv client_max_output_buffer_size (cl_output c)) ->
  wp (cl_write_output c) (fun c' => same_client c c' /\ delivers total (cl_output c') /\
    (client_is_expired c' = false -> client_is_expired c = false /\
       out_inv client_max_output_buffer_size (cl_output c'))).
Proof using limit_ok.
  intros Hd Ho. unfold cl_write_output, write_output. unfold client_is_expired in *.
  destruct (o_expired (cl_output c)) eqn:He.
  - unfold client_write_output. rewrite He. simpl. split_and!; [done|done|by rewrite He].
  - eapply wp_bind_mono; [apply (client_write_output_ok _ limit_ok total); [done|]|].
    { intros _. destruct (Ho eq_refl). split; [by split|]. unfold SEND_BUF_SIZE in *. lia. }
    intros o' [H1 H2]. simpl. split_and!; [done|done|]. auto.
Qed.

(** What [client_idle_notify()] sends. *)
Definition idle_response (flags subscriptions : Z) : cstring :=
  concat (changed_lines flags subscriptions) ++ lit "OK" ++ nl.

Lemma client_idle_notify_ok total c :
  client_inv (cl_set_idle false 0 (cl_idle_subscriptions c) c) -> delivers total (cl_output c) ->
  cl_idle_waiting c = true -> cl_idle_flags c <> 0 ->
  wp (client_idle_notify c) (fun c' =>
    same_client (cl_set_idle false 0 (cl_idle_subscriptions c) c) c' /\ client_inv c' /\
    delivers (total ++ idle_response (cl_idle_flags c) (cl_idle_subscriptions c)) (cl_output c')).
Proof using limit_ok.
  intros Hinv Hd Hw Hf. unfold client_idle_notify. rewrite Hw.
  rewrite (proj2 (Z.eqb_neq _ _) Hf). cbn [negb assert mbind res_bind].
  eapply wp_bind_mono; [apply cl_puts_all_ok; [exact Hd|apply Hinv]|]. intros c1 (H1 & H2 & H3).
  eapply wp_mono; [apply cl_puts_ok; [exact H2|naive_solver]|]. intros c2 (H4 & H5 & H6).
  rewrite <- app_assoc in H5. unfold same_client in *. rewrite H1 in H4. simpl in H4.
  split_and!; [done| |done]. rewrite H4. destruct Hinv. split; try done; simpl; naive_solver.
Qed.

(** A waiting client that is interested gets a response at once; otherwise
    the flags are kept for it. *)
Lemma client_idle_add_ok total flags c :
  client_inv c -> delivers total (cl_output c) -> client_is_expired c = false ->
  wp (client_idle_add flags c) (fun c' => client_inv c' /\
    if cl_idle_waiting c && negb (Z.land flags (cl_idle_subscriptions c) =? 0)
    then same_client (cl_set_idle false 0 (cl_idle_subscriptions c) c) c' /\
         delivers (total ++ idle_response (Z.lor (cl_idle_flags c) flags) (cl_idle_subscriptions c))
           (cl_output c')
    else c' = cl_set_idle (cl_idle_waiting c) (Z.lor (cl_idle_flags c) flags)
                (cl_idle_subscriptions c) c).
Proof using limit_ok.
  intros Hinv Hd He. unfold client_idle_add. rewrite He. cbn [cl_idle_waiting cl_idle_flags
    cl_idle_subscriptions cl_set_idle].
  assert (cl_idle_waiting c = true ->
    Z.land (Z.lor (cl_idle_flags c) flags) (cl_idle_subscriptions c) =
    Z.land flags (cl_idle_subscriptions c)) as Hland.
  { intros Hw. rewrite Z.land_lor_distr_l, (ci_idle c Hinv He Hw). apply Z.lor_0_l. }
  destruct (cl_idle_waiting c) eqn:Hw; simpl.
  2:{ split; [|done]. destruct Hinv. split; try done; simpl; naive_solver. }
  rewrite (Hland eq_refl). destruct (Z.eqb_spec (Z.land flags (cl_idle_subscriptions c)) 0) as [Hz|Hz].
  { simpl. split; [|done]. destruct Hinv. split; try done. intros _ _. simpl. by rewrite Hland. }
  cbn [negb]. set (c1 := cl_set_idle true _ _ c).
  eapply (wp_bind_mono _ _ (fun c' =>
    same_client (cl_set_idle false 0 (cl_idle_subscriptions c) c) c' /\ client_inv c' /\
    delivers (total ++ idle_response (Z.lor (cl_idle_flags c) flags) (cl_idle_subscriptions c))
      (cl_output c'))).
  - apply (client_idle_notify_ok total c1); subst c1; try done; simpl.
    + destruct Hinv. by split.
    + intros H0. apply Hz. by rewrite <- Hland, H0.
  - intros c2 (H1 & H2 & H3).
    eapply wp_mono; [apply cl_write_output_ok; [exact H3|apply H2]|]. intros c3 (H4 & H5 & H6).
    assert (client_inv c3).
    { rewrite H4. apply client_inv_output; [done|naive_solver|naive_solver]. }
    split_and!; [done| |done]. unfold same_client in *. by rewrite H1 in H4.
Qed.

Lemma client_idle_wait_ok total flags c :
  client_inv c -> delivers total (cl_output c) -> cl_idle_waiting c = false ->
  wp (client_idle_wait flags c) (fun '(sent, c') => client_inv c' /\
    cl_idle_waiting c' = negb sent /\
    delivers (if sent then total ++ idle_response (cl_idle_flags c) flags else total) (cl_output c')).
Proof using limit_ok.
  intros Hinv Hd Hw. unfold client_idle_wait. rewrite Hw. cbn [negb assert mbind res_bind
    cl_set_idle cl_idle_flags cl_idle_subscriptions].
  destruct (Z.eqb_spec (Z.land (cl_idle_flags c) flags) 0) as [Hz|Hz]; cbn [negb].
  - split_and!; [|done|done]. destruct Hinv. by split.
  - set (c1 := cl_set_idle true (cl_idle_flags c) flags c).
    eapply wp_bind_mono; [apply (client_idle_notify_ok total c1); subst c1; try done; simpl|].
    + destruct Hinv. by split.
    + intros H0. apply Hz. by rewrite H0.
    + intros c2 (H1 & H2 & H3). split_and!; [done| |done]. by rewrite H1.
Qed.

(** ** Subscriptions and messages *)

Lemma client_subscribe_inv channel c n r c' n' :
  client_inv c -> client_subscribe channel c n = (r, c', n') -> client_inv c' /\
  (r = CLIENT_SUBSCRIBE_OK -> channel ∉ cl_subscriptions c /\
     cl_subscriptions c' = channel :: cl_subscriptions c) /\
  (r <> CLIENT_SUBSCRIBE_OK -> c' = c /\ n' = n).
Proof.
  intros Hinv. unfold client_subscribe, client_find_subscription.
  destruct (client_message_valid_channel_name channel) eqn:Hv; simpl; [|by intros [= <- <- <-]].
  case_bool_decide as Hin; [by intros [= <- <- <-]|].
  unfold CLIENT_MAX_SUBSCRIPTIONS.
  destruct (Z.leb_spec 16 (cl_num_subscriptions c)); [by intros [= <- <- <-]|].
  intros [= <- <- <-]. split_and!; [|done|done]. destruct Hinv. unfold CLIENT_MAX_SUBSCRIPTIONS in *.
  rewrite u32_small by lia. split; try done; simpl;
    unfold CLIENT_MAX_SUBSCRIPTIONS; try lia; by constructor.
Qed.

Lemma remove_first_spec x l :
  NoDup l -> x ∈ l -> NoDup (remove_first x l) /\ S (length (remove_first x l)) = length l /\
  forall y, y ∈ remove_first x l <-> y ∈ l /\ y <> x.
Proof.
  induction l as [|z l IH]; [set_solver|]. intros [Hz Hl]%NoDup_cons Hx. simpl. case_decide as Hzx.
  - subst z. split_and!; [done|done|set_solver].
  - destruct IH as (H1 & H2 & H3); [done|set_solver|]. split_and!; [|simpl; lia|].
    + apply NoDup_cons. split; [|done]. rewrite H3. tauto.
    + intros y. rewrite !elem_of_cons, H3. naive_solver.
Qed.

Lemma client_unsubscribe_ok channel c n :
  client_inv c -> wp (client_unsubscribe channel c n) (fun '(r, c', _) => client_inv c' /\
    r = bool_decide (channel ∈ cl_subscriptions c) /\
    forall y, y ∈ cl_subscriptions c' <-> y ∈ cl_subscriptions c /\ y <> channel).
Proof.
  intros Hinv. unfold client_unsubscribe, client_find_subscription. case_bool_decide as Hin; simpl.
  2:{ split_and!; [done|done|set_solver]. }
  destruct (remove_first_spec channel _ (ci_subscriptions c Hinv) Hin) as (H1 & H2 & H3).
  destruct Hinv. unfold CLIENT_MAX_SUBSCRIPTIONS in *.
  rewrite (proj2 (Z.ltb_lt 0 _)) by lia. rewrite u32_small by lia. cbn [assert mbind res_bind].
  set (l := remove_first channel (cl_subscriptions c)) in *.
  assert (Bool.eqb (cl_num_subscriptions c - 1 =? 0) (bool_decide (l = [])) = true) as ->.
  { rewrite eqb_true_iff. destruct l; simpl in *; case_Z; (done || lia). }
  cbn [assert mbind res_bind]. split_and!; [|done|done]. split; try done; simpl; [lia|..|].
  - unfold CLIENT_MAX_SUBSCRIPTIONS. lia.
  - rewrite Forall_forall in *. intros y [Hy _]%H3. auto.
Qed.

(** A message is stored if the client is subscribed and has room. *)
Lemma client_push_message_ok total msg c :
  client_inv c -> delivers total (cl_output c) ->
  wp (client_push_message msg c) (fun '(r, c') => client_inv c' /\
    r = bool_decide (cl_num_messages c < CLIENT_MAX_MESSAGES /\ msg_channel msg ∈ cl_subscriptions c) /\
    cl_subscriptions c' = cl_subscriptions c /\
    cl_messages c' = (if r then [msg] else []) ++ cl_messages c).
Proof using limit_ok.
  intros Hinv Hd. unfold client_push_message, client_find_subscription.
  destruct (Z.leb_spec CLIENT_MAX_MESSAGES (cl_num_messages c)); simpl.
  { split_and!; [done| |done|done]. rewrite bool_decide_false; [done|lia]. }
  case_bool_decide as Hin; simpl.
  2:{ split_and!; [done| |done|done]. by rewrite bool_decide_false by tauto. }
  eapply (wp_bind_mono _ _ (fun c1 => client_inv c1 /\ cl_subscriptions c1 = cl_subscriptions c /\
    cl_messages c1 = cl_messages c)).
  - case_bool_decide; [|by split_and!]. destruct (client_is_expired c) eqn:He.
    { unfold client_idle_add. rewrite He. by split_and!. }
    eapply wp_mono; [by apply (client_idle_add_ok total)|]. intros c1 [Hi1 H1].
    destruct (_ && _); [destruct H1 as [H1 _]|]; rewrite H1; by rewrite H1 in Hi1.
  - intros c1 (Hi1 & Hs1 & Hm1). pose proof (ci_num_messages _ Hi1) as Hn1.
    pose proof (ci_num_messages _ Hinv) as Hn. rewrite Hm1 in Hn1.
    unfold CLIENT_MAX_MESSAGES in *. rewrite u32_small by lia.
    split_and!; [|by rewrite bool_decide_true|done|by simpl; rewrite Hm1].
    destruct Hi1. split; try done; simpl; unfold CLIENT_MAX_MESSAGES; lia.
Qed.

End with_limit.
