(* ===== verification/Permission.v ===== *)
(** * Permissions

    [src/permission.c]: passwords and the permissions they grant. *)

From S2P Require Import Prelude CString.
Local Open Scope Z_scope.

Definition PERMISSION_NONE : Z := 0.
Definition PERMISSION_READ : Z := 1.
Definition PERMISSION_ADD : Z := 2.
Definition PERMISSION_CONTROL : Z := 4.
Definition PERMISSION_ADMIN : Z := 8.

Definition PERMISSION_PASSWORD_CHAR : ascii := "@"%char.
Definition PERMISSION_SEPERATOR : ascii := ","%char.

(** The global variables: the hash table of passwords and the permissions of
    a new client. *)
Record permissions := Permissions {
  permission_passwords : list (cstring * Z);
  permission_default : Z;
}.

(** [g_strsplit()] with a separator of one character: the parts between
    separators, and nothing for the empty string. *)
Fixpoint split_at (sep : ascii) (s : cstring) : list cstring :=
  match s with
  | [] => [[]]
  | c :: s' =>
      if decide (c = sep) then [] :: split_at sep s'
      else match split_at sep s' with
           | part :: parts => (c :: part) :: parts
           | [] => [[c]]
           end
  end.
Definition g_strsplit (s : cstring) (sep : ascii) : list cstring :=
  match s with [] => [] | _ => split_at sep s end.

(** The permission a word stands for. *)
Definition permission_of_word (w : cstring) : option Z :=
  if decide (w = lit "read") then Some PERMISSION_READ
  else if decide (w = lit "add") then Some PERMISSION_ADD
  else if decide (w = lit "control") then Some PERMISSION_CONTROL
  else if decide (w = lit "admin") then Some PERMISSION_ADMIN
  else None.

(** [None]: the program ends with an error message.  [string] is [NULL] if
    the option has no value. *)
Definition parsePermissions (string : option cstring) : option Z :=
  match string with
  | None => Some 0
  | Some s => foldl (fun acc w => p ← acc; q ← permission_of_word w; Some (Z.lor p q)) (Some 0)
                (g_strsplit s PERMISSION_SEPERATOR)
  end.

(** [g_hash_table_replace()]. *)
Definition table_replace (key : cstring) (value : Z) (t : list (cstring * Z)) : list (cstring * Z) :=
  (key, value) :: filter (fun kv => kv.1 <> key) t.

Definition table_lookup (key : cstring) (t : list (cstring * Z)) : option Z :=
  snd <$> List.find (fun kv => bool_decide (kv.1 = key)) t.

(** One [password] option. *)
Definition add_password (value : cstring) (t : list (cstring * Z)) : option (list (cstring * Z)) :=
  password ← before PERMISSION_PASSWORD_CHAR value;
  permission ← parsePermissions (Some (drop (length password + 1) value));
  Some (table_replace password permission t).

(** [params] are the values of the [password] options, [default_perms] that
    of [default_permissions], if the option is present. *)
Definition initPermissions (params : list cstring) (default_perms : option (option cstring))
  : option permissions :=
  table ← foldl (fun acc value => t ← acc; add_password value t) (Some []) params;
  let default :=
    match params with
    | [] => Z.lor (Z.lor (Z.lor PERMISSION_READ PERMISSION_ADD) PERMISSION_CONTROL) PERMISSION_ADMIN
    | _ => 0
    end in
  match default_perms with
  | None => Some (Permissions table default)
  | Some v => p ← parsePermissions v; Some (Permissions table p)
  end.

Definition getPermissionFromPassword (password : cstring) (ps : permissions) : option Z :=
  table_lookup password (permission_passwords ps).

Definition getDefaultPermissions (ps : permissions) : Z := permission_default ps.

(** ** Lemmas *)

Lemma permission_word_bound w p : permission_of_word w = Some p -> 0 <= p < 16.
Proof. unfold permission_of_word. repeat case_decide; intros; simplify_eq; split; done || lia. Qed.

Lemma lor_small_bound a b n : 0 <= n -> 0 <= a < 2 ^ n -> 0 <= b < 2 ^ n -> 0 <= Z.lor a b < 2 ^ n.
Proof.
  intros Hn Ha Hb. split; [apply Z.lor_nonneg; lia|].
  destruct (Z.eq_dec (Z.lor a b) 0) as [->|Hne]; [lia|].
  assert (0 <= Z.lor a b) by (apply Z.lor_nonneg; lia).
  apply Z.log2_lt_pow2; [lia|]. rewrite Z.log2_lor by lia. apply Z.max_lub_lt.
  - destruct (Z.eq_dec a 0) as [->|]; [|apply Z.log2_lt_pow2; lia].
    destruct (Z.eq_dec n 0) as [->|]; [|simpl; lia].
    exfalso. apply Hne. assert (b = 0) as -> by (simpl in Hb; lia). done.
  - destruct (Z.eq_dec b 0) as [->|]; [|apply Z.log2_lt_pow2; lia].
    destruct (Z.eq_dec n 0) as [->|]; [|simpl; lia].
    exfalso. apply Hne. assert (a = 0) as -> by (simpl in Ha; lia). done.
Qed.

Lemma parse_words_bound ws acc p :
  (forall a, acc = Some a -> 0 <= a < 16) ->
  foldl (fun acc w => p ← acc; q ← permission_of_word w; Some (Z.lor p q)) acc ws = Some p ->
  0 <= p < 16.
Proof.
  revert acc. induction ws as [|w ws IH]; intros acc Ha; simpl; [apply Ha|].
  apply IH. destruct acc as [a|]; simpl; [|done].
  destruct (permission_of_word w) as [q|] eqn:Hq; simpl; [|done]. intros ? [= <-].
  apply (lor_small_bound a q 4); [lia|by apply Ha|]. by apply permission_word_bound in Hq.
Qed.

(** Only the four permissions exist. *)
Lemma parsePermissions_bound s p : parsePermissions s = Some p -> 0 <= p < 16.
Proof.
  destruct s as [s|]; simpl; [|intros [= <-]; lia].
  apply parse_words_bound. intros ? [= <-]. lia.
Qed.

(** The last option for a password wins. *)
Lemma table_lookup_replace k k' v t :
  table_lookup k' (table_replace k v t) = if decide (k' = k) then Some v else table_lookup k' t.
Proof.
  unfold table_lookup, table_replace. simpl. case_decide as Hk.
  - subst. by rewrite bool_decide_true.
  - rewrite bool_decide_false by done.
    induction t as [|[a b] t IH]; simpl; [done|].
    destruct (decide (a = k)) as [->|Ha].
    + rewrite filter_cons_False by (simpl; tauto). rewrite IH. by rewrite bool_decide_false by done.
    + rewrite filter_cons_True by done. simpl. by case_bool_decide.
Qed.

(** Without a password option everything is permitted to everyone; with one,
    nothing to those without a password, unless the configuration says
    otherwise. *)
Lemma initPermissions_default params ps :
  initPermissions params None = Some ps ->
  permission_default ps = if decide (params = []) then 15 else 0.
Proof.
  unfold initPermissions. destruct (foldl _ _ params); [|done]. simpl. intros [= <-]. simpl.
  by destruct params.
Qed.
