(* ===== verification/Server.v ===== *)
(** * The state behind the protocol

    What a command handler of [src/command.c] works on: the playlist and the
    player, the clients, the permissions and the two global variables of
    [src/protocol/result.c]; a state monad over it with the operations that
    handlers use to answer. *)

From S2P Require Import Prelude Err GLib Song CString Float EventPipe PlayQueue PlayerControl.
From S2P Require Import Playlist Tokenizer Strtod ArgParser ClientWrite ClientRead Client Permission.
Local Open Scope Z_scope.

(** The configuration that [src/client_global.c] reads. *)
Class Limits := {
  client_max_command_list_size : Z;
  client_max_output_buffer_size : Z;
}.

Section with_player.
Context {G : GLib} {T : PlayerThread} {L : Limits}.

Record server := Server {
  sv_world : world;
  sv_clients : list client;
  sv_permissions : permissions;
  sv_current_command : option cstring;
  sv_command_list_num : Z;
}.

Definition sv_set_world (w : world) (sv : server) : server :=
  Server w (sv_clients sv) (sv_permissions sv) (sv_current_command sv) (sv_command_list_num sv).
Definition sv_set_clients (l : list client) (sv : server) : server :=
  Server (sv_world sv) l (sv_permissions sv) (sv_current_command sv) (sv_command_list_num sv).
Definition sv_set_current (cmd : option cstring) (sv : server) : server :=
  Server (sv_world sv) (sv_clients sv) (sv_permissions sv) cmd (sv_command_list_num sv).
Definition sv_set_list_num (n : Z) (sv : server) : server :=
  Server (sv_world sv) (sv_clients sv) (sv_permissions sv) (sv_current_command sv) n.

(** ** The monad *)

Definition M (A : Type) : Type := server -> res (A * server).

#[global] Instance M_ret : MRet M := fun A a sv => Ok (a, sv).
#[global] Instance M_bind : MBind M := fun A B f m sv =>
  match m sv with Ok (a, sv) => f a sv | Err e => Err e end.

Definition lift {A} (m : res A) : M A := fun sv =>
  match m with Ok a => Ok (a, sv) | Err e => Err e end.
Definition gets {A} (f : server -> A) : M A := fun sv => Ok (f sv, sv).
Definition modify (f : server -> server) : M unit := fun sv => Ok (tt, f sv).

(** An operation on the playlist and the player. *)
Definition on_world {A} (f : world -> res (A * world)) : M A := fun sv =>
  match f (sv_world sv) with
  | Ok (a, w) => Ok (a, sv_set_world w sv)
  | Err e => Err e
  end.
Definition update_world (f : world -> res world) : M unit :=
  on_world (fun w => w ← f w; Ok (tt, w)).
Definition update_player (f : player -> res player) : M unit :=
  update_world (with_player f).

(** An operation on the client with index [i]. *)
Definition on_client {A} (i : nat) (f : client -> res (A * client)) : M A := fun sv =>
  match sv_clients sv !! i with
  | None => Err OutOfBounds
  | Some c =>
      match f c with
      | Ok (a, c) => Ok (a, sv_set_clients (<[i := c]> (sv_clients sv)) sv)
      | Err e => Err e
      end
  end.
Definition get_client (i : nat) : M client := on_client i (fun c => Ok (c, c)).

(** [client_puts()] and [client_printf()]. *)
Definition print (i : nat) (s : cstring) : M unit :=
  on_client i (fun c => c ← cl_puts client_max_output_buffer_size s c; Ok (tt, c)).

(** ** [src/protocol/result.c] *)

Definition command_success (i : nat) : M unit := print i (lit "OK" ++ nl).

Definition command_error (i : nat) (e : cmd_error) : M unit :=
  cmd ← gets sv_current_command;
  num ← gets sv_command_list_num;
  match cmd with
  | None => lift (Err AssertFailed)
  | Some cmd =>
      print i (lit "ACK [" ++ print_i (ack_code (ce_ack e)) ++ lit "@" ++ print_i num ++ lit "] {" ++
               cmd ++ lit "} ");;
      print i (ce_text e);;
      print i nl;;
      modify (sv_set_current None)
  end.

(** An error that ends the command. *)
Definition reject (i : nat) (e : cmd_error) : M command_return :=
  command_error i e;; mret COMMAND_RETURN_ERROR.

(** An argument, checked. *)
Definition with_arg {A} (i : nat) (check : cstring -> checked A) (s : cstring)
    (k : A -> M command_return) : M command_return :=
  match check s with
  | Accepted a => k a
  | Rejected e => reject i e
  end.

(** [argv[k]]. *)
Definition arg (k : nat) (argv : list cstring) : M cstring :=
  lift (match argv !! k with Some s => Ok s | None => Err OutOfBounds end).

(** [print_error2()] of [src/command.c]; the message for [PLAYLIST_ERRNO] is
    that of the C library. *)
Definition mpd_err_reply (strerror : cstring) (r : mpd_err) : option cmd_error :=
  match r with
  | MPD_SUCCESS => None
  | MPD_PERM | PLAYLIST_DENIED => Some (CmdError ACK_ERROR_PERMISSION (lit "Access denied"))
  | MPD_ACCESS => Some (CmdError ACK_ERROR_UNKNOWN (lit "Failed to open/read/write/stat"))
  | PLAYLIST_ERRNO => Some (CmdError ACK_ERROR_SYSTEM strerror)
  | PLAYLIST_NO_SUCH_SONG => Some (CmdError ACK_ERROR_NO_EXIST (lit "No such song"))
  | PLAYLIST_NO_SUCH_LIST => Some (CmdError ACK_ERROR_NO_EXIST (lit "No such playlist"))
  | PLAYLIST_LIST_EXISTS => Some (CmdError ACK_ERROR_EXIST (lit "Playlist already exists"))
  | PLAYLIST_BAD_NAME => Some (CmdError ACK_ERROR_ARG (lit "playlist name is invalid: " ++
      lit "playlist names may not contain slashes," ++ lit " newlines or carriage returns"))
  | PLAYLIST_BAD_RANGE => Some (CmdError ACK_ERROR_ARG (lit "Bad song index"))
  | PLAYLIST_NOT_PLAYING => Some (CmdError ACK_ERROR_PLAYER_SYNC (lit "Not playing"))
  | PLAYLIST_TOO_LARGE => Some (CmdError ACK_ERROR_PLAYLIST_MAX (lit "playlist is at the max size"))
  | PLAYLIST_DISABLED =>
      Some (CmdError ACK_ERROR_UNKNOWN (lit "stored playlist support is disabled"))
  | DB_DISABLED => Some (CmdError ACK_ERROR_NO_EXIST (lit "Database disabled"))
  | DB_NOENT => Some (CmdError ACK_ERROR_NO_EXIST (lit "Not found"))
  | DB_ACCESS => Some (CmdError ACK_ERROR_UNKNOWN (lit "Can't access database"))
  | DB_CORRUPT | DB_MALFORM | DB_DUP =>
      Some (CmdError ACK_ERROR_UNKNOWN (lit "Database corrupted"))
  | CMD_QUOTE => Some (CmdError ACK_ERROR_UNKNOWN (lit "Invalid unquoted character"))
  | r => Some (CmdError ACK_ERROR_UNKNOWN (lit "Unknown error: " ++ print_i (mpd_err_code r)))
  end.

Definition print_error2 (strerror : cstring) (i : nat) (r : mpd_err) : M command_return :=
  match mpd_err_reply strerror r with
  | None => mret COMMAND_RETURN_OK
  | Some e => reject i e
  end.

End with_player.
