(* ===== verification/Command.v ===== *)
(** * Protocol commands

    [src/command.c]: the registry of commands, the handlers of those that
    concern the playlist, the player and the other clients, and
    [command_process()].  The handlers of the music database, the outputs
    and the stickers are parameters. *)

From S2P Require Import Prelude Err GLib Float Song EventPipe PlayerControl PlayQueue CString Uri Playlist Tokenizer.
From S2P Require Import Strtod ArgParser ClientRead ClientWrite Client Permission Server.

Local Open Scope Z_scope.

(** ** The registry *)

(** The handlers, in the order of the registry. *)
Inductive handler :=
| H_add | H_addid | H_channels | H_clear | H_clearerror | H_close | H_commands | H_config
| H_consume | H_count | H_crossfade | H_currentsong | H_decoders | H_delete | H_deleteid
| H_disableoutput | H_enableoutput | H_find | H_findadd | H_idle | H_kill | H_list | H_listall
| H_listallinfo | H_listplaylist | H_listplaylistinfo | H_listplaylists | H_load | H_lsinfo
| H_mixrampdb | H_mixrampdelay | H_move | H_moveid | H_next | H_not_commands | H_devices
| H_password | H_pause | H_ping | H_play | H_playid | H_playlist | H_playlistadd | H_playlistclear
| H_playlistdelete | H_playlistfind | H_playlistid | H_playlistinfo | H_playlistmove
| H_playlistsearch | H_plchanges | H_plchangesposid | H_previous | H_prio | H_prioid | H_random
| H_read_messages | H_rename | H_repeat | H_replay_gain_mode | H_replay_gain_status | H_rescan
| H_rm | H_save | H_search | H_searchadd | H_searchaddpl | H_seek | H_seekcur | H_seekid
| H_send_message | H_setvol | H_shuffle | H_single | H_stats | H_status | H_sticker | H_stop
| H_subscribe | H_swap | H_swapid | H_tagtypes | H_unsubscribe | H_update | H_urlhandlers.

Record command := Command {
  cmd_cmd : cstring;
  cmd_permission : Z;
  cmd_min : Z;
  cmd_max : Z;
  cmd_handler : handler;
}.

(** With [ENABLE_STICKER]. *)
Definition commands : list command :=
  [Command (lit "add") PERMISSION_ADD 1 1 H_add;
   Command (lit "addid") PERMISSION_ADD 1 2 H_addid;
   Command (lit "channels") PERMISSION_READ 0 0 H_channels;
   Command (lit "clear") PERMISSION_CONTROL 0 0 H_clear;
   Command (lit "clearerror") PERMISSION_CONTROL 0 0 H_clearerror;
   Command (lit "close") PERMISSION_NONE (-1) (-1) H_close;
   Command (lit "commands") PERMISSION_NONE 0 0 H_commands;
   Command (lit "config") PERMISSION_ADMIN 0 0 H_config;
   Command (lit "consume") PERMISSION_CONTROL 1 1 H_consume;
   Command (lit "count") PERMISSION_READ 2 (-1) H_count;
   Command (lit "crossfade") PERMISSION_CONTROL 1 1 H_crossfade;
   Command (lit "currentsong") PERMISSION_READ 0 0 H_currentsong;
   Command (lit "decoders") PERMISSION_READ 0 0 H_decoders;
   Command (lit "delete") PERMISSION_CONTROL 1 1 H_delete;
   Command (lit "deleteid") PERMISSION_CONTROL 1 1 H_deleteid;
   Command (lit "disableoutput") PERMISSION_ADMIN 1 1 H_disableoutput;
   Command (lit "enableoutput") PERMISSION_ADMIN 1 1 H_enableoutput;
   Command (lit "find") PERMISSION_READ 2 (-1) H_find;
   Command (lit "findadd") PERMISSION_READ 2 (-1) H_findadd;
   Command (lit "idle") PERMISSION_READ 0 (-1) H_idle;
   Command (lit "kill") PERMISSION_ADMIN (-1) (-1) H_kill;
   Command (lit "list") PERMISSION_READ 1 (-1) H_list;
   Command (lit "listall") PERMISSION_READ 0 1 H_listall;
   Command (lit "listallinfo") PERMISSION_READ 0 1 H_listallinfo;
   Command (lit "listplaylist") PERMISSION_READ 1 1 H_listplaylist;
   Command (lit "listplaylistinfo") PERMISSION_READ 1 1 H_listplaylistinfo;
   Command (lit "listplaylists") PERMISSION_READ 0 0 H_listplaylists;
   Command (lit "load") PERMISSION_ADD 1 2 H_load;
   Command (lit "lsinfo") PERMISSION_READ 0 1 H_lsinfo;
   Command (lit "mixrampdb") PERMISSION_CONTROL 1 1 H_mixrampdb;
   Command (lit "mixrampdelay") PERMISSION_CONTROL 1 1 H_mixrampdelay;
   Command (lit "move") PERMISSION_CONTROL 2 2 H_move;
   Command (lit "moveid") PERMISSION_CONTROL 2 2 H_moveid;
   Command (lit "next") PERMISSION_CONTROL 0 0 H_next;
   Command (lit "notcommands") PERMISSION_NONE 0 0 H_not_commands;
   Command (lit "outputs") PERMISSION_READ 0 0 H_devices;
   Command (lit "password") PERMISSION_NONE 1 1 H_password;
   Command (lit "pause") PERMISSION_CONTROL 0 1 H_pause;
   Command (lit "ping") PERMISSION_NONE 0 0 H_ping;
   Command (lit "play") PERMISSION_CONTROL 0 1 H_play;
   Command (lit "playid") PERMISSION_CONTROL 0 1 H_playid;
   Command (lit "playlist") PERMISSION_READ 0 0 H_playlist;
   Command (lit "playlistadd") PERMISSION_CONTROL 2 2 H_playlistadd;
   Command (lit "playlistclear") PERMISSION_CONTROL 1 1 H_playlistclear;
   Command (lit "playlistdelete") PERMISSION_CONTROL 2 2 H_playlistdelete;
   Command (lit "playlistfind") PERMISSION_READ 2 (-1) H_playlistfind;
   Command (lit "playlistid") PERMISSION_READ 0 1 H_playlistid;
   Command (lit "playlistinfo") PERMISSION_READ 0 1 H_playlistinfo;
   Command (lit "playlistmove") PERMISSION_CONTROL 3 3 H_playlistmove;
   Command (lit "playlistsearch") PERMISSION_READ 2 (-1) H_playlistsearch;
   Command (lit "plchanges") PERMISSION_READ 1 1 H_plchanges;
   Command (lit "plchangesposid") PERMISSION_READ 1 1 H_plchangesposid;
   Command (lit "previous") PERMISSION_CONTROL 0 0 H_previous;
   Command (lit "prio") PERMISSION_CONTROL 2 (-1) H_prio;
   Command (lit "prioid") PERMISSION_CONTROL 2 (-1) H_prioid;
   Command (lit "random") PERMISSION_CONTROL 1 1 H_random;
   Command (lit "readmessages") PERMISSION_READ 0 0 H_read_messages;
   Command (lit "rename") PERMISSION_CONTROL 2 2 H_rename;
   Command (lit "repeat") PERMISSION_CONTROL 1 1 H_repeat;
   Command (lit "replay_gain_mode") PERMISSION_CONTROL 1 1 H_replay_gain_mode;
   Command (lit "replay_gain_status") PERMISSION_READ 0 0 H_replay_gain_status;
   Command (lit "rescan") PERMISSION_CONTROL 0 1 H_rescan;
   Command (lit "rm") PERMISSION_CONTROL 1 1 H_rm;
   Command (lit "save") PERMISSION_CONTROL 1 1 H_save;
   Command (lit "search") PERMISSION_READ 2 (-1) H_search;
   Command (lit "searchadd") PERMISSION_ADD 2 (-1) H_searchadd;
   Command (lit "searchaddpl") PERMISSION_CONTROL 3 (-1) H_searchaddpl;
   Command (lit "seek") PERMISSION_CONTROL 2 2 H_seek;
   Command (lit "seekcur") PERMISSION_CONTROL 1 1 H_seekcur;
   Command (lit "seekid") PERMISSION_CONTROL 2 2 H_seekid;
   Command (lit "sendmessage") PERMISSION_CONTROL 2 2 H_send_message;
   Command (lit "setvol") PERMISSION_CONTROL 1 1 H_setvol;
   Command (lit "shuffle") PERMISSION_CONTROL 0 1 H_shuffle;
   Command (lit "single") PERMISSION_CONTROL 1 1 H_single;
   Command (lit "stats") PERMISSION_READ 0 0 H_stats;
   Command (lit "status") PERMISSION_READ 0 0 H_status;
   Command (lit "sticker") PERMISSION_ADMIN 3 (-1) H_sticker;
   Command (lit "stop") PERMISSION_CONTROL 0 0 H_stop;
   Command (lit "subscribe") PERMISSION_READ 1 1 H_subscribe;
   Command (lit "swap") PERMISSION_CONTROL 2 2 H_swap;
   Command (lit "swapid") PERMISSION_CONTROL 2 2 H_swapid;
   Command (lit "tagtypes") PERMISSION_READ 0 0 H_tagtypes;
   Command (lit "unsubscribe") PERMISSION_READ 1 1 H_unsubscribe;
   Command (lit "update") PERMISSION_CONTROL 0 1 H_update;
   Command (lit "urlhandlers") PERMISSION_READ 0 0 H_urlhandlers].

Definition num_commands : nat := length commands.

(** [strcmp()]: the order of the first bytes that differ, the end of a string
    being smaller than every byte. *)
Fixpoint strcmp (a b : cstring) : comparison :=
  match a, b with
  | [], [] => Eq
  | [], _ :: _ => Lt
  | _ :: _, [] => Gt
  | x :: a', y :: b' =>
      match char_code x ?= char_code y with
      | Eq => strcmp a' b'
      | c => c
      end
  end.

(** The binary search between the indices [a] and [b]; the distance halves
    in every step. *)
Fixpoint command_search (fuel : nat) (name : cstring) (a b : nat) : res (option command) :=
  match fuel with
  | O => Err OutOfFuel
  | S fuel' =>
      let i := ((a + b) / 2)%nat in
      match commands !! i with
      | None => Err OutOfBounds
      | Some c =>
          match strcmp name (cmd_cmd c) with
          | Eq => Ok (Some c)
          | Lt => if (a <? i)%nat then command_search fuel' name a i else Ok None
          | Gt => if (S i <? b)%nat then command_search fuel' name (S i) b else Ok None
          end
      end
  end.

Definition command_lookup (name : cstring) : res (option command) :=
  command_search (S num_commands) name 0 num_commands.

(** [command_init()]: the registry is sorted. *)
Definition command_init : bool :=
  forallb (fun i => match commands !! i, commands !! S i with
                    | Some c, Some d => match strcmp (cmd_cmd c) (cmd_cmd d) with Lt => true | _ => false end
                    | _, _ => false
                    end) (seq 0 (num_commands - 1)).

(** Is the permission among those of the client? *)
Definition command_permitted (c : command) (permission : Z) : bool :=
  cmd_permission c =? Z.land permission (cmd_permission c).

(** The error of [command_check_request()], if there is one. *)
Definition command_check_request (c : command) (permission : Z) (argv0 : cstring) (argc : Z)
  : option cmd_error :=
  let min := cmd_min c + 1 in
  let max := cmd_max c + 1 in
  let about (text name : cstring) : cmd_error :=
    CmdError ACK_ERROR_ARG (text ++ [dquote] ++ name ++ [dquote]) in
  if negb (command_permitted c permission) then
    Some (CmdError ACK_ERROR_PERMISSION
            (lit "you don't have permission for " ++ [dquote] ++ cmd_cmd c ++ [dquote]))
  else if min =? 0 then None
  else if (min =? max) && negb (max =? argc) then
    Some (about (lit "wrong number of arguments for ") argv0)
  else if argc <? min then Some (about (lit "too few arguments for ") argv0)
  else if (max <? argc) && negb (max =? 0) then Some (about (lit "too many arguments for ") argv0)
  else None.

(** * The registry of commands

    [strcmp()] is a strict order on strings, the registry is sorted by it, and
    so the binary search of [command_lookup()] finds what a search from the
    first entry to the last would find; what [command_check_request()]
    ensures. *)

(** ** [strcmp()] *)

Lemma char_code_inj a b : char_code a = char_code b -> a = b.
Proof.
  unfold char_code. intros H%N2Z.inj. rewrite <- (ascii_N_embedding a), <- (ascii_N_embedding b).
  by rewrite H.
Qed.

Lemma strcmp_eq a b : strcmp a b = Eq <-> a = b.
Proof.
  revert b. induction a as [|x a IH]; intros [|y b]; simpl; try done.
  destruct (Z.compare_spec (char_code x) (char_code y)) as [H|H|H].
  - apply char_code_inj in H as ->. rewrite IH. naive_solver.
  - split; [done|]. intros [= <- _]. lia.
  - split; [done|]. intros [= <- _]. lia.
Qed.

Lemma strcmp_gt a b : strcmp a b = Gt <-> strcmp b a = Lt.
Proof.
  revert b. induction a as [|x a IH]; intros [|y b]; simpl; try done.
  rewrite (Z.compare_antisym (char_code x)).
  destruct (char_code x ?= char_code y); simpl; [apply IH|done|done].
Qed.

Lemma strcmp_trans a b c : strcmp a b = Lt -> strcmp b c = Lt -> strcmp a c = Lt.
Proof.
  revert b c. induction a as [|x a IH]; intros [|y b] [|z c]; simpl; try done.
  destruct (Z.compare_spec (char_code x) (char_code y)) as [Hxy|Hxy|Hxy],
    (Z.compare_spec (char_code y) (char_code z)) as [Hyz|Hyz|Hyz]; try done; intros H1 H2.
  - rewrite Hxy, Hyz, Z.compare_refl. by eapply IH.
  - by rewrite Hxy, (proj2 (Z.compare_lt_iff _ _)).
  - by rewrite <- Hyz, (proj2 (Z.compare_lt_iff _ _)).
  - by rewrite (proj2 (Z.compare_lt_iff _ _)) by lia.
Qed.

(** ** Sorted *)

Lemma command_init_ok : command_init = true.
Proof. vm_compute. reflexivity. Qed.

Lemma commands_adjacent k c d :
  commands !! k = Some c -> commands !! S k = Some d -> strcmp (cmd_cmd c) (cmd_cmd d) = Lt.
Proof.
  intros Hc Hd. pose proof command_init_ok as H. unfold command_init in H. rewrite forallb_forall in H.
  specialize (H k). rewrite Hc, Hd in H. destruct (strcmp _ _); [|done|].
  all: discriminate H; apply in_seq; apply lookup_lt_Some in Hd; unfold num_commands; lia.
Qed.

Lemma commands_sorted j k c d :
  (j < k)%nat -> commands !! j = Some c -> commands !! k = Some d ->
  strcmp (cmd_cmd c) (cmd_cmd d) = Lt.
Proof.
  intros Hjk Hc. revert d. induction k as [|k IH]; intros d Hd; [lia|].
  destruct (decide (j = k)) as [->|Hne]; [by eapply commands_adjacent|].
  destruct (lookup_lt_is_Some_2 commands k) as [e He]; [apply lookup_lt_Some in Hd; lia|].
  eapply strcmp_trans; [apply IH; [lia|exact He]|by eapply commands_adjacent].
Qed.

Lemma commands_unique j k c d :
  commands !! j = Some c -> commands !! k = Some d -> cmd_cmd c = cmd_cmd d -> j = k.
Proof.
  intros Hc Hd He. destruct (Nat.lt_trichotomy j k) as [H|[H|H]]; [|done|];
    eapply commands_sorted in H; eauto; rewrite He, (proj2 (strcmp_eq _ _) eq_refl) in H; done.
Qed.

(** ** Search *)

(** The first entry with the name. *)
Definition find_command (name : cstring) : option command :=
  List.find (fun c => bool_decide (cmd_cmd c = name)) commands.

(** Where the name can be, before and after a step. *)
Definition only_within (name : cstring) (a b : nat) : Prop :=
  forall j c, commands !! j = Some c -> cmd_cmd c = name -> (a <= j < b)%nat.

Lemma command_search_ok fuel name a b :
  (b - a < fuel)%nat -> (a < b <= num_commands)%nat -> only_within name a b ->
  exists r, command_search fuel name a b = Ok r /\
    match r with
    | Some c => c ∈ commands /\ cmd_cmd c = name
    | None => forall c, c ∈ commands -> cmd_cmd c <> name
    end.
Proof.
  revert a b. induction fuel as [|fuel IH]; intros a b Hf Hab Hin; [lia|]. cbn [command_search].
  set (m := ((a + b) / 2)%nat).
  assert (a <= m < b)%nat as Hm.
  { split; [apply Nat.div_le_lower_bound; lia|apply Nat.Div0.div_lt_upper_bound; lia]. }
  destruct (lookup_lt_is_Some_2 commands m) as [c Hc]; [unfold num_commands in Hab; lia|].
  rewrite Hc. assert (forall j d, commands !! j = Some d -> cmd_cmd d = name ->
    strcmp name (cmd_cmd c) = Lt -> (j < m)%nat) as Hlow.
  { intros j d Hd <- Hs. destruct (Nat.lt_trichotomy j m) as [H|[->|H]]; [done| |].
    - simplify_eq. by rewrite (proj2 (strcmp_eq _ _) eq_refl) in Hs.
    - apply (commands_sorted _ _ _ _ H Hc) in Hd. apply strcmp_gt in Hd. congruence. }
  assert (forall j d, commands !! j = Some d -> cmd_cmd d = name ->
    strcmp name (cmd_cmd c) = Gt -> (m < j)%nat) as Hhigh.
  { intros j d Hd <- Hs. destruct (Nat.lt_trichotomy j m) as [H|[->|H]]; [| |done].
    - apply (commands_sorted _ _ _ _ H Hd) in Hc. congruence.
    - simplify_eq. by rewrite (proj2 (strcmp_eq _ _) eq_refl) in Hs. }
  destruct (strcmp name (cmd_cmd c)) eqn:Hs.
  - apply strcmp_eq in Hs. exists (Some c). split; [done|]. split; [|done]. by eapply list_elem_of_lookup_2.
  - destruct (Nat.ltb_spec a m); [apply IH; [lia|lia|]|exists None; split; [done|]].
    + intros j d Hd He. specialize (Hin j d Hd He). specialize (Hlow j d Hd He eq_refl). lia.
    + intros d [j Hd]%list_elem_of_lookup He. specialize (Hin j d Hd He).
      specialize (Hlow j d Hd He eq_refl). lia.
  - destruct (Nat.ltb_spec (S m) b); [apply IH; [lia|lia|]|exists None; split; [done|]].
    + intros j d Hd He. specialize (Hin j d Hd He). specialize (Hhigh j d Hd He eq_refl). lia.
    + intros d [j Hd]%list_elem_of_lookup He. specialize (Hin j d Hd He).
      specialize (Hhigh j d Hd He eq_refl). lia.
Qed.

Lemma find_command_Some name c :
  find_command name = Some c <-> c ∈ commands /\ cmd_cmd c = name.
Proof.
  unfold find_command. split.
  - intros [Hin Hn]%find_some. apply bool_decide_eq_true in Hn. by rewrite list_elem_of_In.
  - intros [Hin Hn]. destruct (List.find _ commands) as [d|] eqn:Hd.
    + apply find_some in Hd as [Hd Hdn]. apply bool_decide_eq_true in Hdn.
      apply list_elem_of_In in Hd. apply list_elem_of_lookup in Hin as [j Hj], Hd as [k Hk].
      assert (j = k) as -> by (eapply commands_unique; eauto; congruence). congruence.
    + eapply find_none in Hd; [|by apply list_elem_of_In]. by rewrite bool_decide_true in Hd.
Qed.

(** The binary search is the linear search. *)
Lemma command_lookup_find name : command_lookup name = Ok (find_command name).
Proof.
  destruct (command_search_ok (S num_commands) name 0 num_commands) as (r & Hr & Hspec).
  - lia.
  - vm_compute. lia.
  - intros j c Hj _. apply lookup_lt_Some in Hj. unfold num_commands. lia.
  - unfold command_lookup. rewrite Hr. f_equal. destruct r as [c|].
    + symmetry. by apply find_command_Some.
    + destruct (find_command name) as [d|] eqn:Hd; [|done].
      apply find_command_Some in Hd as [? ?]. by destruct (Hspec d).
Qed.

(** ** [command_check_request()] *)

(** The number of arguments the registry demands; [-1] stands for any. *)
Definition argc_fits (c : command) (argc : Z) : Prop :=
  cmd_min c = -1 \/ (cmd_min c + 1 <= argc /\ (cmd_max c = -1 \/ argc <= cmd_max c + 1)).

Lemma command_check_request_None c permission argv0 argc :
  command_check_request c permission argv0 argc = None <->
  command_permitted c permission = true /\
  (cmd_min c = -1 \/ (cmd_min c = cmd_max c /\ argc = cmd_max c + 1) \/
   (cmd_min c <> cmd_max c /\ cmd_min c + 1 <= argc /\ (cmd_max c = -1 \/ argc <= cmd_max c + 1))).
Proof.
  unfold command_check_request. cbv zeta.
  destruct (command_permitted c permission); simpl; [|split; [done|by intros [? _]]].
  case_Z; simpl; split; try done; try lia; intros _; (split; [done|lia]).
Qed.

Lemma command_check_request_argc c permission argv0 argc :
  command_check_request c permission argv0 argc = None -> argc_fits c argc.
Proof. intros [_ H]%command_check_request_None. unfold argc_fits. lia. Qed.
