(* ===== verification/AudioParser.v ===== *)
(** * Audio formats as text

    [src/audio_parser.c] and the functions of [src/audio_format.c] that print
    an audio format. *)

From S2P Require Import Prelude Err CString Float AudioFormat Strtod ArgParser.
Local Open Scope Z_scope.

(** ** Printing *)

Definition sample_format_to_string (format : sample_format) : cstring :=
  match format with
  | SAMPLE_FORMAT_UNDEFINED => lit "?"
  | SAMPLE_FORMAT_S8 => lit "8"
  | SAMPLE_FORMAT_S16 => lit "16"
  | SAMPLE_FORMAT_S24_P32 => lit "24"
  | SAMPLE_FORMAT_S32 => lit "32"
  | SAMPLE_FORMAT_FLOAT => lit "f"
  | SAMPLE_FORMAT_DSD => lit "dsd"
  end.

(** The buffer has room for 23 characters and the terminator. *)
Definition audio_format_to_string (af : audio_format) : cstring :=
  take 23 (print_u (af_sample_rate af) ++ lit ":" ++ sample_format_to_string (af_format af) ++
           lit ":" ++ print_u (af_channels af)).

(** ** Parsing

    A function returns the code and, on success, what it stores through its
    pointers: the value and the rest of the string. *)

(** [memcmp(s, text, strlen(text)) == 0]: the bytes of the string end with
    its terminator. *)
Definition memcmp_eq (s text : cstring) : res bool :=
  if (S (length s) <? length text)%nat then Err OutOfBounds else Ok (has_prefix text s).

Definition is_star (mask : bool) (src : cstring) : bool :=
  mask && match src with c :: _ => bool_decide (c = "*"%char) | [] => false end.

Definition parse_sample_rate (src : cstring) (mask : bool) : mpd_err * (Z * cstring) :=
  if is_star mask src then (MPD_SUCCESS, (0, drop 1 src)) else
  let '(value, endptr) := strtoul src in
  if bool_decide (endptr = src) then (MPD_INVAL, (0, src))
  else if negb (audio_check_sample_rate value) then (MPD_INVAL, (0, src))
  else (MPD_SUCCESS, (u32 value, endptr)).

(** The numbers of bits. *)
Definition sample_format_of_bits (value : Z) : option sample_format :=
  if value =? 8 then Some SAMPLE_FORMAT_S8
  else if value =? 16 then Some SAMPLE_FORMAT_S16
  else if value =? 24 then Some SAMPLE_FORMAT_S24_P32
  else if value =? 32 then Some SAMPLE_FORMAT_S32
  else None.

Definition parse_sample_format (src : cstring) (mask : bool)
  : res (mpd_err * (sample_format * cstring)) :=
  if is_star mask src then Ok (MPD_SUCCESS, (SAMPLE_FORMAT_UNDEFINED, drop 1 src)) else
  if match src with c :: _ => bool_decide (c = "f"%char) | [] => false end
  then Ok (MPD_SUCCESS, (SAMPLE_FORMAT_FLOAT, drop 1 src)) else
  dsd ← memcmp_eq src (lit "dsd");
  if dsd : bool then Ok (MPD_SUCCESS, (SAMPLE_FORMAT_DSD, drop 3 src)) else
  let '(value, endptr) := strtoul src in
  if bool_decide (endptr = src) then Ok (MPD_INVAL, (SAMPLE_FORMAT_UNDEFINED, src)) else
  match sample_format_of_bits value with
  | None => Ok (MPD_INVAL, (SAMPLE_FORMAT_UNDEFINED, src))
  | Some sample_format =>
      endptr ← (if value =? 24 then
                  compat ← memcmp_eq endptr (lit "_3");
                  Ok (if compat : bool then drop 2 endptr else endptr)
                else Ok endptr);
      assert (audio_valid_sample_format sample_format);;
      Ok (MPD_SUCCESS, (sample_format, endptr))
  end.

Definition parse_channel_count (src : cstring) (mask : bool) : mpd_err * (Z * cstring) :=
  if is_star mask src then (MPD_SUCCESS, (0, drop 1 src)) else
  let '(value, endptr) := strtoul src in
  if bool_decide (endptr = src) then (MPD_INVAL, (0, src))
  else if negb (audio_check_channel_count value) then (MPD_INVAL, (0, src))
  else (MPD_SUCCESS, (u8 value, endptr)).

(** [*src++ != ':'], the negation; the string after it. *)
Definition parse_colon (src : cstring) : option cstring :=
  match src with c :: src => if decide (c = ":"%char) then Some src else None | [] => None end.

(** The code and the format in [dest]. *)
Definition audio_format_parse (src : cstring) (mask : bool) : res (mpd_err * audio_format) :=
  let dest := audio_format_clear in
  let '(ret, (rate, src)) := parse_sample_rate src mask in
  if bool_decide (ret <> MPD_SUCCESS) then Ok (ret, dest) else
  match parse_colon src with
  | None => Ok (MPD_MISS_VALUE, dest)
  | Some src =>
      '(ret, (sample_format, src)) ← parse_sample_format src mask;
      if bool_decide (ret <> MPD_SUCCESS) then Ok (ret, dest) else
      match parse_colon src with
      | None => Ok (MPD_MISS_VALUE, dest)
      | Some src =>
          let '(ret, (channels, src)) := parse_channel_count src mask in
          if bool_decide (ret <> MPD_SUCCESS) then Ok (ret, dest) else
          if negb (bool_decide (src = [])) then Ok (MPD_INVAL, dest) else
          let dest := audio_format_init rate sample_format channels in
          assert (if mask then audio_format_mask_valid dest else audio_format_valid dest);;
          Ok (MPD_SUCCESS, dest)
      end
  end.

(** ** Proofs *)

Lemma parse_sample_rate_valid src mask rate rest :
  parse_sample_rate src mask = (MPD_SUCCESS, (rate, rest)) ->
  audio_valid_sample_rate rate = true \/ mask = true /\ rate = 0.
Proof.
  unfold parse_sample_rate, is_star. destruct mask; simpl.
  - destruct (match src with c :: _ => _ | [] => _ end); [intros [= <- _]; by right|].
    destruct (strtoul src) as [v e]. case_bool_decide; [done|].
    destruct (audio_check_sample_rate v) eqn:E; simpl; [|done]. intros [= <- _]. by left.
  - destruct (strtoul src) as [v e]. case_bool_decide; [done|].
    destruct (audio_check_sample_rate v) eqn:E; simpl; [|done]. intros [= <- _]. by left.
Qed.

Lemma small_channels v : audio_check_channel_count v = true -> 0 <= v < 2 ^ 64 ->
  audio_valid_channel_count (u8 v) = true.
Proof.
  unfold audio_check_channel_count, audio_valid_channel_count, MAX_CHANNELS, u32, u8.
  intros [H1%Z.leb_le H2%Z.leb_le]%andb_prop Hv. apply andb_true_intro.
  assert (v `mod` 2 ^ 8 = v `mod` 2 ^ 32) as ->.
  { change (2 ^ 32) with (2 ^ 8 * 2 ^ 24) in *. rewrite Z.rem_mul_r in * by lia.
    pose proof (Z.mod_pos_bound v (2 ^ 8)). pose proof (Z.mod_pos_bound (v / 2 ^ 8) (2 ^ 24)). lia. }
  split; by apply Z.leb_le.
Qed.

Lemma strtoul_range s : 0 <= (strtoul s).1 < 2 ^ 64.
Proof.
  split; [apply strtoul_nonneg|]. unfold strtoul. destruct (strip_sign _) as [neg s2].
  destruct (span is_digit s2) as [[|c ds] rest]; [done|]. cbn [fst]. unfold ULONG_MAX.
  destruct (Z.ltb_spec (2 ^ 64 - 1) (decimal_value (c :: ds))); [lia|].
  destruct neg; [by apply Z.mod_pos_bound|lia].
Qed.

Lemma parse_channel_count_valid src mask channels rest :
  parse_channel_count src mask = (MPD_SUCCESS, (channels, rest)) ->
  audio_valid_channel_count channels = true \/ mask = true /\ channels = 0.
Proof.
  unfold parse_channel_count. destruct (is_star mask src) eqn:E.
  { intros [= <- _]. right. unfold is_star in E. by destruct mask. }
  pose proof (strtoul_range src) as Hv. destruct (strtoul src) as [v e]. case_bool_decide; [done|].
  destruct (audio_check_channel_count v) eqn:Ec; simpl; [|done]. intros [= <- _]. left. by apply small_channels.
Qed.

Lemma parse_sample_format_valid src mask f rest :
  parse_sample_format src mask = Ok (MPD_SUCCESS, (f, rest)) ->
  audio_valid_sample_format f = true \/ mask = true /\ f = SAMPLE_FORMAT_UNDEFINED.
Proof.
  unfold parse_sample_format. destruct (is_star mask src) eqn:E.
  { intros [= <- _]. right. unfold is_star in E. by destruct mask. }
  destruct (match src with c :: _ => _ | [] => _ end); [intros [= <- _]; by left|].
  destruct (memcmp_eq src (lit "dsd")) as [[|]|]; [intros [= <- _]; by left| |done]. cbn [mbind res_bind].
  destruct (strtoul src) as [v e]. case_bool_decide; [done|].
  destruct (sample_format_of_bits v) as [g|]; [|done].
  destruct (if v =? 24 then _ else _) as [e'|]; [|done]. cbn [mbind res_bind].
  destruct (audio_valid_sample_format g) eqn:Eg; [|done]. cbn. intros [= <- _]. by left.
Qed.

Lemma audio_format_init_valid rate f channels :
  (audio_valid_sample_rate rate = true \/ rate = 0) -> (audio_valid_channel_count channels = true \/ channels = 0) ->
  audio_format_init rate f channels = AudioFormat rate f channels.
Proof.
  unfold audio_valid_sample_rate, audio_valid_channel_count, MAX_CHANNELS, audio_format_init, u32, u8.
  rewrite !andb_true_iff, !Z.ltb_lt, !Z.leb_le. intros H1 H2. rewrite !Z.mod_small by lia. done.
Qed.

(** Whatever is accepted is valid. *)
Lemma audio_format_parse_valid src mask af :
  audio_format_parse src mask = Ok (MPD_SUCCESS, af) ->
  if mask then audio_format_mask_valid af = true else audio_format_valid af = true.
Proof.
  unfold audio_format_parse. destruct (parse_sample_rate src mask) as [ret [rate src1]].
  case_bool_decide; [by intros [= -> _]|]. destruct (parse_colon src1) as [src2|]; [|done].
  destruct (parse_sample_format src2 mask) as [[ret2 [f src3]]|]; [|done]. cbn [mbind res_bind].
  case_bool_decide; [by intros [= -> _]|]. destruct (parse_colon src3) as [src4|]; [|done].
  destruct (parse_channel_count src4 mask) as [ret3 [channels src5]].
  case_bool_decide; [by intros [= -> _]|]. destruct (negb _); [done|].
  destruct mask; [destruct (audio_format_mask_valid _) eqn:E|destruct (audio_format_valid _) eqn:E]; try done;
    by intros [= <-].
Qed.

(** The assertion at the end never fails; the only fault is a comparison
    beyond the end of a string that is too short. *)
Lemma audio_format_parse_asserts src mask f :
  audio_format_parse src mask = Err f -> f = OutOfBounds.
Proof.
  unfold audio_format_parse. destruct (parse_sample_rate src mask) as [ret [rate src1]] eqn:E1.
  case_bool_decide as H1; [done|]. destruct (parse_colon src1) as [src2|]; [|done].
  destruct (parse_sample_format src2 mask) as [[ret2 [fmt src3]]|] eqn:E2; cbn [mbind res_bind].
  2: { intros [= <-]. revert E2. unfold parse_sample_format. destruct (is_star mask src2); [done|].
       destruct (match src2 with c :: _ => _ | [] => _ end); [done|].
       unfold memcmp_eq. destruct (_ <? _)%nat; [by intros [= <-]|]. cbn [mbind res_bind].
       destruct (has_prefix _ _); [done|]. destruct (strtoul src2) as [v e]. case_bool_decide; [done|].
       destruct (sample_format_of_bits v) as [g|] eqn:Eg; [|done].
       assert (audio_valid_sample_format g = true) as ->.
       { unfold sample_format_of_bits in Eg. by repeat case_match; simplify_eq. }
       destruct (v =? 24); [|done]. destruct (_ <? _)%nat; [by intros [= <-]|done]. }
  case_bool_decide as H2; [done|]. destruct (parse_colon src3) as [src4|]; [|done].
  destruct (parse_channel_count src4 mask) as [ret3 [channels src5]] eqn:E3.
  case_bool_decide as H3; [done|]. destruct (negb _); [done|].
  subst.
  apply parse_sample_rate_valid in E1. apply parse_sample_format_valid in E2. apply parse_channel_count_valid in E3.
  assert ((if mask then audio_format_mask_valid (audio_format_init rate fmt channels)
           else audio_format_valid (audio_format_init rate fmt channels)) = true) as ->; [|done].
  rewrite audio_format_init_valid by naive_solver.
  unfold audio_format_mask_valid, audio_format_valid. cbn [af_sample_rate af_format af_channels].
  destruct mask.
  - destruct E1 as [-> |[_ ->]], E2 as [-> |[_ ->]], E3 as [-> |[_ ->]]; by rewrite ?orb_true_r.
  - destruct E1 as [-> |[? _]], E2 as [-> |[? _]], E3 as [-> |[? _]]; done.
Qed.

Lemma print_u_length n : 0 <= n < 10 ^ 10 -> (length (print_u n) <= 10)%nat.
Proof.
  intros Hn. unfold print_u.
  assert (forall k fuel m, 0 <= m < 10 ^ Z.of_nat (S k) -> (length (digits_of fuel m) <= S k)%nat) as H;
    [|by apply (H 9%nat)].
  induction k as [|k IH]; intros fuel m Hm; (destruct fuel as [|fuel]; [simpl; lia|]); cbn [digits_of];
    rewrite length_app; simpl length.
  - change (10 ^ Z.of_nat 1) with 10 in Hm. by rewrite (proj2 (Z.ltb_lt m 10)) by lia.
  - destruct (Z.ltb_spec m 10); [simpl; lia|].
    assert (0 <= m / 10 < 10 ^ Z.of_nat (S k)).
    { replace (Z.of_nat (S (S k))) with (Z.of_nat (S k) + 1) in Hm by lia. rewrite Z.pow_add_r in Hm by lia.
      split; [apply Z.div_pos; lia|apply Z.div_lt_upper_bound; lia]. }
    specialize (IH fuel (m / 10)). lia.
Qed.

Lemma no_star_digits mask n r : 0 <= n < 2 ^ 64 -> is_star mask (print_u n ++ r) = false.
Proof.
  intros Hn. destruct (print_u_spec n Hn) as (Hd & _ & Hne). destruct (print_u n) as [|c ds]; [done|].
  simpl in Hd. apply andb_prop in Hd as [Hc _]. unfold is_star. simpl.
  case_bool_decide as E; [by subst|]. apply andb_false_r.
Qed.

Lemma strtoul_other n r : 0 <= n < 2 ^ 64 -> print_u n ++ r <> r.
Proof.
  intros Hn E. destruct (print_u_spec n Hn) as (_ & _ & Hne). apply Hne.
  apply (f_equal length) in E. rewrite length_app in E. destruct (print_u n); [done|simpl in E; lia].
Qed.

Lemma parse_sample_format_print f mask r :
  audio_valid_sample_format f = true -> (match r with c :: _ => c = ":"%char | [] => False end) ->
  (2 <= length r)%nat ->
  parse_sample_format (sample_format_to_string f ++ r) mask = Ok (MPD_SUCCESS, (f, r)).
Proof.
  intros Hf Hr Hl. destruct r as [|c [|d r]]; simpl in Hl; try lia. subst c.
  unfold parse_sample_format. destruct f; try done; destruct mask; cbn; try done;
    (rewrite ?bool_decide_eq_false_2; [done|]);
    intros E; apply (f_equal length) in E; simpl in E; lia.
Qed.

Lemma audio_format_parse_print af mask :
  audio_format_valid af = true -> audio_format_parse (audio_format_to_string af) mask = Ok (MPD_SUCCESS, af).
Proof.
  destruct af as [rate f channels]. intros H. pose proof H as Hv.
  unfold audio_format_valid in H. apply andb_prop in H as [H Hc]. apply andb_prop in H as [Hr Hf].
  cbn [af_sample_rate af_format af_channels] in *.
  pose proof Hr as Hr2. unfold audio_valid_sample_rate in Hr2. apply andb_prop in Hr2 as [?%Z.ltb_lt ?%Z.ltb_lt].
  pose proof Hc as Hc2. unfold audio_valid_channel_count, MAX_CHANNELS in Hc2.
  apply andb_prop in Hc2 as [?%Z.leb_le ?%Z.leb_le].
  assert (exists c, print_u channels = [c]) as [c Ec].
  { assert (channels = 1 \/ channels = 2 \/ channels = 3 \/ channels = 4 \/ channels = 5 \/ channels = 6 \/
            channels = 7 \/ channels = 8) as E by lia. naive_solver. }
  assert (audio_format_to_string (AudioFormat rate f channels) =
    print_u rate ++ ":"%char :: sample_format_to_string f ++ ":"%char :: print_u channels ++ []) as ->.
  { unfold audio_format_to_string. cbn [af_sample_rate af_format af_channels]. rewrite app_nil_r.
    rewrite take_ge; [done|]. rewrite !length_app, Ec. pose proof (print_u_length rate ltac:(lia)).
    assert (length (sample_format_to_string f) <= 3)%nat by (destruct f; simpl; lia). simpl. lia. }
  unfold audio_format_parse, parse_sample_rate. rewrite no_star_digits by lia.
  rewrite strtoul_print by (lia || done). rewrite bool_decide_eq_false_2 by (intros E; symmetry in E;
    apply (strtoul_other rate _ ltac:(lia) E)).
  assert (audio_check_sample_rate rate = true) as ->.
  { unfold audio_check_sample_rate, u32. by rewrite Z.mod_small by lia. }
  assert (u32 rate = rate) as -> by (apply Z.mod_small; lia). cbn [negb]. rewrite bool_decide_eq_false_2 by tauto.
  cbn [parse_colon]. rewrite decide_True by done.
  rewrite parse_sample_format_print by (done || (rewrite Ec; simpl; lia)). cbn [mbind res_bind].
  rewrite bool_decide_eq_false_2 by tauto. cbn [parse_colon]. rewrite decide_True by done.
  unfold parse_channel_count. rewrite no_star_digits by lia.
  rewrite strtoul_print by (lia || done). rewrite bool_decide_eq_false_2 by (intros E; symmetry in E;
    apply (strtoul_other channels [] ltac:(lia) E)).
  assert (audio_check_channel_count channels = true) as ->.
  { unfold audio_check_channel_count, u32. by rewrite Z.mod_small by lia. }
  assert (u8 channels = channels) as -> by (apply Z.mod_small; lia).
  cbn [negb]. rewrite bool_decide_eq_false_2 by tauto.
  rewrite bool_decide_eq_true_2 by done. cbn [negb].
  rewrite audio_format_init_valid by auto. rewrite Hv.
  assert (audio_format_mask_valid (AudioFormat rate f channels) = true) as ->.
  { unfold audio_format_mask_valid. cbn [af_sample_rate af_format af_channels]. by rewrite Hr, Hf, Hc, !orb_true_r. }
  by destruct mask.
Qed.
