(* ===== verification/Handlers.v ===== *)
(** * Command handlers

    The handlers of [src/command.c] that concern the playlist, the player and
    other clients, with the printing functions of [src/playqueue_print.c] and
    [src/playlist_print.c] and [addAllIn()] of [src/dbUtils.c], and
    [command_process()]. *)

From S2P Require Import Prelude Err GLib Song CString Uri Float AudioFormat EventPipe PlayQueue.
From S2P Require Import PlayerControl Playlist Tokenizer Strtod ArgParser AudioParser ClientWrite ClientRead.
From S2P Require Import Client Permission Server Command.
Local Open Scope Z_scope.

(** What handlers ask of the rest of the program and of the system: the
    database, the file system, the mixer, the text of a song, and the
    handlers that are not modelled. *)
Class Env {G : GLib} {T : PlayerThread} {L : Limits} := {
  env_geteuid : Z;
  env_stat : cstring -> option (Z * Z);
  env_strerror : cstring;
  (* the table of URI prefixes the program was built with *)
  env_remoteUrlPrefixes : list cstring;
  (* [song_file_load()] *)
  env_song_file_load : cstring -> option song;
  (* [db_get_song()], and the address of a song that is allocated *)
  env_db_get_song : string -> option song;
  env_song_ptr : Z;
  (* the songs [db_walk()] visits below a URI, and its result *)
  env_db_walk : cstring -> list song * mpd_err;
  (* [volume_level_change()] succeeds; [volume_level_get()]; [isUpdatingDB()] *)
  env_volume_level_change : Z -> bool;
  env_volume_level_get : Z;
  env_isUpdatingDB : Z;
  env_sticker_enabled : bool;
  (* [song_print_info()] and [song_print_uri()] *)
  env_song_info : song -> cstring;
  env_song_uri : song -> cstring;
  (* the order in which [g_hash_table_foreach()] visits keys *)
  env_hash_order : list cstring -> list cstring;
  (* all other handlers *)
  env_other : handler -> nat -> list cstring -> M command_return;
}.

Section with_env.
Context {G : GLib} {T : PlayerThread} {L : Limits} {E : Env}.

Let answer (i : nat) (r : mpd_err) : M command_return := print_error2 env_strerror i r.

(** [argc == n]. *)
Definition argc_is (argv : list cstring) (n : nat) : bool := (length argv =? n)%nat.

(** ** Playback *)

Definition handle_play (i : nat) (argv : list cstring) : M command_return :=
  let play (song : Z) : M command_return := on_world (playlist_play song) ≫= answer i in
  if argc_is argv 2 then s ← arg 1 argv; with_arg i check_int s play else play (-1).

Definition handle_playid (i : nat) (argv : list cstring) : M command_return :=
  let play (id : Z) : M command_return := on_world (playlist_play_id id) ≫= answer i in
  if argc_is argv 2 then s ← arg 1 argv; with_arg i check_int s play else play (-1).

Definition handle_stop (i : nat) (argv : list cstring) : M command_return :=
  update_world playlist_stop;; mret COMMAND_RETURN_OK.

Definition handle_pause (i : nat) (argv : list cstring) : M command_return :=
  if argc_is argv 2 then
    s ← arg 1 argv;
    with_arg i check_bool s (fun pause_flag =>
      update_player (pc_set_pause pause_flag);; mret COMMAND_RETURN_OK)
  else update_player pc_pause;; mret COMMAND_RETURN_OK.

(** [queue.single] is off while [playlist_next()] runs. *)
Definition set_single (b : bool) (w : world) : world :=
  let q := w_queue w in
  set_queue (set_modes (q_repeat q) b (q_consume q) (q_random q) q) w.

Definition handle_next (i : nat) (argv : list cstring) : M command_return :=
  single ← gets (fun sv => q_single (w_queue (sv_world sv)));
  update_world (fun w => w ← playlist_next (set_single false w); Ok (set_single single w));;
  mret COMMAND_RETURN_OK.

Definition handle_previous (i : nat) (argv : list cstring) : M command_return :=
  update_world playlist_previous;; mret COMMAND_RETURN_OK.

(** The [unsigned] time is converted to [float]. *)
Definition handle_seek (i : nat) (argv : list cstring) : M command_return :=
  s1 ← arg 1 argv;
  s2 ← arg 2 argv;
  with_arg i check_unsigned s1 (fun song =>
    with_arg i check_unsigned s2 (fun seek_time =>
      on_world (playlist_seek_song song (f32_of_Z seek_time)) ≫= answer i)).

Definition handle_seekid (i : nat) (argv : list cstring) : M command_return :=
  s1 ← arg 1 argv;
  s2 ← arg 2 argv;
  with_arg i check_unsigned s1 (fun id =>
    with_arg i check_unsigned s2 (fun seek_time =>
      on_world (playlist_seek_song_id id (f32_of_Z seek_time)) ≫= answer i)).

Definition handle_seekcur (i : nat) (argv : list cstring) : M command_return :=
  p ← arg 1 argv;
  let relative := bool_decide (head p = Some "+"%char) || bool_decide (head p = Some "-"%char) in
  with_arg i check_int p (fun seek_time =>
    on_world (playlist_seek_current (f32_of_Z seek_time) relative) ≫= answer i).

Definition handle_clearerror (i : nat) (argv : list cstring) : M command_return :=
  update_player (fun p => Ok (pc_clear_error p));; mret COMMAND_RETURN_OK.

(** ** Options *)

Definition with_bool (i : nat) (argv : list cstring) (f : bool -> world -> res world)
  : M command_return :=
  s ← arg 1 argv;
  with_arg i check_bool s (fun status => update_world (f status);; mret COMMAND_RETURN_OK).

Definition handle_repeat (i : nat) (argv : list cstring) : M command_return :=
  with_bool i argv playlist_set_repeat.
Definition handle_single (i : nat) (argv : list cstring) : M command_return :=
  with_bool i argv playlist_set_single.
Definition handle_consume (i : nat) (argv : list cstring) : M command_return :=
  with_bool i argv (fun b w => Ok (playlist_set_consume b w)).
Definition handle_random (i : nat) (argv : list cstring) : M command_return :=
  with_bool i argv playlist_set_random.

Definition handle_crossfade (i : nat) (argv : list cstring) : M command_return :=
  s ← arg 1 argv;
  with_arg i check_unsigned s (fun xfade_time =>
    update_player (fun p => Ok (pc_set_cross_fade (f32_of_Z xfade_time) p));;
    mret COMMAND_RETURN_OK).

Definition handle_mixrampdb (i : nat) (argv : list cstring) : M command_return :=
  s ← arg 1 argv;
  with_arg i check_float s (fun db =>
    update_player (fun p => Ok (pc_set_mixramp_db db p));; mret COMMAND_RETURN_OK).

Definition handle_mixrampdelay (i : nat) (argv : list cstring) : M command_return :=
  s ← arg 1 argv;
  with_arg i check_float s (fun delay =>
    update_player (fun p => Ok (pc_set_mixramp_delay delay p));; mret COMMAND_RETURN_OK).

Definition handle_setvol (i : nat) (argv : list cstring) : M command_return :=
  s ← arg 1 argv;
  with_arg i check_unsigned s (fun level =>
    if 100 <? level then reject i (CmdError ACK_ERROR_ARG (lit "Invalid volume value"))
    else if negb (env_volume_level_change level)
    then reject i (CmdError ACK_ERROR_SYSTEM (lit "problems setting volume"))
    else mret COMMAND_RETURN_OK).

(** ** Editing the queue *)

(** [addAllIn()]: append every song that is visited; the first error ends
    it. *)
Fixpoint append_songs (songs : list song) (result : mpd_err) (w : world) : res (mpd_err * world) :=
  match songs with
  | [] => Ok (result, w)
  | s :: songs' =>
      '(r, _, w) ← playlist_append_song s w;
      if decide (r = MPD_SUCCESS) then append_songs songs' result w else Ok (r, w)
  end.
Definition addAllIn (uri : cstring) (w : world) : res (mpd_err * world) :=
  let '(songs, result) := env_db_walk uri in append_songs songs result w.

Definition uri_supported_scheme (uri : cstring) : res bool :=
  assert (uri_has_scheme uri);;
  Ok (existsb (fun prefix => has_prefix prefix uri) env_remoteUrlPrefixes).

Definition to_string (s : cstring) : string := String.string_of_list_ascii s.

(** The identifier of the new song, and the result. *)
Definition append_file (path : cstring) (w : world) : res ((mpd_err * option Z) * world) :=
  '(r, id, w) ← playlist_append_file (env_song_file_load path) w; Ok ((r, id), w).
Definition append_uri (uri : cstring) (w : world) : res ((mpd_err * option Z) * world) :=
  '(r, id, w) ← playlist_append_uri env_db_get_song env_song_ptr (to_string uri) w; Ok ((r, id), w).

Definition unsupported_scheme : cmd_error :=
  CmdError ACK_ERROR_NO_EXIST (lit "unsupported URI scheme").

(** [!(result = client_allow_file(...))]: the handler answers when access is
    granted, and goes on when it is not. *)
Definition handle_add (i : nat) (argv : list cstring) : M command_return :=
  uri ← arg 1 argv;
  if has_prefix (lit "file:///") uri then
    let path := drop 7 uri in
    c ← get_client i;
    let result := client_allow_file env_geteuid env_stat c path in
    if decide (result = MPD_SUCCESS) then answer i result else
    '(result, _) ← on_world (append_file path);
    answer i result
  else if uri_has_scheme uri then
    supported ← lift (uri_supported_scheme uri);
    if negb supported then reject i unsupported_scheme else
    '(result, _) ← on_world (append_uri uri);
    answer i result
  else on_world (addAllIn uri) ≫= answer i.

(** The end of [handle_addid()], when song [added_id] has been added. *)
Definition addid_move (i : nat) (argv : list cstring) (added_id : Z) : M command_return :=
  let done : M command_return :=
    print i (lit "Id: " ++ print_u added_id ++ nl);; mret COMMAND_RETURN_OK in
  if argc_is argv 3 then
    s ← arg 2 argv;
    with_arg i check_unsigned s (fun to =>
      result ← on_world (playlist_move_id added_id (i32 to));
      if decide (result = MPD_SUCCESS) then done else
      ret ← answer i result;
      _ ← on_world (playlist_delete_id added_id);
      mret ret)
  else done.

Definition handle_addid (i : nat) (argv : list cstring) : M command_return :=
  uri ← arg 1 argv;
  let finish (r : mpd_err * option Z) : M command_return :=
    match r with
    | (MPD_SUCCESS, Some added_id) => addid_move i argv added_id
    | (MPD_SUCCESS, None) => lift (Err Uninitialized)
    | (result, _) => answer i result
    end in
  if has_prefix (lit "file:///") uri then
    let path := drop 7 uri in
    c ← get_client i;
    let result := client_allow_file env_geteuid env_stat c path in
    if decide (result = MPD_SUCCESS) then answer i result else
    on_world (append_file path) ≫= finish
  else
    supported ← (if uri_has_scheme uri then lift (uri_supported_scheme uri) else mret true);
    if negb supported then reject i unsupported_scheme else
    on_world (append_uri uri) ≫= finish.

Definition handle_delete (i : nat) (argv : list cstring) : M command_return :=
  s ← arg 1 argv;
  with_arg i check_range s (fun '(start, end_) =>
    on_world (playlist_delete_range start end_) ≫= answer i).

Definition handle_deleteid (i : nat) (argv : list cstring) : M command_return :=
  s ← arg 1 argv;
  with_arg i check_unsigned s (fun id => on_world (playlist_delete_id id) ≫= answer i).

Definition handle_shuffle (i : nat) (argv : list cstring) : M command_return :=
  len ← gets (fun sv => q_length (w_queue (sv_world sv)));
  let shuffle (r : Z * Z) : M command_return :=
    update_world (playlist_shuffle r.1 r.2);; mret COMMAND_RETURN_OK in
  if argc_is argv 2 then s ← arg 1 argv; with_arg i check_range s shuffle else shuffle (0, len).

Definition handle_clear (i : nat) (argv : list cstring) : M command_return :=
  update_world playlist_clear;; mret COMMAND_RETURN_OK.

Definition handle_move (i : nat) (argv : list cstring) : M command_return :=
  s1 ← arg 1 argv;
  s2 ← arg 2 argv;
  with_arg i check_range s1 (fun '(start, end_) =>
    with_arg i check_int s2 (fun to => on_world (playlist_move_range start end_ to) ≫= answer i)).

Definition handle_moveid (i : nat) (argv : list cstring) : M command_return :=
  s1 ← arg 1 argv;
  s2 ← arg 2 argv;
  with_arg i check_unsigned s1 (fun id =>
    with_arg i check_int s2 (fun to => on_world (playlist_move_id id to) ≫= answer i)).

Definition handle_swap (i : nat) (argv : list cstring) : M command_return :=
  s1 ← arg 1 argv;
  s2 ← arg 2 argv;
  with_arg i check_unsigned s1 (fun song1 =>
    with_arg i check_unsigned s2 (fun song2 =>
      on_world (playlist_swap_songs song1 song2) ≫= answer i)).

Definition handle_swapid (i : nat) (argv : list cstring) : M command_return :=
  s1 ← arg 1 argv;
  s2 ← arg 2 argv;
  with_arg i check_unsigned s1 (fun id1 =>
    with_arg i check_unsigned s2 (fun id2 =>
      on_world (playlist_swap_songs_id id1 id2) ≫= answer i)).

(** The loops of [handle_prio()] and [handle_prioid()] over the arguments
    behind the priority. *)
Fixpoint prio_loop (i : nat) (priority : Z) (args : list cstring) : M command_return :=
  match args with
  | [] => mret COMMAND_RETURN_OK
  | s :: args' =>
      with_arg i check_range s (fun '(start, end_) =>
        result ← on_world (playlist_set_priority start end_ priority);
        if decide (result = MPD_SUCCESS) then prio_loop i priority args' else answer i result)
  end.

Fixpoint prioid_loop (i : nat) (priority : Z) (args : list cstring) : M command_return :=
  match args with
  | [] => mret COMMAND_RETURN_OK
  | s :: args' =>
      with_arg i check_unsigned s (fun id =>
        result ← on_world (playlist_set_priority_id id priority);
        if decide (result = MPD_SUCCESS) then prioid_loop i priority args' else answer i result)
  end.

Definition with_priority (i : nat) (argv : list cstring) (k : Z -> M command_return)
  : M command_return :=
  s ← arg 1 argv;
  with_arg i check_unsigned s (fun priority =>
    if 255 <? priority
    then reject i (CmdError ACK_ERROR_ARG (lit "Priority out of range: " ++ s))
    else k priority).

Definition handle_prio (i : nat) (argv : list cstring) : M command_return :=
  with_priority i argv (fun priority => prio_loop i priority (drop 2 argv)).
Definition handle_prioid (i : nat) (argv : list cstring) : M command_return :=
  with_priority i argv (fun priority => prioid_loop i priority (drop 2 argv)).

(** ** Printing the queue *)

Definition world_queue : M queue := gets (fun sv => w_queue (sv_world sv)).

(** [for (i = start; i < end; ++i)] with a body that prints. *)
Fixpoint print_up (n : nat) (p : Z) (body : Z -> M unit) : M unit :=
  match n with
  | O => mret tt
  | S n' => body p;; print_up n' (p + 1) body
  end.
Definition print_range (start end_ : Z) (body : Z -> M unit) : M unit :=
  print_up (Z.to_nat (end_ - start)) start body.

Definition queue_print_song_info (i : nat) (q : queue) (position : Z) : M unit :=
  s ← lift (queue_get q position);
  print i (env_song_info s);;
  id ← lift (queue_position_to_id q position);
  print i (lit "Pos: " ++ print_u position ++ nl ++ lit "Id: " ++ print_u id ++ nl);;
  priority ← lift (queue_get_priority_at_position q position);
  if negb (priority =? 0) then print i (lit "Prio: " ++ print_u priority ++ nl) else mret tt.

Definition queue_print_info (i : nat) (q : queue) (start end_ : Z) : M unit :=
  len ← lift (queue_length q);
  lift (assert (start <=? end_));;
  lift (assert (end_ <=? len));;
  print_range start end_ (queue_print_song_info i q).

Definition queue_print_uris (i : nat) (q : queue) (start end_ : Z) : M unit :=
  len ← lift (queue_length q);
  lift (assert (start <=? end_));;
  lift (assert (end_ <=? len));;
  print_range start end_ (fun p =>
    print i (print_i p ++ lit ":");;
    s ← lift (queue_get q p);
    print i (env_song_uri s)).

Definition queue_print_changes_info (i : nat) (q : queue) (version : Z) : M unit :=
  len ← lift (queue_length q);
  print_range 0 len (fun p =>
    newer ← lift (queue_song_newer q p version);
    if newer : bool then queue_print_song_info i q p else mret tt).

Definition queue_print_changes_position (i : nat) (q : queue) (version : Z) : M unit :=
  len ← lift (queue_length q);
  print_range 0 len (fun p =>
    newer ← lift (queue_song_newer q p version);
    if newer : bool then
      id ← lift (queue_position_to_id q p);
      print i (lit "cpos: " ++ print_i p ++ nl ++ lit "Id: " ++ print_i id ++ nl)
    else mret tt).

Definition playlist_print_info (i : nat) (start end_ : Z) : M bool :=
  q ← world_queue;
  len ← lift (queue_length q);
  let end_ := if len <? end_ then len else end_ in
  if end_ <? start then mret false
  else queue_print_info i q start end_;; mret true.

Definition playlist_print_id (i : nat) (id : Z) : M bool :=
  q ← world_queue;
  position ← lift (queue_id_to_position q id);
  if position <? 0 then mret false
  else playlist_print_info i (u32 position) (u32 (position + 1)).

Definition playlist_print_current (i : nat) : M bool :=
  w ← gets sv_world;
  current_position ← lift (playlist_get_current_song w);
  if current_position <? 0 then mret false
  else queue_print_info i (w_queue w) current_position (current_position + 1);; mret true.

Definition handle_currentsong (i : nat) (argv : list cstring) : M command_return :=
  _ ← playlist_print_current i; mret COMMAND_RETURN_OK.

Definition handle_playlist (i : nat) (argv : list cstring) : M command_return :=
  q ← world_queue;
  len ← lift (queue_length q);
  queue_print_uris i q 0 len;; mret COMMAND_RETURN_OK.

Definition handle_plchanges (i : nat) (argv : list cstring) : M command_return :=
  s ← arg 1 argv;
  with_arg i check_uint32 s (fun version =>
    q ← world_queue;
    queue_print_changes_info i q version;; mret COMMAND_RETURN_OK).

Definition handle_plchangesposid (i : nat) (argv : list cstring) : M command_return :=
  s ← arg 1 argv;
  with_arg i check_uint32 s (fun version =>
    q ← world_queue;
    queue_print_changes_position i q version;; mret COMMAND_RETURN_OK).

Definition handle_playlistinfo (i : nat) (argv : list cstring) : M command_return :=
  let info (r : Z * Z) : M command_return :=
    ok ← playlist_print_info i r.1 r.2;
    if ok : bool then mret COMMAND_RETURN_OK else answer i PLAYLIST_BAD_RANGE in
  if argc_is argv 2 then s ← arg 1 argv; with_arg i check_range s info else info (0, G_MAXUINT).

Definition handle_playlistid (i : nat) (argv : list cstring) : M command_return :=
  if (2 <=? length argv)%nat then
    s ← arg 1 argv;
    with_arg i check_unsigned s (fun id =>
      ok ← playlist_print_id i id;
      if ok : bool then mret COMMAND_RETURN_OK else answer i PLAYLIST_NO_SUCH_SONG)
  else
    _ ← playlist_print_info i 0 G_MAXUINT;
    mret COMMAND_RETURN_OK.

(** ** [handle_status()] *)

(** A line [name: text]. *)
Definition field (name : string) (text : cstring) : cstring := lit name ++ lit ": " ++ text ++ nl.
Definition print_bool (b : bool) : cstring := print_i (if b then 1 else 0).

(** [(int)(x + 0.5)], in [double]; undefined if it does not fit. *)
Definition round_to_int (x : float) : res Z :=
  match f_to_int (f64_add (f64_of_f32 x) (f64_div (f64_of_Z 1) (f64_of_Z 2))) with
  | Some n => Ok n
  | None => Err BadConversion
  end.

Definition state_name (s : player_state) : cstring :=
  match s with
  | PLAYER_STATE_STOP => lit "stop"
  | PLAYER_STATE_PAUSE => lit "pause"
  | PLAYER_STATE_PLAY => lit "play"
  end.

(** ["%u:%s:%u"], see [audio_format_to_string()]. *)
(** The position of a song and its identifier. *)
Definition print_song (i : nat) (name name_id : string) (song : Z) : M unit :=
  if 0 <=? song then
    q ← world_queue;
    id ← lift (queue_position_to_id q song);
    print i (field name (print_i song) ++ field name_id (print_u id))
  else mret tt.

Definition print_status_options (i : nat) (st : player_status) : M unit :=
  w ← gets sv_world;
  let q := w_queue w in
  let p := w_player w in
  len ← lift (queue_length q);
  xfade ← lift (round_to_int (pc_get_cross_fade p));
  print i (field "volume" (print_i env_volume_level_get) ++
           field "repeat" (print_bool (q_repeat q)) ++
           field "random" (print_bool (q_random q)) ++
           field "single" (print_bool (q_single q)) ++
           field "consume" (print_bool (q_consume q)) ++
           field "playlist" (print_i (q_version q)) ++
           field "playlistlength" (print_i len) ++
           field "xfade" (print_i xfade) ++
           field "mixrampdb" (print_f 6 (f64_of_f32 (pc_get_mixramp_db p))) ++
           field "mixrampdelay" (print_f 6 (f64_of_f32 (pc_get_mixramp_delay p))) ++
           field "state" (state_name (status_state st))).

Definition print_status_time (i : nat) (st : player_status) : M unit :=
  match status_info st with
  | None => mret tt
  | Some (bit_rate, format, total, elapsed) =>
      e ← lift (round_to_int elapsed);
      t ← lift (round_to_int total);
      print i (field "time" (print_i e ++ lit ":" ++ print_i t) ++
               field "elapsed" (print_f 3 (f64_of_f32 elapsed)) ++
               field "bitrate" (print_u bit_rate));;
      if audio_format_defined format
      then print i (field "audio" (audio_format_to_string format)) else mret tt
  end.

Definition handle_status (i : nat) (argv : list cstring) : M command_return :=
  st ← on_world (fun w => '(st, p) ← pc_get_status (w_player w); Ok (st, set_player p w));
  print_status_options i st;;
  w ← gets sv_world;
  song ← lift (playlist_get_current_song w);
  print_song i "song" "songid" song;;
  print_status_time i st;;
  (if negb (env_isUpdatingDB =? 0)
   then print i (field "updating_db" (print_i env_isUpdatingDB)) else mret tt);;
  error ← lift (pc_get_error_message (w_player w));
  (match error with Some e => print i (field "error" (lit e)) | None => mret tt end);;
  next ← lift (playlist_get_next_song w);
  print_song i "nextsong" "nextsongid" next;;
  mret COMMAND_RETURN_OK.

(** ** Clients *)

Definition handle_kill (i : nat) (argv : list cstring) : M command_return := mret COMMAND_RETURN_KILL.
Definition handle_close (i : nat) (argv : list cstring) : M command_return := mret COMMAND_RETURN_CLOSE.
Definition handle_ping (i : nat) (argv : list cstring) : M command_return := mret COMMAND_RETURN_OK.

Definition handle_password (i : nat) (argv : list cstring) : M command_return :=
  s ← arg 1 argv;
  ps ← gets sv_permissions;
  match getPermissionFromPassword s ps with
  | None => reject i (CmdError ACK_ERROR_PASSWORD (lit "incorrect password"))
  | Some permission =>
      on_client i (fun c => Ok (tt, client_set_permission permission c));;
      mret COMMAND_RETURN_OK
  end.

(** The bits of the names that are among the arguments. *)
Definition idle_mask (args : list cstring) : Z :=
  foldl (fun flags s =>
    foldl Z.lor flags (imap (fun j name =>
      if g_ascii_strcasecmp_eq s name then Z.shiftl 1 (Z.of_nat j) else 0) idle_names)) 0 args.

Definition handle_idle (i : nat) (argv : list cstring) : M command_return :=
  let flags := idle_mask (drop 1 argv) in
  let flags := if flags =? 0 then G_MAXUINT else flags in
  _ ← on_client i (client_idle_wait client_max_output_buffer_size flags);
  mret COMMAND_RETURN_IDLE.

(** An operation on the client and the event flags. *)
Definition on_client_notify {A} (i : nat) (f : client -> notify -> res (A * client * notify)) : M A :=
  fun sv =>
  match sv_clients sv !! i with
  | None => Err OutOfBounds
  | Some c =>
      let w := sv_world sv in
      let p := w_player w in
      '(a, c, n) ← f c (p_notify p);
      Ok (a, sv_set_clients (<[i := c]> (sv_clients sv))
               (sv_set_world (set_player (Player _ (p_control p) (p_thread p) n) w) sv))
  end.

Definition handle_subscribe (i : nat) (argv : list cstring) : M command_return :=
  lift (assert (argc_is argv 2));;
  s ← arg 1 argv;
  r ← on_client_notify i (fun c n => Ok (client_subscribe s c n));
  match r with
  | CLIENT_SUBSCRIBE_OK => mret COMMAND_RETURN_OK
  | CLIENT_SUBSCRIBE_INVALID => reject i (CmdError ACK_ERROR_ARG (lit "invalid channel name"))
  | CLIENT_SUBSCRIBE_ALREADY =>
      reject i (CmdError ACK_ERROR_EXIST (lit "already subscribed to this channel"))
  | CLIENT_SUBSCRIBE_FULL => reject i (CmdError ACK_ERROR_EXIST (lit "subscription list is full"))
  end.

Definition handle_unsubscribe (i : nat) (argv : list cstring) : M command_return :=
  lift (assert (argc_is argv 2));;
  s ← arg 1 argv;
  r ← on_client_notify i (client_unsubscribe s);
  if r : bool then mret COMMAND_RETURN_OK
  else reject i (CmdError ACK_ERROR_NO_EXIST (lit "not subscribed to this channel")).

Fixpoint print_all (i : nat) (ls : list cstring) : M unit :=
  match ls with
  | [] => mret tt
  | l :: ls' => print i l;; print_all i ls'
  end.

(** The table holds every channel once. *)
Definition collect_channels (l : list client) : list cstring :=
  remove_dups (concat (map cl_subscriptions l)).

Definition handle_channels (i : nat) (argv : list cstring) : M command_return :=
  lift (assert (argc_is argv 1));;
  l ← gets sv_clients;
  print_all i (map (fun ch => lit "channel: " ++ ch ++ nl) (env_hash_order (collect_channels l)));;
  mret COMMAND_RETURN_OK.

Definition handle_read_messages (i : nat) (argv : list cstring) : M command_return :=
  lift (assert (argc_is argv 1));;
  messages ← on_client i (fun c => Ok (client_read_messages c));
  print_all i (map (fun m => lit "channel: " ++ msg_channel m ++ nl ++
                             lit "message: " ++ msg_message m ++ nl) messages);;
  mret COMMAND_RETURN_OK.

(** [client_list_foreach(send_message, ...)]. *)
Fixpoint send_message (msg : client_message) (l : list client) : res (bool * list client) :=
  match l with
  | [] => Ok (false, [])
  | c :: l' =>
      '(pushed, c) ← client_push_message client_max_output_buffer_size msg c;
      '(sent, l') ← send_message msg l';
      Ok (pushed || sent, c :: l')
  end.

Definition handle_send_message (i : nat) (argv : list cstring) : M command_return :=
  lift (assert (argc_is argv 3));;
  channel ← arg 1 argv;
  message ← arg 2 argv;
  if negb (client_message_valid_channel_name channel)
  then reject i (CmdError ACK_ERROR_ARG (lit "invalid channel name"))
  else
    l ← gets sv_clients;
    '(sent, l) ← lift (send_message (ClientMessage channel message) l);
    modify (sv_set_clients l);;
    if sent : bool then mret COMMAND_RETURN_OK
    else reject i (CmdError ACK_ERROR_NO_EXIST (lit "nobody is subscribed to this channel")).

Definition command_available (c : command) : bool :=
  if decide (cmd_cmd c = lit "sticker") then env_sticker_enabled else true.

Definition command_line (c : command) : cstring := lit "command: " ++ cmd_cmd c ++ nl.

Definition handle_commands (i : nat) (argv : list cstring) : M command_return :=
  c ← get_client i;
  print_all i (map command_line (List.filter (fun cmd =>
    command_permitted cmd (client_get_permission c) && command_available cmd) commands));;
  mret COMMAND_RETURN_OK.

Definition handle_not_commands (i : nat) (argv : list cstring) : M command_return :=
  c ← get_client i;
  print_all i (map command_line (List.filter (fun cmd =>
    negb (command_permitted cmd (client_get_permission c))) commands));;
  mret COMMAND_RETURN_OK.

Definition handle_urlhandlers (i : nat) (argv : list cstring) : M command_return :=
  c ← get_client i;
  (if client_is_local c then print i (lit "handler: file://" ++ nl) else mret tt);;
  print_all i (map (fun prefix => lit "handler: " ++ prefix ++ nl) env_remoteUrlPrefixes);;
  mret COMMAND_RETURN_OK.

(** ** Dispatch *)

Definition run_handler (h : handler) (i : nat) (argv : list cstring) : M command_return :=
  match h with
  | H_add => handle_add i argv
  | H_addid => handle_addid i argv
  | H_channels => handle_channels i argv
  | H_clear => handle_clear i argv
  | H_clearerror => handle_clearerror i argv
  | H_close => handle_close i argv
  | H_commands => handle_commands i argv
  | H_consume => handle_consume i argv
  | H_crossfade => handle_crossfade i argv
  | H_currentsong => handle_currentsong i argv
  | H_delete => handle_delete i argv
  | H_deleteid => handle_deleteid i argv
  | H_idle => handle_idle i argv
  | H_kill => handle_kill i argv
  | H_mixrampdb => handle_mixrampdb i argv
  | H_mixrampdelay => handle_mixrampdelay i argv
  | H_move => handle_move i argv
  | H_moveid => handle_moveid i argv
  | H_next => handle_next i argv
  | H_not_commands => handle_not_commands i argv
  | H_password => handle_password i argv
  | H_pause => handle_pause i argv
  | H_ping => handle_ping i argv
  | H_play => handle_play i argv
  | H_playid => handle_playid i argv
  | H_playlist => handle_playlist i argv
  | H_playlistid => handle_playlistid i argv
  | H_playlistinfo => handle_playlistinfo i argv
  | H_plchanges => handle_plchanges i argv
  | H_plchangesposid => handle_plchangesposid i argv
  | H_previous => handle_previous i argv
  | H_prio => handle_prio i argv
  | H_prioid => handle_prioid i argv
  | H_random => handle_random i argv
  | H_read_messages => handle_read_messages i argv
  | H_repeat => handle_repeat i argv
  | H_seek => handle_seek i argv
  | H_seekcur => handle_seekcur i argv
  | H_seekid => handle_seekid i argv
  | H_send_message => handle_send_message i argv
  | H_setvol => handle_setvol i argv
  | H_shuffle => handle_shuffle i argv
  | H_single => handle_single i argv
  | H_status => handle_status i argv
  | H_stop => handle_stop i argv
  | H_subscribe => handle_subscribe i argv
  | H_swap => handle_swap i argv
  | H_swapid => handle_swapid i argv
  | H_unsubscribe => handle_unsubscribe i argv
  | H_urlhandlers => handle_urlhandlers i argv
  | h => env_other h i argv
  end.

(** [2 + TAG_NUM_OF_ITEM_TYPES * 2]. *)
Definition COMMAND_ARGV_MAX : nat := 38.

(** The loop over the arguments: [argv] so far, the pointer that ended the
    loop, and the rest of the line. *)
Fixpoint read_params (room : nat) (argv : list cstring) (line : cstring)
  : list cstring * token * cstring :=
  match room with
  | O => (argv, TNull, line)
  | S room' =>
      match tokenizer_next_param line with
      | (TWord w, line) => read_params room' (argv ++ [w]) line
      | (t, line) => (argv, t, line)
      end
  end.

(** [PTR_ERR()], as the code that [print_error2()] receives. *)
Definition token_error (t : token) : mpd_err :=
  match t with TError e => e | _ => MPD_SUCCESS end.

(** [Some cmd], or an error has been sent. *)
Definition command_checked_lookup (i : nat) (permission : Z) (argv : list cstring)
  : M (option command) :=
  modify (sv_set_current (Some []));;
  match argv with
  | [] => mret None
  | name :: _ =>
      cmd ← lift (command_lookup name);
      match cmd with
      | None =>
          command_error i (CmdError ACK_ERROR_UNKNOWN
            (lit "unknown command " ++ [dquote] ++ name ++ [dquote]));;
          mret None
      | Some cmd =>
          modify (sv_set_current (Some (cmd_cmd cmd)));;
          match command_check_request cmd permission name (Z.of_nat (length argv)) with
          | Some e => command_error i e;; mret None
          | None => mret (Some cmd)
          end
      end
  end.

(** The part of [command_process()] behind the tokenizer. *)
Definition command_execute (i : nat) (argv : list cstring) : M command_return :=
  c ← get_client i;
  cmd ← command_checked_lookup i (client_get_permission c) argv;
  ret ← (match cmd with
         | Some cmd => run_handler (cmd_handler cmd) i argv
         | None => mret COMMAND_RETURN_ERROR
         end);
  modify (fun sv => sv_set_list_num 0 (sv_set_current None sv));;
  mret ret.

Definition command_process (i : nat) (num : Z) (line : cstring) : M command_return :=
  modify (sv_set_list_num num);;
  match tokenizer_next_word line with
  | (TWord name, line) =>
      let '(argv, last, line) := read_params (COMMAND_ARGV_MAX - 1) [name] line in
      modify (sv_set_current (Some name));;
      if (COMMAND_ARGV_MAX <=? length argv)%nat then
        command_error i (CmdError ACK_ERROR_ARG (lit "Too many arguments"));;
        modify (sv_set_current None);;
        mret COMMAND_RETURN_ERROR
      else if negb (bool_decide (line = [])) then
        modify (sv_set_current None);;
        answer i (token_error last)
      else command_execute i argv
  | (t, line) =>
      modify (sv_set_current None);;
      if bool_decide (line = []) then
        command_error i (CmdError ACK_ERROR_UNKNOWN (lit "No command given"));;
        mret COMMAND_RETURN_ERROR
      else answer i (token_error t)
  end.

End with_env.
