(* ===== verification/HandlerSafety.v ===== *)
(** * Safety of command handlers

    The invariant of the server: the playlist's and every client's.  A
    handler that is run with the arguments its registry entry demands, and
    within the guards of the playlist operations it calls, returns and keeps
    it; the only exception is a command to the player that stays
    unanswered. *)

From S2P Require Import Prelude Err GLib Float Song AudioFormat EventPipe PlayerControl PlayQueue PlayQueueRep.
From S2P Require Import PlayQueueInv CString Uri Playlist PlaylistInv PlaylistEdit PlaylistDelete PlaylistSafety.
From S2P Require Import Tokenizer Strtod ArgParser ClientRead ClientWrite Client Permission Server Command Handlers.

Local Open Scope Z_scope.

(** The limit on output buffers is a size in memory. *)
Class LimitsOk (L : Limits) : Prop :=
  limits_ok : 0 <= client_max_output_buffer_size < 2 ^ 62.

Section with_server.
Context {G : GLib} {HG : GLibSpec G} {T : PlayerThread} {HT : PlayerThreadSpec T}.
Context {L : Limits} {HL : LimitsOk L}.

Definition server_inv (sv : server) : Prop :=
  invariant (sv_world sv) /\ Forall (client_inv client_max_output_buffer_size) (sv_clients sv).

(** Between commands, and while one is executed for client [i] and no error
    has been sent. *)
Definition kept_server (n : nat) (sv : server) : Prop :=
  server_inv sv /\ length (sv_clients sv) = n.
Definition ready (i n : nat) (sv : server) : Prop :=
  kept_server n sv /\ (i < n)%nat /\ sv_current_command sv <> None.

(** [m] is safe in [sv], and its result and the new state satisfy [Q]. *)
Definition msafe {A} (m : M A) (sv : server) (Q : A -> server -> Prop) : Prop :=
  safe thread_may_hang (m sv) (fun '(a, sv') => Q a sv').

Lemma msafe_ret {A} (a : A) sv (Q : A -> server -> Prop) : Q a sv -> msafe (mret a) sv Q.
Proof. done. Qed.

Lemma msafe_mono {A} (m : M A) sv (P Q : A -> server -> Prop) :
  msafe m sv P -> (forall a sv', P a sv' -> Q a sv') -> msafe m sv Q.
Proof. intros H HPQ. eapply safe_mono; [exact H|]. intros [a sv']. apply HPQ. Qed.

Lemma msafe_bind {A B} (m : M A) (f : A -> M B) sv (P : A -> server -> Prop) Q :
  msafe m sv P -> (forall a sv', P a sv' -> msafe (f a) sv' Q) -> msafe (m ≫= f) sv Q.
Proof.
  unfold msafe, mbind, M_bind, safe. intros Hm Hf.
  destruct (m sv) as [[a sv']|e]; [by apply Hf|done].
Qed.

Lemma msafe_lift {A} (m : res A) sv (Q : A -> server -> Prop) :
  safe thread_may_hang m (fun a => Q a sv) -> msafe (lift m) sv Q.
Proof. unfold msafe, lift. by destruct m. Qed.

(** Steps that only read or write the state. *)
Lemma msafe_bind_gets {A B} (f : server -> A) (k : A -> M B) sv (Q : B -> server -> Prop) :
  msafe (k (f sv)) sv Q -> msafe (gets f ≫= k) sv Q.
Proof. done. Qed.

Lemma msafe_bind_modify {B} (f : server -> server) (k : unit -> M B) sv (Q : B -> server -> Prop) :
  msafe (k tt) (f sv) Q -> msafe (modify f ≫= k) sv Q.
Proof. done. Qed.

Lemma msafe_bind_lift {A B} (m : res A) a (k : A -> M B) sv (Q : B -> server -> Prop) :
  m = Ok a -> msafe (k a) sv Q -> msafe (lift m ≫= k) sv Q.
Proof. intros ->. done. Qed.

Lemma msafe_on_world {A} (f : world -> res (A * world)) sv (Q : A -> server -> Prop) :
  safe thread_may_hang (f (sv_world sv)) (fun '(a, w) => Q a (sv_set_world w sv)) ->
  msafe (on_world f) sv Q.
Proof. unfold msafe, on_world. destruct (f (sv_world sv)) as [[a w]|e]; done. Qed.

Lemma ready_kept i n sv : ready i n sv -> kept_server n sv.
Proof. by intros []. Qed.

Lemma ready_client i n sv :
  ready i n sv -> exists c, sv_clients sv !! i = Some c /\
    client_inv client_max_output_buffer_size c.
Proof.
  intros [[[_ Hc] Hn] [Hi _]]. destruct (lookup_lt_is_Some_2 (sv_clients sv) i) as [c Hl]; [lia|].
  exists c. split; [done|]. by eapply Forall_lookup_1.
Qed.

(** Replacing the client by one that satisfies its invariant. *)
Lemma kept_set_client i n c sv :
  kept_server n sv -> client_inv client_max_output_buffer_size c ->
  kept_server n (sv_set_clients (<[i := c]> (sv_clients sv)) sv).
Proof.
  intros [[Hw Hc] Hn] Hi. split; [split; [done|]|by simpl; rewrite length_insert].
  simpl. by apply Forall_insert.
Qed.

Lemma kept_set_world n w sv : kept_server n sv -> invariant w -> kept_server n (sv_set_world w sv).
Proof. intros [[Hw Hc] Hn] Hi. by split. Qed.

Lemma ready_set_client i j n c sv :
  ready i n sv -> client_inv client_max_output_buffer_size c ->
  ready i n (sv_set_clients (<[j := c]> (sv_clients sv)) sv).
Proof. intros [Hk Hr] Hi. split; [by apply kept_set_client|done]. Qed.

Lemma ready_set_world i n w sv : ready i n sv -> invariant w -> ready i n (sv_set_world w sv).
Proof. intros [Hk Hr] Hi. split; [by apply kept_set_world|done]. Qed.

Lemma delivers_some o : exists total, delivers total o.
Proof. unfold delivers. destruct (o_expired o); eauto. Qed.

Lemma same_client_inv c c' :
  client_inv client_max_output_buffer_size c -> same_client c c' ->
  (client_is_expired c' = false -> client_is_expired c = false /\
     out_inv client_max_output_buffer_size (cl_output c')) ->
  client_inv client_max_output_buffer_size c'.
Proof. intros Hi Hs He. rewrite Hs. apply client_inv_output; [done|naive_solver..]. Qed.

(** ** Answers *)

(** Printing changes nothing but the client's output. *)
Lemma print_ok i n s sv :
  ready i n sv -> msafe (print i s) sv (fun _ sv' =>
    ready i n sv' /\ sv_world sv' = sv_world sv).
Proof using HL.
  intros Hr. destruct (ready_client _ _ _ Hr) as (c & Hc & Hi). unfold msafe, print, on_client.
  rewrite Hc. destruct (delivers_some (cl_output c)) as [total Hd].
  destruct (wp_inv _ _ (cl_puts_ok _ limits_ok s total c Hd (ci_output _ _ Hi)))
    as (c' & -> & Hs & _ & Ho). simpl. split; [|done].
  apply ready_set_client; [done|]. by eapply same_client_inv.
Qed.

Lemma print_all_ok i n ls sv :
  ready i n sv -> msafe (print_all i ls) sv (fun _ sv' =>
    ready i n sv' /\ sv_world sv' = sv_world sv).
Proof using HL.
  revert sv. induction ls as [|l ls IH]; intros sv Hr; cbn [print_all]; [by apply msafe_ret|].
  eapply msafe_bind; [by apply print_ok|]. intros _ sv1 [Hr1 Hw1].
  eapply msafe_mono; [by apply IH|]. intros _ sv2 [Hr2 Hw2]. split; congruence.
Qed.

Lemma command_error_ok i n e sv :
  ready i n sv -> msafe (command_error i e) sv (fun _ sv' =>
    kept_server n sv' /\ sv_world sv' = sv_world sv).
Proof using HL.
  intros Hr. unfold command_error. apply msafe_bind_gets, msafe_bind_gets.
  destruct (sv_current_command sv) as [cmd|] eqn:Hc; [|by destruct Hr as (_ & _ & ?)].
  eapply msafe_bind; [by apply print_ok|]. intros _ sv1 [Hr1 Hw1].
  eapply msafe_bind; [by apply print_ok|]. intros _ sv2 [Hr2 Hw2].
  eapply msafe_bind; [by apply print_ok|]. intros _ sv3 [[Hk3 _] Hw3].
  unfold msafe, modify. simpl. split; [done|]. simpl. congruence.
Qed.

(** What a handler owes. *)
Definition handled (n : nat) (_ : command_return) (sv : server) : Prop := kept_server n sv.

Lemma reject_ok i n e sv : ready i n sv -> msafe (reject i e) sv (handled n).
Proof using HL.
  intros Hr. unfold reject. eapply msafe_bind; [by apply command_error_ok|]. by intros _ sv' [].
Qed.

Lemma print_error2_ok strerror i n r sv :
  ready i n sv -> msafe (print_error2 strerror i r) sv (handled n).
Proof using HL.
  intros Hr. unfold print_error2. destruct (mpd_err_reply strerror r); [by apply reject_ok|].
  apply msafe_ret. by eapply ready_kept.
Qed.

Lemma with_arg_ok {A} i n (check : cstring -> checked A) s k sv :
  ready i n sv -> (forall a, check s = Accepted a -> msafe (k a) sv (handled n)) ->
  msafe (with_arg i check s k) sv (handled n).
Proof using HL.
  intros Hr Hk. unfold with_arg. destruct (check s); [by apply Hk|by apply reject_ok].
Qed.

Lemma arg_ok {B} k argv s (f : cstring -> M B) sv Q :
  argv !! k = Some s -> msafe (f s) sv Q -> msafe (arg k argv ≫= f) sv Q.
Proof. intros Hk Hf. unfold arg. rewrite Hk. by eapply msafe_bind_lift. Qed.

(** An operation on the playlist whose result is sent to the client. *)
Lemma world_answer_ok strerror i n (f : world -> res (mpd_err * world)) sv :
  ready i n sv -> safe thread_may_hang (f (sv_world sv)) kept ->
  msafe (on_world f ≫= print_error2 strerror i) sv (handled n).
Proof using HL.
  intros Hr Hf. eapply (msafe_bind _ _ _ (fun _ => ready i n)).
  - apply msafe_on_world. eapply safe_mono; [exact Hf|]. intros [r w] Hw. by apply ready_set_world.
  - intros r sv' Hr'. by apply print_error2_ok.
Qed.

(** An operation on the playlist or the player that cannot fail. *)
Lemma update_world_ok i n (f : world -> res world) ret sv :
  ready i n sv -> safe thread_may_hang (f (sv_world sv)) invariant ->
  msafe (update_world f;; mret ret) sv (handled n).
Proof.
  intros Hr Hf. eapply (msafe_bind _ _ _ (fun _ => ready i n)).
  - apply msafe_on_world. eapply safe_bind_mono; [exact Hf|]. intros w Hw. by apply ready_set_world.
  - intros _ sv' Hr'. apply msafe_ret. by eapply ready_kept.
Qed.

(** The same for a command of [PlaylistSafety]. *)
Lemma run_answer_ok strerror i n c sv :
  ready i n sv -> args_ok c -> guard c (sv_world sv) ->
  msafe (on_world (run c) ≫= print_error2 strerror i) sv (handled n).
Proof using HG HT HL.
  intros Hr Ha Hg. apply world_answer_ok; [done|]. apply run_ok; [|done|done]. apply Hr.
Qed.

Lemma done_with_inv (m : res world) : safe thread_may_hang (done_with m) kept -> safe thread_may_hang m invariant.
Proof. unfold done_with. destruct m; done. Qed.

Lemma run_update_ok i n c (f : world -> res world) ret sv :
  ready i n sv -> args_ok c -> guard c (sv_world sv) -> run c (sv_world sv) = done_with (f (sv_world sv)) ->
  msafe (update_world f;; mret ret) sv (handled n).
Proof using HG HT.
  intros Hr Ha Hg He. apply (update_world_ok i); [done|]. apply done_with_inv. rewrite <- He.
  apply run_ok; [|done|done]. apply Hr.
Qed.

(** A change of the player that keeps its contract. *)
Lemma update_player_ok i n (f : player -> res player) ret sv :
  ready i n sv ->
  (forall p, player_ok p -> safe (may_hang p) (f p) (keeps_next p)) ->
  msafe (update_player f;; mret ret) sv (handled n).
Proof.
  intros Hr Hf. apply (update_world_ok i); [done|]. destruct Hr as [[[(its & ord & Hw) _] _] _].
  eapply with_player_safe; [eapply weaken_hang, Hf, (inv_player _ _ _ Hw)|].
  intros p [Hp Hn]. exists its, ord. destruct Hw. split; try done. simpl. intros Hq.
  destruct Hn as [Hn|Hn]; [rewrite Hn; auto|done].
Qed.

End with_server.

(** Read an argument; check it. *)
Ltac take_arg Hs := lazymatch goal with
  | |- msafe (arg ?k ?argv ≫= _) _ _ =>
      let s := fresh "s" in
      destruct (lookup_lt_is_Some_2 argv k) as [s Hs];
        [lia | eapply arg_ok; [exact Hs|]]
  end.
Ltac check_arg Ha := apply with_arg_ok; [done|]; let a := fresh "a" in intros a Ha.

(** * Every command keeps the server's invariant

    What the handlers of [Handlers] ask of the playlist, as commands of
    [PlaylistSafety]; each handler, and with them [command_execute()] and
    [command_process()], returns and keeps the invariant of the server within
    the guards of those commands. *)

(** ** Requests *)

(** An argument that the check accepts. *)
Definition parsed {A} (check : cstring -> checked A) (k : nat) (argv : list cstring) : option A :=
  s ← argv !! k;
  match check s with Accepted a => Some a | Rejected _ => None end.

(** A position argument that may be left out. *)
Definition parsed_default {A} (check : cstring -> checked A) (d : A) (argv : list cstring) : option A :=
  if argc_is argv 2 then parsed check 1 argv else Some d.

(** The command of the playlist that a request stands for, if it has been
    parsed. *)
Definition playlist_request (len : Z) (h : handler) (argv : list cstring)
  : option PlaylistSafety.command :=
  match h with
  | H_play => CmdPlay <$> parsed_default check_int (-1) argv
  | H_playid => CmdPlayId <$> parsed_default check_int (-1) argv
  | H_stop => Some CmdStop
  | H_previous => Some CmdPrevious
  | H_clear => Some CmdClear
  | H_seek => song ← parsed check_unsigned 1 argv; t ← parsed check_unsigned 2 argv;
              Some (CmdSeek song (f32_of_Z t))
  | H_seekid => id ← parsed check_unsigned 1 argv; t ← parsed check_unsigned 2 argv;
                Some (CmdSeekId id (f32_of_Z t))
  | H_seekcur => p ← argv !! 1%nat; t ← parsed check_int 1 argv;
      Some (CmdSeekCurrent (f32_of_Z t)
        (bool_decide (head p = Some "+"%char) || bool_decide (head p = Some "-"%char)))
  | H_repeat => CmdRepeat <$> parsed check_bool 1 argv
  | H_single => CmdSingle <$> parsed check_bool 1 argv
  | H_consume => CmdConsume <$> parsed check_bool 1 argv
  | H_random => CmdRandom <$> parsed check_bool 1 argv
  | H_delete => (fun r => CmdDeleteRange r.1 r.2) <$> parsed check_range 1 argv
  | H_deleteid => CmdDeleteId <$> parsed check_unsigned 1 argv
  | H_move => r ← parsed check_range 1 argv; to ← parsed check_int 2 argv;
              Some (CmdMove r.1 r.2 to)
  | H_moveid => id ← parsed check_unsigned 1 argv; to ← parsed check_int 2 argv;
                Some (CmdMoveId id to)
  | H_swap => p1 ← parsed check_unsigned 1 argv; p2 ← parsed check_unsigned 2 argv;
              Some (CmdSwap p1 p2)
  | H_swapid => id1 ← parsed check_unsigned 1 argv; id2 ← parsed check_unsigned 2 argv;
                Some (CmdSwapId id1 id2)
  | H_shuffle => (fun r => CmdShuffle r.1 r.2) <$> parsed_default check_range (0, len) argv
  | _ => None
  end.

(** The least number of elements of [argv] that a handler reads, and the
    number that it asserts. *)
Definition needs (h : handler) : nat :=
  match h with
  | H_add | H_addid | H_consume | H_crossfade | H_delete | H_deleteid | H_mixrampdb
  | H_mixrampdelay | H_password | H_plchanges | H_plchangesposid | H_prio | H_prioid | H_random
  | H_repeat | H_seekcur | H_setvol | H_single | H_subscribe | H_unsubscribe => 2
  | H_move | H_moveid | H_seek | H_seekid | H_swap | H_swapid | H_send_message => 3
  | _ => 0
  end.
Definition asserted (h : handler) : option nat :=
  match h with
  | H_channels | H_read_messages => Some 1%nat
  | H_subscribe | H_unsubscribe => Some 2%nat
  | H_send_message => Some 3%nat
  | _ => None
  end.
Definition argc_ok (h : handler) (argv : list cstring) : Prop :=
  (needs h <= length argv)%nat /\ forall m, asserted h = Some m -> length argv = m.

(** Handlers that are modelled. *)
Definition modelled (h : handler) : bool :=
  match h with
  | H_config | H_count | H_decoders | H_disableoutput | H_enableoutput | H_find | H_findadd
  | H_list | H_listall | H_listallinfo | H_listplaylist | H_listplaylistinfo | H_listplaylists
  | H_load | H_lsinfo | H_devices | H_playlistadd | H_playlistclear | H_playlistdelete
  | H_playlistfind | H_playlistmove | H_playlistsearch | H_rename | H_replay_gain_mode
  | H_replay_gain_status | H_rescan | H_rm | H_save | H_search | H_searchadd | H_searchaddpl
  | H_stats | H_sticker | H_tagtypes | H_update => false
  | _ => true
  end.

Section with_env.
Context {G : GLib} {HG : GLibSpec G} {T : PlayerThread} {HT : PlayerThreadSpec T}.
Context {L : Limits} {HL : LimitsOk L} {E : Env}.

Definition returns {A} (m : res A) : Prop := exists a, m = Ok a.

(** The times in the answer to [status] fit into an [int]. *)
Definition status_fits (w : world) : Prop := forall st p,
  pc_get_status (w_player w) = Ok (st, p) ->
  returns (round_to_int (pc_get_cross_fade p)) /\
  returns (pc_get_error_message p) /\
  forall b a total elapsed, status_info st = Some (b, a, total, elapsed) ->
    returns (round_to_int elapsed) /\ returns (round_to_int total).

(** When a request is handled as intended: the guard of the playlist's
    command; a client asks to be notified only when it is not yet waiting;
    [addid] with a position deletes the song if it cannot be moved. *)
Definition request_guard (h : handler) (i : nat) (argv : list cstring) (sv : server) : Prop :=
  modelled h = true /\
  (forall c, playlist_request (q_length (w_queue (sv_world sv))) h argv = Some c ->
     guard c (sv_world sv)) /\
  match h with
  | H_idle => forall c, sv_clients sv !! i = Some c -> cl_idle_waiting c = false
  | H_status => status_fits (sv_world sv)
  | H_addid => argc_is argv 3 = true -> quiet (sv_world sv) /\
      forall to, parsed check_unsigned 2 argv = Some to -> to < 2 ^ 31
  | _ => True
  end.

Ltac unfold_parsed := unfold playlist_request, parsed_default, parsed in *.

Lemma parsed_Some {A} (check : cstring -> checked A) k argv a :
  parsed check k argv = Some a -> exists s, argv !! k = Some s /\ check s = Accepted a.
Proof.
  unfold parsed. intros (s & Hs & Ha)%bind_Some. exists s. split; [done|].
  destruct (check s); congruence.
Qed.

Lemma parsed_default_Some {A} (check : cstring -> checked A) d argv a :
  parsed_default check d argv = Some a -> a = d \/ exists s, check s = Accepted a.
Proof.
  unfold parsed_default. destruct (argc_is argv 2); [|intros [= <-]; by left].
  intros (s & _ & Hs)%parsed_Some. eauto.
Qed.

(** The arguments have their C types. *)
Lemma playlist_request_args len h argv c :
  0 <= len < 2 ^ 32 -> playlist_request len h argv = Some c -> args_ok c.
Proof.
  intros Hlen. unfold playlist_request.
  destruct h; try done; intros Hc;
    repeat (first [apply bind_Some in Hc as (? & ? & Hc) | apply fmap_Some in Hc as (? & ? & ->)]);
    simplify_eq; simpl; try done;
    repeat match goal with
    | H : parsed _ _ _ = Some _ |- _ => apply parsed_Some in H as (? & _ & ?)
    | H : parsed_default _ _ _ = Some _ |- _ => apply parsed_default_Some in H as [->|[? ?]]
    | H : check_int _ = Accepted _ |- _ => apply check_int_range in H
    | H : check_unsigned _ = Accepted _ |- _ => apply check_unsigned_range in H
    | H : check_range _ = Accepted ?r |- _ =>
        destruct r; apply check_range_range in H
    end; simpl; unfold unsigned_arg, int_arg; lia.
Qed.

(** A request that has been parsed is run safely. *)
Lemma requested_ok h i argv c n sv :
  ready i n sv -> request_guard h i argv sv ->
  playlist_request (q_length (w_queue (sv_world sv))) h argv = Some c ->
  safe thread_may_hang (run c (sv_world sv)) kept.
Proof using HG HT.
  intros [[[Hw _] _] _] (_ & Hg & _) Hc. apply run_ok; [done| |by apply Hg].
  destruct Hw as (its & ord & Hw). eapply playlist_request_args, Hc.
  rewrite (w_length Hw). pose proof (rep_length_pos _ _ _ (w_rep Hw)). lia.
Qed.


Ltac solve_request :=
  unfold_parsed; cbn [fmap option_fmap option_map];
  repeat match goal with
  | H : argc_is ?argv ?m = _ |- context [argc_is ?argv ?m] => rewrite H
  | H : ?argv !! ?k = Some _ |- context [?argv !! ?k] => rewrite H; cbn [mbind option_bind]
  | H : ?check ?s = Accepted _ |- context [?check ?s] => rewrite H; cbn [mbind option_bind]
  end; done.

(** The rest of a handler is the command [c] of the playlist. *)
Ltac by_request h c :=
  first [ apply world_answer_ok; [done|]; eapply (requested_ok h _ _ c)
        | eapply update_world_ok; [done|]; eapply done_with_inv, (requested_ok h _ _ c) ];
  [ done | done | solve_request ].

Section handlers.
Context (i n : nat) (argv : list cstring) (sv : server) (Hr : ready i n sv).

Lemma handle_play_ok :
  request_guard H_play i argv sv -> msafe (handle_play i argv) sv (handled n).
Proof using HG HT HL Hr.
  intros Hg. unfold handle_play. cbv zeta. destruct (argc_is argv 2) eqn:Hn.
  - pose proof Hn as Hl%Nat.eqb_eq. take_arg Hs. check_arg Ha. by_request H_play (CmdPlay a).
  - by_request H_play (CmdPlay (-1)).
Qed.

Lemma handle_playid_ok :
  request_guard H_playid i argv sv -> msafe (handle_playid i argv) sv (handled n).
Proof using HG HT HL Hr.
  intros Hg. unfold handle_playid. cbv zeta. destruct (argc_is argv 2) eqn:Hn.
  - pose proof Hn as Hl%Nat.eqb_eq. take_arg Hs. check_arg Ha. by_request H_playid (CmdPlayId a).
  - by_request H_playid (CmdPlayId (-1)).
Qed.

Lemma handle_stop_ok :
  request_guard H_stop i argv sv -> msafe (handle_stop i argv) sv (handled n).
Proof using HG HT Hr. intros Hg. unfold handle_stop. by_request H_stop CmdStop. Qed.

Lemma handle_previous_ok :
  request_guard H_previous i argv sv -> msafe (handle_previous i argv) sv (handled n).
Proof using HG HT Hr. intros Hg. unfold handle_previous. by_request H_previous CmdPrevious. Qed.

Lemma handle_clear_ok :
  request_guard H_clear i argv sv -> msafe (handle_clear i argv) sv (handled n).
Proof using HG HT Hr. intros Hg. unfold handle_clear. by_request H_clear CmdClear. Qed.

(** Handlers that take a flag. *)
Lemma handle_flags_ok :
  (2 <= length argv)%nat ->
  (request_guard H_repeat i argv sv -> msafe (handle_repeat i argv) sv (handled n)) /\
  (request_guard H_single i argv sv -> msafe (handle_single i argv) sv (handled n)) /\
  (request_guard H_random i argv sv -> msafe (handle_random i argv) sv (handled n)) /\
  (request_guard H_consume i argv sv -> msafe (handle_consume i argv) sv (handled n)).
Proof using HG HT HL Hr.
  intros Hl. unfold handle_repeat, handle_single, handle_random, handle_consume, with_bool.
  split_and!; intros Hg; take_arg Hs; check_arg Ha.
  - by_request H_repeat (CmdRepeat a).
  - by_request H_single (CmdSingle a).
  - by_request H_random (CmdRandom a).
  - by_request H_consume (CmdConsume a).
Qed.

(** Handlers that take numbers. *)
Lemma handle_seek_ok :
  (3 <= length argv)%nat ->
  (request_guard H_seek i argv sv -> msafe (handle_seek i argv) sv (handled n)) /\
  (request_guard H_seekid i argv sv -> msafe (handle_seekid i argv) sv (handled n)).
Proof using HG HT HL Hr.
  intros Hl. unfold handle_seek, handle_seekid. cbv zeta.
  split; intros Hg; take_arg Hs1; take_arg Hs2; check_arg Ha; check_arg Hb.
  - by_request H_seek (CmdSeek a (f32_of_Z a0)).
  - by_request H_seekid (CmdSeekId a (f32_of_Z a0)).
Qed.

Lemma handle_seekcur_ok :
  (2 <= length argv)%nat ->
  request_guard H_seekcur i argv sv -> msafe (handle_seekcur i argv) sv (handled n).
Proof using HG HT HL Hr.
  intros Hl Hg. unfold handle_seekcur. cbv zeta. take_arg Hs. check_arg Ha.
  by_request H_seekcur (CmdSeekCurrent (f32_of_Z a)
    (bool_decide (head s = Some "+"%char) || bool_decide (head s = Some "-"%char))).
Qed.

Lemma handle_swaps_ok :
  (3 <= length argv)%nat ->
  (request_guard H_swap i argv sv -> msafe (handle_swap i argv) sv (handled n)) /\
  (request_guard H_swapid i argv sv -> msafe (handle_swapid i argv) sv (handled n)) /\
  (request_guard H_moveid i argv sv -> msafe (handle_moveid i argv) sv (handled n)).
Proof using HG HT HL Hr.
  intros Hl. unfold handle_swap, handle_swapid, handle_moveid. cbv zeta.
  split_and!; intros Hg; take_arg Hs1; take_arg Hs2; check_arg Ha; check_arg Hb.
  - by_request H_swap (CmdSwap a a0).
  - by_request H_swapid (CmdSwapId a a0).
  - by_request H_moveid (CmdMoveId a a0).
Qed.

Lemma handle_move_ok :
  (3 <= length argv)%nat ->
  request_guard H_move i argv sv -> msafe (handle_move i argv) sv (handled n).
Proof using HG HT HL Hr.
  intros Hl Hg. unfold handle_move. cbv zeta. take_arg Hs1. take_arg Hs2. check_arg Ha.
  destruct a as [s1 e1]. check_arg Hb. by_request H_move (CmdMove s1 e1 a).
Qed.

Lemma handle_deletes_ok :
  (2 <= length argv)%nat ->
  (request_guard H_delete i argv sv -> msafe (handle_delete i argv) sv (handled n)) /\
  (request_guard H_deleteid i argv sv -> msafe (handle_deleteid i argv) sv (handled n)).
Proof using HG HT HL Hr.
  intros Hl. unfold handle_delete, handle_deleteid. cbv zeta.
  split; intros Hg; take_arg Hs; check_arg Ha.
  - destruct a as [s1 e1]. by_request H_delete (CmdDeleteRange s1 e1).
  - by_request H_deleteid (CmdDeleteId a).
Qed.

Lemma handle_shuffle_ok :
  request_guard H_shuffle i argv sv -> msafe (handle_shuffle i argv) sv (handled n).
Proof using HG HT HL Hr.
  intros Hg. unfold handle_shuffle. apply msafe_bind_gets. cbv zeta.
  destruct (argc_is argv 2) eqn:Hn.
  - pose proof Hn as Hl%Nat.eqb_eq. take_arg Hs. check_arg Ha. destruct a as [s1 e1].
    by_request H_shuffle (CmdShuffle s1 e1).
  - by_request H_shuffle (CmdShuffle 0 (q_length (w_queue (sv_world sv)))).
Qed.

(** [next]: single mode is switched off for the time of the operation. *)
Lemma set_single_inv b (w : world) : invariant w -> invariant (set_single b w).
Proof.
  intros (its & ord & Hinv). exists its, ord. destruct Hinv. split; try done. by apply set_modes_inv.
Qed.

Lemma handle_next_ok : msafe (handle_next i argv) sv (handled n).
Proof using HG HT Hr.
  unfold handle_next. apply msafe_bind_gets. eapply update_world_ok; [done|].
  destruct Hr as [[[Hw _] _] _]. eapply safe_bind_mono.
  - apply done_with_inv. apply (run_ok CmdNext); [by apply set_single_inv|done|done].
  - intros w Hinv. by apply set_single_inv.
Qed.

(** Handlers that only concern the player. *)
Lemma player_frame_ok (f : player -> player) ret :
  (forall p, (player_ok p -> player_ok (f p)) /\ next_song (f p) = next_song p) ->
  msafe (update_player (fun p => Ok (f p));; mret ret) sv (handled n).
Proof using HG HT Hr.
  intros Hf. eapply update_player_ok; [done|]. intros p Hp. destruct (Hf p). split; auto.
Qed.

Lemma pc_options_frame x (p : player) :
  ((player_ok p -> player_ok (pc_set_cross_fade x p)) /\
    next_song (pc_set_cross_fade x p) = next_song p) /\
  ((player_ok p -> player_ok (pc_set_mixramp_db x p)) /\
    next_song (pc_set_mixramp_db x p) = next_song p) /\
  ((player_ok p -> player_ok (pc_set_mixramp_delay x p)) /\
    next_song (pc_set_mixramp_delay x p) = next_song p).
Proof. split_and!; try done; intros Hp; by apply (player_ok_frame p). Qed.

Lemma handle_pause_ok : msafe (handle_pause i argv) sv (handled n).
Proof using HG HT HL Hr.
  unfold handle_pause. destruct (argc_is argv 2) eqn:Hn.
  - pose proof Hn as Hl%Nat.eqb_eq. take_arg Hs. check_arg Ha.
    eapply update_player_ok; [done|]. intros p. apply pc_set_pause_ok.
  - eapply update_player_ok; [done|]. apply pc_pause_ok.
Qed.

Lemma handle_clearerror_ok : msafe (handle_clearerror i argv) sv (handled n).
Proof using HG HT Hr. apply player_frame_ok, pc_clear_error_frame. Qed.

Lemma handle_player_options_ok :
  (2 <= length argv)%nat ->
  msafe (handle_crossfade i argv) sv (handled n) /\
  msafe (handle_mixrampdb i argv) sv (handled n) /\
  msafe (handle_mixrampdelay i argv) sv (handled n).
Proof using HG HT HL Hr.
  intros Hl. unfold handle_crossfade, handle_mixrampdb, handle_mixrampdelay.
  split_and!; take_arg Hs; check_arg Ha; apply player_frame_ok; intros p;
    edestruct (pc_options_frame) as (? & ? & ?); eauto.
Qed.

Lemma handle_setvol_ok : (2 <= length argv)%nat -> msafe (handle_setvol i argv) sv (handled n).
Proof using HL Hr.
  intros Hl. unfold handle_setvol. take_arg Hs. check_arg Ha.
  destruct (100 <? a); [by apply reject_ok|]. destruct (negb _); [by apply reject_ok|].
  apply msafe_ret. by eapply ready_kept.
Qed.

End handlers.

(** ** Priorities *)

(** A step of a loop over arguments: the result decides whether it goes on. *)
Lemma loop_step_ok i n (f : world -> res (mpd_err * world)) (k : M command_return) sv :
  ready i n sv -> safe thread_may_hang (f (sv_world sv)) kept ->
  (forall sv', ready i n sv' -> msafe k sv' (handled n)) ->
  msafe (result ← on_world f;
         if decide (result = MPD_SUCCESS) then k else print_error2 env_strerror i result) sv (handled n).
Proof using HL.
  intros Hr Hf Hk. eapply (msafe_bind _ _ _ (fun _ => ready i n)).
  - apply msafe_on_world. eapply safe_mono; [exact Hf|]. intros [r w] Hw. by apply ready_set_world.
  - intros r sv' Hr'. case_decide; [by apply Hk|by apply print_error2_ok].
Qed.

Lemma prio_loop_ok i n priority args sv :
  0 <= priority < 256 -> ready i n sv -> msafe (prio_loop i priority args) sv (handled n).
Proof using HG HT HL.
  intros Hp. revert sv. induction args as [|s args IH]; intros sv Hr; cbn [prio_loop].
  { apply msafe_ret. by eapply ready_kept. }
  check_arg Ha. destruct a as [a b]. apply loop_step_ok; [done| |done].
  apply check_range_range in Ha. apply (run_ok (CmdPriority a b priority)); [apply Hr| |done].
  simpl. unfold unsigned_arg. lia.
Qed.

Lemma prioid_loop_ok i n priority args sv :
  0 <= priority < 256 -> ready i n sv -> msafe (prioid_loop i priority args) sv (handled n).
Proof using HG HT HL.
  intros Hp. revert sv. induction args as [|s args IH]; intros sv Hr; cbn [prioid_loop].
  { apply msafe_ret. by eapply ready_kept. }
  check_arg Ha. apply loop_step_ok; [done| |done].
  apply check_unsigned_range in Ha. apply (run_ok (CmdPriorityId a priority)); [apply Hr| |done].
  simpl. unfold unsigned_arg. lia.
Qed.

Lemma with_priority_ok i n argv k sv :
  ready i n sv -> (2 <= length argv)%nat ->
  (forall priority, 0 <= priority < 256 -> msafe (k priority) sv (handled n)) ->
  msafe (with_priority i argv k) sv (handled n).
Proof using HL.
  intros Hr Hl Hk. unfold with_priority. take_arg Hs. check_arg Ha. apply check_unsigned_range in Ha.
  destruct (Z.ltb_spec 255 a); [by apply reject_ok|]. apply Hk. lia.
Qed.

(** ** Printing *)

(** [m] writes to client [i] and leaves the playlist [w] alone. *)
Definition prints (i n : nat) (w : world) {A} (m : M A) : Prop := forall sv,
  ready i n sv -> sv_world sv = w -> msafe m sv (fun _ sv' => ready i n sv' /\ sv_world sv' = w).

Section printing.
Context (i n : nat) (w : world).

Lemma prints_ret {A} (a : A) : prints i n w (mret a).
Proof. intros sv Hr Hw. by apply msafe_ret. Qed.

Lemma prints_print s : prints i n w (print i s).
Proof using HL. intros sv Hr <-. by apply print_ok. Qed.

Lemma prints_all ls : prints i n w (print_all i ls).
Proof using HL. intros sv Hr <-. by apply print_all_ok. Qed.

Lemma prints_bind {A B} (m : M A) (k : A -> M B) :
  prints i n w m -> (forall a, prints i n w (k a)) -> prints i n w (m ≫= k).
Proof. intros Hm Hk sv Hr Hw. eapply msafe_bind; [by apply Hm|]. intros a sv' [??]. by apply Hk. Qed.

Lemma prints_lift {A B} (m : res A) (k : A -> M B) :
  returns m -> (forall a, m = Ok a -> prints i n w (k a)) -> prints i n w (lift m ≫= k).
Proof. intros [a Ha] Hk sv Hr Hw. eapply msafe_bind_lift; [exact Ha|]. by apply Hk. Qed.

Lemma prints_lift_eq {A B} (m : res A) a (k : A -> M B) :
  m = Ok a -> prints i n w (k a) -> prints i n w (lift m ≫= k).
Proof. intros Ha Hk. apply prints_lift; [by exists a|]. intros. by simplify_eq. Qed.

Lemma prints_gets {A B} (f : server -> A) (g : world -> A) (k : A -> M B) :
  (forall sv, f sv = g (sv_world sv)) -> prints i n w (k (g w)) -> prints i n w (gets f ≫= k).
Proof. intros Hf Hk sv Hr Hw. apply msafe_bind_gets. rewrite Hf, Hw. by apply Hk. Qed.

Lemma prints_up m p body :
  (forall j, p <= j < p + Z.of_nat m -> prints i n w (body j)) -> prints i n w (print_up m p body).
Proof.
  revert p. induction m as [|m IH]; intros p Hb; cbn [print_up]; [apply prints_ret|].
  apply prints_bind; [apply Hb; lia|]. intros _. apply IH. intros j Hj. apply Hb. lia.
Qed.

Lemma prints_range s e body :
  (forall j, s <= j < e -> prints i n w (body j)) -> prints i n w (print_range s e body).
Proof. intros Hb. apply prints_up. intros j Hj. apply Hb. lia. Qed.

(** A handler that prints and succeeds. *)
Lemma prints_handled {A} (m : M A) ret sv :
  prints i n w m -> ready i n sv -> sv_world sv = w -> msafe (m ≫= fun _ => mret ret) sv (handled n).
Proof.
  intros Hm Hr Hw. eapply msafe_bind; [by apply Hm|]. intros _ sv' [Hr' _]. apply msafe_ret.
  by eapply ready_kept.
Qed.

Section with_queue.
Context (its : list queue_item) (ord : list nat) (Hinv : w_inv w its ord).
Let Hrep : q_rep (w_queue w) its ord := w_rep Hinv.

Lemma queue_reads p :
  0 <= p < Z.of_nat (length its) -> exists it,
    queue_get (w_queue w) p = Ok (item_song it) /\
    queue_position_to_id (w_queue w) p = Ok (item_id it) /\
    queue_get_priority_at_position (w_queue w) p = Ok (item_priority it) /\
    forall v, returns (queue_song_newer (w_queue w) p v).
Proof using Hinv.
  intros Hp. destruct (lookup_lt_is_Some_2 its (Z.to_nat p)) as [it Hit]; [lia|].
  exists it. pose proof (rep_get_item _ _ _ Hrep _ _ Hit) as Hget.
  pose proof (queue_get_ok _ _ _ Hrep _ _ Hit) as Hq.
  pose proof (queue_position_to_id_ok _ _ _ Hrep _ _ Hit) as Hid.
  rewrite Z2Nat.id in Hget, Hq, Hid by lia. split_and!; try done.
  - unfold queue_get_priority_at_position. rewrite (w_length Hinv), (proj2 (Z.ltb_lt p _)) by lia.
    simpl. by rewrite Hget.
  - intros v. eexists. unfold queue_song_newer.
    rewrite (w_length Hinv), (proj2 (Z.ltb_lt p _)) by lia.
    simpl. by rewrite Hget.
Qed.

Lemma queue_print_song_info_ok p :
  0 <= p < Z.of_nat (length its) -> prints i n w (queue_print_song_info i (w_queue w) p).
Proof using HL Hinv.
  intros Hp. destruct (queue_reads p Hp) as (it & H1 & H2 & H3 & _). unfold queue_print_song_info.
  eapply prints_lift_eq; [exact H1|]. apply prints_bind; [apply prints_print|intros _].
  eapply prints_lift_eq; [exact H2|]. apply prints_bind; [apply prints_print|intros _].
  eapply prints_lift_eq; [exact H3|]. destruct (negb _); [apply prints_print|apply prints_ret].
Qed.

(** Both loops over a part of the queue. *)
Lemma queue_print_ok s e (body : Z -> M unit) :
  0 <= s <= e -> e <= Z.of_nat (length its) ->
  (forall p, 0 <= p < Z.of_nat (length its) -> prints i n w (body p)) ->
  prints i n w (len ← lift (queue_length (w_queue w));
    lift (assert (s <=? e));; lift (assert (e <=? len));; print_range s e body).
Proof using Hinv.
  intros Hs He Hb. eapply prints_lift_eq; [apply (queue_length_ok _ _ _ Hrep)|].
  rewrite (proj2 (Z.leb_le s e)), (proj2 (Z.leb_le e _)) by lia.
  eapply prints_lift_eq; [done|]. eapply prints_lift_eq; [done|].
  apply prints_range. intros j Hj. apply Hb. lia.
Qed.

Lemma queue_print_info_ok s e :
  0 <= s <= e -> e <= Z.of_nat (length its) -> prints i n w (queue_print_info i (w_queue w) s e).
Proof using HL Hinv. intros Hs He. apply queue_print_ok; [done..|]. apply queue_print_song_info_ok. Qed.

Lemma queue_print_uris_ok s e :
  0 <= s <= e -> e <= Z.of_nat (length its) -> prints i n w (queue_print_uris i (w_queue w) s e).
Proof using HL Hinv.
  intros Hs He. apply queue_print_ok; [done..|]. intros p Hp.
  destruct (queue_reads p Hp) as (it & H1 & _). apply prints_bind; [apply prints_print|intros _].
  eapply prints_lift_eq; [exact H1|]. apply prints_print.
Qed.

(** The loops over the songs that are newer than a version. *)
Lemma print_changes_ok version (body : Z -> M unit) :
  (forall p, 0 <= p < Z.of_nat (length its) -> prints i n w (body p)) ->
  prints i n w (len ← lift (queue_length (w_queue w));
    print_range 0 len (fun p =>
      newer ← lift (queue_song_newer (w_queue w) p version);
      if newer : bool then body p else mret tt)).
Proof using Hinv.
  intros Hb. eapply prints_lift_eq; [apply (queue_length_ok _ _ _ Hrep)|].
  apply prints_range. intros p Hp. destruct (queue_reads p Hp) as (it & _ & _ & _ & Hn).
  apply prints_lift; [apply Hn|]. intros [|] _; [by apply Hb|apply prints_ret].
Qed.

Lemma queue_print_changes_info_ok version :
  prints i n w (queue_print_changes_info i (w_queue w) version).
Proof using HL Hinv. apply print_changes_ok, queue_print_song_info_ok. Qed.

Lemma queue_print_changes_position_ok version :
  prints i n w (queue_print_changes_position i (w_queue w) version).
Proof using HL Hinv.
  apply print_changes_ok. intros p Hp. destruct (queue_reads p Hp) as (it & _ & H2 & _).
  eapply prints_lift_eq; [exact H2|]. apply prints_print.
Qed.

Lemma playlist_print_info_ok s e : 0 <= s -> prints i n w (playlist_print_info i s e).
Proof using HL Hinv.
  intros Hs. apply (prints_gets _ w_queue); [done|].
  eapply prints_lift_eq; [apply (queue_length_ok _ _ _ Hrep)|]. cbv zeta.
  set (e' := if _ <? e then _ else e).
  assert (e' <= Z.of_nat (length its)) by (subst e'; case_match; case_Z; lia).
  destruct (Z.ltb_spec e' s); [apply prints_ret|].
  apply prints_bind; [by apply queue_print_info_ok|intros _; apply prints_ret].
Qed.

Lemma playlist_print_id_ok id : unsigned_arg id -> prints i n w (playlist_print_id i id).
Proof using HL Hinv.
  intros Hid. apply (prints_gets _ w_queue); [done|].
  destruct (id_lookup_cases Hinv id Hid) as [[He _]|(p & it & _ & _ & He)];
    (eapply prints_lift_eq; [exact He|]).
  - apply prints_ret.
  - rewrite (proj2 (Z.ltb_ge _ _)) by lia. apply playlist_print_info_ok. apply u32_range.
Qed.

(** The current and the next song have positions in the queue. *)
Definition song_position (p : Z) : Prop := p = -1 \/ 0 <= p < Z.of_nat (length its).

Lemma order_position (o : Z) :
  0 <= o < Z.of_nat (length its) -> exists p, queue_order_to_position (w_queue w) o = Ok p /\ song_position p.
Proof using Hinv.
  intros Ho. destruct (rep_ord_is_Some _ _ _ Hrep (Z.to_nat o)) as [p Hp]; [lia|].
  exists (Z.of_nat p). pose proof (rep_ord_lt _ _ _ Hrep _ _ Hp).
  pose proof (queue_order_to_position_ok _ _ _ Hrep _ _ Hp) as Hq. rewrite Z2Nat.id in Hq by lia.
  split; [done|right; lia].
Qed.

Lemma playlist_get_current_song_ok :
  exists p, playlist_get_current_song w = Ok p /\ song_position p.
Proof using Hinv.
  pose proof (inv_current _ _ _ Hinv). pose proof (rep_length_pos _ _ _ Hrep).
  unfold playlist_get_current_song. destruct (Z.leb_spec 0 (w_current w)).
  - rewrite u32_small by lia. apply order_position. lia.
  - exists (-1). split; [done|by left].
Qed.

Lemma playlist_get_next_song_ok :
  exists p, playlist_get_next_song w = Ok p /\ song_position p.
Proof using Hinv.
  pose proof (inv_current _ _ _ Hinv). pose proof (rep_length_pos _ _ _ Hrep).
  unfold playlist_get_next_song. destruct (Z.leb_spec 0 (w_current w)).
  2:{ exists (-1). split; [done|by left]. }
  destruct (_ && _). { rewrite u32_small by lia. apply order_position. lia. }
  rewrite (queue_length_ok _ _ _ Hrep). cbn [mbind res_bind]. rewrite i32_small by lia.
  destruct (Z.ltb_spec (w_current w + 1) (Z.of_nat (length its))).
  { rewrite u32_small by lia. apply order_position. lia. }
  destruct (q_repeat _); [apply order_position; lia|]. exists (-1). split; [done|by left].
Qed.

Lemma print_song_ok name name_id p : song_position p -> prints i n w (print_song i name name_id p).
Proof using HL Hinv.
  intros Hp. unfold print_song. destruct (Z.leb_spec 0 p); [|apply prints_ret].
  apply (prints_gets _ w_queue); [done|].
  destruct (queue_reads p) as (it & _ & H2 & _); [destruct Hp; lia|].
  eapply prints_lift_eq; [exact H2|]. apply prints_print.
Qed.

Lemma playlist_print_current_ok : prints i n w (playlist_print_current i).
Proof using HL Hinv.
  apply (prints_gets _ id); [done|]. destruct playlist_get_current_song_ok as (p & Hp & Hr).
  eapply prints_lift_eq; [exact Hp|]. destruct (Z.ltb_spec p 0); [apply prints_ret|].
  apply prints_bind; [|intros _; apply prints_ret]. apply queue_print_info_ok; destruct Hr; lia.
Qed.

End with_queue.
End printing.

End with_env.
