(* ===== verification/CommandSafety.v ===== *)
(** * Dispatch keeps the server's invariant

    The handlers that print, that add songs and that concern clients, then
    [command_execute()] and [command_process()] as a whole. *)

From S2P Require Import Prelude Err GLib Song CString Uri Float AudioFormat EventPipe PlayQueue.
From S2P Require Import PlayQueueRep PlayQueueInv PlayerControl.
From S2P Require Import Playlist PlaylistInv PlaylistEdit PlaylistDelete.
From S2P Require Import PlaylistSafety Tokenizer Strtod ArgParser ClientWrite ClientRead Client.
From S2P Require Import Permission Server Command Handlers HandlerSafety.
Local Open Scope Z_scope.

Section with_env.
Context {G : GLib} {HG : GLibSpec G} {T : PlayerThread} {HT : PlayerThreadSpec T}.
Context {L : Limits} {HL : LimitsOk L} {E : Env}.

(** ** Printing the queue *)

Section handlers.
Context (i n : nat) (argv : list cstring) (sv : server) (Hr : ready i n sv).

Lemma ready_inv : exists its ord, w_inv (sv_world sv) its ord.
Proof using Hr. by destruct Hr as [[[? _] _] _]. Qed.

Lemma handle_currentsong_ok : msafe (handle_currentsong i argv) sv (handled n).
Proof using HL Hr.
  destruct ready_inv as (its & ord & Hinv). eapply prints_handled; [|done|done].
  by eapply playlist_print_current_ok.
Qed.

Lemma handle_playlist_ok : msafe (handle_playlist i argv) sv (handled n).
Proof using HL Hr.
  destruct ready_inv as (its & ord & Hinv). unfold handle_playlist. apply msafe_bind_gets.
  eapply msafe_bind_lift; [apply (queue_length_ok _ _ _ (w_rep Hinv))|].
  eapply prints_handled; [|done|done]. eapply queue_print_uris_ok; [done|lia..].
Qed.

Lemma handle_plchanges_ok :
  (2 <= length argv)%nat -> msafe (handle_plchanges i argv) sv (handled n) /\
  msafe (handle_plchangesposid i argv) sv (handled n).
Proof using HL Hr.
  intros Hl. destruct ready_inv as (its & ord & Hinv).
  unfold handle_plchanges, handle_plchangesposid.
  split; take_arg Hs; check_arg Ha; apply msafe_bind_gets; (eapply prints_handled; [|done|done]);
    [by eapply queue_print_changes_info_ok|by eapply queue_print_changes_position_ok].
Qed.

(** The answer depends on what the printing function returns. *)
Lemma prints_answer (m : M bool) e :
  prints i n (sv_world sv) m ->
  msafe (ok ← m; if ok : bool then mret COMMAND_RETURN_OK else print_error2 env_strerror i e) sv
    (handled n).
Proof using HL Hr.
  intros Hm. eapply msafe_bind; [by apply Hm|]. intros [|] sv' [Hr' _].
  - apply msafe_ret. by eapply ready_kept.
  - by apply print_error2_ok.
Qed.

Lemma handle_playlistinfo_ok : msafe (handle_playlistinfo i argv) sv (handled n).
Proof using HL Hr.
  destruct ready_inv as (its & ord & Hinv). unfold handle_playlistinfo. cbv zeta.
  destruct (argc_is argv 2) eqn:Hn.
  - pose proof Hn as Hl%Nat.eqb_eq. take_arg Hs. check_arg Ha. destruct a as [a b].
    apply check_range_range in Ha. apply prints_answer. eapply playlist_print_info_ok; [done|].
    simpl. lia.
  - apply prints_answer. by eapply playlist_print_info_ok.
Qed.

Lemma handle_playlistid_ok : msafe (handle_playlistid i argv) sv (handled n).
Proof using HL Hr.
  destruct ready_inv as (its & ord & Hinv). unfold handle_playlistid. cbv zeta.
  destruct (Nat.leb_spec 2 (length argv)).
  - take_arg Hs. check_arg Ha. apply check_unsigned_range in Ha. apply prints_answer.
    by eapply playlist_print_id_ok.
  - eapply prints_handled; [|done|done]. by eapply playlist_print_info_ok.
Qed.

End handlers.

(** ** [status] *)

Section status.
Context (i n : nat) (w : world) (its : list queue_item) (ord : list nat) (Hinv : w_inv w its ord).

Lemma print_status_options_ok st :
  returns (round_to_int (pc_get_cross_fade (w_player w))) -> prints i n w (print_status_options i st).
Proof using HL Hinv.
  intros Hx. apply (prints_gets _ _ _ _ id); [done|]. cbv zeta.
  eapply prints_lift_eq; [apply (queue_length_ok _ _ _ (w_rep Hinv))|].
  apply prints_lift; [done|]. intros x _. apply prints_print.
Qed.

Lemma print_status_time_ok st :
  (forall b a total elapsed, status_info st = Some (b, a, total, elapsed) ->
    returns (round_to_int elapsed) /\ returns (round_to_int total)) ->
  prints i n w (print_status_time i st).
Proof using HL.
  intros Hst. unfold print_status_time. destruct (status_info st) as [[[[b a] total] elapsed]|].
  2: apply prints_ret. destruct (Hst _ _ _ _ eq_refl) as [He Ht].
  apply prints_lift; [done|]. intros e _. apply prints_lift; [done|]. intros t _.
  apply prints_bind; [apply prints_print|intros _].
  destruct (audio_format_defined a); [apply prints_print|apply prints_ret].
Qed.

(** The part behind the player's answer. *)
Lemma status_printed_ok st :
  returns (round_to_int (pc_get_cross_fade (w_player w))) ->
  returns (pc_get_error_message (w_player w)) ->
  (forall b a total elapsed, status_info st = Some (b, a, total, elapsed) ->
    returns (round_to_int elapsed) /\ returns (round_to_int total)) ->
  prints i n w (print_status_options i st;;
    w ← gets sv_world;
    song ← lift (playlist_get_current_song w);
    print_song i "song" "songid" song;;
    print_status_time i st;;
    (if negb (env_isUpdatingDB =? 0)
     then print i (field "updating_db" (print_i env_isUpdatingDB)) else mret tt);;
    error ← lift (pc_get_error_message (w_player w));
    (match error with Some e => print i (field "error" (lit e)) | None => mret tt end);;
    next ← lift (playlist_get_next_song w);
    print_song i "nextsong" "nextsongid" next;;
    mret COMMAND_RETURN_OK).
Proof using HL Hinv.
  intros Hx He Hst. apply prints_bind; [by apply print_status_options_ok|intros _].
  apply (prints_gets _ _ _ _ id); [done|]. unfold id.
  destruct (playlist_get_current_song_ok _ _ _ Hinv) as (p & Hp & Hpr).
  eapply prints_lift_eq; [exact Hp|]. apply prints_bind; [by eapply print_song_ok|intros _].
  apply prints_bind; [by apply print_status_time_ok|intros _].
  apply prints_bind; [destruct (negb _); [apply prints_print|apply prints_ret]|intros _].
  apply prints_lift; [done|]. intros e _.
  apply prints_bind; [destruct e; [apply prints_print|apply prints_ret]|intros _].
  destruct (playlist_get_next_song_ok _ _ _ Hinv) as (q & Hq & Hqr).
  eapply prints_lift_eq; [exact Hq|]. apply prints_bind; [by eapply print_song_ok|intros _].
  apply prints_ret.
Qed.

End status.

Lemma handle_status_ok i n argv sv :
  ready i n sv -> request_guard H_status i argv sv -> msafe (handle_status i argv) sv (handled n).
Proof using HG HT HL.
  intros Hr (_ & _ & Hf). destruct (ready_inv i n sv Hr) as (its & ord & Hinv). unfold handle_status.
  eapply (msafe_bind _ _ _ (fun st sv' => ready i n sv' /\ w_inv (sv_world sv') its ord /\
    pc_get_status (w_player (sv_world sv)) = Ok (st, w_player (sv_world sv')))).
  - apply msafe_on_world. pose proof (inv_player _ _ _ Hinv) as Hp.
    pose proof (pc_get_status_ok _ Hp) as Hs. apply weaken_hang in Hs.
    destruct (pc_get_status (w_player (sv_world sv))) as [[st p]|e]; [|done]. destruct Hs as [Hok Hn].
    assert (w_inv (set_player p (sv_world sv)) its ord) as Hinv'.
    { destruct Hinv. split; try done. simpl. intros Hq. destruct Hn as [->|]; auto. }
    simpl. split_and!; [|done|done]. apply ready_set_world; [done|]. by exists its, ord.
  - intros st sv' (Hr' & Hinv' & He). destruct (Hf _ _ He) as (Hx & Hm & Ht).
    eapply msafe_mono; [by apply (status_printed_ok i n (sv_world sv') its ord)|].
    intros ret sv2 [Hr2 _]. by eapply ready_kept.
Qed.

(** ** Adding songs *)

Lemma append_songs_ok songs result w :
  invariant w -> safe thread_may_hang (append_songs songs result w) kept.
Proof using HG HT.
  revert w. induction songs as [|s songs IH]; intros w Hw; cbn [append_songs]; [done|].
  pose proof (run_ok (CmdAppend s) w Hw I I) as Ha. simpl in Ha.
  destruct (playlist_append_song s w) as [[[r id] w']|e]; [|done]. simpl in *.
  case_decide; [by apply IH|done].
Qed.

(** A song that has been added has an identifier, and the playlist goes on
    playing in the same mode. *)
Definition added (w : world) (x : (mpd_err * option Z) * world) : Prop :=
  invariant x.2 /\
  (x.1.1 = MPD_SUCCESS -> exists id, x.1.2 = Some id /\ unsigned_arg id /\ (quiet w -> quiet x.2)).

Lemma append_song_added s w :
  invariant w ->
  safe thread_may_hang ('(r, id, w') ← playlist_append_song s w; Ok ((r, id), w')) (added w).
Proof using HG HT.
  clear HL. intros (its & ord & Hinv).
  eapply safe_bind_mono; [by apply (playlist_append_song_ok w its ord)|].
  intros [[r id] w'] [Hfull Hroom].
  destruct (Z.le_gt_cases (q_max_length (w_queue w)) (Z.of_nat (length its))) as [Hl|Hl].
  { destruct (Hfull Hl) as (-> & _ & ->). split; [by exists its, ord|done]. }
  destruct (Hroom ltac:(lia)) as (-> & a & v & cur & -> & _ & Hed & _).
  split; [by eapply edited_invariant|]. intros _. exists a. split; [done|].
  destruct Hed as (its' & Hu & ord' & Hinv' & _ & Hp & Hf). split.
  - assert (a ∈ item_id <$> its') as (it & -> & [p Hit]%list_elem_of_lookup)%list_elem_of_fmap.
    { rewrite (unversioned_ids _ _ Hu). unfold appended. rewrite fmap_app. set_solver. }
    pose proof (w_rep Hinv') as Hrep. destruct (ids_forward _ _ _ (rep_ids _ _ _ Hrep) _ _ Hit) as [Hi _].
    pose proof (rep_max _ _ _ Hrep). unfold unsigned_arg. lia.
  - unfold quiet. simpl. rewrite Hp, (frame_random _ _ Hf). done.
Qed.

Lemma append_file_ok path w :
  invariant w -> safe thread_may_hang (append_file path w) (added w).
Proof using HG HT.
  intros Hw. unfold append_file, playlist_append_file.
  destruct (env_song_file_load path); [by apply append_song_added|]. by split.
Qed.

Lemma append_uri_ok uri w :
  invariant w -> safe thread_may_hang (append_uri uri w) (added w).
Proof using HG HT.
  intros Hw. unfold append_uri, playlist_append_uri, song_by_uri.
  destruct (env_db_get_song (to_string uri)); [by apply append_song_added|].
  destruct (uri_has_scheme (lit (to_string uri))) eqn:Hs; [|by split].
  unfold song_remote_new, song_alloc. rewrite bool_decide_true.
  - by apply append_song_added.
  - intros Hu. by rewrite Hu in Hs.
Qed.

(** The state of the server after a song has been added. *)
Definition added_server (i n : nat) (w : world) (r : mpd_err * option Z) (sv : server) : Prop :=
  ready i n sv /\ added w (r, sv_world sv).

Lemma append_server_ok i n (f : world -> res ((mpd_err * option Z) * world)) sv :
  ready i n sv -> safe thread_may_hang (f (sv_world sv)) (added (sv_world sv)) ->
  msafe (on_world f) sv (added_server i n (sv_world sv)).
Proof.
  intros Hr Hf. apply msafe_on_world. eapply safe_mono; [exact Hf|]. intros [r w] Ha.
  split; [|done]. apply ready_set_world; [done|apply Ha].
Qed.

Lemma msafe_bind_got {B} i c (k : client -> M B) sv Q :
  sv_clients sv !! i = Some c -> msafe (k c) sv Q -> msafe (get_client i ≫= k) sv Q.
Proof.
  intros Hc Hk. unfold msafe, mbind, M_bind, get_client, on_client in *. rewrite Hc.
  rewrite list_insert_id by done. by destruct sv.
Qed.

Lemma msafe_bind_get_client {B} i n (k : client -> M B) sv Q :
  ready i n sv -> (forall c, sv_clients sv !! i = Some c -> msafe (k c) sv Q) ->
  msafe (get_client i ≫= k) sv Q.
Proof.
  intros Hr Hk. destruct (ready_client _ _ _ Hr) as (c & Hc & _). eauto using msafe_bind_got.
Qed.

Lemma handle_add_ok i n argv sv :
  ready i n sv -> (2 <= length argv)%nat -> msafe (handle_add i argv) sv (handled n).
Proof using HG HT HL.
  intros Hr Hl. unfold handle_add. cbv zeta. take_arg Hs.
  assert (forall f, safe thread_may_hang (f (sv_world sv)) (added (sv_world sv)) ->
    msafe ('(result, _) ← on_world f; print_error2 env_strerror i result) sv (handled n)) as Happ.
  { intros f Hf. eapply msafe_bind; [by eapply append_server_ok|]. intros [r id] sv' [Hr' _].
    by apply print_error2_ok. }
  assert (invariant (sv_world sv)) as Hinv by apply Hr.
  destruct (has_prefix _ _).
  { eapply msafe_bind_get_client; [done|]. intros c Hc. case_decide; [by apply print_error2_ok|].
    by apply Happ, append_file_ok. }
  destruct (uri_has_scheme s) eqn:Hu.
  - unfold uri_supported_scheme. rewrite Hu. eapply msafe_bind_lift; [done|].
    destruct (negb _); [by apply reject_ok|]. by apply Happ, append_uri_ok.
  - apply world_answer_ok; [done|]. unfold addAllIn. destruct (env_db_walk s).
    by apply append_songs_ok.
Qed.

(** A move that fails changes nothing. *)
Lemma playlist_move_id_fails id t w r w' :
  playlist_move_id id t w = Ok (r, w') -> r <> MPD_SUCCESS -> w' = w.
Proof.
  unfold playlist_move_id, playlist_move_range, playlist_move_apply. intros H Hne.
  repeat (match type of H with
          | (?m ≫= _) = Ok _ => destruct m; cbn [mbind res_bind] in H; [|done]
          | (if ?b then _ else _) = Ok _ => destruct b
          end; try (by simplify_eq)).
Qed.

Lemma addid_move_ok i n argv id sv :
  ready i n sv -> unsigned_arg id ->
  (argc_is argv 3 = true -> quiet (sv_world sv) /\
    forall to, parsed check_unsigned 2 argv = Some to -> to < 2 ^ 31) ->
  msafe (addid_move i argv id) sv (handled n).
Proof using HG HT HL.
  intros Hr Hid Hg. unfold addid_move. cbv zeta.
  assert (forall s sv', ready i n sv' ->
    msafe (print i s;; mret COMMAND_RETURN_OK) sv' (handled n)) as Hdone.
  { intros s sv' Hr'. eapply prints_handled; [apply prints_print|done|done]. }
  destruct (argc_is argv 3) eqn:Hn; [|by apply Hdone].
  destruct (Hg eq_refl) as [Hq Hto]. apply Nat.eqb_eq in Hn. take_arg Hs. check_arg Ha.
  assert (a < 2 ^ 31) as Hlt by (apply Hto; unfold parsed; rewrite Hs; simpl; by rewrite Ha).
  apply check_unsigned_range in Ha. rewrite i32_small by lia.
  eapply (msafe_bind _ _ _ (fun r sv' => ready i n sv' /\ (r <> MPD_SUCCESS -> quiet (sv_world sv')))).
  - apply msafe_on_world. pose proof (run_ok (CmdMoveId id a) (sv_world sv) (proj1 (proj1 (proj1 Hr)))) as H.
    specialize (H ltac:(split; [done|unfold int_arg; lia]) ltac:(left; lia)). simpl in H.
    destruct (playlist_move_id id a (sv_world sv)) as [[r w']|e] eqn:He; [|done].
    split; [by apply ready_set_world|]. intros Hne. simpl. by rewrite (playlist_move_id_fails _ _ _ _ _ He Hne).
  - intros r sv1 [Hr1 Hq1]. case_decide as Hok; [by apply Hdone|]. specialize (Hq1 Hok).
    eapply (msafe_bind _ _ _ (fun _ sv2 => kept_server n sv2 /\ quiet (sv_world sv2))).
    { unfold print_error2. destruct (mpd_err_reply _ r).
      - unfold reject. eapply msafe_bind; [by apply command_error_ok|]. intros _ sv2 [Hk Hw].
        apply msafe_ret. by rewrite Hw.
      - apply msafe_ret. split; [by eapply ready_kept|done]. }
    intros ret sv2 [Hk2 Hq2]. eapply (msafe_bind _ _ _ (fun _ => kept_server n)); [|done].
    apply msafe_on_world. eapply safe_mono; [apply (run_ok (CmdDeleteId id)); [apply Hk2|done|]|].
    + intros p _ _ o _. by apply quiet_delete_safe.
    + intros [r' w'] Hw. by apply kept_set_world.
Qed.

Lemma handle_addid_ok i n argv sv :
  ready i n sv -> (2 <= length argv)%nat -> request_guard H_addid i argv sv ->
  msafe (handle_addid i argv) sv (handled n).
Proof using HG HT HL.
  intros Hr Hl (_ & _ & Hg). unfold handle_addid. cbv zeta. take_arg Hs.
  assert (invariant (sv_world sv)) as Hinv by apply Hr.
  match goal with |- context [on_world (append_file _) ≫= ?k] => set (finish := k) end.
  assert (forall f, safe thread_may_hang (f (sv_world sv)) (added (sv_world sv)) ->
    msafe (on_world f ≫= finish) sv (handled n)) as Happ.
  { intros f Hf. eapply msafe_bind; [by eapply append_server_ok|]. intros [r id] sv' [Hr' [_ Ha]].
    subst finish. destruct (decide (r = MPD_SUCCESS)) as [->|Hne].
    - destruct (Ha eq_refl) as (a & [= ->] & Hu & Hq). apply addid_move_ok; [done..|].
      intros H3. destruct (Hg H3) as [Hq1 Hto]. split; [by apply Hq|done].
    - destruct r; try done; by apply print_error2_ok. }
  destruct (has_prefix _ _).
  { eapply msafe_bind_get_client; [done|]. intros c Hc. case_decide; [by apply print_error2_ok|].
    by apply Happ, append_file_ok. }
  assert (forall b : bool, msafe (if negb b then reject i unsupported_scheme
    else on_world (append_uri s) ≫= finish) sv (handled n)) as Hend.
  { intros [|]; simpl; [by apply Happ, append_uri_ok|by apply reject_ok]. }
  destruct (uri_has_scheme s) eqn:Hu; [|by apply (Hend true)].
  unfold uri_supported_scheme. rewrite Hu. eapply msafe_bind_lift; [done|]. apply Hend.
Qed.

(** ** Clients *)

Section clients.
Context (i n : nat) (argv : list cstring) (sv : server) (Hr : ready i n sv).

(** A change of the client that keeps its invariant. *)
Lemma on_client_ok {A} (f : client -> res (A * client)) :
  (forall c, sv_clients sv !! i = Some c -> client_inv client_max_output_buffer_size c ->
    wp (f c) (fun '(_, c') => client_inv client_max_output_buffer_size c')) ->
  msafe (on_client i f) sv (fun _ => ready i n).
Proof using Hr.
  intros Hf. destruct (ready_client _ _ _ Hr) as (c & Hc & Hi).
  destruct (wp_inv _ _ (Hf c Hc Hi)) as ([a c'] & He & Hi'). unfold msafe, on_client. rewrite Hc, He.
  by apply ready_set_client.
Qed.

Lemma on_client_notify_ok {A} (f : client -> notify -> res (A * client * notify)) :
  (forall c m, client_inv client_max_output_buffer_size c ->
    wp (f c m) (fun '(_, c', _) => client_inv client_max_output_buffer_size c')) ->
  msafe (on_client_notify i f) sv (fun _ => ready i n).
Proof using Hr.
  intros Hf. destruct (ready_client _ _ _ Hr) as (c & Hc & Hi).
  unfold msafe, on_client_notify. rewrite Hc. cbv zeta.
  destruct (wp_inv _ _ (Hf c (p_notify (w_player (sv_world sv))) Hi)) as ([[a c'] m] & He & Hi').
  rewrite He. cbn [mbind res_bind]. apply (ready_set_client i i n c' (sv_set_world _ sv)); [|done].
  apply ready_set_world; [done|]. destruct Hr as [[[(its & ord & Hw) _] _] _]. exists its, ord.
  destruct Hw. by split.
Qed.

Lemma handled_ret ret sv' : ready i n sv' -> msafe (mret ret) sv' (handled n).
Proof. intros Hr'. apply msafe_ret. by eapply ready_kept. Qed.

Lemma assert_argc {B} m (k : unit -> M B) Q :
  length argv = m -> msafe (k tt) sv Q -> msafe (lift (assert (argc_is argv m)) ≫= k) sv Q.
Proof. intros <- Hk. unfold argc_is. rewrite Nat.eqb_refl. by eapply msafe_bind_lift. Qed.

Lemma handle_password_ok : (2 <= length argv)%nat -> msafe (handle_password i argv) sv (handled n).
Proof using HL Hr.
  intros Hl. unfold handle_password. take_arg Hs. apply msafe_bind_gets.
  destruct (getPermissionFromPassword _ _); [|by apply reject_ok].
  eapply msafe_bind; [apply on_client_ok; intros c _ Hi; by destruct Hi|].
  intros ? sv' Hr'. by apply handled_ret.
Qed.

Lemma handle_idle_ok :
  request_guard H_idle i argv sv -> msafe (handle_idle i argv) sv (handled n).
Proof using HL Hr.
  intros (_ & _ & Hg). unfold handle_idle. cbv zeta.
  eapply msafe_bind; [apply on_client_ok|intros ? sv' Hr'; by apply handled_ret].
  intros c Hc Hi. destruct (delivers_some (cl_output c)) as [total Hd].
  eapply wp_mono; [by apply (client_idle_wait_ok _ limits_ok total); auto|].
  by intros [b c'] [? _].
Qed.

Lemma handle_subscribe_ok : length argv = 2%nat -> msafe (handle_subscribe i argv) sv (handled n).
Proof using HL Hr.
  intros Hl. unfold handle_subscribe. apply assert_argc; [done|]. take_arg Hs.
  eapply msafe_bind; [apply on_client_notify_ok|].
  - intros c m Hi. destruct (client_subscribe s c m) as [[r c'] m'] eqn:He. simpl.
    by apply (client_subscribe_inv _ _ _ _ _ _ _ Hi He).
  - intros r sv' Hr'. destruct r; [by apply handled_ret|by apply reject_ok..].
Qed.

Lemma handle_unsubscribe_ok : length argv = 2%nat -> msafe (handle_unsubscribe i argv) sv (handled n).
Proof using HL Hr.
  intros Hl. unfold handle_unsubscribe. apply assert_argc; [done|]. take_arg Hs.
  eapply msafe_bind; [apply on_client_notify_ok|].
  - intros c m Hi. eapply wp_mono; [by apply client_unsubscribe_ok|]. by intros [[r c'] m'] [? _].
  - intros [|] sv' Hr'; [by apply handled_ret|by apply reject_ok].
Qed.

Lemma print_all_handled ls sv' :
  ready i n sv' -> msafe (print_all i ls;; mret COMMAND_RETURN_OK) sv' (handled n).
Proof using HL. intros Hr'. eapply prints_handled; [apply prints_all|done|done]. Qed.

Lemma handle_channels_ok : length argv = 1%nat -> msafe (handle_channels i argv) sv (handled n).
Proof using HL Hr.
  intros Hl. unfold handle_channels. apply assert_argc; [done|]. apply msafe_bind_gets.
  by apply print_all_handled.
Qed.

Lemma handle_read_messages_ok :
  length argv = 1%nat -> msafe (handle_read_messages i argv) sv (handled n).
Proof using HL Hr.
  intros Hl. unfold handle_read_messages. apply assert_argc; [done|].
  eapply msafe_bind; [apply on_client_ok|intros ms sv' Hr'; by apply print_all_handled].
  intros c _ Hi. by destruct Hi.
Qed.

Lemma handle_registry_ok :
  msafe (handle_commands i argv) sv (handled n) /\ msafe (handle_not_commands i argv) sv (handled n) /\
  msafe (handle_urlhandlers i argv) sv (handled n).
Proof using HL Hr.
  unfold handle_commands, handle_not_commands, handle_urlhandlers.
  split_and!; (eapply msafe_bind_get_client; [done|]); intros c Hc;
    [by apply print_all_handled..|].
  eapply (msafe_bind _ _ _ (fun _ => ready i n)); [|intros _ sv' Hr'; by apply print_all_handled].
  destruct (client_is_local c); [|by apply msafe_ret].
  eapply msafe_mono; [by apply print_ok|]. by intros _ sv' [].
Qed.

End clients.

Lemma send_message_ok msg l :
  Forall (client_inv client_max_output_buffer_size) l ->
  wp (send_message msg l) (fun '(_, l') =>
    Forall (client_inv client_max_output_buffer_size) l' /\ length l' = length l).
Proof using HL.
  induction l as [|c l IH]; intros Hl; cbn [send_message]; [done|]. apply Forall_cons in Hl as [Hc Hl].
  destruct (delivers_some (cl_output c)) as [total Hd].
  destruct (wp_inv _ _ (client_push_message_ok _ limits_ok total msg c Hc Hd)) as ([p c'] & -> & Hi & _).
  cbn [mbind res_bind]. destruct (wp_inv _ _ (IH Hl)) as ([b l'] & -> & Hl' & Hn).
  cbn [mbind res_bind]. split; [by constructor|simpl; lia].
Qed.

Lemma handle_send_message_ok i n argv sv :
  ready i n sv -> length argv = 3%nat -> msafe (handle_send_message i argv) sv (handled n).
Proof using HL.
  intros Hr Hl. unfold handle_send_message. apply assert_argc; [done|]. take_arg Hs1. take_arg Hs2.
  destruct (negb _); [by apply reject_ok|]. apply msafe_bind_gets.
  destruct Hr as [[[Hw Hc] Hn] Hcur].
  destruct (wp_inv _ _ (send_message_ok (ClientMessage s s0) _ Hc)) as ([b l'] & He & Hl' & Hln).
  eapply msafe_bind_lift; [exact He|]. cbv beta iota. apply msafe_bind_modify.
  assert (ready i n (sv_set_clients l' sv)) as Hr'.
  { split; [split; [by split|simpl; lia]|done]. }
  destruct b; [by apply (handled_ret i)|by apply reject_ok].
Qed.

(** ** Dispatch *)

(** The registry admits no fewer arguments than the handler reads. *)
Definition entry_ok (c : Command.command) : bool :=
  (Z.of_nat (needs (cmd_handler c)) <=? cmd_min c + 1) &&
  match asserted (cmd_handler c) with
  | Some m => (cmd_min c =? Z.of_nat m - 1) && (cmd_max c =? Z.of_nat m - 1)
  | None => true
  end.

Lemma entries_ok : forallb entry_ok commands = true.
Proof. vm_compute. reflexivity. Qed.

Lemma registry_argc c argv :
  c ∈ commands -> argc_fits c (Z.of_nat (length argv)) -> argc_ok (cmd_handler c) argv.
Proof.
  intros Hc Hf. pose proof entries_ok as H. rewrite forallb_forall in H.
  specialize (H c (proj1 (list_elem_of_In _ _) Hc)). unfold entry_ok in H.
  apply andb_true_iff in H as [H1%Z.leb_le H2]. unfold argc_fits in Hf. split; [lia|].
  intros m Hm. rewrite Hm in H2. apply andb_true_iff in H2 as [H2%Z.eqb_eq H3%Z.eqb_eq].
  destruct (needs (cmd_handler c)) eqn:Hn.
  - destruct (cmd_handler c); try done; injection Hm as <-; lia.
  - lia.
Qed.

Lemma run_handler_ok h i n argv sv :
  ready i n sv -> argc_ok h argv -> request_guard h i argv sv ->
  msafe (run_handler h i argv) sv (handled n).
Proof using HG HT HL.
  intros Hr [Hl Ha] Hg. pose proof Hg as (Hm & _).
  destruct (handle_registry_ok i n argv sv Hr) as (Hreg1 & Hreg2 & Hreg3).
  destruct h; try done; cbn [needs] in Hl; cbn [run_handler].
  all: try (by apply (handled_ret i)).
  all: first
    [ by eauto using handle_add_ok, handle_addid_ok, handle_clear_ok, handle_clearerror_ok,
        handle_currentsong_ok, handle_idle_ok, handle_next_ok, handle_password_ok, handle_pause_ok,
        handle_play_ok, handle_playid_ok, handle_playlist_ok, handle_playlistid_ok,
        handle_playlistinfo_ok, handle_previous_ok, handle_seekcur_ok, handle_setvol_ok,
        handle_shuffle_ok, handle_status_ok, handle_stop_ok, handle_move_ok
    | by eauto using handle_channels_ok, handle_read_messages_ok, handle_send_message_ok,
        handle_subscribe_ok, handle_unsubscribe_ok
    | by (edestruct handle_flags_ok as (? & ? & ? & ?); eauto)
    | by (edestruct handle_seek_ok as (? & ?); eauto)
    | by (edestruct handle_swaps_ok as (? & ? & ?); eauto)
    | by (edestruct handle_deletes_ok as (? & ?); eauto)
    | by (edestruct handle_player_options_ok as (? & ? & ?); eauto)
    | by (edestruct handle_plchanges_ok as (? & ?); eauto)
    | apply with_priority_ok; eauto using prio_loop_ok, prioid_loop_ok ].
Qed.

(** The guard of a request that passes the checks. *)
Definition execute_guard (i : nat) (argv : list cstring) (sv : server) : Prop :=
  forall c name cmd, sv_clients sv !! i = Some c -> argv !! 0%nat = Some name ->
    find_command name = Some cmd ->
    command_check_request cmd (client_get_permission c) name (Z.of_nat (length argv)) = None ->
    request_guard (cmd_handler cmd) i argv sv.

Lemma kept_current n cur sv : kept_server n sv -> kept_server n (sv_set_current cur sv).
Proof. done. Qed.

(** No command is run but one that the registry knows, the client is
    permitted to use and whose arguments have the right number. *)
Lemma command_checked_lookup_ok i n permission argv sv :
  kept_server n sv -> (i < n)%nat ->
  msafe (command_checked_lookup i permission argv) sv (fun cmd sv' => kept_server n sv' /\
    match cmd with
    | None => True
    | Some cmd => sv' = sv_set_current (Some (cmd_cmd cmd)) sv /\ exists name,
        argv !! 0%nat = Some name /\ find_command name = Some cmd /\
        command_check_request cmd permission name (Z.of_nat (length argv)) = None
    end).
Proof using HL.
  intros Hk Hi. unfold command_checked_lookup. apply msafe_bind_modify.
  destruct argv as [|name args]; [by apply msafe_ret|].
  eapply msafe_bind_lift; [apply command_lookup_find|].
  assert (forall e sv', ready i n sv' -> msafe (command_error i e;; mret None) sv'
    (fun (cmd : option Command.command) sv2 => kept_server n sv2 /\ cmd = None)) as Herr.
  { intros e sv' Hr'. eapply msafe_bind; [by apply command_error_ok|]. by intros _ sv2 [? _]. }
  destruct (find_command name) as [cmd|] eqn:Hf.
  - apply msafe_bind_modify. destruct (command_check_request _ _ _ _) eqn:Hc.
    + eapply msafe_mono; [apply Herr|]; [by split|]. by intros ? sv2 [? ->].
    + apply msafe_ret. split; [done|]. split; [done|]. by exists name.
  - eapply msafe_mono; [apply Herr|]; [by split|]. by intros ? sv2 [? ->].
Qed.

Lemma command_execute_ok i n argv sv :
  kept_server n sv -> (i < n)%nat -> execute_guard i argv sv ->
  msafe (command_execute i argv) sv (handled n).
Proof using HG HT HL.
  intros Hk Hi Hg. unfold command_execute.
  destruct (lookup_lt_is_Some_2 (sv_clients sv) i) as [c Hc]; [destruct Hk; lia|].
  eapply msafe_bind_got; [done|].
  eapply msafe_bind; [by apply (command_checked_lookup_ok i n (client_get_permission c) argv)|].
  intros cmd sv1 [Hk1 Hcmd]. eapply (msafe_bind _ _ _ (handled n)).
  - destruct cmd as [cmd|]; [|by apply msafe_ret]. destruct Hcmd as (-> & name & H0 & Hf & Hchk).
    apply run_handler_ok; [by split|apply registry_argc|].
    + by apply find_command_Some in Hf as [? _].
    + by eapply command_check_request_argc.
    + exact (Hg _ _ _ Hc H0 Hf Hchk).
  - intros ret sv2 Hk2. apply msafe_bind_modify. by apply msafe_ret.
Qed.

(** A line the tokenizer splits into words. *)
Definition line_words (line : cstring) : option (list cstring) :=
  match tokenizer_next_word line with
  | (TWord name, rest) =>
      match read_params (COMMAND_ARGV_MAX - 1) [name] rest with
      | (argv, _, []) => Some argv
      | (argv, _, _) => if (COMMAND_ARGV_MAX <=? length argv)%nat then Some argv else None
      end
  | _ => None
  end.

Lemma command_process_ok i n num line argv sv :
  kept_server n sv -> (i < n)%nat -> line_words line = Some argv -> execute_guard i argv sv ->
  msafe (command_process i num line) sv (handled n).
Proof using HG HT HL.
  intros Hk Hi Hw Hg. unfold command_process, line_words in *. cbv zeta. apply msafe_bind_modify.
  destruct (tokenizer_next_word line) as [[name| |e] rest]; try done.
  destruct (read_params _ _ _) as [[argv' last] rest']. apply msafe_bind_modify.
  destruct (Nat.leb_spec COMMAND_ARGV_MAX (length argv')).
  - eapply msafe_bind; [apply (command_error_ok i n); by split|]. intros _ sv' [Hk' _].
    apply msafe_bind_modify. by apply msafe_ret.
  - destruct rest' as [|ch rest']; simplify_eq. rewrite bool_decide_true by done. simpl.
    by apply command_execute_ok.
Qed.

End with_env.
