(* ===== verification/ClientProcess.v ===== *)
(** * Processing a line of a client

    [src/client_process.c]: a line is a command of its own, a part of a
    command list, or ends the wait for events. *)

From S2P Require Import Prelude Err GLib Float Song AudioFormat EventPipe PlayerControl PlayQueue CString Uri Playlist.
From S2P Require Import PlaylistInv PlaylistSafety Tokenizer Strtod ArgParser ClientRead ClientWrite Client Permission.
From S2P Require Import Server Command Handlers HandlerSafety CommandSafety.

Local Open Scope Z_scope.

#[global] Instance command_return_eq_dec : EqDecision command_return.
Proof. solve_decision. Defined.

Definition CLIENT_LIST_MODE_BEGIN : cstring := lit "command_list_begin".
Definition CLIENT_LIST_OK_MODE_BEGIN : cstring := lit "command_list_ok_begin".
Definition CLIENT_LIST_MODE_END : cstring := lit "command_list_end".

Section with_env.
Context {G : GLib} {T : PlayerThread} {L : Limits} {E : Env}.

Definition change_client (i : nat) (f : client -> client) : M unit :=
  on_client i (fun c => Ok (tt, f c)).
Definition write_output (i : nat) : M unit :=
  on_client i (fun c => c ← cl_write_output client_max_output_buffer_size c; Ok (tt, c)).

(** The answer between the commands of a list. *)
Definition list_answer (i : nat) (list_ok : bool) : M unit :=
  if list_ok then print i (lit "list_OK" ++ nl) else mret tt.

(** The loop from the command with number [num]. *)
Fixpoint process_list (i : nat) (list_ok : bool) (num : Z) (list : list cstring)
  : M command_return :=
  match list with
  | [] => mret COMMAND_RETURN_OK
  | cmd :: list' =>
      ret ← command_process i num cmd;
      c ← get_client i;
      if decide (ret <> COMMAND_RETURN_OK) then mret ret
      else if client_is_expired c then mret ret
      else list_answer i list_ok;; process_list i list_ok (u32 (num + 1)) list'
  end.
Definition client_process_command_list (i : nat) (list_ok : bool) (list : list cstring)
  : M command_return :=
  process_list i list_ok 0 list.

(** What follows a command or a list of commands; [cleanup] is skipped when
    the client is closed. *)
Definition finish_request (i : nat) (ret : command_return) (cleanup : M unit) : M command_return :=
  c ← get_client i;
  if bool_decide (ret = COMMAND_RETURN_CLOSE) || client_is_expired c then mret COMMAND_RETURN_CLOSE
  else
    (if decide (ret = COMMAND_RETURN_OK) then command_success i else mret tt);;
    write_output i;;
    cleanup;;
    mret ret.

(** [noidle] *)
Definition leave_idle (i : nat) : M command_return :=
  c ← get_client i;
  (if cl_idle_waiting c then
     change_client i (fun c => cl_set_idle false (cl_idle_flags c) (cl_idle_subscriptions c) c);;
     command_success i;;
     write_output i
   else mret tt);;
  mret COMMAND_RETURN_OK.

(** A line while a command list is received. *)
Definition process_list_line (i : nat) (c : client) (line : cstring) : M command_return :=
  if decide (line = CLIENT_LIST_MODE_END) then
    let list := rev (cl_cmd_list c) in
    change_client i (fun c => cl_set_cmd_list list (cl_cmd_list_OK c) (cl_cmd_list_size c) c);;
    ret ← client_process_command_list i (negb (cl_cmd_list_OK c =? 0)) list;
    finish_request i ret (change_client i (fun c => cl_set_cmd_list [] (-1) (cl_cmd_list_size c) c))
  else
    let size := u64 (cl_cmd_list_size c + (Z.of_nat (length line) + 1)) in
    let count := change_client i (fun c => cl_set_cmd_list (cl_cmd_list c) (cl_cmd_list_OK c) size c) in
    count;;
    if client_max_command_list_size <? size then mret COMMAND_RETURN_CLOSE
    else
      change_client i (fun c =>
        cl_set_cmd_list (line :: cl_cmd_list c) (cl_cmd_list_OK c) (cl_cmd_list_size c) c);;
      mret COMMAND_RETURN_OK.

Definition set_list_mode (i : nat) (mode : Z) : M command_return :=
  change_client i (fun c => cl_set_cmd_list (cl_cmd_list c) mode (cl_cmd_list_size c) c);;
  mret COMMAND_RETURN_OK.

Definition client_process_line (i : nat) (line : cstring) : M command_return :=
  c ← get_client i;
  if decide (line = lit "noidle") then leave_idle i
  else if cl_idle_waiting c then mret COMMAND_RETURN_CLOSE
  else if 0 <=? cl_cmd_list_OK c then process_list_line i c line
  else if decide (line = CLIENT_LIST_MODE_BEGIN) then set_list_mode i 0
  else if decide (line = CLIENT_LIST_OK_MODE_BEGIN) then set_list_mode i 1
  else
    ret ← command_process i 0 line;
    finish_request i ret (mret tt).

(** Several lines. *)
Fixpoint client_process_lines (i : nat) (lines : list cstring) : M (list command_return) :=
  match lines with
  | [] => mret []
  | line :: lines' =>
      ret ← client_process_line i line;
      rets ← client_process_lines i lines';
      mret (ret :: rets)
  end.

End with_env.

(** * Lines of a client: safety and command lists

    [client_process_line()] returns and keeps the server's invariant within
    the guards of the commands it runs; a command list is collected without
    any effect and run in the order in which it was sent. *)

Section with_env.
Context {G : GLib} {HG : GLibSpec G} {T : PlayerThread} {HT : PlayerThreadSpec T}.
Context {L : Limits} {HL : LimitsOk L} {E : Env}.

(** ** Safety *)

(** Like [msafe_bind], for a continuation that depends on how the first
    part ran. *)
Lemma msafe_bind_eq {A B} (m : M A) (f : A -> M B) sv (P : A -> server -> Prop) Q :
  msafe m sv P -> (forall a sv', m sv = Ok (a, sv') -> P a sv' -> msafe (f a) sv' Q) ->
  msafe (m ≫= f) sv Q.
Proof.
  unfold msafe, mbind, M_bind, safe. intros Hm Hf.
  destruct (m sv) as [[a sv']|e]; [by apply Hf|done].
Qed.

Section client.
Context (i n : nat) (Hi : (i < n)%nat).

Lemma kept_client sv :
  kept_server n sv -> exists c, sv_clients sv !! i = Some c /\
    client_inv client_max_output_buffer_size c.
Proof using Hi.
  intros [[_ Hc] Hn]. destruct (lookup_lt_is_Some_2 (sv_clients sv) i) as [c Hl]; [lia|].
  exists c. split; [done|]. by eapply Forall_lookup_1.
Qed.

Lemma msafe_bind_client {B} (k : client -> M B) sv Q :
  kept_server n sv -> (forall c, sv_clients sv !! i = Some c -> msafe (k c) sv Q) ->
  msafe (get_client i ≫= k) sv Q.
Proof using Hi.
  intros Hk Hc. destruct (kept_client sv Hk) as (c & Hl & _). eauto using msafe_bind_got.
Qed.

Lemma on_client_kept {A} (f : client -> res (A * client)) sv :
  kept_server n sv ->
  (forall c, client_inv client_max_output_buffer_size c ->
    wp (f c) (fun '(_, c') => client_inv client_max_output_buffer_size c')) ->
  msafe (on_client i f) sv (fun _ => kept_server n).
Proof using Hi.
  intros Hk Hf. destruct (kept_client sv Hk) as (c & Hc & Hinv).
  destruct (wp_inv _ _ (Hf c Hinv)) as ([a c'] & He & Hi'). unfold msafe, on_client. rewrite Hc, He.
  by apply kept_set_client.
Qed.

Lemma change_client_kept f sv :
  kept_server n sv ->
  (forall c, client_inv client_max_output_buffer_size c ->
    client_inv client_max_output_buffer_size (f c)) ->
  msafe (change_client i f) sv (fun _ => kept_server n).
Proof using Hi. intros Hk Hf. by apply on_client_kept. Qed.

Lemma print_kept s sv : kept_server n sv -> msafe (print i s) sv (fun _ => kept_server n).
Proof using HL Hi.
  intros Hk. apply on_client_kept; [done|]. intros c Hc.
  destruct (delivers_some (cl_output c)) as [total Hd].
  destruct (wp_inv _ _ (cl_puts_ok _ limits_ok s total c Hd (ci_output _ _ Hc)))
    as (c' & -> & Hs & _ & Ho). by eapply same_client_inv.
Qed.

Lemma write_output_kept sv : kept_server n sv -> msafe (write_output i) sv (fun _ => kept_server n).
Proof using HL Hi.
  intros Hk. apply on_client_kept; [done|]. intros c Hc.
  destruct (delivers_some (cl_output c)) as [total Hd].
  destruct (wp_inv _ _ (cl_write_output_ok _ limits_ok total c Hd (ci_output _ _ Hc)))
    as (c' & -> & Hs & _ & Ho). by eapply same_client_inv.
Qed.

Lemma list_answer_kept ok sv : kept_server n sv -> msafe (list_answer i ok) sv (fun _ => kept_server n).
Proof using HL Hi. destruct ok; [apply print_kept|]. intros Hk. by apply msafe_ret. Qed.

(** A command that is run when a line is processed. *)
Definition line_guard (line : cstring) (sv : server) : Prop :=
  exists argv, line_words line = Some argv /\ execute_guard i argv sv.

(** The commands of a list, each in the state in which it is run. *)
Fixpoint list_guard (ok : bool) (num : Z) (list : list cstring) (sv : server) : Prop :=
  match list with
  | [] => True
  | cmd :: list' => line_guard cmd sv /\ forall sv1 sv2,
      command_process i num cmd sv = Ok (COMMAND_RETURN_OK, sv1) ->
      list_answer i ok sv1 = Ok (tt, sv2) -> list_guard ok (u32 (num + 1)) list' sv2
  end.

Lemma process_list_ok ok num list sv :
  kept_server n sv -> list_guard ok num list sv ->
  msafe (process_list i ok num list) sv (handled n).
Proof using HG HT HL Hi.
  revert num sv. induction list as [|cmd list IH]; intros num sv Hk Hg; cbn [process_list].
  { by apply msafe_ret. }
  destruct Hg as [(argv & Hw & Hg) Hrest].
  eapply msafe_bind_eq; [by eapply command_process_ok|]. intros ret sv1 He Hk1.
  apply msafe_bind_client; [done|]. intros c _. case_decide as Hret; [by apply msafe_ret|].
  destruct (client_is_expired c); [by apply msafe_ret|].
  assert (ret = COMMAND_RETURN_OK) as -> by (by destruct (decide (ret = COMMAND_RETURN_OK))).
  eapply msafe_bind_eq; [by apply list_answer_kept|]. intros [] sv2 He2 Hk2.
  apply IH; [done|]. by eapply Hrest.
Qed.

Lemma finish_request_ok ret cleanup sv :
  kept_server n sv -> (forall sv', kept_server n sv' -> msafe cleanup sv' (fun _ => kept_server n)) ->
  msafe (finish_request i ret cleanup) sv (handled n).
Proof using HL Hi.
  intros Hk Hc. unfold finish_request. apply msafe_bind_client; [done|]. intros c _.
  destruct (_ || _); [by apply msafe_ret|].
  eapply (msafe_bind _ _ _ (fun _ => kept_server n)).
  { case_decide; [by apply print_kept|by apply msafe_ret]. }
  intros _ sv1 Hk1. eapply (msafe_bind _ _ _ (fun _ => kept_server n)); [by apply write_output_kept|].
  intros _ sv2 Hk2. eapply (msafe_bind _ _ _ (fun _ => kept_server n)); [by apply Hc|].
  intros _ sv3 Hk3. by apply msafe_ret.
Qed.

Lemma cmd_list_inv l ok size c :
  client_inv client_max_output_buffer_size c ->
  client_inv client_max_output_buffer_size (cl_set_cmd_list l ok size c).
Proof. by intros []. Qed.

(** The guard of a line: of the command, or of the list that it ends. *)
Definition process_guard (line : cstring) (sv : server) : Prop :=
  forall c, sv_clients sv !! i = Some c -> line <> lit "noidle" -> cl_idle_waiting c = false ->
    if 0 <=? cl_cmd_list_OK c
    then line = CLIENT_LIST_MODE_END ->
         list_guard (negb (cl_cmd_list_OK c =? 0)) 0 (rev (cl_cmd_list c))
           (sv_set_clients (<[i := cl_set_cmd_list (rev (cl_cmd_list c)) (cl_cmd_list_OK c)
                                     (cl_cmd_list_size c) c]> (sv_clients sv)) sv)
    else line <> CLIENT_LIST_MODE_BEGIN -> line <> CLIENT_LIST_OK_MODE_BEGIN -> line_guard line sv.

Lemma process_list_line_ok c line sv :
  kept_server n sv -> sv_clients sv !! i = Some c ->
  (line = CLIENT_LIST_MODE_END ->
   list_guard (negb (cl_cmd_list_OK c =? 0)) 0 (rev (cl_cmd_list c))
     (sv_set_clients (<[i := cl_set_cmd_list (rev (cl_cmd_list c)) (cl_cmd_list_OK c)
                               (cl_cmd_list_size c) c]> (sv_clients sv)) sv)) ->
  msafe (process_list_line i c line) sv (handled n).
Proof using HG HT HL Hi.
  intros Hk Hc Hg. unfold process_list_line. cbv zeta. case_decide as Hend.
  - eapply msafe_bind_eq; [apply change_client_kept; [done|]; intros; by apply cmd_list_inv|].
    intros [] sv1 He Hk1. unfold change_client, on_client in He. rewrite Hc in He.
    injection He as <-. eapply msafe_bind; [apply process_list_ok; [done|by apply Hg]|].
    intros ret sv2 Hk2. apply finish_request_ok; [done|]. intros sv3 Hk3.
    apply change_client_kept; [done|]. intros. by apply cmd_list_inv.
  - eapply (msafe_bind _ _ _ (fun _ => kept_server n)).
    { apply change_client_kept; [done|]. intros. by apply cmd_list_inv. }
    intros _ sv1 Hk1. destruct (_ <? _); [by apply msafe_ret|].
    eapply (msafe_bind _ _ _ (fun _ => kept_server n)); [|by intros].
    apply change_client_kept; [done|]. intros. by apply cmd_list_inv.
Qed.

Lemma leave_idle_ok sv : kept_server n sv -> msafe (leave_idle i) sv (handled n).
Proof using HL Hi.
  intros Hk. unfold leave_idle. apply msafe_bind_client; [done|]. intros c _.
  eapply (msafe_bind _ _ _ (fun _ => kept_server n)); [|by intros].
  destruct (cl_idle_waiting c); [|by apply msafe_ret].
  eapply (msafe_bind _ _ _ (fun _ => kept_server n)).
  { apply change_client_kept; [done|]. intros c' []. by split. }
  intros _ sv1 Hk1. eapply (msafe_bind _ _ _ (fun _ => kept_server n)); [by apply print_kept|].
  intros _ sv2 Hk2. by apply write_output_kept.
Qed.

Lemma client_process_line_ok line sv :
  kept_server n sv -> process_guard line sv -> msafe (client_process_line i line) sv (handled n).
Proof using HG HT HL Hi.
  intros Hk Hg. unfold client_process_line. apply msafe_bind_client; [done|]. intros c Hc.
  case_decide as Hn; [by apply leave_idle_ok|]. specialize (Hg c Hc Hn).
  destruct (cl_idle_waiting c); [by apply msafe_ret|]. specialize (Hg eq_refl).
  destruct (0 <=? cl_cmd_list_OK c); [by apply process_list_line_ok|].
  assert (forall m, msafe (set_list_mode i m) sv (handled n)) as Hmode.
  { intros m. unfold set_list_mode. eapply (msafe_bind _ _ _ (fun _ => kept_server n)); [|by intros].
    apply change_client_kept; [done|]. intros. by apply cmd_list_inv. }
  case_decide as H1; [apply Hmode|]. case_decide as H2; [apply Hmode|].
  destruct (Hg H1 H2) as (argv & Hw & He).
  eapply msafe_bind; [by eapply command_process_ok|]. intros ret sv1 Hk1.
  apply finish_request_ok; [done|]. intros sv2 Hk2. by apply msafe_ret.
Qed.

End client.

(** ** Command lists *)

(** A line that can be part of a command list. *)
Definition list_line (line : cstring) : Prop := line <> lit "noidle" /\ line <> CLIENT_LIST_MODE_END.

Definition lines_size (lines : list cstring) : Z :=
  Z.of_nat (sum_list_with (fun l => S (length l)) lines).

Definition with_client (i : nat) (c : client) (sv : server) : server :=
  sv_set_clients (<[i := c]> (sv_clients sv)) sv.

Lemma run_get_client {B} i c (k : client -> M B) sv :
  sv_clients sv !! i = Some c -> (get_client i ≫= k) sv = k c sv.
Proof.
  intros Hc. unfold mbind, M_bind, get_client, on_client. rewrite Hc, list_insert_id by done.
  by destruct sv.
Qed.

Lemma run_change_client {B} i c f (k : unit -> M B) sv :
  sv_clients sv !! i = Some c -> (change_client i f ≫= k) sv = k tt (with_client i (f c) sv).
Proof. intros Hc. unfold mbind, M_bind, change_client, on_client. by rewrite Hc. Qed.

Lemma run_bind {A B} (m : M A) (k : A -> M B) sv a sv' :
  m sv = Ok (a, sv') -> (m ≫= k) sv = k a sv'.
Proof. intros Hm. unfold mbind, M_bind. by rewrite Hm. Qed.

Lemma with_client_lookup i c c' sv :
  sv_clients sv !! i = Some c -> sv_clients (with_client i c' sv) !! i = Some c'.
Proof. intros Hc. simpl. apply list_lookup_insert_eq. by eapply lookup_lt_Some. Qed.

Lemma with_client_twice i c c' sv : with_client i c' (with_client i c sv) = with_client i c' sv.
Proof. unfold with_client, sv_set_clients. simpl. by rewrite list_insert_insert_eq. Qed.

Lemma client_process_line_list i c line sv :
  sv_clients sv !! i = Some c -> cl_idle_waiting c = false -> 0 <= cl_cmd_list_OK c ->
  0 <= cl_cmd_list_size c -> list_line line ->
  cl_cmd_list_size c + Z.of_nat (S (length line)) <= client_max_command_list_size < 2 ^ 64 ->
  client_process_line i line sv =
    Ok (COMMAND_RETURN_OK, with_client i (cl_set_cmd_list (line :: cl_cmd_list c) (cl_cmd_list_OK c)
          (cl_cmd_list_size c + Z.of_nat (S (length line))) c) sv).
Proof.
  intros Hc Hw Hok H0 [Hn Hend] Hs. unfold client_process_line. erewrite run_get_client by done.
  rewrite decide_False, Hw, (proj2 (Z.leb_le _ _)) by done.
  unfold process_list_line. cbv zeta. rewrite decide_False by done.
  replace (Z.of_nat (length line) + 1) with (Z.of_nat (S (length line))) by lia.
  erewrite run_change_client by done. rewrite u64_small by lia. rewrite (proj2 (Z.ltb_ge _ _)) by lia.
  erewrite run_change_client by (by eapply with_client_lookup). rewrite with_client_twice.
  done.
Qed.

(** The lines of a list are collected; nothing else changes. *)
Lemma client_process_lines_list i c lines sv :
  sv_clients sv !! i = Some c -> cl_idle_waiting c = false -> 0 <= cl_cmd_list_OK c ->
  0 <= cl_cmd_list_size c -> Forall list_line lines ->
  cl_cmd_list_size c + lines_size lines <= client_max_command_list_size < 2 ^ 64 ->
  client_process_lines i lines sv =
    Ok (replicate (length lines) COMMAND_RETURN_OK,
        with_client i (cl_set_cmd_list (rev lines ++ cl_cmd_list c) (cl_cmd_list_OK c)
          (cl_cmd_list_size c + lines_size lines) c) sv).
Proof.
  revert c sv. induction lines as [|line lines IH]; intros c sv Hc Hw Hok H0 Hl Hs.
  { unfold with_client, lines_size. simpl. rewrite Z.add_0_r.
    rewrite (list_insert_id (sv_clients sv)) by (rewrite Hc; by destruct c). by destruct sv. }
  apply Forall_cons in Hl as [Hline Hl]. unfold lines_size in *. cbn [sum_list_with] in *.
  cbn [client_process_lines]. erewrite run_bind; [|apply client_process_line_list; (done || lia)].
  erewrite run_bind; [|eapply IH; [by eapply with_client_lookup|done|done|simpl; lia|done|simpl; lia]].
  rewrite with_client_twice. unfold mret, M_ret. simpl. rewrite <- app_assoc. simpl.
  by rewrite <- Z.add_assoc, <- Nat2Z.inj_add.
Qed.

(** A whole list: nothing happens before its end, and then the commands are
    run in the order in which they were sent. *)
Lemma command_list_run i c (list_ok : bool) lines sv :
  sv_clients sv !! i = Some c -> cl_idle_waiting c = false -> cl_cmd_list_OK c = -1 ->
  cl_cmd_list c = [] -> 0 <= cl_cmd_list_size c -> Forall list_line lines ->
  cl_cmd_list_size c + lines_size lines <= client_max_command_list_size < 2 ^ 64 ->
  let begin := if list_ok then CLIENT_LIST_OK_MODE_BEGIN else CLIENT_LIST_MODE_BEGIN in
  let collected l := with_client i (cl_set_cmd_list l (if list_ok then 1 else 0)
                       (cl_cmd_list_size c + lines_size lines) c) sv in
  client_process_lines i (begin :: lines) sv =
    Ok (replicate (S (length lines)) COMMAND_RETURN_OK, collected (rev lines)) /\
  client_process_line i CLIENT_LIST_MODE_END (collected (rev lines)) =
    (ret ← client_process_command_list i list_ok lines;
     finish_request i ret (change_client i (fun c => cl_set_cmd_list [] (-1) (cl_cmd_list_size c) c)))
      (collected lines).
Proof.
  intros Hc Hw Hok Hl H0 Hlines Hs. cbv zeta.
  set (mode := if list_ok then 1 else 0).
  set (begin := if list_ok then CLIENT_LIST_OK_MODE_BEGIN else CLIENT_LIST_MODE_BEGIN).
  assert (client_process_line i begin sv = Ok (COMMAND_RETURN_OK,
    with_client i (cl_set_cmd_list [] mode (cl_cmd_list_size c) c) sv)) as Hbegin.
  { unfold client_process_line. erewrite run_get_client by done. rewrite Hw, Hok.
    subst begin mode. destruct list_ok; cbn [Z.leb Z.compare Pos.compare];
      unfold set_list_mode; rewrite !decide_False by done; rewrite ?decide_True by done;
      erewrite run_change_client by done; by rewrite Hl. }
  split.
  - cbn [client_process_lines]. erewrite run_bind; [|exact Hbegin].
    erewrite run_bind; [|eapply client_process_lines_list; [by eapply with_client_lookup|done|..]].
    + rewrite with_client_twice. simpl. by rewrite app_nil_r.
    + subst mode. by destruct list_ok.
    + done.
    + done.
    + done.
  - unfold client_process_line. erewrite run_get_client by (by eapply with_client_lookup).
    rewrite decide_False by done. cbn [cl_set_cmd_list cl_idle_waiting cl_cmd_list_OK]. rewrite Hw.
    rewrite (proj2 (Z.leb_le 0 mode)) by (subst mode; by destruct list_ok).
    unfold process_list_line. rewrite decide_True by done. cbv zeta.
    erewrite run_change_client by (by eapply with_client_lookup). rewrite with_client_twice.
    cbn [cl_set_cmd_list cl_cmd_list cl_cmd_list_OK cl_cmd_list_size]. rewrite rev_involutive. subst mode. by destruct list_ok.
Qed.

End with_env.

(** * What a client is told

    The exact answer to a request that is refused, with everything else
    left alone; the split of a line that a client has quoted. *)

(** The line of an error. *)
Definition ack_line (num : Z) (cmd : cstring) (e : cmd_error) : cstring :=
  (lit "ACK [" ++ print_i (ack_code (ce_ack e)) ++ lit "@" ++ print_i num ++ lit "] {" ++ cmd ++
   lit "} ") ++ ce_text e ++ nl.

(** A command line: the name, then every argument in quotes. *)
Definition quoted_args (args : list cstring) : cstring :=
  concat (map (fun a => " "%char :: quote a) args).
Definition quoted_line (name : cstring) (args : list cstring) : cstring := name ++ quoted_args args.

(** ** Splitting a quoted line *)

Lemma quoted_args_separated args : separated (quoted_args args).
Proof. by destruct args. Qed.

Lemma strchug_quoted a args :
  strchug_fast (quoted_args (a :: args)) = quote a ++ quoted_args args.
Proof. done. Qed.

Lemma read_params_quoted args room argv :
  (length args < room)%nat ->
  read_params room argv (strchug_fast (quoted_args args)) = (argv ++ args, TNull, []).
Proof.
  revert room argv. induction args as [|a args IH]; intros room argv Hr.
  - destruct room as [|room]; [simpl in Hr; lia|]. simpl. by rewrite app_nil_r.
  - rewrite strchug_quoted. destruct room as [|room]; [simpl in Hr; lia|]. cbn [read_params].
    rewrite tokenizer_next_param_quote by apply quoted_args_separated.
    rewrite IH by (simpl in Hr; lia). by rewrite <- app_assoc.
Qed.

Lemma line_words_quoted name args :
  is_word name = true -> (length args < COMMAND_ARGV_MAX - 1)%nat ->
  line_words (quoted_line name args) = Some (name :: args).
Proof.
  intros Hn Ha. unfold line_words, quoted_line.
  rewrite tokenizer_next_word_ok by (done || apply quoted_args_separated).
  by rewrite read_params_quoted by done.
Qed.

Section with_env.
Context {G : GLib} {HG : GLibSpec G} {T : PlayerThread} {HT : PlayerThreadSpec T}.
Context {L : Limits} {HL : LimitsOk L} {E : Env}.

(** ** Refusals *)

(** Nothing has changed but the output of client [i], which has got [s]. *)
Definition told (i : nat) (c : client) (total s : cstring) (sv sv' : server) : Prop :=
  exists c', sv_clients sv' = <[i := c']> (sv_clients sv) /\ sv_world sv' = sv_world sv /\
    sv_permissions sv' = sv_permissions sv /\ same_client c c' /\ delivers (total ++ s) (cl_output c') /\
    client_inv client_max_output_buffer_size c'.

Lemma print_told i c total s sv :
  sv_clients sv !! i = Some c -> client_inv client_max_output_buffer_size c ->
  delivers total (cl_output c) ->
  wp (print i s sv) (fun '(_, sv') => told i c total s sv sv' /\
    sv_current_command sv' = sv_current_command sv /\
    sv_command_list_num sv' = sv_command_list_num sv).
Proof using HL.
  intros Hc Hi Hd. unfold print, on_client. rewrite Hc.
  destruct (wp_inv _ _ (cl_puts_ok _ limits_ok s total c Hd (ci_output _ _ Hi)))
    as (c' & -> & Hs & Hd' & Ho). split; [|done]. exists c'. split_and!; try done.
  by eapply same_client_inv.
Qed.

Lemma same_client_trans c c1 c2 : same_client c c1 -> same_client c1 c2 -> same_client c c2.
Proof. unfold same_client. intros -> ->. done. Qed.

Lemma told_then i c total s1 s2 sv sv1 sv2 :
  sv_clients sv !! i = Some c -> told i c total s1 sv sv1 ->
  (forall c1, sv_clients sv1 !! i = Some c1 -> client_inv client_max_output_buffer_size c1 ->
     delivers (total ++ s1) (cl_output c1) -> told i c1 (total ++ s1) s2 sv1 sv2) ->
  told i c total (s1 ++ s2) sv sv2.
Proof.
  intros Hc (c1 & Hl & Hw & Hp & Hs & Hd & Hi) Hnext.
  destruct (Hnext c1) as (c2 & Hl2 & Hw2 & Hp2 & Hs2 & Hd2 & Hi2); [|done|done|].
  { rewrite Hl. apply list_lookup_insert_eq. by eapply lookup_lt_Some. }
  exists c2. rewrite Hl2, Hl, list_insert_insert_eq, app_assoc. split_and!; try done; try congruence.
  by eapply same_client_trans.
Qed.

Lemma print_told_then i c total s1 s2 sv sv1 :
  sv_clients sv !! i = Some c -> told i c total s1 sv sv1 ->
  wp (print i s2 sv1) (fun '(_, sv2) => told i c total (s1 ++ s2) sv sv2 /\
    sv_current_command sv2 = sv_current_command sv1 /\
    sv_command_list_num sv2 = sv_command_list_num sv1).
Proof using HL.
  intros Hc Ht. pose proof Ht as (c1 & Hl & Hw & Hp & Hs & Hd & Hi).
  assert (sv_clients sv1 !! i = Some c1) as Hc1.
  { rewrite Hl. apply list_lookup_insert_eq. by eapply lookup_lt_Some. }
  eapply wp_mono; [by apply (print_told i c1 (total ++ s1))|]. intros [[] sv2] [H2 H3].
  split; [|done]. eapply told_then; [done|done|]. intros c1' Hc1' _ _. by simplify_eq.
Qed.

Lemma command_error_told i c total e cmd sv :
  sv_clients sv !! i = Some c -> client_inv client_max_output_buffer_size c ->
  delivers total (cl_output c) -> sv_current_command sv = Some cmd ->
  wp (command_error i e sv) (fun '(_, sv') =>
    told i c total (ack_line (sv_command_list_num sv) cmd e) sv sv').
Proof using HL.
  intros Hc Hi Hd Hcmd. unfold command_error, ack_line.
  unfold mbind, M_bind, gets. rewrite Hcmd.
  match goal with |- context [print i ?s sv] => set (s1 := s) end.
  destruct (wp_inv _ _ (print_told i c total s1 sv Hc Hi Hd)) as ([[] sv1] & -> & H1 & _).
  destruct (wp_inv _ _ (print_told_then i c total _ (ce_text e) sv sv1 Hc H1))
    as ([[] sv2] & -> & H2 & _).
  destruct (wp_inv _ _ (print_told_then i c total _ nl sv sv2 Hc H2)) as ([[] sv3] & -> & H3 & _).
  rewrite <- app_assoc in H3. exact H3.
Qed.

(** The error of a request that is refused before its handler is run. *)
Definition refusal (permission : Z) (argv : list cstring) : option (cstring * cmd_error) :=
  match argv with
  | [] => None
  | name :: _ =>
      match find_command name with
      | None => Some ([], CmdError ACK_ERROR_UNKNOWN
                  (lit "unknown command " ++ [dquote] ++ name ++ [dquote]))
      | Some cmd =>
          e ← command_check_request cmd permission name (Z.of_nat (length argv));
          Some (cmd_cmd cmd, e)
      end
  end.

Lemma command_execute_refused i c total argv cmd e sv :
  sv_clients sv !! i = Some c -> client_inv client_max_output_buffer_size c ->
  delivers total (cl_output c) -> refusal (client_get_permission c) argv = Some (cmd, e) ->
  wp (command_execute i argv sv) (fun '(ret, sv') => ret = COMMAND_RETURN_ERROR /\
    told i c total (ack_line (sv_command_list_num sv) cmd e) sv sv').
Proof using HL.
  intros Hc Hi Hd Hr. unfold command_execute. rewrite (run_get_client i c) by done.
  destruct argv as [|name args]; [done|]. unfold refusal in Hr.
  assert (forall sv1, sv_clients sv1 = sv_clients sv -> sv_world sv1 = sv_world sv ->
    sv_permissions sv1 = sv_permissions sv -> sv_command_list_num sv1 = sv_command_list_num sv ->
    sv_current_command sv1 = Some cmd ->
    wp (command_error i e sv1) (fun '(_, sv') =>
      told i c total (ack_line (sv_command_list_num sv) cmd e) sv sv')) as Herr.
  { intros sv1 H1 H2 H3 H4 H5. rewrite <- H4. eapply wp_mono.
    - apply (command_error_told i c total e cmd); [by rewrite H1|done..].
    - intros [[] sv'] (c' & ?). exists c'. by rewrite <- H1, <- H2, <- H3. }
  unfold command_checked_lookup. unfold mbind, M_bind, modify, lift. rewrite command_lookup_find.
  destruct (find_command name) as [cd|]; [destruct (command_check_request _ _ _ _); [|done]|];
    apply (inj Some), pair_eq in Hr as [<- <-];
    match goal with |- context [command_error i _ ?sv1] =>
      destruct (wp_inv _ _ (Herr sv1 eq_refl eq_refl eq_refl eq_refl eq_refl)) as ([[] sv'] & -> & Ht)
    end; by split.
Qed.

End with_env.
