(* ===== verification/ServerSamples.v ===== *)
(** * Sample states

    Executable versions of the invariants of the queue and of the playlist
    (with the thread of [PlaylistDefects]), and sample states that pass them:
    the theorems about the operations apply to concrete playlists. *)

From S2P Require Import Prelude Err GLib Float Song AudioFormat EventPipe PlayerControl PlayQueue PlayQueueRep CString.
From S2P Require Import Uri Playlist PlaylistInv PlaylistSafety PlaylistDefects Tokenizer Strtod ArgParser ClientRead.
From S2P Require Import ClientWrite Client Permission Server Command Handlers HandlerSafety ClientProcess.

Local Open Scope Z_scope.

(** ** Checks *)

Section with_glib.
Context {G : GLib}.

Definition ids_check (n : Z) (idp : cells Z) (its : list queue_item) : bool :=
  (length idp =? Z.to_nat n)%nat &&
  forallb (fun '(p, it) => (0 <=? item_id it) && (item_id it <? n) &&
             bool_decide (idp !! Z.to_nat (item_id it) = Some (Some (Z.of_nat p))))
    (zip (seq 0 (length its)) its) &&
  forallb (fun '(i, v) => match v with
                          | Some p => (p =? -1) || ((0 <=? p) &&
                              bool_decide (item_id <$> its !! Z.to_nat p = Some (Z.of_nat i)))
                          | None => false
                          end) (zip (seq 0 (length idp)) idp).

Definition q_check (q : queue) (its : list queue_item) (ord : list nat) : bool :=
  (0 <=? q_max_length q) && (q_max_length q * QUEUE_HASH_MULT <? 2 ^ 32) &&
  (0 <=? q_id_cur q) && (q_id_cur q <? 2 ^ 32) &&
  (q_length q =? Z.of_nat (length its)) && (Z.of_nat (length its) <=? q_max_length q) &&
  (length (q_items q) =? Z.to_nat (q_max_length q))%nat &&
  bool_decide (take (length its) (q_items q) = Some <$> its) &&
  (length (q_order q) =? Z.to_nat (q_max_length q))%nat &&
  bool_decide (take (length its) (q_order q) = (fun p => Some (Z.of_nat p)) <$> ord) &&
  (length ord =? length its)%nat && forallb (fun p => bool_decide (p ∈ ord)) (seq 0 (length its)) &&
  ids_check (q_max_length q * QUEUE_HASH_MULT) (q_id_to_position q) its &&
  (q_random q || bool_decide (ord = seq 0 (length its))) &&
  (1 <=? q_version q) && (q_version q <? queue_max_version) &&
  forallb (fun it => (0 <=? item_version it) && (item_version it <=? q_version q)) its.

Ltac split_checks :=
  repeat match goal with
  | H : Is_true (_ && _) |- _ => apply andb_True in H as [? ?]
  | H : _ && _ = true |- _ => apply andb_true_iff in H as [? ?]
  end.

Lemma forallb_zip_seq {A} (f : nat * A -> bool) (l : list A) i x :
  forallb f (zip (seq 0 (length l)) l) = true -> l !! i = Some x -> f (i, x) = true.
Proof.
  intros H Hi. rewrite forallb_forall in H. apply H, list_elem_of_In, list_elem_of_lookup.
  exists i. apply lookup_zip_with_Some. eexists _, _. split; [done|]. split; [|done].
  apply lookup_seq. split; [done|]. by eapply lookup_lt_Some.
Qed.

Lemma ids_check_ok n idp its : ids_check n idp its = true -> ids_ok n idp (fun p => its !! p).
Proof.
  unfold ids_check. intros H. split_checks.
  match goal with Hl : (length idp =? _)%nat = true |- _ => apply Nat.eqb_eq in Hl end.
  split; [done| |].
  - intros p it Hp. match goal with Hf : forallb _ (zip _ its) = true |- _ =>
      apply (forallb_zip_seq _ _ _ _ Hf) in Hp end.
    split_checks. case_bool_decide; [|done]. split; [lia|done].
  - intros i v Hv. match goal with Hb : forallb _ (zip _ idp) = true |- _ =>
      apply (forallb_zip_seq _ _ _ _ Hb) in Hv end.
    destruct v as [p|]; [|done]. apply orb_true_iff in Hv as [Hv|Hv]; [left; f_equal; lia|right].
    split_checks. case_bool_decide as Hid; [|done]. apply fmap_Some in Hid as (it & Hit & Hi).
    exists (Z.to_nat p), it. split_and!; [done|done|]. f_equal. lia.
Qed.

Lemma holds_check {A} (l : cells A) (xs : list A) :
  take (length xs) l = Some <$> xs -> holds l xs.
Proof.
  intros H i x Hx. pose proof (lookup_lt_Some _ _ _ Hx).
  rewrite <- (lookup_take_lt l (length xs)) by done. rewrite H, list_lookup_fmap, Hx. done.
Qed.

Lemma perm_check n (ord : list nat) :
  length ord = n -> forallb (fun p => bool_decide (p ∈ ord)) (seq 0 n) = true -> ord ≡ₚ seq 0 n.
Proof.
  intros Hl Hin. symmetry. apply submseteq_length_Permutation.
  - apply NoDup_submseteq; [apply NoDup_seq|]. intros p Hp. rewrite forallb_forall in Hin.
    by apply list_elem_of_In, Hin, bool_decide_eq_true in Hp.
  - rewrite length_seq. lia.
Qed.

Lemma q_check_ok q its ord : q_check q its ord = true -> q_inv q its ord.
Proof.
  unfold q_check. intros H. split_checks.
  repeat match goal with
  | H : bool_decide _ = true |- _ => apply bool_decide_eq_true in H
  | H : (_ =? _)%nat = true |- _ => apply Nat.eqb_eq in H
  end.
  split; [split|..]; try lia; try done.
  - by apply holds_check.
  - apply holds_check. rewrite length_fmap, <- list_fmap_compose. by replace (length ord) with (length its).
  - by apply perm_check.
  - by apply ids_check_ok.
  - intros Hr. match goal with Hc : q_random q || _ = true |- _ =>
      rewrite Hr in Hc; simpl in Hc; by apply bool_decide_eq_true in Hc end.
  - apply Forall_forall. intros it Hit.
    match goal with Hv : forallb _ its = true |- _ => rewrite forallb_forall in Hv;
      apply list_elem_of_In, Hv in Hit end. split_checks. lia.
Qed.

End with_glib.

(** ** The playlist *)

Definition quiescent_check (pc : player_control) : bool :=
  bool_decide (pc_command pc = PLAYER_COMMAND_NONE) &&
  (negb (bool_decide (pc_state pc = PLAYER_STATE_STOP)) || bool_decide (pc_next_song pc = None)).

Definition w_check (w : world) (its : list queue_item) (ord : list nat) : bool :=
  let len := Z.of_nat (length its) in
  q_check (w_queue w) its ord &&
  (-1 <=? w_current w) && (w_current w <? len) &&
  (negb (w_playing w) || (0 <=? w_current w)) &&
  (-1 <=? w_queued w) && (w_queued w <? len) &&
  (w_playing w || (w_queued w =? -1)) &&
  quiescent_check (p_control (w_player w)) &&
  (negb (w_queued w =? -1) || no_next_song (w_player w)).

Lemma w_check_ok w its ord : w_check w its ord = true -> w_inv w its ord.
Proof.
  unfold w_check, quiescent_check. intros H.
  repeat match goal with H : _ && _ = true |- _ => apply andb_true_iff in H as [? ?] end.
  split; try lia.
  - by apply q_check_ok.
  - intros Hp. rewrite Hp in *. simpl in *. lia.
  - intros Hp. rewrite Hp in *. simpl in *. lia.
  - change (quiescent (p_control (w_player w))). split; [by eapply bool_decide_eq_true|]. intros Hs.
    match goal with Hx : negb (bool_decide (_ = PLAYER_STATE_STOP)) || _ = true |- _ =>
      rewrite (bool_decide_true _ Hs) in Hx; simpl in Hx; by apply bool_decide_eq_true in Hx end.
  - intros Hq. match goal with Hx : _ || no_next_song _ = true |- _ =>
      rewrite Hq in Hx; simpl in Hx end.
    unfold no_next_song, next_song in *. by destruct (pc_next_song _).
Qed.

(** The items and the order that a queue holds. *)
Definition items_of {G : GLib} (q : queue) : list queue_item := omap id (q_items q).
Definition order_of {G : GLib} (q : queue) : list nat :=
  omap (fmap Z.to_nat) (take (Z.to_nat (q_length q)) (q_order q)).

(** The state after some commands. *)
Definition sample (n : nat) (cs : list PlaylistSafety.command) : world :=
  match demo n cs with
  | Ok w => w
  | Err _ => World (Playlist (Queue 0 0 1 [] [] [] false false false false 0 0) false false 0 (-1) (-1))
               demo_player
  end.

(** Five songs, song 1 is playing; the same in random mode, and a stopped
    playlist. *)
Definition playing_world : world := sample 5 [CmdPlay 1].
Definition queued_world : world := sample 5 [CmdPlay 1; CmdSync].
Definition random_world : world := sample 5 [CmdRandom true; CmdPlay 1; CmdSync].
Definition stopped_world : world := sample 5 [].

Definition its_of (w : world) : list queue_item := items_of (w_queue w).
Definition ord_of (w : world) : list nat := order_of (w_queue w).

Lemma playing_world_inv : w_inv playing_world (its_of playing_world) [0; 1; 2; 3; 4]%nat.
Proof. apply w_check_ok. vm_compute. reflexivity. Qed.

Lemma queued_world_inv : w_inv queued_world (its_of queued_world) [0; 1; 2; 3; 4]%nat.
Proof. apply w_check_ok. vm_compute. reflexivity. Qed.

Lemma random_world_inv : w_inv random_world (its_of random_world) [1; 2; 4; 0; 3]%nat.
Proof. apply w_check_ok. vm_compute. reflexivity. Qed.

Lemma stopped_world_inv : w_inv stopped_world (its_of stopped_world) [0; 1; 2; 3; 4]%nat.
Proof. apply w_check_ok. vm_compute. reflexivity. Qed.

(** * A sample server

    An environment without a database, and a server with one client that may
    use all commands and plays a song. *)

#[export] Instance sample_limits : Limits := {|
  client_max_command_list_size := 2048 * 1024;
  client_max_output_buffer_size := 8192 * 1024;
|}.

#[export] Instance sample_limits_ok : LimitsOk sample_limits.
Proof. unfold LimitsOk. vm_compute. intuition discriminate. Qed.

#[export] Instance sample_env : Env := {|
  env_geteuid := 0;
  env_stat := fun _ => None;
  env_strerror := lit "Success";
  env_remoteUrlPrefixes := [lit "http://"];
  env_song_file_load := fun _ => None;
  env_db_get_song := fun _ => None;
  env_song_ptr := 1000;
  env_db_walk := fun _ => ([], DB_NOENT);
  env_volume_level_change := fun _ => true;
  env_volume_level_get := 100;
  env_isUpdatingDB := 0;
  env_sticker_enabled := false;
  env_song_info := fun s => lit "file: " ++ lit (song_uri s) ++ nl;
  env_song_uri := fun s => lit (song_uri s) ++ nl;
  env_hash_order := id;
  env_other := fun _ _ _ => mret COMMAND_RETURN_OK;
|}.

(** A client with all permissions, or only that to read. *)
Definition sample_client (permission : Z) : client := client_init 0 permission (-1) (Sink [] []).
Definition sample_server (permission : Z) : server :=
  Server playing_world [sample_client permission] (Permissions [] 0) None 0.

Definition all_permissions : Z := 15.

Lemma sample_client_inv permission :
  client_inv client_max_output_buffer_size (sample_client permission).
Proof. apply client_init_inv, sample_limits_ok. Qed.

Lemma sample_server_kept permission : kept_server 1 (sample_server permission).
Proof.
  split; [|done]. split.
  - do 2 eexists. apply playing_world_inv.
  - apply Forall_singleton, sample_client_inv.
Qed.
