(* ===== verification/QueueTheorems.v ===== *)
(** * Theorems about the queue

    [struct queue] implements a list of items and an order on them
    ([PlayQueueRep.q_inv]): each operation of [src/queue.c] is a function on
    these lists. *)

From S2P Require Import Prelude Err GLib Song CString Uri Float AudioFormat EventPipe PlayQueue.
From S2P Require Import PlayQueueRep PlayQueueEdit PlayQueueDelete.
From S2P Require Import PlayQueueOrder PlayQueueInv PlayerControl.
From S2P Require Import Playlist PlaylistInv PlaylistSafety.
From S2P Require Import PlaylistDefects ServerSamples.
Local Open Scope Z_scope.

(** The queues of the sample states. *)
Definition linear_queue : queue := w_queue stopped_world.
Definition random_queue : queue := w_queue random_world.

Lemma linear_queue_inv : q_inv linear_queue (its_of stopped_world) [0; 1; 2; 3; 4]%nat.
Proof. apply q_check_ok. vm_compute. reflexivity. Qed.

Lemma random_queue_inv : q_inv random_queue (its_of random_world) [1; 2; 4; 0; 3]%nat.
Proof. apply q_check_ok. vm_compute. reflexivity. Qed.

Section with_glib.
Context {G : GLib} {HG : GLibSpec G}.

(** C7: appending a song to a queue that is not full adds one item at the end
    of the list and of the order.  The song gets an identifier that no other
    song has, and is found under it and at its position. *)
Theorem queue_append_refines q its ord s :
  q_inv q its ord -> Z.of_nat (length its) < q_max_length q ->
  exists id q', queue_append q s 0 = Ok (id, q') /\
    q_inv q' (its ++ [Item s id (q_version q) 0]) (ord ++ [length its]) /\ q_frame q q' /\
    (forall it, it ∈ its -> item_id it <> id) /\
    queue_id_to_position q' id = Ok (Z.of_nat (length its)) /\
    queue_get q' (Z.of_nat (length its)) = Ok s.
Proof.
  intros Hinv Hlen. destruct (q_inv_append q its ord s Hinv Hlen) as (id & q' & He & Hinv' & Hf & Hid).
  exists id, q'. pose proof (inv_rep _ _ _ Hinv') as Hrep.
  assert ((its ++ [Item s id (q_version q) 0]) !! length its = Some (Item s id (q_version q) 0))
    as Hlast by (by apply list_lookup_middle).
  split_and!; try done.
  - apply (queue_id_to_position_ok _ _ _ Hrep _ _ Hlast).
  - apply (queue_get_ok _ _ _ Hrep _ _ Hlast).
Qed.

(** C8: deleting position [p] removes that item from the list and its order
    number from the order, and frees the song if it is not in the database;
    the identifiers of the other songs stay. *)
Theorem queue_delete_refines q its ord (p o : nat) it :
  q_inv q its ord -> its !! p = Some it -> ord !! o = Some p ->
  exists q' its', queue_delete q (Z.of_nat p) = Ok (owned_songs [it], q') /\
    unversioned its' = delete p (unversioned its) /\
    q_inv q' its' (deleted_order p o ord) /\ q_frame q q' /\
    queue_id_to_position q' (item_id it) = Ok (-1).
Proof.
  intros Hinv Hp Ho. destruct (q_inv_delete q its ord p o it Hinv Hp Ho) as (q' & He & Hinv' & Hf & _).
  exists q', (deleted_items (q_version q) p its). split_and!; try done; [by apply unversioned_deleted|].
  pose proof (rep_ids _ _ _ (inv_rep _ _ _ Hinv)) as Hids.
  apply (queue_id_to_position_none _ _ _ (inv_rep _ _ _ Hinv')).
  - apply (ids_forward _ _ _ Hids) in Hp. lia.
  - intros j it' Hj Heq. rewrite deleted_items_lookup in Hj.
    destruct (Nat.ltb_spec j p).
    + pose proof (ids_injective _ _ _ _ _ _ _ Hids Hj Hp Heq). lia.
    + apply fmap_Some in Hj as (it2 & Hj & ->).
      pose proof (ids_injective _ _ _ _ _ _ _ Hids Hj Hp Heq). lia.
Qed.

(** C6: [queue_move_range()] moves the block of items [s..e-1] so that it
    starts at position [t].  In random mode the order follows the songs,
    otherwise it stays the identity. *)
Theorem queue_move_range_refines q its ord (s e t : nat) :
  q_inv q its ord -> (s <= e <= length its)%nat -> (t + (e - s) <= length its)%nat ->
  exists q' its', queue_move_range q (Z.of_nat s) (Z.of_nat e) (Z.of_nat t) = Ok q' /\
    unversioned its' = move_block s e t (unversioned its) /\
    q_inv q' its' (if q_random q then move_block_dst s e t <$> ord else ord) /\ q_frame q q'.
Proof.
  intros Hinv Hse Ht. destruct (q_inv_move_range q its ord s e t Hinv Hse Ht) as (q' & He & Hinv' & Hf).
  exists q', (moved_items (q_version q) s e t its). split_and!; try done. apply unversioned_moved.
Qed.

(** C9: changing the priority of the songs [s..e-1] changes nothing else but
    their versions, and in random mode the songs behind the current one stay
    sorted by priority. *)
Theorem queue_set_priority_range_refines q its ord (s e : nat) pr current after :
  q_inv q its ord -> (s <= e <= length its)%nat -> after_of ord current after ->
  exists m q' ord', queue_set_priority_range q (Z.of_nat s) (Z.of_nat e) pr after = Ok (m, q') /\
    q_inv q' (alter_range (prioritized (q_version q) pr) s e its) ord' /\ q_frame q q' /\
    (q_random q = true -> tail_sorted its ord current ->
       tail_sorted (alter_range (prioritized (q_version q) pr) s e its) ord' current).
Proof. apply q_inv_set_priority_range. Qed.

(** [queue_shuffle_order()] leaves the songs alone and chooses an order in
    which the priorities never increase. *)
Theorem queue_shuffle_order_refines q its ord :
  q_inv q its ord -> q_random q = true ->
  exists q' ord', queue_shuffle_order q = Ok q' /\ q_inv q' its ord' /\ q_frame q q' /\
    sorted_range 0 (length its) its ord'.
Proof.
  intros Hinv Hr. destruct (q_inv_shuffle_order q its ord Hinv Hr) as (q' & ord' & ? & ? & ? & _ & ?).
  by exists q', ord'.
Qed.

(** Positions, identifiers and order numbers are translated back and
    forth without loss, and identifiers that are not in use are not found. *)
Theorem queue_lookup_roundtrip q its ord (p o : nat) it :
  q_inv q its ord -> its !! p = Some it -> ord !! o = Some p ->
  queue_position_to_id q (Z.of_nat p) = Ok (item_id it) /\
  queue_id_to_position q (item_id it) = Ok (Z.of_nat p) /\
  queue_order_to_position q (Z.of_nat o) = Ok (Z.of_nat p) /\
  queue_position_to_order q (Z.of_nat p) = Ok (Z.of_nat o) /\
  (forall id, 0 <= id -> id ∉ item_id <$> its -> queue_id_to_position q id = Ok (-1)).
Proof.
  intros Hinv%inv_rep Hp Ho. split_and!.
  - by apply (queue_position_to_id_ok _ _ _ Hinv).
  - by apply (queue_id_to_position_ok _ _ _ Hinv).
  - by apply (queue_order_to_position_ok _ _ _ Hinv).
  - by apply (queue_position_to_order_ok _ _ _ Hinv).
  - intros id H0 Hid. apply (queue_id_to_position_none _ _ _ Hinv); [done|].
    intros j it' Hj <-. apply Hid. by eapply list_elem_of_fmap_2, list_elem_of_lookup_2.
Qed.

(** [queue_next_order()] follows the order, wraps around with "repeat",
    stays with "repeat" and "single" unless "consume" is on, and is -1 at the
    end. *)
Theorem queue_next_order_correct q its ord (o : nat) :
  q_inv q its ord -> (o < length its)%nat ->
  queue_next_order q (Z.of_nat o) =
  Ok (next_order_spec (q_repeat q) (q_single q) (q_consume q) (Z.of_nat (length its)) (Z.of_nat o)) /\
  -1 <= next_order_spec (q_repeat q) (q_single q) (q_consume q) (Z.of_nat (length its)) (Z.of_nat o)
     < Z.of_nat (length its).
Proof.
  intros Hinv Ho. split; [by apply queue_next_order_ok with ord; [apply Hinv|]|].
  apply next_order_spec_range. lia.
Qed.

End with_glib.

(** ** The theorems at the sample queues *)

Lemma queue_append_refines_witness :
  exists id q', queue_append linear_queue (demo_song 9) 0 = Ok (id, q') /\
    queue_id_to_position q' id = Ok 5.
Proof.
  destruct (queue_append_refines linear_queue _ _ (demo_song 9) linear_queue_inv)
    as (id & q' & He & _ & _ & _ & Hid & _); [vm_compute; reflexivity|].
  exists id, q'. split; [exact He|exact Hid].
Defined.

Lemma queue_delete_refines_witness :
  exists s q', queue_delete linear_queue 2 = Ok (s, q') /\ queue_id_to_position q' 4 = Ok (-1).
Proof.
  destruct (queue_delete_refines linear_queue _ _ 2 2 (Item (demo_song 2) 4 3 0) linear_queue_inv)
    as (q' & its' & He & _ & _ & _ & Hid); [vm_compute; reflexivity..|].
  eexists _, q'. split; [exact He|exact Hid].
Defined.

Lemma queue_move_range_refines_witness :
  exists q' its', queue_move_range linear_queue 0 2 3 = Ok q' /\
    unversioned its' = move_block 0 2 3 (unversioned (its_of stopped_world)).
Proof.
  destruct (queue_move_range_refines linear_queue _ _ 0 2 3 linear_queue_inv)
    as (q' & its' & He & Hu & _); [vm_compute; lia..|].
  exists q', its'. split; [exact He|exact Hu].
Defined.

Lemma queue_set_priority_range_refines_witness :
  exists m q', queue_set_priority_range random_queue 0 3 10 0 = Ok (m, q').
Proof.
  destruct (queue_set_priority_range_refines random_queue _ _ 0 3 10 (Some 1%nat) 0 random_queue_inv)
    as (m & q' & ord' & He & _).
  - vm_compute. lia.
  - exists 0%nat. split; reflexivity.
  - exists m, q'. exact He.
Defined.

Lemma queue_shuffle_order_refines_witness :
  exists q' ord', queue_shuffle_order random_queue = Ok q' /\
    sorted_range 0 5 (its_of random_world) ord'.
Proof.
  destruct (queue_shuffle_order_refines random_queue _ _ random_queue_inv)
    as (q' & ord' & He & _ & _ & Hs); [vm_compute; reflexivity|].
  exists q', ord'. split; [exact He|exact Hs].
Defined.

Lemma queue_lookup_roundtrip_witness :
  queue_position_to_order random_queue 4 = Ok 2 /\ queue_id_to_position random_queue 1 = Ok (-1).
Proof.
  destruct (queue_lookup_roundtrip random_queue _ _ 4 2 (Item (demo_song 4) 6 5 0) random_queue_inv)
    as (_ & _ & _ & Ho & Hid); [vm_compute; reflexivity..|].
  split; [exact Ho|]. apply Hid; [lia|]. apply (bool_decide_eq_true_1 (1 ∉ item_id <$> its_of random_world)).
  vm_compute. reflexivity.
Defined.

Lemma queue_next_order_correct_witness : queue_next_order random_queue 4 = Ok (-1).
Proof.
  destruct (queue_next_order_correct random_queue _ _ 4 random_queue_inv) as [He _];
    [vm_compute; lia|]. exact He.
Defined.
