(* ===== verification/PlaylistTheorems.v ===== *)
(** * Theorems about the playlist

    What the commands of the playlist do to the list of songs, to the song
    that [current] stands for and to the state of playback, and that no
    sequence of commands breaks the invariant.  The statements are about any
    random generator with [GLibSpec] and any player thread with
    [PlayerThreadSpec]: [safe thread_may_hang m Q] says that [m] does not
    fail, ends with [Q], or waits for the thread forever, which only a thread
    with [thread_may_hang] can make it do. *)

From S2P Require Import Prelude Err GLib Song CString Uri Float EventPipe PlayQueue PlayQueueRep.
From S2P Require Import PlayQueueEdit PlayQueueDelete PlayQueueOrder.
From S2P Require Import PlayQueueInv PlayerControl Playlist.
From S2P Require Import PlaylistInv PlaylistEdit.
From S2P Require Import PlaylistDelete PlaylistSafety PlaylistDefects.
From S2P Require Import ServerSamples.
Local Open Scope Z_scope.

Section with_player.
Context {G : GLib} {HG : GLibSpec G} {T : PlayerThread} {HT : PlayerThreadSpec T}.

(** C1: every command of the playlist, with arguments of their C types and
    within its [guard], runs without a failed assertion, an access out of
    bounds, an overflow or an undefined conversion, and ends in a state with
    the invariant, or waits for the player thread forever, where
    [thread_may_hang] allows it.  The guards exclude what the code does not
    survive ([PlaylistDefects]): deletions in random mode that are not
    [delete_safe], ranges that are reversed, relative moves without a current
    song, of several songs or by [INT_MIN], shuffles from [UINT_MAX], seeks to
    times whose milliseconds are not an [unsigned]. *)
Theorem commands_keep_invariant c w :
  invariant w -> args_ok c -> guard c w ->
  safe thread_may_hang (run c w) (fun '(_, w') => invariant w').
Proof. intros. eapply safe_mono; [by apply run_ok|]. by intros [r w']. Qed.

(** C2: the invariant holds in every state that is reached from start-up by
    commands, each within its [guard] (see C1) and answered by the player
    thread, and by moves of the player thread; while a song is playing there
    is a valid current song. *)
Theorem reachable_states_ok w w' :
  initial w -> rtc step w w' ->
  exists its ord, w_inv w' its ord /\
    (w_playing w' = true -> exists s, queue_get_order (w_queue w') (u32 (w_current w')) = Ok s).
Proof.
  intros Hi Hs. destruct (reachable_invariant w w' Hi Hs) as (its & ord & Hinv).
  exists its, ord. split; [done|]. intros Hp. pose proof (w_rep Hinv) as Hrep.
  pose proof (inv_current _ _ _ Hinv). pose proof (inv_playing _ _ _ Hinv Hp).
  pose proof (rep_length_pos _ _ _ Hrep).
  destruct (cursor_valid (w_current w') (length its)) as (o & -> & Ho); [lia|].
  destruct (rep_ord_is_Some _ _ _ Hrep o Ho) as [p Hop]. rewrite u32_small by lia.
  destruct (lookup_lt_is_Some_2 its p (rep_ord_lt _ _ _ Hrep _ _ Hop)) as [it Hit].
  exists (item_song it). by apply (queue_get_order_ok _ _ _ Hrep o p).
Qed.

(** C4: deleting position [p] removes exactly that song.  [current] keeps its
    song unless it was deleted; then the next song of the order is played, or
    playback stops.  In random mode this excludes deleting the song that is
    playing when playback would stop or is paused ([delete_safe]): there an
    assertion fails ([delete_random_defect]).  Where [thread_may_hang] allows
    it, the player thread may not answer. *)
Theorem playlist_delete_correct w its ord (p o : nat) :
  w_inv w its ord -> (p < length its)%nat -> ord !! o = Some p ->
  delete_safe w (Z.of_nat (length its)) o ->
  safe thread_may_hang (playlist_delete (Z.of_nat p) w) (fun '(r, w') => r = MPD_SUCCESS /\
    exists its', unversioned its' = delete p (unversioned its) /\
      settled its' (cursor_id its ord (delete_current w (Z.of_nat (length its)) o))
        (delete_playing w (Z.of_nat (length its)) o) (w_queue w) w').
Proof.
  intros. eapply safe_mono; [by apply (playlist_delete_ok w its ord p o)|].
  intros [r w'] (-> & its' & Hu & Hset). split; [done|]. exists its'. split; [|done].
  by rewrite Hu, unversioned_deleted.
Qed.

(** C5: moving the songs [s..e-1] to position [t] moves that block.  [current]
    keeps its song in random mode, and otherwise unless it is behind the block
    and before the end of the place where the block goes ([move_misses]):
    there the code does not adjust it, and it stands for another song
    ([move_current_defect]).  Where [thread_may_hang] allows it, the player
    thread may not answer. *)
Theorem playlist_move_range_correct w its ord (s e t : nat) :
  w_inv w its ord -> (s < e <= length its)%nat -> (t + (e - s) <= length its)%nat -> s <> t ->
  safe thread_may_hang (playlist_move_range (Z.of_nat s) (Z.of_nat e) (Z.of_nat t) w)
    (fun '(r, w') => r = MPD_SUCCESS /\ exists its' cur,
      unversioned its' = move_block s e t (unversioned its) /\
      settled its' cur (w_playing w) (w_queue w) w' /\
      (q_random (w_queue w) = true \/ ~ move_misses s e t (w_current w) ->
       cur = cursor_id its ord (w_current w))).
Proof.
  intros. eapply safe_mono; [by apply (playlist_move_range_ok w its ord s e t)|].
  intros [r w'] (-> & cur & (its' & Hu & Hset) & Hcur). split; [done|]. exists its', cur.
  split_and!; try done. by rewrite Hu, unversioned_moved.
Qed.

(** C10: [next] goes to the next song of the order or stops at its end.
    Consume mode deletes one song; it is the one that was played, unless the
    order is shuffled on the way. *)
Theorem playlist_next_correct w its ord :
  w_inv w its ord -> w_playing w = true ->
  let n := w_next_order w (Z.of_nat (length its)) in
  safe thread_may_hang (playlist_next w) (fun w' => exists its' p ord1,
    unversioned its' = (if q_consume (w_queue w) then delete p (unversioned its)
                        else unversioned its) /\
    settled its' (cursor_id its ord1 n) (0 <=? n) (w_queue w) w' /\
    (0 < n \/ q_random (w_queue w) = false ->
     ord1 = ord /\ ord !! Z.to_nat (w_current w) = Some p)).
Proof. apply playlist_next_ok. Qed.

(** [play] with a valid position plays the song at that position, also in
    random mode; an invalid position is an error, and only then. *)
Theorem playlist_play_correct w its ord song :
  w_inv w its ord -> - 2 ^ 31 <= song < 2 ^ 31 ->
  safe thread_may_hang (playlist_play song w) (played song its w).
Proof. intros. by eapply weaken_hang, playlist_play_ok. Qed.

(** A song is appended with a new identifier, or the playlist is full and
    nothing changes. *)
Theorem playlist_append_song_correct w its ord s :
  w_inv w its ord ->
  safe thread_may_hang (playlist_append_song s w) (fun '(r, idopt, w') =>
    (q_max_length (w_queue w) <= Z.of_nat (length its) ->
       r = PLAYLIST_TOO_LARGE /\ idopt = None /\ w' = w) /\
    (Z.of_nat (length its) < q_max_length (w_queue w) ->
       r = MPD_SUCCESS /\ exists id its' cur, idopt = Some id /\
       (forall it, it ∈ its -> item_id it <> id) /\
       unversioned its' = unversioned its ++ [Item s id 0 0] /\
       settled its' cur (w_playing w) (w_queue w) w' /\
       (q_random (w_queue w) = false \/ w_queued w < 0 \/ w_current w <= w_queued w ->
        cur = cursor_id its ord (w_current w)))).
Proof.
  intros Hinv. eapply safe_mono; [by apply (playlist_append_song_ok w its ord)|].
  intros [[r idopt] w'] [Hfull Hroom]. split; [done|]. intros Hl.
  destruct (Hroom Hl) as (-> & id & v & cur & -> & Hid & (its' & Hu & Hset) & Hcur).
  split; [done|]. exists id, its', cur. split_and!; try done.
  rewrite Hu. unfold appended, unversioned. by rewrite fmap_app.
Qed.

(** [shuffle] permutes the songs [s..e-1] and keeps the others where they
    are; the song that is playing stays the current one. *)
Theorem playlist_shuffle_correct w its ord (s e : nat) :
  w_inv w its ord -> (S s < e <= length its)%nat ->
  safe thread_may_hang (playlist_shuffle (Z.of_nat s) (Z.of_nat e) w) (fun w' =>
    exists its', range_perm s e (unversioned its) (unversioned its') /\
      settled its' (if w_playing w then cursor_id its ord (w_current w) else None)
        (w_playing w) (w_queue w) w').
Proof.
  intros. eapply safe_mono; [by apply (playlist_shuffle_ok w its ord s e)|].
  intros w' (its' & Hp & its2 & Hu & Hset). exists its2. by rewrite Hu.
Qed.

(** Switching random mode keeps the list of songs, and the song that is
    playing stays the current one; without random mode the order is the
    identity again. *)
Theorem playlist_set_random_correct w its ord b :
  w_inv w its ord ->
  safe thread_may_hang (playlist_set_random b w) (fun w' => exists ord' id,
    w_inv w' its ord' /\ cursor_id its ord' (w_current w') = id /\
    w_playing w' = w_playing w /\ q_random (w_queue w') = b /\
    (w_playing w = true \/ b = false -> id = cursor_id its ord (w_current w)) /\
    (b = false -> ord' = seq 0 (length its))).
Proof.
  intros Hinv. eapply safe_mono; [by apply (playlist_set_random_ok w its ord b)|].
  intros w' ((id & q & (ord' & Hinv' & Hc & Hp & _) & Hid) & Hr). exists ord', id.
  split_and!; try done; [intros []; auto|]. intros ->. by apply (inv_ident _ _ _ (inv_queue _ _ _ Hinv')).
Qed.

(** When the player has started the queued song, it becomes the current
    one, and consume mode deletes the song before it. *)
Theorem playlist_song_started_correct w its ord :
  w_inv w its ord -> w_playing w = true -> next_song (w_player w) = None -> 0 <= w_queued w ->
  started_safe w ->
  safe thread_may_hang (playlist_song_started w) (fun w' => exists its' p playing id,
    unversioned its' = (if q_consume (w_queue w) then delete p (unversioned its)
                        else unversioned its) /\
    ord !! Z.to_nat (w_current w) = Some p /\ settled its' id playing (w_queue w) w' /\
    (q_consume (w_queue w) = false \/ w_queued w <> w_current w ->
     id = cursor_id its ord (w_queued w) /\ playing = true)).
Proof. apply playlist_song_started_ok. Qed.

(** Deleting the positions [s..e-1] keeps the songs in front of and behind
    the range, in their order. *)
Theorem playlist_delete_range_correct w its ord (s e : nat) :
  w_inv w its ord -> (s < e <= length its)%nat -> quiet w ->
  safe thread_may_hang (playlist_delete_range (Z.of_nat s) (Z.of_nat e) w) (fun '(r, w') =>
    r = MPD_SUCCESS /\ exists its' ord', w_inv w' its' ord' /\
      unversioned its' = take s (unversioned its) ++ drop e (unversioned its)).
Proof.
  intros. eapply safe_mono; [by apply (playlist_delete_range_ok w its ord s e)|].
  intros [r w'] (-> & its' & cur & pl & (its2 & Hu2 & ord2 & Hinv2 & _) & Hu). split; [done|].
  exists its2, ord2. split; [done|]. by rewrite Hu2.
Qed.

(** [playlist_delete_song()] deletes every occurrence of the song and
    nothing else. *)
Theorem playlist_delete_song_correct w its ord s :
  w_inv w its ord -> quiet w ->
  safe thread_may_hang (playlist_delete_song s w) (fun w' => exists its' ord',
    w_inv w' its' ord' /\ unversioned its' = other_songs s (unversioned its)).
Proof. apply playlist_delete_song_ok. Qed.

(** Changing priorities keeps the songs and their positions; [current]
    keeps its song although the order changes. *)
Theorem playlist_set_priority_correct w its ord (s e : nat) pr :
  w_inv w its ord -> (s < e <= length its)%nat ->
  safe thread_may_hang (playlist_set_priority (Z.of_nat s) (Z.of_nat e) pr w) (fun '(r, w') =>
    r = MPD_SUCCESS /\
    edited (alter_range (prioritized (q_version (w_queue w)) pr) s e its)
      (cursor_id its ord (w_current w)) (w_playing w) (w_queue w) w').
Proof. apply playlist_set_priority_ok. Qed.

(** Swapping two positions swaps the songs, and [current] follows its
    song. *)
Theorem playlist_swap_songs_correct w its ord (p1 p2 : nat) :
  w_inv w its ord -> (p1 < length its)%nat -> (p2 < length its)%nat ->
  safe thread_may_hang (playlist_swap_songs (Z.of_nat p1) (Z.of_nat p2) w) (fun '(r, w') =>
    r = MPD_SUCCESS /\ exists its',
    unversioned its' = swap_list p1 p2 (unversioned its) /\
    settled its' (cursor_id its ord (w_current w)) (w_playing w) (w_queue w) w').
Proof.
  intros Hinv H1 H2. eapply safe_mono; [by apply (playlist_swap_songs_ok w its ord p1 p2)|].
  intros [r w'] (-> & its' & Hu & Hset). split; [done|]. exists its'. split; [|done].
  destruct (lookup_lt_is_Some_2 its p1 H1) as [it1 Hit1].
  destruct (lookup_lt_is_Some_2 its p2 H2) as [it2 Hit2].
  rewrite Hu. by apply (swap_items_lookup _ _ _ _ it1 it2 0).
Qed.

(** Seeking to a position makes the song there the current one and plays
    it. *)
Theorem playlist_seek_song_correct w its ord (song : nat) t :
  w_inv w its ord -> (song < length its)%nat -> seek_fits (f64_of_f32 t) = true ->
  safe thread_may_hang (playlist_seek_song (Z.of_nat song) t w) (fun '(r, w') =>
    r = MPD_SUCCESS /\ settled its (item_id <$> its !! song) true (w_queue w) w').
Proof. apply playlist_seek_song_ok. Qed.

(** [stop] stops playback and keeps the current song, although random mode
    shuffles the order. *)
Theorem playlist_stop_correct w its ord :
  w_inv w its ord ->
  safe thread_may_hang (playlist_stop w) (fun w' =>
    settled its (cursor_id its ord (w_current w)) false (w_queue w) w' /\
    q_version (w_queue w') = q_version (w_queue w)).
Proof.
  intros Hinv. eapply safe_mono; [by eapply weaken_hang, playlist_stop_ok, w_inv_stoppable|].
  by intros w' (? & _ & ?).
Qed.

(** [previous] goes one song back in the order; at its beginning it wraps
    around with "repeat" and starts the first song again without. *)
Theorem playlist_previous_correct w its ord :
  w_inv w its ord -> w_playing w = true ->
  safe thread_may_hang (playlist_previous w) (fun w' => exists o,
    started o its ord (w_queue w) w' /\
    Z.of_nat o = previous_order (q_repeat (w_queue w)) (Z.of_nat (length its)) (w_current w)).
Proof. intros. by eapply weaken_hang, playlist_previous_ok. Qed.

(** [clear] stops playback and leaves an empty playlist. *)
Theorem playlist_clear_correct w its ord :
  w_inv w its ord ->
  safe thread_may_hang (playlist_clear w) (fun w' =>
    w_inv w' [] [] /\ w_current w' = -1 /\ w_playing w' = false /\ w_queued w' = -1).
Proof. intros. by eapply weaken_hang, playlist_clear_ok. Qed.

(** A move to the negative position [-k] puts the song [k] songs behind the
    current one, counted around the end of the playlist. *)
Theorem playlist_move_relative_correct w its ord (s k cp : nat) :
  w_inv w its ord -> (s < length its)%nat -> (0 < k <= length its)%nat ->
  cursor_pos ord (w_current w) = Some cp -> cp <> s ->
  safe thread_may_hang (playlist_move_range (Z.of_nat s) (Z.of_nat s + 1) (- Z.of_nat k) w)
    (fun '(r, w') => r = MPD_SUCCESS /\ exists its',
      unversioned its' =
        move_block s (S s) (relative_target (length its) cp s k) (unversioned its) /\
      settled its' (cursor_id its ord (w_current w)) (w_playing w) (w_queue w) w').
Proof.
  intros. eapply safe_mono; [by apply (playlist_move_relative_ok w its ord s k cp)|].
  intros [r w'] (-> & its' & Hu & Hset). split; [done|]. exists its'. split; [|done].
  by rewrite Hu, unversioned_moved.
Qed.

End with_player.

(** ** The theorems at the sample states

    [simple_thread] never hangs, so [safe] means that the operation
    returns. *)

Lemma invariant_playing_world : invariant playing_world.
Proof. exists (its_of playing_world), [0; 1; 2; 3; 4]%nat. apply playing_world_inv. Qed.

Lemma commands_keep_invariant_witness :
  exists r w', run (CmdMove 0 2 3) playing_world = Ok (r, w') /\ invariant w'.
Proof.
  pose proof (commands_keep_invariant (CmdMove 0 2 3) playing_world invariant_playing_world) as H.
  destruct (run (CmdMove 0 2 3) playing_world) as [[r w']|f].
  - exists r, w'. split; [reflexivity|]. apply H; vm_compute; intuition discriminate.
  - exfalso. destruct f; apply H; vm_compute; intuition discriminate.
Defined.

Lemma safe_returns {A} (m : res A) (Q : A -> Prop) : safe False m Q -> exists a, m = Ok a /\ Q a.
Proof. destruct m as [a|[]]; simpl; intros; try contradiction. eauto. Qed.

Lemma initial_world : initial (sample 0 []).
Proof.
  exists 16, 0, 1, demo_player. split; [reflexivity|].
  split_and!; try (vm_compute; done).
Qed.

Lemma reachable_states_ok_witness :
  exists r w' its ord, run (CmdAppend (demo_song 0)) (sample 0 []) = Ok (r, w') /\ w_inv w' its ord.
Proof.
  destruct (safe_returns _ _ (run_ok (CmdAppend (demo_song 0)) (sample 0 [])
    (initial_invariant _ initial_world) I I)) as ([r w'] & He & _).
  destruct (reachable_states_ok (sample 0 []) w' initial_world) as (its & ord & H & _).
  - apply rtc_once. exact (StepCommand (CmdAppend (demo_song 0)) (sample 0 []) r w' I I He).
  - exists r, w', its, ord. split; [exact He|exact H].
Defined.

Lemma playlist_delete_correct_witness :
  exists r w', playlist_delete 2 queued_world = Ok (r, w') /\ r = MPD_SUCCESS.
Proof.
  destruct (safe_returns _ _ (playlist_delete_correct queued_world _ _ 2 2 queued_world_inv
    ltac:(vm_compute; lia) ltac:(vm_compute; reflexivity) ltac:(left; vm_compute; reflexivity))) as ([r w'] & He & Hr & _).
  exists r, w'. split; [exact He|exact Hr].
Defined.

Lemma playlist_move_range_correct_witness :
  exists r w', playlist_move_range 0 2 3 queued_world = Ok (r, w') /\ r = MPD_SUCCESS.
Proof.
  destruct (safe_returns _ _ (playlist_move_range_correct queued_world _ _ 0 2 3 queued_world_inv
    ltac:(vm_compute; lia) ltac:(vm_compute; lia) ltac:(lia))) as ([r w'] & He & Hr & _).
  exists r, w'. split; [exact He|exact Hr].
Defined.

Lemma playlist_next_correct_witness : exists w', playlist_next random_world = Ok w'.
Proof.
  destruct (safe_returns _ _ (playlist_next_correct random_world _ _ random_world_inv
    ltac:(vm_compute; reflexivity))) as (w' & He & _). exists w'. exact He.
Defined.

Lemma playlist_play_correct_witness :
  exists r w', playlist_play 3 random_world = Ok (r, w') /\ played 3 (its_of random_world) random_world (r, w').
Proof.
  destruct (safe_returns _ _ (playlist_play_correct random_world _ _ 3 random_world_inv
    ltac:(lia))) as ([r w'] & He & Hp). exists r, w'. split; [exact He|exact Hp].
Defined.

Lemma playlist_append_song_correct_witness :
  exists id w', playlist_append_song (demo_song 9) random_world = Ok (MPD_SUCCESS, Some id, w').
Proof.
  destruct (safe_returns _ _ (playlist_append_song_correct random_world _ _ (demo_song 9)
    random_world_inv)) as ([[r idopt] w'] & He & _ & Hroom).
  destruct Hroom as (Hr & id & its' & cur & Hid & _); [vm_compute; reflexivity|].
  exists id, w'. rewrite <- Hr, <- Hid. exact He.
Defined.

Lemma playlist_shuffle_correct_witness : exists w', playlist_shuffle 0 4 random_world = Ok w'.
Proof.
  destruct (safe_returns _ _ (playlist_shuffle_correct random_world _ _ 0 4 random_world_inv
    ltac:(vm_compute; lia))) as (w' & He & _). exists w'. exact He.
Defined.

Lemma playlist_set_random_correct_witness :
  exists w', playlist_set_random false random_world = Ok w' /\ q_random (w_queue w') = false.
Proof.
  destruct (safe_returns _ _ (playlist_set_random_correct random_world _ _ false random_world_inv))
    as (w' & He & ord' & id & _ & _ & _ & Hr & _). exists w'. split; [exact He|exact Hr].
Defined.

(** The player has taken the queued song. *)
Definition started_world : world :=
  set_player (on_control (pc_with_next_song None) (w_player queued_world)) queued_world.

Lemma started_world_inv : w_inv started_world (its_of started_world) [0; 1; 2; 3; 4]%nat.
Proof. apply w_check_ok. vm_compute. reflexivity. Qed.

Lemma playlist_song_started_correct_witness : exists w', playlist_song_started started_world = Ok w'.
Proof.
  destruct (safe_returns _ _ (playlist_song_started_correct started_world _ _ started_world_inv
    ltac:(vm_compute; reflexivity) ltac:(vm_compute; reflexivity) ltac:(vm_compute; discriminate)
    ltac:(intros H; vm_compute in H; discriminate H))) as (w' & He & _). exists w'. exact He.
Defined.

Lemma playlist_delete_range_correct_witness :
  exists r w', playlist_delete_range 1 3 queued_world = Ok (r, w') /\ r = MPD_SUCCESS.
Proof.
  destruct (safe_returns _ _ (playlist_delete_range_correct queued_world _ _ 1 3 queued_world_inv
    ltac:(vm_compute; lia) ltac:(left; vm_compute; reflexivity))) as ([r w'] & He & Hr & _).
  exists r, w'. split; [exact He|exact Hr].
Defined.

Lemma playlist_delete_song_correct_witness :
  exists w', playlist_delete_song (demo_song 3) queued_world = Ok w'.
Proof.
  destruct (safe_returns _ _ (playlist_delete_song_correct queued_world _ _ (demo_song 3)
    queued_world_inv ltac:(left; vm_compute; reflexivity))) as (w' & He & _). exists w'. exact He.
Defined.

Lemma playlist_set_priority_correct_witness :
  exists r w', playlist_set_priority 2 5 10 random_world = Ok (r, w') /\ r = MPD_SUCCESS.
Proof.
  destruct (safe_returns _ _ (playlist_set_priority_correct random_world _ _ 2 5 10 random_world_inv
    ltac:(vm_compute; lia))) as ([r w'] & He & Hr & _). exists r, w'. split; [exact He|exact Hr].
Defined.

Lemma playlist_swap_songs_correct_witness :
  exists r w', playlist_swap_songs 1 4 random_world = Ok (r, w') /\ r = MPD_SUCCESS.
Proof.
  destruct (safe_returns _ _ (playlist_swap_songs_correct random_world _ _ 1 4 random_world_inv
    ltac:(vm_compute; lia) ltac:(vm_compute; lia))) as ([r w'] & He & Hr & _).
  exists r, w'. split; [exact He|exact Hr].
Defined.

Lemma playlist_seek_song_correct_witness :
  exists r w', playlist_seek_song 3 (f32_of_Z 30) random_world = Ok (r, w') /\ r = MPD_SUCCESS.
Proof.
  destruct (safe_returns _ _ (playlist_seek_song_correct random_world _ _ 3 (f32_of_Z 30)
    random_world_inv ltac:(vm_compute; lia) ltac:(vm_compute; reflexivity)))
    as ([r w'] & He & Hr & _). exists r, w'. split; [exact He|exact Hr].
Defined.

Lemma playlist_stop_correct_witness : exists w', playlist_stop random_world = Ok w'.
Proof.
  destruct (safe_returns _ _ (playlist_stop_correct random_world _ _ random_world_inv))
    as (w' & He & _). exists w'. exact He.
Defined.

Lemma playlist_previous_correct_witness : exists w', playlist_previous playing_world = Ok w'.
Proof.
  destruct (safe_returns _ _ (playlist_previous_correct playing_world _ _ playing_world_inv
    ltac:(vm_compute; reflexivity))) as (w' & He & _). exists w'. exact He.
Defined.

Lemma playlist_clear_correct_witness :
  exists w', playlist_clear random_world = Ok w' /\ w_current w' = -1.
Proof.
  destruct (safe_returns _ _ (playlist_clear_correct random_world _ _ random_world_inv))
    as (w' & He & _ & Hc & _). exists w'. split; [exact He|exact Hc].
Defined.

Lemma playlist_move_relative_correct_witness :
  exists r w', playlist_move_range 4 5 (-1) queued_world = Ok (r, w') /\ r = MPD_SUCCESS.
Proof.
  destruct (safe_returns _ _ (playlist_move_relative_correct queued_world _ _ 4 1 1 queued_world_inv
    ltac:(vm_compute; lia) ltac:(vm_compute; lia) ltac:(vm_compute; reflexivity) ltac:(lia)))
    as ([r w'] & He & Hr & _). exists r, w'. split; [exact He|exact Hr].
Defined.
