(* ===== verification/PlayerTheorems.v ===== *)
(** * Theorems about the player

    The player thread meets the contract that the playlist relies on, the
    hand-shake between them, and the events that go back to the main
    thread. *)

From S2P Require Import Prelude Err GLib Float Song AudioFormat EventPipe PlayerControl.
From S2P Require Import DecoderControl PlayerThread PlayerThreadProofs.
From S2P Require Import Handshake Playlist PlaylistSafety PlaylistInv.
Local Open Scope Z_scope.

(** C3: whatever the decoder and the outputs do within their contracts, the
    player thread answers a command without a failed assertion: the
    command is acknowledged, [state] and [next_song] are as the client expects
    and the thread's invariant holds again.  Only a command that is issued
    during playback can stay unanswered. *)
Theorem player_thread_answers env t pc0 pc n cmd :
  (forall k, env_ok (env k)) -> mpd_thread_ok t pc0 -> pc_state pc = pc_state pc0 ->
  pc_command pc = cmd -> pc_error pc = PLAYER_ERROR_PENDING ->
  may_issue cmd (pc_next_song pc0) pc ->
  safe (pc_state pc <> PLAYER_STATE_STOP) (player_thread_run env t pc n) (fun '(t', pc', _) =>
    pc_error pc' <> PLAYER_ERROR_PENDING /\
    mpd_thread_ok t' (pc_with_command PLAYER_COMMAND_NONE pc') /\ answered cmd pc pc').
Proof.
  apply player_thread_run_ok.
Qed.

Lemma player_thread_answers_witness :
  exists t pc n, player_thread_run mpd_env thread_init
    (issue PLAYER_COMMAND_QUEUE (Some (demo_track 1)) (pc_new 1024 0)) notify_init = Ok (t, pc, n) /\
    pc_next_song pc = None.
Proof.
  pose proof (player_thread_answers mpd_env thread_init (pc_new 1024 0)
    (issue PLAYER_COMMAND_QUEUE (Some (demo_track 1)) (pc_new 1024 0)) notify_init
    PLAYER_COMMAND_QUEUE) as H.
  specialize (H ltac:(intros k; apply demo_env_ok; discriminate) ltac:(repeat split) eq_refl eq_refl eq_refl ltac:(split; [reflexivity|discriminate])).
  destruct (player_thread_run _ _ _ _) as [[[t pc] n]|f].
  - exists t, pc, n. split; [reflexivity|]. apply H. reflexivity.
  - exfalso. destruct f; contradiction.
Defined.

(** C13: [STOP], [CLOSE_AUDIO] and [EXIT] during playback, and a [CANCEL] that
    arrives too late, are never acknowledged: the client waits forever. *)
Theorem player_thread_never_answers env t y pc0 pc n :
  env_ok (env (th_tick t)) -> mpd_thread_ok t pc0 -> th_mode t = Playing y ->
  pc_next_song pc = pc_next_song pc0 -> pc_error pc = PLAYER_ERROR_PENDING -> unanswered pc ->
  player_thread_run env t pc n = Err NoAnswer.
Proof.
  intros Hob [_ Hok] Hm Hn He Hun. rewrite Hm in Hok. destruct Hok as (_ & Hcore & Hl).
  apply (unanswered_hangs env t y); try done. unfold y_linked in *. simpl in *. by rewrite Hn.
Qed.

(** The thread when it has started to play track 1. *)
Definition playing_thread : thread * player_control :=
  match player_thread_run mpd_env thread_init
    (issue PLAYER_COMMAND_QUEUE (Some (demo_track 1)) (pc_new 1024 0)) notify_init with
  | Ok (t, pc, _) => (t, pc_with_command PLAYER_COMMAND_NONE pc)
  | Err _ => (thread_init, pc_new 0 0)
  end.

Lemma mpd_env_ok k : env_ok (mpd_env k).
Proof. by apply demo_env_ok. Qed.

Lemma playing_thread_ok : mpd_thread_ok playing_thread.1 playing_thread.2.
Proof.
  pose proof (player_thread_run_ok mpd_env thread_init (pc_new 1024 0)
    (issue PLAYER_COMMAND_QUEUE (Some (demo_track 1)) (pc_new 1024 0)) notify_init
    PLAYER_COMMAND_QUEUE mpd_env_ok ltac:(by split) eq_refl eq_refl eq_refl ltac:(by split)) as H.
  unfold playing_thread. revert H. generalize (player_thread_run mpd_env thread_init
    (issue PLAYER_COMMAND_QUEUE (Some (demo_track 1)) (pc_new 1024 0)) notify_init).
  intros [[[t pc] n]|f] H; [apply H|]. by destruct f.
Qed.

Lemma playing_thread_mode : exists y, th_mode playing_thread.1 = Playing y.
Proof. vm_compute. eexists. reflexivity. Qed.

Lemma player_thread_never_answers_witness :
  player_thread_run mpd_env playing_thread.1
    (issue PLAYER_COMMAND_STOP None playing_thread.2) notify_init = Err NoAnswer.
Proof.
  destruct playing_thread_mode as [y Hm].
  apply (player_thread_never_answers mpd_env playing_thread.1 y playing_thread.2).
  - apply demo_env_ok. discriminate.
  - apply playing_thread_ok.
  - exact Hm.
  - vm_compute. reflexivity.
  - reflexivity.
  - left. reflexivity.
Defined.



(** C12: when the player thread is running, it may acknowledge the command
    before the client has set [error] to pending; then both wait for each
    other, and even if others wake them, [player_command()] never returns. *)
Theorem handshake_can_deadlock :
  exists s, rtc (fun s s' => moves s s' /\ ~ forgets s s') thread_running s /\ h_client s = CWaiting /\
    (forall s', ~ moves s s') /\ (forall s', rtc happens s s' -> h_client s' <> CReturned).
Proof.
  exists stuck. split_and!; [apply stuck_reachable|done|apply stuck_no_move|].
  intros s' Hr. by apply (missed_not_returned stuck).
Qed.

(** C14: no event that is emitted with [event_pipe_emit()] is lost: in every
    interleaving of the emitting threads with the pieces of
    [main_notify_event()], as long as the callback has not been invoked since,
    either the main thread has already taken the event, or its flag is set and
    the pipe is readable, a byte is about to be written, or the main thread
    has read the pipe and not yet looked at the flags; once no more events
    are emitted, the remaining steps end, and when they have, every callback
    has been invoked. *)
Theorem event_pipe_no_lost_event s :
  rtc Interleaving.step Interleaving.init s ->
  Interleaving.no_lost_event s /\ Acc (flip Interleaving.handling) s /\
  ((forall s', ~ Interleaving.handling s s') -> forall e, Interleaving.s_owed s e = false).
Proof.
  intros Hn%noticed_reachable. split; [by apply noticed_not_lost|]. split; [by apply handling_terminates|].
  intros Hd e. by apply handling_finished.
Qed.

(** An event has been emitted and not been handled. *)
Definition one_emitted : Interleaving.state :=
  Interleaving.State (set_event PIPE_EVENT_IDLE true notify_init) 1 Interleaving.MIdle
    (Interleaving.mark PIPE_EVENT_IDLE true (fun _ => false)).

Lemma event_pipe_no_lost_event_witness :
  Interleaving.s_owed one_emitted PIPE_EVENT_IDLE = true /\ Interleaving.no_lost_event one_emitted /\
  exists s, Interleaving.handling one_emitted s.
Proof.
  split; [reflexivity|]. split.
  - apply event_pipe_no_lost_event. apply rtc_once. exact (Interleaving.emit notify_init 0 Interleaving.MIdle
      (fun _ => false) PIPE_EVENT_IDLE eq_refl).
  - eexists. apply Interleaving.emit_write.
Defined.
