(* ===== verification/ProtocolTheorems.v ===== *)
(** * Theorems about the protocol

    Lines of a client are split, dispatched and answered; commands reach the
    playlist only through the checks of the registry; the input and output
    buffers neither lose nor reorder bytes. *)

From S2P Require Import Prelude Err GLib Song CString Uri Float AudioFormat EventPipe PlayQueue.
From S2P Require Import PlayerControl Playlist PlaylistInv PlaylistSafety.
From S2P Require Import PlaylistDefects ServerSamples Tokenizer Strtod ArgParser FifoBuffer.
From S2P Require Import ClientWrite ClientRead Client Permission Server Command Handlers.
From S2P Require Import HandlerSafety CommandSafety ClientProcess.
Local Open Scope Z_scope.

Section with_env.
Context {G : GLib} {HG : GLibSpec G} {T : PlayerThread} {HT : PlayerThreadSpec T}.
Context {L : Limits} {HL : LimitsOk L} {E : Env}.


(** C16: a request whose command is unknown, not permitted or has a wrong
    number of arguments is answered with exactly one line of error, which
    names the error, the number in the command list and the command; it
    changes neither playlist nor player, permissions, other clients nor
    anything of this client but its output. *)
Theorem command_process_refused i c total num line argv cmd e sv :
  sv_clients sv !! i = Some c -> client_inv client_max_output_buffer_size c ->
  delivers total (cl_output c) -> line_words line = Some argv ->
  (length argv < COMMAND_ARGV_MAX)%nat ->
  refusal (client_get_permission c) argv = Some (cmd, e) ->
  wp (command_process i num line sv) (fun '(ret, sv') => ret = COMMAND_RETURN_ERROR /\
    told i c total (ack_line num cmd e) sv sv').
Proof.
  intros Hc Hi Hd Hw Hn Hr. unfold command_process, line_words in *. cbv zeta.
  destruct (tokenizer_next_word line) as [[name| |e'] rest]; try done.
  destruct (read_params _ _ _) as [[argv' last] rest']. unfold mbind, M_bind, modify.
  destruct (Nat.leb_spec COMMAND_ARGV_MAX (length argv')) as [Hl|Hl].
  { destruct rest'; simplify_eq; lia. }
  destruct rest' as [|ch rest']; simplify_eq. rewrite bool_decide_true by done. simpl negb.
  eapply wp_mono; [eapply (command_execute_refused i c total); done|].
  intros [ret sv'] [-> Ht]. split; [done|exact Ht].
Qed.

(** The lines of a command list are stored without any effect; the line
    that ends it runs them in the order in which they were sent, and then
    forgets them. *)
Theorem command_list_in_order i c (list_ok : bool) lines sv :
  sv_clients sv !! i = Some c -> cl_idle_waiting c = false -> cl_cmd_list_OK c = -1 ->
  cl_cmd_list c = [] -> 0 <= cl_cmd_list_size c -> Forall list_line lines ->
  cl_cmd_list_size c + lines_size lines <= client_max_command_list_size < 2 ^ 64 ->
  let begin := if list_ok then CLIENT_LIST_OK_MODE_BEGIN else CLIENT_LIST_MODE_BEGIN in
  let collected l := with_client i (cl_set_cmd_list l (if list_ok then 1 else 0)
                       (cl_cmd_list_size c + lines_size lines) c) sv in
  client_process_lines i (begin :: lines) sv =
    Ok (replicate (S (length lines)) COMMAND_RETURN_OK, collected (rev lines)) /\
  client_process_line i CLIENT_LIST_MODE_END (collected (rev lines)) =
    (ret ← client_process_command_list i list_ok lines;
     finish_request i ret (change_client i (fun c => cl_set_cmd_list [] (-1) (cl_cmd_list_size c) c)))
      (collected lines).
Proof. apply command_list_run. Qed.

End with_env.

(** C17: a client that writes its arguments in quotes, with a backslash in
    front of quotes and backslashes, gets every argument through unchanged,
    whatever bytes it is made of. *)
Theorem quoted_line_roundtrip name args :
  is_word name = true -> (length args < COMMAND_ARGV_MAX - 1)%nat ->
  exists rest, tokenizer_next_word (quoted_line name args) = (TWord name, rest) /\
    read_params (COMMAND_ARGV_MAX - 1) [name] rest = (name :: args, TNull, []).
Proof.
  intros Hn Ha. exists (strchug_fast (quoted_args args)). split.
  - apply tokenizer_next_word_ok; [done|apply quoted_args_separated].
  - by rewrite read_params_quoted.
Qed.

(** C18: the registry is sorted, its names are distinct, and the binary search
    of [command_lookup()] ends and finds what a search from the first to the
    last entry finds. *)
Theorem command_lookup_is_linear_search :
  command_init = true /\ NoDup (map cmd_cmd commands) /\
  forall name, command_lookup name = Ok (find_command name).
Proof.
  split_and!; [apply command_init_ok| |apply command_lookup_find].
  apply NoDup_alt. intros j k x Hj Hk.
  apply list_lookup_fmap_Some in Hj as (c & Hx & Hc), Hk as (d & Hy & Hd).
  eapply commands_unique; [exact Hc|exact Hd|congruence].
Qed.

(** C19: however the input of a client is cut into pieces, the same lines are
    processed in the same order, up to the first that ends the connection;
    the beginning of the next line waits in the buffer. *)
Theorem client_input_lines {C} (process_line : cstring -> C -> res (command_return * C))
    (is_expired : C -> bool) pieces s b pre c :
  fifo_rep b pre -> before newline pre = None -> lines_fit (fb_size b) (pre ++ s) ->
  exists ch' b', client_events process_line is_expired read_stream (length s) (pieces, s) b c =
      ('(ret, c') ← process_lines process_line is_expired (split_lines (pre ++ s)).1 c;
       Ok (ret, ch', b', c')) /\
    (forall c', process_lines process_line is_expired (split_lines (pre ++ s)).1 c =
       Ok (COMMAND_RETURN_OK, c') ->
     ch'.2 = [] /\ fifo_rep b' (split_lines (pre ++ s)).2).
Proof. intros. by apply client_events_ok. Qed.

(** C20: whatever the socket accepts at a time, a client gets exactly what has
    been written to it, in order; a connection that is given up, because of
    an error or because too much is waiting, has got a prefix of it, and what
    is waiting never exceeds the limit. *)
Theorem client_write_complete limit (limit_ok : 0 <= limit < 2 ^ 62) buffer total o :
  delivers total o -> (o_expired o = false -> out_inv limit o) ->
  wp (client_write limit buffer o) (fun o' =>
    delivers (total ++ buffer) o' /\
    (o_expired o' = false -> out_inv limit o' /\ deferred_size (o_deferred o') <= limit)).
Proof.
  intros Hd Ho. eapply wp_mono; [by apply (client_write_ok limit limit_ok buffer total)|].
  intros o' [Hd' Ho']. split; [done|]. intros He. pose proof (Ho' He) as Hi.
  split; [done|]. rewrite <- (out_bytes _ _ Hi). apply Hi.
Qed.

(** Positions and ranges that a client prints are read back: [a:b], the
    open range [a:], and a single position [a], which is the range of length
    one unless it is the greatest number; whatever text is accepted denotes
    two numbers of 32 bits. *)
Theorem check_range_roundtrip a b :
  0 <= a < 2 ^ 32 -> 0 <= b < 2 ^ 32 ->
  check_range (print_u a ++ ":"%char :: print_u b) = Accepted (a, b) /\
  check_range (print_u a ++ [":"%char]) = Accepted (a, G_MAXUINT) /\
  check_range (print_u a) = Accepted (a, u32 (a + 1)) /\
  forall s x y, check_range s = Accepted (x, y) -> 0 <= x < 2 ^ 32 /\ 0 <= y < 2 ^ 32.
Proof.
  intros Ha Hb. split_and!; [by apply check_range_print|by apply check_range_open|
    by apply check_range_single|apply check_range_range].
Qed.

(** An event reaches a client that waits for it at once, in one answer
    that lists exactly the subsystems that have changed and that it waits
    for, and ends the wait; otherwise it is remembered and nothing is
    sent. *)
Theorem client_idle_add_delivers limit (limit_ok : 0 <= limit < 2 ^ 62) total flags c :
  client_inv limit c -> delivers total (cl_output c) -> client_is_expired c = false ->
  wp (client_idle_add limit flags c) (fun c' => client_inv limit c' /\
    if cl_idle_waiting c && negb (Z.land flags (cl_idle_subscriptions c) =? 0)
    then same_client (cl_set_idle false 0 (cl_idle_subscriptions c) c) c' /\
         delivers (total ++ idle_response (Z.lor (cl_idle_flags c) flags) (cl_idle_subscriptions c))
           (cl_output c')
    else c' = cl_set_idle (cl_idle_waiting c) (Z.lor (cl_idle_flags c) flags)
                (cl_idle_subscriptions c) c).
Proof. by apply client_idle_add_ok. Qed.

(** ** Instances *)


(** A client that may only read wants to play. *)
Lemma command_process_refused_witness :
  wp (command_process 0 3 (lit "play") (sample_server PERMISSION_READ)) (fun '(ret, sv') =>
    ret = COMMAND_RETURN_ERROR /\
    told 0 (sample_client PERMISSION_READ) []
      (lit "ACK [4@3] {play} you don't have permission for " ++ [dquote] ++ lit "play" ++ [dquote] ++ nl)
      (sample_server PERMISSION_READ) sv').
Proof.
  apply (command_process_refused 0 (sample_client PERMISSION_READ) [] 3 (lit "play") [lit "play"]
    (lit "play") (CmdError ACK_ERROR_PERMISSION
      (lit "you don't have permission for " ++ [dquote] ++ lit "play" ++ [dquote]))).
  - reflexivity.
  - apply sample_client_inv.
  - reflexivity.
  - vm_compute. reflexivity.
  - vm_compute. lia.
  - vm_compute. reflexivity.
Defined.

Lemma command_list_in_order_witness :
  client_process_lines 0 [CLIENT_LIST_OK_MODE_BEGIN; lit "play 2"; lit "next"]
    (sample_server all_permissions) =
  Ok ([COMMAND_RETURN_OK; COMMAND_RETURN_OK; COMMAND_RETURN_OK],
    with_client 0 (cl_set_cmd_list [lit "next"; lit "play 2"] 1 12 (sample_client all_permissions))
      (sample_server all_permissions)).
Proof.
  apply (command_list_in_order 0 (sample_client all_permissions) true [lit "play 2"; lit "next"]
    (sample_server all_permissions)); try reflexivity.
  - repeat constructor; discriminate.
  - vm_compute. intuition discriminate.
Defined.

(** Quotes, backslashes, spaces and an empty argument. *)
Lemma quoted_line_roundtrip_witness :
  exists rest,
    tokenizer_next_word (quoted_line (lit "add") [[dquote; backslash]; lit "a b"; []]) =
      (TWord (lit "add"), rest) /\
    read_params (COMMAND_ARGV_MAX - 1) [lit "add"] rest =
      ([lit "add"; [dquote; backslash]; lit "a b"; []], TNull, []).
Proof.
  apply (quoted_line_roundtrip (lit "add") [[dquote; backslash]; lit "a b"; []]);
    [reflexivity|vm_compute; lia].
Defined.

(** Two lines and the beginning of a third arrive in three pieces. *)
Lemma client_input_lines_witness :
  exists ch' b',
    client_events (fun line seen => Ok (COMMAND_RETURN_OK, seen ++ [line])) (fun _ => false)
      read_stream 9 ([1; 3]%nat, lit "ab" ++ nl ++ lit "cd" ++ nl ++ lit "ef ")
      (FifoBuffer 16 0 0 (replicate 16 None)) [] =
      Ok (COMMAND_RETURN_OK, ch', b', [lit "ab"; lit "cd"]) /\ fifo_rep b' (lit "ef ").
Proof.
  destruct (client_input_lines (fun line seen => Ok (COMMAND_RETURN_OK, seen ++ [line]))
    (fun _ : list cstring => false) [1; 3]%nat (lit "ab" ++ nl ++ lit "cd" ++ nl ++ lit "ef ")
    (FifoBuffer 16 0 0 (replicate 16 None)) [] []) as (ch' & b' & H1 & H2).
  - split; try reflexivity; simpl; lia.
  - reflexivity.
  - repeat constructor.
  - exists ch', b'. split; [exact H1|]. by destruct (H2 [lit "ab"; lit "cd"] eq_refl).
Defined.

Lemma client_write_complete_witness :
  wp (client_write 100 (lit "OK") (Output false (Sink [WNormal 1] []) [] [] 0)) (fun o' =>
    delivers (lit "OK") o' /\
    (o_expired o' = false -> out_inv 100 o' /\ deferred_size (o_deferred o') <= 100)).
Proof.
  apply (client_write_complete 100 ltac:(lia) (lit "OK") []); [reflexivity|].
  intros _. split; simpl; try done; vm_compute; intuition discriminate.
Defined.

Lemma check_range_roundtrip_witness :
  check_range (lit "7:4294967295") = Accepted (7, 4294967295) /\
  check_range (lit "7:") = Accepted (7, G_MAXUINT) /\ check_range (lit "7") = Accepted (7, 8) /\
  forall s x y, check_range s = Accepted (x, y) -> 0 <= x < 2 ^ 32 /\ 0 <= y < 2 ^ 32.
Proof. apply (check_range_roundtrip 7 4294967295); lia. Defined.

(** A client waits for events of the player and the mixer. *)
Lemma client_idle_add_delivers_witness :
  wp (client_idle_add 100 (Z.lor IDLE_PLAYER IDLE_OPTIONS)
      (cl_set_idle true 0 (Z.lor IDLE_PLAYER IDLE_MIXER) (sample_client all_permissions))) (fun c' =>
    client_inv 100 c' /\ cl_idle_waiting c' = false /\
    delivers (lit "changed: player" ++ nl ++ lit "OK" ++ nl) (cl_output c')).
Proof.
  eapply wp_mono; [apply (client_idle_add_delivers 100 ltac:(lia) [])|].
  - split; try done; simpl; try (by constructor); lia.
  - reflexivity.
  - reflexivity.
  - intros c' [Hi [Hs Hd]]. rewrite Hs. split_and!; [by rewrite Hs in Hi|done|by rewrite Hs in Hd].
Defined.
