(* ===== verification/Pcm.v ===== *)
(** * Samples

    [src/pcm/pcm_utils.h], [src/pcm/pcm_prng.h], [src/pcm/pcm_dither.c],
    [src/pcm/pcm_volume.c] and [src/pcm/pcm_mix.c].  A buffer of samples is
    the list of their values with the format they have. *)

From S2P Require Import Prelude Float AudioFormat.

Local Open Scope Z_scope.

(** ** Data *)

Inductive pcm_data :=
| PcmUndefined (bytes : list Z)
| PcmS8 (samples : list Z)
| PcmS16 (samples : list Z)
| PcmS24 (samples : list Z)
| PcmS32 (samples : list Z)
| PcmFloat (samples : list float)
| PcmDsd (bytes : list Z).

Definition pcm_format (d : pcm_data) : sample_format :=
  match d with
  | PcmUndefined _ => SAMPLE_FORMAT_UNDEFINED
  | PcmS8 _ => SAMPLE_FORMAT_S8
  | PcmS16 _ => SAMPLE_FORMAT_S16
  | PcmS24 _ => SAMPLE_FORMAT_S24_P32
  | PcmS32 _ => SAMPLE_FORMAT_S32
  | PcmFloat _ => SAMPLE_FORMAT_FLOAT
  | PcmDsd _ => SAMPLE_FORMAT_DSD
  end.

Definition pcm_length (d : pcm_data) : nat :=
  match d with
  | PcmUndefined l | PcmS8 l | PcmS16 l | PcmS24 l | PcmS32 l | PcmDsd l => length l
  | PcmFloat l => length l
  end.

(** The number of bytes. *)
Definition pcm_size (d : pcm_data) : Z :=
  let n := Z.of_nat (pcm_length d) in
  match d with
  | PcmUndefined _ | PcmS8 _ | PcmDsd _ => n
  | PcmS16 _ => 2 * n
  | PcmS24 _ | PcmS32 _ | PcmFloat _ => 4 * n
  end.

(** ** [pcm_utils.h], [pcm_prng.h] *)

(** [unlikely()] is a hint for the compiler. *)
Definition pcm_range (sample bits : Z) : Z :=
  if sample <? Z.shiftl (-1) (bits - 1) then Z.shiftl (-1) (bits - 1)
  else if Z.shiftl 1 (bits - 1) <=? sample then Z.shiftl 1 (bits - 1) - 1
  else sample.
Definition pcm_range_64 (sample bits : Z) : Z := pcm_range sample bits.

Definition pcm_clamp_16 (x : Z) : Z :=
  if x <? -32768 then -32768 else if 32767 <? x then 32767 else x.
Definition pcm_clamp_24 (x : Z) : Z :=
  if x <? - Z.shiftl 1 23 then - Z.shiftl 1 23
  else if Z.shiftl 1 23 - 1 <? x then Z.shiftl 1 23 - 1 else x.

Definition pcm_prng (state : Z) : Z :=
  Z.land (u64 (u64 (state * 0x0019660d) + 0x3c6ef35f)) 0xffffffff.

(** ** [pcm_dither.c] *)

Record pcm_dither := PcmDither {
  dither_error0 : Z;
  dither_error1 : Z;
  dither_error2 : Z;
  dither_random : Z;
}.

Definition pcm_dither_24_init : pcm_dither := PcmDither 0 0 0 0.

(** The enumeration of [pcm_dither_sample_24_to_16()]. *)
Definition scale_bits : Z := 24 - 16.
Definition round : Z := Z.shiftl 1 (scale_bits - 1).
Definition mask : Z := Z.shiftl 1 scale_bits - 1.
Definition ONE : Z := Z.shiftl 1 (24 - 1).
Definition MIN : Z := - ONE.
Definition MAX : Z := ONE - 1.

(** [(int16_t)x]. *)
Definition i16 (x : Z) : Z := (x + 2 ^ 15) `mod` 2 ^ 16 - 2 ^ 15.

(** Output and sample are clipped together. *)
Definition dither_clip (output sample : Z) : Z * Z :=
  if MAX <? output then (MAX, if MAX <? sample then MAX else sample)
  else if output <? MIN then (MIN, if sample <? MIN then MIN else sample)
  else (output, sample).

Definition pcm_dither_sample_24_to_16 (sample : Z) (d : pcm_dither) : res (Z * pcm_dither) :=
  e ← int32 (dither_error0 d - dither_error1 d);
  e ← int32 (e + dither_error2 d);
  sample ← int32 (sample + e);
  let error2 := dither_error1 d in
  let error1 := Z.quot (dither_error0 d) 2 in
  output ← int32 (sample + round);
  let rnd := i32 (pcm_prng (u64 (dither_random d))) in
  output ← int32 (output + (Z.land rnd mask - Z.land (dither_random d) mask));
  let '(output, sample) := dither_clip output sample in
  let output := Z.land output (Z.lnot mask) in
  error0 ← int32 (sample - output);
  Ok (i16 (Z.shiftr output scale_bits), PcmDither error0 error1 error2 rnd).

(** A loop over samples that passes a state on. *)
Fixpoint map_samples {A B S} (f : A -> S -> res (B * S)) (l : list A) (s : S) : res (list B * S) :=
  match l with
  | [] => Ok ([], s)
  | x :: l' =>
      '(y, s) ← f x s;
      '(ys, s) ← map_samples f l' s;
      Ok (y :: ys, s)
  end.

Definition pcm_dither_24_to_16 (src : list Z) (d : pcm_dither) : res (list Z * pcm_dither) :=
  map_samples pcm_dither_sample_24_to_16 src d.

Definition pcm_dither_sample_32_to_16 (sample : Z) (d : pcm_dither) : res (Z * pcm_dither) :=
  pcm_dither_sample_24_to_16 (Z.shiftr sample 8) d.
Definition pcm_dither_32_to_16 (src : list Z) (d : pcm_dither) : res (list Z * pcm_dither) :=
  map_samples pcm_dither_sample_32_to_16 src d.

(** ** [pcm_volume.c] *)

Definition PCM_VOLUME_1 : Z := 1024.

(** [(int)(volume * 1024 + 0.5)] *)
Definition pcm_float_to_volume (volume : float) : option Z :=
  f_to_int (f64_add (f64_of_f32 (f32_mul volume (f32_of_Z PCM_VOLUME_1)))
                    (f64_div (f64_of_Z 1) (f64_of_Z 2))).
Definition pcm_volume_to_float (volume : Z) : float :=
  f32_div (f32_of_Z volume) (f32_of_Z PCM_VOLUME_1).

(** The dither and the next value of the static [state]. *)
Definition pcm_volume_dither (state : Z) : Z * Z :=
  let state := pcm_prng state in
  let r := u32 state in
  (i32 (u32 (Z.land r 511 - Z.land (Z.shiftr r 9) 511)), state).

(** [(x + dither + PCM_VOLUME_1 / 2) / PCM_VOLUME_1] in a type that holds
    the results that [int] accepts. *)
Definition pcm_scale (int : Z -> res Z) (x dither : Z) : res Z :=
  x ← int (x + dither);
  x ← int (x + PCM_VOLUME_1 / 2);
  Ok (Z.quot x PCM_VOLUME_1).

Definition pcm_volume_change_8 (buffer : list Z) (volume state : Z) : res (list Z * Z) :=
  map_samples (fun sample state =>
    let '(dither, state) := pcm_volume_dither state in
    x ← int32 (sample * volume);
    sample ← pcm_scale int32 x dither;
    Ok (pcm_range sample 8, state)) buffer state.

Definition pcm_volume_change_16 (buffer : list Z) (volume state : Z) : res (list Z * Z) :=
  map_samples (fun sample state =>
    let '(dither, state) := pcm_volume_dither state in
    x ← int32 (sample * volume);
    sample ← pcm_scale int32 x dither;
    Ok (pcm_range sample 16, state)) buffer state.

(** The portable versions; the argument of [pcm_range()] is an [int32_t]. *)
Definition pcm_volume_change_24 (buffer : list Z) (volume state : Z) : res (list Z * Z) :=
  map_samples (fun sample state =>
    let '(dither, state) := pcm_volume_dither state in
    x ← int64 (sample * volume);
    sample ← pcm_scale int64 x dither;
    Ok (pcm_range (i32 sample) 24, state)) buffer state.

Definition pcm_volume_change_32 (buffer : list Z) (volume state : Z) : res (list Z * Z) :=
  map_samples (fun sample state =>
    let '(dither, state) := pcm_volume_dither state in
    x ← int64 (sample * volume);
    sample ← pcm_scale int64 x dither;
    Ok (pcm_range_64 sample 32, state)) buffer state.

Definition pcm_volume_change_float (buffer : list float) (volume : float) : list float :=
  map (fun sample => f32_mul sample volume) buffer.

(** [memset(buffer, 0, length)] *)
Definition silence (d : pcm_data) : pcm_data :=
  match d with
  | PcmUndefined l => PcmUndefined (map (fun _ => 0) l)
  | PcmS8 l => PcmS8 (map (fun _ => 0) l)
  | PcmS16 l => PcmS16 (map (fun _ => 0) l)
  | PcmS24 l => PcmS24 (map (fun _ => 0) l)
  | PcmS32 l => PcmS32 (map (fun _ => 0) l)
  | PcmFloat l => PcmFloat (map (fun _ => f_zero) l)
  | PcmDsd l => PcmDsd (map (fun _ => 0) l)
  end.

(** Samples and state of a loop, as the result of a function on buffers. *)
Definition done_samples (c : list Z -> pcm_data) (m : res (list Z * Z)) : res (bool * pcm_data * Z) :=
  '(l, state) ← m; Ok (true, c l, state).

Definition pcm_volume (buffer : pcm_data) (volume state : Z) : res (bool * pcm_data * Z) :=
  if volume =? PCM_VOLUME_1 then Ok (true, buffer, state)
  else if volume <=? 0 then Ok (true, silence buffer, state)
  else match buffer with
       | PcmUndefined _ | PcmDsd _ => Ok (false, buffer, state)
       | PcmS8 l => done_samples PcmS8 (pcm_volume_change_8 l volume state)
       | PcmS16 l => done_samples PcmS16 (pcm_volume_change_16 l volume state)
       | PcmS24 l => done_samples PcmS24 (pcm_volume_change_24 l volume state)
       | PcmS32 l => done_samples PcmS32 (pcm_volume_change_32 l volume state)
       | PcmFloat l => Ok (true, PcmFloat (pcm_volume_change_float l (pcm_volume_to_float volume)), state)
       end.

(** ** [pcm_mix.c] *)

(** [while (num_samples > 0)] over two buffers; the rest of the first is left
    alone. *)
Fixpoint zip_samples {A S} (num_samples : nat) (f : A -> A -> S -> res (A * S))
    (buffer1 buffer2 : list A) (s : S) : res (list A * S) :=
  match num_samples with
  | O => Ok (buffer1, s)
  | Datatypes.S n =>
      match buffer1, buffer2 with
      | x1 :: l1, x2 :: l2 =>
          '(y, s) ← f x1 x2 s;
          '(ys, s) ← zip_samples n f l1 l2 s;
          Ok (y :: ys, s)
      | _, _ => Err OutOfBounds
      end
  end.

(** [int32_t] arithmetic. *)
Definition pcm_mix_int32 (bits volume1 volume2 sample1 sample2 state : Z) : res (Z * Z) :=
  x1 ← int32 (sample1 * volume1);
  x2 ← int32 (sample2 * volume2);
  x ← int32 (x1 + x2);
  let '(dither, state) := pcm_volume_dither state in
  sample1 ← pcm_scale int32 x dither;
  Ok (pcm_range sample1 bits, state).

(** [int64_t] arithmetic with [unsigned] volumes. *)
Definition pcm_mix_int64 (range : Z -> Z) (volume1 volume2 sample1 sample2 state : Z) : res (Z * Z) :=
  x1 ← int64 (sample1 * u32 volume1);
  x2 ← int64 (sample2 * u32 volume2);
  x ← int64 (x1 + x2);
  let '(dither, state) := pcm_volume_dither state in
  sample1 ← pcm_scale int64 x dither;
  Ok (range sample1, state).

Definition pcm_add_vol_8 (b1 b2 : list Z) (n : nat) (volume1 volume2 state : Z) : res (list Z * Z) :=
  zip_samples n (pcm_mix_int32 8 volume1 volume2) b1 b2 state.
Definition pcm_add_vol_16 (b1 b2 : list Z) (n : nat) (volume1 volume2 state : Z) : res (list Z * Z) :=
  zip_samples n (pcm_mix_int32 16 volume1 volume2) b1 b2 state.
Definition pcm_add_vol_24 (b1 b2 : list Z) (n : nat) (volume1 volume2 state : Z) : res (list Z * Z) :=
  zip_samples n (pcm_mix_int64 (fun x => pcm_range (i32 x) 24) volume1 volume2) b1 b2 state.
Definition pcm_add_vol_32 (b1 b2 : list Z) (n : nat) (volume1 volume2 state : Z) : res (list Z * Z) :=
  zip_samples n (pcm_mix_int64 (fun x => pcm_range_64 x 32) volume1 volume2) b1 b2 state.
Definition pcm_add_vol_float (b1 b2 : list float) (n : nat) (volume1 volume2 : float) (state : Z)
  : res (list float * Z) :=
  zip_samples n (fun x1 x2 s => Ok (f32_add (f32_mul x1 volume1) (f32_mul x2 volume2), s)) b1 b2 state.

(** The number of samples in [size] bytes, an [unsigned]. *)
Definition num_samples (size bytes : Z) : nat := Z.to_nat (u32 (size / bytes)).

Definition done_floats (m : res (list float * Z)) : res (bool * pcm_data * Z) :=
  '(l, state) ← m; Ok (true, PcmFloat l, state).

(** Both buffers have the same format; for the formats without an
    implementation the result is [false]. *)
Definition pcm_add_vol (buffer1 buffer2 : pcm_data) (size vol1 vol2 state : Z)
  : res (bool * pcm_data * Z) :=
  match buffer1, buffer2 with
  | PcmS8 l1, PcmS8 l2 =>
      done_samples PcmS8 (pcm_add_vol_8 l1 l2 (num_samples size 1) vol1 vol2 state)
  | PcmS16 l1, PcmS16 l2 =>
      done_samples PcmS16 (pcm_add_vol_16 l1 l2 (num_samples size 2) vol1 vol2 state)
  | PcmS24 l1, PcmS24 l2 =>
      done_samples PcmS24 (pcm_add_vol_24 l1 l2 (num_samples size 4) vol1 vol2 state)
  | PcmS32 l1, PcmS32 l2 =>
      done_samples PcmS32 (pcm_add_vol_32 l1 l2 (num_samples size 4) vol1 vol2 state)
  | PcmFloat l1, PcmFloat l2 =>
      done_floats (pcm_add_vol_float l1 l2 (num_samples size 4) (pcm_volume_to_float vol1)
        (pcm_volume_to_float vol2) state)
  | _, _ => Ok (false, buffer1, state)
  end.

Definition pcm_add_8 (b1 b2 : list Z) (n : nat) (state : Z) : res (list Z * Z) :=
  zip_samples n (fun x1 x2 s => x ← int32 (x1 + x2); Ok (pcm_range x 8, s)) b1 b2 state.
Definition pcm_add_16 (b1 b2 : list Z) (n : nat) (state : Z) : res (list Z * Z) :=
  zip_samples n (fun x1 x2 s => x ← int32 (x1 + x2); Ok (pcm_range x 16, s)) b1 b2 state.
Definition pcm_add_24 (b1 b2 : list Z) (n : nat) (state : Z) : res (list Z * Z) :=
  zip_samples n (fun x1 x2 s => x ← int64 (x1 + x2); Ok (pcm_range (i32 x) 24, s)) b1 b2 state.
Definition pcm_add_32 (b1 b2 : list Z) (n : nat) (state : Z) : res (list Z * Z) :=
  zip_samples n (fun x1 x2 s => x ← int64 (x1 + x2); Ok (pcm_range_64 x 32, s)) b1 b2 state.
Definition pcm_add_float (b1 b2 : list float) (n : nat) (state : Z) : res (list float * Z) :=
  zip_samples n (fun x1 x2 s => Ok (f32_add x1 x2, s)) b1 b2 state.

Definition pcm_add (buffer1 buffer2 : pcm_data) (size state : Z) : res (bool * pcm_data * Z) :=
  match buffer1, buffer2 with
  | PcmS8 l1, PcmS8 l2 => done_samples PcmS8 (pcm_add_8 l1 l2 (num_samples size 1) state)
  | PcmS16 l1, PcmS16 l2 => done_samples PcmS16 (pcm_add_16 l1 l2 (num_samples size 2) state)
  | PcmS24 l1, PcmS24 l2 => done_samples PcmS24 (pcm_add_24 l1 l2 (num_samples size 4) state)
  | PcmS32 l1, PcmS32 l2 => done_samples PcmS32 (pcm_add_32 l1 l2 (num_samples size 4) state)
  | PcmFloat l1, PcmFloat l2 => done_floats (pcm_add_float l1 l2 (num_samples size 4) state)
  | _, _ => Ok (false, buffer1, state)
  end.

(** [M_PI_2] *)
Definition M_PI_2 : double := S754_finite false 7074237752028440 (-52).

(** [sin()] of the C library is a parameter. *)
Definition pcm_mix (sin : double -> double) (buffer1 buffer2 : pcm_data) (size : Z) (portion1 : float)
    (state : Z) : res (bool * pcm_data * Z) :=
  if f_is_nan portion1 then pcm_add buffer1 buffer2 size state
  else
    let s := f32_of_f64 (sin (f64_mul M_PI_2 (f64_of_f32 portion1))) in
    let s := f32_mul s s in
    match pcm_float_to_volume s with
    | None => Err BadConversion
    | Some vol1 =>
        let vol1 := if PCM_VOLUME_1 <? vol1 then PCM_VOLUME_1 else if vol1 <? 0 then 0 else vol1 in
        pcm_add_vol buffer1 buffer2 size vol1 (PCM_VOLUME_1 - vol1) state
    end.

(** * Volume, mixing and dithering

    No overflow, samples stay within their width, and the results are close
    to the exact ones. *)

(** A sample of [bits] bits. *)
Definition in_bits (bits x : Z) : Prop := - 2 ^ (bits - 1) <= x < 2 ^ (bits - 1).

(** The samples have the width of their format. *)
Definition pcm_valid (d : pcm_data) : Prop :=
  match d with
  | PcmS8 l => Forall (in_bits 8) l
  | PcmS16 l => Forall (in_bits 16) l
  | PcmS24 l => Forall (in_bits 24) l
  | PcmS32 l => Forall (in_bits 32) l
  | PcmUndefined l | PcmDsd l => Forall (fun x => 0 <= x < 256) l
  | PcmFloat _ => True
  end.

(** [y] is [x / PCM_VOLUME_1] up to two units. *)
Definition near (x y : Z) : Prop := Z.abs (PCM_VOLUME_1 * y - x) < 2 * PCM_VOLUME_1.

(** ** Ranges *)

Lemma pcm_range_cases x bits :
  0 < bits -> pcm_range x bits =
    if x <? - 2 ^ (bits - 1) then - 2 ^ (bits - 1)
    else if 2 ^ (bits - 1) <=? x then 2 ^ (bits - 1) - 1 else x.
Proof.
  intros Hb. unfold pcm_range. rewrite !Z.shiftl_mul_pow2 by lia.
  by replace (-1 * 2 ^ (bits - 1)) with (- 2 ^ (bits - 1)) by lia; rewrite Z.mul_1_l.
Qed.

Lemma pcm_range_ok x bits : 0 < bits -> in_bits bits (pcm_range x bits).
Proof.
  intros Hb. rewrite pcm_range_cases by done. unfold in_bits.
  pose proof (Z.pow_pos_nonneg 2 (bits - 1)). case_Z; lia.
Qed.

Lemma pcm_range_id x bits : 0 < bits -> in_bits bits x -> pcm_range x bits = x.
Proof. intros Hb [H1 H2]. rewrite pcm_range_cases by done. case_Z; lia. Qed.

Lemma land_mask_range x n : 0 <= n -> 0 <= Z.land x (Z.ones n) < 2 ^ n.
Proof. intros Hn. rewrite Z.land_ones by done. by apply Z.mod_pos_bound, Z.pow_pos_nonneg. Qed.

(** A difference that wraps around as [unsigned] is right as [int]. *)
Lemma i32_u32 x : - 2 ^ 31 <= x < 2 ^ 31 -> i32 (u32 x) = x.
Proof.
  intros Hx. unfold i32, u32. rewrite Z.add_mod_idemp_l by done. rewrite Z.mod_small; lia.
Qed.

Lemma pcm_volume_dither_range state : -511 <= (pcm_volume_dither state).1 <= 511.
Proof.
  unfold pcm_volume_dither. cbv zeta. simpl fst.
  pose proof (land_mask_range (u32 (pcm_prng state)) 9 ltac:(lia)) as H1.
  pose proof (land_mask_range (Z.shiftr (u32 (pcm_prng state)) 9) 9 ltac:(lia)) as H2.
  change (Z.ones 9) with 511 in H1, H2. rewrite i32_u32; lia.
Qed.

(** ** Loops *)

Lemma map_samples_ok {A B S} (f : A -> S -> res (B * S)) (P : A -> Prop) (I : S -> Prop)
    (Q : A -> B -> Prop) l s :
  (forall x s, P x -> I s -> wp (f x s) (fun '(y, s') => Q x y /\ I s')) ->
  Forall P l -> I s ->
  wp (map_samples f l s) (fun '(l', s') => Forall2 Q l l' /\ I s').
Proof.
  intros Hf Hl. revert s. induction Hl as [|x l Hx Hl IH]; intros s Hs; cbn [map_samples].
  { split; [constructor|done]. }
  eapply wp_bind_mono; [by apply Hf|]. intros [y s1] [Hy Hs1].
  eapply wp_bind_mono; [by apply IH|]. intros [ys s2] [Hys Hs2]. split; [by constructor|done].
Qed.

(** Sample by sample; the rest of the first buffer is unchanged. *)
Definition mixed {A} (n : nat) (Q : A -> A -> A -> Prop) (l1 l2 l : list A) : Prop :=
  length l = length l1 /\ drop n l = drop n l1 /\
  forall j x1 x2 y, (j < n)%nat -> l1 !! j = Some x1 -> l2 !! j = Some x2 -> l !! j = Some y -> Q x1 x2 y.

Lemma zip_samples_ok {A S} n (f : A -> A -> S -> res (A * S)) (P : A -> Prop) (Q : A -> A -> A -> Prop)
    l1 l2 s :
  (forall x1 x2 s, P x1 -> P x2 -> wp (f x1 x2 s) (fun '(y, _) => Q x1 x2 y /\ P y)) ->
  Forall P l1 -> Forall P l2 -> (n <= length l1)%nat -> (n <= length l2)%nat ->
  wp (zip_samples n f l1 l2 s) (fun '(l, _) => mixed n Q l1 l2 l /\ Forall P l).
Proof.
  intros Hf. revert l1 l2 s. induction n as [|n IH]; intros l1 l2 s H1 H2 Hn1 Hn2; cbn [zip_samples].
  { split; [|done]. split_and!; [done|done|lia]. }
  destruct l1 as [|x1 l1]; [simpl in Hn1; lia|]. destruct l2 as [|x2 l2]; [simpl in Hn2; lia|].
  apply Forall_cons in H1 as [Hx1 H1], H2 as [Hx2 H2].
  eapply wp_bind_mono; [by apply (Hf x1 x2 s)|]. intros [y s1] [Hq Hp].
  eapply wp_bind_mono; [apply (IH l1 l2 s1); simpl in *; (done || lia)|].
  intros [l s2] [(Hl & Hd & Hq') Hpl]. split; [|by constructor]. split_and!; [simpl; lia|done|].
  intros [|j] a1 a2 b Hj; simpl; [naive_solver|]. apply Hq'. lia.
Qed.

(** ** Volume *)

Lemma pcm_scale_32 x d :
  - 2 ^ 31 + 1024 <= x < 2 ^ 31 - 1024 -> -511 <= d <= 511 ->
  wp (pcm_scale int32 x d) (fun y => near x y /\ Z.abs y <= Z.abs x / PCM_VOLUME_1 + 1).
Proof.
  intros Hx Hd. unfold pcm_scale. rewrite int32_ok by lia. cbn [mbind res_bind].
  rewrite int32_ok by (change (PCM_VOLUME_1 / 2) with 512; lia). cbn [mbind res_bind wp].
  change (PCM_VOLUME_1 / 2) with 512. unfold near, PCM_VOLUME_1.
  Z.to_euclidean_division_equations. lia.
Qed.

Lemma pcm_scale_64 x d :
  - 2 ^ 62 <= x < 2 ^ 62 -> -511 <= d <= 511 ->
  wp (pcm_scale int64 x d) (fun y => near x y /\ Z.abs y <= Z.abs x / PCM_VOLUME_1 + 1).
Proof.
  intros Hx Hd. unfold pcm_scale. rewrite int64_ok by lia. cbn [mbind res_bind].
  rewrite int64_ok by (change (PCM_VOLUME_1 / 2) with 512; lia). cbn [mbind res_bind wp].
  change (PCM_VOLUME_1 / 2) with 512. unfold near, PCM_VOLUME_1.
  Z.to_euclidean_division_equations. lia.
Qed.

(** [y] is [x / PCM_VOLUME_1], up to two units, within [bits] bits. *)
Definition scaled (bits x y : Z) : Prop := exists q, near x q /\ y = pcm_range q bits.

Lemma scaled_in_bits bits x y : 0 < bits -> scaled bits x y -> in_bits bits y.
Proof. intros Hb (q & _ & ->). by apply pcm_range_ok. Qed.

(** Nothing is cut off unless the exact result does not fit. *)
Lemma scaled_near bits x y :
  1 < bits -> - 2 ^ (bits - 1) * PCM_VOLUME_1 <= x <= (2 ^ (bits - 1) - 1) * PCM_VOLUME_1 ->
  scaled bits x y -> near x y.
Proof.
  intros Hb Hx (q & Hq & ->). rewrite pcm_range_cases by lia.
  pose proof (Z.pow_pos_nonneg 2 (bits - 1)). unfold near, PCM_VOLUME_1 in *. case_Z; lia.
Qed.

(** An exact value as [int] or [int64_t] products produce it. *)
Lemma pcm_scale_range_32 bits x d :
  - 2 ^ 31 + 1024 <= x < 2 ^ 31 - 1024 -> -511 <= d <= 511 ->
  wp (pcm_scale int32 x d) (fun y => scaled bits x (pcm_range y bits)).
Proof. intros Hx Hd. eapply wp_mono; [by apply pcm_scale_32|]. intros y [Hy _]. by exists y. Qed.

Lemma pcm_scale_range_64 bits x d :
  - 2 ^ 62 <= x < 2 ^ 62 -> -511 <= d <= 511 ->
  wp (pcm_scale int64 x d) (fun y => scaled bits x (pcm_range y bits) /\
    (- 2 ^ 40 <= x < 2 ^ 40 -> scaled bits x (pcm_range (i32 y) bits))).
Proof.
  intros Hx Hd. eapply wp_mono; [by apply pcm_scale_64|]. intros y [Hy Hb]. split; [by exists y|].
  intros Hs. rewrite i32_small; [by exists y|].
  unfold PCM_VOLUME_1 in Hb. assert (Z.abs x / 1024 <= 2 ^ 40 / 1024) by (apply Z.div_le_mono; lia).
  change (2 ^ 40 / 1024) with (2 ^ 30) in *. lia.
Qed.

(** A volume as [int]; larger ones overflow for 16 bit samples. *)
Definition volume_ok (volume : Z) : Prop := 0 <= volume < 2 ^ 16.

Lemma product_bound bits x volume :
  0 < bits -> in_bits bits x -> volume_ok volume ->
  - 2 ^ (bits - 1) * (2 ^ 16 - 1) <= x * volume <= 2 ^ (bits - 1) * (2 ^ 16 - 1).
Proof. intros Hb [H1 H2] [H3 H4]. nia. Qed.

(** Evaluate the powers of two of a bound. *)
Ltac eval_pow H :=
  repeat match type of H with
  | context [2 ^ (?b - 1)] => let v := eval vm_compute in (2 ^ (b - 1)) in change (2 ^ (b - 1)) with v in H
  end.

Section volume.
Context (volume state : Z) (Hv : volume_ok volume).

Let Q (bits x y : Z) : Prop := scaled bits (x * volume) y.

Ltac volume_step Hx :=
  let d := fresh "d" in let st := fresh "st" in
  match goal with |- context [pcm_volume_dither ?s] =>
    pose proof (pcm_volume_dither_range s); destruct (pcm_volume_dither s) as [d st] end;
  simpl fst in *; let Hp := fresh "Hp" in
  lazymatch type of Hx with
  | in_bits ?b _ => pose proof (product_bound b _ volume ltac:(lia) Hx Hv) as Hp; eval_pow Hp
  end;
  first [rewrite int32_ok by lia | rewrite int64_ok by lia]; cbn [mbind res_bind].

Lemma pcm_volume_change_8_ok l :
  Forall (in_bits 8) l -> wp (pcm_volume_change_8 l volume state) (fun '(l', _) => Forall2 (Q 8) l l').
Proof using Hv.
  intros Hl. eapply wp_mono; [eapply (map_samples_ok _ (in_bits 8) (fun _ => True) (Q 8)); [|done|done]|].
  - intros x s Hx _. volume_step Hx.
    eapply wp_bind_mono; [apply (pcm_scale_range_32 8); lia|]. by intros y Hy.
  - by intros [l' s'] [? _].
Qed.

Lemma pcm_volume_change_16_ok l :
  Forall (in_bits 16) l -> wp (pcm_volume_change_16 l volume state) (fun '(l', _) => Forall2 (Q 16) l l').
Proof using Hv.
  intros Hl. eapply wp_mono; [eapply (map_samples_ok _ (in_bits 16) (fun _ => True) (Q 16)); [|done|done]|].
  - intros x s Hx _. volume_step Hx.
    eapply wp_bind_mono; [apply (pcm_scale_range_32 16); lia|]. by intros y Hy.
  - by intros [l' s'] [? _].
Qed.

Lemma pcm_volume_change_24_ok l :
  Forall (in_bits 24) l -> wp (pcm_volume_change_24 l volume state) (fun '(l', _) => Forall2 (Q 24) l l').
Proof using Hv.
  intros Hl. eapply wp_mono; [eapply (map_samples_ok _ (in_bits 24) (fun _ => True) (Q 24)); [|done|done]|].
  - intros x s Hx _. volume_step Hx.
    eapply wp_bind_mono; [apply (pcm_scale_range_64 24); lia|]. intros y [_ Hy]. split; [apply Hy; lia|done].
  - by intros [l' s'] [? _].
Qed.

Lemma pcm_volume_change_32_ok l :
  Forall (in_bits 32) l -> wp (pcm_volume_change_32 l volume state) (fun '(l', _) => Forall2 (Q 32) l l').
Proof using Hv.
  intros Hl. eapply wp_mono; [eapply (map_samples_ok _ (in_bits 32) (fun _ => True) (Q 32)); [|done|done]|].
  - intros x s Hx _. volume_step Hx.
    eapply wp_bind_mono; [apply (pcm_scale_range_64 32); lia|]. by intros y [Hy _].
  - by intros [l' s'] [? _].
Qed.

End volume.

(** Two buffers of the same format, sample by sample. *)
Definition pointwise (R : Z -> Z -> Z -> Prop) (Rf : float -> float -> Prop) (d d' : pcm_data) : Prop :=
  match d, d' with
  | PcmS8 l, PcmS8 l' => Forall2 (R 8) l l'
  | PcmS16 l, PcmS16 l' => Forall2 (R 16) l l'
  | PcmS24 l, PcmS24 l' => Forall2 (R 24) l l'
  | PcmS32 l, PcmS32 l' => Forall2 (R 32) l l'
  | PcmFloat l, PcmFloat l' => Forall2 Rf l l'
  | _, _ => False
  end.

(** Formats whose volume can be changed. *)
Definition volume_implemented (f : sample_format) : bool :=
  match f with SAMPLE_FORMAT_UNDEFINED | SAMPLE_FORMAT_DSD => false | _ => true end.

Lemma Forall2_in_bits {A} bits (R : A -> Z -> Prop) l l' :
  (forall x y, R x y -> in_bits bits y) -> Forall2 R l l' -> Forall (in_bits bits) l'.
Proof. intros HR. induction 1; constructor; eauto. Qed.

Lemma Forall_map_const {A B} (P : B -> Prop) (b : B) (l : list A) :
  P b -> Forall P (map (fun _ => b) l).
Proof. intros Hb. induction l; constructor; done. Qed.

Lemma silence_valid d : pcm_valid (silence d).
Proof.
  destruct d; simpl; try done; apply Forall_map_const; unfold in_bits; simpl; lia.
Qed.

Lemma pcm_volume_change_float_ok l volume :
  Forall2 (fun x y => y = f32_mul x volume) l (pcm_volume_change_float l volume).
Proof. induction l; simpl; constructor; done. Qed.

Lemma done_samples_ok c m (Q : list Z -> Prop) (R : bool * pcm_data * Z -> Prop) :
  wp m (fun '(l', _) => Q l') -> (forall l' st, Q l' -> R (true, c l', st)) -> wp (done_samples c m) R.
Proof. intros Hm HR. eapply wp_bind_mono; [exact Hm|]. intros [l' st] Hl'. by apply HR. Qed.

Lemma pcm_volume_loops_ok d volume state :
  pcm_valid d -> 0 < volume < 2 ^ 16 -> volume <> PCM_VOLUME_1 ->
  wp (pcm_volume d volume state) (fun '(ok, d', _) => pcm_valid d' /\
    if volume_implemented (pcm_format d)
    then ok = true /\ pointwise (fun bits x y => scaled bits (x * volume) y)
                        (fun x y => y = f32_mul x (pcm_volume_to_float volume)) d d'
    else ok = false /\ d' = d).
Proof.
  intros Hd Hv Hne. assert (volume_ok volume) as Hok by (unfold volume_ok; lia).
  unfold pcm_volume. rewrite (proj2 (Z.eqb_neq _ _) Hne), (proj2 (Z.leb_gt _ _)) by lia.
  assert (forall bits l', 0 < bits -> forall l, Forall2 (fun x y => scaled bits (x * volume) y) l l' ->
    Forall (in_bits bits) l') as Hbits.
  { intros bits l' Hb l. apply Forall2_in_bits. intros x y. by apply scaled_in_bits. }
  destruct d as [l|l|l|l|l|l|l]; simpl in Hd |- *; try done.
  - eapply done_samples_ok; [by apply pcm_volume_change_8_ok|]. simpl. eauto with lia.
  - eapply done_samples_ok; [by apply pcm_volume_change_16_ok|]. simpl. eauto with lia.
  - eapply done_samples_ok; [by apply pcm_volume_change_24_ok|]. simpl. eauto with lia.
  - eapply done_samples_ok; [by apply pcm_volume_change_32_ok|]. simpl. eauto with lia.
  - split_and!; try done. apply pcm_volume_change_float_ok.
Qed.

(** ** Mixing *)

Section mix.
Context (vol : Z) (Hv : 0 <= vol <= PCM_VOLUME_1).

Let exact (x1 x2 : Z) : Z := x1 * vol + x2 * (PCM_VOLUME_1 - vol).

Lemma exact_bound bits x1 x2 :
  in_bits bits x1 -> in_bits bits x2 ->
  - 2 ^ (bits - 1) * PCM_VOLUME_1 <= exact x1 x2 <= (2 ^ (bits - 1) - 1) * PCM_VOLUME_1.
Proof using Hv. unfold in_bits, exact, PCM_VOLUME_1 in *. intros H1 H2. nia. Qed.

(** The weighted mean, without anything being cut off. *)
Definition mean (bits x1 x2 y : Z) : Prop := near (exact x1 x2) y.

Lemma scaled_mean bits x1 x2 y :
  1 < bits -> in_bits bits x1 -> in_bits bits x2 -> scaled bits (exact x1 x2) y ->
  mean bits x1 x2 y /\ in_bits bits y.
Proof using Hv.
  intros Hb H1 H2 Hs. split; [|eapply scaled_in_bits; [lia|done]].
  eapply scaled_near; [done|by apply exact_bound|done].
Qed.

Lemma product_small bits x v :
  0 < bits -> in_bits bits x -> 0 <= v <= 1024 -> - 2 ^ (bits - 1) * 1024 <= x * v <= 2 ^ (bits - 1) * 1024.
Proof. unfold in_bits. intros Hb H1 H2. nia. Qed.

Ltac mix_step H1 H2 bits :=
  let Ha := fresh "Ha" in let Hb := fresh "Hb" in let Hc := fresh "Hc" in
  pose proof (product_small bits _ vol ltac:(lia) H1 Hv) as Ha; eval_pow Ha;
  pose proof (product_small bits _ (PCM_VOLUME_1 - vol) ltac:(lia) H2
    ltac:(unfold PCM_VOLUME_1 in *; lia)) as Hb; eval_pow Hb;
  pose proof (exact_bound bits _ _ H1 H2) as Hc; eval_pow Hc; unfold exact in Hc.

Lemma pcm_mix_int32_ok bits x1 x2 state :
  bits = 8 \/ bits = 16 -> in_bits bits x1 -> in_bits bits x2 ->
  wp (pcm_mix_int32 bits vol (PCM_VOLUME_1 - vol) x1 x2 state)
    (fun '(y, _) => mean bits x1 x2 y /\ in_bits bits y).
Proof using Hv.
  intros Hbits H1 H2. unfold pcm_mix_int32.
  assert (wp (x1' ← int32 (x1 * vol); x2' ← int32 (x2 * (PCM_VOLUME_1 - vol)); int32 (x1' + x2'))
    (fun x => x = exact x1 x2 /\ - 2 ^ 31 + 1024 <= x < 2 ^ 31 - 1024)) as Hx.
  { destruct Hbits as [-> | ->]; [mix_step H1 H2 8|mix_step H1 H2 16]; unfold PCM_VOLUME_1 in *;
      rewrite (int32_ok (x1 * _)) by lia; cbn [mbind res_bind];
      rewrite (int32_ok (x2 * _)) by lia; cbn [mbind res_bind]; rewrite int32_ok by lia; simpl;
      (split; [done|lia]). }
  destruct (int32 (x1 * vol)) as [p1|]; [|done]. cbn [mbind res_bind] in *.
  destruct (int32 (x2 * _)) as [p2|]; [|done]. cbn [mbind res_bind] in *.
  destruct (int32 (p1 + p2)) as [p|]; [|done]. destruct Hx as [-> Hx]. cbn [mbind res_bind].
  pose proof (pcm_volume_dither_range state). destruct (pcm_volume_dither state) as [d st].
  eapply wp_bind_mono; [by apply (pcm_scale_range_32 bits)|]. intros y Hy.
  apply scaled_mean; [lia|done..].
Qed.

Lemma pcm_mix_int64_ok (range : Z -> Z) bits x1 x2 state :
  1 < bits <= 32 -> in_bits bits x1 -> in_bits bits x2 ->
  (forall y, scaled bits (exact x1 x2) (pcm_range y bits) /\
     (bits = 24 -> scaled bits (exact x1 x2) (pcm_range (i32 y) bits)) ->
     scaled bits (exact x1 x2) (range y)) ->
  wp (pcm_mix_int64 range vol (PCM_VOLUME_1 - vol) x1 x2 state)
    (fun '(y, _) => mean bits x1 x2 y /\ in_bits bits y).
Proof using Hv.
  intros Hbits H1 H2 Hr. unfold pcm_mix_int64.
  pose proof (product_small bits _ vol ltac:(lia) H1 Hv) as Ha.
  pose proof (product_small bits _ (PCM_VOLUME_1 - vol) ltac:(lia) H2
    ltac:(unfold PCM_VOLUME_1 in *; lia)) as Hb.
  pose proof (exact_bound bits _ _ H1 H2) as Hc. unfold exact in Hc, Hr.
  assert (2 ^ (bits - 1) <= 2 ^ 31) as Hp by (apply Z.pow_le_mono_r; lia).
  unfold PCM_VOLUME_1 in *. rewrite !u32_small by lia.
  rewrite (int64_ok (x1 * _)) by lia. cbn [mbind res_bind].
  rewrite (int64_ok (x2 * _)) by lia. cbn [mbind res_bind]. rewrite int64_ok by lia.
  cbn [mbind res_bind].
  pose proof (pcm_volume_dither_range state). destruct (pcm_volume_dither state) as [d st].
  eapply wp_bind_mono; [apply (pcm_scale_range_64 bits); [lia|done]|]. intros y [Hy Hy'].
  apply scaled_mean; [lia|done..|]. apply Hr. split; [done|]. intros ->. apply Hy'.
  change (2 ^ (24 - 1)) with (2 ^ 23) in *. lia.
Qed.

End mix.

(** ** Two buffers *)

(** [n] samples of the first buffer are replaced by those that [R] relates
    to the samples of both, the others are kept. *)
Definition pointwise2 (size : Z) (R : Z -> Z -> Z -> Z -> Prop) (Rf : float -> float -> float -> Prop)
    (d1 d2 d : pcm_data) : Prop :=
  match d1, d2, d with
  | PcmS8 l1, PcmS8 l2, PcmS8 l => mixed (num_samples size 1) (R 8) l1 l2 l
  | PcmS16 l1, PcmS16 l2, PcmS16 l => mixed (num_samples size 2) (R 16) l1 l2 l
  | PcmS24 l1, PcmS24 l2, PcmS24 l => mixed (num_samples size 4) (R 24) l1 l2 l
  | PcmS32 l1, PcmS32 l2, PcmS32 l => mixed (num_samples size 4) (R 32) l1 l2 l
  | PcmFloat l1, PcmFloat l2, PcmFloat l => mixed (num_samples size 4) Rf l1 l2 l
  | _, _, _ => False
  end.

(** [size] bytes are in the buffer. *)
Definition has_bytes (size : Z) (d : pcm_data) : Prop := 0 <= size <= pcm_size d /\ size < 2 ^ 32.

Lemma num_samples_le size bytes n :
  0 < bytes -> 0 <= size <= bytes * Z.of_nat n -> size < 2 ^ 32 -> (num_samples size bytes <= n)%nat.
Proof.
  intros Hb Hs Hm. unfold num_samples.
  assert (0 <= size / bytes <= Z.of_nat n).
  { split; [apply Z.div_pos; lia|]. apply Z.div_le_upper_bound; lia. }
  assert (size / bytes <= size) by (apply Z.div_le_upper_bound; nia).
  rewrite u32_small by lia. lia.
Qed.

(** A loop over two buffers, in terms of [pcm_data]. *)
Lemma done_mixed c bits n (R : Z -> Z -> Z -> Prop) l1 l2 f state (P : bool * pcm_data * Z -> Prop) :
  (forall x1 x2 s, in_bits bits x1 -> in_bits bits x2 ->
     wp (f x1 x2 s) (fun '(y, _) => R x1 x2 y /\ in_bits bits y)) ->
  Forall (in_bits bits) l1 -> Forall (in_bits bits) l2 -> (n <= length l1)%nat -> (n <= length l2)%nat ->
  (forall l st, mixed n R l1 l2 l -> Forall (in_bits bits) l -> P (true, c l, st)) ->
  wp (done_samples c (zip_samples n f l1 l2 state)) P.
Proof.
  intros Hf H1 H2 Hn1 Hn2 HP. eapply wp_bind_mono; [by eapply (zip_samples_ok n f (in_bits bits) R)|].
  intros [l st] [Hm Hb]. by apply HP.
Qed.

Lemma done_mixed_float n R l1 l2 (f : float -> float -> Z -> res (float * Z)) state
    (P : bool * pcm_data * Z -> Prop) :
  (forall x1 x2 s, exists y, f x1 x2 s = Ok (y, s) /\ R x1 x2 y) ->
  (n <= length l1)%nat -> (n <= length l2)%nat ->
  (forall l st, mixed n R l1 l2 l -> P (true, PcmFloat l, st)) ->
  wp (done_floats (zip_samples n f l1 l2 state)) P.
Proof.
  intros Hf Hn1 Hn2 HP. eapply wp_bind_mono.
  - eapply (zip_samples_ok n f (fun _ => True) R); [|by apply Forall_true..|done|done].
    intros x1 x2 s _ _. destruct (Hf x1 x2 s) as (y & -> & Hy). by split.
  - intros [l st] [Hm _]. by apply HP.
Qed.

Lemma pcm_add_vol_ok b1 b2 size vol state :
  pcm_valid b1 -> pcm_valid b2 -> pcm_format b2 = pcm_format b1 -> has_bytes size b1 ->
  has_bytes size b2 -> 0 <= vol <= PCM_VOLUME_1 ->
  wp (pcm_add_vol b1 b2 size vol (PCM_VOLUME_1 - vol) state) (fun '(ok, b, _) => pcm_valid b /\
    if volume_implemented (pcm_format b1)
    then ok = true /\ pointwise2 size (mean vol)
      (fun x1 x2 y => y = f32_add (f32_mul x1 (pcm_volume_to_float vol))
                                  (f32_mul x2 (pcm_volume_to_float (PCM_VOLUME_1 - vol)))) b1 b2 b
    else ok = false /\ b = b1).
Proof.
  intros H1 H2 Hf [Hs1 Hm] [Hs2 _] Hv.
  destruct b1 as [l1|l1|l1|l1|l1|l1|l1], b2 as [l2|l2|l2|l2|l2|l2|l2]; try discriminate Hf;
    unfold pcm_size in Hs1, Hs2; simpl in H1, H2, Hs1, Hs2 |- *; try done.
  - eapply (done_mixed PcmS8 8); [intros; apply pcm_mix_int32_ok; auto|done|done|
      apply num_samples_le; lia..|done].
  - eapply (done_mixed PcmS16 16); [intros; apply pcm_mix_int32_ok; auto|done|done|
      apply num_samples_le; lia..|done].
  - eapply (done_mixed PcmS24 24); [intros; apply pcm_mix_int64_ok; [done|lia|done|done|]|done|done|
      apply num_samples_le; lia..|done]. intros y [_ Hy]. by apply Hy.
  - eapply (done_mixed PcmS32 32); [intros; apply pcm_mix_int64_ok; [done|lia|done|done|]|done|done|
      apply num_samples_le; lia..|done]. by intros y [Hy _].
  - eapply (done_mixed_float _ (fun x1 x2 y => y = f32_add (f32_mul x1 (pcm_volume_to_float vol))
      (f32_mul x2 (pcm_volume_to_float (PCM_VOLUME_1 - vol))))); [eauto|apply num_samples_le; lia..|done].
Qed.

(** The saturated sum. *)
Definition saturated (bits x1 x2 y : Z) : Prop := y = pcm_range (x1 + x2) bits.

Lemma pcm_add_ok b1 b2 size state :
  pcm_valid b1 -> pcm_valid b2 -> pcm_format b2 = pcm_format b1 -> has_bytes size b1 ->
  has_bytes size b2 ->
  wp (pcm_add b1 b2 size state) (fun '(ok, b, _) => pcm_valid b /\
    if volume_implemented (pcm_format b1)
    then ok = true /\ pointwise2 size saturated (fun x1 x2 y => y = f32_add x1 x2) b1 b2 b
    else ok = false /\ b = b1).
Proof.
  intros H1 H2 Hf [Hs1 Hm] [Hs2 _].
  assert (forall bits x1 x2 (s : Z) (int : Z -> res Z) (conv : Z -> Z), 0 < bits <= 32 ->
    in_bits bits x1 -> in_bits bits x2 ->
    int (x1 + x2) = Ok (x1 + x2) -> conv (x1 + x2) = x1 + x2 ->
    wp (x ← int (x1 + x2); Ok (pcm_range (conv x) bits, s))
      (fun '(y, _) => saturated bits x1 x2 y /\ in_bits bits y)) as Hstep.
  { intros bits x1 x2 s int conv Hb _ _ Hi Hc. rewrite Hi. cbn [mbind res_bind wp]. rewrite Hc.
    split; [done|]. apply pcm_range_ok. lia. }
  assert (forall bits x1 x2, 0 < bits <= 32 -> in_bits bits x1 -> in_bits bits x2 ->
    - 2 ^ bits <= x1 + x2 < 2 ^ bits) as Hsum.
  { unfold in_bits. intros bits x1 x2 Hb ? ?.
    assert (2 ^ bits = 2 * 2 ^ (bits - 1)) by (rewrite <- Z.pow_succ_r by lia; f_equal; lia). lia. }
  destruct b1 as [l1|l1|l1|l1|l1|l1|l1], b2 as [l2|l2|l2|l2|l2|l2|l2]; try discriminate Hf;
    unfold pcm_size in Hs1, Hs2; simpl in H1, H2, Hs1, Hs2 |- *; try done.
  - eapply (done_mixed PcmS8 8); [|done|done|apply num_samples_le; lia..|done].
    intros x1 x2 s Hx1 Hx2. pose proof (Hsum 8 x1 x2 ltac:(lia) Hx1 Hx2).
    apply (Hstep 8 x1 x2 s int32 id); try done; apply int32_ok; lia.
  - eapply (done_mixed PcmS16 16); [|done|done|apply num_samples_le; lia..|done].
    intros x1 x2 s Hx1 Hx2. pose proof (Hsum 16 x1 x2 ltac:(lia) Hx1 Hx2).
    apply (Hstep 16 x1 x2 s int32 id); try done; apply int32_ok; lia.
  - eapply (done_mixed PcmS24 24); [|done|done|apply num_samples_le; lia..|done].
    intros x1 x2 s Hx1 Hx2. pose proof (Hsum 24 x1 x2 ltac:(lia) Hx1 Hx2).
    apply (Hstep 24 x1 x2 s int64 i32); try done; [apply int64_ok; lia|apply i32_small; lia].
  - eapply (done_mixed PcmS32 32); [|done|done|apply num_samples_le; lia..|done].
    intros x1 x2 s Hx1 Hx2. pose proof (Hsum 32 x1 x2 ltac:(lia) Hx1 Hx2).
    apply (Hstep 32 x1 x2 s int64 id); try done; apply int64_ok; lia.
  - eapply (done_mixed_float _ (fun x1 x2 y => y = f32_add x1 x2)); [eauto|
      apply num_samples_le; lia..|done].
Qed.

(** ** Dithering *)

(** The errors that are carried over are bounded. *)
Definition dither_inv (d : pcm_dither) : Prop :=
  -383 <= dither_error0 d <= 382 /\ -191 <= dither_error1 d <= 191 /\ -191 <= dither_error2 d <= 191.

Lemma land_lnot_255 x : Z.land x (Z.lnot mask) = x - x `mod` 256.
Proof.
  change mask with (Z.ones 8). rewrite <- Z.ldiff_land, Z.ldiff_ones_r by lia.
  rewrite Z.shiftr_div_pow2, Z.shiftl_mul_pow2 by lia. change (2 ^ 8) with 256.
  pose proof (Z.div_mod x 256). lia.
Qed.

Lemma i16_small x : - 2 ^ 15 <= x < 2 ^ 15 -> i16 x = x.
Proof. intros H. unfold i16. rewrite Z.mod_small; lia. Qed.

(** One sample: 16 bits that differ from the 24 bits by less than five of
    their units. *)
Definition dithered (x y : Z) : Prop := in_bits 16 y /\ Z.abs (256 * y - x) <= 1148.

Lemma dither_clip_ok output sample (r : Z) :
  output = sample + r -> -127 <= r <= 383 -> -8389373 <= sample <= 8389371 ->
  let '(o, s) := dither_clip output sample in
  - 2 ^ 23 <= o < 2 ^ 23 /\ -383 <= s - (o - o `mod` 256) <= 382 /\ Z.abs (s - sample) <= 765 /\
  (- 2 ^ 23 <= sample < 2 ^ 23 -> s = sample) /\ (s <> sample -> s = - 2 ^ 23 \/ s = 2 ^ 23 - 1).
Proof.
  intros -> Hr Hs. unfold dither_clip. change MAX with 8388607. change MIN with (-8388608).
  pose proof (Z.mod_pos_bound (sample + r) 256 ltac:(lia)).
  case_Z; simpl; split_and!; try lia; try (change (8388607 `mod` 256) with 255; lia);
    try (change (Z.neg 8388608 `mod` 256) with 0; lia).
Qed.

Lemma pcm_dither_sample_ok x d :
  in_bits 24 x -> dither_inv d ->
  wp (pcm_dither_sample_24_to_16 x d) (fun '(y, d') => dithered x y /\ dither_inv d').
Proof.
  intros [Hx1 Hx2] (He0 & He1 & He2). change (2 ^ (24 - 1)) with 8388608 in *.
  unfold pcm_dither_sample_24_to_16. rewrite int32_ok by lia. cbn [mbind res_bind].
  rewrite int32_ok by lia. cbn [mbind res_bind]. rewrite int32_ok by lia. cbn [mbind res_bind].
  set (e := dither_error0 d - dither_error1 d + dither_error2 d).
  change round with 128. rewrite int32_ok by (subst e; lia). cbn [mbind res_bind]. cbv zeta.
  pose proof (land_mask_range (i32 (pcm_prng (u64 (dither_random d)))) 8 ltac:(lia)) as Hr1.
  pose proof (land_mask_range (dither_random d) 8 ltac:(lia)) as Hr2.
  change (Z.ones 8) with mask in Hr1, Hr2. 
  set (r1 := Z.land (i32 _) mask) in *. set (r2 := Z.land (dither_random d) mask) in *.
  rewrite int32_ok by (subst e; lia). cbn [mbind res_bind].
  pose proof (dither_clip_ok (x + e + 128 + (r1 - r2)) (x + e) (128 + (r1 - r2)) ltac:(lia)
    ltac:(lia) ltac:(subst e; lia)) as Hclip.
  destruct (dither_clip _ _) as [o s]. destruct Hclip as (Ho & Herr & Hs & Hin & Hout).
  cbv beta iota zeta. rewrite land_lnot_255, int32_ok by lia. cbn [mbind res_bind wp].
  pose proof (Z.mod_pos_bound o 256 ltac:(lia)). pose proof (Z.div_mod o 256 ltac:(lia)) as Hdiv.
  change scale_bits with 8. rewrite Z.shiftr_div_pow2 by lia. change (2 ^ 8) with 256 in *.
  replace (o - o `mod` 256) with (o `div` 256 * 256) in * by lia. rewrite Z.div_mul by lia.
  unfold dithered, in_bits, dither_inv. simpl. rewrite i16_small by lia.
  assert (-191 <= Z.quot (dither_error0 d) 2 <= 191) by (Z.to_euclidean_division_equations; lia).
  split_and!; try lia.
Qed.

Lemma pcm_dither_24_to_16_ok l d :
  Forall (in_bits 24) l -> dither_inv d ->
  wp (pcm_dither_24_to_16 l d) (fun '(l', d') => Forall2 dithered l l' /\ dither_inv d').
Proof. intros. by apply (map_samples_ok _ (in_bits 24)); [apply pcm_dither_sample_ok|..]. Qed.

Lemma shiftr_8_bits x : in_bits 32 x -> in_bits 24 (Z.shiftr x 8).
Proof.
  unfold in_bits. rewrite Z.shiftr_div_pow2 by lia. intros Hx. change (2 ^ 8) with 256.
  change (2 ^ (32 - 1)) with 2147483648 in Hx. change (2 ^ (24 - 1)) with 8388608.
  Z.to_euclidean_division_equations. lia.
Qed.

Lemma pcm_dither_32_to_16_ok l d :
  Forall (in_bits 32) l -> dither_inv d ->
  wp (pcm_dither_32_to_16 l d) (fun '(l', d') =>
    Forall2 (fun x y => dithered (Z.shiftr x 8) y) l l' /\ dither_inv d').
Proof.
  intros. apply (map_samples_ok _ (in_bits 32)); [|done..]. intros x s Hx Hs.
  by apply pcm_dither_sample_ok; [apply shiftr_8_bits|].
Qed.
