(* ===== verification/PcmConvert.v ===== *)
(** * Conversion of samples

    [src/pcm/pcm_buffer.c], [src/pcm/pcm_format.c], [src/pcm/pcm_channels.c],
    [src/pcm/pcm_resample_fallback.c], [src/pcm/dsd2pcm.c],
    [src/pcm/pcm_dsd.c], [src/util/bit_reverse.c] and
    [src/pcm/pcm_convert.c], built without libsamplerate. *)

From S2P Require Import Prelude Float AudioFormat Strtod Pcm.

Local Open Scope Z_scope.

(** ** [pcm_buffer.c] *)

(** The bytes that are allocated; the contents are those of the last
    conversion. *)
Record pcm_buffer := PcmBuffer { pb_size : Z }.
Definition pcm_buffer_init : pcm_buffer := PcmBuffer 0.

Definition align_8k (size : Z) : Z := u64 (Z.lor (u64 (size - 1)) 0x1fff + 1).

Definition pcm_buffer_get (buffer : pcm_buffer) (size : Z) : res pcm_buffer :=
  let size := if size =? 0 then 1 else size in
  let buffer := if pb_size buffer <? size then PcmBuffer (align_8k size) else buffer in
  assert (size <=? pb_size buffer);;
  Ok buffer.

(** ** [pcm_format.c] *)

Definition i8_to_16 (x : Z) : Z := i16 (Z.shiftl x 8).
Definition pcm_convert_8_to_16 (l : list Z) : list Z := map i8_to_16 l.

(** [(int)(x * factor)] *)
Definition float_to_int (factor : Z) (x : float) : res Z :=
  match f_to_int (f32_mul x (f32_of_Z factor)) with
  | Some n => Ok n
  | None => Err BadConversion
  end.

Definition map_res {A B} (f : A -> res B) (l : list A) : res (list B) :=
  '(l', _) ← map_samples (fun x s => y ← f x; Ok (y, s)) l tt; Ok l'.

Definition pcm_convert_float_to_16 (l : list float) : res (list Z) :=
  map_res (fun x => sample ← float_to_int (Z.shiftl 1 (16 - 1)) x; Ok (pcm_clamp_16 sample)) l.

(** The samples, the buffer and the dither; [None] is [NULL]. *)
Definition pcm_convert_to_16 (b : pcm_buffer) (dither : pcm_dither) (src : pcm_data)
  : res (option (list Z) * pcm_buffer * pcm_dither) :=
  match src with
  | PcmUndefined _ => Err BadArithmetic
  | PcmDsd _ => Ok (None, b, dither)
  | PcmS8 l => b ← pcm_buffer_get b (u64 (pcm_size src * 2)); Ok (Some (pcm_convert_8_to_16 l), b, dither)
  | PcmS16 l => Ok (Some l, b, dither)
  | PcmS24 l =>
      b ← pcm_buffer_get b (pcm_size src / 2);
      '(l, dither) ← pcm_dither_24_to_16 l dither;
      Ok (Some l, b, dither)
  | PcmS32 l =>
      b ← pcm_buffer_get b (pcm_size src / 2);
      '(l, dither) ← pcm_dither_32_to_16 l dither;
      Ok (Some l, b, dither)
  | PcmFloat l =>
      b ← pcm_buffer_get b (pcm_size src / 2);
      l ← pcm_convert_float_to_16 l;
      Ok (Some l, b, dither)
  end.

Definition pcm_convert_8_to_24 (l : list Z) : list Z := map (fun x => i32 (Z.shiftl x 16)) l.
Definition pcm_convert_16_to_24 (l : list Z) : list Z := map (fun x => i32 (Z.shiftl x 8)) l.
Definition pcm_convert_32_to_24 (l : list Z) : list Z := map (fun x => Z.shiftr x 8) l.
Definition pcm_convert_float_to_24 (l : list float) : res (list Z) :=
  map_res (fun x => sample ← float_to_int (Z.shiftl 1 (24 - 1)) x; Ok (pcm_clamp_24 sample)) l.

Definition pcm_convert_to_24 (b : pcm_buffer) (src : pcm_data)
  : res (option (list Z) * pcm_buffer) :=
  match src with
  | PcmUndefined _ => Err BadArithmetic
  | PcmDsd _ => Ok (None, b)
  | PcmS8 l => b ← pcm_buffer_get b (u64 (pcm_size src * 4)); Ok (Some (pcm_convert_8_to_24 l), b)
  | PcmS16 l => b ← pcm_buffer_get b (u64 (pcm_size src * 2)); Ok (Some (pcm_convert_16_to_24 l), b)
  | PcmS24 l => Ok (Some l, b)
  | PcmS32 l => b ← pcm_buffer_get b (pcm_size src); Ok (Some (pcm_convert_32_to_24 l), b)
  | PcmFloat l =>
      b ← pcm_buffer_get b (pcm_size src);
      l ← pcm_convert_float_to_24 l;
      Ok (Some l, b)
  end.

Definition pcm_convert_8_to_32 (l : list Z) : list Z := map (fun x => i32 (Z.shiftl x 24)) l.
Definition pcm_convert_16_to_32 (l : list Z) : list Z := map (fun x => i32 (Z.shiftl x 16)) l.
Definition pcm_convert_24_to_32 (l : list Z) : list Z := map (fun x => i32 (Z.shiftl x 8)) l.

Definition pcm_convert_to_32 (b : pcm_buffer) (src : pcm_data)
  : res (option (list Z) * pcm_buffer) :=
  match src with
  | PcmUndefined _ => Err BadArithmetic
  | PcmDsd _ => Ok (None, b)
  | PcmS8 l => b ← pcm_buffer_get b (u64 (pcm_size src * 4)); Ok (Some (pcm_convert_8_to_32 l), b)
  | PcmS16 l => b ← pcm_buffer_get b (u64 (pcm_size src * 2)); Ok (Some (pcm_convert_16_to_32 l), b)
  | PcmS24 l => b ← pcm_buffer_get b (pcm_size src); Ok (Some (pcm_convert_24_to_32 l), b)
  | PcmS32 l => Ok (Some l, b)
  | PcmFloat l =>
      b ← pcm_buffer_get b (pcm_size src);
      l ← pcm_convert_float_to_24 l;
      Ok (Some (pcm_convert_24_to_32 l), b)
  end.

(** [(float)x * factor] *)
Definition int_to_float (factor : float) (l : list Z) : list float :=
  map (fun x => f32_mul (f32_of_Z x) factor) l.
Definition pcm_convert_8_to_float : list Z -> list float :=
  int_to_float (f32_div (f32_of_Z 2) (f32_of_Z (Z.shiftl 1 8))).
Definition pcm_convert_16_to_float : list Z -> list float :=
  int_to_float (f32_div (f32_of_Z 2) (f32_of_Z (Z.shiftl 1 16))).
Definition pcm_convert_24_to_float : list Z -> list float :=
  int_to_float (f32_div (f32_of_Z 2) (f32_of_Z (Z.shiftl 1 24))).
Definition pcm_convert_32_to_float : list Z -> list float :=
  int_to_float (f32_div (f32_div (f32_of_Z 1) (f32_of_Z 2)) (f32_of_Z (Z.shiftl 1 (32 - 2)))).

Definition pcm_convert_to_float (b : pcm_buffer) (src : pcm_data)
  : res (option (list float) * pcm_buffer) :=
  match src with
  | PcmUndefined _ | PcmDsd _ => Ok (None, b)
  | PcmS8 l => b ← pcm_buffer_get b (u64 (pcm_size src * 4)); Ok (Some (pcm_convert_8_to_float l), b)
  | PcmS16 l => b ← pcm_buffer_get b (u64 (pcm_size src * 2)); Ok (Some (pcm_convert_16_to_float l), b)
  | PcmS24 l => b ← pcm_buffer_get b (pcm_size src); Ok (Some (pcm_convert_24_to_float l), b)
  | PcmS32 l => b ← pcm_buffer_get b (pcm_size src); Ok (Some (pcm_convert_32_to_float l), b)
  | PcmFloat l => Ok (Some l, b)
  end.

(** ** [pcm_channels.c] *)

Fixpoint pcm_convert_channels_1_to_2 (l : list Z) : list Z :=
  match l with [] => [] | x :: l' => x :: x :: pcm_convert_channels_1_to_2 l' end.

(** [int] is the arithmetic in which [a + b] is evaluated. *)
Fixpoint pcm_convert_channels_2_to_1 (int : Z -> res Z) (l : list Z) : res (list Z) :=
  match l with
  | [] => Ok []
  | a :: b :: l' =>
      s ← int (a + b);
      l' ← pcm_convert_channels_2_to_1 int l';
      Ok (Z.quot s 2 :: l')
  | [_] => Err OutOfBounds
  end.

(** [sum += *src++] for [n] samples. *)
Fixpoint sum_channels (int : Z -> res Z) (n : nat) (sum : Z) (l : list Z) : res (Z * list Z) :=
  match n with
  | O => Ok (sum, l)
  | S n' =>
      match l with
      | [] => Err OutOfBounds
      | x :: l' => sum ← int (sum + x); sum_channels int n' sum l'
      end
  end.

(** Every iteration takes [n > 0] samples. *)
Fixpoint pcm_convert_channels_n_to_2 (int : Z -> res Z) (fuel n : nat) (l : list Z) : res (list Z) :=
  match l with
  | [] => Ok []
  | _ =>
      match fuel with
      | O => Err OutOfFuel
      | S fuel' =>
          '(sum, l') ← sum_channels int n 0 l;
          let value := Z.quot sum (Z.of_nat n) in
          l' ← pcm_convert_channels_n_to_2 int fuel' n l';
          Ok (value :: value :: l')
      end
  end.

(** The three functions differ in the size of samples and in [int]; [None] is
    [NULL]. *)
Definition pcm_convert_channels_any (bytes : Z) (int : Z -> res Z) (b : pcm_buffer)
    (dest_channels src_channels : Z) (src : list Z) : res (option (list Z) * pcm_buffer) :=
  let src_size := bytes * Z.of_nat (length src) in
  if src_channels =? 0 then Err BadArithmetic else
  assert (src_size `mod` (bytes * src_channels) =? 0);;
  b ← pcm_buffer_get b (u64 (src_size / src_channels * dest_channels));
  if (src_channels =? 1) && (dest_channels =? 2)
  then Ok (Some (pcm_convert_channels_1_to_2 src), b)
  else if (src_channels =? 2) && (dest_channels =? 1)
  then l ← pcm_convert_channels_2_to_1 int src; Ok (Some l, b)
  else if dest_channels =? 2
  then l ← pcm_convert_channels_n_to_2 int (length src) (Z.to_nat src_channels) src; Ok (Some l, b)
  else Ok (None, b).

Definition pcm_convert_channels_16 := pcm_convert_channels_any 2 int32.
Definition pcm_convert_channels_24 := pcm_convert_channels_any 4 int32.
Definition pcm_convert_channels_32 := pcm_convert_channels_any 4 int64.

(** ** [pcm_resample_fallback.c] *)

(** Element [i] of the source. *)
Definition sget {A} (l : list A) (i : Z) : res A :=
  match l !! Z.to_nat i with Some x => if 0 <=? i then Ok x else Err OutOfBounds | None => Err OutOfBounds end.

(** [n] iterations of the loop over [dest_pos] for mono and stereo. *)
Fixpoint resample_mono {A} (n : nat) (src_rate dest_rate dest_pos : Z) (src : list A) : res (list A) :=
  match n with
  | O => Ok []
  | S n' =>
      x ← sget src (u32 (dest_pos * src_rate) / dest_rate);
      l ← resample_mono n' src_rate dest_rate (dest_pos + 1) src;
      Ok (x :: l)
  end.

Fixpoint resample_stereo {A} (n : nat) (src_rate dest_rate dest_pos : Z) (src : list A) : res (list A) :=
  match n with
  | O => Ok []
  | S n' =>
      let src_pos := Z.land (u32 (dest_pos * src_rate) / dest_rate) (Z.lnot 1) in
      x ← sget src src_pos;
      y ← sget src (u32 (src_pos + 1));
      l ← resample_stereo n' src_rate dest_rate (dest_pos + 2) src;
      Ok (x :: y :: l)
  end.

(** [(src_frames * dest_rate + src_rate - 1) / src_rate] *)
Definition resample_frames (src_frames dest_rate src_rate : Z) : Z :=
  u32 (u32 (u32 (src_frames * dest_rate) + src_rate) - 1) / src_rate.

(** For 16 and 32 bit samples; with more than two channels nothing is written
    to the buffer that is returned. *)
Definition pcm_resample_fallback {A} (bytes : Z) (b : pcm_buffer) (channels src_rate : Z) (src : list A)
    (dest_rate : Z) : res (list (option A) * pcm_buffer) :=
  if (channels =? 0) || (src_rate =? 0) || (dest_rate =? 0) then Err BadArithmetic else
  let src_size := bytes * Z.of_nat (length src) in
  let src_frames := u32 (src_size / channels / bytes) in
  let dest_frames := resample_frames src_frames dest_rate src_rate in
  let dest_samples := u32 (dest_frames * channels) in
  b ← pcm_buffer_get b (dest_samples * bytes);
  assert (src_size `mod` (bytes * channels) =? 0);;
  if channels =? 1 then
    l ← resample_mono (Z.to_nat dest_samples) src_rate dest_rate 0 src; Ok (map Some l, b)
  else if channels =? 2 then
    l ← resample_stereo (Z.to_nat (dest_samples / 2)) src_rate dest_rate 0 src; Ok (map Some l, b)
  else Ok (replicate (Z.to_nat dest_samples) None, b).

Definition pcm_resample_fallback_16 (b : pcm_buffer) (channels src_rate : Z) (src : list Z) (dest_rate : Z)
  : res (list (option Z) * pcm_buffer) := pcm_resample_fallback 2 b channels src_rate src dest_rate.
Definition pcm_resample_fallback_32 {A} (b : pcm_buffer) (channels src_rate : Z) (src : list A) (dest_rate : Z)
  : res (list (option A) * pcm_buffer) := pcm_resample_fallback 4 b channels src_rate src dest_rate.

(** ** [bit_reverse.c], [dsd2pcm.c] *)

(** The macros [R2()], [R4()] and [R6()]. *)
Definition R2 (n : Z) : list Z := [n; n + 2 * 64; n + 1 * 64; n + 3 * 64].
Definition R4 (n : Z) : list Z := R2 n ++ R2 (n + 2 * 16) ++ R2 (n + 1 * 16) ++ R2 (n + 3 * 16).
Definition R6 (n : Z) : list Z := R4 n ++ R4 (n + 2 * 4) ++ R4 (n + 1 * 4) ++ R4 (n + 3 * 4).
Definition bit_reverse_table : list Z := R6 0 ++ R6 2 ++ R6 1 ++ R6 3.
Definition bit_reverse (x : Z) : res Z := sget bit_reverse_table x.

Definition HTAPS : Z := 48.
Definition FIFOSIZE : Z := 16.
Definition FIFOMASK : Z := FIFOSIZE - 1.
Definition CTABLES : Z := (HTAPS + 7) / 8.

(** A decimal constant [m * 10^e] with [e < 0], rounded to [double]. *)
Definition decimal (m e : Z) : double :=
  match m with
  | Z0 => S754_zero false
  | Z.pos p => SFdiv f64_prec f64_emax (S754_finite false p 0) (S754_finite false (Z.to_pos (10 ^ (- e))) 0)
  | Z.neg p => SFdiv f64_prec f64_emax (S754_finite true p 0) (S754_finite false (Z.to_pos (10 ^ (- e))) 0)
  end.

Definition htaps : list double :=
  [decimal 9950731974056658 (-17); decimal 9562845727714668 (-17); decimal 8819647126516944 (-17);
   decimal 7782552527068175 (-17); decimal 6534876523171299 (-17); decimal 5172629311427257 (-17);
   decimal 379429484910187 (-16); decimal 2490921351762261 (-17); decimal 133774746265897 (-16);
   decimal 3883043418804416 (-18); decimal (-3284703416210726) (-18); decimal (-8080250212687497) (-18);
   decimal (-1067241812471033) (-17); decimal (-1139427235000863) (-17);
   decimal (-106813877974587) (-16); decimal (-9007905078766049) (-18);
   decimal (-6828859761015335) (-18); decimal (-4535184322001496) (-18);
   decimal (-2425035959059578) (-18); decimal (-6922187080790708) (-19);
   decimal 5700762133516592 (-19); decimal 1353838005269448 (-18); decimal 1713709169690937 (-18);
   decimal 1742046839472948 (-18); decimal 1545601648013235 (-18); decimal 1226696225277855 (-18);
   decimal 8704322683580222 (-19); decimal 5381636200535649 (-19); decimal 266446345425276 (-18);
   decimal 7002968738383528 (-20); decimal (-5279407053811266) (-20);
   decimal (-1140625650874684) (-19); decimal (-1304796361231895) (-19);
   decimal (-1189970287491285) (-19); decimal (-9396247155265073) (-20);
   decimal (-6577634378272832) (-20); decimal (-407492895872535) (-19);
   decimal (-217407957554587) (-19); decimal (-9163058931391722) (-21);
   decimal (-2017460145032201) (-21); decimal 1249721855219005 (-21); decimal 2166655190537392 (-21);
   decimal 1930520892991082 (-21); decimal 1319400334374195 (-21); decimal 7410039764949091 (-22);
   decimal 3423230509967409 (-22); decimal 1244182214744588 (-22); decimal 3130441005359396 (-23)].

(** One entry of the tables: the sum over eight taps, rounded to [float]. *)
Definition ctable_entry (t : nat) (e : Z) : float :=
  let taps := take 8 (drop (t * 8) htaps) in
  f32_of_f64 (foldl f64_add (S754_zero false)
    (imap (fun m h => f64_mul (f64_of_Z (Z.land (Z.shiftr e (7 - Z.of_nat m)) 1 * 2 - 1)) h) taps)).

(** [precalc()]: table [i] is computed from the taps of [CTABLES - 1 - i]. *)
Definition ctables : list (list float) :=
  map (fun t => map (fun e => ctable_entry t (Z.of_nat e)) (seq 0 256)) (rev (seq 0 (Z.to_nat CTABLES))).

Definition ctable (i e : Z) : res float := t ← sget ctables i; sget t e.

Record dsd2pcm_ctx := Dsd2pcm { fifo : list Z; fifopos : Z }.

Definition dsd2pcm_reset : dsd2pcm_ctx := Dsd2pcm (replicate (Z.to_nat FIFOSIZE) 0x69) 0.

Definition fifo_set (l : list Z) (i x : Z) : res (list Z) :=
  if (0 <=? i) && (i <? Z.of_nat (length l)) then Ok (<[Z.to_nat i := x]> l) else Err OutOfBounds.

(** [acc += ctables[i][bite1] + ctables[i][bite2]]: the sum of two [float]s
    is added to a [double]. *)
Definition dsd2pcm_tap (f : list Z) (ffp i : Z) (acc : double) : res double :=
  bite1 ← sget f (Z.land (u32 (ffp - i)) FIFOMASK);
  bite2 ← sget f (Z.land (u32 (u32 (ffp - (CTABLES * 2 - 1)) + i)) FIFOMASK);
  x ← ctable i (Z.land bite1 0xff);
  y ← ctable i (Z.land bite2 0xff);
  Ok (f64_add acc (f64_of_f32 (f32_add x y))).

(** One byte. *)
Definition dsd2pcm_byte (lsbf : bool) (byte : Z) (ctx : dsd2pcm_ctx) : res (float * dsd2pcm_ctx) :=
  let ffp := fifopos ctx in
  bite1 ← (if lsbf then bit_reverse (Z.land byte 0xff) else Ok (Z.land byte 0xff));
  f ← fifo_set (fifo ctx) ffp bite1;
  let p := Z.land (u32 (ffp - CTABLES)) FIFOMASK in
  x ← sget f p;
  x ← bit_reverse x;
  f ← fifo_set f p x;
  acc ← for_range 0 CTABLES (dsd2pcm_tap f ffp) (S754_zero false);
  Ok (f32_of_f64 acc, Dsd2pcm f (Z.land (u32 (ffp + 1)) FIFOMASK)).

Definition dsd2pcm_translate (lsbf : bool) (src : list Z) (ctx : dsd2pcm_ctx)
  : res (list float * dsd2pcm_ctx) := map_samples (dsd2pcm_byte lsbf) src ctx.

(** ** [pcm_dsd.c] *)

Record pcm_dsd := PcmDsdState { dsd_buffer : pcm_buffer; dsd_ctxs : list (option dsd2pcm_ctx) }.
Definition pcm_dsd_init : pcm_dsd := PcmDsdState pcm_buffer_init (replicate 32 None).

(** [dsd2pcm_reset()] of every channel that has been used. *)
Definition pcm_dsd_reset (dsd : pcm_dsd) : pcm_dsd :=
  PcmDsdState (dsd_buffer dsd) (map (option_map (fun _ => dsd2pcm_reset)) (dsd_ctxs dsd)).

(** The bytes [src[c]], [src[c + channels]], ... *)
Definition strided {A} (channels c : nat) (frames : nat) (l : list A) : list A :=
  omap (fun k => l !! (c + k * channels)%nat) (seq 0 frames).

(** The interleaving of the channels' samples. *)
Definition interleave {A} (frames : nat) (chans : list (list A)) : list A :=
  concat (map (fun k => omap (fun ch => ch !! k) chans) (seq 0 frames)).

Definition pcm_dsd_channel (lsbfirst : bool) (channels frames : nat) (src : list Z) (c : nat)
    (ctxs : list (option dsd2pcm_ctx)) : res (list float * list (option dsd2pcm_ctx)) :=
  match ctxs !! c with
  | None => Err OutOfBounds
  | Some ctx =>
      let ctx := match ctx with Some ctx => ctx | None => dsd2pcm_reset end in
      '(l, ctx) ← dsd2pcm_translate lsbfirst (strided channels c frames src) ctx;
      Ok (l, <[c := Some ctx]> ctxs)
  end.

Definition pcm_dsd_to_float (dsd : pcm_dsd) (channels : Z) (lsbfirst : bool) (src : list Z)
  : res (list float * pcm_dsd) :=
  let src_size := Z.of_nat (length src) in
  assert (0 <? src_size);;
  if channels =? 0 then Err BadArithmetic else
  assert (src_size `mod` channels =? 0);;
  assert (channels <=? Z.of_nat (length (dsd_ctxs dsd)));;
  let num_samples := u32 src_size in
  let num_frames := u32 (src_size / channels) in
  b ← pcm_buffer_get (dsd_buffer dsd) (num_samples * 4);
  let frames := Z.to_nat num_frames in
  '(chans, ctxs) ← map_samples (pcm_dsd_channel lsbfirst (Z.to_nat channels) frames src)
    (seq 0 (Z.to_nat channels)) (dsd_ctxs dsd);
  Ok (interleave frames chans, PcmDsdState b ctxs).

(** ** [pcm_convert.c] *)

Record pcm_convert_state := PcmConvert {
  cv_dsd : pcm_dsd;
  cv_resample : pcm_buffer;
  cv_dither : pcm_dither;
  cv_format_buffer : pcm_buffer;
  cv_channels_buffer : pcm_buffer;
}.

Definition pcm_convert_init : pcm_convert_state :=
  PcmConvert pcm_dsd_init pcm_buffer_init pcm_dither_24_init pcm_buffer_init pcm_buffer_init.

(** Samples, some of which may be uninitialized, or [ERR_PTR(-MPD_NIMPL)]. *)
Inductive converted := Converted16 (l : cells Z) | Converted24 (l : cells Z) | Converted32 (l : cells Z)
  | ConvertedFloat (l : cells float) | NotImplemented.

Definition cv_set_dither (b : pcm_buffer) (d : pcm_dither) (s : pcm_convert_state) : pcm_convert_state :=
  PcmConvert (cv_dsd s) (cv_resample s) d b (cv_channels_buffer s).
Definition cv_set_channels (b : pcm_buffer) (s : pcm_convert_state) : pcm_convert_state :=
  PcmConvert (cv_dsd s) (cv_resample s) (cv_dither s) (cv_format_buffer s) b.
Definition cv_set_resample (b : pcm_buffer) (s : pcm_convert_state) : pcm_convert_state :=
  PcmConvert (cv_dsd s) b (cv_dither s) (cv_format_buffer s) (cv_channels_buffer s).
Definition cv_set_dsd (d : pcm_dsd) (s : pcm_convert_state) : pcm_convert_state :=
  PcmConvert d (cv_resample s) (cv_dither s) (cv_format_buffer s) (cv_channels_buffer s).

(** The fallback resampler has no state. *)
Definition pcm_convert_reset (s : pcm_convert_state) : pcm_convert_state :=
  cv_set_dsd (pcm_dsd_reset (cv_dsd s)) s.

(** The end of [pcm_convert_16()], [pcm_convert_24()] and [pcm_convert_32()]:
    channels, then the sample rate. *)
Definition convert_channels
    (convert : pcm_buffer -> Z -> Z -> list Z -> res (option (list Z) * pcm_buffer))
    (src_format dest_format : audio_format) (buf : list Z) (s : pcm_convert_state)
  : res (option (list Z) * pcm_convert_state) :=
  if negb (af_channels src_format =? af_channels dest_format) then
    '(buf, b) ← convert (cv_channels_buffer s) (af_channels dest_format) (af_channels src_format) buf;
    Ok (buf, cv_set_channels b s)
  else Ok (Some buf, s).

Definition convert_rate {A}
    (resample : pcm_buffer -> Z -> Z -> list A -> Z -> res (list (option A) * pcm_buffer))
    (src_format dest_format : audio_format) (buf : list A) (s : pcm_convert_state)
  : res (list (option A) * pcm_convert_state) :=
  if negb (af_sample_rate src_format =? af_sample_rate dest_format) then
    '(buf, b) ← resample (cv_resample s) (af_channels dest_format) (af_sample_rate src_format) buf
                  (af_sample_rate dest_format);
    Ok (buf, cv_set_resample b s)
  else Ok (map Some buf, s).

Definition convert_rest (result : cells Z -> converted)
    (convert : pcm_buffer -> Z -> Z -> list Z -> res (option (list Z) * pcm_buffer))
    (resample : pcm_buffer -> Z -> Z -> list Z -> Z -> res (list (option Z) * pcm_buffer))
    (src_format dest_format : audio_format) (buf : option (list Z)) (s : pcm_convert_state)
  : res (converted * pcm_convert_state) :=
  match buf with
  | None => Ok (NotImplemented, s)
  | Some buf =>
      '(buf, s) ← convert_channels convert src_format dest_format buf s;
      match buf with
      | None => Ok (NotImplemented, s)
      | Some buf =>
          '(buf, s) ← convert_rate resample src_format dest_format buf s;
          Ok (result buf, s)
      end
  end.

Definition pcm_convert_16 (s : pcm_convert_state) (src_format : audio_format) (src : pcm_data)
    (dest_format : audio_format) : res (converted * pcm_convert_state) :=
  assert (bool_decide (af_format dest_format = SAMPLE_FORMAT_S16));;
  '(buf, b, dither) ← pcm_convert_to_16 (cv_format_buffer s) (cv_dither s) src;
  convert_rest Converted16 pcm_convert_channels_16 pcm_resample_fallback_16 src_format dest_format buf
    (cv_set_dither b dither s).

Definition pcm_convert_24 (s : pcm_convert_state) (src_format : audio_format) (src : pcm_data)
    (dest_format : audio_format) : res (converted * pcm_convert_state) :=
  assert (bool_decide (af_format dest_format = SAMPLE_FORMAT_S24_P32));;
  '(buf, b) ← pcm_convert_to_24 (cv_format_buffer s) src;
  convert_rest Converted24 pcm_convert_channels_24 pcm_resample_fallback_32 src_format dest_format buf
    (cv_set_dither b (cv_dither s) s).

Definition pcm_convert_32 (s : pcm_convert_state) (src_format : audio_format) (src : pcm_data)
    (dest_format : audio_format) : res (converted * pcm_convert_state) :=
  assert (bool_decide (af_format dest_format = SAMPLE_FORMAT_S32));;
  '(buf, b) ← pcm_convert_to_32 (cv_format_buffer s) src;
  convert_rest Converted32 pcm_convert_channels_32 pcm_resample_fallback_32 src_format dest_format buf
    (cv_set_dither b (cv_dither s) s).

(** The channels of samples in their source format. *)
Definition pcm_convert_channels (b : pcm_buffer) (dest_channels src_channels : Z) (src : pcm_data)
  : res (option pcm_data * pcm_buffer) :=
  match src with
  | PcmS16 l => '(l, b) ← pcm_convert_channels_16 b dest_channels src_channels l; Ok (option_map PcmS16 l, b)
  | PcmS24 l => '(l, b) ← pcm_convert_channels_24 b dest_channels src_channels l; Ok (option_map PcmS24 l, b)
  | PcmS32 l => '(l, b) ← pcm_convert_channels_32 b dest_channels src_channels l; Ok (option_map PcmS32 l, b)
  | _ => Ok (None, b)
  end.

Definition pcm_convert_float (s : pcm_convert_state) (src_format : audio_format) (src : pcm_data)
    (dest_format : audio_format) : res (converted * pcm_convert_state) :=
  assert (bool_decide (af_format dest_format = SAMPLE_FORMAT_FLOAT));;
  '(src, s) ← (if negb (af_channels dest_format =? af_channels src_format) then
                 '(src, b) ← pcm_convert_channels (cv_channels_buffer s) (af_channels dest_format)
                               (af_channels src_format) src;
                 Ok (src, cv_set_channels b s)
               else Ok (Some src, s));
  match src with
  | None => Ok (NotImplemented, s)
  | Some src =>
      '(buf, b) ← pcm_convert_to_float (cv_format_buffer s) src;
      let s := cv_set_dither b (cv_dither s) s in
      match buf with
      | None => Ok (NotImplemented, s)
      | Some buf =>
          '(buf, s) ← convert_rate pcm_resample_fallback_32 src_format dest_format buf s;
          Ok (ConvertedFloat buf, s)
      end
  end.

(** The format of [src] is that of [src_format]. *)
Definition pcm_convert (s : pcm_convert_state) (src_format : audio_format) (src : pcm_data)
    (dest_format : audio_format) : res (converted * pcm_convert_state) :=
  '(src_format, src, s) ← (match src with
    | PcmDsd bytes =>
        '(f, dsd) ← pcm_dsd_to_float (cv_dsd s) (af_channels src_format) false bytes;
        Ok (AudioFormat (af_sample_rate src_format) SAMPLE_FORMAT_FLOAT (af_channels src_format),
            PcmFloat f, cv_set_dsd dsd s)
    | _ => Ok (src_format, src, s)
    end);
  match af_format dest_format with
  | SAMPLE_FORMAT_S16 => pcm_convert_16 s src_format src dest_format
  | SAMPLE_FORMAT_S24_P32 => pcm_convert_24 s src_format src dest_format
  | SAMPLE_FORMAT_S32 => pcm_convert_32 s src_format src dest_format
  | SAMPLE_FORMAT_FLOAT => pcm_convert_float s src_format src dest_format
  | _ => Ok (NotImplemented, s)
  end.

(** * Conversion of samples: proofs

    Every step stays within its arrays and its integer types; the result has
    the format, the channels and the number of frames that were asked
    for. *)

(** ** Buffers *)

Lemma align_8k_ok size : 0 < size < 2 ^ 62 -> size <= align_8k size.
Proof.
  intros Hs. unfold align_8k. rewrite (u64_small (size - 1)) by lia.
  pose proof (Z.add_lor_land (size - 1) 0x1fff) as H.
  change 0x1fff with (Z.ones 13) in H |- *. rewrite Z.land_ones in H by lia.
  pose proof (Z.mod_pos_bound (size - 1) (2 ^ 13) ltac:(lia)). change (Z.ones 13) with 8191 in *.
  rewrite u64_small; lia.
Qed.

Lemma pcm_buffer_get_ok b size :
  0 <= size < 2 ^ 62 -> wp (pcm_buffer_get b size) (fun b' => size <= pb_size b').
Proof.
  intros Hs. unfold pcm_buffer_get. cbv zeta.
  assert (forall n, 0 < n < 2 ^ 62 -> size <= n ->
    wp (assert (n <=? pb_size (if pb_size b <? n then PcmBuffer (align_8k n) else b));;
        Ok (if pb_size b <? n then PcmBuffer (align_8k n) else b)) (fun b' => size <= pb_size b')) as H.
  { intros n Hn Hsn. assert (n <= pb_size (if pb_size b <? n then PcmBuffer (align_8k n) else b)).
    { destruct (Z.ltb_spec (pb_size b) n); [by apply align_8k_ok|lia]. }
    rewrite (proj2 (Z.leb_le _ _)) by done. simpl. lia. }
  destruct (Z.eqb_spec size 0); [apply (H 1); lia|apply (H size); lia].
Qed.

Lemma pcm_buffer_bind {A} b size (k : pcm_buffer -> res A) Q :
  0 <= size < 2 ^ 62 -> (forall b', wp (k b') Q) -> wp (pcm_buffer_get b size ≫= k) Q.
Proof. intros Hs Hk. eapply wp_bind_mono; [by apply pcm_buffer_get_ok|]. intros b' _. apply Hk. Qed.

(** ** Sample formats *)

(** [n] samples of [bits] bits. *)
Definition samples_ok (bits : Z) (n : nat) (l : list Z) : Prop := length l = n /\ Forall (in_bits bits) l.

Lemma map_in_bits bits bits' (f : Z -> Z) l :
  (forall x, in_bits bits x -> in_bits bits' (f x)) -> Forall (in_bits bits) l ->
  samples_ok bits' (length l) (map f l).
Proof.
  intros Hf Hl. split; [apply length_map|]. induction Hl; constructor; auto.
Qed.

Lemma i16_in_bits x : in_bits 16 (i16 x).
Proof.
  unfold in_bits, i16. change (2 ^ (16 - 1)) with (2 ^ 15).
  pose proof (Z.mod_pos_bound (x + 2 ^ 15) (2 ^ 16) ltac:(lia)). lia.
Qed.

Lemma i32_in_bits x : in_bits 32 (i32 x).
Proof. apply i32_range. Qed.

(** Widening by [k] bits. *)
Lemma widen_in_bits bits k x :
  0 < bits -> 0 <= k -> bits + k <= 32 -> in_bits bits x -> in_bits (bits + k) (i32 (Z.shiftl x k)).
Proof.
  unfold in_bits. intros Hb Hk Hs Hx. rewrite Z.shiftl_mul_pow2 by done.
  replace (bits + k - 1) with (bits - 1 + k) by lia. rewrite Z.pow_add_r by lia.
  assert (0 < 2 ^ k) by (apply Z.pow_pos_nonneg; lia).
  assert (2 ^ (bits - 1) * 2 ^ k <= 2 ^ 31).
  { rewrite <- Z.pow_add_r by lia. apply Z.pow_le_mono_r; lia. }
  rewrite i32_small by nia. nia.
Qed.

(** A float whose product with [factor] fits into an [int]. *)
Definition float_fits (factor : Z) (x : float) : Prop :=
  f_to_int (f32_mul x (f32_of_Z factor)) <> None.

Lemma map_res_ok {A B} (f : A -> res B) (P : A -> Prop) (Q : B -> Prop) l :
  (forall x, P x -> wp (f x) Q) -> Forall P l ->
  wp (map_res f l) (fun l' => length l' = length l /\ Forall Q l').
Proof.
  intros Hf Hl. unfold map_res. eapply wp_bind_mono.
  - eapply (map_samples_ok _ P (fun _ => True) (fun _ y => Q y)); [|exact Hl|done].
    intros x s Hx _. eapply wp_bind_mono; [by apply Hf|]. by intros y Hy.
  - intros [l' s] [H _]. simpl. split; [symmetry; by eapply Forall2_length|].
    clear Hl. induction H; constructor; auto.
Qed.

Lemma pcm_clamp_16_ok x : in_bits 16 (pcm_clamp_16 x).
Proof. unfold in_bits, pcm_clamp_16. change (2 ^ (16 - 1)) with 32768. case_Z; lia. Qed.

Lemma pcm_clamp_24_ok x : in_bits 24 (pcm_clamp_24 x).
Proof.
  unfold in_bits, pcm_clamp_24. change (Z.shiftl 1 23) with 8388608.
  change (2 ^ (24 - 1)) with 8388608. case_Z; lia.
Qed.

(** ** One sample in another width *)

(** [x] of [from] bits becomes [y] of [bits] bits: the same fraction of the
    full scale, rounded down or, for 16 bits, dithered. *)
Definition rescaled (from bits x y : Z) : Prop :=
  if from <=? bits then y = x * 2 ^ (bits - from)
  else if bits =? 16 then dithered (x / 2 ^ (from - 24)) y
  else y = x / 2 ^ (from - bits).

(** The nearest number of [bits] bits. *)
Definition saturate (bits i : Z) : Z := Z.max (- 2 ^ (bits - 1)) (Z.min (2 ^ (bits - 1) - 1) i).

(** A float becomes a sample of [bits] bits, with at most 24 of them in
    use. *)
Definition rescaled_float (bits : Z) (x : float) (y : Z) : Prop :=
  let used := Z.min bits 24 in
  exists i, f_to_int (f32_mul x (f32_of_Z (2 ^ (used - 1)))) = Some i /\
    y = saturate used i * 2 ^ (bits - used).

(** The samples of a buffer in the width [bits]. *)
Definition in_width (bits : Z) (d : pcm_data) (l : list Z) : Prop :=
  match d with
  | PcmS8 src => Forall2 (rescaled 8 bits) src l
  | PcmS16 src => Forall2 (rescaled 16 bits) src l
  | PcmS24 src => Forall2 (rescaled 24 bits) src l
  | PcmS32 src => Forall2 (rescaled 32 bits) src l
  | PcmFloat src => Forall2 (rescaled_float bits) src l
  | _ => False
  end.

Lemma rescaled_same bits l : Forall2 (rescaled bits bits) l l.
Proof.
  apply Forall_Forall2_diag, Forall_forall. intros x _. unfold rescaled. rewrite Z.leb_refl, Z.sub_diag. lia.
Qed.

Lemma map_rescaled bits bits' (f : Z -> Z) l :
  (forall x, in_bits bits x -> rescaled bits bits' x (f x)) -> Forall (in_bits bits) l ->
  Forall2 (rescaled bits bits') l (map f l).
Proof. intros Hf. induction 1; constructor; auto. Qed.

Lemma widen_rescaled bits k x :
  0 < bits -> 0 <= k -> bits + k <= 32 -> in_bits bits x -> rescaled bits (bits + k) x (i32 (Z.shiftl x k)).
Proof.
  intros Hb Hk Hs Hx. unfold rescaled. rewrite (proj2 (Z.leb_le bits (bits + k))) by lia.
  replace (bits + k - bits) with k by lia. rewrite Z.shiftl_mul_pow2 by done.
  apply i32_small. unfold in_bits in Hx.
  assert (0 < 2 ^ k) by (apply Z.pow_pos_nonneg; lia).
  assert (2 ^ (bits - 1) * 2 ^ k <= 2 ^ 31).
  { rewrite <- Z.pow_add_r by lia. apply Z.pow_le_mono_r; lia. }
  nia.
Qed.

Lemma i8_to_16_rescaled x : in_bits 8 x -> rescaled 8 16 x (i8_to_16 x).
Proof.
  unfold in_bits, i8_to_16, rescaled. change (2 ^ (8 - 1)) with 128. intros Hx.
  rewrite Z.shiftl_mul_pow2, i16_small; [done|change (2 ^ 8) with 256; lia|done].
Qed.

Lemma map_res_Forall2 {A B} (f : A -> res B) (P : A -> Prop) (Q : A -> B -> Prop) l :
  (forall x, P x -> wp (f x) (Q x)) -> Forall P l -> wp (map_res f l) (Forall2 Q l).
Proof.
  intros Hf Hl. unfold map_res. eapply wp_bind_mono.
  - eapply (map_samples_ok _ P (fun _ => True) Q); [|exact Hl|done].
    intros x s Hx _. eapply wp_bind_mono; [by apply Hf|]. by intros y Hy.
  - by intros [l' s] [H _].
Qed.

Lemma pcm_clamp_16_saturate x : pcm_clamp_16 x = saturate 16 x.
Proof. unfold pcm_clamp_16, saturate. change (2 ^ (16 - 1)) with 32768. case_Z; lia. Qed.

Lemma pcm_clamp_24_saturate x : pcm_clamp_24 x = saturate 24 x.
Proof.
  unfold pcm_clamp_24, saturate. change (Z.shiftl 1 23) with 8388608.
  change (2 ^ (24 - 1)) with 8388608. case_Z; lia.
Qed.

Lemma clamped_ok factor (clamp : Z -> Z) bits l :
  factor = 2 ^ (bits - 1) -> bits <= 24 ->
  (forall x, in_bits bits (clamp x)) -> (forall x, clamp x = saturate bits x) -> Forall (float_fits factor) l ->
  wp (map_res (fun x => sample ← float_to_int factor x; Ok (clamp sample)) l)
    (fun l' => samples_ok bits (length l) l' /\ Forall2 (rescaled_float bits) l l').
Proof.
  intros -> Hb Hc Hs Hl. eapply wp_mono.
  - apply (map_res_Forall2 _ (float_fits (2 ^ (bits - 1))) (fun x y => in_bits bits y /\ rescaled_float bits x y)); [|done].
    intros x Hx. unfold float_to_int, float_fits, rescaled_float in *. rewrite (Z.min_l bits 24), Z.sub_diag by done.
    destruct (f_to_int _) as [i|] eqn:E; [|done]. split; [apply Hc|]. exists i. split; [done|]. rewrite Hs. lia.
  - intros l' H. simpl in H. split; [split|].
    + symmetry. by eapply Forall2_length.
    + eapply Forall2_in_bits, H. by intros x y [].
    + eapply Forall2_impl; [exact H|]. by intros x y [].
Qed.

(** The floats of a buffer, if it has any, can be converted. *)
Definition floats_fit (factor : Z) (d : pcm_data) : Prop :=
  match d with PcmFloat l => Forall (float_fits factor) l | _ => True end.

(** A source whose conversion to other formats is implemented. *)
Definition convertible (d : pcm_data) : Prop := volume_implemented (pcm_format d) = true.

(** Not too large for [size_t] arithmetic on bytes. *)
Definition small (d : pcm_data) : Prop := Z.of_nat (pcm_length d) < 2 ^ 32.

(** What a conversion of [d] to [bits] bits has to give. *)
Definition converts (bits : Z) (d : pcm_data) (r : option (list Z)) : Prop :=
  exists l, r = Some l /\ samples_ok bits (pcm_length d) l /\ in_width bits d l.

Lemma converts_map from bits (f : Z -> Z) (mk : list Z -> pcm_data) l :
  (forall l', in_width bits (mk l) l' <-> Forall2 (rescaled from bits) l l') -> pcm_length (mk l) = length l ->
  (forall x, in_bits from x -> in_bits bits (f x) /\ rescaled from bits x (f x)) -> Forall (in_bits from) l ->
  converts bits (mk l) (Some (map f l)).
Proof.
  intros Hw Hn Hf Hl. exists (map f l). split; [done|]. rewrite Hn, Hw. split.
  - apply (map_in_bits from); [|done]. intros x Hx. by apply Hf.
  - apply map_rescaled; [|done]. intros x Hx. by apply Hf.
Qed.

(** Dithered samples. *)
Lemma converts_dithered from (mk : list Z -> pcm_data) l l' :
  (forall l', in_width 16 (mk l) l' <-> Forall2 (rescaled from 16) l l') -> pcm_length (mk l) = length l ->
  16 < from -> Forall2 (fun x y => dithered (x / 2 ^ (from - 24)) y) l l' -> converts 16 (mk l) (Some l').
Proof.
  intros Hw Hn Hf Hl. exists l'. split; [done|]. rewrite Hn, Hw. split; [split|].
  - symmetry. by eapply Forall2_length.
  - eapply Forall2_in_bits, Hl. by intros x y [].
  - eapply Forall2_impl; [exact Hl|]. intros x y. unfold rescaled.
    by rewrite (proj2 (Z.leb_gt from 16)), Z.eqb_refl by done.
Qed.

Lemma pcm_convert_to_16_ok b dither d :
  pcm_valid d -> convertible d -> small d -> floats_fit 32768 d -> dither_inv dither ->
  wp (pcm_convert_to_16 b dither d) (fun '(r, _, dither') => dither_inv dither' /\ converts 16 d r).
Proof.
  intros Hd Hc Hs Hf Hi. unfold small in Hs.
  destruct d as [l|l|l|l|l|l|l]; try done; simpl in Hd, Hs, Hf; cbn [pcm_convert_to_16 pcm_length];
    unfold pcm_size; simpl pcm_length.
  - apply pcm_buffer_bind; [rewrite u64_small; lia|]. intros b'. simpl. split; [done|].
    apply (converts_map 8 16 i8_to_16 PcmS8); [done|done| |done].
    intros x Hx. split; [apply i16_in_bits|by apply i8_to_16_rescaled].
  - simpl. split; [done|]. exists l. split; [done|]. split; [done|apply rescaled_same].
  - apply pcm_buffer_bind; [Z.to_euclidean_division_equations; lia|]. intros b'.
    eapply wp_bind_mono; [by apply pcm_dither_24_to_16_ok|]. intros [l' d'] [Hl Hd']. simpl.
    split; [done|]. apply (converts_dithered 24 PcmS24); [done|done|lia|].
    eapply Forall2_impl; [exact Hl|]. intros x y H. cbv beta. change (2 ^ (24 - 24)) with 1. by rewrite Z.div_1_r.
  - apply pcm_buffer_bind; [Z.to_euclidean_division_equations; lia|]. intros b'.
    eapply wp_bind_mono; [by apply pcm_dither_32_to_16_ok|]. intros [l' d'] [Hl Hd']. simpl.
    split; [done|]. apply (converts_dithered 32 PcmS32); [done|done|lia|].
    eapply Forall2_impl; [exact Hl|]. intros x y H. cbv beta in H. by rewrite Z.shiftr_div_pow2 in H by done.
  - apply pcm_buffer_bind; [Z.to_euclidean_division_equations; lia|]. intros b'.
    eapply wp_bind_mono; [apply (clamped_ok 32768 pcm_clamp_16 16); [done|done|apply pcm_clamp_16_ok|apply pcm_clamp_16_saturate|done]|].
    intros l' [Hl' Hw]. simpl. split; [done|]. by exists l'.
Qed.

(** The same for the other two widths. *)
Ltac widen bits k mk := apply (converts_map bits (bits + k) _ mk); [done|done| |done]; intros ? ?;
  split; [by apply (widen_in_bits bits k)|by apply (widen_rescaled bits k)].

Lemma pcm_convert_to_24_ok b d :
  pcm_valid d -> convertible d -> small d -> floats_fit (2 ^ 23) d ->
  wp (pcm_convert_to_24 b d) (fun '(r, _) => converts 24 d r).
Proof.
  intros Hd Hc Hs Hf. unfold small in Hs.
  destruct d as [l|l|l|l|l|l|l]; try done; simpl in Hd, Hs, Hf; cbn [pcm_convert_to_24 pcm_length];
    unfold pcm_size; simpl pcm_length.
  - apply pcm_buffer_bind; [rewrite u64_small; lia|]. intros b'. simpl. widen 8 16 PcmS8.
  - apply pcm_buffer_bind; [rewrite u64_small; lia|]. intros b'. simpl. widen 16 8 PcmS16.
  - simpl. exists l. split; [done|]. split; [done|apply rescaled_same].
  - apply pcm_buffer_bind; [lia|]. intros b'. simpl. apply (converts_map 32 24 _ PcmS32); [done|done| |done].
    intros x Hx. split; [by apply shiftr_8_bits|]. unfold rescaled. simpl. by rewrite Z.shiftr_div_pow2 by done.
  - apply pcm_buffer_bind; [lia|]. intros b'.
    eapply wp_bind_mono; [apply (clamped_ok (2 ^ 23) pcm_clamp_24 24); [done|done|apply pcm_clamp_24_ok|apply pcm_clamp_24_saturate|done]|].
    intros l' [Hl' Hw]. simpl. by exists l'.
Qed.

Lemma widen_float y : in_bits 24 (y * 2 ^ (24 - 24)) -> i32 (Z.shiftl (y * 2 ^ (24 - 24)) 8) = y * 2 ^ (32 - 24).
Proof.
  change (2 ^ (24 - 24)) with 1. rewrite Z.mul_1_r. intros Hy.
  pose proof (widen_rescaled 24 8 y ltac:(lia) ltac:(lia) ltac:(lia) Hy) as H. exact H.
Qed.

Lemma pcm_convert_to_32_ok b d :
  pcm_valid d -> convertible d -> small d -> floats_fit (2 ^ 23) d ->
  wp (pcm_convert_to_32 b d) (fun '(r, _) => converts 32 d r).
Proof.
  intros Hd Hc Hs Hf. unfold small in Hs.
  destruct d as [l|l|l|l|l|l|l]; try done; simpl in Hd, Hs, Hf; cbn [pcm_convert_to_32 pcm_length];
    unfold pcm_size; simpl pcm_length.
  - apply pcm_buffer_bind; [rewrite u64_small; lia|]. intros b'. simpl. widen 8 24 PcmS8.
  - apply pcm_buffer_bind; [rewrite u64_small; lia|]. intros b'. simpl. widen 16 16 PcmS16.
  - apply pcm_buffer_bind; [lia|]. intros b'. simpl. widen 24 8 PcmS24.
  - simpl. exists l. split; [done|]. split; [done|apply rescaled_same].
  - apply pcm_buffer_bind; [lia|]. intros b'.
    eapply wp_bind_mono; [apply (clamped_ok (2 ^ 23) pcm_clamp_24 24); [done|done|apply pcm_clamp_24_ok|apply pcm_clamp_24_saturate|done]|].
    intros l' [[Hn Hb] Hw]. simpl. eexists. split; [done|]. split.
    + cbn [pcm_length]. rewrite <- Hn. apply (map_in_bits 24); [|done]. intros ? ?. by apply (widen_in_bits 24 8).
    + clear - Hw Hb. simpl. induction Hw as [|x y l l' (i & Hi & ->) Hw IH]; simpl; [constructor|].
      apply Forall_cons in Hb as [Hy Hb]. constructor; [|by apply IH]. exists i. split; [done|].
      by apply (widen_float (saturate 24 i)).
Qed.

Lemma pcm_convert_to_float_ok b d :
  convertible d -> small d ->
  wp (pcm_convert_to_float b d) (fun '(r, _) => exists l, r = Some l /\ length l = pcm_length d).
Proof.
  intros Hc Hs. unfold small in Hs.
  destruct d as [l|l|l|l|l|l|l]; try done; simpl in Hs; cbn [pcm_convert_to_float pcm_length];
    unfold pcm_size; simpl pcm_length;
    try (apply pcm_buffer_bind; [rewrite ?u64_small; lia|]; intros b'); simpl; eexists;
    (split; [done|]); unfold pcm_convert_8_to_float, pcm_convert_16_to_float, pcm_convert_24_to_float,
      pcm_convert_32_to_float, int_to_float; by rewrite ?length_map.
Qed.
