(* ===== verification/PcmFrames.v ===== *)
(** * Channels and sample rates

    A buffer as the concatenation of its frames: what
    [src/pcm/pcm_channels.c] and [src/pcm/pcm_resample_fallback.c] do to each
    of them. *)

From S2P Require Import Prelude Float AudioFormat Strtod Pcm PcmConvert.

Local Open Scope Z_scope.

(** ** Frames *)

(** The samples are those of [frames], each of [channels] samples. *)
Definition in_frames {A} (channels : nat) (frames : list (list A)) (l : list A) : Prop :=
  l = concat frames /\ Forall (fun fr => length fr = channels) frames.

Definition zsum (l : list Z) : Z := foldr Z.add 0 l.

(** A frame of [dest_channels] samples, each the mean of the frame. *)
Definition remix (dest_channels : nat) (fr : list Z) : list Z :=
  replicate dest_channels (Z.quot (zsum fr) (Z.of_nat (length fr))).

(** The frames [k * src_rate / dest_rate] for [k < n]. *)
Definition resampled {A} (src_rate dest_rate : Z) (n : nat) (frames : list (list A)) : list (list A) :=
  omap (fun k => frames !! Z.to_nat (Z.of_nat k * src_rate / dest_rate)) (seq 0 n).

(** Which changes of the number of channels are implemented. *)
Definition remix_implemented (src_channels dest_channels : Z) : bool :=
  (dest_channels =? 2) || ((src_channels =? 2) && (dest_channels =? 1)).

Lemma concat_length {A} n (frames : list (list A)) :
  Forall (fun fr => length fr = n) frames -> length (concat frames) = (n * length frames)%nat.
Proof. induction 1 as [|fr frs Hfr _ IH]; simpl; [lia|]. rewrite length_app, IH. lia. Qed.

(** Every buffer of whole frames is one. *)
Lemma in_frames_exists {A} n k (l : list A) :
  length l = (n * k)%nat -> exists frames, in_frames n frames l /\ length frames = k.
Proof.
  revert l. induction k as [|k IH]; intros l Hl.
  { exists []. split; [|done]. split; [|constructor]. destruct l; [done|simpl in Hl; lia]. }
  destruct (IH (drop n l)) as (frs & [Hc Hf] & Hk); [rewrite length_drop; lia|].
  exists (take n l :: frs). split; [|simpl; lia]. split.
  - simpl. by rewrite <- Hc, take_drop.
  - constructor; [rewrite length_take; lia|done].
Qed.

Lemma concat_lookup {A} n (frames : list (list A)) k i fr :
  Forall (fun fr => length fr = n) frames -> frames !! k = Some fr -> (i < n)%nat ->
  concat frames !! (k * n + i)%nat = fr !! i.
Proof.
  revert k. induction frames as [|fr0 frs IH]; intros k Hf Hk Hi; [done|].
  apply Forall_cons in Hf as [H0 Hf]. destruct k as [|k]; simpl in *.
  - injection Hk as ->. rewrite lookup_app_l; [done|lia].
  - rewrite lookup_app_r by lia. rewrite <- (IH k) by done. f_equal. lia.
Qed.

Lemma sget_ok {A} (l : list A) (i : nat) x : l !! i = Some x -> sget l (Z.of_nat i) = Ok x.
Proof. intros H. unfold sget. rewrite Nat2Z.id, H. by rewrite (proj2 (Z.leb_le 0 _)) by lia. Qed.

(** ** Channels *)

Section channels.
(** Samples of [bits] bits; [int] does not overflow on the sums of a frame. *)
Context (bits : Z) (int : Z -> res Z) (max : Z).
Context (Hint : forall x, - max * 2 ^ (bits - 1) <= x <= max * 2 ^ (bits - 1) -> int x = Ok x).

Lemma zsum_bound (fr : list Z) :
  Forall (in_bits bits) fr ->
  - Z.of_nat (length fr) * 2 ^ (bits - 1) <= zsum fr <= Z.of_nat (length fr) * (2 ^ (bits - 1) - 1).
Proof using.
  clear. induction 1 as [|x fr Hx _ IH]; simpl; [lia|]. unfold in_bits in Hx. lia.
Qed.

Lemma mean_in_bits fr :
  fr <> [] -> Forall (in_bits bits) fr -> in_bits bits (Z.quot (zsum fr) (Z.of_nat (length fr))).
Proof using.
  clear. intros Hne Hfr. pose proof (zsum_bound fr Hfr) as Hs. unfold in_bits.
  assert (0 < Z.of_nat (length fr)) as Hn by (destruct fr; simpl; [done|lia]).
  set (n := Z.of_nat (length fr)) in *. set (p := 2 ^ (bits - 1)) in *.
  split.
  - replace (- p) with (Z.quot (n * - p) n) by (rewrite Z.mul_comm, Z.quot_mul; lia).
    apply Z.quot_le_mono; lia.
  - assert (Z.quot (zsum fr) n <= p - 1); [|lia].
    replace (p - 1) with (Z.quot (n * (p - 1)) n) by (rewrite Z.mul_comm, Z.quot_mul; lia).
    apply Z.quot_le_mono; lia.
Qed.

Lemma remix_in_bits dc fr :
  fr <> [] -> Forall (in_bits bits) fr -> Forall (in_bits bits) (remix dc fr).
Proof using. clear. intros. by apply Forall_replicate, mean_in_bits. Qed.

Lemma channels_1_to_2 frames :
  Forall (fun fr => length fr = 1%nat) frames ->
  pcm_convert_channels_1_to_2 (concat frames) = concat (map (remix 2) frames).
Proof using.
  clear. induction 1 as [|fr frs Hfr _ IH]; [done|].
  destruct fr as [|x [|]]; [done| |done]. simpl. rewrite IH. unfold remix. simpl.
  by rewrite Z.add_0_r, Z.quot_1_r.
Qed.

Lemma channels_2_to_1 frames :
  2 <= max -> Forall (fun fr => length fr = 2%nat) frames -> Forall (Forall (in_bits bits)) frames ->
  pcm_convert_channels_2_to_1 int (concat frames) = Ok (concat (map (remix 1) frames)).
Proof using Hint.
  intros Hm. induction 1 as [|fr frs Hfr _ IH]; intros Hb; [done|].
  apply Forall_cons in Hb as [Hb0 Hb]. pose proof (zsum_bound fr Hb0) as Hs.
  rewrite Hfr in Hs. destruct fr as [|x [|y [|]]]; [done|done| |done]. simpl in Hs.
  simpl concat. cbn [pcm_convert_channels_2_to_1 app].
  rewrite Z.add_0_r in Hs. rewrite Hint by nia. cbn [mbind res_bind]. rewrite IH by done.
  cbn [mbind res_bind]. unfold remix. simpl. by rewrite Z.add_0_r.
Qed.

Lemma sum_channels_ok fr l k :
  (k + Z.of_nat (length fr) <= max) -> Forall (in_bits bits) fr -> 0 <= k ->
  forall sum, - k * 2 ^ (bits - 1) <= sum <= k * 2 ^ (bits - 1) ->
  sum_channels int (length fr) sum (fr ++ l) = Ok (sum + zsum fr, l).
Proof using Hint.
  intros Hm Hb. revert k Hm. induction Hb as [|x fr Hx _ IH]; intros k Hm Hk sum Hs; simpl.
  { by rewrite Z.add_0_r. }
  simpl in Hm. unfold in_bits in Hx. rewrite Hint by nia. cbn [mbind res_bind].
  rewrite (IH (k + 1)) by lia. f_equal. f_equal. lia.
Qed.

Lemma channels_n_to_2 n fuel frames :
  (0 < n)%nat -> Z.of_nat n <= max -> Forall (fun fr => length fr = n) frames ->
  Forall (Forall (in_bits bits)) frames -> (length frames <= fuel)%nat ->
  pcm_convert_channels_n_to_2 int fuel n (concat frames) = Ok (concat (map (remix 2) frames)).
Proof using Hint.
  intros Hn Hm Hf. revert fuel. induction Hf as [|fr frs Hfr _ IH]; intros fuel Hb Hl;
    [by destruct fuel|].
  apply Forall_cons in Hb as [Hb0 Hb]. destruct fuel as [|fuel]; [simpl in Hl; lia|].
  destruct fr as [|x fr]; [simpl in Hfr; lia|]. cbn [concat pcm_convert_channels_n_to_2].
  change ((x :: fr) ++ concat frs) with (x :: (fr ++ concat frs)). cbn iota.
  change (x :: (fr ++ concat frs)) with ((x :: fr) ++ concat frs). rewrite <- Hfr at 1.
  rewrite (sum_channels_ok _ _ 0) by (done || lia). cbn [mbind res_bind].
  rewrite IH by (done || (simpl in Hl; lia)). cbn [mbind res_bind map concat].
  rewrite Z.add_0_l, <- Hfr. done.
Qed.
End channels.

(** The three widths. *)
Inductive sample_width : Z -> Z -> (Z -> res Z) -> Prop :=
| width_16 : sample_width 16 2 int32
| width_24 : sample_width 24 4 int32
| width_32 : sample_width 32 4 int64.

Lemma sample_width_int bits bytes int :
  sample_width bits bytes int -> 0 < bits /\ (bytes = 2 \/ bytes = 4) /\
  forall x, - 255 * 2 ^ (bits - 1) <= x <= 255 * 2 ^ (bits - 1) -> int x = Ok x.
Proof.
  intros []; (split; [lia|split; [lia|]]); intros x Hx; [apply int32_ok|apply int32_ok|apply int64_ok]; lia.
Qed.

(** Every frame becomes one of the wanted number of channels, with the mean
    of the old samples; a change that is not implemented is refused. *)
Lemma pcm_convert_channels_any_ok bits bytes int b dc sc frames src :
  sample_width bits bytes int -> (0 < sc <= 255)%nat -> (dc <= 255)%nat ->
  in_frames sc frames src -> Forall (in_bits bits) src -> Z.of_nat (length src) < 2 ^ 32 ->
  wp (pcm_convert_channels_any bytes int b (Z.of_nat dc) (Z.of_nat sc) src) (fun '(r, _) =>
    r = if remix_implemented (Z.of_nat sc) (Z.of_nat dc)
        then Some (concat (map (remix dc) frames)) else None).
Proof.
  intros Hw Hsc Hdc [-> Hf] Hb Hs. apply sample_width_int in Hw as (Hbits & Hbytes & Hint).
  pose proof (concat_length _ _ Hf) as Hl. rewrite Hl in Hs.
  assert (Forall (Forall (in_bits bits)) frames) as Hbb by (by apply Forall_concat in Hb).
  unfold pcm_convert_channels_any. cbv zeta. rewrite (proj2 (Z.eqb_neq _ 0)) by lia.
  apply wp_bind, wp_assert.
  { rewrite Hl. apply Z.eqb_eq.
    replace (bytes * Z.of_nat (sc * length frames)) with (Z.of_nat (length frames) * (bytes * Z.of_nat sc)) by lia.
    apply Z.mod_mul. lia. }
  rewrite Hl. apply pcm_buffer_bind.
  { unfold u64. replace (bytes * Z.of_nat (sc * length frames)) with (bytes * Z.of_nat (length frames) * Z.of_nat sc)
      by lia.
    rewrite Z.div_mul by lia. rewrite Z.mod_small by nia. nia. }
  intros b'. unfold remix_implemented.
  destruct (Z.eqb_spec (Z.of_nat sc) 1) as [E1|_], (Z.eqb_spec (Z.of_nat dc) 2) as [E2|_]; cbn [andb orb].
  1: { replace dc with 2%nat by lia. replace sc with 1%nat in * by lia. simpl. by rewrite channels_1_to_2. }
  all: destruct (Z.eqb_spec (Z.of_nat sc) 2) as [E3|_], (Z.eqb_spec (Z.of_nat dc) 1) as [E4|_];
    cbn [andb orb]; try lia; try done.
  all: try (replace dc with 2%nat by lia).
  all: try (replace dc with 1%nat by lia).
  all: try (rewrite Nat2Z.id).
  all: try (rewrite (channels_n_to_2 bits int 255 Hint); [done|lia|lia|done|done|nia]).
  replace sc with 2%nat in * by lia. by rewrite (channels_2_to_1 bits int 255 Hint).
Qed.

(** ** Sample rates *)

(** No product of the loop wraps around. *)
Definition rates_ok (channels src_rate dest_rate : Z) (n : nat) : Prop :=
  0 < src_rate /\ 0 < dest_rate /\ channels * (Z.of_nat n * dest_rate + src_rate) < 2 ^ 32.

Lemma resample_frames_ok channels src_rate dest_rate n :
  rates_ok channels src_rate dest_rate n -> 0 < channels ->
  let m := resample_frames (Z.of_nat n) dest_rate src_rate in
  0 <= m /\ m * src_rate < Z.of_nat n * dest_rate + src_rate /\ Z.of_nat n * dest_rate <= m * src_rate.
Proof.
  intros (Hs & Hd & Hw) Hc. unfold resample_frames, u32.
  assert (0 <= Z.of_nat n * dest_rate) by nia.
  assert (Z.of_nat n * dest_rate + src_rate < 2 ^ 32) by nia.
  rewrite (Z.mod_small (Z.of_nat n * dest_rate)) by lia.
  rewrite (Z.mod_small (Z.of_nat n * dest_rate + src_rate)) by lia.
  rewrite Z.mod_small by lia. Z.to_euclidean_division_equations. nia.
Qed.

(** Every frame that is taken exists. *)
Lemma resampled_lookup {A} src_rate dest_rate m (frames : list (list A)) k :
  0 < src_rate -> 0 < dest_rate -> (m * src_rate < Z.of_nat (length frames) * dest_rate + src_rate) ->
  Z.of_nat k < m -> is_Some (frames !! Z.to_nat (Z.of_nat k * src_rate / dest_rate)).
Proof.
  intros Hs Hd Hm Hk. apply lookup_lt_is_Some. 
  assert (Z.of_nat k * src_rate / dest_rate < Z.of_nat (length frames)).
  { apply Z.div_lt_upper_bound; [done|]. nia. }
  assert (0 <= Z.of_nat k * src_rate / dest_rate) by (apply Z.div_pos; nia). lia.
Qed.

Lemma omap_seq_length {A} (f : nat -> option A) m k :
  (forall i, (k <= i < k + m)%nat -> is_Some (f i)) -> length (omap f (seq k m)) = m.
Proof.
  revert k. induction m as [|m IH]; intros k H; [done|]. simpl.
  destruct (H k) as [x ->]; [lia|]. simpl. f_equal. apply IH. intros i Hi. apply H. lia.
Qed.

(** [floor(floor(2 * k * s / d) / 2) * 2], the position that a stereo frame is
    taken from. *)
Lemma stereo_pos k s d :
  0 < d -> 0 <= k -> 0 <= s -> Z.land (2 * k * s / d) (Z.lnot 1) = 2 * (k * s / d).
Proof.
  intros Hd Hk Hs. rewrite <- Z.ldiff_land. change 1 with (Z.ones 1).
  rewrite Z.ldiff_ones_r by lia. rewrite Z.shiftl_mul_pow2, Z.shiftr_div_pow2 by lia.
  change (2 ^ 1) with 2. rewrite Z.div_div by lia.
  replace (2 * k * s) with (k * s * 2) by lia. rewrite Z.div_mul_cancel_r by lia. lia.
Qed.

Section rates.
Context {A : Type} (src_rate dest_rate : Z) (frames : list (list A)).
Context (Hs : 0 < src_rate) (Hd : 0 < dest_rate).

Lemma resample_mono_ok m k :
  Forall (fun fr => length fr = 1%nat) frames ->
  (forall i, (k <= i < k + m)%nat -> is_Some (frames !! Z.to_nat (Z.of_nat i * src_rate / dest_rate)) /\
    Z.of_nat i * src_rate < 2 ^ 32) ->
  resample_mono m src_rate dest_rate (Z.of_nat k) (concat frames) =
    Ok (concat (omap (fun i => frames !! Z.to_nat (Z.of_nat i * src_rate / dest_rate)) (seq k m))).
Proof using Hs Hd.
  intros Hf. revert k. induction m as [|m IH]; intros k H; [done|]. cbn [resample_mono].
  destruct (H k) as [[fr Hfr] Hw]; [lia|]. unfold u32. rewrite Z.mod_small by nia.
  assert (0 <= Z.of_nat k * src_rate / dest_rate) as Hp by (apply Z.div_pos; nia).
  pose proof (proj1 (Forall_lookup _ _) Hf _ _ Hfr) as Hl.
  destruct fr as [|x [|]]; [done| |done].
  rewrite <- (Z2Nat.id _ Hp). rewrite (sget_ok _ _ x).
  2: { pose proof (concat_lookup 1 frames _ 0 _ Hf Hfr ltac:(lia)) as E.
       rewrite Nat.mul_1_r, Nat.add_0_r in E. exact E. }
  cbn [mbind res_bind]. replace (Z.of_nat k + 1) with (Z.of_nat (S k)) by lia.
  rewrite IH by (intros i Hi; apply H; lia). cbn [mbind res_bind seq omap list_omap].
  by rewrite Hfr.
Qed.

Lemma resample_stereo_ok m k :
  Forall (fun fr => length fr = 2%nat) frames ->
  (forall i, (k <= i < k + m)%nat -> is_Some (frames !! Z.to_nat (Z.of_nat i * src_rate / dest_rate)) /\
    2 * Z.of_nat i * src_rate < 2 ^ 32) -> 2 * Z.of_nat (length frames) < 2 ^ 32 ->
  resample_stereo m src_rate dest_rate (2 * Z.of_nat k) (concat frames) =
    Ok (concat (omap (fun i => frames !! Z.to_nat (Z.of_nat i * src_rate / dest_rate)) (seq k m))).
Proof using Hs Hd.
  intros Hf. revert k. induction m as [|m IH]; intros k H Hn; [done|]. cbn [resample_stereo].
  destruct (H k) as [[fr Hfr] Hw]; [lia|]. unfold u32. rewrite (Z.mod_small (2 * Z.of_nat k * src_rate)) by nia.
  assert (0 <= Z.of_nat k * src_rate / dest_rate) as Hp by (apply Z.div_pos; nia).
  cbv zeta. rewrite stereo_pos by lia. pose proof (lookup_lt_Some _ _ _ Hfr) as Hlt.
  pose proof (proj1 (Forall_lookup _ _) Hf _ _ Hfr) as Hl.
  destruct fr as [|x [|y [|]]]; [done|done| |done].
  pose proof (concat_lookup 2 frames _ 0 _ Hf Hfr ltac:(lia)) as Hx.
  pose proof (concat_lookup 2 frames _ 1 _ Hf Hfr ltac:(lia)) as Hy. cbn [lookup list_lookup] in Hx, Hy.
  set (p := Z.to_nat (Z.of_nat k * src_rate / dest_rate)) in *.
  replace (2 * (Z.of_nat k * src_rate / dest_rate)) with (Z.of_nat (p * 2 + 0)) by lia.
  rewrite (sget_ok _ _ x Hx). cbn [mbind res_bind].
  rewrite Z.mod_small by lia. replace (Z.of_nat (p * 2 + 0) + 1) with (Z.of_nat (p * 2 + 1)) by lia.
  rewrite (sget_ok _ _ y Hy). cbn [mbind res_bind].
  replace (2 * Z.of_nat k + 2) with (2 * Z.of_nat (S k)) by lia.
  rewrite IH by (done || (intros i Hi; apply H; lia)). cbn [mbind res_bind seq omap list_omap].
  subst p. by rewrite Hfr.
Qed.
End rates.

(** Frame [k] of the result is frame [floor (k * src_rate / dest_rate)] of
    the source; with more than two channels nothing is written. *)
Lemma pcm_resample_fallback_ok {A} bytes b channels src_rate dest_rate (frames : list (list A)) src :
  (bytes = 2 \/ bytes = 4) -> (0 < channels <= 255)%nat -> in_frames channels frames src ->
  rates_ok (Z.of_nat channels) src_rate dest_rate (length frames) -> Z.of_nat (length src) < 2 ^ 32 ->
  wp (pcm_resample_fallback bytes b (Z.of_nat channels) src_rate src dest_rate) (fun '(r, _) =>
    let n := Z.to_nat (resample_frames (Z.of_nat (length frames)) dest_rate src_rate) in
    length (resampled src_rate dest_rate n frames) = n /\
    r = if (channels <=? 2)%nat then map Some (concat (resampled src_rate dest_rate n frames))
        else replicate (n * channels) None).
Proof.
  intros Hbytes Hc [-> Hf] Hr Hsmall. pose proof (concat_length _ _ Hf) as Hl. rewrite Hl in Hsmall.
  destruct (resample_frames_ok _ _ _ _ Hr ltac:(lia)) as (Hm0 & Hm1 & Hm2). cbv zeta in *.
  destruct Hr as (Hs & Hd & Hw). unfold pcm_resample_fallback. cbv zeta.
  rewrite !(proj2 (Z.eqb_neq _ 0)) by lia. cbn [orb]. rewrite Hl.
  replace (bytes * Z.of_nat (channels * length frames)) with
    (Z.of_nat (length frames) * bytes * Z.of_nat channels) by lia.
  rewrite Z.div_mul, Z.div_mul by lia.
  assert (u32 (Z.of_nat (length frames)) = Z.of_nat (length frames)) as -> by (apply Z.mod_small; nia).
  set (m := resample_frames (Z.of_nat (length frames)) dest_rate src_rate) in *.
  assert (0 <= m * Z.of_nat channels < 2 ^ 32) by nia.
  assert (u32 (m * Z.of_nat channels) = m * Z.of_nat channels) as -> by (by apply Z.mod_small).
  apply pcm_buffer_bind; [nia|]. intros b'. apply wp_bind, wp_assert.
  { apply Z.eqb_eq. rewrite <- Z.mul_assoc. apply Z.mod_mul. lia. }
  assert (forall i, (0 <= i < 0 + Z.to_nat m)%nat ->
    is_Some (frames !! Z.to_nat (Z.of_nat i * src_rate / dest_rate)) /\
    Z.of_nat channels * Z.of_nat i * src_rate < 2 ^ 32) as Hin.
  { intros i Hi. split; [apply (resampled_lookup _ _ m); (done || lia)|]. nia. }
  assert (length (resampled src_rate dest_rate (Z.to_nat m) frames) = Z.to_nat m) as Hlen
    by (apply omap_seq_length; intros i Hi; by apply Hin).
  destruct (decide (channels = 1%nat)) as [->|H1].
  { change (Z.of_nat 1 =? 1) with true. cbn iota. rewrite Z.mul_1_r.
    change 0 with (Z.of_nat 0) at 1. rewrite (resample_mono_ok _ _ frames Hs Hd) by (done || (intros i Hi;
      destruct (Hin i Hi); split; [done|lia])). done. }
  destruct (decide (channels = 2%nat)) as [->|H2].
  { change (Z.of_nat 2 =? 1) with false. change (Z.of_nat 2 =? 2) with true. cbn iota.
    change (Z.of_nat 2) with 2 in *. rewrite Z.div_mul by lia.
    change 0 with (2 * Z.of_nat 0) at 1. rewrite (resample_stereo_ok _ _ frames Hs Hd) by (done || nia || (intros i Hi;
      destruct (Hin i Hi); split; [done|lia])). done. }
  rewrite !(proj2 (Z.eqb_neq _ _)) by lia. split; [done|]. rewrite (proj2 (Nat.leb_gt _ _)) by lia.
  rewrite Z2Nat.inj_mul by lia. by rewrite Nat2Z.id.
Qed.

(** * The conversion chain

    [src/pcm/pcm_convert.c]: format, channels and sample rate, one after the
    other, as functions on frames. *)

(** ** The chain on frames *)

Definition same_channels (src_format dest_format : audio_format) : bool :=
  af_channels src_format =? af_channels dest_format.
Definition same_rate (src_format dest_format : audio_format) : bool :=
  af_sample_rate src_format =? af_sample_rate dest_format.

(** The number of frames after the conversion of [n]. *)
Definition chain_frames (src_format dest_format : audio_format) (n : nat) : nat :=
  if same_rate src_format dest_format then n
  else Z.to_nat (resample_frames (Z.of_nat n) (af_sample_rate dest_format) (af_sample_rate src_format)).

Definition chain_channels (src_format dest_format : audio_format) (frames : list (list Z)) : list (list Z) :=
  if same_channels src_format dest_format then frames
  else map (remix (Z.to_nat (af_channels dest_format))) frames.

Definition chain_rate {A} (src_format dest_format : audio_format) (frames : list (list A)) : list (list A) :=
  if same_rate src_format dest_format then frames
  else resampled (af_sample_rate src_format) (af_sample_rate dest_format)
         (chain_frames src_format dest_format (length frames)) frames.

Definition chain (src_format dest_format : audio_format) (frames : list (list Z)) : list (list Z) :=
  chain_rate src_format dest_format (chain_channels src_format dest_format frames).

(** The conversions that are implemented; [n] frames are not too many for
    32 bits. *)
Definition chain_implemented (src_format dest_format : audio_format) (n : nat) : Prop :=
  0 < af_channels src_format <= 255 /\ 0 < af_channels dest_format <= 255 /\
  (af_channels src_format = af_channels dest_format \/
   remix_implemented (af_channels src_format) (af_channels dest_format) = true) /\
  (af_sample_rate src_format = af_sample_rate dest_format \/
   af_channels dest_format <= 2 /\
   rates_ok (af_channels dest_format) (af_sample_rate src_format) (af_sample_rate dest_format) n) /\
  af_channels src_format * Z.of_nat n < 2 ^ 32 /\ af_channels dest_format * Z.of_nat n < 2 ^ 32.

Section chain.
Context (src_format dest_format : audio_format).
Let sc := Z.to_nat (af_channels src_format).
Let dc := Z.to_nat (af_channels dest_format).

Lemma remix_frames bits (frames : list (list Z)) :
  (0 < sc)%nat -> Forall (fun fr => length fr = sc) frames -> Forall (Forall (in_bits bits)) frames ->
  Forall (fun fr => length fr = dc) (map (remix dc) frames) /\
  Forall (Forall (in_bits bits)) (map (remix dc) frames).
Proof.
  intros Hs Hf Hb. split; apply Forall_map.
  - apply Forall_forall. intros fr _. apply length_replicate.
  - apply Forall_forall. intros fr Hfr. apply remix_in_bits.
    + rewrite Forall_forall in Hf. apply Hf in Hfr. by destruct fr; [simpl in Hfr; lia|].
    + rewrite Forall_forall in Hb. auto.
Qed.

Lemma resampled_incl {A} s d n (frames : list (list A)) (P : list A -> Prop) :
  Forall P frames -> Forall P (resampled s d n frames).
Proof.
  intros H. apply Forall_forall. intros fr Hfr. apply list_elem_of_omap in Hfr as (k & _ & Hk).
  exact (proj1 (Forall_lookup _ _) H _ _ Hk).
Qed.

(** The frames of the result have the wanted number of channels and stay
    within [bits] bits. *)
Lemma chain_ok bits (frames : list (list Z)) :
  chain_implemented src_format dest_format (length frames) ->
  Forall (fun fr => length fr = sc) frames -> Forall (Forall (in_bits bits)) frames ->
  Forall (fun fr => length fr = dc) (chain src_format dest_format frames) /\
  Forall (Forall (in_bits bits)) (chain src_format dest_format frames).
Proof.
  intros (Hs & Hd & Hc & _) Hf Hb. unfold chain, chain_rate.
  assert (Forall (fun fr => length fr = dc) (chain_channels src_format dest_format frames) /\
    Forall (Forall (in_bits bits)) (chain_channels src_format dest_format frames)) as [H1 H2].
  { unfold chain_channels, same_channels. destruct (Z.eqb_spec (af_channels src_format) (af_channels dest_format)) as [E|_].
    - split; [|done]. unfold dc. rewrite <- E. done.
    - apply remix_frames; [unfold sc; lia|done|done]. }
  destruct (same_rate src_format dest_format); [done|]. split; by apply resampled_incl.
Qed.

(** ** The steps *)

Lemma convert_channels_ok bits bytes int buf s (frames : list (list Z)) :
  sample_width bits bytes int -> chain_implemented src_format dest_format (length frames) ->
  in_frames sc frames buf -> Forall (in_bits bits) buf ->
  wp (convert_channels (pcm_convert_channels_any bytes int) src_format dest_format buf s) (fun '(r, s') =>
    r = Some (concat (chain_channels src_format dest_format frames)) /\
    cv_dither s' = cv_dither s /\ cv_dsd s' = cv_dsd s).
Proof.
  intros Hw (Hs & Hd & Hc & _ & Hsmall & _) Hf Hb. unfold convert_channels, chain_channels, same_channels.
  destruct (Z.eqb_spec (af_channels src_format) (af_channels dest_format)) as [E|E]; cbn [negb].
  { split; [|done]. by destruct Hf as [-> _]. }
  destruct Hc as [Hc|Hc]; [done|].
  rewrite <- (Z2Nat.id (af_channels src_format)), <- (Z2Nat.id (af_channels dest_format)) in Hc |- * by lia.
  fold sc dc in Hc |- *.
  eapply wp_bind_mono; [apply (pcm_convert_channels_any_ok bits bytes int _ dc sc frames buf); try done|].
  - unfold sc. lia.
  - unfold dc. lia.
  - destruct Hf as [-> Hf]. rewrite (concat_length _ _ Hf). unfold sc. lia.
  - intros [r b] Hr. rewrite Hc in Hr. simpl. unfold dc in *. by rewrite ?Nat2Z.id in *.
Qed.

Lemma convert_rate_ok {A} bytes buf s (frames : list (list A)) :
  (bytes = 2 \/ bytes = 4) -> chain_implemented src_format dest_format (length frames) ->
  in_frames dc frames buf ->
  wp (convert_rate (pcm_resample_fallback bytes) src_format dest_format buf s) (fun '(r, s') =>
    r = map Some (concat (chain_rate src_format dest_format frames)) /\
    length (chain_rate src_format dest_format frames) = chain_frames src_format dest_format (length frames) /\
    cv_dither s' = cv_dither s /\ cv_dsd s' = cv_dsd s).
Proof.
  intros Hw (Hs & Hd & _ & Hr & _ & Hsmall) Hf. unfold convert_rate, chain_rate, chain_frames, same_rate.
  destruct (Z.eqb_spec (af_sample_rate src_format) (af_sample_rate dest_format)) as [E|E]; cbn [negb].
  { by destruct Hf as [-> _]. }
  destruct Hr as [Hr|[Hc Hr]]; [done|].
  rewrite <- (Z2Nat.id (af_channels dest_format)) in Hr |- * by lia. fold dc in Hr |- *.
  eapply wp_bind_mono; [apply (pcm_resample_fallback_ok bytes _ dc _ _ frames buf); try done|].
  - unfold dc. lia.
  - destruct Hf as [-> Hf]. rewrite (concat_length _ _ Hf). unfold dc. lia.
  - intros [r b] [Hl Hr']. rewrite (proj2 (Nat.leb_le dc 2)) in Hr' by (unfold dc; lia). done.
Qed.

Lemma convert_rest_ok result bits bytes int buf s (frames : list (list Z)) :
  sample_width bits bytes int -> chain_implemented src_format dest_format (length frames) ->
  in_frames sc frames buf -> Forall (in_bits bits) buf ->
  wp (convert_rest result (pcm_convert_channels_any bytes int) (pcm_resample_fallback bytes)
        src_format dest_format (Some buf) s) (fun '(r, s') =>
    r = result (map Some (concat (chain src_format dest_format frames))) /\
    samples_ok bits (chain_frames src_format dest_format (length frames) * dc)
      (concat (chain src_format dest_format frames)) /\
    cv_dither s' = cv_dither s /\ cv_dsd s' = cv_dsd s).
Proof.
  intros Hw Hi Hf Hb. cbn [convert_rest].
  assert (Forall (Forall (in_bits bits)) frames) as Hbb by (destruct Hf as [-> _]; by apply Forall_concat in Hb).
  destruct (chain_ok bits frames Hi (proj2 Hf) Hbb) as [Hlen Hbits].
  eapply wp_bind_mono; [by apply (convert_channels_ok bits bytes int buf s frames)|].
  intros [r s1] (-> & Hd1 & Hs1).
  set (frs := chain_channels src_format dest_format frames) in *.
  assert (length frs = length frames) as El.
  { unfold frs, chain_channels. destruct (same_channels _ _); [done|apply length_map]. }
  eapply wp_bind_mono; [apply (convert_rate_ok bytes (concat frs) s1 frs)|].
  - by apply sample_width_int in Hw as (_ & ? & _).
  - by rewrite El.
  - split; [done|]. pose proof (chain_ok bits frames Hi (proj2 Hf) Hbb) as [H _].
    unfold frs, chain_channels, same_channels.
    destruct (Z.eqb_spec (af_channels src_format) (af_channels dest_format)) as [E|_].
    + unfold dc. rewrite <- E. apply Hf.
    + apply Forall_map, Forall_forall. intros fr _. apply length_replicate.
  - intros [r s2] (-> & Hn & Hd2 & Hs2). simpl. split; [done|]. split; [|by rewrite Hd2, Hs2].
    split; [|by apply Forall_concat]. rewrite (concat_length dc) by done.
    rewrite Nat.mul_comm. unfold chain. fold frs. by rewrite Hn, El.
Qed.
End chain.

(** ** [pcm_convert()] *)

(** The integer formats. *)
Definition integer_format (f : sample_format) : option (Z * (cells Z -> converted)) :=
  match f with
  | SAMPLE_FORMAT_S16 => Some (16, Converted16)
  | SAMPLE_FORMAT_S24_P32 => Some (24, Converted24)
  | SAMPLE_FORMAT_S32 => Some (32, Converted32)
  | _ => None
  end.

(** What is asked of the floats of a source. *)
Definition source_fits (f : sample_format) (d : pcm_data) : Prop :=
  floats_fit (match f with SAMPLE_FORMAT_S16 => 32768 | _ => 2 ^ 23 end) d.

Lemma pcm_convert_not_dsd s sf d df :
  convertible d ->
  pcm_convert s sf d df =
    match af_format df with
    | SAMPLE_FORMAT_S16 => pcm_convert_16 s sf d df
    | SAMPLE_FORMAT_S24_P32 => pcm_convert_24 s sf d df
    | SAMPLE_FORMAT_S32 => pcm_convert_32 s sf d df
    | SAMPLE_FORMAT_FLOAT => pcm_convert_float s sf d df
    | _ => Ok (NotImplemented, s)
    end.
Proof. unfold pcm_convert. by destruct d. Qed.

Section integers.
Context (sf df : audio_format) (n : nat).
Context (Hi : chain_implemented sf df n).

Lemma chain_small d : pcm_length d = (Z.to_nat (af_channels sf) * n)%nat -> small d.
Proof using Hi. destruct Hi as (? & _ & _ & _ & ? & _). unfold small. intros ->. lia. Qed.

(** Samples in the wanted format, run through the rest of the chain. *)
Lemma convert_rest_frames result bits bytes int buf s :
  sample_width bits bytes int -> samples_ok bits (Z.to_nat (af_channels sf) * n) buf ->
  wp (convert_rest result (pcm_convert_channels_any bytes int) (pcm_resample_fallback bytes) sf df (Some buf) s)
    (fun '(r, s') => cv_dither s' = cv_dither s /\ exists frames,
      in_frames (Z.to_nat (af_channels sf)) frames buf /\ length frames = n /\
      r = result (map Some (concat (chain sf df frames))) /\
      samples_ok bits (chain_frames sf df n * Z.to_nat (af_channels df)) (concat (chain sf df frames))).
Proof using Hi.
  intros Hw [Hl Hb]. destruct (in_frames_exists _ _ _ Hl) as (frames & Hf & Hn).
  eapply wp_mono; [apply (convert_rest_ok sf df result bits bytes int buf s frames); try done; by rewrite Hn|].
  intros [r s'] (Hr & Hs & Hd & _). split; [done|]. exists frames. by rewrite Hn in Hs.
Qed.

Lemma pcm_convert_integer_ok s d bits result :
  integer_format (af_format df) = Some (bits, result) ->
  pcm_valid d -> convertible d -> source_fits (af_format df) d -> dither_inv (cv_dither s) ->
  pcm_length d = (Z.to_nat (af_channels sf) * n)%nat ->
  wp (pcm_convert s sf d df) (fun '(r, s') => dither_inv (cv_dither s') /\ exists buf frames,
    in_width bits d buf /\ in_frames (Z.to_nat (af_channels sf)) frames buf /\ length frames = n /\
    r = result (map Some (concat (chain sf df frames))) /\
    samples_ok bits (chain_frames sf df n * Z.to_nat (af_channels df)) (concat (chain sf df frames))).
Proof using Hi.
  intros Hf Hd Hc Hfit Hdi Hlen. pose proof (chain_small d Hlen) as Hs.
  rewrite pcm_convert_not_dsd by done. destruct (af_format df) eqn:E; try done; cbn [integer_format] in Hf;
    injection Hf as <- <-.
  - unfold pcm_convert_16. rewrite E. apply wp_bind, wp_assert; [done|].
    destruct (wp_inv _ _ (pcm_convert_to_16_ok (cv_format_buffer s) _ d Hd Hc Hs Hfit Hdi))
      as ([[r b] dt] & -> & Hdt & l & -> & Hl & Hwd). cbn [mbind res_bind]. rewrite Hlen in Hl.
    eapply wp_mono; [apply (convert_rest_frames _ _ _ _ _ _ width_16 Hl)|].
    intros [r s'] (Hds & frames & H). split; [by rewrite Hds|]. by exists l, frames.
  - unfold pcm_convert_24. rewrite E. apply wp_bind, wp_assert; [done|].
    destruct (wp_inv _ _ (pcm_convert_to_24_ok (cv_format_buffer s) d Hd Hc Hs Hfit)) as ([r b] & -> & l & -> & Hl & Hwd).
    cbn [mbind res_bind]. rewrite Hlen in Hl.
    eapply wp_mono; [apply (convert_rest_frames _ _ _ _ _ _ width_24 Hl)|].
    intros [r s'] (Hds & frames & H). split; [by rewrite Hds|]. by exists l, frames.
  - unfold pcm_convert_32. rewrite E. apply wp_bind, wp_assert; [done|].
    destruct (wp_inv _ _ (pcm_convert_to_32_ok (cv_format_buffer s) d Hd Hc Hs Hfit)) as ([r b] & -> & l & -> & Hl & Hwd).
    cbn [mbind res_bind]. rewrite Hlen in Hl.
    eapply wp_mono; [apply (convert_rest_frames _ _ _ _ _ _ width_32 Hl)|].
    intros [r s'] (Hds & frames & H). split; [by rewrite Hds|]. by exists l, frames.
Qed.
End integers.

(** ** Conversion to floats *)

(** Only three formats can be remixed before they are converted. *)
Definition remixable (d : pcm_data) : bool :=
  match d with PcmS16 _ | PcmS24 _ | PcmS32 _ => true | _ => false end.

Lemma remixed_samples bits bytes int b (dc sc n : nat) l :
  sample_width bits bytes int -> (0 < sc <= 255)%nat -> (dc <= 255)%nat ->
  remix_implemented (Z.of_nat sc) (Z.of_nat dc) = true ->
  samples_ok bits (sc * n) l -> Z.of_nat (length l) < 2 ^ 32 ->
  wp (pcm_convert_channels_any bytes int b (Z.of_nat dc) (Z.of_nat sc) l) (fun '(r, _) =>
    exists l', r = Some l' /\ samples_ok bits (dc * n) l').
Proof.
  intros Hw Hsc Hdc Him [Hl Hb] Hs. destruct (in_frames_exists _ _ _ Hl) as (frames & Hf & Hn).
  eapply wp_mono; [by apply (pcm_convert_channels_any_ok bits bytes int b dc sc frames l)|].
  intros [r b'] Hr. rewrite Him in Hr. subst r. eexists. split; [done|].
  assert (Forall (Forall (in_bits bits)) frames) as Hbb by (destruct Hf as [-> _]; by apply Forall_concat in Hb).
  split.
  - rewrite (concat_length dc), length_map, Hn; [done|].
    apply Forall_map, Forall_forall. intros fr _. apply length_replicate.
  - apply Forall_concat, Forall_map, Forall_forall. intros fr Hfr. apply remix_in_bits.
    + destruct Hf as [_ Hf]. rewrite Forall_forall in Hf. apply Hf in Hfr. destruct fr; [simpl in Hfr; lia|done].
    + rewrite Forall_forall in Hbb. auto.
Qed.

Lemma pcm_convert_channels_ok b (dc sc n : nat) d :
  remixable d = true -> pcm_valid d -> small d -> pcm_length d = (sc * n)%nat ->
  (0 < sc <= 255)%nat -> (dc <= 255)%nat -> remix_implemented (Z.of_nat sc) (Z.of_nat dc) = true ->
  wp (pcm_convert_channels b (Z.of_nat dc) (Z.of_nat sc) d) (fun '(r, _) =>
    exists d', r = Some d' /\ remixable d' = true /\ pcm_valid d' /\ pcm_length d' = (dc * n)%nat).
Proof.
  intros Hr Hd Hs Hl Hsc Hdc Him. destruct d as [l|l|l|l|l|l|l]; try done; cbn [pcm_convert_channels].
  - eapply wp_bind_mono; [by apply (remixed_samples 16 2 int32 _ dc sc n l width_16)|].
    intros [r b'] (l' & -> & Hl' & Hb'). simpl. by exists (PcmS16 l').
  - eapply wp_bind_mono; [by apply (remixed_samples 24 4 int32 _ dc sc n l width_24)|].
    intros [r b'] (l' & -> & Hl' & Hb'). simpl. by exists (PcmS24 l').
  - eapply wp_bind_mono; [by apply (remixed_samples 32 4 int64 _ dc sc n l width_32)|].
    intros [r b'] (l' & -> & Hl' & Hb'). simpl. by exists (PcmS32 l').
Qed.

(** The end of the conversion: floats, then the sample rate. *)
Lemma float_rest_ok sf df n s d :
  chain_implemented sf df n -> convertible d -> pcm_length d = (Z.to_nat (af_channels df) * n)%nat ->
  wp ('(buf, b) ← pcm_convert_to_float (cv_format_buffer s) d;
      let s := cv_set_dither b (cv_dither s) s in
      match buf with
      | None => Ok (NotImplemented, s)
      | Some buf =>
          '(buf, s) ← convert_rate pcm_resample_fallback_32 sf df buf s;
          Ok (ConvertedFloat buf, s)
      end) (fun '(r, s') => cv_dither s' = cv_dither s /\ exists l, r = ConvertedFloat (map Some l) /\
    length l = (chain_frames sf df n * Z.to_nat (af_channels df))%nat).
Proof.
  intros Hi Hc Hl. assert (small d) as Hs by (destruct Hi as (? & ? & _ & _ & _ & ?); unfold small; lia).
  eapply wp_bind_mono; [by apply pcm_convert_to_float_ok|]. intros [r b] (l & -> & Hll).
  rewrite Hl in Hll. destruct (in_frames_exists _ _ _ Hll) as (frames & Hf & Hn).
  assert (pcm_resample_fallback_32 = @pcm_resample_fallback float 4) as -> by done.
  eapply wp_bind_mono; [apply (convert_rate_ok sf df 4 l _ frames); [by right|by rewrite Hn|done]|].
  intros [r s'] (-> & Hlen & Hd & _). simpl. split; [done|]. eexists. split; [done|].
  rewrite Hn in Hlen. rewrite (concat_length (Z.to_nat (af_channels df))); [rewrite Hlen; lia|].
  unfold chain_rate. destruct (same_rate sf df); [apply Hf|apply resampled_incl, Hf].
Qed.

Lemma remixable_convertible d : remixable d = true -> convertible d.
Proof. by destruct d. Qed.

Lemma pcm_convert_float_ok sf df n s d :
  chain_implemented sf df n -> af_format df = SAMPLE_FORMAT_FLOAT -> pcm_valid d -> convertible d ->
  (af_channels sf = af_channels df \/ remixable d = true) ->
  pcm_length d = (Z.to_nat (af_channels sf) * n)%nat ->
  wp (pcm_convert s sf d df) (fun '(r, s') => cv_dither s' = cv_dither s /\
    exists l, r = ConvertedFloat (map Some l) /\
      length l = (chain_frames sf df n * Z.to_nat (af_channels df))%nat).
Proof.
  intros Hi Hf Hd Hc Hr Hl. rewrite pcm_convert_not_dsd, Hf by done.
  pose proof (chain_small sf df n Hi d Hl) as Hs. pose proof Hi as (Hsc & Hdc & Him & _).
  unfold pcm_convert_float. rewrite Hf. apply wp_bind, wp_assert; [done|].
  destruct (Z.eqb_spec (af_channels df) (af_channels sf)) as [E|E]; cbn [negb].
  { apply float_rest_ok; [done|done|]. by rewrite E. }
  destruct Hr as [Hr|Hr]; [by destruct E|]. destruct Him as [Him|Him]; [by destruct E|].
  pose proof (pcm_convert_channels_ok (cv_channels_buffer s) (Z.to_nat (af_channels df))
    (Z.to_nat (af_channels sf)) n d Hr Hd Hs Hl ltac:(lia) ltac:(lia)) as H.
  rewrite !Z2Nat.id in H by lia. specialize (H Him).
  destruct (wp_inv _ _ H) as ([r b] & -> & d' & -> & Hr' & Hd' & Hl').
  cbn [mbind res_bind]. apply (float_rest_ok sf df n (cv_set_channels b s) d' Hi); [|done].
  by apply remixable_convertible.
Qed.
