(* ===== verification/PcmDsdProofs.v ===== *)
(** * DSD to PCM: proofs

    The ring buffer of [src/pcm/dsd2pcm.c] implements a symmetric filter over
    the most recent bytes; the converter of [src/pcm/pcm_dsd.c] runs one
    filter for each channel. *)

From S2P Require Import Prelude Float AudioFormat Strtod Pcm PcmConvert PcmFrames.
Local Open Scope Z_scope.

(** ** Bits *)

(** The bits of a byte, in reverse order. *)
Definition rev8 (x : Z) : Z :=
  zsum (map (fun i => if Z.testbit x i then 2 ^ (7 - i) else 0) [0; 1; 2; 3; 4; 5; 6; 7]).

Definition is_byte (x : Z) : Prop := 0 <= x < 256.

Lemma bytes_forall (P : Z -> bool) :
  forallb P (map Z.of_nat (seq 0 256)) = true -> forall x, is_byte x -> P x = true.
Proof.
  intros H x Hx. rewrite forallb_forall in H. apply H, in_map_iff.
  exists (Z.to_nat x). split; [unfold is_byte in Hx; lia|]. apply in_seq. unfold is_byte in Hx. lia.
Qed.

Lemma bit_reverse_ok x : is_byte x -> bit_reverse x = Ok (rev8 x).
Proof.
  intros Hx. pose proof (bytes_forall (fun x => match bit_reverse x with Ok y => y =? rev8 x | _ => false end)
    ltac:(by vm_compute) x Hx) as H. simpl in H.
  destruct (bit_reverse x) as [y|]; [|done]. by apply Z.eqb_eq in H as ->.
Qed.

Lemma rev8_byte x : is_byte x -> is_byte (rev8 x).
Proof.
  intros Hx. pose proof (bytes_forall (fun x => (0 <=? rev8 x) && (rev8 x <? 256)) ltac:(by vm_compute) x Hx) as H.
  apply andb_prop in H as [H1 H2]. apply Z.leb_le in H1. apply Z.ltb_lt in H2. done.
Qed.

Lemma rev8_testbit x i : is_byte x -> 0 <= i < 8 -> Z.testbit (rev8 x) i = Z.testbit x (7 - i).
Proof.
  intros Hx Hi.
  pose proof (bytes_forall (fun x => forallb (fun i => eqb (Z.testbit (rev8 x) i) (Z.testbit x (7 - i)))
    [0; 1; 2; 3; 4; 5; 6; 7]) ltac:(by vm_compute) x Hx) as H.
  rewrite forallb_forall in H. apply eqb_prop, H.
  assert (i = 0 \/ i = 1 \/ i = 2 \/ i = 3 \/ i = 4 \/ i = 5 \/ i = 6 \/ i = 7) as E by lia.
  simpl. naive_solver.
Qed.

Lemma land_255_byte x : is_byte x -> Z.land x 0xff = x.
Proof. intros Hx. change 0xff with (Z.ones 8). rewrite Z.land_ones by lia. by apply Z.mod_small. Qed.

(** ** The tables *)

Definition table (i e : Z) : float := ctable_entry (Z.to_nat (5 - i)) e.

Lemma ctable_ok i e : 0 <= i < 6 -> is_byte e -> ctable i e = Ok (table i e).
Proof.
  intros Hi He. unfold ctable, table. unfold is_byte in He.
  assert (ctables !! Z.to_nat i =
    Some (map (fun e => ctable_entry (Z.to_nat (5 - i)) (Z.of_nat e)) (seq 0 256))) as H.
  { unfold ctables. change (Z.to_nat CTABLES) with 6%nat. change (rev (seq 0 6)) with [5; 4; 3; 2; 1; 0]%nat.
    assert (i = 0 \/ i = 1 \/ i = 2 \/ i = 3 \/ i = 4 \/ i = 5) as E by lia.
    by destruct E as [->|[->|[->|[->|[->| ->]]]]]. }
  rewrite <- (Z2Nat.id i) at 1 by lia. rewrite (sget_ok _ _ _ H). cbn [mbind res_bind].
  rewrite <- (Z2Nat.id e) at 1 by lia. rewrite (sget_ok _ _ (ctable_entry (Z.to_nat (5 - i)) e)); [done|].
  change (map (fun e0 => ctable_entry (Z.to_nat (5 - i)) (Z.of_nat e0)) (seq 0 256)) with
    ((fun e0 => ctable_entry (Z.to_nat (5 - i)) (Z.of_nat e0)) <$> seq 0 256).
  rewrite list_lookup_fmap, lookup_seq_lt by lia. simpl. by rewrite Z2Nat.id by lia.
Qed.

(** ** The filter

    [h] holds the most recent bytes, the last one first. *)

Definition filter_tap (h : list Z) (acc : double) (i : nat) : double :=
  f64_add acc (f64_of_f32 (f32_add (table (Z.of_nat i) (nth i h 0))
                                   (table (Z.of_nat i) (rev8 (nth (11 - i) h 0))))).
Definition filter_output (h : list Z) : float :=
  f32_of_f64 (foldl (filter_tap h) (S754_zero false) (seq 0 6)).

(** One byte, in the order in which its bits are played. *)
Definition filter_byte (lsbf : bool) (byte : Z) (h : list Z) : float * list Z :=
  let h := take 16 ((if lsbf then rev8 byte else byte) :: h) in (filter_output h, h).

Fixpoint filter_bytes (lsbf : bool) (src : list Z) (h : list Z) : list float * list Z :=
  match src with
  | [] => ([], h)
  | x :: src =>
      let '(y, h) := filter_byte lsbf x h in
      let '(ys, h) := filter_bytes lsbf src h in (y :: ys, h)
  end.

(** Silence. *)
Definition filter_init : list Z := replicate 6 0x69 ++ replicate 10 (rev8 0x69).

(** ** The ring buffer *)

Definition ring (pos : Z) (j : nat) : Z := (pos - 1 - Z.of_nat j) `mod` 16.

(** The bytes that are older than six are reversed. *)
Definition ring_holds (f : list Z) (pos : Z) (h : list Z) : Prop :=
  length f = 16%nat /\ 0 <= pos < 16 /\ length h = 16%nat /\ Forall is_byte h /\
  forall j x, h !! j = Some x -> f !! Z.to_nat (ring pos j) = Some (if (j <? 6)%nat then x else rev8 x).

Definition dsd2pcm_inv (ctx : dsd2pcm_ctx) (h : list Z) : Prop := ring_holds (fifo ctx) (fifopos ctx) h.

Lemma dsd2pcm_reset_inv : dsd2pcm_inv dsd2pcm_reset filter_init.
Proof.
  unfold dsd2pcm_inv, ring_holds. split_and!; [done|done|done|done| |].
  - apply Forall_app. split; apply Forall_replicate; unfold is_byte; by vm_compute.
  - intros j x Hj. pose proof (lookup_lt_Some _ _ _ Hj) as Hlt. change (length filter_init) with 16%nat in Hlt.
    do 16 (destruct j as [|j]; [vm_compute in Hj; injection Hj as <-; by vm_compute|]). lia.
Qed.

(** A position of the source program, as that of a byte of [h]. *)
Lemma ring_land x pos (j : nat) :
  x = pos - Z.of_nat j -> Z.land (u32 x) FIFOMASK = ring (pos + 1) j.
Proof.
  intros ->. change FIFOMASK with (Z.ones 4). rewrite Z.land_ones by lia. unfold u32, ring.
  change (2 ^ 32) with (2 ^ 4 * 2 ^ 28). rewrite Z.rem_mul_r by lia.
  rewrite Z.mul_comm, Z.mod_add by lia. rewrite Z.mod_mod by lia. change (2 ^ 4) with 16. f_equal. lia.
Qed.

Lemma ring_mod pos j : ring (pos `mod` 16) j = ring pos j.
Proof. unfold ring. rewrite <- !Z.sub_add_distr. by rewrite Zminus_mod_idemp_l. Qed.

Lemma ring_next pos j : ring (pos + 1) (S j) = ring pos j.
Proof. unfold ring. f_equal. lia. Qed.

Lemma ring_bound pos j : 0 <= ring pos j < 16.
Proof. unfold ring. apply Z.mod_pos_bound. lia. Qed.

Lemma ring_inj pos i j : (i < 16)%nat -> (j < 16)%nat -> ring pos i = ring pos j -> i = j.
Proof. unfold ring. intros. Z.to_euclidean_division_equations. lia. Qed.

Lemma sget_Z {A} (l : list A) i x : 0 <= i -> l !! Z.to_nat i = Some x -> sget l i = Ok x.
Proof. intros Hi Hx. rewrite <- (Z2Nat.id i) by done. by apply sget_ok. Qed.

Lemma fifo_set_ok l i x : length l = 16%nat -> 0 <= i < 16 -> fifo_set l i x = Ok (<[Z.to_nat i := x]> l).
Proof.
  intros Hl Hi. unfold fifo_set. rewrite Hl.
  by rewrite (proj2 (Z.leb_le _ _)), (proj2 (Z.ltb_lt _ _)) by lia.
Qed.

(** Storing a byte and reversing the one that leaves the first half. *)
Lemma ring_push f pos h b y :
  ring_holds f pos h -> is_byte b -> nth 5 h 0 = y ->
  ring_holds (<[Z.to_nat (ring (pos + 1) 6) := rev8 y]> (<[Z.to_nat pos := b]> f)) ((pos + 1) `mod` 16)
    (take 16 (b :: h)).
Proof.
  intros (Hf & Hp & Hh & Hb & Hr) Hbb Hy. unfold ring_holds. rewrite !length_insert.
  split_and!; [done| | | | |].
  - apply Z.mod_pos_bound. lia.
  - apply Z.mod_pos_bound. lia.
  - rewrite length_take. cbn [length]. lia.
  - apply Forall_take. by constructor.
  - intros j x Hj. apply lookup_take_Some in Hj as [Hj Hlt]. rewrite ring_mod.
    assert (pos = ring (pos + 1) 0) as Epos by (unfold ring; rewrite Z.mod_small; lia).
    pose proof (ring_bound (pos + 1) j). pose proof (ring_bound (pos + 1) 6).
    destruct (decide (j = 6%nat)) as [->|H6].
    { rewrite list_lookup_insert_eq by (rewrite length_insert; lia). simpl in Hj.
      rewrite <- Hy. by rewrite (nth_lookup_Some _ _ _ _ Hj). }
    rewrite list_lookup_insert_ne.
    2: { intros E. apply H6. apply (ring_inj (pos + 1)); lia. }
    destruct j as [|j].
    { simpl in Hj. injection Hj as ->. rewrite <- Epos. apply list_lookup_insert_eq. lia. }
    rewrite list_lookup_insert_ne.
    2: { intros E. pose proof (ring_inj (pos + 1) 0 (S j)). lia. }
    simpl in Hj. rewrite ring_next. rewrite (Hr _ _ Hj).
    destruct (Nat.ltb_spec j 6), (Nat.ltb_spec (S j) 6); (done || lia).
Qed.

Lemma filter_tap_ok f pos h i acc :
  ring_holds f ((pos + 1) `mod` 16) h -> (i < 6)%nat ->
  dsd2pcm_tap f pos (Z.of_nat i) acc = Ok (filter_tap h acc i).
Proof.
  intros (Hf & Hp & Hh & Hb & Hr) Hi. unfold dsd2pcm_tap.
  destruct (lookup_lt_is_Some_2 h i) as [x Hx]; [lia|].
  destruct (lookup_lt_is_Some_2 h (11 - i)%nat) as [y Hy]; [lia|].
  pose proof (Hr _ _ Hx) as Hxf. pose proof (Hr _ _ Hy) as Hyf. rewrite ring_mod in Hxf, Hyf.
  rewrite (proj2 (Nat.ltb_lt _ _)) in Hxf by lia. rewrite (proj2 (Nat.ltb_ge _ _)) in Hyf by lia.
  pose proof (proj1 (Forall_lookup _ _) Hb _ _ Hx) as Hxb.
  pose proof (proj1 (Forall_lookup _ _) Hb _ _ Hy) as Hyb.
  rewrite (ring_land (pos - Z.of_nat i) pos i) by done.
  rewrite (sget_Z f (ring (pos + 1) i) x) by (apply ring_bound || done). cbn [mbind res_bind].
  assert (u32 (u32 (pos - (CTABLES * 2 - 1)) + Z.of_nat i) = u32 (pos - (11 - Z.of_nat i))) as ->.
  { unfold u32. rewrite Z.add_mod_idemp_l by lia. f_equal. change (CTABLES * 2 - 1) with 11. lia. }
  rewrite (ring_land _ pos (11 - i)) by lia.
  rewrite (sget_Z f (ring (pos + 1) (11 - i)) (rev8 y)) by (apply ring_bound || done). cbn [mbind res_bind].
  pose proof (rev8_byte _ Hyb). rewrite !land_255_byte by done.
  rewrite !ctable_ok by (done || lia). cbn [mbind res_bind]. unfold filter_tap.
  by rewrite (nth_lookup_Some _ _ _ _ Hx), (nth_lookup_Some _ _ _ _ Hy).
Qed.

Lemma dsd2pcm_byte_ok lsbf byte ctx h :
  dsd2pcm_inv ctx h -> is_byte byte ->
  exists ctx', dsd2pcm_byte lsbf byte ctx = Ok ((filter_byte lsbf byte h).1, ctx') /\
    dsd2pcm_inv ctx' (filter_byte lsbf byte h).2.
Proof.
  intros Hinv Hb. destruct ctx as [f pos]. unfold dsd2pcm_inv in Hinv. cbn [fifo fifopos] in Hinv.
  unfold dsd2pcm_byte. cbn [fifo fifopos]. cbv zeta. rewrite land_255_byte by done.
  set (b := if lsbf then rev8 byte else byte).
  assert ((if lsbf then bit_reverse byte else Ok byte) = Ok b) as ->.
  { destruct lsbf; [by apply bit_reverse_ok|done]. }
  assert (is_byte b) as Hbb by (subst b; destruct lsbf; [by apply rev8_byte|done]).
  pose proof Hinv as (Hf & Hp & Hh & Hbs & Hr).
  destruct (lookup_lt_is_Some_2 h 5) as [y Hy]; [lia|].
  pose proof (proj1 (Forall_lookup _ _) Hbs _ _ Hy) as Hyb.
  pose proof (ring_push f pos h b y Hinv Hbb (nth_lookup_Some _ _ _ _ Hy)) as Hnew.
  cbn [mbind res_bind]. rewrite fifo_set_ok by done. cbn [mbind res_bind].
  rewrite (ring_land (pos - CTABLES) pos 6) by done.
  rewrite (sget_Z _ _ y).
  2: apply ring_bound.
  2: { rewrite list_lookup_insert_ne.
       - rewrite ring_next. apply (Hr _ _ Hy).
       - pose proof (ring_bound (pos + 1) 6).
         intros E. assert (ring (pos + 1) 6 = pos) as E' by lia. unfold ring in E'.
         Z.to_euclidean_division_equations. lia. }
  cbn [mbind res_bind]. rewrite bit_reverse_ok by done. cbn [mbind res_bind].
  rewrite fifo_set_ok by (rewrite ?length_insert; (done || apply ring_bound)). cbn [mbind res_bind].
  unfold for_range. change (Z.to_nat (CTABLES - 0)) with 6%nat. cbn [for_up].
  rewrite (filter_tap_ok _ _ _ 0 _ Hnew) by lia. cbn [mbind res_bind].
  rewrite (filter_tap_ok _ _ _ 1 _ Hnew) by lia. cbn [mbind res_bind].
  rewrite (filter_tap_ok _ _ _ 2 _ Hnew) by lia. cbn [mbind res_bind].
  rewrite (filter_tap_ok _ _ _ 3 _ Hnew) by lia. cbn [mbind res_bind].
  rewrite (filter_tap_ok _ _ _ 4 _ Hnew) by lia. cbn [mbind res_bind].
  rewrite (filter_tap_ok _ _ _ 5 _ Hnew) by lia. cbn [mbind res_bind].
  unfold filter_byte. cbv zeta. fold b. cbn [fst snd]. unfold filter_output. cbn [foldl seq].
  eexists. split; [reflexivity|]. unfold dsd2pcm_inv. cbn [fifo fifopos].
  assert (Z.land (u32 (pos + 1)) FIFOMASK = (pos + 1) `mod` 16) as ->.
  { change FIFOMASK with (Z.ones 4). rewrite Z.land_ones by lia. unfold u32.
    by rewrite (Z.mod_small (pos + 1) (2 ^ 32)) by lia. }
  exact Hnew.
Qed.

Lemma dsd2pcm_translate_ok lsbf src ctx h :
  dsd2pcm_inv ctx h -> Forall is_byte src ->
  exists ctx', dsd2pcm_translate lsbf src ctx = Ok ((filter_bytes lsbf src h).1, ctx') /\
    dsd2pcm_inv ctx' (filter_bytes lsbf src h).2.
Proof.
  intros Hinv Hb. revert ctx h Hinv. unfold dsd2pcm_translate.
  induction Hb as [|x src Hx _ IH]; intros ctx h Hinv; cbn [map_samples filter_bytes]; [by eexists|].
  destruct (dsd2pcm_byte_ok lsbf x ctx h Hinv Hx) as (ctx1 & -> & H1). cbn [mbind res_bind].
  destruct (filter_byte lsbf x h) as [y h1]. cbn [fst snd] in *.
  destruct (IH _ _ H1) as (ctx2 & -> & H2). cbn [mbind res_bind].
  destruct (filter_bytes lsbf src h1) as [ys h2]. by eexists.
Qed.

(** ** All channels *)

Definition ctx_holds (ctx : option dsd2pcm_ctx) (h : list Z) : Prop :=
  match ctx with None => h = filter_init | Some ctx => dsd2pcm_inv ctx h end.

(** [hs] holds the history of each channel. *)
Definition dsd_inv (dsd : pcm_dsd) (hs : list (list Z)) : Prop :=
  length hs = 32%nat /\ Forall2 ctx_holds (dsd_ctxs dsd) hs.

(** What channel [c] plays. *)
Definition channel_output (lsbf : bool) (channels frames : nat) (src : list Z) (hs : list (list Z)) (c : nat)
  : list float * list Z :=
  filter_bytes lsbf (strided channels c frames src) (nth c hs []).

(** The channels [k] to [k + m - 1] have played. *)
Definition histories (lsbf : bool) (channels frames : nat) (src : list Z) (k m : nat) (hs : list (list Z))
  : list (list Z) :=
  imap (fun c h => if (k <=? c)%nat && (c <? k + m)%nat
                   then (filter_bytes lsbf (strided channels c frames src) h).2 else h) hs.

Lemma pcm_dsd_init_inv : dsd_inv pcm_dsd_init (replicate 32 filter_init).
Proof.
  split; [done|]. apply Forall2_same_length_lookup. split; [done|].
  intros i x y Hx Hy. apply lookup_replicate in Hx as [-> _], Hy as [-> _]. done.
Qed.

(** After a reset every channel starts from silence again. *)
Lemma pcm_dsd_reset_inv dsd hs : dsd_inv dsd hs -> dsd_inv (pcm_dsd_reset dsd) (replicate 32 filter_init).
Proof.
  intros [Hl Hi]. split; [done|]. apply Forall2_same_length_lookup. unfold pcm_dsd_reset. cbn [dsd_ctxs].
  split; [rewrite length_map, length_replicate; apply Forall2_length in Hi; lia|].
  intros i x y Hx Hy. apply lookup_replicate in Hy as [-> _].
  change (map (option_map (fun _ => dsd2pcm_reset)) (dsd_ctxs dsd)) with
    (option_map (fun _ => dsd2pcm_reset) <$> dsd_ctxs dsd) in Hx.
  rewrite list_lookup_fmap in Hx. destruct (dsd_ctxs dsd !! i) as [[c|]|]; [| |done]; injection Hx as <-;
    [apply dsd2pcm_reset_inv|done].
Qed.

Lemma strided_bytes channels c frames src : Forall is_byte src -> Forall is_byte (strided channels c frames src).
Proof.
  intros Hb. unfold strided. apply Forall_forall. intros x Hx. apply list_elem_of_omap in Hx as (k & _ & Hk).
  exact (proj1 (Forall_lookup _ _) Hb _ _ Hk).
Qed.

Lemma filter_bytes_length lsbf src h : length (filter_bytes lsbf src h).1 = length src.
Proof.
  revert h. induction src as [|x src IH]; intros h; [done|]. cbn [filter_bytes].
  destruct (filter_byte lsbf x h) as [y h1]. specialize (IH h1).
  destruct (filter_bytes lsbf src h1) as [ys h2]. simpl in *. lia.
Qed.

Lemma histories_step lsbf channels frames src k m hs h :
  hs !! k = Some h ->
  histories lsbf channels frames src (S k) m
    (<[k := (filter_bytes lsbf (strided channels k frames src) h).2]> hs) =
  histories lsbf channels frames src k (S m) hs.
Proof.
  intros Hk. pose proof (lookup_lt_Some _ _ _ Hk) as Hlt. unfold histories. apply list_eq. intros i.
  rewrite !list_lookup_imap. destruct (decide (i = k)) as [->|Hne].
  - rewrite list_lookup_insert_eq by done. rewrite Hk. cbn [fmap option_fmap option_map].
    by rewrite (proj2 (Nat.leb_gt (S k) k)), (proj2 (Nat.leb_le k k)), (proj2 (Nat.ltb_lt k (k + S m))) by lia.
  - rewrite list_lookup_insert_ne by done. destruct (hs !! i); [|done]. cbn [fmap option_fmap option_map]. f_equal.
    assert (((S k <=? i)%nat && (i <? S k + m)%nat) = ((k <=? i)%nat && (i <? k + S m)%nat)) as ->; [|done].
    destruct (Nat.leb_spec (S k) i), (Nat.ltb_spec i (S k + m)), (Nat.leb_spec k i), (Nat.ltb_spec i (k + S m));
      (done || lia).
Qed.

Lemma pcm_dsd_channel_ok lsbf channels frames src k ctxs hs h :
  Forall is_byte src -> Forall2 ctx_holds ctxs hs -> hs !! k = Some h ->
  exists ctx', pcm_dsd_channel lsbf channels frames src k ctxs =
    Ok ((channel_output lsbf channels frames src hs k).1, <[k := Some ctx']> ctxs) /\
    dsd2pcm_inv ctx' (channel_output lsbf channels frames src hs k).2.
Proof.
  intros Hb Hi Hh. unfold channel_output. rewrite (nth_lookup_Some _ _ _ _ Hh).
  destruct (Forall2_lookup_r _ _ _ _ _ Hi Hh) as (c & Hc & Hch).
  unfold pcm_dsd_channel. rewrite Hc.
  set (ctx := match c with Some ctx => ctx | None => dsd2pcm_reset end).
  assert (dsd2pcm_inv ctx h) as Hinv.
  { subst ctx. destruct c as [c|]; [done|]. simpl in Hch. subst h. apply dsd2pcm_reset_inv. }
  destruct (dsd2pcm_translate_ok lsbf (strided channels k frames src) ctx h Hinv
    (strided_bytes _ _ _ _ Hb)) as (ctx' & -> & Hinv'). by exists ctx'.
Qed.

Lemma pcm_dsd_channels_ok lsbf channels frames src k m ctxs hs :
  Forall is_byte src -> Forall2 ctx_holds ctxs hs -> (k + m <= length hs)%nat ->
  exists ctxs', map_samples (pcm_dsd_channel lsbf channels frames src) (seq k m) ctxs =
    Ok (map (fun c => (channel_output lsbf channels frames src hs c).1) (seq k m), ctxs') /\
    Forall2 ctx_holds ctxs' (histories lsbf channels frames src k m hs).
Proof.
  intros Hb. revert k ctxs hs. induction m as [|m IH]; intros k ctxs hs Hi Hl.
  { exists ctxs. split; [done|]. replace (histories lsbf channels frames src k 0 hs) with hs; [done|].
    unfold histories. apply list_eq. intros i. rewrite list_lookup_imap. destruct (hs !! i); [|done].
    cbn [fmap option_fmap option_map]. destruct (Nat.leb_spec k i), (Nat.ltb_spec i (k + 0)); (done || lia). }
  cbn [seq map_samples map].
  destruct (lookup_lt_is_Some_2 hs k) as [h Hh]; [lia|].
  destruct (pcm_dsd_channel_ok lsbf channels frames src k ctxs hs h Hb Hi Hh) as (ctx' & -> & Hinv').
  cbn [mbind res_bind]. unfold channel_output in Hinv'. rewrite (nth_lookup_Some _ _ _ _ Hh) in Hinv'.
  set (h' := (filter_bytes lsbf (strided channels k frames src) h).2) in *.
  destruct (IH (S k) (<[k := Some ctx']> ctxs) (<[k := h']> hs)) as (ctxs' & -> & Hi').
  { by apply Forall2_insert. }
  { rewrite length_insert. lia. }
  cbn [mbind res_bind]. exists ctxs'. split.
  - do 3 f_equal. apply map_ext_in. intros c' Hc'. apply in_seq in Hc'. unfold channel_output. do 2 f_equal.
    rewrite !nth_lookup. rewrite list_lookup_insert_ne by lia. done.
  - subst h'. by rewrite histories_step in Hi' by done.
Qed.

Lemma pcm_dsd_to_float_ok dsd hs channels lsbf frames src :
  dsd_inv dsd hs -> (0 < channels <= 32)%nat -> in_frames channels frames src -> frames <> [] ->
  Forall is_byte src -> Z.of_nat (length src) < 2 ^ 32 ->
  wp (pcm_dsd_to_float dsd (Z.of_nat channels) lsbf src) (fun '(r, dsd') =>
    r = interleave (length frames) (map (fun c => (channel_output lsbf channels (length frames) src hs c).1)
                                      (seq 0 channels)) /\
    dsd_inv dsd' (histories lsbf channels (length frames) src 0 channels hs)).
Proof.
  intros [Hl Hi] Hc [-> Hf] Hne Hb Hs. pose proof (concat_length _ _ Hf) as Hlen.
  assert (0 < length frames)%nat by (destruct frames; simpl; [done|lia]).
  assert (Z.of_nat (channels * length frames) = Z.of_nat (length frames) * Z.of_nat channels) as E by lia.
  pose proof (Forall2_length _ _ _ Hi) as Hctx. unfold pcm_dsd_to_float. cbv zeta. rewrite Hlen in *. rewrite E in *.
  apply wp_bind, wp_assert; [apply Z.ltb_lt; nia|]. rewrite (proj2 (Z.eqb_neq _ 0)) by lia.
  apply wp_bind, wp_assert; [apply Z.eqb_eq, Z.mod_mul; lia|].
  apply wp_bind, wp_assert; [apply Z.leb_le; lia|].
  apply pcm_buffer_bind; [unfold u32; rewrite Z.mod_small by nia; nia|]. intros b.
  rewrite Z.div_mul by lia. unfold u32. rewrite (Z.mod_small (Z.of_nat (length frames))) by nia.
  rewrite !Nat2Z.id.
  destruct (pcm_dsd_channels_ok lsbf channels (length frames) (concat frames) 0 channels _ _ Hb Hi)
    as (ctxs' & -> & Hi'); [lia|].
  cbn [mbind res_bind wp]. split; [done|]. split; [|done]. unfold histories. by rewrite length_imap.
Qed.

(** Every frame of the source gives one of the result. *)
Lemma strided_frames channels c frames :
  Forall (fun fr => length fr = channels) frames -> (c < channels)%nat ->
  strided channels c (length frames) (concat frames) = map (fun fr : list Z => nth c fr 0) frames.
Proof.
  intros Hf Hc. unfold strided.
  assert (forall k frs, Forall (fun fr => length fr = channels) frs ->
    (forall j, (j < length frs)%nat -> frames !! (k + j)%nat = frs !! j) ->
    omap (fun k => concat frames !! (c + k * channels)%nat) (seq k (length frs)) =
    map (fun fr : list Z => nth c fr 0) frs) as H; [|by apply (H 0%nat)].
  intros k frs Hfrs. revert k. induction Hfrs as [|fr frs Hfr _ IH]; intros k Hk; [done|].
  cbn [length seq omap list_omap map]. pose proof (Hk 0%nat ltac:(simpl; lia)) as H0.
  rewrite Nat.add_0_r in H0. simpl in H0.
  rewrite (Nat.add_comm c), (concat_lookup _ _ _ _ _ Hf H0 Hc).
  destruct (lookup_lt_is_Some_2 fr c) as [x Hx]; [lia|]. rewrite Hx, (nth_lookup_Some _ _ _ _ Hx). f_equal.
  apply IH. intros j Hj. pose proof (Hk (S j) ltac:(simpl; lia)) as E. cbn [lookup list_lookup] in E.
  rewrite <- Nat.add_succ_comm in E. exact E.
Qed.

Lemma interleave_length {A} n (chans : list (list A)) :
  Forall (fun ch => length ch = n) chans -> length (interleave n chans) = (n * length chans)%nat.
Proof.
  intros Hch. unfold interleave.
  rewrite (concat_length (length chans)); [by rewrite length_map, length_seq, Nat.mul_comm|].
  apply Forall_forall. intros fr Hfr. apply list_elem_of_fmap in Hfr as (k & -> & Hk).
  apply elem_of_seq in Hk. induction Hch as [|ch chans Hlen _ IH]; [done|]. simpl.
  destruct (lookup_lt_is_Some_2 ch k) as [x ->]; [lia|]. simpl. by f_equal.
Qed.
