(* ===== verification/PcmExport.v ===== *)
(** * Export of samples

    [src/pcm/pcm_pack.c], [src/util/byte_reverse.c], [src/pcm/pcm_dsd_usb.c]
    and [src/pcm/pcm_export.c].  A buffer is the list of its bytes in memory
    on a little-endian host; a byte that was not written since the buffer was
    allocated is [None]. *)

From S2P Require Import Prelude Float AudioFormat Strtod Pcm PcmConvert PcmFrames PcmDsdProofs.

Local Open Scope Z_scope.

(** ** Words in memory *)

Fixpoint le_bytes (n : nat) (x : Z) : list Z :=
  match n with O => [] | S n => Z.land x 0xff :: le_bytes n (Z.shiftr x 8) end.

Fixpoint le_word (l : list Z) : Z :=
  match l with [] => 0 | x :: l => Z.lor x (Z.shiftl (le_word l) 8) end.

(** The initialized bytes of a word; a word with a byte that is not
    initialized has no value. *)
Fixpoint all_set {A} (l : cells A) : option (list A) :=
  match l with
  | [] => Some []
  | Some x :: l => option_map (cons x) (all_set l)
  | None :: _ => None
  end.

Definition load_word (l : cells Z) : option Z := option_map le_word (all_set l).

Definition store_word (n : nat) (x : option Z) : cells Z :=
  match x with Some x => map Some (le_bytes n x) | None => replicate n None end.

(** [while (src < src_end) { f(dest, src); src += n; }] *)
Fixpoint chunk_loop {A B} (fuel n : nat) (f : list A -> res (list B)) (src : list A) : res (list B) :=
  match src with
  | [] => Ok []
  | _ =>
      match fuel with
      | O => Err OutOfFuel
      | S fuel =>
          if (length src <? n)%nat then Err OutOfBounds else
          dest ← f (take n src);
          rest ← chunk_loop fuel n f (drop n src);
          Ok (dest ++ rest)
      end
  end.

(** ** [pcm_pack.c] *)

Definition pack_sample (src : cells Z) : res (cells Z) :=
  match src with
  | b0 :: b1 :: b2 :: _ => Ok [b0; b1; b2]
  | _ => Err OutOfBounds
  end.

Definition pcm_pack_24 (src : cells Z) : res (cells Z) := chunk_loop (length src) 4 pack_sample src.

(** Extends the sign bit to the fourth byte. *)
Definition unpack_sample (src : cells Z) : res (cells Z) :=
  match src with
  | b0 :: b1 :: Some b2 :: _ =>
      Ok [b0; b1; Some b2; Some (if negb (Z.land b2 0x80 =? 0) then 0xff else 0x00)]
  | _ :: _ :: None :: _ => Err Uninitialized
  | _ => Err OutOfBounds
  end.

Definition pcm_unpack_24 (src : cells Z) : res (cells Z) := chunk_loop (length src) 3 unpack_sample src.

(** ** [byte_reverse.c] *)

(** The macros [GUINT16_SWAP_LE_BE()], [GUINT32_SWAP_LE_BE()] and
    [GUINT64_SWAP_LE_BE()] of GLib: convert between little-endian and
    big-endian. *)
Class ByteSwap := {
  swap_le_be_16 : Z -> Z;
  swap_le_be_32 : Z -> Z;
  swap_le_be_64 : Z -> Z;
}.

Section byte_reverse.
Context `{BS : ByteSwap}.

Definition swap_word (n : nat) (swap : Z -> Z) (src : cells Z) : res (cells Z) :=
  Ok (store_word n (option_map swap (load_word src))).

Definition reverse_bytes_16 (src : cells Z) : res (cells Z) :=
  chunk_loop (length src) 2 (swap_word 2 swap_le_be_16) src.
Definition reverse_bytes_32 (src : cells Z) : res (cells Z) :=
  chunk_loop (length src) 4 (swap_word 4 swap_le_be_32) src.
Definition reverse_bytes_64 (src : cells Z) : res (cells Z) :=
  chunk_loop (length src) 8 (swap_word 8 swap_le_be_64) src.

(** [while (n-- > 0) *dest++ = *--src] *)
Fixpoint reverse_bytes_linear (n : nat) (src : cells Z) : res (cells Z) :=
  match n with
  | O => Ok []
  | S n =>
      match src !! n with
      | None => Err OutOfBounds
      | Some x => dest ← reverse_bytes_linear n src; Ok (x :: dest)
      end
  end.

Definition reverse_bytes_generic (src : cells Z) (frame_size : nat) : res (cells Z) :=
  assert (0 <? frame_size)%nat;;
  assert (length src `mod` frame_size =? 0)%nat;;
  chunk_loop (length src) frame_size (reverse_bytes_linear frame_size) src.

Definition reverse_bytes (src : cells Z) (frame_size : nat) : res (cells Z) :=
  assert (0 <? frame_size)%nat;;
  assert (length src `mod` frame_size =? 0)%nat;;
  match frame_size with
  | 2%nat => reverse_bytes_16 src
  | 4%nat => reverse_bytes_32 src
  | 8%nat => reverse_bytes_64 src
  | _ => reverse_bytes_generic src frame_size
  end.
End byte_reverse.

(** ** [pcm_dsd_usb.c] *)

Definition pcm_two_dsd_to_usb_marker1 (a b : Z) : Z := Z.lor (Z.lor 0xff050000 (Z.shiftl a 8)) b.
Definition pcm_two_dsd_to_usb_marker2 (a b : Z) : Z := Z.lor (Z.lor 0xfffa0000 (Z.shiftl a 8)) b.

(** [for (c = channels; c > 0; --c)]; the second byte of a channel is
    [channels] further. *)
Fixpoint dsd_usb_channels (marker : Z -> Z -> Z) (c : nat) (channels : Z) (src : cells Z) (pos : Z)
  : res (list Z * Z) :=
  match c with
  | O => Ok ([], pos)
  | S c =>
      a ← aget src pos;
      b ← aget src (pos + channels);
      '(l, pos) ← dsd_usb_channels marker c channels src (pos + 1);
      Ok (marker a b :: l, pos)
  end.

(** [for (i = num_frames / 2; i > 0; --i)] *)
Fixpoint dsd_usb_frames (i : nat) (channels : Z) (src : cells Z) (pos : Z) : res (list Z) :=
  match i with
  | O => Ok []
  | S i =>
      '(l1, pos) ← dsd_usb_channels pcm_two_dsd_to_usb_marker1 (Z.to_nat channels) channels src pos;
      let pos := pos + channels in
      '(l2, pos) ← dsd_usb_channels pcm_two_dsd_to_usb_marker2 (Z.to_nat channels) channels src pos;
      let pos := pos + channels in
      l ← dsd_usb_frames i channels src pos;
      Ok (l1 ++ l2 ++ l)
  end.

(** The loop fills the words of [num_frames / 2] pairs of frames. *)
Definition pcm_dsd_to_usb (buffer : pcm_buffer) (channels : Z) (src : cells Z)
  : res (cells Z * pcm_buffer) :=
  let src_size := Z.of_nat (length src) in
  assert (audio_valid_channel_count channels);;
  assert (0 <? src_size);;
  assert (src_size `mod` channels =? 0);;
  let num_src_samples := u32 src_size in
  let num_src_frames := num_src_samples / channels in
  let num_frames := num_src_frames / 2 in
  let num_samples := u32 (num_frames * channels) in
  let dest_size := u32 (num_samples * 4) in
  buffer ← pcm_buffer_get buffer dest_size;
  l ← dsd_usb_frames (Z.to_nat (num_frames / 2)) channels src 0;
  let written := concat (map (fun x => store_word 4 (Some x)) l) in
  if (Z.to_nat (pb_size buffer) <? length written)%nat then Err OutOfBounds else
  Ok (take (Z.to_nat dest_size) (written ++ replicate (Z.to_nat dest_size) None), buffer).

(** ** [pcm_export.c] *)

Record pcm_export_state := PcmExport {
  ex_dsd_buffer : pcm_buffer;
  ex_pack_buffer : pcm_buffer;
  ex_reverse_buffer : pcm_buffer;
  ex_channels : Z;
  ex_dsd_usb : bool;
  ex_shift8 : bool;
  ex_pack24 : bool;
  ex_reverse_endian : Z;
}.

(** The other members are not initialized. *)
Definition pcm_export_init (s : pcm_export_state) : pcm_export_state :=
  PcmExport pcm_buffer_init pcm_buffer_init pcm_buffer_init
    (ex_channels s) (ex_dsd_usb s) (ex_shift8 s) (ex_pack24 s) (ex_reverse_endian s).

(** [uint8_t channels] *)
Definition pcm_export_open (s : pcm_export_state) (format : sample_format) (channels : Z)
    (dsd_usb shift8 pack reverse_endian : bool) : res pcm_export_state :=
  assert (audio_valid_sample_format format);;
  assert (negb dsd_usb || audio_valid_channel_count channels);;
  let dsd := dsd_usb && bool_decide (format = SAMPLE_FORMAT_DSD) in
  let format := if dsd then SAMPLE_FORMAT_S24_P32 else format in
  let shift8 := shift8 && bool_decide (format = SAMPLE_FORMAT_S24_P32) in
  let pack24 := pack && bool_decide (format = SAMPLE_FORMAT_S24_P32) in
  assert (negb shift8 || negb pack24);;
  let sample_size := if pack24 then 3 else sample_format_size format in
  assert (negb reverse_endian || (sample_size <=? 0xff));;
  Ok (PcmExport (ex_dsd_buffer s) (ex_pack_buffer s) (ex_reverse_buffer s) (channels `mod` 2 ^ 8) dsd shift8 pack24
        (if reverse_endian && (1 <? sample_size) then sample_size else 0)).

Definition pcm_export_frame_size (s : pcm_export_state) (af : audio_format) : Z :=
  if ex_pack24 s then af_channels af * 3
  else if ex_dsd_usb s then af_channels af * 4
  else audio_format_frame_size af.

(** [*dest++ = *src++ << 8] *)
Definition shift_sample (src : cells Z) : res (cells Z) :=
  Ok (store_word 4 (option_map (fun x => u32 (Z.shiftl x 8)) (load_word src))).

(** The three steps of [pcm_export()]. *)
Definition export_dsd (s : pcm_export_state) (data : cells Z) : res (cells Z * pcm_export_state) :=
  if ex_dsd_usb s then
    '(data, b) ← pcm_dsd_to_usb (ex_dsd_buffer s) (ex_channels s) data;
    Ok (data, PcmExport b (ex_pack_buffer s) (ex_reverse_buffer s) (ex_channels s) (ex_dsd_usb s) (ex_shift8 s)
                (ex_pack24 s) (ex_reverse_endian s))
  else Ok (data, s).

Definition set_pack_buffer (b : pcm_buffer) (s : pcm_export_state) : pcm_export_state :=
  PcmExport (ex_dsd_buffer s) b (ex_reverse_buffer s) (ex_channels s) (ex_dsd_usb s) (ex_shift8 s)
    (ex_pack24 s) (ex_reverse_endian s).

Definition export_pack (s : pcm_export_state) (data : cells Z) : res (cells Z * pcm_export_state) :=
  let size := Z.of_nat (length data) in
  if ex_pack24 s then
    assert (size `mod` 4 =? 0);;
    b ← pcm_buffer_get (ex_pack_buffer s) (u64 (size / 4 * 3));
    data ← pcm_pack_24 data;
    Ok (data, set_pack_buffer b s)
  else if ex_shift8 s then
    assert (size `mod` 4 =? 0);;
    b ← pcm_buffer_get (ex_pack_buffer s) size;
    data ← chunk_loop (length data) 4 shift_sample data;
    Ok (data, set_pack_buffer b s)
  else Ok (data, s).

Section export.
Context `{BS : ByteSwap}.

Definition export_reverse (s : pcm_export_state) (data : cells Z) : res (cells Z * pcm_export_state) :=
  if 0 <? ex_reverse_endian s then
    assert (2 <=? ex_reverse_endian s);;
    b ← pcm_buffer_get (ex_reverse_buffer s) (Z.of_nat (length data));
    data ← reverse_bytes data (Z.to_nat (ex_reverse_endian s));
    Ok (data, PcmExport (ex_dsd_buffer s) (ex_pack_buffer s) b (ex_channels s) (ex_dsd_usb s) (ex_shift8 s)
                (ex_pack24 s) (ex_reverse_endian s))
  else Ok (data, s).

Definition pcm_export (s : pcm_export_state) (data : cells Z) : res (cells Z * pcm_export_state) :=
  '(data, s) ← export_dsd s data;
  '(data, s) ← export_pack s data;
  export_reverse s data.
End export.

Definition pcm_export_source_size (s : pcm_export_state) (size : Z) : Z :=
  let size := if ex_pack24 s then u64 (size / 3 * 4) else size in
  if ex_dsd_usb s then size / 2 else size.

(** * Export of samples: proofs

    Every step of the export is a function on samples in memory; DSD over USB
    carries two bytes of each channel in every sample. *)

(** ** Words in memory *)

Lemma le_bytes_length n x : length (le_bytes n x) = n.
Proof. revert x. induction n; intros x; simpl; auto. Qed.

Lemma land_255 x : Z.land x 0xff = x `mod` 256.
Proof. change 0xff with (Z.ones 8). by rewrite Z.land_ones. Qed.

Lemma le_bytes_byte n x : Forall is_byte (le_bytes n x).
Proof.
  revert x. induction n; intros x; simpl; constructor; auto.
  unfold is_byte. rewrite land_255. by apply Z.mod_pos_bound.
Qed.

(** The low byte and the rest do not overlap. *)
Lemma lor_byte x y : is_byte x -> 0 <= y -> Z.lor x (Z.shiftl y 8) = x + 256 * y.
Proof.
  intros Hx Hy. unfold is_byte in Hx. rewrite Z.shiftl_mul_pow2 by lia. change (2 ^ 8) with 256.
  assert (Z.land x (y * 256) = 0) as E; [|pose proof (Z.add_lor_land x (y * 256)); lia].
  apply Z.bits_inj'. intros i Hi. rewrite Z.bits_0, Z.land_spec.
  change 256 with (2 ^ 8). destruct (Z.ltb_spec i 8).
  - rewrite Z.mul_pow2_bits_low by lia. apply andb_false_r.
  - rewrite <- (Z.mod_small x (2 ^ 8)) by lia. by rewrite Z.mod_pow2_bits_high by lia.
Qed.

Lemma le_word_bound l : Forall is_byte l -> 0 <= le_word l < 2 ^ (8 * Z.of_nat (length l)).
Proof.
  induction 1 as [|x l Hx _ IH]; cbn [le_word length]; [simpl; lia|].
  rewrite lor_byte by (done || lia). unfold is_byte in Hx.
  replace (8 * Z.of_nat (S (length l))) with (8 + 8 * Z.of_nat (length l)) by lia.
  rewrite Z.pow_add_r by lia. lia.
Qed.

Lemma le_word_bytes n x : le_word (le_bytes n x) = x `mod` 2 ^ (8 * Z.of_nat n).
Proof.
  revert x. induction n as [|n IH]; intros x; cbn [le_bytes le_word]; [by rewrite Z.mod_1_r|].
  rewrite IH. rewrite lor_byte.
  - rewrite land_255, Z.shiftr_div_pow2 by lia.
    replace (8 * Z.of_nat (S n)) with (8 + 8 * Z.of_nat n) by lia.
    rewrite Z.pow_add_r by lia. change (2 ^ 8) with 256. rewrite Z.rem_mul_r; [done|lia|].
    apply Z.pow_pos_nonneg; lia.
  - rewrite land_255. by apply Z.mod_pos_bound.
  - apply Z.mod_pos_bound, Z.pow_pos_nonneg; lia.
Qed.

Lemma le_bytes_word l : Forall is_byte l -> le_bytes (length l) (le_word l) = l.
Proof.
  induction 1 as [|x l Hx Hl IH]; cbn [length le_bytes le_word]; [done|].
  pose proof (le_word_bound _ Hl). rewrite lor_byte by (done || lia). unfold is_byte in Hx. f_equal.
  - rewrite land_255, (Z.mul_comm 256), Z.mod_add by lia. by apply Z.mod_small.
  - rewrite Z.shiftr_div_pow2 by lia. change (2 ^ 8) with 256. etransitivity; [|exact IH]. f_equal.
    rewrite (Z.mul_comm 256), Z.div_add by lia. by rewrite Z.div_small by lia.
Qed.

Lemma all_set_map {A} (l : list A) : all_set (map Some l) = Some l.
Proof. induction l as [|x l IH]; simpl; [done|by rewrite IH]. Qed.

Lemma all_set_none {A} n : (0 < n)%nat -> all_set (replicate n (@None A)) = None.
Proof. by destruct n; [lia|]. Qed.

(** A word in memory: initialized or not at all. *)
Definition word_cells (n : nat) (fr : cells Z) : Prop :=
  length fr = n /\ ((exists l, fr = map Some l /\ Forall is_byte l) \/ fr = replicate n None).

Lemma word_cells_store n x : word_cells n (store_word n x).
Proof.
  destruct x as [x|]; simpl; split.
  - by rewrite length_map, le_bytes_length.
  - left. eexists. split; [done|]. apply le_bytes_byte.
  - apply length_replicate.
  - by right.
Qed.

(** ** Loops over words *)

Lemma chunk_loop_ok {A B} n fuel (f : list A -> res (list B)) g frames :
  (0 < n)%nat -> Forall (fun fr => length fr = n /\ f fr = Ok (g fr)) frames -> (length frames <= fuel)%nat ->
  chunk_loop fuel n f (concat frames) = Ok (concat (map g frames)).
Proof.
  intros Hn Hf. revert fuel. induction Hf as [|fr frames [Hl Hfr] _ IH]; intros fuel Hfuel; [by destruct fuel|].
  destruct fuel as [|fuel]; [simpl in Hfuel; lia|].
  destruct (concat (fr :: frames)) as [|x l] eqn:E.
  { apply (f_equal length) in E. simpl in E. rewrite length_app in E. simpl in E. lia. }
  cbn [chunk_loop]. rewrite <- E. cbn [concat map].
  rewrite (proj2 (Nat.ltb_ge _ _)) by (rewrite length_app; lia).
  rewrite take_app_length', drop_app_length' by done. rewrite Hfr. cbn [mbind res_bind].
  rewrite IH by (simpl in Hfuel; lia). done.
Qed.

Lemma chunk_frames {A B} n (f : list A -> res (list B)) g frames l :
  (0 < n)%nat -> in_frames n frames l -> Forall (fun fr => f fr = Ok (g fr)) frames ->
  chunk_loop (length l) n f l = Ok (concat (map g frames)).
Proof.
  intros Hn [-> Hl] Hf. apply chunk_loop_ok; [done| |rewrite (concat_length _ _ Hl); nia].
  apply Forall_and. by split.
Qed.

(** ** Packing *)

Lemma pcm_pack_24_ok frames src :
  in_frames 4 frames src -> pcm_pack_24 src = Ok (concat (map (take 3) frames)).
Proof.
  intros Hf. apply (chunk_frames 4); [lia|done|]. destruct Hf as [_ Hf].
  eapply Forall_impl; [exact Hf|]. intros fr Hl. by do 4 (destruct fr as [|? fr]; [done|]).
Qed.

(** The bytes of a sample. *)
Definition sample_bytes (bytes : nat) (x : Z) : cells Z := map Some (le_bytes bytes x).

(** The sign bit of the third byte decides the fourth. *)
Lemma sign_extend x :
  in_bits 24 x ->
  Z.land (Z.shiftr (Z.shiftr (Z.shiftr x 8) 8) 8) 0xff =
    if negb (Z.land (Z.land (Z.shiftr (Z.shiftr x 8) 8) 0xff) 0x80 =? 0) then 0xff else 0.
Proof.
  intros Hx. unfold in_bits in Hx. change (2 ^ (24 - 1)) with 8388608 in Hx.
  rewrite (Z.shiftr_shiftr x 8 8) by lia. change (8 + 8) with 16.
  rewrite (Z.shiftr_shiftr x 16 8) by lia. change (16 + 8) with 24.
  assert (Z.land (Z.land (Z.shiftr x 16) 255) 128 = if Z.testbit x 23 then 128 else 0) as ->.
  { rewrite <- Z.land_assoc. change (Z.land 255 128) with (2 ^ 7).
    apply Z.bits_inj'. intros i Hi. rewrite Z.land_spec, Z.pow2_bits_eqb, Z.shiftr_spec by lia.
    destruct (Z.eqb_spec 7 i) as [<-|Hne].
    - change (7 + 16) with 23. by destruct (Z.testbit x 23).
    - rewrite andb_false_r. destruct (Z.testbit x 23); [|by rewrite Z.bits_0].
      symmetry. change 128 with (2 ^ 7). rewrite Z.pow2_bits_eqb by lia. by apply Z.eqb_neq. }
  rewrite land_255, Z.shiftr_div_pow2 by lia. change (2 ^ 24) with 16777216.
  rewrite Z.testbit_odd, Z.shiftr_div_pow2 by lia. change (2 ^ 23) with 8388608.
  assert (x < 0 \/ 0 <= x) as [H|H] by lia.
  - assert (x / 16777216 = -1) as -> by (Z.to_euclidean_division_equations; lia).
    assert (x / 8388608 = -1) as -> by (Z.to_euclidean_division_equations; lia). done.
  - rewrite !Z.div_small by lia. done.
Qed.

Lemma unpack_packed x :
  in_bits 24 x -> unpack_sample (take 3 (sample_bytes 4 x)) = Ok (sample_bytes 4 x).
Proof.
  intros Hx. unfold sample_bytes. cbn [le_bytes map take unpack_sample].
  by rewrite sign_extend.
Qed.

Lemma sample_frames n samples :
  in_frames n (map (sample_bytes n) samples) (concat (map (sample_bytes n) samples)).
Proof.
  split; [done|]. apply Forall_map, Forall_forall. intros x _. unfold sample_bytes.
  by rewrite length_map, le_bytes_length.
Qed.

Lemma pack_unpack_ok samples :
  Forall (in_bits 24) samples ->
  pcm_pack_24 (concat (map (sample_bytes 4) samples)) = Ok (concat (map (sample_bytes 3) samples)) /\
  pcm_unpack_24 (concat (map (sample_bytes 3) samples)) = Ok (concat (map (sample_bytes 4) samples)).
Proof.
  intros Hs. split.
  - rewrite (pcm_pack_24_ok (map (sample_bytes 4) samples)) by apply sample_frames.
    by rewrite map_map.
  - unfold pcm_unpack_24.
    rewrite (chunk_frames 3 unpack_sample (fun fr => match unpack_sample fr with Ok l => l | Err _ => [] end)
      (map (sample_bytes 3) samples)); [|lia|apply sample_frames|].
    + rewrite map_map. do 2 f_equal. apply map_ext_in. intros x Hx.
      rewrite Forall_forall in Hs. change (sample_bytes 3 x) with (take 3 (sample_bytes 4 x)).
      rewrite unpack_packed; [done|]. apply Hs. by apply list_elem_of_In.
    + apply Forall_map. eapply Forall_impl; [exact Hs|]. intros x Hx.
      change (sample_bytes 3 x) with (take 3 (sample_bytes 4 x)). by rewrite unpack_packed.
Qed.

(** ** Byte order *)

(** The documented behaviour of the macros. *)
Class ByteSwapOk `(BS : ByteSwap) := {
  swap_16_ok x : 0 <= x < 2 ^ 16 -> swap_le_be_16 x = le_word (rev (le_bytes 2 x));
  swap_32_ok x : 0 <= x < 2 ^ 32 -> swap_le_be_32 x = le_word (rev (le_bytes 4 x));
  swap_64_ok x : 0 <= x < 2 ^ 64 -> swap_le_be_64 x = le_word (rev (le_bytes 8 x));
}.

Section reverse.
Context `{BSOk : ByteSwapOk}.

Lemma rev_replicate {A} n (x : A) : rev (replicate n x) = replicate n x.
Proof using.
  clear. rewrite rev_alt. apply reverse_replicate.
Qed.

Lemma swap_word_ok n swap fr :
  (0 < n)%nat -> (forall x, 0 <= x < 2 ^ (8 * Z.of_nat n) -> swap x = le_word (rev (le_bytes n x))) ->
  word_cells n fr -> swap_word n swap fr = Ok (rev fr).
Proof using.
  clear. intros Hn Hswap [Hl [(l & -> & Hb)| ->]]; unfold swap_word, load_word.
  - rewrite length_map in Hl. rewrite all_set_map. cbn [option_map].
    pose proof (le_word_bound l Hb) as Hbound. rewrite Hl in Hbound. rewrite Hswap by done.
    rewrite <- Hl. rewrite le_bytes_word by done. cbn [store_word].
    rewrite <- map_rev. do 2 f_equal. rewrite <- (length_rev l). apply le_bytes_word.
    by apply Forall_rev.
  - rewrite all_set_none by done. cbn [option_map store_word]. by rewrite rev_replicate.
Qed.

Lemma reverse_linear_ok n src : (n <= length src)%nat -> reverse_bytes_linear n src = Ok (rev (take n src)).
Proof using.
  clear. induction n as [|n IH]; intros Hn; cbn [reverse_bytes_linear]; [done|].
  destruct (lookup_lt_is_Some_2 src n) as [x Hx]; [lia|]. rewrite Hx, IH by lia. cbn [mbind res_bind].
  by rewrite (take_S_r _ _ _ Hx), rev_app_distr.
Qed.

Lemma reverse_bytes_generic_ok n frames :
  (0 < n)%nat -> Forall (fun fr => length fr = n) frames ->
  reverse_bytes_generic (concat frames) n = Ok (concat (map (@rev (option Z)) frames)).
Proof using.
  clear. intros Hn Hf. unfold reverse_bytes_generic. rewrite (proj2 (Nat.ltb_lt 0 n)) by done.
  cbn [mbind res_bind assert]. rewrite (concat_length n) by done.
  rewrite Nat.mul_comm, Nat.Div0.mod_mul. cbn [Nat.eqb mbind res_bind assert].
  apply chunk_loop_ok; [done| |nia].
  eapply Forall_impl; [exact Hf|]. intros fr Hl. simpl in Hl. split; [done|].
  rewrite reverse_linear_ok by lia. by rewrite <- Hl, firstn_all.
Qed.

(** Whatever the size of the words, each is reversed. *)
Lemma reverse_bytes_ok n frames :
  (0 < n)%nat -> Forall (word_cells n) frames ->
  reverse_bytes (concat frames) n = Ok (concat (map (@rev (option Z)) frames)).
Proof using BSOk.
  intros Hn Hf. assert (Forall (fun fr => length fr = n) frames) as Hlen
    by (eapply Forall_impl; [exact Hf|]; by intros fr []).
  unfold reverse_bytes. rewrite (proj2 (Nat.ltb_lt 0 n)) by done. cbn [mbind res_bind assert].
  rewrite (concat_length n) by done.
  assert ((n * length frames) `mod` n = 0)%nat as E by (rewrite Nat.mul_comm; apply Nat.Div0.mod_mul).
  rewrite E. cbn [Nat.eqb mbind res_bind assert].
  assert (forall swap, (forall x, 0 <= x < 2 ^ (8 * Z.of_nat n) -> swap x = le_word (rev (le_bytes n x))) ->
    chunk_loop (length (concat frames)) n (swap_word n swap) (concat frames) =
      Ok (concat (map (@rev (option Z)) frames))) as Hw.
  { intros swap Hs. apply chunk_frames; [done|done|].
    eapply Forall_impl; [exact Hf|]. intros fr Hfr. by apply swap_word_ok. }
  do 9 (destruct n as [|n]; [try lia; try (by apply reverse_bytes_generic_ok);
    apply Hw; first [apply swap_16_ok | apply swap_32_ok | apply swap_64_ok]|]).
  by apply reverse_bytes_generic_ok.
Qed.
End reverse.

(** ** DSD over USB *)

(** Two frames of bytes in one frame of samples. *)
Definition usb_frame (marker : Z -> Z -> Z) (f0 f1 : list Z) : list Z := zip_with marker f0 f1.

(** Four frames of bytes give two of samples, with alternating markers. *)
Fixpoint usb_words (frames : list (list Z)) : list Z :=
  match frames with
  | f0 :: f1 :: f2 :: f3 :: frames =>
      usb_frame pcm_two_dsd_to_usb_marker1 f0 f1 ++ usb_frame pcm_two_dsd_to_usb_marker2 f2 f3 ++
      usb_words frames
  | _ => []
  end.

(** All words of the result; a pair of frames that is left has no value. *)
Definition usb_samples (channels : nat) (frames : list (list Z)) : list (option Z) :=
  map Some (usb_words frames) ++ replicate (channels * ((length frames / 2) mod 2))%nat None.

Section usb.
Context (channels : nat) (frames : list (list Z)).
Context (Hf : Forall (fun fr => length fr = channels) frames).
Let src : cells Z := map Some (concat frames).

Lemma usb_get k c fr x :
  frames !! k = Some fr -> fr !! c = Some x -> aget src (Z.of_nat (k * channels + c)) = Ok x.
Proof using Hf.
  intros Hk Hx. pose proof (lookup_lt_Some _ _ _ Hx) as Hlt.
  pose proof (proj1 (Forall_lookup _ _) Hf _ _ Hk) as Hl. simpl in Hl.
  apply aget_ok. unfold src. change (map Some (concat frames)) with (Some <$> concat frames).
  rewrite list_lookup_fmap, (concat_lookup channels _ _ _ _ Hf Hk) by lia. by rewrite Hx.
Qed.

Lemma dsd_usb_channels_ok marker k f0 f1 c i :
  frames !! k = Some f0 -> frames !! S k = Some f1 -> (i + c = channels)%nat ->
  dsd_usb_channels marker c (Z.of_nat channels) src (Z.of_nat (k * channels + i)) =
    Ok (zip_with marker (drop i f0) (drop i f1), Z.of_nat (S k * channels)).
Proof using Hf.
  intros H0 H1. revert i. induction c as [|c IH]; intros i Hi; cbn [dsd_usb_channels].
  - pose proof (proj1 (Forall_lookup _ _) Hf _ _ H0) as Hl. simpl in Hl.
    rewrite drop_ge by lia. do 2 f_equal. lia.
  - pose proof (proj1 (Forall_lookup _ _) Hf _ _ H0) as Hl0. simpl in Hl0.
    pose proof (proj1 (Forall_lookup _ _) Hf _ _ H1) as Hl1. simpl in Hl1.
    destruct (lookup_lt_is_Some_2 f0 i) as [a Ha]; [lia|].
    destruct (lookup_lt_is_Some_2 f1 i) as [b Hb]; [lia|].
    rewrite (usb_get _ _ _ _ H0 Ha). cbn [mbind res_bind].
    replace (Z.of_nat (k * channels + i) + Z.of_nat channels) with (Z.of_nat (S k * channels + i)) by lia.
    rewrite (usb_get _ _ _ _ H1 Hb). cbn [mbind res_bind].
    replace (Z.of_nat (k * channels + i) + 1) with (Z.of_nat (k * channels + S i)) by lia.
    rewrite IH by lia. cbn [mbind res_bind].
    by rewrite (drop_S _ _ _ Ha), (drop_S _ _ _ Hb).
Qed.

Lemma dsd_usb_frames_ok i k :
  (length frames = k + i)%nat ->
  dsd_usb_frames (i / 4) (Z.of_nat channels) src (Z.of_nat (k * channels)) = Ok (usb_words (drop k frames)).
Proof using Hf.
  revert k. induction (lt_wf i) as [i _ IH]. intros k Hl.
  destruct (decide (i < 4)%nat) as [Hi|Hi].
  { rewrite Nat.div_small by done. pose proof (length_drop frames k) as Hd.
    destruct (drop k frames) as [|? [|? [|? [|? l]]]]; try done. simpl in Hd. lia. }
  replace i with (i - 4 + 1 * 4)%nat at 1 by lia. rewrite Nat.div_add by lia.
  replace ((i - 4) / 4 + 1)%nat with (S ((i - 4) / 4)) by lia. cbn [dsd_usb_frames].
  destruct (lookup_lt_is_Some_2 frames k) as [f0 H0]; [lia|].
  destruct (lookup_lt_is_Some_2 frames (S k)) as [f1 H1]; [lia|].
  destruct (lookup_lt_is_Some_2 frames (S (S k))) as [f2 H2]; [lia|].
  destruct (lookup_lt_is_Some_2 frames (S (S (S k)))) as [f3 H3]; [lia|].
  rewrite Nat2Z.id. rewrite <- (Nat.add_0_r (k * channels)).
  rewrite (dsd_usb_channels_ok _ k f0 f1 channels 0 H0 H1) by lia. cbn [mbind res_bind].
  replace (Z.of_nat (S k * channels) + Z.of_nat channels) with (Z.of_nat (S (S k) * channels + 0)) by lia.
  rewrite (dsd_usb_channels_ok _ (S (S k)) f2 f3 channels 0 H2 H3) by lia. cbn [mbind res_bind].
  replace (Z.of_nat (S (S (S k)) * channels) + Z.of_nat channels) with
    (Z.of_nat (S (S (S (S k))) * channels)) by lia.
  rewrite (IH (i - 4)%nat) by lia. cbn [mbind res_bind].
  by rewrite (drop_S _ _ _ H0), (drop_S _ _ _ H1), (drop_S _ _ _ H2), (drop_S _ _ _ H3).
Qed.
End usb.

Lemma usb_words_length channels frames :
  Forall (fun fr => length fr = channels) frames ->
  length (usb_words frames) = (channels * (2 * (length frames / 4)))%nat.
Proof.
  remember (length frames) as n eqn:En. revert frames En.
  induction (lt_wf n) as [n _ IH]. intros frames -> Hf.
  destruct frames as [|f0 [|f1 [|f2 [|f3 frames]]]]; try (simpl; lia).
  apply Forall_cons in Hf as [H0 Hf]. apply Forall_cons in Hf as [H1 Hf].
  apply Forall_cons in Hf as [H2 Hf]. apply Forall_cons in Hf as [H3 Hf].
  cbn [usb_words]. rewrite !length_app. unfold usb_frame. rewrite !length_zip_with.
  rewrite (IH (length frames)) by (done || (simpl; lia)). rewrite H0, H1, H2, H3, !Nat.min_id.
  change (length (f0 :: f1 :: f2 :: f3 :: frames)) with (4 + length frames)%nat.
  replace (4 + length frames)%nat with (length frames + 1 * 4)%nat by lia. rewrite Nat.div_add by lia. lia.
Qed.

Lemma usb_samples_length channels frames :
  Forall (fun fr => length fr = channels) frames ->
  length (usb_samples channels frames) = (channels * (length frames / 2))%nat.
Proof.
  intros Hf. unfold usb_samples. rewrite length_app, length_map, length_replicate, (usb_words_length channels) by done.
  rewrite <- Nat.mul_add_distr_l. f_equal. set (n := length frames).
  assert (n / 4 = n / 2 / 2)%nat as -> by (by rewrite Nat.Div0.div_div).
  pose proof (Nat.div_mod_eq (n / 2) 2). lia.
Qed.

Lemma concat_store_length n l : length (concat (map (store_word n) l)) = (n * length l)%nat.
Proof.
  rewrite (concat_length n); [by rewrite length_map|].
  apply Forall_map, Forall_forall. intros x _. apply word_cells_store.
Qed.

Lemma concat_store_none n k : concat (map (store_word n) (replicate k None)) = replicate (n * k) None.
Proof.
  induction k as [|k IH]; simpl; [by rewrite Nat.mul_0_r|].
  rewrite IH. rewrite <- replicate_add. f_equal. lia.
Qed.

(** Two bytes of each channel in every sample; the samples of an odd frame
    at the end are not written. *)
Lemma pcm_dsd_to_usb_ok b channels frames :
  (1 <= channels <= 8)%nat -> Forall (fun fr => length fr = channels) frames -> frames <> [] ->
  Z.of_nat (channels * length frames) < 2 ^ 30 ->
  wp (pcm_dsd_to_usb b (Z.of_nat channels) (map Some (concat frames))) (fun '(r, _) =>
    r = concat (map (store_word 4) (usb_samples channels frames))).
Proof.
  intros Hc Hf Hne Hs. assert (0 < length frames)%nat by (destruct frames; simpl; [done|lia]).
  set (n := length frames) in *. unfold pcm_dsd_to_usb. cbv zeta.
  rewrite length_map, (concat_length channels) by done. fold n.
  apply wp_bind, wp_assert.
  { unfold audio_valid_channel_count, MAX_CHANNELS. by rewrite !(proj2 (Z.leb_le _ _)) by lia. }
  apply wp_bind, wp_assert; [apply Z.ltb_lt; lia|].
  apply wp_bind, wp_assert.
  { apply Z.eqb_eq. rewrite Nat2Z.inj_mul, Z.mul_comm. apply Z.mod_mul. lia. }
  assert (u32 (Z.of_nat (channels * n)) / Z.of_nat channels = Z.of_nat n) as ->.
  { unfold u32. rewrite Z.mod_small by lia. rewrite Nat2Z.inj_mul, Z.mul_comm. apply Z.div_mul. lia. }
  assert (Z.of_nat n / 2 = Z.of_nat (n / 2)) as -> by (by rewrite Nat2Z.inj_div).
  assert (Z.of_nat (n / 2) / 2 = Z.of_nat (n / 4)) as ->.
  { change 2 with (Z.of_nat 2). by rewrite <- Nat2Z.inj_div, Nat.Div0.div_div. }
  assert (n / 2 <= n)%nat by (apply Nat.Div0.div_le_upper_bound; lia).
  assert (u32 (u32 (Z.of_nat (n / 2) * Z.of_nat channels) * 4) = Z.of_nat (4 * (channels * (n / 2)))) as ->.
  { assert (0 <= Z.of_nat (n / 2) * Z.of_nat channels < 2 ^ 30) by nia.
    unfold u32. rewrite (Z.mod_small (Z.of_nat (n / 2) * Z.of_nat channels)) by lia.
    rewrite Z.mod_small by lia. lia. }
  eapply wp_bind_mono; [apply pcm_buffer_get_ok; nia|]. intros b' Hb'. cbn beta in Hb'.
  rewrite !Nat2Z.id. pose proof (dsd_usb_frames_ok channels frames Hf n 0 ltac:(done)) as E.
  change (Z.of_nat (0 * channels)) with 0 in E. rewrite E, drop_0. cbn [mbind res_bind].
  assert (map (fun x => store_word 4 (Some x)) (usb_words frames) =
    map (store_word 4) (map Some (usb_words frames))) as -> by (by rewrite map_map).
  pose proof (usb_samples_length channels frames Hf) as Hl. unfold usb_samples in Hl.
  rewrite length_app, length_map, length_replicate in Hl. fold n in Hl.
  rewrite (proj2 (Nat.ltb_ge _ _)) by (rewrite concat_store_length, length_map; lia).
  cbn [wp]. unfold usb_samples. rewrite map_app, concat_app, concat_store_none. fold n.
  rewrite take_app, take_ge by (rewrite concat_store_length, length_map; lia).
  rewrite take_replicate, concat_store_length, length_map. do 2 f_equal. lia.
Qed.

(** ** Export *)

(** A left shift by eight bits moves the bytes up by one. *)
Definition shifted (fr : cells Z) : cells Z :=
  match fr with Some _ :: _ => Some 0 :: take 3 fr | _ => fr end.

(** What becomes of a sample. *)
Definition packed (s : pcm_export_state) (fr : cells Z) : cells Z :=
  if ex_pack24 s then take 3 fr else if ex_shift8 s then shifted fr else fr.
Definition exported (s : pcm_export_state) (fr : cells Z) : cells Z :=
  if 0 <? ex_reverse_endian s then rev (packed s fr) else packed s fr.

(** The size of an exported sample that has [size] bytes in the source. *)
Definition exported_size (s : pcm_export_state) (size : nat) : nat := if ex_pack24 s then 3 else size.

(** What [pcm_export_open()] establishes for samples of [size] bytes. *)
Definition export_inv (s : pcm_export_state) (size : nat) : Prop :=
  (1 <= size <= 4)%nat /\ (ex_pack24 s || ex_shift8 s = true -> size = 4%nat) /\
  ex_pack24 s && ex_shift8 s = false /\
  (ex_reverse_endian s = 0 \/
   2 <= ex_reverse_endian s /\ ex_reverse_endian s = Z.of_nat (exported_size s size)).

(** The size in the source: DSD samples are stuffed into words of four bytes
    first. *)
Definition source_size (s : pcm_export_state) (f : sample_format) : nat :=
  if ex_dsd_usb s then 4 else Z.to_nat (sample_format_size f).

Lemma pcm_export_open_ok s f channels dsd shift8 pack rv :
  audio_valid_sample_format f = true -> audio_valid_channel_count channels = true -> shift8 && pack = false ->
  wp (pcm_export_open s f channels dsd shift8 pack rv) (fun s' =>
    export_inv s' (source_size s' f) /\ ex_channels s' = channels /\
    ex_dsd_usb s' = dsd && bool_decide (f = SAMPLE_FORMAT_DSD)).
Proof.
  intros Hf Hc Hsp. unfold pcm_export_open. rewrite Hf, Hc, orb_true_r. cbn [mbind res_bind assert]. cbv zeta.
  assert (channels `mod` 2 ^ 8 = channels) as ->.
  { unfold audio_valid_channel_count, MAX_CHANNELS in Hc. apply andb_prop in Hc as [H1 H2].
    apply Z.leb_le in H1, H2. apply Z.mod_small. lia. }
  unfold export_inv, source_size, exported_size.
  destruct f, dsd, shift8, pack, rv; try done; simpl; split_and!; done || lia || (by right) || (by left).
Qed.

Lemma shift_sample_ok fr : word_cells 4 fr -> shift_sample fr = Ok (shifted fr).
Proof.
  intros [Hl [(l & -> & Hb)| ->]]; [|done]. rewrite length_map in Hl.
  destruct l as [|a [|b [|c [|d [|]]]]]; try done.
  unfold shift_sample, load_word. rewrite all_set_map. cbn [option_map store_word].
  assert (u32 (Z.shiftl (le_word [a; b; c; d]) 8) = le_word [0; a; b; c]) as ->.
  { rewrite !Forall_cons in Hb. destruct Hb as (Ha & Hb & Hc & Hd & _).
    cbn [le_word]. rewrite Z.shiftl_0_l, !Z.lor_0_r. unfold is_byte in *.
    rewrite (lor_byte c d), (lor_byte b c) by (done || lia).
    rewrite (lor_byte b (c + 256 * d)), (lor_byte a (b + 256 * c)), (lor_byte a (b + 256 * (c + 256 * d)))
      by (done || lia).
    rewrite (lor_byte 0) by (done || lia). rewrite Z.shiftl_mul_pow2 by lia. unfold u32.
    change (2 ^ 8) with 256. Z.to_euclidean_division_equations. lia. }
  change 4%nat with (length [0; a; b; c]). rewrite le_bytes_word; [done|].
  rewrite !Forall_cons in Hb |- *. unfold is_byte in *. intuition (lia || done).
Qed.

Lemma packed_word s size fr :
  export_inv s size -> word_cells size fr -> word_cells (exported_size s size) (packed s fr).
Proof.
  intros (Hs & H4 & _) [Hl H]. unfold packed, exported_size.
  destruct (ex_pack24 s); [|destruct (ex_shift8 s); [|done]]; rewrite (H4 eq_refl) in *; split.
  - rewrite length_take. lia.
  - destruct H as [(l & -> & Hb)| ->]; [left|by right].
    exists (take 3 l). change (map Some l) with (Some <$> l). rewrite <- fmap_take. split; [done|]. by apply Forall_take.
  - destruct H as [(l & -> & Hb)| ->]; [|done]. rewrite length_map in Hl.
    by destruct l as [|a [|b [|c [|d [|]]]]].
  - destruct H as [(l & -> & Hb)| ->]; [left|by right]. rewrite length_map in Hl.
    destruct l as [|a [|b [|c [|d [|]]]]]; try done. exists [0; a; b; c]. split; [done|].
    rewrite !Forall_cons in Hb |- *. unfold is_byte in *. intuition (lia || done).
Qed.

Lemma export_pack_ok s size frames :
  export_inv s size -> Forall (word_cells size) frames -> Z.of_nat (length (concat frames)) < 2 ^ 60 ->
  wp (export_pack s (concat frames)) (fun '(r, s') => r = concat (map (packed s) frames) /\
    ex_reverse_endian s' = ex_reverse_endian s).
Proof.
  intros Hi Hf Hs. pose proof Hi as (_ & H4 & _). unfold export_pack. cbv zeta.
  assert (forall n, Forall (word_cells n) frames -> in_frames n frames (concat frames)) as Hfr.
  { intros n H. split; [done|]. eapply Forall_impl; [exact H|]. by intros fr []. }
  assert (ex_pack24 s || ex_shift8 s = true ->
    Z.of_nat (length (concat frames)) mod 4 =? 0 = true) as Hmod.
  { intros E. rewrite (H4 E) in Hf. destruct (Hfr _ Hf) as [_ Hl]. rewrite (concat_length _ _ Hl).
    apply Z.eqb_eq. rewrite Nat2Z.inj_mul, Z.mul_comm. by apply Z.mod_mul. }
  unfold packed. destruct (ex_pack24 s); [|destruct (ex_shift8 s); [|]].
  - apply wp_bind, wp_assert; [by apply Hmod|]. rewrite (H4 eq_refl) in Hf.
    apply pcm_buffer_bind.
    { pose proof (Z.div_le_upper_bound (Z.of_nat (length (concat frames))) 4 (Z.of_nat (length (concat frames)))).
      pose proof (Z.div_pos (Z.of_nat (length (concat frames))) 4). rewrite u64_small; lia. }
    intros b. rewrite (pcm_pack_24_ok frames) by auto. done.
  - apply wp_bind, wp_assert; [by apply Hmod|]. rewrite (H4 eq_refl) in Hf.
    apply pcm_buffer_bind; [lia|]. intros b.
    rewrite (chunk_frames 4 _ shifted frames); [done|lia|by auto|].
    eapply Forall_impl; [exact Hf|]. apply shift_sample_ok.
  - cbn [wp]. by rewrite map_id.
Qed.

Section export.
Context `{BSOk : ByteSwapOk}.

Lemma export_reverse_ok s n frames :
  Forall (word_cells n) frames -> Z.of_nat (length (concat frames)) < 2 ^ 60 ->
  (ex_reverse_endian s = 0 \/ 2 <= ex_reverse_endian s /\ ex_reverse_endian s = Z.of_nat n) ->
  wp (export_reverse s (concat frames)) (fun '(r, _) =>
    r = concat (map (fun fr => if 0 <? ex_reverse_endian s then rev fr else fr) frames)).
Proof using BSOk.
  intros Hf Hs Hr. unfold export_reverse. destruct (Z.ltb_spec 0 (ex_reverse_endian s)) as [H|H].
  - destruct Hr as [Hr|[Hr Hn]]; [lia|]. apply wp_bind, wp_assert; [by apply Z.leb_le|].
    apply pcm_buffer_bind; [lia|]. intros b. rewrite Hn, Nat2Z.id. by rewrite reverse_bytes_ok by (done || lia).
  - cbn [wp]. by rewrite map_id.
Qed.

(** Every sample is exported by itself. *)
Lemma export_samples_ok s s1 size frames :
  export_inv s size -> Forall (word_cells size) frames -> Z.of_nat (length (concat frames)) < 2 ^ 60 ->
  ex_pack24 s1 = ex_pack24 s -> ex_shift8 s1 = ex_shift8 s -> ex_reverse_endian s1 = ex_reverse_endian s ->
  wp ('(data, s) ← export_pack s1 (concat frames); export_reverse s data) (fun '(r, _) =>
    r = concat (map (exported s) frames) /\ length r = (exported_size s size * length frames)%nat).
Proof using BSOk.
  intros Hi Hf Hs E1 E2 E3.
  assert (export_inv s1 size) as Hi1 by (unfold export_inv, exported_size in *; by rewrite E1, E2, E3).
  assert (packed s1 = packed s) as Ep by (unfold packed; by rewrite E1, E2).
  assert (Forall (word_cells (exported_size s size)) (map (packed s) frames)) as Hp.
  { apply Forall_map. eapply Forall_impl; [exact Hf|]. intros fr. by apply packed_word. }
  assert (Forall (fun fr => length fr = exported_size s size) (map (packed s) frames)) as Hpl
    by (eapply Forall_impl; [exact Hp|]; by intros fr []).
  eapply wp_bind_mono; [by apply (export_pack_ok s1 size)|]. intros [r s2] [-> E]. rewrite Ep.
  eapply wp_mono; [apply (export_reverse_ok s2 _ _ Hp)|].
  - rewrite (concat_length _ _ Hpl), length_map. destruct Hi as ([Hs1 Hs4] & H4 & _).
    rewrite (concat_length size) in Hs by (eapply Forall_impl; [exact Hf|]; by intros fr []).
    unfold exported_size. destruct (ex_pack24 s); [rewrite (H4 eq_refl) in Hs|]; nia.
  - rewrite E, E3. apply Hi.
  - intros [r s3] ->. rewrite E, E3, map_map. split; [by unfold exported; destruct (0 <? _)|].
    rewrite (concat_length (exported_size s size)); [by rewrite length_map|].
    apply Forall_map. apply Forall_map in Hpl. eapply Forall_impl; [exact Hpl|].
    intros fr Hl. simpl in Hl |- *. destruct (0 <? _); [by rewrite length_rev|done].
Qed.

Lemma pcm_export_ok s size frames :
  ex_dsd_usb s = false -> export_inv s size -> Forall (word_cells size) frames ->
  Z.of_nat (length (concat frames)) < 2 ^ 60 ->
  wp (pcm_export s (concat frames)) (fun '(r, _) =>
    r = concat (map (exported s) frames) /\ length r = (exported_size s size * length frames)%nat).
Proof using BSOk.
  intros Hd Hi Hf Hs. unfold pcm_export, export_dsd. rewrite Hd. cbn [mbind res_bind].
  by apply (export_samples_ok s s size).
Qed.

Lemma pcm_export_dsd_ok s channels frames :
  ex_dsd_usb s = true -> export_inv s 4 -> ex_channels s = Z.of_nat channels -> (1 <= channels <= 8)%nat ->
  Forall (fun fr => length fr = channels) frames -> frames <> [] ->
  Z.of_nat (channels * length frames) < 2 ^ 30 ->
  wp (pcm_export s (map Some (concat frames))) (fun '(r, _) =>
    r = concat (map (fun w => exported s (store_word 4 w)) (usb_samples channels frames)) /\
    length r = (exported_size s 4 * (channels * (length frames / 2)))%nat).
Proof using BSOk.
  intros Hd Hi Hch Hc Hf Hne Hs. unfold pcm_export, export_dsd. rewrite Hd, Hch.
  destruct (wp_inv _ _ (pcm_dsd_to_usb_ok (ex_dsd_buffer s) channels frames Hc Hf Hne Hs)) as ([r b] & -> & ->).
  cbn [mbind res_bind].
  eapply wp_mono; [apply (export_samples_ok s _ 4); try done|].
  - apply Forall_map, Forall_forall. intros w _. apply word_cells_store.
  - rewrite concat_store_length, usb_samples_length by done.
    assert (length frames / 2 <= length frames)%nat by (apply Nat.Div0.div_le_upper_bound; lia). nia.
  - intros [r s'] [Hr Hl]. rewrite map_map in Hr. split; [done|].
    rewrite Hl, length_map. by rewrite usb_samples_length.
Qed.
End export.

(** The sizes that the outputs calculate with. *)
Lemma pcm_export_frame_size_ok s f channels rate :
  export_inv s (source_size s f) -> audio_valid_sample_format f = true -> 0 <= channels <= 8 ->
  pcm_export_frame_size s (AudioFormat rate f channels) =
    Z.of_nat (exported_size s (source_size s f)) * channels.
Proof.
  intros Hi Hf Hc. unfold pcm_export_frame_size, exported_size, source_size, audio_format_frame_size,
    audio_format_sample_size. simpl. destruct (ex_pack24 s); [lia|]. destruct (ex_dsd_usb s); [lia|].
  unfold u32. destruct f; try done; simpl; rewrite Z.mod_small; lia.
Qed.

Lemma pcm_export_source_size_ok s size n :
  export_inv s size -> Z.of_nat n < 2 ^ 60 ->
  pcm_export_source_size s (Z.of_nat (exported_size s size * n)) =
    if ex_dsd_usb s then Z.of_nat (size * n) / 2 else Z.of_nat (size * n).
Proof.
  intros (_ & H4 & _) Hn. unfold pcm_export_source_size, exported_size.
  destruct (ex_pack24 s); [|done]. rewrite (H4 eq_refl).
  assert (u64 (Z.of_nat (3 * n) / 3 * 4) = Z.of_nat (4 * n)) as ->; [|done].
  replace (Z.of_nat (3 * n)) with (Z.of_nat n * 3) by lia. rewrite Z.div_mul by lia. rewrite u64_small; lia.
Qed.
