(* ===== verification/PcmTheorems.v ===== *)
(** * Samples: the main theorems *)

From S2P Require Import Prelude Err CString Float AudioFormat AudioParser Strtod Pcm PcmConvert.
From S2P Require Import PcmFrames PcmDsdProofs PcmExport.
Local Open Scope Z_scope.

(** ** Instances *)

(** The macros of GLib, computed on bytes. *)
#[export] Instance byte_swap : ByteSwap := {
  swap_le_be_16 x := le_word (rev (le_bytes 2 x));
  swap_le_be_32 x := le_word (rev (le_bytes 4 x));
  swap_le_be_64 x := le_word (rev (le_bytes 8 x));
}.

#[export] Instance byte_swap_ok : ByteSwapOk byte_swap.
Proof. by split. Qed.

(** The volume that [pcm_mix()] gives to the first of two buffers. *)
Definition mix_volume (sin : double -> double) (portion1 : float) : option Z :=
  let s := f32_of_f64 (sin (f64_mul M_PI_2 (f64_of_f32 portion1))) in
  option_map (fun vol => Z.min PCM_VOLUME_1 (Z.max 0 vol)) (pcm_float_to_volume (f32_mul s s)).

(** ** Theorems *)

(** C29: conversion to an integer format, where it is implemented, is the
    composition of three steps on frames: every sample is shifted to the
    wanted width, dithered for 16 bits or, from a float, scaled and cut off
    ([in_width]); every frame is mixed to the wanted number of channels; frame
    [k] is taken from frame [floor (k * src_rate / dest_rate)].  There is no
    overflow and no access out of bounds, every sample of the result is
    initialized and within its width, and the number of frames is as expected.
    Implemented ([chain_implemented], [convertible]) are sources other than
    DSD with the same number of channels, with stereo as the destination or
    from stereo to mono, the same rate or at most two channels to resample, and
    no more frames than the 32-bit arithmetic of the resampler bears; the
    floats have to fit into an [int] after scaling ([source_fits]). *)
Theorem pcm_convert_correct sf df n s d bits result :
  chain_implemented sf df n -> integer_format (af_format df) = Some (bits, result) ->
  pcm_valid d -> convertible d -> source_fits (af_format df) d -> dither_inv (cv_dither s) ->
  pcm_length d = (Z.to_nat (af_channels sf) * n)%nat ->
  wp (pcm_convert s sf d df) (fun '(r, s') => dither_inv (cv_dither s') /\ exists buf frames,
    in_width bits d buf /\ in_frames (Z.to_nat (af_channels sf)) frames buf /\ length frames = n /\
    r = result (map Some (concat (chain sf df frames))) /\
    samples_ok bits (chain_frames sf df n * Z.to_nat (af_channels df)) (concat (chain sf df frames))).
Proof. intros Hi. by apply pcm_convert_integer_ok. Qed.

(** C30: a volume of 0 gives silence, [PCM_VOLUME_1] changes nothing, and any
    other volume below 64 times the normal one scales every sample, up to
    two units, and cuts off what does not fit its width; no arithmetic
    overflows, and the formats that are not implemented are refused. *)
Theorem pcm_volume_correct d volume state :
  pcm_valid d -> 0 <= volume < 2 ^ 16 ->
  wp (pcm_volume d volume state) (fun '(ok, d', _) => pcm_valid d' /\
    if decide (volume = PCM_VOLUME_1) then ok = true /\ d' = d
    else if decide (volume = 0) then ok = true /\ d' = silence d
    else if volume_implemented (pcm_format d)
    then ok = true /\ pointwise (fun bits x y => scaled bits (x * volume) y)
                        (fun x y => y = f32_mul x (pcm_volume_to_float volume)) d d'
    else ok = false /\ d' = d).
Proof.
  intros Hd Hv. destruct (decide (volume = PCM_VOLUME_1)) as [->|H1]; [done|].
  destruct (decide (volume = 0)) as [->|H2]; [split; [apply silence_valid|done]|].
  apply pcm_volume_loops_ok; (done || lia).
Qed.

(** Two buffers are mixed without overflow: with a portion, every sample
    becomes the mean of both weighted with the volume, up to two units and
    with nothing cut off; without one, their sum, saturated.  The rest of the
    first buffer is unchanged. *)
Theorem pcm_mix_correct sin b1 b2 size portion1 state :
  pcm_valid b1 -> pcm_valid b2 -> pcm_format b2 = pcm_format b1 -> has_bytes size b1 -> has_bytes size b2 ->
  match f_is_nan portion1, mix_volume sin portion1 with
  | false, None => pcm_mix sin b1 b2 size portion1 state = Err BadConversion
  | nan, vol =>
      wp (pcm_mix sin b1 b2 size portion1 state) (fun '(ok, b, _) => pcm_valid b /\
        if volume_implemented (pcm_format b1) then
          ok = true /\
          match nan, vol with
          | false, Some vol => 0 <= vol <= PCM_VOLUME_1 /\ pointwise2 size (mean vol)
              (fun x1 x2 y => y = f32_add (f32_mul x1 (pcm_volume_to_float vol))
                                    (f32_mul x2 (pcm_volume_to_float (PCM_VOLUME_1 - vol)))) b1 b2 b
          | _, _ => pointwise2 size saturated (fun x1 x2 y => y = f32_add x1 x2) b1 b2 b
          end
        else ok = false /\ b = b1)
  end.
Proof.
  intros H1 H2 Hf Hs1 Hs2. unfold pcm_mix, mix_volume. cbv zeta.
  destruct (f_is_nan portion1); [by apply pcm_add_ok|].
  destruct (pcm_float_to_volume _) as [v|]; [|done]. cbn [option_map].
  set (vol := Z.min PCM_VOLUME_1 (Z.max 0 v)).
  assert ((if PCM_VOLUME_1 <? v then PCM_VOLUME_1 else if v <? 0 then 0 else v) = vol) as ->.
  { unfold vol, PCM_VOLUME_1. case_Z; lia. }
  assert (0 <= vol <= PCM_VOLUME_1) as Hv by (unfold vol, PCM_VOLUME_1; lia).
  eapply wp_mono; [by apply (pcm_add_vol_ok b1 b2 size vol)|]. intros [[ok b] st] [Hb H].
  split; [done|]. destruct (volume_implemented _); [|done]. destruct H as [-> H]. done.
Qed.

(** Noise shaping: the errors that are carried from sample to sample stay
    bounded, so that no arithmetic overflows and every 16 bit sample is within
    its width and within 1148 units of 24 bits of the sample it replaces,
    however long the stream. *)
Theorem pcm_dither_bounded l24 l32 d :
  Forall (in_bits 24) l24 -> Forall (in_bits 32) l32 -> dither_inv d ->
  wp (pcm_dither_24_to_16 l24 d) (fun '(l', d') => Forall2 dithered l24 l' /\ dither_inv d') /\
  wp (pcm_dither_32_to_16 l32 d) (fun '(l', d') =>
    Forall2 (fun x y => dithered (Z.shiftr x 8) y) l32 l' /\ dither_inv d').
Proof. intros H1 H2 Hd. split; [by apply pcm_dither_24_to_16_ok|by apply pcm_dither_32_to_16_ok]. Qed.

(** C31: DSD is converted by a symmetric filter over the last twelve bytes of
    each channel: the ring buffer of sixteen bytes, whose older bytes have
    been reversed in place, implements it from the first byte on and across
    calls. *)
Theorem pcm_dsd_to_float_refines dsd hs channels lsbf frames src :
  dsd_inv dsd hs -> (0 < channels <= 32)%nat -> in_frames channels frames src -> frames <> [] ->
  Forall is_byte src -> Z.of_nat (length src) < 2 ^ 32 ->
  wp (pcm_dsd_to_float dsd (Z.of_nat channels) lsbf src) (fun '(r, dsd') =>
    r = interleave (length frames)
          (map (fun c => (filter_bytes lsbf (map (fun fr : list Z => nth c fr 0) frames) (nth c hs [])).1)
             (seq 0 channels)) /\
    length r = length src /\
    dsd_inv dsd' (histories lsbf channels (length frames) src 0 channels hs)).
Proof.
  intros Hi Hc Hf Hne Hb Hs. eapply wp_mono; [by apply (pcm_dsd_to_float_ok dsd hs channels lsbf frames src)|].
  intros [r dsd'] [-> Hi']. destruct Hf as [-> Hf]. rewrite (concat_length _ _ Hf). split_and!; [|..|done].
  - f_equal. apply map_ext_in. intros c Hin. apply in_seq in Hin.
    unfold channel_output. by rewrite strided_frames by (done || lia).
  - rewrite interleave_length; [by rewrite length_map, length_seq, Nat.mul_comm|].
    apply Forall_map, Forall_forall. intros c Hin. apply elem_of_seq in Hin.
    unfold channel_output. rewrite filter_bytes_length, strided_frames by (done || lia). apply length_map.
Qed.

(** 24 bit samples that are packed into three bytes each and unpacked
    again are the same, sign included. *)
Theorem pcm_pack_roundtrip samples :
  Forall (in_bits 24) samples ->
  exists packed, pcm_pack_24 (concat (map (sample_bytes 4) samples)) = Ok packed /\
    length packed = (3 * length samples)%nat /\
    pcm_unpack_24 packed = Ok (concat (map (sample_bytes 4) samples)).
Proof.
  intros Hs. destruct (pack_unpack_ok samples Hs) as [H1 H2]. eexists. split; [exact H1|].
  split; [|done]. by rewrite (concat_length _ _ (proj2 (sample_frames 3 samples))), length_map.
Qed.

(** The loops over words of 16, 32 and 64 bits reverse bytes exactly as
    the generic loop does, and reversing twice changes nothing. *)
Theorem reverse_bytes_equivalent `{BSOk : ByteSwapOk} n frames :
  (0 < n)%nat -> Forall (word_cells n) frames ->
  exists r, reverse_bytes (concat frames) n = Ok r /\ reverse_bytes_generic (concat frames) n = Ok r /\
    reverse_bytes r n = Ok (concat frames).
Proof.
  intros Hn Hf. exists (concat (map (@rev (option Z)) frames)).
  split; [by apply reverse_bytes_ok|]. split.
  { apply reverse_bytes_generic_ok; [done|]. eapply Forall_impl; [exact Hf|]. by intros fr []. }
  rewrite reverse_bytes_ok; [|done|].
  - rewrite map_map. do 2 f_equal. rewrite <- (map_id frames) at 2. apply map_ext. apply rev_involutive.
  - apply Forall_map. eapply Forall_impl; [exact Hf|]. intros fr [Hl Hw]. split; [by rewrite length_rev|].
    destruct Hw as [(l & -> & Hb)| ->]; [left|right; apply rev_replicate].
    exists (rev l). rewrite map_rev. split; [done|]. by apply Forall_rev.
Qed.

(** C32: after [pcm_export_open()] every sample is exported by itself: packed
    or shifted, then reversed, as requested; the result has the size that
    [pcm_export_frame_size()] promises, and [pcm_export_source_size()]
    converts it back.  With DSD over USB two bytes of each channel travel in
    one sample with alternating markers; if the number of frames is odd, the
    last one is not written. *)
Theorem pcm_export_correct `{BSOk : ByteSwapOk} s0 f channels rate dsd shift8 pack rv :
  audio_valid_sample_format f = true -> (1 <= channels <= 8)%nat -> shift8 && pack = false ->
  wp (pcm_export_open s0 f (Z.of_nat channels) dsd shift8 pack rv) (fun s =>
    let size := exported_size s (source_size s f) in
    pcm_export_frame_size s (AudioFormat rate f (Z.of_nat channels)) = Z.of_nat size * Z.of_nat channels /\
    (ex_dsd_usb s = false -> forall samples,
      Forall (word_cells (source_size s f)) samples -> Z.of_nat (length (concat samples)) < 2 ^ 59 ->
      wp (pcm_export s (concat samples)) (fun '(r, _) =>
        r = concat (map (exported s) samples) /\ length r = (size * length samples)%nat /\
        pcm_export_source_size s (Z.of_nat (length r)) = Z.of_nat (length (concat samples)))) /\
    (ex_dsd_usb s = true -> forall frames,
      Forall (fun fr => length fr = channels) frames -> frames <> [] ->
      Z.of_nat (channels * length frames) < 2 ^ 30 ->
      wp (pcm_export s (map Some (concat frames))) (fun '(r, _) =>
        r = concat (map (fun w => exported s (store_word 4 w)) (usb_samples channels frames)) /\
        length r = (size * (channels * (length frames / 2)))%nat /\
        pcm_export_source_size s (Z.of_nat (length r)) = Z.of_nat (channels * (2 * (length frames / 2)))))).
Proof.
  intros Hf Hc Hsp. assert (audio_valid_channel_count (Z.of_nat channels) = true) as Hv.
  { unfold audio_valid_channel_count, MAX_CHANNELS. by rewrite !(proj2 (Z.leb_le _ _)) by lia. }
  eapply wp_mono; [by apply (pcm_export_open_ok s0 f (Z.of_nat channels) dsd shift8 pack rv)|].
  intros s (Hi & Hch & _). cbv zeta. split; [apply pcm_export_frame_size_ok; (done || lia)|].
  split; intros Hd.
  - intros samples Hw Hs. eapply wp_mono; [apply (pcm_export_ok s (source_size s f)); (done || lia)|].
    intros [r s'] [-> Hl]. split; [done|]. split; [done|]. rewrite Hl.
    rewrite (concat_length (source_size s f)) in Hs |- * by (eapply Forall_impl; [exact Hw|]; by intros fr []).
    pose proof Hi as [Hsize _]. rewrite pcm_export_source_size_ok; [|done|nia]. by rewrite Hd.
  - intros frames Hfr Hne Hs. assert (source_size s f = 4%nat) as E by (unfold source_size; by rewrite Hd).
    rewrite E in Hi |- *. eapply wp_mono; [by apply (pcm_export_dsd_ok s channels)|].
    intros [r s'] [-> Hl]. split; [done|]. split; [done|]. rewrite Hl.
    assert (length frames / 2 <= length frames)%nat by (apply Nat.Div0.div_le_upper_bound; lia).
    rewrite pcm_export_source_size_ok; [|done|nia]. rewrite Hd.
    replace (4 * (channels * (length frames / 2)))%nat with (channels * (2 * (length frames / 2)) * 2)%nat by lia.
    rewrite Nat2Z.inj_mul. by rewrite Z.div_mul.
Qed.

(** A valid audio format that is printed is read back, in both modes of
    the parser; whatever text is accepted is valid, and the assertion that
    says so never fails. *)
Theorem audio_format_roundtrip mask :
  (forall af, audio_format_valid af = true ->
    audio_format_parse (audio_format_to_string af) mask = Ok (MPD_SUCCESS, af)) /\
  (forall src af, audio_format_parse src mask = Ok (MPD_SUCCESS, af) ->
    if mask then audio_format_mask_valid af = true else audio_format_valid af = true) /\
  (forall src f, audio_format_parse src mask = Err f -> f = OutOfBounds).
Proof.
  split_and!; [|by intros; eapply audio_format_parse_valid|by intros; eapply audio_format_parse_asserts].
  intros af. by apply audio_format_parse_print.
Qed.

(** ** Instances of the theorems *)

(** Three stereo frames of 16 bits become two mono samples of 24 bits. *)
Lemma pcm_convert_correct_witness :
  wp (pcm_convert pcm_convert_init (AudioFormat 44100 SAMPLE_FORMAT_S16 2) (PcmS16 [100; 200; 300; -400; 0; 7])
        (AudioFormat 22050 SAMPLE_FORMAT_S24_P32 1)) (fun '(r, s') => dither_inv (cv_dither s') /\
    exists l, r = Converted24 (map Some l) /\ samples_ok 24 2 l /\ exists buf, Forall2 (rescaled 16 24) [100; 200; 300; -400; 0; 7] buf).
Proof.
  eapply wp_mono; [apply (pcm_convert_correct (AudioFormat 44100 SAMPLE_FORMAT_S16 2)
    (AudioFormat 22050 SAMPLE_FORMAT_S24_P32 1) 3 pcm_convert_init _ 24 Converted24)|].
  - unfold chain_implemented, rates_ok. simpl. split_and!; lia || (by right) || (right; lia).
  - reflexivity.
  - simpl. unfold in_bits. repeat constructor; vm_compute; intuition discriminate.
  - reflexivity.
  - exact I.
  - unfold dither_inv. simpl. lia.
  - reflexivity.
  - intros [r s'] [Hd (buf & frames & Hb & _ & _ & -> & H)]. split; [done|]. eexists. split; [done|].
    split; [exact H|]. by exists buf.
Defined.

Lemma pcm_volume_correct_witness :
  wp (pcm_volume (PcmS16 [1000; -32768; 32767]) 512 0) (fun '(ok, d', _) => pcm_valid d' /\ ok = true /\
    exists x y z, d' = PcmS16 [x; y; z]).
Proof.
  eapply wp_mono; [apply (pcm_volume_correct (PcmS16 [1000; -32768; 32767]) 512 0)|].
  - simpl. unfold in_bits. repeat constructor; vm_compute; intuition discriminate.
  - lia.
  - intros [[ok d'] st] [Hd H]. split; [done|]. simpl in H. destruct H as [-> H]. split; [done|].
    destruct d' as [l|l|l|l|l|l|l]; try done. simpl in H.
    inversion H as [|? x ? l1 _ H1]; subst. inversion H1 as [|? y ? l2 _ H2]; subst.
    inversion H2 as [|? z ? l3 _ H3]; subst. inversion H3; subst. by exists x, y, z.
Defined.

(** The sine is one at the end of a fade; the first buffer is heard alone. *)
Lemma pcm_mix_correct_witness :
  wp (pcm_mix (fun _ => f64_of_Z 1) (PcmS16 [1000; 5; 7]) (PcmS16 [-9; 12; 4]) 4 (f32_of_Z 1) 0)
    (fun '(ok, b, _) => pcm_valid b /\ ok = true).
Proof.
  pose proof (pcm_mix_correct (fun _ => f64_of_Z 1) (PcmS16 [1000; 5; 7]) (PcmS16 [-9; 12; 4]) 4 (f32_of_Z 1) 0) as H.
  assert (f_is_nan (f32_of_Z 1) = false) as E1 by (by vm_compute).
  assert (mix_volume (fun _ => f64_of_Z 1) (f32_of_Z 1) = Some 1024) as E2 by (by vm_compute).
  rewrite E1, E2 in H. eapply wp_mono; [apply H|].
  - simpl. unfold in_bits. repeat constructor; vm_compute; intuition discriminate.
  - simpl. unfold in_bits. repeat constructor; vm_compute; intuition discriminate.
  - reflexivity.
  - unfold has_bytes, pcm_size. simpl. lia.
  - unfold has_bytes, pcm_size. simpl. lia.
  - intros [[ok b] st] [Hb [Hok _]]. by split.
Defined.

Lemma pcm_dither_bounded_witness :
  wp (pcm_dither_24_to_16 [8388607; -8388608; 0] pcm_dither_24_init) (fun '(l', d') =>
    Forall2 dithered [8388607; -8388608; 0] l' /\ dither_inv d').
Proof.
  apply (pcm_dither_bounded [8388607; -8388608; 0] [] pcm_dither_24_init).
  - unfold in_bits. repeat constructor; vm_compute; intuition discriminate.
  - constructor.
  - unfold dither_inv. simpl. lia.
Defined.

(** Two frames of stereo, from the start. *)
Lemma pcm_dsd_to_float_refines_witness :
  wp (pcm_dsd_to_float pcm_dsd_init 2 false [0x69; 0xff; 0x69; 0]) (fun '(r, dsd') => length r = 4%nat).
Proof.
  eapply wp_mono; [apply (pcm_dsd_to_float_refines pcm_dsd_init (replicate 32 filter_init) 2 false
    [[0x69; 0xff]; [0x69; 0]] [0x69; 0xff; 0x69; 0])|].
  - apply pcm_dsd_init_inv.
  - lia.
  - split; [reflexivity|repeat constructor].
  - done.
  - unfold is_byte. repeat constructor; lia.
  - simpl. lia.
  - by intros [r dsd'] (_ & H & _).
Defined.

Lemma pcm_pack_roundtrip_witness :
  exists packed, pcm_pack_24 (concat (map (sample_bytes 4) [1; -1; -8388608; 8388607])) = Ok packed /\
    length packed = 12%nat /\
    pcm_unpack_24 packed = Ok (concat (map (sample_bytes 4) [1; -1; -8388608; 8388607])).
Proof.
  apply (pcm_pack_roundtrip [1; -1; -8388608; 8388607]). unfold in_bits.
  repeat constructor; vm_compute; intuition discriminate.
Defined.

Lemma reverse_bytes_equivalent_witness :
  exists r, reverse_bytes (map Some [1; 2; 3; 4]) 2 = Ok r /\
    reverse_bytes_generic (map Some [1; 2; 3; 4]) 2 = Ok r /\
    reverse_bytes r 2 = Ok (map Some [1; 2; 3; 4]).
Proof.
  apply (reverse_bytes_equivalent 2 [[Some 1; Some 2]; [Some 3; Some 4]]); [lia|].
  apply Forall_cons; split; [|apply Forall_cons; split; [|apply Forall_nil_2]]; (split; [reflexivity|left]).
  - exists [1; 2]. split; [reflexivity|]. unfold is_byte. repeat constructor; lia.
  - exists [3; 4]. split; [reflexivity|]. unfold is_byte. repeat constructor; lia.
Defined.

(** Five DSD frames over USB, packed and in reverse byte order. *)
Lemma pcm_export_correct_witness :
  wp (pcm_export_open (PcmExport pcm_buffer_init pcm_buffer_init pcm_buffer_init 0 false false false 0)
        SAMPLE_FORMAT_DSD 1 true false true true) (fun s =>
    ex_dsd_usb s = true -> wp (pcm_export s (map Some [1; 2; 3; 4; 5])) (fun '(r, _) =>
      pcm_export_source_size s (Z.of_nat (length r)) = 4)).
Proof.
  eapply wp_mono; [apply (pcm_export_correct (PcmExport pcm_buffer_init pcm_buffer_init pcm_buffer_init
    0 false false false 0) SAMPLE_FORMAT_DSD 1 88200 true false true true); (done || lia)|].
  intros s (_ & _ & H2). cbv zeta in *. intros E.
  eapply wp_mono; [apply (H2 E [[1]; [2]; [3]; [4]; [5]])|].
  - repeat constructor.
  - done.
  - simpl. lia.
  - by intros [r s'] (_ & _ & H).
Defined.

Lemma audio_format_roundtrip_witness :
  audio_format_parse (lit "44100:24:2") false = Ok (MPD_SUCCESS, AudioFormat 44100 SAMPLE_FORMAT_S24_P32 2).
Proof. by apply (proj1 (audio_format_roundtrip false) (AudioFormat 44100 SAMPLE_FORMAT_S24_P32 2)). Defined.
