(* ===== verification/TagPool.v ===== *)
(** * The pool of tag values

    [src/tag_pool.c]: values are interned in a hash table of linked lists and
    counted; an item is the address of its slot.  The caller holds
    [tag_pool_lock]. *)

From stdpp Require Export gmap gmultiset list.
From S2P Require Import Prelude CString.

Local Open Scope Z_scope.

(** ** Types of tags *)

Inductive tag_type :=
| TAG_ARTIST | TAG_ARTIST_SORT | TAG_ALBUM | TAG_ALBUM_ARTIST | TAG_ALBUM_ARTIST_SORT | TAG_TITLE
| TAG_TRACK | TAG_NAME | TAG_GENRE | TAG_DATE | TAG_COMPOSER | TAG_PERFORMER | TAG_COMMENT | TAG_DISC
| TAG_MUSICBRAINZ_ARTISTID | TAG_MUSICBRAINZ_ALBUMID | TAG_MUSICBRAINZ_ALBUMARTISTID
| TAG_MUSICBRAINZ_TRACKID.

#[global] Instance tag_type_eq_dec : EqDecision tag_type.
Proof. solve_decision. Defined.

(** In the order of their codes. *)
Definition tag_types : list tag_type :=
  [TAG_ARTIST; TAG_ARTIST_SORT; TAG_ALBUM; TAG_ALBUM_ARTIST; TAG_ALBUM_ARTIST_SORT; TAG_TITLE; TAG_TRACK;
   TAG_NAME; TAG_GENRE; TAG_DATE; TAG_COMPOSER; TAG_PERFORMER; TAG_COMMENT; TAG_DISC;
   TAG_MUSICBRAINZ_ARTISTID; TAG_MUSICBRAINZ_ALBUMID; TAG_MUSICBRAINZ_ALBUMARTISTID; TAG_MUSICBRAINZ_TRACKID].

Definition tag_type_code (t : tag_type) : Z :=
  match list_find (fun u => u = t) tag_types with Some (i, _) => Z.of_nat i | None => 0 end.

Definition TAG_NUM_OF_ITEM_TYPES : Z := 18.

(** ** Memory *)

Definition loc : Type := positive.

(** [item.value] is the bytes that were copied; as a string it ends at the
    first null byte. *)
Record slot := Slot {
  s_next : option loc;
  s_ref : Z;
  s_type : tag_type;
  s_value : cstring;
}.

Record pool := Pool {
  p_slots : list (option loc);
  p_mem : gmap loc slot;
}.

Definition NUM_SLOTS : Z := 4096.

(** [static struct slot *slots[NUM_SLOTS]], before the first item. *)
Definition pool_init : pool := Pool (replicate (Z.to_nat NUM_SLOTS) None) ∅.

Definition is_nul (c : ascii) : bool := char_code c =? 0.

(** The string that begins at these bytes. *)
Definition c_str (s : cstring) : cstring := (span (fun c => negb (is_nul c)) s).1.

Definition load (p : pool) (l : loc) : res slot :=
  match p_mem p !! l with Some s => Ok s | None => Err OutOfBounds end.
Definition store (l : loc) (s : slot) (p : pool) : pool := Pool (p_slots p) (<[l := s]> (p_mem p)).

Definition set_ref (r : Z) (s : slot) : slot := Slot (s_next s) r (s_type s) (s_value s).
Definition set_next (n : option loc) (s : slot) : slot := Slot n (s_ref s) (s_type s) (s_value s).

(** ** Hashing *)

(** [char] is signed. *)
Definition schar (c : ascii) : Z := if 128 <=? char_code c then char_code c - 256 else char_code c.

Definition hash_step (hash : Z) (c : ascii) : Z := u32 (u32 (u32 (Z.shiftl hash 5) + hash) + schar c).

(** [length] bytes. *)
Definition calc_hash_n (type : tag_type) (p : cstring) : Z :=
  Z.lxor (foldl hash_step 5381 p) (tag_type_code type).
(** Up to the null byte. *)
Definition calc_hash (type : tag_type) (p : cstring) : Z :=
  Z.lxor (foldl hash_step 5381 (c_str p)) (tag_type_code type).

(** ** Operations *)

(** The index of a chain. *)
Definition bucket (hash : Z) : nat := Z.to_nat (hash `mod` NUM_SLOTS).

Definition slot_alloc (next : option loc) (type : tag_type) (value : cstring) (p : pool) : loc * pool :=
  let l := fresh (dom (p_mem p)) in (l, store l (Slot next 1 type value) p).

(** [*slot_p = slot] for the head of a chain. *)
Definition set_head (i : nat) (h : option loc) (p : pool) : pool := Pool (<[i := h]> (p_slots p)) (p_mem p).

Definition get_head (p : pool) (i : nat) : res (option loc) :=
  match p_slots p !! i with Some h => Ok h | None => Err OutOfBounds end.

(** The loop of [tag_pool_get_item()]: the slot that is shared. *)
Fixpoint get_loop (fuel : nat) (p : pool) (type : tag_type) (value : cstring) (slot : option loc)
  : res (option loc) :=
  match slot with
  | None => Ok None
  | Some l =>
      match fuel with
      | O => Err OutOfFuel
      | S fuel =>
          s ← load p l;
          if bool_decide (s_type s = type) && (length value =? length (c_str (s_value s)))%nat
             && bool_decide (take (length value) (s_value s) = value) && (s_ref s <? 0xff)
          then assert (0 <? s_ref s);; Ok (Some l)
          else get_loop fuel p type value (s_next s)
      end
  end.

Definition fuel_of (p : pool) : nat := S (size (p_mem p)).

(** A new slot at the head of its chain. *)
Definition insert_item (type : tag_type) (value : cstring) (i : nat) (p : pool) : res (loc * pool) :=
  h ← get_head p i;
  let '(l, p) := slot_alloc h type value p in
  Ok (l, set_head i (Some l) p).

Definition tag_pool_get_item (type : tag_type) (value : cstring) (p : pool) : res (loc * pool) :=
  let i := bucket (calc_hash_n type value) in
  h ← get_head p i;
  r ← get_loop (fuel_of p) p type value h;
  match r with
  | Some l => s ← load p l; Ok (l, store l (set_ref (u8 (s_ref s + 1)) s) p)
  | None => insert_item type value i p
  end.

Definition tag_pool_dup_item (item : loc) (p : pool) : res (loc * pool) :=
  s ← load p item;
  assert (0 <? s_ref s);;
  if s_ref s <? 0xff then Ok (item, store item (set_ref (u8 (s_ref s + 1)) s) p)
  else
    let value := c_str (s_value s) in
    insert_item (s_type s) value (bucket (calc_hash_n (s_type s) value)) p.

(** [struct slot **slot_p]. *)
Inductive slot_ref := InHead (i : nat) | InNext (l : loc).

Definition read_ref (r : slot_ref) (p : pool) : res (option loc) :=
  match r with
  | InHead i => get_head p i
  | InNext l => s ← load p l; Ok (s_next s)
  end.

Definition write_ref (r : slot_ref) (n : option loc) (p : pool) : res pool :=
  match r with
  | InHead i => Ok (set_head i n p)
  | InNext l => s ← load p l; Ok (store l (set_next n s) p)
  end.

(** The loop of [tag_pool_put_item()]: where the slot is linked. *)
Fixpoint put_loop (fuel : nat) (p : pool) (slot : loc) (slot_p : slot_ref) : res slot_ref :=
  match fuel with
  | O => Err OutOfFuel
  | S fuel =>
      cur ← read_ref slot_p p;
      if bool_decide (cur = Some slot) then Ok slot_p
      else match cur with
           | None => Err AssertFailed
           | Some l => put_loop fuel p slot (InNext l)
           end
  end.

Definition tag_pool_put_item (item : loc) (p : pool) : res pool :=
  s ← load p item;
  assert (0 <? s_ref s);;
  let ref := u8 (s_ref s - 1) in
  let p := store item (set_ref ref s) p in
  if 0 <? ref then Ok p else
  slot_p ← put_loop (fuel_of p) p item (InHead (bucket (calc_hash (s_type s) (s_value s))));
  p ← write_ref slot_p (s_next s) p;
  Ok (Pool (p_slots p) (delete item (p_mem p))).

(** * The pool of tag values: proofs

    The hash table is well formed and every reference count is the number of
    references that are held: a slot is freed with its last reference and
    never before. *)

(** ** Chains *)

(** The slots [c] are linked from [h], the last one ends the chain. *)
Fixpoint chain (mem : gmap loc slot) (h : option loc) (c : list loc) : Prop :=
  match c with
  | [] => h = None
  | l :: c => h = Some l /\ exists s, mem !! l = Some s /\ chain mem (s_next s) c
  end.

Lemma chain_none mem c : chain mem None c -> c = [].
Proof. destruct c as [|l c]; [done|]. by intros [? _]. Qed.

(** A change of memory that keeps the links of the chain. *)
Lemma chain_ext mem mem' h c :
  (forall l s, l ∈ c -> mem !! l = Some s -> exists s', mem' !! l = Some s' /\ s_next s' = s_next s) ->
  chain mem h c -> chain mem' h c.
Proof.
  revert h. induction c as [|l c IH]; intros h Hext; [done|]. intros [-> (s & Hs & Hc)]. split; [done|].
  destruct (Hext l s) as (s' & Hs' & Hn); [by left|done|]. exists s'. split; [done|]. rewrite Hn.
  apply IH; [|done]. intros l' s1 Hl'. apply Hext. by right.
Qed.

Lemma chain_lookup mem h c l : chain mem h c -> l ∈ c -> is_Some (mem !! l).
Proof.
  revert h. induction c as [|l' c IH]; intros h; [by intros _ ?%not_elem_of_nil|].
  intros [-> (s & Hs & Hc)] [->|Hl]%elem_of_cons; eauto.
Qed.

Lemma chain_insert mem h c l s : l ∉ c -> chain mem h c -> chain (<[l := s]> mem) h c.
Proof.
  intros Hl. apply chain_ext. intros l' s' Hl' Hs'. exists s'. rewrite lookup_insert_ne; [done|]. by intros ->.
Qed.

Lemma chain_delete mem h c l : l ∉ c -> chain mem h c -> chain (delete l mem) h c.
Proof.
  intros Hl. apply chain_ext. intros l' s' Hl' Hs'. exists s'. rewrite lookup_delete_ne; [done|]. by intros ->.
Qed.

(** ** The invariant *)

(** The bytes of a value are a string. *)
Definition no_nul (s : cstring) : Prop := forallb (fun c => negb (is_nul c)) s = true.

Lemma c_str_no_nul s : no_nul s -> c_str s = s.
Proof.
  unfold no_nul, c_str. induction s as [|c s IH]; [done|]. simpl. intros [Hc Hs]%andb_prop. rewrite Hc.
  specialize (IH Hs). destruct (span _ s) as [a b]. simpl in *. by rewrite IH.
Qed.

Lemma c_str_is_no_nul s : no_nul (c_str s).
Proof.
  unfold no_nul, c_str. induction s as [|c s IH]; [done|]. simpl. destruct (negb (is_nul c)) eqn:Hc; [|done].
  destruct (span _ s) as [a b]. simpl in *. by rewrite Hc.
Qed.

Definition slot_bucket (s : slot) : nat := bucket (calc_hash_n (s_type s) (s_value s)).

(** [chains i] are the slots of chain [i], [refs] the references that are
    held. *)
Record pool_inv (p : pool) (refs : gmultiset loc) (chains : nat -> list loc) : Prop := {
  inv_slots : length (p_slots p) = Z.to_nat NUM_SLOTS;
  inv_chain i h : p_slots p !! i = Some h -> chain (p_mem p) h (chains i);
  inv_nodup i : NoDup (chains i);
  inv_member l s : p_mem p !! l = Some s -> l ∈ chains (slot_bucket s);
  inv_bucket i l s : l ∈ chains i -> p_mem p !! l = Some s -> i = slot_bucket s;
  inv_exists i l : l ∈ chains i -> is_Some (p_mem p !! l);
  inv_count l s : p_mem p !! l = Some s ->
    s_ref s = Z.of_nat (multiplicity l refs) /\ 0 < s_ref s < 256 /\ no_nul (s_value s);
  inv_held l : l ∈ refs -> is_Some (p_mem p !! l);
}.

Definition pool_ok (p : pool) (refs : gmultiset loc) : Prop := exists chains, pool_inv p refs chains.

(** What a reference stands for. *)
Definition item_at (p : pool) (l : loc) : option (tag_type * cstring) :=
  (fun s => (s_type s, s_value s)) <$> p_mem p !! l.

(** Items that are held keep their type and value. *)
Definition items_kept (p p' : pool) (refs : gmultiset loc) : Prop :=
  forall l, l ∈ refs -> item_at p' l = item_at p l.

Lemma pool_init_ok : pool_ok pool_init ∅.
Proof.
  exists (fun _ => []). unfold pool_init. split; cbn [p_slots p_mem].
  - apply length_replicate.
  - intros i h Hh. by apply lookup_replicate in Hh as [-> _].
  - intros i. constructor.
  - intros l s Hl. by rewrite lookup_empty in Hl.
  - intros i l s Hl. by apply not_elem_of_nil in Hl.
  - intros i l Hl. by apply not_elem_of_nil in Hl.
  - intros l s Hl. by rewrite lookup_empty in Hl.
  - intros l Hl. by apply gmultiset_not_elem_of_empty in Hl.
Qed.

Lemma bucket_bound h : 0 <= h -> (bucket h < Z.to_nat NUM_SLOTS)%nat.
Proof. intros Hh. unfold bucket, NUM_SLOTS. pose proof (Z.mod_pos_bound h 4096). lia. Qed.

Lemma tag_type_code_range t : 0 <= tag_type_code t < 18.
Proof. destruct t; vm_compute; split; discriminate || done. Qed.

Lemma hash_nonneg v h : 0 <= h -> 0 <= foldl hash_step h v.
Proof.
  revert h. induction v as [|c v IH]; intros h Hh; [done|]. simpl. apply IH. apply u32_range.
Qed.

Lemma calc_hash_n_nonneg t v : 0 <= calc_hash_n t v.
Proof.
  unfold calc_hash_n. apply Z.lxor_nonneg. pose proof (tag_type_code_range t).
  pose proof (hash_nonneg v 5381). split; intros; lia.
Qed.

Lemma calc_hash_eq t v : no_nul v -> calc_hash t v = calc_hash_n t v.
Proof. intros Hv. unfold calc_hash. by rewrite c_str_no_nul. Qed.

Lemma head_ok p refs chains t v :
  pool_inv p refs chains ->
  exists h, p_slots p !! bucket (calc_hash_n t v) = Some h /\
    get_head p (bucket (calc_hash_n t v)) = Ok h /\ chain (p_mem p) h (chains (bucket (calc_hash_n t v))).
Proof.
  intros Hi. pose proof (bucket_bound _ (calc_hash_n_nonneg t v)) as Hb.
  rewrite <- (inv_slots _ _ _ Hi) in Hb. apply lookup_lt_is_Some_2 in Hb as [h Hh].
  exists h. split; [done|]. split; [unfold get_head; by rewrite Hh|]. by apply (inv_chain _ _ _ Hi).
Qed.

(** ** Searching *)

Lemma chain_fuel p refs chains i : pool_inv p refs chains -> (length (chains i) < fuel_of p)%nat.
Proof.
  intros Hi. unfold fuel_of. rewrite <- size_dom.
  rewrite <- (size_list_to_set (C := gset loc) (chains i)) by apply (inv_nodup _ _ _ Hi).
  apply Nat.lt_succ_r, subseteq_size. intros l Hl. apply elem_of_list_to_set in Hl.
  apply elem_of_dom. by apply (inv_exists _ _ _ Hi i).
Qed.

Lemma get_loop_ok p refs chains t v c h fuel :
  pool_inv p refs chains -> chain (p_mem p) h c -> (length c < fuel)%nat ->
  wp (get_loop fuel p t v h) (fun r =>
    match r with
    | Some l => exists s, p_mem p !! l = Some s /\ s_type s = t /\ s_value s = v /\ s_ref s < 255
    | None => forall l s, l ∈ c -> p_mem p !! l = Some s -> s_type s = t -> s_value s = v -> s_ref s = 255
    end).
Proof.
  intros Hi. revert h fuel. induction c as [|l c IH]; intros h fuel Hc Hf.
  { simpl in Hc. subst h. destruct fuel; simpl; intros l s Hl; by apply not_elem_of_nil in Hl. }
  destruct Hc as [-> (s & Hs & Hc)]. destruct fuel as [|fuel]; [simpl in Hf; lia|].
  cbn [get_loop]. unfold load. rewrite Hs. cbn [mbind res_bind].
  destruct (inv_count _ _ _ Hi l s Hs) as (Hcount & Hr & Hnul). rewrite (c_str_no_nul _ Hnul).
  destruct (bool_decide (s_type s = t) && (length v =? length (s_value s))%nat &&
    bool_decide (take (length v) (s_value s) = v) && (s_ref s <? 0xff)) eqn:E.
  - apply andb_prop in E as [E Hlt]. apply andb_prop in E as [E Hv]. apply andb_prop in E as [Ht Hlen].
    apply bool_decide_eq_true in Ht, Hv. apply Nat.eqb_eq in Hlen. apply Z.ltb_lt in Hlt.
    rewrite take_ge in Hv by lia. apply wp_bind, wp_assert; [apply Z.ltb_lt; lia|]. simpl. exists s. repeat split; (done || lia).
  - eapply wp_mono; [apply (IH _ fuel Hc); simpl in Hf; lia|]. intros [l'|]; [done|].
    intros Hnone l' s' [->|Hl']%elem_of_cons Hs' Ht Hv; [|by apply (Hnone l')].
    simplify_eq. rewrite !bool_decide_true, Nat.eqb_refl in E by (reflexivity || apply firstn_all).
    simpl in E. apply Z.ltb_ge in E. lia.
Qed.

(** ** Preservation *)

Lemma pool_inv_count p refs chains l s :
  pool_inv p refs chains -> p_mem p !! l = Some s -> 0 < s_ref s < 256.
Proof. intros Hi Hs. by destruct (inv_count _ _ _ Hi l s Hs) as (_ & ? & _). Qed.

(** The counter of one slot changes with the references to it. *)
Lemma set_ref_inv p refs refs' chains l s r :
  pool_inv p refs chains -> p_mem p !! l = Some s -> 0 < r < 256 ->
  r = Z.of_nat (multiplicity l refs') ->
  (forall l', l' <> l -> multiplicity l' refs' = multiplicity l' refs) ->
  pool_inv (store l (set_ref r s) p) refs' chains.
Proof.
  intros Hi Hs Hr Hc Ho.
  assert (Hlook : forall l' s', <[l := set_ref r s]> (p_mem p) !! l' = Some s' ->
    exists s0, p_mem p !! l' = Some s0 /\ slot_bucket s' = slot_bucket s0 /\ s_value s' = s_value s0 /\
      (l' = l /\ s' = set_ref r s \/ l' <> l /\ s' = s0)).
  { intros l' s' [[<- <-]|[Hne H]]%lookup_insert_Some; [exists s; by auto 6|].
    exists s'. assert (l' <> l) by congruence. by auto 6. }
  split; cbn [store p_slots p_mem]; try apply Hi.
  - intros i h Hh. eapply chain_ext; [|apply (inv_chain _ _ _ Hi i h Hh)].
    intros l' s' _ Hs'. destruct (decide (l' = l)) as [->|Hne].
    + simplify_eq. rewrite lookup_insert_eq. by eexists.
    + rewrite lookup_insert_ne by done. by exists s'.
  - intros l' s' (s0 & H0 & -> & _)%Hlook. by apply (inv_member _ _ _ Hi).
  - intros i l' s' Hl' (s0 & H0 & -> & _)%Hlook. by apply (inv_bucket _ _ _ Hi _ l').
  - intros i l' Hl'. rewrite lookup_insert_is_Some.
    destruct (decide (l = l')); [by left|]. right. split; [done|]. by apply (inv_exists _ _ _ Hi i).
  - intros l' s' (s0 & H0 & _ & -> & [[-> ->]|[Hne ->]])%Hlook;
      destruct (inv_count _ _ _ Hi _ _ H0) as (Hc0 & Hr0 & Hn0); [done|]. by rewrite Ho.
  - intros l' Hl'. rewrite lookup_insert_is_Some'. destruct (decide (l' = l)) as [->|Hne]; [by left|]. right.
    apply (inv_held _ _ _ Hi). unfold elem_of, gmultiset_elem_of in *. by rewrite <- Ho.
Qed.

Lemma fresh_slot p refs chains l :
  pool_inv p refs chains -> p_mem p !! l = None -> l ∉ refs /\ (forall i, l ∉ chains i).
Proof.
  intros Hi Hl. split; [intros Hin; destruct (inv_held _ _ _ Hi l Hin); congruence|].
  intros i Hin. destruct (inv_exists _ _ _ Hi i l Hin). congruence.
Qed.

(** A new slot at the head of its chain has one reference. *)
Lemma insert_inv p refs chains t v h :
  pool_inv p refs chains -> no_nul v -> get_head p (bucket (calc_hash_n t v)) = Ok h ->
  let i := bucket (calc_hash_n t v) in let '(l, p') := slot_alloc h t v p in
  p_mem p !! l = None /\
  pool_inv (set_head i (Some l) p') (refs ⊎ {[+ l +]})
    (fun j => if decide (j = i) then l :: chains j else chains j).
Proof.
  intros Hi Hv Hh i. unfold slot_alloc. set (l := fresh (dom (p_mem p))).
  assert (Hl : p_mem p !! l = None) by apply not_elem_of_dom, is_fresh. split; [done|].
  destruct (fresh_slot _ _ _ _ Hi Hl) as [Hnr Hnc]. set (s := Slot h 1 t v).
  assert (Hb : slot_bucket s = i) by done.
  unfold get_head in Hh. destruct (p_slots p !! bucket (calc_hash_n t v)) as [h'|] eqn:Hh'; [|done].
  injection Hh as ->. fold i in Hh'.
  split; cbn [store set_head p_slots p_mem].
  - rewrite length_insert. apply Hi.
  - intros j h' [(<- & <- & _)|[Hne Hj]]%list_lookup_insert_Some.
    + rewrite decide_True by done. split; [done|]. exists s. rewrite lookup_insert_eq. split; [done|].
      apply chain_insert; [done|]. by apply (inv_chain _ _ _ Hi).
    + rewrite decide_False by done. apply chain_insert; [done|]. by apply (inv_chain _ _ _ Hi).
  - intros j. destruct (decide (j = i)); [constructor; [done|]|]; apply Hi.
  - intros l' s' [[<- <-]|[Hne Hs]]%lookup_insert_Some.
    + rewrite Hb, decide_True by done. by left.
    + apply (inv_member _ _ _ Hi) in Hs. destruct (decide _); [by right|done].
  - intros j l' s' Hl' [[<- <-]|[Hne Hs]]%lookup_insert_Some.
    + destruct (decide (j = i)) as [->|]; [done|]. by apply Hnc in Hl'.
    + apply (inv_bucket _ _ _ Hi j l'); [|done]. destruct (decide (j = i)); [|done].
      apply elem_of_cons in Hl' as [->|?]; done.
  - intros j l' Hl'. rewrite lookup_insert_is_Some. destruct (decide (l = l')); [by left|]. right.
    split; [done|]. apply (inv_exists _ _ _ Hi j). destruct (decide (j = i)); [|done].
    apply elem_of_cons in Hl' as [->|?]; done.
  - intros l' s' [[<- <-]|[Hne Hs]]%lookup_insert_Some; rewrite multiplicity_disj_union, multiplicity_singleton.
    + rewrite decide_True by done. apply not_elem_of_multiplicity in Hnr. rewrite Hnr. done.
    + rewrite decide_False, Nat.add_0_r by done. by apply (inv_count _ _ _ Hi).
  - intros l' [Hl'|Hl']%gmultiset_elem_of_disj_union; rewrite lookup_insert_is_Some.
    + destruct (decide (l = l')); [by left|]. right. split; [done|]. by apply (inv_held _ _ _ Hi).
    + apply gmultiset_elem_of_singleton in Hl' as ->. by left.
Qed.

(** ** Theorems on the operations *)

(** What an operation that returns a reference promises. *)
Definition gives (p : pool) (refs : gmultiset loc) (t : tag_type) (v : cstring) (r : loc * pool) : Prop :=
  pool_ok r.2 (refs ⊎ {[+ r.1 +]}) /\ item_at r.2 r.1 = Some (t, v) /\ items_kept p r.2 refs.

Lemma items_kept_set_ref p refs l s r :
  p_mem p !! l = Some s -> items_kept p (store l (set_ref r s) p) refs.
Proof.
  intros Hs l' _. unfold item_at. cbn [store p_mem]. destruct (decide (l' = l)) as [->|].
  - by rewrite lookup_insert_eq, Hs.
  - by rewrite lookup_insert_ne.
Qed.

Lemma share_gives p refs chains l s :
  pool_inv p refs chains -> p_mem p !! l = Some s -> s_ref s < 255 ->
  gives p refs (s_type s) (s_value s) (l, store l (set_ref (u8 (s_ref s + 1)) s) p).
Proof.
  intros Hi Hs Hr. destruct (inv_count _ _ _ Hi l s Hs) as (Hc & Hr0 & _).
  assert (Hu : u8 (s_ref s + 1) = s_ref s + 1) by (unfold u8; rewrite Z.mod_small; lia).
  rewrite Hu. split; [|split].
  - exists chains. cbn [fst snd]. eapply set_ref_inv; [done|done|lia| |].
    + rewrite multiplicity_disj_union, multiplicity_singleton, decide_True by done. lia.
    + intros l' Hne. rewrite multiplicity_disj_union, multiplicity_singleton, decide_False by done. lia.
  - unfold item_at. cbn [fst snd store p_mem]. by rewrite lookup_insert_eq.
  - by apply items_kept_set_ref.
Qed.

Lemma insert_gives p refs chains t v :
  pool_inv p refs chains -> no_nul v ->
  wp (insert_item t v (bucket (calc_hash_n t v)) p) (gives p refs t v).
Proof.
  intros Hi Hv. destruct (head_ok p refs chains t v Hi) as (h & _ & Hh & _).
  unfold insert_item. rewrite Hh. cbn [mbind res_bind].
  pose proof (insert_inv p refs chains t v h Hi Hv Hh) as H. cbv zeta in H.
  destruct (slot_alloc h t v p) as [l p'] eqn:E. destruct H as [Hl H]. injection E as <- <-. split; [|split].
  - eexists. exact H.
  - unfold item_at. cbn [fst snd set_head store p_mem]. by rewrite lookup_insert_eq.
  - intros l' Hl'. unfold item_at. cbn [fst snd set_head store p_mem]. rewrite lookup_insert_ne; [done|].
    intros Heq. destruct (inv_held _ _ _ Hi l' Hl') as [s Hs]. rewrite <- Heq in Hs. cbn [set_head store p_mem] in Hl. congruence.
Qed.

Lemma tag_pool_get_item_gives p refs t v :
  pool_ok p refs -> no_nul v -> wp (tag_pool_get_item t v p) (gives p refs t v).
Proof.
  intros [chains Hi] Hv. unfold tag_pool_get_item. destruct (head_ok p refs chains t v Hi) as (h & Hs & Hh & Hc).
  rewrite Hh. cbn [mbind res_bind].
  eapply wp_bind_mono; [eapply get_loop_ok; [done|done|by apply (chain_fuel _ _ _ _ Hi)]|].
  intros [l|].
  - intros (s & Hl & <- & <- & Hr). unfold load. rewrite Hl. by eapply share_gives.
  - intros _. by apply (insert_gives p refs chains).
Qed.

Lemma tag_pool_dup_item_gives p refs l t v :
  pool_ok p refs -> l ∈ refs -> item_at p l = Some (t, v) -> wp (tag_pool_dup_item l p) (gives p refs t v).
Proof.
  intros [chains Hi] Hl Hit. unfold item_at in Hit. destruct (inv_held _ _ _ Hi l Hl) as [s Hs].
  rewrite Hs in Hit. injection Hit as <- <-.
  destruct (inv_count _ _ _ Hi l s Hs) as (Hc & Hr & Hn).
  unfold tag_pool_dup_item, load. rewrite Hs. cbn [mbind res_bind].
  apply wp_bind, wp_assert; [apply Z.ltb_lt; lia|]. destruct (Z.ltb_spec (s_ref s) 0xff).
  - by eapply share_gives.
  - rewrite (c_str_no_nul _ Hn). by apply (insert_gives p refs chains).
Qed.

(** *** Giving a reference back *)

(** What [put_loop] follows is a suffix of the chain. *)
Lemma chain_app mem h c1 l c2 :
  chain mem h (c1 ++ l :: c2) -> exists s, mem !! l = Some s /\ chain mem (s_next s) c2.
Proof.
  revert h. induction c1 as [|l1 c1 IH]; intros h.
  - intros [_ H]. done.
  - intros [_ (s & _ & H)]. by eapply IH.
Qed.

Lemma last_default_irrel {A} (l : list A) d d' : l <> [] -> List.last l d = List.last l d'.
Proof. induction l as [|x [|y l] IH]; intros H; [done|done|]. simpl in *. by apply IH. Qed.

Lemma put_loop_ok p slot c2 c1 r fuel h :
  read_ref r p = Ok h -> chain (p_mem p) h (c1 ++ slot :: c2) -> slot ∉ c1 -> (length c1 < fuel)%nat ->
  put_loop fuel p slot r =
    Ok (List.last (map InNext c1) r).
Proof.
  revert r h fuel. induction c1 as [|l c1 IH]; intros r h fuel Hread Hc Hni Hf;
    (destruct fuel as [|fuel]; [simpl in Hf; lia|]); cbn [put_loop]; rewrite Hread; cbn [mbind res_bind].
  - destruct Hc as [-> _]. by rewrite bool_decide_true.
  - destruct Hc as [-> (s & Hs & Hc)]. apply not_elem_of_cons in Hni as [Hne Hni].
    rewrite bool_decide_false by congruence.
    rewrite (IH (InNext l) (s_next s)); [ | |done|done|simpl in Hf; lia].
    + f_equal. simpl. destruct (map InNext c1) as [|x xs]; [done|]. by apply last_default_irrel.
    + cbn [read_ref]. unfold load. by rewrite Hs.
Qed.

(** The chain without the slot. *)
Lemma chain_remove_next mem h c1 l c2 s q sq :
  chain mem h (c1 ++ [q] ++ l :: c2) -> NoDup (c1 ++ [q] ++ l :: c2) ->
  mem !! l = Some s -> mem !! q = Some sq ->
  chain (delete l (<[q := set_next (s_next s) sq]> mem)) h (c1 ++ [q] ++ c2).
Proof.
  revert h. induction c1 as [|l1 c1 IH]; intros h.
  - cbn [app]. intros [-> (sq' & Hq & Hnx & s' & Hs & Hc)] Hnd Hl Hq'. simplify_eq. split; [done|].
    apply NoDup_cons in Hnd as [Hq1 Hnd]. apply not_elem_of_cons in Hq1 as [Hne Hq2].
    apply NoDup_cons in Hnd as [Hl2 _].
    eexists. split; [by rewrite lookup_delete_ne, lookup_insert_eq|].
    apply chain_delete; [done|]. by apply chain_insert.
  - cbn [app]. intros [-> (s1 & Hs1 & Hc)] Hnd Hl Hq. apply NoDup_cons in Hnd as [Hn1 Hnd]. split; [done|].
    exists s1. split; [|by apply IH].
    apply not_elem_of_app in Hn1 as [_ Hn1]. apply not_elem_of_cons in Hn1 as [Hq1 Hn1].
    apply not_elem_of_cons in Hn1 as [Hl1 _]. by rewrite lookup_delete_ne, lookup_insert_ne.
Qed.

(** The pool without a slot: its chain loses it. *)
Definition unlinks (p p' : pool) (l : loc) : Prop :=
  length (p_slots p') = length (p_slots p) /\
  (forall l', is_Some (p_mem p' !! l') <-> l' <> l /\ is_Some (p_mem p !! l')) /\
  (forall l' s', p_mem p' !! l' = Some s' -> exists s, p_mem p !! l' = Some s /\
     s_ref s' = s_ref s /\ s_type s' = s_type s /\ s_value s' = s_value s).

Lemma split_nodup (l : loc) c : NoDup c -> l ∈ c -> exists c1 c2, c = c1 ++ l :: c2 /\ l ∉ c1 /\ l ∉ c2.
Proof.
  intros Hnd (c1 & c2 & ->)%list_elem_of_split. exists c1, c2. split; [done|].
  apply NoDup_app in Hnd as (_ & Hd & Hnd). apply NoDup_cons in Hnd as [H2 _]. split; [|done].
  intros Hl. apply (Hd l Hl). by left.
Qed.

Lemma unlink_inv p p' refs chains l b c1 c2 :
  pool_inv p refs chains -> unlinks p p' l -> multiplicity l refs = 1%nat ->
  chains b = c1 ++ l :: c2 -> l ∉ c1 -> l ∉ c2 ->
  (forall i h, p_slots p' !! i = Some h -> chain (p_mem p') h (if decide (i = b) then c1 ++ c2 else chains i)) ->
  pool_inv p' (refs ∖ {[+ l +]}) (fun i => if decide (i = b) then c1 ++ c2 else chains i).
Proof.
  intros Hi (Hlen & Hdom & Hkeep) Hm Hb H1 H2 Hchain.
  assert (Hbl : l ∈ chains b) by (rewrite Hb; set_solver).
  assert (Hsub : forall i l', l' ∈ (if decide (i = b) then c1 ++ c2 else chains i) -> l' ∈ chains i /\ l' <> l).
  { intros i l'. destruct (decide (i = b)) as [->|Hne].
    - rewrite Hb. set_solver.
    - intros Hl'. split; [done|]. intros ->. destruct (inv_exists _ _ _ Hi _ _ Hl') as [s Hs].
      apply Hne. rewrite (inv_bucket _ _ _ Hi i l s) by done. symmetry. by apply (inv_bucket _ _ _ Hi b l s). }
  assert (Hsb : forall l' s', p_mem p' !! l' = Some s' -> exists s, p_mem p !! l' = Some s /\ slot_bucket s' = slot_bucket s).
  { intros l' s' (s & Hs & _ & Ht & Hv)%Hkeep. exists s. split; [done|]. unfold slot_bucket. by rewrite Ht, Hv. }
  split.
  - rewrite Hlen. apply Hi.
  - exact Hchain.
  - intros i. destruct (decide (i = b)) as [->|]; [|apply Hi]. pose proof (inv_nodup _ _ _ Hi b) as Hnd.
    rewrite Hb in Hnd. apply NoDup_app in Hnd as (Hn1 & Hd & Hn2). apply NoDup_cons in Hn2 as [_ Hn2].
    apply NoDup_app. split; [done|]. split; [|done]. intros x Hx Hx2. apply (Hd x Hx). by right.
  - intros l' s' Hs'. destruct (Hsb _ _ Hs') as (s & Hs & ->). apply (inv_member _ _ _ Hi) in Hs as Hin.
    destruct (decide (slot_bucket s = b)) as [E|]; [|done]. rewrite E, Hb in Hin.
    assert (l' <> l) by (apply (Hdom l'); by exists s'). set_solver.
  - intros i l' s' [Hl' _]%Hsub (s & Hs & ->)%Hsb. by apply (inv_bucket _ _ _ Hi i l').
  - intros i l' [Hl' Hne]%Hsub. apply Hdom. split; [done|]. by apply (inv_exists _ _ _ Hi i).
  - intros l' s' Hs'. destruct (Hkeep _ _ Hs') as (s & Hs & -> & _ & ->).
    assert (l' <> l) by (apply (Hdom l'); by exists s').
    rewrite multiplicity_difference, multiplicity_singleton, decide_False, Nat.sub_0_r by done.
    by apply (inv_count _ _ _ Hi).
  - intros l' Hl'. unfold elem_of, gmultiset_elem_of in Hl'.
    rewrite multiplicity_difference, multiplicity_singleton in Hl'. apply Hdom.
    destruct (decide (l' = l)) as [->|]; [lia|]. split; [done|]. apply (inv_held _ _ _ Hi).
    unfold elem_of, gmultiset_elem_of. lia.
Qed.

(** Chains do not share slots. *)
Lemma chains_disjoint p refs chains i b l :
  pool_inv p refs chains -> i <> b -> l ∈ chains b -> l ∉ chains i.
Proof.
  intros Hi Hne Hlb Hli. destruct (inv_exists _ _ _ Hi _ _ Hli) as [s' Hs'].
  apply Hne. rewrite (inv_bucket _ _ _ Hi i l s') by done. symmetry. by apply (inv_bucket _ _ _ Hi b l s').
Qed.

Lemma chain_set_ref p refs chains l s r i h :
  pool_inv p refs chains -> p_mem p !! l = Some s -> p_slots p !! i = Some h ->
  chain (<[l := set_ref r s]> (p_mem p)) h (chains i).
Proof.
  intros Hi Hs Hh. eapply chain_ext; [|by apply (inv_chain _ _ _ Hi)]. intros l' s' _ Hs'.
  destruct (decide (l' = l)) as [->|].
  - simplify_eq. rewrite lookup_insert_eq. by eexists.
  - rewrite lookup_insert_ne by done. by exists s'.
Qed.

(** The pool after the last reference to [l] is given back: at the head of
    its chain, and after another slot. *)
Lemma unlink_head p refs chains l s b c2 :
  pool_inv p refs chains -> p_mem p !! l = Some s -> chains b = l :: c2 -> l ∉ c2 ->
  let p' := Pool (<[b := s_next s]> (p_slots p)) (delete l (<[l := set_ref 0 s]> (p_mem p))) in
  unlinks p p' l /\
  forall i h, p_slots p' !! i = Some h -> chain (p_mem p') h (if decide (i = b) then c2 else chains i).
Proof.
  intros Hi Hs Hb H2. cbv zeta. cbn [p_slots p_mem]. split; [split; [|split]|]; cbn [p_slots p_mem].
  - by rewrite length_insert.
  - intros l'. rewrite delete_insert_eq, lookup_delete_is_Some. naive_solver.
  - intros l' s'. rewrite delete_insert_eq. intros [_ H]%lookup_delete_Some. by exists s'.
  - intros i h [(<- & <- & [h0 Hh]%lookup_lt_is_Some_2)|[Hne Hh]]%list_lookup_insert_Some.
    + rewrite decide_True by done. apply chain_delete; [done|].
      pose proof (chain_set_ref _ _ _ _ _ 0 _ _ Hi Hs Hh) as Hc. rewrite Hb in Hc.
      destruct Hc as [_ (s1 & Hs1 & Hc)]. rewrite lookup_insert_eq in Hs1. by injection Hs1 as <-.
    + rewrite decide_False by done. apply chain_delete; [|by eapply chain_set_ref].
      apply (chains_disjoint _ _ _ _ b _ Hi); [done|]. rewrite Hb. by left.
Qed.

Lemma unlink_next p refs chains l s b c1 q sq c2 :
  pool_inv p refs chains -> p_mem p !! l = Some s -> chains b = c1 ++ [q] ++ l :: c2 ->
  p_mem p !! q = Some sq ->
  let p' := Pool (p_slots p) (delete l (<[q := set_next (s_next s) sq]> (<[l := set_ref 0 s]> (p_mem p)))) in
  unlinks p p' l /\
  forall i h, p_slots p' !! i = Some h ->
    chain (p_mem p') h (if decide (i = b) then c1 ++ [q] ++ c2 else chains i).
Proof.
  intros Hi Hs Hb Hq. cbv zeta. cbn [p_slots p_mem]. pose proof (inv_nodup _ _ _ Hi b) as Hnd. rewrite Hb in Hnd.
  assert (Hne : q <> l).
  { intros ->. apply NoDup_app in Hnd as (_ & _ & Hnd). apply NoDup_cons in Hnd as [Hl _]. apply Hl. by left. }
  assert (Hqb : q ∈ chains b) by (rewrite Hb; set_solver).
  assert (Hlb : l ∈ chains b) by (rewrite Hb; set_solver).
  split; [split; [|split]|]; cbn [p_slots p_mem].
  - done.
  - intros l'. rewrite lookup_delete_is_Some, !lookup_insert_is_Some'. naive_solver.
  - intros l' s' [Hl' [[<- <-]|[Hq' H]]%lookup_insert_Some]%lookup_delete_Some; [by exists sq|].
    rewrite lookup_insert_ne in H by done. by exists s'.
  - intros i h Hh. pose proof (chain_set_ref _ _ _ _ _ 0 _ _ Hi Hs Hh) as Hc.
    destruct (decide (i = b)) as [->|Hib].
    + rewrite Hb in Hc. change (s_next s) with (s_next (set_ref 0 s)). apply chain_remove_next; [done|done| |].
      * apply lookup_insert_eq.
      * by rewrite lookup_insert_ne.
    + apply chain_delete; [by apply (chains_disjoint _ _ _ _ b _ Hi)|].
      apply chain_insert; [by apply (chains_disjoint _ _ _ _ b _ Hi)|done].
Qed.

(** The loop and the assignment after it take the slot out of its chain. *)
Lemma put_unlinks p refs chains l s :
  pool_inv p refs chains -> p_mem p !! l = Some s -> multiplicity l refs = 1%nat ->
  let p1 := store l (set_ref 0 s) p in
  wp (r ← put_loop (fuel_of p1) p1 l (InHead (slot_bucket s));
      p2 ← write_ref r (s_next s) p1;
      Ok (Pool (p_slots p2) (delete l (p_mem p2)))) (fun p' =>
    unlinks p p' l /\ pool_ok p' (refs ∖ {[+ l +]})).
Proof.
  intros Hi Hs Hm p1. pose proof (inv_member _ _ _ Hi _ _ Hs) as Hin.
  destruct (split_nodup l _ (inv_nodup _ _ _ Hi (slot_bucket s)) Hin) as (c1 & c2 & Hb & H1 & H2).
  destruct (head_ok p refs chains (s_type s) (s_value s) Hi) as (h & Hh & Hget & _).
  pose proof (chain_set_ref _ _ _ _ _ 0 _ _ Hi Hs Hh) as Hc.
  change (bucket (calc_hash_n (s_type s) (s_value s))) with (slot_bucket s) in *. rewrite Hb in Hc.
  rewrite (put_loop_ok p1 l c2 c1 (InHead (slot_bucket s)) _ h Hget Hc H1).
  2:{ pose proof (chain_fuel _ _ _ (slot_bucket s) Hi) as Hf. rewrite Hb, length_app in Hf. simpl in Hf.
      unfold fuel_of in *. unfold p1. cbn [store p_mem]. rewrite map_size_insert_Some by done. lia. }
  cbn [mbind res_bind].
  assert (Hfin : forall p', unlinks p p' l ->
    (forall i h, p_slots p' !! i = Some h -> chain (p_mem p') h (if decide (i = slot_bucket s) then c1 ++ c2 else chains i)) ->
    unlinks p p' l /\ pool_ok p' (refs ∖ {[+ l +]})).
  { intros p' Hu Hch. split; [done|]. eexists. by apply (unlink_inv p p' refs chains l (slot_bucket s) c1 c2). }
  destruct c1 as [|q c1 _] using rev_ind.
  - cbn [map List.last write_ref set_head mbind res_bind p1 store p_slots p_mem wp].
    apply Hfin; by eapply unlink_head.
  - rewrite map_app. cbn [map]. rewrite List.last_last. cbn [write_ref]. unfold load.
    assert (Hqb : q ∈ chains (slot_bucket s)) by (rewrite Hb; set_solver).
    destruct (inv_exists _ _ _ Hi _ _ Hqb) as [sq Hq].
    assert (Hne : q <> l) by set_solver.
    cbn [p1 store p_mem]. rewrite lookup_insert_ne, Hq by done. cbn [mbind res_bind p_slots p_mem store wp].
    rewrite <- app_assoc in Hb, Hfin. destruct (unlink_next p refs chains l s _ c1 q sq c2 Hi Hs Hb Hq) as [Hu Hch]. by apply Hfin.
Qed.

Lemma tag_pool_put_item_keeps p refs l :
  pool_ok p refs -> l ∈ refs ->
  wp (tag_pool_put_item l p) (fun p' =>
    pool_ok p' (refs ∖ {[+ l +]}) /\ items_kept p p' (refs ∖ {[+ l +]}) /\
    (item_at p' l = None <-> multiplicity l refs = 1%nat)).
Proof.
  intros [chains Hi] Hl. destruct (inv_held _ _ _ Hi l Hl) as [s Hs].
  destruct (inv_count _ _ _ Hi l s Hs) as (Hc & Hr & Hn). unfold tag_pool_put_item, load. rewrite Hs.
  cbn [mbind res_bind]. apply wp_bind, wp_assert; [apply Z.ltb_lt; lia|]. cbv zeta.
  assert (Hu : u8 (s_ref s - 1) = s_ref s - 1) by (unfold u8; rewrite Z.mod_small; lia). rewrite Hu.
  rewrite calc_hash_eq by done. change (bucket (calc_hash_n (s_type s) (s_value s))) with (slot_bucket s).
  destruct (Z.ltb_spec 0 (s_ref s - 1)).
  - apply wp_ok. split; [|split].
    + exists chains. eapply set_ref_inv; [done|done|lia| |].
      * rewrite multiplicity_difference, multiplicity_singleton, decide_True by done. lia.
      * intros l' Hne. rewrite multiplicity_difference, multiplicity_singleton, decide_False by done. lia.
    + by apply items_kept_set_ref.
    + unfold item_at. cbn [store p_mem]. rewrite lookup_insert_eq. split; [done|]. lia.
  - assert (E : s_ref s - 1 = 0) by lia. rewrite E. assert (Hm : multiplicity l refs = 1%nat) by lia.
    eapply wp_mono; [by apply (put_unlinks p refs chains)|]. cbn beta. intros p' [(Hlen & Hdom & Hkeep) Hok].
    split; [done|]. split.
    + intros l' Hl'. unfold item_at. rewrite elem_of_multiplicity in Hl'.
      rewrite multiplicity_difference, multiplicity_singleton in Hl'. destruct (decide (l' = l)) as [->|Hne]; [lia|].
      assert (l' ∈ refs) as Hr' by (rewrite elem_of_multiplicity; lia). apply (inv_held _ _ _ Hi) in Hr'.
      assert (is_Some (p_mem p' !! l')) as [s' Hs'] by (by apply Hdom).
      destruct (Hkeep _ _ Hs') as (s0 & -> & _ & Ht & Hv). rewrite Hs'. simpl. by rewrite Ht, Hv.
    + split; [done|]. intros _. unfold item_at. destruct (p_mem p' !! l) as [s'|] eqn:Es'; [|done].
      assert (l <> l) by (apply Hdom; by exists s'). done.
Qed.
