(* ===== verification/TagValue.v ===== *)
(** * Values and names of tags

    [src/tag.c]: how a value is made printable before it is stored, and how
    the names of tag types and the list of them in the configuration are
    parsed.  Strings that are written in place are arrays of characters with
    their terminating null byte. *)

From S2P Require Import Prelude CString Tokenizer TagPool.

Local Open Scope Z_scope.

(** ** Character sets *)

(** [g_utf8_validate()] returns the offset of the first invalid byte;
    [g_convert()] from ISO-8859-1 to UTF-8. *)
Class Charset := {
  g_utf8_validate : cstring -> option nat;
  g_convert : cstring -> option cstring;
}.

(** "[max_len] bytes to validate", "returns FALSE if any of the bytes are
    nul". *)
Class CharsetSpec (C : Charset) : Prop := {
  validate_end s k : g_utf8_validate s = Some k -> (k < length s)%nat;
  validate_nul s : g_utf8_validate s = None -> forallb (fun c => negb (is_nul c)) s = true;
}.

Definition nul : ascii := char_of 0.

(** [strlen()] and the string in an array; without a null byte the read
    leaves the array. *)
Definition string_in (a : list ascii) : res cstring :=
  if existsb is_nul a then Ok (c_str a) else Err OutOfBounds.

(** A write to an array of bytes. *)
Definition put_char (a : list ascii) (i : nat) (c : ascii) : res (list ascii) :=
  if (i <? length a)%nat then Ok (<[i := c]> a) else Err OutOfBounds.

Definition get_char (a : list ascii) (i : nat) : res ascii :=
  match a !! i with Some c => Ok c | None => Err OutOfBounds end.

(** ** Fixing a value *)

Section fix_value.
Context {C : Charset}.

(** [length] bytes at [src], which is the beginning of an array. *)
Definition bytes_at (src : list ascii) (length : nat) : res cstring :=
  if (length <=? Datatypes.length src)%nat then Ok (take length src) else Err OutOfBounds.

Fixpoint patch_loop (fuel : nat) (bytes : cstring) (dest : list ascii) (end_ : nat) : res (list ascii) :=
  match fuel with
  | O => Err OutOfFuel
  | S fuel =>
      dest ← put_char dest end_ "?"%char;
      match g_utf8_validate (drop (end_ + 1) bytes) with
      | None => Ok dest
      | Some k => patch_loop fuel bytes dest (end_ + 1 + k)
      end
  end.

Definition patch_utf8 (src : list ascii) (bytes : cstring) (end_ : nat) : res (list ascii) :=
  dest ← string_in src;
  patch_loop (S (length bytes)) bytes (dest ++ [nul]) end_.

(** [None] is [NULL]: the value is used as it is. *)
Definition fix_utf8 (str : list ascii) (length : nat) : res (option (list ascii)) :=
  bytes ← bytes_at str length;
  match g_utf8_validate bytes with
  | None => Ok None
  | Some end_ =>
      match g_convert bytes with
      | Some temp => Ok (Some (temp ++ [nul]))
      | None => a ← patch_utf8 str bytes end_; Ok (Some a)
      end
  end.

Definition char_is_non_printable (ch : ascii) : bool := char_code ch <? 0x20.

Definition find_non_printable (p : cstring) : option nat :=
  match list_find (fun c => char_is_non_printable c = true) p with
  | Some (i, _) => Some i
  | None => None
  end.

Definition clear_non_printable (p : list ascii) (length : nat) : res (option (list ascii)) :=
  bytes ← bytes_at p length;
  match find_non_printable bytes with
  | None => Ok None
  | Some first =>
      let dest := c_str bytes ++ [nul] in
      dest ← for_range (Z.of_nat first) (Z.of_nat length) (fun i dest =>
        c ← get_char dest (Z.to_nat i);
        if char_is_non_printable c then put_char dest (Z.to_nat i) " "%char else Ok dest) dest;
      Ok (Some dest)
  end.

Definition fix_tag_value (p : list ascii) (length : nat) : res (option (list ascii)) :=
  utf8 ← fix_utf8 p length;
  r ← match utf8 with
      | Some p => s ← string_in p; Ok (p, Datatypes.length s)
      | None => Ok (p, length)
      end;
  let '(p, length) := r in
  cleared ← clear_non_printable p length;
  Ok (match cleared with Some _ => cleared | None => utf8 end).

End fix_value.

(** ** Names *)

Definition tag_item_names : list cstring := map lit
  ["Artist"; "ArtistSort"; "Album"; "AlbumArtist"; "AlbumArtistSort"; "Title"; "Track"; "Name"; "Genre"; "Date";
   "Composer"; "Performer"; "Comment"; "Disc"; "MUSICBRAINZ_ARTISTID"; "MUSICBRAINZ_ALBUMID";
   "MUSICBRAINZ_ALBUMARTISTID"; "MUSICBRAINZ_TRACKID"]%string.

Definition tag_name (t : tag_type) : cstring := default [] (tag_item_names !! Z.to_nat (tag_type_code t)).

(** [None] is [TAG_NUM_OF_ITEM_TYPES]. *)
Definition find_name (eq : cstring -> bool) : option tag_type :=
  match list_find (fun n => eq n = true) tag_item_names with
  | Some (i, _) => tag_types !! i
  | None => None
  end.

Definition tag_name_parse (name : cstring) : option tag_type := find_name (fun n => bool_decide (name = n)).
Definition tag_name_parse_i (name : cstring) : option tag_type := find_name (g_ascii_strcasecmp_eq name).

(** ** The configuration *)

(** [g_strstrip()] on the string at [c]; the bytes it leaves behind the
    result are null bytes and the old tail. *)
Definition rstrip (s : cstring) : cstring := reverse (span g_ascii_isspace (reverse s)).2.
Definition g_strstrip (c : nat) (a : list ascii) : list ascii :=
  let l := strchug_fast (c_str (drop c a)) in
  list_inserts c (rstrip l ++ replicate (length l - length (rstrip l) + 1) nul) a.

(** [MPD_ERROR()] ends the program. *)
Inductive lib_init := Ready (ignore : list bool) | Fatal (item : cstring).

Fixpoint lib_init_loop (fuel : nat) (a : list ascii) (s c : nat) (quit : bool) (ignore : list bool) : res lib_init :=
  if quit then Ok (Ready ignore) else
  match fuel with
  | O => Err OutOfFuel
  | S fuel =>
      ch ← get_char a s;
      if bool_decide (ch = ","%char) || is_nul ch then
        let quit := is_nul ch in
        a ← put_char a s nul;
        let a := g_strstrip c a in
        first ← get_char a c;
        if is_nul first then lib_init_loop fuel a s c quit ignore
        else
          let item := c_str (drop c a) in
          match tag_name_parse_i item with
          | None => Ok (Fatal item)
          | Some type =>
              let ignore := <[Z.to_nat (tag_type_code type) := false]> ignore in
              lib_init_loop fuel a (s + 1 + 1) (s + 1) quit ignore
          end
      else lib_init_loop fuel a (s + 1) c quit ignore
  end.

(** [value] is the setting [metadata_to_use]; the result is
    [ignore_tag_items]. *)
Definition tag_lib_init (value : option cstring) : res lib_init :=
  let ignore := replicate 18 false in
  let ignore := <[Z.to_nat (tag_type_code TAG_COMMENT) := true]> ignore in
  match value with
  | None => Ok (Ready ignore)
  | Some value =>
      let ignore := replicate 18 true in
      if g_ascii_strcasecmp_eq value (lit "none") then Ok (Ready ignore)
      else lib_init_loop (length value + 3) (value ++ [nul]) 0 0 false ignore
  end.

(** * Tags as lists of items

    What a tag means to its users: the duration, and a list of typed values.
    The operations of [Tag] implement the functions on lists that are defined
    here; the components above are written in
    terms of them. *)

Abbreviation item := (tag_type * cstring)%type.

Record tag_data := TagData {
  td_time : Z;
  td_has_playlist : bool;
  td_items : list item;
}.

(** ** Values *)

(** A character as it is stored. *)
Definition printable (c : ascii) : ascii := if char_is_non_printable c then " "%char else c.

Section values.
Context {C : Charset}.

(** The bytes, or what they are converted to. *)
Definition as_utf8 (bytes : cstring) : cstring :=
  match g_utf8_validate bytes with None => bytes | Some _ => c_str (default bytes (g_convert bytes)) end.

(** The bytes can be converted if they have to. *)
Definition convertible (bytes : cstring) : Prop :=
  g_utf8_validate bytes = None \/ is_Some (g_convert bytes).

Definition fixed (bytes : cstring) : cstring := map printable (as_utf8 bytes).

(** The items that adding a value appends. *)
Definition added (ignored : bool) (type : tag_type) (bytes : cstring) : list item :=
  if ignored || (length bytes =? 0)%nat then [] else [(type, fixed bytes)].

End values.

(** ** Items *)

Definition has_type (type : tag_type) (its : list item) : bool :=
  existsb (fun it => bool_decide (it.1 = type)) its.

(** The value of the first item of a type. *)
Fixpoint value_of (type : tag_type) (its : list item) : option cstring :=
  match its with
  | [] => None
  | (ty, v) :: its => if decide (ty = type) then Some v else value_of type its
  end.

(** All items of [add], and those of [base] whose type [add] does not
    have. *)
Definition merged (base add : list item) : list item :=
  add ++ filter (fun it => has_type it.1 add = false) base.

Definition without (type : tag_type) (its : list item) : list item := filter (fun it => it.1 <> type) its.

(** * Values and names of tags: proofs

    A stored value has no control characters and no null byte; the names of
    tag types are parsed back; the configuration enables the tag types it
    lists. *)

(** ** Strings in arrays *)

Lemma is_nul_nul : is_nul nul = true.
Proof. done. Qed.

Lemma string_in_app s a : no_nul s -> string_in (s ++ nul :: a) = Ok s.
Proof.
  unfold string_in, no_nul, c_str. induction s as [|c s IH]; intros Hs; [done|]. simpl in *.
  apply andb_prop in Hs as [Hc Hs]. rewrite Hc. apply negb_true_iff in Hc. rewrite Hc. simpl.
  specialize (IH Hs). destruct (existsb is_nul (s ++ nul :: a)); [|done]. injection IH as IH.
  destruct (span _ (s ++ nul :: a)) as [x y]. simpl in *. by rewrite IH.
Qed.

Lemma c_str_app s a : no_nul s -> c_str (s ++ nul :: a) = s.
Proof.
  intros H. pose proof (string_in_app s a H) as E. unfold string_in in E.
  destruct (existsb is_nul (s ++ nul :: a)); [|done]. by injection E.
Qed.

Lemma c_str_prefix s : exists r, s = c_str s ++ r /\ (r = [] \/ exists r', r = nul :: r').
Proof.
  unfold c_str. induction s as [|c s IH]; [by exists []; auto|]. simpl. destruct (is_nul c) eqn:Hc; simpl.
  - exists (c :: s). split; [done|]. right. exists s. f_equal. unfold is_nul in Hc. apply Z.eqb_eq in Hc.
    unfold nul, char_of. rewrite <- (ascii_N_embedding c). unfold char_code in Hc. f_equal. lia.
  - destruct (span _ s) as [a b]. simpl in *. destruct IH as (r & -> & Hr). exists r. done.
Qed.

Lemma string_in_snoc s : string_in (s ++ [nul]) = Ok (c_str s).
Proof.
  destruct (c_str_prefix s) as (r & E & Hr). rewrite E at 1. rewrite <- app_assoc.
  destruct Hr as [->|(r' & ->)]; apply string_in_app, c_str_is_no_nul.
Qed.

Lemma bytes_at_ok s n : (n <= length s)%nat -> bytes_at s n = Ok (take n s).
Proof. intros H. unfold bytes_at. by rewrite (proj2 (Nat.leb_le _ _) H). Qed.

(** ** Control characters *)

Lemma printable_ok c : 0x20 <= char_code (printable c).
Proof. unfold printable, char_is_non_printable. destruct (Z.ltb_spec (char_code c) 0x20); [done|done]. Qed.

Lemma printable_no_nul s : no_nul (map printable s).
Proof.
  unfold no_nul. induction s as [|c s IH]; [done|]. simpl. rewrite IH, andb_true_r. apply negb_true_iff.
  unfold is_nul. apply Z.eqb_neq. pose proof (printable_ok c). lia.
Qed.

Lemma find_non_printable_spec s :
  match find_non_printable s with
  | None => map printable s = s
  | Some i => (i < length s)%nat /\ map printable (take i s) = take i s
  end.
Proof.
  unfold find_non_printable. destruct (list_find _ s) as [[i c]|] eqn:E.
  - apply list_find_Some in E as (Hi & _ & Hbefore). split; [by eapply lookup_lt_Some|].
    apply list_eq. intros j. change (map printable (take i s)) with (printable <$> take i s). rewrite list_lookup_fmap.
    destruct (take i s !! j) as [d|] eqn:Ed; [|done]. simpl. f_equal.
    apply lookup_take_Some in Ed as [Ed Hj]. specialize (Hbefore j d Ed Hj). unfold printable.
    by destruct (char_is_non_printable d).
  - apply list_find_None in E. induction E as [|c s Hc _ IH]; [done|]. simpl. rewrite IH. f_equal. unfold printable.
    by destruct (char_is_non_printable c).
Qed.

Lemma clear_step_ok s i :
  no_nul s -> (i < length s)%nat ->
  let dest := map printable (take i s) ++ drop i s ++ [nul] in
  (c ← get_char dest i; if char_is_non_printable c then put_char dest i " "%char else Ok dest) =
  Ok (map printable (take (S i) s) ++ drop (S i) s ++ [nul]).
Proof.
  intros Hs Hi. destruct (lookup_lt_is_Some_2 s i Hi) as [c Hc].
  assert (Hlen : length (map printable (take i s)) = i) by (rewrite length_map, length_take; lia).
  pose proof (drop_S s c i Hc) as Hd. cbv zeta. rewrite Hd, (take_S_r _ _ _ Hc), map_app.
  unfold get_char. rewrite lookup_app_r by lia. rewrite Hlen, Nat.sub_diag. cbn [app lookup list_lookup mbind res_bind].
  rewrite <- app_assoc. cbn [map app]. unfold printable at 4. destruct (char_is_non_printable c); [|done].
  unfold put_char. rewrite length_app, Hlen. rewrite (proj2 (Nat.ltb_lt _ _)) by (simpl; lia).
  rewrite insert_app_r_alt by lia. by rewrite Hlen, Nat.sub_diag.
Qed.

Lemma clear_non_printable_ok p n s :
  (n <= length p)%nat -> take n p = s -> no_nul s ->
  clear_non_printable p n = Ok (None) /\ map printable s = s \/
  clear_non_printable p n = Ok (Some (map printable s ++ [nul])).
Proof.
  intros Hn Hs Hnn. unfold clear_non_printable. rewrite bytes_at_ok by done. rewrite Hs. cbn [mbind res_bind].
  pose proof (find_non_printable_spec s) as Hf. destruct (find_non_printable s) as [first|]; [|by left]. right.
  destruct Hf as [Hlt Hf]. rewrite (c_str_no_nul s Hnn).
  assert (Hlen : length s = n) by (rewrite <- Hs, length_take; lia). rewrite <- Hlen.
  assert (H : wp (for_range (Z.of_nat first) (Z.of_nat (length s)) (fun i dest =>
        c ← get_char dest (Z.to_nat i);
        if char_is_non_printable c then put_char dest (Z.to_nat i) " "%char else Ok dest) (s ++ [nul]))
      (fun dest => dest = map printable (take (length s) s) ++ drop (length s) s ++ [nul])).
  { apply (for_range_inv (fun k dest => dest = map printable (take k s) ++ drop k s ++ [nul])); [lia| |].
    - by rewrite Hf, app_assoc, take_drop.
    - intros k dest Hk ->. rewrite Nat2Z.id. by rewrite clear_step_ok by (done || lia). }
  apply wp_inv in H as (dest & -> & ->). cbn [mbind res_bind]. by rewrite firstn_all, drop_all.
Qed.

(** ** What is stored *)

Section fix_value.
Context {C : Charset} {HC : CharsetSpec C}.

Lemma fix_tag_value_ok value len :
  (len <= length value)%nat -> convertible (take len value) ->
  (p ← fix_tag_value value len; match p with Some p => string_in p | None => bytes_at value len end) =
  Ok (fixed (take len value)).
Proof using HC.
  intros Hlen Hc. unfold fix_tag_value, fix_utf8, fixed, as_utf8, convertible in *. rewrite bytes_at_ok by done.
  cbn [mbind res_bind]. destruct (g_utf8_validate (take len value)) as [k|] eqn:Ev.
  - destruct Hc as [?|[temp Ht]]; [done|]. rewrite Ht. cbn [mbind res_bind default from_option id].
    rewrite string_in_snoc. cbn [mbind res_bind].
    destruct (c_str_prefix temp) as (r & E & _).
    assert (Htake : take (length (c_str temp)) (temp ++ [nul]) = c_str temp).
    { rewrite E at 2. by rewrite <- app_assoc, take_app_length. }
    assert (Hle : (length (c_str temp) <= length (temp ++ [nul]))%nat).
    { rewrite E at 2. rewrite !length_app. lia. }
    destruct (clear_non_printable_ok _ _ _ Hle Htake (c_str_is_no_nul temp)) as [[-> Hm]| ->]; cbn [mbind res_bind].
    + rewrite string_in_snoc. by rewrite Hm.
    + apply string_in_app, printable_no_nul.
  - cbn [mbind res_bind]. pose proof (validate_nul _ Ev) as Hnn.
    destruct (clear_non_printable_ok _ _ _ Hlen eq_refl Hnn) as [[-> Hm]| ->]; cbn [mbind res_bind].
    + by rewrite Hm.
    + apply string_in_app, printable_no_nul.
Qed.

End fix_value.

(** ** Names *)

Lemma tag_types_lookup t : tag_types !! Z.to_nat (tag_type_code t) = Some t.
Proof. by destruct t. Qed.

(** A name is parsed to its type, whatever the case of its letters. *)
Lemma tag_name_parse_name t : tag_name_parse (tag_name t) = Some t.
Proof. destruct t; vm_compute; reflexivity. Qed.

Lemma tag_name_parse_i_name t s : map to_lower s = map to_lower (tag_name t) -> tag_name_parse_i s = Some t.
Proof.
  intros H. unfold tag_name_parse_i, find_name, g_ascii_strcasecmp_eq.
  assert (E : tag_name_parse_i (tag_name t) = Some t) by (destruct t; vm_compute; reflexivity).
  unfold tag_name_parse_i, find_name, g_ascii_strcasecmp_eq in E. rewrite H. exact E.
Qed.

(** Nothing else is parsed. *)
Lemma tag_name_parse_only s t : tag_name_parse s = Some t -> s = tag_name t.
Proof.
  unfold tag_name_parse, find_name. destruct (list_find _ tag_item_names) as [[i n]|] eqn:E; [|done].
  apply list_find_Some in E as (Hi & Hn & _). apply bool_decide_eq_true in Hn as <-. intros Ht.
  unfold tag_name. assert (Hit : Z.to_nat (tag_type_code t) = i); [|by rewrite Hit, Hi].
  do 18 (destruct i as [|i]; [by injection Ht as <-|]). done.
Qed.

(** ** The configuration *)

(** An element of the list: a name with blanks around it. *)
Record element (e : cstring) (t : tag_type) : Prop := {
  el_nul : no_nul e;
  el_comma : ","%char ∉ e;
  el_name : tag_name_parse_i (rstrip (strchug_fast e)) = Some t;
}.

(** The elements, separated by commas. *)
Fixpoint join_commas (es : list cstring) : cstring :=
  match es with
  | [] => []
  | [e] => e
  | e :: es => e ++ ","%char :: join_commas es
  end.

(** The tag types that are listed are not ignored. *)
Definition enable (ignore : list bool) (ts : list tag_type) : list bool :=
  foldl (fun ignore t => <[Z.to_nat (tag_type_code t) := false]> ignore) ignore ts.

Definition is_sep (ch : ascii) : bool := bool_decide (ch = ","%char) || is_nul ch.

Lemma get_char_at a c x ch r : drop c a = x ++ ch :: r -> get_char a (c + length x) = Ok ch.
Proof.
  intros H. unfold get_char. rewrite <- lookup_drop, H. by rewrite list_lookup_middle.
Qed.

Lemma element_nonempty e t : element e t -> e <> [].
Proof. intros [_ _ H] ->. done. Qed.

(** Up to the separator. *)
Lemma lib_init_scan y fuel a c x sep r ignore :
  drop c a = x ++ y ++ sep :: r -> Forall (fun ch => is_sep ch = false) y ->
  lib_init_loop (length y + fuel) a (c + length x) c false ignore =
  lib_init_loop fuel a (c + length (x ++ y)) c false ignore.
Proof.
  revert x. induction y as [|ch y IH]; intros x Hd Hy; [by rewrite app_nil_r|].
  apply Forall_cons in Hy as [Hch Hy]. cbn [length Nat.add lib_init_loop].
  rewrite (get_char_at a c x ch (y ++ sep :: r)) by done. cbn [mbind res_bind].
  change (bool_decide (ch = ","%char) || is_nul ch) with (is_sep ch). rewrite Hch.
  replace (c + length x + 1)%nat with (c + length (x ++ [ch]))%nat by (rewrite length_app; simpl; lia).
  rewrite IH; [|by rewrite <- app_assoc|done]. by rewrite <- app_assoc.
Qed.

Lemma rstrip_prefix s : exists r, s = rstrip s ++ r.
Proof.
  unfold rstrip. set (f := g_ascii_isspace).
  assert (H : forall l, exists p, l = p ++ (span f l).2).
  { induction l as [|c l [p Hp]]; [by exists []|]. simpl. destruct (f c); [|by exists []].
    destruct (span f l) as [u v]. simpl in *. exists (c :: p). by rewrite Hp at 1. }
  destruct (H (reverse s)) as [p Hp]. exists (reverse p).
  rewrite <- reverse_app, <- Hp. by rewrite reverse_involutive.
Qed.

Lemma strchug_suffix s : exists p, s = p ++ strchug_fast s.
Proof.
  unfold strchug_fast. induction s as [|c s [p Hp]]; [by exists []|]. simpl.
  destruct (g_ascii_isspace c); [|by exists []]. destruct (span _ s) as [u v]. simpl in *. exists (c :: p).
  by rewrite Hp at 1.
Qed.

Lemma no_nul_app a b : no_nul (a ++ b) <-> no_nul a /\ no_nul b.
Proof. unfold no_nul. rewrite forallb_app. by rewrite andb_true_iff. Qed.

(** What [g_strstrip()] leaves: the name, and everything after the
    element. *)
Lemma g_strstrip_ok c a e r :
  no_nul e -> drop c a = e ++ nul :: r ->
  exists tail, drop c (g_strstrip c a) = rstrip (strchug_fast e) ++ nul :: tail /\
    drop (c + length e + 1) (g_strstrip c a) = r.
Proof.
  intros Hn Hd. unfold g_strstrip. rewrite Hd, (c_str_app _ _ Hn).
  destruct (strchug_suffix e) as [p Hp]. destruct (rstrip_prefix (strchug_fast e)) as [q Hq].
  set (l := strchug_fast e) in *. set (w := rstrip l) in *.
  assert (Hl : length l = (length w + length q)%nat) by (rewrite Hq at 1; apply length_app).
  assert (He : length e = (length p + length l)%nat) by (rewrite Hp at 1; apply length_app).
  replace (length l - length w + 1)%nat with (S (length q)) by lia. cbn [replicate].
  set (new := w ++ nul :: replicate (length q) nul).
  assert (Hnew : length new = S (length l)).
  { unfold new. rewrite length_app. cbn [length]. rewrite length_replicate. lia. }
  assert (Hca : (c + length e + 1 <= length a)%nat).
  { apply (f_equal length) in Hd. rewrite length_drop, length_app in Hd. cbn [length] in Hd. lia. }
  assert (E : list_inserts c new a = take c a ++ new ++ drop (c + length new) a).
  { rewrite <- drop_drop. rewrite <- list_inserts_0_r with (l1 := new) (l2 := take (length new) (drop c a))
      by (rewrite length_take, length_drop; lia).
    rewrite take_drop, <- list_inserts_app_r, take_drop. f_equal. rewrite length_take. lia. }
  rewrite E.
  exists (replicate (length q) nul ++ drop (c + length new) a).
  rewrite drop_app_length' by (rewrite length_take; lia). split; [unfold new; by rewrite <- app_assoc|].
  rewrite drop_app_ge by (rewrite length_take; lia). rewrite length_take, Nat.min_l by lia.
  rewrite drop_app_ge by lia. rewrite drop_drop.
  replace (c + length new + (c + length e + 1 - c - length new))%nat with (c + (length e + 1))%nat by lia.
  rewrite <- drop_drop, Hd. rewrite drop_app_ge by lia. replace (length e + 1 - length e)%nat with 1%nat by lia. done.
Qed.

Lemma element_no_sep e t : element e t -> Forall (fun ch => is_sep ch = false) e.
Proof.
  intros [Hn Hc _]. apply Forall_forall. intros ch Hch. unfold is_sep. rewrite bool_decide_false by (by intros ->).
  unfold no_nul in Hn. rewrite forallb_forall in Hn. apply list_elem_of_In in Hch. apply Hn in Hch.
  by apply negb_true_iff in Hch.
Qed.

(** The separator after an element: the element is parsed. *)
Lemma lib_init_element fuel a c e t sep r ignore :
  drop c a = e ++ sep :: r -> element e t -> is_sep sep = true ->
  exists a', drop (c + length e + 1) a' = r /\
    lib_init_loop (S fuel) a (c + length e) c false ignore =
    lib_init_loop fuel a' (c + length e + 1 + 1) (c + length e + 1) (is_nul sep)
      (<[Z.to_nat (tag_type_code t) := false]> ignore).
Proof.
  intros Hd He Hsep. cbn [lib_init_loop]. rewrite (get_char_at a c e sep r Hd). cbn [mbind res_bind].
  change (bool_decide (sep = ","%char) || is_nul sep) with (is_sep sep). rewrite Hsep.
  assert (Hlt : (c + length e < length a)%nat).
  { apply (f_equal length) in Hd. rewrite length_drop, length_app in Hd. cbn [length] in Hd. lia. }
  unfold put_char. rewrite (proj2 (Nat.ltb_lt _ _) Hlt). cbn [mbind res_bind].
  assert (Hd' : drop c (<[(c + length e)%nat := nul]> a) = e ++ nul :: r).
  { rewrite drop_insert_ge by lia. rewrite Hd. replace (c + length e - c)%nat with (length e + 0)%nat by lia.
    by rewrite insert_app_r. }
  destruct (g_strstrip_ok c _ e r (el_nul _ _ He) Hd') as (tail & Ht & Hr).
  set (a' := g_strstrip c _) in *. exists a'. split; [done|].
  assert (Hname : rstrip (strchug_fast e) <> []).
  { intros E. pose proof (el_name _ _ He) as H. rewrite E in H. done. }
  assert (Hnn : no_nul (rstrip (strchug_fast e))).
  { destruct (strchug_suffix e) as [p Hp], (rstrip_prefix (strchug_fast e)) as [q Hq].
    pose proof (el_nul _ _ He) as Hn. rewrite Hp, no_nul_app in Hn. destruct Hn as [_ Hn].
    rewrite Hq, no_nul_app in Hn. tauto. }
  destruct (rstrip (strchug_fast e)) as [|ch w] eqn:Ew; [done|].
  replace c with (c + length (@nil ascii))%nat at 1 by (simpl; lia).
  rewrite (get_char_at a' c [] ch (w ++ nul :: tail) Ht). cbn [mbind res_bind].
  unfold no_nul in Hnn. simpl in Hnn. apply andb_prop in Hnn as [Hch Hw].
  apply negb_true_iff in Hch. rewrite Hch. rewrite Ht, c_str_app.
  - rewrite <- Ew, (el_name _ _ He). done.
  - unfold no_nul. simpl. by rewrite Hch, Hw.
Qed.

Lemma lib_init_loop_ok es ts fuel a c x y e0 r ignore :
  Forall2 element (e0 :: es) ts -> drop c a = join_commas (e0 :: es) ++ nul :: r -> e0 = x ++ y ->
  (length (join_commas (e0 :: es)) < length x + fuel)%nat ->
  lib_init_loop fuel a (c + length x) c false ignore = Ok (Ready (enable ignore ts)).
Proof.
  revert ts fuel a c x y e0 ignore. induction es as [|e es IH]; intros ts fuel a c x y e0 ignore Hf Hd Hxy Hfuel;
    apply Forall2_cons_inv_l in Hf as (t & ts' & He & Hf & ->); pose proof (element_no_sep _ _ He) as Hsep;
    rewrite Hxy, Forall_app in Hsep; destruct Hsep as [_ Hsep].
  - apply Forall2_nil_inv_l in Hf as ->. cbn [join_commas] in *. rewrite Hxy, length_app in Hfuel.
    replace fuel with (length y + S (fuel - length y - 1))%nat by lia.
    rewrite (lib_init_scan y _ a c x nul r) by (done || by rewrite app_assoc, <- Hxy). rewrite <- Hxy.
    destruct (lib_init_element (fuel - length y - 1) a c e0 t nul r ignore Hd He eq_refl) as (a' & _ & ->).
    by destruct (fuel - length y - 1)%nat.
  - cbn [join_commas] in Hd, Hfuel. change (match es with [] => e | _ :: _ => e ++ ","%char :: join_commas es end)
      with (join_commas (e :: es)) in Hd, Hfuel.
    rewrite length_app in Hfuel. cbn [length] in Hfuel. rewrite <- app_assoc in Hd. cbn [app] in Hd.
    assert (Hlen : length e0 = (length x + length y)%nat) by (by rewrite Hxy, length_app).
    replace fuel with (length y + S (fuel - length y - 1))%nat by lia.
    rewrite (lib_init_scan y _ a c x ","%char (join_commas (e :: es) ++ nul :: r))
      by (done || by rewrite app_assoc, <- Hxy). rewrite <- Hxy.
    destruct (lib_init_element (fuel - length y - 1) a c e0 t ","%char _ ignore Hd He eq_refl) as (a' & Hr & ->).
    apply Forall2_cons_inv_l in Hf as (t2 & ts2 & He2 & Hf2 & ->).
    destruct e as [|ch e]; [by apply element_nonempty in He2|].
    change (is_nul ","%char) with false. cbn [enable foldl].
    apply (IH (t2 :: ts2) _ a' (c + length e0 + 1)%nat [ch] e (ch :: e)); [by constructor|done|done|].
    cbn [length]. lia.
Qed.

(** No list of elements is the word [none]. *)
Lemma elements_not_none es ts : Forall2 element es ts -> g_ascii_strcasecmp_eq (join_commas es) (lit "none") = false.
Proof.
  intros Hf. apply bool_decide_eq_false. intros H. destruct es as [|e [|e2 es]]; [done| |].
  - apply Forall2_cons_inv_l in Hf as (t & ts' & [Hn Hc Hname] & _ & _). cbn [join_commas] in H.
    assert (Hl : length e = 4%nat) by (apply (f_equal length) in H; by rewrite length_map in H).
    destruct e as [|a [|b [|c [|d [|? ?]]]]]; try done. cbn [map lit String.list_ascii_of_string] in H.
    injection H as Ha Hb Hc' Hd.
    assert (Hcase : forall ch l, to_lower ch = l -> is_alpha l = true -> g_ascii_isspace ch = false).
    { intros ch l <-. destruct ch as [[][][][][][][][]]; vm_compute; congruence. }
    assert (E : rstrip (strchug_fast [a; b; c; d]) = [a; b; c; d]).
    { unfold strchug_fast. cbn [span]. rewrite (Hcase a _ Ha eq_refl). cbn [snd]. unfold rstrip.
      change (reverse [a; b; c; d]) with [d; c; b; a]. cbn [span]. by rewrite (Hcase d _ Hd eq_refl). }
    rewrite E in Hname. unfold tag_name_parse_i, find_name, g_ascii_strcasecmp_eq in Hname.
    cbn [map] in Hname. rewrite Ha, Hb, Hc', Hd in Hname. vm_compute in Hname. done.
  - cbn [join_commas] in H. assert (Hin : ","%char ∈ map to_lower (lit "none")).
    { rewrite <- H, map_app. apply elem_of_app. right. simpl. by left. }
    vm_compute in Hin. set_solver.
Qed.

(** The setting enables the tag types it lists. *)
Lemma tag_lib_init_ok es ts :
  Forall2 element es ts -> es <> [] ->
  tag_lib_init (Some (join_commas es)) = Ok (Ready (enable (replicate 18 true) ts)).
Proof.
  intros Hf Hne. unfold tag_lib_init. rewrite (elements_not_none es ts Hf).
  destruct es as [|e0 es]; [done|]. change 0%nat with (0 + length (@nil ascii))%nat at 1.
  apply (lib_init_loop_ok es ts _ _ 0 [] e0 e0 []); [done|done|done|]. cbn [length]. lia.
Qed.

Lemma enable_lookup ts t ignore :
  length ignore = 18%nat ->
  enable ignore ts !! Z.to_nat (tag_type_code t) =
  if decide (t ∈ ts) then Some false else ignore !! Z.to_nat (tag_type_code t).
Proof.
  revert ignore. unfold enable. induction ts as [|u ts IH]; intros ignore Hl; [done|]. cbn [foldl].
  rewrite IH by (by rewrite length_insert). destruct (decide (t = u)) as [->|Hne].
  - rewrite (decide_True (P := u ∈ u :: ts)) by set_solver. destruct (decide (u ∈ ts)); [done|].
    apply list_lookup_insert_eq. rewrite Hl. by destruct u; vm_compute; lia.
  - assert (Hc : Z.to_nat (tag_type_code u) <> Z.to_nat (tag_type_code t)).
    { intros E. pose proof (tag_types_lookup u). pose proof (tag_types_lookup t). congruence. }
    rewrite list_lookup_insert_ne by done. destruct (decide (t ∈ ts)), (decide (t ∈ u :: ts)); set_solver.
Qed.

(** A comma at the end makes the loop read behind the string; an empty
    element in the middle becomes part of the next one, and at the beginning
    it ends the list. *)
Lemma tag_lib_init_empty_elements :
  tag_lib_init (Some (lit "artist,")) = Err OutOfBounds /\
  tag_lib_init (Some (lit "artist,,album")) = Ok (Fatal (lit ",album")) /\
  tag_lib_init (Some (lit ",artist")) = Ok (Ready (replicate 18 true)).
Proof. split; [|split]; vm_compute; reflexivity. Qed.
