(* ===== verification/Tag.v ===== *)
(** * Tags

    [src/tag.c]: the meta data of a song.  A tag owns references to values of
    the pool; while items are added they may be in an array that all tags
    share, one at a time. *)

From S2P Require Import Prelude CString TagPool TagValue.

Local Open Scope Z_scope.

(** ** State *)

Definition BULK_MAX : Z := 64.

(** What [tag.items] points to. *)
Inductive items := Null | BulkItems | Heap (a : cells loc).

Record tag := Tag {
  tag_time : Z;
  tag_has_playlist : bool;
  tag_items : items;
  tag_num_items : Z;
}.

(** The pool, [bulk] and [ignore_tag_items]. *)
Record tags := Tags {
  t_pool : pool;
  bulk_busy : bool;
  bulk_items : cells loc;
  ignore_tag_items : list bool;
}.

Definition set_pool (p : pool) (g : tags) : tags := Tags p (bulk_busy g) (bulk_items g) (ignore_tag_items g).
Definition set_busy (b : bool) (g : tags) : tags := Tags (t_pool g) b (bulk_items g) (ignore_tag_items g).
Definition set_bulk (a : cells loc) (g : tags) : tags := Tags (t_pool g) (bulk_busy g) a (ignore_tag_items g).

Definition set_items (i : items) (n : Z) (t : tag) : tag := Tag (tag_time t) (tag_has_playlist t) i n.

(** [tag->items[i]]. *)
Definition get_item (g : tags) (t : tag) (i : Z) : res loc :=
  match tag_items t with
  | Null => Err OutOfBounds
  | BulkItems => aget (bulk_items g) i
  | Heap a => aget a i
  end.

Definition item_type (g : tags) (l : loc) : res tag_type := s ← load (t_pool g) l; Ok (s_type s).
Definition item_value (g : tags) (l : loc) : res cstring := s ← load (t_pool g) l; Ok (c_str (s_value s)).

(** Pool operations as the tags call them. *)
Definition put_item (l : loc) (g : tags) : res tags := p ← tag_pool_put_item l (t_pool g); Ok (set_pool p g).
Definition dup_item (l : loc) (g : tags) : res (loc * tags) :=
  r ← tag_pool_dup_item l (t_pool g); Ok (r.1, set_pool r.2 g).

(** [realloc()] of an array of items. *)
Definition realloc_items (i : items) (n : Z) : res (cells loc) :=
  match i with
  | Null => Ok (replicate (Z.to_nat n) None)
  | BulkItems => Err BadFree
  | Heap a => Ok (take (Z.to_nat n) a ++ replicate (Z.to_nat n - length a) None)
  end.

(** ** Operations *)

Definition tag_new : tag := Tag (-1) false Null 0.

Definition is_bulk (i : items) : bool := match i with BulkItems => true | _ => false end.
Definition is_null (i : items) : bool := match i with Null => true | _ => false end.

(** [memmove()] of the items after [idx] to [idx], in the array of the tag. *)
Definition remove_cell (a : cells loc) (idx n : Z) : cells loc :=
  take (Z.to_nat idx) a ++ take (Z.to_nat (n - idx)) (drop (Z.to_nat idx + 1) a) ++ drop (Z.to_nat n) a.

Definition tag_delete_item (t : tag) (idx : Z) (g : tags) : res (tag * tags) :=
  assert (idx <? tag_num_items t);;
  let n := u32 (tag_num_items t - 1) in
  l ← get_item g t idx;
  g ← put_item l g;
  r ← (if 0 <? u32 (n - idx) then
         match tag_items t with
         | Null => Err OutOfBounds
         | BulkItems => Ok (BulkItems, set_bulk (remove_cell (bulk_items g) idx n) g)
         | Heap a => Ok (Heap (remove_cell a idx n), g)
         end
       else Ok (tag_items t, g));
  let '(i, g) := r in
  if 0 <? n then a ← realloc_items i n; Ok (set_items (Heap a) n t, g)
  else if is_bulk i then Err BadFree
  else Ok (set_items Null n t, g).

Fixpoint clear_loop (fuel : nat) (type : tag_type) (i : Z) (t : tag) (g : tags) : res (tag * tags) :=
  if tag_num_items t <=? i then Ok (t, g) else
  match fuel with
  | O => Err OutOfFuel
  | S fuel =>
      l ← get_item g t i;
      ty ← item_type g l;
      if decide (ty = type) then
        r ← tag_delete_item t i g;
        clear_loop fuel type (u32 (u32 (i - 1) + 1)) r.1 r.2
      else clear_loop fuel type (u32 (i + 1)) t g
  end.

Definition tag_clear_items_by_type (t : tag) (type : tag_type) (g : tags) : res (tag * tags) :=
  clear_loop (Z.to_nat (tag_num_items t)) type 0 t g.

Definition tag_free (t : tag) (g : tags) : res tags :=
  g ← for_down (i32 (tag_num_items t) - 1) (-1) (fun i g => l ← get_item g t i; put_item l g) g;
  if is_bulk (tag_items t) then assert (bulk_busy g);; Ok (set_busy false g) else Ok g.

(** [malloc()] for [n] items, if there are any. *)
Definition alloc_items (n : Z) : items := if 0 <? n then Heap (replicate (Z.to_nat n) None) else Null.

(** [ret->items[n] = item]. *)
Definition set_item (i : items) (n : Z) (l : loc) : res items :=
  match i with Heap a => a ← aset a n l; Ok (Heap a) | _ => Err OutOfBounds end.

(** Copies of all items of [t], to the beginning of an array. *)
Definition dup_one (t : tag) (k : Z) (st : items * tags) : res (items * tags) :=
  let '(i, g) := st in
  l ← get_item g t k;
  r ← dup_item l g;
  i ← set_item i k r.1;
  Ok (i, r.2).

Definition dup_items (t : tag) (i : items) (g : tags) : res (items * tags) :=
  for_range 0 (tag_num_items t) (dup_one t) (i, g).

Definition tag_dup (t : tag) (g : tags) : res (tag * tags) :=
  r ← dup_items t (alloc_items (tag_num_items t)) g;
  Ok (Tag (tag_time t) (tag_has_playlist t) r.1 (tag_num_items t), r.2).

(** The first item of a type. *)
Fixpoint find_item (fuel : nat) (type : tag_type) (i : Z) (t : tag) (g : tags) : res (option loc) :=
  if tag_num_items t <=? i then Ok None else
  match fuel with
  | O => Err OutOfFuel
  | S fuel =>
      l ← get_item g t i;
      ty ← item_type g l;
      if decide (ty = type) then Ok (Some l) else find_item fuel type (u32 (i + 1)) t g
  end.

Definition tag_get_value (t : tag) (type : tag_type) (g : tags) : res (option cstring) :=
  r ← find_item (Z.to_nat (tag_num_items t)) type 0 t g;
  match r with Some l => v ← item_value g l; Ok (Some v) | None => Ok None end.

Definition tag_has_type (t : tag) (type : tag_type) (g : tags) : res bool :=
  r ← tag_get_value t type g; Ok (bool_decide (is_Some r)).

(** One item of [base], unless [add] has its type. *)
Definition merge_item (base add : tag) (k : Z) (st : items * Z * tags) : res (items * Z * tags) :=
  let '(i, n, g) := st in
  l ← get_item g base k;
  ty ← item_type g l;
  has ← tag_has_type add ty g;
  if (has : bool) then Ok (i, n, g)
  else r ← dup_item l g; i ← set_item i n r.1; Ok (i, u32 (n + 1), r.2).

Definition tag_merge (base add : tag) (g : tags) : res (tag * tags) :=
  let time := if 0 <? tag_time add then tag_time add else tag_time base in
  let num := u32 (tag_num_items base + tag_num_items add) in
  r ← dup_items add (alloc_items num) g;
  r ← for_range 0 (tag_num_items base) (merge_item base add) (r.1, tag_num_items add, r.2);
  let '(i, n, g) := r in
  assert (n <=? num);;
  if n <? num then
    assert (0 <? n);;
    a ← realloc_items i n;
    Ok (Tag time false (Heap a) n, g)
  else Ok (Tag time false i num, g).

Definition tag_merge_replace (base add : option tag) (g : tags) : res (option tag * tags) :=
  match base, add with
  | base, None => Ok (base, g)
  | None, add => Ok (add, g)
  | Some base, Some add =>
      r ← tag_merge base add g;
      g ← tag_free base r.2;
      g ← tag_free add g;
      Ok (Some r.1, g)
  end.

Fixpoint equal_loop (fuel : nat) (i : Z) (t1 t2 : tag) (g : tags) : res bool :=
  if tag_num_items t1 <=? i then Ok true else
  match fuel with
  | O => Err OutOfFuel
  | S fuel =>
      l1 ← get_item g t1 i; l2 ← get_item g t2 i;
      ty1 ← item_type g l1; ty2 ← item_type g l2;
      if negb (bool_decide (ty1 = ty2)) then Ok false else
      v1 ← item_value g l1; v2 ← item_value g l2;
      if negb (bool_decide (v1 = v2)) then Ok false
      else equal_loop fuel (u32 (i + 1)) t1 t2 g
  end.

Definition tag_equal (tag1 tag2 : option tag) (g : tags) : res bool :=
  match tag1, tag2 with
  | None, None => Ok true
  | None, Some _ | Some _, None => Ok false
  | Some t1, Some t2 =>
      if negb (tag_time t1 =? tag_time t2) then Ok false
      else if negb (tag_num_items t1 =? tag_num_items t2) then Ok false
      else equal_loop (Z.to_nat (tag_num_items t1)) 0 t1 t2 g
  end.

Definition tag_begin_add (t : tag) (g : tags) : res (tag * tags) :=
  assert (negb (bulk_busy g));;
  assert (is_null (tag_items t));;
  assert (tag_num_items t =? 0);;
  Ok (set_items BulkItems (tag_num_items t) t, set_busy true g).

Definition tag_end_add (t : tag) (g : tags) : res (tag * tags) :=
  let n := tag_num_items t in
  t ← (if is_bulk (tag_items t) then
         assert (n <=? BULK_MAX);;
         Ok (if 0 <? n then set_items (Heap (take (Z.to_nat n) (bulk_items g))) n t else set_items Null n t)
       else Ok t);
  Ok (t, set_busy false g).

Definition tag_is_empty (t : tag) : bool := tag_num_items t =? 0.
Definition tag_is_defined (t : tag) : bool := negb (tag_is_empty t) || (0 <=? tag_time t).

Section add.
Context {C : Charset}.

(** Room for one more item; the array may move. *)
Definition grow (t : tag) (num : Z) (g : tags) : res items :=
  if negb (is_bulk (tag_items t)) then a ← realloc_items (tag_items t) num; Ok (Heap a)
  else if BULK_MAX <=? num then
    assert (bulk_busy g);;
    Ok (Heap (take (Z.to_nat (num - 1)) (bulk_items g) ++ [None]))
  else Ok BulkItems.

Definition tag_add_item_internal (t : tag) (type : tag_type) (value : list ascii) (len : nat) (g : tags)
  : res (tag * tags) :=
  let i := tag_num_items t in
  p ← fix_tag_value value len;
  v ← match p with Some p => string_in p | None => bytes_at value len end;
  let num := u32 (i + 1) in
  its ← grow t num g;
  r ← tag_pool_get_item type v (t_pool g);
  let '(l, p) := r in
  match its with
  | BulkItems => a ← aset (bulk_items g) i l; Ok (set_items BulkItems num t, set_bulk a (set_pool p g))
  | its => its ← set_item its i l; Ok (set_items its num t, set_pool p g)
  end.

(** [value] is [None] for [NULL]. *)
Definition tag_add_item_n (t : tag) (type : tag_type) (value : option (list ascii)) (len : nat) (g : tags)
  : res (tag * tags) :=
  if default false (ignore_tag_items g !! Z.to_nat (tag_type_code type)) then Ok (t, g) else
  match value with
  | None => Ok (t, g)
  | Some value => if (len =? 0)%nat then Ok (t, g) else tag_add_item_internal t type value len g
  end.

(** The array ends with a null byte. *)
Definition tag_add_item (t : tag) (type : tag_type) (value : list ascii) (g : tags) : res (tag * tags) :=
  s ← string_in value; tag_add_item_n t type (Some value) (length s) g.

End add.

(** * Tags: proofs

    A tag stands for the list of its items, type and value.  The operations
    are proved against that list: what they do to the pool, to the shared
    array and to the counters is what keeps the other tags as they are. *)

(** ** Representation *)

Definition refs_of (ls : list loc) : gmultiset loc := list_to_set_disj ls.

(** What the reference [l] stands for. *)
Definition item_is (g : tags) (l : loc) (it : item) : Prop := item_at (t_pool g) l = Some it.

(** The pool is well formed and [R] are the references to it. *)
Definition world (g : tags) (R : gmultiset loc) : Prop :=
  pool_ok (t_pool g) R /\ length (bulk_items g) = 64%nat.

Record owns (g : tags) (t : tag) (its : list item) (ls : list loc) : Prop := {
  owns_num : tag_num_items t = Z.of_nat (length ls);
  owns_bound : Z.of_nat (length ls) < 2 ^ 31;
  owns_items : Forall2 (item_is g) ls its;
  owns_store : match tag_items t with
               | Null => ls = []
               | BulkItems => bulk_busy g = true /\ (length ls < 64)%nat /\
                              take (length ls) (bulk_items g) = map Some ls
               | Heap a => a = map Some ls
               end;
}.

(** The rest of the state is the same, and so is what the references [R]
    stand for. *)
Record others_kept (g g' : tags) (R : gmultiset loc) : Prop := {
  kept_items : items_kept (t_pool g) (t_pool g') R;
  kept_busy : bulk_busy g' = bulk_busy g;
  kept_bulk : bulk_items g' = bulk_items g;
  kept_ignore : ignore_tag_items g' = ignore_tag_items g;
}.

Lemma others_refl g R : others_kept g g R.
Proof. by split. Qed.

Lemma others_trans g1 g2 g3 R R' :
  others_kept g1 g2 R -> others_kept g2 g3 R' -> R ⊆ R' -> others_kept g1 g3 R.
Proof.
  intros [H1 ???] [H2 ???] HR. split; [|congruence..].
  intros l Hl. rewrite (H2 l) by (eapply gmultiset_elem_of_subseteq; eassumption). by apply H1.
Qed.

Lemma refs_elem ls l : l ∈ refs_of ls <-> l ∈ ls.
Proof. apply elem_of_list_to_set_disj. Qed.

Lemma items_mono g g' R ls its :
  items_kept (t_pool g) (t_pool g') R -> refs_of ls ⊆ R -> Forall2 (item_is g) ls its -> Forall2 (item_is g') ls its.
Proof.
  intros Hk Hs Hf. apply Forall2_same_length_lookup. split; [by eapply Forall2_length|].
  intros i l it Hl Hit. unfold item_is. rewrite Hk; [change (item_is g l it); by eapply Forall2_lookup_lr|].
  eapply gmultiset_elem_of_subseteq; [|exact Hs]. apply refs_elem. by eapply list_elem_of_lookup_2.
Qed.

(** Operations on one tag leave the others alone. *)
Lemma owns_other g g' R t its ls :
  owns g t its ls -> others_kept g g' R -> refs_of ls ⊆ R -> owns g' t its ls.
Proof.
  intros [Hn Hb Hi Hs] [Hk Hbu Hbi _] HR. split; [done|done|by eapply items_mono|].
  destruct (tag_items t); [done| |done]. by rewrite Hbu, Hbi.
Qed.

Lemma get_item_ok g t its ls i l :
  owns g t its ls -> ls !! i = Some l -> get_item g t (Z.of_nat i) = Ok l.
Proof.
  intros [Hn Hb Hi Hs] Hl. unfold get_item. pose proof (lookup_lt_Some _ _ _ Hl) as Hlt.
  destruct (tag_items t) as [| |a].
  - subst ls. done.
  - destruct Hs as (_ & _ & Hs). apply aget_ok. rewrite <- (lookup_take_lt _ (length ls)) by done.
    rewrite Hs. change (map Some ls !! i = Some (Some l)). by rewrite list_lookup_fmap, Hl.
  - subst a. apply aget_ok. change (map Some ls) with (Some <$> ls). by rewrite list_lookup_fmap, Hl.
Qed.

Lemma item_type_ok g l it : item_is g l it -> item_type g l = Ok it.1.
Proof.
  unfold item_is, item_at, item_type, load. destruct (p_mem (t_pool g) !! l); [|done]. by intros [= <-].
Qed.

Lemma item_value_ok g R l it : world g R -> item_is g l it -> item_value g l = Ok it.2.
Proof.
  intros [[chains Hi] _]. unfold item_is, item_at, item_value, load.
  destruct (p_mem (t_pool g) !! l) as [s|] eqn:E; [|done]. intros [= <-].
  destruct (inv_count _ _ _ Hi l s E) as (_ & _ & Hn). simpl. by rewrite c_str_no_nul.
Qed.

(** ** References *)

Lemma dup_item_ok g R l it :
  world g R -> l ∈ R -> item_is g l it ->
  wp (dup_item l g) (fun r => world r.2 (R ⊎ {[+ r.1 +]}) /\ item_is r.2 r.1 it /\ others_kept g r.2 R).
Proof.
  intros [Hp Hb] Hl Hit. unfold dup_item. destruct it as [t v].
  eapply wp_bind_mono; [by apply (tag_pool_dup_item_gives (t_pool g) R)|]. intros [l' p] (Hok & Hit' & Hk).
  by repeat split.
Qed.

Lemma put_item_ok g R l :
  world g R -> l ∈ R ->
  wp (put_item l g) (fun g' => world g' (R ∖ {[+ l +]}) /\ others_kept g g' (R ∖ {[+ l +]})).
Proof.
  intros [Hp Hb] Hl. unfold put_item.
  eapply wp_bind_mono; [by apply tag_pool_put_item_keeps|]. intros p (Hok & Hk & _). by repeat split.
Qed.

(** ** Reading *)

Lemma value_of_has type its : bool_decide (is_Some (value_of type its)) = has_type type its.
Proof.
  induction its as [|[ty v] its IH]; [done|]. simpl. destruct (decide (ty = type)) as [->|].
  - by rewrite (bool_decide_true (type = type)).
  - by rewrite (bool_decide_false (ty = type)).
Qed.

(** The loops over the items run over a suffix of them. *)
Lemma item_step g t its ls i l it ls' its' :
  owns g t its ls -> drop i ls = l :: ls' -> drop i its = it :: its' ->
  get_item g t (Z.of_nat i) = Ok l /\ item_is g l it /\ u32 (Z.of_nat i + 1) = Z.of_nat (S i) /\
  drop (S i) ls = ls' /\ drop (S i) its = its' /\ tag_num_items t <=? Z.of_nat i = false.
Proof.
  intros Ho Hls Hits.
  assert (Hl : ls !! i = Some l) by (by rewrite <- (Nat.add_0_r i), <- lookup_drop, Hls).
  assert (Hi : its !! i = Some it) by (by rewrite <- (Nat.add_0_r i), <- lookup_drop, Hits).
  pose proof (lookup_lt_Some _ _ _ Hl) as Hlt. pose proof (owns_bound _ _ _ _ Ho). pose proof (owns_num _ _ _ _ Ho).
  repeat split.
  - by eapply get_item_ok.
  - exact (Forall2_lookup_lr _ _ _ _ _ _ (owns_items _ _ _ _ Ho) Hl Hi).
  - rewrite u32_small; lia.
  - by rewrite <- Nat.add_1_r, <- drop_drop, Hls.
  - by rewrite <- Nat.add_1_r, <- drop_drop, Hits.
  - apply Z.leb_gt. lia.
Qed.

Lemma items_len g t its ls : owns g t its ls -> length its = length ls.
Proof. intros Ho. symmetry. eapply Forall2_length, (owns_items _ _ _ _ Ho). Qed.

Lemma drop_cons {A B} (xs : list A) (ys : list B) i :
  length xs = length ys -> (i < length xs)%nat ->
  exists x xs' y ys', drop i xs = x :: xs' /\ drop i ys = y :: ys'.
Proof.
  intros Hl Hi. destruct (drop i xs) as [|x xs'] eqn:Ex.
  - apply (f_equal length) in Ex. rewrite length_drop in Ex. simpl in Ex. lia.
  - destruct (drop i ys) as [|y ys'] eqn:Ey; [|by eauto 6].
    apply (f_equal length) in Ey. rewrite length_drop in Ey. simpl in Ey. lia.
Qed.

Lemma find_item_ok g t its ls type n i :
  owns g t its ls -> (length ls <= i + n)%nat -> (i <= length ls)%nat ->
  wp (find_item n type (Z.of_nat i) t g) (fun r =>
    match r with
    | Some l => exists v, item_is g l (type, v) /\ value_of type (drop i its) = Some v
    | None => value_of type (drop i its) = None
    end).
Proof.
  intros Ho. pose proof (items_len _ _ _ _ Ho) as Hlen. revert i. induction n as [|n IH]; intros i Hn Hi.
  - assert (i = length ls) as -> by lia. simpl. rewrite (owns_num _ _ _ _ Ho), Z.leb_refl. cbn [wp].
    by rewrite drop_ge by lia.
  - destruct (Nat.eq_dec i (length ls)) as [->|Hne].
    { simpl. rewrite (owns_num _ _ _ _ Ho), Z.leb_refl. cbn [wp]. by rewrite drop_ge by lia. }
    destruct (drop_cons its ls i) as (it & its' & l & ls' & Hits & Hls); [done|lia|].
    destruct (item_step _ _ _ _ _ _ _ _ _ Ho Hls Hits) as (Hg & Hit & Hu & Hls' & Hits' & Hlt).
    cbn [find_item]. rewrite Hlt, Hg. cbn [mbind res_bind]. rewrite (item_type_ok _ _ _ Hit). cbn [mbind res_bind].
    rewrite Hits. destruct it as [ty v]. cbn [fst value_of]. destruct (decide (ty = type)) as [->|].
    + exists v. done.
    + rewrite Hu, <- Hits'. apply IH; lia.
Qed.

Lemma tag_get_value_ok g R t its ls type :
  world g R -> owns g t its ls -> tag_get_value t type g = Ok (value_of type its).
Proof.
  intros Hw Ho. unfold tag_get_value. rewrite (owns_num _ _ _ _ Ho), Nat2Z.id.
  pose proof (find_item_ok g t its ls type (length ls) 0 Ho ltac:(lia) ltac:(lia)) as H.
  change (Z.of_nat 0) with 0 in H. destruct (find_item (length ls) type 0 t g) as [[l|]|]; simpl in H; [| |done].
  - destruct H as (v & Hv & H). change (drop 0 its) with its in H. rewrite H. cbn [mbind res_bind].
    by rewrite (item_value_ok _ _ _ _ Hw Hv).
  - change (drop 0 its) with its in H. by rewrite H.
Qed.

Lemma tag_has_type_ok g R t its ls type :
  world g R -> owns g t its ls -> tag_has_type t type g = Ok (has_type type its).
Proof.
  intros Hw Ho. unfold tag_has_type. rewrite (tag_get_value_ok g R t its ls type Hw Ho). cbn [mbind res_bind].
  f_equal. rewrite <- value_of_has. done.
Qed.

Lemma equal_loop_ok g R t1 t2 its1 its2 ls1 ls2 n i :
  world g R -> owns g t1 its1 ls1 -> owns g t2 its2 ls2 -> length ls1 = length ls2 ->
  (length ls1 <= i + n)%nat -> (i <= length ls1)%nat ->
  equal_loop n (Z.of_nat i) t1 t2 g = Ok (bool_decide (drop i its1 = drop i its2)).
Proof.
  intros Hw H1 H2 Hlen. pose proof (items_len _ _ _ _ H1) as Hl1. pose proof (items_len _ _ _ _ H2) as Hl2.
  assert (Hend : forall i, i = length ls1 -> drop i its1 = drop i its2).
  { intros j ->. by rewrite !drop_ge by lia. }
  revert i. induction n as [|n IH]; intros i Hn Hi.
  - assert (i = length ls1) as E by lia. simpl. rewrite (owns_num _ _ _ _ H1). rewrite (proj2 (Z.leb_le _ _)) by lia.
    f_equal. symmetry. by apply bool_decide_eq_true, Hend.
  - destruct (Nat.eq_dec i (length ls1)) as [E|Hne].
    { simpl. rewrite (owns_num _ _ _ _ H1). rewrite (proj2 (Z.leb_le _ _)) by lia.
      f_equal. symmetry. by apply bool_decide_eq_true, Hend. }
    destruct (drop_cons its1 ls1 i) as (it1 & its1' & l1 & ls1' & Hits1 & Hls1); [done|lia|].
    destruct (drop_cons its2 ls2 i) as (it2 & its2' & l2 & ls2' & Hits2 & Hls2); [done|lia|].
    destruct (item_step _ _ _ _ _ _ _ _ _ H1 Hls1 Hits1) as (Hg1 & Hi1 & Hu & _ & Hd1 & Hlt).
    destruct (item_step _ _ _ _ _ _ _ _ _ H2 Hls2 Hits2) as (Hg2 & Hi2 & _ & _ & Hd2 & _).
    cbn [equal_loop]. rewrite Hlt, Hg1. cbn [mbind res_bind]. rewrite Hg2. cbn [mbind res_bind].
    rewrite (item_type_ok _ _ _ Hi1), (item_type_ok _ _ _ Hi2). cbn [mbind res_bind].
    rewrite Hits1, Hits2. destruct it1 as [ty1 v1], it2 as [ty2 v2]. cbn [fst].
    destruct (decide (ty1 = ty2)) as [<-|Ht]; [|rewrite !bool_decide_false by congruence; done].
    rewrite bool_decide_true by done. cbn [negb].
    rewrite (item_value_ok _ _ _ _ Hw Hi1), (item_value_ok _ _ _ _ Hw Hi2). cbn [mbind res_bind snd].
    destruct (decide (v1 = v2)) as [<-|Hv]; [|rewrite !bool_decide_false by congruence; done].
    rewrite bool_decide_true by done. cbn [negb]. rewrite Hu, IH by lia. rewrite Hd1, Hd2. f_equal.
    apply bool_decide_ext. split; [by intros ->|by intros [= ->]].
Qed.

(** ** Copying *)

(** The array [a] after copies of [its] were written to its beginning. *)
Definition copied (g0 : tags) (R : gmultiset loc) (size : nat) (its : list item) (st : items * tags) : Prop :=
  exists ls, length ls = length its /\ (length ls <= size)%nat /\
    st.1 = (if (size =? 0)%nat then Null else Heap (map Some ls ++ replicate (size - length ls) None)) /\
    world st.2 (refs_of ls ⊎ R) /\ Forall2 (item_is st.2) ls its /\ others_kept g0 st.2 R.

Lemma copied_start g R n :
  0 <= n -> world g R -> copied g R (Z.to_nat n) [] (alloc_items n, g).
Proof.
  intros Hn Hw. exists []. unfold alloc_items. cbn [fst snd]. split; [done|]. split; [simpl; lia|].
  repeat split; try apply others_refl; try constructor; try apply Hw.
  - destruct (Z.ltb_spec 0 n).
    + destruct (Nat.eqb_spec (Z.to_nat n) 0); [lia|]. by rewrite Nat.sub_0_r.
    + by replace (Z.to_nat n) with 0%nat by lia.
  - assert (E : refs_of [] ⊎ R = R) by multiset_solver. rewrite E. apply Hw.
Qed.

Lemma refs_snoc ls l R : refs_of (ls ++ [l]) ⊎ R = refs_of ls ⊎ R ⊎ {[+ l +]}.
Proof. unfold refs_of. rewrite list_to_set_disj_app. simpl. multiset_solver. Qed.

Lemma aset_next {A} (xs : list A) n x :
  (length xs < n)%nat ->
  aset (map Some xs ++ replicate (n - length xs) None) (Z.of_nat (length xs)) x =
  Ok (map Some (xs ++ [x]) ++ replicate (n - length (xs ++ [x])) None).
Proof.
  intros Hn. rewrite aset_ok by (rewrite length_app, length_map, length_replicate; lia). f_equal.
  rewrite insert_app_r_alt by (rewrite length_map; lia). rewrite length_map, Nat.sub_diag, map_app, <- app_assoc.
  f_equal. rewrite length_app. destruct (n - length xs)%nat as [|k] eqn:E; [lia|]. simpl.
  by replace (n - (length xs + 1))%nat with k by lia.
Qed.

Lemma copied_one g R size its i g0 l it :
  copied g0 R size its (i, g) -> l ∈ R -> item_is g0 l it -> (length its < size)%nat ->
  wp (r ← dup_item l g; i ← set_item i (Z.of_nat (length its)) r.1; Ok (i, r.2)) (copied g0 R size (its ++ [it])).
Proof.
  intros (ls & Hlen & Hle & Hi & Hw & Hf & Hk) Hl Hit Hs. cbn [fst snd] in *.
  assert (Hlr : l ∈ refs_of ls ⊎ R) by multiset_solver.
  assert (Hitg : item_is g l it) by (unfold item_is; rewrite (kept_items _ _ _ Hk) by done; exact Hit).
  eapply wp_bind_mono; [by eapply dup_item_ok|]. intros [l' g'] (Hw' & Hit' & Hk'). cbn [fst snd] in *.
  destruct (Nat.eqb_spec size 0); [lia|]. subst i. rewrite <- Hlen in *. cbn [set_item].
  rewrite aset_next by done. cbn [mbind res_bind]. apply wp_ok. exists (ls ++ [l']). cbn [fst snd].
  rewrite !length_app. split; [simpl; lia|]. split; [simpl; lia|]. destruct (Nat.eqb_spec size 0); [lia|].
  split; [done|]. split; [by rewrite refs_snoc|]. split.
  - apply Forall2_app; [|by constructor]. eapply items_mono; [apply Hk'|multiset_solver|done].
  - eapply others_trans; [exact Hk|exact Hk'|multiset_solver].
Qed.

Lemma dup_items_ok g R t its ls size :
  world g R -> owns g t its ls -> refs_of ls ⊆ R -> (length ls <= size)%nat ->
  wp (dup_items t (alloc_items (Z.of_nat size)) g) (copied g R size its).
Proof.
  intros Hw Ho HR Hs. pose proof (items_len _ _ _ _ Ho) as Hlen. unfold dup_items.
  rewrite (owns_num _ _ _ _ Ho). change 0 with (Z.of_nat 0).
  eapply wp_mono; [apply (for_range_inv (fun k => copied g R size (take k its))); [lia| |]|].
  - cbn [take]. rewrite <- (Nat2Z.id size) at 1. apply copied_start; [lia|done].
  - intros k [i gk] Hk Hc. destruct (drop_cons its ls k) as (it & its' & l & ls' & Hits & Hls); [done|lia|].
    destruct (item_step _ _ _ _ _ _ _ _ _ Ho Hls Hits) as (_ & Hit & _).
    assert (Hl : ls !! k = Some l) by (by rewrite <- (Nat.add_0_r k), <- lookup_drop, Hls).
    assert (Hi : its !! k = Some it) by (by rewrite <- (Nat.add_0_r k), <- lookup_drop, Hits).
    assert (Hok : owns gk t its ls).
    { destruct Hc as (lsk & _ & _ & _ & _ & _ & Hkept). by eapply owns_other. }
    unfold dup_one. rewrite (get_item_ok _ _ _ _ _ _ Hok Hl). cbn [mbind res_bind].
    rewrite (take_S_r _ _ _ Hi). assert (Hlt : length (take k its) = k) by (rewrite length_take; lia).
    assert (Hlr : l ∈ R).
    { eapply gmultiset_elem_of_subseteq; [|exact HR]. apply refs_elem. by eapply list_elem_of_lookup_2. }
    pose proof (copied_one _ _ _ _ _ _ _ _ Hc Hlr Hit ltac:(lia)) as H. by rewrite Hlt in H.
  - intros st. rewrite <- Hlen, firstn_all. done.
Qed.

(** A full array is the items of a tag. *)
Lemma copied_owns g R its st time pl :
  copied g R (length its) its st -> Z.of_nat (length its) < 2 ^ 31 ->
  exists ls, world st.2 (refs_of ls ⊎ R) /\ others_kept g st.2 R /\
    owns st.2 (Tag time pl st.1 (Z.of_nat (length its))) its ls.
Proof.
  intros (ls & Hlen & _ & Hi & Hw & Hf & Hk) Hb. exists ls. split; [done|]. split; [done|].
  split; cbn [tag_num_items tag_items]; [lia|lia|done|].
  rewrite Hi, Hlen, Nat.sub_diag. cbn [replicate]. rewrite app_nil_r.
  destruct (Nat.eqb_spec (length its) 0); [|done]. by apply nil_length_inv; lia.
Qed.

(** [holding R g t its]: [t] has the items [its] and [R] are the other
    references. *)
Definition holding (R : gmultiset loc) (g : tags) (t : tag) (its : list item) : Prop :=
  exists ls, world g (refs_of ls ⊎ R) /\ owns g t its ls.

Lemma tag_dup_ok g R t its :
  holding R g t its ->
  wp (tag_dup t g) (fun '(t', g') => exists ls, owns g t its ls /\
    holding (refs_of ls ⊎ R) g' t' its /\ others_kept g g' (refs_of ls ⊎ R) /\
    tag_time t' = tag_time t /\ tag_has_playlist t' = tag_has_playlist t).
Proof.
  intros (ls & Hw & Ho). unfold tag_dup. pose proof (items_len _ _ _ _ Ho) as Hlen.
  pose proof (owns_bound _ _ _ _ Ho).
  rewrite (owns_num _ _ _ _ Ho), <- Hlen.
  eapply wp_bind_mono; [eapply dup_items_ok; [done|done|multiset_solver|lia]|].
  intros [i g'] Hc. eapply copied_owns in Hc as (ls' & Hw' & Hk & Ho'); [|lia]. apply wp_ok. cbn [fst snd] in *.
  exists ls. split; [done|]. split; [exists ls'; split; [done|exact Ho']|]. done.
Qed.

(** ** Merging *)

Lemma merged_take_S base add k it :
  base !! k = Some it ->
  merged (take (S k) base) add =
  if has_type it.1 add then merged (take k base) add else merged (take k base) add ++ [it].
Proof.
  intros H. unfold merged. rewrite (take_S_r _ _ _ H), filter_app, app_assoc. rewrite filter_cons, filter_nil.
  destruct (has_type it.1 add); [|done]. by rewrite decide_False, app_nil_r by done.
Qed.

Lemma merged_length base add : (length (merged base add) <= length base + length add)%nat.
Proof. unfold merged. rewrite length_app. pose proof (length_filter (fun it : item => has_type it.1 add = false) base). lia. Qed.

Lemma merged_nonempty base add : merged base add = [] -> base = [] /\ add = [].
Proof.
  unfold merged. intros [-> Hf]%app_nil. split; [|done]. destruct base as [|b base]; [done|].
  rewrite filter_cons, decide_True in Hf by done. done.
Qed.

Lemma merge_item_ok g0 R base add tb ta lb la size k it i g :
  copied g0 R size (merged (take k base) add) (i, g) ->
  owns g0 tb base lb -> owns g0 ta add la -> refs_of lb ⊆ R -> refs_of la ⊆ R ->
  base !! k = Some it -> (length base + length add <= size)%nat -> Z.of_nat size < 2 ^ 32 ->
  wp (merge_item tb ta (Z.of_nat k) (i, Z.of_nat (length (merged (take k base) add)), g)) (fun '(i', n', g') =>
    copied g0 R size (merged (take (S k) base) add) (i', g') /\
    n' = Z.of_nat (length (merged (take (S k) base) add))).
Proof.
  intros Hc Hb Ha HRb HRa Hit Hs Hbound. pose proof Hc as (ls & _ & _ & _ & Hw & _ & Hk).
  cbn [fst snd] in Hw, Hk.
  assert (Hb' : owns g tb base lb) by (by eapply owns_other).
  assert (Ha' : owns g ta add la) by (by eapply owns_other).
  assert (Hkb : (k < length lb)%nat) by (rewrite <- (items_len _ _ _ _ Hb); by eapply lookup_lt_Some).
  destruct (lookup_lt_is_Some_2 lb k Hkb) as [l Hl].
  assert (Hlr : l ∈ R).
  { eapply gmultiset_elem_of_subseteq; [|exact HRb]. apply refs_elem. by eapply list_elem_of_lookup_2. }
  pose proof (Forall2_lookup_lr _ _ _ _ _ _ (owns_items _ _ _ _ Hb') Hl Hit) as Hti.
  pose proof (Forall2_lookup_lr _ _ _ _ _ _ (owns_items _ _ _ _ Hb) Hl Hit) as Hti0.
  cbn [merge_item]. rewrite (get_item_ok _ _ _ _ _ _ Hb' Hl). cbn [mbind res_bind].
  rewrite (item_type_ok _ _ _ Hti). cbn [mbind res_bind].
  rewrite (tag_has_type_ok _ _ _ _ _ it.1 Hw Ha'). cbn [mbind res_bind]. rewrite (merged_take_S _ _ _ _ Hit).
  destruct (has_type it.1 add); [done|].
  assert (Hlt : (length (merged (take k base) add) < size)%nat).
  { pose proof (merged_length (take k base) add) as Hm. rewrite length_take in Hm. apply lookup_lt_Some in Hit. lia. }
  pose proof (copied_one _ _ _ _ _ _ _ _ Hc Hlr Hti0 Hlt) as H.
  destruct (dup_item l g) as [[l' g']|]; [|done]. cbn [mbind res_bind fst snd] in *.
  destruct (set_item _ _ _) as [i'|]; [|done]. cbn [mbind res_bind] in *. apply wp_ok. split; [exact H|].
  rewrite u32_small, length_app by (simpl in *; lia). simpl. lia.
Qed.

(** The array is cut to the items that were copied. *)
Lemma copied_shrink g R size its i g' :
  copied g R size its (i, g') -> (length its < size)%nat ->
  realloc_items i (Z.of_nat (length its)) = Ok (match i with Heap a => take (length its) a | _ => [] end) /\
  copied g R (length its) its (if (length its =? 0)%nat then Null else
    Heap (match i with Heap a => take (length its) a | _ => [] end), g').
Proof.
  intros (ls & Hlen & Hle & Hi & Hw & Hf & Hk) Hlt. cbn [fst snd] in *. destruct (Nat.eqb_spec size 0); [lia|].
  subst i. cbn [realloc_items]. rewrite Nat2Z.id. rewrite <- Hlen. split.
  - rewrite length_app, length_map, length_replicate. replace (length ls - (length ls + (size - length ls)))%nat with 0%nat by lia. by rewrite app_nil_r.
  - exists ls. cbn [fst snd]. rewrite Hlen. split; [done|]. split; [done|]. split; [|done].
    rewrite <- Hlen, Nat.sub_diag. cbn [replicate]. rewrite app_nil_r.
    rewrite take_app_le by (by rewrite length_map). by rewrite take_ge by (by rewrite length_map).
Qed.

Lemma tag_merge_ok g R tb ta base add lb la :
  world g R -> owns g tb base lb -> owns g ta add la -> refs_of lb ⊆ R -> refs_of la ⊆ R ->
  Z.of_nat (length (merged base add)) < 2 ^ 31 ->
  wp (tag_merge tb ta g) (fun '(t, g') =>
    holding R g' t (merged base add) /\ others_kept g g' R /\
    tag_time t = (if 0 <? tag_time ta then tag_time ta else tag_time tb) /\ tag_has_playlist t = false).
Proof.
  intros Hw Hb Ha HRb HRa Hbound. pose proof (items_len _ _ _ _ Hb) as Hlb. pose proof (items_len _ _ _ _ Ha) as Hla.
  pose proof (owns_bound _ _ _ _ Hb) as Hbb. pose proof (owns_bound _ _ _ _ Ha) as Hba.
  set (size := (length base + length add)%nat). unfold tag_merge.
  assert (Hnum : u32 (tag_num_items tb + tag_num_items ta) = Z.of_nat size).
  { rewrite (owns_num _ _ _ _ Hb), (owns_num _ _ _ _ Ha), u32_small; unfold size; lia. }
  rewrite Hnum. eapply wp_bind_mono; [apply (dup_items_ok g R ta add la size); [done|done|done|unfold size; lia]|].
  intros [i g1] Hc. cbn [fst snd]. rewrite (owns_num _ _ _ _ Hb), <- Hlb.
  change (for_range (S := items * Z * tags) 0) with (for_range (S := items * Z * tags) (Z.of_nat 0)).
  eapply wp_bind_mono.
  { apply (for_range_inv (fun k '(i, n, g') => copied g R size (merged (take k base) add) (i, g') /\
      n = Z.of_nat (length (merged (take k base) add)))); [lia| |].
    - unfold merged. cbn [take filter list_filter]. rewrite app_nil_r. split; [done|].
      rewrite (owns_num _ _ _ _ Ha). lia.
    - intros k [[ik nk] gk] Hk [Hck ->]. destruct (lookup_lt_is_Some_2 base k ltac:(lia)) as [it Hit].
      by eapply merge_item_ok; [..|unfold size; lia]. }
  intros [[i2 n2] g2] [Hc2 ->]. rewrite firstn_all in *. pose proof (merged_length base add) as Hle. fold size in Hle.
  apply wp_bind, wp_assert; [apply Z.leb_le; lia|].
  destruct (Z.ltb_spec (Z.of_nat (length (merged base add))) (Z.of_nat size)) as [Hlt|Hge].
  - assert (Hne : length (merged base add) <> 0%nat).
    { intros [-> ->]%nil_length_inv%merged_nonempty. simpl in size. lia. }
    apply wp_bind, wp_assert; [apply Z.ltb_lt; lia|].
    destruct (copied_shrink _ _ _ _ _ _ Hc2 ltac:(lia)) as [-> Hc3]. cbn [mbind res_bind].
    destruct (Nat.eqb_spec (length (merged base add)) 0); [done|].
    eapply copied_owns in Hc3 as (ls & Hw' & Hk & Ho); [|done]. cbn [fst snd] in *. by split; [exists ls|].
  - assert (E : size = length (merged base add)) by lia. rewrite E in Hc2 |- *.
    eapply copied_owns in Hc2 as (ls & Hw' & Hk & Ho); [|done]. cbn [fst snd] in *. by split; [exists ls|].
Qed.

(** ** Removing *)

Lemma refs_delete ls i l R :
  ls !! i = Some l -> (refs_of ls ⊎ R) ∖ {[+ l +]} = refs_of (delete i ls) ⊎ R.
Proof.
  intros Hl. unfold refs_of. rewrite (list_to_set_disj_perm _ _ (delete_Permutation ls i l Hl)). simpl. multiset_solver.
Qed.

Lemma take_remove_cell ls idx :
  (idx < length ls - 1)%nat ->
  take (length ls - 1) (remove_cell (map Some ls) (Z.of_nat idx) (Z.of_nat (length ls - 1))) =
  map Some (delete idx ls) :> cells loc.
Proof.
  intros Hi. unfold remove_cell. rewrite delete_take_drop, map_app, <- !firstn_map, <- skipn_map.
  rewrite !Nat2Z.id. replace (Z.to_nat (Z.of_nat (length ls - 1) - Z.of_nat idx)) with (length ls - 1 - idx)%nat by lia.
  rewrite app_assoc, take_app_le by (rewrite length_app, !length_take, length_drop, length_map; lia).
  rewrite (take_ge _ (length ls - 1)) by (rewrite length_app, !length_take, length_drop, length_map; lia).
  f_equal. rewrite take_ge by (rewrite length_drop, length_map; lia). by rewrite Nat.add_1_r.
Qed.

Lemma realloc_heap a n :
  (n <= length a)%nat -> realloc_items (Heap a) (Z.of_nat n) = Ok (take n a).
Proof.
  intros Hn. cbn [realloc_items]. rewrite Nat2Z.id. replace (n - length a)%nat with 0%nat by lia.
  by rewrite app_nil_r.
Qed.

Lemma remove_cell_length ls idx :
  (idx < length ls - 1)%nat ->
  (length ls - 1 <= length (remove_cell (map Some ls) (Z.of_nat idx) (Z.of_nat (length ls - 1))))%nat.
Proof.
  intros Hi. unfold remove_cell. rewrite !length_app, !length_take, !length_drop, length_map. lia.
Qed.

(** What removing one item promises. *)
Definition removed (R : gmultiset loc) (g : tags) (t : tag) (its : list item) (ls : list loc) (idx : nat)
    (r : tag * tags) : Prop :=
  world r.2 (refs_of (delete idx ls) ⊎ R) /\ owns r.2 r.1 (delete idx its) (delete idx ls) /\
  others_kept g r.2 R /\ is_bulk (tag_items r.1) = false /\
  tag_time r.1 = tag_time t /\ tag_has_playlist r.1 = tag_has_playlist t.

Lemma removed_intro R g g' t its ls idx i :
  owns g t its ls -> (idx < length ls)%nat ->
  world g' (refs_of (delete idx ls) ⊎ R) -> others_kept g g' (refs_of (delete idx ls) ⊎ R) ->
  i = (if (length ls =? 1)%nat then Null else Heap (map Some (delete idx ls))) ->
  removed R g t its ls idx (set_items i (Z.of_nat (length ls - 1)) t, g').
Proof.
  intros Ho Hidx Hw Hk ->. unfold removed. cbn [fst snd set_items tag_items tag_time tag_has_playlist].
  pose proof (length_delete ls idx (lookup_lt_is_Some_2 _ _ Hidx)) as Hdel.
  split; [done|]. split.
  - pose proof (owns_bound _ _ _ _ Ho). split; cbn [set_items tag_num_items tag_items].
    + rewrite Hdel. lia.
    + rewrite Hdel. lia.
    + eapply (items_mono g g'); [apply Hk|multiset_solver|]. apply Forall2_delete, (owns_items _ _ _ _ Ho).
    + destruct (Nat.eqb_spec (length ls) 1); [|done]. apply nil_length_inv. rewrite Hdel. lia.
  - split; [|split; [|done]].
    + destruct Hk as [Hi ???]. split; [|done..]. intros l Hl. apply Hi. multiset_solver.
    + by destruct (length ls =? 1)%nat.
Qed.

Lemma tag_delete_item_ok g R t its ls idx :
  world g (refs_of ls ⊎ R) -> owns g t its ls -> is_bulk (tag_items t) = false -> (idx < length ls)%nat ->
  wp (tag_delete_item t (Z.of_nat idx) g) (removed R g t its ls idx).
Proof.
  intros Hw Ho Hnb Hidx. destruct (lookup_lt_is_Some_2 ls idx Hidx) as [l Hl].
  pose proof (owns_bound _ _ _ _ Ho) as Hb. pose proof (owns_num _ _ _ _ Ho) as Hn. unfold tag_delete_item.
  apply wp_bind, wp_assert; [apply Z.ltb_lt; lia|]. rewrite Hn. cbv zeta.
  assert (Hu : u32 (Z.of_nat (length ls) - 1) = Z.of_nat (length ls - 1)) by (rewrite u32_small; lia).
  rewrite Hu. rewrite (get_item_ok _ _ _ _ _ _ Ho Hl). cbn [mbind res_bind].
  eapply wp_bind_mono; [eapply put_item_ok; [exact Hw|]|].
  { apply gmultiset_elem_of_disj_union. left. apply refs_elem. by eapply list_elem_of_lookup_2. }
  intros g' [Hw' Hk]. rewrite (refs_delete _ _ _ _ Hl) in Hw', Hk.
  assert (Hh : tag_items t = Heap (map Some ls)).
  { pose proof (owns_store _ _ _ _ Ho) as Hs. destruct (tag_items t); [by subst ls|done|by subst a]. }
  rewrite Hh. destruct (Z.ltb_spec 0 (u32 (Z.of_nat (length ls - 1) - Z.of_nat idx))) as [Hlt|Hge];
    rewrite u32_small in * by lia; cbn [mbind res_bind is_bulk].
  - rewrite (proj2 (Z.ltb_lt _ _)) by lia. rewrite realloc_heap by (apply remove_cell_length; lia).
    cbn [mbind res_bind]. rewrite take_remove_cell by lia. apply removed_intro; [done|done|done|done|].
    destruct (Nat.eqb_spec (length ls) 1); [lia|done].
  - assert (E : idx = (length ls - 1)%nat) by lia. destruct (Z.ltb_spec 0 (Z.of_nat (length ls - 1))).
    + rewrite realloc_heap by (rewrite length_map; lia). cbn [mbind res_bind].
      apply removed_intro; [done|done|done|done|]. destruct (Nat.eqb_spec (length ls) 1); [lia|].
      rewrite delete_take_drop, E, (drop_ge ls) by lia. by rewrite app_nil_r, <- firstn_map.
    + apply removed_intro; [done|done|done|done|]. by destruct (Nat.eqb_spec (length ls) 1); [|lia].
Qed.

(** What an operation on one tag promises. *)
Definition becomes (R : gmultiset loc) (g : tags) (t : tag) (its : list item) (r : tag * tags) : Prop :=
  holding R r.2 r.1 its /\ others_kept g r.2 R /\
  tag_time r.1 = tag_time t /\ tag_has_playlist r.1 = tag_has_playlist t.

Lemma becomes_refl R g t its : holding R g t its -> becomes R g t its (t, g).
Proof. intros H. split; [done|]. split; [apply others_refl|done]. Qed.

Lemma clear_loop_ok R type n i g t its ls :
  world g (refs_of ls ⊎ R) -> owns g t its ls -> is_bulk (tag_items t) = false ->
  (length ls <= i + n)%nat -> (i <= length ls)%nat ->
  wp (clear_loop n type (Z.of_nat i) t g) (becomes R g t (take i its ++ without type (drop i its))).
Proof.
  revert i g t its ls. induction n as [|n IH]; intros i g t its ls Hw Ho Hnb Hn Hi;
    pose proof (items_len _ _ _ _ Ho) as Hlen; pose proof (owns_num _ _ _ _ Ho) as Hnum.
  { simpl. rewrite Hnum, (proj2 (Z.leb_le _ _)) by lia. cbn [wp]. rewrite take_ge, drop_ge by lia.
    unfold without. rewrite filter_nil, app_nil_r. apply becomes_refl. by exists ls. }
  destruct (Nat.eq_dec i (length ls)) as [E|Hne].
  { simpl. rewrite Hnum, (proj2 (Z.leb_le _ _)) by lia. cbn [wp]. rewrite take_ge, drop_ge by lia.
    unfold without. rewrite filter_nil, app_nil_r. apply becomes_refl. by exists ls. }
  destruct (drop_cons its ls i) as (it & its' & l & ls' & Hits & Hls); [done|lia|].
  destruct (item_step _ _ _ _ _ _ _ _ _ Ho Hls Hits) as (Hg & Hit & Hu & Hls' & Hits' & Hlt).
  assert (Hiti : its !! i = Some it) by (by rewrite <- (Nat.add_0_r i), <- lookup_drop, Hits).
  cbn [clear_loop]. rewrite Hlt, Hg. cbn [mbind res_bind]. rewrite (item_type_ok _ _ _ Hit). cbn [mbind res_bind].
  rewrite Hits. unfold without. rewrite filter_cons. destruct (decide (it.1 = type)) as [Ht|Ht].
  - rewrite decide_False by auto. eapply wp_bind_mono; [apply tag_delete_item_ok; [done|done|done|lia]|].
    intros [t' g'] (Hw' & Ho' & Hk & Hnb' & Htime & Hpl). cbn [fst snd] in *.
    assert (Hback : u32 (u32 (Z.of_nat i - 1) + 1) = Z.of_nat i).
    { pose proof (owns_bound _ _ _ _ Ho). unfold u32. rewrite Zplus_mod_idemp_l. rewrite Z.mod_small; lia. }
    rewrite Hback. pose proof (length_delete ls i (lookup_lt_is_Some_2 ls i ltac:(lia))) as Hdel.
    eapply wp_mono; [eapply IH; [done|done|done|lia|lia]|]. intros [t2 g2] (Hh & Hk2 & Ht2 & Hp2).
    cbn [fst snd] in *. unfold becomes, without in *. cbn [fst snd].
    rewrite delete_take_drop, take_app_le, take_take, Nat.min_id in Hh by (rewrite length_take; lia).
    rewrite drop_app_ge in Hh by (rewrite length_take; lia). rewrite length_take in Hh.
    replace (i - i `min` length its)%nat with 0%nat in Hh by lia. rewrite drop_0, Hits' in Hh.
    split; [done|]. split; [eapply others_trans; [exact Hk|exact Hk2|done]|]. by rewrite Ht2, Hp2.
  - rewrite decide_True by done. rewrite Hu. eapply wp_mono; [by apply (IH (S i) g t its ls); try done; lia|].
    intros r. unfold without. rewrite Hits', (take_S_r _ _ _ Hiti), <- app_assoc. done.
Qed.

Lemma tag_clear_items_by_type_ok R type g t its :
  holding R g t its -> is_bulk (tag_items t) = false ->
  wp (tag_clear_items_by_type t type g) (becomes R g t (without type its)).
Proof.
  intros (ls & Hw & Ho) Hnb. unfold tag_clear_items_by_type.
  pose proof (clear_loop_ok R type (Z.to_nat (tag_num_items t)) 0 g t its ls Hw Ho Hnb) as H.
  rewrite (owns_num _ _ _ _ Ho) in *. apply H; lia.
Qed.

(** ** Freeing *)

Lemma get_item_same g g' t i : bulk_items g' = bulk_items g -> get_item g' t i = get_item g t i.
Proof. intros H. unfold get_item. by rewrite H. Qed.

Lemma put_loop_items g0 R t its ls :
  world g0 (refs_of ls ⊎ R) -> owns g0 t its ls ->
  wp (for_down (Z.of_nat (length ls) - 1) (-1) (fun i g => l ← get_item g t i; put_item l g) g0) (fun g =>
    world g R /\ others_kept g0 g R).
Proof.
  intros Hw Ho. unfold for_down. replace (Z.to_nat (Z.of_nat (length ls) - 1 - -1)) with (length ls) by lia.
  apply safe_wp.
  pose proof (for_dn_safe False (fun k g => world g (refs_of (take k ls) ⊎ R) /\ others_kept g0 g R)
    (fun i g => l ← get_item g t i; put_item l g) (length ls) (length ls) g0 ltac:(lia)) as H.
  cbn beta in H. rewrite firstn_all, Nat.sub_diag in H. assert (E : refs_of [] ⊎ R = R) by multiset_solver.
  eapply safe_mono; [apply H; [split; [done|apply others_refl]|]|].
  2:{ cbn beta. intros g [Hg Hk]. change (take 0 ls) with (@nil loc) in Hg. by rewrite E in Hg. }
  clear H E. intros k g Hk [Hwk Hkept]. destruct (lookup_lt_is_Some_2 ls k ltac:(lia)) as [l Hl].
  apply safe_wp. rewrite (get_item_same g0 g) by apply Hkept. rewrite (get_item_ok _ _ _ _ _ _ Ho Hl). cbn [mbind res_bind].
  rewrite (take_S_r _ _ _ Hl) in Hwk.
  eapply wp_mono; [eapply put_item_ok; [exact Hwk|]|].
  { apply gmultiset_elem_of_disj_union. left. apply refs_elem. set_solver. }
  intros g' [Hw' Hk']. assert (E : (refs_of (take k ls ++ [l]) ⊎ R) ∖ {[+ l +]} = refs_of (take k ls) ⊎ R).
  { rewrite refs_snoc. multiset_solver. }
  rewrite E in Hw', Hk'. split; [done|]. destruct Hk' as [Hi ???], Hkept as [Hi0 ???]. split; [|congruence..].
  intros l' Hl'. rewrite (Hi l') by multiset_solver. by apply Hi0.
Qed.

(** Giving up a tag frees what nobody else refers to, and the shared array. *)
Lemma tag_free_ok g R t its :
  holding R g t its ->
  wp (tag_free t g) (fun g' => world g' R /\ items_kept (t_pool g) (t_pool g') R /\
    bulk_busy g' = (if is_bulk (tag_items t) then false else bulk_busy g) /\
    bulk_items g' = bulk_items g /\ ignore_tag_items g' = ignore_tag_items g).
Proof.
  intros (ls & Hw & Ho). unfold tag_free. pose proof (owns_bound _ _ _ _ Ho) as Hb.
  rewrite (owns_num _ _ _ _ Ho). rewrite i32_small by lia.
  eapply wp_bind_mono; [by eapply put_loop_items|]. intros g' [Hw' [Hi Hbu Hbi Hig]].
  pose proof (owns_store _ _ _ _ Ho) as Hs. destruct (tag_items t); cbn [is_bulk].
  - apply wp_ok. done.
  - destruct Hs as (Hbusy & _). apply wp_bind, wp_assert; [by rewrite Hbu|]. apply wp_ok. done.
  - apply wp_ok. done.
Qed.

Lemma holding_swap g R t its ls R' :
  world g (refs_of ls ⊎ R) -> owns g t its ls -> R' = R -> holding R' g t its.
Proof. intros Hw Ho ->. by exists ls. Qed.

Definition merged_opt (base add : option (list item)) : option (list item) :=
  match base, add with
  | base, None => base
  | None, add => add
  | Some base, Some add => Some (merged base add)
  end.

(** *** Merging consumes both tags *)

Lemma tag_merge_replace_ok g R tb ta base add lb la :
  world g (refs_of lb ⊎ refs_of la ⊎ R) -> owns g tb base lb -> owns g ta add la ->
  is_bulk (tag_items tb) = false -> is_bulk (tag_items ta) = false ->
  Z.of_nat (length (merged base add)) < 2 ^ 31 ->
  wp (tag_merge_replace (Some tb) (Some ta) g) (fun r => exists t, r.1 = Some t /\
    holding R r.2 t (merged base add) /\ others_kept g r.2 R /\
    tag_time t = (if 0 <? tag_time ta then tag_time ta else tag_time tb) /\ tag_has_playlist t = false).
Proof.
  intros Hw Hb Ha Hnb Hna Hbound. cbn [tag_merge_replace]. set (R0 := refs_of lb ⊎ refs_of la ⊎ R).
  eapply wp_bind_mono; [apply (tag_merge_ok g R0 tb ta base add lb la); try done; unfold R0; multiset_solver|].
  intros [t g1] ((ls & Hw1 & Ho1) & Hk1 & Ht & Hp). cbn [fst snd].
  assert (Hb1 : owns g1 tb base lb) by (eapply owns_other; [done|exact Hk1|unfold R0; multiset_solver]).
  assert (Ha1 : owns g1 ta add la) by (eapply owns_other; [done|exact Hk1|unfold R0; multiset_solver]).
  assert (Hh : holding (refs_of ls ⊎ refs_of la ⊎ R) g1 tb base).
  { exists lb. split; [|done]. replace (refs_of lb ⊎ _) with (refs_of ls ⊎ R0); [done|]. unfold R0. multiset_solver. }
  eapply wp_bind_mono; [exact (tag_free_ok _ _ _ _ Hh)|]. intros g2 (Hw2 & Hi2 & Hbu2 & Hbi2 & Hig2).
  rewrite Hnb in Hbu2. assert (Hk2 : others_kept g1 g2 (refs_of ls ⊎ refs_of la ⊎ R)) by done.
  assert (Ha2 : owns g2 ta add la) by (eapply owns_other; [done|exact Hk2|multiset_solver]).
  assert (Hh2 : holding (refs_of ls ⊎ R) g2 ta add).
  { exists la. split; [|done]. replace (refs_of la ⊎ _) with (refs_of ls ⊎ refs_of la ⊎ R); [done|multiset_solver]. }
  eapply wp_bind_mono; [exact (tag_free_ok _ _ _ _ Hh2)|]. intros g3 (Hw3 & Hi3 & Hbu3 & Hbi3 & Hig3).
  rewrite Hna in Hbu3. assert (Hk3 : others_kept g2 g3 (refs_of ls ⊎ R)) by done.
  apply wp_ok. exists t. cbn [fst snd]. split; [done|]. split; [|split; [|done]].
  - exists ls. split; [done|]. eapply owns_other; [|exact Hk3|multiset_solver].
    eapply owns_other; [done|exact Hk2|multiset_solver].
  - destruct Hk1, Hk2, Hk3. split; [|congruence..]. intros l Hl.
    rewrite (kept_items2 l), (kept_items1 l) by multiset_solver. apply kept_items0. unfold R0. multiset_solver.
Qed.

(** * Tags: adding items

    Adding an item appends it to the list of the tag, in the shared array and
    outside of it. *)

(** ** The shared array *)

Lemma owns_set_busy b g t its ls :
  owns g t its ls -> is_bulk (tag_items t) = false -> owns (set_busy b g) t its ls.
Proof. intros [Hn Hb Hi Hs] Hnb. split; [done|done|done|]. by destruct (tag_items t). Qed.

Lemma tag_begin_add_ok g R t :
  holding R g t [] -> tag_items t = Null -> bulk_busy g = false ->
  wp (tag_begin_add t g) (fun r => holding R r.2 r.1 [] /\ is_bulk (tag_items r.1) = true /\ r.2 = set_busy true g /\
    tag_time r.1 = tag_time t /\ tag_has_playlist r.1 = tag_has_playlist t).
Proof.
  intros (ls & Hw & Ho) Hnull Hbusy. pose proof (owns_store _ _ _ _ Ho) as Hs. rewrite Hnull in Hs. subst ls.
  unfold tag_begin_add. rewrite Hbusy, Hnull, (owns_num _ _ _ _ Ho). cbn [length negb is_null].
  apply wp_bind, wp_assert; [done|]. apply wp_bind, wp_assert; [done|]. apply wp_bind, wp_assert; [done|].
  apply wp_ok. cbn [fst snd]. split; [|done]. exists []. split; [done|].
  split; [done|done|constructor|]. cbn [set_items tag_items length]. repeat split; simpl; lia || done.
Qed.

Lemma tag_end_add_ok g R t its :
  holding R g t its ->
  wp (tag_end_add t g) (fun r => holding R r.2 r.1 its /\ is_bulk (tag_items r.1) = false /\ r.2 = set_busy false g /\
    tag_time r.1 = tag_time t /\ tag_has_playlist r.1 = tag_has_playlist t).
Proof.
  intros (ls & Hw & Ho). unfold tag_end_add. pose proof (owns_store _ _ _ _ Ho) as Hs.
  pose proof (owns_num _ _ _ _ Ho) as Hn. pose proof (owns_bound _ _ _ _ Ho) as Hb.
  assert (Hnb : is_bulk (tag_items t) = false -> holding R (set_busy false g) t its).
  { intros H. exists ls. split; [done|]. by apply owns_set_busy. }
  destruct (tag_items t) as [| |a] eqn:Ei; cbn [is_bulk].
  - apply wp_ok. cbn [fst snd]. rewrite Ei. auto.
  - destruct Hs as (Hbusy & Hlt & Hs). rewrite Hn. unfold BULK_MAX. apply wp_bind, wp_bind, wp_assert; [apply Z.leb_le; lia|].
    rewrite Nat2Z.id. destruct (Z.ltb_spec 0 (Z.of_nat (length ls))).
    + apply wp_ok. cbn [fst snd]. split; [|done]. exists ls. split; [done|].
      split; [done|done|exact (owns_items _ _ _ _ Ho)|done].
    + apply wp_ok. cbn [fst snd]. split; [|done]. exists ls. split; [done|].
      split; [done|done|exact (owns_items _ _ _ _ Ho)|]. cbn. by apply nil_length_inv; lia.
  - apply wp_ok. cbn [fst snd]. rewrite Ei. auto.
Qed.

(** ** One more item *)

(** The array has a cell for the new item. *)
Lemma grow_ok g t its ls :
  owns g t its ls -> length (bulk_items g) = 64%nat -> Z.of_nat (length ls) + 1 < 2 ^ 31 ->
  grow t (Z.of_nat (length ls) + 1) g =
  Ok (if is_bulk (tag_items t) && (length ls <? 63)%nat then BulkItems else Heap (map Some ls ++ [None])).
Proof.
  intros Ho Hbl Hb. pose proof (owns_store _ _ _ _ Ho) as Hs. unfold grow.
  destruct (tag_items t) as [| |a]; cbn [is_bulk negb andb].
  - subst ls. done.
  - destruct Hs as (Hbusy & Hlt & Hs). unfold BULK_MAX.
    destruct (Z.leb_spec 64 (Z.of_nat (length ls) + 1)), (Nat.ltb_spec (length ls) 63); try lia; [|done].
    rewrite Hbusy. cbn [assert mbind res_bind]. rewrite <- Hs. do 4 f_equal. lia.
  - subst a. cbn [realloc_items mbind res_bind]. rewrite length_map, take_ge by (rewrite length_map; lia).
    by replace (Z.to_nat (Z.of_nat (length ls) + 1) - length ls)%nat with 1%nat by lia.
Qed.

(** The new reference is written to that cell. *)
Lemma store_new g p t its ls R l it :
  owns g t its ls -> length (bulk_items g) = 64%nat -> Z.of_nat (length ls) + 1 < 2 ^ 31 ->
  pool_ok p ((refs_of ls ⊎ R) ⊎ {[+ l +]}) -> item_at p l = Some it ->
  items_kept (t_pool g) p (refs_of ls ⊎ R) ->
  let its' := if is_bulk (tag_items t) && (length ls <? 63)%nat then BulkItems else Heap (map Some ls ++ [None]) in
  let num := Z.of_nat (length ls) + 1 in
  wp (match its' with
      | BulkItems => a ← aset (bulk_items g) (tag_num_items t) l;
          Ok (set_items BulkItems num t, set_bulk a (set_pool p g))
      | i => i ← set_item i (tag_num_items t) l; Ok (set_items i num t, set_pool p g)
      end)
    (fun r => holding R r.2 r.1 (its ++ [it]) /\ items_kept (t_pool g) (t_pool r.2) R /\
      bulk_busy r.2 = bulk_busy g /\ ignore_tag_items r.2 = ignore_tag_items g /\
      tag_time r.1 = tag_time t /\ tag_has_playlist r.1 = tag_has_playlist t /\
      (is_bulk (tag_items t) = false -> is_bulk (tag_items r.1) = false /\ bulk_items r.2 = bulk_items g)).
Proof.
  intros Ho Hbl Hb Hp Hit Hk. cbv zeta. pose proof (owns_store _ _ _ _ Ho) as Hs.
  rewrite (owns_num _ _ _ _ Ho).
  assert (Hk' : items_kept (t_pool g) p R) by (intros x Hx; apply Hk; multiset_solver).
  assert (Hown : forall i g', t_pool g' = p ->
    match i with Null => False | BulkItems => bulk_busy g' = true /\ (length ls < 63)%nat /\
      take (length ls + 1) (bulk_items g') = map Some (ls ++ [l]) | Heap a => a = map Some (ls ++ [l]) end ->
    length (bulk_items g') = 64%nat ->
    holding R g' (set_items i (Z.of_nat (length ls) + 1) t) (its ++ [it])).
  { intros i g' Hg Hst Hbl'. exists (ls ++ [l]). split; [split; [|done]; rewrite Hg, refs_snoc; done|].
    split; cbn [set_items tag_num_items tag_items]; rewrite ?length_app; cbn [length]; [lia|lia| |].
    - apply Forall2_app; [|constructor; [|constructor]; unfold item_is; by rewrite Hg].
      eapply (items_mono g g'); [rewrite Hg; exact Hk|multiset_solver|exact (owns_items _ _ _ _ Ho)].
    - destruct i; [done| |done]. destruct Hst as (? & ? & ?). repeat split; [done|lia|done]. }
  destruct (is_bulk (tag_items t) && (length ls <? 63)%nat) eqn:E.
  - apply andb_prop in E as [Eb Elt]. apply Nat.ltb_lt in Elt. destruct (tag_items t) as [| |] eqn:Et; try done.
    destruct Hs as (Hbusy & _ & Hs). rewrite aset_ok by lia. cbn [mbind res_bind]. apply wp_ok. cbn [fst snd].
    split; [|done]. apply Hown; [done| |by cbn; rewrite length_insert]. split; [done|]. split; [done|].
    cbn [bulk_items set_bulk]. rewrite Nat.add_1_r. rewrite (take_S_r _ _ (Some l)) by (apply list_lookup_insert_eq; lia).
    rewrite take_insert_ge by lia. by rewrite Hs, map_app.
  - cbn [set_item]. pose proof (aset_next ls (S (length ls)) l ltac:(lia)) as Ha.
    replace (S (length ls) - length ls)%nat with 1%nat in Ha by lia.
    rewrite length_app in Ha. replace (S (length ls) - (length ls + length [l]))%nat with 0%nat in Ha by (simpl; lia).
    cbn [replicate] in Ha. rewrite app_nil_r in Ha. rewrite Ha. cbn [mbind res_bind]. apply wp_ok. cbn [fst snd].
    split; [by apply Hown|]. done.
Qed.

Lemma tag_new_holding g R : world g R -> holding R g tag_new [].
Proof.
  intros Hw. exists []. split.
  - replace (refs_of [] ⊎ R) with R by multiset_solver. exact Hw.
  - split; cbn; (done || lia || constructor).
Qed.

Section add.
Context {C : Charset} {HC : CharsetSpec C}.

(** Whether an item is stored at all. *)
Definition ignored (g : tags) (type : tag_type) : bool :=
  default false (ignore_tag_items g !! Z.to_nat (tag_type_code type)).

Lemma tag_add_item_n_ok g R t its type value len :
  holding R g t its -> (len <= length value)%nat -> convertible (take len value) ->
  Z.of_nat (length its) + 1 < 2 ^ 31 ->
  wp (tag_add_item_n t type (Some value) len g) (fun r =>
    holding R r.2 r.1 (its ++ added (ignored g type) type (take len value)) /\ items_kept (t_pool g) (t_pool r.2) R /\
    bulk_busy r.2 = bulk_busy g /\ ignore_tag_items r.2 = ignore_tag_items g /\
    tag_time r.1 = tag_time t /\ tag_has_playlist r.1 = tag_has_playlist t /\
    (is_bulk (tag_items t) = false -> is_bulk (tag_items r.1) = false /\ bulk_items r.2 = bulk_items g)).
Proof using HC.
  intros Hh Hlen Hc Hb. unfold tag_add_item_n, added. fold (ignored g type).
  assert (Hl : length (take len value) = len) by (rewrite length_take; lia). rewrite Hl.
  destruct (ignored g type); cbn [orb]; [by rewrite app_nil_r|].
  destruct (len =? 0)%nat; [by rewrite app_nil_r|]. destruct Hh as (ls & [Hp Hbl] & Ho).
  pose proof (items_len _ _ _ _ Ho) as Hil. rewrite Hil in Hb. unfold tag_add_item_internal.
  pose proof (fix_tag_value_ok value len Hlen Hc) as Hfix.
  destruct (fix_tag_value value len) as [p|]; [|done]. cbn [mbind res_bind] in *. rewrite Hfix. cbn [mbind res_bind].
  rewrite (owns_num _ _ _ _ Ho), u32_small by lia. rewrite (grow_ok _ _ _ _ Ho Hbl Hb). cbn [mbind res_bind].
  eapply wp_bind_mono; [apply tag_pool_get_item_gives; [exact Hp|apply printable_no_nul]|].
  intros [l p'] (Hp' & Hit & Hk). cbn [fst snd] in *.
  pose proof (store_new g p' t its ls R l _ Ho Hbl Hb Hp' Hit Hk) as H. cbv zeta in H.
  rewrite (owns_num _ _ _ _ Ho) in H.
  destruct (if is_bulk (tag_items t) && _ then _ else _); exact H.
Qed.

End add.
