(* ===== verification/TagTheorems.v ===== *)
(** * Theorems on tags

    The pool of values, the life of a tag from its first item to
    [tag_free()], the operations on whole tags, and the configuration. *)

From S2P Require Import Prelude CString Tokenizer TagPool TagValue Tag.
Local Open Scope Z_scope.

(** ** A character set

    The bytes below 128 are valid, and the others are dropped. *)
Definition seven_bit (c : ascii) : bool := (char_code c <? 128) && negb (is_nul c).

#[export] Instance ascii_charset : Charset := {|
  g_utf8_validate s := fst <$> list_find (fun c => seven_bit c = false) s;
  g_convert s := Some (filter (fun c => seven_bit c = true) s);
|}.

#[export] Instance ascii_charset_spec : CharsetSpec ascii_charset.
Proof.
  split; cbn [g_utf8_validate ascii_charset].
  - intros s k. destruct (list_find _ s) as [[i c]|] eqn:E; [|done]. intros [= <-].
    apply list_find_Some in E as (Hi & _). by eapply lookup_lt_Some.
  - intros s. destruct (list_find _ s) as [p|] eqn:E; [done|]. intros _. apply list_find_None in E.
    apply forallb_forall. intros c Hc. apply list_elem_of_In in Hc. rewrite Forall_forall in E. specialize (E c Hc).
    unfold seven_bit in E. destruct (is_nul c); [|done]. by rewrite andb_false_r in E.
Qed.

(** ** Building a tag *)

Section build.
Context {C : Charset} {HC : CharsetSpec C}.

(** The values as strings in memory, added one after the other. *)
Fixpoint add_items (vs : list item) (t : tag) (g : tags) : res (tag * tags) :=
  match vs with
  | [] => Ok (t, g)
  | v :: vs => r ← tag_add_item t v.1 (v.2 ++ [nul]) g; add_items vs r.1 r.2
  end.

Definition build_tag (vs : list item) (g : tags) : res (tag * tags) :=
  r ← tag_begin_add tag_new g;
  r ← add_items vs r.1 r.2;
  tag_end_add r.1 r.2.

Definition stored (g : tags) (vs : list item) : list item :=
  concat (map (fun v => added (ignored g v.1) v.1 v.2) vs).

Definition good_value (v : item) : Prop := no_nul v.2 /\ convertible v.2.

Lemma added_length ignored_ type v : (length (added ignored_ type v) <= 1)%nat.
Proof using. clear HC. unfold added. destruct (_ || _); simpl; lia. Qed.

Lemma add_items_ok R vs g t its :
  holding R g t its -> Forall good_value vs -> Z.of_nat (length its + length vs) < 2 ^ 31 ->
  wp (add_items vs t g) (fun r => holding R r.2 r.1 (its ++ stored g vs) /\ items_kept (t_pool g) (t_pool r.2) R /\
    bulk_busy r.2 = bulk_busy g /\ ignore_tag_items r.2 = ignore_tag_items g).
Proof using HC.
  intros Hh Hg. revert g t its Hh. induction Hg as [|v vs [Hn Hc] _ IH]; intros g t its Hh Hlen; cbn [add_items].
  - apply wp_ok. cbn [fst snd]. unfold stored. cbn [map concat]. by rewrite app_nil_r.
  - unfold tag_add_item. rewrite (string_in_app v.2 [] Hn). cbn [mbind res_bind]. cbn [length] in Hlen.
    assert (Htake : take (length v.2) (v.2 ++ [nul]) = v.2) by apply take_app_length.
    eapply wp_bind_mono.
    { apply (tag_add_item_n_ok g R t its v.1 (v.2 ++ [nul]) (length v.2)); [done| | |lia].
      - rewrite length_app. lia.
      - by rewrite Htake. }
    intros [t1 g1] (Hh1 & Hk1 & Hb1 & Hi1 & _). cbn [fst snd] in *. rewrite Htake in Hh1.
    pose proof (added_length (ignored g v.1) v.1 v.2) as Hle.
    eapply wp_mono; [apply (IH g1 t1 _ Hh1); rewrite length_app; lia|]. intros [t2 g2] (Hh2 & Hk2 & Hb2 & Hi2). cbn [fst snd] in *.
    rewrite <- app_assoc in Hh2. unfold stored in Hh2 |- *. cbn [map concat].
    assert (Es : map (fun v => added (ignored g1 v.1) v.1 v.2) vs = map (fun v => added (ignored g v.1) v.1 v.2) vs).
    { apply map_ext. intros w. unfold ignored. by rewrite Hi1. }
    rewrite Es in Hh2. split; [exact Hh2|]. split; [|by rewrite Hb2, Hi2].
    intros l Hl. by rewrite Hk2, Hk1.
Qed.

Lemma build_tag_holds R vs g :
  world g R -> bulk_busy g = false -> Forall good_value vs -> Z.of_nat (length vs) < 2 ^ 31 ->
  wp (build_tag vs g) (fun r => holding R r.2 r.1 (stored g vs) /\ items_kept (t_pool g) (t_pool r.2) R /\
    is_bulk (tag_items r.1) = false /\ bulk_busy r.2 = false).
Proof using HC.
  intros Hw Hb Hg Hlen. unfold build_tag.
  eapply wp_bind_mono; [apply tag_begin_add_ok; [by apply tag_new_holding|done|done]|].
  intros [t1 g1] (Hh1 & Hbulk & Eg & _). cbn [fst snd] in *. subst g1.
  eapply wp_bind_mono; [apply (add_items_ok R vs _ t1 []); [done|done|simpl; lia]|].
  intros [t2 g2] (Hh2 & Hk2 & Hb2 & Hi2). cbn [fst snd app] in *.
  eapply wp_mono; [apply tag_end_add_ok; exact Hh2|]. intros [t3 g3] (Hh3 & Hnb & E3 & _). cbn [fst snd] in *. subst g3.
  split; [exact Hh3|]. split; [exact Hk2|]. split; [done|]. done.
Qed.

End build.

(** An empty pool, and everything but comments is stored. *)
Definition tags0 : tags := Tags pool_init false (replicate 64 None) (<[12%nat := true]> (replicate 18 false)).

Lemma tags0_world : world tags0 ∅.
Proof. split; [apply pool_init_ok|done]. Qed.

Definition sample_values : list item :=
  [(TAG_ARTIST, lit "Can"); (TAG_COMMENT, lit "ripped"); (TAG_TITLE, lit "Moonshake"); (TAG_ARTIST, lit "Can")].

Lemma sample_good : Forall good_value sample_values.
Proof. repeat constructor; vm_compute; auto. Qed.

Lemma sample_tag :
  exists t g, holding ∅ g t [(TAG_ARTIST, lit "Can"); (TAG_TITLE, lit "Moonshake"); (TAG_ARTIST, lit "Can")] /\
    is_bulk (tag_items t) = false.
Proof.
  pose proof (build_tag_holds ∅ sample_values tags0 tags0_world eq_refl sample_good eq_refl) as H.
  apply wp_inv in H as ([t g] & _ & Hh & _ & Hb & _). by exists t, g.
Qed.

(** ** Claims *)

(** The hash table with counted references implements a multiset of
    references to values: a new reference to a value, whether the value was in
    the pool or is copied into it, also when the counter of its slot is full,
    leaves all other references as they are; giving back a reference frees
    the slot exactly if it was the last one. *)
Theorem tag_pool_refines p refs :
  pool_ok p refs ->
  (forall t v, no_nul v -> wp (tag_pool_get_item t v p) (gives p refs t v)) /\
  (forall l t v, l ∈ refs -> item_at p l = Some (t, v) -> wp (tag_pool_dup_item l p) (gives p refs t v)) /\
  (forall l, l ∈ refs -> wp (tag_pool_put_item l p) (fun p' =>
    pool_ok p' (refs ∖ {[+ l +]}) /\ items_kept p p' (refs ∖ {[+ l +]}) /\
    (item_at p' l = None <-> multiplicity l refs = 1%nat))).
Proof.
  intros Hp. split; [|split].
  - intros t v. by apply tag_pool_get_item_gives.
  - intros l t v. by apply tag_pool_dup_item_gives.
  - intros l. by apply tag_pool_put_item_keeps.
Qed.

Lemma tag_pool_refines_witness :
  pool_ok pool_init ∅ /\ no_nul (lit "Can") /\ wp (tag_pool_get_item TAG_ARTIST (lit "Can") pool_init) (gives pool_init ∅ TAG_ARTIST (lit "Can")).
Proof.
  split; [apply pool_init_ok|]. split; [vm_compute; reflexivity|].
  apply (proj1 (tag_pool_refines pool_init ∅ pool_init_ok)). vm_compute. reflexivity.
Defined.

(** A value is stored as valid UTF-8 (or what it is converted to) with
    blanks for control characters, and the result is a string without a null
    byte that ends within its array; nothing outside the arrays is read or
    written. *)
Theorem fix_tag_value_correct {C : Charset} {HC : CharsetSpec C} value len :
  (len <= length value)%nat -> convertible (take len value) ->
  (p ← fix_tag_value value len; match p with Some p => string_in p | None => bytes_at value len end) =
    Ok (fixed (take len value)) /\
  no_nul (fixed (take len value)) /\ Forall (fun c => 0x20 <= char_code c) (fixed (take len value)).
Proof.
  intros Hl Hc. split; [by apply fix_tag_value_ok|]. split; [apply printable_no_nul|].
  apply Forall_map, Forall_forall. intros c _. apply printable_ok.
Qed.

Lemma fix_tag_value_correct_witness :
  let v := lit "Can" ++ [char_of 9; char_of 200] ++ lit "!" in
  (6 <= length v)%nat /\ convertible (take 6 v) /\
  (p ← fix_tag_value v 6; match p with Some p => string_in p | None => bytes_at v 6 end) = Ok (lit "Can !").
Proof.
  cbv zeta. set (v := lit "Can" ++ _). assert (Hl : (6 <= length v)%nat) by (vm_compute; lia).
  assert (Hc : convertible (take 6 v)) by (right; vm_compute; eauto).
  split; [exact Hl|]. split; [exact Hc|]. destruct (fix_tag_value_correct v 6 Hl Hc) as [-> _]. vm_compute. reflexivity.
Defined.

(** C22: a tag that is built from a list of values holds exactly those that
    are not ignored and not empty, in order and fixed, also when there are more
    than fit into the shared array; it can be read, the shared array is
    released, other tags keep their items, and freeing the tag gives back
    exactly its references. *)
Theorem tag_life_cycle {C : Charset} {HC : CharsetSpec C} R vs g :
  world g R -> bulk_busy g = false -> Forall good_value vs -> Z.of_nat (length vs) < 2 ^ 31 ->
  wp (build_tag vs g) (fun r =>
    holding R r.2 r.1 (stored g vs) /\ items_kept (t_pool g) (t_pool r.2) R /\ bulk_busy r.2 = false /\
    (forall type, tag_get_value r.1 type r.2 = Ok (value_of type (stored g vs))) /\
    wp (tag_free r.1 r.2) (fun g' => world g' R /\ items_kept (t_pool g) (t_pool g') R /\ bulk_busy g' = false)).
Proof.
  intros Hw Hb Hg Hlen. eapply wp_mono; [by apply build_tag_holds|]. intros [t1 g1] (Hh & Hk & Hnb & Hb1). cbn [fst snd] in *.
  split; [done|]. split; [done|]. split; [done|]. split.
  - intros type. destruct Hh as (ls & Hw1 & Ho). by eapply tag_get_value_ok.
  - eapply wp_mono; [by eapply tag_free_ok|]. intros g2 (Hw2 & Hk2 & Hb2 & _). split; [done|]. split.
    + intros l Hl. by rewrite Hk2, Hk.
    + rewrite Hb2, Hnb. exact Hb1.
Qed.

Lemma tag_life_cycle_witness :
  world tags0 ∅ /\ Forall good_value sample_values /\
  exists r, build_tag sample_values tags0 = Ok r /\ tag_get_value r.1 TAG_TITLE r.2 = Ok (Some (lit "Moonshake")) /\
    tag_get_value r.1 TAG_COMMENT r.2 = Ok None.
Proof.
  split; [exact tags0_world|]. split; [exact sample_good|].
  pose proof (tag_life_cycle ∅ sample_values tags0 tags0_world eq_refl sample_good eq_refl) as H.
  apply wp_inv in H as (r & E & _ & _ & _ & Hv & _). exists r. split; [exact E|]. rewrite !Hv. split; vm_compute; reflexivity.
Defined.

(** C25: the operations on a tag implement those on its list of items: a
    copy has the same items with references of its own, removing a type
    removes all its items and no others, and merging takes over the items of
    the second tag and those of the first whose type the second does not
    have, while both tags are given up; other references are left alone.
    Merging forgets [has_playlist]. *)
Theorem tag_operations_refine g R t its :
  holding R g t its -> is_bulk (tag_items t) = false ->
  wp (tag_dup t g) (fun r => exists ls, owns g t its ls /\ holding (refs_of ls ⊎ R) r.2 r.1 its /\
    others_kept g r.2 (refs_of ls ⊎ R) /\ tag_time r.1 = tag_time t) /\
  (forall type, wp (tag_clear_items_by_type t type g) (becomes R g t (without type its))) /\
  (forall ta add la, R = refs_of la -> owns g ta add la -> is_bulk (tag_items ta) = false ->
    Z.of_nat (length (merged its add)) < 2 ^ 31 ->
    wp (tag_merge_replace (Some t) (Some ta) g) (fun r => exists t', r.1 = Some t' /\
      holding ∅ r.2 t' (merged its add) /\
      tag_time t' = (if 0 <? tag_time ta then tag_time ta else tag_time t) /\ tag_has_playlist t' = false)).
Proof.
  intros Hh Hnb. split; [|split].
  - eapply wp_mono; [by apply tag_dup_ok|]. intros [t' g'] (ls & Ho & Hh' & Hk & Ht & _). by exists ls.
  - intros type. by apply tag_clear_items_by_type_ok.
  - intros ta add la -> Ha Hna Hlen. destruct Hh as (ls & Hw & Ho).
    eapply wp_mono; [eapply (tag_merge_replace_ok g ∅ t ta its add ls la); try done|].
    { by replace (refs_of ls ⊎ refs_of la ⊎ ∅) with (refs_of ls ⊎ refs_of la) by multiset_solver. }
    intros r (t' & -> & Hh' & _ & Ht & Hp). by exists t'.
Qed.

Lemma tag_operations_refine_witness :
  exists g t, holding ∅ g t [(TAG_ARTIST, lit "Can"); (TAG_TITLE, lit "Moonshake"); (TAG_ARTIST, lit "Can")] /\
    is_bulk (tag_items t) = false /\ wp (tag_clear_items_by_type t TAG_ARTIST g) (becomes ∅ g t [(TAG_TITLE, lit "Moonshake")]).
Proof.
  destruct sample_tag as (t & g & Hh & Hb). exists g, t. split; [exact Hh|]. split; [exact Hb|].
  exact (proj1 (proj2 (tag_operations_refine g ∅ t _ Hh Hb)) TAG_ARTIST).
Defined.

(** The setting [metadata_to_use] enables exactly the tag types whose
    names it lists, with any case and any blanks around them. *)
Theorem tag_lib_init_correct es ts :
  Forall2 element es ts -> es <> [] ->
  exists ignore, tag_lib_init (Some (join_commas es)) = Ok (Ready ignore) /\
    forall t, ignore !! Z.to_nat (tag_type_code t) = Some (bool_decide (t ∉ ts)).
Proof.
  intros Hf Hne. exists (enable (replicate 18 true) ts). split; [by apply tag_lib_init_ok|]. intros t.
  rewrite enable_lookup by done. destruct (decide (t ∈ ts)) as [Hin|Hin].
  - by rewrite bool_decide_false by auto.
  - rewrite bool_decide_true by done. apply lookup_replicate_2. by destruct t; vm_compute; lia.
Qed.

Lemma tag_lib_init_correct_witness :
  exists ignore, tag_lib_init (Some (lit "artist, TITLE")) = Ok (Ready ignore) /\
    ignore !! 0%nat = Some false /\ ignore !! 2%nat = Some true.
Proof.
  assert (Hf : Forall2 element [lit "artist"; lit " TITLE"] [TAG_ARTIST; TAG_TITLE]).
  { repeat constructor; try (vm_compute; reflexivity); by apply (bool_decide_unpack _); vm_compute. }
  destruct (tag_lib_init_correct _ _ Hf ltac:(done)) as (ignore & E & H). exists ignore. split; [exact E|].
  split; [exact (H TAG_ARTIST)|exact (H TAG_ALBUM)].
Defined.
