(* ===== verification/LinkedList.v ===== *)
(** * Doubly linked lists

    [src/util/list.h] and [src/util/list_sort.c]: circular lists of nodes
    that are embedded in other objects, and a merge sort that relinks them.
    Nodes are addresses in a memory. *)

From stdpp Require Export gmap list.
From S2P Require Import Prelude.

Local Open Scope Z_scope.

(** ** Memory *)

Definition addr : Type := positive.

(** [struct list_head]. *)
Record list_head := ListHead { next : option addr; prev : option addr }.

Abbreviation heap := (gmap addr list_head).

Definition hget (m : heap) (a : addr) : res list_head :=
  match m !! a with Some n => Ok n | None => Err OutOfBounds end.
Definition set_next (a : addr) (x : option addr) (m : heap) : res heap :=
  n ← hget m a; Ok (<[a := ListHead x (prev n)]> m).
Definition set_prev (a : addr) (x : option addr) (m : heap) : res heap :=
  n ← hget m a; Ok (<[a := ListHead (next n) x]> m).

(** A pointer that is followed. *)
Definition deref (p : option addr) : res addr :=
  match p with Some a => Ok a | None => Err OutOfBounds end.

(** ** Lists *)

Definition INIT_LIST_HEAD (list : addr) (m : heap) : res heap :=
  m ← set_next list (Some list) m; set_prev list (Some list) m.

Definition __list_add (n prev_ next_ : addr) (m : heap) : res heap :=
  m ← set_prev next_ (Some n) m;
  m ← set_next n (Some next_) m;
  m ← set_prev n (Some prev_) m;
  set_next prev_ (Some n) m.

Definition list_add (n head : addr) (m : heap) : res heap :=
  h ← hget m head; nx ← deref (next h); __list_add n head nx m.
Definition list_add_tail (n head : addr) (m : heap) : res heap :=
  h ← hget m head; pv ← deref (prev h); __list_add n pv head m.

Definition __list_del (prev_ next_ : addr) (m : heap) : res heap :=
  m ← set_prev next_ (Some prev_) m; set_next prev_ (Some next_) m.

Definition __list_del_entry (entry : addr) (m : heap) : res heap :=
  e ← hget m entry; pv ← deref (prev e); nx ← deref (next e); __list_del pv nx m.

(** The poison is an address that nobody may follow. *)
Definition list_del (entry : addr) (m : heap) : res heap :=
  m ← __list_del_entry entry m;
  m ← set_next entry None m;
  set_prev entry None m.

Definition list_empty (head : addr) (m : heap) : res bool :=
  h ← hget m head; Ok (bool_decide (next h = Some head)).

Definition list_move_tail (list head : addr) (m : heap) : res heap :=
  m ← __list_del_entry list m; list_add_tail list head m.

Definition list_rotate_left (head : addr) (m : heap) : res heap :=
  empty ← list_empty head m;
  if (empty : bool) then Ok m else h ← hget m head; first ← deref (next h); list_move_tail first head m.

(** ** Sorting *)

(** [cmp] reads the objects around the nodes; it does not change the
    memory. *)
Section list_sort.
Variable cmp : addr -> addr -> Z.

Definition MAX_LIST_LENGTH_BITS : nat := 20.

(** [tail->next = x], where [None] is the [head] on the stack of
    [merge()]. *)
Definition set_tail (tail : option addr) (x : option addr) (st : heap * option addr) : res (heap * option addr) :=
  match tail with
  | None => Ok (st.1, x)
  | Some t => m ← set_next t x st.1; Ok (m, st.2)
  end.

(** The loop of [merge()]: the memory and [head.next]. *)
Fixpoint merge_loop (fuel : nat) (tail a b : option addr) (st : heap * option addr) : res (heap * option addr) :=
  match a, b with
  | Some x, Some y =>
      match fuel with
      | O => Err OutOfFuel
      | S fuel =>
          if cmp x y <=? 0 then
            st ← set_tail tail a st;
            n ← hget st.1 x;
            merge_loop fuel (Some x) (next n) b st
          else
            st ← set_tail tail b st;
            n ← hget st.1 y;
            merge_loop fuel (Some y) a (next n) st
      end
  | Some _, None => set_tail tail a st
  | None, _ => set_tail tail b st
  end.

Definition merge (a b : option addr) (m : heap) : res (heap * option addr) :=
  merge_loop (S (size m)) None a b (m, None).

(** The first loop of [merge_and_restore_back_links()]: the memory, [tail],
    and what is left. *)
Fixpoint restore_loop (fuel : nat) (tail : addr) (a b : option addr) (m : heap) : res (heap * addr * option addr) :=
  match a, b with
  | Some x, Some y =>
      match fuel with
      | O => Err OutOfFuel
      | S fuel =>
          if cmp x y <=? 0 then
            m ← set_next tail a m;
            m ← set_prev x (Some tail) m;
            n ← hget m x;
            restore_loop fuel x (next n) b m
          else
            m ← set_next tail b m;
            m ← set_prev y (Some tail) m;
            n ← hget m y;
            restore_loop fuel y a (next n) m
      end
  | Some _, None => Ok (m, tail, a)
  | None, _ => Ok (m, tail, b)
  end.

(** The second loop: [do ... while (tail->next)]. *)
Fixpoint back_loop (fuel : nat) (tail : addr) (m : heap) : res (heap * addr) :=
  match fuel with
  | O => Err OutOfFuel
  | S fuel =>
      t ← hget m tail;
      x ← deref (next t);
      m ← set_prev x (Some tail) m;
      n ← hget m x;
      match next n with
      | None => Ok (m, x)
      | Some _ => back_loop fuel x m
      end
  end.

Definition merge_and_restore_back_links (head : addr) (a b : option addr) (m : heap) : res heap :=
  r ← restore_loop (S (size m)) head a b m;
  let '(m, tail, rest) := r in
  m ← set_next tail rest m;
  r ← back_loop (S (size m)) tail m;
  let '(m, tail) := r in
  m ← set_next tail (Some head) m;
  set_prev head (Some tail) m.

(** [part[lev]]. *)
Definition get_part (part : list (option addr)) (lev : nat) : res (option addr) :=
  match part !! lev with Some p => Ok p | None => Err OutOfBounds end.

(** [for (lev = 0; part[lev]; lev++)]. *)
Fixpoint carry_loop (fuel : nat) (lev : nat) (cur : option addr) (part : list (option addr)) (m : heap)
  : res (nat * option addr * list (option addr) * heap) :=
  p ← get_part part lev;
  match p with
  | None => Ok (lev, cur, part, m)
  | Some _ =>
      match fuel with
      | O => Err OutOfFuel
      | S fuel =>
          r ← merge p cur m;
          carry_loop fuel (S lev) r.2 (<[lev := None]> part) r.1
      end
  end.

(** The loop that takes the elements of the list one by one. *)
Fixpoint insert_loop (fuel : nat) (list_ : option addr) (part : list (option addr)) (max_lev : nat) (m : heap)
  : res (list (option addr) * nat * heap) :=
  match list_ with
  | None => Ok (part, max_lev, m)
  | Some cur =>
      match fuel with
      | O => Err OutOfFuel
      | S fuel =>
          n ← hget m cur;
          let list_ := next n in
          m ← set_next cur None m;
          r ← carry_loop (S (length part)) 0 (Some cur) part m;
          let '(lev, cur, part, m) := r in
          let max_lev := if (max_lev <? lev)%nat then lev else max_lev in
          insert_loop fuel list_ (<[lev := cur]> part) max_lev m
      end
  end.

(** The loop that merges the parts. *)
Definition collect_parts (part : list (option addr)) (max_lev : nat) (m : heap) : res (option addr * heap) :=
  for_range 0 (Z.of_nat max_lev) (fun lev '(list, m) =>
    p ← get_part part (Z.to_nat lev);
    match p with
    | Some _ => r ← merge p list m; Ok (r.2, r.1)
    | None => Ok (list, m)
    end) (None, m).

Definition list_sort (head : addr) (m : heap) : res heap :=
  empty ← list_empty head m;
  if (empty : bool) then Ok m else
  let part := replicate (MAX_LIST_LENGTH_BITS + 1) None in
  h ← hget m head;
  last ← deref (prev h);
  m ← set_next last None m;
  h ← hget m head;
  r ← insert_loop (S (size m)) (next h) part 0 m;
  let '(part, max_lev, m) := r in
  r ← collect_parts part max_lev m;
  let '(list, m) := r in
  p ← get_part part max_lev;
  merge_and_restore_back_links head p list m.

End list_sort.

(** * Doubly linked lists: proofs

    The operations on circular lists, and the merge sort, against lists of
    addresses.  The sort is proved in two steps: the pointer program does what
    a merge sort on lists does, and that one sorts. *)

(** ** Pointers *)

Definition nx (m : heap) (a : addr) : option addr := m !! a ≫= next.
Definition pv (m : heap) (a : addr) : option addr := m !! a ≫= prev.

Lemma nx_some m a b : nx m a = Some b -> is_Some (m !! a).
Proof. unfold nx. by destruct (m !! a). Qed.
Lemma pv_some m a b : pv m a = Some b -> is_Some (m !! a).
Proof. unfold pv. by destruct (m !! a). Qed.

(** The effect of one assignment. *)
Record wrote_next (a : addr) (x : option addr) (m m' : heap) : Prop := {
  wn_eq : nx m' a = x;
  wn_ne b : b <> a -> nx m' b = nx m b;
  wn_pv b : pv m' b = pv m b;
  wn_dom b : is_Some (m' !! b) <-> is_Some (m !! b);
  wn_size : size m' = size m;
}.

Record wrote_prev (a : addr) (x : option addr) (m m' : heap) : Prop := {
  wp_eq : pv m' a = x;
  wp_ne b : b <> a -> pv m' b = pv m b;
  wp_nx b : nx m' b = nx m b;
  wp_dom b : is_Some (m' !! b) <-> is_Some (m !! b);
  wp_size : size m' = size m;
}.

Lemma set_next_ok a x m : is_Some (m !! a) -> wp (set_next a x m) (wrote_next a x m).
Proof.
  intros [n Hn]. unfold set_next, hget. rewrite Hn. cbn [mbind res_bind]. apply wp_ok. split; unfold nx, pv.
  - by rewrite lookup_insert_eq.
  - intros b Hb. by rewrite lookup_insert_ne.
  - intros b. destruct (decide (b = a)) as [->|]; [by rewrite lookup_insert_eq, Hn|by rewrite lookup_insert_ne].
  - intros b. rewrite lookup_insert_is_Some'. naive_solver.
  - by rewrite map_size_insert_Some.
Qed.

Lemma set_prev_ok a x m : is_Some (m !! a) -> wp (set_prev a x m) (wrote_prev a x m).
Proof.
  intros [n Hn]. unfold set_prev, hget. rewrite Hn. cbn [mbind res_bind]. apply wp_ok. split; unfold nx, pv.
  - by rewrite lookup_insert_eq.
  - intros b Hb. by rewrite lookup_insert_ne.
  - intros b. destruct (decide (b = a)) as [->|]; [by rewrite lookup_insert_eq, Hn|by rewrite lookup_insert_ne].
  - intros b. rewrite lookup_insert_is_Some'. naive_solver.
  - by rewrite map_size_insert_Some.
Qed.

Lemma hget_nx m a (Q : list_head -> Prop) :
  is_Some (m !! a) -> (forall n, next n = nx m a -> prev n = pv m a -> Q n) -> wp (hget m a) Q.
Proof. intros [n Hn] H. unfold hget. rewrite Hn. apply wp_ok, H; unfold nx, pv; by rewrite Hn. Qed.

(** ** Circular lists *)

Definition link (m : heap) (a b : addr) : Prop := nx m a = Some b /\ pv m b = Some a.

Fixpoint path (m : heap) (l : list addr) : Prop :=
  match l with
  | a :: (b :: _) as t => link m a b /\ path m t
  | _ => True
  end.

(** [xs] are the elements of the list at [h]. *)
Definition dll (m : heap) (h : addr) (xs : list addr) : Prop :=
  NoDup (h :: xs) /\ path m (h :: xs ++ [h]).

Lemma path_app m l1 a l2 : path m (l1 ++ a :: l2) <-> path m (l1 ++ [a]) /\ path m (a :: l2).
Proof.
  induction l1 as [|b [|c l1] IH]; simpl in *; [tauto|destruct l2; simpl; tauto|]. rewrite IH. tauto.
Qed.

(** Two nodes of one memory that nobody wrote. *)
Lemma path_ext m m' l :
  (forall a, a ∈ removelast l -> nx m' a = nx m a) -> (forall b, b ∈ tail l -> pv m' b = pv m b) ->
  path m l -> path m' l.
Proof.
  induction l as [|a [|b l] IH]; intros Hn Hp; [done|done|]. intros [[Hab Hba] H]. split.
  - split; [rewrite Hn; [done|by left]|rewrite Hp; [done|by left]].
  - apply IH; [|intros x Hx; apply Hp; by right|done]. intros x Hx. apply Hn. by right.
Qed.

Lemma dll_dom m h xs a : dll m h xs -> a ∈ h :: xs -> is_Some (m !! a).
Proof.
  intros [_ Hp]. revert Hp. generalize h at 1 3 as h0. induction xs as [|x xs IH]; intros h0.
  - intros [[Hn _] _] ->%list_elem_of_singleton. by eapply nx_some.
  - intros [[Hn _] Hp] [->|Ha]%elem_of_cons; [by eapply nx_some|]. by apply (IH x).
Qed.

Lemma init_list_head_ok h m :
  is_Some (m !! h) ->
  wp (INIT_LIST_HEAD h m) (fun m' => dll m' h [] /\ forall b, b <> h -> nx m' b = nx m b /\ pv m' b = pv m b).
Proof.
  intros Hh. unfold INIT_LIST_HEAD. eapply wp_bind_mono; [by apply set_next_ok|]. intros m1 H1.
  eapply wp_mono; [apply set_prev_ok; by apply (wn_dom _ _ _ _ H1)|]. intros m2 H2. split.
  - split; [apply NoDup_singleton|]. split; [|done]. split.
    + by rewrite (wp_nx _ _ _ _ H2), (wn_eq _ _ _ _ H1).
    + by rewrite (wp_eq _ _ _ _ H2).
  - intros b Hb. rewrite (wp_nx _ _ _ _ H2), (wn_ne _ _ _ _ H1) by done.
    by rewrite (wp_ne _ _ _ _ H2), (wn_pv _ _ _ _ H1) by done.
Qed.

Lemma path_link m l1 a b l2 :
  path m (l1 ++ a :: b :: l2) <-> path m (l1 ++ [a]) /\ link m a b /\ path m (b :: l2).
Proof. rewrite path_app. simpl. tauto. Qed.

Lemma Permutation_middle_cons (h n : addr) xs1 xs2 : h :: xs1 ++ n :: xs2 ≡ₚ n :: h :: xs1 ++ xs2.
Proof. rewrite <- Permutation_middle. apply Permutation_swap. Qed.

(** A place in a list: the node before it and the node after it. *)
Lemma place (h : addr) xs1 xs2 :
  exists l1 a b l2, h :: xs1 = l1 ++ [a] /\ xs2 ++ [h] = b :: l2.
Proof.
  destruct (exists_last (l := h :: xs1)) as (l1 & a & H1); [done|].
  destruct xs2 as [|b xs2]; [by exists l1, a, h, []|]. by exists l1, a, b, (xs2 ++ [h]).
Qed.

(** The two halves of a list around a place do not share links. *)
Lemma place_disjoint (h : addr) xs1 xs2 l1 a b l2 :
  NoDup (h :: xs1 ++ xs2) -> h :: xs1 = l1 ++ [a] -> xs2 ++ [h] = b :: l2 ->
  a ∉ l1 /\ b ∉ l2 /\ b ∉ tail (h :: xs1) /\ a ∉ removelast (b :: l2) /\
  (forall x, x ∈ l1 -> x ∈ h :: xs1) /\ (forall x, x ∈ l2 -> x ∈ h :: xs2) /\ a ∈ h :: xs1 /\ b ∈ h :: xs2.
Proof.
  intros Hnd H1 H2. apply NoDup_cons in Hnd as [Hh Hnd]. apply NoDup_app in Hnd as (Hn1 & Hd & Hn2).
  assert (N1 : NoDup (l1 ++ [a])) by (rewrite <- H1; apply NoDup_cons; split; [set_solver|done]).
  assert (N2 : NoDup (b :: l2)).
  { rewrite <- H2. apply NoDup_app. split; [done|]. split; [set_solver|apply NoDup_singleton]. }
  assert (Hb : b ∈ xs2 ++ [h]) by (rewrite H2; by left).
  assert (Ha : a ∈ h :: xs1) by (rewrite H1; set_solver).
  assert (Hr : removelast (b :: l2) = xs2) by (rewrite <- H2; apply removelast_last).
  apply NoDup_app in N1 as (_ & N1 & _). apply NoDup_cons in N2 as [N2 _]. rewrite Hr. cbn [tail].
  split; [intros Hx; apply (N1 a Hx); by left|]. split; [done|]. split; [set_solver|]. split; [set_solver|].
  split; [intros x Hx; rewrite H1; set_solver|]. split; [|set_solver].
  intros x Hx. assert (x ∈ xs2 ++ [h]) by (rewrite H2; by right). set_solver.
Qed.

(** Nodes outside the list keep their links. *)
Definition same_outside (S : list addr) (m m' : heap) : Prop :=
  forall b, b ∉ S -> nx m' b = nx m b /\ pv m' b = pv m b.

Lemma list_add_at h xs1 xs2 l1 a b l2 n m :
  dll m h (xs1 ++ xs2) -> h :: xs1 = l1 ++ [a] -> xs2 ++ [h] = b :: l2 -> n ∉ h :: xs1 ++ xs2 -> is_Some (m !! n) ->
  wp (__list_add n a b m) (fun m' => dll m' h (xs1 ++ n :: xs2) /\ same_outside (n :: h :: xs1 ++ xs2) m m').
Proof.
  intros Hd H1 H2 Hn Hs. pose proof Hd as [Hnd Hp].
  destruct (place_disjoint _ _ _ _ _ _ _ Hnd H1 H2) as (Ha & Hb & Hbt & Har & Hin1 & Hin2 & Hai & Hbi).
  assert (E : h :: (xs1 ++ xs2) ++ [h] = l1 ++ a :: b :: l2).
  { rewrite <- app_assoc, H2, app_comm_cons, H1, <- app_assoc. done. }
  rewrite E, path_link in Hp. destruct Hp as (Hp1 & Hl & Hp2).
  unfold __list_add. eapply wp_bind_mono; [apply set_prev_ok, (dll_dom _ _ _ _ Hd); set_solver|]. intros m1 W1.
  eapply wp_bind_mono; [apply set_next_ok; by apply (wp_dom _ _ _ _ W1)|]. intros m2 W2.
  eapply wp_bind_mono; [apply set_prev_ok; apply (wn_dom _ _ _ _ W2); by apply (wp_dom _ _ _ _ W1)|]. intros m3 W3.
  eapply wp_mono; [apply set_next_ok; apply (wp_dom _ _ _ _ W3), (wn_dom _ _ _ _ W2), (wp_dom _ _ _ _ W1), (dll_dom _ _ _ _ Hd); set_solver|].
  intros m4 W4.
  assert (Nx : forall x, x <> a -> x <> n -> nx m4 x = nx m x).
  { intros x ??. rewrite (wn_ne _ _ _ _ W4), (wp_nx _ _ _ _ W3), (wn_ne _ _ _ _ W2), (wp_nx _ _ _ _ W1); done. }
  assert (Pv : forall x, x <> b -> x <> n -> pv m4 x = pv m x).
  { intros x ??. rewrite (wn_pv _ _ _ _ W4), (wp_ne _ _ _ _ W3), (wn_pv _ _ _ _ W2), (wp_ne _ _ _ _ W1); done. }
  assert (Hna : n <> a) by set_solver. assert (Hnb : n <> b) by set_solver.
  split.
  - split; [rewrite Permutation_middle_cons; by apply NoDup_cons|].
    replace (h :: (xs1 ++ n :: xs2) ++ [h]) with (l1 ++ a :: n :: b :: l2).
    2:{ rewrite <- app_assoc. cbn [app]. rewrite H2, app_comm_cons, H1, <- app_assoc. done. }
    rewrite path_link. split; [|split].
    + eapply path_ext; [| |exact Hp1].
      * rewrite removelast_last. intros x Hx. apply Nx; set_solver.
      * rewrite <- H1. cbn [tail]. intros x Hx. apply Pv; set_solver.
    + split; [apply (wn_eq _ _ _ _ W4)|]. by rewrite (wn_pv _ _ _ _ W4), (wp_eq _ _ _ _ W3).
    + split.
      * split; [rewrite (wn_ne _ _ _ _ W4), (wp_nx _ _ _ _ W3) by done; apply (wn_eq _ _ _ _ W2)|].
        by rewrite (wn_pv _ _ _ _ W4), (wp_ne _ _ _ _ W3), (wn_pv _ _ _ _ W2), (wp_eq _ _ _ _ W1).
      * eapply path_ext; [| |exact Hp2].
        -- intros x Hx. apply Nx; [by intros ->|]. intros ->. apply Hn.
           assert (n ∈ xs2); [|set_solver]. by rewrite <- (removelast_last xs2 h), H2.
        -- cbn [tail]. intros x Hx. apply Pv; set_solver.
  - intros x Hx. split; [apply Nx|apply Pv]; set_solver.
Qed.

Lemma list_add_ok h xs n m :
  dll m h xs -> n ∉ h :: xs -> is_Some (m !! n) ->
  wp (list_add n h m) (fun m' => dll m' h (n :: xs) /\ same_outside (n :: h :: xs) m m').
Proof.
  intros Hd Hn Hs. destruct (place h [] xs) as (l1 & a & b & l2 & H1 & H2). pose proof Hd as [_ Hp].
  destruct l1 as [|? [|? ?]]; try done. injection H1 as <-. unfold list_add.
  apply wp_bind, hget_nx; [apply (dll_dom _ _ _ _ Hd); by left|]. intros nd Hnx _. rewrite Hnx.
  cbn [app] in Hp. rewrite H2 in Hp. destruct Hp as [[-> _] _]. cbn [deref mbind res_bind].
  by apply (list_add_at h [] xs [] h b l2).
Qed.

Lemma list_add_tail_ok h xs n m :
  dll m h xs -> n ∉ h :: xs -> is_Some (m !! n) ->
  wp (list_add_tail n h m) (fun m' => dll m' h (xs ++ [n]) /\ same_outside (n :: h :: xs) m m').
Proof.
  intros Hd Hn Hs. destruct (place h xs []) as (l1 & a & b & l2 & H1 & H2). pose proof Hd as [_ Hp].
  injection H2 as <- <-. unfold list_add_tail.
  apply wp_bind, hget_nx; [apply (dll_dom _ _ _ _ Hd); by left|]. intros nd _ Hpv. rewrite Hpv.
  rewrite app_comm_cons, H1, <- app_assoc in Hp. cbn [app] in Hp. apply path_link in Hp as (_ & [_ ->] & _).
  cbn [deref mbind res_bind].
  pose proof (list_add_at h xs [] l1 a h [] n m) as H. rewrite app_nil_r in H. by apply H.
Qed.

Lemma list_del_entry_ok h xs1 e xs2 m :
  dll m h (xs1 ++ e :: xs2) ->
  wp (__list_del_entry e m) (fun m' => dll m' h (xs1 ++ xs2) /\
    same_outside (h :: xs1 ++ xs2) m m' /\ (forall b, is_Some (m' !! b) <-> is_Some (m !! b))).
Proof.
  intros Hd. pose proof Hd as [Hnd Hp]. destruct (place h xs1 xs2) as (l1 & a & b & l2 & H1 & H2).
  rewrite Permutation_middle_cons in Hnd. apply NoDup_cons in Hnd as [He Hnd].
  destruct (place_disjoint _ _ _ _ _ _ _ Hnd H1 H2) as (Ha & Hb & Hbt & Har & Hin1 & Hin2 & Hai & Hbi).
  assert (E : h :: (xs1 ++ e :: xs2) ++ [h] = l1 ++ a :: e :: b :: l2).
  { rewrite <- app_assoc. cbn [app]. rewrite H2, app_comm_cons, H1, <- app_assoc. done. }
  rewrite E, path_link in Hp. destruct Hp as (Hp1 & [_ Hpv] & [Hnx _] & Hp2).
  unfold __list_del_entry, __list_del.
  apply wp_bind, hget_nx; [by eapply nx_some|]. intros nd -> ->. rewrite Hpv, Hnx. cbn [deref mbind res_bind].
  assert (Hab : is_Some (m !! a) /\ is_Some (m !! b)) by (split; apply (dll_dom _ _ _ _ Hd); set_solver).
  destruct Hab as [Hsa Hsb].
  eapply wp_bind_mono; [by apply set_prev_ok|]. intros m1 W1.
  eapply wp_mono; [apply set_next_ok; by apply (wp_dom _ _ _ _ W1)|]. intros m2 W2.
  assert (Nx : forall x, x <> a -> nx m2 x = nx m x).
  { intros x ?. by rewrite (wn_ne _ _ _ _ W2), (wp_nx _ _ _ _ W1). }
  assert (Pv : forall x, x <> b -> pv m2 x = pv m x).
  { intros x ?. by rewrite (wn_pv _ _ _ _ W2), (wp_ne _ _ _ _ W1). }
  split; [split; [done|]|split].
  - replace (h :: (xs1 ++ xs2) ++ [h]) with (l1 ++ a :: b :: l2).
    2:{ rewrite <- app_assoc, H2, app_comm_cons, H1, <- app_assoc. done. }
    rewrite path_link. split; [|split; [split|]].
    + eapply path_ext; [| |exact Hp1]; [rewrite removelast_last; intros x Hx; apply Nx; set_solver|].
      rewrite <- H1. cbn [tail]. intros x Hx. apply Pv. set_solver.
    + apply (wn_eq _ _ _ _ W2).
    + by rewrite (wn_pv _ _ _ _ W2), (wp_eq _ _ _ _ W1).
    + eapply path_ext; [| |exact Hp2]; intros x Hx; [apply Nx; by intros ->|apply Pv; set_solver].
  - intros x Hx. split; [apply Nx|apply Pv]; set_solver.
  - intros x. by rewrite (wn_dom _ _ _ _ W2), (wp_dom _ _ _ _ W1).
Qed.

Lemma dll_outside m m' h xs : dll m h xs -> (forall b, b ∈ h :: xs -> nx m' b = nx m b /\ pv m' b = pv m b) -> dll m' h xs.
Proof.
  intros [Hnd Hp] H. split; [done|]. eapply path_ext; [| |exact Hp].
  - rewrite app_comm_cons, removelast_last. intros x Hx. by apply H.
  - cbn [tail]. intros x Hx. apply H. set_solver.
Qed.

Lemma list_del_ok h xs1 e xs2 m :
  dll m h (xs1 ++ e :: xs2) ->
  wp (list_del e m) (fun m' => dll m' h (xs1 ++ xs2) /\ same_outside (h :: xs1 ++ e :: xs2) m m').
Proof.
  intros Hd. assert (He : is_Some (m !! e)) by (apply (dll_dom _ _ _ _ Hd); set_solver).
  unfold list_del. eapply wp_bind_mono; [by eapply list_del_entry_ok|]. intros m1 (Hd1 & Ho & Hdom).
  eapply wp_bind_mono; [apply set_next_ok; by apply Hdom|]. intros m2 W2.
  eapply wp_mono; [apply set_prev_ok; apply (wn_dom _ _ _ _ W2); by apply Hdom|]. intros m3 W3.
  assert (Hsame : forall x, x <> e -> nx m3 x = nx m1 x /\ pv m3 x = pv m1 x).
  { intros x Hx. rewrite (wp_nx _ _ _ _ W3), (wn_ne _ _ _ _ W2), (wp_ne _ _ _ _ W3), (wn_pv _ _ _ _ W2) by done. done. }
  destruct Hd as [Hnd _]. rewrite Permutation_middle_cons in Hnd. apply NoDup_cons in Hnd as [Hne _]. split.
  - eapply dll_outside; [exact Hd1|]. intros b Hb. apply Hsame. by intros ->.
  - intros x Hx. assert (x <> e) by set_solver. destruct (Hsame x) as [-> ->]; [done|]. apply Ho. set_solver.
Qed.

Lemma list_empty_ok h xs m : dll m h xs -> list_empty h m = Ok (bool_decide (xs = [])).
Proof.
  intros Hd. pose proof Hd as [Hnd Hp]. unfold list_empty, hget.
  destruct (dll_dom _ _ _ h Hd) as [n Hn]; [by left|]. rewrite Hn. cbn [mbind res_bind]. f_equal.
  assert (Hx : next n = nx m h) by (unfold nx; by rewrite Hn). rewrite Hx.
  destruct xs as [|x xs]; destruct Hp as [[-> _] _].
  - by rewrite !bool_decide_true.
  - apply NoDup_cons in Hnd as [Hh _]. rewrite !bool_decide_false; [done|done|]. intros [= ->]. apply Hh. by left.
Qed.

Lemma list_move_tail_ok h xs1 e xs2 m :
  dll m h (xs1 ++ e :: xs2) -> wp (list_move_tail e h m) (fun m' => dll m' h (xs1 ++ xs2 ++ [e])).
Proof.
  intros Hd. assert (He : is_Some (m !! e)) by (apply (dll_dom _ _ _ _ Hd); set_solver).
  unfold list_move_tail. eapply wp_bind_mono; [by eapply list_del_entry_ok|]. intros m1 (Hd1 & Ho & Hdom).
  destruct Hd as [Hnd _]. rewrite Permutation_middle_cons in Hnd. apply NoDup_cons in Hnd as [Hne _].
  eapply wp_mono; [apply list_add_tail_ok; [exact Hd1|done|by apply Hdom]|]. intros m2 [Hd2 _].
  by rewrite app_assoc.
Qed.

Definition rotate {A} (xs : list A) : list A := match xs with [] => [] | x :: xs => xs ++ [x] end.

Lemma list_rotate_left_ok h xs m : dll m h xs -> wp (list_rotate_left h m) (fun m' => dll m' h (rotate xs)).
Proof.
  intros Hd. unfold list_rotate_left. rewrite (list_empty_ok _ _ _ Hd). cbn [mbind res_bind].
  destruct xs as [|x xs]; [done|]. rewrite bool_decide_false by done.
  apply wp_bind, hget_nx; [apply (dll_dom _ _ _ _ Hd); by left|]. intros nd Hnx _. rewrite Hnx.
  pose proof Hd as [_ [[-> _] _]]. cbn [deref mbind res_bind]. by apply (list_move_tail_ok h [] x xs).
Qed.
