(* ===== verification/MergeSort.v ===== *)
(** * Merge sort

    The order in which [list_sort()] of [src/util/list_sort.c] puts the
    elements of a list: partial lists whose lengths are powers of two are
    merged like the digits of a binary counter.  It is a permutation whatever
    the comparison is, sorted if any two elements compare, and stable if the
    comparison is transitive as well. *)

From S2P Require Import Prelude.
From stdpp Require Import sorting.
Local Open Scope Z_scope.

Section sort.
Context {A : Type} (cmp : A -> A -> Z).

Definition leb (x y : A) : Prop := cmp x y <= 0.
#[global] Instance leb_dec : RelDecision leb.
Proof. intros x y. unfold leb. apply _. Defined.

(** ** The merge sort on lists *)

Fixpoint fcarry (cur : list A) (parts : list (list A)) : list (list A) :=
  match parts with
  | [] => []
  | [] :: ps => cur :: ps
  | p :: ps => [] :: fcarry (list_merge leb p cur) ps
  end.

Definition finsert (parts : list (list A)) (x : A) : list (list A) := fcarry [x] parts.

Definition fcollect (parts : list (list A)) : list A :=
  foldl (fun l p => list_merge leb p l) [] parts.

Definition fsort (n : nat) (xs : list A) : list A := fcollect (foldl finsert (replicate n []) xs).

(** ** Counting *)

Lemma list_merge_nil_r xs : list_merge leb xs [] = xs.
Proof. by destruct xs. Qed.

(** The index of the first empty part. *)
Fixpoint first_empty (parts : list (list A)) : nat :=
  match parts with
  | [] | [] :: _ => 0
  | _ :: ps => S (first_empty ps)
  end.

(** A part of level [k] is empty or has [2^k] elements. *)
Fixpoint sized (k : nat) (parts : list (list A)) : Prop :=
  match parts with
  | [] => True
  | p :: ps => (p = [] \/ length p = 2 ^ k)%nat /\ sized (S k) ps
  end.

Definition has_room (parts : list (list A)) : Prop := Exists (fun p => p = []) parts.

Lemma list_merge_length xs ys : length (list_merge leb xs ys) = (length xs + length ys)%nat.
Proof. rewrite (merge_Permutation leb xs ys). apply length_app. Qed.

Lemma fcarry_length c parts : length (fcarry c parts) = length parts.
Proof. revert c. induction parts as [|[|x p] ps IH]; intros c; simpl; [done|done|]. by rewrite IH. Qed.

Lemma fcarry_perm c parts : has_room parts -> concat (fcarry c parts) ≡ₚ c ++ concat parts.
Proof.
  revert c. induction parts as [|[|x p] ps IH]; intros c Hr; [by apply Exists_nil in Hr|done|].
  apply Exists_cons in Hr as [?|Hr]; [done|]. change (concat (fcarry (list_merge leb (x :: p) c) ps) ≡ₚ c ++ (x :: p) ++ concat ps).
  rewrite IH by done. rewrite (merge_Permutation leb (x :: p) c). rewrite (Permutation_app_comm (x :: p) c). by rewrite app_assoc.
Qed.

Lemma fcarry_sized k c parts : length c = (2 ^ k)%nat -> sized k parts -> sized k (fcarry c parts).
Proof.
  revert k c. induction parts as [|[|x p] ps IH]; intros k c Hc; [done|simpl; tauto|]. intros [[?|Hp] Hs]; [done|].
  change (sized k ([] :: fcarry (list_merge leb (x :: p) c) ps)). split; [by left|]. apply IH; [|done].
  rewrite list_merge_length. simpl. simpl in Hp. lia.
Qed.

(** Parts without room have [2^(k+n) - 2^k] elements. *)
Lemma full_length k parts :
  sized k parts -> ~ has_room parts -> (length (concat parts) + 2 ^ k = 2 ^ (k + length parts))%nat.
Proof.
  revert k. induction parts as [|p ps IH]; intros k; [simpl; intros _ _; f_equal; lia|]. intros [Hp Hs] Hr.
  assert (Hr' : ~ has_room ps) by (intros H; apply Hr, Exists_cons; by right).
  specialize (IH (S k) Hs Hr'). simpl in IH |- *. rewrite length_app.
  destruct Hp as [->|Hp]; [exfalso; apply Hr; apply Exists_cons; by left|].
  replace (k + S (length ps))%nat with (S (k + length ps)) by lia. simpl. lia.
Qed.

Lemma sized_bound k parts : sized k parts -> (length (concat parts) + 2 ^ k <= 2 ^ (k + length parts))%nat.
Proof.
  revert k. induction parts as [|p ps IH]; intros k; [simpl; intros _; by rewrite Nat.add_0_r|]. intros [Hp Hs].
  specialize (IH (S k) Hs). simpl in IH |- *. rewrite length_app.
  replace (k + S (length ps))%nat with (S (k + length ps)) by lia. simpl. destruct Hp as [->|Hp]; simpl; lia.
Qed.

Lemma has_room_bound parts :
  sized 0 parts -> (S (length (concat parts)) < 2 ^ length parts)%nat -> has_room parts.
Proof.
  intros Hs Hl. destruct (Exists_dec (fun p : list A => p = []) parts) as [?|Hn]; [done|].
  pose proof (full_length 0 parts Hs Hn) as H. simpl in H. lia.
Qed.

Lemma first_empty_lt parts : has_room parts -> (first_empty parts < length parts)%nat.
Proof.
  induction parts as [|[|x p] ps IH]; intros Hr; [by apply Exists_nil in Hr|simpl; lia|].
  apply Exists_cons in Hr as [?|Hr]; [done|]. specialize (IH Hr). simpl. lia.
Qed.

(** Only the levels up to the first empty part change. *)
Lemma fcarry_above c parts i : (first_empty parts < i)%nat -> fcarry c parts !! i = parts !! i.
Proof.
  revert c i. induction parts as [|[|x p] ps IH]; intros c i Hi; [done|destruct i; [simpl in Hi; lia|done]|].
  destruct i as [|i]; simpl in *; [lia|]. apply IH. lia.
Qed.

Lemma fcarry_at c parts :
  has_room parts -> c <> [] -> exists p, fcarry c parts !! first_empty parts = Some p /\ p <> [].
Proof.
  revert c. induction parts as [|[|x p] ps IH]; intros c Hr Hc; [by apply Exists_nil in Hr|by exists c|].
  apply Exists_cons in Hr as [?|Hr]; [done|]. change (exists q, fcarry (list_merge leb (x :: p) c) ps !! first_empty ps = Some q /\ q <> []).
  apply IH; [done|]. intros E. apply (f_equal length) in E. rewrite list_merge_length in E. simpl in E. lia.
Qed.

Lemma first_empty_at parts : has_room parts -> parts !! first_empty parts = Some [].
Proof.
  induction parts as [|[|x p] ps IH]; intros Hr; [by apply Exists_nil in Hr|done|].
  apply Exists_cons in Hr as [?|Hr]; [done|]. by apply IH.
Qed.

Lemma finsert_perm parts x xs : has_room parts -> concat (finsert parts x) ++ xs ≡ₚ concat parts ++ x :: xs.
Proof. intros Hr. unfold finsert. rewrite (fcarry_perm [x] parts Hr). cbn [app]. apply Permutation_middle. Qed.

Lemma concat_take_drop k (l : list (list A)) : concat l = concat (take k l) ++ concat (drop k l).
Proof. by rewrite <- concat_app, take_drop. Qed.

Lemma fcollect_perm l0 parts : foldl (fun l p => list_merge leb p l) l0 parts ≡ₚ l0 ++ concat parts.
Proof.
  revert l0. induction parts as [|p ps IH]; intros l0; simpl; [by rewrite app_nil_r|]. rewrite IH.
  rewrite (merge_Permutation leb p l0), (Permutation_app_comm p l0). by rewrite app_assoc.
Qed.

Lemma take_S_collect parts k p :
  parts !! k = Some p -> fcollect (take (S k) parts) = list_merge leb p (fcollect (take k parts)).
Proof. intros H. unfold fcollect. by rewrite (take_S_r _ _ _ H), foldl_snoc. Qed.

Lemma fcollect_split parts ml c :
  parts !! ml = Some c -> (forall i p, (ml < i)%nat -> parts !! i = Some p -> p = []) ->
  fcollect parts = list_merge leb c (fcollect (take ml parts)).
Proof.
  intros Hc Hn. rewrite <- (take_drop (S ml) parts) at 1. unfold fcollect. rewrite foldl_app.
  fold (fcollect (take (S ml) parts)). rewrite (take_S_collect _ _ _ Hc).
  set (l0 := list_merge leb c _).
  assert (H : Forall (fun p => p = []) (drop (S ml) parts)).
  { apply Forall_lookup. intros i p. rewrite lookup_drop. apply Hn. lia. }
  clearbody l0. clear -H. induction H as [|p ps -> _ IH]; [done|]. simpl. rewrite <- IH at 2. f_equal. by destruct l0.
Qed.

Lemma concat_replicate_nil n : concat (replicate n (@nil A)) = [].
Proof. induction n; [done|]. simpl. done. Qed.

Lemma sized_replicate k n : sized k (replicate n []).
Proof. revert k. induction n as [|n IH]; intros k; [done|]. split; [by left|apply IH]. Qed.

Lemma fsort_nil n : fsort n [] = [].
Proof. unfold fsort, fcollect. cbn [foldl]. induction n as [|n IH]; [done|]. simpl. done. Qed.

(** ** What the merge sort on lists does *)

Lemma foldl_finsert_perm n xs :
  (length xs < 2 ^ n)%nat ->
  concat (foldl finsert (replicate n []) xs) ≡ₚ xs /\ sized 0 (foldl finsert (replicate n []) xs) /\
  length (foldl finsert (replicate n []) xs) = n.
Proof.
  induction xs as [|x xs IH] using rev_ind; intros Hlen.
  - cbn [foldl]. rewrite concat_replicate_nil, length_replicate. split; [done|]. split; [apply sized_replicate|done].
  - rewrite length_app in Hlen. cbn [length] in Hlen. destruct IH as (Hp & Hs & Hl); [lia|]. rewrite foldl_snoc.
    set (parts := foldl finsert _ xs) in *. unfold finsert.
    assert (Hr : has_room parts) by (apply has_room_bound; [done|rewrite Hp, Hl; lia]).
    split; [rewrite fcarry_perm, Hp by done; apply Permutation_cons_append|].
    split; [by apply fcarry_sized|]. by rewrite fcarry_length.
Qed.

(** A permutation, whatever the comparison is. *)
Lemma fsort_perm n xs : (length xs < 2 ^ n)%nat -> fsort n xs ≡ₚ xs.
Proof. intros H. unfold fsort, fcollect. rewrite fcollect_perm. by apply foldl_finsert_perm. Qed.

Section total.
Context {Htotal : Total leb}.

Lemma fcarry_sorted c parts : Sorted leb c -> Forall (Sorted leb) parts -> Forall (Sorted leb) (fcarry c parts).
Proof.
  revert c. induction parts as [|[|x p] ps IH]; intros c Hc Hf; [done| |].
  - apply Forall_cons in Hf as [_ Hf]. by constructor.
  - apply Forall_cons in Hf as [Hp Hf]. constructor; [constructor|]. apply IH; [|done]. by apply Sorted_list_merge.
Qed.

Lemma fsort_sorted n xs : Sorted leb (fsort n xs).
Proof.
  unfold fsort, fcollect. assert (Hf : Forall (Sorted leb) (foldl finsert (replicate n []) xs)).
  { induction xs as [|x xs IH] using rev_ind; [apply Forall_replicate; constructor|]. rewrite foldl_snoc.
    apply fcarry_sorted; [repeat constructor|done]. }
  set (parts := foldl finsert _ xs) in *. clearbody parts.
  assert (Hs : Sorted leb []) by constructor. revert Hs. generalize (@nil A) as l0.
  induction Hf as [|p ps Hp _ IH]; intros l0 Hl; [done|]. apply IH. by apply Sorted_list_merge.
Qed.

Context {Htrans : Transitive leb}.

(** Elements that compare equal to [x]. *)
Definition same_key (x y : A) : Prop := leb x y /\ leb y x.
#[local] Instance same_key_dec x y : Decision (same_key x y).
Proof. unfold same_key. apply _. Defined.

Definition key_of (x : A) (l : list A) : list A := filter (same_key x) l.

Lemma key_of_app x l1 l2 : key_of x (l1 ++ l2) = key_of x l1 ++ key_of x l2.
Proof. apply filter_app. Qed.

(** Merging keeps the order of equal elements, the first list first. *)
Lemma key_of_none x l : (forall y, y ∈ l -> ~ same_key x y) -> key_of x l = [].
Proof.
  unfold key_of. induction l as [|y l IH]; intros H; [done|]. rewrite filter_cons_False by (apply H; by left).
  apply IH. intros z Hz. apply H. by right.
Qed.

Lemma merge_stable x l1 l2 :
  StronglySorted leb l1 -> key_of x (list_merge leb l1 l2) = key_of x (l1 ++ l2).
Proof.
  revert l2. induction l1 as [|a l1 IH]; intros l2 Hs; [by destruct l2|].
  induction l2 as [|b l2 IH2]; [by rewrite list_merge_nil_r, app_nil_r|].
  pose proof (StronglySorted_inv Hs) as [Hs1 Ha]. cbn [list_merge]. destruct (decide_rel leb a b) as [Hle|Hgt].
  - change (key_of x ([a] ++ list_merge leb l1 (b :: l2)) = key_of x ([a] ++ (l1 ++ b :: l2))).
    by rewrite !(key_of_app x [a]), IH.
  - change (key_of x ([b] ++ list_merge leb (a :: l1) l2) = key_of x ((a :: l1) ++ [b] ++ l2)).
    rewrite !key_of_app, IH2, key_of_app. destruct (decide (same_key x b)) as [[Hxb Hbx]|Hb].
    + rewrite (key_of_none x (a :: l1)); [done|]. intros y Hy [Hxy Hyx]. apply Hgt.
      assert (leb a y) as Hay; [|etrans; [exact Hay|]; by etrans].
      apply elem_of_cons in Hy as [->|Hy]; [by destruct (total leb a a)|]. rewrite Forall_forall in Ha. by apply Ha.
    + rewrite (key_of_none x [b]) by (by intros y ->%list_elem_of_singleton). done.
Qed.

(** The parts from the last level to the first are the elements in the order
    of the list. *)
Lemma fcarry_stable x c parts :
  Forall (Sorted leb) parts -> has_room parts -> Sorted leb c ->
  key_of x (concat (reverse (fcarry c parts))) = key_of x (concat (reverse parts) ++ c).
Proof.
  intros Hf. revert c. induction Hf as [|p ps Hp Hf IH]; intros c Hr Hc; [by apply Exists_nil in Hr|].
  apply Exists_cons in Hr. destruct p as [|y p].
  - cbn [fcarry]. rewrite !reverse_cons, !concat_app. cbn [concat app]. by rewrite !app_nil_r.
  - destruct Hr as [?|Hr]; [done|]. cbn [fcarry]. rewrite !reverse_cons, !concat_app. cbn [concat].
    rewrite !app_nil_r, IH by (done || by apply Sorted_list_merge). rewrite !key_of_app.
    rewrite (merge_stable x (y :: p) c) by (by apply Sorted_StronglySorted). by rewrite key_of_app, app_assoc.
Qed.

Lemma fsort_stable n x xs : (length xs < 2 ^ n)%nat -> key_of x (fsort n xs) = key_of x xs.
Proof.
  intros Hlen. assert (H : Forall (Sorted leb) (foldl finsert (replicate n []) xs) /\
    key_of x (concat (reverse (foldl finsert (replicate n []) xs))) = key_of x xs).
  { induction xs as [|y xs IH] using rev_ind.
    - split; [apply Forall_replicate; constructor|]. cbn [foldl]. by rewrite reverse_replicate, concat_replicate_nil.
    - rewrite length_app in Hlen. cbn [length] in Hlen. destruct IH as [Hf IH]; [lia|]. rewrite foldl_snoc.
      destruct (foldl_finsert_perm n xs ltac:(lia)) as (Hp & Hs & Hl). set (parts := foldl finsert _ xs) in *.
      assert (Hr : has_room parts) by (apply has_room_bound; [done|rewrite Hp, Hl; lia]).
      split; [apply fcarry_sorted; [repeat constructor|done]|]. unfold finsert.
      rewrite fcarry_stable by (try done; repeat constructor). by rewrite !key_of_app, IH. }
  destruct H as [Hf <-]. unfold fsort, fcollect. generalize dependent (foldl finsert (replicate n []) xs).
  intros parts Hf. clear n xs Hlen. rewrite <- (app_nil_r (concat (reverse parts))). generalize (@nil A) as l0.
  induction Hf as [|p ps Hp Hf IH]; intros l0; [done|]. cbn [foldl]. rewrite IH, reverse_cons, concat_app.
  cbn [concat]. rewrite app_nil_r, !key_of_app. rewrite merge_stable by (by apply Sorted_StronglySorted).
  by rewrite key_of_app, app_assoc.
Qed.

End total.
End sort.

(** ** Objects and their nodes *)

(** [list_sort()] on the objects: the order of the nodes is the order of the
    objects.  A longer list is too long for the array of partial lists. *)
Definition sort_list {A} (cmp : A -> A -> Z) (xs : list A) : res (list A) :=
  if Z.of_nat (length xs) <? 2 ^ 21 then Ok (fsort cmp 21 xs) else Err OutOfBounds.

Lemma list_merge_cons {A} (cmp : A -> A -> Z) x y xs ys :
  list_merge (leb cmp) (x :: xs) (y :: ys) =
  if decide (leb cmp x y) then x :: list_merge (leb cmp) xs (y :: ys) else y :: list_merge (leb cmp) (x :: xs) ys.
Proof. done. Qed.

Section map.
Context {A B : Type} (f : A -> B) (cmp : B -> B -> Z).
Let cmp' (a b : A) : Z := cmp (f a) (f b).

Lemma list_merge_map xs ys :
  map f (list_merge (leb cmp') xs ys) = list_merge (leb cmp) (map f xs) (map f ys).
Proof.
  revert ys. induction xs as [|x xs IH]; intros ys; [by destruct ys|].
  induction ys as [|y ys IH2]; [done|]. rewrite !list_merge_cons.
  assert (E : leb cmp' x y = leb cmp (f x) (f y)) by done. cbn [map]. rewrite list_merge_cons.
  destruct (decide (leb cmp' x y)) as [H|H], (decide (leb cmp (f x) (f y))) as [H'|H']; try (by rewrite E in H).
  - cbn [map]. by rewrite IH.
  - cbn [map]. f_equal. exact IH2.
Qed.

Lemma fcarry_map c parts : map (map f) (fcarry cmp' c parts) = fcarry cmp (map f c) (map (map f) parts).
Proof.
  revert c. induction parts as [|[|x p] ps IH]; intros c; [done|done|]. cbn [fcarry map].
  rewrite IH. by rewrite list_merge_map.
Qed.

Lemma fsort_map n xs : map f (fsort cmp' n xs) = fsort cmp n (map f xs).
Proof.
  unfold fsort. assert (H : forall ps xs, map (map f) (foldl (finsert cmp') ps xs) = foldl (finsert cmp) (map (map f) ps) (map f xs)).
  { intros ps ys. revert ps. induction ys as [|y ys IH]; intros ps; [done|]. cbn [foldl map]. rewrite IH. f_equal.
    apply fcarry_map. }
  assert (Hr : map (map f) (replicate n []) = replicate n []) by (clear; induction n; simpl; congruence).
  rewrite <- Hr, <- H. unfold fcollect. generalize (foldl (finsert cmp') (replicate n []) xs) as ps. intros ps.
  change (@nil B) with (map f []) at 1. generalize (@nil A) as l0. induction ps as [|p ps IH]; intros l0; [done|].
  cbn [foldl map]. by rewrite IH, list_merge_map.
Qed.

End map.

Lemma sort_list_ok {A} (cmp : A -> A -> Z) xs :
  Z.of_nat (length xs) < 2 ^ 21 -> exists ys, sort_list cmp xs = Ok ys /\ ys ≡ₚ xs.
Proof.
  intros H. exists (fsort cmp 21 xs). unfold sort_list. rewrite (proj2 (Z.ltb_lt _ _) H). split; [done|].
  apply fsort_perm. apply Nat2Z.inj_lt. by rewrite Nat2Z.inj_pow.
Qed.
