(* ===== verification/ListSortProofs.v ===== *)
(** * Merge sort on linked lists: proofs

    [list_sort()] relinks the nodes in the order of a merge sort on lists;
    that order is a permutation whatever the comparison is, sorted if any two
    elements compare, and stable if the comparison is transitive.  A list of
    [2^21] elements is one too many. *)

From S2P Require Import Prelude LinkedList MergeSort.
From stdpp Require Import sorting.
Local Open Scope Z_scope.

Section sort.
Variable cmp : addr -> addr -> Z.

#[local] Abbreviation leb := (MergeSort.leb cmp).
#[local] Abbreviation fcarry := (MergeSort.fcarry cmp).
#[local] Abbreviation finsert := (MergeSort.finsert cmp).
#[local] Abbreviation fcollect := (MergeSort.fcollect cmp).
#[local] Abbreviation fsort := (MergeSort.fsort cmp).
#[local] Abbreviation list_merge_nil_r := (MergeSort.list_merge_nil_r cmp).
#[local] Abbreviation fcarry_length := (MergeSort.fcarry_length cmp).
#[local] Abbreviation fcarry_sized := (MergeSort.fcarry_sized cmp).
#[local] Abbreviation fcarry_above := (MergeSort.fcarry_above cmp).
#[local] Abbreviation fcarry_at := (MergeSort.fcarry_at cmp).
#[local] Abbreviation finsert_perm := (MergeSort.finsert_perm cmp).
#[local] Abbreviation fcollect_perm := (MergeSort.fcollect_perm cmp).
#[local] Abbreviation take_S_collect := (MergeSort.take_S_collect cmp).
#[local] Abbreviation fcollect_split := (MergeSort.fcollect_split cmp).
#[local] Abbreviation fsort_nil := (MergeSort.fsort_nil cmp).

(** ** Chains that end with [NULL] *)

Fixpoint lch (m : heap) (p : option addr) (xs : list addr) : Prop :=
  match xs with
  | [] => p = None
  | x :: xs => p = Some x /\ is_Some (m !! x) /\ lch m (nx m x) xs
  end.

Lemma lch_ext m m' p xs :
  (forall x, x ∈ xs -> nx m' x = nx m x /\ (is_Some (m !! x) -> is_Some (m' !! x))) -> lch m p xs -> lch m' p xs.
Proof.
  revert p. induction xs as [|x xs IH]; intros p H; [done|]. intros (-> & Hs & Hc).
  destruct (H x) as [Hn Hd]; [by left|]. split; [done|]. split; [by apply Hd|]. rewrite Hn. apply IH; [|done].
  intros y Hy. apply H. by right.
Qed.

Lemma lch_dom m p xs x : lch m p xs -> x ∈ xs -> is_Some (m !! x).
Proof.
  revert p. induction xs as [|y xs IH]; intros p; [by intros _ ?%not_elem_of_nil|].
  intros (_ & Hs & Hc) [->|Hx]%elem_of_cons; [done|]. by eapply IH.
Qed.

Lemma lch_head m p xs : lch m p xs -> p = head xs.
Proof. destruct xs; [done|]. by intros [-> _]. Qed.

(** Only the [next] pointers of [S] change. *)
Record relinked (S : list addr) (m m' : heap) : Prop := {
  rl_nx b : b ∉ S -> nx m' b = nx m b;
  rl_pv b : pv m' b = pv m b;
  rl_dom b : is_Some (m' !! b) <-> is_Some (m !! b);
  rl_size : size m' = size m;
}.

Lemma relinked_refl S m : relinked S m m.
Proof. by split. Qed.

Lemma relinked_trans S1 S2 S3 m1 m2 m3 :
  relinked S1 m1 m2 -> relinked S2 m2 m3 -> (forall b, b ∈ S1 \/ b ∈ S2 -> b ∈ S3) -> relinked S3 m1 m3.
Proof.
  intros [A B C D] [A' B' C' D'] HS. split; [|congruence| |congruence].
  - intros b Hb. rewrite A', A; [done| |]; intros ?; apply Hb, HS; auto.
  - intros b. by rewrite C', C.
Qed.

Lemma wrote_relinked a x m m' : wrote_next a x m m' -> relinked [a] m m'.
Proof. intros [A B C D E]. split; [|done..]. intros b Hb. apply B. set_solver. Qed.

Lemma lch_relinked S m m' p xs : relinked S m m' -> (forall x, x ∈ xs -> x ∉ S) -> lch m p xs -> lch m' p xs.
Proof.
  intros Hr Hd. apply lch_ext. intros x Hx. split; [apply Hr; auto|]. apply (rl_dom _ _ _ Hr).
Qed.

(** ** Merging *)

(** [tail] is a node, or the head on the stack. *)
Definition tail_list (t : option addr) : list addr := match t with Some t => [t] | None => [] end.

(** The chain behind [tail]. *)
Definition behind (t : option addr) (st : heap * option addr) : option addr :=
  match t with Some t => nx st.1 t | None => st.2 end.

Definition tail_ok (t : option addr) (m : heap) : Prop := match t with Some t => is_Some (m !! t) | None => True end.

Lemma set_tail_ok t x m hn :
  tail_ok t m ->
  wp (set_tail t x (m, hn)) (fun st => behind t st = x /\ relinked (tail_list t) m st.1 /\ (t <> None -> st.2 = hn)).
Proof.
  destruct t as [t|]; simpl; intros Ht.
  - unfold set_tail. cbn [fst snd]. eapply wp_bind_mono; [by apply set_next_ok|]. intros m' W. apply wp_ok.
    split; [apply (wn_eq _ _ _ _ W)|]. split; [by eapply wrote_relinked|done].
  - split; [done|]. split; [apply relinked_refl|done].
Qed.

(** One step of the loop: [z] is linked behind [t], the rest behind [z]. *)
Lemma merge_step t z m hn rest S (loop : option addr -> heap * option addr -> res (heap * option addr)) :
  tail_ok t m -> is_Some (m !! z) -> z ∉ tail_list t -> z ∈ S -> (forall x, x ∈ tail_list t -> x ∉ S) ->
  (forall m1 hn1, relinked (tail_list t) m m1 ->
    wp (loop (nx m z) (m1, hn1)) (fun st => lch st.1 (nx st.1 z) rest /\ relinked S m1 st.1 /\ st.2 = hn1)) ->
  wp (st ← set_tail t (Some z) (m, hn); n ← hget st.1 z; loop (next n) st) (fun st =>
    lch st.1 (behind t st) (z :: rest) /\ relinked (tail_list t ++ S) m st.1 /\ (t <> None -> st.2 = hn)).
Proof.
  intros Ht Hz Hzt HzS HtS Hloop.
  eapply wp_bind_mono; [by apply (set_tail_ok t (Some z) m hn)|]. intros [m1 hn1] (Hb & Hr & Hh). cbn [fst snd] in *.
  apply wp_bind, hget_nx; [by apply (rl_dom _ _ _ Hr)|]. intros n -> _. rewrite (rl_nx _ _ _ Hr) by done.
  eapply wp_mono; [by apply Hloop|]. intros [m2 hn2] (Hc & Hr2 & Hh2). cbn [fst snd] in *. subst hn2.
  assert (Hbt : behind t (m2, hn1) = Some z).
  { destruct t as [t|]; simpl in *; [|done]. rewrite (rl_nx _ _ _ Hr2); [done|]. apply HtS. by left. }
  rewrite Hbt. split; [split; [done|]; split; [apply (rl_dom _ _ _ Hr2); by apply (rl_dom _ _ _ Hr)|done]|].
  split; [eapply relinked_trans; [exact Hr|exact Hr2|set_solver]|done].
Qed.

(** The end of the loop: one chain is linked behind [t]. *)
Lemma merge_end t xs p m hn S :
  tail_ok t m -> lch m p xs -> (forall x, x ∈ tail_list t -> x ∉ xs) ->
  wp (set_tail t p (m, hn)) (fun st =>
    lch st.1 (behind t st) xs /\ relinked (tail_list t ++ S) m st.1 /\ (t <> None -> st.2 = hn)).
Proof.
  intros Ht Hc Hd. eapply wp_mono; [by apply set_tail_ok|]. intros st (-> & Hr & Hh).
  split; [eapply lch_relinked; [exact Hr| |done]; intros x Hx Hx'; by apply (Hd x)|]. split; [|done].
  destruct Hr as [A B C D]. split; [|done..]. intros z Hz. apply A. set_solver.
Qed.

Lemma merge_loop_ok fuel t xs ys a b m hn :
  lch m a xs -> lch m b ys -> NoDup (tail_list t ++ xs ++ ys) -> tail_ok t m -> (length xs + length ys < fuel)%nat ->
  wp (merge_loop cmp fuel t a b (m, hn)) (fun st =>
    lch st.1 (behind t st) (list_merge leb xs ys) /\ relinked (tail_list t ++ xs ++ ys) m st.1 /\
    (t <> None -> st.2 = hn)).
Proof.
  revert t xs ys a b m hn. induction fuel as [|fuel IH]; intros t xs ys a b m hn Hx Hy Hnd Ht Hf; [lia|].
  pose proof Hnd as (_ & Hd & Hnd')%NoDup_app.
  destruct xs as [|x xs].
  { simpl in Hx. subst a. assert (E : list_merge leb [] ys = ys) by (by destruct ys). rewrite E.
    apply merge_end; [done|done|]. intros z Hz. by apply Hd. }
  destruct ys as [|y ys].
  { simpl in Hy. subst b. rewrite list_merge_nil_r. destruct Hx as (-> & Hsx & Hx).
    apply merge_end; [done|done|]. intros z Hz Hz'. apply (Hd z Hz). set_solver. }
  pose proof Hx as (-> & Hsx & Hxt). pose proof Hy as (-> & Hsy & Hyt). cbn [merge_loop].
  assert (Hkeep : forall m1 p zs, relinked (tail_list t) m m1 -> (forall z, z ∈ zs -> z ∈ x :: xs ++ y :: ys) ->
    lch m p zs -> lch m1 p zs).
  { intros m1 p zs Hr Hin Hc. eapply lch_relinked; [exact Hr| |done]. intros z Hz Hz'. apply (Hd z Hz'), Hin, Hz. }
  destruct (Z.leb_spec (cmp x y) 0) as [Hle|Hgt].
  - assert (E : list_merge leb (x :: xs) (y :: ys) = x :: list_merge leb xs (y :: ys)).
    { simpl. by rewrite decide_True. }
    rewrite E. apply (merge_step t x m hn _ _ (fun p st => merge_loop cmp fuel (Some x) p (Some y) st));
      [done|done|intros H; apply (Hd x H); by left|by left|done|]. intros m1 hn1 Hr.
    eapply wp_mono; [apply (IH (Some x) xs (y :: ys)); [|apply (Hkeep m1 (Some y) (y :: ys)); [done|set_solver|done]| |by apply (rl_dom _ _ _ Hr)|simpl in *; lia]|].
    + apply Hkeep; [done|set_solver|done].
    + done.
    + intros st (Hc & Hr2 & Hh). split; [done|]. split; [done|by apply Hh].
  - assert (E : list_merge leb (x :: xs) (y :: ys) = y :: list_merge leb (x :: xs) ys).
    { simpl. rewrite decide_False; [done|]. unfold leb. lia. }
    rewrite E. apply (merge_step t y m hn _ _ (fun p st => merge_loop cmp fuel (Some y) (Some x) p st));
      [done|done|intros H; apply (Hd y H); set_solver|set_solver|done|]. intros m1 hn1 Hr.
    eapply wp_mono; [apply (IH (Some y) (x :: xs) ys); [|apply Hkeep; [done|set_solver|done]| |by apply (rl_dom _ _ _ Hr)|simpl in *; lia]|].
    + apply (Hkeep m1 (Some x) (x :: xs)); [done|set_solver|done].
    + cbn [tail_list app] in *. by rewrite Permutation_middle_cons in Hnd'.
    + intros st (Hc & Hr2 & Hh). split; [done|]. split; [|by apply Hh].
      destruct Hr2 as [A B C D]. split; [|done..]. intros z Hz. apply A. cbn [tail_list]. set_solver.
Qed.

Lemma merge_ok m a b xs ys :
  lch m a xs -> lch m b ys -> NoDup (xs ++ ys) ->
  wp (LinkedList.merge cmp a b m) (fun r => lch r.1 r.2 (list_merge leb xs ys) /\ relinked (xs ++ ys) m r.1).
Proof.
  intros Hx Hy Hnd. unfold LinkedList.merge. eapply wp_mono; [apply (merge_loop_ok _ None xs ys); try done|].
  - rewrite <- length_app, <- size_dom. apply Nat.lt_succ_r.
    rewrite <- (size_list_to_set (C := gset addr) (xs ++ ys)) by done. apply subseteq_size.
    intros l [Hl|Hl]%elem_of_list_to_set%elem_of_app; apply elem_of_dom; [by apply (lch_dom m a xs)|by apply (lch_dom m b ys)].
  - intros st (Hc & Hr & _). done.
Qed.

(** ** Restoring the links back *)

(** The nodes whose links may change: [next] in [S], [prev] in [T]. *)
Record changed (S T : list addr) (m m' : heap) : Prop := {
  ch_nx b : b ∉ S -> nx m' b = nx m b;
  ch_pv b : b ∉ T -> pv m' b = pv m b;
  ch_dom b : is_Some (m' !! b) <-> is_Some (m !! b);
  ch_size : size m' = size m;
}.

Lemma changed_refl S T m : changed S T m m.
Proof. by split. Qed.

Lemma changed_trans S1 T1 S2 T2 S T m1 m2 m3 :
  changed S1 T1 m1 m2 -> changed S2 T2 m2 m3 ->
  (forall b, b ∈ S1 \/ b ∈ S2 -> b ∈ S) -> (forall b, b ∈ T1 \/ b ∈ T2 -> b ∈ T) -> changed S T m1 m3.
Proof.
  intros [A B C D] [A' B' C' D'] HS HT. split; [| | |congruence].
  - intros b Hb. rewrite A', A; [done| |]; intros ?; apply Hb, HS; auto.
  - intros b Hb. rewrite B', B; [done| |]; intros ?; apply Hb, HT; auto.
  - intros b. by rewrite C', C.
Qed.

Lemma changed_weaken S T S' T' m m' :
  changed S T m m' -> (forall b, b ∈ S -> b ∈ S') -> (forall b, b ∈ T -> b ∈ T') -> changed S' T' m m'.
Proof. intros [A B C D] HS HT. split; [| |done|done]; intros b Hb; [apply A|apply B]; auto. Qed.

Lemma lch_changed S T m m' p xs : changed S T m m' -> (forall x, x ∈ xs -> x ∉ S) -> lch m p xs -> lch m' p xs.
Proof. intros Hr Hd. apply lch_ext. intros x Hx. split; [apply Hr; auto|]. apply (ch_dom _ _ _ _ Hr). Qed.

Lemma path_changed S T m m' l :
  changed S T m m' -> (forall a, a ∈ removelast l -> a ∉ S) -> (forall b, b ∈ tail l -> b ∉ T) -> path m l -> path m' l.
Proof. intros Hr HS HT. apply path_ext; intros x Hx; apply Hr; auto. Qed.

Lemma bind_assoc_wp {A B D} (x : res A) (f : A -> res B) (g : B -> res D) Q :
  wp ((x ≫= f) ≫= g) Q -> wp (x ≫= (fun a => f a ≫= g)) Q.
Proof. by destruct x. Qed.

(** [tail->next = z; z->prev = tail]. *)
Lemma join_ok t z m :
  is_Some (m !! t) -> is_Some (m !! z) ->
  wp (m ← set_next t (Some z) m; set_prev z (Some t) m) (fun m' => link m' t z /\ changed [t] [z] m m').
Proof.
  intros Ht Hz. eapply wp_bind_mono; [by apply set_next_ok|]. intros m1 W1.
  eapply wp_mono; [apply set_prev_ok; by apply (wn_dom _ _ _ _ W1)|]. intros m2 W2. split; [split|split].
  - by rewrite (wp_nx _ _ _ _ W2), (wn_eq _ _ _ _ W1).
  - apply (wp_eq _ _ _ _ W2).
  - intros b Hb. rewrite (wp_nx _ _ _ _ W2), (wn_ne _ _ _ _ W1); [done|set_solver].
  - intros b Hb. rewrite (wp_ne _ _ _ _ W2), (wn_pv _ _ _ _ W1); [done|set_solver].
  - intros b. by rewrite (wp_dom _ _ _ _ W2), (wn_dom _ _ _ _ W1).
  - by rewrite (wp_size _ _ _ _ W2), (wn_size _ _ _ _ W1).
Qed.

(** The list after the first loop: [zs] is linked both ways, [rest] is
    not. *)
Definition restored (t : addr) (xs ys : list addr) (m : heap) (r : heap * addr * option addr) : Prop :=
  exists zs rest, list_merge leb xs ys = zs ++ rest /\ path r.1.1 (t :: zs) /\ r.1.2 = List.last zs t /\
    lch r.1.1 r.2 rest /\ (xs ++ ys <> [] -> rest <> []) /\ changed (t :: xs ++ ys) (xs ++ ys) m r.1.1.

Lemma restored_end t xs ys m p :
  list_merge leb xs ys = xs ++ ys -> lch m p (xs ++ ys) -> restored t xs ys m (m, t, p).
Proof. intros E Hc. exists [], (xs ++ ys). split; [by rewrite E|]. repeat split; auto. Qed.

Lemma last_cons {A} (z : A) zs t : List.last (z :: zs) t = List.last zs z.
Proof. revert z t. induction zs as [|w zs IH]; intros z t; [done|]. change (List.last (w :: zs) t = List.last (w :: zs) z). by rewrite !IH. Qed.

Lemma restored_step t z xs ys xs' ys' m m' r :
  list_merge leb xs ys = z :: list_merge leb xs' ys' -> link m' t z -> changed [t] [z] m m' ->
  t ∉ z :: xs' ++ ys' -> z ∉ xs' ++ ys' -> xs' ++ ys' <> [] -> z :: xs' ++ ys' ≡ₚ xs ++ ys ->
  restored z xs' ys' m' r -> restored t xs ys m r.
Proof.
  intros E Hl Hch Ht Hz Hne Hp (zs & rest & Em & Hpath & Hlast & Hc & Hr & Hch2). exists (z :: zs), rest.
  split; [by rewrite E, Em|]. split; [split; [|done]|].
  - destruct Hl as [Hn Hpv]. split.
    + rewrite (ch_nx _ _ _ _ Hch2); [done|set_solver].
    + rewrite (ch_pv _ _ _ _ Hch2); [done|set_solver].
  - split; [by rewrite last_cons|]. split; [done|]. split; [intros _; by apply Hr|].
    eapply changed_trans; [exact Hch|exact Hch2| |]; intros b; rewrite <- Hp; set_solver.
Qed.

Lemma restore_loop_ok fuel t xs ys a b m :
  lch m a xs -> lch m b ys -> NoDup (t :: xs ++ ys) -> is_Some (m !! t) -> (length xs + length ys < fuel)%nat ->
  wp (restore_loop cmp fuel t a b m) (restored t xs ys m).
Proof.
  revert t xs ys a b m. induction fuel as [|fuel IH]; intros t xs ys a b m Hx Hy Hnd Ht Hf; [lia|].
  destruct xs as [|x xs].
  { simpl in Hx. subst a. apply wp_ok. apply restored_end; [by destruct ys|done]. }
  destruct ys as [|y ys].
  { simpl in Hy. subst b. destruct Hx as (-> & Hsx & Hx). apply wp_ok.
    apply restored_end; [by rewrite list_merge_nil_r, app_nil_r|by rewrite app_nil_r]. }
  pose proof Hx as (-> & Hsx & Hxt). pose proof Hy as (-> & Hsy & Hyt). cbn [restore_loop].
  apply NoDup_cons in Hnd as [Htn Hnd].
  destruct (Z.leb_spec (cmp x y) 0) as [Hle|Hgt].
  - assert (E : list_merge leb (x :: xs) (y :: ys) = x :: list_merge leb xs (y :: ys)).
    { simpl. by rewrite decide_True. }
    apply bind_assoc_wp. eapply wp_bind_mono; [by apply join_ok|]. intros m1 [Hl Hch].
    apply wp_bind, hget_nx; [by apply (ch_dom _ _ _ _ Hch)|]. intros n -> _. rewrite (ch_nx _ _ _ _ Hch) by set_solver.
    eapply wp_mono; [apply (IH x xs (y :: ys)); [| |done|by apply (ch_dom _ _ _ _ Hch)|simpl in *; lia]|].
    + eapply lch_changed; [exact Hch|set_solver|done].
    + eapply (lch_changed _ _ _ _ (Some y) (y :: ys)); [exact Hch|set_solver|done].
    + intros r. apply NoDup_cons in Hnd as [Hxn _]. by eapply restored_step; try done; destruct xs.
  - assert (E : list_merge leb (x :: xs) (y :: ys) = y :: list_merge leb (x :: xs) ys).
    { simpl. rewrite decide_False; [done|]. unfold leb. lia. }
    apply bind_assoc_wp. eapply wp_bind_mono; [by apply join_ok|]. intros m1 [Hl Hch].
    apply wp_bind, hget_nx; [by apply (ch_dom _ _ _ _ Hch)|]. intros n -> _. rewrite (ch_nx _ _ _ _ Hch) by set_solver.
    cbn [app] in Hnd. rewrite Permutation_middle_cons in Hnd.
    eapply wp_mono; [apply (IH y (x :: xs) ys); [| |done|by apply (ch_dom _ _ _ _ Hch)|simpl in *; lia]|].
    + eapply (lch_changed _ _ _ _ (Some x) (x :: xs)); [exact Hch|set_solver|done].
    + eapply lch_changed; [exact Hch|set_solver|done].
    + intros r. apply NoDup_cons in Hnd as [Hyn _]. eapply restored_step; try done; [set_solver|].
      cbn [app]. by rewrite Permutation_middle_cons.
Qed.

Lemma back_loop_ok fuel t x xs m :
  nx m t = Some x -> lch m (Some x) (x :: xs) -> NoDup (t :: x :: xs) -> is_Some (m !! t) -> (length xs < fuel)%nat ->
  wp (back_loop fuel t m) (fun r => path r.1 (t :: x :: xs) /\ r.2 = List.last xs x /\ changed [] (x :: xs) m r.1).
Proof.
  revert t x xs m. induction fuel as [|fuel IH]; intros t x xs m Hn Hc Hnd Ht Hf; [lia|].
  cbn [back_loop]. apply wp_bind, hget_nx; [done|]. intros n -> _. rewrite Hn. cbn [deref mbind res_bind].
  destruct Hc as (_ & Hsx & Hc).
  eapply wp_bind_mono; [by apply set_prev_ok|]. intros m1 W1.
  assert (Hch : changed [] [x] m m1).
  { split; [intros b _; apply (wp_nx _ _ _ _ W1)| |apply (wp_dom _ _ _ _ W1)|apply (wp_size _ _ _ _ W1)].
    intros b Hb. apply (wp_ne _ _ _ _ W1). set_solver. }
  assert (Hl : link m1 t x).
  { split; [rewrite (wp_nx _ _ _ _ W1); done|apply (wp_eq _ _ _ _ W1)]. }
  apply wp_bind, hget_nx; [by apply (wp_dom _ _ _ _ W1)|]. intros n1 -> _. rewrite (wp_nx _ _ _ _ W1).
  destruct xs as [|y xs].
  - simpl in Hc. rewrite Hc. apply wp_ok. split; [by split|]. split; [done|]. by eapply changed_weaken.
  - pose proof Hc as (-> & _ & _). apply NoDup_cons in Hnd as [Htn Hnd]. pose proof Hnd as [Hxn _]%NoDup_cons.
    eapply wp_mono; [apply (IH x y xs m1)|].
    + rewrite (wp_nx _ _ _ _ W1). by destruct Hc.
    + eapply lch_changed; [exact Hch|set_solver|]. by destruct Hc as (_ & ? & ?).
    + done.
    + by apply (wp_dom _ _ _ _ W1).
    + simpl in *. lia.
    + intros [m2 t2] (Hp & Hlast & Hch2). cbn [fst snd] in *. split; [|split].
      * split; [|done]. destruct Hl as [A B]. split; [by rewrite (ch_nx _ _ _ _ Hch2) by set_solver|].
        by rewrite (ch_pv _ _ _ _ Hch2).
      * by rewrite last_cons.
      * eapply changed_trans; [exact Hch|exact Hch2|set_solver|set_solver].
Qed.

Lemma path_join m l1 a l2 : path m (l1 ++ [a]) -> path m (a :: l2) -> path m (l1 ++ a :: l2).
Proof. intros H1 H2. by apply path_app. Qed.

(** A list ends with its last element. *)
Lemma snoc_last {A} (x : A) xs : exists l, x :: xs = l ++ [List.last xs x].
Proof.
  revert x. induction xs as [|y xs IH]; intros x; [by exists []|]. destruct (IH y) as [l Hl]. exists (x :: l).
  rewrite last_cons. cbn [app]. by rewrite <- Hl.
Qed.

(** The list is closed: [tail->next = head; head->prev = tail]. *)
Lemma close_ok h l e m :
  path m (h :: l ++ [e]) -> NoDup (h :: l ++ [e]) -> is_Some (m !! e) -> is_Some (m !! h) ->
  wp (m ← set_next e (Some h) m; set_prev h (Some e) m) (fun m' =>
    dll m' h (l ++ [e]) /\ changed [e] [h] m m').
Proof.
  intros Hp Hnd He Hh. eapply wp_mono; [by apply join_ok|]. intros m' [Hl Hch]. split; [|done]. split; [done|].
  rewrite <- app_assoc. cbn [app]. rewrite app_comm_cons. apply path_link. split; [|by split].
  apply NoDup_cons in Hnd as [Hhn Hnd]. apply NoDup_app in Hnd as (_ & Hd & _).
  eapply path_changed; [exact Hch| | |exact Hp].
  - rewrite removelast_last. intros z Hz ->%list_elem_of_singleton.
    apply elem_of_cons in Hz as [->|Hz]; [set_solver|]. apply (Hd e Hz). by left.
  - cbn [tail]. set_solver.
Qed.

Lemma merge_and_restore_ok h a b xs ys m :
  lch m a xs -> lch m b ys -> NoDup (h :: xs ++ ys) -> is_Some (m !! h) -> xs ++ ys <> [] ->
  wp (merge_and_restore_back_links cmp h a b m) (fun m' =>
    dll m' h (list_merge leb xs ys) /\ changed (h :: xs ++ ys) (h :: xs ++ ys) m m').
Proof.
  intros Hx Hy Hnd Hh Hne. unfold merge_and_restore_back_links.
  assert (Hperm : list_merge leb xs ys ≡ₚ xs ++ ys) by apply merge_Permutation.
  pose proof Hnd as [Hhn Hnd']%NoDup_cons.
  eapply wp_bind_mono; [apply (restore_loop_ok _ h xs ys); try done|].
  { rewrite <- length_app, <- size_dom. apply Nat.lt_succ_r.
    rewrite <- (size_list_to_set (C := gset addr) (xs ++ ys)) by done. apply subseteq_size.
    intros l [Hl|Hl]%elem_of_list_to_set%elem_of_app; apply elem_of_dom; [by apply (lch_dom m a xs)|by apply (lch_dom m b ys)]. }
  intros [[m1 t] p] (zs & rest & E & Hpath & Hlast & Hc & Hr & Hch). cbn [fst snd] in *. specialize (Hr Hne).
  destruct rest as [|x rest]; [done|]. rewrite E in Hperm. rewrite E.
  assert (Hnz : NoDup (h :: zs ++ x :: rest)) by (by rewrite Hperm).
  destruct (snoc_last h zs) as [l Hl]. rewrite <- Hlast in Hl.
  assert (Htin : t ∈ h :: zs) by (rewrite Hl; set_solver).
  assert (Hnt : NoDup (t :: x :: rest)).
  { rewrite app_comm_cons, Hl in Hnz. rewrite <- app_assoc in Hnz. by apply NoDup_app in Hnz as (_ & _ & ?). }
  assert (Hdis : forall z, z ∈ x :: rest -> z ∉ h :: zs).
  { rewrite app_comm_cons in Hnz. apply NoDup_app in Hnz as (_ & Hd & _). intros z Hz Hz'. by apply (Hd z). }
  assert (Hst : is_Some (m1 !! t)).
  { apply (ch_dom _ _ _ _ Hch). apply elem_of_cons in Htin as [->|Htz]; [done|].
    assert (t ∈ xs ++ ys) as [?|?]%elem_of_app by (rewrite <- Hperm; set_solver);
      [by apply (lch_dom m a xs)|by apply (lch_dom m b ys)]. }
  eapply wp_bind_mono; [by apply set_next_ok|]. intros m2 W2. destruct Hc as (-> & Hsx & Hc).
  assert (Hch2 : changed [t] [] m1 m2).
  { split; [intros z Hz; apply (wn_ne _ _ _ _ W2); set_solver|intros z _; apply (wn_pv _ _ _ _ W2)| |].
    - apply (wn_dom _ _ _ _ W2).
    - apply (wn_size _ _ _ _ W2). }
  assert (Hc2 : lch m2 (Some x) (x :: rest)).
  { eapply (lch_changed _ _ _ _ (Some x) (x :: rest)); [exact Hch2| |done].
    apply NoDup_cons in Hnt as [Htx _]. set_solver. }
  eapply wp_bind_mono; [apply (back_loop_ok _ t x rest m2)|].
  { apply (wn_eq _ _ _ _ W2). } { done. } { done. } { by apply (wn_dom _ _ _ _ W2). }
  { rewrite <- size_dom. rewrite Nat.lt_succ_r. apply NoDup_cons in Hnt as [_ Hnt]. apply NoDup_cons in Hnt as [_ Hnt].
    rewrite <- (size_list_to_set (C := gset addr) rest) by done. apply subseteq_size.
    intros z Hz%elem_of_list_to_set. apply elem_of_dom, (lch_dom _ _ _ z Hc2). by right. }
  intros [m3 e] (Hp3 & He & Hch3). cbn [fst snd] in *. subst e.
  assert (Hxs : x :: rest <> []) by done.
  assert (Hhr : forall z, z ∈ x :: rest -> z <> h) by (intros z Hz ->; apply (Hdis h Hz); by left).
  assert (Hp1 : path m3 (h :: zs)).
  { eapply (path_changed [t] [] m1 m2) in Hpath; [|done| |set_solver].
    - eapply path_changed; [exact Hch3|set_solver| |exact Hpath]. cbn [tail]. intros z Hz Hz'. apply (Hdis z Hz'). by right.
    - rewrite Hl, removelast_last. rewrite app_comm_cons, Hl, <- app_assoc in Hnz. apply NoDup_app in Hnz as (_ & Hd & _).
      intros z Hz ->%list_elem_of_singleton. apply (Hd t Hz). by left. }
  destruct (snoc_last x rest) as [l2 Hl2].
  assert (Eall : h :: zs ++ x :: rest = h :: (zs ++ l2) ++ [List.last rest x]) by (by rewrite Hl2, app_assoc).
  assert (Hlx : List.last rest x ∈ x :: rest) by (rewrite Hl2; set_solver).
  assert (Hdom : forall z, z ∈ h :: zs ++ x :: rest -> is_Some (m3 !! z)).
  { intros z Hz. apply (ch_dom _ _ _ _ Hch3), (ch_dom _ _ _ _ Hch2), (ch_dom _ _ _ _ Hch).
    rewrite Hperm in Hz. apply elem_of_cons in Hz as [->|[Hz|Hz]%elem_of_app]; [done| |];
      [by apply (lch_dom m a xs)|by apply (lch_dom m b ys)]. }
  eapply wp_mono; [apply (close_ok h (zs ++ l2) (List.last rest x) m3)|].
  - rewrite <- Eall, app_comm_cons, Hl, <- app_assoc. cbn [app]. apply path_join; [by rewrite <- Hl|done].
  - by rewrite <- Eall.
  - apply Hdom. set_solver.
  - apply Hdom. set_solver.
  - intros m4 [Hd Hch4]. injection Eall as Eall. rewrite Eall. split; [done|].
    assert (Hin : forall z, z ∈ zs ++ x :: rest -> z ∈ xs ++ ys) by (intros z; by rewrite Hperm).
    assert (Hin' : forall z, z ∈ h :: zs -> z ∈ h :: xs ++ ys) by (intros z [->|Hz]%elem_of_cons; set_solver).
    eapply (changed_trans (h :: xs ++ ys) (h :: xs ++ ys) _ _ _ _ _ m3); [|exact Hch4| |]; [|set_solver..].
    eapply (changed_trans (h :: xs ++ ys) (xs ++ ys) _ _ _ _ _ m2); [|exact Hch3| |]; [|set_solver..].
    eapply changed_trans; [exact Hch|exact Hch2| |]; set_solver.
Qed.

(** ** The partial lists *)

(** The pointers to the partial lists. *)
Lemma get_part_at pre p ps : get_part (pre ++ p :: ps) (length pre) = Ok p.
Proof. unfold get_part. by rewrite list_lookup_middle. Qed.

Lemma parts_relinked S m m' part parts :
  relinked S m m' -> (forall x, x ∈ concat parts -> x ∉ S) -> Forall2 (lch m) part parts -> Forall2 (lch m') part parts.
Proof.
  intros Hr Hd Hf. induction Hf as [|p c part parts Hc Hf IH]; constructor.
  - eapply lch_relinked; [exact Hr| |done]. intros x Hx. apply Hd. simpl. set_solver.
  - apply IH. intros x Hx. apply Hd. simpl. set_solver.
Qed.

(** ** The loops of [list_sort()] *)

Lemma relinked_weaken S S' m m' : relinked S m m' -> (forall x, x ∈ S -> x ∈ S') -> relinked S' m m'.
Proof. intros [A B C D] HS. split; [|done..]. intros b Hb. apply A. auto. Qed.

(** What the carry loop returns: one more assignment and the parts are
    those of [fcarry]. *)
Definition carried (pre : list (option addr)) (c : list addr) (fps : list (list addr)) (m : heap)
    (r : nat * option addr * list (option addr) * heap) : Prop :=
  exists ps', <[r.1.1.1 := r.1.1.2]> r.1.2 = pre ++ ps' /\ r.1.1.1 = (length pre + first_empty fps)%nat /\
    Forall2 (lch r.2) ps' (fcarry c fps) /\ relinked (c ++ concat fps) m r.2.

Lemma carry_loop_ok fuel pre ps fps cur c m :
  Forall2 (lch m) ps fps -> lch m cur c -> NoDup (c ++ concat fps) -> has_room fps -> (length ps <= fuel)%nat ->
  wp (carry_loop cmp fuel (length pre) cur (pre ++ ps) m) (carried pre c fps m).
Proof.
  intros Hf. revert fuel pre ps cur c m Hf. induction fps as [|q fps IH]; intros fuel pre ps cur c m Hf Hc Hnd Hr Hl.
  { by apply Exists_nil in Hr. }
  apply Forall2_cons_inv_r in Hf as (p & ps' & Hp & Hf & ->).
  assert (Hg : get_part (pre ++ p :: ps') (length pre) = Ok p) by apply get_part_at.
  destruct fuel as [|fuel]; [simpl in Hl; lia|]. cbn [carry_loop]. rewrite Hg. cbn [mbind res_bind].
  destruct q as [|x q].
  - simpl in Hp. subst p. apply wp_ok. exists (cur :: ps'). cbn [fst snd first_empty].
    split; [by rewrite insert_app_r_alt, Nat.sub_diag by lia|]. split; [lia|]. split; [by constructor|apply relinked_refl].
  - pose proof Hp as (-> & _). apply Exists_cons in Hr as [?|Hr]; [done|].
    assert (Hnd1 : NoDup ((x :: q) ++ c)).
    { rewrite concat_cons, app_assoc in Hnd. apply NoDup_app in Hnd as (Hnd & _ & _).
      by rewrite Permutation_app_comm. }
    eapply wp_bind_mono; [by apply (merge_ok m (Some x) cur (x :: q) c)|]. intros [m1 cur1] [Hc1 Hr1].
    cbn [fst snd] in *. rewrite insert_app_r_alt, Nat.sub_diag by lia. cbn [insert list_insert].
    replace (pre ++ None :: ps') with ((pre ++ [None]) ++ ps') by (by rewrite <- app_assoc).
    replace (S (length pre)) with (length (pre ++ [None : option addr])) by (rewrite length_app; simpl; lia).
    assert (Hperm : list_merge leb (x :: q) c ++ concat fps ≡ₚ c ++ concat ((x :: q) :: fps)).
    { rewrite (merge_Permutation leb (x :: q) c), concat_cons, (Permutation_app_comm (x :: q) c). by rewrite app_assoc. }
    eapply wp_mono; [apply (IH fuel (pre ++ [None]) ps' cur1 (list_merge leb (x :: q) c) m1);
      [|done|by rewrite Hperm|done|simpl in Hl; lia]|].
    + eapply parts_relinked; [exact Hr1| |done]. rewrite concat_cons, app_assoc in Hnd.
      apply NoDup_app in Hnd as (_ & Hd & _). intros z Hz Hz'. apply (Hd z); [set_solver|done].
    + intros [[[lev cur'] part'] m'] (ps2 & E & Hlev & Hf2 & Hr2). cbn [fst snd] in *. exists (None :: ps2).
      cbn [fst snd first_empty]. split; [by rewrite E, <- app_assoc|].
      split; [rewrite Hlev, length_app; simpl; lia|]. split; [by constructor|].
      eapply relinked_trans; [exact Hr1|exact Hr2|]. intros z [Hz|Hz].
      * rewrite concat_cons. set_solver.
      * by rewrite <- Hperm.
Qed.

Definition used (ml : nat) (parts : list (list addr)) : Prop := exists p, parts !! ml = Some p /\ p <> [].

(** [max_lev] is the last level that is in use. *)
Record top (ml : nat) (parts : list (list addr)) : Prop := {
  top_above i p : (ml < i)%nat -> parts !! i = Some p -> p = [];
  top_at : ml <> 0%nat -> used ml parts;
}.

Lemma top_step ml c parts :
  top ml parts -> has_room parts -> c <> [] ->
  let ml' := if (ml <? first_empty parts)%nat then first_empty parts else ml in
  top ml' (fcarry c parts) /\ used ml' (fcarry c parts).
Proof.
  intros [Ha Ht] Hr Hc. cbv zeta. destruct (fcarry_at c parts Hr Hc) as (q & Hq & Hqn).
  destruct (Nat.ltb_spec ml (first_empty parts)) as [Hlt|Hge].
  - split; [|by exists q]. split; [|by exists q]. intros i p Hi. rewrite fcarry_above by done. apply Ha. lia.
  - assert (Hx : exists p, fcarry c parts !! ml = Some p /\ p <> []).
    { destruct (decide (ml = first_empty parts)) as [->|Hne]; [by exists q|].
      rewrite fcarry_above by lia. apply Ht. lia. }
    split; [|done]. split; [|done]. intros i p Hi. rewrite fcarry_above by lia. by apply Ha.
Qed.

(** One element is taken from the list and carried into the parts. *)
Lemma insert_step x xs part parts m :
  Forall2 (lch m) part parts -> lch m (Some x) (x :: xs) -> NoDup (concat parts ++ x :: xs) -> has_room parts ->
  wp (m ← set_next x None m; carry_loop cmp (S (length part)) 0 (Some x) part m) (fun r =>
    r.1.1.1 = first_empty parts /\ Forall2 (lch r.2) (<[r.1.1.1 := r.1.1.2]> r.1.2) (finsert parts x) /\
    lch r.2 (nx m x) xs /\ relinked (concat parts ++ x :: xs) m r.2).
Proof.
  intros Hf (_ & Hsx & Hp) Hnd Hroom. eapply wp_bind_mono; [by apply set_next_ok|]. intros m1 W1.
  pose proof (wrote_relinked _ _ _ _ W1) as Hr1.
  assert (Hperm : [x] ++ concat parts ++ xs ≡ₚ concat parts ++ x :: xs) by (by rewrite <- Permutation_middle).
  rewrite <- Hperm in Hnd. pose proof Hnd as (_ & Hd & _)%NoDup_app.
  rewrite app_assoc in Hnd. apply NoDup_app in Hnd as (Hndc & Hd2 & _).
  assert (Hc1 : lch m1 (Some x) [x]).
  { split; [done|]. split; [by apply (rl_dom _ _ _ Hr1)|]. apply (wn_eq _ _ _ _ W1). }
  eapply wp_mono; [apply (carry_loop_ok _ [] part parts (Some x) [x] m1); [|done|done|done|lia]|].
  { eapply parts_relinked; [exact Hr1| |done]. intros z Hz Hz'. apply (Hd z Hz'). set_solver. }
  intros [[[lev cur] part'] m2] (ps' & E & Hlev & Hf2 & Hr2). cbn [fst snd length Nat.add app] in *.
  split; [done|]. split; [by rewrite E|]. split.
  - eapply lch_relinked; [exact Hr2| |eapply lch_relinked; [exact Hr1| |done]].
    + intros z Hz Hz'. by apply (Hd2 z).
    + intros z Hz Hz'. apply (Hd z Hz'). set_solver.
  - eapply relinked_trans; [exact Hr1|exact Hr2|]. set_solver.
Qed.

Lemma insert_loop_ok fuel p xs part parts ml m :
  Forall2 (lch m) part parts -> lch m p xs -> NoDup (concat parts ++ xs) -> sized 0 parts -> top ml parts ->
  (length (concat parts) + length xs < 2 ^ length parts)%nat -> (length xs < fuel)%nat ->
  wp (insert_loop cmp fuel p part ml m) (fun '(part', ml', m') =>
    Forall2 (lch m') part' (foldl finsert parts xs) /\ top ml' (foldl finsert parts xs) /\
    (used ml parts \/ xs <> [] -> used ml' (foldl finsert parts xs)) /\
    concat (foldl finsert parts xs) ≡ₚ concat parts ++ xs /\ relinked (concat parts ++ xs) m m').
Proof.
  revert p xs part parts ml m. induction fuel as [|fuel IH]; intros p xs part parts ml m Hf Hp Hnd Hs Ht Hlen Hfuel; [lia|].
  destruct xs as [|x xs].
  { simpl in Hp. subst p. apply wp_ok. cbn [foldl]. rewrite app_nil_r.
    split; [done|]. split; [done|]. split; [by intros [?|?]|]. split; [done|apply relinked_refl]. }
  pose proof Hp as (-> & Hsx & _). cbn [insert_loop]. apply wp_bind, hget_nx; [done|]. intros n -> _.
  assert (Hroom : has_room parts) by (apply has_room_bound; [done|simpl in Hlen; lia]).
  apply bind_assoc_wp. eapply wp_bind_mono; [by apply (insert_step x xs part parts m)|].
  intros [[[lev cur] part'] m2] (Hlev & Hf2 & Hp2 & Hr2). cbn [fst snd] in *. subst lev.
  destruct (top_step ml [x] parts Ht Hroom ltac:(done)) as [Ht2 Hx2].
  pose proof (finsert_perm parts x xs Hroom) as Hcp.
  eapply wp_mono; [apply (IH (nx m x) xs _ (finsert parts x) _ m2); [exact Hf2|exact Hp2| | |exact Ht2| |]|].
  - by rewrite Hcp.
  - by apply fcarry_sized.
  - unfold finsert at 2. rewrite fcarry_length, <- length_app, Hcp, length_app. done.
  - simpl in Hfuel. lia.
  - intros [[part3 ml3] m3] (Hf3 & Ht3 & Hne3 & Hp3 & Hr3). cbn [foldl].
    split; [done|]. split; [done|]. split; [intros _; apply Hne3; by left|]. split; [by rewrite Hp3|].
    eapply relinked_trans; [exact Hr2|exact Hr3|]. intros z. rewrite Hcp. by intros [?|?].
Qed.

(** *** A list that is too long *)

(** When every level is in use, the carry leaves the array. *)
Lemma carry_loop_full fuel pre ps fps cur c m :
  Forall2 (lch m) ps fps -> lch m cur c -> NoDup (c ++ concat fps) -> ~ has_room fps -> (length ps <= fuel)%nat ->
  carry_loop cmp fuel (length pre) cur (pre ++ ps) m = Err OutOfBounds.
Proof.
  intros Hf. revert fuel pre ps cur c m Hf. induction fps as [|q fps IH]; intros fuel pre ps cur c m Hf Hc Hnd Hr Hl.
  { apply Forall2_nil_inv_r in Hf as ->. rewrite app_nil_r. destruct fuel; cbn [carry_loop]; unfold get_part;
      by rewrite lookup_ge_None_2. }
  apply Forall2_cons_inv_r in Hf as (p & ps' & Hp & Hf & ->).
  destruct fuel as [|fuel]; [simpl in Hl; lia|]. cbn [carry_loop]. rewrite get_part_at. cbn [mbind res_bind].
  destruct q as [|x q]; [exfalso; apply Hr; by left|]. pose proof Hp as (-> & _).
  assert (Hr' : ~ has_room fps) by (intros H; apply Hr; by right).
  assert (Hnd1 : NoDup ((x :: q) ++ c)).
  { rewrite concat_cons, app_assoc in Hnd. apply NoDup_app in Hnd as (Hnd & _ & _).
    by rewrite Permutation_app_comm. }
  pose proof (merge_ok m (Some x) cur (x :: q) c Hp Hc Hnd1) as Hm. apply wp_inv in Hm as ([m1 cur1] & -> & Hc1 & Hr1).
  cbn [mbind res_bind fst snd] in *. rewrite insert_app_r_alt, Nat.sub_diag by lia. cbn [insert list_insert].
  replace (pre ++ None :: ps') with ((pre ++ [None]) ++ ps') by (by rewrite <- app_assoc).
  replace (S (length pre)) with (length (pre ++ [None : option addr])) by (rewrite length_app; simpl; lia).
  apply (IH fuel (pre ++ [None]) ps' cur1 (list_merge leb (x :: q) c) m1);
    [|done| |done|simpl in Hl; lia].
  - eapply parts_relinked; [exact Hr1| |done]. rewrite concat_cons, app_assoc in Hnd.
    apply NoDup_app in Hnd as (_ & Hd & _). intros z Hz Hz'. apply (Hd z); [set_solver|done].
  - rewrite (merge_Permutation leb (x :: q) c), (Permutation_app_comm (x :: q) c), <- app_assoc. exact Hnd.
Qed.

Lemma insert_loop_full fuel p xs part parts ml m :
  Forall2 (lch m) part parts -> lch m p xs -> NoDup (concat parts ++ xs) -> sized 0 parts ->
  (2 ^ length parts <= length (concat parts) + length xs)%nat -> (length xs < fuel)%nat ->
  insert_loop cmp fuel p part ml m = Err OutOfBounds.
Proof.
  revert p xs part parts ml m. induction fuel as [|fuel IH]; intros p xs part parts ml m Hf Hp Hnd Hs Hlen Hfuel; [lia|].
  destruct xs as [|x xs]; [pose proof (sized_bound 0 parts Hs); simpl in *; lia|].
  pose proof Hp as (-> & [nd Hnd0] & _). cbn [insert_loop]. unfold hget. rewrite Hnd0. cbn [mbind res_bind].
  destruct (Exists_dec (fun p : list addr => p = []) parts) as [Hroom|Hfull].
  - pose proof (insert_step x xs part parts m Hf Hp Hnd Hroom) as H.
    destruct (set_next x None m) as [m1|]; [|done]. cbn [mbind res_bind] in *.
    apply wp_inv in H as ([[[lev cur] part'] m2] & -> & Hlev & Hf2 & Hp2 & Hr2).
    cbn [mbind res_bind fst snd] in *. subst lev.
    pose proof (finsert_perm parts x xs Hroom) as Hcp. pose proof (Permutation_length Hcp) as Hcl.
    rewrite !length_app in Hcl. cbn [length] in *.
    assert (Enx : next nd = nx m x) by (unfold nx; by rewrite Hnd0). rewrite Enx.
    apply (IH (nx m x) xs _ (finsert parts x) _ m2); [exact Hf2|exact Hp2|by rewrite Hcp|by apply fcarry_sized| |lia].
    unfold finsert at 1. rewrite fcarry_length. lia.
  - pose proof (set_next_ok x None m) as H. rewrite Hnd0 in H. specialize (H ltac:(by eexists)).
    apply wp_inv in H as (m1 & -> & W1). cbn [mbind res_bind]. pose proof (wrote_relinked _ _ _ _ W1) as Hr1.
    assert (Hndx : NoDup ([x] ++ concat parts)).
    { rewrite <- Permutation_middle, app_comm_cons in Hnd. by apply NoDup_app in Hnd as (? & _ & _). }
    pose proof (carry_loop_full (S (length part)) [] part parts (Some x) [x] m1) as H. cbn [length app] in H.
    rewrite H; [done| | |done|done|lia].
    + eapply parts_relinked; [exact Hr1| |done]. apply NoDup_app in Hndx as (_ & Hd & _). intros z Hz Hz'. by apply (Hd z).
    + split; [done|]. split; [apply (rl_dom _ _ _ Hr1); by eexists|]. apply (wn_eq _ _ _ _ W1).
Qed.

(** The parts below [max_lev] are merged into one list. *)
Lemma collect_parts_ok part parts ml m :
  Forall2 (lch m) part parts -> NoDup (concat parts) -> (ml <= length parts)%nat ->
  wp (collect_parts cmp part ml m) (fun '(p, m') =>
    lch m' p (fcollect (take ml parts)) /\ relinked (concat (take ml parts)) m m').
Proof.
  intros Hf Hnd Hml. unfold collect_parts. pose proof (Forall2_length _ _ _ Hf) as Hlen.
  change 0 with (Z.of_nat 0).
  apply (for_range_inv (fun k '(p, m') => lch m' p (fcollect (take k parts)) /\ relinked (concat (take k parts)) m m'));
    [lia|by split; [|apply relinked_refl]|].
  intros k [p m1] Hk [Hp Hr]. rewrite Nat2Z.id.
  destruct (lookup_lt_is_Some_2 parts k ltac:(lia)) as [c Hc]. destruct (lookup_lt_is_Some_2 part k ltac:(lia)) as [q Hq].
  unfold get_part. rewrite Hq. cbn [mbind res_bind]. pose proof (Forall2_lookup_lr _ _ _ _ _ _ Hf Hq Hc) as Hqc.
  rewrite (take_S_collect _ _ _ Hc), (take_S_r _ _ _ Hc), concat_app. cbn [concat]. rewrite app_nil_r.
  assert (Hnd2 : NoDup (concat (take k parts) ++ c)).
  { rewrite (concat_take_drop (S k)), (take_S_r _ _ _ Hc), concat_app in Hnd. cbn [concat] in Hnd.
    rewrite app_nil_r in Hnd. by apply NoDup_app in Hnd as (? & _ & _). }
  assert (Hqc1 : lch m1 q c).
  { eapply lch_relinked; [exact Hr| |done]. apply NoDup_app in Hnd2 as (_ & Hd & _). intros z Hz Hz'. by apply (Hd z). }
  assert (Hpm : fcollect (take k parts) ≡ₚ concat (take k parts)) by apply (fcollect_perm []).
  destruct q as [q|].
  - eapply wp_bind_mono; [apply (merge_ok m1 (Some q) p c (fcollect (take k parts))); [done|done|]|].
    { rewrite Hpm. by rewrite Permutation_app_comm. }
    intros [m2 p2] [Hp2 Hr2]. cbn [fst snd] in *. apply wp_ok. split; [done|].
    eapply relinked_trans; [exact Hr|exact Hr2|]. intros z. rewrite !elem_of_app, Hpm. tauto.
  - apply wp_ok. destruct c as [|x c]; [|by destruct Hqc]. split; [by destruct (fcollect (take k parts))|].
    by rewrite app_nil_r.
Qed.

(** [list_sort()] does what the merge sort on lists does. *)
Lemma dll_chain m h xs : dll m h xs -> forall l e, xs = l ++ [e] ->
  forall m1, wrote_next e None m m1 -> lch m1 (nx m1 h) xs.
Proof.
  intros [Hnd Hp] l e E m1 W. assert (Heh : h <> e).
  { intros ->. apply NoDup_cons in Hnd as [Hn _]. apply Hn. rewrite E. set_solver. }
  assert (H : forall a ys, a <> e -> NoDup ys -> path m (a :: ys ++ [h]) -> (exists l, ys = l ++ [e]) -> lch m1 (nx m1 a) ys).
  { clear -W. intros a ys. revert a. induction ys as [|y ys IH]; intros a Hae Hnd Hp [l E]; [by destruct l|].
    destruct Hp as [[Hay _] Hp]. apply NoDup_cons in Hnd as [Hy Hnd].
    split; [rewrite (wn_ne _ _ _ _ W); done|]. 
    assert (Hs : is_Some (m !! y)) by (destruct ys; destruct Hp as [[? _] _]; by eapply nx_some).
    split; [by apply (wn_dom _ _ _ _ W)|]. destruct ys as [|z ys].
    - destruct l as [|? [|? ?]]; injection E as ->; [|done|done]. apply (wn_eq _ _ _ _ W).
    - apply IH; [|done|done|].
      + intros ->. destruct l as [|? l]; [done|]. injection E as <- E. apply Hy. rewrite E. set_solver.
      + destruct l as [|? l]; [done|]. injection E as <- E. by exists l. }
  apply H; [done|by apply NoDup_cons in Hnd as [_ ?]|done|by exists l].
Qed.

Lemma changed_relinked S S' T m m' : relinked S m m' -> (forall x, x ∈ S -> x ∈ S') -> changed S' T m m'.
Proof. intros [A B C D] HS. split; [|by intros b _|done|done]. intros b Hb. apply A. auto. Qed.

(** From the chain of all elements to the sorted list. *)
Lemma sort_chain n h p xs m fuel :
  lch m p xs -> NoDup (h :: xs) -> is_Some (m !! h) -> xs <> [] -> (length xs < 2 ^ n)%nat -> (length xs < fuel)%nat ->
  wp (r ← insert_loop cmp fuel p (replicate n None) 0 m;
      let '(part, max_lev, m) := r in
      r ← collect_parts cmp part max_lev m;
      let '(lst, m) := r in
      q ← get_part part max_lev;
      merge_and_restore_back_links cmp h q lst m) (fun m' =>
    dll m' h (fsort n xs) /\ changed (h :: xs) (h :: xs) m m').
Proof.
  intros Hc Hnd Hh Hne Hlen Hfuel. pose proof Hnd as [Hhx Hnd']%NoDup_cons.
  pose proof (concat_replicate_nil (A := addr) n) as Hconc.
  eapply wp_bind_mono; [apply (insert_loop_ok fuel p xs (replicate n None) (replicate n []) 0 m)|].
  { clear. induction n; by constructor. } { done. } { by rewrite Hconc. } { apply sized_replicate. }
  { split; [|done]. intros i q _ [-> _]%lookup_replicate. done. }
  { by rewrite Hconc, length_replicate. } { done. }
  intros [[part ml] m2] (Hf & Ht & Hu & Hpc & Hr2). rewrite Hconc in Hpc, Hr2. cbn [app] in Hpc, Hr2.
  set (parts := foldl finsert (replicate n []) xs) in *.
  destruct Hu as (c & Hcl & Hcn); [by right|]. assert (Hndc : NoDup (concat parts)) by (by rewrite Hpc).
  assert (Hml : (ml < length parts)%nat) by (by eapply lookup_lt_Some).
  eapply wp_bind_mono; [apply (collect_parts_ok part parts ml m2 Hf Hndc); lia|].
  intros [lst m3] [Hl3 Hr3]. pose proof (Forall2_length _ _ _ Hf) as Hlp.
  destruct (lookup_lt_is_Some_2 part ml ltac:(lia)) as [q Hq]. unfold get_part. rewrite Hq. cbn [mbind res_bind].
  pose proof (Forall2_lookup_lr _ _ _ _ _ _ Hf Hq Hcl) as Hqc.
  assert (Hsub : forall z, z ∈ concat (take ml parts) ++ c -> z ∈ xs).
  { intros z Hz. rewrite <- Hpc, (concat_take_drop (S ml)), (take_S_r _ _ _ Hcl), concat_app. simpl. set_solver. }
  assert (Hndm : NoDup (concat (take ml parts) ++ c)).
  { rewrite (concat_take_drop (S ml)), (take_S_r _ _ _ Hcl), concat_app in Hndc. cbn [concat] in Hndc.
    rewrite app_nil_r in Hndc. by apply NoDup_app in Hndc as (? & _ & _). }
  pose proof (fcollect_perm [] (take ml parts)) as Hpm. fold (fcollect (take ml parts)) in Hpm. cbn [app] in Hpm.
  eapply wp_mono; [apply (merge_and_restore_ok h q lst c (fcollect (take ml parts)) m3)|].
  - eapply lch_relinked; [exact Hr3| |done]. apply NoDup_app in Hndm as (_ & Hd & _). intros z Hz Hz'. by apply (Hd z).
  - done.
  - rewrite Hpm, Permutation_app_comm. apply NoDup_cons. split; [|done]. intros H. by apply Hhx, Hsub.
  - apply (rl_dom _ _ _ Hr3), (rl_dom _ _ _ Hr2), Hh.
  - by destruct c.
  - intros m4 [Hd4 Hch]. split.
    + unfold fsort. fold parts. rewrite (fcollect_split parts ml c Hcl (top_above _ _ Ht)). exact Hd4.
    + assert (C2 : changed (h :: xs) (h :: xs) m m2) by (eapply changed_relinked; [exact Hr2|set_solver]).
      assert (C3 : changed (h :: xs) (h :: xs) m2 m3).
      { eapply changed_relinked; [exact Hr3|]. intros z Hz. right. apply Hsub. set_solver. }
      assert (C4 : changed (h :: xs) (h :: xs) m3 m4).
      { assert (Hin : forall z, z ∈ h :: c ++ fcollect (take ml parts) -> z ∈ h :: xs).
        { intros z. rewrite Hpm, (Permutation_app_comm c). intros [->|Hz]%elem_of_cons; [by left|right; by apply Hsub]. }
        eapply changed_weaken; [exact Hch|done|done]. }
      eapply changed_trans; [eapply changed_trans; [exact C2|exact C3| |]|exact C4| |]; intros z; try (by intros [?|?]);
        reflexivity.
Qed.

(** The list is cut: from here on it is a chain. *)
Lemma cut_ok h x xs m :
  dll m h (x :: xs) ->
  exists m1, lch m1 (nx m1 h) (x :: xs) /\ is_Some (m1 !! h) /\ relinked (x :: xs) m m1 /\
    (length (x :: xs) < S (size m1))%nat /\
    forall k : option addr -> heap -> res heap,
      (hd ← hget m h; last ← deref (prev hd); m ← set_next last None m; hd ← hget m h; k (next hd) m) = k (nx m1 h) m1.
Proof.
  intros Hd. pose proof Hd as [Hnd Hp]. destruct (snoc_last x xs) as [l Hl]. set (e := List.last xs x) in *.
  assert (Hpv : pv m h = Some e).
  { rewrite Hl, <- app_assoc in Hp. cbn [app] in Hp. rewrite app_comm_cons in Hp. by apply path_link in Hp as (_ & [_ ?] & _). }
  assert (Hein : e ∈ x :: xs) by (rewrite Hl; set_solver).
  pose proof (set_next_ok e None m (dll_dom _ _ _ _ Hd ltac:(by right))) as W. apply wp_inv in W as (m1 & Em & W).
  pose proof (dll_chain m h _ Hd l e Hl m1 W) as Hc. pose proof (wrote_relinked _ _ _ _ W) as Hr1.
  assert (Hh1 : is_Some (m1 !! h)) by (apply (rl_dom _ _ _ Hr1), (dll_dom _ _ _ _ Hd); by left).
  exists m1. split; [done|]. split; [done|]. split; [|split].
  - eapply relinked_weaken; [exact Hr1|]. by intros z ->%list_elem_of_singleton.
  - rewrite <- size_dom. apply Nat.lt_succ_r. apply NoDup_cons in Hnd as [_ Hnd].
    rewrite <- (size_list_to_set (C := gset addr) (x :: xs)) by done. apply subseteq_size.
    intros z Hz%elem_of_list_to_set. apply elem_of_dom, (rl_dom _ _ _ Hr1), (dll_dom _ _ _ _ Hd). by right.
  - intros k. destruct (dll_dom _ _ _ h Hd ltac:(by left)) as [n Hn]. unfold pv in Hpv.
    rewrite Hn in Hpv. cbn [mbind option_bind] in Hpv. assert (Eh : hget m h = Ok n) by (unfold hget; by rewrite Hn).
    rewrite Eh. cbn [mbind res_bind]. rewrite Hpv. cbn [deref mbind res_bind]. rewrite Em. cbn [mbind res_bind].
    destruct Hh1 as [n1 Hn1]. unfold hget, nx. by rewrite Hn1.
Qed.

Lemma list_sort_ok h xs m :
  dll m h xs -> (length xs < 2 ^ (MAX_LIST_LENGTH_BITS + 1))%nat ->
  wp (list_sort cmp h m) (fun m' => dll m' h (fsort (MAX_LIST_LENGTH_BITS + 1) xs) /\ same_outside (h :: xs) m m').
Proof.
  intros Hd. unfold list_sort. generalize (MAX_LIST_LENGTH_BITS + 1)%nat as k. intros k Hlen.
  pose proof Hd as [Hnd Hp]. rewrite (list_empty_ok _ _ _ Hd). cbn [mbind res_bind].
  destruct xs as [|x xs].
  { rewrite bool_decide_true by done. apply wp_ok. by rewrite fsort_nil. }
  rewrite bool_decide_false by done. destruct (cut_ok h x xs m Hd) as (m1 & Hc & Hh1 & Hr1 & Hsz & Hk).
  cbv zeta. rewrite (Hk (fun p m => r ← insert_loop cmp (S (size m)) p _ 0 m; _)).
  eapply wp_mono; [by apply (sort_chain k h _ (x :: xs) m1)|].
  intros m' [Hd' Hch]. split; [done|]. intros b Hb. rewrite (ch_nx _ _ _ _ Hch), (ch_pv _ _ _ _ Hch) by done.
  split; [|apply (rl_pv _ _ _ Hr1)]. apply (rl_nx _ _ _ Hr1). set_solver.
Qed.

(** One more element than the levels can hold. *)
Lemma list_sort_too_long h xs m :
  dll m h xs -> (2 ^ (MAX_LIST_LENGTH_BITS + 1) <= length xs)%nat -> list_sort cmp h m = Err OutOfBounds.
Proof.
  intros Hd. unfold list_sort. generalize (MAX_LIST_LENGTH_BITS + 1)%nat as k. intros k Hlen.
  pose proof Hd as [Hnd Hp]. rewrite (list_empty_ok _ _ _ Hd). cbn [mbind res_bind].
  pose proof (Nat.pow_nonzero 2 k ltac:(done)) as Hpos.
  destruct xs as [|x xs]; [simpl in Hlen; lia|]. rewrite bool_decide_false by done.
  destruct (cut_ok h x xs m Hd) as (m1 & Hc & Hh1 & Hr1 & Hsz & Hk).
  cbv zeta. rewrite (Hk (fun p m => r ← insert_loop cmp (S (size m)) p _ 0 m; _)).
  rewrite (insert_loop_full _ _ (x :: xs) (replicate k None) (replicate k []) 0 m1); [done| |done| | | |done].
  - clear. induction k; by constructor.
  - rewrite concat_replicate_nil. by apply NoDup_cons in Hnd as [_ ?].
  - apply sized_replicate.
  - by rewrite concat_replicate_nil, length_replicate.
Qed.

End sort.
