(* ===== verification/SongSort.v ===== *)
(** * Sorting songs

    [src/song_sort.c] and [directory_cmp()] of [src/directory.c]: the
    comparison functions that are passed to [list_sort()].  Collation is
    GLib's. *)

From S2P Require Import Prelude CString TagPool TagValue.

Local Open Scope Z_scope.

(** [g_utf8_collate()]: "returns < 0 if str1 compares before str2, 0 if they
    compare equal, > 0 if str1 compares after str2". *)
Class Collate := { g_utf8_collate : cstring -> cstring -> Z }.

(** It is an order of the strings. *)
Class CollateSpec (C : Collate) : Prop := {
  collate_antisym a b : 0 <= g_utf8_collate a b <-> g_utf8_collate b a <= 0;
  collate_trans a b c : g_utf8_collate a b <= 0 -> g_utf8_collate b c <= 0 -> g_utf8_collate a c <= 0;
}.

(** What the comparison reads of [struct song]. *)
Record sort_song := SortSong {
  so_tag : option tag_data;
  so_uri : cstring;
}.

Section song_sort.
Context {C : Collate}.

Definition tag_get_value_checked (tag : option tag_data) (type : tag_type) : option cstring :=
  match tag with Some t => value_of type (td_items t) | None => None end.

Definition compare_utf8_string (a b : option cstring) : Z :=
  match a, b with
  | None, None => 0
  | None, Some _ => -1
  | Some _, None => 1
  | Some a, Some b => g_utf8_collate a b
  end.

Definition compare_string_tag_item (a b : option tag_data) (type : tag_type) : Z :=
  compare_utf8_string (tag_get_value_checked a type) (tag_get_value_checked b type).

(** [ai - bi] is computed as [long] and returned as [int]. *)
Definition compare_number_string (a b : option cstring) : Z :=
  let ai := match a with None => 0 | Some a => (strtol a).1 end in
  let bi := match b with None => 0 | Some b => (strtol b).1 end in
  if ai <=? 0 then (if bi <=? 0 then 0 else -1)
  else if bi <=? 0 then 1
  else i32 (ai - bi).

Definition compare_tag_item (a b : option tag_data) (type : tag_type) : Z :=
  compare_number_string (tag_get_value_checked a type) (tag_get_value_checked b type).

Definition song_cmp (a b : sort_song) : Z :=
  let ret := compare_string_tag_item (so_tag a) (so_tag b) TAG_ALBUM in
  if negb (ret =? 0) then ret else
  let ret := compare_tag_item (so_tag a) (so_tag b) TAG_DISC in
  if negb (ret =? 0) then ret else
  let ret := compare_tag_item (so_tag a) (so_tag b) TAG_TRACK in
  if negb (ret =? 0) then ret else
  g_utf8_collate (so_uri a) (so_uri b).

Definition directory_cmp (path_a path_b : cstring) : Z := g_utf8_collate path_a path_b.

End song_sort.

(** * Sorting songs: proofs

    The comparison of songs is a total preorder as long as the numbers in
    the tags are less than [2^31]; beyond that it is not transitive. *)

(** A comparison function: the sign of [f b a] is opposite, and the order is
    transitive. *)
Record preorder {A} (f : A -> A -> Z) : Prop := {
  pre_sign a b : 0 <= f a b <-> f b a <= 0;
  pre_trans a b c : f a b <= 0 -> f b c <= 0 -> f a c <= 0;
}.

Lemma pre_eq {A} (f : A -> A -> Z) a b : preorder f -> f a b = 0 -> f b a = 0.
Proof. intros [Hs _] H. pose proof (Hs a b). pose proof (Hs b a). lia. Qed.

Lemma pre_total {A} (f : A -> A -> Z) a b : preorder f -> f a b <= 0 \/ f b a <= 0.
Proof. intros [Hs _]. pose proof (Hs a b). lia. Qed.

(** Comparing by a key. *)
Lemma preorder_key {A B} (k : A -> B) (f : B -> B -> Z) : preorder f -> preorder (fun a b => f (k a) (k b)).
Proof. intros [Hs Ht]. split; intros *; [apply Hs|apply Ht]. Qed.

(** Comparing by [f], and by [g] what [f] does not tell apart. *)
Definition then_by {A} (f g : A -> A -> Z) (a b : A) : Z := if negb (f a b =? 0) then f a b else g a b.

Lemma preorder_then {A} (f g : A -> A -> Z) : preorder f -> preorder g -> preorder (then_by f g).
Proof.
  intros Hf Hg. pose proof Hf as [Sf Tf]. pose proof Hg as [Sg Tg]. unfold then_by. split.
  - intros a b. pose proof (Sf a b). pose proof (Sf b a). pose proof (Sg a b).
    destruct (Z.eqb_spec (f a b) 0), (Z.eqb_spec (f b a) 0); simpl; lia.
  - intros a b c. pose proof (Tf a b c). pose proof (Tg a b c). pose proof (Tf c a b). pose proof (Tf b c a).
    pose proof (Sf a b). pose proof (Sf b a). pose proof (Sf b c). pose proof (Sf c b). pose proof (Sf a c). pose proof (Sf c a).
    destruct (Z.eqb_spec (f a b) 0), (Z.eqb_spec (f b c) 0), (Z.eqb_spec (f a c) 0); simpl; lia.
Qed.

Section proofs.
Context {C : Collate} {HC : CollateSpec C}.

Lemma collate_preorder : preorder g_utf8_collate.
Proof using HC. split; [apply collate_antisym|apply collate_trans]. Qed.

Lemma compare_utf8_string_preorder : preorder compare_utf8_string.
Proof using HC.
  pose proof collate_preorder as [Hs Ht]. split.
  - intros [a|] [b|]; simpl; try lia. apply Hs.
  - intros [a|] [b|] [c|]; simpl; try lia. apply Ht.
Qed.

(** Numbers that fit into [int]. *)
Definition small_number (s : option cstring) : Prop :=
  match s with None => True | Some s => (strtol s).1 < 2 ^ 31 end.

(** Numbers that are not positive count as missing. *)
Definition number_of (s : option cstring) : Z :=
  match s with None => 0 | Some s => Z.max 0 (strtol s).1 end.

Lemma compare_number_string_small a b :
  small_number a -> small_number b ->
  (compare_number_string a b <= 0 <-> number_of a <= number_of b) /\
  (0 <= compare_number_string a b <-> number_of b <= number_of a).
Proof using.
  clear HC C. unfold compare_number_string, small_number, number_of.
  assert (H : forall ai bi, ai < 2 ^ 31 -> bi < 2 ^ 31 ->
    let r := if ai <=? 0 then (if bi <=? 0 then 0 else -1) else if bi <=? 0 then 1 else i32 (ai - bi) in
    (r <= 0 <-> Z.max 0 ai <= Z.max 0 bi) /\ (0 <= r <-> Z.max 0 bi <= Z.max 0 ai)).
  { intros ai bi Ha Hb. cbv zeta. destruct (Z.leb_spec ai 0), (Z.leb_spec bi 0); try lia. rewrite i32_small; lia. }
  intros Ha Hb. specialize (H (match a with None => 0 | Some a => (strtol a).1 end)
    (match b with None => 0 | Some b => (strtol b).1 end)).
  destruct a, b; apply H; lia || done.
Qed.

(** The tags of the song hold small numbers. *)
Definition small_song (s : sort_song) : Prop :=
  small_number (tag_get_value_checked (so_tag s) TAG_DISC) /\ small_number (tag_get_value_checked (so_tag s) TAG_TRACK).

Lemma number_preorder (k : { s | small_song s } -> option cstring) :
  (forall s, small_number (k s)) -> preorder (fun a b => compare_number_string (k a) (k b)).
Proof using.
  clear HC C. intros Hk. split.
  - intros a b. destruct (compare_number_string_small (k a) (k b)), (compare_number_string_small (k b) (k a)); try apply Hk. lia.
  - intros a b c. destruct (compare_number_string_small (k a) (k b)), (compare_number_string_small (k b) (k c)),
      (compare_number_string_small (k a) (k c)); try apply Hk. lia.
Qed.

Lemma song_cmp_preorder : preorder (fun a b : { s | small_song s } => song_cmp (`a) (`b)).
Proof using HC.
  set (album (s : { s | small_song s }) := tag_get_value_checked (so_tag (`s)) TAG_ALBUM).
  set (disc (s : { s | small_song s }) := tag_get_value_checked (so_tag (`s)) TAG_DISC).
  set (track (s : { s | small_song s }) := tag_get_value_checked (so_tag (`s)) TAG_TRACK).
  assert (H : preorder (then_by (fun a b => compare_utf8_string (album a) (album b))
    (then_by (fun a b => compare_number_string (disc a) (disc b))
      (then_by (fun a b => compare_number_string (track a) (track b))
        (fun a b => g_utf8_collate (so_uri (`a)) (so_uri (`b))))))); [|exact H].
  repeat apply preorder_then.
  - apply (preorder_key album), compare_utf8_string_preorder.
  - apply number_preorder. intros s. apply (proj2_sig s).
  - apply number_preorder. intros s. apply (proj2_sig s).
  - apply (preorder_key (fun s : { s | small_song s } => so_uri (`s))), collate_preorder.
Qed.

End proofs.

(** The difference of the track numbers does not fit into [int]: three songs
    in a cycle. *)
Definition track_song (n : string) : sort_song := SortSong (Some (TagData 0 false [(TAG_TRACK, lit n)])) (lit "a").

Lemma song_cmp_cycle {C : Collate} :
  song_cmp (track_song "1") (track_song "2000000000") < 0 /\
  song_cmp (track_song "2000000000") (track_song "4000000000") < 0 /\
  song_cmp (track_song "4000000000") (track_song "1") < 0.
Proof. split; [|split]; vm_compute; reflexivity. Qed.
