(* ===== verification/TextFile.v ===== *)
(** * Text files

    [src/text_file.c]: reading a file line by line into a buffer that is
    used again for the next line.  The file is the bytes that are left, none
    of which is a null byte. *)

From S2P Require Import Prelude CString.

Local Open Scope Z_scope.

Definition newline : ascii := char_of 10.
Definition carriage_return : ascii := char_of 13.

(** [g_string_set_size(s, len)] makes room for [len] characters and the null
    byte; GLib decides how much is allocated. *)
Class GString := { g_string_grow : nat -> nat -> nat }.
Class GStringSpec (G : GString) : Prop := {
  grow_room old len : (len < g_string_grow old len)%nat;
  grow_keeps old len : (old <= g_string_grow old len)%nat;
}.

(** The buffer: [len] and [allocated_len]. *)
Record gstring := GStr { gs_len : nat; gs_allocated : nat }.

(** [fgets()]: at most [n] characters, up to a newline. *)
Fixpoint fgets (n : nat) (file : cstring) : cstring * cstring :=
  match n, file with
  | O, _ | _, [] => ([], file)
  | S n, c :: file =>
      if decide (c = newline) then ([c], file)
      else let '(s, rest) := fgets n file in (c :: s, rest)
  end.

Section text_file.
Context {G : GString}.

Definition max_length : nat := Z.to_nat (512 * 1024).
Definition step : nat := Z.to_nat 1024.

Definition g_string_set_size (b : gstring) (len : nat) : gstring := GStr len (g_string_grow (gs_allocated b) len).

(** The loop: what was read, the buffer, and the rest of the file.  [None]
    is the end of the file. *)
Fixpoint read_loop (fuel : nat) (line : cstring) (b : gstring) (file : cstring) : res (option (cstring * gstring * cstring)) :=
  if (gs_len b <? max_length)%nat then
    match fuel with
    | O => Err OutOfFuel
    | S fuel =>
        match fgets (gs_allocated b - length line - 1) file with
        | ([], _) => if (length line =? 0)%nat then Ok None else Ok (Some (line, b, file))
        | (s, rest) =>
            let line := line ++ s in
            if (length s <? step - 1)%nat || bool_decide (List.last line " "%char = newline)
            then Ok (Some (line, b, rest))
            else read_loop fuel line (g_string_set_size b (length line + step)) rest
        end
    end
  else Ok (Some (line, b, file)).

(** [buffer->str[length - 1] == c], and [--length] if so; with [length] zero
    the character before the buffer is read. *)
Definition strip_last (c : ascii) (line : cstring) : res cstring :=
  if (length line =? 0)%nat then Err OutOfBounds
  else Ok (if bool_decide (List.last line " "%char = c) then removelast line else line).

Definition read_text_line (b : gstring) (file : cstring) : res (option (cstring * gstring * cstring)) :=
  let b := if (gs_allocated b <? step)%nat then g_string_set_size b step else b in
  r ← read_loop (S (length file)) [] b file;
  match r with
  | None => Ok None
  | Some (line, b, file) =>
      line ← strip_last newline line;
      line ← strip_last carriage_return line;
      Ok (Some (line, g_string_set_size b (length line), file))
  end.

End text_file.

(** * Text files: proofs

    A line that is not too long is read whole, without its newline, whatever
    the size of the buffer is; an empty line is not. *)

Lemma max_length_eq : Z.of_nat max_length = 524288.
Proof. unfold max_length. by rewrite Z2Nat.id. Qed.
Lemma step_eq : Z.of_nat step = 1024.
Proof. unfold step. by rewrite Z2Nat.id. Qed.
#[global] Opaque max_length step.

Section proofs.
Context {G : GString} {HG : GStringSpec G}.

Lemma fgets_line n l rest :
  newline ∉ l -> (length l < n)%nat -> fgets n (l ++ newline :: rest) = (l ++ [newline], rest).
Proof using.
  clear HG. revert n. induction l as [|c l IH]; intros n Hn Hlen.
  - destruct n as [|n]; [simpl in Hlen; lia|]. cbn [fgets app]. by rewrite decide_True.
  - destruct n as [|n]; [simpl in Hlen; lia|]. apply not_elem_of_cons in Hn as [Hc Hn]. cbn [fgets app take drop].
    rewrite decide_False by congruence. by rewrite IH by (done || (simpl in Hlen; lia)).
Qed.

Lemma fgets_part n l rest :
  newline ∉ l -> (n <= length l)%nat -> fgets n (l ++ newline :: rest) = (take n l, drop n l ++ newline :: rest).
Proof using.
  clear HG. revert l. induction n as [|n IH]; intros l Hn Hlen; [by destruct l|].
  destruct l as [|c l]; [simpl in Hlen; lia|]. apply not_elem_of_cons in Hn as [Hc Hn]. cbn [fgets app take drop].
  rewrite decide_False by congruence. by rewrite IH by (done || (simpl in Hlen; lia)).
Qed.

Lemma last_in {A} (x d : A) s : List.last (x :: s) d ∈ x :: s.
Proof using.
  clear. revert x. induction s as [|y s IH]; intros x; [by left|]. right. apply IH.
Qed.

Lemma last_app_ne {A} (s t : list A) d : t <> [] -> List.last (s ++ t) d = List.last t d.
Proof using.
  clear. intros Ht. induction s as [|x s IH]; [done|]. simpl. rewrite IH. by destruct s, t.
Qed.

(** The loop has read [line], and [l] is left of the line. *)
Lemma read_loop_ok fuel line b l rest :
  newline ∉ l -> (length l < fuel)%nat -> (gs_len b < max_length)%nat ->
  (length line + step <= gs_allocated b)%nat -> (length line + length l + step < max_length)%nat ->
  exists b', read_loop fuel line b (l ++ newline :: rest) = Ok (Some (line ++ l ++ [newline], b', rest)).
Proof using HG.
  revert line b l. induction fuel as [|fuel IH]; intros line b l Hn Hf Hb Ha Hlen; [lia|].
  cbn [read_loop]. rewrite (proj2 (Nat.ltb_lt _ _) Hb). set (n := (gs_allocated b - length line - 1)%nat).
  pose proof step_eq as Hstep.
  destruct (le_lt_dec n (length l)) as [Hle|Hlt].
  - rewrite fgets_part by done. assert (Hln : length (take n l) = n) by (rewrite length_take; lia).
    destruct (take n l) as [|c s] eqn:Et; [simpl in Hln; lia|]. rewrite <- Et in *. cbv zeta.
    rewrite Hln, (proj2 (Nat.ltb_ge n (step - 1))) by lia.
    rewrite last_app_ne by (rewrite Et; done).
    assert (Hlast : List.last (take n l) " "%char ∈ l).
    { eapply elem_of_subseteq; [|rewrite Et; apply last_in]. rewrite <- Et. intros z. apply subseteq_take. }
    rewrite bool_decide_false by (intros E; rewrite E in Hlast; done). cbn [orb].
    destruct (IH (line ++ take n l) (g_string_set_size b (length (line ++ take n l) + step)) (drop n l)) as [b' Hb'].
    + intros H. apply Hn. by apply subseteq_drop in H.
    + rewrite length_drop. lia.
    + cbn [gs_len g_string_set_size]. rewrite length_app. lia.
    + cbn [gs_allocated g_string_set_size].
      pose proof (grow_room (gs_allocated b) (length (line ++ take n l) + step)). lia.
    + rewrite length_app, length_drop. lia.
    + exists b'. rewrite Hb'. do 4 f_equal. rewrite <- app_assoc. f_equal. by rewrite app_assoc, take_drop.
  - rewrite fgets_line by done. destruct (l ++ [newline]) as [|c s] eqn:Et; [by destruct l|]. rewrite <- Et. cbv zeta.
    rewrite !last_app_ne by (done || (rewrite Et; done)). rewrite bool_decide_true, orb_true_r by done.
    exists b. done.
Qed.

(** A line that can be read back. *)
Record good_line (l : cstring) : Prop := {
  line_nonempty : l <> [];
  line_newline : newline ∉ l;
  line_return : List.last l " "%char <> carriage_return;
  line_length : (length l + step < max_length)%nat;
}.

Lemma good_line_len l : good_line l -> (length l < max_length)%nat.
Proof using. clear. intros []. lia. Qed.

Lemma strip_last_newline l : strip_last newline (l ++ [newline]) = Ok l.
Proof using.
  clear. unfold strip_last. rewrite length_app. destruct (Nat.eqb_spec (length l + length [newline]) 0); [simpl in *; lia|].
  rewrite last_app_ne by done. by rewrite bool_decide_true, removelast_last.
Qed.

Lemma read_text_line_ok b l rest :
  good_line l -> (gs_len b < max_length)%nat ->
  exists b', read_text_line b (l ++ newline :: rest) = Ok (Some (l, b', rest)) /\ gs_len b' = length l.
Proof using HG.
  intros [Hne Hn Hr Hlen] Hb. unfold read_text_line.
  set (b0 := if (gs_allocated b <? step)%nat then _ else b).
  assert (Hb0 : (gs_len b0 < max_length)%nat /\ (step <= gs_allocated b0)%nat).
  { unfold b0. destruct (Nat.ltb_spec (gs_allocated b) step); [|done]. cbn [gs_len gs_allocated g_string_set_size].
    pose proof (grow_room (gs_allocated b) step). pose proof max_length_eq. pose proof step_eq. lia. }
  destruct Hb0 as [Hb1 Hb2].
  destruct (read_loop_ok (S (length (l ++ newline :: rest))) [] b0 l rest) as [b' ->]; try done.
  { rewrite length_app. lia. }
  cbn [mbind res_bind app]. rewrite strip_last_newline. cbn [mbind res_bind]. unfold strip_last.
  destruct (Nat.eqb_spec (length l) 0) as [E|_]; [by apply nil_length_inv in E|].
  rewrite bool_decide_false by done. cbn [mbind res_bind]. eexists. done.
Qed.

Lemma read_text_line_eof b : (gs_len b < max_length)%nat -> read_text_line b [] = Ok None.
Proof using HG.
  intros Hb. unfold read_text_line. set (b0 := if (gs_allocated b <? step)%nat then _ else b).
  assert (Hb1 : (gs_len b0 < max_length)%nat).
  { unfold b0. destruct (gs_allocated b <? step)%nat; [|done]. cbn [gs_len g_string_set_size].
    pose proof max_length_eq. pose proof step_eq. lia. }
  cbn [length read_loop]. rewrite (proj2 (Nat.ltb_lt _ _) Hb1). clear -b0.
  destruct (gs_allocated b0 - 0 - 1)%nat; done.
Qed.

(** An empty line: the code reads the character before the buffer. *)
Lemma read_text_line_empty b rest :
  (gs_len b < max_length)%nat -> read_text_line b (newline :: rest) = Err OutOfBounds.
Proof using HG.
  intros Hb. unfold read_text_line. set (b0 := if (gs_allocated b <? step)%nat then _ else b).
  assert (Hb0 : (gs_len b0 < max_length)%nat /\ (step <= gs_allocated b0)%nat).
  { unfold b0. destruct (Nat.ltb_spec (gs_allocated b) step); [|done]. cbn [gs_len gs_allocated g_string_set_size].
    pose proof (grow_room (gs_allocated b) step). pose proof max_length_eq. pose proof step_eq. lia. }
  destruct Hb0 as [Hb1 Hb2].
  destruct (read_loop_ok (S (length (newline :: rest))) [] b0 [] rest) as [b' Hb']; try done; [set_solver|simpl; lia| |].
  { pose proof max_length_eq. pose proof step_eq. simpl. lia. }
  cbn [app] in Hb'. rewrite Hb'. done.
Qed.

End proofs.

(** ** A concrete library *)

#[export] Instance exact_gstring : GString := {| g_string_grow old len := Nat.max old (S len) |}.
#[export] Instance exact_gstring_spec : GStringSpec exact_gstring.
Proof. split; intros old len; unfold g_string_grow, exact_gstring; lia. Qed.
