(* ===== verification/Directory.v ===== *)
(** * The tree of directories

    [src/directory.c], [src/playlist_vector.c] and the songs of [src/song.c]
    that are in the database.  The lists of a directory are Rocq lists: the
    linked lists of [LinkedList] stand for them, and sorting them is
    [MergeSort.sort_list].  The database lock is held by the caller. *)

From S2P Require Import Prelude Err CString TagPool TagValue MergeSort SongSort.

Local Open Scope Z_scope.

(** ** Data *)

(** [struct song]; its parent is the directory that holds it. *)
Record db_song := DbSong {
  ds_uri : cstring;
  ds_tag : option tag_data;
  ds_mtime : Z;
  ds_start_ms : Z;
  ds_end_ms : Z;
}.

Record playlist_metadata := PlaylistMeta { pm_name : cstring; pm_mtime : Z }.

(** What [stat()] said. *)
Record dir_stat := DirStat { inode : Z; device : Z; have_stat : bool }.
Definition no_stat : dir_stat := DirStat 0 0 false.

Inductive directory := Directory {
  path : cstring;
  mtime : Z;
  dstat : dir_stat;
  children : list directory;
  songs : list db_song;
  playlists : list playlist_metadata;
}.

(** [parent == NULL]: [directory_new()] makes sure that only the root has an
    empty path. *)
Definition directory_is_root (d : directory) : bool := bool_decide (path d = []).

Definition directory_is_empty (d : directory) : bool :=
  bool_decide (children d = []) && bool_decide (songs d = []) && bool_decide (playlists d = []).

Definition directory_get_path (d : directory) : cstring := path d.

Definition set_children (c : list directory) (d : directory) : directory :=
  Directory (path d) (mtime d) (dstat d) c (songs d) (playlists d).
Definition set_songs (s : list db_song) (d : directory) : directory :=
  Directory (path d) (mtime d) (dstat d) (children d) s (playlists d).
Definition set_playlists (p : list playlist_metadata) (d : directory) : directory :=
  Directory (path d) (mtime d) (dstat d) (children d) (songs d) p.
Definition set_mtime (t : Z) (d : directory) : directory :=
  Directory (path d) t (dstat d) (children d) (songs d) (playlists d).

Definition slash : ascii := "/"%char.

(** [build_db_filename(c1, component, NULL)]. *)
Definition build_db_filename (c1 component : cstring) : cstring := c1 ++ slash :: component.

(** ** Songs *)

Definition db_song_alloc (uri : cstring) : res db_song :=
  assert (bool_decide (uri <> []));; Ok (DbSong uri None 0 0 0).

(** [song_file_new(path, parent)] with a parent. *)
Definition song_file_new (uri : cstring) : res db_song :=
  assert (negb (match uri with c :: _ => bool_decide (c = slash) | [] => false end));;
  db_song_alloc uri.

Definition song_replace_uri (old_song : db_song) (uri : cstring) : res db_song :=
  new_song ← db_song_alloc uri;
  Ok (DbSong (ds_uri new_song) (ds_tag old_song) (ds_mtime old_song) (ds_start_ms old_song) (ds_end_ms old_song)).

(** The URI of a song of the directory. *)
Definition db_song_get_uri (parent : directory) (s : db_song) : res cstring :=
  assert (bool_decide (ds_uri s <> []));;
  Ok (if directory_is_root parent then ds_uri s else build_db_filename (directory_get_path parent) (ds_uri s)).

(** ** Playlists *)

Definition playlist_vector_find (pv : list playlist_metadata) (name : cstring) : option (nat * playlist_metadata) :=
  list_find (fun pm => pm_name pm = name) pv.

Definition playlist_vector_add (pv : list playlist_metadata) (name : cstring) (mtime : Z) : list playlist_metadata :=
  pv ++ [PlaylistMeta name mtime].

(** [true] if something was modified. *)
Definition playlist_vector_update_or_add (pv : list playlist_metadata) (name : cstring) (mtime : Z)
  : list playlist_metadata * bool :=
  match playlist_vector_find pv name with
  | Some (i, pm) =>
      if mtime =? pm_mtime pm then (pv, false) else (<[i := PlaylistMeta (pm_name pm) mtime]> pv, true)
  | None => (playlist_vector_add pv name mtime, true)
  end.

Definition playlist_vector_remove (pv : list playlist_metadata) (name : cstring) : list playlist_metadata * bool :=
  match playlist_vector_find pv name with
  | Some (i, _) => (delete i pv, true)
  | None => (pv, false)
  end.

(** ** Directories *)

(** [has_parent] is [parent != NULL]. *)
Definition directory_new (dirname : cstring) (has_parent : bool) : res directory :=
  assert (Bool.eqb (bool_decide (dirname = [])) (negb has_parent));;
  Ok (Directory dirname 0 no_stat [] [] []).

Definition directory_new_root : res directory := directory_new [] false.

(** The name of a child of [parent]. *)
Definition directory_get_name (parent d : directory) : res cstring :=
  assert (negb (directory_is_root d));;
  match strrchr slash (path d) with
  | Some s => assert (negb (directory_is_root parent));; Ok (drop 1 s)
  | None => assert (directory_is_root parent);; Ok (path d)
  end.

(** The new child, which the caller appends to the children of [parent]. *)
Definition directory_new_child (parent : directory) (name_utf8 : cstring) : res directory :=
  assert (bool_decide (name_utf8 <> []));;
  directory_new (if directory_is_root parent then name_utf8
                 else build_db_filename (directory_get_path parent) name_utf8) true.

Definition add_child (child parent : directory) : directory := set_children (children parent ++ [child]) parent.

Fixpoint find_child (parent : directory) (cs : list directory) (name : cstring) : res (option directory) :=
  match cs with
  | [] => Ok None
  | child :: cs =>
      n ← directory_get_name parent child;
      if decide (n = name) then Ok (Some child) else find_child parent cs name
  end.

Definition directory_get_child (d : directory) (name : cstring) : res (option directory) :=
  find_child d (children d) name.

(** The child of that name, which is new if there was none. *)
Definition directory_make_child (d : directory) (name_utf8 : cstring) : res (directory * directory) :=
  child ← directory_get_child d name_utf8;
  match child with
  | Some child => Ok (child, d)
  | None => child ← directory_new_child d name_utf8; Ok (child, add_child child d)
  end.

Fixpoint directory_prune_empty (d : directory) : directory :=
  set_children
    ((fix go (cs : list directory) : list directory :=
        match cs with
        | [] => []
        | child :: cs =>
            let child := directory_prune_empty child in
            if directory_is_empty child then go cs else child :: go cs
        end) (children d)) d.

Definition isRootDirectory (name : cstring) : bool :=
  match name with [] => true | [c] => bool_decide (c = slash) | _ => false end.

(** The loop of [directory_lookup_directory()]: the part of [name] before the
    first slash is the name of a child. *)
Fixpoint lookup_loop (fuel : nat) (d : directory) (name : cstring) : res (option directory) :=
  match fuel with
  | O => Err OutOfFuel
  | S fuel =>
      match strchr slash name with
      | Some s =>
          let base := take (length name - length s) name in
          if (length base =? 0)%nat then Ok None else
          child ← directory_get_child d base;
          match child with Some child => lookup_loop fuel child (drop 1 s) | None => Ok None end
      | None => directory_get_child d name
      end
  end.

Definition directory_lookup_directory (d : directory) (uri : cstring) : res (option directory) :=
  if isRootDirectory uri then Ok (Some d) else lookup_loop (S (length uri)) d uri.

Definition directory_add_song (s : db_song) (d : directory) : directory := set_songs (songs d ++ [s]) d.

(** The song at place [i] of the list. *)
Definition directory_remove_song (i : nat) (d : directory) : directory := set_songs (delete i (songs d)) d.

Definition directory_get_song (d : directory) (name_utf8 : cstring) : option db_song :=
  match list_find (fun s => ds_uri s = name_utf8) (songs d) with Some (_, s) => Some s | None => None end.

(** A pointer to a song leads to its parent, so the directory is returned as
    well. *)
Definition directory_lookup_song (d : directory) (uri : cstring) : res (option (directory * db_song)) :=
  let get d base := (fun s => (d, s)) <$> directory_get_song d base in
  match strrchr slash uri with
  | Some s =>
      r ← directory_lookup_directory d (take (length uri - length s) uri);
      Ok (match r with Some d => get d (drop 1 s) | None => None end)
  | None => Ok (get d uri)
  end.

Section sort.
Context {C : Collate}.

(** The children are sorted by their paths, which sorting a child does not
    change; so it does not matter that they are sorted first here. *)
Definition sort_key (s : db_song) : sort_song := SortSong (ds_tag s) (ds_uri s).

Fixpoint directory_sort (d : directory) : res directory :=
  cs ← (fix go (cs : list directory) : res (list directory) :=
          match cs with
          | [] => Ok []
          | child :: cs => child ← directory_sort child; cs ← go cs; Ok (child :: cs)
          end) (children d);
  cs ← sort_list (fun a b => directory_cmp (path a) (path b)) cs;
  ss ← sort_list (fun a b => song_cmp (sort_key a) (sort_key b)) (songs d);
  Ok (set_songs ss (set_children cs d)).

End sort.

(** ** Visitors *)

(** The operations of [struct db_visitor] are optional; they return 0 to go
    on and anything else to stop: negated error codes, usually. *)
Record db_visitor (Ctx : Type) := DbVisitor {
  v_directory : option (directory -> Ctx -> res (Z * Ctx));
  v_song : option (directory -> db_song -> Ctx -> res (Z * Ctx));
  v_playlist : option (playlist_metadata -> directory -> Ctx -> res (Z * Ctx));
}.
Arguments DbVisitor {_}.
Arguments v_directory {_}.
Arguments v_song {_}.
Arguments v_playlist {_}.

(** [if (ret != MPD_SUCCESS) return ret;] *)
Definition and_then {Ctx} (m : res (Z * Ctx)) (k : Ctx -> res (Z * Ctx)) : res (Z * Ctx) :=
  r ← m; if r.1 =? success then k r.2 else Ok r.

(** A loop that ends with the first error. *)
Fixpoint visit_each {A Ctx} (f : A -> Ctx -> res (Z * Ctx)) (xs : list A) (ctx : Ctx) : res (Z * Ctx) :=
  match xs with
  | [] => Ok (success, ctx)
  | x :: xs => and_then (f x ctx) (visit_each f xs)
  end.

Fixpoint directory_walk {Ctx} (recursive : bool) (visitor : db_visitor Ctx) (d : directory) (ctx : Ctx) : res (Z * Ctx) :=
  and_then (match v_song visitor with Some f => visit_each (f d) (songs d) ctx | None => Ok (success, ctx) end) (fun ctx =>
  and_then (match v_playlist visitor with Some f => visit_each (fun p => f p d) (playlists d) ctx | None => Ok (success, ctx) end)
  ((fix go (cs : list directory) (ctx : Ctx) : res (Z * Ctx) :=
     match cs with
     | [] => Ok (success, ctx)
     | child :: cs =>
         and_then (match v_directory visitor with Some f => f child ctx | None => Ok (success, ctx) end) (fun ctx =>
         and_then (if recursive then directory_walk recursive visitor child ctx else Ok (success, ctx)) (go cs))
     end) (children d))).

(** * The tree of directories: proofs

    A tree is well formed if the children of a directory are named by their
    paths.  In such a tree every directory and every song is found by its
    URI, the operations keep the form, and pruning, sorting and walking
    neither lose nor invent a song. *)

(** ** Induction *)

Section induction.
Variable P : directory -> Prop.
Hypothesis Hstep : forall p t st cs ss pl, Forall P cs -> P (Directory p t st cs ss pl).

Fixpoint directory_ind' (d : directory) : P d :=
  match d with
  | Directory p t st cs ss pl =>
      Hstep p t st cs ss pl
        ((fix go (cs : list directory) : Forall P cs :=
            match cs with
            | [] => Forall_nil_2 P
            | c :: cs => Forall_cons_2 P c cs (directory_ind' c) (go cs)
            end) cs)
  end.
End induction.

(** ** Well-formed trees *)

Definition child_path (d : directory) (n : cstring) : cstring :=
  if directory_is_root d then n else build_db_filename (directory_get_path d) n.

Record good_name (n : cstring) : Prop := {
  name_nonempty : n <> [];
  name_slash : slash ∉ n;
}.

Inductive wf : directory -> Prop :=
| wf_intro d names :
    Forall good_name names -> NoDup names ->
    map path (children d) = map (child_path d) names -> Forall wf (children d) ->
    NoDup (map ds_uri (songs d)) -> NoDup (map pm_name (playlists d)) -> wf d.

Lemma wf_inv d :
  wf d -> exists names, Forall good_name names /\ NoDup names /\ map path (children d) = map (child_path d) names /\
    Forall wf (children d) /\ NoDup (map ds_uri (songs d)) /\ NoDup (map pm_name (playlists d)).
Proof. intros H. inversion H; subst; eauto 10. Qed.

(** ** Names *)

Lemma strrchr_none c s : c ∉ s -> strrchr c s = None.
Proof.
  induction s as [|a s IH]; intros H; [done|]. apply not_elem_of_cons in H as [Ha H]. simpl.
  rewrite IH by done. by rewrite decide_False by congruence.
Qed.

Lemma strrchr_some c s r : strrchr c s = Some r -> exists p n, s = p ++ r /\ r = c :: n.
Proof.
  revert r. induction s as [|a s IH]; intros r; [done|]. simpl. destruct (strrchr c s) as [r'|].
  - intros [= <-]. destruct (IH r' eq_refl) as (p & n & -> & ->). by exists (a :: p), n.
  - case_decide; [|done]. intros [= <-]. subst. by exists [], s.
Qed.

Lemma strrchr_last c p n : c ∉ n -> strrchr c (p ++ c :: n) = Some (c :: n).
Proof.
  intros H. induction p as [|a p IH]; simpl; [|by rewrite IH]. rewrite strrchr_none by done. by rewrite decide_True.
Qed.

Lemma strchr_none c s : c ∉ s -> strchr c s = None.
Proof.
  induction s as [|a s IH]; intros H; [done|]. apply not_elem_of_cons in H as [Ha H]. simpl.
  rewrite decide_False by congruence. by apply IH.
Qed.

Lemma strchr_first c n r : c ∉ n -> strchr c (n ++ c :: r) = Some (c :: r).
Proof.
  induction n as [|a n IH]; intros H; simpl; [by rewrite decide_True|].
  apply not_elem_of_cons in H as [Ha H]. rewrite decide_False by congruence. by apply IH.
Qed.

Lemma child_path_nonempty d n : good_name n -> child_path d n <> [].
Proof.
  intros [Hn _]. unfold child_path, build_db_filename. destruct (directory_is_root d); [done|].
  by destruct (directory_get_path d).
Qed.

Lemma get_name_ok d c n : good_name n -> path c = child_path d n -> directory_get_name d c = Ok n.
Proof.
  intros Hn Hp. unfold directory_get_name. pose proof (child_path_nonempty d n Hn) as Hne.
  assert (Hroot : directory_is_root c = false) by (apply bool_decide_eq_false; by rewrite Hp).
  rewrite Hroot, Hp. cbn [negb assert mbind res_bind]. destruct Hn as [_ Hs]. unfold child_path, build_db_filename.
  destruct (directory_is_root d) eqn:Ed; [by rewrite strrchr_none|]. by rewrite strrchr_last.
Qed.

Lemma find_child_ok d cs names n :
  Forall good_name names -> map path cs = map (child_path d) names ->
  find_child d cs n = Ok (match list_find (fun m => m = n) names with
                          | Some (i, _) => cs !! i
                          | None => None
                          end).
Proof.
  intros Hg. revert cs. induction Hg as [|m names Hm _ IH]; intros cs Hp; [by destruct cs|].
  destruct cs as [|c cs]; [done|]. injection Hp as Hc Hp. cbn [find_child list_find].
  rewrite (get_name_ok d c m Hm Hc). cbn [mbind res_bind]. destruct (decide (m = n)); [done|].
  rewrite IH by done. by destruct (list_find _ names) as [[i ?]|].
Qed.

Lemma list_find_eq (l : list cstring) i x :
  NoDup l -> l !! i = Some x -> list_find (fun m => m = x) l = Some (i, x).
Proof.
  intros Hnd Hi. apply list_find_Some. split; [done|]. split; [done|]. intros j y Hj Hlt ->.
  pose proof (NoDup_lookup _ _ _ _ Hnd Hi Hj). lia.
Qed.

(** The children are found by their names. *)
Lemma get_child_name d names i n c :
  Forall good_name names -> NoDup names -> map path (children d) = map (child_path d) names ->
  names !! i = Some n -> children d !! i = Some c -> directory_get_child d n = Ok (Some c).
Proof.
  intros Hg Hnd Hp Hn Hc. unfold directory_get_child. rewrite (find_child_ok d (children d) names n Hg Hp).
  by rewrite (list_find_eq names i n Hnd Hn), Hc.
Qed.

Lemma get_child_none d names n :
  Forall good_name names -> map path (children d) = map (child_path d) names -> n ∉ names ->
  directory_get_child d n = Ok None.
Proof.
  intros Hg Hp Hn. unfold directory_get_child. rewrite (find_child_ok d (children d) names n Hg Hp).
  destruct (list_find _ names) as [[i m]|] eqn:E; [|done].
  apply list_find_Some in E as (Hi & -> & _). by apply list_elem_of_lookup_2 in Hi.
Qed.

(** [directory_get_child()] always answers. *)
Lemma get_child_total d n : wf d -> exists r, directory_get_child d n = Ok r /\ (forall c, r = Some c -> c ∈ children d /\ path c = child_path d n /\ good_name n).
Proof.
  intros (names & Hg & Hnd & Hp & _)%wf_inv. unfold directory_get_child.
  rewrite (find_child_ok d (children d) names n Hg Hp). eexists. split; [done|]. intros c.
  destruct (list_find _ names) as [[i m]|] eqn:E; [|done]. apply list_find_Some in E as (Hi & -> & _). intros Hc.
  split; [by eapply list_elem_of_lookup_2|]. split; [|by eapply Forall_lookup_1].
  assert (H : map path (children d) !! i = map (child_path d) names !! i) by (by rewrite Hp).
  change (map path (children d)) with (path <$> children d) in H. change (map (child_path d) names) with (child_path d <$> names) in H.
  rewrite !list_lookup_fmap, Hc, Hi in H. by injection H.
Qed.

(** ** Lookup *)

(** [d'] is reached from [d] by the names [ns]. *)
Inductive reach : directory -> list cstring -> directory -> Prop :=
| reach_nil d : reach d [] d
| reach_cons d c n ns d' :
    c ∈ children d -> path c = child_path d n -> good_name n -> reach c ns d' -> reach d (n :: ns) d'.

Fixpoint join_path (ns : list cstring) : cstring :=
  match ns with
  | [] => []
  | [n] => n
  | n :: ns => n ++ slash :: join_path ns
  end.

Lemma join_path_cons n ns : ns <> [] -> join_path (n :: ns) = n ++ slash :: join_path ns.
Proof. by destruct ns. Qed.

Lemma wf_child d c : wf d -> c ∈ children d -> wf c.
Proof. intros (names & _ & _ & _ & Hc & _)%wf_inv Hin. rewrite Forall_forall in Hc. by apply Hc. Qed.

Lemma wf_reach d ns d' : wf d -> reach d ns d' -> wf d'.
Proof. intros Hw Hr. induction Hr as [|d c n ns d' Hc _ _ _ IH]; [done|]. apply IH. by eapply wf_child. Qed.

(** A child is found by the name in its path. *)
Lemma get_child_in d c n :
  wf d -> c ∈ children d -> path c = child_path d n -> good_name n -> directory_get_child d n = Ok (Some c).
Proof.
  intros (names & Hg & Hnd & Hp & _)%wf_inv Hc Hpc Hn. apply list_elem_of_lookup_1 in Hc as [i Hc].
  assert (Hi : names !! i = Some n).
  { assert (H : (path <$> children d) !! i = (child_path d <$> names) !! i) by (by change (map path (children d) !! i = map (child_path d) names !! i); rewrite Hp).
    rewrite !list_lookup_fmap, Hc in H. simpl in H. destruct (names !! i) as [m|]; [|done]. f_equal.
    simpl in H. injection H as H. rewrite Hpc in H. revert H. unfold child_path, build_db_filename.
    destruct (directory_is_root d); [done|]. intros H. by apply app_inv_head in H as [= ->]. }
  by eapply get_child_name.
Qed.

Lemma strchr_split (c : ascii) s r :
  strchr c s = Some r -> exists a r', r = c :: r' /\ s = a ++ r /\ c ∉ a.
Proof.
  induction s as [|x s IH]; [done|]. simpl. destruct (decide (x = c)) as [->|Hne].
  - intros [= <-]. exists [], s. split; [done|]. split; [done|set_solver].
  - intros (a & r' & -> & -> & Ha)%IH. exists (x :: a), r'. split; [done|]. split; [done|set_solver].
Qed.

Lemma strchr_take (c : ascii) (s a r : cstring) : s = a ++ r -> take (length s - length r) s = a.
Proof. intros ->. rewrite length_app, Nat.add_sub. apply take_app_length. Qed.

Lemma reach_path d ns d' : reach d ns d' -> ns <> [] -> path d' = child_path d (join_path ns).
Proof.
  induction 1 as [|d c n ns d' Hc Hpc Hn Hr IH]; [done|]. intros _. destruct ns as [|n2 ns].
  - inversion Hr. by subst.
  - rewrite join_path_cons by done. rewrite IH by done. unfold child_path at 1.
    assert (Hroot : directory_is_root c = false).
    { apply bool_decide_eq_false. rewrite Hpc. by apply child_path_nonempty. }
    rewrite Hroot. unfold directory_get_path. rewrite Hpc. unfold child_path, build_db_filename, directory_get_path.
    destruct (directory_is_root d); [done|]. by rewrite <- app_assoc.
Qed.

Lemma lookup_loop_reach d ns d' fuel :
  wf d -> reach d ns d' -> ns <> [] -> (length (join_path ns) < fuel)%nat ->
  lookup_loop fuel d (join_path ns) = Ok (Some d').
Proof.
  intros Hw Hr. revert fuel. induction Hr as [|d c n ns d' Hc Hpc Hn Hr IH]; intros fuel Hne Hf; [done|].
  destruct fuel as [|fuel]; [lia|]. cbn [lookup_loop]. destruct ns as [|n2 ns].
  - cbn [join_path]. rewrite strchr_none by apply Hn. rewrite (get_child_in d c n) by done. inversion Hr. by subst.
  - rewrite join_path_cons in * by done. rewrite strchr_first by apply Hn.
    rewrite (strchr_take slash _ n (slash :: join_path (n2 :: ns))) by done.
    destruct (Nat.eqb_spec (length n) 0) as [E|_]; [apply nil_length_inv in E; by destruct Hn|].
    rewrite (get_child_in d c n) by done. cbn [mbind res_bind drop]. apply IH; [by eapply wf_child|done|].
    rewrite length_app in Hf. simpl in Hf |- *. lia.
Qed.

(** Whatever is found is a directory of the tree at that path. *)
Lemma lookup_loop_sound d name fuel :
  wf d -> (length name < fuel)%nat ->
  exists r, lookup_loop fuel d name = Ok r /\
    forall d', r = Some d' -> exists ns, ns <> [] /\ reach d ns d' /\ name = join_path ns.
Proof.
  revert d name. induction fuel as [|fuel IH]; intros d name Hw Hf; [lia|]. cbn [lookup_loop].
  destruct (strchr slash name) as [s|] eqn:E.
  - destruct (strchr_split _ _ _ E) as (a & r' & -> & Hname & Ha). rewrite (strchr_take slash _ a (slash :: r') Hname).
    destruct (Nat.eqb_spec (length a) 0); [by exists None|].
    destruct (get_child_total d a Hw) as (r & -> & Hr). cbn [mbind res_bind]. destruct r as [c|]; [|by exists None].
    destruct (Hr c eq_refl) as (Hc & Hpc & Hg). destruct (IH c r') as (r & Er & Hsound).
    + by eapply wf_child.
    + rewrite Hname, length_app in Hf. simpl in Hf. lia.
    + exists r. split; [exact Er|]. intros d' Hd'. destruct (Hsound d' Hd') as (ns & Hne & Hreach & Hj).
      exists (a :: ns). split; [done|]. split; [by eapply reach_cons|]. by rewrite join_path_cons, <- Hj, Hname.
  - destruct (get_child_total d name Hw) as (r & -> & Hr). exists r. split; [done|]. intros c ->.
    destruct (Hr c eq_refl) as (Hc & Hpc & Hg). exists [name]. split; [done|]. split; [|done].
    eapply reach_cons; [done|done|done|constructor].
Qed.

Lemma join_path_not_root ns : Forall good_name ns -> ns <> [] -> isRootDirectory (join_path ns) = false.
Proof.
  intros Hg Hne. destruct ns as [|n ns]; [done|]. apply Forall_cons in Hg as [[Hn Hs] Hg].
  destruct n as [|a n]; [done|]. assert (Ha : a <> slash) by (intros ->; apply Hs; by left).
  destruct ns as [|n2 ns].
  - simpl. destruct n; [|done]. by apply bool_decide_eq_false.
  - rewrite join_path_cons by done. simpl. by destruct (n ++ _) eqn:E; [destruct n|].
Qed.

Lemma reach_names d ns d' : reach d ns d' -> Forall good_name ns.
Proof. induction 1; by constructor. Qed.

(** Every directory is found by its path. *)
Lemma lookup_directory_ok root ns d :
  wf root -> path root = [] -> reach root ns d -> directory_lookup_directory root (path d) = Ok (Some d).
Proof.
  intros Hw Hroot Hr. unfold directory_lookup_directory. destruct (decide (ns = [])) as [->|Hne].
  - inversion Hr; subst. by rewrite Hroot.
  - rewrite (reach_path _ _ _ Hr Hne). unfold child_path, directory_is_root. rewrite bool_decide_true by done.
    rewrite join_path_not_root by (done || by eapply reach_names). by apply lookup_loop_reach with (ns := ns); try lia.
Qed.

Lemma lookup_directory_sound root uri :
  wf root -> path root = [] -> exists r, directory_lookup_directory root uri = Ok r /\
    forall d, r = Some d -> exists ns, reach root ns d /\ (isRootDirectory uri = true /\ d = root \/ uri = path d).
Proof.
  intros Hw Hroot. unfold directory_lookup_directory. destruct (isRootDirectory uri).
  - exists (Some root). split; [done|]. intros d [= <-]. exists []. split; [constructor|by left].
  - destruct (lookup_loop_sound root uri (S (length uri)) Hw) as (r & -> & Hs); [lia|]. exists r. split; [done|].
    intros d Hd. destruct (Hs d Hd) as (ns & Hne & Hr & ->). exists ns. split; [done|]. right.
    rewrite (reach_path _ _ _ Hr Hne). unfold child_path, directory_is_root. by rewrite bool_decide_true.
Qed.

(** ** Songs *)

Lemma get_song_ok d s : wf d -> s ∈ songs d -> directory_get_song d (ds_uri s) = Some s.
Proof.
  intros (names & _ & _ & _ & _ & Hnd & _)%wf_inv Hs. unfold directory_get_song.
  apply list_elem_of_lookup_1 in Hs as [i Hi].
  assert (E : list_find (fun t => ds_uri t = ds_uri s) (songs d) = Some (i, s)); [|by rewrite E].
  apply list_find_Some. split; [done|]. split; [done|]. intros j t Hj Hlt Heq.
  change (NoDup (ds_uri <$> songs d)) in Hnd.
  assert (H1 : (ds_uri <$> songs d) !! i = Some (ds_uri s)) by (by rewrite list_lookup_fmap, Hi).
  assert (H2 : (ds_uri <$> songs d) !! j = Some (ds_uri s)) by (by rewrite list_lookup_fmap, Hj; simpl; rewrite Heq).
  pose proof (NoDup_lookup _ _ _ _ Hnd H1 H2). lia.
Qed.

(** Every song is found by its URI. *)
Lemma lookup_song_ok root ns d s :
  wf root -> path root = [] -> reach root ns d -> s ∈ songs d -> good_name (ds_uri s) ->
  exists uri, db_song_get_uri d s = Ok uri /\ directory_lookup_song root uri = Ok (Some (d, s)).
Proof.
  intros Hw Hroot Hr Hs [Hne Hsl]. unfold db_song_get_uri. rewrite bool_decide_true by done. cbn [assert mbind res_bind].
  eexists. split; [done|]. pose proof (wf_reach _ _ _ Hw Hr) as Hwd. unfold directory_lookup_song.
  destruct (directory_is_root d) eqn:Ed.
  - rewrite strrchr_none by done. apply bool_decide_eq_true in Ed.
    assert (d = root) as ->.
    { destruct (decide (ns = [])) as [->|Hn]; [by inversion Hr|]. pose proof (reach_path _ _ _ Hr Hn) as H.
      rewrite Ed in H. unfold child_path, directory_is_root in H. rewrite bool_decide_true in H by done.
      destruct ns as [|n [|n2 ns]]; [done| |].
      - apply reach_names in Hr. apply Forall_cons in Hr as [[] _]. by simpl in H; subst.
      - rewrite join_path_cons in H by done. by destruct n. }
    by rewrite get_song_ok.
  - unfold build_db_filename. rewrite strrchr_last by done.
    rewrite (strchr_take slash _ (directory_get_path d) (slash :: ds_uri s)) by done.
    unfold directory_get_path. rewrite (lookup_directory_ok root ns d Hw Hroot Hr). cbn [mbind res_bind]. change (drop 1 (slash :: ds_uri s)) with (ds_uri s). by rewrite get_song_ok.
Qed.

(** What is found is a song of the tree with that URI. *)
Lemma lookup_song_sound root uri :
  wf root -> path root = [] -> exists r, directory_lookup_song root uri = Ok r /\
    forall d s, r = Some (d, s) -> s ∈ songs d /\ exists ns, reach root ns d /\
      ((d = root /\ uri = ds_uri s) \/
       exists p, uri = p ++ slash :: ds_uri s /\ (isRootDirectory p = true /\ d = root \/ p = path d)).
Proof.
  intros Hw Hroot. unfold directory_lookup_song.
  assert (Hget : forall d base d' s, (fun s => (d, s)) <$> directory_get_song d base = Some (d', s) ->
    d' = d /\ s ∈ songs d /\ ds_uri s = base).
  { intros d base d' s. unfold directory_get_song. destruct (list_find _ _) as [[i t]|] eqn:E; [|done].
    intros [= <- <-]. apply list_find_Some in E as (Hi & Hu & _). split; [done|]. split; [by eapply list_elem_of_lookup_2|done]. }
  destruct (strrchr slash uri) as [r|] eqn:Er.
  - destruct (strrchr_some _ _ _ Er) as (p & n & -> & ->).
    rewrite length_app, Nat.add_sub, take_app_length. destruct (lookup_directory_sound root p Hw Hroot) as (r & -> & Hr).
    cbn [mbind res_bind drop]. rewrite drop_0. eexists. split; [done|]. intros d s Hs. destruct r as [d0|]; [|done].
    apply Hget in Hs as (-> & Hs & <-). destruct (Hr d0 eq_refl) as (ns & Hn & Hd). split; [done|]. exists ns.
    split; [done|]. right. by exists p.
  - eexists. split; [done|]. intros d s Hs. apply Hget in Hs as (-> & Hs & <-). split; [done|]. exists [].
    split; [constructor|]. by left.
Qed.

(** ** Preservation *)

Lemma wf_same_children d d' :
  wf d -> path d' = path d -> children d' = children d -> NoDup (map ds_uri (songs d')) ->
  NoDup (map pm_name (playlists d')) -> wf d'.
Proof.
  intros (names & Hg & Hnd & Hp & Hc & _)%wf_inv Ep Ec Hs Hl. apply (wf_intro d' names); try done.
  - rewrite Ec, Hp. unfold child_path, directory_is_root, directory_get_path. by rewrite Ep.
  - by rewrite Ec.
Qed.

Lemma directory_new_child_ok d n :
  good_name n -> exists c, directory_new_child d n = Ok c /\ path c = child_path d n /\ wf c /\
    children c = [] /\ songs c = [] /\ playlists c = [] /\ mtime c = 0 /\ dstat c = no_stat.
Proof.
  intros Hn. pose proof (child_path_nonempty d n Hn) as Hne. unfold directory_new_child, directory_new.
  rewrite (bool_decide_true (n <> [])) by apply (name_nonempty _ Hn). cbn [assert mbind res_bind negb].
  change (if directory_is_root d then n else build_db_filename (directory_get_path d) n) with (child_path d n).
  rewrite bool_decide_false by done. cbn [Bool.eqb assert mbind res_bind]. eexists. split; [done|].
  split; [done|]. split; [|done]. apply (wf_intro _ []); cbn; try constructor.
Qed.

(** A child with a new name. *)
Lemma wf_add_child d c n :
  wf d -> wf c -> good_name n -> path c = child_path d n -> directory_get_child d n = Ok None -> wf (add_child c d).
Proof.
  intros (names & Hg & Hnd & Hp & Hc & Hs & Hl)%wf_inv Hwc Hn Hpc Hnone. apply (wf_intro _ (names ++ [n])).
  - apply Forall_app. by split; [|constructor].
  - apply NoDup_app. split; [done|]. split; [|apply NoDup_singleton]. intros x Hx ->%list_elem_of_singleton.
    apply list_elem_of_lookup_1 in Hx as [i Hi].
    assert (Hlen : length (children d) = length names) by (by apply (f_equal length) in Hp; rewrite !length_map in Hp).
    destruct (lookup_lt_is_Some_2 (children d) i) as [c' Hc']; [rewrite Hlen; by eapply lookup_lt_Some|].
    rewrite (get_child_name d names i n c' Hg Hnd Hp Hi Hc') in Hnone. done.
  - cbn [children add_child set_children]. rewrite !map_app, Hp. cbn [map]. by rewrite Hpc.
  - apply Forall_app. by split; [|constructor].
  - done.
  - done.
Qed.

Lemma wf_add_song d s : wf d -> directory_get_song d (ds_uri s) = None -> wf (directory_add_song s d).
Proof.
  intros Hw Hnone. pose proof Hw as (_ & _ & _ & _ & _ & Hs & Hl)%wf_inv.
  apply (wf_same_children d); [done|done|done| |done]. cbn [songs directory_add_song set_songs]. rewrite map_app.
  apply NoDup_app. split; [done|]. split; [|apply NoDup_singleton]. intros u Hu ->%list_elem_of_singleton.
  unfold directory_get_song in Hnone. destruct (list_find _ (songs d)) as [[i t]|] eqn:E; [done|].
  apply list_find_None in E. change (map ds_uri (songs d)) with (ds_uri <$> songs d) in Hu.
  apply list_elem_of_fmap in Hu as (t & Ht & Hin). rewrite Forall_forall in E. by apply (E t Hin).
Qed.

Lemma wf_remove_song d i : wf d -> wf (directory_remove_song i d).
Proof.
  intros Hw. pose proof Hw as (_ & _ & _ & _ & _ & Hs & Hl)%wf_inv.
  apply (wf_same_children d); [done|done|done| |done]. cbn [songs directory_remove_song set_songs].
  change (NoDup (ds_uri <$> delete i (songs d))). rewrite list_fmap_delete.
  eapply sublist_NoDup; [exact Hs|apply sublist_delete].
Qed.

Lemma playlist_update_names pv name t :
  NoDup (map pm_name pv) -> NoDup (map pm_name (playlist_vector_update_or_add pv name t).1).
Proof.
  intros Hnd. unfold playlist_vector_update_or_add, playlist_vector_find.
  destruct (list_find _ pv) as [[i pm]|] eqn:E.
  - destruct (t =? pm_mtime pm); [done|]. cbn [fst]. apply list_find_Some in E as (Hi & Hn & _).
    change (NoDup (pm_name <$> <[i := PlaylistMeta (pm_name pm) t]> pv)). rewrite list_fmap_insert. cbn [pm_name].
    rewrite list_insert_id; [done|]. by rewrite list_lookup_fmap, Hi.
  - cbn [fst]. unfold playlist_vector_add. rewrite map_app. apply NoDup_app. split; [done|].
    split; [|apply NoDup_singleton]. intros u Hu ->%list_elem_of_singleton. apply list_find_None in E.
    change (map pm_name pv) with (pm_name <$> pv) in Hu. apply list_elem_of_fmap in Hu as (q & Hq & Hin).
    rewrite Forall_forall in E. by apply (E q Hin).
Qed.

(** The playlist has the time that was given, the others keep theirs. *)
Lemma playlist_update_find pv name t :
  NoDup (map pm_name pv) ->
  exists i, playlist_vector_find (playlist_vector_update_or_add pv name t).1 name = Some (i, PlaylistMeta name t).
Proof.
  intros Hnd. unfold playlist_vector_update_or_add, playlist_vector_find.
  destruct (list_find _ pv) as [[i pm]|] eqn:E; cbn [fst].
  - pose proof E as (Hi & <- & Hb)%list_find_Some. exists i. destruct (Z.eqb_spec t (pm_mtime pm)) as [->|]; cbn [fst].
    + rewrite E. by destruct pm.
    + apply list_find_Some. split; [apply list_lookup_insert_eq; by eapply lookup_lt_Some|]. split; [done|].
      intros j q Hj Hlt. rewrite list_lookup_insert_ne in Hj by lia. by apply (Hb j).
  - exists (length pv). apply list_find_Some. unfold playlist_vector_add. split; [by rewrite list_lookup_middle|].
    split; [done|]. intros j q Hj Hlt. rewrite lookup_app_l in Hj by done. apply list_find_None in E.
    rewrite Forall_forall in E. apply E. by eapply list_elem_of_lookup_2.
Qed.

Lemma playlist_remove_find pv name :
  NoDup (map pm_name pv) -> playlist_vector_find (playlist_vector_remove pv name).1 name = None.
Proof.
  intros Hnd. unfold playlist_vector_remove, playlist_vector_find.
  destruct (list_find _ pv) as [[i pm]|] eqn:E; cbn [fst]; [|done]. pose proof E as (Hi & Hn & Hb)%list_find_Some.
  apply list_find_None. apply Forall_forall. intros q Hq Hqn. apply list_elem_of_lookup_1 in Hq as [j Hj].
  change (NoDup (pm_name <$> pv)) in Hnd.
  assert (Hk : exists k, k <> i /\ pv !! k = Some q).
  { destruct (decide (j < i)%nat).
    - exists j. split; [lia|]. by rewrite list_lookup_delete_lt in Hj.
    - exists (S j). split; [lia|]. by rewrite list_lookup_delete_ge in Hj by lia. }
  destruct Hk as (k & Hki & Hk). apply Hki. eapply NoDup_lookup; [exact Hnd| |].
  - by rewrite list_lookup_fmap, Hk; simpl; rewrite Hqn.
  - by rewrite list_lookup_fmap, Hi; simpl; rewrite Hn.
Qed.

(** * Pruning, sorting and walking the tree

    Pruning removes what is empty and nothing else; sorting permutes; a walk
    is a loop over one list of entries, which the first error ends. *)

(** ** Entries *)

Inductive entry :=
| ESong (d : directory) (s : db_song)
| EPlaylist (p : playlist_metadata) (d : directory)
| EDirectory (d : directory).

(** What a walk visits, in that order. *)
Fixpoint entries (recursive : bool) (d : directory) : list entry :=
  map (ESong d) (songs d) ++ map (fun p => EPlaylist p d) (playlists d) ++
  (fix go (cs : list directory) : list entry :=
     match cs with
     | [] => []
     | child :: cs => EDirectory child :: (if recursive then entries recursive child else []) ++ go cs
     end) (children d).

(** The callback for an entry; an operation that is missing goes on. *)
Definition visit {Ctx} (v : db_visitor Ctx) (e : entry) (ctx : Ctx) : res (Z * Ctx) :=
  match e with
  | ESong d s => match v_song v with Some f => f d s ctx | None => Ok (success, ctx) end
  | EPlaylist p d => match v_playlist v with Some f => f p d ctx | None => Ok (success, ctx) end
  | EDirectory d => match v_directory v with Some f => f d ctx | None => Ok (success, ctx) end
  end.

Lemma and_then_assoc {Ctx} (m : res (Z * Ctx)) f g : and_then (and_then m f) g = and_then m (fun c => and_then (f c) g).
Proof.
  unfold and_then. destruct m as [[ret c]|]; [|done]. cbn [mbind res_bind fst snd]. destruct (ret =? success) eqn:E; [done|].
  cbn [mbind res_bind fst snd]. by rewrite E.
Qed.

Lemma and_then_ext {Ctx} (m : res (Z * Ctx)) f g : (forall c, f c = g c) -> and_then m f = and_then m g.
Proof. intros H. unfold and_then. destruct m as [[ret c]|]; [|done]. cbn. by rewrite H. Qed.

Lemma visit_each_app {A Ctx} (f : A -> Ctx -> res (Z * Ctx)) xs ys ctx :
  visit_each f (xs ++ ys) ctx = and_then (visit_each f xs ctx) (visit_each f ys).
Proof.
  revert ctx. induction xs as [|x xs IH]; intros ctx; [done|]. cbn [app visit_each]. rewrite and_then_assoc.
  by apply and_then_ext.
Qed.

Lemma visit_each_map {A B Ctx} (g : A -> B) (f : B -> Ctx -> res (Z * Ctx)) xs ctx :
  visit_each f (map g xs) ctx = visit_each (fun x => f (g x)) xs ctx.
Proof. revert ctx. induction xs as [|x xs IH]; intros ctx; [done|]. cbn [map visit_each]. by apply and_then_ext. Qed.

Lemma visit_each_success {A Ctx} (xs : list A) (ctx : Ctx) :
  visit_each (fun _ c => Ok (success, c)) xs ctx = Ok (success, ctx).
Proof. induction xs; done. Qed.

(** The walk, one directory at a time. *)
Definition walk_children {Ctx} (recursive : bool) (v : db_visitor Ctx) : list directory -> Ctx -> res (Z * Ctx) :=
  fix go cs ctx :=
    match cs with
    | [] => Ok (success, ctx)
    | child :: cs =>
        and_then (match v_directory v with Some f => f child ctx | None => Ok (success, ctx) end) (fun ctx =>
        and_then (if recursive then directory_walk recursive v child ctx else Ok (success, ctx)) (go cs))
    end.

Lemma directory_walk_eq {Ctx} recursive (v : db_visitor Ctx) d ctx :
  directory_walk recursive v d ctx =
  and_then (visit_each (fun s => visit v (ESong d s)) (songs d) ctx) (fun ctx =>
  and_then (visit_each (fun p => visit v (EPlaylist p d)) (playlists d) ctx) (walk_children recursive v (children d))).
Proof.
  assert (Es : forall c, visit_each (fun s => visit v (ESong d s)) (songs d) c =
    match v_song v with Some f => visit_each (f d) (songs d) c | None => Ok (success, c) end).
  { intros c. unfold visit. by destruct (v_song v); [|rewrite visit_each_success]. }
  assert (Ep : forall c, visit_each (fun p => visit v (EPlaylist p d)) (playlists d) c =
    match v_playlist v with Some f => visit_each (fun p => f p d) (playlists d) c | None => Ok (success, c) end).
  { intros c. unfold visit. by destruct (v_playlist v); [|rewrite visit_each_success]. }
  rewrite Es. destruct d as [p t st cs ss pl]. cbn [directory_walk songs playlists children]. apply and_then_ext.
  intros c. by rewrite Ep.
Qed.

(** A walk is a loop over the entries. *)
Lemma directory_walk_entries {Ctx} recursive (v : db_visitor Ctx) d ctx :
  directory_walk recursive v d ctx = visit_each (visit v) (entries recursive d) ctx.
Proof.
  revert ctx. induction d as [p t st cs ss pl IH] using directory_ind'. intros ctx. rewrite directory_walk_eq.
  cbn [entries songs playlists children]. rewrite visit_each_app, visit_each_map. apply and_then_ext.
  clear ctx. intros ctx. rewrite visit_each_app, visit_each_map. apply and_then_ext.
  clear ctx. induction IH as [|c cs Hc _ IHcs]; intros ctx; [done|]. cbn [visit_each visit walk_children].
  apply and_then_ext. clear ctx. intros ctx. rewrite visit_each_app. destruct recursive.
  - rewrite Hc. by apply and_then_ext.
  - cbn. apply IHcs.
Qed.

(** ** All songs of a tree *)

Fixpoint all_songs (d : directory) : list (cstring * db_song) :=
  map (fun s => (path d, s)) (songs d) ++ concat (map all_songs (children d)).

Fixpoint all_playlists (d : directory) : list (cstring * playlist_metadata) :=
  map (fun p => (path d, p)) (playlists d) ++ concat (map all_playlists (children d)).

(** The songs that a recursive walk visits are all songs of the tree. *)
Lemma entries_songs d :
  omap (fun e => match e with ESong d s => Some (path d, s) | _ => None end) (entries true d) = all_songs d.
Proof.
  induction d as [p t st cs ss pl IH] using directory_ind'. cbn [entries all_songs songs playlists children path].
  set (d := Directory p t st cs ss pl). set (f := fun e : entry => _). rewrite !omap_app. f_equal.
  { assert (H : forall d' l, omap f (map (ESong d') l) = map (fun s => (path d', s)) l).
    { clear. intros d' l. induction l as [|s l IHl]; [done|]. simpl. f_equal. exact IHl. }
    exact (H d ss). }
  assert (Ep : omap f (map (fun p0 => EPlaylist p0 d) pl) = []).
  { generalize d. clear. intros d'. by induction pl. }
  rewrite Ep. cbn [app].
  clear Ep d. induction IH as [|c cs Hc _ IHcs]; [done|].
  match goal with |- omap f (EDirectory c :: ?a ++ ?b) = _ =>
    change (omap f (a ++ b) = all_songs c ++ concat (map all_songs cs)) end.
  change (omap f (entries true c) = all_songs c) in Hc. rewrite omap_app, Hc. f_equal. exact IHcs.
Qed.

(** ** Pruning *)

Definition prune_list : list directory -> list directory :=
  fix go cs :=
    match cs with
    | [] => []
    | child :: cs =>
        let child := directory_prune_empty child in
        if directory_is_empty child then go cs else child :: go cs
    end.

Lemma prune_eq d : directory_prune_empty d = set_children (prune_list (children d)) d.
Proof. by destruct d. Qed.

Lemma prune_path d : path (directory_prune_empty d) = path d.
Proof. by rewrite prune_eq. Qed.

Lemma empty_no_songs d : directory_is_empty d = true -> all_songs d = [] /\ all_playlists d = [].
Proof.
  unfold directory_is_empty. intros [[Hc Hs]%andb_prop Hp]%andb_prop.
  apply bool_decide_eq_true in Hc, Hs, Hp. destruct d as [p t st cs ss pl]. simpl in *. by subst.
Qed.

(** No song and no playlist is lost. *)
Lemma prune_keeps d :
  all_songs (directory_prune_empty d) = all_songs d /\ all_playlists (directory_prune_empty d) = all_playlists d.
Proof.
  induction d as [p t st cs ss pl IH] using directory_ind'. rewrite prune_eq.
  cbn [set_children children songs playlists path all_songs all_playlists].
  assert (H : concat (map all_songs (prune_list cs)) = concat (map all_songs cs) /\
    concat (map all_playlists (prune_list cs)) = concat (map all_playlists cs)).
  { induction IH as [|c cs [H1 H2] _ [IH1 IH2]]; [done|]. cbn [prune_list map concat].
    destruct (directory_is_empty (directory_prune_empty c)) eqn:E.
    - apply empty_no_songs in E as [E1 E2]. rewrite <- H1, <- H2, E1, E2. done.
    - cbn [map concat]. by rewrite H1, H2, IH1, IH2. }
  by destruct H as [-> ->].
Qed.

(** No directory below is empty. *)
Inductive full : directory -> Prop :=
| full_intro d : Forall (fun c => directory_is_empty c = false /\ full c) (children d) -> full d.

Lemma prune_full d : full (directory_prune_empty d).
Proof.
  induction d as [p t st cs ss pl IH] using directory_ind'. rewrite prune_eq. constructor. cbn [children set_children].
  induction IH as [|c cs Hc _ IHcs]; [constructor|]. cbn [prune_list].
  destruct (directory_is_empty (directory_prune_empty c)) eqn:E; [done|]. by constructor.
Qed.

Lemma prune_sublist cs : exists ks, ks `sublist_of` cs /\ prune_list cs = map directory_prune_empty ks.
Proof.
  induction cs as [|c cs (ks & Hs & E)]; [by exists []|]. cbn [prune_list].
  destruct (directory_is_empty (directory_prune_empty c)).
  - exists ks. split; [by constructor|done].
  - exists (c :: ks). split; [by constructor|]. by rewrite E.
Qed.

(** Names of a part of the children. *)
Lemma sublist_names d cs ks names :
  ks `sublist_of` cs -> map path cs = map (child_path d) names ->
  exists ns, ns `sublist_of` names /\ map path ks = map (child_path d) ns.
Proof.
  intros Hs. revert names. induction Hs as [|c ks cs Hs IH|c ks cs Hs IH]; intros names Hp.
  - exists []. split; [apply sublist_nil_l|done].
  - destruct names as [|n names]; [done|]. injection Hp as Hc Hp. destruct (IH names Hp) as (ns & Hns & E).
    exists (n :: ns). split; [by constructor|]. cbn [map]. by rewrite Hc, E.
  - destruct names as [|n names]; [done|]. injection Hp as Hc Hp. destruct (IH names Hp) as (ns & Hns & E).
    exists ns. split; [by constructor|done].
Qed.

Lemma wf_prune d : wf d -> wf (directory_prune_empty d).
Proof.
  induction d as [p t st cs ss pl IH] using directory_ind'. intros (names & Hg & Hnd & Hp & Hc & Hs & Hl)%wf_inv.
  rewrite prune_eq. cbn [children songs playlists] in *. destruct (prune_sublist cs) as (ks & Hks & E).
  destruct (sublist_names _ _ _ _ Hks Hp) as (ns & Hns & Hpn). apply (wf_intro _ ns).
  - rewrite Forall_forall in *. intros x Hx. apply Hg. by eapply elem_of_sublist.
  - eapply sublist_NoDup; [exact Hnd|exact Hns].
  - cbn [children set_children]. rewrite E. rewrite map_map. rewrite (map_ext _ path) by apply prune_path. exact Hpn.
  - cbn [children set_children]. rewrite E. rewrite Forall_forall in *. intros x Hx.
    change (map directory_prune_empty ks) with (directory_prune_empty <$> ks) in Hx.
    apply list_elem_of_fmap in Hx as (c & -> & Hc'). apply IH; [by eapply elem_of_sublist|].
    apply Hc. by eapply elem_of_sublist.
  - done.
  - done.
Qed.

(** ** Sorting *)

Section sort.
Context {C : Collate}.

Definition sort_children : list directory -> res (list directory) :=
  fix go cs :=
    match cs with
    | [] => Ok []
    | child :: cs => child ← directory_sort child; cs ← go cs; Ok (child :: cs)
    end.

Lemma directory_sort_eq d :
  directory_sort d =
  (cs ← sort_children (children d);
   cs ← sort_list (fun a b => directory_cmp (path a) (path b)) cs;
   ss ← sort_list (fun a b => song_cmp (sort_key a) (sort_key b)) (songs d);
   Ok (set_songs ss (set_children cs d))).
Proof. by destruct d as [p t st cs ss pl]. Qed.

(** Every list of the tree can be sorted. *)
Inductive sortable : directory -> Prop :=
| sortable_intro d :
    Z.of_nat (length (children d)) < 2 ^ 21 -> Z.of_nat (length (songs d)) < 2 ^ 21 ->
    Forall sortable (children d) -> sortable d.

(** What sorting keeps and what it makes. *)
Definition sorted_from (d d' : directory) : Prop :=
  path d' = path d /\ (wf d -> wf d') /\ all_songs d' ≡ₚ all_songs d /\ all_playlists d' ≡ₚ all_playlists d /\
  (CollateSpec C -> Sorted (leb (fun a b => directory_cmp (path a) (path b))) (children d')).

Lemma Forall2_paths cs cs' : Forall2 sorted_from cs cs' -> map path cs' = map path cs.
Proof. induction 1 as [|c c' cs cs' (H & _) _ IH]; [done|]. cbn [map]. by rewrite H, IH. Qed.

Lemma concat_map_perm {A B} (f g : A -> list B) cs cs' :
  Forall2 (fun c c' => g c' ≡ₚ f c) cs cs' -> concat (map g cs') ≡ₚ concat (map f cs).
Proof. induction 1 as [|c c' cs cs' H _ IH]; [done|]. cbn [map concat]. by rewrite H, IH. Qed.

Lemma concat_perm {A B} (f : A -> list B) cs cs' : cs ≡ₚ cs' -> concat (map f cs) ≡ₚ concat (map f cs').
Proof.
  induction 1 as [|c cs cs' _ IH|c c' cs|cs1 cs2 cs3 _ IH1 _ IH2]; cbn [map concat]; [done| | |by rewrite IH1].
  - by rewrite IH.
  - rewrite !app_assoc. by rewrite (Permutation_app_comm (f c)).
Qed.

Lemma sort_children_ok cs :
  Forall (fun c => exists c', directory_sort c = Ok c' /\ sorted_from c c') cs ->
  exists cs', sort_children cs = Ok cs' /\ Forall2 sorted_from cs cs'.
Proof.
  induction 1 as [|c cs (c' & Hc & Hs) _ (cs' & Hcs & IH)]; [by exists []|]. exists (c' :: cs').
  cbn [sort_children]. rewrite Hc. cbn [mbind res_bind]. rewrite Hcs. cbn [mbind res_bind]. by split; [|constructor].
Qed.

Lemma perm_names d cs names cs' :
  cs ≡ₚ cs' -> map path cs = map (child_path d) names ->
  exists ns, ns ≡ₚ names /\ map path cs' = map (child_path d) ns.
Proof.
  intros H. revert names. induction H as [|c cs cs' _ IH|c c' cs|cs1 cs2 cs3 _ IH1 _ IH2]; intros names Hp.
  - by exists names.
  - destruct names as [|n names]; [done|]. injection Hp as Hc Hp. destruct (IH names Hp) as (ns & Hns & E).
    exists (n :: ns). split; [by rewrite Hns|]. cbn [map]. by rewrite Hc, E.
  - destruct names as [|n [|n' names]]; [done|done|]. injection Hp as Hc Hc' Hp. exists (n' :: n :: names).
    split; [apply Permutation_swap|]. cbn [map]. by rewrite Hc, Hc', Hp.
  - destruct (IH1 names Hp) as (ns & Hns & E). destruct (IH2 ns E) as (ns' & Hns' & E').
    exists ns'. split; [by rewrite Hns'|done].
Qed.

Lemma directory_sort_ok d : sortable d -> exists d', directory_sort d = Ok d' /\ sorted_from d d'.
Proof.
  induction d as [p t st cs ss pl IH] using directory_ind'. intros Hsort. inversion Hsort as [d' Hlc Hls Hfc E]. subst d'.
  cbn [children songs] in *. rewrite directory_sort_eq. cbn [children songs].
  assert (Hcs : Forall (fun c => exists c', directory_sort c = Ok c' /\ sorted_from c c') cs).
  { rewrite Forall_forall in *. intros c Hc. apply IH; auto. }
  destruct (sort_children_ok cs Hcs) as (cs' & -> & Hf). cbn [mbind res_bind]. pose proof (Forall2_length _ _ _ Hf) as Hl.
  destruct (sort_list_ok (fun a b => directory_cmp (path a) (path b)) cs') as (cs2 & E2 & Hp2); [by rewrite <- Hl|].
  destruct (sort_list_ok (fun a b => song_cmp (sort_key a) (sort_key b)) ss) as (ss2 & E3 & Hp3); [done|].
  rewrite E2. cbn [mbind res_bind]. rewrite E3. cbn [mbind res_bind]. eexists. split; [done|].
  unfold sorted_from. cbn [set_songs set_children path children songs playlists all_songs all_playlists].
  split; [done|]. split; [|split; [|split]].
  - intros (names & Hg & Hnd & Hp & Hc & Hs & Hpl)%wf_inv. cbn [children songs playlists] in *.
    rewrite <- (Forall2_paths _ _ Hf) in Hp. destruct (perm_names _ cs' names cs2 ltac:(done) Hp) as (ns & Hns & En).
    apply (wf_intro _ ns); cbn [set_songs set_children children songs playlists].
    + by rewrite Hns.
    + by rewrite Hns.
    + exact En.
    + rewrite Hp2. clear -Hf Hc. induction Hf as [|c c' cs cs' (_ & Hw & _) _ IHf]; [constructor|].
      apply Forall_cons in Hc as [Hc Hcs]. constructor; auto.
    + change (NoDup (ds_uri <$> ss2)). by rewrite Hp3.
    + done.
  - rewrite (concat_perm _ _ _ Hp2). apply Permutation_app.
    + change (((fun s => (p, s)) <$> ss2) ≡ₚ ((fun s => (p, s)) <$> ss)). by rewrite Hp3.
    + apply concat_map_perm. eapply Forall2_impl; [exact Hf|]. by intros c c' (_ & _ & H & _).
  - rewrite (concat_perm _ _ _ Hp2). apply Permutation_app; [done|].
    apply concat_map_perm. eapply Forall2_impl; [exact Hf|]. by intros c c' (_ & _ & _ & H & _).
  - intros HC. unfold sort_list in E2. destruct (_ <? _); [|done]. injection E2 as <-.
    apply fsort_sorted. intros a b. unfold leb, directory_cmp. pose proof (collate_antisym (path a) (path b)). lia.
Qed.

End sort.
