(* ===== verification/SortTheorems.v ===== *)
(** * Theorems on sorting

    The merge sort on linked lists, its limit, and the order of songs. *)

From S2P Require Import Prelude CString TagPool TagValue LinkedList MergeSort ListSortProofs.
From S2P Require Import SongSort Directory.
From stdpp Require Import sorting.
Local Open Scope Z_scope.

(** ** The order of strings by their bytes *)

Fixpoint compare_bytes (a b : cstring) : Z :=
  match a, b with
  | [], [] => 0
  | [], _ :: _ => -1
  | _ :: _, [] => 1
  | x :: a, y :: b => if char_code x =? char_code y then compare_bytes a b else char_code x - char_code y
  end.

#[export] Instance byte_collate : Collate := {| g_utf8_collate := compare_bytes |}.

#[export] Instance byte_collate_spec : CollateSpec byte_collate.
Proof.
  split; cbn [g_utf8_collate byte_collate].
  - intros a. induction a as [|x a IH]; intros [|y b]; simpl; [lia..|].
    destruct (Z.eqb_spec (char_code x) (char_code y)), (Z.eqb_spec (char_code y) (char_code x)); (apply IH || lia).
  - intros a. induction a as [|x a IH]; intros [|y b] [|z c]; simpl; try lia.
    destruct (Z.eqb_spec (char_code x) (char_code y)), (Z.eqb_spec (char_code y) (char_code z)), (Z.eqb_spec (char_code x) (char_code z));
      (apply IH || lia).
Qed.

(** ** Lists in memory *)

(** Three nodes behind a head. *)
Definition sample_heap : heap :=
  list_to_map [(1%positive, ListHead (Some 2%positive) (Some 4%positive)); (2%positive, ListHead (Some 3%positive) (Some 1%positive));
               (3%positive, ListHead (Some 4%positive) (Some 2%positive)); (4%positive, ListHead (Some 1%positive) (Some 3%positive))].

Lemma sample_dll : dll sample_heap 1%positive [2%positive; 3%positive; 4%positive].
Proof.
  split; [by apply (bool_decide_unpack _); vm_compute|]. repeat split; vm_compute; eauto.
Qed.

(** The addresses from large to small, even ones first. *)
Definition parity_cmp (a b : addr) : Z := Z.pos a `mod` 2 - Z.pos b `mod` 2.

(** ** Claims *)

(** C24: [list_sort()], with any comparison that orders the nodes, relinks a
    list of less than [2^21] nodes into the sorted permutation that keeps
    equal nodes in their order, with the links in both directions, and touches
    nothing else. *)
Theorem list_sort_refines cmp h xs m :
  dll m h xs -> Z.of_nat (length xs) < 2 ^ 21 ->
  (forall a b, cmp a b <= 0 \/ cmp b a <= 0) -> (forall a b c, cmp a b <= 0 -> cmp b c <= 0 -> cmp a c <= 0) ->
  wp (list_sort cmp h m) (fun m' => exists ys,
    dll m' h ys /\ ys ≡ₚ xs /\ StronglySorted (MergeSort.leb cmp) ys /\ (forall x, MergeSort.key_of cmp x ys = MergeSort.key_of cmp x xs) /\
    same_outside (h :: xs) m m').
Proof.
  intros Hd Hlen Htot Htr. assert (Ht : Total (MergeSort.leb cmp)) by exact Htot. assert (Hr : Transitive (MergeSort.leb cmp)) by exact Htr.
  assert (Hl : (length xs < 2 ^ (MAX_LIST_LENGTH_BITS + 1))%nat).
  { apply Nat2Z.inj_lt. rewrite Nat2Z.inj_pow. exact Hlen. }
  eapply wp_mono; [by apply list_sort_ok|]. intros m' [Hd' Hk]. eexists. split; [exact Hd'|].
  split; [by apply fsort_perm|]. split; [apply Sorted_StronglySorted; [exact Hr|by apply fsort_sorted]|].
  split; [|done]. intros x. by apply fsort_stable.
Qed.

Lemma list_sort_refines_witness :
  dll sample_heap 1%positive [2%positive; 3%positive; 4%positive] /\
  wp (list_sort parity_cmp 1%positive sample_heap) (fun m' => exists ys, dll m' 1%positive ys /\
    ys ≡ₚ [2%positive; 3%positive; 4%positive] /\ StronglySorted (MergeSort.leb parity_cmp) ys /\
    (forall x, MergeSort.key_of parity_cmp x ys = MergeSort.key_of parity_cmp x [2%positive; 3%positive; 4%positive]) /\
    same_outside [1%positive; 2%positive; 3%positive; 4%positive] sample_heap m').
Proof.
  split; [exact sample_dll|]. apply (list_sort_refines parity_cmp _ _ _ sample_dll); unfold parity_cmp; [reflexivity|lia|lia].
Defined.

(** With one node more the array of parts is left: the code has no check. *)
Theorem list_sort_limit cmp h xs m :
  dll m h xs -> 2 ^ 21 <= Z.of_nat (length xs) -> list_sort cmp h m = Err OutOfBounds.
Proof.
  intros Hd Hlen. apply (list_sort_too_long cmp h xs m Hd). apply Nat2Z.inj_le. rewrite Nat2Z.inj_pow. exact Hlen.
Qed.

(** The songs whose disc and track numbers fit into [int] are ordered. *)
Definition small_songs (ss : list db_song) : Prop := Forall (fun s => small_song (sort_key s)) ss.

Abbreviation songs_cmp := (fun a b : db_song => song_cmp (sort_key a) (sort_key b)).

Lemma small_lift (ss : list db_song) :
  small_songs ss -> exists l : list { s | small_song (sort_key s) }, map proj1_sig l = ss.
Proof.
  induction 1 as [|s ss Hs _ [l IH]]; [by exists []|]. exists (exist _ s Hs :: l). cbn [map]. by rewrite IH.
Qed.

Lemma StronglySorted_map {A B} (f : A -> B) (R : B -> B -> Prop) l :
  StronglySorted (fun a b => R (f a) (f b)) l -> StronglySorted R (map f l).
Proof. induction 1 as [|x l _ IH Hx]; constructor; [done|]. by apply Forall_map. Qed.

(** The songs of a directory are sorted by album, disc, track and file
    name, if disc and track numbers fit into [int]: the result is a
    permutation in which no song comes before a smaller one.  Without the
    limit the comparison is not an order: three songs compare in a cycle. *)
Theorem song_sort_correct {C : Collate} {HC : CollateSpec C} (ss : list db_song) :
  small_songs ss -> Z.of_nat (length ss) < 2 ^ 21 ->
  exists ys, sort_list songs_cmp ss = Ok ys /\ ys ≡ₚ ss /\ StronglySorted (fun a b => songs_cmp a b <= 0) ys.
Proof.
  intros Hs Hlen. destruct (sort_list_ok songs_cmp ss Hlen) as (ys & E & Hp). exists ys. split; [done|]. split; [done|].
  destruct (small_lift ss Hs) as [l <-].
  set (f := @proj1_sig db_song (fun s => small_song (sort_key s))) in *.
  set (cmp' := fun a b => songs_cmp (f a) (f b)).
  assert (Hpre : SongSort.preorder cmp').
  { apply (preorder_key (fun s : { s | small_song (sort_key s) } => exist _ (sort_key (`s)) (proj2_sig s)) _ song_cmp_preorder). }
  unfold sort_list in E. rewrite (proj2 (Z.ltb_lt _ _) Hlen) in E. injection E as <-.
  change (map f l) with (f <$> l). rewrite <- (fsort_map f songs_cmp 21 l). apply StronglySorted_map.
  assert (Ht : Total (MergeSort.leb cmp')) by (intros a b; by apply pre_total).
  assert (Hr : Transitive (MergeSort.leb cmp')) by (intros a b c; by apply pre_trans).
  apply Sorted_StronglySorted; [exact Hr|]. apply (fsort_sorted cmp').
Qed.

Definition sample_song (uri track : string) : db_song :=
  DbSong (lit uri) (Some (TagData 200 false [(TAG_ALBUM, lit "Future Days"); (TAG_TRACK, lit track)])) 0 0 0.

Lemma song_sort_correct_witness :
  let ss := [sample_song "b.ogg" "3"; sample_song "c.ogg" "1"; sample_song "a.ogg" "2"] in
  small_songs ss /\ exists ys, sort_list songs_cmp ss = Ok ys /\ ys ≡ₚ ss /\ StronglySorted (fun a b => songs_cmp a b <= 0) ys.
Proof.
  cbv zeta. set (ss := [_; _; _]).
  assert (Hs : small_songs ss) by (repeat constructor; vm_compute; reflexivity).
  split; [exact Hs|]. apply (song_sort_correct ss Hs). reflexivity.
Defined.
