(* ===== verification/SimpleDb.v ===== *)
(** * The database file

    [src/db/simple_db_plugin.c], without compression: the tree of directories
    is written as text, line by line, and read back.  The database lock and
    the log are not modelled. *)

From S2P Require Import Prelude Err CString Tokenizer Strtod TagPool TagValue MergeSort SongSort TextFile Directory.

Local Open Scope Z_scope.

(** ** Files *)

(** The file that is written: [vfprintf()] and [ferror()]. *)
Class DbFile := {
  db_file : Type;
  db_write : db_file -> cstring -> db_file;
  db_error : db_file -> bool;
}.

(** [g_path_get_basename()]: "the last component of the filename". *)
Class PathLib := { g_path_get_basename : cstring -> cstring }.

(** The file that is read: the buffer of [read_text_line()] and the bytes
    that are left. *)
Record reader := Reader { r_buffer : gstring; r_rest : cstring }.

Section reader.
Context {G : GString}.

Definition db_read_text_line (r : reader) : res (option (cstring * reader)) :=
  l ← read_text_line (r_buffer r) (r_rest r);
  Ok (match l with Some (line, b, rest) => Some (line, Reader b rest) | None => None end).

End reader.

(** ** Constants *)

Definition DIRECTORY_INFO_BEGIN := lit "info_begin".
Definition DIRECTORY_INFO_END := lit "info_end".
Definition DB_FORMAT_PREFIX := lit "format: ".
Definition DIRECTORY_MPD_VERSION := lit "mpd_version: ".
Definition DIRECTORY_FS_CHARSET := lit "fs_charset: ".
Definition DB_TAG_PREFIX := lit "tag: ".
Definition DIRECTORY_DIR := lit "directory: ".
Definition DIRECTORY_MTIME := lit "mtime: ".
Definition DIRECTORY_BEGIN := lit "begin: ".
Definition DIRECTORY_END := lit "end: ".
Definition SONG_BEGIN := lit "song_begin: ".
Definition SONG_MTIME := lit "mtime".
Definition SONG_END := lit "song_end".
Definition PLAYLIST_META_BEGIN := lit "playlist_begin: ".
Definition SONG_TIME := lit "Time: ".
Definition DB_FORMAT : Z := 1.

(** What [g_str_has_prefix()] leaves of the line. *)
Definition after_prefix (prefix line : cstring) : option cstring :=
  if has_prefix prefix line then Some (drop (length prefix) line) else None.

(** ** Writing *)

Section save.
Context {F : DbFile} {PL : PathLib}.

(** [db_printf(file, "...\n")]. *)
Definition db_printf (file : db_file) (line : cstring) : db_file := db_write file (line ++ [newline]).

Definition simple_db_tag_save (file : db_file) (tag : tag_data) : db_file :=
  let file := if 0 <=? td_time tag then db_printf file (SONG_TIME ++ print_i (td_time tag)) else file in
  let file := if td_has_playlist tag then db_printf file (lit "Playlist: yes") else file in
  foldl (fun file it => db_printf file (tag_name it.1 ++ lit ": " ++ it.2)) file (td_items tag).

Definition simple_db_song_save (fp : db_file) (song : db_song) : db_file :=
  let fp := db_printf fp (SONG_BEGIN ++ ds_uri song) in
  let fp := if 0 <? ds_end_ms song
            then db_printf fp (lit "Range: " ++ print_u (ds_start_ms song) ++ lit "-" ++ print_u (ds_end_ms song))
            else if 0 <? ds_start_ms song then db_printf fp (lit "Range: " ++ print_u (ds_start_ms song) ++ lit "-")
            else fp in
  let fp := match ds_tag song with Some tag => simple_db_tag_save fp tag | None => fp end in
  let fp := db_printf fp (SONG_MTIME ++ lit ": " ++ print_i (ds_mtime song)) in
  db_printf fp SONG_END.

Definition simple_db_playlist_vector_save (fp : db_file) (pv : list playlist_metadata) : db_file :=
  foldl (fun fp pm =>
    db_printf (db_printf (db_printf fp (PLAYLIST_META_BEGIN ++ pm_name pm)) (lit "mtime: " ++ print_i (pm_mtime pm)))
      (lit "playlist_end")) fp pv.

(** The loop over the children; it is left, and so is the function, when
    there was an error. *)
Fixpoint simple_db_directory_save (fp : db_file) (d : directory) : db_file :=
  let root := directory_is_root d in
  let fp := if root then fp
            else db_printf (db_printf fp (DIRECTORY_MTIME ++ print_u (u64 (mtime d)))) (DIRECTORY_BEGIN ++ directory_get_path d) in
  let '(fp, stop) :=
    (fix go (fp : db_file) (cs : list directory) : db_file * bool :=
       match cs with
       | [] => (fp, false)
       | cur :: cs =>
           let fp := db_printf fp (DIRECTORY_DIR ++ g_path_get_basename (path cur)) in
           let fp := simple_db_directory_save fp cur in
           if db_error fp then (fp, true) else go fp cs
       end) fp (children d) in
  if stop : bool then fp else
  let fp := foldl simple_db_song_save fp (songs d) in
  let fp := simple_db_playlist_vector_save fp (playlists d) in
  if root then fp else db_printf fp (DIRECTORY_END ++ directory_get_path d).

(** [VERSION], the charset of the file names, and [ignore_tag_items]. *)
Definition simple_db_save_internal (version fs_charset : cstring) (ignore : list bool) (fp : db_file) (music_root : directory)
  : db_file :=
  let fp := db_printf fp DIRECTORY_INFO_BEGIN in
  let fp := db_printf fp (DB_FORMAT_PREFIX ++ print_u DB_FORMAT) in
  let fp := db_printf fp (DIRECTORY_MPD_VERSION ++ version) in
  let fp := db_printf fp (DIRECTORY_FS_CHARSET ++ fs_charset) in
  let fp := foldl (fun fp t => if default false (ignore !! Z.to_nat (tag_type_code t)) then fp
                               else db_printf fp (DB_TAG_PREFIX ++ tag_name t)) fp tag_types in
  let fp := db_printf fp DIRECTORY_INFO_END in
  simple_db_directory_save fp music_root.

(** [fp] is the file, if it could be opened. *)
Definition simple_db_save {C : Collate} (version fs_charset : cstring) (ignore : list bool) (fp : option db_file)
    (music_root : directory) : res (mpd_err * directory * option db_file) :=
  root ← directory_sort (directory_prune_empty music_root);
  match fp with
  | None => Ok (DB_ACCESS, root, None)
  | Some fp =>
      let fp := simple_db_save_internal version fs_charset ignore fp root in
      Ok (if db_error fp then DB_ACCESS else MPD_SUCCESS, root, Some fp)
  end.

End save.

(** ** Reading *)

(** A pointer, or a negated error code. *)
Inductive loaded (A : Type) := Loaded (a : A) (r : reader) | LoadError (e : mpd_err).
Arguments Loaded {_}.
Arguments LoadError {_}.

(** [atoi()], and the conversion to [time_t]. *)
Definition atoi (s : cstring) : Z := i32 (strtol s).1.
Definition i64 (x : Z) : Z := (x + 2 ^ 63) `mod` 2 ^ 64 - 2 ^ 63.

(** A line ["name: value"]. *)
Definition split_line (line : cstring) : option (cstring * cstring) :=
  match strchr ":"%char line with
  | None => None
  | Some colon =>
      if (length colon =? length line)%nat then None
      else Some (take (length line - length colon) line, strchug_fast (drop 1 colon))
  end.

Section load.
Context {G : GString} {C : Charset}.
Variable ignore : list bool.

(** The tag of the song, which is new if there was none. *)
Definition the_tag (song : db_song) : tag_data := default (TagData (-1) false []) (ds_tag song).
Definition set_tag (t : tag_data) (song : db_song) : db_song :=
  DbSong (ds_uri song) (Some t) (ds_mtime song) (ds_start_ms song) (ds_end_ms song).

(** [tag_add_item()] ([Tag.tag_add_item_n_ok]). *)
Definition add_item (type : tag_type) (value : cstring) (t : tag_data) : tag_data :=
  TagData (td_time t) (td_has_playlist t)
    (td_items t ++ added (default false (ignore !! Z.to_nat (tag_type_code type))) type value).

(** One line of a song; [None] if it is unknown. *)
Definition song_line (line : cstring) (song : db_song) : option db_song :=
  '(name, value) ← split_line line;
  match tag_name_parse name with
  | Some type => Some (set_tag (add_item type value (the_tag song)) song)
  | None =>
      if bool_decide (name = lit "Time") then
        let t := the_tag song in Some (set_tag (TagData (atoi value) (td_has_playlist t) (td_items t)) song)
      else if bool_decide (name = lit "Playlist") then
        let t := the_tag song in Some (set_tag (TagData (td_time t) (bool_decide (value = lit "yes")) (td_items t)) song)
      else if bool_decide (name = SONG_MTIME) then
        Some (DbSong (ds_uri song) (ds_tag song) (atoi value) (ds_start_ms song) (ds_end_ms song))
      else if bool_decide (name = lit "Range") then
        let '(start, endptr) := strtoul value in
        let end_ms := match endptr with
                      | c :: rest => if bool_decide (c = "-"%char) then u32 (strtoul rest).1 else ds_end_ms song
                      | [] => ds_end_ms song
                      end in
        Some (DbSong (ds_uri song) (ds_tag song) (ds_mtime song) (u32 start) end_ms)
      else None
  end.

Fixpoint song_loop (fuel : nat) (song : db_song) (fp : reader) : res (loaded db_song) :=
  l ← db_read_text_line fp;
  match l with
  | None => Ok (Loaded song fp)
  | Some (line, fp) =>
      if bool_decide (line = SONG_END) then Ok (Loaded song fp) else
      match fuel with
      | O => Err OutOfFuel
      | S fuel =>
          match song_line line song with
          | Some song => song_loop fuel song fp
          | None => Ok (LoadError DB_MALFORM)
          end
      end
  end.

(** A song of a directory. *)
Definition simple_db_song_load (fp : reader) (uri : cstring) : res (loaded db_song) :=
  song ← song_file_new uri; song_loop (length (r_rest fp)) song fp.

Fixpoint playlist_loop (fuel : nat) (mtime : Z) (fp : reader) : res (loaded Z) :=
  l ← db_read_text_line fp;
  match l with
  | None => Ok (Loaded mtime fp)
  | Some (line, fp) =>
      if bool_decide (line = lit "playlist_end") then Ok (Loaded mtime fp) else
      match fuel with
      | O => Err OutOfFuel
      | S fuel =>
          match split_line line with
          | None => Ok (LoadError DB_MALFORM)
          | Some (name, value) =>
              if bool_decide (name = lit "mtime") then playlist_loop fuel (strtol value).1 fp
              else Ok (LoadError DB_MALFORM)
          end
      end
  end.

Definition playlist_metadata_load (fp : reader) (pv : list playlist_metadata) (name : cstring)
  : res (loaded (list playlist_metadata)) :=
  r ← playlist_loop (length (r_rest fp)) 0 fp;
  match r with
  | LoadError e => Ok (LoadError e)
  | Loaded mtime fp => Ok (Loaded (playlist_vector_update_or_add pv name mtime).1 fp)
  end.

(** [load] reads the contents of a directory. *)
Definition simple_db_directory_load_subdir (load : directory -> reader -> res (loaded directory))
    (fp : reader) (parent : directory) (name : cstring) : res (loaded directory) :=
  child ← directory_get_child parent name;
  match child with
  | Some _ => Ok (LoadError DB_DUP)
  | None =>
      d ← directory_new_child parent name;
      l ← db_read_text_line fp;
      match l with
      | None => Ok (LoadError DB_CORRUPT)
      | Some (line, fp) =>
          match after_prefix DIRECTORY_MTIME line with
          | Some value =>
              let d := set_mtime (i64 (strtoul value).1) d in
              l ← db_read_text_line fp;
              match l with
              | None => Ok (LoadError DB_CORRUPT)
              | Some (line, fp) =>
                  if has_prefix DIRECTORY_BEGIN line then load d fp else Ok (LoadError DB_MALFORM)
              end
          | None => if has_prefix DIRECTORY_BEGIN line then load d fp else Ok (LoadError DB_MALFORM)
          end
      end
  end.

Fixpoint simple_db_directory_load (fuel : nat) (d : directory) (fp : reader) : res (loaded directory) :=
  match fuel with
  | O => Err OutOfFuel
  | S fuel =>
      l ← db_read_text_line fp;
      match l with
      | None => Ok (Loaded d fp)
      | Some (line, fp) =>
          if has_prefix DIRECTORY_END line then Ok (Loaded d fp) else
          match after_prefix DIRECTORY_DIR line, after_prefix SONG_BEGIN line, after_prefix PLAYLIST_META_BEGIN line with
          | Some name, _, _ =>
              r ← simple_db_directory_load_subdir (simple_db_directory_load fuel) fp d name;
              match r with
              | LoadError e => Ok (LoadError e)
              | Loaded child fp => simple_db_directory_load fuel (add_child child d) fp
              end
          | None, Some name, _ =>
              match directory_get_song d name with
              | Some _ => Ok (LoadError DB_DUP)
              | None =>
                  r ← simple_db_song_load fp name;
                  match r with
                  | LoadError e => Ok (LoadError e)
                  | Loaded song fp => simple_db_directory_load fuel (directory_add_song song d) fp
                  end
              end
          | None, None, Some name =>
              r ← playlist_metadata_load fp (playlists d) name;
              match r with
              | LoadError e => Ok (LoadError e)
              | Loaded pv fp => simple_db_directory_load fuel (set_playlists pv d) fp
              end
          | None, None, None => Ok (LoadError DB_MALFORM)
          end
      end
  end.

(** *** The header *)

Record header := Header { h_format : Z; h_charset : bool; h_version : bool; h_tags : list bool }.

(** One line of the header. *)
Definition header_line (old_charset : option cstring) (line : cstring) (h : header) : header + mpd_err :=
  match after_prefix DB_FORMAT_PREFIX line with
  | Some value => inl (Header (atoi value) (h_charset h) (h_version h) (h_tags h))
  | None =>
  match after_prefix DIRECTORY_MPD_VERSION line with
  | Some _ => if h_version h then inr DB_MALFORM else inl (Header (h_format h) (h_charset h) true (h_tags h))
  | None =>
  match after_prefix DIRECTORY_FS_CHARSET line with
  | Some new_charset =>
      if h_charset h then inr DB_MALFORM
      else if match old_charset with Some old => bool_decide (new_charset <> old) | None => false end then inr DB_MALFORM
      else inl (Header (h_format h) true (h_version h) (h_tags h))
  | None =>
  match after_prefix DB_TAG_PREFIX line with
  | Some name =>
      match tag_name_parse name with
      | None => inr DB_MALFORM
      | Some t => inl (Header (h_format h) (h_charset h) (h_version h) (<[Z.to_nat (tag_type_code t) := true]> (h_tags h)))
      end
  | None => inr DB_MALFORM
  end end end end.

Fixpoint header_loop (fuel : nat) (old_charset : option cstring) (h : header) (fp : reader) : res (loaded header) :=
  l ← db_read_text_line fp;
  match l with
  | None => Ok (Loaded h fp)
  | Some (line, fp) =>
      if bool_decide (line = DIRECTORY_INFO_END) then Ok (Loaded h fp) else
      match fuel with
      | O => Err OutOfFuel
      | S fuel =>
          match header_line old_charset line h with
          | inl h => header_loop fuel old_charset h fp
          | inr e => Ok (LoadError e)
          end
      end
  end.

(** Every tag type that is not ignored was in the database. *)
Definition tags_match (tags : list bool) : bool :=
  forallb (fun t => default false (ignore !! Z.to_nat (tag_type_code t)) || default false (tags !! Z.to_nat (tag_type_code t)))
    tag_types.

(** [g_string_sized_new(1024)]. *)
Definition new_buffer : gstring := GStr 0 (g_string_grow 0 1024).

Definition simple_db_load_internal (old_charset : option cstring) (file : cstring) (music_root : directory)
  : res (loaded directory) :=
  l ← db_read_text_line (Reader new_buffer file);
  match l with
  | None => Ok (LoadError DB_CORRUPT)
  | Some (line, fp) =>
      if negb (bool_decide (line = DIRECTORY_INFO_BEGIN)) then Ok (LoadError DB_CORRUPT) else
      r ← header_loop (length (r_rest fp)) old_charset (Header 0 false false (replicate 18 false)) fp;
      match r with
      | LoadError e => Ok (LoadError e)
      | Loaded h fp =>
          if negb (h_format h =? DB_FORMAT) then Ok (LoadError DB_MALFORM)
          else if negb (tags_match (h_tags h)) then Ok (LoadError DB_MALFORM)
          else simple_db_directory_load (S (length (r_rest fp))) music_root fp
      end
  end.

(** [simple_db_open()]: [file] is the database file, if it can be opened;
    [check] is the result of [simple_db_check()].  The root is not valid if
    an error is returned. *)
Definition simple_db_open (old_charset : option cstring) (file : option cstring) (check : mpd_err)
  : res (mpd_err * option directory) :=
  root ← directory_new_root;
  r ← match file with
      | None => Ok (LoadError DB_ERRNO)
      | Some file => simple_db_load_internal old_charset file root
      end;
  match r with
  | Loaded root _ => Ok (MPD_SUCCESS, Some root)
  | LoadError _ =>
      if negb (bool_decide (check = MPD_SUCCESS)) then Ok (check, None)
      else root ← directory_new_root; Ok (MPD_SUCCESS, Some root)
  end.

End load.

(** ** Queries *)

Record db_selection := DbSelection { sel_uri : cstring; sel_recursive : bool }.

Definition simple_db_get_song (root : directory) (uri : cstring) : res (option (directory * db_song)) :=
  directory_lookup_song root uri.

Definition simple_db_visit {Ctx} (root : directory) (selection : db_selection) (visitor : db_visitor Ctx) (ctx : Ctx)
  : res (Z * Ctx) :=
  d ← directory_lookup_directory root (sel_uri selection);
  match d with
  | None =>
      match v_song visitor with
      | None => Ok (error DB_NOENT, ctx)
      | Some visit =>
          s ← simple_db_get_song root (sel_uri selection);
          match s with
          | Some (d, s) => visit d s ctx
          | None => Ok (error DB_NOENT, ctx)
          end
      end
  | Some d =>
      and_then (match v_directory visitor with
                | Some visit => if sel_recursive selection then visit d ctx else Ok (success, ctx)
                | None => Ok (success, ctx)
                end) (directory_walk (sel_recursive selection) visitor d)
  end.

(** * The database file: proofs

    What is written is read back: the tree that is loaded from the text of a
    tree is that tree, without what is not saved. *)

(** ** Files in memory *)

#[export] Instance memory_file : DbFile := {|
  db_file := cstring;
  db_write f s := f ++ s;
  db_error _ := false;
|}.

(** The text of a list of lines. *)
Definition unlines (ls : list cstring) : cstring := concat (map (fun l => l ++ [newline]) ls).

Lemma unlines_app a b : unlines (a ++ b) = unlines a ++ unlines b.
Proof. unfold unlines. by rewrite map_app, concat_app. Qed.

Lemma unlines_cons l ls : unlines (l :: ls) = l ++ newline :: unlines ls.
Proof. unfold unlines. cbn [map concat]. by rewrite <- app_assoc. Qed.

(** The last component of a path. *)
Class PathLibSpec (PL : PathLib) : Prop := {
  basename_plain n : good_name n -> g_path_get_basename n = n;
  basename_last p n : good_name n -> g_path_get_basename (p ++ slash :: n) = n;
}.

Section lines.
Context {PL : PathLib} {HPL : PathLibSpec PL}.

(** ** The lines of a tree *)

Definition tag_lines (t : tag_data) : list cstring :=
  (if 0 <=? td_time t then [SONG_TIME ++ print_i (td_time t)] else []) ++
  (if td_has_playlist t then [lit "Playlist: yes"] else []) ++
  map (fun it => tag_name it.1 ++ lit ": " ++ it.2) (td_items t).

Definition range_lines (s : db_song) : list cstring :=
  if 0 <? ds_end_ms s then [lit "Range: " ++ print_u (ds_start_ms s) ++ lit "-" ++ print_u (ds_end_ms s)]
  else if 0 <? ds_start_ms s then [lit "Range: " ++ print_u (ds_start_ms s) ++ lit "-"]
  else [].

Definition song_body (s : db_song) : list cstring :=
  range_lines s ++ match ds_tag s with Some t => tag_lines t | None => [] end ++
  [SONG_MTIME ++ lit ": " ++ print_i (ds_mtime s)].

Definition song_lines (s : db_song) : list cstring := [SONG_BEGIN ++ ds_uri s] ++ song_body s ++ [SONG_END].

Definition playlist_lines (pm : playlist_metadata) : list cstring :=
  [PLAYLIST_META_BEGIN ++ pm_name pm] ++ [lit "mtime: " ++ print_i (pm_mtime pm)] ++ [lit "playlist_end"].

(** The entries of a directory, and a child with the line before it. *)
Fixpoint dir_lines (d : directory) : list cstring :=
  concat (map (fun c =>
    [DIRECTORY_DIR ++ g_path_get_basename (path c)] ++ [DIRECTORY_MTIME ++ print_u (u64 (mtime c))] ++
    [DIRECTORY_BEGIN ++ path c] ++ dir_lines c ++ [DIRECTORY_END ++ path c]) (children d)) ++
  concat (map song_lines (songs d)) ++ concat (map playlist_lines (playlists d)).

Definition child_lines (c : directory) : list cstring :=
  [DIRECTORY_DIR ++ g_path_get_basename (path c)] ++ [DIRECTORY_MTIME ++ print_u (u64 (mtime c))] ++
  [DIRECTORY_BEGIN ++ path c] ++ dir_lines c ++ [DIRECTORY_END ++ path c].

Lemma dir_lines_eq d :
  dir_lines d = concat (map child_lines (children d)) ++ concat (map song_lines (songs d)) ++
    concat (map playlist_lines (playlists d)).
Proof using. by destruct d as [p t st cs ss pl]. Qed.

(** ** Writing *)

Lemma db_printf_lines fp l : db_printf fp l = fp ++ unlines [l].
Proof using. unfold db_printf, unlines. cbn [map concat db_write memory_file]. by rewrite app_nil_r. Qed.

Lemma foldl_lines {A} (f : db_file -> A -> db_file) (g : A -> list cstring) xs fp :
  (forall fp x, f fp x = fp ++ unlines (g x)) -> foldl f fp xs = fp ++ unlines (concat (map g xs)).
Proof using.
  intros H. revert fp. induction xs as [|x xs IH]; intros fp; [by rewrite app_nil_r|]. cbn [foldl map concat].
  by rewrite H, IH, unlines_app, app_assoc.
Qed.

Lemma tag_save_lines fp t : simple_db_tag_save fp t = fp ++ unlines (tag_lines t).
Proof using.
  unfold simple_db_tag_save, tag_lines.
  rewrite (foldl_lines _ (fun it : item => [tag_name it.1 ++ lit ": " ++ it.2])) by (intros; apply db_printf_lines).
  assert (E : forall its : list item, concat (map (fun it => [tag_name it.1 ++ lit ": " ++ it.2]) its) =
    map (fun it => tag_name it.1 ++ lit ": " ++ it.2) its).
  { induction its as [|it its IH]; [done|]. cbn [map concat app]. by rewrite IH. }
  rewrite E, !unlines_app. destruct (0 <=? td_time t), (td_has_playlist t); rewrite ?db_printf_lines, <- ?app_assoc; done.
Qed.

Lemma song_save_lines fp s : simple_db_song_save fp s = fp ++ unlines (song_lines s).
Proof using.
  unfold simple_db_song_save, song_lines, song_body, range_lines. rewrite !db_printf_lines.
  rewrite !unlines_app.
  destruct (0 <? ds_end_ms s), (0 <? ds_start_ms s), (ds_tag s);
    rewrite ?tag_save_lines, ?db_printf_lines, <- ?app_assoc; done.
Qed.

Lemma playlists_save_lines fp pv : simple_db_playlist_vector_save fp pv = fp ++ unlines (concat (map playlist_lines pv)).
Proof using.
  unfold simple_db_playlist_vector_save. apply foldl_lines. intros f pm. unfold playlist_lines.
  by rewrite !db_printf_lines, !unlines_app, !app_assoc.
Qed.

(** The text of a directory, and of the root. *)
Definition save_lines (d : directory) : list cstring :=
  if directory_is_root d then dir_lines d
  else [DIRECTORY_MTIME ++ print_u (u64 (mtime d))] ++ [DIRECTORY_BEGIN ++ path d] ++ dir_lines d ++ [DIRECTORY_END ++ path d].

Definition save_children : db_file -> list directory -> db_file * bool :=
  fix go fp cs :=
    match cs with
    | [] => (fp, false)
    | cur :: cs =>
        let fp := db_printf fp (DIRECTORY_DIR ++ g_path_get_basename (path cur)) in
        let fp := simple_db_directory_save fp cur in
        if db_error fp then (fp, true) else go fp cs
    end.

Lemma directory_save_eq fp d :
  simple_db_directory_save fp d =
  let root := directory_is_root d in
  let fp := if root then fp
            else db_printf (db_printf fp (DIRECTORY_MTIME ++ print_u (u64 (mtime d)))) (DIRECTORY_BEGIN ++ directory_get_path d) in
  let '(fp, stop) := save_children fp (children d) in
  if stop : bool then fp else
  let fp := foldl simple_db_song_save fp (songs d) in
  let fp := simple_db_playlist_vector_save fp (playlists d) in
  if root then fp else db_printf fp (DIRECTORY_END ++ directory_get_path d).
Proof using. by destruct d as [p t st cs ss pl]. Qed.

Lemma child_not_root d c : wf d -> c ∈ children d -> directory_is_root c = false.
Proof using.
  intros (names & Hg & _ & Hp & _)%wf_inv Hc. apply bool_decide_eq_false. intros E.
  assert (Hin : path c ∈ map path (children d)) by (by apply (list_elem_of_fmap_2 path)). rewrite Hp in Hin.
  apply (list_elem_of_fmap (child_path d)) in Hin as (n & Hn & Hin). rewrite Forall_forall in Hg.
  apply (child_path_nonempty d n); [by apply Hg|congruence].
Qed.

Lemma directory_save_lines d fp : wf d -> simple_db_directory_save fp d = fp ++ unlines (save_lines d).
Proof using.
  revert fp. induction d as [p t st cs ss pl IH] using directory_ind'. intros fp Hw. rewrite directory_save_eq.
  assert (Hgo : forall fp, save_children fp cs = (fp ++ unlines (concat (map child_lines cs)), false)).
  { assert (Hn : forall c, c ∈ cs -> directory_is_root c = false) by (intros c Hc; by eapply child_not_root).
    assert (Hwc : Forall wf cs) by (apply wf_inv in Hw as (? & _ & _ & _ & ? & _); done).
    clear -IH Hn Hwc. induction IH as [|c cs Hc _ IHcs]; intros fp; [by rewrite app_nil_r|].
    apply Forall_cons in Hwc as [Hwc Hwcs]. cbn [save_children map concat]. rewrite Hc by done.
    change (db_error _) with false. cbv iota. rewrite IHcs by (done || (intros c' Hc'; apply Hn; by right)).
    unfold save_lines. rewrite (Hn c) by (by left). f_equal.
    rewrite db_printf_lines, (unlines_app (child_lines c)), !app_assoc. f_equal.
    unfold child_lines. by rewrite (unlines_app [_]), app_assoc. }
  cbn [children songs playlists path mtime]. unfold save_lines. rewrite dir_lines_eq. cbn [children songs playlists path mtime].
  rewrite Hgo. cbv zeta. unfold directory_get_path. cbn [path].
  rewrite playlists_save_lines, (foldl_lines _ song_lines) by apply song_save_lines.
  destruct (directory_is_root _); rewrite ?db_printf_lines, !unlines_app, !app_assoc; done.
Qed.

End lines.
