(* ===== verification/SimpleDbRoundtrip.v ===== *)
(** * The database file: what is written is read back

    Each part of the file, line by line: songs, playlists and directories.
    The text must be such that a line stays one line, and the values of tags
    such that storing them again does not change them. *)

From S2P Require Import Prelude Err CString Tokenizer Strtod TagPool TagValue MergeSort SongSort TextFile Directory.
From S2P Require Import SimpleDb.

Local Open Scope Z_scope.

(** ** Text *)

Definition clean_char (c : ascii) : bool := negb (bool_decide (c = newline)) && negb (bool_decide (c = carriage_return)).

(** Text that can be the end of a line. *)
Record good_text (t : cstring) : Prop := {
  text_newline : newline ∉ t;
  text_return : List.last t " "%char <> carriage_return;
  text_length : Z.of_nat (length t) + 2048 <= Z.of_nat max_length;
}.

Lemma clean_newline s : forallb clean_char s = true -> newline ∉ s.
Proof.
  intros H Hin. rewrite forallb_forall in H. apply list_elem_of_In in Hin. specialize (H _ Hin). by vm_compute in H.
Qed.

Lemma clean_last s : forallb clean_char s = true -> List.last s " "%char <> carriage_return.
Proof.
  intros H E. destruct s as [|c s]; [by vm_compute in E|]. pose proof (last_in c " "%char s) as Hin. rewrite E in Hin.
  rewrite forallb_forall in H. apply list_elem_of_In in Hin. specialize (H _ Hin). by vm_compute in H.
Qed.

Lemma clean_app a b : forallb clean_char (a ++ b) = forallb clean_char a && forallb clean_char b.
Proof. apply forallb_app. Qed.

Lemma clean_digits s : forallb is_digit s = true -> forallb clean_char s = true.
Proof.
  rewrite !forallb_forall. intros H c Hc. specialize (H c Hc). unfold is_digit in H. unfold clean_char.
  apply andb_true_intro. split; apply negb_true_iff, bool_decide_eq_false; intros ->; by vm_compute in H.
Qed.

Lemma digits_length fuel n : (length (digits_of fuel n) <= fuel)%nat.
Proof.
  revert n. induction fuel as [|fuel IH]; intros n; [done|]. cbn [digits_of]. rewrite length_app. cbn [length].
  destruct (n <? 10); [simpl; lia|]. specialize (IH (n / 10)). lia.
Qed.

Lemma clean_print_u n : 0 <= n < 2 ^ 64 -> forallb clean_char (print_u n) = true.
Proof. intros H. apply clean_digits. by apply print_u_spec. Qed.

Lemma clean_print_i n : - 2 ^ 63 < n < 2 ^ 63 -> forallb clean_char (print_i n) = true.
Proof.
  intros H. unfold print_i. destruct (Z.ltb_spec n 0); [|by apply clean_print_u; lia]. cbn [forallb].
  rewrite clean_print_u by lia. by vm_compute.
Qed.

Lemma print_i_length n : (length (print_i n) <= 21)%nat.
Proof. unfold print_i, print_u. destruct (n <? 0); cbn [length]; [pose proof (digits_length 20 (- n))|pose proof (digits_length 20 n)]; lia. Qed.

Lemma print_u_short n : (length (print_u n) <= 20)%nat.
Proof. apply digits_length. Qed.

(** A prefix and some text. *)
Lemma good_prefix p t :
  forallb clean_char p = true -> p <> [] -> (length p <= 100)%nat -> good_text t -> good_line (p ++ t).
Proof.
  intros Hp Hne Hlen [Hn Hr Hl]. split.
  - destruct p; done.
  - rewrite not_elem_of_app. split; [by apply clean_newline|done].
  - destruct t as [|c t]; [rewrite app_nil_r; by apply clean_last|]. rewrite last_app_ne; done.
  - rewrite length_app. pose proof max_length_eq. pose proof step_eq. lia.
Qed.

Lemma good_clean l : forallb clean_char l = true -> l <> [] -> (length l <= 100)%nat -> good_line l.
Proof.
  intros Hl Hne Hlen. rewrite <- (app_nil_r l). apply good_prefix; [done|done|done|]. split.
  - apply not_elem_of_nil.
  - cbn [List.last]. intros E. by vm_compute in E.
  - pose proof max_length_eq. cbn [length]. lia.
Qed.

Lemma good_text_nonempty t : good_text t -> t <> [] -> good_line t.
Proof.
  intros [Hn Hr Hl] Hne. split; [exact Hne|exact Hn|exact Hr|]. pose proof max_length_eq. pose proof step_eq. lia.
Qed.

(** A line is made of literals and numbers. *)
Ltac clean :=
  rewrite ?clean_app, ?clean_print_i, ?clean_print_u by lia; vm_compute; reflexivity.
Ltac short :=
  rewrite ?length_app; repeat match goal with
  | |- context [length (print_i ?n)] => pose proof (print_i_length n); generalize dependent (length (print_i n)); intros
  | |- context [length (print_u ?n)] => pose proof (print_u_short n); generalize dependent (length (print_u n)); intros
  end; simpl; lia.
Ltac good_number := apply good_clean; [clean|done|short].
Ltac good_numbers := repeat (apply Forall_cons_2; [good_number|]); apply Forall_nil_2.

(** ** Reading lines *)

Section load.
Context {G : GString} {HG : GStringSpec G} {C : Charset}.

Definition reads (fp : reader) (ls : list cstring) : Prop :=
  r_rest fp = unlines ls /\ (gs_len (r_buffer fp) < max_length)%nat.

Lemma read_line fp l ls :
  reads fp (l :: ls) -> good_line l ->
  exists fp', db_read_text_line fp = Ok (Some (l, fp')) /\ reads fp' ls /\ (length (r_rest fp') < length (r_rest fp))%nat.
Proof using HG.
  intros [Hr Hb] Hl. unfold db_read_text_line. rewrite Hr, unlines_cons.
  destruct (read_text_line_ok (r_buffer fp) l (unlines ls) Hl Hb) as (b' & -> & Hb'). cbn [mbind res_bind].
  eexists. split; [done|]. split; [|cbn [r_rest]; rewrite length_app; simpl; lia]. split; [done|]. cbn [r_buffer].
  rewrite Hb'. by apply good_line_len.
Qed.

Lemma read_end fp : reads fp [] -> db_read_text_line fp = Ok None.
Proof using HG. intros [Hr Hb]. unfold db_read_text_line. rewrite Hr. by rewrite read_text_line_eof. Qed.

(** ** Songs *)

Lemma split_line_ok n v : n <> [] -> ":"%char ∉ n -> split_line (n ++ lit ": " ++ v) = Some (n, strchug_fast v).
Proof using.
  clear HG. intros Hne Hn. unfold split_line. change (lit ": " ++ v) with (":"%char :: " "%char :: v). rewrite strchr_first by done.
  rewrite (strchr_take ":"%char _ n (":"%char :: " "%char :: v)) by done. rewrite length_app.
  destruct (Nat.eqb_spec (length (":"%char :: " "%char :: v)) (length n + length (":"%char :: " "%char :: v))) as [E|_].
  - destruct n; [done|]. simpl in E. lia.
  - do 2 f_equal. unfold strchug_fast. change (drop 1 (":"%char :: " "%char :: v)) with (" "%char :: v). cbn [span].
    change (g_ascii_isspace " ") with true. by destruct (span g_ascii_isspace v).
Qed.

Lemma song_line_not_end l p : split_line l = Some p -> l <> SONG_END.
Proof using. clear HG. intros H ->. by vm_compute in H. Qed.

(** The lines of a song, one after another. *)
Fixpoint song_steps (ignore : list bool) (ls : list cstring) (s : db_song) : option db_song :=
  match ls with [] => Some s | l :: ls => s' ← song_line ignore l s; song_steps ignore ls s' end.

Lemma song_steps_app ignore a b s : song_steps ignore (a ++ b) s = (s' ← song_steps ignore a s; song_steps ignore b s').
Proof using. clear HG. revert s. induction a as [|l a IH]; intros s; [done|]. cbn [app song_steps]. destruct (song_line ignore l s); [|done]. apply IH. Qed.

Lemma song_loop_ok ignore fuel song fp body song' ls :
  Forall good_line body -> reads fp (body ++ [SONG_END] ++ ls) -> (length body <= fuel)%nat ->
  song_steps ignore body song = Some song' ->
  exists fp', song_loop ignore fuel song fp = Ok (Loaded song' fp') /\ reads fp' ls /\
    (length (r_rest fp') < length (r_rest fp))%nat.
Proof using HG.
  intros Hg. revert fuel song fp. induction Hg as [|l body Hl _ IH]; intros fuel song fp Hr Hf Hs.
  - destruct (read_line fp SONG_END ls Hr) as (fp' & E & Hr' & Hlt).
    { apply good_clean; [by vm_compute|done|simpl; lia]. }
    exists fp'. injection Hs as <-. destruct fuel; cbn [song_loop]; rewrite E; cbn [mbind res_bind];
      by rewrite bool_decide_true.
  - destruct (read_line fp l _ Hr Hl) as (fp1 & E & Hr1 & Hlt1). destruct fuel as [|fuel]; [simpl in Hf; lia|].
    cbn [song_steps] in Hs. destruct (song_line ignore l song) as [s1|] eqn:Es; [|done].
    assert (Hne : l <> SONG_END).
    { unfold song_line in Es. destruct (split_line l) as [p|] eqn:Ep; [|done]. by eapply song_line_not_end. }
    cbn [song_loop]. rewrite E. cbn [mbind res_bind]. rewrite bool_decide_false by done. rewrite Es.
    destruct (IH fuel s1 fp1 Hr1) as (fp' & E' & Hr' & Hlt'); [simpl in Hf; lia|done|].
    exists fp'. split; [exact E'|]. split; [done|lia].
Qed.

Variable ignore : list bool.

Record good_item (it : item) : Prop := {
  item_text : good_text it.2;
  item_value : it.2 <> [];
  item_fixed : fixed it.2 = it.2;
  item_blank : strchug_fast it.2 = it.2;
  item_used : default false (ignore !! Z.to_nat (tag_type_code it.1)) = false;
}.

Record good_tag (t : tag_data) : Prop := {
  tag_items_good : Forall good_item (td_items t);
  tag_time_range : -1 <= td_time t < 2 ^ 31;
  tag_not_empty : 0 <= td_time t \/ td_has_playlist t = true \/ td_items t <> [];
}.

Record good_song (s : db_song) : Prop := {
  song_text : good_text (ds_uri s);
  song_uri : ds_uri s <> [];
  song_relative : match ds_uri s with c :: _ => c <> slash | [] => True end;
  song_mtime : - 2 ^ 31 <= ds_mtime s < 2 ^ 31;
  song_start : 0 <= ds_start_ms s < 2 ^ 32;
  song_end : 0 <= ds_end_ms s < 2 ^ 32;
  song_tag : match ds_tag s with Some t => good_tag t | None => True end;
}.

Lemma tag_name_clean t : forallb clean_char (tag_name t) = true /\ (length (tag_name t) <= 50)%nat /\
  tag_name t <> [] /\ ":"%char ∉ tag_name t.
Proof using. clear. destruct t; (split; [by vm_compute|]; split; [vm_compute; lia|]; split; [done|apply (bool_decide_unpack _); by vm_compute]). Qed.

Lemma item_line_ok it s :
  good_item it -> song_line ignore (tag_name it.1 ++ lit ": " ++ it.2) s =
    Some (set_tag (TagData (td_time (the_tag s)) (td_has_playlist (the_tag s)) (td_items (the_tag s) ++ [it])) s).
Proof using.
  clear HG. intros [Ht Hv Hf Hb Hu]. destruct (tag_name_clean it.1) as (_ & _ & Hne & Hc). unfold song_line.
  rewrite split_line_ok by done. cbn [mbind option_bind]. rewrite tag_name_parse_name, Hb.
  unfold add_item, added. rewrite Hu, Hf. destruct it as [ty v]. cbn [fst snd orb] in *.
  by destruct (Nat.eqb_spec (length v) 0) as [E|_]; [apply nil_length_inv in E|].
Qed.

(** A song has no tag until something is known of it. *)
Definition no_tag : tag_data := TagData (-1) false [].
#[local] Instance tag_data_eq_dec : EqDecision tag_data.
Proof. solve_decision. Defined.
Definition tagged (t : tag_data) (s : db_song) : db_song := if decide (t = no_tag) then s else set_tag t s.

Lemma tagged_some t s : t <> no_tag -> set_tag t s = tagged t s.
Proof using. clear. intros H. unfold tagged. by rewrite decide_False. Qed.

Lemma the_tag_tagged t s : ds_tag s = None -> the_tag (tagged t s) = t.
Proof using. clear. intros H. unfold tagged, the_tag. destruct (decide (t = no_tag)) as [->|]; [by rewrite H|done]. Qed.

Lemma set_tag_tagged u t s : set_tag u (tagged t s) = set_tag u s.
Proof using. clear. unfold tagged. by destruct (decide (t = no_tag)). Qed.

Lemma items_lines_ok its s t :
  ds_tag s = None -> Forall good_item its ->
  song_steps ignore (map (fun it => tag_name it.1 ++ lit ": " ++ it.2) its) (tagged t s) =
    Some (tagged (TagData (td_time t) (td_has_playlist t) (td_items t ++ its)) s).
Proof using.
  clear HG. intros Hs Hg. revert t. induction Hg as [|it its Hit _ IH]; intros t.
  - cbn [map song_steps]. rewrite app_nil_r. by destruct t.
  - cbn [map song_steps]. rewrite (item_line_ok _ _ Hit). cbn [mbind option_bind].
    rewrite the_tag_tagged, set_tag_tagged by done. rewrite tagged_some by (by destruct (td_items t)).
    rewrite IH. cbn [td_time td_has_playlist td_items]. by rewrite <- app_assoc.
Qed.

Lemma strchug_fast_plain c s : g_ascii_isspace c = false -> strchug_fast (c :: s) = c :: s.
Proof using. clear. intros H. unfold strchug_fast. cbn [span]. by rewrite H. Qed.

Lemma digit_not_blank c : is_digit c = true -> g_ascii_isspace c = false.
Proof using.
  clear. intros H. unfold g_ascii_isspace. by rewrite is_digit_not_space.
Qed.

Lemma strchug_print_u n r : 0 <= n < 2 ^ 64 -> strchug_fast (print_u n ++ r) = print_u n ++ r.
Proof using.
  clear. intros H. destruct (print_u_spec n H) as (Hd & _ & Hne). destruct (print_u n) as [|c ds]; [done|].
  apply strchug_fast_plain, digit_not_blank. by apply andb_prop in Hd as [].
Qed.

Lemma strchug_print_i n r : - 2 ^ 63 < n < 2 ^ 63 -> strchug_fast (print_i n ++ r) = print_i n ++ r.
Proof using.
  clear. intros H. unfold print_i. destruct (Z.ltb_spec n 0); [by apply strchug_fast_plain|]. apply strchug_print_u. lia.
Qed.

Lemma atoi_print_i n : - 2 ^ 31 <= n < 2 ^ 31 -> atoi (strchug_fast (print_i n)) = n.
Proof using.
  clear. intros H. rewrite <- (app_nil_r (print_i n)), strchug_print_i by lia. unfold atoi.
  rewrite strtol_print_i by (done || lia). by apply i32_small.
Qed.

(** *** The lines of a song *)

Lemma time_line_ok n s :
  0 <= n < 2 ^ 31 -> song_line ignore (SONG_TIME ++ print_i n) s =
    Some (set_tag (TagData n (td_has_playlist (the_tag s)) (td_items (the_tag s))) s).
Proof using.
  clear HG. intros Hn. change SONG_TIME with (lit "Time" ++ lit ": "). rewrite <- app_assoc. unfold song_line.
  rewrite split_line_ok by (done || (apply (bool_decide_unpack _); by vm_compute)). cbn [mbind option_bind].
  change (tag_name_parse (lit "Time")) with (@None tag_type). cbv iota. rewrite bool_decide_true by done.
  by rewrite atoi_print_i by lia.
Qed.

Lemma playlist_line_ok s :
  song_line ignore (lit "Playlist: yes") s =
    Some (set_tag (TagData (td_time (the_tag s)) true (td_items (the_tag s))) s).
Proof using.
  clear. change (lit "Playlist: yes") with (lit "Playlist" ++ lit ": " ++ lit "yes"). unfold song_line.
  rewrite split_line_ok by (done || (apply (bool_decide_unpack _); by vm_compute)). cbn [mbind option_bind].
  change (tag_name_parse (lit "Playlist")) with (@None tag_type). cbv iota. rewrite bool_decide_false by done.
  rewrite bool_decide_true by done. change (strchug_fast (lit "yes")) with (lit "yes"). by rewrite bool_decide_true by done.
Qed.

Lemma mtime_line_ok n s :
  - 2 ^ 31 <= n < 2 ^ 31 -> song_line ignore (SONG_MTIME ++ lit ": " ++ print_i n) s =
    Some (DbSong (ds_uri s) (ds_tag s) n (ds_start_ms s) (ds_end_ms s)).
Proof using.
  clear. intros Hn. unfold song_line.
  rewrite split_line_ok by (done || (apply (bool_decide_unpack _); by vm_compute)). cbn [mbind option_bind].
  change (tag_name_parse SONG_MTIME) with (@None tag_type). cbv iota. rewrite !bool_decide_false by done.
  rewrite bool_decide_true by done. by rewrite atoi_print_i.
Qed.

Lemma range_line_ok a r s :
  0 <= a < 2 ^ 32 -> song_line ignore (lit "Range: " ++ print_u a ++ lit "-" ++ r) s =
    Some (DbSong (ds_uri s) (ds_tag s) (ds_mtime s) a (u32 (strtoul r).1)).
Proof using.
  clear. intros Ha. change (lit "Range: ") with (lit "Range" ++ lit ": "). rewrite <- app_assoc. unfold song_line.
  rewrite split_line_ok by (done || (apply (bool_decide_unpack _); by vm_compute)). cbn [mbind option_bind].
  change (tag_name_parse (lit "Range")) with (@None tag_type). cbv iota. rewrite !bool_decide_false by done.
  rewrite bool_decide_true by done. rewrite strchug_print_u by lia. rewrite strtoul_print by (done || lia).
  change (lit "-" ++ r) with ("-"%char :: r). cbv iota beta. rewrite bool_decide_true by done. by rewrite u32_small by lia.
Qed.

Lemma range_lines_ok s s0 :
  good_song s -> ds_start_ms s0 = 0 -> ds_end_ms s0 = 0 ->
  song_steps ignore (range_lines s) s0 = Some (DbSong (ds_uri s0) (ds_tag s0) (ds_mtime s0) (ds_start_ms s) (ds_end_ms s)).
Proof using.
  clear HG. intros Hs H1 H2. pose proof (song_start _ Hs). pose proof (song_end _ Hs). unfold range_lines.
  destruct (Z.ltb_spec 0 (ds_end_ms s)); [|destruct (Z.ltb_spec 0 (ds_start_ms s))]; cbn [song_steps].
  - rewrite range_line_ok by done. cbn [mbind option_bind]. rewrite <- (app_nil_r (print_u (ds_end_ms s))).
    rewrite strtoul_print by (done || lia). cbn [fst]. by rewrite u32_small.
  - rewrite <- (app_nil_r (lit "-")), range_line_ok by done. cbn [mbind option_bind].
    assert (ds_end_ms s = 0) as -> by lia. done.
  - assert (ds_end_ms s = 0) as -> by lia. assert (ds_start_ms s = 0) as -> by lia. destruct s0. cbn in *. by subst.
Qed.

Lemma tag_lines_ok t s :
  good_tag t -> ds_tag s = None -> song_steps ignore (tag_lines t) s = Some (set_tag t s).
Proof using.
  clear HG. intros [Hit [Htr Hmax] Hne] Hs. unfold tag_lines.
  assert (E1 : song_steps ignore (if 0 <=? td_time t then [SONG_TIME ++ print_i (td_time t)] else []) s =
    Some (tagged (TagData (td_time t) false []) s)).
  { destruct (Z.leb_spec 0 (td_time t)); cbn [song_steps].
    - rewrite time_line_ok by lia. cbn [mbind option_bind]. unfold the_tag. rewrite Hs. cbn [default from_option].
      rewrite tagged_some; [done|]. intros [= E]. lia.
    - unfold tagged. rewrite decide_True; [done|]. unfold no_tag. f_equal. lia. }
  rewrite song_steps_app, E1. cbn [mbind option_bind]. rewrite song_steps_app.
  assert (E2 : song_steps ignore (if td_has_playlist t then [lit "Playlist: yes"] else []) (tagged (TagData (td_time t) false []) s) =
    Some (tagged (TagData (td_time t) (td_has_playlist t) []) s)).
  { destruct (td_has_playlist t); [|done]. cbn [song_steps]. rewrite playlist_line_ok. cbn [mbind option_bind].
    rewrite the_tag_tagged, set_tag_tagged by done. by rewrite tagged_some. }
  rewrite E2. cbn [mbind option_bind]. rewrite items_lines_ok by done. cbn [td_time td_has_playlist td_items app].
  destruct t as [time hp its]. cbn [td_time td_has_playlist td_items] in *. rewrite tagged_some; [done|].
  intros [= -> -> ->]. destruct Hne as [?|[?|?]]; (done || lia).
Qed.

(** All lines of a song make the song. *)
Lemma song_body_ok s : good_song s -> song_steps ignore (song_body s) (DbSong (ds_uri s) None 0 0 0) = Some s.
Proof using.
  clear HG. intros Hs. unfold song_body. rewrite song_steps_app, (range_lines_ok s) by done. cbn [mbind option_bind ds_uri ds_tag ds_mtime].
  rewrite song_steps_app. set (s1 := DbSong _ None 0 _ _). pose proof (song_tag _ Hs) as Ht. pose proof (song_mtime _ Hs) as Hm.
  assert (E : song_steps ignore (match ds_tag s with Some t => tag_lines t | None => [] end) s1 =
    Some (DbSong (ds_uri s) (ds_tag s) 0 (ds_start_ms s) (ds_end_ms s))).
  { destruct (ds_tag s) as [t|]; [|done]. by rewrite tag_lines_ok. }
  rewrite E. cbn [mbind option_bind song_steps]. rewrite mtime_line_ok by done. by destruct s.
Qed.

Lemma song_body_good s : good_song s -> Forall good_line (song_body s).
Proof using.
  clear HG. intros [_ _ _ Hm Hst He Ht]. unfold song_body. apply Forall_app. split; [|apply Forall_app; split].
  - unfold range_lines. destruct (Z.ltb_spec 0 (ds_end_ms s)); [|destruct (Z.ltb_spec 0 (ds_start_ms s))]; good_numbers.
  - destruct (ds_tag s) as [t|]; [|constructor]. destruct Ht as [Hit Htr _]. unfold tag_lines. repeat apply Forall_app_2.
    + destruct (Z.leb_spec 0 (td_time t)); good_numbers.
    + destruct (td_has_playlist t); good_numbers.
    + apply Forall_map. eapply Forall_impl; [exact Hit|]. intros it Hg. destruct (tag_name_clean it.1) as (Hc & Hlen & Hne & _).
      rewrite app_assoc. apply good_prefix.
      * rewrite clean_app, Hc. by vm_compute.
      * by destruct (tag_name it.1).
      * rewrite length_app. simpl. lia.
      * apply (item_text _ Hg).
  - good_numbers.
Qed.

Lemma lines_rest fp ls : reads fp ls -> (length ls <= length (r_rest fp))%nat.
Proof using.
  clear. intros [-> _]. induction ls as [|l ls IH]; [done|]. rewrite unlines_cons, length_app. simpl. lia.
Qed.

Lemma song_load_ok s fp ls :
  good_song s -> reads fp (song_body s ++ [SONG_END] ++ ls) ->
  exists fp', simple_db_song_load ignore fp (ds_uri s) = Ok (Loaded s fp') /\ reads fp' ls /\
    (length (r_rest fp') < length (r_rest fp))%nat.
Proof using HG.
  intros Hs Hr. unfold simple_db_song_load, song_file_new, db_song_alloc.
  assert (Hrel : negb (match ds_uri s with c :: _ => bool_decide (c = slash) | [] => false end) = true).
  { pose proof (song_relative _ Hs). destruct (ds_uri s); [done|]. by rewrite bool_decide_false. }
  rewrite Hrel, bool_decide_true by apply (song_uri _ Hs). cbn [assert mbind res_bind].
  apply (song_loop_ok ignore _ _ fp (song_body s) s ls); [by apply song_body_good|done| |by apply song_body_ok].
  pose proof (lines_rest _ _ Hr) as H. rewrite length_app in H. lia.
Qed.

End load.

(** * The database file: the tree is read back

    The playlists, the directories and the header of the file; at the end,
    what [simple_db_load()] makes of the text that [simple_db_save()]
    wrote. *)

(** What is left of a tree in the file: not what [stat()] said. *)
Fixpoint saved (d : directory) : directory :=
  Directory (path d) (mtime d) no_stat (map saved (children d)) (songs d) (playlists d).

Lemma saved_path d : path (saved d) = path d.
Proof. by destruct d. Qed.

Lemma saved_eq d : saved d = Directory (path d) (mtime d) no_stat (map saved (children d)) (songs d) (playlists d).
Proof. by destruct d. Qed.

Record good_playlist (pm : playlist_metadata) : Prop := {
  playlist_text : good_text (pm_name pm);
  playlist_mtime : - 2 ^ 63 < pm_mtime pm < 2 ^ 63;
}.

Inductive storable (ignore : list bool) {C : Charset} : directory -> Prop :=
| storable_intro d :
    Forall (fun c => good_text (path c) /\ - 2 ^ 63 <= mtime c < 2 ^ 63) (children d) ->
    Forall (good_song ignore) (songs d) -> Forall good_playlist (playlists d) ->
    Forall (storable ignore) (children d) -> storable ignore d.

Lemma good_text_suffix p t : t <> [] -> good_text (p ++ t) -> good_text t.
Proof.
  intros Hne [Hn Hr Hl]. rewrite not_elem_of_app in Hn. rewrite last_app_ne in Hr by done.
  rewrite length_app in Hl. split; [apply Hn|done|lia].
Qed.

Lemma has_prefix_app p t : has_prefix p (p ++ t) = true.
Proof. induction p as [|c p IH]; [done|]. simpl. by rewrite bool_decide_true, IH. Qed.

Lemma after_prefix_app p t : after_prefix p (p ++ t) = Some t.
Proof. unfold after_prefix. rewrite has_prefix_app. f_equal. apply drop_app_length. Qed.

Lemma i64_u64 n : - 2 ^ 63 <= n < 2 ^ 63 -> i64 (u64 n) = n.
Proof.
  intros H. unfold i64, u64. rewrite Zplus_mod_idemp_l. rewrite Z.mod_small by lia. lia.
Qed.

Lemma bind_value {A B} (x : A) (f : A -> res B) : (Ok x ≫= f) = f x.
Proof. done. Qed.

Section load.
Context {G : GString} {HG : GStringSpec G} {C : Charset} {PL : PathLib} {HPL : PathLibSpec PL}.
Variable ignore : list bool.
Abbreviation load := (simple_db_directory_load ignore).

(** ** Playlists *)

Lemma good_literal p t : forallb clean_char p = true -> (length p <= 100)%nat -> p <> [] -> good_text t -> good_line (p ++ t).
Proof using. clear. intros. by apply good_prefix. Qed.

Lemma playlist_load_ok pm pv fp ls :
  good_playlist pm -> pm_name pm ∉ map pm_name pv ->
  reads fp ([lit "mtime: " ++ print_i (pm_mtime pm)] ++ [lit "playlist_end"] ++ ls) ->
  exists fp', playlist_metadata_load fp pv (pm_name pm) = Ok (Loaded (pv ++ [pm]) fp') /\ reads fp' ls /\
    (length (r_rest fp') < length (r_rest fp))%nat.
Proof using HG.
  intros [_ Hm] Hnew Hr. unfold playlist_metadata_load. pose proof (lines_rest _ _ Hr) as Hlen.
  destruct (length (r_rest fp)) as [|fuel] eqn:El; [simpl in Hlen; lia|]. cbn [playlist_loop].
  destruct (read_line fp _ _ Hr) as (fp1 & E1 & Hr1 & Hl1); [good_number|].
  destruct (read_line fp1 _ _ Hr1) as (fp2 & E2 & Hr2 & Hl2); [by apply good_clean; [by vm_compute| |simpl; lia]|].
  rewrite E1. cbn [mbind res_bind]. rewrite bool_decide_false by done.
  change (lit "mtime: ") with (lit "mtime" ++ lit ": "). rewrite <- app_assoc.
  rewrite split_line_ok by (done || (apply (bool_decide_unpack _); by vm_compute)).
  rewrite bool_decide_true by done.
  assert (E3 : forall t, playlist_loop fuel t fp1 = Ok (Loaded t fp2)).
  { intros t. destruct fuel; cbn [playlist_loop]; rewrite E2; cbn [mbind res_bind]; by rewrite bool_decide_true. }
  rewrite E3. cbn [mbind res_bind]. exists fp2. split; [|split; [done|lia]].
  rewrite <- (app_nil_r (print_i _)), strchug_print_i by lia. rewrite strtol_print_i by (done || lia). cbn [fst].
  unfold playlist_vector_update_or_add, playlist_vector_find.
  assert (Hf : list_find (fun q => pm_name q = pm_name pm) pv = None).
  { apply list_find_None, Forall_forall. intros q Hq E. apply Hnew. rewrite <- E. by apply (list_elem_of_fmap_2 pm_name). }
  rewrite Hf. by destruct pm.
Qed.

(** ** Directories *)

(** The loop goes on behind some lines. *)
Definition continues (fuel : nat) (d : directory) (fp : reader) (d' : directory) (more : list cstring) : Prop :=
  exists fuel' fp', load fuel d fp = load fuel' d' fp' /\ reads fp' more /\ (length (r_rest fp') < fuel')%nat /\
    (length (r_rest fp') <= length (r_rest fp))%nat.

Lemma continues_refl fuel d fp more : reads fp more -> (length (r_rest fp) < fuel)%nat -> continues fuel d fp d more.
Proof using. clear. intros H1 H2. by exists fuel, fp. Qed.

Lemma song_entry s d fuel fp more :
  good_song ignore s -> directory_get_song d (ds_uri s) = None ->
  reads fp (song_lines s ++ more) -> (length (r_rest fp) < fuel)%nat ->
  continues fuel d fp (directory_add_song s d) more.
Proof using HG.
  intros Hs Hnew Hr Hf. unfold song_lines in Hr. rewrite <- !app_assoc in Hr.
  destruct (read_line fp _ _ Hr) as (fp1 & E1 & Hr1 & Hl1).
  { apply good_literal; [by vm_compute|simpl; lia|done|by destruct Hs]. }
  destruct (song_load_ok ignore s fp1 more Hs Hr1) as (fp2 & E2 & Hr2 & Hl2).
  destruct fuel as [|fuel]; [lia|]. exists fuel, fp2. split; [|split; [done|split; lia]].
  cbn [simple_db_directory_load]. rewrite E1. cbn [mbind res_bind].
  change (has_prefix DIRECTORY_END (SONG_BEGIN ++ ds_uri s)) with false.
  change (after_prefix DIRECTORY_DIR (SONG_BEGIN ++ ds_uri s)) with (@None cstring). rewrite after_prefix_app.
  rewrite Hnew, E2. done.
Qed.

Lemma playlist_entry pm d fuel fp more :
  good_playlist pm -> pm_name pm ∉ map pm_name (playlists d) ->
  reads fp (playlist_lines pm ++ more) -> (length (r_rest fp) < fuel)%nat ->
  continues fuel d fp (set_playlists (playlists d ++ [pm]) d) more.
Proof using HG.
  intros Hp Hnew Hr Hf. unfold playlist_lines in Hr. rewrite <- !app_assoc in Hr.
  destruct (read_line fp _ _ Hr) as (fp1 & E1 & Hr1 & Hl1).
  { apply good_literal; [by vm_compute|simpl; lia|done|by destruct Hp]. }
  destruct (playlist_load_ok pm (playlists d) fp1 more Hp Hnew Hr1) as (fp2 & E2 & Hr2 & Hl2).
  destruct fuel as [|fuel]; [lia|]. exists fuel, fp2. split; [|split; [done|split; lia]].
  cbn [simple_db_directory_load]. rewrite E1. cbn [mbind res_bind].
  change (has_prefix DIRECTORY_END (PLAYLIST_META_BEGIN ++ pm_name pm)) with false.
  change (after_prefix DIRECTORY_DIR (PLAYLIST_META_BEGIN ++ pm_name pm)) with (@None cstring).
  change (after_prefix SONG_BEGIN (PLAYLIST_META_BEGIN ++ pm_name pm)) with (@None cstring). rewrite after_prefix_app.
  rewrite E2. done.
Qed.

Lemma continues_trans fuel d1 fp d2 d3 more1 more2 :
  continues fuel d1 fp d2 more1 ->
  (forall fuel' fp', reads fp' more1 -> (length (r_rest fp') < fuel')%nat -> continues fuel' d2 fp' d3 more2) ->
  continues fuel d1 fp d3 more2.
Proof using.
  clear. intros (f1 & fp1 & E1 & Hr1 & Hf1 & Hl1) H. destruct (H f1 fp1 Hr1 Hf1) as (f2 & fp2 & E2 & Hr2 & Hf2 & Hl2).
  exists f2, fp2. split; [by rewrite E1|]. split; [done|]. split; [done|lia].
Qed.

Lemma song_entries ss d fuel fp more :
  Forall (good_song ignore) ss -> NoDup (map ds_uri (songs d ++ ss)) ->
  reads fp (concat (map song_lines ss) ++ more) -> (length (r_rest fp) < fuel)%nat ->
  continues fuel d fp (set_songs (songs d ++ ss) d) more.
Proof using HG.
  intros Hg. revert d fuel fp. induction Hg as [|s ss Hs _ IH]; intros d fuel fp Hnd Hr Hf.
  - rewrite app_nil_r. destruct d as [p0 t0 st0 cs0 ss0 pl0]. by apply continues_refl.
  - cbn [map concat] in Hr. rewrite <- app_assoc in Hr.
    assert (Hnew : directory_get_song d (ds_uri s) = None).
    { unfold directory_get_song. destruct (list_find _ (songs d)) as [[i t]|] eqn:E; [|done].
      apply list_find_Some in E as (Hi & Hu & _). rewrite map_app in Hnd. apply NoDup_app in Hnd as (_ & Hdis & _).
      exfalso. apply (Hdis (ds_uri s)); [|by left]. rewrite <- Hu. apply (list_elem_of_fmap_2 ds_uri). by eapply list_elem_of_lookup_2. }
    eapply continues_trans; [by apply (song_entry s)|]. intros f' fp' Hr' Hf'.
    assert (E : set_songs (songs d ++ s :: ss) d = set_songs (songs (directory_add_song s d) ++ ss) (directory_add_song s d)).
    { unfold directory_add_song. destruct d as [p0 t0 st0 cs0 ss0 pl0]. cbn [songs set_songs]. by rewrite <- app_assoc. }
    rewrite E. apply IH; [|done|done]. cbn [songs directory_add_song set_songs]. by rewrite <- app_assoc.
Qed.

Lemma playlist_entries pl d fuel fp more :
  Forall good_playlist pl -> NoDup (map pm_name (playlists d ++ pl)) ->
  reads fp (concat (map playlist_lines pl) ++ more) -> (length (r_rest fp) < fuel)%nat ->
  continues fuel d fp (set_playlists (playlists d ++ pl) d) more.
Proof using HG.
  intros Hg. revert d fuel fp. induction Hg as [|p pl Hp _ IH]; intros d fuel fp Hnd Hr Hf.
  - rewrite app_nil_r. destruct d as [p0 t0 st0 cs0 ss0 pl0]. by apply continues_refl.
  - cbn [map concat] in Hr. rewrite <- app_assoc in Hr.
    assert (Hnew : pm_name p ∉ map pm_name (playlists d)).
    { rewrite map_app in Hnd. apply NoDup_app in Hnd as (_ & Hdis & _). intros H. apply (Hdis _ H). by left. }
    eapply continues_trans; [by apply (playlist_entry p)|]. intros f' fp' Hr' Hf'.
    set (d' := set_playlists (playlists d ++ [p]) d).
    assert (E : set_playlists (playlists d ++ p :: pl) d = set_playlists (playlists d' ++ pl) d').
    { unfold d'. destruct d as [p0 t0 st0 cs0 ss0 pl0]. cbn [playlists set_playlists]. by rewrite <- app_assoc. }
    rewrite E. apply IH; [|done|done]. cbn [d' playlists set_playlists]. by rewrite <- app_assoc.
Qed.

Lemma path_text d n : good_name n -> good_text (child_path d n) -> good_text n.
Proof using.
  clear. intros [Hne _]. unfold child_path, build_db_filename. destruct (directory_is_root d); [done|].
  change (directory_get_path d ++ slash :: n) with (directory_get_path d ++ [slash] ++ n). rewrite app_assoc.
  by apply good_text_suffix.
Qed.

Lemma basename_child d n : good_name n -> g_path_get_basename (child_path d n) = n.
Proof using HPL.
  clear HG. intros Hn. unfold child_path, build_db_filename.
  destruct (directory_is_root d); [by apply basename_plain|by apply basename_last].
Qed.

(** A tree is read back from its lines, whatever follows them. *)
Definition loads (d : directory) : Prop := forall fuel fp more m,
  reads fp (dir_lines d ++ more) -> (length (r_rest fp) < fuel)%nat ->
  continues fuel (Directory (path d) m no_stat [] [] []) fp (set_mtime m (saved d)) more.

(** The first lines of a directory, whatever reads the others. *)
Lemma subdir_ok (ld : directory -> reader -> res (loaded directory)) c n d fp ls :
  good_name n -> path c = child_path d n -> good_text (path c) -> - 2 ^ 63 <= mtime c < 2 ^ 63 ->
  directory_get_child d n = Ok None ->
  reads fp ([DIRECTORY_MTIME ++ print_u (u64 (mtime c))] ++ [DIRECTORY_BEGIN ++ path c] ++ ls) ->
  exists fp', simple_db_directory_load_subdir ld fp d n = ld (Directory (path c) (mtime c) no_stat [] [] []) fp' /\
    reads fp' ls /\ (length (r_rest fp') < length (r_rest fp))%nat.
Proof using HG.
  intros Hn Hp Ht Hm Hnew Hr.
  assert (Hu : 0 <= u64 (mtime c) < 2 ^ 64) by (unfold u64; apply Z.mod_pos_bound; lia).
  destruct (read_line fp _ _ Hr) as (fp2 & E2 & Hr2 & Hl2); [good_number|].
  destruct (read_line fp2 _ _ Hr2) as (fp3 & E3 & Hr3 & Hl3).
  { apply good_literal; [by vm_compute|simpl; lia|done|done]. }
  destruct (directory_new_child_ok d n Hn) as (c0 & E0 & Hp0 & _ & Hc0 & Hs0 & Hl0 & Hm0 & Hst0).
  exists fp3. split; [|split; [done|lia]].
  unfold simple_db_directory_load_subdir. rewrite Hnew, bind_value, E0, bind_value, E2, bind_value, after_prefix_app, E3, bind_value.
  rewrite has_prefix_app. rewrite <- (app_nil_r (print_u _)), strtoul_print by done. cbn [fst]. rewrite i64_u64 by done.
  f_equal. rewrite Hp, <- Hp0, <- Hst0. unfold set_mtime. by rewrite Hc0, Hs0, Hl0.
Qed.

Lemma load_child fuel d fp fp1 n c fp2 :
  db_read_text_line fp = Ok (Some (DIRECTORY_DIR ++ n, fp1)) ->
  simple_db_directory_load_subdir (load fuel) fp1 d n = Ok (Loaded c fp2) ->
  load (S fuel) d fp = load fuel (add_child c d) fp2.
Proof using.
  clear. intros E1 E2. cbn [simple_db_directory_load]. rewrite E1. cbn [mbind res_bind].
  change (has_prefix DIRECTORY_END (DIRECTORY_DIR ++ n)) with false. rewrite after_prefix_app. cbv iota.
  by rewrite E2.
Qed.

Lemma load_end fuel d fp fp' p :
  db_read_text_line fp = Ok (Some (DIRECTORY_END ++ p, fp')) -> load (S fuel) d fp = Ok (Loaded d fp').
Proof using.
  clear. intros E. cbn [simple_db_directory_load]. rewrite E. cbn [mbind res_bind]. by rewrite has_prefix_app.
Qed.

Lemma child_entry c n d fuel fp more :
  loads c -> good_name n -> path c = child_path d n -> good_text (path c) -> - 2 ^ 63 <= mtime c < 2 ^ 63 ->
  directory_get_child d n = Ok None ->
  reads fp (child_lines c ++ more) -> (length (r_rest fp) < fuel)%nat ->
  continues fuel d fp (add_child (saved c) d) more.
Proof using HG HPL.
  intros IH Hn Hp Ht Hm Hnew Hr Hf. unfold child_lines in Hr.
  rewrite <- !app_assoc, Hp, (basename_child d n Hn), <- Hp in Hr.
  destruct (read_line fp _ _ Hr) as (fp1 & E1 & Hr1 & Hl1).
  { apply good_literal; [by vm_compute|simpl; lia|done|]. apply (path_text d); [done|by rewrite <- Hp]. }
  destruct fuel as [|fuel]; [lia|].
  destruct (subdir_ok (load fuel) c n d fp1 _ Hn Hp Ht Hm Hnew Hr1) as (fp3 & E3 & Hr3 & Hl3).
  destruct (IH fuel fp3 ([DIRECTORY_END ++ path c] ++ more) (mtime c) Hr3) as (f4 & fp4 & E4 & Hr4 & Hf4 & Hl4); [lia|].
  destruct (read_line fp4 _ _ Hr4) as (fp5 & E5 & Hr5 & Hl5).
  { apply good_literal; [by vm_compute|simpl; lia|done|done]. }
  destruct f4 as [|f4]; [lia|]. rewrite (load_end f4 _ fp4 fp5 (path c) E5) in E4. rewrite E4 in E3.
  exists fuel, fp5. split; [|split; [done|split; lia]]. rewrite (load_child fuel d fp fp1 n _ fp5 E1 E3).
  do 2 f_equal. by destruct c.
Qed.

Lemma child_entries cs names names0 d fuel fp more :
  Forall loads cs -> Forall (fun c => good_text (path c) /\ - 2 ^ 63 <= mtime c < 2 ^ 63) cs ->
  Forall good_name (names0 ++ names) -> NoDup (names0 ++ names) ->
  map path (children d) = map (child_path d) names0 -> map path cs = map (child_path d) names ->
  reads fp (concat (map child_lines cs) ++ more) -> (length (r_rest fp) < fuel)%nat ->
  continues fuel d fp (set_children (children d ++ map saved cs) d) more.
Proof using HG HPL.
  intros Hl. revert names names0 d fuel fp. induction Hl as [|c cs Hc _ IH]; intros names names0 d fuel fp Ht Hg Hnd Hp0 Hp Hr Hf.
  - cbn [map]. rewrite app_nil_r. destruct d as [p0 t0 st0 cs0 ss0 pl0]. by apply continues_refl.
  - destruct names as [|n names]; [done|]. injection Hp as Hpc Hp. apply Forall_cons in Ht as [[Ht Hm] Ht'].
    cbn [map concat] in Hr. rewrite <- app_assoc in Hr.
    pose proof Hg as (Hg0 & Hgn)%Forall_app. apply Forall_cons in Hgn as [Hgn _].
    pose proof Hnd as (_ & Hdis & _)%NoDup_app.
    assert (Hnew : directory_get_child d n = Ok None).
    { apply (get_child_none d names0); [done|done|]. intros H. apply (Hdis _ H). by left. }
    eapply continues_trans; [by apply (child_entry c n)|]. intros f' fp' Hr' Hf'.
    set (d' := add_child (saved c) d).
    assert (E : set_children (children d ++ map saved (c :: cs)) d = set_children (children d' ++ map saved cs) d').
    { unfold d', add_child. destruct d as [p0 t0 st0 cs0 ss0 pl0]. cbn [children set_children map]. by rewrite <- app_assoc. }
    assert (Ecp : forall m, child_path d' m = child_path d m) by done.
    rewrite E. apply (IH names (names0 ++ [n])); try done.
    + by rewrite <- app_assoc.
    + by rewrite <- app_assoc.
    + unfold d', add_child. cbn [children set_children]. rewrite !map_app, Hp0. cbn [map]. by rewrite saved_path, Hpc.
Qed.

Lemma directory_loads d : wf d -> storable ignore d -> loads d.
Proof using HG HPL.
  induction d as [p t st cs ss pl IH] using directory_ind'. intros (names & Hg & Hnd & Hp & Hwc & Hs & Hl)%wf_inv Hst.
  inversion Hst as [d' Hct Hgs Hgp Hsc E]. subst d'. cbn [children songs playlists path mtime] in *.
  intros fuel fp more m Hr Hf. rewrite dir_lines_eq in Hr. cbn [children songs playlists] in Hr. rewrite <- !app_assoc in Hr.
  set (d0 := Directory p m no_stat [] [] []). change (Directory (path _) m no_stat [] [] []) with d0.
  assert (Hlc : Forall loads cs).
  { rewrite Forall_forall in *. intros c Hc. by apply IH; [|apply Hwc|apply Hsc]. }
  eapply continues_trans; [by apply (child_entries cs names [] d0)|]. intros f1 fp1 Hr1 Hf1.
  eapply continues_trans; [by apply (song_entries ss)|]. intros f2 fp2 Hr2 Hf2.
  rewrite saved_eq. cbn [path mtime children songs playlists]. by apply (playlist_entries pl).
Qed.

(** ** The header *)

Definition tag_line (t : tag_type) : list cstring :=
  if default false (ignore !! Z.to_nat (tag_type_code t)) then [] else [DB_TAG_PREFIX ++ tag_name t].

Definition header_lines (version fs_charset : cstring) : list cstring :=
  [DB_FORMAT_PREFIX ++ print_u DB_FORMAT; DIRECTORY_MPD_VERSION ++ version; DIRECTORY_FS_CHARSET ++ fs_charset] ++
  concat (map tag_line tag_types).

Lemma save_internal_lines version fs_charset root :
  wf root -> path root = [] ->
  simple_db_save_internal version fs_charset ignore [] root =
  unlines ([DIRECTORY_INFO_BEGIN] ++ header_lines version fs_charset ++ [DIRECTORY_INFO_END] ++ dir_lines root).
Proof using.
  clear HG. intros Hw Hroot. unfold simple_db_save_internal, header_lines. rewrite directory_save_lines by done.
  unfold save_lines, directory_is_root. rewrite bool_decide_true by done.
  rewrite (foldl_lines _ tag_line).
  - rewrite !db_printf_lines. change (?a :: ?b :: [?c]) with ([a] ++ [b] ++ [c]).
    rewrite !unlines_app, <- !app_assoc. done.
  - intros f t. unfold tag_line. destruct (default false _); [by rewrite app_nil_r|]. apply db_printf_lines.
Qed.

Fixpoint header_steps (old : option cstring) (ls : list cstring) (h : header) : option header :=
  match ls with
  | [] => Some h
  | l :: ls => match header_line old l h with inl h => header_steps old ls h | inr _ => None end
  end.

Lemma header_loop_ok old fuel h fp ls h' more :
  Forall good_line ls -> Forall (fun l => l <> DIRECTORY_INFO_END) ls ->
  reads fp (ls ++ [DIRECTORY_INFO_END] ++ more) -> (length ls <= fuel)%nat -> header_steps old ls h = Some h' ->
  exists fp', header_loop fuel old h fp = Ok (Loaded h' fp') /\ reads fp' more.
Proof using HG.
  intros Hg. revert fuel h fp. induction Hg as [|l ls Hl _ IH]; intros fuel h fp Hne Hr Hf Hs.
  - destruct (read_line fp _ _ Hr) as (fp' & E & Hr' & _); [by apply good_clean; [by vm_compute| |simpl; lia]|].
    exists fp'. injection Hs as <-. split; [|done].
    destruct fuel; cbn [header_loop]; rewrite E, bind_value; by rewrite bool_decide_true.
  - apply Forall_cons in Hne as [Hne Hne']. destruct (read_line fp l _ Hr Hl) as (fp1 & E & Hr1 & _).
    destruct fuel as [|fuel]; [simpl in Hf; lia|]. cbn [header_steps] in Hs. cbn [header_loop]. rewrite E, bind_value.
    rewrite bool_decide_false by done. destruct (header_line old l h) as [h1|]; [|done].
    apply IH; (done || (simpl in Hf; lia)).
Qed.

(** The tag types that were listed are known. *)
Definition knows (tags : list bool) (t : tag_type) : Prop := tags !! Z.to_nat (tag_type_code t) = Some true.

Lemma tag_steps_ok old ts h :
  length (h_tags h) = 18%nat ->
  exists tags, header_steps old (concat (map tag_line ts)) h = Some (Header (h_format h) (h_charset h) (h_version h) tags) /\
    length tags = 18%nat /\ (forall t, knows (h_tags h) t -> knows tags t) /\
    forall t, t ∈ ts -> default false (ignore !! Z.to_nat (tag_type_code t)) = false -> knows tags t.
Proof using.
  clear HG. revert h. induction ts as [|t ts IH]; intros h Hlen.
  - exists (h_tags h). split; [by destruct h|]. split; [done|]. split; [done|]. intros t Ht. by apply not_elem_of_nil in Ht.
  - cbn [map concat]. unfold tag_line at 1. destruct (default false _) eqn:Ei; cbn [app].
    + destruct (IH h Hlen) as (tags & E & Hl & Hk & Hin). exists tags. split; [done|]. split; [done|]. split; [done|].
      intros u [->|Hu]%elem_of_cons Hui; [congruence|by apply Hin].
    + set (h1 := Header (h_format h) (h_charset h) (h_version h) (<[Z.to_nat (tag_type_code t) := true]> (h_tags h))).
      assert (E1 : header_line old (DB_TAG_PREFIX ++ tag_name t) h = inl h1).
      { unfold header_line. change (after_prefix DB_FORMAT_PREFIX (DB_TAG_PREFIX ++ tag_name t)) with (@None cstring).
        change (after_prefix DIRECTORY_MPD_VERSION (DB_TAG_PREFIX ++ tag_name t)) with (@None cstring).
        change (after_prefix DIRECTORY_FS_CHARSET (DB_TAG_PREFIX ++ tag_name t)) with (@None cstring).
        by rewrite after_prefix_app, tag_name_parse_name. }
      cbn [header_steps]. rewrite E1. destruct (IH h1) as (tags & E & Hl & Hk & Hin).
      { unfold h1. cbn [h_tags]. by rewrite length_insert. }
      exists tags. split; [done|]. split; [done|].
      assert (Hlt : (Z.to_nat (tag_type_code t) < length (h_tags h))%nat) by (rewrite Hlen; clear; destruct t; vm_compute; lia).
      split; [|intros u [->|Hu]%elem_of_cons Hui; [|by apply Hin]]; [intros u Hu|]; apply Hk; unfold knows, h1; cbn [h_tags].
      * destruct (decide (Z.to_nat (tag_type_code u) = Z.to_nat (tag_type_code t))) as [->|]; [by apply list_lookup_insert_eq|].
        by rewrite list_lookup_insert_ne.
      * by apply list_lookup_insert_eq.
Qed.

Lemma tag_types_all t : t ∈ tag_types.
Proof using. clear. eapply list_elem_of_lookup_2. apply tag_types_lookup. Qed.

Lemma header_ok old version fs_charset :
  match old with Some o => o = fs_charset | None => True end ->
  exists tags, header_steps old (header_lines version fs_charset) (Header 0 false false (replicate 18 false)) =
    Some (Header DB_FORMAT true true tags) /\ tags_match ignore tags = true.
Proof using.
  clear HG. intros Hold. unfold header_lines. destruct (tag_steps_ok old tag_types (Header DB_FORMAT true true (replicate 18 false)) eq_refl)
    as (tags & E & _ & _ & Hin). exists tags. split.
  - cbn [app header_steps]. unfold header_line at 1. rewrite after_prefix_app.
    change (atoi (print_u DB_FORMAT)) with DB_FORMAT. cbn [h_format h_charset h_version h_tags].
    unfold header_line at 1. change (after_prefix DB_FORMAT_PREFIX (DIRECTORY_MPD_VERSION ++ version)) with (@None cstring).
    rewrite after_prefix_app. cbn [h_format h_charset h_version h_tags].
    unfold header_line at 1. change (after_prefix DB_FORMAT_PREFIX (DIRECTORY_FS_CHARSET ++ fs_charset)) with (@None cstring).
    change (after_prefix DIRECTORY_MPD_VERSION (DIRECTORY_FS_CHARSET ++ fs_charset)) with (@None cstring).
    rewrite after_prefix_app. cbn [h_format h_charset h_version h_tags].
    destruct old as [o|]; [|exact E]. subst o. by rewrite bool_decide_false by auto.
  - unfold tags_match. apply forallb_forall. intros t Ht. destruct (default false (ignore !! _)) eqn:Ei; [done|].
    cbn [orb]. pose proof (Hin t (tag_types_all t) Ei) as Hk. unfold knows in Hk. by rewrite Hk.
Qed.

Lemma header_lines_good version fs_charset :
  good_text version -> good_text fs_charset ->
  Forall good_line (header_lines version fs_charset) /\ Forall (fun l => l <> DIRECTORY_INFO_END) (header_lines version fs_charset).
Proof using.
  clear. intros Hv Hc. unfold header_lines. rewrite !Forall_app.
  assert (Ht : Forall (fun l => good_line l /\ l <> DIRECTORY_INFO_END) (concat (map tag_line tag_types))).
  { apply Forall_concat, Forall_map, Forall_forall. intros t _. unfold tag_line. destruct (default false _); [constructor|].
    constructor; [|constructor]. split; [|done]. apply good_clean; [|done|].
    - rewrite clean_app. destruct (tag_name_clean t) as [-> _]. by vm_compute.
    - rewrite length_app. destruct (tag_name_clean t) as (_ & ? & _). simpl. lia. }
  apply Forall_and in Ht as [Ht1 Ht2]. split; (split; [|done]); repeat (apply Forall_cons_2; [|]); try done.
  - apply good_clean; [by vm_compute|done|simpl; lia].
  - apply good_literal; [by vm_compute|simpl; lia|done|done].
  - apply good_literal; [by vm_compute|simpl; lia|done|done].
Qed.

(** ** The whole file *)

Lemma load_eof fuel d fp : reads fp [] -> load (S fuel) d fp = Ok (Loaded d fp).
Proof using HG. intros Hr. cbn [simple_db_directory_load]. rewrite read_end by done. done. Qed.

Lemma load_saved old version fs_charset root :
  wf root -> path root = [] -> storable ignore root -> good_text version -> good_text fs_charset ->
  match old with Some o => o = fs_charset | None => True end ->
  exists fp, simple_db_load_internal ignore old (simple_db_save_internal version fs_charset ignore [] root)
    (Directory [] 0 no_stat [] [] []) = Ok (Loaded (set_mtime 0 (saved root)) fp).
Proof using HG HPL.
  intros Hw Hroot Hst Hv Hc Hold. rewrite save_internal_lines by done. unfold simple_db_load_internal.
  set (fp0 := Reader new_buffer _).
  assert (Hr0 : reads fp0 ([DIRECTORY_INFO_BEGIN] ++ header_lines version fs_charset ++ [DIRECTORY_INFO_END] ++ dir_lines root)).
  { split; [done|]. unfold fp0, new_buffer. cbn [r_buffer gs_len]. pose proof max_length_eq. lia. }
  destruct (read_line fp0 _ _ Hr0) as (fp1 & E1 & Hr1 & _); [by apply good_clean; [by vm_compute| |simpl; lia]|].
  rewrite E1, bind_value. rewrite bool_decide_true by done. cbn [negb].
  destruct (header_ok old version fs_charset Hold) as (tags & Eh & Hm).
  destruct (header_lines_good version fs_charset Hv Hc) as [Hg1 Hg2].
  assert (Hlen : (length (header_lines version fs_charset) <= length (r_rest fp1))%nat).
  { pose proof (lines_rest _ _ Hr1) as H. rewrite length_app in H. lia. }
  destruct (header_loop_ok old (length (r_rest fp1)) _ fp1 _ _ _ Hg1 Hg2 Hr1 Hlen Eh) as (fp2 & E2 & Hr2).
  rewrite E2, bind_value. cbn [h_format h_tags]. rewrite Hm. change (DB_FORMAT =? DB_FORMAT) with true. cbn [negb].
  rewrite <- (app_nil_r (dir_lines root)) in Hr2.
  destruct (directory_loads root Hw Hst (S (length (r_rest fp2))) fp2 [] 0 Hr2) as (f3 & fp3 & E3 & Hr3 & Hf3 & _); [lia|].
  rewrite Hroot in E3. rewrite E3. destruct f3 as [|f3]; [lia|]. exists fp3. by apply load_eof.
Qed.

End load.
