(* ===== verification/DatabaseTheorems.v ===== *)
(** * Theorems on the database

    The tree of directories keeps its form, finds what is in it and is
    walked completely; what is saved after an update is loaded again. *)

From S2P Require Import Prelude Err CString Strtod Tokenizer TagPool TagValue TagTheorems.
From S2P Require Import SongSort MergeSort TextFile Directory.
From S2P Require Import SortTheorems SimpleDb SimpleDbRoundtrip.
Local Open Scope Z_scope.

(** ** A concrete library *)

#[export] Instance slash_paths : PathLib :=
  {| g_path_get_basename p := match strrchr slash p with Some s => drop 1 s | None => p end |}.
#[export] Instance slash_paths_spec : PathLibSpec slash_paths.
Proof.
  split; unfold g_path_get_basename, slash_paths.
  - intros n [_ Hn]. by rewrite strrchr_none.
  - intros p n [_ Hn]. rewrite strrchr_last by done. done.
Qed.

(** ** What pruning and sorting keep *)

Lemma saved_sort_songs d : all_songs (set_mtime 0 (saved d)) = all_songs d /\ all_playlists (set_mtime 0 (saved d)) = all_playlists d.
Proof.
  assert (H : all_songs (saved d) = all_songs d /\ all_playlists (saved d) = all_playlists d).
  { induction d as [p t st cs ss pl IH] using directory_ind'. rewrite saved_eq. cbn [path songs playlists children all_songs all_playlists].
    assert (E : map all_songs (map saved cs) = map all_songs cs /\ map all_playlists (map saved cs) = map all_playlists cs).
    { induction IH as [|c cs [H1 H2] _ [IH1 IH2]]; [done|]. cbn [map]. by rewrite H1, H2, IH1, IH2. }
    by destruct E as [-> ->]. }
  destruct d. exact H.
Qed.

Section keep.
Context {Ch : Charset} {C : Collate} {HC : CollateSpec C}.
Variable ignore : list bool.

Lemma storable_inv d :
  storable ignore d -> Forall (fun c => good_text (path c) /\ - 2 ^ 63 <= mtime c < 2 ^ 63) (children d) /\
    Forall (good_song ignore) (songs d) /\ Forall good_playlist (playlists d) /\ Forall (storable ignore) (children d).
Proof using. clear. intros H. by inversion H; subst. Qed.

Lemma storable_prune d : storable ignore d -> storable ignore (directory_prune_empty d).
Proof using.
  clear HC C. induction d as [p t st cs ss pl IH] using directory_ind'. intros (H1 & H2 & H3 & H4)%storable_inv. rewrite prune_eq.
  constructor; cbn [set_children children songs playlists] in *; [|done|done|];
    destruct (prune_sublist cs) as (ks & Hks & ->); apply Forall_map, Forall_forall; intros c Hc;
    rewrite Forall_forall in H1, H4, IH; pose proof (elem_of_sublist _ _ _ Hc Hks) as Hin.
  - rewrite prune_path. rewrite prune_eq. cbn [mtime set_children]. by apply H1.
  - by apply IH; [|apply H4].
Qed.

Lemma sortable_prune d : sortable d -> sortable (directory_prune_empty d).
Proof using.
  clear. induction d as [p t st cs ss pl IH] using directory_ind'. intros H. inversion H as [d' H1 H2 H3 E]. subst d'.
  rewrite prune_eq. cbn [children songs] in *. destruct (prune_sublist cs) as (ks & Hks & E).
  constructor; cbn [set_children children songs]; rewrite ?E.
  - rewrite length_map. apply sublist_length in Hks. lia.
  - done.
  - apply Forall_map, Forall_forall. intros c Hc. pose proof (elem_of_sublist _ _ _ Hc Hks) as Hin.
    rewrite Forall_forall in H3, IH. by apply IH; [|apply H3].
Qed.

Lemma sort_list_perm {A} (cmp : A -> A -> Z) xs ys : sort_list cmp xs = Ok ys -> ys ≡ₚ xs.
Proof using.
  clear. intros E. unfold sort_list in E. destruct (Z.ltb_spec (Z.of_nat (length xs)) (2 ^ 21)) as [H|]; [|done].
  injection E as <-. apply fsort_perm. apply Nat2Z.inj_lt. by rewrite Nat2Z.inj_pow.
Qed.

Definition same_node (c c' : directory) : Prop := path c' = path c /\ mtime c' = mtime c.

Lemma storable_sort d d' : directory_sort d = Ok d' -> storable ignore d -> storable ignore d' /\ same_node d d'.
Proof using.
  clear HC. revert d'. induction d as [p t st cs ss pl IH] using directory_ind'. intros d' E (H1 & H2 & H3 & H4)%storable_inv.
  rewrite directory_sort_eq in E. cbn [children songs playlists] in *.
  destruct (sort_children cs) as [cs1|] eqn:E1; [|done]. cbn [mbind res_bind] in E.
  destruct (sort_list _ cs1) as [cs2|] eqn:E2; [|done]. cbn [mbind res_bind] in E.
  destruct (sort_list _ ss) as [ss2|] eqn:E3; [|done]. cbn [mbind res_bind] in E. injection E as <-.
  apply sort_list_perm in E2, E3. split; [|done].
  assert (Hf : Forall2 (fun c c' => storable ignore c' /\ same_node c c') cs cs1).
  { clear -IH H4 E1. revert cs1 E1. induction IH as [|c cs Hc _ IHcs]; intros cs1 E1; cbn [sort_children] in E1.
    - injection E1 as <-. constructor.
    - destruct (directory_sort c) as [c'|] eqn:Ec; [|done]. cbn [mbind res_bind] in E1.
      destruct (sort_children cs) as [cs'|] eqn:Ecs; [|done]. cbn [mbind res_bind] in E1. injection E1 as <-.
      apply Forall_cons in H4 as [H4 H4']. constructor; [by apply Hc|by apply IHcs]. }
  constructor; cbn [set_songs set_children children songs playlists]; rewrite ?E2, ?E3; [|done|done|].
  - clear -Hf H1. induction Hf as [|c c' cs cs' (_ & Hp & Hm) _ IHf]; [constructor|]. apply Forall_cons in H1 as [H1 H1'].
    constructor; [by rewrite Hp, Hm|by apply IHf].
  - clear -Hf. induction Hf as [|c c' cs cs' (Hs & _) _ IHf]; by constructor.
Qed.

End keep.

(** ** A tree *)

Definition sample_root : directory :=
  Directory [] 0 no_stat
    [Directory (lit "can") 1363000000 (DirStat 7 1 true)
      [Directory (lit "can/live") 1363000001 no_stat [] [sample_song "b.ogg" "2"; sample_song "a.ogg" "1"] [];
       Directory (lit "can/art") 1363000002 no_stat [] [] []]
      [sample_song "future days.ogg" "3"] [PlaylistMeta (lit "best.m3u") 1363000003]]
    [DbSong (lit "x.mp3") None (-5) 0 60000] [].

Lemma sample_wf : wf sample_root.
Proof.
  assert (Hg : forall n, n ∈ [lit "can"; lit "live"; lit "art"] -> good_name n).
  { intros n Hn. assert (H : Forall (fun n => n <> [] /\ slash ∉ n) [lit "can"; lit "live"; lit "art"])
      by (apply (bool_decide_unpack _); vm_compute; reflexivity).
    rewrite Forall_forall in H. destruct (H n Hn). by split. }
  apply (wf_intro _ [lit "can"]); cbn [children songs playlists sample_root map];
    [repeat constructor; apply Hg; set_solver|apply NoDup_singleton|done| |apply NoDup_singleton|apply NoDup_nil_2].
  repeat constructor.
  apply (wf_intro _ [lit "live"; lit "art"]); cbn [children songs playlists map];
    [repeat constructor; apply Hg; set_solver|by apply (bool_decide_unpack _); vm_compute|done| |apply NoDup_singleton|apply NoDup_singleton].
  repeat constructor.
  - apply (wf_intro _ []); cbn [children songs playlists map]; try constructor; by apply (bool_decide_unpack _); vm_compute.
  - apply (wf_intro _ []); cbn [children songs playlists map]; constructor.
Qed.

Lemma sample_sortable : sortable sample_root.
Proof. repeat constructor. Qed.

Lemma plain_text (s : cstring) : forallb clean_char s = true -> Z.of_nat (length s) <= 1000 -> good_text s.
Proof.
  intros Hc Hl. split; [by apply clean_newline|by apply clean_last|]. pose proof max_length_eq. lia.
Qed.

Ltac plain := apply plain_text; [vm_compute; reflexivity|vm_compute; congruence].

Definition keep_all : list bool := replicate 18 false.

Lemma sample_good_song uri track :
  forallb clean_char (lit uri) = true -> Z.of_nat (length (lit uri)) <= 1000 -> lit uri <> [] ->
  match lit uri with c :: _ => c <> slash | [] => True end ->
  track ∈ ["1"; "2"; "3"]%string -> good_song keep_all (sample_song uri track).
Proof.
  intros Hc Hl Hne Hs Ht. split; cbn [sample_song ds_uri ds_mtime ds_start_ms ds_end_ms ds_tag]; try lia; try done; [by apply plain_text|].
  assert (Hi : good_item keep_all (TAG_TRACK, lit track)).
  { apply elem_of_cons in Ht as [->|[->| ->%list_elem_of_singleton]%elem_of_cons]; (split; [plain|done|vm_compute; reflexivity..]). }
  split; cbn [td_items td_time td_has_playlist]; [|lia|left; lia]. apply Forall_cons_2; [|by apply Forall_singleton].
  split; [plain|done|vm_compute; reflexivity..].
Qed.

Lemma sample_storable : storable keep_all sample_root.
Proof.
  assert (Hsong : forall u t, t ∈ ["1"; "2"; "3"]%string -> u ∈ ["a.ogg"; "b.ogg"; "future days.ogg"]%string ->
    good_song keep_all (sample_song u t)).
  { intros u t Ht Hu. apply elem_of_cons in Hu as [->|[->| ->%list_elem_of_singleton]%elem_of_cons]; apply sample_good_song; (done || (vm_compute; congruence)). }
  unfold sample_root. constructor; cbn [children songs playlists].
  - apply Forall_singleton. split; [plain|cbn [mtime]; lia].
  - apply Forall_singleton. split; cbn [ds_uri ds_mtime ds_start_ms ds_end_ms ds_tag];
      [plain|done|vm_compute; congruence|lia|lia|lia|done].
  - constructor.
  - apply Forall_singleton. constructor; cbn [children songs playlists].
    + apply Forall_cons_2; [|apply Forall_singleton]; (split; [plain|cbn [mtime]; lia]).
    + apply Forall_singleton, Hsong; set_solver.
    + apply Forall_singleton. split; [plain|cbn [pm_mtime]; lia].
    + apply Forall_cons_2; [|apply Forall_singleton; repeat constructor]. constructor; cbn [children songs playlists]; try constructor.
      * apply Hsong; set_solver.
      * apply Forall_singleton, Hsong; set_solver.
Qed.

(** ** Claims *)

(** C23: the tree of directories keeps its form, in which each directory is
    named by its path and names, songs and playlists are unique: when a child is
    made (and found by its name afterwards), when songs and playlists are added,
    updated and removed, when empty directories are pruned and when everything
    is sorted.  None of the assertions of these functions fails. *)
Theorem tree_operations_keep_wf {C : Collate} d :
  wf d ->
  (forall n, good_name n -> exists c d', directory_make_child d n = Ok (c, d') /\ wf d' /\ wf c /\
    path c = child_path d n /\ directory_get_child d' n = Ok (Some c)) /\
  (forall s, directory_get_song d (ds_uri s) = None -> wf (directory_add_song s d)) /\
  (forall i, wf (directory_remove_song i d)) /\
  (forall n t, wf (set_playlists (playlist_vector_update_or_add (playlists d) n t).1 d)) /\
  (forall n, wf (set_playlists (playlist_vector_remove (playlists d) n).1 d)) /\
  wf (directory_prune_empty d) /\
  (sortable d -> exists d', directory_sort d = Ok d' /\ wf d').
Proof.
  intros Hw. split; [|split; [|split; [|split; [|split; [|split]]]]].
  - intros n Hn. unfold directory_make_child. destruct (get_child_total d n Hw) as (r & E & Hr). rewrite E. cbn [mbind res_bind].
    destruct r as [c|].
    + destruct (Hr c eq_refl) as (Hc & Hp & _). exists c, d. split; [done|]. split; [done|]. split; [by eapply wf_child|done].
    + destruct (directory_new_child_ok d n Hn) as (c & Ec & Hp & Hwc & _). rewrite Ec. cbn [mbind res_bind].
      assert (Hw' : wf (add_child c d)) by (by eapply wf_add_child). exists c, (add_child c d).
      split; [done|]. split; [done|]. split; [done|]. split; [done|].
      apply get_child_in; [done| |done|done]. apply elem_of_app. right. by apply list_elem_of_singleton.
  - intros s. by apply wf_add_song.
  - intros i. by apply wf_remove_song.
  - intros n t. pose proof Hw as (_ & _ & _ & _ & _ & Hs & Hl)%wf_inv. apply (wf_same_children d); try done.
    by apply playlist_update_names.
  - intros n. pose proof Hw as (_ & _ & _ & _ & _ & Hs & Hl)%wf_inv. apply (wf_same_children d); try done.
    cbn [playlists set_playlists]. unfold playlist_vector_remove. destruct (playlist_vector_find _ n) as [[i pm]|]; [|done].
    cbn [fst]. change (NoDup (pm_name <$> delete i (playlists d))). rewrite list_fmap_delete.
    eapply sublist_NoDup; [exact Hl|apply sublist_delete].
  - by apply wf_prune.
  - intros Hs. destruct (directory_sort_ok d Hs) as (d' & E & _ & Hwf & _). exists d'. split; [done|by apply Hwf].
Qed.

Lemma tree_operations_keep_wf_witness :
  wf sample_root /\ exists c d', directory_make_child sample_root (lit "new") = Ok (c, d') /\ wf d' /\
    directory_get_child d' (lit "new") = Ok (Some c).
Proof.
  split; [exact sample_wf|].
  assert (Hn : good_name (lit "new")) by (split; [done|by apply (bool_decide_unpack _); vm_compute]).
  destruct (proj1 (tree_operations_keep_wf sample_root sample_wf) (lit "new") Hn) as (c & d' & E & Hw & _ & _ & Hf).
  exists c, d'. split; [exact E|]. split; [exact Hw|exact Hf].
Defined.

(** C26: every directory of the tree is found by its path and every song by
    its URI; whatever is found by a path is a directory of the tree with that
    path, or the root, and whatever is found by a URI is a song of the tree
    with that URI (the root may also be written as an empty path or a slash).
    Anything else is not found, and no assertion fails. *)
Theorem database_lookup_correct root :
  wf root -> path root = [] ->
  (forall ns d, reach root ns d -> directory_lookup_directory root (path d) = Ok (Some d)) /\
  (forall ns d s, reach root ns d -> s ∈ songs d -> good_name (ds_uri s) ->
    exists uri, db_song_get_uri d s = Ok uri /\ directory_lookup_song root uri = Ok (Some (d, s))) /\
  (forall uri, exists r, directory_lookup_directory root uri = Ok r /\
    forall d, r = Some d -> exists ns, reach root ns d /\ (isRootDirectory uri = true /\ d = root \/ uri = path d)) /\
  (forall uri, exists r, directory_lookup_song root uri = Ok r /\
    forall d s, r = Some (d, s) -> s ∈ songs d /\ exists ns, reach root ns d /\
      ((d = root /\ uri = ds_uri s) \/
       exists p, uri = p ++ slash :: ds_uri s /\ (isRootDirectory p = true /\ d = root \/ p = path d))).
Proof.
  intros Hw Hr. split; [|split; [|split]].
  - intros ns d. by apply lookup_directory_ok.
  - intros ns d s. by apply lookup_song_ok.
  - intros uri. by apply lookup_directory_sound.
  - intros uri. by apply lookup_song_sound.
Qed.

Lemma database_lookup_correct_witness :
  wf sample_root /\ path sample_root = [] /\
  exists r, directory_lookup_directory sample_root (lit "can/live") = Ok r /\
    forall d, r = Some d -> exists ns, reach sample_root ns d /\ (isRootDirectory (lit "can/live") = true /\ d = sample_root \/ lit "can/live" = path d).
Proof.
  split; [exact sample_wf|]. split; [reflexivity|].
  exact (proj1 (proj2 (proj2 (database_lookup_correct sample_root sample_wf eq_refl))) (lit "can/live")).
Defined.

(** Walking the tree is a loop over one list of entries that the first
    error ends, whichever callbacks the visitor has; a recursive walk passes
    every song of the tree once, in the order of the tree. *)
Theorem directory_walk_is_loop {Ctx} recursive (v : db_visitor Ctx) d ctx :
  directory_walk recursive v d ctx = visit_each (visit v) (entries recursive d) ctx /\
  omap (fun e => match e with ESong d s => Some (path d, s) | _ => None end) (entries true d) = all_songs d.
Proof. split; [apply directory_walk_entries|apply entries_songs]. Qed.

(** C21: saving prunes and sorts the tree without losing a song or a
    playlist, and opening the file that was written restores the same tree,
    but for what [stat()] said and the time of the root.  The tree has to be
    [storable] and [sortable]: names and values are text that stays on one
    line and is not too long; the value of a tag is not empty, valid, of a type
    that is not ignored and does not begin with a blank (which would be lost);
    the times of songs fit into 32 bits (later ones would be cut off); a tag is
    not empty; and no directory has 2^21 entries. *)
Theorem database_roundtrip {Ch : Charset} {C : Collate} {G : GString} {HG : GStringSpec G} {PL : PathLib}
    {HPL : PathLibSpec PL} ignore old version fs_charset check root :
  wf root -> path root = [] -> sortable root -> storable ignore root -> good_text version -> good_text fs_charset ->
  match old with Some o => o = fs_charset | None => True end ->
  exists root' text, simple_db_save (F := memory_file) version fs_charset ignore (Some []) root = Ok (MPD_SUCCESS, root', Some text) /\
    wf root' /\ simple_db_open ignore old (Some text) check = Ok (MPD_SUCCESS, Some (set_mtime 0 (saved root'))) /\
    all_songs (set_mtime 0 (saved root')) ≡ₚ all_songs root /\
    all_playlists (set_mtime 0 (saved root')) ≡ₚ all_playlists root.
Proof.
  intros Hw Hroot Hsort Hst Hv Hf Hold. set (pruned := directory_prune_empty root).
  destruct (directory_sort_ok pruned (sortable_prune root Hsort)) as (root' & E & Hp & Hwf & Hs & Hpl & _).
  pose proof (Hwf (wf_prune _ Hw)) as Hw'. destruct (storable_sort ignore _ _ E (storable_prune ignore _ Hst)) as [Hst' _].
  assert (Hroot' : path root' = []) by (by rewrite Hp; unfold pruned; rewrite prune_path).
  destruct (load_saved ignore old version fs_charset root' Hw' Hroot' Hst' Hv Hf Hold) as [fp El].
  exists root', (simple_db_save_internal (F := memory_file) version fs_charset ignore [] root'). split; [|split; [done|split]].
  - unfold simple_db_save. fold pruned. rewrite E. done.
  - unfold simple_db_open. change directory_new_root with (Ok (Directory [] 0 no_stat [] [] [])).
    rewrite bind_value, El, bind_value. done.
  - destruct (saved_sort_songs root') as [-> ->]. destruct (prune_keeps root) as [E1 E2].
    rewrite Hs, Hpl. unfold pruned. by rewrite E1, E2.
Qed.

Lemma database_roundtrip_witness :
  wf sample_root /\ sortable sample_root /\ storable keep_all sample_root /\
  exists root' text, simple_db_save (F := memory_file) (lit "0.18") (lit "UTF-8") keep_all (Some []) sample_root = Ok (MPD_SUCCESS, root', Some text) /\
    simple_db_open keep_all (Some (lit "UTF-8")) (Some text) DB_ACCESS = Ok (MPD_SUCCESS, Some (set_mtime 0 (saved root'))) /\
    all_songs (set_mtime 0 (saved root')) ≡ₚ all_songs sample_root.
Proof.
  split; [exact sample_wf|]. split; [exact sample_sortable|]. split; [exact sample_storable|].
  assert (Hv : good_text (lit "0.18")) by plain. assert (Hc : good_text (lit "UTF-8")) by plain.
  destruct (database_roundtrip keep_all (Some (lit "UTF-8")) (lit "0.18") (lit "UTF-8") DB_ACCESS sample_root
    sample_wf eq_refl sample_sortable sample_storable Hv Hc eq_refl) as (root' & text & E1 & _ & E2 & E3 & _).
  exists root', text. split; [exact E1|]. split; [exact E2|exact E3].
Defined.
