(* ===== verification/Locate.v ===== *)
(** * Searching songs

    [src/locate.c]: criteria, each a tag type and a string, and the songs
    that satisfy them. *)

From S2P Require Import Prelude CString Tokenizer TagPool TagValue.
Local Open Scope Z_scope.

(** [g_utf8_casefold()]: "converts a string into a form that is independent
    of case". *)
Class Casefold := { g_utf8_casefold : cstring -> cstring }.

(** ** Criteria *)

Definition LOCATE_TAG_FILE_TYPE : Z := TAG_NUM_OF_ITEM_TYPES + 10.
Definition LOCATE_TAG_ANY_TYPE : Z := TAG_NUM_OF_ITEM_TYPES + 20.

Record locate_item := LocateItem { li_tag : Z; li_needle : cstring }.

(** The type, or -1. *)
Definition locate_parse_type (str : cstring) : Z :=
  if g_ascii_strcasecmp_eq str (lit "file") || g_ascii_strcasecmp_eq str (lit "filename") then LOCATE_TAG_FILE_TYPE
  else if g_ascii_strcasecmp_eq str (lit "any") then LOCATE_TAG_ANY_TYPE
  else match tag_name_parse_i str with Some i => tag_type_code i | None => -1 end.

Definition locate_item_init (type_string needle : cstring) : option locate_item :=
  let tag := locate_parse_type type_string in
  if tag <? 0 then None else Some (LocateItem tag needle).

(** Pairs of arguments. *)
Fixpoint parse_pairs (argv : list cstring) : option (list locate_item) :=
  match argv with
  | type :: needle :: argv =>
      item ← locate_item_init type needle; items ← parse_pairs argv; Some (item :: items)
  | _ => Some []
  end.

(** [None] is [NULL]; [argc] is the length of [argv]. *)
Definition locate_item_list_parse (argv : list cstring) : option (list locate_item) :=
  if Z.of_nat (length argv) `mod` 2 =? 0 then parse_pairs argv else None.

(** ** Songs

    The functions read the URI ([song_get_uri()]) and the tag of a song. *)

(** [visited_types[type]]. *)
Definition visited (types : list bool) (type : Z) : res bool :=
  if type <? 0 then Err OutOfBounds else
  match types !! Z.to_nat type with Some b => Ok b | None => Err OutOfBounds end.

Definition no_types : list bool := replicate (Z.to_nat TAG_NUM_OF_ITEM_TYPES) false.

(** The loop over the items, which ends when [found] says so: whether it
    did, and the types that were passed. *)
Fixpoint item_loop (type : Z) (found : cstring -> bool) (its : list item) (types : list bool) : bool * list bool :=
  match its with
  | [] => (false, types)
  | (ty, value) :: its =>
      let types := <[Z.to_nat (tag_type_code ty) := true]> types in
      if negb (type =? LOCATE_TAG_ANY_TYPE) && negb (tag_type_code ty =? type) then item_loop type found its types
      else if found value then (true, types) else item_loop type found its types
  end.

Definition is_empty (str : cstring) : bool := bool_decide (str = []).

Section locate.
Context {F : Casefold}.

Definition locate_item_list_casefold (list : list locate_item) : Datatypes.list locate_item :=
  map (fun item => LocateItem (li_tag item) (g_utf8_casefold (li_needle item))) list.

Definition locate_tag_search (uri : cstring) (tag : option tag_data) (type : Z) (str : cstring) : res bool :=
  let of_uri := (type =? LOCATE_TAG_FILE_TYPE) || (type =? LOCATE_TAG_ANY_TYPE) in
  let ret := of_uri && contains str (g_utf8_casefold uri) in
  if of_uri && (ret || (type =? LOCATE_TAG_FILE_TYPE)) then Ok ret else
  match tag with
  | None => Ok false
  | Some tag =>
      let '(ret, types) := item_loop type (fun value => negb (is_empty str) && contains str (g_utf8_casefold value))
                             (td_items tag) no_types in
      if is_empty str then v ← visited types type; Ok (negb v || ret) else Ok ret
  end.

Fixpoint locate_song_search (uri : cstring) (tag : option tag_data) (criteria : list locate_item) : res bool :=
  match criteria with
  | [] => Ok true
  | item :: criteria =>
      b ← locate_tag_search uri tag (li_tag item) (li_needle item);
      if (b : bool) then locate_song_search uri tag criteria else Ok false
  end.

End locate.

Definition locate_tag_match (uri : cstring) (tag : option tag_data) (type : Z) (str : cstring) : res bool :=
  let of_uri := (type =? LOCATE_TAG_FILE_TYPE) || (type =? LOCATE_TAG_ANY_TYPE) in
  let matches := of_uri && bool_decide (str = uri) in
  if matches then Ok true
  else if type =? LOCATE_TAG_FILE_TYPE then Ok false else
  match tag with
  | None => Ok false
  | Some tag =>
      let '(ret, types) := item_loop type (fun value => bool_decide (str = value)) (td_items tag) no_types in
      if (ret : bool) then Ok true
      else if is_empty str then v ← visited types type; Ok (negb v) else Ok false
  end.

Fixpoint locate_song_match (uri : cstring) (tag : option tag_data) (criteria : list locate_item) : res bool :=
  match criteria with
  | [] => Ok true
  | item :: criteria =>
      b ← locate_tag_match uri tag (li_tag item) (li_needle item);
      if (b : bool) then locate_song_match uri tag criteria else Ok false
  end.

(** ** What the criteria mean *)

Definition code_in (its : list item) (type : Z) : bool := existsb (fun it => tag_type_code it.1 =? type) its.

(** Some value of the type satisfies [f]. *)
Definition some_value (type : Z) (f : cstring -> bool) (its : list item) : bool :=
  existsb (fun it => ((type =? LOCATE_TAG_ANY_TYPE) || (tag_type_code it.1 =? type)) && f it.2) its.

(** A tag has some value of the type, or the needle is empty and it has none
    at all. *)
Definition tag_satisfies (type : Z) (str : cstring) (f : cstring -> bool) (tag : option tag_data) : bool :=
  match tag with
  | None => false
  | Some tag => if is_empty str && negb (type =? LOCATE_TAG_ANY_TYPE) then negb (code_in (td_items tag) type)
                else negb (is_empty str) && some_value type f (td_items tag)
  end.

Definition of_uri (type : Z) : bool := (type =? LOCATE_TAG_FILE_TYPE) || (type =? LOCATE_TAG_ANY_TYPE).

Definition search_satisfies {F : Casefold} (uri : cstring) (tag : option tag_data) (item : locate_item) : bool :=
  let '(LocateItem type str) := item in
  of_uri type && contains str (g_utf8_casefold uri) ||
  negb (type =? LOCATE_TAG_FILE_TYPE) && tag_satisfies type str (fun v => contains str (g_utf8_casefold v)) tag.

(** An empty needle equals the empty values that a tag might have. *)
Definition match_satisfies (uri : cstring) (tag : option tag_data) (item : locate_item) : bool :=
  let '(LocateItem type str) := item in
  of_uri type && bool_decide (str = uri) ||
  negb (type =? LOCATE_TAG_FILE_TYPE) &&
    match tag with
    | None => false
    | Some tag => some_value type (fun v => bool_decide (str = v)) (td_items tag) ||
                  (is_empty str && negb (code_in (td_items tag) type))
    end.

(** What [locate_parse_type()] returns. *)
Definition valid_type (type : Z) : Prop :=
  type = LOCATE_TAG_FILE_TYPE \/ type = LOCATE_TAG_ANY_TYPE \/ exists t, type = tag_type_code t.

(** ** Lemmas *)

Lemma parse_type_valid str : locate_parse_type str < 0 \/ valid_type (locate_parse_type str).
Proof.
  unfold locate_parse_type, valid_type. destruct (_ || _); [by right; left|].
  destruct (g_ascii_strcasecmp_eq _ _); [by right; right; left|].
  destruct (tag_name_parse_i str) as [t|]; [|by left]. right; right; right. by exists t.
Qed.

Lemma parse_pairs_valid argv items : parse_pairs argv = Some items -> Forall (fun it => valid_type (li_tag it)) items.
Proof.
  revert items. induction argv as [argv IH] using (induction_ltof1 _ (@length _)); unfold ltof in IH. intros items.
  destruct argv as [|type [|needle argv]]; [by intros [= <-]|by intros [= <-]|]. cbn [parse_pairs].
  unfold locate_item_init. destruct (parse_type_valid type) as [H|H].
  - rewrite (proj2 (Z.ltb_lt _ _) H). done.
  - destruct (locate_parse_type type <? 0); [done|]. cbn [mbind option_bind].
    destruct (parse_pairs argv) as [rest|] eqn:E; [|done]. cbn [mbind option_bind]. intros [= <-].
    constructor; [done|]. eapply (IH argv); [simpl; lia|done].
Qed.

Lemma code_range t : (Z.to_nat (tag_type_code t) < 18)%nat /\ 0 <= tag_type_code t < 18.
Proof. destruct t; vm_compute; (split; [lia|]); split; congruence. Qed.

Lemma code_inj t u : Z.to_nat (tag_type_code t) = Z.to_nat (tag_type_code u) <-> tag_type_code t = tag_type_code u.
Proof. pose proof (code_range t). pose proof (code_range u). lia. Qed.

Lemma item_loop_ok type f its types :
  length types = 18%nat ->
  exists types', item_loop type f its types = (some_value type f its, types') /\ length types' = 18%nat /\
    (some_value type f its = false -> forall t,
      types' !! Z.to_nat (tag_type_code t) =
      (fun b => b || code_in its (tag_type_code t)) <$> types !! Z.to_nat (tag_type_code t)).
Proof.
  revert types. induction its as [|[ty v] its IH]; intros types Hl.
  - exists types. split; [done|]. split; [done|]. intros _ t. destruct (types !! _); [|done]. simpl. by rewrite orb_false_r.
  - change (some_value type f ((ty, v) :: its)) with
      (((type =? LOCATE_TAG_ANY_TYPE) || (tag_type_code ty =? type)) && f v || some_value type f its).
    assert (Ec : forall c, code_in ((ty, v) :: its) c = (tag_type_code ty =? c) || code_in its c) by done.
    cbn [item_loop]. set (types1 := <[_ := true]> types).
    assert (Hl1 : length types1 = 18%nat) by (unfold types1; by rewrite length_insert).
    assert (Hv : forall t, types1 !! Z.to_nat (tag_type_code t) =
      (fun b => b || (tag_type_code ty =? tag_type_code t)) <$> types !! Z.to_nat (tag_type_code t)).
    { intros t. unfold types1. destruct (Z.eqb_spec (tag_type_code ty) (tag_type_code t)) as [E|E].
      - rewrite <- E. rewrite list_lookup_insert_eq by (rewrite Hl; apply code_range).
        destruct (lookup_lt_is_Some_2 types (Z.to_nat (tag_type_code ty))) as [b ->]; [rewrite Hl; apply code_range|].
        simpl. by rewrite orb_true_r.
      - rewrite list_lookup_insert_ne by (by rewrite code_inj). destruct (types !! _); [|done]. simpl. by rewrite orb_false_r. }
    assert (Hcomb : some_value type f its = false -> forall types' : list bool, (forall t, types' !! Z.to_nat (tag_type_code t) =
        (fun b => b || code_in its (tag_type_code t)) <$> types1 !! Z.to_nat (tag_type_code t)) ->
      forall t, types' !! Z.to_nat (tag_type_code t) =
        (fun b => b || ((tag_type_code ty =? tag_type_code t) || code_in its (tag_type_code t))) <$> types !! Z.to_nat (tag_type_code t)).
    { intros _ types' H t. rewrite H, Hv. destruct (types !! _); [|done]. simpl. by rewrite orb_assoc. }
    destruct (IH types1 Hl1) as (types' & E & Hl' & Hn).
    destruct (Z.eqb_spec type LOCATE_TAG_ANY_TYPE), (Z.eqb_spec (tag_type_code ty) type); cbn [negb andb orb].
    1-3: destruct (f v); [exists types1; split; [done|]; split; [done|]; intros; done|].
    1-4: exists types'; split; [exact E|]; split; [done|]; intros Hs t; rewrite Ec; apply Hcomb; [exact Hs|by apply Hn].
Qed.

Lemma visited_ok types t :
  length types = 18%nat -> exists b, types !! Z.to_nat (tag_type_code t) = Some b /\ visited types (tag_type_code t) = Ok b.
Proof.
  intros Hl. destruct (lookup_lt_is_Some_2 types (Z.to_nat (tag_type_code t))) as [b Hb]; [rewrite Hl; apply code_range|].
  exists b. split; [done|]. unfold visited. destruct (Z.ltb_spec (tag_type_code t) 0); [|by rewrite Hb].
  pose proof (code_range t). lia.
Qed.

Lemma no_types_lookup t : no_types !! Z.to_nat (tag_type_code t) = Some false.
Proof. apply lookup_replicate_2. apply code_range. Qed.

Lemma code_not_special t : (tag_type_code t =? LOCATE_TAG_FILE_TYPE) = false /\ (tag_type_code t =? LOCATE_TAG_ANY_TYPE) = false.
Proof. pose proof (code_range t). unfold LOCATE_TAG_FILE_TYPE, LOCATE_TAG_ANY_TYPE. change TAG_NUM_OF_ITEM_TYPES with 18. lia. Qed.

(** Whether a type was passed in a loop that found nothing. *)
Lemma visited_none t f its types' :
  item_loop (tag_type_code t) f its no_types = (false, types') ->
  visited types' (tag_type_code t) = Ok (code_in its (tag_type_code t)).
Proof.
  intros E. destruct (item_loop_ok (tag_type_code t) f its no_types ltac:(done)) as (ts & E' & Hl & Hn).
  rewrite E in E'. injection E' as Es ->. destruct (visited_ok ts t Hl) as (b & Hb & ->). f_equal.
  rewrite Hn, no_types_lookup in Hb by done. by injection Hb as <-.
Qed.

Lemma contains_nil s : contains [] s = true.
Proof. by destruct s. Qed.

Lemma some_value_never type f its : (forall v, f v = false) -> some_value type f its = false.
Proof. intros H. induction its as [|it its IH]; [done|]. simpl. by rewrite H, andb_false_r. Qed.

Lemma locate_tag_search_ok {F : Casefold} uri tag type str :
  valid_type type -> locate_tag_search uri tag type str = Ok (search_satisfies uri tag (LocateItem type str)).
Proof.
  intros Hv. unfold locate_tag_search, search_satisfies. fold (of_uri type).
  destruct Hv as [->|[->|[t ->]]].
  - cbn. rewrite orb_true_r. by rewrite orb_false_r.
  - change (of_uri LOCATE_TAG_ANY_TYPE) with true. cbn [andb]. change (LOCATE_TAG_ANY_TYPE =? LOCATE_TAG_FILE_TYPE) with false.
    rewrite orb_false_r. cbn [negb andb]. destruct (contains str (g_utf8_casefold uri)) eqn:Ec; [done|].
    unfold tag_satisfies. destruct tag as [tag|]; [|done]. destruct str as [|c str]; [by rewrite contains_nil in Ec|].
    change (is_empty (c :: str)) with false. cbn [negb andb orb].
    destruct (item_loop_ok LOCATE_TAG_ANY_TYPE (fun v => contains (c :: str) (g_utf8_casefold v)) (td_items tag) no_types ltac:(done))
      as (types & -> & _). done.
  - destruct (code_not_special t) as [E1 E2]. unfold of_uri. rewrite E1, E2. cbn [orb andb negb].
    unfold tag_satisfies. destruct tag as [tag|]; [|done]. rewrite E2. cbn [negb]. rewrite andb_true_r.
    destruct (item_loop_ok (tag_type_code t) (fun v => negb (is_empty str) && contains str (g_utf8_casefold v)) (td_items tag)
      no_types ltac:(done)) as (types & E & _). rewrite E. destruct str as [|c str].
    + change (is_empty []) with true. cbn [negb andb]. rewrite (some_value_never _ (fun _ => false)) in E by done.
      change (is_empty []) with true in E. cbn [negb andb] in E.
      rewrite (visited_none t _ _ _ E). cbn [mbind res_bind]. rewrite (some_value_never _ (fun _ => false)) by done.
      by rewrite orb_false_r.
    + done.
Qed.

(** With [any] and an empty needle the array of types is left, unless the
    song is found before. *)
Lemma locate_tag_match_ok uri tag type str :
  valid_type type -> ~ (type = LOCATE_TAG_ANY_TYPE /\ str = []) ->
  locate_tag_match uri tag type str = Ok (match_satisfies uri tag (LocateItem type str)).
Proof.
  intros Hv Hne. unfold locate_tag_match, match_satisfies. fold (of_uri type).
  destruct (of_uri type && bool_decide (str = uri)) eqn:Eu; [done|]. cbn [orb].
  destruct Hv as [->|[->|[t ->]]]; [done| |].
  - change (LOCATE_TAG_ANY_TYPE =? LOCATE_TAG_FILE_TYPE) with false. cbn [negb andb]. destruct tag as [tag|]; [|done].
    destruct (item_loop_ok LOCATE_TAG_ANY_TYPE (fun v => bool_decide (str = v)) (td_items tag) no_types ltac:(done))
      as (types & -> & _). destruct (some_value _ _ _); [done|]. destruct str; [by destruct Hne|done].
  - destruct (code_not_special t) as [E1 E2]. rewrite E1. cbn [negb andb]. destruct tag as [tag|]; [|done].
    destruct (item_loop_ok (tag_type_code t) (fun v => bool_decide (str = v)) (td_items tag) no_types ltac:(done))
      as (types & E & _). rewrite E. destruct (some_value _ _ _); [done|]. cbn [orb].
    destruct (is_empty str); [|done]. by rewrite (visited_none t _ _ _ E).
Qed.

Lemma locate_tag_match_any_empty uri tag :
  uri <> [] -> Forall (fun it => it.2 <> []) (td_items tag) ->
  locate_tag_match uri (Some tag) LOCATE_TAG_ANY_TYPE [] = Err OutOfBounds.
Proof.
  intros Hu Hv. unfold locate_tag_match. rewrite bool_decide_false by congruence. rewrite andb_false_r.
  change (LOCATE_TAG_ANY_TYPE =? LOCATE_TAG_FILE_TYPE) with false. cbv iota.
  destruct (item_loop_ok LOCATE_TAG_ANY_TYPE (fun v => bool_decide ([] = v)) (td_items tag) no_types ltac:(done))
    as (types & -> & Hl & _).
  assert (E : some_value LOCATE_TAG_ANY_TYPE (fun v => bool_decide ([] = v)) (td_items tag) = false).
  { induction Hv as [|it its Hit _ IH]; [done|]. unfold some_value in *. cbn [existsb]. rewrite IH.
    by rewrite (bool_decide_false ([] = it.2)) by congruence. }
  rewrite E. change (is_empty []) with true. cbv iota. unfold visited.
  change (LOCATE_TAG_ANY_TYPE <? 0) with false. cbv iota. rewrite lookup_ge_None_2; [done|]. rewrite Hl. vm_compute. lia.
Qed.

Lemma locate_song_search_ok {F : Casefold} uri tag criteria :
  Forall (fun it => valid_type (li_tag it)) criteria ->
  locate_song_search uri tag criteria = Ok (forallb (search_satisfies uri tag) criteria).
Proof.
  induction 1 as [|[type str] criteria Hv _ IH]; [done|]. cbn [locate_song_search li_tag li_needle].
  rewrite locate_tag_search_ok by done. cbn [mbind res_bind forallb]. by destruct (search_satisfies _ _ _).
Qed.

Lemma locate_song_match_ok uri tag criteria :
  Forall (fun it => valid_type (li_tag it) /\ ~ (li_tag it = LOCATE_TAG_ANY_TYPE /\ li_needle it = [])) criteria ->
  locate_song_match uri tag criteria = Ok (forallb (match_satisfies uri tag) criteria).
Proof.
  induction 1 as [|[type str] criteria [Hv Hne] _ IH]; [done|]. cbn [locate_song_match li_tag li_needle].
  rewrite locate_tag_match_ok by done. cbn [mbind res_bind forallb]. by destruct (match_satisfies _ _ _).
Qed.
