(* ===== verification/StrSet.v ===== *)
(** * Sets of strings

    [src/strset.c]: a hash table with chains.  The first slot of a bucket is
    part of the table, the others are allocated behind it; a bucket is the
    list of their values.  The strings belong to the caller. *)

From S2P Require Import Prelude CString TagPool.
Local Open Scope Z_scope.

Definition STRSET_SLOTS : Z := 16384.

(** [current_slot] is a place in a bucket. *)
Record strset := StrSet {
  ss_size : Z;
  ss_current : option (nat * nat);
  ss_next : nat;
  ss_slots : list (list cstring);
}.

(** [calc_hash()] of this file. *)
Definition set_hash (p : cstring) : Z := foldl hash_step 5381 p.

Definition strset_new : strset := StrSet 0 None 0 (replicate (Z.to_nat STRSET_SLOTS) []).

(** [slots[hash % NUM_SLOTS]]. *)
Definition slot_of (value : cstring) : nat := Z.to_nat (set_hash value `mod` STRSET_SLOTS).

Definition strset_add (set : strset) (value : cstring) : res strset :=
  match ss_slots set !! slot_of value with
  | None => Err OutOfBounds
  | Some [] => Ok (StrSet (u32 (ss_size set + 1)) (ss_current set) (ss_next set) (<[slot_of value := [value]]> (ss_slots set)))
  | Some (base :: chain) =>
      if bool_decide (value ∈ base :: chain) then Ok set
      else Ok (StrSet (u32 (ss_size set + 1)) (ss_current set) (ss_next set)
                 (<[slot_of value := base :: value :: chain]> (ss_slots set)))
  end.

(** The hash is the index, and the search begins behind the first slot. *)
Definition strset_get (set : strset) (value : cstring) : res bool :=
  match ss_slots set !! Z.to_nat (set_hash value) with
  | None => Err OutOfBounds
  | Some [] => Ok false
  | Some (_ :: chain) => Ok (bool_decide (value ∈ chain))
  end.

Definition strset_size (set : strset) : Z := ss_size set.

Definition strset_rewind (set : strset) : strset := StrSet (ss_size set) None 0 (ss_slots set).

(** The loop over empty slots: the number of the first one that is not, or
    of the end. *)
Fixpoint skip_empty (n : nat) (slots : list (list cstring)) : nat :=
  match slots with
  | [] :: slots => skip_empty (S n) slots
  | _ => n
  end.

Definition strset_next (set : strset) : res (option cstring * strset) :=
  let set_next_slot :=
    let n := skip_empty (ss_next set) (drop (ss_next set) (ss_slots set)) in
    match ss_slots set !! n with
    | None => Ok (None, StrSet (ss_size set) (ss_current set) n (ss_slots set))
    | Some (value :: _) => Ok (Some value, StrSet (ss_size set) (Some (n, 0%nat)) (S n) (ss_slots set))
    | Some [] => Err OutOfBounds
    end in
  match ss_current set with
  | None => set_next_slot
  | Some (i, k) =>
      match ss_slots set !! i with
      | None => Err OutOfBounds
      | Some bucket =>
          match bucket !! S k with
          | Some value => Ok (Some value, StrSet (ss_size set) (Some (i, S k)) (ss_next set) (ss_slots set))
          | None => set_next_slot
          end
      end
  end.

(** The loop of a caller: all values from the current position on. *)
Fixpoint strset_values (fuel : nat) (set : strset) : res (list cstring) :=
  match fuel with
  | O => Err OutOfFuel
  | S fuel =>
      r ← strset_next set;
      match r.1 with
      | None => Ok []
      | Some value => vs ← strset_values fuel r.2; Ok (value :: vs)
      end
  end.

(** ** Invariant *)

(** The values, in the order of the table. *)
Definition values (set : strset) : list cstring := concat (ss_slots set).

Record set_ok (set : strset) : Prop := {
  set_slots : length (ss_slots set) = Z.to_nat STRSET_SLOTS;
  set_place i b v : ss_slots set !! i = Some b -> v ∈ b -> slot_of v = i;
  set_nodup i b : ss_slots set !! i = Some b -> NoDup b;
  set_size : ss_size set = u32 (Z.of_nat (length (values set)));
}.

Lemma slot_of_range v : (slot_of v < Z.to_nat STRSET_SLOTS)%nat.
Proof. unfold slot_of. pose proof (Z.mod_pos_bound (set_hash v) STRSET_SLOTS ltac:(done)). lia. Qed.

Lemma strset_new_ok : set_ok strset_new /\ values strset_new = [].
Proof.
  assert (E : values strset_new = []).
  { unfold values, strset_new. cbn [ss_slots]. generalize (Z.to_nat STRSET_SLOTS). intros n. by induction n. }
  split; [|done]. split.
  - unfold strset_new. cbn [ss_slots]. apply length_replicate.
  - intros i b v Hb Hv. apply lookup_replicate in Hb as [-> _]. by apply not_elem_of_nil in Hv.
  - intros i b Hb. apply lookup_replicate in Hb as [-> _]. constructor.
  - by rewrite E.
Qed.

Lemma elem_of_values set v : v ∈ values set <-> exists i b, ss_slots set !! i = Some b /\ v ∈ b.
Proof.
  unfold values. rewrite list_elem_of_In, in_concat. split.
  - intros (b & Hb & Hv). apply list_elem_of_In in Hb, Hv. apply list_elem_of_lookup_1 in Hb as [i Hi]. by exists i, b.
  - intros (i & b & Hi & Hv). exists b. split; apply list_elem_of_In; [by eapply list_elem_of_lookup_2|done].
Qed.

Lemma values_nodup set : set_ok set -> NoDup (values set).
Proof.
  intros [_ Hp Hn _]. unfold values. set (l := ss_slots set) in *. clearbody l.
  assert (H : forall k, (forall i b v, l !! i = Some b -> v ∈ b -> slot_of v = (k + i)%nat) -> NoDup (concat l)).
  { clear Hp. induction l as [|b l IH]; intros k Hk; [constructor|]. cbn [concat]. apply NoDup_app.
    split; [by apply (Hn 0%nat)|]. split.
    - intros v Hv Hin. pose proof (Hk 0%nat b v eq_refl Hv) as E1. apply list_elem_of_In, in_concat in Hin as (b' & Hb' & Hv').
      apply list_elem_of_In in Hb', Hv'. apply list_elem_of_lookup_1 in Hb' as [i Hi].
      pose proof (Hk (S i) b' v Hi Hv'). lia.
    - apply (IH (fun i b => Hn (S i) b) (S k)). intros i b' v Hi Hv. rewrite (Hk (S i) b' v Hi Hv). lia. }
  by apply (H 0%nat).
Qed.

(** *** Adding *)

Lemma concat_insert_perm (l : list (list cstring)) i b b' v :
  l !! i = Some b -> b' ≡ₚ v :: b -> concat (<[i := b']> l) ≡ₚ v :: concat l.
Proof.
  revert i. induction l as [|c l IH]; intros [|i]; [done|done| |]; cbn [lookup list_lookup].
  - intros [= ->] Hp. cbn [insert list_insert concat]. by rewrite Hp.
  - intros Hi Hp. change (c ++ concat (<[i := b']> l) ≡ₚ v :: c ++ concat l). rewrite (IH i Hi Hp). symmetry. apply Permutation_middle.
Qed.

Lemma set_ok_insert set v b b' :
  set_ok set -> ss_slots set !! slot_of v = Some b -> v ∉ b -> b' ≡ₚ v :: b ->
  let set' := StrSet (u32 (ss_size set + 1)) (ss_current set) (ss_next set) (<[slot_of v := b']> (ss_slots set)) in
  set_ok set' /\ values set' ≡ₚ v :: values set.
Proof.
  intros [Hl Hp Hn Hs] Hb Hv Hperm. cbv zeta. set (set' := StrSet _ _ _ _).
  assert (Hvals : values set' ≡ₚ v :: values set) by (unfold values; cbn [set' ss_slots]; by eapply concat_insert_perm).
  split; [|done]. split; cbn [set' ss_slots ss_size].
  - by rewrite length_insert.
  - intros i c w Hc Hw. destruct (decide (i = slot_of v)) as [->|Hne].
    + rewrite list_lookup_insert_eq in Hc by (by eapply lookup_lt_Some). injection Hc as <-.
      rewrite Hperm in Hw. apply elem_of_cons in Hw as [->|Hw]; [done|by eapply Hp].
    + rewrite list_lookup_insert_ne in Hc by done. by eapply Hp.
  - intros i c Hc. destruct (decide (i = slot_of v)) as [->|Hne].
    + rewrite list_lookup_insert_eq in Hc by (by eapply lookup_lt_Some). injection Hc as <-. rewrite Hperm.
      apply NoDup_cons. split; [done|by eapply Hn].
    + rewrite list_lookup_insert_ne in Hc by done. by eapply Hn.
  - change (u32 (ss_size set + 1) = u32 (Z.of_nat (length (values set')))).
    rewrite (Permutation_length Hvals). cbn [length]. rewrite Hs.
    replace (Z.of_nat (S (length (values set)))) with (1 + Z.of_nat (length (values set))) by lia.
    rewrite (Z.add_comm _ 1). apply u32_add_u32.
Qed.

(** A value is in the set afterwards, once. *)
Lemma strset_add_ok set v :
  set_ok set -> exists set', strset_add set v = Ok set' /\ set_ok set' /\
    values set' ≡ₚ (if decide (v ∈ values set) then values set else v :: values set).
Proof.
  intros Hok. pose proof Hok as [Hl Hp Hn _]. unfold strset_add.
  destruct (lookup_lt_is_Some_2 (ss_slots set) (slot_of v)) as [b Hb]; [rewrite Hl; apply slot_of_range|]. rewrite Hb.
  assert (Hin : v ∈ values set <-> v ∈ b).
  { rewrite elem_of_values. split; [|by eauto]. intros (i & b2 & Hi & Hv). pose proof (Hp i b2 v Hi Hv) as E. subst i.
    rewrite Hb in Hi. by injection Hi as ->. }
  destruct b as [|base chain].
  - rewrite decide_False by (rewrite Hin; apply not_elem_of_nil). eexists. split; [done|].
    apply (set_ok_insert set v [] [v]); [done|done|apply not_elem_of_nil|done].
  - destruct (decide (v ∈ base :: chain)) as [Hvb|Hvb].
    + rewrite bool_decide_true, decide_True by (done || by rewrite Hin). by exists set.
    + rewrite bool_decide_false, decide_False by (done || by rewrite Hin). eexists. split; [done|].
      apply (set_ok_insert set v (base :: chain)); [done|done|done|]. by rewrite Permutation_swap.
Qed.

(** *** Walking *)

Definition remaining (set : strset) : list cstring :=
  match ss_current set with
  | None => []
  | Some (i, k) => drop (S k) (default [] (ss_slots set !! i))
  end ++ concat (drop (ss_next set) (ss_slots set)).

Lemma skip_empty_ok slots n :
  let m := skip_empty n (drop n slots) in
  concat (drop m slots) = concat (drop n slots) /\
  match slots !! m with None => concat (drop n slots) = [] | Some b => b <> [] end.
Proof.
  cbv zeta. remember (drop n slots) as l eqn:E. revert n E. induction l as [|b l IH]; intros n E.
  - simpl. assert (Hn : slots !! n = None).
    { apply lookup_ge_None_2. apply (f_equal length) in E. rewrite length_drop in E. simpl in E. lia. }
    rewrite <- E, Hn. done.
  - assert (Hn : slots !! n = Some b) by (by rewrite <- (Nat.add_0_r n), <- lookup_drop, <- E).
    assert (Hd : l = drop (S n) slots) by (rewrite (drop_S _ _ _ Hn) in E; by injection E).
    destruct b as [|v b].
    + cbn [skip_empty concat app]. by apply IH.
    + simpl. rewrite Hn. by rewrite <- E.
Qed.

Lemma strset_next_ok set :
  match ss_current set with Some (i, _) => is_Some (ss_slots set !! i) | None => True end ->
  exists set', ss_slots set' = ss_slots set /\
    match ss_current set' with Some (i, _) => is_Some (ss_slots set' !! i) | None => True end /\
    match remaining set with
    | [] => strset_next set = Ok (None, set')
    | v :: vs => strset_next set = Ok (Some v, set') /\ remaining set' = vs
    end.
Proof.
  destruct set as [size cur nxt slots]. cbn [ss_current ss_slots]. intros Hc. unfold strset_next, remaining. cbn [ss_current ss_slots ss_next ss_size].
  destruct (skip_empty_ok slots nxt) as [Ed Hm]. set (m := skip_empty nxt (drop nxt slots)) in *.
  assert (Hslot : forall cur', match cur' with Some (i, _) => is_Some (slots !! i) | None => True end -> exists set', ss_slots set' = slots /\
    match ss_current set' with Some (i, _) => is_Some (ss_slots set' !! i) | None => True end /\
    match concat (drop nxt slots) with
    | [] => match slots !! m with None => Ok (None, StrSet size cur' m slots)
            | Some (value :: _) => Ok (Some value, StrSet size (Some (m, 0%nat)) (S m) slots) | Some [] => Err OutOfBounds end = Ok (None, set')
    | v :: vs => match slots !! m with None => Ok (None, StrSet size cur' m slots)
            | Some (value :: _) => Ok (Some value, StrSet size (Some (m, 0%nat)) (S m) slots) | Some [] => Err OutOfBounds end = Ok (Some v, set') /\
        remaining set' = vs
    end).
  { intros cur' Hcur. destruct (slots !! m) as [b|] eqn:Eb.
    - destruct b as [|v b]; [done|]. rewrite <- Ed, (drop_S _ _ _ Eb). cbn [concat app].
      eexists. split; [|split; [|split; [done|]]]; [done|by cbn; rewrite Eb|]. unfold remaining. cbn [ss_current ss_slots ss_next]. rewrite Eb. done.
    - rewrite Hm. eexists. split; [|split; [|done]]; done. }
  destruct cur as [[i k]|]; [|by apply Hslot]. destruct Hc as [b Hb]. rewrite Hb. cbn [default from_option id].
  destruct (b !! S k) as [v|] eqn:Ev.
  - rewrite (drop_S _ _ _ Ev). cbn [app]. eexists. split; [|split; [|split; [done|]]]; [done|by cbn; rewrite Hb|].
    unfold remaining. cbn [ss_current ss_slots ss_next]. by rewrite Hb.
  - rewrite (drop_ge b) by (by apply lookup_ge_None_1). cbn [app]. apply Hslot. by rewrite Hb.
Qed.

Lemma strset_values_ok n set :
  match ss_current set with Some (i, _) => is_Some (ss_slots set !! i) | None => True end ->
  (length (remaining set) < n)%nat -> strset_values n set = Ok (remaining set).
Proof.
  revert set. induction n as [|n IH]; intros set Hc Hn; [lia|]. cbn [strset_values].
  destruct (strset_next_ok set Hc) as (set' & Es & Hc' & H). destruct (remaining set) as [|v vs].
  - by rewrite H.
  - destruct H as [-> Hr]. cbn [mbind res_bind fst snd]. rewrite IH; [|done|rewrite Hr; simpl in Hn; lia]. by rewrite Hr.
Qed.

Lemma strset_rewind_values set : strset_values (S (length (values set))) (strset_rewind set) = Ok (values set).
Proof.
  assert (E : remaining (strset_rewind set) = values set) by done.
  rewrite strset_values_ok; [by rewrite E|done|]. rewrite E. lia.
Qed.

(** Several values. *)
Fixpoint strset_add_all (set : strset) (vs : list cstring) : res strset :=
  match vs with [] => Ok set | v :: vs => set ← strset_add set v; strset_add_all set vs end.

Lemma strset_add_all_ok vs set :
  set_ok set -> exists set', strset_add_all set vs = Ok set' /\ set_ok set' /\
    forall v, v ∈ values set' <-> v ∈ values set \/ v ∈ vs.
Proof.
  revert set. induction vs as [|v vs IH]; intros set Hok.
  - exists set. split; [done|]. split; [done|]. intros v. rewrite elem_of_nil. tauto.
  - cbn [strset_add_all]. destruct (strset_add_ok set v Hok) as (set1 & -> & Hok1 & Hp). cbn [mbind res_bind].
    destruct (IH set1 Hok1) as (set' & -> & Hok' & H). exists set'. split; [done|]. split; [done|].
    intros w. rewrite H, Hp, elem_of_cons. destruct (decide (v ∈ values set)) as [Hin|]; [|rewrite elem_of_cons; tauto].
    split; [tauto|]. intros [?|[->|?]]; auto.
Qed.

(** The look-up does not see the first value of a bucket, and its index is
    not reduced to the size of the table. *)
Lemma strset_get_defect :
  (set ← strset_add strset_new (lit "a"); strset_get set (lit "a")) = Err OutOfBounds.
Proof. vm_compute. reflexivity. Qed.

