(* ===== verification/Query.v ===== *)
(** * Queries

    Printing songs and directories, searching and statistics:
    [src/song_print.c], [src/tag_print.c], [src/db_print.c], [src/dbUtils.c]
    and [src/stats.c].  What is printed goes to a client: [puts] is
    [client_printf()]. *)

From S2P Require Import Prelude Err GLib Float Song PlayerControl PlayQueue CString Uri Playlist Tokenizer Strtod.
From S2P Require Import ArgParser ClientRead ClientWrite Client Server Command Handlers TagPool TagValue Directory.
From S2P Require Import SimpleDb Locate StrSet.


Local Open Scope Z_scope.

(** ** Time *)

(** [gmtime_r()] and [strftime("%FT%TZ")]: the date of a day since the
    epoch, counted in years that begin in March; [None] if the year does not
    fit into [int]. *)
Definition civil_of_days (days : Z) : Z * Z * Z :=
  let z := days + 719468 in
  let era := z / 146097 in
  let doe := z `mod` 146097 in
  let yoe := (doe - doe / 1460 + doe / 36524 - doe / 146096) / 365 in
  let doy := doe - (365 * yoe + yoe / 4 - yoe / 100) in
  let mp := (5 * doy + 2) / 153 in
  let m := if mp <? 10 then mp + 3 else mp - 9 in
  (yoe + era * 400 + (if m <=? 2 then 1 else 0), m, doy - (153 * mp + 2) / 5 + 1).

Definition two_digits (n : Z) : cstring := pad_zeros 2 (print_u n).

Definition timestamp (t : Z) : option cstring :=
  let '(y, m, d) := civil_of_days (t / 86400) in
  let s := t `mod` 86400 in
  if bool_decide (- 2 ^ 31 <= y - 1900 < 2 ^ 31) then
    Some (print_i y ++ lit "-" ++ two_digits m ++ lit "-" ++ two_digits d ++ lit "T" ++
          two_digits (s / 3600) ++ lit ":" ++ two_digits ((s / 60) `mod` 60) ++ lit ":" ++ two_digits (s `mod` 60) ++ lit "Z")
  else None.

(** ** Songs *)

(** [song_get_duration()]. *)
Definition db_song_get_duration (s : db_song) : double :=
  if 0 <? ds_end_ms s then f64_div (f64_of_Z (u32 (ds_end_ms s - ds_start_ms s))) (f64_of_Z 1000)
  else match ds_tag s with
       | None => f_zero
       | Some tag => f64_sub (f64_of_Z (td_time tag)) (f64_div (f64_of_Z (ds_start_ms s)) (f64_of_Z 1000))
       end.

Definition has_playlist (s : db_song) : bool := match ds_tag s with Some t => td_has_playlist t | None => false end.

(** [map_to_relative_path()] of [src/mapper.c]. *)
Definition map_to_relative_path (music_dir_utf8 : option cstring) (path_utf8 : cstring) : cstring :=
  match music_dir_utf8 with
  | Some dir =>
      if has_prefix dir path_utf8 then
        match drop (length dir) path_utf8 with
        | c :: rest => if bool_decide (c = slash) then rest else path_utf8
        | [] => path_utf8
        end
      else path_utf8
  | None => path_utf8
  end.

Section print.
Context {F : Casefold} {Ctx : Type}.
Variable puts : cstring -> Ctx -> res Ctx.
Variable music_dir_utf8 : option cstring.

(** A line. *)
Definition put_line (s : cstring) : Ctx -> res Ctx := puts (s ++ [char_of 10]).

(** Several pieces. *)
Fixpoint put_lines (ls : list cstring) (c : Ctx) : res Ctx :=
  match ls with [] => Ok c | l :: ls => c ← put_line l c; put_lines ls c end.

(** ** [src/tag_print.c] *)

Definition tag_print_types (ignore_tag_items : list bool) : Ctx -> res Ctx :=
  put_lines (omap (fun t => if default false (ignore_tag_items !! Z.to_nat (tag_type_code t)) then None
                            else Some (lit "tagtype: " ++ tag_name t)) tag_types).

Definition tag_print (tag : tag_data) (c : Ctx) : res Ctx :=
  c ← (if 0 <=? td_time tag then put_line (SONG_TIME ++ print_i (td_time tag)) c else Ok c);
  put_lines (map (fun it => tag_name it.1 ++ lit ": " ++ it.2) (td_items tag)) c.

(** ** [src/song_print.c] *)

Definition SONG_FILE : cstring := lit "file: ".

(** A song of the directory [parent]. *)
Definition song_print_uri (parent : directory) (s : db_song) (c : Ctx) : res Ctx :=
  if negb (directory_is_root parent) then
    put_line (SONG_FILE ++ directory_get_path parent ++ lit "/" ++ ds_uri s) c
  else
    let uri := default (ds_uri s) (uri_remove_auth (ds_uri s)) in
    put_line (SONG_FILE ++ map_to_relative_path music_dir_utf8 uri) c.

Definition print_ms (ms : Z) : cstring := print_u (ms / 1000) ++ lit "." ++ pad_zeros 3 (print_u (ms `mod` 1000)).

Definition song_print_info (parent : directory) (s : db_song) (c : Ctx) : res Ctx :=
  c ← song_print_uri parent s c;
  c ← (if 0 <? ds_end_ms s then put_line (lit "Range: " ++ print_ms (ds_start_ms s) ++ lit "-" ++ print_ms (ds_end_ms s)) c
       else if 0 <? ds_start_ms s then put_line (lit "Range: " ++ print_ms (ds_start_ms s) ++ lit "-") c
       else Ok c);
  c ← (if 0 <? ds_mtime s then
         match timestamp (ds_mtime s) with
         | Some t => put_line (lit "Last-Modified: " ++ t) c
         | None => Ok c
         end
       else Ok c);
  match ds_tag s with Some tag => tag_print tag c | None => Ok c end.

(** ** [src/db_print.c] *)

(** A callback that goes on. *)
Definition continue_ (m : res Ctx) : res (Z * Ctx) := c ← m; Ok (success, c).

Definition print_visitor_directory (d : directory) (c : Ctx) : res (Z * Ctx) :=
  continue_ (if negb (directory_is_root d) then put_line (lit "directory: " ++ directory_get_path d) c else Ok c).

Definition print_playlist_in_directory (d : directory) (name_utf8 : cstring) (c : Ctx) : res Ctx :=
  if directory_is_root d then put_line (lit "playlist: " ++ name_utf8) c
  else put_line (lit "playlist: " ++ directory_get_path d ++ lit "/" ++ name_utf8) c.

Definition print_visitor_song (d : directory) (s : db_song) (c : Ctx) : res (Z * Ctx) :=
  continue_ (c ← song_print_uri d s c;
             if has_playlist s then print_playlist_in_directory d (ds_uri s) c else Ok c).

Definition print_visitor_song_info (d : directory) (s : db_song) (c : Ctx) : res (Z * Ctx) :=
  continue_ (c ← song_print_info d s c;
             if has_playlist s then print_playlist_in_directory d (ds_uri s) c else Ok c).

Definition print_visitor_playlist (p : playlist_metadata) (d : directory) (c : Ctx) : res (Z * Ctx) :=
  continue_ (print_playlist_in_directory d (pm_name p) c).

(** [strftime()] of what [gmtime_r()] returns, which may be [NULL]. *)
Definition print_visitor_playlist_info (p : playlist_metadata) (d : directory) (c : Ctx) : res (Z * Ctx) :=
  continue_ (c ← print_playlist_in_directory d (pm_name p) c;
             match timestamp (pm_mtime p) with
             | Some t => put_line (lit "Last-Modified: " ++ t) c
             | None => Err OutOfBounds
             end).

Definition print_visitor : db_visitor Ctx :=
  DbVisitor (Some print_visitor_directory) (Some print_visitor_song) (Some print_visitor_playlist).
Definition print_info_visitor : db_visitor Ctx :=
  DbVisitor (Some print_visitor_directory) (Some print_visitor_song_info) (Some print_visitor_playlist_info).

(** *** The database

    [None] if none is configured ([src/database.c]). *)

Definition db_visit {X} (db : option directory) (selection : db_selection) (visitor : db_visitor X) (ctx : X) : res (Z * X) :=
  match db with
  | None => Ok (error DB_DISABLED, ctx)
  | Some root => simple_db_visit root selection visitor ctx
  end.

Definition db_walk {X} (db : option directory) (uri : cstring) (visitor : db_visitor X) (ctx : X) : res (Z * X) :=
  db_visit db (DbSelection uri true) visitor ctx.

(** A visitor of songs. *)
Definition song_visitor {X} (f : directory -> db_song -> X -> res (Z * X)) : db_visitor X := DbVisitor None (Some f) None.

Definition db_selection_print (db : option directory) (selection : db_selection) (full : bool) : Ctx -> res (Z * Ctx) :=
  db_visit db selection (if full then print_info_visitor else print_visitor).

Definition printAllIn (db : option directory) (uri_utf8 : cstring) : Ctx -> res (Z * Ctx) :=
  db_selection_print db (DbSelection uri_utf8 true) false.
Definition printInfoForAllIn (db : option directory) (uri_utf8 : cstring) : Ctx -> res (Z * Ctx) :=
  db_selection_print db (DbSelection uri_utf8 true) true.

(** *** Searching *)

Definition song_search (d : directory) (s : db_song) (criteria : list locate_item) : res bool :=
  uri ← db_song_get_uri d s; locate_song_search uri (ds_tag s) criteria.
Definition song_match (d : directory) (s : db_song) (criteria : list locate_item) : res bool :=
  uri ← db_song_get_uri d s; locate_song_match uri (ds_tag s) criteria.

Definition search_visitor_song (criteria : list locate_item) (d : directory) (s : db_song) (c : Ctx) : res (Z * Ctx) :=
  b ← song_search d s criteria; continue_ (if b : bool then song_print_info d s c else Ok c).

Definition searchForSongsIn (db : option directory) (name : cstring) (criteria : list locate_item) : Ctx -> res (Z * Ctx) :=
  db_walk db name (song_visitor (search_visitor_song (locate_item_list_casefold criteria))).

Definition find_visitor_song (criteria : list locate_item) (d : directory) (s : db_song) (c : Ctx) : res (Z * Ctx) :=
  b ← song_match d s criteria; continue_ (if b : bool then song_print_info d s c else Ok c).

Definition findSongsIn (db : option directory) (name : cstring) (criteria : list locate_item) : Ctx -> res (Z * Ctx) :=
  db_walk db name (song_visitor (find_visitor_song criteria)).

(** *** Counting *)

(** [stats->playTime += song_get_duration(song)]: the sum is a [double]. *)
Definition add_play_time (play_time : Z) (d : double) : res Z :=
  match f_trunc (f64_add (f64_of_Z play_time) d) with
  | Some n => if bool_decide (0 <= n < 2 ^ 64) then Ok n else Err BadConversion
  | None => Err BadConversion
  end.

Definition stats_visitor_song (criteria : list locate_item) (d : directory) (s : db_song) (stats : Z * Z) : res (Z * (Z * Z)) :=
  b ← song_match d s criteria;
  if b : bool then t ← add_play_time stats.2 (db_song_get_duration s); Ok (success, (i32 (stats.1 + 1), t))
  else Ok (success, stats).

(** ["%li"] of an [unsigned long]. *)
Definition printSearchStats (stats : Z * Z) (c : Ctx) : res Ctx :=
  c ← put_line (lit "songs: " ++ print_i stats.1) c; put_line (lit "playtime: " ++ print_i (i64 stats.2)) c.

Definition searchStatsForSongsIn (db : option directory) (name : cstring) (criteria : list locate_item) (c : Ctx)
  : res (Z * Ctx) :=
  r ← db_walk db name (song_visitor (stats_visitor_song criteria)) (0, 0);
  if r.1 =? success then c ← printSearchStats r.2 c; Ok (success, c) else Ok (r.1, c).

(** *** Unique values *)

(** [set] is [NULL] unless a type of tags is listed. *)
Definition set_add (set : option strset) (value : cstring) : res (option strset) :=
  match set with None => Err OutOfBounds | Some set => set ← strset_add set value; Ok (Some set) end.

Fixpoint add_values (tagType : Z) (its : list item) (found : bool) (set : option strset) : res (bool * option strset) :=
  match its with
  | [] => Ok (found, set)
  | (ty, value) :: its =>
      if tag_type_code ty =? tagType then set ← set_add set value; add_values tagType its true set
      else add_values tagType its found set
  end.

Definition visitTag (d : directory) (s : db_song) (tagType : Z) (st : Ctx * option strset) : res (Ctx * option strset) :=
  if tagType =? LOCATE_TAG_FILE_TYPE then c ← song_print_uri d s st.1; Ok (c, st.2) else
  match ds_tag s with
  | None => Ok st
  | Some tag =>
      r ← add_values tagType (td_items tag) false st.2;
      set ← (if r.1 : bool then Ok r.2 else set_add r.2 []);
      Ok (st.1, set)
  end.

Definition unique_tags_visitor_song (tagType : Z) (criteria : list locate_item) (d : directory) (s : db_song)
    (st : Ctx * option strset) : res (Z * (Ctx * option strset)) :=
  b ← song_match d s criteria;
  st ← (if b : bool then visitTag d s tagType st else Ok st);
  Ok (success, st).

(** The names of the array: the last index is one too many. *)
Definition item_name (type : Z) : res cstring :=
  match tag_item_names !! Z.to_nat type with Some n => Ok n | None => Err OutOfBounds end.

Fixpoint print_values (type : Z) (vs : list cstring) (c : Ctx) : res Ctx :=
  match vs with
  | [] => Ok c
  | value :: vs => name ← item_name type; c ← put_line (name ++ lit ": " ++ value) c; print_values type vs c
  end.

Definition has_set (type : Z) : bool := (0 <=? type) && (type <=? TAG_NUM_OF_ITEM_TYPES).

Definition listAllUniqueTags (db : option directory) (type : Z) (criteria : list locate_item) (c : Ctx) : res (Z * Ctx) :=
  r ← db_walk db [] (song_visitor (unique_tags_visitor_song type criteria)) (c, if has_set type then Some strset_new else None);
  let '(ret, (c, set)) := r in
  if negb (ret =? success) then Ok (ret, c) else
  match set with
  | None => Ok (success, c)
  | Some set =>
      let set := strset_rewind set in
      vs ← strset_values (S (length (concat (ss_slots set)))) set;
      c ← print_values type vs c;
      Ok (success, c)
  end.

End print.

(** ** [src/dbUtils.c] *)

Section add.
Context {F : Casefold} {W : Type}.

(** [playlist_append_song()] on the global playlist, and
    [spl_append_song()]. *)
Variable append_song : directory -> db_song -> W -> res (Z * W).

Definition addAllIn (db : option directory) (uri : cstring) : W -> res (Z * W) := db_walk db uri (song_visitor append_song).

(** A song that does not match: [return true]. *)
Definition find_add_song (criteria : list locate_item) (d : directory) (s : db_song) (w : W) : res (Z * W) :=
  b ← song_match d s criteria; if negb b then Ok (1, w) else append_song d s w.

Definition findAddIn (db : option directory) (name : cstring) (criteria : list locate_item) : W -> res (Z * W) :=
  db_walk db name (song_visitor (find_add_song criteria)).

Definition searchadd_visitor_song (criteria : list locate_item) (d : directory) (s : db_song) (w : W) : res (Z * W) :=
  b ← song_search d s criteria; if negb b then Ok (success, w) else append_song d s w.

Definition search_add_songs (db : option directory) (uri : cstring) (criteria : list locate_item) : W -> res (Z * W) :=
  db_walk db uri (song_visitor (searchadd_visitor_song (locate_item_list_casefold criteria))).

(** The stored playlist of a name. *)
Variable spl_append_song : cstring -> directory -> db_song -> W -> res (Z * W).

Definition addAllInToStoredPlaylist (db : option directory) (uri_utf8 path_utf8 : cstring) : W -> res (Z * W) :=
  db_walk db uri_utf8 (song_visitor (spl_append_song path_utf8)).

Definition searchaddpl_visitor_song (playlist : cstring) (criteria : list locate_item) (d : directory) (s : db_song) (w : W)
  : res (Z * W) :=
  b ← song_search d s criteria; if negb b then Ok (success, w) else spl_append_song playlist d s w.

Definition search_add_to_playlist (db : option directory) (uri path_utf8 : cstring) (criteria : list locate_item)
  : W -> res (Z * W) :=
  db_walk db uri (song_visitor (searchaddpl_visitor_song path_utf8 (locate_item_list_casefold criteria))).

End add.

(** ** [src/stats.c] *)

Record stats := Stats { song_count : Z; song_duration : Z; artist_count : Z; album_count : Z }.

(** Counters, artists and albums. *)
Definition visit_data : Type := Z * Z * strset * strset.

Fixpoint visit_items (its : list item) (artists albums : strset) : res (strset * strset) :=
  match its with
  | [] => Ok (artists, albums)
  | (TAG_ARTIST, value) :: its => artists ← strset_add artists value; visit_items its artists albums
  | (TAG_ALBUM, value) :: its => albums ← strset_add albums value; visit_items its artists albums
  | _ :: its => visit_items its artists albums
  end.

Definition collect_stats_song (d : directory) (s : db_song) (data : visit_data) : res (Z * visit_data) :=
  let '(count, duration, artists, albums) := data in
  let count := u32 (count + 1) in
  match ds_tag s with
  | None => Ok (success, (count, duration, artists, albums))
  | Some tag =>
      let duration := if 0 <? td_time tag then u64 (duration + td_time tag) else duration in
      r ← visit_items (td_items tag) artists albums;
      Ok (success, (count, duration, r.1, r.2))
  end.

Definition stats_update (db : option directory) : res stats :=
  r ← db_walk db [] (song_visitor collect_stats_song) (0, 0, strset_new, strset_new);
  let '(_, (count, duration, artists, albums)) := r in
  Ok (Stats count duration (strset_size artists) (strset_size albums)).

(** The time since the start, the time played and the time of the last
    update come from elsewhere. *)
Definition stats_print {Ctx} (puts : cstring -> Ctx -> res Ctx) (elapsed : Z) (total_play_time : double) (db_mtime : Z)
    (s : stats) (c : Ctx) : res Ctx :=
  match f_trunc (f64_add total_play_time (f64_div (f64_of_Z 1) (f64_of_Z 2))) with
  | Some playtime =>
      if bool_decide (- 2 ^ 63 <= playtime < 2 ^ 63) then
        puts (concat (map (fun l => l ++ [char_of 10])
          [lit "artists: " ++ print_u (artist_count s); lit "albums: " ++ print_u (album_count s);
           lit "songs: " ++ print_i (i32 (song_count s)); lit "uptime: " ++ print_i elapsed;
           lit "playtime: " ++ print_i playtime; lit "db_playtime: " ++ print_i (i64 (song_duration s));
           lit "db_update: " ++ print_i db_mtime])) c
      else Err BadConversion
  | None => Err BadConversion
  end.

(** * Queries: proofs

    A query is a loop over the songs of the tree, in its order; searching
    prints or appends exactly the songs that satisfy the criteria. *)

(** ** Songs of a tree *)

Definition song_of (e : entry) : option (directory * db_song) :=
  match e with ESong d s => Some (d, s) | _ => None end.

Definition songs_in (d : directory) : list (directory * db_song) := omap song_of (entries true d).

Lemma visit_each_songs {X} (f : directory -> db_song -> X -> res (Z * X)) es ctx :
  visit_each (visit (song_visitor f)) es ctx = visit_each (fun p => f p.1 p.2) (omap song_of es) ctx.
Proof.
  revert ctx. induction es as [|e es IH]; intros ctx; [done|]. cbn [visit_each]. destruct e as [d s|p d|d]; cbn [visit song_visitor v_song v_playlist v_directory].
  - change (omap song_of (ESong d s :: es)) with ((d, s) :: omap song_of es). cbn [visit_each]. by apply and_then_ext.
  - change (omap song_of (EPlaylist p d :: es)) with (omap song_of es). apply IH.
  - change (omap song_of (EDirectory d :: es)) with (omap song_of es). apply IH.
Qed.

(** A walk below a directory that exists. *)
Lemma db_walk_songs {X} root uri d (f : directory -> db_song -> X -> res (Z * X)) ctx :
  directory_lookup_directory root uri = Ok (Some d) ->
  db_walk (Some root) uri (song_visitor f) ctx = visit_each (fun p => f p.1 p.2) (songs_in d) ctx.
Proof.
  intros H. unfold db_walk, db_visit, simple_db_visit. cbn [sel_uri sel_recursive]. rewrite H. cbn [mbind res_bind].
  cbn [song_visitor v_directory]. change (and_then (Ok (success, ctx)) ?k) with (k ctx).
  rewrite directory_walk_entries. apply visit_each_songs.
Qed.

Lemma db_walk_root {X} root (f : directory -> db_song -> X -> res (Z * X)) ctx :
  db_walk (Some root) [] (song_visitor f) ctx = visit_each (fun p => f p.1 p.2) (songs_in root) ctx.
Proof. by apply db_walk_songs. Qed.

(** ** Loops *)

(** Callbacks that go on: a fold. *)
Lemma visit_each_fold {A X} (f : A -> X -> res (Z * X)) (g : A -> X -> X) xs ctx :
  Forall (fun x => forall c, f x c = Ok (success, g x c)) xs ->
  visit_each f xs ctx = Ok (success, foldl (fun c x => g x c) ctx xs).
Proof.
  intros H. revert ctx. induction H as [|x xs Hx _ IH]; intros ctx; [done|]. cbn [visit_each foldl]. rewrite Hx.
  change (and_then (Ok (success, g x ctx)) ?k) with (k (g x ctx)). apply IH.
Qed.

(** Callbacks that skip some elements. *)
Lemma visit_each_filter {A X} (f : A -> X -> res (Z * X)) (P : A -> bool) (g : A -> X -> res (Z * X)) xs ctx :
  Forall (fun x => forall c, f x c = if P x then g x c else Ok (success, c)) xs ->
  visit_each f xs ctx = visit_each g (filter (fun x => P x = true) xs) ctx.
Proof.
  intros H. revert ctx. induction H as [|x xs Hx _ IH]; intros ctx; [done|]. cbn [visit_each]. rewrite Hx.
  destruct (P x) eqn:E.
  - rewrite filter_cons_True by done. cbn [visit_each]. by apply and_then_ext.
  - rewrite filter_cons_False by congruence. apply IH.
Qed.

(** ** Criteria *)

Definition uri_of (d : directory) (s : db_song) : cstring :=
  if directory_is_root d then ds_uri s else build_db_filename (directory_get_path d) (ds_uri s).

Definition song_ok (p : directory * db_song) : Prop := ds_uri p.2 <> [].

Lemma song_uri_of d s : ds_uri s <> [] -> db_song_get_uri d s = Ok (uri_of d s).
Proof. intros H. unfold db_song_get_uri. by rewrite bool_decide_true. Qed.

Definition found {F : Casefold} (criteria : list locate_item) (p : directory * db_song) : bool :=
  forallb (search_satisfies (uri_of p.1 p.2) (ds_tag p.2)) (locate_item_list_casefold criteria).

Definition matched (criteria : list locate_item) (p : directory * db_song) : bool :=
  forallb (match_satisfies (uri_of p.1 p.2) (ds_tag p.2)) criteria.

Definition good_criteria (criteria : list locate_item) : Prop := Forall (fun it => valid_type (li_tag it)) criteria.

(** [match] must not be asked for an empty string in any tag. *)
Definition exact_criteria (criteria : list locate_item) : Prop :=
  Forall (fun it => valid_type (li_tag it) /\ ~ (li_tag it = LOCATE_TAG_ANY_TYPE /\ li_needle it = [])) criteria.

Lemma casefold_good {F : Casefold} criteria : good_criteria criteria -> good_criteria (locate_item_list_casefold criteria).
Proof. intros H. apply Forall_map. by eapply Forall_impl; [exact H|]. Qed.

Lemma song_search_ok {F : Casefold} p criteria :
  song_ok p -> good_criteria criteria -> song_search p.1 p.2 (locate_item_list_casefold criteria) = Ok (found criteria p).
Proof.
  intros Hs Hc. unfold song_search. rewrite song_uri_of by done. cbn [mbind res_bind].
  by rewrite locate_song_search_ok by (by apply casefold_good).
Qed.

Lemma song_match_ok p criteria : song_ok p -> exact_criteria criteria -> song_match p.1 p.2 criteria = Ok (matched criteria p).
Proof.
  intros Hs Hc. unfold song_match. rewrite song_uri_of by done. cbn [mbind res_bind]. by rewrite locate_song_match_ok.
Qed.

(** ** Output *)

(** Output that is collected. *)
Definition collect (s o : cstring) : res cstring := Ok (o ++ s).

(** What a printer prints. *)
Definition printed (f : cstring -> res cstring) : cstring := match f [] with Ok o => o | Err _ => [] end.

Definition prints (f : cstring -> res cstring) : Prop := forall o, f o = Ok (o ++ printed f).

Lemma prints_ok f t : (forall o, f o = Ok (o ++ t)) -> prints f /\ printed f = t.
Proof.
  intros H. assert (E : printed f = t) by (unfold printed; by rewrite H). split; [|done]. intros o. by rewrite H, E.
Qed.

Lemma output_ret : prints Ok.
Proof. intros o. by rewrite app_nil_r. Qed.

Lemma output_bind f g : prints f -> prints g -> prints (fun o => o ← f o; g o).
Proof.
  intros Hf Hg. apply (prints_ok _ (printed f ++ printed g)). intros o. rewrite Hf. cbn [mbind res_bind].
  by rewrite Hg, app_assoc.
Qed.

Lemma prints_line s : prints (put_line collect s).
Proof. by apply (prints_ok _ (s ++ [char_of 10])). Qed.

Lemma prints_lines ls : prints (put_lines collect ls).
Proof.
  induction ls as [|l ls IH]; [apply output_ret|]. exact (output_bind _ _ (prints_line l) IH).
Qed.

Lemma prints_if (b : bool) f g : prints f -> prints g -> prints (fun o => if b then f o else g o).
Proof. by destruct b. Qed.

#[local] Hint Resolve output_ret prints_line prints_lines output_bind prints_if : prints.

Section print.
Context {F : Casefold}.
Variable music_dir : option cstring.

Lemma prints_tag tag : prints (tag_print collect tag).
Proof using. unfold tag_print. apply output_bind; [by apply prints_if; auto with prints|auto with prints]. Qed.

Lemma prints_uri d s : prints (song_print_uri collect music_dir d s).
Proof using. unfold song_print_uri. destruct (negb _); apply prints_line. Qed.

Lemma prints_info d s : prints (song_print_info collect music_dir d s).
Proof using.
  unfold song_print_info. apply output_bind; [apply prints_uri|]. apply output_bind.
  { destruct (0 <? ds_end_ms s); [apply prints_line|]. destruct (0 <? ds_start_ms s); [apply prints_line|apply output_ret]. }
  apply output_bind.
  { destruct (0 <? ds_mtime s); [|apply output_ret]. destruct (timestamp (ds_mtime s)); [apply prints_line|apply output_ret]. }
  destruct (ds_tag s); [apply prints_tag|apply output_ret].
Qed.

(** The lines that describe a song. *)
Definition info (p : directory * db_song) : cstring := printed (song_print_info collect music_dir p.1 p.2).

Lemma foldl_append {A} (g : A -> cstring) (xs : list A) (o : cstring) :
  foldl (fun (c : cstring) x => c ++ g x) o xs = o ++ concat (map g xs).
Proof using.
  clear. revert o. induction xs as [|x xs IH]; intros o; [by rewrite app_nil_r|]. cbn [foldl map concat]. by rewrite IH, app_assoc.
Qed.

Lemma print_matching (f : directory * db_song -> cstring -> res (Z * cstring)) (P : directory * db_song -> bool) ss o :
  Forall (fun p => forall c, f p c = if P p then continue_ (song_print_info collect music_dir p.1 p.2 c) else Ok (success, c)) ss ->
  visit_each f ss o = Ok (success, o ++ concat (map info (filter (fun p => P p = true) ss))).
Proof using.
  intros H. rewrite (visit_each_filter f P _ ss o H).
  rewrite (visit_each_fold _ (fun p c => c ++ info p)).
  - by rewrite foldl_append.
  - apply Forall_forall. intros p _ c. unfold info. rewrite (prints_info p.1 p.2 c). done.
Qed.

Lemma search_prints criteria root o :
  good_criteria criteria -> Forall song_ok (songs_in root) ->
  searchForSongsIn collect music_dir (Some root) [] criteria o =
    Ok (success, o ++ concat (map info (filter (fun p => found criteria p = true) (songs_in root)))).
Proof using.
  intros Hc Hs. unfold searchForSongsIn. rewrite db_walk_root. apply print_matching.
  eapply Forall_impl; [exact Hs|]. intros p Hp c. unfold search_visitor_song. rewrite song_search_ok by done. cbn [mbind res_bind].
  by destruct (found criteria p).
Qed.

Lemma find_prints criteria root o :
  exact_criteria criteria -> Forall song_ok (songs_in root) ->
  findSongsIn collect music_dir (Some root) [] criteria o =
    Ok (success, o ++ concat (map info (filter (fun p => matched criteria p = true) (songs_in root)))).
Proof using.
  intros Hc Hs. unfold findSongsIn. rewrite db_walk_root. apply print_matching.
  eapply Forall_impl; [exact Hs|]. intros p Hp c. unfold find_visitor_song. rewrite song_match_ok by done. cbn [mbind res_bind].
  by destruct (matched criteria p).
Qed.

(** ** Appending *)

Section add.
Context {W : Type}.
Variable append_song : directory -> db_song -> W -> res (Z * W).

Lemma searchadd_appends criteria root w :
  good_criteria criteria -> Forall song_ok (songs_in root) ->
  search_add_songs append_song (Some root) [] criteria w =
    visit_each (fun p => append_song p.1 p.2) (filter (fun p => found criteria p = true) (songs_in root)) w.
Proof using.
  intros Hc Hs. unfold search_add_songs. rewrite db_walk_root. apply visit_each_filter.
  eapply Forall_impl; [exact Hs|]. intros p Hp c. unfold searchadd_visitor_song. rewrite song_search_ok by done. cbn [mbind res_bind].
  by destruct (found criteria p).
Qed.

(** The first song that does not match ends [findadd]. *)
Lemma findadd_appends criteria root w :
  exact_criteria criteria -> Forall song_ok (songs_in root) ->
  findAddIn append_song (Some root) [] criteria w =
    visit_each (fun p w => if matched criteria p then append_song p.1 p.2 w else Ok (1, w)) (songs_in root) w.
Proof using.
  intros Hc Hs. unfold findAddIn. rewrite db_walk_root. generalize dependent w.
  induction Hs as [|p ss Hp _ IH]; intros w; [done|]. cbn [visit_each]. unfold find_add_song at 1.
  rewrite song_match_ok by done. cbn [mbind res_bind]. destruct (matched criteria p); cbn [negb]; [|done].
  by apply and_then_ext.
Qed.

End add.
End print.

(** ** Loops with an invariant *)

Lemma visit_each_inv {A X} (f : A -> X -> res (Z * X)) (I : list A -> X -> Prop) xs ctx :
  (forall l x c, I l c -> x ∈ xs -> exists c', f x c = Ok (success, c') /\ I (l ++ [x]) c') -> I [] ctx ->
  exists c', visit_each f xs ctx = Ok (success, c') /\ I xs c'.
Proof.
  intros Hf Hi. assert (H : forall ys l c, I l c -> (forall y, y ∈ ys -> y ∈ xs) ->
    exists c', visit_each f ys c = Ok (success, c') /\ I (l ++ ys) c').
  { intros ys. induction ys as [|y ys IH]; intros l c Hl Hin.
    - exists c. split; [done|by rewrite app_nil_r].
    - destruct (Hf l y c Hl) as (c1 & E & H1); [apply Hin; by left|]. cbn [visit_each]. rewrite E.
      change (and_then (Ok (success, c1)) ?k) with (k c1). destruct (IH (l ++ [y]) c1 H1) as (c2 & E2 & H2); [intros z Hz; apply Hin; by right|].
      exists c2. split; [done|]. by rewrite <- app_assoc in H2. }
  apply (H xs [] ctx Hi). done.
Qed.

Lemma ex_snoc {A} (P : A -> Prop) l q : (exists p, p ∈ l ++ [q] /\ P p) <-> (exists p, p ∈ l /\ P p) \/ P q.
Proof.
  split.
  - intros (p & [Hp| ->%list_elem_of_singleton]%elem_of_app & HP); [left; by exists p|by right].
  - intros [(p & Hp & HP)|HP]; [exists p|exists q]; (split; [|done]); apply elem_of_app; [by left|right; by left].
Qed.

(** ** Unique values *)

(** The values of a type; a tag without any counts as an empty one. *)
Definition typed (t : tag_type) (its : list item) : list cstring :=
  omap (fun it => if tag_type_code it.1 =? tag_type_code t then Some it.2 else None) its.

Definition listed (t : tag_type) (s : db_song) : list cstring :=
  match ds_tag s with
  | None => []
  | Some tag => match typed t (td_items tag) with [] => [[]] | vs => vs end
  end.

Lemma typed_cons t ty v its :
  typed t ((ty, v) :: its) = if tag_type_code ty =? tag_type_code t then v :: typed t its else typed t its.
Proof. unfold typed. cbn [omap list_omap fst snd]. by destruct (_ =? _). Qed.

Lemma add_values_ok t its b set :
  add_values (tag_type_code t) its b (Some set) =
  (set ← strset_add_all set (typed t its); Ok (b || negb (bool_decide (typed t its = [])), Some set)).
Proof.
  revert b set. induction its as [|[ty v] its IH]; intros b set; [by cbn; rewrite orb_false_r|].
  rewrite typed_cons. cbn [add_values]. destruct (tag_type_code ty =? tag_type_code t); [|by rewrite IH].
  cbn [set_add strset_add_all]. destruct (strset_add set v) as [set1|]; [|done]. cbn [mbind res_bind]. rewrite IH.
  destruct (strset_add_all set1 _); [|done]. cbn [mbind res_bind]. rewrite (bool_decide_false (v :: _ = [])) by done.
  cbn [negb]. by rewrite orb_true_r.
Qed.

Lemma visit_tag_ok {Ctx} (puts : cstring -> Ctx -> res Ctx) music_dir d s t c set :
  visitTag puts music_dir d s (tag_type_code t) (c, Some set) =
  (set ← strset_add_all set (listed t s); Ok (c, Some set)).
Proof.
  unfold visitTag, listed. destruct (code_not_special t) as [-> _]. destruct (ds_tag s) as [tag|]; [|done].
  cbn [fst snd]. rewrite add_values_ok. destruct (typed t (td_items tag)) as [|v vs] eqn:E.
  - cbn [strset_add_all mbind res_bind fst snd]. rewrite bool_decide_true by done. cbn [negb orb set_add].
    by destruct (strset_add set []).
  - destruct (strset_add_all set (v :: vs)); [|done]. cbn [mbind res_bind fst snd].
    by rewrite (bool_decide_false (v :: vs = [])) by done.
Qed.

Section unique.
Context {F : Casefold}.
Variable music_dir : option cstring.

Definition value_line (t : tag_type) (v : cstring) : cstring := tag_name t ++ lit ": " ++ v ++ [char_of 10].

Lemma print_values_ok t vs o :
  print_values collect (tag_type_code t) vs o = Ok (o ++ concat (map (value_line t) vs)).
Proof using.
  clear. revert o. induction vs as [|v vs IH]; intros o; [by rewrite app_nil_r|].
  assert (E : item_name (tag_type_code t) = Ok (tag_name t)) by (destruct t; vm_compute; reflexivity).
  cbn [print_values]. rewrite E. cbn [mbind res_bind]. change (put_line collect ?s o) with (Ok (o ++ s ++ [char_of 10])).
  cbn [mbind res_bind]. rewrite IH. cbn [map concat]. unfold value_line at 2. by rewrite <- !app_assoc.
Qed.

Lemma has_set_code t : has_set (tag_type_code t) = true.
Proof using. clear. by destruct t. Qed.

Lemma unique_tags_ok t criteria root o :
  exact_criteria criteria -> Forall song_ok (songs_in root) ->
  exists vs, listAllUniqueTags collect music_dir (Some root) (tag_type_code t) criteria o =
      Ok (success, o ++ concat (map (value_line t) vs)) /\ NoDup vs /\
    forall v, v ∈ vs <-> exists p, p ∈ songs_in root /\ matched criteria p = true /\ v ∈ listed t p.2.
Proof using.
  intros Hc Hs. unfold listAllUniqueTags. rewrite has_set_code, db_walk_root.
  set (I := fun (l : list (directory * db_song)) (st : cstring * option strset) => st.1 = o /\ exists set,
    st.2 = Some set /\ set_ok set /\ forall v, v ∈ values set <-> exists p, p ∈ l /\ matched criteria p = true /\ v ∈ listed t p.2).
  destruct (visit_each_inv (fun p => unique_tags_visitor_song collect music_dir (tag_type_code t) criteria p.1 p.2) I
    (songs_in root) (o, Some strset_new)) as ([c set] & E & Hi).
  - intros l p [c st] (Hco & set & Hst & Hok & Hin) Hp. cbn [fst snd] in *. subst c st. unfold unique_tags_visitor_song.
    rewrite Forall_forall in Hs. rewrite song_match_ok by auto. cbn [mbind res_bind]. destruct (matched criteria p) eqn:Em.
    + rewrite visit_tag_ok. destruct (strset_add_all_ok (listed t p.2) set Hok) as (set' & E & Hok' & Hin').
      rewrite E. cbn [mbind res_bind]. eexists. split; [done|]. split; [done|]. exists set'. split; [done|]. split; [done|].
      intros v. rewrite Hin', Hin, (ex_snoc (fun p => matched criteria p = true /\ v ∈ listed t p.2)). rewrite Em. tauto.
    + cbn [mbind res_bind]. eexists. split; [done|]. split; [done|]. exists set. split; [done|]. split; [done|].
      intros v. rewrite Hin, (ex_snoc (fun p => matched criteria p = true /\ v ∈ listed t p.2)). rewrite Em.
      split; [by left|]. intros [?|[? _]]; [done|congruence].
  - destruct strset_new_ok as [Hok Hnil]. split; [done|]. exists strset_new. split; [done|]. split; [done|].
    intros v. rewrite Hnil. split; [by intros ?%not_elem_of_nil|]. by intros (p & ?%not_elem_of_nil & _).
  - rewrite E. destruct Hi as (Hco & set' & Hst & Hok & Hin). cbn [fst snd] in *. subst c set.
    cbn [mbind res_bind]. change (success =? success) with true. cbn [negb].
    change (strset_values (S (length (concat (ss_slots (strset_rewind set'))))) (strset_rewind set'))
      with (strset_values (S (length (values set'))) (strset_rewind set')).
    rewrite strset_rewind_values. cbn [mbind res_bind]. rewrite print_values_ok. cbn [mbind res_bind].
    exists (values set'). split; [done|]. split; [by apply values_nodup|exact Hin].
Qed.

End unique.

(** ** Statistics *)

Lemma visit_items_ok its artists albums artists' albums' :
  strset_add_all artists (typed TAG_ARTIST its) = Ok artists' -> strset_add_all albums (typed TAG_ALBUM its) = Ok albums' ->
  visit_items its artists albums = Ok (artists', albums').
Proof.
  revert artists albums. induction its as [|[ty v] its IH]; intros artists albums; [by intros [= <-] [= <-]|]. rewrite !typed_cons.
  destruct ty; try exact (IH artists albums).
  - change (tag_type_code TAG_ARTIST =? tag_type_code TAG_ARTIST) with true.
    change (tag_type_code TAG_ARTIST =? tag_type_code TAG_ALBUM) with false. cbn [strset_add_all visit_items].
    destruct (strset_add artists v); [|done]. cbn [mbind res_bind]. apply IH.
  - change (tag_type_code TAG_ALBUM =? tag_type_code TAG_ARTIST) with false.
    change (tag_type_code TAG_ALBUM =? tag_type_code TAG_ALBUM) with true. cbn [strset_add_all visit_items].
    destruct (strset_add albums v); [|done]. cbn [mbind res_bind]. apply IH.
Qed.

Lemma u64_add_u64 a b : u64 (u64 a + b) = u64 (a + b).
Proof. unfold u64. apply Zplus_mod_idemp_l. Qed.

(** The artists and albums of songs, and their times. *)
Definition values_of_type (t : tag_type) (p : directory * db_song) : list cstring :=
  match ds_tag p.2 with Some tag => typed t (td_items tag) | None => [] end.
Definition time_of (p : directory * db_song) : Z :=
  match ds_tag p.2 with Some tag => Z.max 0 (td_time tag) | None => 0 end.
Definition total (ss : list (directory * db_song)) : Z := foldr (fun p n => time_of p + n) 0 ss.

Lemma total_snoc ss p : total (ss ++ [p]) = total ss + time_of p.
Proof. unfold total. induction ss as [|q ss IH]; [cbn; lia|]. cbn [app foldr]. rewrite IH. lia. Qed.

(** [set] holds the values of a type of the songs. *)
Definition set_holds (set : strset) (t : tag_type) (ss : list (directory * db_song)) : Prop :=
  set_ok set /\ forall v, v ∈ values set <-> exists p, p ∈ ss /\ v ∈ values_of_type t p.

Lemma set_holds_nil t : set_holds strset_new t [].
Proof.
  destruct strset_new_ok as [Hok Hnil]. split; [done|]. intros v. rewrite Hnil.
  split; [by intros ?%not_elem_of_nil|]. by intros (p & ?%not_elem_of_nil & _).
Qed.

Lemma set_holds_add set t ss p vs :
  set_holds set t ss -> vs = values_of_type t p ->
  exists set', strset_add_all set vs = Ok set' /\ set_holds set' t (ss ++ [p]).
Proof.
  intros [Hok Hin] ->. destruct (strset_add_all_ok (values_of_type t p) set Hok) as (set' & E & Hok' & Hin').
  exists set'. split; [done|]. split; [done|]. intros v. rewrite Hin', Hin. setoid_rewrite elem_of_app.
  setoid_rewrite list_elem_of_singleton. naive_solver.
Qed.

Lemma stats_update_ok root :
  exists artists albums, stats_update (Some root) =
      Ok (Stats (u32 (Z.of_nat (length (songs_in root)))) (u64 (total (songs_in root)))
            (u32 (Z.of_nat (length artists))) (u32 (Z.of_nat (length albums)))) /\
    NoDup artists /\ (forall v, v ∈ artists <-> exists p, p ∈ songs_in root /\ v ∈ values_of_type TAG_ARTIST p) /\
    NoDup albums /\ (forall v, v ∈ albums <-> exists p, p ∈ songs_in root /\ v ∈ values_of_type TAG_ALBUM p).
Proof.
  unfold stats_update. rewrite db_walk_root.
  set (I := fun (l : list (directory * db_song)) (st : visit_data) => let '(count, duration, artists, albums) := st in
    count = u32 (Z.of_nat (length l)) /\ duration = u64 (total l) /\
    set_holds artists TAG_ARTIST l /\ set_holds albums TAG_ALBUM l).
  destruct (visit_each_inv (fun p => collect_stats_song p.1 p.2) I (songs_in root) (0, 0, strset_new, strset_new))
    as ([[[count duration] artists] albums] & E & Hi).
  - intros l p [[[count duration] artists] albums] (-> & -> & Ha & Hb) _. cbn [collect_stats_song].
    assert (Ecount : u32 (u32 (Z.of_nat (length l)) + 1) = u32 (Z.of_nat (length (l ++ [p])))).
    { rewrite length_app. cbn [length]. rewrite Z.add_comm, u32_add_u32. f_equal. lia. }
    rewrite Ecount. destruct (set_holds_add artists TAG_ARTIST l p _ Ha eq_refl) as (artists' & Ea & Ha').
    destruct (set_holds_add albums TAG_ALBUM l p _ Hb eq_refl) as (albums' & Eb & Hb').
    pose proof (total_snoc l p) as Et. unfold values_of_type in Ea, Eb. unfold time_of in Et.
    destruct (ds_tag p.2) as [tag|].
    + rewrite (visit_items_ok _ _ _ _ _ Ea Eb). cbn [mbind res_bind fst snd]. eexists. split; [done|].
      split; [done|]. split; [|done]. rewrite Et. destruct (Z.ltb_spec 0 (td_time tag)).
      * rewrite u64_add_u64. f_equal. lia.
      * f_equal. lia.
    + injection Ea as <-. injection Eb as <-. eexists. split; [done|]. split; [done|]. split; [|done].
      rewrite Et. by rewrite Z.add_0_r.
  - split; [done|]. split; [done|]. split; apply set_holds_nil.
  - rewrite E. cbn [mbind res_bind]. destruct Hi as (-> & -> & [Ha Hain] & [Hb Hbin]).
    exists (values artists), (values albums). unfold strset_size. rewrite (set_size _ Ha), (set_size _ Hb).
    split; [done|]. split; [by apply values_nodup|]. split; [done|]. split; [by apply values_nodup|done].
Qed.

(** A song without a duration has the time -1, which [unsigned long] cannot
    hold. *)
Lemma count_without_time d s tag :
  song_ok (d, s) -> ds_tag s = Some tag -> td_time tag = -1 -> ds_start_ms s = 0 -> ds_end_ms s = 0 ->
  stats_visitor_song [] d s (0, 0) = Err BadConversion.
Proof.
  intros Hs Ht Htime H1 H2. unfold stats_visitor_song, song_match. rewrite song_uri_of by done. cbn [mbind res_bind locate_song_match].
  unfold db_song_get_duration. rewrite H1, H2, Ht, Htime. vm_compute. reflexivity.
Qed.

(** * Command handlers: the database

    The handlers of [src/command.c] that search and list the database: their
    arguments, the query, and the answer. *)

Section handlers.
Context {G : GLib} {T : PlayerThread} {L : Limits} {E : Env} {F : Casefold}.

(** The database and the music directory; the song that the queue gets for
    one of the database. *)
Variable db : option directory.
Variable music_dir : option cstring.
Variable song_of_db : directory -> db_song -> Song.song.

(** [client_printf()], as queries use it. *)
Definition client_puts (i : nat) (s : cstring) (sv : server) : res server := r ← print i s sv; Ok r.2.

(** The result of a query, which must not be positive. *)
Definition answer_query (i : nat) (r : Z) : M command_return :=
  lift (assert (r <=? 0));;
  print_error2 env_strerror i (default MPD_UNKNOWN (mpd_errs !! Z.to_nat (- r))).

Definition run_query (i : nat) (q : server -> res (Z * server)) : M command_return :=
  (q : M Z) ≫= answer_query i.

(** The criteria of a search: there has to be one. *)
Definition with_criteria (i : nat) (argv : list cstring) (k : list locate_item -> M command_return) : M command_return :=
  match locate_item_list_parse argv with
  | None | Some [] => reject i (CmdError ACK_ERROR_ARG (lit "incorrect arguments"))
  | Some list => k list
  end.

Definition handle_find (i : nat) (argv : list cstring) : M command_return :=
  with_criteria i (drop 1 argv) (fun list => run_query i (findSongsIn (client_puts i) music_dir db [] list)).

Definition handle_search (i : nat) (argv : list cstring) : M command_return :=
  with_criteria i (drop 1 argv) (fun list => run_query i (searchForSongsIn (client_puts i) music_dir db [] list)).

Definition handle_count (i : nat) (argv : list cstring) : M command_return :=
  with_criteria i (drop 1 argv) (fun list => run_query i (searchStatsForSongsIn (client_puts i) db [] list)).

(** [playlist_append_song()] on the global playlist. *)
Definition append_db_song (d : directory) (s : db_song) (sv : server) : res (Z * server) :=
  '(r, _, w) ← playlist_append_song (song_of_db d s) (sv_world sv); Ok (error r, sv_set_world w sv).

Definition handle_findadd (i : nat) (argv : list cstring) : M command_return :=
  with_criteria i (drop 1 argv) (fun list => run_query i (findAddIn append_db_song db [] list)).

Definition handle_searchadd (i : nat) (argv : list cstring) : M command_return :=
  with_criteria i (drop 1 argv) (fun list => run_query i (search_add_songs append_db_song db [] list)).

Definition handle_list (i : nat) (argv : list cstring) : M command_return :=
  s ← arg 1 argv;
  let tagType := locate_parse_type s in
  if tagType <? 0 then
    reject i (CmdError ACK_ERROR_ARG ([dquote] ++ s ++ [dquote] ++ lit " is not known"))
  else if tagType =? LOCATE_TAG_ANY_TYPE then
    reject i (CmdError ACK_ERROR_ARG ([dquote] ++ lit "any" ++ [dquote] ++ lit " is not a valid return tag type"))
  else if argc_is argv 3 then
    if negb (tagType =? tag_type_code TAG_ALBUM) then
      reject i (CmdError ACK_ERROR_ARG (lit "should be " ++ [dquote] ++ tag_name TAG_ALBUM ++ [dquote] ++ lit " for 3 arguments"))
    else
      artist ← arg 2 argv;
      run_query i (listAllUniqueTags (client_puts i) music_dir db tagType [LocateItem (tag_type_code TAG_ARTIST) artist])
  else
    match locate_item_list_parse (drop 2 argv) with
    | None => reject i (CmdError ACK_ERROR_ARG (lit "not able to parse args"))
    | Some conditionals => run_query i (listAllUniqueTags (client_puts i) music_dir db tagType conditionals)
    end.

Definition optional_uri (argv : list cstring) : M cstring := if argc_is argv 2 then arg 1 argv else mret [].

Definition handle_listall (i : nat) (argv : list cstring) : M command_return :=
  directory ← optional_uri argv; run_query i (printAllIn (client_puts i) music_dir db directory).

Definition handle_listallinfo (i : nat) (argv : list cstring) : M command_return :=
  directory ← optional_uri argv; run_query i (printInfoForAllIn (client_puts i) music_dir db directory).

Definition handle_tagtypes (ignore_tag_items : list bool) (i : nat) (argv : list cstring) : M command_return :=
  fun sv => match tag_print_types (client_puts i) ignore_tag_items sv with
            | Ok sv => Ok (COMMAND_RETURN_OK, sv)
            | Err e => Err e
            end.

End handlers.
