(* ===== verification/QueryTheorems.v ===== *)
(** * Theorems on queries

    Searching, appending what is found, listing unique values and counting:
    what each query does to the songs of the tree, in the order of the
    tree. *)

From S2P Require Import Prelude Err GLib Song CString Float PlayQueue PlayerControl Playlist Tokenizer Strtod Uri.
From S2P Require Import ArgParser ClientWrite ClientRead Client Server Command Handlers.
From S2P Require Import TagPool TagValue TagTheorems Directory SimpleDb.
From S2P Require Import PlaylistDefects ServerSamples SortTheorems DatabaseTheorems Locate StrSet Query.
Local Open Scope Z_scope.

(** Around the epoch, a leap day, and a century without one. *)
Lemma timestamp_examples :
  map timestamp [0; -1; 951782399; 951868800; 4107542400] =
  [Some (lit "1970-01-01T00:00:00Z"); Some (lit "1969-12-31T23:59:59Z"); Some (lit "2000-02-28T23:59:59Z");
   Some (lit "2000-03-01T00:00:00Z"); Some (lit "2100-03-01T00:00:00Z")].
Proof. vm_compute. reflexivity. Qed.

(** Folding the letters of ASCII. *)
#[export] Instance ascii_casefold : Casefold := {| g_utf8_casefold := map to_lower |}.

Lemma sample_songs_ok : Forall song_ok (songs_in sample_root).
Proof. apply (bool_decide_unpack _). vm_compute. reflexivity. Qed.

Definition first_tracks : list locate_item := [LocateItem (tag_type_code TAG_TRACK) (lit "1")].

Lemma first_tracks_ok : exact_criteria first_tracks.
Proof. apply Forall_singleton. split; [by right; right; exists TAG_TRACK|]. by intros [? _]. Qed.

(** ** Searching *)

Lemma list_parse_valid argv criteria : locate_item_list_parse argv = Some criteria -> good_criteria criteria.
Proof. unfold locate_item_list_parse. destruct (_ =? 0); [|done]. apply parse_pairs_valid. Qed.

(** C27: [searchForSongsIn()] prints the information of exactly those songs
    of the database that satisfy all criteria without regard to case, and
    [findSongsIn()] of those that match exactly, once each, in the order of
    the tree, unless an empty string is looked up in all tags. *)
Theorem search_prints_matches {F : Casefold} music_dir criteria root o :
  good_criteria criteria -> Forall song_ok (songs_in root) ->
  searchForSongsIn collect music_dir (Some root) [] criteria o =
    Ok (success, o ++ concat (map (info music_dir) (filter (fun p => found criteria p = true) (songs_in root)))) /\
  (exact_criteria criteria -> findSongsIn collect music_dir (Some root) [] criteria o =
    Ok (success, o ++ concat (map (info music_dir) (filter (fun p => matched criteria p = true) (songs_in root))))).
Proof. intros Hc Hs. split; [by apply search_prints|]. intros He. by apply find_prints. Qed.

Lemma search_prints_matches_witness :
  good_criteria first_tracks /\ Forall song_ok (songs_in sample_root) /\
  searchForSongsIn collect None (Some sample_root) [] first_tracks [] =
    Ok (success, [] ++ concat (map (info None) (filter (fun p => found first_tracks p = true) (songs_in sample_root)))) /\
  map (fun p => ds_uri p.2) (filter (fun p => found first_tracks p = true) (songs_in sample_root)) = [lit "a.ogg"].
Proof.
  assert (Hg : good_criteria first_tracks) by (eapply Forall_impl; [exact first_tracks_ok|]; by intros it [H _]).
  split; [exact Hg|]. split; [exact sample_songs_ok|]. split; [|vm_compute; reflexivity].
  exact (proj1 (search_prints_matches None first_tracks sample_root [] Hg sample_songs_ok)).
Defined.

(** ** Appending *)

(** The elements before the first one that does not satisfy [P]. *)
Fixpoint take_while {A} (P : A -> bool) (xs : list A) : list A :=
  match xs with [] => [] | x :: xs => if P x then x :: take_while P xs else [] end.

Lemma visit_each_until {A X} (P : A -> bool) (g : A -> X -> res (Z * X)) xs ctx :
  visit_each (fun x c => if P x then g x c else Ok (1, c)) xs ctx =
  (r ← visit_each g (take_while P xs) ctx; if (r.1 =? success) && negb (forallb P xs) then Ok (1, r.2) else Ok r).
Proof.
  revert ctx. induction xs as [|x xs IH]; intros ctx; [done|]. cbn [visit_each take_while forallb].
  destruct (P x); cbn [andb visit_each]; [|done]. destruct (g x ctx) as [[r c]|e]; [|done].
  unfold and_then. cbn [mbind res_bind fst snd]. destruct (r =? success) eqn:E; [apply IH|]. cbn [mbind res_bind fst]. by rewrite E.
Qed.

(** C28: [searchadd] appends every song that satisfies its criteria, in the
    order of the tree, until an append fails.  [findadd] stops at the first
    song that does not match, although songs behind it might; the result it
    has then fails the assertion of [print_error2()], so that it answers
    only if all songs of the database match. *)
Theorem queries_append {G : GLib} {T : PlayerThread} {L : Limits} {E : Env} {F : Casefold} song_of_db root i argv criteria sv :
  locate_item_list_parse (drop 1 argv) = Some criteria -> criteria <> [] -> Forall song_ok (songs_in root) ->
  let append := fun p => append_db_song song_of_db p.1 p.2 in
  handle_searchadd (Some root) song_of_db i argv sv =
    run_query i (visit_each append (filter (fun p => found criteria p = true) (songs_in root))) sv /\
  (exact_criteria criteria -> handle_findadd (Some root) song_of_db i argv sv =
    match visit_each append (take_while (matched criteria) (songs_in root)) sv with
    | Err e => Err e
    | Ok (r, sv) => if (r =? success) && negb (forallb (matched criteria) (songs_in root)) then Err AssertFailed
                    else answer_query i r sv
    end).
Proof.
  intros Hp Hne Hs append. unfold handle_searchadd, handle_findadd, with_criteria. rewrite Hp. destruct criteria as [|it its]; [done|].
  set (criteria := it :: its) in *. split.
  - unfold run_query, mbind, M_bind. rewrite searchadd_appends; [done|by eapply list_parse_valid|done].
  - intros He. unfold run_query, mbind, M_bind. rewrite findadd_appends by done.
    rewrite (visit_each_until (matched criteria) append). destruct (visit_each append _ sv) as [[r sv']|e]; [|done].
    cbn [mbind res_bind fst snd]. by destruct ((r =? success) && _).
Qed.

(** The first song of the sample has another track. *)
Lemma queries_append_witness :
  let argv := [lit "findadd"; lit "track"; lit "1"] in
  let song_of_db := fun _ _ => demo_song 9 in
  locate_item_list_parse (drop 1 argv) = Some first_tracks /\ first_tracks <> [] /\ Forall song_ok (songs_in sample_root) /\
  handle_findadd (Some sample_root) song_of_db 0 argv (sample_server all_permissions) = Err AssertFailed.
Proof.
  intros argv song_of_db. split; [vm_compute; reflexivity|]. split; [done|]. split; [exact sample_songs_ok|].
  rewrite (proj2 (queries_append song_of_db sample_root 0 argv first_tracks (sample_server all_permissions)
    ltac:(vm_compute; reflexivity) ltac:(done) sample_songs_ok) first_tracks_ok). vm_compute. reflexivity.
Defined.

(** ** Unique values and statistics *)

(** [list] prints every value of a tag type that occurs in a song that
    matches, each once: an empty value stands for songs with a tag but
    without the type. *)
Theorem unique_tags_correct {F : Casefold} music_dir t criteria root o :
  exact_criteria criteria -> Forall song_ok (songs_in root) ->
  exists vs, listAllUniqueTags collect music_dir (Some root) (tag_type_code t) criteria o =
      Ok (success, o ++ concat (map (value_line t) vs)) /\ NoDup vs /\
    forall v, v ∈ vs <-> exists p, p ∈ songs_in root /\ matched criteria p = true /\ v ∈ listed t p.2.
Proof. apply unique_tags_ok. Qed.

Lemma unique_tags_correct_witness :
  exact_criteria first_tracks /\ Forall song_ok (songs_in sample_root) /\
  exists vs, listAllUniqueTags collect None (Some sample_root) (tag_type_code TAG_ALBUM) first_tracks [] =
      Ok (success, [] ++ concat (map (value_line TAG_ALBUM) vs)) /\ NoDup vs /\
    forall v, v ∈ vs <-> exists p, p ∈ songs_in sample_root /\ matched first_tracks p = true /\ v ∈ listed TAG_ALBUM p.2.
Proof.
  split; [exact first_tracks_ok|]. split; [exact sample_songs_ok|].
  exact (unique_tags_correct None TAG_ALBUM first_tracks sample_root [] first_tracks_ok sample_songs_ok).
Defined.

(** [stats_update()] counts the songs, adds up their times and counts
    the different artists and albums, on 32 and on 64 bits. *)
Theorem stats_update_correct root :
  exists artists albums, stats_update (Some root) =
      Ok (Stats (u32 (Z.of_nat (length (songs_in root)))) (u64 (total (songs_in root)))
            (u32 (Z.of_nat (length artists))) (u32 (Z.of_nat (length albums)))) /\
    NoDup artists /\ (forall v, v ∈ artists <-> exists p, p ∈ songs_in root /\ v ∈ values_of_type TAG_ARTIST p) /\
    NoDup albums /\ (forall v, v ∈ albums <-> exists p, p ∈ songs_in root /\ v ∈ values_of_type TAG_ALBUM p).
Proof. apply stats_update_ok. Qed.
