(* ===== verification/Mixer.v ===== *)
(** * Mixers

    [struct mixer] with [src/mixer_api.c] and [src/mixer_control.c], and the
    software mixer of [src/mixer/software.c].  What a plugin does to its
    device is a function on [D]; it returns an error code or a volume. *)

From S2P Require Import Prelude Err Float Pcm.
Local Open Scope Z_scope.

Section mixer.
Context {D : Type}.

(** [NULL] methods are [None]; [mp_software] says that the plugin is
    [software_mixer_plugin]. *)
Record mixer_plugin := MixerPlugin {
  mp_open : option (D -> Z * D);
  mp_close : option (D -> D);
  mp_get_volume : D -> Z * D;
  mp_set_volume : Z -> D -> Z * D;
  mp_global : bool;
  mp_software : bool;
}.

Record mixer := Mixer {
  mx_plugin : mixer_plugin;
  mx_open : bool;
  mx_failed : bool;
  mx_dev : D;
}.

Definition mixer_init (p : mixer_plugin) (d : D) : mixer := Mixer p false false d.

Definition mixer_open (m : mixer) : Z * mixer :=
  let p := mx_plugin m in
  let '(ret, open, d) :=
    if mx_open m then (success, true, mx_dev m) else
    match mp_open p with
    | None => (success, true, mx_dev m)
    | Some f => let '(ret, d) := f (mx_dev m) in (ret, ret =? success, d)
    end in
  (ret, Mixer p open (negb (ret =? success)) d).

Definition mixer_close_internal (m : mixer) : res mixer :=
  assert (mx_open m);;
  let p := mx_plugin m in
  Ok (Mixer p false (mx_failed m) (match mp_close p with Some f => f (mx_dev m) | None => mx_dev m end)).

Definition mixer_close (m : mixer) : res mixer := if mx_open m then mixer_close_internal m else Ok m.

Definition mixer_auto_close (m : mixer) : res mixer := if negb (mp_global (mx_plugin m)) then mixer_close m else Ok m.

Definition mixer_failed (m : mixer) : res mixer :=
  assert (mx_open m);;
  m ← mixer_close_internal m;
  Ok (Mixer (mx_plugin m) (mx_open m) true (mx_dev m)).

(** The volume, -1, or an error code. *)
Definition mixer_get_volume (m : mixer) : res (Z * mixer) :=
  let '(ret, m) := mixer_open m in
  if mp_global (mx_plugin m) && negb (mx_failed m) && negb (ret =? success) then Ok (ret, m) else
  if mx_open m then
    let '(volume, d) := mp_get_volume (mx_plugin m) (mx_dev m) in
    let m := Mixer (mx_plugin m) (mx_open m) (mx_failed m) d in
    if volume <? 0 then m ← mixer_failed m; Ok (volume, m) else Ok (volume, m)
  else Ok (-1, m).

Definition mixer_set_volume (m : mixer) (volume : Z) : res (Z * mixer) :=
  assert (volume <=? 100);;
  let '(ret, m) := mixer_open m in
  if mp_global (mx_plugin m) && negb (mx_failed m) && negb (ret =? success) then Ok (ret, m) else
  if mx_open m then
    let '(ret, d) := mp_set_volume (mx_plugin m) volume (mx_dev m) in
    Ok (ret, Mixer (mx_plugin m) (mx_open m) (mx_failed m) d)
  else Ok (error MPD_NIMPL, m).

(** ** Properties *)

(** What is true of every mixer: it has not failed while it is open. *)
Definition mixer_ok (m : mixer) : Prop := mx_open m = true -> mx_failed m = false.

Lemma mixer_init_ok p d : mixer_ok (mixer_init p d).
Proof. done. Qed.

Lemma mixer_open_ok m :
  let '(ret, m') := mixer_open m in
  mx_plugin m' = mx_plugin m /\ mixer_ok m' /\ mx_open m' = (ret =? success) /\ mx_failed m' = negb (ret =? success).
Proof.
  unfold mixer_open, mixer_ok. destruct (mx_open m); [done|]. destruct (mp_open (mx_plugin m)) as [f|]; [|done].
  destruct (f (mx_dev m)) as [ret d]. cbn. by destruct (ret =? success).
Qed.

Lemma mixer_close_ok m : exists m', mixer_close m = Ok m' /\ mx_plugin m' = mx_plugin m /\ mx_open m' = false.
Proof.
  unfold mixer_close, mixer_close_internal. destruct (mx_open m) eqn:E; cbn; rewrite ?E; eexists; (split; [done|]); done.
Qed.

Lemma mixer_auto_close_ok m :
  exists m', mixer_auto_close m = Ok m' /\ mx_plugin m' = mx_plugin m /\
    mx_open m' = mx_open m && mp_global (mx_plugin m).
Proof.
  unfold mixer_auto_close. destruct (mp_global (mx_plugin m)); cbn [negb].
  - exists m. by rewrite andb_true_r.
  - rewrite andb_false_r. apply mixer_close_ok.
Qed.

(** Reading the volume opens the mixer; if that fails, or the device does,
    the mixer is closed and has failed.  The test of [global] and [failed]
    never has an effect. *)
Lemma mixer_get_volume_ok m :
  exists v m', mixer_get_volume m = Ok (v, m') /\ mixer_ok m' /\ mx_plugin m' = mx_plugin m /\
    let '(ret, m1) := mixer_open m in
    mx_open m' = (ret =? success) && (0 <=? v) /\ mx_failed m' = negb (mx_open m') /\
    v = (if ret =? success then (mp_get_volume (mx_plugin m) (mx_dev m1)).1 else -1).
Proof.
  pose proof (mixer_open_ok m) as H. unfold mixer_get_volume. destruct (mixer_open m) as [ret m1].
  destruct H as (Hp & Hok & Ho & Hf). rewrite Ho, Hf, <- Hp. rewrite negb_involutive.
  destruct (ret =? success); cbn [negb andb]; rewrite ?andb_false_r, ?andb_true_r; cbn [andb].
  - destruct (mp_get_volume (mx_plugin m1) (mx_dev m1)) as [v d]. cbn [fst].
    destruct (Z.ltb_spec v 0) as [Hv|Hv].
    + unfold mixer_failed, mixer_close_internal. cbn. do 2 eexists. split; [done|].
      split; [by intros ?|]. split; [done|]. assert (0 <=? v = false) as -> by lia. done.
    + do 2 eexists. split; [done|]. split; [by intros ?|]. split; [done|]. cbn [mx_open mx_failed].
      assert (0 <=? v = true) as -> by lia. done.
  - do 2 eexists. split; [done|]. cbn [mx_open]. by rewrite Ho, Hf.
Qed.

(** Setting the volume fails if the mixer cannot be opened or the device
    says so. *)
Lemma mixer_set_volume_ok m volume :
  volume <= 100 ->
  exists ret m', mixer_set_volume m volume = Ok (ret, m') /\ mixer_ok m' /\ mx_plugin m' = mx_plugin m /\
    let '(ret1, m1) := mixer_open m in
    mx_open m' = (ret1 =? success) /\
    ret = (if ret1 =? success then (mp_set_volume (mx_plugin m) volume (mx_dev m1)).1 else error MPD_NIMPL).
Proof.
  intros Hv. pose proof (mixer_open_ok m) as H. unfold mixer_set_volume. rewrite (proj2 (Z.leb_le _ _) Hv).
  destruct (mixer_open m) as [ret m1]. destruct H as (Hp & Hok & Ho & Hf). cbn [assert mbind res_bind]. rewrite Ho, Hf, <- Hp.
  destruct (ret =? success); cbn [negb andb]; rewrite ?andb_false_r; cbn [andb].
  - destruct (mp_set_volume (mx_plugin m1) volume (mx_dev m1)) as [r d]. do 2 eexists. split; [done|].
    split; [by intros ?|]. done.
  - do 2 eexists. split; [done|]. by rewrite Ho.
Qed.

End mixer.

Arguments mixer_plugin : clear implicits.
Arguments mixer : clear implicits.
