(* ===== verification/Output.v ===== *)
(** * Audio outputs

    [struct audio_output], the thread of an output
    ([src/output_thread.c]) and what the player thread does to it
    ([src/output_control.c]).  The mutex of an output is released while its
    thread waits or a plugin works: a place where the thread does something
    else, or asks somebody else, is a [loc], and [resume] runs the thread
    from there with the answer to the next one. *)

From S2P Require Import Prelude Err CString AudioFormat Mixer.
Local Open Scope Z_scope.

Inductive ao_command :=
| AO_COMMAND_NONE | AO_COMMAND_ENABLE | AO_COMMAND_DISABLE | AO_COMMAND_OPEN | AO_COMMAND_REOPEN
| AO_COMMAND_CLOSE | AO_COMMAND_PAUSE | AO_COMMAND_DRAIN | AO_COMMAND_CANCEL | AO_COMMAND_KILL.

#[global] Instance ao_command_eq_dec : EqDecision ao_command.
Proof. solve_decision. Defined.

Section output.
Context {D : Type}.

(** [has_...] says whether the plugin has a method; [ao_fail_timer] and
    [ao_thread] whether the pointer is not [NULL].  Pipes and chunks are
    addresses. *)
Record audio_output := AudioOutput {
  ao_name : cstring;
  ao_has_enable : bool;
  ao_has_disable : bool;
  ao_has_pause : bool;
  ao_mixer : option (mixer D);
  ao_always_on : bool;
  ao_config_audio_format : audio_format;
  ao_enabled : bool;
  ao_really_enabled : bool;
  ao_open : bool;
  ao_pause : bool;
  ao_allow_play : bool;
  ao_fail_timer : bool;
  ao_in_audio_format : audio_format;
  ao_out_audio_format : audio_format;
  ao_thread : bool;
  ao_pending : ao_command;
  ao_pipe : option Z;
  ao_chunk : option Z;
  ao_chunk_finished : bool;
}.

Definition set_mixer (x : option (mixer D)) (ao : audio_output) : audio_output :=
  AudioOutput (ao_name ao) (ao_has_enable ao) (ao_has_disable ao) (ao_has_pause ao) x (ao_always_on ao)
    (ao_config_audio_format ao) (ao_enabled ao) (ao_really_enabled ao) (ao_open ao) (ao_pause ao)
    (ao_allow_play ao) (ao_fail_timer ao) (ao_in_audio_format ao) (ao_out_audio_format ao) (ao_thread ao)
    (ao_pending ao) (ao_pipe ao) (ao_chunk ao) (ao_chunk_finished ao).
Definition set_enabled (x : bool) (ao : audio_output) : audio_output :=
  AudioOutput (ao_name ao) (ao_has_enable ao) (ao_has_disable ao) (ao_has_pause ao) (ao_mixer ao)
    (ao_always_on ao) (ao_config_audio_format ao) x (ao_really_enabled ao) (ao_open ao) (ao_pause ao)
    (ao_allow_play ao) (ao_fail_timer ao) (ao_in_audio_format ao) (ao_out_audio_format ao) (ao_thread ao)
    (ao_pending ao) (ao_pipe ao) (ao_chunk ao) (ao_chunk_finished ao).
Definition set_really_enabled (x : bool) (ao : audio_output) : audio_output :=
  AudioOutput (ao_name ao) (ao_has_enable ao) (ao_has_disable ao) (ao_has_pause ao) (ao_mixer ao)
    (ao_always_on ao) (ao_config_audio_format ao) (ao_enabled ao) x (ao_open ao) (ao_pause ao) (ao_allow_play ao)
    (ao_fail_timer ao) (ao_in_audio_format ao) (ao_out_audio_format ao) (ao_thread ao) (ao_pending ao)
    (ao_pipe ao) (ao_chunk ao) (ao_chunk_finished ao).
Definition set_open (x : bool) (ao : audio_output) : audio_output :=
  AudioOutput (ao_name ao) (ao_has_enable ao) (ao_has_disable ao) (ao_has_pause ao) (ao_mixer ao)
    (ao_always_on ao) (ao_config_audio_format ao) (ao_enabled ao) (ao_really_enabled ao) x (ao_pause ao)
    (ao_allow_play ao) (ao_fail_timer ao) (ao_in_audio_format ao) (ao_out_audio_format ao) (ao_thread ao)
    (ao_pending ao) (ao_pipe ao) (ao_chunk ao) (ao_chunk_finished ao).
Definition set_pause (x : bool) (ao : audio_output) : audio_output :=
  AudioOutput (ao_name ao) (ao_has_enable ao) (ao_has_disable ao) (ao_has_pause ao) (ao_mixer ao)
    (ao_always_on ao) (ao_config_audio_format ao) (ao_enabled ao) (ao_really_enabled ao) (ao_open ao) x
    (ao_allow_play ao) (ao_fail_timer ao) (ao_in_audio_format ao) (ao_out_audio_format ao) (ao_thread ao)
    (ao_pending ao) (ao_pipe ao) (ao_chunk ao) (ao_chunk_finished ao).
Definition set_allow_play (x : bool) (ao : audio_output) : audio_output :=
  AudioOutput (ao_name ao) (ao_has_enable ao) (ao_has_disable ao) (ao_has_pause ao) (ao_mixer ao)
    (ao_always_on ao) (ao_config_audio_format ao) (ao_enabled ao) (ao_really_enabled ao) (ao_open ao)
    (ao_pause ao) x (ao_fail_timer ao) (ao_in_audio_format ao) (ao_out_audio_format ao) (ao_thread ao)
    (ao_pending ao) (ao_pipe ao) (ao_chunk ao) (ao_chunk_finished ao).
Definition set_fail_timer (x : bool) (ao : audio_output) : audio_output :=
  AudioOutput (ao_name ao) (ao_has_enable ao) (ao_has_disable ao) (ao_has_pause ao) (ao_mixer ao)
    (ao_always_on ao) (ao_config_audio_format ao) (ao_enabled ao) (ao_really_enabled ao) (ao_open ao)
    (ao_pause ao) (ao_allow_play ao) x (ao_in_audio_format ao) (ao_out_audio_format ao) (ao_thread ao)
    (ao_pending ao) (ao_pipe ao) (ao_chunk ao) (ao_chunk_finished ao).
Definition set_in_audio_format (x : audio_format) (ao : audio_output) : audio_output :=
  AudioOutput (ao_name ao) (ao_has_enable ao) (ao_has_disable ao) (ao_has_pause ao) (ao_mixer ao)
    (ao_always_on ao) (ao_config_audio_format ao) (ao_enabled ao) (ao_really_enabled ao) (ao_open ao)
    (ao_pause ao) (ao_allow_play ao) (ao_fail_timer ao) x (ao_out_audio_format ao) (ao_thread ao) (ao_pending ao)
    (ao_pipe ao) (ao_chunk ao) (ao_chunk_finished ao).
Definition set_out_audio_format (x : audio_format) (ao : audio_output) : audio_output :=
  AudioOutput (ao_name ao) (ao_has_enable ao) (ao_has_disable ao) (ao_has_pause ao) (ao_mixer ao)
    (ao_always_on ao) (ao_config_audio_format ao) (ao_enabled ao) (ao_really_enabled ao) (ao_open ao)
    (ao_pause ao) (ao_allow_play ao) (ao_fail_timer ao) (ao_in_audio_format ao) x (ao_thread ao) (ao_pending ao)
    (ao_pipe ao) (ao_chunk ao) (ao_chunk_finished ao).
Definition set_thread (x : bool) (ao : audio_output) : audio_output :=
  AudioOutput (ao_name ao) (ao_has_enable ao) (ao_has_disable ao) (ao_has_pause ao) (ao_mixer ao)
    (ao_always_on ao) (ao_config_audio_format ao) (ao_enabled ao) (ao_really_enabled ao) (ao_open ao)
    (ao_pause ao) (ao_allow_play ao) (ao_fail_timer ao) (ao_in_audio_format ao) (ao_out_audio_format ao) x
    (ao_pending ao) (ao_pipe ao) (ao_chunk ao) (ao_chunk_finished ao).
Definition set_command (x : ao_command) (ao : audio_output) : audio_output :=
  AudioOutput (ao_name ao) (ao_has_enable ao) (ao_has_disable ao) (ao_has_pause ao) (ao_mixer ao)
    (ao_always_on ao) (ao_config_audio_format ao) (ao_enabled ao) (ao_really_enabled ao) (ao_open ao)
    (ao_pause ao) (ao_allow_play ao) (ao_fail_timer ao) (ao_in_audio_format ao) (ao_out_audio_format ao)
    (ao_thread ao) x (ao_pipe ao) (ao_chunk ao) (ao_chunk_finished ao).
Definition set_pipe (x : option Z) (ao : audio_output) : audio_output :=
  AudioOutput (ao_name ao) (ao_has_enable ao) (ao_has_disable ao) (ao_has_pause ao) (ao_mixer ao)
    (ao_always_on ao) (ao_config_audio_format ao) (ao_enabled ao) (ao_really_enabled ao) (ao_open ao)
    (ao_pause ao) (ao_allow_play ao) (ao_fail_timer ao) (ao_in_audio_format ao) (ao_out_audio_format ao)
    (ao_thread ao) (ao_pending ao) x (ao_chunk ao) (ao_chunk_finished ao).
Definition set_chunk (x : option Z) (ao : audio_output) : audio_output :=
  AudioOutput (ao_name ao) (ao_has_enable ao) (ao_has_disable ao) (ao_has_pause ao) (ao_mixer ao)
    (ao_always_on ao) (ao_config_audio_format ao) (ao_enabled ao) (ao_really_enabled ao) (ao_open ao)
    (ao_pause ao) (ao_allow_play ao) (ao_fail_timer ao) (ao_in_audio_format ao) (ao_out_audio_format ao)
    (ao_thread ao) (ao_pending ao) (ao_pipe ao) x (ao_chunk_finished ao).
Definition set_chunk_finished (x : bool) (ao : audio_output) : audio_output :=
  AudioOutput (ao_name ao) (ao_has_enable ao) (ao_has_disable ao) (ao_has_pause ao) (ao_mixer ao)
    (ao_always_on ao) (ao_config_audio_format ao) (ao_enabled ao) (ao_really_enabled ao) (ao_open ao)
    (ao_pause ao) (ao_allow_play ao) (ao_fail_timer ao) (ao_in_audio_format ao) (ao_out_audio_format ao)
    (ao_thread ao) (ao_pending ao) (ao_pipe ao) (ao_chunk ao) x.

(** ** The thread *)

(** What follows when the device is closed. *)
Inductive after_close :=
| ByCommand
| ByDisable
| ByReopen (pipe : option Z)
| ByFilter
| ByPlay
| ByPause.

(** What follows a command: [break] or [continue] of the loop, the pause
    loop, the end. *)
Inductive after_command := Break | Continue | PauseLoop | Exit.

Inductive loc :=
| NotStarted
| Starting
| Waiting
| Enabling (opening : bool)
| Disabling
| FilterOpening
| Opening
| Closing (drain : bool) (k : after_close)
| FilterReopening
| ReopenClosing
| Finished (k : after_command)
| PipeNext
| ChunkTag (chunk : Z)
| SendingTag (chunk : Z)
| Filtering (chunk : Z)
| Delay (chunk size : Z)
| TimedWait (chunk size : Z)
| Playing (chunk size : Z)
| ChunkNext (chunk : Z)
| Signaling
| PauseCancelling
| PauseDelay
| PauseWait
| Pausing
| PipeHead
| Draining
| Cancelling
| Dead.

#[local] Instance after_close_eq_dec : EqDecision after_close.
Proof. solve_decision. Defined.
#[local] Instance after_command_eq_dec : EqDecision after_command.
Proof. solve_decision. Defined.
#[global] Instance loc_eq_dec : EqDecision loc.
Proof. solve_decision. Defined.

(** Is the mutex held?  Filters, the pipe and the delay are asked with it. *)
Definition locked (l : loc) : bool :=
  match l with
  | FilterOpening | FilterReopening | PipeNext | ChunkTag _ | Filtering _ | Delay _ _ | ChunkNext _ | PauseDelay | PipeHead => true
  | _ => false
  end.

(** An answer: an error code, a number or a truth value, the format that a
    filter or a plugin chose ([None]: an error), a chunk, the size of the
    filtered data ([None]: [NULL]). *)
Record answer := Answer {
  a_code : Z;
  a_format : option audio_format;
  a_chunk : option Z;
  a_size : option Z;
}.

Definition state : Type := loc * audio_output.

Definition no_command (ao : audio_output) : bool := match ao_pending ao with AO_COMMAND_NONE => true | _ => false end.
Definition is_null {A} (p : option A) : bool := match p with None => true | Some _ => false end.

Definition finished (k : after_command) (ao : audio_output) : res state :=
  assert (negb (no_command ao));;
  Ok (Finished k, set_command AO_COMMAND_NONE ao).

Definition start_close (drain : bool) (k : after_close) (ao : audio_output) : res state :=
  assert (ao_open ao);;
  Ok (Closing drain k, set_open false (set_chunk None (set_pipe None ao))).

(** [ao_enable()] has returned [ret] to [ao_open()]. *)
Definition open_enabled (ret : Z) (ao : audio_output) : res state :=
  if ret =? 0 then finished Break ao else Ok (FilterOpening, ao).

Definition after_enable (opening : bool) (ret : Z) (ao : audio_output) : res state :=
  if opening then open_enabled ret ao else finished Break ao.

Definition enable (opening : bool) (ao : audio_output) : res state :=
  if ao_really_enabled ao then after_enable opening 1 ao else Ok (Enabling opening, ao).

Definition disable_rest (ao : audio_output) : res state :=
  if ao_really_enabled ao then Ok (Disabling, set_really_enabled false ao) else finished Break ao.

Definition disable (ao : audio_output) : res state :=
  if ao_open ao then start_close false ByDisable ao else disable_rest ao.

Definition open_ (ao : audio_output) : res state :=
  assert (negb (ao_open ao));;
  assert (negb (is_null (ao_pipe ao)));;
  assert (is_null (ao_chunk ao));;
  assert (audio_format_valid (ao_in_audio_format ao));;
  enable true (set_fail_timer false ao).

Definition reopen_rest (ao : audio_output) : res state :=
  if ao_open ao then Ok (FilterReopening, ao) else open_ ao.

Definition reopen_format (ao : audio_output) : res state :=
  out ← audio_format_mask_apply (ao_in_audio_format ao) (ao_config_audio_format ao);
  reopen_rest (set_out_audio_format out ao).

Definition reopen (ao : audio_output) : res state :=
  if negb (audio_format_fully_defined (ao_config_audio_format ao)) then
    if ao_open ao then start_close true (ByReopen (ao_pipe ao)) ao else reopen_format ao
  else reopen_rest ao.

(** The [switch] over a command. *)
Definition dispatch (ao : audio_output) : res state :=
  match ao_pending ao with
  | AO_COMMAND_NONE => Ok (Waiting, ao)
  | AO_COMMAND_ENABLE => enable false ao
  | AO_COMMAND_DISABLE => disable ao
  | AO_COMMAND_OPEN => open_ ao
  | AO_COMMAND_REOPEN => reopen ao
  | AO_COMMAND_CLOSE =>
      assert (ao_open ao);; assert (negb (is_null (ao_pipe ao)));; start_close false ByCommand ao
  | AO_COMMAND_PAUSE => if negb (ao_open ao) then finished Break ao else Ok (PauseCancelling, ao)
  | AO_COMMAND_DRAIN =>
      if ao_open ao then assert (is_null (ao_chunk ao));; Ok (PipeHead, ao) else finished Continue ao
  | AO_COMMAND_CANCEL =>
      let ao := set_chunk None ao in if ao_open ao then Ok (Cancelling, ao) else finished Continue ao
  | AO_COMMAND_KILL => finished Exit (set_chunk None ao)
  end.

(** Behind the [switch]: play, or wait if there is no command. *)
Definition task_body (ao : audio_output) : res state :=
  if ao_open ao && ao_allow_play ao then
    assert (negb (is_null (ao_pipe ao)));; Ok (PipeNext, ao)
  else dispatch ao.

(** An iteration of the loop. *)
Definition task_loop (ao : audio_output) : res state :=
  if no_command ao then task_body ao else dispatch ao.

Definition play_end (ao : audio_output) : res state := Ok (Signaling, set_chunk_finished true ao).

(** The loop over the chunks. *)
Definition play_loop (chunk : option Z) (ao : audio_output) : res state :=
  match chunk with
  | Some c =>
      if no_command ao then
        assert (negb (ao_chunk_finished ao));; Ok (ChunkTag c, set_chunk (Some c) ao)
      else play_end ao
  | None => play_end ao
  end.

(** [ao_play_chunk()] has failed. *)
Definition play_failed (ao : audio_output) : res state :=
  assert (is_null (ao_chunk ao));; play_end ao.

Definition chunk_played (c : Z) (ao : audio_output) : res state :=
  assert (bool_decide (ao_chunk ao = Some c));; Ok (ChunkNext c, ao).

(** The loop over the bytes of a chunk. *)
Definition play_bytes (c size : Z) (ao : audio_output) : res state :=
  if (0 <? size) && no_command ao then Ok (Delay c size, ao) else chunk_played c ao.

Definition pause_end (ao : audio_output) : res state := task_loop (set_pause false ao).

(** The device is closed. *)
Definition after_closing (k : after_close) (ao : audio_output) : res state :=
  match k with
  | ByCommand => finished Break ao
  | ByDisable => disable_rest ao
  | ByReopen pipe => reopen_format (set_pipe pipe ao)
  | ByFilter => play_failed (set_fail_timer true ao)
  | ByPlay => assert (negb (ao_fail_timer ao));; play_failed (set_fail_timer true ao)
  | ByPause => pause_end ao
  end.

Definition after_finished (k : after_command) (ao : audio_output) : res state :=
  match k with
  | Break => task_body ao
  | Continue => task_loop ao
  | PauseLoop => Ok (PauseDelay, ao)
  | Exit => Ok (Dead, ao)
  end.

(** [ao_plugin_enable()] has returned. *)
Definition enabled (opening : bool) (ret : Z) (ao : audio_output) : res state :=
  after_enable opening ret (if ret =? success then set_really_enabled true ao else ao).

(** [ao_filter_open()] has returned, [None] for an error. *)
Definition filter_opened (filter_audio_format : option audio_format) (ao : audio_output) : res state :=
  match filter_audio_format with
  | None => finished Break (set_fail_timer true ao)
  | Some f =>
      assert (audio_format_valid f);;
      out ← audio_format_mask_apply f (ao_config_audio_format ao);
      Ok (Opening, set_out_audio_format out ao)
  end.

(** [ao_plugin_open()] has returned, and may have changed the format. *)
Definition device_opened (ret : Z) (out_audio_format : option audio_format) (ao : audio_output) : res state :=
  assert (negb (ao_open ao));;
  let ao := match out_audio_format with Some out => set_out_audio_format out ao | None => ao end in
  finished Break (if ret =? success then set_open true ao else set_fail_timer true ao).

(** [ao_filter_open()] has returned to [ao_reopen_filter()]. *)
Definition filter_reopened (filter_audio_format : option audio_format) (ao : audio_output) : res state :=
  match filter_audio_format with
  | None => Ok (ReopenClosing, set_fail_timer true (set_open false (set_chunk None (set_pipe None ao))))
  | Some _ => finished Break ao
  end.

(** From one place to the next. *)
Definition resume (l : loc) (a : answer) (ao : audio_output) : res state :=
  match l with
  | NotStarted | Dead => Err AssertFailed
  | Starting | Waiting => task_loop ao
  | Enabling opening => enabled opening (a_code a) ao
  | Disabling => finished Break ao
  | FilterOpening => filter_opened (a_format a) ao
  | Opening => device_opened (a_code a) (a_format a) ao
  | Closing _ k => after_closing k ao
  | FilterReopening => filter_reopened (a_format a) ao
  | ReopenClosing => finished Break ao
  | Finished k => after_finished k ao
  | PipeNext =>
      match a_chunk a with
      | None => dispatch ao
      | Some c => play_loop (Some c) (set_chunk_finished false ao)
      end
  | ChunkTag c => Ok (if a_code a =? 0 then Filtering c else SendingTag c, ao)
  | SendingTag c => Ok (Filtering c, ao)
  | Filtering c =>
      match a_size a with
      | None => start_close false ByFilter ao
      | Some size => play_bytes c size ao
      end
  | Delay c size => Ok (if a_code a =? 0 then Playing c size else TimedWait c size, ao)
  | TimedWait c size =>
      if no_command ao then Ok (Delay c size, ao) else chunk_played c ao
  | Playing c size =>
      let nbytes := a_code a in
      if nbytes <=? 0 then start_close false ByPlay ao else
      assert (nbytes <=? size);;
      assert (nbytes `mod` audio_format_frame_size (ao_out_audio_format ao) =? 0);;
      play_bytes c (size - nbytes) ao
  | ChunkNext _ => play_loop (a_chunk a) ao
  | Signaling => task_loop ao
  | PauseCancelling => finished PauseLoop (set_pause true ao)
  | PauseDelay => Ok (if a_code a =? 0 then Pausing else PauseWait, ao)
  | PauseWait => if no_command ao then Ok (PauseDelay, ao) else pause_end ao
  | Pausing =>
      if a_code a =? 0 then start_close false ByPause ao
      else if no_command ao then Ok (PauseDelay, ao)
      else pause_end ao
  | PipeHead => assert (is_null (a_chunk a));; Ok (Draining, ao)
  | Draining | Cancelling => finished Continue ao
  end.

(** ** The player thread

    Each operation is what happens while the mutex is held up to the point
    where the caller waits; [waiting] says for what. *)

Inductive waiting :=
| Idle
| ForCommand
| ForOpen
| ForAll (allow_play : bool)
| ForJoin
| Gone.

Definition ao_command_async (cmd : ao_command) (ao : audio_output) : res audio_output :=
  assert (no_command ao);; Ok (set_command cmd ao).

Definition audio_output_thread_start (s : state) : res state :=
  assert (no_command s.2);; Ok (Starting, set_thread true s.2).

Definition client_state : Type := waiting * state.

Definition audio_output_enable (s : state) : res client_state :=
  let '(l, ao) := s in
  if negb (ao_thread ao) && negb (ao_has_enable ao) then Ok (Idle, (l, set_really_enabled true ao)) else
  s ← (if negb (ao_thread ao) then audio_output_thread_start s else Ok s);
  ao ← ao_command_async AO_COMMAND_ENABLE s.2;
  Ok (ForCommand, (s.1, ao)).

Definition audio_output_disable (s : state) : res client_state :=
  let '(l, ao) := s in
  if negb (ao_thread ao) then
    if negb (ao_has_disable ao) then Ok (Idle, (l, set_really_enabled false ao))
    else assert (negb (ao_really_enabled ao));; Ok (Idle, s)
  else
    ao ← ao_command_async AO_COMMAND_DISABLE ao;
    Ok (ForCommand, (l, ao)).

Definition audio_output_open (audio_format : audio_format) (mp : Z) (s : state) : res client_state :=
  let '(l, ao) := s in
  assert (ao_allow_play ao);;
  assert (audio_format_valid audio_format);;
  let ao := set_fail_timer false ao in
  if ao_open ao && audio_format_equals audio_format (ao_in_audio_format ao) then
    assert (bool_decide (ao_pipe ao = Some mp) || (ao_always_on ao && ao_pause ao));;
    if ao_pause ao then
      ao ← ao_command_async AO_COMMAND_CANCEL (set_pipe (Some mp) (set_chunk None ao));
      Ok (ForCommand, (l, ao))
    else Ok (Idle, (l, ao))
  else
    let ao := set_pipe (Some mp) (set_chunk None (set_in_audio_format audio_format ao)) in
    s ← (if negb (ao_thread ao) then audio_output_thread_start (l, ao) else Ok (l, ao));
    ao ← ao_command_async (if ao_open s.2 then AO_COMMAND_REOPEN else AO_COMMAND_OPEN) s.2;
    Ok (ForOpen, (s.1, ao)).

Definition auto_close_mixer (ao : audio_output) : res audio_output :=
  match ao_mixer ao with None => Ok ao | Some m => m ← mixer_auto_close m; Ok (set_mixer (Some m) ao) end.

Definition audio_output_close_locked (s : state) : res client_state :=
  let '(l, ao) := s in
  assert (ao_allow_play ao);;
  ao ← auto_close_mixer ao;
  assert (negb (ao_open ao) || negb (ao_fail_timer ao));;
  if ao_open ao then
    ao ← ao_command_async AO_COMMAND_CLOSE ao;
    Ok (ForCommand, (l, ao))
  else Ok (Idle, (l, set_fail_timer false ao)).

(** [elapsed]: the timer has run for more than [REOPEN_AFTER] seconds. *)
Definition audio_output_update (audio_format : audio_format) (mp : Z) (elapsed : bool) (s : state) : res client_state :=
  let '(l, ao) := s in
  if ao_enabled ao && ao_really_enabled ao then
    if negb (ao_fail_timer ao) || elapsed then audio_output_open audio_format mp s else Ok (Idle, s)
  else if ao_open ao then audio_output_close_locked s
  else Ok (Idle, s).

Definition audio_output_play (s : state) : res client_state := assert (ao_allow_play s.2);; Ok (Idle, s).

(** A command that is not waited for here. *)
Definition async_if_open (cmd : ao_command) (s : state) : res client_state :=
  assert (ao_allow_play s.2);;
  if ao_open s.2 then ao ← ao_command_async cmd s.2; Ok (ForAll false, (s.1, ao)) else Ok (Idle, s).

Definition audio_output_pause (s : state) : res client_state :=
  let '(l, ao) := s in
  ao ← (if negb (ao_has_pause ao) then auto_close_mixer ao else Ok ao);
  async_if_open AO_COMMAND_PAUSE (l, ao).

Definition audio_output_drain_async : state -> res client_state := async_if_open AO_COMMAND_DRAIN.

Definition audio_output_cancel (s : state) : res client_state :=
  let '(l, ao) := s in
  if ao_open ao then
    ao ← ao_command_async AO_COMMAND_CANCEL (set_allow_play false ao);
    Ok (ForAll true, (l, ao))
  else Ok (Idle, s).

Definition audio_output_allow_play (ao : audio_output) : audio_output := set_allow_play true ao.

Definition audio_output_close (s : state) : res client_state :=
  assert (negb (ao_open s.2) || negb (ao_fail_timer s.2));; audio_output_close_locked s.

Definition audio_output_release (s : state) : res client_state :=
  if ao_always_on s.2 then audio_output_pause s else audio_output_close s.

(** The end of [audio_output_finish()]. *)
Definition audio_output_kill (s : state) : res client_state :=
  let '(l, ao) := s in
  assert (negb (ao_fail_timer ao));;
  if ao_thread ao then
    assert (ao_allow_play ao);;
    ao ← ao_command_async AO_COMMAND_KILL ao;
    Ok (ForJoin, (l, ao))
  else Ok (Idle, s).

(** [audio_output_all_enable_disable()], for one output. *)
Definition audio_output_enable_disable (s : state) : res client_state :=
  if Bool.eqb (ao_enabled s.2) (ao_really_enabled s.2) then Ok (Idle, s)
  else if ao_enabled s.2 then audio_output_enable s else audio_output_disable s.

(** [audio_output_reset_reopen()]. *)
Definition audio_output_reset_reopen (s : state) : res client_state :=
  let '(l, ao) := s in
  Ok (Idle, (l, if negb (ao_open ao) && ao_fail_timer ao then set_fail_timer false ao else ao)).

(** The wait is over: [audio_output_wait_all()] does not wait for an output
    that is closed. *)
Definition answered (w : waiting) (s : state) : bool :=
  match w with
  | Idle | Gone => false
  | ForCommand | ForOpen => no_command s.2
  | ForAll _ => negb (ao_open s.2) || no_command s.2
  | ForJoin => match s.1 with Dead => true | _ => false end
  end.

Definition next_waiting (w : waiting) : waiting := match w with ForJoin => Gone | _ => Idle end.

(** What the caller does then: open the mixer, let the output play again,
    forget the thread. *)
Definition wake (w : waiting) (s : state) : state :=
  let '(l, ao) := s in
  match w with
  | ForOpen =>
      (l, match ao_mixer ao with
          | Some m => if ao_open ao then set_mixer (Some (mixer_open m).2) ao else ao
          | None => ao
          end)
  | ForAll true => (l, audio_output_allow_play ao)
  | ForJoin => (NotStarted, set_thread false ao)
  | _ => s
  end.

End output.

Arguments audio_output : clear implicits.
Arguments state : clear implicits.
Arguments client_state : clear implicits.
