(* ===== verification/OutputTheorems.v ===== *)
(** * Audio outputs: safety

    The thread of an output and the player thread take turns, one critical
    section after another, in any order.  As long as the device does not
    fail while a command waits, no assertion fails and every command is
    answered; otherwise some do. *)

From S2P Require Import Prelude Err AudioFormat CString Mixer Output.

Local Open Scope Z_scope.

(** ** The two threads *)

Section system.
Context {D : Type}.
Implicit Types (ao : audio_output D) (s : state D) (l : loc).

Inductive op :=
| OpEnableDisable
| OpDisable
| OpUpdate (audio_format : audio_format) (mp : Z) (elapsed : bool)
| OpPlay
| OpPause
| OpDrain
| OpCancel
| OpClose
| OpRelease
| OpResetReopen
| OpKill.

#[global] Instance waiting_eq_dec : EqDecision waiting.
Proof. solve_decision. Defined.

Definition perform (o : op) (s : state D) : res (client_state D) :=
  match o with
  | OpEnableDisable => audio_output_enable_disable s
  | OpDisable => audio_output_disable s
  | OpUpdate f mp elapsed => audio_output_update f mp elapsed s
  | OpPlay => audio_output_play s
  | OpPause => audio_output_pause s
  | OpDrain => audio_output_drain_async s
  | OpCancel => audio_output_cancel s
  | OpClose => audio_output_close s
  | OpRelease => audio_output_release s
  | OpResetReopen => audio_output_reset_reopen s
  | OpKill => audio_output_kill s
  end.

(** The thread has a chunk in its hands. *)
Definition in_play (l : loc) : bool :=
  match l with
  | ChunkTag _ | SendingTag _ | Filtering _ | Delay _ _ | TimedWait _ _ | Playing _ _ | ChunkNext _ => true
  | _ => false
  end.

Definition closing (l : loc) : bool := match l with Closing _ _ => true | _ => false end.

(** What the player thread has to see to: the format changes only when
    everything has been played, the pipe does not change, and an output is
    closed before its thread is ended. *)
Definition op_ok (o : op) (s : state D) : Prop :=
  let '(l, ao) := s in
  match o with
  | OpUpdate f mp _ =>
      audio_format_valid f = true /\
      (ao_open ao = true ->
       if audio_format_equals f (ao_in_audio_format ao)
       then ao_pipe ao = Some mp \/ (ao_always_on ao = true /\ ao_pause ao = true)
       else in_play l = false)
  | OpDrain => ao_open ao = true -> ao_chunk ao = None
  | OpKill => ao_open ao = false /\ ao_fail_timer ao = false /\ closing l = false
  | _ => True
  end.

(** What plugins, filters and the pipe answer.  The device fails only while
    no command waits. *)
Definition answer_ok (l : loc) (ao : audio_output D) (a : answer) : Prop :=
  match l with
  | FilterOpening => match a_format a with Some f => audio_format_valid f = true | None => True end
  | Filtering _ => a_size a = None -> ao_pending ao = AO_COMMAND_NONE
  | Playing _ size =>
      a_code a <= size /\ (a_code a) `mod` audio_format_frame_size (ao_out_audio_format ao) = 0 /\
      (a_code a <= 0 -> ao_pending ao = AO_COMMAND_NONE)
  | Pausing => a_code a = 0 -> ao_pending ao = AO_COMMAND_NONE
  | PipeHead => a_chunk a = None
  | _ => True
  end.

Definition runs (l : loc) : bool := match l with NotStarted | Dead => false | _ => true end.

Inductive step : client_state D -> client_state D -> Prop :=
| step_thread w l ao a s : runs l = true -> answer_ok l ao a -> resume l a ao = Ok s -> step (w, (l, ao)) (w, s)
| step_client o w s s' : locked s.1 = false -> op_ok o s -> perform o s = Ok (w, s') -> step (Idle, s) (w, s')
| step_wake w s : locked s.1 = false -> answered w s = true -> step (w, s) (next_waiting w, wake w s)
| step_user b w l ao : step (w, (l, ao)) (w, (l, set_enabled b ao)).

(** ** The invariant *)

Definition ready (ao : audio_output D) : Prop := ao_really_enabled ao = true /\ audio_format_valid (ao_in_audio_format ao) = true.

(** A device that is open. *)
Definition open_inv (ao : audio_output D) : Prop :=
  ao_open ao = true -> ready ao /\ is_Some (ao_pipe ao) /\ ao_fail_timer ao = false.

Definition reopening (l : loc) : Prop :=
  match l with Closing _ (ByReopen _) | FilterOpening | Opening | ReopenClosing => True | _ => False end.

(** A command that waits, or is being executed. *)
Definition command_inv (l : loc) (ao : audio_output D) : Prop :=
  match ao_pending ao with
  | AO_COMMAND_NONE | AO_COMMAND_ENABLE | AO_COMMAND_DISABLE => True
  | AO_COMMAND_OPEN => ready ao /\ ao_open ao = false /\ is_Some (ao_pipe ao) /\ ao_chunk ao = None
  | AO_COMMAND_REOPEN => ready ao /\ ao_chunk ao = None /\ (ao_open ao = true \/ reopening l)
  | AO_COMMAND_CLOSE => ao_open ao = true \/ match l with Closing _ ByCommand => True | _ => False end
  | AO_COMMAND_PAUSE | AO_COMMAND_CANCEL => ao_open ao = true
  | AO_COMMAND_DRAIN => ao_open ao = true /\ ao_chunk ao = None
  | AO_COMMAND_KILL => ao_open ao = false /\ ao_fail_timer ao = false
  end.

Definition playing (c : Z) (ao : audio_output D) : Prop :=
  ao_open ao = true /\ ao_chunk ao = Some c /\ ao_chunk_finished ao = false /\ ao_pause ao = false.

(** The place of the thread. *)
Definition loc_inv (l : loc) (ao : audio_output D) : Prop :=
  match l with
  | Starting | Waiting | Signaling | Finished Break | Finished Continue => ao_pause ao = false
  | Enabling opening => opening = false /\ ao_pending ao = AO_COMMAND_ENABLE /\ ao_pause ao = false
  | Disabling => ao_pending ao = AO_COMMAND_DISABLE /\ ao_open ao = false /\ ao_pause ao = false
  | FilterOpening | Opening =>
      (ao_pending ao = AO_COMMAND_OPEN \/ ao_pending ao = AO_COMMAND_REOPEN) /\ ao_open ao = false /\ is_Some (ao_pipe ao) /\
      ao_pause ao = false /\ ao_fail_timer ao = false
  | Closing _ k =>
      ao_open ao = false /\ ao_fail_timer ao = false /\
      match k with
      | ByCommand => ao_pending ao = AO_COMMAND_CLOSE /\ ao_pause ao = false
      | ByDisable => ao_pending ao = AO_COMMAND_DISABLE /\ ao_pause ao = false
      | ByReopen pipe => ao_pending ao = AO_COMMAND_REOPEN /\ is_Some pipe /\ ao_pause ao = false
      | ByFilter | ByPlay => ao_chunk ao = None /\ ao_pending ao <> AO_COMMAND_KILL /\ ao_pause ao = false
      | ByPause => ao_pending ao <> AO_COMMAND_KILL
      end
  | FilterReopening => ao_pending ao = AO_COMMAND_REOPEN /\ ao_open ao = true /\ ao_pause ao = false
  | ReopenClosing => ao_pending ao = AO_COMMAND_REOPEN /\ ao_open ao = false /\ ao_pause ao = false
  | Finished PauseLoop | PauseDelay | PauseWait | Pausing => ao_open ao = true
  | PipeNext => ao_open ao = true /\ ao_pause ao = false
  | ChunkTag c | SendingTag c | Filtering c | Delay c _ | TimedWait c _ | Playing c _ | ChunkNext c => playing c ao
  | PauseCancelling => ao_pending ao = AO_COMMAND_PAUSE /\ ao_pause ao = false
  | PipeHead | Draining => ao_pending ao = AO_COMMAND_DRAIN /\ ao_pause ao = false
  | Cancelling => ao_pending ao = AO_COMMAND_CANCEL /\ ao_pause ao = false
  | NotStarted | Dead | Finished Exit => True
  end.

Definition async (c : ao_command) : Prop :=
  match c with AO_COMMAND_NONE | AO_COMMAND_PAUSE | AO_COMMAND_DRAIN | AO_COMMAND_CANCEL => True | _ => False end.

(** What the caller waits for. *)
Definition caller_inv (w : waiting) (ao : audio_output D) : Prop :=
  match w with
  | Idle => ao_pending ao = AO_COMMAND_NONE /\ ao_allow_play ao = true
  | ForCommand | ForOpen => ao_allow_play ao = true /\ ao_pending ao <> AO_COMMAND_KILL
  | ForAll b => ao_allow_play ao = negb b /\ async (ao_pending ao)
  | ForJoin => ao_pending ao = AO_COMMAND_KILL
  | Gone => False
  end.

Record running (w : waiting) (ao : audio_output D) : Prop := {
  run_open : open_inv ao;
  run_caller : caller_inv w ao;
  run_thread : ao_thread ao = true;
}.

(** What never changes: the configured format, the methods of the plugin. *)
Definition static (ao : audio_output D) : Prop :=
  audio_format_mask_valid (ao_config_audio_format ao) = true /\ (ao_has_disable ao = true -> ao_has_enable ao = true).

Definition out_inv (cs : client_state D) : Prop :=
  let '(w, (l, ao)) := cs in
  static ao /\
  match l with
  | NotStarted =>
      w = Gone \/
      (w = Idle /\ ao_thread ao = false /\ ao_open ao = false /\ ao_pending ao = AO_COMMAND_NONE /\ ao_allow_play ao = true /\
       ao_pause ao = false /\ (ao_has_disable ao = true -> ao_really_enabled ao = false))
  | Dead | Finished Exit => w = ForJoin /\ ao_open ao = false /\ ao_pending ao = AO_COMMAND_NONE /\ ao_fail_timer ao = false
  | _ => running w ao /\ command_inv l ao /\ loc_inv l ao
  end.

(** ** Steps of the thread *)

Definition goes (w : waiting) (m : res (state D)) : Prop := exists s, m = Ok s /\ out_inv (w, s).

Ltac unfold_inv := unfold static, open_inv, command_inv, loc_inv, caller_inv, ready, playing, reopening, async, is_null, no_command in *.
Ltac arrive := eexists; split; [reflexivity|]; split; [done|]; try (split; [split|split]); unfold_inv; cbn in *.

Lemma no_command_false (ao : audio_output D) : ao_pending ao <> AO_COMMAND_NONE -> no_command ao = false.
Proof. unfold no_command. by destruct (ao_pending ao). Qed.

Lemma no_command_true (ao : audio_output D) : ao_pending ao = AO_COMMAND_NONE -> no_command ao = true.
Proof. unfold no_command. by intros ->. Qed.

(** A command has been executed. *)
Lemma finished_goes w (ao : audio_output D) k :
  static ao -> running w ao -> ao_pending ao <> AO_COMMAND_NONE ->
  match k with
  | Break | Continue => ao_pending ao <> AO_COMMAND_KILL /\ ao_pause ao = false
  | PauseLoop => ao_open ao = true /\ ao_pending ao <> AO_COMMAND_KILL
  | Exit => ao_pending ao = AO_COMMAND_KILL /\ ao_open ao = false /\ ao_fail_timer ao = false
  end -> goes w (finished k ao).
Proof.
  intros Hst [Ho Hw Ht] Hp Hk. unfold finished. rewrite no_command_false by done. cbn [negb assert mbind res_bind].
  eexists. split; [reflexivity|]. split; [done|]. unfold_inv. destruct ao. cbn in *. destruct k.
  - split; [|naive_solver]. split; [done| |done]. destruct w; naive_solver.
  - split; [|naive_solver]. split; [done| |done]. destruct w; naive_solver.
  - split; [|naive_solver]. split; [done| |done]. destruct w; naive_solver.
  - destruct w; naive_solver.
Qed.

(** The device is closed. *)
Lemma start_close_goes w (ao : audio_output D) drain k :
  static ao -> running w ao -> ao_open ao = true ->
  match k with
  | ByCommand => ao_pending ao = AO_COMMAND_CLOSE /\ ao_pause ao = false
  | ByDisable => ao_pending ao = AO_COMMAND_DISABLE /\ ao_pause ao = false
  | ByReopen pipe => ao_pending ao = AO_COMMAND_REOPEN /\ is_Some pipe /\ ao_pause ao = false
  | ByFilter | ByPlay => ao_pending ao = AO_COMMAND_NONE /\ ao_pause ao = false
  | ByPause => ao_pending ao = AO_COMMAND_NONE
  end -> goes w (start_close drain k ao).
Proof.
  intros Hst [Ho Hw Ht] Hopen Hk. unfold start_close. rewrite Hopen. cbn [assert mbind res_bind].
  eexists. split; [reflexivity|]. split; [done|]. destruct (Ho Hopen) as (Hr & _ & Hf).
  split; [by split|]. unfold_inv. destruct ao. cbn in *.
  destruct k; destruct_and?; subst; cbn; (split; [naive_solver|]); naive_solver.
Qed.

(** *** Commands *)

Lemma enable_goes w (ao : audio_output D) :
  static ao -> running w ao -> ao_pending ao = AO_COMMAND_ENABLE -> ao_pause ao = false -> goes w (enable false ao).
Proof.
  intros Hst Hrun Hp Hpause. unfold enable, after_enable. destruct (ao_really_enabled ao).
  - apply finished_goes; [done|done|by rewrite Hp|by rewrite Hp].
  - eexists. split; [reflexivity|]. split; [done|]. split; [done|]. unfold_inv. by rewrite Hp.
Qed.

Lemma disable_rest_goes w (ao : audio_output D) :
  static ao -> running w ao -> ao_pending ao = AO_COMMAND_DISABLE -> ao_open ao = false -> ao_pause ao = false ->
  goes w (disable_rest ao).
Proof.
  intros Hst Hrun Hp Hopen Hpause. unfold disable_rest. destruct (ao_really_enabled ao).
  - eexists. split; [reflexivity|]. destruct Hrun as [Ho Hw Ht]. split; [done|]. unfold_inv. destruct ao. cbn in *. subst.
    split; [by split|]. done.
  - apply finished_goes; [done|done|by rewrite Hp|by rewrite Hp].
Qed.

Lemma running_timer w (ao : audio_output D) : running w ao -> running w (set_fail_timer false ao).
Proof.
  intros [Ho Hw Ht]. split; [|done|done]. unfold_inv. destruct ao. cbn in *. intros H. destruct (Ho H) as (? & ? & _). done.
Qed.

Lemma open_goes w (ao : audio_output D) :
  static ao -> running w ao -> ao_pending ao = AO_COMMAND_OPEN \/ ao_pending ao = AO_COMMAND_REOPEN ->
  ready ao -> ao_open ao = false -> is_Some (ao_pipe ao) -> ao_chunk ao = None -> ao_pause ao = false ->
  goes w (open_ ao).
Proof.
  intros Hst Hrun Hp [Hr Hv] Hopen [pipe Hpipe] Hc Hpause. unfold open_. rewrite Hopen, Hpipe, Hc, Hv.
  cbn [is_null negb assert mbind res_bind]. unfold enable. cbn [ao_really_enabled set_fail_timer]. rewrite Hr.
  cbn [after_enable open_enabled]. change (1 =? 0) with false. cbv iota.
  eexists. split; [reflexivity|]. split; [done|]. split; [by apply running_timer|]. unfold_inv. destruct ao. cbn in *. subst.
  destruct Hp; subst; naive_solver.
Qed.

Lemma reopen_rest_goes w (ao : audio_output D) :
  static ao -> running w ao -> ao_pending ao = AO_COMMAND_REOPEN -> ready ao -> ao_chunk ao = None -> is_Some (ao_pipe ao) ->
  ao_pause ao = false -> goes w (reopen_rest ao).
Proof.
  intros Hst Hrun Hp Hr Hc Hpipe Hpause. unfold reopen_rest. destruct (ao_open ao) eqn:Hopen.
  - eexists. split; [reflexivity|]. split; [done|]. split; [done|]. unfold_inv. rewrite Hp. destruct Hr. auto 10.
  - apply open_goes; auto.
Qed.

Lemma reopen_format_goes w (ao : audio_output D) :
  static ao -> running w ao -> ao_pending ao = AO_COMMAND_REOPEN -> ready ao -> ao_chunk ao = None -> is_Some (ao_pipe ao) ->
  ao_pause ao = false -> goes w (reopen_format ao).
Proof.
  intros Hst Hrun Hp Hr Hc Hpipe Hpause. unfold reopen_format.
  destruct (audio_format_mask_apply_ok _ _ (proj2 Hr) (proj1 Hst)) as (out & -> & _). cbn [mbind res_bind].
  destruct Hrun as [Ho Hw Ht]. apply reopen_rest_goes; destruct ao; [done|by split|done|done|done|done|done].
Qed.

(** A command that waits while the thread looks for one. *)
Definition waits (ao : audio_output D) : Prop := command_inv Waiting ao.

Lemma reopen_goes w (ao : audio_output D) :
  static ao -> running w ao -> ao_pending ao = AO_COMMAND_REOPEN -> waits ao -> ao_pause ao = false -> goes w (reopen ao).
Proof.
  intros Hst Hrun Hp Hc Hpause. unfold waits, command_inv in Hc. rewrite Hp in Hc. destruct Hc as (Hr & Hc & [Hopen|[]]).
  pose proof (run_open _ _ Hrun Hopen) as (_ & Hpipe & _). unfold reopen. rewrite Hopen. destruct (negb _).
  - by apply start_close_goes.
  - by apply reopen_rest_goes.
Qed.

Lemma dispatch_goes w (ao : audio_output D) :
  static ao -> running w ao -> waits ao -> ao_pause ao = false -> goes w (dispatch ao).
Proof.
  intros Hst Hrun Hc Hpause. unfold dispatch. pose proof Hrun as [Ho Hw Ht]. pose proof Hc as Hc'.
  unfold waits, command_inv in Hc'. destruct (ao_pending ao) eqn:Hp.
  - eexists. split; [reflexivity|]. split; [done|]. split; [done|]. unfold_inv. by rewrite Hp.
  - by apply enable_goes.
  - unfold disable. destruct (ao_open ao) eqn:Hopen; [by apply start_close_goes|by apply disable_rest_goes].
  - destruct Hc' as (Hr & Hopen & Hpipe & Hch). apply open_goes; auto.
  - by apply reopen_goes.
  - destruct Hc' as [Hopen|[]]. destruct (Ho Hopen) as (_ & [pipe Hpipe] & _). rewrite Hopen, Hpipe.
    cbn [is_null negb assert mbind res_bind]. by apply start_close_goes.
  - rewrite Hc'. cbn [negb]. eexists. split; [reflexivity|]. split; [done|]. split; [done|]. unfold_inv. by rewrite Hp.
  - destruct Hc' as [Hopen Hch]. rewrite Hopen, Hch. cbn [is_null assert mbind res_bind].
    eexists. split; [reflexivity|]. split; [done|]. split; [done|]. unfold_inv. by rewrite Hp.
  - cbv zeta. assert (E : ao_open (set_chunk None ao) = true) by (by destruct ao). rewrite E.
    eexists. split; [reflexivity|]. split; [by destruct ao|]. split; [by split; destruct ao|]. unfold_inv. destruct ao. cbn in *. by subst.
  - destruct Hc' as [Hopen Hf]. apply finished_goes; [by destruct ao|by split; destruct ao| |]; destruct ao; cbn in *; by subst.
Qed.

(** A command does not have to be looked at again when the thread goes on. *)
Lemma waits_in l (ao : audio_output D) : waits ao -> command_inv l ao.
Proof.
  unfold waits, command_inv. destruct (ao_pending ao); try done.
  - intros (? & ? & [?|[]]). auto.
  - intros [?|[]]. by left.
Qed.

Lemma task_body_goes w (ao : audio_output D) :
  static ao -> running w ao -> waits ao -> ao_pause ao = false -> goes w (task_body ao).
Proof.
  intros Hst Hrun Hc Hpause. unfold task_body. destruct (ao_open ao) eqn:Hopen; [|by apply dispatch_goes].
  destruct (ao_allow_play ao); [|by apply dispatch_goes].
  destruct (run_open _ _ Hrun Hopen) as (_ & [pipe Hpipe] & _). rewrite Hpipe. cbn [is_null negb assert mbind res_bind andb].
  eexists. split; [reflexivity|]. split; [done|]. split; [done|]. split; [by apply waits_in|done].
Qed.

Lemma task_loop_goes w (ao : audio_output D) :
  static ao -> running w ao -> waits ao -> ao_pause ao = false -> goes w (task_loop ao).
Proof.
  intros Hst Hrun Hc Hpause. unfold task_loop. destruct (no_command ao); [by apply task_body_goes|by apply dispatch_goes].
Qed.

(** *** Playing *)

Lemma play_end_goes w (ao : audio_output D) :
  static ao -> running w ao -> waits ao -> ao_pause ao = false -> goes w (play_end ao).
Proof.
  intros Hst [Ho Hw Ht] Hc Hpause. unfold play_end. eexists. split; [reflexivity|]. split; [by destruct ao|].
  split; [by split; destruct ao|]. unfold waits in Hc. destruct ao. cbn in *. by split.
Qed.

Lemma play_loop_goes w (ao : audio_output D) chunk :
  static ao -> running w ao -> waits ao -> ao_open ao = true -> ao_pause ao = false -> ao_chunk_finished ao = false ->
  goes w (play_loop chunk ao).
Proof.
  intros Hst Hrun Hc Hopen Hpause Hcf. unfold play_loop. destruct chunk as [c|]; [|by apply play_end_goes].
  destruct (no_command ao) eqn:Hn; [|by apply play_end_goes]. rewrite Hcf. cbn [negb assert mbind res_bind].
  destruct Hrun as [Ho Hw Ht]. eexists. split; [reflexivity|]. split; [by destruct ao|]. split; [by split; destruct ao|].
  unfold_inv. destruct ao. cbn in *. destruct ao_pending; done.
Qed.

Lemma chunk_played_goes w (ao : audio_output D) c :
  static ao -> running w ao -> waits ao -> playing c ao -> goes w (chunk_played c ao).
Proof.
  intros Hst Hrun Hc Hp. unfold chunk_played. pose proof Hp as (_ & Hch & _). rewrite Hch, bool_decide_true by done.
  cbn [assert mbind res_bind]. eexists. split; [reflexivity|]. split; [done|]. split; [done|]. split; [by apply waits_in|done].
Qed.

Lemma play_bytes_goes w (ao : audio_output D) c size :
  static ao -> running w ao -> waits ao -> playing c ao -> goes w (play_bytes c size ao).
Proof.
  intros Hst Hrun Hc Hp. unfold play_bytes. destruct (_ && _); [|by apply chunk_played_goes].
  eexists. split; [reflexivity|]. split; [done|]. split; [done|]. split; [by apply waits_in|done].
Qed.

Lemma pause_end_goes w (ao : audio_output D) :
  static ao -> running w ao -> waits ao -> goes w (pause_end ao).
Proof.
  intros Hst [Ho Hw Ht] Hc. unfold pause_end. apply task_loop_goes; [by destruct ao|by split; destruct ao|by destruct ao|done].
Qed.

(** The timer starts. *)
Lemma failed_running w (ao : audio_output D) :
  running w ao -> ao_open ao = false -> running w (set_fail_timer true ao).
Proof. intros [Ho Hw Ht] Hopen. split; [|by destruct ao..]. unfold_inv. destruct ao. cbn in *. by subst. Qed.

Lemma play_failed_goes w l (ao : audio_output D) :
  static ao -> running w ao -> command_inv l ao -> ~ reopening l -> match l with Closing _ ByCommand => False | _ => True end ->
  ao_open ao = false -> ao_chunk ao = None -> ao_pending ao <> AO_COMMAND_KILL -> ao_pause ao = false ->
  goes w (play_failed (set_fail_timer true ao)).
Proof.
  intros Hst Hrun Hc Hl Hl2 Hopen Hch Hk Hpause. pose proof (failed_running _ _ Hrun Hopen) as Hrun'. unfold play_failed.
  assert (E : is_null (ao_chunk (set_fail_timer true ao)) = true) by (destruct ao; cbn in *; by subst). rewrite E.
  apply play_end_goes; [by destruct ao|done| |by destruct ao]. unfold waits, command_inv in *. destruct ao. cbn in *. subst.
  destruct ao_pending; try done.
  - destruct Hc as (? & ? & [?|?]); [done|done].
  - destruct Hc as [?|?]; [done|]. destruct l; try done. by destruct k.
Qed.

Lemma after_closing_goes w (ao : audio_output D) drain k :
  static ao -> running w ao -> command_inv (Closing drain k) ao -> loc_inv (Closing drain k) ao -> goes w (after_closing k ao).
Proof.
  intros Hst Hrun Hc (Hopen & Hf & Hk). destruct k; cbn [after_closing]; destruct_and?.
  - apply finished_goes; [done|done|by rewrite H|by rewrite H].
  - by apply disable_rest_goes.
  - unfold command_inv in Hc. rewrite H in Hc. destruct Hc as (Hr & Hch & _). destruct Hrun as [Ho Hw Ht].
    by apply reopen_format_goes; destruct ao.
  - by apply (play_failed_goes w (Closing drain ByFilter)); first [done|intros []].
  - rewrite Hf. cbn [negb assert mbind res_bind]. by apply (play_failed_goes w (Closing drain ByPlay)); first [done|intros []].
  - apply pause_end_goes; [done|done|]. unfold waits, command_inv in *. destruct (ao_pending ao); try done.
Qed.

Lemma after_finished_goes w (ao : audio_output D) k :
  static ao -> k <> Exit -> running w ao -> command_inv (Finished k) ao -> loc_inv (Finished k) ao -> goes w (after_finished k ao).
Proof.
  intros Hst Hk Hrun Hc Hl. destruct k; cbn [after_finished]; [by apply task_body_goes|by apply task_loop_goes| |done].
  eexists. split; [reflexivity|]. done.
Qed.

Lemma filter_opened_goes w (ao : audio_output D) a :
  static ao -> running w ao -> command_inv FilterOpening ao -> loc_inv FilterOpening ao -> answer_ok FilterOpening ao a ->
  goes w (resume FilterOpening a ao).
Proof.
  intros Hst Hrun Hc (Hp & Hopen & Hpipe & Hpause & Hf) Ha. cbn [resume answer_ok] in *; unfold filter_opened.
  assert (ao_pending ao <> AO_COMMAND_NONE /\ ao_pending ao <> AO_COMMAND_KILL) as [Hn1 Hn2] by (destruct Hp as [-> | ->]; done).
  destruct (a_format a) as [f|].
  - rewrite Ha. destruct (audio_format_mask_apply_ok f _ Ha (proj1 Hst)) as (out & -> & _). cbn [assert mbind res_bind].
    destruct Hrun as [Ho Hw Ht]. eexists. split; [reflexivity|]. split; [by destruct ao|]. split; [by split; destruct ao|].
    split; [|by destruct ao]. unfold command_inv in *. destruct ao. cbn in *. by destruct Hp; subst.
  - apply finished_goes; [by destruct ao|by apply failed_running|by destruct ao|by destruct ao].
Qed.

Lemma opened_goes w (ao : audio_output D) a :
  static ao -> running w ao -> command_inv Opening ao -> loc_inv Opening ao -> goes w (resume Opening a ao).
Proof.
  intros Hst Hrun Hc (Hp & Hopen & Hpipe & Hpause & Hf). cbn [resume]; unfold device_opened. rewrite Hopen. cbn [negb assert mbind res_bind].
  set (ao1 := match a_format a with Some out => set_out_audio_format out ao | None => ao end).
  assert (H1 : static ao1 /\ running w ao1 /\ ready ao1 /\ ao_fail_timer ao1 = ao_fail_timer ao /\ ao_pending ao1 = ao_pending ao /\
    ao_open ao1 = false /\ is_Some (ao_pipe ao1) /\ ao_pause ao1 = false).
  { assert (ready ao) by (unfold command_inv in Hc; destruct Hp as [E|E]; rewrite E in Hc; by destruct Hc).
    destruct Hrun as [Ho Hw Ht]. unfold ao1. destruct (a_format a); [|done]. destruct ao. split_and!; try done. }
  destruct H1 as (Hst1 & Hrun1 & Hr & Hf1 & Hpe & Ho1 & Hpi & Hpa). clearbody ao1.
  assert (ao_pending ao1 <> AO_COMMAND_NONE /\ ao_pending ao1 <> AO_COMMAND_KILL) as [Hn1 Hn2] by (rewrite Hpe; destruct Hp as [-> | ->]; done).
  destruct (a_code a =? success).
  - apply finished_goes; [by destruct ao1| |by destruct ao1|by destruct ao1].
    destruct Hrun1 as [Ho Hw Ht]. split; [|by destruct ao1..]. unfold_inv. destruct ao1. cbn in *. intros _. by rewrite Hf1.
  - apply finished_goes; [by destruct ao1|by apply failed_running|by destruct ao1|by destruct ao1].
Qed.

(** The same place or another one that asks no more of the output. *)
Lemma stays_goes w l (ao : audio_output D) :
  static ao -> running w ao -> command_inv l ao -> loc_inv l ao -> match l with NotStarted | Dead | Finished Exit => False | _ => True end ->
  goes w (Ok (l, ao)).
Proof. intros Hst Hrun Hc Hl Hne. eexists. split; [reflexivity|]. split; [done|]. by destruct l as [| | | | | | | | | |[]| | | | | | | | | | | | | | | | |]. Qed.

Lemma command_waits l (ao : audio_output D) :
  command_inv l ao -> ~ reopening l -> closing l = false -> waits ao.
Proof.
  unfold waits, command_inv. intros Hc Hr Hcl. destruct (ao_pending ao); try done.
  - destruct Hc as (? & ? & [?|?]); [by auto|done].
  - destruct Hc as [?|?]; [by left|]. by destruct l.
Qed.

(** *** All steps *)

(** The filters are open again, or not. *)
Lemma filter_reopened_goes w (ao : audio_output D) a :
  static ao -> running w ao -> command_inv FilterReopening ao -> loc_inv FilterReopening ao ->
  goes w (resume FilterReopening a ao).
Proof.
  intros Hst Hrun Hc (Hp & Hopen & Hpause). cbn [resume]; unfold filter_reopened. destruct (a_format a).
  - apply finished_goes; [done|done|by rewrite Hp|by rewrite Hp].
  - destruct Hrun as [Ho Hw Ht]. eexists. split; [reflexivity|]. unfold command_inv in Hc. rewrite Hp in Hc.
    destruct Hc as (Hr & Hch & _). split; [by destruct ao|]. unfold_inv. destruct ao. cbn in *. subst. split; [by split|]. split; [|done].
    split_and!; [by destruct Hr|by destruct Hr|done|by right].
Qed.

Lemma pipe_next_goes w (ao : audio_output D) a :
  static ao -> running w ao -> waits ao -> loc_inv PipeNext ao -> goes w (resume PipeNext a ao).
Proof.
  intros Hst Hrun Hw [Hopen Hpause]. cbn [resume]. destruct (a_chunk a) as [c|]; [|by apply dispatch_goes].
  destruct Hrun as [Ho Hcw Ht]. by apply play_loop_goes; destruct ao.
Qed.

Lemma filtered_goes w (ao : audio_output D) a c :
  static ao -> running w ao -> waits ao -> playing c ao -> answer_ok (Filtering c) ao a -> goes w (resume (Filtering c) a ao).
Proof.
  intros Hst Hrun Hw Hp Ha. cbn [resume answer_ok] in *. destruct (a_size a) as [size|]; [by apply play_bytes_goes|].
  destruct Hp as (Hopen & _ & _ & Hpause). apply start_close_goes; auto.
Qed.

Lemma played_goes w (ao : audio_output D) a c size :
  static ao -> running w ao -> waits ao -> playing c ao -> answer_ok (Playing c size) ao a ->
  goes w (resume (Playing c size) a ao).
Proof.
  intros Hst Hrun Hw Hp (Hle & Hmod & Hfail). cbn [resume]. destruct (Z.leb_spec (a_code a) 0) as [H0|H0].
  - destruct Hp as (Hopen & _ & _ & Hpause). apply start_close_goes; auto.
  - rewrite (proj2 (Z.leb_le _ _) Hle), (proj2 (Z.eqb_eq _ _) Hmod). cbn [assert mbind res_bind]. by apply play_bytes_goes.
Qed.

Lemma paused_goes w (ao : audio_output D) a :
  static ao -> running w ao -> waits ao -> ao_open ao = true -> answer_ok Pausing ao a -> goes w (resume Pausing a ao).
Proof.
  intros Hst Hrun Hw Hopen Ha. cbn [resume answer_ok] in *. destruct (Z.eqb_spec (a_code a) 0) as [E|_].
  - apply start_close_goes; auto.
  - destruct (no_command ao); [|by apply pause_end_goes]. apply stays_goes; [done|done|by apply waits_in|done|done].
Qed.

(** Every step of the thread. *)
Lemma resume_goes w l (ao : audio_output D) a :
  out_inv (w, (l, ao)) -> runs l = true -> answer_ok l ao a -> goes w (resume l a ao).
Proof.
  intros [Hst Hi] Hruns Ha. destruct (decide (l = Finished Exit)) as [->|Hne].
  { eexists. split; [reflexivity|]. by split. }
  assert (Hi' : running w ao /\ command_inv l ao /\ loc_inv l ao) by (destruct l as [| | | | | | | | | |[]| | | | | | | | | | | | | | | | |]; done).
  destruct Hi' as (Hrun & Hc & Hl). clear Hi.
  assert (Hw : ~ reopening l -> closing l = false -> waits ao) by (by apply command_waits).
  assert (Hto : forall l', waits ao -> loc_inv l' ao -> match l' with NotStarted | Dead | Finished Exit => False | _ => True end ->
    goes w (Ok (l', ao))) by (intros l' ? ? ?; apply stays_goes; auto using waits_in).
  destruct l; cbn [runs answer_ok reopening closing] in *; try done.
  - apply task_loop_goes; auto.
  - apply task_loop_goes; auto.
  - destruct Hl as (-> & Hp & Hpause). cbn [resume enabled after_enable]. destruct Hrun as [Ho Hcw Ht].
    apply finished_goes; destruct (_ =? _); destruct ao; cbn in *; try done; try (by split); try (by rewrite Hp).
    split; [|done..]. intros E. destruct (Ho E) as ((? & ?) & ? & ?). by split_and!.
  - destruct Hl as (Hp & Hopen & Hpause). cbn [resume]. apply finished_goes; [done|done|by rewrite Hp|by rewrite Hp].
  - by apply filter_opened_goes.
  - by apply opened_goes.
  - by apply (after_closing_goes w ao drain).
  - by apply filter_reopened_goes.
  - destruct Hl as (Hp & _ & Hpause). apply finished_goes; [done|done|by rewrite Hp|by rewrite Hp].
  - apply after_finished_goes; try done. by intros ->.
  - apply pipe_next_goes; auto.
  - cbn [resume]. destruct (_ =? 0); apply Hto; auto.
  - cbn [resume]. apply Hto; auto.
  - apply filtered_goes; auto.
  - cbn [resume]. destruct (_ =? 0); apply Hto; auto.
  - cbn [resume]. destruct (no_command ao); [apply Hto; auto|apply chunk_played_goes; auto].
  - apply played_goes; auto.
  - destruct Hl as (Hopen & Hch & Hcf & Hpause). cbn [resume]. apply play_loop_goes; auto.
  - cbn [resume]. apply task_loop_goes; auto.
  - destruct Hl as (Hp & Hpause). cbn [resume]. destruct Hrun as [Ho Hcw Ht]. unfold command_inv in Hc. rewrite Hp in Hc.
    apply finished_goes; destruct ao; cbn in *; [done|by split|by subst|by subst].
  - cbn [resume]. destruct (_ =? 0); apply Hto; auto.
  - cbn [resume]. destruct (no_command ao); [apply Hto; auto|apply pause_end_goes; auto].
  - apply paused_goes; auto.
  - destruct Hl as (Hp & Hpause). cbn [resume]. rewrite Ha. apply Hto; [by auto|done|done].
  - destruct Hl as (Hp & Hpause). apply finished_goes; [done|done|by rewrite Hp|by rewrite Hp].
  - destruct Hl as (Hp & Hpause). apply finished_goes; [done|done|by rewrite Hp|by rewrite Hp].
Qed.

(** ** Steps of the player thread *)

Definition alive (l : loc) : Prop := match l with NotStarted | Dead | Finished Exit => False | _ => True end.

(** What the caller may do to the output while no command is there. *)
Lemma caller_frame l (ao ao' : audio_output D) :
  loc_inv l ao -> ao_pending ao = AO_COMMAND_NONE -> locked l = false ->
  ao_open ao' = ao_open ao -> ao_pause ao' = ao_pause ao -> ao_chunk_finished ao' = ao_chunk_finished ao ->
  (ao_chunk ao' = ao_chunk ao \/ (in_play l = false /\ ao_chunk ao' = None)) ->
  (ao_fail_timer ao' = ao_fail_timer ao \/ ao_fail_timer ao' = false) ->
  (closing l = true -> ao_pending ao' <> AO_COMMAND_KILL) -> loc_inv l ao'.
Proof.
  intros Hl Hp Hlock E1 E2 E3 E4 E5 E6. destruct l as [| | | | | | |drain k| | |k| | | | | | | | | | | | | | | | |]; cbn in *;
    try done; try congruence; rewrite ?E1, ?E2; try (destruct_and?; congruence).
  - destruct Hl as [[?|?] _]; congruence.
  - destruct k; destruct_and?; split_and!; try congruence; try (by destruct E5; congruence); auto;
      destruct E4 as [->|[_ ->]]; done.
  - unfold playing in *. rewrite E1, E2, E3. destruct E4 as [-> | [? _]]; [done|congruence].
  - unfold playing in *. rewrite E1, E2, E3. destruct E4 as [-> | [? _]]; [done|congruence].
  - unfold playing in *. rewrite E1, E2, E3. destruct E4 as [-> | [? _]]; [done|congruence].
Qed.

(** A new state of the system, from the caller's side. *)
Lemma alive_inv w l (ao : audio_output D) :
  alive l -> static ao -> running w ao -> command_inv l ao -> loc_inv l ao -> out_inv (w, (l, ao)).
Proof. intros Ha Hst Hrun Hc Hl. split; [done|]. by destruct l as [| | | | | | | | | |[]| | | | | | | | | | | | | | | | |]. Qed.

Definition performs (m : res (client_state D)) : Prop := exists cs, m = Ok cs /\ out_inv cs.

(** The thread runs, and no command is there. *)
Record quiet (l : loc) (ao : audio_output D) : Prop := {
  q_alive : alive l;
  q_static : static ao;
  q_running : running Idle ao;
  q_loc : loc_inv l ao;
  q_unlocked : locked l = false;
}.

Lemma quiet_none l (ao : audio_output D) : quiet l ao -> ao_pending ao = AO_COMMAND_NONE /\ ao_allow_play ao = true.
Proof. by intros [_ _ [_ H _] _ _]. Qed.

Lemma quiet_inv l (ao : audio_output D) : quiet l ao -> out_inv (Idle, (l, ao)).
Proof.
  intros Hq. destruct (quiet_none _ _ Hq) as [Hp _]. destruct Hq as [Ha Hst Hrun Hl _]. apply alive_inv; try done.
  unfold command_inv. by rewrite Hp.
Qed.

(** A command is given. *)
Lemma command_given l w (ao : audio_output D) c :
  quiet l ao -> c <> AO_COMMAND_NONE ->
  match c with
  | AO_COMMAND_OPEN => ready ao /\ ao_open ao = false /\ is_Some (ao_pipe ao) /\ ao_chunk ao = None
  | AO_COMMAND_REOPEN => ready ao /\ ao_chunk ao = None /\ ao_open ao = true
  | AO_COMMAND_CLOSE | AO_COMMAND_PAUSE | AO_COMMAND_CANCEL => ao_open ao = true
  | AO_COMMAND_DRAIN => ao_open ao = true /\ ao_chunk ao = None
  | AO_COMMAND_KILL => ao_open ao = false /\ ao_fail_timer ao = false /\ closing l = false
  | _ => True
  end ->
  match w with
  | ForCommand | ForOpen => c <> AO_COMMAND_KILL
  | ForAll b => b = false /\ async c
  | ForJoin => c = AO_COMMAND_KILL
  | _ => False
  end -> ao_command_async c ao = Ok (set_command c ao) /\ out_inv (w, (l, set_command c ao)).
Proof.
  intros Hq Hc Hpre Hw. destruct (quiet_none _ _ Hq) as [Hp Hallow]. destruct Hq as [Ha Hst [Ho Hcw Ht] Hl Hlock].
  split. { unfold ao_command_async. by rewrite no_command_true. }
  apply alive_inv; [done|by destruct ao| | |].
  - split; [by destruct ao| |by destruct ao]. destruct w; destruct ao; cbn in *; try done. by destruct Hw; subst.
  - unfold command_inv. destruct ao. cbn in *. destruct c; try done; destruct_and?; auto.
  - eapply caller_frame; [exact Hl|done|done|by destruct ao..| | |]; destruct ao; cbn; auto. destruct c; try done. intros. destruct_and?. congruence.
Qed.

Lemma quiet_timer l (ao : audio_output D) : quiet l ao -> quiet l (set_fail_timer false ao).
Proof.
  intros [Ha Hst Hrun Hl Hlock]. pose proof (proj1 (run_caller _ _ Hrun)). split; [done|by destruct ao|by apply running_timer| |done].
  eapply caller_frame; [exact Hl|done|done|by destruct ao..| | |]; destruct ao; cbn in *; auto. intros _. congruence.
Qed.

Lemma quiet_mixer l m (ao : audio_output D) : quiet l ao -> quiet l (set_mixer m ao).
Proof.
  intros [Ha Hst [Ho Hw Ht] Hl Hlock]. split; [done|by destruct ao|by split; destruct ao| |done].
  destruct Hw. eapply caller_frame; [exact Hl|done|done|by destruct ao..| | |]; destruct ao; cbn in *; auto. intros _. congruence.
Qed.

Lemma quiet_closed_mixer l (ao : audio_output D) :
  quiet l ao -> exists ao', auto_close_mixer ao = Ok ao' /\ quiet l ao' /\ ao_open ao' = ao_open ao /\
    ao_fail_timer ao' = ao_fail_timer ao /\ ao_allow_play ao' = ao_allow_play ao.
Proof.
  intros Hq. unfold auto_close_mixer. destruct (ao_mixer ao) as [m|]; [|by exists ao].
  destruct (mixer_auto_close_ok m) as (m' & -> & _). cbn [mbind res_bind]. eexists. split; [done|].
  split; [by apply quiet_mixer|]. by destruct ao.
Qed.

(** An output whose thread has not been started. *)
Record fresh (ao : audio_output D) : Prop := {
  fr_static : static ao;
  fr_thread : ao_thread ao = false;
  fr_open : ao_open ao = false;
  fr_none : ao_pending ao = AO_COMMAND_NONE;
  fr_allow : ao_allow_play ao = true;
  fr_pause : ao_pause ao = false;
  fr_really : ao_has_disable ao = true -> ao_really_enabled ao = false;
}.

Lemma fresh_inv (ao : audio_output D) : fresh ao -> out_inv (Idle, (NotStarted, ao)).
Proof. intros [? ? ? ? ? ? ?]. split; [done|]. right. by split_and!. Qed.

Lemma fresh_mixer m (ao : audio_output D) : fresh ao -> fresh (set_mixer m ao).
Proof. intros [? ? ? ? ? ? ?]. by split; destruct ao. Qed.

Lemma fresh_closed_mixer (ao : audio_output D) :
  fresh ao -> exists ao', auto_close_mixer ao = Ok ao' /\ fresh ao'.
Proof.
  intros Hf. unfold auto_close_mixer. destruct (ao_mixer ao) as [m|]; [|by exists ao].
  destruct (mixer_auto_close_ok m) as (m' & -> & _). cbn [mbind res_bind]. eexists. split; [done|by apply fresh_mixer].
Qed.

Lemma fresh_started (ao : audio_output D) :
  fresh ao -> audio_output_thread_start (NotStarted, ao) = Ok (Starting, set_thread true ao) /\ quiet Starting (set_thread true ao).
Proof.
  intros [Hst Ht Ho Hn Ha Hp Hr]. unfold audio_output_thread_start. cbn [fst snd]. rewrite no_command_true by done.
  split; [done|]. split; [done|by destruct ao| |by destruct ao|done].
  split; [|by destruct ao..]. unfold_inv. destruct ao. cbn in *. by subst.
Qed.

(** *** Operations *)

Lemma enable_performs l (ao : audio_output D) : quiet l ao -> performs (audio_output_enable (l, ao)).
Proof.
  intros Hq. unfold audio_output_enable. rewrite (run_thread _ _ (q_running _ _ Hq)). cbn [negb andb mbind res_bind].
  destruct (command_given l ForCommand ao AO_COMMAND_ENABLE Hq) as [E Hi]; [done..|]. cbn [fst snd]. rewrite E. by eexists.
Qed.

Lemma enable_fresh (ao : audio_output D) : fresh ao -> performs (audio_output_enable (NotStarted, ao)).
Proof.
  intros Hf. unfold audio_output_enable. rewrite (fr_thread _ Hf). cbn [negb andb]. destruct (ao_has_enable ao) eqn:He; cbn [negb].
  - destruct (fresh_started ao Hf) as [E Hq]. rewrite E. cbn [mbind res_bind fst snd].
    destruct (command_given Starting ForCommand _ AO_COMMAND_ENABLE Hq) as [E2 Hi]; [done..|]. rewrite E2. by eexists.
  - eexists. split; [reflexivity|]. apply fresh_inv. destruct Hf as [[Hm Hd] ? ? ? ? ? ?]. split; try by destruct ao.
    destruct ao. cbn in *. intros H. rewrite (Hd H) in He. done.
Qed.

Lemma disable_performs l (ao : audio_output D) : quiet l ao -> performs (audio_output_disable (l, ao)).
Proof.
  intros Hq. unfold audio_output_disable. rewrite (run_thread _ _ (q_running _ _ Hq)). cbn [negb].
  destruct (command_given l ForCommand ao AO_COMMAND_DISABLE Hq) as [E Hi]; [done..|]. rewrite E. by eexists.
Qed.

Lemma disable_fresh (ao : audio_output D) : fresh ao -> performs (audio_output_disable (NotStarted, ao)).
Proof.
  intros Hf. unfold audio_output_disable. rewrite (fr_thread _ Hf). cbn [negb]. destruct (ao_has_disable ao) eqn:He; cbn [negb].
  - rewrite (fr_really _ Hf He). eexists. split; [reflexivity|]. by apply fresh_inv.
  - eexists. split; [reflexivity|]. apply fresh_inv. destruct Hf as [? ? ? ? ? ? ?]. by split; destruct ao.
Qed.

Lemma quiet_ready l (ao : audio_output D) : quiet l ao -> ao_open ao = true -> ready ao /\ is_Some (ao_pipe ao) /\ ao_fail_timer ao = false.
Proof. intros Hq. apply (run_open _ _ (q_running _ _ Hq)). Qed.

(** A new pipe, when no chunk is in use. *)
Lemma quiet_pipe l (ao : audio_output D) mp :
  quiet l ao -> in_play l = false -> quiet l (set_pipe (Some mp) (set_chunk None ao)).
Proof.
  intros [Ha Hst [Ho Hw Ht] Hl Hlock] Hin. split; [done|by destruct ao| | |done].
  - split; [|by destruct ao..]. unfold_inv. destruct ao. cbn in *. intros E. destruct (Ho E) as ((? & ?) & ? & ?). by split_and!; [..|eexists|].
  - destruct Hw. eapply caller_frame; [exact Hl|done|done|by destruct ao..| | |]; destruct ao; cbn in *; auto. intros _. congruence.
Qed.

Lemma quiet_format l f (ao : audio_output D) :
  quiet l ao -> audio_format_valid f = true -> quiet l (set_in_audio_format f ao).
Proof.
  intros [Ha Hst [Ho Hw Ht] Hl Hlock] Hin. split; [done|by destruct ao| | |done].
  - split; [|by destruct ao..]. unfold_inv. destruct ao. cbn in *. intros E. destruct (Ho E) as ((? & ?) & ? & ?). by split_and!.
  - destruct Hw. eapply caller_frame; [exact Hl|done|done|by destruct ao..| | |]; destruct ao; cbn in *; auto. intros _. congruence.
Qed.

(** While the thread has a chunk, the output is not paused. *)
Lemma pause_not_in_play l (ao : audio_output D) : loc_inv l ao -> ao_pause ao = true -> in_play l = false.
Proof. intros Hl Hp. destruct l; try done; destruct Hl as (_ & _ & _ & ?); congruence. Qed.

(** An output that is closed has nothing in its hands. *)
Lemma closed_not_in_play l (ao : audio_output D) : loc_inv l ao -> ao_open ao = false -> in_play l = false.
Proof. intros Hl Hp. destruct l; try done; destruct Hl as (? & _); congruence. Qed.

(** The command that opens the output, or opens it again. *)
Lemma open_given l (ao : audio_output D) f mp :
  quiet l ao -> audio_format_valid f = true -> ao_really_enabled ao = true -> in_play l = false ->
  let ao' := set_pipe (Some mp) (set_chunk None (set_in_audio_format f ao)) in
  performs (ao ← ao_command_async (if ao_open ao' then AO_COMMAND_REOPEN else AO_COMMAND_OPEN) ao'; Ok (ForOpen, (l, ao))).
Proof.
  intros Hq Hv Hr Hin ao'. assert (Hq' : quiet l ao') by (by apply quiet_pipe; [apply quiet_format|]).
  assert (H : ready ao' /\ is_Some (ao_pipe ao') /\ ao_chunk ao' = None) by (unfold ready, ao'; by destruct ao).
  clearbody ao'. destruct H as (H1 & H2 & H3). destruct (ao_open ao') eqn:Ho.
  - destruct (command_given l ForOpen ao' AO_COMMAND_REOPEN Hq') as [E Hi]; [done..|]. rewrite E. by eexists.
  - destruct (command_given l ForOpen ao' AO_COMMAND_OPEN Hq') as [E Hi]; [done..|]. rewrite E. by eexists.
Qed.

Lemma audio_output_open_performs l (ao : audio_output D) f mp :
  quiet l ao -> audio_format_valid f = true -> ao_really_enabled ao = true ->
  (ao_open ao = true ->
   if audio_format_equals f (ao_in_audio_format ao)
   then ao_pipe ao = Some mp \/ (ao_always_on ao = true /\ ao_pause ao = true) else in_play l = false) ->
  performs (audio_output_open f mp (l, ao)).
Proof.
  intros Hq Hv Hr Hok. unfold audio_output_open. rewrite (proj2 (quiet_none _ _ Hq)), Hv. cbn [assert mbind res_bind].
  pose proof (quiet_timer _ _ Hq) as Hq'. pose proof (q_loc _ _ Hq) as Hl.
  assert (Hin : in_play l = false -> performs (s ← (if negb (ao_thread (set_pipe (Some mp) (set_chunk None (set_in_audio_format f (set_fail_timer false ao)))))
      then audio_output_thread_start (l, set_pipe (Some mp) (set_chunk None (set_in_audio_format f (set_fail_timer false ao))))
      else Ok (l, set_pipe (Some mp) (set_chunk None (set_in_audio_format f (set_fail_timer false ao)))));
      ao ← ao_command_async (if ao_open s.2 then AO_COMMAND_REOPEN else AO_COMMAND_OPEN) s.2; Ok (ForOpen, (s.1, ao)))).
  { intros Hin. replace (ao_thread _) with true by (symmetry; destruct (q_running _ _ Hq); by destruct ao).
    cbn [negb mbind res_bind fst snd]. by apply open_given; destruct ao. }
  change (ao_open (set_fail_timer false ao)) with (ao_open ao).
  change (ao_in_audio_format (set_fail_timer false ao)) with (ao_in_audio_format ao).
  destruct (ao_open ao) eqn:Ho; cbn [andb]; [|by apply Hin, (closed_not_in_play _ ao)].
  specialize (Hok eq_refl). destruct (audio_format_equals f _); [|by apply Hin].
  change (ao_pipe (set_fail_timer false ao)) with (ao_pipe ao). change (ao_always_on (set_fail_timer false ao)) with (ao_always_on ao).
  change (ao_pause (set_fail_timer false ao)) with (ao_pause ao).
  replace (bool_decide (ao_pipe ao = Some mp) || (ao_always_on ao && ao_pause ao)) with true.
  2:{ destruct Hok as [->|[-> ->]]; [by rewrite bool_decide_true|by rewrite orb_true_r]. }
  cbn [assert mbind res_bind]. destruct (ao_pause ao) eqn:Hp.
  - assert (Hq2 : quiet l (set_pipe (Some mp) (set_chunk None (set_fail_timer false ao)))) by (apply quiet_pipe; [done|by apply (pause_not_in_play _ ao)]).
    destruct (command_given l ForCommand _ AO_COMMAND_CANCEL Hq2) as [E Hi]; [done|by destruct ao|done|]. rewrite E. by eexists.
  - eexists. split; [reflexivity|]. by apply quiet_inv.
Qed.

Lemma audio_output_open_fresh (ao : audio_output D) f mp :
  fresh ao -> audio_format_valid f = true -> ao_really_enabled ao = true -> performs (audio_output_open f mp (NotStarted, ao)).
Proof.
  intros Hf Hv Hr. unfold audio_output_open. rewrite (fr_allow _ Hf), Hv. cbn [assert mbind res_bind].
  change (ao_open (set_fail_timer false ao)) with (ao_open ao). rewrite (fr_open _ Hf). cbn [andb].
  set (ao1 := set_pipe _ _). assert (Hf1 : fresh ao1) by (destruct Hf; by split; destruct ao).
  rewrite (fr_thread _ Hf1). cbn [negb]. destruct (fresh_started ao1 Hf1) as [E Hq]. rewrite E. cbn [mbind res_bind fst snd].
  assert (Ho : ao_open (set_thread true ao1) = false) by (by destruct Hf, ao). rewrite Ho.
  destruct (command_given Starting ForOpen _ AO_COMMAND_OPEN Hq) as [E2 Hi]; [done| |done|rewrite E2; by eexists].
  unfold ready, ao1. destruct ao. cbn in *. destruct Hf. by split_and!; [..|eexists|].
Qed.

Lemma close_locked_performs l (ao : audio_output D) : quiet l ao -> performs (audio_output_close_locked (l, ao)).
Proof.
  intros Hq. unfold audio_output_close_locked. rewrite (proj2 (quiet_none _ _ Hq)). cbn [assert mbind res_bind].
  destruct (quiet_closed_mixer _ _ Hq) as (ao1 & -> & Hq1 & _). cbn [mbind res_bind]. destruct (ao_open ao1) eqn:Ho.
  - destruct (quiet_ready _ _ Hq1 Ho) as (_ & _ & ->). cbn [negb orb assert mbind res_bind].
    destruct (command_given l ForCommand ao1 AO_COMMAND_CLOSE Hq1) as [E Hi]; [done..|]. rewrite E. by eexists.
  - cbn [negb orb assert mbind res_bind]. eexists. split; [reflexivity|]. by apply quiet_inv, quiet_timer.
Qed.

Lemma close_locked_fresh (ao : audio_output D) : fresh ao -> performs (audio_output_close_locked (NotStarted, ao)).
Proof.
  intros Hf. unfold audio_output_close_locked. rewrite (fr_allow _ Hf). cbn [assert mbind res_bind].
  destruct (fresh_closed_mixer _ Hf) as (ao1 & -> & Hf1). cbn [mbind res_bind]. rewrite (fr_open _ Hf1).
  cbn [negb orb assert mbind res_bind]. eexists. split; [reflexivity|]. apply fresh_inv. destruct Hf1. by split; destruct ao1.
Qed.

Lemma async_performs l (ao : audio_output D) c :
  quiet l ao -> c = AO_COMMAND_PAUSE \/ (c = AO_COMMAND_DRAIN /\ (ao_open ao = true -> ao_chunk ao = None)) ->
  performs (async_if_open c (l, ao)).
Proof.
  intros Hq Hc. unfold async_if_open. cbn [fst snd]. rewrite (proj2 (quiet_none _ _ Hq)). cbn [assert mbind res_bind].
  destruct (ao_open ao) eqn:Ho; [|eexists; split; [reflexivity|by apply quiet_inv]].
  destruct (command_given l (ForAll false) ao c Hq) as [E Hi]; [by destruct Hc as [->|[-> _]]| | |rewrite E; by eexists].
  - destruct Hc as [->|[-> ?]]; auto.
  - by destruct Hc as [->|[-> _]].
Qed.

Lemma async_fresh (ao : audio_output D) c : fresh ao -> performs (async_if_open c (NotStarted, ao)).
Proof.
  intros Hf. unfold async_if_open. cbn [fst snd]. rewrite (fr_allow _ Hf), (fr_open _ Hf). cbn [assert mbind res_bind].
  eexists. split; [reflexivity|by apply fresh_inv].
Qed.

Lemma pause_performs l (ao : audio_output D) : quiet l ao -> performs (audio_output_pause (l, ao)).
Proof.
  intros Hq. unfold audio_output_pause. destruct (ao_has_pause ao); cbn [negb mbind res_bind]; [by apply async_performs; [|left]|].
  destruct (quiet_closed_mixer _ _ Hq) as (ao1 & -> & Hq1 & _). cbn [mbind res_bind]. by apply async_performs; [|left].
Qed.

Lemma pause_fresh (ao : audio_output D) : fresh ao -> performs (audio_output_pause (NotStarted, ao)).
Proof.
  intros Hf. unfold audio_output_pause. destruct (ao_has_pause ao); cbn [negb mbind res_bind]; [by apply async_fresh|].
  destruct (fresh_closed_mixer _ Hf) as (ao1 & -> & Hf1). cbn [mbind res_bind]. by apply async_fresh.
Qed.

Lemma cancel_performs l (ao : audio_output D) : quiet l ao -> performs (audio_output_cancel (l, ao)).
Proof.
  intros Hq. unfold audio_output_cancel. destruct (ao_open ao) eqn:Ho; [|eexists; split; [reflexivity|by apply quiet_inv]].
  destruct (quiet_none _ _ Hq) as [Hp _]. unfold ao_command_async. rewrite no_command_true by (by destruct ao).
  cbn [assert mbind res_bind]. eexists. split; [reflexivity|]. destruct Hq as [Ha Hst [Hop Hw Ht] Hl Hlock].
  apply alive_inv; [done|by destruct ao|by split; destruct ao|unfold command_inv; by destruct ao|].
  eapply caller_frame; [exact Hl|done|done|by destruct ao..| | |]; destruct ao; cbn; auto.
Qed.

Lemma close_performs l (ao : audio_output D) : quiet l ao -> performs (audio_output_close (l, ao)).
Proof.
  intros Hq. unfold audio_output_close. cbn [snd]. replace (negb (ao_open ao) || negb (ao_fail_timer ao)) with true; [by apply close_locked_performs|].
  destruct (ao_open ao) eqn:Ho; [|done]. by destruct (quiet_ready _ _ Hq Ho) as (_ & _ & ->).
Qed.

Lemma close_fresh (ao : audio_output D) : fresh ao -> performs (audio_output_close (NotStarted, ao)).
Proof. intros Hf. unfold audio_output_close. cbn [snd]. rewrite (fr_open _ Hf). by apply close_locked_fresh. Qed.

Lemma kill_performs l (ao : audio_output D) :
  quiet l ao -> ao_open ao = false -> ao_fail_timer ao = false -> closing l = false -> performs (audio_output_kill (l, ao)).
Proof.
  intros Hq Ho Hf Hc. unfold audio_output_kill. rewrite Hf, (run_thread _ _ (q_running _ _ Hq)), (proj2 (quiet_none _ _ Hq)).
  cbn [negb assert mbind res_bind]. destruct (command_given l ForJoin ao AO_COMMAND_KILL Hq) as [E Hi]; [done..|]. rewrite E. by eexists.
Qed.

Lemma update_performs l (ao : audio_output D) f mp elapsed :
  quiet l ao -> op_ok (OpUpdate f mp elapsed) (l, ao) -> performs (audio_output_update f mp elapsed (l, ao)).
Proof.
  intros Hq [Hv Hok]. unfold audio_output_update. destruct (ao_enabled ao && ao_really_enabled ao) eqn:He.
  - apply andb_prop in He as [_ Hr]. destruct (_ || elapsed); [by apply audio_output_open_performs|].
    eexists. split; [reflexivity|by apply quiet_inv].
  - destruct (ao_open ao); [by apply close_locked_performs|]. eexists. split; [reflexivity|by apply quiet_inv].
Qed.

Lemma update_fresh (ao : audio_output D) f mp elapsed :
  fresh ao -> audio_format_valid f = true -> performs (audio_output_update f mp elapsed (NotStarted, ao)).
Proof.
  intros Hf Hv. unfold audio_output_update. destruct (ao_enabled ao && ao_really_enabled ao) eqn:He.
  - apply andb_prop in He as [_ Hr]. destruct (_ || elapsed); [by apply audio_output_open_fresh|].
    eexists. split; [reflexivity|by apply fresh_inv].
  - rewrite (fr_open _ Hf). eexists. split; [reflexivity|by apply fresh_inv].
Qed.

(** Every operation, with a thread and without one. *)
Lemma quiet_performs o l (ao : audio_output D) : quiet l ao -> op_ok o (l, ao) -> performs (perform o (l, ao)).
Proof.
  intros Hq Hok. destruct o; cbn [perform].
  - unfold audio_output_enable_disable. cbn [snd]. destruct (Bool.eqb _ _); [eexists; split; [reflexivity|by apply quiet_inv]|].
    destruct (ao_enabled ao); [by apply enable_performs|by apply disable_performs].
  - by apply disable_performs.
  - by apply update_performs.
  - unfold audio_output_play. cbn [snd]. rewrite (proj2 (quiet_none _ _ Hq)). eexists. split; [reflexivity|by apply quiet_inv].
  - by apply pause_performs.
  - apply async_performs; [done|by right].
  - by apply cancel_performs.
  - by apply close_performs.
  - unfold audio_output_release. cbn [snd]. destruct (ao_always_on ao); [by apply pause_performs|by apply close_performs].
  - eexists. split; [reflexivity|]. apply quiet_inv. destruct (_ && _); [by apply quiet_timer|done].
  - destruct Hok as (? & ? & ?). by apply kill_performs.
Qed.

Lemma fresh_performs o (ao : audio_output D) : fresh ao -> op_ok o (NotStarted, ao) -> performs (perform o (NotStarted, ao)).
Proof.
  intros Hf Hok. destruct o; cbn [perform].
  - unfold audio_output_enable_disable. cbn [snd]. destruct (Bool.eqb _ _); [eexists; split; [reflexivity|by apply fresh_inv]|].
    destruct (ao_enabled ao); [by apply enable_fresh|by apply disable_fresh].
  - by apply disable_fresh.
  - apply update_fresh; [done|]. by destruct Hok.
  - unfold audio_output_play. cbn [snd]. rewrite (fr_allow _ Hf). eexists. split; [reflexivity|by apply fresh_inv].
  - by apply pause_fresh.
  - by apply async_fresh.
  - unfold audio_output_cancel. rewrite (fr_open _ Hf). eexists. split; [reflexivity|by apply fresh_inv].
  - by apply close_fresh.
  - unfold audio_output_release. cbn [snd]. destruct (ao_always_on ao); [by apply pause_fresh|by apply close_fresh].
  - eexists. split; [reflexivity|]. apply fresh_inv. destruct (_ && _); [|done]. destruct Hf. by split; destruct ao.
  - unfold audio_output_kill. destruct Hok as (_ & -> & _). rewrite (fr_thread _ Hf). eexists. split; [reflexivity|by apply fresh_inv].
Qed.

Lemma idle_cases l (ao : audio_output D) :
  out_inv (Idle, (l, ao)) -> locked l = false -> quiet l ao \/ (l = NotStarted /\ fresh ao).
Proof.
  intros [Hst Hi] Hlock. destruct l as [| | | | | | | | | |[]| | | | | | | | | | | | | | | | |]; try (by destruct Hi as [? _]);
    try (left; by destruct Hi as (? & ? & ?)).
  right. split; [done|]. destruct Hi as [?|(_ & ? & ? & ? & ? & ? & ?)]; done.
Qed.

Lemma perform_goes o l (ao : audio_output D) :
  out_inv (Idle, (l, ao)) -> locked l = false -> op_ok o (l, ao) -> performs (perform o (l, ao)).
Proof.
  intros Hi Hlock Hok. destruct (idle_cases _ _ Hi Hlock) as [Hq|[-> Hf]]; [by apply quiet_performs|by apply fresh_performs].
Qed.

(** The caller wakes up. *)
Lemma wake_inv w l (ao : audio_output D) :
  out_inv (w, (l, ao)) -> locked l = false -> answered w (l, ao) = true -> out_inv (next_waiting w, wake w (l, ao)).
Proof.
  intros [Hst Hi] Hlock Ha. destruct (decide (w = ForJoin)) as [->|Hj].
  { cbn [answered fst] in Ha. destruct l; try done. split; [by destruct ao|]. by left. }
  assert (H : alive l /\ running w ao /\ command_inv l ao /\ loc_inv l ao).
  { destruct l as [| | | | | | | | | |[]| | | | | | | | | | | | | | | | |]; try (by destruct Hi); destruct Hi as [->|[-> _]]; done. }
  destruct H as (Hal & [Ho Hw Ht] & Hc & Hl).
  assert (Hp : ao_pending ao = AO_COMMAND_NONE).
  { destruct w; cbn [answered snd] in Ha; try done; try (unfold no_command in Ha; by destruct (ao_pending ao)).
    apply orb_prop in Ha as [Ha|Ha]; [|unfold no_command in Ha; by destruct (ao_pending ao)]. apply negb_true_iff in Ha.
    destruct Hw as [_ Hw]. unfold command_inv in Hc. destruct (ao_pending ao); try done; destruct_and?; congruence. }
  destruct w as [| | |b| |]; cbn [next_waiting wake answered] in *; try done.
  - apply alive_inv; try done. split; [done|by destruct Hw|done].
  - assert (Hq : quiet l ao) by (split; try done; split; [done|by destruct Hw|done]).
    destruct (ao_mixer ao) as [m|]; [|by apply quiet_inv]. destruct (ao_open ao); [by apply quiet_inv, quiet_mixer|by apply quiet_inv].
  - destruct b.
    + destruct Hw as [Hw _]. apply alive_inv; [done|by destruct ao| | |].
      * split; [by destruct ao|by destruct ao|by destruct ao].
      * unfold command_inv. unfold audio_output_allow_play. by destruct ao; cbn in *; subst.
      * eapply caller_frame; [exact Hl|done|done|by destruct ao..| | |]; destruct ao; cbn in *; auto. intros _. congruence.
    + apply quiet_inv. split; try done. split; [done|by destruct Hw|done].
Qed.

Lemma user_inv b w l (ao : audio_output D) : out_inv (w, (l, ao)) -> out_inv (w, (l, set_enabled b ao)).
Proof.
  intros [Hst Hi]. split; [by destruct ao|]. destruct l as [| | | | | | | | | |[]| | | | | | | | | | | | | | | | |]; try (by destruct ao);
    destruct Hi as ([Ho Hw Ht] & Hc & Hl); (split; [by split; destruct w, ao|]); (split; [by destruct ao|by destruct ao]).
Qed.

Lemma step_inv cs cs' : out_inv cs -> step cs cs' -> out_inv cs'.
Proof.
  intros Hi Hs. destruct Hs as [w l ao a s Hr Ha E|o w [l ao] s' Hlock Hok E|w [l ao] Hlock Ha|b w l ao].
  - destruct (resume_goes w l ao a Hi Hr Ha) as (s1 & E1 & H1). rewrite E in E1. by injection E1 as <-.
  - destruct (perform_goes o l ao Hi Hlock Hok) as (cs1 & E1 & H1). rewrite E in E1. by injection E1 as <-.
  - by apply wake_inv.
  - by apply user_inv.
Qed.

Lemma reachable_inv cs cs' : out_inv cs -> rtc step cs cs' -> out_inv cs'.
Proof. intros Hi Hs. induction Hs as [|cs1 cs2 cs3 H _ IH]; [done|]. by eapply IH, step_inv. Qed.

(** ** Answers *)

(** How many steps the thread is from the end of a command. *)
Definition distance (l : loc) : nat :=
  match l with
  | NotStarted | Dead => 0
  | ReopenClosing | Disabling | Opening | Draining | Cancelling | PauseCancelling => 1
  | Enabling true => 3
  | FilterOpening | Enabling false | PipeHead | FilterReopening => 2
  | Closing _ (ByCommand | ByDisable | ByReopen _) => 4
  | Waiting | Starting | Signaling => 5
  | Closing _ ByPause | PauseWait => 6
  | Closing _ (ByFilter | ByPlay) | ChunkNext _ => 6
  | Pausing => 7
  | TimedWait _ _ | Playing _ _ => 7
  | PauseDelay => 8
  | Delay _ _ => 8
  | PipeNext => 7
  | Filtering _ => 8
  | SendingTag _ => 9
  | ChunkTag _ => 10
  | Finished _ => 11
  end%nat.

(** The command has been executed, or at most [n] steps are left. *)
Definition within (n : nat) (m : res (state D)) : Prop :=
  match m with Ok (l, ao) => ao_pending ao = AO_COMMAND_NONE \/ (distance l <= n)%nat | Err _ => True end.

Lemma within_le n m (x : res (state D)) : within n x -> (n <= m)%nat -> within m x.
Proof. unfold within. destruct x as [[l ao]|]; [|done]. intros [?|?] ?; [by left|right; lia]. Qed.

Lemma within_assert n b (x : res (state D)) : within n x -> within n (assert b;; x).
Proof. by destruct b. Qed.

Lemma finished_within n k (ao : audio_output D) : within n (finished k ao).
Proof. unfold finished. apply within_assert. left. by destruct ao. Qed.

Lemma start_close_within n drain k (ao : audio_output D) :
  (distance (Closing drain k) <= n)%nat -> within n (start_close drain k ao).
Proof. intros H. unfold start_close. apply within_assert. by right. Qed.

Lemma enable_within opening (ao : audio_output D) : within 3 (enable opening ao).
Proof.
  unfold enable, after_enable, open_enabled. destruct (ao_really_enabled ao); destruct opening; try apply finished_within; right; simpl; lia.
Qed.

Lemma open_within (ao : audio_output D) : within 3 (open_ ao).
Proof. unfold open_. do 4 apply within_assert. apply enable_within. Qed.

Lemma disable_rest_within (ao : audio_output D) : within 3 (disable_rest ao).
Proof. unfold disable_rest. destruct (ao_really_enabled ao); [right; simpl; lia|apply finished_within]. Qed.

Lemma reopen_rest_within (ao : audio_output D) : within 3 (reopen_rest ao).
Proof. unfold reopen_rest. destruct (ao_open ao); [right; simpl; lia|apply open_within]. Qed.

Lemma reopen_format_within (ao : audio_output D) : within 3 (reopen_format ao).
Proof. unfold reopen_format. destruct (audio_format_mask_apply _ _); [apply reopen_rest_within|done]. Qed.

Lemma dispatch_within (ao : audio_output D) : ao_pending ao <> AO_COMMAND_NONE -> within 4 (dispatch ao).
Proof.
  intros Hp. unfold dispatch. destruct (ao_pending ao); try done.
  - by eapply within_le; [apply enable_within|lia].
  - unfold disable. destruct (ao_open ao); [by apply start_close_within|by eapply within_le; [apply disable_rest_within|lia]].
  - by eapply within_le; [apply open_within|lia].
  - unfold reopen. destruct (negb _); [destruct (ao_open ao); [by apply start_close_within|]|].
    + by eapply within_le; [apply reopen_format_within|lia].
    + by eapply within_le; [apply reopen_rest_within|lia].
  - do 2 apply within_assert. by apply start_close_within.
  - destruct (negb _); [apply finished_within|right; simpl; lia].
  - destruct (ao_open ao); [apply within_assert; right; simpl; lia|apply finished_within].
  - cbv zeta. destruct (ao_open _); [right; simpl; lia|apply finished_within].
  - apply finished_within.
Qed.

Lemma task_body_within (ao : audio_output D) : ao_pending ao <> AO_COMMAND_NONE -> within 7 (task_body ao).
Proof.
  intros Hp. unfold task_body. destruct (_ && _); [apply within_assert; right; simpl; lia|].
  by eapply within_le; [by apply dispatch_within|lia].
Qed.

Lemma task_loop_within (ao : audio_output D) : ao_pending ao <> AO_COMMAND_NONE -> within 4 (task_loop ao).
Proof. intros Hp. unfold task_loop. rewrite no_command_false by done. by apply dispatch_within. Qed.

Lemma pause_end_within (ao : audio_output D) : ao_pending ao <> AO_COMMAND_NONE -> within 4 (pause_end ao).
Proof. intros Hp. apply task_loop_within. by destruct ao. Qed.

Lemma play_end_within (ao : audio_output D) : within 5 (play_end ao).
Proof. right. simpl. lia. Qed.

Lemma play_loop_within chunk (ao : audio_output D) : ao_pending ao <> AO_COMMAND_NONE -> within 5 (play_loop chunk ao).
Proof.
  intros Hp. unfold play_loop. rewrite no_command_false by done. destruct chunk; apply play_end_within.
Qed.

Lemma chunk_played_within c (ao : audio_output D) : within 6 (chunk_played c ao).
Proof. unfold chunk_played. apply within_assert. right. simpl. lia. Qed.

Lemma play_bytes_within c size (ao : audio_output D) : ao_pending ao <> AO_COMMAND_NONE -> within 6 (play_bytes c size ao).
Proof. intros Hp. unfold play_bytes. rewrite no_command_false, andb_false_r by done. apply chunk_played_within. Qed.

Lemma after_closing_within drain k (ao : audio_output D) :
  ao_pending ao <> AO_COMMAND_NONE -> within (distance (Closing drain k) - 1) (after_closing k ao).
Proof.
  intros Hp. destruct k; cbn [after_closing distance].
  - apply finished_within.
  - apply disable_rest_within.
  - apply reopen_format_within.
  - apply within_assert, play_end_within.
  - do 2 apply within_assert. apply play_end_within.
  - by eapply within_le; [by apply pause_end_within|simpl; lia].
Qed.

(** While a command waits, every step of the thread leads to its end. *)
Lemma resume_within l (ao : audio_output D) a :
  runs l = true -> ao_pending ao <> AO_COMMAND_NONE -> within (distance l - 1) (resume l a ao) /\ (0 < distance l)%nat.
Proof.
  intros Hr Hp. destruct l as [| | |b| | | |drain k| | |k| | | | | | | | | | | | | | | | |]; try done; (split; [|simpl; first [lia|destruct b; lia|destruct k; lia]]);
    cbn [resume distance Nat.sub]; unfold enabled, filter_opened, device_opened, filter_reopened; try (apply finished_within).
  - by apply task_loop_within.
  - by apply task_loop_within.
  - destruct b; cbn [after_enable]; [unfold open_enabled; destruct (_ =? 0); [apply finished_within|right; simpl; lia]|apply finished_within].
  - destruct (a_format a); [|apply finished_within]. apply within_assert.
    destruct (audio_format_mask_apply _ _); [right; simpl; lia|done].
  - apply within_assert, finished_within.
  - by apply (after_closing_within drain).
  - destruct (a_format a); [apply finished_within|right; simpl; lia].
  - destruct k; cbn [after_finished]; [by eapply within_le; [by apply task_body_within|lia]
      |by eapply within_le; [by apply task_loop_within|lia]|right; simpl; lia..].
  - destruct (a_chunk a); [by eapply within_le; [by apply play_loop_within; destruct ao|lia]|by eapply within_le; [by apply dispatch_within|lia]].
  - destruct (_ =? 0); right; simpl; lia.
  - right; simpl; lia.
  - destruct (a_size a); [by eapply within_le; [by apply play_bytes_within|lia]|by apply start_close_within; simpl; lia].
  - destruct (_ =? 0); right; simpl; lia.
  - rewrite no_command_false by done. apply chunk_played_within.
  - destruct (_ <=? 0); [by apply start_close_within|]. do 2 apply within_assert. by apply play_bytes_within.
  - by apply play_loop_within.
  - by apply task_loop_within.
  - destruct (_ =? 0); right; simpl; lia.
  - rewrite no_command_false by done. by eapply within_le; [by apply pause_end_within|lia].
  - destruct (_ =? 0); [by apply start_close_within|]. rewrite no_command_false by done.
    by eapply within_le; [by apply pause_end_within|lia].
  - apply within_assert. right; simpl; lia.
Qed.

(** The thread alone, with an answer for every step. *)
Fixpoint thread_run (answers : list answer) (s : state D) : res (state D) :=
  match answers with
  | [] => Ok s
  | a :: answers => s ← resume s.1 a s.2; thread_run answers s
  end.

Fixpoint answers_ok (answers : list answer) (s : state D) : Prop :=
  match answers with
  | [] => True
  | a :: answers =>
      answer_ok s.1 s.2 a /\ match resume s.1 a s.2 with Ok s => answers_ok answers s | Err _ => True end
  end.

Lemma runs_not_gone w l (ao : audio_output D) : out_inv (w, (l, ao)) -> runs l = true -> w <> Gone.
Proof.
  intros [_ Hi] Hr ->. destruct l as [| | | | | | | | | |[]| | | | | | | | | | | | | | | | |]; try done;
    first [by destruct Hi as ([_ [] _] & _)|by destruct Hi as [? _]].
Qed.

(** After at most [distance] steps the command is gone. *)
Lemma command_ends w l (ao : audio_output D) n answers :
  out_inv (w, (l, ao)) -> runs l = true -> (distance l <= n)%nat -> length answers = n -> answers_ok answers (l, ao) ->
  exists k s, thread_run (take k answers) (l, ao) = Ok s /\ out_inv (w, s) /\ ao_pending s.2 = AO_COMMAND_NONE.
Proof.
  revert l ao answers. induction n as [|n IH]; intros l ao answers Hi Hr Hd Hlen Hans.
  - exists 0%nat, (l, ao). split; [done|]. split; [done|].
    destruct (decide (ao_pending ao = AO_COMMAND_NONE)) as [|Hp]; [done|]. destruct (resume_within l ao (Answer 0 None None None) Hr Hp). lia.
  - destruct (decide (ao_pending ao = AO_COMMAND_NONE)) as [|Hp]; [by exists 0%nat, (l, ao)|].
    destruct answers as [|a answers]; [done|]. injection Hlen as Hlen. destruct Hans as [Ha Hans]. cbn [fst snd] in *.
    destruct (resume_goes w l ao a Hi Hr Ha) as ([l' ao'] & E & Hi'). rewrite E in Hans.
    destruct (resume_within l ao a Hr Hp) as [Hw _]. rewrite E in Hw. destruct Hw as [Hnone|Hle].
    + exists 1%nat, (l', ao'). cbn [take thread_run fst snd]. rewrite E. by destruct answers.
    + destruct (runs l') eqn:Hr'.
      * destruct (IH l' ao' answers Hi' Hr' ltac:(lia) Hlen Hans) as (k & s & Hrun & ? & ?).
        exists (S k), s. cbn [take thread_run fst snd]. by rewrite E.
      * exists 1%nat, (l', ao'). cbn [take thread_run fst snd]. rewrite E. split; [by destruct answers|]. split; [done|].
        destruct Hi' as [_ Hi']. destruct l'; try done; [|by destruct Hi' as (_ & _ & ? & _)].
        destruct Hi' as [->|(_ & _ & _ & ? & _)]; [|done]. by destruct (runs_not_gone _ _ _ Hi Hr).
Qed.

Lemma distance_bound l : (distance l <= 11)%nat.
Proof. destruct l as [| | |[]| | | |drain []| | | | | | | | | | | | | | | | | | | |]; simpl; lia. Qed.

(** An open device is enabled, has a pipe and has not failed. *)
Lemma inv_open_device w l (ao : audio_output D) :
  out_inv (w, (l, ao)) -> w <> Gone -> ao_open ao = true ->
  ao_really_enabled ao = true /\ is_Some (ao_pipe ao) /\ ao_fail_timer ao = false.
Proof.
  intros [_ Hi] Hg Ho. assert (H : runs l = true /\ l <> Finished Exit -> running w ao).
  { intros [Hr He]. by destruct l as [| | | | | | | | | |[]| | | | | | | | | | | | | | | | |]; try done; destruct Hi. }
  assert (Hr : running w ao).
  { destruct l as [| | | | | | | | | |[]| | | | | | | | | | | | | | | | |]; try (by apply H); destruct_and?; try congruence.
    destruct Hi as [?|?]; [done|]. destruct_and?. congruence. }
  destruct (run_open _ _ Hr Ho) as ((? & _) & ? & ?). done.
Qed.

(** ** Devices that fail while a command waits, and DRAIN *)

(** The device, or a filter, fails. *)
Definition device_fails (l : loc) (a : answer) : bool :=
  match l with
  | Filtering _ => is_null (a_size a)
  | Playing _ _ => a_code a <=? 0
  | Pausing => a_code a =? 0
  | _ => false
  end.

Fixpoint devices_work (answers : list answer) (s : state D) : Prop :=
  match answers with
  | [] => True
  | a :: answers =>
      answer_ok s.1 s.2 a /\ device_fails s.1 a = false /\
      match resume s.1 a s.2 with Ok s => devices_work answers s | Err _ => True end
  end.

Lemma inv_running w l (ao : audio_output D) :
  out_inv (w, (l, ao)) -> ao_open ao = true -> runs l = true -> running w ao /\ command_inv l ao /\ loc_inv l ao.
Proof.
  intros [_ Hi] Ho Hr. destruct l as [| | | | | | | | | |[]| | | | | | | | | | | | | | | | |]; try done.
  destruct Hi as (_ & ? & _). congruence.
Qed.

(** The thread meets CLOSE or REOPEN when the device is closed and the pipe is
    gone. *)
Lemma dispatch_closed (ao : audio_output D) :
  static ao -> audio_format_valid (ao_in_audio_format ao) = true -> ao_open ao = false -> ao_pipe ao = None ->
  ao_pending ao = AO_COMMAND_CLOSE \/ ao_pending ao = AO_COMMAND_REOPEN -> task_loop ao = Err AssertFailed.
Proof.
  intros [Hm _] Hv Ho Hp Hc. unfold task_loop. rewrite no_command_false by (by destruct Hc as [->| ->]).
  assert (reopen_rest ao = Err AssertFailed) as E by (unfold reopen_rest, open_; by rewrite Ho, Hp).
  unfold dispatch. destruct Hc as [->| ->]; [by rewrite Ho|]. unfold reopen. rewrite Ho. destruct (negb _); [|done].
  unfold reopen_format. destruct (audio_format_mask_apply_ok _ _ Hv Hm) as (out & -> & _). cbn [mbind res_bind].
  unfold reopen_rest, open_. destruct ao. cbn in *. by subst.
Qed.

Lemma failing_device w l (ao : audio_output D) a a2 a3 :
  out_inv (w, (l, ao)) -> runs l = true -> device_fails l a = true ->
  ao_pending ao = AO_COMMAND_CLOSE \/ ao_pending ao = AO_COMMAND_REOPEN ->
  thread_run [a; a2; a3] (l, ao) = Err AssertFailed.
Proof.
  intros Hi Hr Hf Hc. pose proof (proj1 Hi) as Hst.
  assert (Hopen : ao_open ao = true).
  { destruct Hi as [_ Hi]. destruct l; try done; destruct Hi as (_ & _ & Hl); [by destruct Hl..|done]. }
  destruct (inv_running _ _ _ Hi Hopen Hr) as (Hrun & _ & _).
  destruct (run_open _ _ Hrun Hopen) as ([_ Hv] & _ & Ht).
  set (closed := set_open false (set_chunk None (set_pipe None ao))).
  assert (Hs : forall k, start_close false k ao = Ok (Closing false k, closed)) by (intros k; unfold start_close; by rewrite Hopen).
  destruct l; try done; cbn [thread_run fst snd resume device_fails] in *.
  - destruct (a_size a); [done|]. rewrite Hs. cbn [mbind res_bind thread_run fst snd resume after_closing].
    unfold play_failed. cbn [ao_chunk set_fail_timer set_open set_chunk is_null closed assert mbind res_bind play_end fst snd resume].
    subst closed. rewrite dispatch_closed; [done|by destruct ao..].
  - rewrite Hf, Hs. cbn [mbind res_bind thread_run fst snd resume after_closing].
    replace (ao_fail_timer closed) with false by (by subst closed; destruct ao).
    unfold play_failed. cbn [negb ao_chunk set_fail_timer set_open set_chunk is_null closed assert mbind res_bind play_end fst snd resume].
    subst closed. rewrite dispatch_closed; [done|by destruct ao..].
  - rewrite Hf, Hs. cbn [mbind res_bind thread_run fst snd resume after_closing].
    unfold pause_end. subst closed. rewrite dispatch_closed; [done|by destruct ao..].
Qed.

(** The thread on its way to the assertion that DRAIN makes. *)
Definition drain_left (l : loc) : nat :=
  match l with
  | Starting | Waiting | Signaling | PauseWait | Pausing => 1
  | PauseDelay | PipeNext | ChunkNext _ => 2
  | Filtering _ | TimedWait _ _ | Playing _ _ | Finished (Break | Continue | PauseLoop) => 3
  | Delay _ _ | SendingTag _ => 4
  | ChunkTag _ => 5
  | _ => 0
  end.

Definition holds_chunk (l : loc) (ao : audio_output D) : Prop :=
  match l with
  | ChunkTag c | SendingTag c | Filtering c | Delay c _ | TimedWait c _ | Playing c _ | ChunkNext c => ao_chunk ao = Some c
  | _ => is_Some (ao_chunk ao)
  end.

Definition to_drain (l : loc) (ao : audio_output D) : Prop :=
  ao_pending ao = AO_COMMAND_DRAIN /\ ao_open ao = true /\ is_Some (ao_pipe ao) /\ holds_chunk l ao.

Lemma holds_some l (ao : audio_output D) : holds_chunk l ao -> is_Some (ao_chunk ao).
Proof. unfold holds_chunk. destruct l; eauto. Qed.

Lemma drain_dispatch l (ao : audio_output D) : to_drain l ao -> dispatch ao = Err AssertFailed /\ task_loop ao = Err AssertFailed /\ pause_end ao = Err AssertFailed.
Proof.
  intros (Hp & Ho & _ & [c Hc]%holds_some). unfold pause_end, task_loop, no_command, dispatch. destruct ao. cbn in *. by subst.
Qed.

Lemma drain_step l (ao : audio_output D) a :
  to_drain l ao -> (0 < drain_left l)%nat -> answer_ok l ao a -> device_fails l a = false ->
  resume l a ao = Err AssertFailed \/
  exists l' ao', resume l a ao = Ok (l', ao') /\ to_drain l' ao' /\ (0 < drain_left l' < drain_left l)%nat.
Proof.
  intros Hd Hl Ha Hf. destruct (drain_dispatch l ao Hd) as (Ed & Et & Ep). pose proof Hd as (Hp & Ho & Hpipe & Hc).
  assert (Hn : no_command ao = false) by (apply no_command_false; by rewrite Hp).
  assert (Hgo : forall l' ao', Ok (l', ao') = Ok (l', ao') :> res (state D) -> to_drain l' ao' -> (0 < drain_left l' < drain_left l)%nat ->
    exists l'' ao'', Ok (l', ao') = Ok (l'', ao'') :> res (state D) /\ to_drain l'' ao'' /\ (0 < drain_left l'' < drain_left l)%nat) by eauto.
  assert (Hend : forall b, to_drain Signaling (set_chunk_finished true (set_chunk_finished b ao))).
  { intros b. apply holds_some in Hc. by destruct ao. }
  destruct l as [| | |b| | | |drain k| | |k| | | | | | | | | | | | | | | | |]; cbn [drain_left] in *; try lia; cbn [resume answer_ok device_fails] in *;
    try (by left); try rewrite Hn.
  - destruct k; cbn [after_finished drain_left] in *; [|by left|right; eapply Hgo; [done|done|simpl; lia]|lia].
    unfold task_body. destruct (_ && _); [|by left]. destruct Hpipe as [pipe E]. rewrite E. right.
    cbn [is_null negb assert mbind res_bind]. eapply Hgo; [done|by split_and!|simpl; lia].
  - destruct (a_chunk a); [|by left]. right. unfold play_loop, play_end. rewrite no_command_false by (destruct ao; cbn in *; by subst).
    eapply Hgo; [done|done|simpl; lia].
  - right. destruct (_ =? 0); (eapply Hgo; [done|done|simpl; lia]).
  - right. eapply Hgo; [done|done|simpl; lia].
  - right. destruct (a_size a); [|done]. unfold play_bytes, chunk_played. rewrite Hn, andb_false_r, Hc, bool_decide_true by done.
    eapply Hgo; [done|done|simpl; lia].
  - right. destruct (_ =? 0); (eapply Hgo; [done|done|simpl; lia]).
  - right. unfold chunk_played. rewrite Hc, bool_decide_true by done. eapply Hgo; [done|done|simpl; lia].
  - right. rewrite Hf. destruct Ha as (Hle & Hmod & _). rewrite (proj2 (Z.leb_le _ _) Hle), Hmod. cbn [assert mbind res_bind Z.eqb].
    unfold play_bytes, chunk_played. rewrite Hn, andb_false_r, Hc, bool_decide_true by done.
    eapply Hgo; [done|done|simpl; lia].
  - right. unfold play_loop, play_end. rewrite Hn. specialize (Hend (ao_chunk_finished ao)).
    replace (match a_chunk a with Some _ => _ | None => _ end) with (Ok (Signaling, set_chunk_finished true ao) : res (state D)) by (by destruct (a_chunk a)).
    eapply Hgo; [done| |simpl; lia]. by destruct ao.
  - right. destruct (_ =? 0); (eapply Hgo; [done|done|simpl; lia]).
  - by left.
  - rewrite Hf. by left.
Qed.

Lemma drain_fails n l (ao : audio_output D) answers :
  to_drain l ao -> (0 < drain_left l <= n)%nat -> length answers = n -> devices_work answers (l, ao) ->
  exists k, thread_run (take k answers) (l, ao) = Err AssertFailed.
Proof.
  revert l ao answers. induction n as [|n IH]; intros l ao answers Hd Hl Hlen Ha; [lia|].
  destruct answers as [|a answers]; [done|]. injection Hlen as Hlen. destruct Ha as (Ha & Hf & Hrest). cbn [fst snd] in *.
  destruct (drain_step l ao a Hd ltac:(lia) Ha Hf) as [E|(l' & ao' & E & Hd' & Hl')].
  - exists 1%nat. cbn [take thread_run fst snd]. by rewrite E.
  - rewrite E in Hrest. destruct (IH l' ao' answers Hd' ltac:(lia) Hlen Hrest) as [k Hk].
    exists (S k). cbn [take thread_run fst snd]. by rewrite E.
Qed.

(** DRAIN after something has been played. *)
Lemma drain_after_chunk l (ao : audio_output D) :
  out_inv (Idle, (l, ao)) -> runs l = true -> locked l = false -> ao_open ao = true -> is_Some (ao_chunk ao) ->
  exists s, perform OpDrain (l, ao) = Ok (ForAll false, s) /\
    forall answers, length answers = 5%nat -> devices_work answers s -> exists k, thread_run (take k answers) s = Err AssertFailed.
Proof.
  intros Hi Hr Hlock Ho Hc. destruct (inv_running _ _ _ Hi Ho Hr) as ([Hop Hcall _] & _ & Hl).
  destruct (Hop Ho) as (_ & Hpipe & _). destruct Hcall as [Hn Hal].
  exists (l, set_command AO_COMMAND_DRAIN ao). split.
  - cbn [perform]. unfold audio_output_drain_async, async_if_open, ao_command_async. cbn [fst snd].
    by rewrite Hal, Ho, no_command_true by done.
  - intros answers Hlen Ha. eapply (drain_fails 5); [| |done|done].
    + assert (holds_chunk l ao); [|by destruct ao]. unfold loc_inv, playing in Hl. destruct l; try done; by destruct_and?.
    + destruct l as [| | |b| | | |drain k| | |[]| | | | | | | | | | | | | | | | |]; cbn [drain_left locked loc_inv] in *; try done; try lia;
        destruct_and?; try congruence. destruct Hi as (_ & _ & ? & _). congruence.
Qed.

(** Nothing but a command or a failure makes the output forget its chunk. *)
Lemma chunk_kept_step w l (ao : audio_output D) a l' ao' :
  out_inv (w, (l, ao)) -> runs l = true -> ao_open ao = true -> is_Some (ao_chunk ao) -> ao_pending ao = AO_COMMAND_NONE ->
  device_fails l a = false -> resume l a ao = Ok (l', ao') ->
  ao_open ao' = true /\ is_Some (ao_chunk ao') /\ ao_pending ao' = AO_COMMAND_NONE.
Proof.
  intros Hi Hr Ho Hc Hn Hf E. destruct (inv_running _ _ _ Hi Ho Hr) as (_ & _ & Hl).
  assert (Hnc : no_command ao = true) by (by apply no_command_true).
  destruct ao. cbn in Ho, Hc, Hn, Hf, Hnc, Hl. subst.
  destruct l as [| | |b| | | |drain k| | |[]| | | | | | | | | | | | | | | | |]; cbn in Hl, Hr, Hf; try done; destruct_and?; try done;
    cbn in E; unfold task_body, play_loop, play_bytes, chunk_played, play_end, dispatch, assert in E; cbn in E;
    repeat match type of E with
    | context [match ?x with _ => _ end] => destruct x eqn:?; cbn [mbind res_bind negb is_null] in E
    end; simplify_eq; cbn; eauto.
Qed.

Lemma chunk_kept w l (ao : audio_output D) answers s :
  out_inv (w, (l, ao)) -> runs l = true -> ao_open ao = true -> is_Some (ao_chunk ao) -> ao_pending ao = AO_COMMAND_NONE ->
  devices_work answers (l, ao) -> thread_run answers (l, ao) = Ok s ->
  ao_open s.2 = true /\ is_Some (ao_chunk s.2) /\ ao_pending s.2 = AO_COMMAND_NONE.
Proof.
  revert l ao. induction answers as [|a answers IH]; intros l ao Hi Hr Ho Hc Hn Ha E.
  { by injection E as <-. }
  destruct Ha as (Ha & Hf & Hrest). cbn [thread_run fst snd] in *.
  destruct (resume_goes w l ao a Hi Hr Ha) as ([l' ao'] & Er & Hi'). rewrite Er in Hrest, E. cbn [mbind res_bind] in E.
  destruct (chunk_kept_step w l ao a l' ao' Hi Hr Ho Hc Hn Hf Er) as (Ho' & Hc' & Hn').
  apply (IH l' ao'); try done. destruct Hi' as [_ Hi']. destruct l'; try done; [|by destruct Hi' as (_ & ? & _); congruence].
  destruct Hi' as [->|(_ & _ & ? & _)]; [|congruence]. by destruct (runs_not_gone _ _ _ Hi Hr).
Qed.

End system.

(** * Theorems on audio outputs

    The thread of an output and the player thread never run into a failed
    assertion unless the device fails while a command waits, and commands are
    answered; runs that show what happens otherwise. *)

(** ** Runs *)

Inductive event := Thread (a : answer) | Call (o : op) | Wake.

Section runs.
Context {D : Type}.

Definition happen (e : event) (cs : client_state D) : res (client_state D) :=
  let '(w, (l, ao)) := cs in
  match e with
  | Thread a => s ← resume l a ao; Ok (w, s)
  | Call o => perform o (l, ao)
  | Wake => Ok (next_waiting w, wake w (l, ao))
  end.

Fixpoint happens (es : list event) (cs : client_state D) : res (client_state D) :=
  match es with [] => Ok cs | e :: es => cs ← happen e cs; happens es cs end.

(** Is an event allowed? *)
Definition allowed (e : event) (cs : client_state D) : Prop :=
  let '(w, (l, ao)) := cs in
  match e with
  | Thread a => runs l = true /\ answer_ok l ao a
  | Call o => w = Idle /\ locked l = false /\ op_ok o (l, ao)
  | Wake => locked l = false /\ answered w (l, ao) = true
  end.

Fixpoint all_allowed (es : list event) (cs : client_state D) : Prop :=
  match es with
  | [] => True
  | e :: es => allowed e cs /\ match happen e cs with Ok cs => all_allowed es cs | Err _ => True end
  end.

Lemma happens_steps es cs cs' : all_allowed es cs -> happens es cs = Ok cs' -> rtc step cs cs'.
Proof.
  revert cs. induction es as [|e es IH]; intros [w [l ao]] Ha E; cbn [happens all_allowed] in *; [by injection E as <-|].
  destruct Ha as [Ha Hrest]. destruct (happen e _) as [cs1|] eqn:E1; [|done]. cbn [mbind res_bind] in E.
  eapply rtc_l; [|by apply (IH cs1)]. destruct e as [a|o|]; cbn [happen allowed] in *.
  - destruct Ha as [Hr Ha]. destruct (resume l a ao) as [s|] eqn:Er; [|done]. injection E1 as <-. by apply (step_thread w l ao a s).
  - destruct Ha as (-> & Hl & Hok). destruct cs1 as [w1 s1]. by apply (step_client o).
  - destruct Ha as [Hl Ha]. injection E1 as <-. by apply (step_wake w (l, ao)).
Qed.

End runs.

(** An output without a mixer, with all formats. *)
Definition sample_output : audio_output unit :=
  AudioOutput (lit "sample") false false true None false audio_format_clear true false false false true false
    audio_format_clear audio_format_clear false AO_COMMAND_NONE None None false.

Definition cd : audio_format := AudioFormat 44100 SAMPLE_FORMAT_S16 2.
Definition dat : audio_format := AudioFormat 48000 SAMPLE_FORMAT_S16 2.

Lemma sample_fresh : fresh sample_output.
Proof. by split. Qed.

Definition code (n : Z) : event := Thread (Answer n None None None).

(** The output is enabled and opened, and its thread asks for a chunk. *)
Definition opened : list event :=
  [Call OpEnableDisable; Call (OpUpdate cd 1 false); code 0; Thread (Answer 0 (Some cd) None None); code 0; Wake; code 0].

(** It plays a chunk. *)
Definition playing_chunk : list event :=
  opened ++ [Thread (Answer 0 None (Some 7) None); code 0; Thread (Answer 0 None None (Some 100)); code 0].

(** It is closed while it plays. *)
Definition close_waits : list event := playing_chunk ++ [Call OpClose].

(** It waits for a chunk, is paused, and another format is asked for. *)
Definition reopen_waits : list event :=
  opened ++ [code 0; Call OpPause; code 0; code 0; Wake; code 0; code 0; Call (OpUpdate dat 1 false)].

(** The chunk has been played. *)
Definition chunk_done : list event := playing_chunk ++ [code 100; code 0; code 0; code 0].

(** The state in which the command to open waits. *)
Definition opening_output : audio_output unit :=
  AudioOutput (lit "sample") false false true None false audio_format_clear true true false false true false
    cd audio_format_clear true AO_COMMAND_OPEN (Some 1) None false.

Lemma opening_reached : rtc step (Idle, (NotStarted, sample_output)) (ForOpen, (Starting, opening_output)).
Proof.
  eapply rtc_l; [by apply (step_client OpEnableDisable); [| |reflexivity]|].
  eapply rtc_once, (step_client (OpUpdate cd 1 false)); [done|by split|vm_compute; reflexivity].
Qed.

(** ** Theorems *)

(** C33: however the output thread and the player thread take turns, no
    assertion of either fails; an open device is enabled, has a pipe and no
    failure timer.  Plugins, filters and the pipe have to answer as [answer_ok]
    says: valid formats and sizes, an empty pipe when DRAIN looks at it, and no
    failure of the device while a command waits.  The player thread has to
    keep to [op_ok]: no DRAIN while the output still has the last chunk (which
    it never forgets by itself, C35), no new format while a chunk is being
    played, no other pipe, and KILL only for an output that is closed. *)
Theorem output_threads_safe {D} (ao0 : audio_output D) w l ao :
  fresh ao0 -> rtc step (Idle, (NotStarted, ao0)) (w, (l, ao)) ->
  (forall a, runs l = true -> answer_ok l ao a -> exists s, resume l a ao = Ok s) /\
  (forall o, w = Idle -> locked l = false -> op_ok o (l, ao) -> exists cs, perform o (l, ao) = Ok cs) /\
  (w <> Gone -> ao_open ao = true -> ao_really_enabled ao = true /\ is_Some (ao_pipe ao) /\ ao_fail_timer ao = false).
Proof.
  intros Hf Hs. pose proof (reachable_inv _ _ (fresh_inv _ Hf) Hs) as Hi. split_and!.
  - intros a Hr Ha. destruct (resume_goes w l ao a Hi Hr Ha) as (s & E & _). by exists s.
  - intros o -> Hlock Hok. destruct (perform_goes o l ao Hi Hlock Hok) as (cs & E & _). by exists cs.
  - intros Hg Ho. by apply (inv_open_device w l).
Qed.

Lemma output_threads_safe_witness :
  fresh sample_output /\ rtc step (Idle, (NotStarted, sample_output)) (ForOpen, (Starting, opening_output)) /\
  (forall a, runs Starting = true -> answer_ok Starting opening_output a -> exists s, resume Starting a opening_output = Ok s) /\
  resume Starting (Answer 0 None None None) opening_output = Ok (FilterOpening, opening_output).
Proof.
  split; [exact sample_fresh|]. split; [exact opening_reached|]. split; [|vm_compute; reflexivity].
  exact (proj1 (output_threads_safe sample_output ForOpen Starting opening_output sample_fresh opening_reached)).
Defined.

(** C34: in every state that is reached under the conditions of C33, a command
    that waits has been executed after at most eleven steps of the output
    thread, whatever the device, the filters and the pipe answer within
    [answer_ok] (in particular, the device does not fail meanwhile: CLOSE and
    REOPEN would not be executed then, C35).  A wait for the device and a
    running call count as one step. *)
Theorem output_command_ends {D} (ao0 : audio_output D) w l ao answers :
  fresh ao0 -> rtc step (Idle, (NotStarted, ao0)) (w, (l, ao)) -> runs l = true ->
  length answers = 11%nat -> answers_ok answers (l, ao) ->
  exists k s, thread_run (take k answers) (l, ao) = Ok s /\ ao_pending s.2 = AO_COMMAND_NONE.
Proof.
  intros Hf Hs Hr Hlen Ha. pose proof (reachable_inv _ _ (fresh_inv _ Hf) Hs) as Hi.
  destruct (command_ends w l ao 11 answers Hi Hr (distance_bound l) Hlen Ha) as (k & s & E & _ & Hp). by exists k, s.
Qed.

Lemma output_command_ends_witness :
  let answers := replicate 11 (Answer 0 (Some cd) None None) in
  fresh sample_output /\ rtc step (Idle, (NotStarted, sample_output)) (ForOpen, (Starting, opening_output)) /\
  runs Starting = true /\ length answers = 11%nat /\ answers_ok answers (Starting, opening_output) /\
  exists k s, thread_run (take k answers) (Starting, opening_output) = Ok s /\ ao_pending s.2 = AO_COMMAND_NONE.
Proof.
  intros answers. split; [exact sample_fresh|]. split; [exact opening_reached|]. split; [reflexivity|]. split; [reflexivity|].
  assert (H : answers_ok answers (Starting, opening_output)) by (vm_compute; repeat split).
  split; [exact H|]. exact (output_command_ends sample_output ForOpen Starting opening_output answers sample_fresh opening_reached eq_refl eq_refl H).
Defined.

(** C35: the conditions of C33 are needed.  In every state that is reached
    under them: if the device then fails while CLOSE or REOPEN waits, an assertion of the output thread fails.  As long as devices
    work and no command comes, an output never forgets the chunk it has
    played; and if DRAIN is issued before it has - which the player thread
    may do - an assertion of the output thread fails within five steps. *)
Theorem output_assertions_fail {D} (ao0 : audio_output D) w l ao :
  fresh ao0 -> rtc step (Idle, (NotStarted, ao0)) (w, (l, ao)) -> runs l = true ->
  (forall a a2 a3, device_fails l a = true -> ao_pending ao = AO_COMMAND_CLOSE \/ ao_pending ao = AO_COMMAND_REOPEN ->
     thread_run [a; a2; a3] (l, ao) = Err AssertFailed) /\
  (forall answers s, ao_open ao = true -> is_Some (ao_chunk ao) -> ao_pending ao = AO_COMMAND_NONE ->
     devices_work answers (l, ao) -> thread_run answers (l, ao) = Ok s -> ao_open s.2 = true /\ is_Some (ao_chunk s.2)) /\
  (w = Idle -> locked l = false -> ao_open ao = true -> is_Some (ao_chunk ao) ->
     exists s, perform OpDrain (l, ao) = Ok (ForAll false, s) /\
       forall answers, length answers = 5%nat -> devices_work answers s ->
         exists k, thread_run (take k answers) s = Err AssertFailed).
Proof.
  intros Hf Hs Hr. pose proof (reachable_inv _ _ (fresh_inv _ Hf) Hs) as Hi. split_and!.
  - intros a a2 a3. by apply (failing_device w).
  - intros answers s Ho Hc Hn Ha E. by destruct (chunk_kept w l ao answers s Hi Hr Ho Hc Hn Ha E) as (? & ? & _).
  - intros ->. by apply drain_after_chunk.
Qed.

(** The three runs: CLOSE and REOPEN meet a device that fails, DRAIN meets a
    chunk that has been played. *)
Lemma output_assertions_fail_witness :
  (exists w l ao, happens close_waits (Idle, (NotStarted, sample_output)) = Ok (w, (l, ao)) /\
     thread_run (replicate 3 (Answer 0 None None None)) (l, ao) = Err AssertFailed) /\
  (exists w l ao, happens reopen_waits (Idle, (NotStarted, sample_output)) = Ok (w, (l, ao)) /\
     thread_run (replicate 3 (Answer 0 None None None)) (l, ao) = Err AssertFailed) /\
  (exists l ao s, happens chunk_done (Idle, (NotStarted, sample_output)) = Ok (Idle, (l, ao)) /\
     perform OpDrain (l, ao) = Ok (ForAll false, s) /\
     exists k, thread_run (take k (replicate 5 (Answer 0 None None None))) s = Err AssertFailed).
Proof.
  assert (Hrun : forall es w l ao, all_allowed es (Idle, (NotStarted, sample_output)) ->
    happens es (Idle, (NotStarted, sample_output)) = Ok (w, (l, ao)) ->
    rtc step (Idle, (NotStarted, sample_output)) (w, (l, ao))) by (intros es w l ao; apply happens_steps).
  split; [|split].
  - eexists _, _, _. split; [vm_compute; reflexivity|].
    refine (proj1 (output_assertions_fail sample_output _ _ _ sample_fresh (Hrun close_waits _ _ _ _ _) _) _ _ _ _ _);
      [vm_compute; repeat split; discriminate|vm_compute; reflexivity|reflexivity|reflexivity|left; reflexivity].
  - eexists _, _, _. split; [vm_compute; reflexivity|].
    refine (proj1 (output_assertions_fail sample_output _ _ _ sample_fresh (Hrun reopen_waits _ _ _ _ _) _) _ _ _ _ _);
      [vm_compute; repeat split; discriminate|vm_compute; reflexivity|reflexivity|reflexivity|right; reflexivity].
  - eexists _, _, _. split; [vm_compute; reflexivity|]. split; [vm_compute; reflexivity|].
    lazymatch goal with |- exists k, thread_run _ (?l, _) = _ => idtac end.
    destruct (proj2 (proj2 (output_assertions_fail sample_output Idle _ _ sample_fresh
      (Hrun chunk_done _ _ _ ltac:(vm_compute; repeat split; discriminate) ltac:(vm_compute; reflexivity)) eq_refl))
      eq_refl eq_refl eq_refl ltac:(eexists; reflexivity)) as (s & E & H).
    vm_compute in E. injection E as <-. apply H; [reflexivity|]. vm_compute. repeat split.
Defined.
