(* ===== verification/OutputAll.v ===== *)
(** * All outputs

    The loops over all outputs ([src/output_all.c]), their mixers
    ([src/mixer_all.c], [src/volume.c], [src/mixer/software.c]), switching
    outputs on and off ([src/output_command.c]) and their lines in the state
    file ([src/output_state.c], [src/volume.c]). *)

From S2P Require Import Prelude Err Float Song CString Strtod AudioFormat EventPipe PlayerControl Pcm Mixer Output OutputTheorems.
Local Open Scope Z_scope.

Section outputs.
Context {D : Type}.
Implicit Types (ao : audio_output D) (os : list (audio_output D)).

(** ** [src/output_all.c] *)

Definition audio_output_count (os : list (audio_output D)) : Z := Z.of_nat (length os).

Definition audio_output_get (os : list (audio_output D)) (i : Z) : res (audio_output D) :=
  if i <? 0 then Err AssertFailed else
  match os !! Z.to_nat i with Some ao => Ok ao | None => Err AssertFailed end.

(** The first output of a name: its index. *)
Fixpoint audio_output_find (name : cstring) (os : list (audio_output D)) : option nat :=
  match os with
  | [] => None
  | ao :: os => if bool_decide (ao_name ao = name) then Some 0%nat else S <$> audio_output_find name os
  end.

(** Output devices with identical names end the program. *)
Fixpoint names_unique (os : list (audio_output D)) : bool :=
  match os with
  | [] => true
  | ao :: os => negb (existsb (fun ao' => bool_decide (ao_name ao' = ao_name ao)) os) && names_unique os
  end.

(** The static variables, and what is done to which output: [elapsed] says
    whose failure timer has run long enough. *)
Record globals := Globals {
  input_audio_format : audio_format;
  g_p : option Z;
  audio_output_all_elapsed_time : float;
}.

Definition minus_one : float := f32_of_Z (-1).

Definition each (n : nat) (o : op) : list (nat * op) := map (fun i => (i, o)) (seq 0 n).

Section loops.
Variable elapsed : nat -> bool.
Variable n : nat.

Definition audio_output_all_enable_disable : list (nat * op) := each n OpEnableDisable.
Definition audio_output_all_reset_reopen : list (nat * op) := each n OpResetReopen.
Definition audio_output_allow_play_all : list nat := seq 0 n.

Definition audio_output_all_update (g : globals) : list (nat * op) :=
  if negb (audio_format_defined (input_audio_format g)) then [] else
  match g_p g with
  | Some p => map (fun i => (i, OpUpdate (input_audio_format g) p (elapsed i))) (seq 0 n)
  | None => []
  end.

(** Up to the question whether an output is open; if none is, they are
    closed. *)
Definition audio_output_all_open (audio_format : audio_format) (p : Z) (g : globals) : res (list (nat * op) * globals) :=
  assert (match g_p g with None => true | Some p' => p' =? p end);;
  let g := Globals audio_format (Some (default p (g_p g))) (audio_output_all_elapsed_time g) in
  Ok (audio_output_all_reset_reopen ++ audio_output_all_enable_disable ++ audio_output_all_update g, g).

Definition any_open (os : list (audio_output D)) : bool := existsb ao_open os.

Definition audio_output_all_close (g : globals) : list (nat * op) * globals :=
  (each n OpClose, Globals audio_format_clear None minus_one).

Definition audio_output_all_release (g : globals) : list (nat * op) * globals :=
  (each n OpRelease, Globals audio_format_clear None minus_one).

Definition audio_output_all_pause (g : globals) : list (nat * op) := audio_output_all_update g ++ each n OpPause.
Definition audio_output_all_drain : list (nat * op) := each n OpDrain.
Definition audio_output_all_cancel (g : globals) : list (nat * op) * globals :=
  (each n OpCancel, Globals (input_audio_format g) (g_p g) minus_one).

Definition audio_output_all_song_border (g : globals) : globals := Globals (input_audio_format g) (g_p g) f_zero.
Definition audio_output_all_finish : list (nat * op) :=
  concat (map (fun i => [(i, OpDisable); (i, OpClose); (i, OpKill)]) (seq 0 n)).

End loops.

(** [audio_output_all_finished()], for commands in flight. *)
Definition audio_output_all_finished (os : list (audio_output D)) : bool :=
  forallb (fun ao => negb (ao_open ao && negb (no_command ao))) os.

(** ** [src/mixer_all.c]

    A loop over all outputs that sums up what it finds. *)

Definition with_mixer {A} (none : A) (f : mixer D -> res (A * mixer D)) (ao : audio_output D) : res (A * audio_output D) :=
  if negb (ao_enabled ao) then Ok (none, ao) else
  match ao_mixer ao with
  | None => Ok (none, ao)
  | Some m => r ← f m; Ok (r.1, set_mixer (Some r.2) ao)
  end.

Definition output_mixer_get_volume : audio_output D -> res (Z * audio_output D) := with_mixer (-1) mixer_get_volume.

Definition output_mixer_set_volume (volume : Z) (ao : audio_output D) : res (Z * audio_output D) :=
  assert (volume <=? 100);; with_mixer 0 (fun m => mixer_set_volume m volume) ao.

Definition output_mixer_get_software_volume : audio_output D -> res (Z * audio_output D) :=
  with_mixer (-1) (fun m => if mp_software (mx_plugin m) then mixer_get_volume m else Ok (-1, m)).

(** The results for all outputs. *)
Fixpoint for_all (f : audio_output D -> res (Z * audio_output D)) (os : list (audio_output D)) : res (list Z * list (audio_output D)) :=
  match os with
  | [] => Ok ([], [])
  | ao :: os => r ← f ao; rs ← for_all f os; Ok (r.1 :: rs.1, r.2 :: rs.2)
  end.

(** [total / ok], which is computed with unsigned numbers. *)
Definition average (vs : list Z) : Z :=
  let good := List.filter (fun v => 0 <=? v) vs in
  match good with
  | [] => -1
  | _ => i32 (u32 (foldl (fun t v => i32 (t + v)) 0 good) / Z.of_nat (length good))
  end.

Definition mixer_all_get_volume (os : list (audio_output D)) : res (Z * list (audio_output D)) :=
  r ← for_all output_mixer_get_volume os; Ok (average r.1, r.2).

(** [success = ret || success], where [ret] is an error code. *)
Definition mixer_all_set_volume (volume : Z) (os : list (audio_output D)) : res (bool * list (audio_output D)) :=
  assert (volume <=? 100);;
  r ← for_all (output_mixer_set_volume volume) os;
  Ok (existsb (fun ret => negb (ret =? 0)) r.1, r.2).

Definition mixer_all_get_software_volume (os : list (audio_output D)) : res (Z * list (audio_output D)) :=
  r ← for_all output_mixer_get_software_volume os; Ok (average r.1, r.2).

Definition set_software_volume (volume : Z) (ao : audio_output D) : res (Z * audio_output D) :=
  match ao_mixer ao with
  | Some m => if mp_software (mx_plugin m) then r ← mixer_set_volume m volume; Ok (0, set_mixer (Some r.2) ao) else Ok (0, ao)
  | None => Ok (0, ao)
  end.

Definition mixer_all_set_software_volume (volume : Z) (os : list (audio_output D)) : res (list (audio_output D)) :=
  assert (volume <=? PCM_VOLUME_1);;
  r ← for_all (set_software_volume volume) os; Ok r.2.

(** ** [src/volume.c] *)

Record volume_state := VolumeState {
  volume_software_set : Z;
  last_hardware_volume : Z;
  vs_idle : Z;
}.

Definition volume_idle_add (vs : volume_state) (software hardware : Z) : volume_state :=
  VolumeState software hardware (Z.lor (vs_idle vs) IDLE_MIXER).

Definition mixer_event_callback (vs : volume_state) : volume_state := volume_idle_add vs (volume_software_set vs) (-1).

(** [young]: the timer says that the value is younger than a second. *)
Definition volume_level_get (young : bool) (vs : volume_state) (os : list (audio_output D))
  : res (Z * volume_state * list (audio_output D)) :=
  if (0 <=? last_hardware_volume vs) && young then Ok (last_hardware_volume vs, vs, os) else
  '(v, os) ← mixer_all_get_volume os;
  Ok (v, VolumeState (volume_software_set vs) v (vs_idle vs), os).

Definition software_volume_change (volume : Z) (vs : volume_state) (os : list (audio_output D))
  : res (volume_state * list (audio_output D)) :=
  assert (volume <=? 100);;
  os ← mixer_all_set_software_volume volume os;
  Ok (VolumeState volume (last_hardware_volume vs) (vs_idle vs), os).

Definition hardware_volume_change (volume : Z) (vs : volume_state) (os : list (audio_output D))
  : res (bool * volume_state * list (audio_output D)) :=
  '(b, os) ← mixer_all_set_volume volume os;
  Ok (b, VolumeState (volume_software_set vs) (-1) (vs_idle vs), os).

(** The result is compared with [MPD_SUCCESS] by [handle_setvol()]. *)
Definition volume_level_change (volume : Z) (vs : volume_state) (os : list (audio_output D))
  : res (bool * volume_state * list (audio_output D)) :=
  assert (volume <=? 100);;
  hardware_volume_change volume (volume_idle_add vs volume (last_hardware_volume vs)) os.

Definition SW_VOLUME_STATE : cstring := lit "sw_volume: ".

(** Whether the line was one. *)
Definition read_sw_volume_state (line : cstring) (vs : volume_state) (os : list (audio_output D))
  : res (bool * (volume_state * list (audio_output D))) :=
  if negb (has_prefix SW_VOLUME_STATE line) then Ok (false, (vs, os)) else
  let '(sv, rest) := strtol (drop (length SW_VOLUME_STATE) line) in
  if bool_decide (rest = []) && (0 <=? sv) && (sv <=? 100)
  then r ← software_volume_change sv vs os; Ok (true, r)
  else Ok (true, (vs, os)).

Definition save_sw_volume_state (vs : volume_state) : cstring := SW_VOLUME_STATE ++ print_u (volume_software_set vs) ++ [char_of 10].

Definition sw_volume_state_get_hash (vs : volume_state) : Z := volume_software_set vs.

(** ** [src/output_state.c] *)

Definition AUDIO_DEVICE_STATE : cstring := lit "audio_device_state:".

Definition device_line (ao : audio_output D) : cstring :=
  AUDIO_DEVICE_STATE ++ print_i (if ao_enabled ao then 1 else 0) ++ lit ":" ++ ao_name ao ++ [char_of 10].

Definition audio_output_state_save (os : list (audio_output D)) : res cstring :=
  assert (0 <? audio_output_count os);; Ok (concat (map device_line os)).

Definition audio_output_state_read (line : cstring) (os : list (audio_output D)) : bool * list (audio_output D) :=
  if negb (has_prefix AUDIO_DEVICE_STATE line) then (false, os) else
  let '(value, rest) := strtol (drop (length AUDIO_DEVICE_STATE) line) in
  match rest with
  | c :: name =>
      if negb (bool_decide (c = ":"%char)) || (negb (value =? 0) && negb (value =? 1)) then (false, os)
      else if negb (value =? 0) then (true, os)
      else match audio_output_find name os with
           | None => (true, os)
           | Some i => (true, alter (set_enabled false) i os)
           end
  | [] => (false, os)
  end.

(** ** [src/output_command.c] *)

Context {T : PlayerThread}.

(** The outputs, the player thread and [audio_output_state_version]. *)
Definition output_world : Type := list (audio_output D) * player * Z.

Definition audio_output_enable_index (idx : Z) (w : output_world) : res (bool * output_world) :=
  let '(os, p, version) := w in
  if audio_output_count os <=? idx then Ok (false, w) else
  ao ← audio_output_get os idx;
  if ao_enabled ao then Ok (true, w) else
  let os := <[Z.to_nat idx := set_enabled true ao]> os in
  p ← pc_update_audio (p_idle_add IDLE_OUTPUT p);
  Ok (true, (os, p, u32 (version + 1))).

Definition audio_output_disable_index (idx : Z) (w : output_world) : res (bool * output_world) :=
  let '(os, p, version) := w in
  if audio_output_count os <=? idx then Ok (false, w) else
  ao ← audio_output_get os idx;
  if negb (ao_enabled ao) then Ok (true, w) else
  let ao := set_enabled false ao in
  let p := p_idle_add IDLE_OUTPUT p in
  '(ao, p) ← (match ao_mixer ao with
              | Some m => m ← mixer_close m; Ok (set_mixer (Some m) ao, p_idle_add IDLE_MIXER p)
              | None => Ok (ao, p)
              end);
  let os := <[Z.to_nat idx := ao]> os in
  p ← pc_update_audio p;
  Ok (true, (os, p, u32 (version + 1))).

End outputs.

(** ** The software mixer

    [exp()] of the C library is a parameter. *)

Section software.
Variable c_exp : double -> double.

Record software_mixer := SoftwareMixer { sm_volume : Z; sm_filter_volume : Z }.

Definition software_mixer_init : software_mixer := SoftwareMixer 100 PCM_VOLUME_1.
Definition software_mixer_get_volume (sm : software_mixer) : Z := sm_volume sm.

(** [54.5981500331F - 1], a [float]. *)
Definition exp_4_minus_1 : float :=
  f32_sub (f32_of_decimal false 545981500331 (-10)) (f32_of_Z 1).

Definition software_mixer_set_volume (volume : Z) (sm : software_mixer) : res software_mixer :=
  assert (volume <=? 100);;
  v ← (if 100 <=? volume then Ok PCM_VOLUME_1
       else if 0 <? volume then
         let x := f64_div (f64_sub (c_exp (f64_div (f64_of_Z volume) (f64_of_Z 25))) (f64_of_Z 1)) (f64_of_f32 exp_4_minus_1) in
         match pcm_float_to_volume (f32_of_f64 x) with Some v => Ok v | None => Err BadConversion end
       else Ok volume);
  assert (u32 v <=? PCM_VOLUME_1);;
  Ok (SoftwareMixer volume v).

End software.

(** ** Setting the volume *)

Section volume.
Context {D : Type}.
Implicit Types (os : list (audio_output D)).

(** The mixer cannot be opened, or the device refuses. *)
Definition mixer_refuses (volume : Z) (m : mixer D) : bool :=
  let '(ret, m1) := mixer_open m in
  negb (ret =? success) || negb ((mp_set_volume (mx_plugin m) volume (mx_dev m1)).1 =? success).

Definition output_refuses (volume : Z) (ao : audio_output D) : bool :=
  ao_enabled ao && match ao_mixer ao with Some m => mixer_refuses volume m | None => false end.

(** Everything but the state of the mixer. *)
Definition same_output (ao ao' : audio_output D) : Prop := exists m, ao' = set_mixer m ao /\ is_null m = is_null (ao_mixer ao).

Lemma same_output_refl ao : same_output ao ao.
Proof. exists (ao_mixer ao). by destruct ao. Qed.

Lemma output_set_volume_ok volume ao :
  volume <= 100 ->
  exists ret ao', output_mixer_set_volume volume ao = Ok (ret, ao') /\ same_output ao ao' /\ negb (ret =? 0) = output_refuses volume ao.
Proof.
  intros Hv. unfold output_mixer_set_volume, with_mixer, output_refuses. rewrite (proj2 (Z.leb_le _ _) Hv). cbn [assert mbind res_bind].
  destruct (ao_enabled ao); cbn [negb andb]; [|exists 0, ao; split_and!; [done|apply same_output_refl|done]].
  destruct (ao_mixer ao) as [m|] eqn:Em; [|exists 0, ao; split_and!; [done|apply same_output_refl|done]].
  destruct (mixer_set_volume_ok m volume Hv) as (ret & m' & -> & _ & _ & H). unfold mixer_refuses.
  destruct (mixer_open m) as [ret1 m1]. destruct H as [_ ->]. cbn [mbind res_bind fst snd]. do 2 eexists. split; [done|].
  split; [exists (Some m'); by rewrite Em|]. by destruct (ret1 =? success).
Qed.

Lemma set_volume_loop volume os :
  volume <= 100 ->
  exists rets os', for_all (output_mixer_set_volume volume) os = Ok (rets, os') /\ Forall2 same_output os os' /\
    map (fun ret => negb (ret =? 0)) rets = map (output_refuses volume) os.
Proof.
  intros Hv. induction os as [|ao os (rets & os' & E & Hs & Hr)]; [by exists [], []|]. cbn [for_all].
  destruct (output_set_volume_ok volume ao Hv) as (ret & ao' & -> & Hao & Hret). cbn [mbind res_bind]. rewrite E. cbn [mbind res_bind fst snd].
  do 2 eexists. split; [done|]. split; [by constructor|]. cbn [map]. by rewrite Hret, Hr.
Qed.

(** The volume is set on every output that is enabled and has a mixer;
    the result is an error code as soon as one of them refuses, and success
    when there is no mixer at all. *)
Theorem volume_level_change_correct volume vs os :
  0 <= volume <= 100 ->
  exists os', volume_level_change volume vs os =
    Ok (existsb (output_refuses volume) os, VolumeState volume (-1) (Z.lor (vs_idle vs) IDLE_MIXER), os') /\ Forall2 same_output os os'.
Proof.
  intros Hv. unfold volume_level_change, hardware_volume_change, mixer_all_set_volume.
  rewrite (proj2 (Z.leb_le volume 100)) by lia. cbn [assert mbind res_bind].
  destruct (set_volume_loop volume os ltac:(lia)) as (rets & os' & E & Hs & Hr). rewrite E. cbn [mbind res_bind fst snd].
  exists os'. split; [|done]. do 3 f_equal.
  transitivity (existsb id (map (fun ret => negb (ret =? 0)) rets)); [clear; induction rets as [|r rs IH]; [done|]; cbn; by rewrite IH|].
  rewrite Hr. clear. induction os as [|ao os IH]; [done|]. cbn. by rewrite IH.
Qed.

End volume.

(** Two mixers; one refuses. *)
Definition sample_mixer (ret : Z) : mixer unit := mixer_init (MixerPlugin None None (fun d => (50, d)) (fun _ d => (ret, d)) true false) tt.

Definition sample_outputs : list (audio_output unit) :=
  [set_mixer (Some (sample_mixer success)) sample_output; set_mixer (Some (sample_mixer (error MPD_NIMPL))) sample_output; sample_output].

Lemma volume_level_change_correct_witness :
  0 <= 30 <= 100 /\
  exists os', volume_level_change 30 (VolumeState 100 50 0) sample_outputs = Ok (true, VolumeState 30 (-1) IDLE_MIXER, os') /\
    Forall2 same_output sample_outputs os'.
Proof. split; [lia|]. apply (volume_level_change_correct 30 (VolumeState 100 50 0) sample_outputs). lia. Defined.
