(* ===== verification/StateFile.v ===== *)
(** * The state file

    [src/state_file.c] with the parts of [src/playlist_state.c] and
    [src/playqueue_save.c]: the volume, the outputs, the player and the queue
    are written as text when the program ends (and every five minutes if
    something has changed), and read when it starts. *)

From S2P Require Import Prelude Err GLib Float CString Uri Strtod TextFile Directory SimpleDb.
From S2P Require Import Song EventPipe PlayerControl PlayQueue Playlist Mixer Output OutputAll.
Local Open Scope Z_scope.

Section state_file.
Context {G : GLib} {T : PlayerThread} {GS : GString} {D : Type}.

(** The database, [malloc()] (the address of a song that is created when the
    queue has that length) and the option ["restore_paused"]. *)
Variable db_get_song : string -> option song.
Variable malloc : Z -> Z.
Variable restore_paused : bool.

(** [fputs("...\n", fp)], [fprintf(fp, "...%i\n", ...)]. *)
Definition put_line (prefix : string) (value : cstring) : cstring := lit prefix ++ value ++ [newline].
Definition print_bool (b : bool) : cstring := print_i (if b then 1 else 0).

(** A conversion of a [float] to [int]. *)
Definition float_to_int (x : float) : res Z :=
  match f_to_int x with Some i => Ok i | None => Err BadConversion end.

(** ** [src/playqueue_save.c] *)

Definition PRIO_LABEL : string := "Prio: ".

Definition queue_save_song (idx : Z) (s : song) : res cstring :=
  uri ← song_get_uri s; Ok (print_i idx ++ lit ":" ++ lit uri ++ [newline]).

(** The text of the songs from position [i] on. *)
Definition queue_save (q : queue) : res cstring :=
  len ← queue_length q;
  for_range 0 len (fun i text =>
    prio ← queue_get_priority_at_position q i;
    let text := text ++ (if prio =? 0 then [] else put_line PRIO_LABEL (print_u prio)) in
    s ← queue_get q i;
    line ← queue_save_song (i32 i) s;
    Ok (text ++ line)) [].

Definition get_song (uri : cstring) (ptr : Z) : res (option song) :=
  if uri_has_scheme uri
  then s ← song_remote_new ptr (String.string_of_list_ascii uri); Ok (Some s)
  else Ok (db_get_song (String.string_of_list_ascii uri)).

(** The line of a song, and its priority. *)
Definition queue_load_uri (line : cstring) (priority : Z) (q : queue) : res queue :=
  let '(ret, endptr) := strtol line in
  match endptr with
  | c :: ((_ :: _) as uri) =>
      if (ret <? 0) || negb (bool_decide (c = ":"%char)) then Ok q else
      s ← get_song uri (malloc (q_length q));
      match s with
      | None => Ok q
      | Some s => '(_, q) ← queue_append q s priority; Ok q
      end
  | _ => Ok q
  end.

Definition queue_load_song (line : cstring) (fp : reader) (q : queue) : res (queue * reader) :=
  full ← queue_is_full q;
  if full : bool then Ok (q, fp) else
  match after_prefix (lit PRIO_LABEL) line with
  | Some value =>
      let priority := (strtoul value).1 `mod` 256 in
      l ← db_read_text_line fp;
      match l with
      | None => Ok (q, fp)
      | Some (line, fp) => q ← queue_load_uri line priority q; Ok (q, fp)
      end
  | None => q ← queue_load_uri line 0 q; Ok (q, fp)
  end.

(** ** [src/playlist_state.c] *)

Definition PLAYLIST_STATE_FILE_STATE : string := "state: ".
Definition PLAYLIST_STATE_FILE_RANDOM : string := "random: ".
Definition PLAYLIST_STATE_FILE_REPEAT : string := "repeat: ".
Definition PLAYLIST_STATE_FILE_SINGLE : string := "single: ".
Definition PLAYLIST_STATE_FILE_CONSUME : string := "consume: ".
Definition PLAYLIST_STATE_FILE_CURRENT : string := "current: ".
Definition PLAYLIST_STATE_FILE_TIME : string := "time: ".
Definition PLAYLIST_STATE_FILE_CROSSFADE : string := "crossfade: ".
Definition PLAYLIST_STATE_FILE_MIXRAMPDB : string := "mixrampdb: ".
Definition PLAYLIST_STATE_FILE_MIXRAMPDELAY : string := "mixrampdelay: ".
Definition PLAYLIST_STATE_FILE_PLAYLIST_BEGIN : string := "playlist_begin".
Definition PLAYLIST_STATE_FILE_PLAYLIST_END : string := "playlist_end".
Definition PLAYLIST_STATE_FILE_STATE_PLAY : string := "play".
Definition PLAYLIST_STATE_FILE_STATE_PAUSE : string := "pause".
Definition PLAYLIST_STATE_FILE_STATE_STOP : string := "stop".

(** [queue_order_to_position()] as ["%i"]. *)
Definition save_current (w : world) : res cstring :=
  position ← queue_order_to_position (w_queue w) (u32 (w_current w));
  Ok (put_line PLAYLIST_STATE_FILE_CURRENT (print_i (i32 position))).

(** The lines on the player.  [elapsed_time] was not set if the player has
    been stopped. *)
Definition save_state (st : player_status) (w : world) : res cstring :=
  if w_playing w then
    current ← save_current w;
    elapsed ← (match status_info st with
               | Some (_, _, _, elapsed_time) => float_to_int elapsed_time
               | None => Err Uninitialized
               end);
    Ok (put_line PLAYLIST_STATE_FILE_STATE
          (lit (if decide (status_state st = PLAYER_STATE_PAUSE)
                then PLAYLIST_STATE_FILE_STATE_PAUSE else PLAYLIST_STATE_FILE_STATE_PLAY)) ++
        current ++ put_line PLAYLIST_STATE_FILE_TIME (print_i elapsed))
  else
    current ← (if 0 <=? w_current w then save_current w else Ok []);
    Ok (put_line PLAYLIST_STATE_FILE_STATE (lit PLAYLIST_STATE_FILE_STATE_STOP) ++ current).

(** The options. *)
Definition save_options (w : world) : res cstring :=
  let q := w_queue w in
  let p := w_player w in
  cross_fade ← float_to_int (pc_get_cross_fade p);
  Ok (put_line PLAYLIST_STATE_FILE_RANDOM (print_bool (q_random q)) ++
      put_line PLAYLIST_STATE_FILE_REPEAT (print_bool (q_repeat q)) ++
      put_line PLAYLIST_STATE_FILE_SINGLE (print_bool (q_single q)) ++
      put_line PLAYLIST_STATE_FILE_CONSUME (print_bool (q_consume q)) ++
      put_line PLAYLIST_STATE_FILE_CROSSFADE (print_i cross_fade) ++
      put_line PLAYLIST_STATE_FILE_MIXRAMPDB (print_f 6 (f64_of_f32 (pc_get_mixramp_db p))) ++
      put_line PLAYLIST_STATE_FILE_MIXRAMPDELAY (print_f 6 (f64_of_f32 (pc_get_mixramp_delay p)))).

Definition playlist_state_save (w : world) : res (cstring * world) :=
  '(st, p) ← pc_get_status (w_player w);
  let w := set_player p w in
  state ← save_state st w;
  options ← save_options w;
  songs ← queue_save (w_queue w);
  Ok (state ++ options ++ put_line PLAYLIST_STATE_FILE_PLAYLIST_BEGIN [] ++ songs ++
      put_line PLAYLIST_STATE_FILE_PLAYLIST_END [], w).

Fixpoint playlist_load_loop (fuel : nat) (line : cstring) (fp : reader) (q : queue) : res (queue * reader) :=
  if has_prefix (lit PLAYLIST_STATE_FILE_PLAYLIST_END) line then Ok (q, fp) else
  '(q, fp) ← queue_load_song line fp q;
  l ← db_read_text_line fp;
  match l with
  | None => Ok (q, fp)
  | Some (line, fp) => match fuel with O => Err OutOfFuel | S fuel => playlist_load_loop fuel line fp q end
  end.

Definition playlist_state_load (fp : reader) (w : world) : res (world * reader) :=
  l ← db_read_text_line fp;
  match l with
  | None => Ok (w, fp)
  | Some (line, fp) =>
      '(q, fp) ← playlist_load_loop (length (r_rest fp)) line fp (w_queue w);
      q ← queue_increment_version q;
      Ok (set_queue q w, fp)
  end.

(** The local variables of [playlist_state_restore()] that a line sets. *)
Record restore := Restore {
  rs_current : Z;
  rs_seek_time : Z;
  rs_random_mode : bool;
}.

Definition is_one (value : cstring) : bool := bool_decide (value = lit "1").

(** One line. *)
Definition restore_line (line : cstring) (rs : restore) (w : world) (fp : reader) : res (restore * world * reader) :=
  match after_prefix (lit PLAYLIST_STATE_FILE_TIME) line with
  | Some v => Ok (Restore (rs_current rs) (atoi v) (rs_random_mode rs), w, fp)
  | None =>
  match after_prefix (lit PLAYLIST_STATE_FILE_REPEAT) line with
  | Some v => w ← playlist_set_repeat (is_one v) w; Ok (rs, w, fp)
  | None =>
  match after_prefix (lit PLAYLIST_STATE_FILE_SINGLE) line with
  | Some v => w ← playlist_set_single (is_one v) w; Ok (rs, w, fp)
  | None =>
  match after_prefix (lit PLAYLIST_STATE_FILE_CONSUME) line with
  | Some v => Ok (rs, playlist_set_consume (is_one v) w, fp)
  | None =>
  match after_prefix (lit PLAYLIST_STATE_FILE_CROSSFADE) line with
  | Some v => Ok (rs, set_player (pc_set_cross_fade (f32_of_Z (atoi v)) (w_player w)) w, fp)
  | None =>
  match after_prefix (lit PLAYLIST_STATE_FILE_MIXRAMPDB) line with
  | Some v => Ok (rs, set_player (pc_set_mixramp_db (f32_of_f64 (atof v)) (w_player w)) w, fp)
  | None =>
  match after_prefix (lit PLAYLIST_STATE_FILE_MIXRAMPDELAY) line with
  | Some v => Ok (rs, set_player (pc_set_mixramp_delay (f32_of_f64 (atof v)) (w_player w)) w, fp)
  | None =>
  match after_prefix (lit PLAYLIST_STATE_FILE_RANDOM) line with
  | Some v => Ok (Restore (rs_current rs) (rs_seek_time rs) (is_one v), w, fp)
  | None =>
  match after_prefix (lit PLAYLIST_STATE_FILE_CURRENT) line with
  | Some v => Ok (Restore (atoi v) (rs_seek_time rs) (rs_random_mode rs), w, fp)
  | None =>
      if has_prefix (lit PLAYLIST_STATE_FILE_PLAYLIST_BEGIN) line
      then '(w, fp) ← playlist_state_load fp w; Ok (rs, w, fp)
      else Ok (rs, w, fp)
  end end end end end end end end end.

Fixpoint restore_loop (fuel : nat) (rs : restore) (w : world) (fp : reader) : res (restore * world * reader) :=
  l ← db_read_text_line fp;
  match l with
  | None => Ok (rs, w, fp)
  | Some (line, fp) =>
      match fuel with
      | O => Err OutOfFuel
      | S fuel => '(rs, w, fp) ← restore_line line rs w fp; restore_loop fuel rs w fp
      end
  end.

(** What is done at the end of the file. *)
Definition restore_playback (state : player_state) (rs : restore) (w : world) : res world :=
  w ← playlist_set_random (rs_random_mode rs) w;
  if queue_is_empty (w_queue w) then Ok w else
  let current := if negb (queue_valid_position (w_queue w) (u32 (rs_current rs))) then 0 else rs_current rs in
  let state := if bool_decide (state = PLAYER_STATE_PLAY) && restore_paused then PLAYER_STATE_PAUSE else state in
  w ← (if bool_decide (state = PLAYER_STATE_STOP) then Ok w else with_player pc_update_audio w);
  w ← (if bool_decide (state = PLAYER_STATE_STOP) then Ok (set_current current w)
       else if rs_seek_time rs =? 0 then '(_, w) ← playlist_play current w; Ok w
       else '(_, w) ← playlist_seek_song (u32 current) (f32_of_Z (rs_seek_time rs)) w; Ok w);
  if bool_decide (state = PLAYER_STATE_PAUSE) then with_player pc_pause w else Ok w.

Definition state_of_name (name : cstring) : player_state :=
  if bool_decide (name = lit PLAYLIST_STATE_FILE_STATE_PLAY) then PLAYER_STATE_PLAY
  else if bool_decide (name = lit PLAYLIST_STATE_FILE_STATE_PAUSE) then PLAYER_STATE_PAUSE
  else PLAYER_STATE_STOP.

(** [None] if the line is not the first one of a player's state. *)
Definition playlist_state_restore (line : cstring) (fp : reader) (w : world) : res (option (world * reader)) :=
  match after_prefix (lit PLAYLIST_STATE_FILE_STATE) line with
  | None => Ok None
  | Some name =>
      '(rs, w, fp) ← restore_loop (length (r_rest fp)) (Restore (-1) 0 false) w fp;
      w ← restore_playback (state_of_name name) rs w;
      Ok (Some (w, fp))
  end.

(** Shifts of an [int] wrap around, as GCC defines it. *)
Definition shl (x n : Z) : Z := u32 (Z.shiftl x n).
Definition shl_bool (b : bool) (n : Z) : Z := shl (if b then 1 else 0) n.

Definition state_code (s : player_state) : Z :=
  match s with PLAYER_STATE_STOP => 0 | PLAYER_STATE_PAUSE => 1 | PLAYER_STATE_PLAY => 2 end.

Definition playlist_state_get_hash (w : world) : res (Z * world) :=
  '(st, p) ← pc_get_status (w_player w);
  let w := set_player p w in
  let q := w_queue w in
  elapsed ← (match status_info st with
             | Some (_, _, _, elapsed_time) => e ← float_to_int elapsed_time; Ok (shl e 8)
             | None => Ok 0
             end);
  current ← (if 0 <=? w_current w then
               position ← queue_order_to_position q (u32 (w_current w)); Ok (shl position 16)
             else Ok 0);
  cross_fade ← float_to_int (pc_get_cross_fade p);
  Ok (foldl Z.lxor (q_version q)
        [elapsed; current; shl cross_fade 20; shl (state_code (status_state st)) 24;
         shl_bool (q_random q) 27; shl_bool (q_repeat q) 28; shl_bool (q_single q) 29;
         shl_bool (q_consume q) 30; shl_bool (q_random q) 31], w).

(** ** [src/state_file.c] *)

(** What the state file is about, with [audio_output_state_version]. *)
Record program_state := ProgramState {
  ps_volume : volume_state;
  ps_outputs : list (audio_output D);
  ps_output_version : Z;
  ps_world : world;
}.

Definition on_world (w : world) (ps : program_state) : program_state :=
  ProgramState (ps_volume ps) (ps_outputs ps) (ps_output_version ps) w.

(** [prev_volume_version], [prev_output_version], [prev_playlist_version]. *)
Definition versions : Type := Z * Z * Z.

Definition get_versions (ps : program_state) : res (versions * program_state) :=
  '(h, w) ← playlist_state_get_hash (ps_world ps);
  Ok ((sw_volume_state_get_hash (ps_volume ps), ps_output_version ps, h), on_world w ps).

Definition state_text (ps : program_state) : res (cstring * program_state) :=
  outputs ← audio_output_state_save (ps_outputs ps);
  '(playlist, w) ← playlist_state_save (ps_world ps);
  Ok (save_sw_volume_state (ps_volume ps) ++ outputs ++ playlist, on_world w ps).

(** [writable]: [fopen()] succeeds.  The file, if it was written, and the
    versions. *)
Definition state_file_write (writable : bool) (prev : versions) (ps : program_state)
  : res (option cstring * versions * program_state) :=
  if negb writable then Ok (None, prev, ps) else
  '(text, ps) ← state_text ps;
  '(prev, ps) ← get_versions ps;
  Ok (Some text, prev, ps).

(** One line of the file. *)
Definition read_state_line (line : cstring) (fp : reader) (ps : program_state) : res (program_state * reader) :=
  '(success, (vs, os)) ← read_sw_volume_state line (ps_volume ps) (ps_outputs ps);
  let ps := ProgramState vs os (ps_output_version ps) (ps_world ps) in
  if success : bool then Ok (ps, fp) else
  let '(success, os) := audio_output_state_read line (ps_outputs ps) in
  let ps := ProgramState vs os (ps_output_version ps) (ps_world ps) in
  if success : bool then Ok (ps, fp) else
  r ← playlist_state_restore line fp (ps_world ps);
  Ok (match r with Some (w, fp) => (on_world w ps, fp) | None => (ps, fp) end).

Fixpoint state_lines (fuel : nat) (fp : reader) (ps : program_state) : res program_state :=
  l ← db_read_text_line fp;
  match l with
  | None => Ok ps
  | Some (line, fp) =>
      match fuel with
      | O => Err OutOfFuel
      | S fuel => '(ps, fp) ← read_state_line line fp ps; state_lines fuel fp ps
      end
  end.

(** [file]: the contents, if it can be opened. *)
Definition state_file_read (file : option cstring) (prev : versions) (ps : program_state) : res (versions * program_state) :=
  match file with
  | None => Ok (prev, ps)
  | Some text =>
      ps ← state_lines (length text) (Reader new_buffer text) ps;
      get_versions ps
  end.

(** Every five minutes; the hash of the playlist is only computed if the
    others have not changed. *)
Definition timer_save_state_file (writable : bool) (prev : versions) (ps : program_state)
  : res (option cstring * versions * program_state) :=
  let '(volume, output, hash) := prev in
  '(unchanged, ps) ← (if (volume =? sw_volume_state_get_hash (ps_volume ps)) && (output =? ps_output_version ps)
                      then '(h, w) ← playlist_state_get_hash (ps_world ps); Ok (hash =? h, on_world w ps)
                      else Ok (false, ps));
  if unchanged : bool then Ok (None, prev, ps) else state_file_write writable prev ps.

End state_file.

Arguments program_state {_ _} D.
