(* ===== verification/StateFileTheorems.v ===== *)
(** * The state file is read back

    Everything that is written into the state file is found there when the
    program starts: the volume, the outputs that are switched off, the songs
    with their priorities and the options. *)

From S2P Require Import Prelude Err GLib Float CString Uri Strtod TextFile Directory SimpleDb SimpleDbRoundtrip.
From S2P Require Import Song EventPipe PlayerControl PlayQueue PlayQueueRep PlayQueueEdit PlayQueueInv Playlist PlaylistInv.
From S2P Require Import AudioFormat Pcm Mixer Output OutputTheorems OutputAll StateFile PlaylistSafety PlaylistDefects ServerSamples.
Local Open Scope Z_scope.

(** ** Lines *)

Lemma put_line_unlines p v : put_line p v = unlines [lit p ++ v].
Proof. unfold put_line, unlines. cbn [map concat]. by rewrite app_nil_r, app_assoc. Qed.

Lemma cons_inv {A} (x y : A) l m : x :: l = y :: m -> x = y /\ l = m.
Proof. by intros [= -> ->]. Qed.

Lemma print_bool_one b : is_one (print_bool b) = b.
Proof. by destruct b. Qed.

Section songs.
Context {G : GLib} {HG : GLibSpec G} {GS : GString} {HGS : GStringSpec GS}.
Variable db_get_song : string -> option song.
Variable malloc : Z -> Z.

(** A song that is found again by its URI. *)
Record restorable (s : song) : Prop := {
  restorable_uri : exists uri, song_get_uri s = Ok uri /\ good_text (lit uri) /\ uri <> ""%string /\
    (uri_has_scheme (lit uri) = true \/
     exists s', db_get_song uri = Some s' /\ song_get_uri s' = Ok uri);
}.

Definition good_entry (it : queue_item) : Prop := restorable (item_song it) /\ 0 <= item_priority it < 256.

Definition uri_of (s : song) : cstring := match song_get_uri s with Ok u => lit u | Err _ => [] end.

(** What is kept of the items: the URIs and the priorities. *)
Definition kept (it : queue_item) : cstring * Z := (uri_of (item_song it), item_priority it).

(** The lines of an item. *)
Definition item_lines (i : nat) (it : queue_item) : list cstring :=
  (if item_priority it =? 0 then [] else [lit PRIO_LABEL ++ print_u (item_priority it)]) ++
  [print_i (i32 (Z.of_nat i)) ++ lit ":" ++ uri_of (item_song it)].

Fixpoint items_lines (i : nat) (its : list queue_item) : list cstring :=
  match its with [] => [] | it :: its => item_lines i it ++ items_lines (S i) its end.

Lemma items_lines_snoc i its it : items_lines i (its ++ [it]) = items_lines i its ++ item_lines (i + length its) it.
Proof using.
  clear. revert i. induction its as [|x its IH]; intros i; cbn [items_lines app length].
  - by rewrite app_nil_r, Nat.add_0_r.
  - rewrite IH, app_assoc. by replace (i + S (length its))%nat with (S i + length its)%nat by lia.
Qed.

Lemma restorable_get s : restorable s -> exists u, song_get_uri s = Ok u /\ uri_of s = lit u.
Proof using. clear. intros [(u & E & _)]. exists u. split; [done|]. unfold uri_of. by rewrite E. Qed.

Lemma queue_save_ok q its ord :
  q_rep q its ord -> Forall good_entry its -> queue_save q = Ok (unlines (items_lines 0 its)).
Proof using.
  clear HG HGS. intros Hrep Hg. unfold queue_save. rewrite (queue_length_ok _ _ _ Hrep). cbn [mbind res_bind].
  match goal with |- for_range _ _ ?body ?t0 = _ =>
    assert (wp (for_range (Z.of_nat 0) (Z.of_nat (length its)) body t0) (fun t => t = unlines (items_lines 0 its))) as Hw
  end.
  - replace (items_lines 0 its) with (items_lines 0 (take (length its) its)) by (by rewrite take_ge).
    apply (for_range_inv (fun k text => text = unlines (items_lines 0 (take k its))) _ 0 (length its)); [lia|done|].
    intros k text Hk ->. destruct (lookup_lt_is_Some_2 its k) as [it Hit]; [lia|].
    pose proof (Forall_lookup_1 _ _ _ _ Hg Hit) as [Hs Hp]. destruct (restorable_get _ Hs) as (u & Eu & El).
    unfold queue_get_priority_at_position. pose proof (rep_lt_length _ _ _ Hrep k ltac:(lia)) as Hlt. rewrite Hlt. cbn [assert mbind res_bind].
    rewrite (rep_get_item _ _ _ Hrep _ _ Hit). cbn [mbind res_bind].
    rewrite (queue_get_ok _ _ _ Hrep _ _ Hit). cbn [mbind res_bind]. unfold queue_save_song. rewrite Eu. cbn [mbind res_bind wp].
    rewrite (take_S_r _ _ _ Hit), items_lines_snoc, unlines_app, length_take. unfold item_lines.
    rewrite Nat.min_l by lia. rewrite unlines_app, El, !put_line_unlines, <- app_assoc. f_equal. f_equal.
    + by destruct (item_priority it =? 0).
    + unfold unlines. cbn [map concat]. by rewrite app_nil_r, <- !app_assoc.
  - apply wp_inv in Hw as (text & E & ->). exact E.
Qed.

(** *** Reading *)

Lemma uri_get u : String.string_of_list_ascii (lit u) = u.
Proof using. clear. apply String.string_of_list_ascii_of_string. Qed.

Lemma find_song_ok s u ptr :
  restorable s -> song_get_uri s = Ok u ->
  exists s', get_song db_get_song (lit u) ptr = Ok (Some s') /\ song_get_uri s' = Ok u.
Proof using.
  clear. intros [(u' & E & _ & Hne & Hfind)] E'. assert (u' = u) as -> by congruence. unfold get_song. rewrite uri_get.
  destruct (uri_has_scheme (lit u)) eqn:Es.
  - unfold song_remote_new, song_alloc. rewrite bool_decide_true by done. cbn [assert mbind res_bind].
    eexists. split; [done|]. unfold song_get_uri. cbn [song_uri song_parent]. by rewrite bool_decide_true.
  - destruct Hfind as [?|(s' & -> & Hs')]; [done|]. by exists s'.
Qed.

Lemma append_entry q its ord s prio :
  q_inv q its ord -> Z.of_nat (length its) < q_max_length q ->
  exists id q', queue_append q s prio = Ok (id, q') /\
    q_inv q' (its ++ [Item s id (q_version q) prio]) (ord ++ [length its]) /\ q_frame q q'.
Proof using.
  clear HG. intros Hinv Hroom.
  destruct (queue_append_ok q its ord s prio (inv_rep _ _ _ Hinv) Hroom) as (id & q' & Heq & Hrep & _ & Hf & Hv).
  exists id, q'. split_and!; try done. eapply q_inv_step; [done..| |].
  - intros Hr. rewrite length_app. simpl. rewrite Nat.add_1_r, seq_S.
    f_equal. apply (inv_ident _ _ _ Hinv). destruct Hf. congruence.
  - apply Forall_app. split; [by eapply q_inv_versions|].
    apply Forall_singleton. simpl. pose proof (q_inv_version_pos _ _ _ Hinv). lia.
Qed.

(** A number begins with a digit. *)
Lemma print_i_digit n : 0 <= n < 2 ^ 64 -> exists c ds, print_i n = c :: ds /\ is_digit c = true.
Proof using.
  clear. intros H. unfold print_i. rewrite (proj2 (Z.ltb_ge n 0)) by lia. destruct (print_u_spec n H) as (Hd & _ & Hne).
  destruct (print_u n) as [|c ds]; [done|]. exists c, ds. split; [done|]. by apply andb_prop in Hd as [].
Qed.

Lemma digit_no_prefix p c ds : is_digit c = true -> is_digit (hd "0"%char p) = false -> has_prefix p (c :: ds) = false.
Proof using. clear. intros Hc Hp. destruct p as [|d p]; [done|]. simpl in *. rewrite bool_decide_false; [done|congruence]. Qed.

Definition pending (line : cstring) (fp : reader) (lines : list cstring) : Prop :=
  exists ls, lines = line :: ls /\ reads fp ls.

Lemma read_uri_ok q its ord it (i : nat) :
  q_inv q its ord -> Z.of_nat (length its) < q_max_length q -> good_entry it -> Z.of_nat i < 2 ^ 31 ->
  exists it' q', queue_load_uri db_get_song malloc (print_i (i32 (Z.of_nat i)) ++ lit ":" ++ uri_of (item_song it)) (item_priority it) q
      = Ok q' /\ q_inv q' (its ++ [it']) (ord ++ [length its]) /\ q_frame q q' /\ kept it' = kept it.
Proof using.
  clear HG. intros Hinv Hroom [Hs Hp] Hi. rewrite i32_small by lia. unfold queue_load_uri.
  rewrite (strtol_print_i (Z.of_nat i)) by (done || lia). destruct (restorable_get _ Hs) as (u & Eu & El). rewrite El.
  pose proof Hs as [(u' & E' & _ & Hne & _)]. assert (u' = u) as -> by congruence.
  destruct u as [|c u]; [done|]. change (lit ":" ++ lit (String.String c u)) with (":"%char :: c :: lit u). cbv iota.
  rewrite (proj2 (Z.ltb_ge _ _)), bool_decide_true by (done || lia). cbn [negb orb].
  destruct (find_song_ok _ _ (malloc (q_length q)) Hs Eu) as (s' & Eg & Es').
  change (c :: lit u) with (lit (String.String c u)). rewrite Eg. cbn [mbind res_bind].
  destruct (append_entry q its ord s' (item_priority it) Hinv Hroom) as (id & q' & Ea & Hinv' & Hf).
  rewrite Ea. cbn [mbind res_bind]. eexists _, q'. split; [done|]. split; [exact Hinv'|]. split; [done|].
  unfold kept. cbn [item_song item_priority]. f_equal. unfold uri_of. by rewrite Es', Eu.
Qed.

Lemma good_uri_line i it :
  good_entry it -> Z.of_nat i < 2 ^ 31 -> good_line (print_i (i32 (Z.of_nat i)) ++ lit ":" ++ uri_of (item_song it)).
Proof using.
  clear. intros [[(u & E & Ht & _)] _] Hi. rewrite i32_small by lia. unfold uri_of. rewrite E.
  destruct (print_i_digit (Z.of_nat i)) as (c & ds & El & _); [lia|].
  rewrite app_assoc. apply good_prefix; [clean|by rewrite El|short|done].
Qed.

Lemma good_prio_line p : 0 <= p < 256 -> good_line (lit PRIO_LABEL ++ print_u p).
Proof using. clear. intros Hp. apply good_clean; [clean|done|short]. Qed.

(** One item is loaded from its lines, and the next line is read. *)
Lemma load_entry q its ord it (i : nat) line fp rest :
  q_inv q its ord -> Z.of_nat (length its) < q_max_length q -> good_entry it -> Z.of_nat i < 2 ^ 31 ->
  pending line fp (item_lines i it ++ rest) ->
  exists it' q' fp', queue_load_song db_get_song malloc line fp q = Ok (q', fp') /\
    q_inv q' (its ++ [it']) (ord ++ [length its]) /\ q_frame q q' /\ kept it' = kept it /\ reads fp' rest /\
    has_prefix (lit PLAYLIST_STATE_FILE_PLAYLIST_END) line = false.
Proof using HGS.
  clear HG. intros Hinv Hroom Hg Hi (ls & El & Hr). pose proof Hg as [_ Hp]. unfold queue_load_song.
  rewrite (queue_is_full_ok _ _ _ (inv_rep _ _ _ Hinv)). cbn [mbind res_bind].
  rewrite (proj2 (Z.leb_gt _ _)) by lia.
  destruct (read_uri_ok q its ord it i Hinv Hroom Hg Hi) as (it' & q' & E & Hinv' & Hf & Hk).
  unfold item_lines in El. destruct (Z.eqb_spec (item_priority it) 0) as [E0|E0]; cbn [app] in El; apply cons_inv in El as [<- <-].
  - rewrite E0 in E. destruct (print_i_digit (i32 (Z.of_nat i))) as (c & ds & Ec & Hc); [rewrite i32_small by lia; lia|].
    unfold after_prefix. rewrite Ec in *. cbn [app] in *. rewrite !digit_no_prefix by done.
    rewrite E. cbn [mbind res_bind]. exists it', q', fp. by split_and!.
  - rewrite after_prefix_app.
    destruct (read_line fp _ _ Hr (good_uri_line i it Hg Hi)) as (fp' & -> & Hr' & _). cbn [mbind res_bind].
    rewrite <- (app_nil_r (print_u _)), strtoul_print by (done || lia). cbn [fst].
    rewrite Z.mod_small by lia. rewrite E. cbn [mbind res_bind]. exists it', q', fp'. by split_and!.
Qed.

Lemma items_lines_length i its : (length its <= length (items_lines i its))%nat.
Proof using.
  clear. revert i. induction its as [|it its IH]; intros i; cbn [items_lines length]; [lia|].
  rewrite length_app. specialize (IH (S i)). unfold item_lines. rewrite length_app. simpl. lia.
Qed.

Lemma good_end_line : good_line (lit PLAYLIST_STATE_FILE_PLAYLIST_END).
Proof using. clear. by apply good_clean; [vm_compute| |simpl; lia]. Qed.

(** The first of the lines of an item. *)
Lemma first_line_good i it rest :
  good_entry it -> Z.of_nat i < 2 ^ 31 -> exists line ls, item_lines i it ++ rest = line :: ls /\ good_line line.
Proof using.
  clear. intros Hg Hi. unfold item_lines. destruct (item_priority it =? 0); cbn [app]; do 2 eexists; (split; [done|]).
  - by apply good_uri_line.
  - apply good_prio_line, Hg.
Qed.

Lemma load_step fuel line fp q q1 fp1 line1 fp2 :
  has_prefix (lit PLAYLIST_STATE_FILE_PLAYLIST_END) line = false ->
  queue_load_song db_get_song malloc line fp q = Ok (q1, fp1) -> db_read_text_line fp1 = Ok (Some (line1, fp2)) ->
  playlist_load_loop db_get_song malloc (S fuel) line fp q = playlist_load_loop db_get_song malloc fuel line1 fp2 q1.
Proof using. clear. intros Hend E E2. cbn [playlist_load_loop]. rewrite Hend, E, bind_value, E2. done. Qed.

Lemma load_last fuel fp q :
  playlist_load_loop db_get_song malloc fuel (lit PLAYLIST_STATE_FILE_PLAYLIST_END) fp q = Ok (q, fp).
Proof using. clear. by destruct fuel. Qed.

(** The line behind an item: of the next one, or the last. *)
Lemma next_line_good i its more :
  Forall good_entry its -> Z.of_nat (i + length its) < 2 ^ 31 ->
  exists line ls, items_lines i its ++ [lit PLAYLIST_STATE_FILE_PLAYLIST_END] ++ more = line :: ls /\ good_line line.
Proof using.
  clear. intros Hg Hi. destruct its as [|it its].
  - exists (lit PLAYLIST_STATE_FILE_PLAYLIST_END), more. split; [done|apply good_end_line].
  - apply Forall_cons in Hg as [Hg _]. cbn [items_lines length] in *. rewrite <- app_assoc. apply first_line_good; [done|lia].
Qed.

Lemma load_loop_ok its2 : forall fuel i q its1 ord line fp more,
  q_inv q its1 ord -> Z.of_nat (length its1 + length its2) <= q_max_length q -> Forall good_entry its2 ->
  Z.of_nat (i + length its2) < 2 ^ 31 -> (length its2 <= fuel)%nat ->
  pending line fp (items_lines i its2 ++ [lit PLAYLIST_STATE_FILE_PLAYLIST_END] ++ more) ->
  exists its' q' ord' fp', playlist_load_loop db_get_song malloc fuel line fp q = Ok (q', fp') /\
    q_inv q' (its1 ++ its') ord' /\ q_frame q q' /\ map kept its' = map kept its2 /\ reads fp' more.
Proof using HGS.
  clear HG. induction its2 as [|it its2 IH]; intros fuel i q its1 ord line fp more Hinv Hroom Hg Hi Hf Hp.
  - destruct Hp as (ls & [<- <-]%cons_inv & Hr). exists [], q, ord, fp. rewrite app_nil_r, load_last. by split_and!.
  - apply Forall_cons in Hg as [Hit Hg]. cbn [items_lines] in Hp. rewrite <- app_assoc in Hp. cbn [length] in *.
    destruct (load_entry q its1 ord it i line fp _ Hinv ltac:(lia) Hit ltac:(lia) Hp)
      as (it' & q1 & fp1 & E & Hinv1 & Hf1 & Hk & Hr1 & Hend).
    destruct (next_line_good (S i) its2 more Hg ltac:(lia)) as (line1 & ls1 & El & Hl).
    pose proof Hr1 as Hr1'. rewrite El in Hr1'. destruct (read_line fp1 line1 ls1 Hr1' Hl) as (fp2 & E2 & Hr2 & _).
    destruct fuel as [|fuel]; [lia|].
    destruct (IH fuel (S i) q1 (its1 ++ [it']) (ord ++ [length its1]) line1 fp2 more) as (its' & q' & ord' & fp' & E' & Hinv' & Hf' & Hk' & Hr').
    + done.
    + rewrite length_app. destruct Hf1 as [-> _ _ _ _]. simpl. lia.
    + done.
    + lia.
    + lia.
    + exists ls1. split; [done|]. exact Hr2.
    + exists (it' :: its'), q', ord', fp'. split.
      { rewrite (load_step fuel line fp q q1 fp1 line1 fp2) by done. exact E'. }
      split; [by rewrite <- app_assoc in Hinv'|]. split; [by etrans|]. split; [|done].
      cbn [map]. by rewrite Hk, Hk'.
Qed.

End songs.

(** ** Options *)

Section options.
Context {G : GLib} {HG : GLibSpec G} {T : PlayerThread} {HT : PlayerThreadSpec T} {GS : GString} {HGS : GStringSpec GS}.
Variable db_get_song : string -> option song.
Variable malloc : Z -> Z.

Abbreviation line_of := (restore_line db_get_song malloc).

(** Cross-fading and the two values of MixRamp. *)
Definition fading (p : player) : float * float * float :=
  (pc_get_cross_fade p, pc_get_mixramp_db p, pc_get_mixramp_delay p).

(** A playlist that has just been created, apart from its queue. *)
Record calm (q : queue) (f : float * float * float) (w : world) : Prop := {
  calm_queue : w_queue w = q;
  calm_playing : w_playing w = false;
  calm_current : w_current w = -1;
  calm_queued : w_queued w = -1;
  calm_fading : fading (w_player w) = f;
  calm_player : player_ok (w_player w);
  calm_next : next_song (w_player w) = None;
}.

Lemma calm_queued_song q f w : calm q f w -> playlist_get_queued_song w = Ok None.
Proof using. clear. intros [? Hp _ _ _ _ _]. unfold playlist_get_queued_song. by rewrite Hp. Qed.

Lemma calm_update q f w prev : calm q f w -> playlist_update_queued_song prev w = Ok w.
Proof using. clear. intros [? Hp _ _ _ _ _]. unfold playlist_update_queued_song. by rewrite Hp. Qed.

(** Setting fields that concern nobody else. *)
Lemma calm_idle q f w flags : calm q f w -> calm q f (w_idle_add flags w).
Proof using. clear. intros []. by split. Qed.

Lemma calm_set_queue q f w q' : calm q f w -> calm q' f (set_queue q' w).
Proof using. clear. intros []. by split. Qed.

Lemma calm_border q f w b : calm q f w -> calm q f (set_player (pc_set_border_pause b (w_player w)) w).
Proof using.
  clear. intros [H1 H2 H3 H4 H5 H6 H7]. split; try done. by eapply player_ok_frame.
Qed.

Lemma calm_repeat b q f w :
  calm q f w -> exists w', playlist_set_repeat b w = Ok w' /\ calm (set_modes b (q_single q) (q_consume q) (q_random q) q) f w'.
Proof using.
  clear. intros H. unfold playlist_set_repeat. rewrite (calm_queue _ _ _ H). destruct (Bool.eqb b (q_repeat q)) eqn:Eb.
  - apply eqb_prop in Eb as ->. exists w. split; [done|]. by destruct q.
  - set (q1 := set_modes b _ _ _ q). pose proof (calm_border _ _ _ (q_single q1 && negb (q_repeat q1)) (calm_set_queue _ _ _ q1 H)) as H1.
    rewrite (calm_queued_song _ _ _ H1). cbn [mbind res_bind]. rewrite (calm_update _ _ _ _ H1). cbn [mbind res_bind].
    eexists. split; [done|]. by apply calm_idle.
Qed.

Lemma calm_single b q f w :
  calm q f w -> exists w', playlist_set_single b w = Ok w' /\ calm (set_modes (q_repeat q) b (q_consume q) (q_random q) q) f w'.
Proof using.
  clear. intros H. unfold playlist_set_single. rewrite (calm_queue _ _ _ H). destruct (Bool.eqb b (q_single q)) eqn:Eb.
  - apply eqb_prop in Eb as ->. exists w. split; [done|]. by destruct q.
  - set (q1 := set_modes _ b _ _ q). pose proof (calm_border _ _ _ (q_single q1 && negb (q_repeat q1)) (calm_set_queue _ _ _ q1 H)) as H1.
    rewrite (calm_queued_song _ _ _ H1). cbn [mbind res_bind]. rewrite (calm_update _ _ _ _ H1). cbn [mbind res_bind].
    eexists. split; [done|]. by apply calm_idle.
Qed.

Lemma calm_consume b q f w :
  calm q f w -> calm (set_modes (q_repeat q) (q_single q) b (q_random q) q) f (playlist_set_consume b w).
Proof using.
  clear. intros H. unfold playlist_set_consume. rewrite (calm_queue _ _ _ H). destruct (Bool.eqb b (q_consume q)) eqn:Eb.
  - apply eqb_prop in Eb as ->. by destruct q.
  - apply calm_idle. by eapply calm_set_queue.
Qed.

(** The values that are set from the file. *)
Definition stored_float (x : float) : float := f32_of_f64 (atof (print_f 6 (f64_of_f32 x))).

Lemma calm_fade q f w p' :
  calm q f w -> p_thread p' = p_thread (w_player w) -> pc_command (p_control p') = pc_command (p_control (w_player w)) ->
  pc_state (p_control p') = pc_state (p_control (w_player w)) -> next_song p' = next_song (w_player w) ->
  calm q (fading p') (set_player p' w).
Proof using.
  clear. intros [H1 H2 H3 H4 H5 H6 H7] Et Ec Es En. split; try done; [by eapply player_ok_frame|]. by rewrite <- H7, <- En.
Qed.

(** *** Lines *)

Lemma digits_of_digits fuel n : forallb is_digit (digits_of fuel n) = true.
Proof using.
  clear. revert n. induction fuel as [|fuel IH]; intros n; [done|]. cbn [digits_of]. rewrite forallb_app.
  assert (forallb is_digit (if n <? 10 then [] else digits_of fuel (n / 10)) = true) as -> by (destruct (n <? 10); [done|apply IH]).
  cbn [forallb andb]. unfold is_digit. pose proof (Z.mod_pos_bound n 10).
  rewrite digit_char_code by lia. rewrite andb_true_r. apply andb_true_intro. split; apply Z.leb_le; lia.
Qed.

Lemma fixed_good (s : bool) a b :
  let t := (if s then lit "-" else []) ++ digits_of 400 a ++
           (if decide (6%nat = 0%nat) then [] else lit "." ++ pad_zeros 6 (digits_of 400 b)) in
  forallb clean_char t = true /\ (length t <= 1000)%nat.
Proof using.
  clear. cbv zeta. rewrite decide_False by done. unfold pad_zeros.
  assert (Hd : forall n, forallb clean_char (digits_of 400 n) = true) by (intros n; apply clean_digits, digits_of_digits).
  assert (Hz : forall k, forallb clean_char (replicate k "0"%char) = true) by (intros k; by induction k).
  pose proof (digits_length 400 a) as Ha. pose proof (digits_length 400 b) as Hb. pose proof (Hd a) as Hca. pose proof (Hd b) as Hcb.
  clear Hd. revert Ha Hb Hca Hcb. generalize (digits_of 400 a) (digits_of 400 b). intros x y Hx Hy Hcx Hcy.
  rewrite !forallb_app, !length_app, length_replicate, Hcx, Hcy, Hz. destruct s; (split; [done|simpl; lia]).
Qed.

Lemma print_f_good x : good_text (print_f 6 x).
Proof using.
  clear. assert (H : forallb clean_char (print_f 6 x) = true /\ (length (print_f 6 x) <= 1000)%nat).
  { destruct x as [s|s| |s m e]; [apply fixed_good| | |apply fixed_good]; [destruct s|]; (split; [done|simpl; lia]). }
  destruct H as [H1 H2]. split; [by apply clean_newline|by apply clean_last|]. pose proof max_length_eq. lia.
Qed.

Lemma good_value p v : forallb clean_char p = true -> p <> [] -> (length p <= 50)%nat ->
  forallb clean_char v = true -> (length v <= 50)%nat -> good_line (p ++ v).
Proof using.
  clear. intros Hp Hne Hl Hv Hlv. apply good_clean; [by rewrite clean_app, Hp, Hv|by destruct p|rewrite length_app; lia].
Qed.

Lemma restore_step fuel rs w fp line fp1 r :
  db_read_text_line fp = Ok (Some (line, fp1)) -> line_of line rs w fp1 = Ok r ->
  restore_loop db_get_song malloc (S fuel) rs w fp = restore_loop db_get_song malloc fuel r.1.1 r.1.2 r.2.
Proof using. clear. intros E1 E2. cbn [restore_loop]. rewrite E1, bind_value, E2. by destruct r as [[rs' w'] fp']. Qed.

(** The loop goes over lines. *)
Definition restores (rs : restore) (w : world) (ls : list cstring) (rs' : restore) (w' : world) : Prop :=
  forall fp fuel more, reads fp (ls ++ more) -> (length (r_rest fp) <= fuel)%nat ->
  exists fp' fuel', restore_loop db_get_song malloc fuel rs w fp = restore_loop db_get_song malloc fuel' rs' w' fp' /\
    reads fp' more /\ (length (r_rest fp') <= fuel')%nat.

Lemma restores_nil rs w : restores rs w [] rs w.
Proof using. clear. intros fp fuel more Hr Hf. by exists fp, fuel. Qed.

Lemma restores_trans rs1 w1 a rs2 w2 b rs3 w3 :
  restores rs1 w1 a rs2 w2 -> restores rs2 w2 b rs3 w3 -> restores rs1 w1 (a ++ b) rs3 w3.
Proof using.
  clear. intros Ha Hb fp fuel more Hr Hf. rewrite <- app_assoc in Hr.
  destruct (Ha fp fuel _ Hr Hf) as (fp1 & fuel1 & E1 & Hr1 & Hf1). rewrite E1. by apply Hb.
Qed.

Lemma restores_line rs w l rs' w' :
  good_line l -> (forall fp, line_of l rs w fp = Ok (rs', w', fp)) -> restores rs w [l] rs' w'.
Proof using HGS.
  clear HG HT. intros Hl Hw fp fuel more Hr Hf. destruct (read_line fp l more Hr Hl) as (fp1 & E & Hr1 & Hlt).
  destruct fuel as [|fuel]; [lia|]. exists fp1, fuel. split; [|split; [done|lia]].
  rewrite (restore_step fuel rs w fp l fp1 (rs', w', fp1)) by done. done.
Qed.

Lemma restores_end rs w ls rs' w' fp fuel :
  restores rs w ls rs' w' -> reads fp ls -> (length (r_rest fp) <= fuel)%nat ->
  exists fp', restore_loop db_get_song malloc fuel rs w fp = Ok (rs', w', fp') /\ reads fp' [].
Proof using HGS.
  clear HG HT. intros H Hr Hf. rewrite <- (app_nil_r ls) in Hr. destruct (H fp fuel [] Hr Hf) as (fp' & fuel' & E & Hr' & _).
  exists fp'. split; [|done]. rewrite E. destruct fuel'; cbn [restore_loop]; by rewrite (read_end fp' Hr').
Qed.

(** Which line it is. *)
Ltac which_line :=
  unfold restore_line;
  repeat first [rewrite after_prefix_app |
    match goal with |- context [after_prefix (lit ?p) (lit ?q ++ ?v)] =>
      change (after_prefix (lit p) (lit q ++ v)) with (@None cstring) end]; cbv iota.

Lemma restores_seek rs w t :
  - 2 ^ 31 <= t < 2 ^ 31 ->
  restores rs w [lit PLAYLIST_STATE_FILE_TIME ++ print_i t] (Restore (rs_current rs) t (rs_random_mode rs)) w.
Proof using HGS.
  clear HG HT. intros Ht. apply restores_line; [apply good_clean; [clean|done|short]|]. intros fp. which_line.
  unfold atoi. rewrite <- (app_nil_r (print_i t)), strtol_print_i by (done || lia). cbn [fst]. by rewrite i32_small by lia.
Qed.

Lemma restores_current rs w p :
  - 2 ^ 31 <= p < 2 ^ 31 ->
  restores rs w [lit PLAYLIST_STATE_FILE_CURRENT ++ print_i p] (Restore p (rs_seek_time rs) (rs_random_mode rs)) w.
Proof using HGS.
  clear HG HT. intros Ht. apply restores_line; [apply good_clean; [clean|done|short]|]. intros fp. which_line.
  unfold atoi. rewrite <- (app_nil_r (print_i p)), strtol_print_i by (done || lia). cbn [fst]. by rewrite i32_small by lia.
Qed.

Ltac bool_line b := apply good_clean; [by destruct b|by destruct b|destruct b; simpl; lia].

Lemma restores_random rs w b :
  restores rs w [lit PLAYLIST_STATE_FILE_RANDOM ++ print_bool b] (Restore (rs_current rs) (rs_seek_time rs) b) w.
Proof using HGS.
  clear HG HT. apply restores_line; [bool_line b|]. intros fp. which_line. by rewrite print_bool_one.
Qed.

Lemma restores_repeat rs q f w b :
  calm q f w ->
  exists w', calm (set_modes b (q_single q) (q_consume q) (q_random q) q) f w' /\
    restores rs w [lit PLAYLIST_STATE_FILE_REPEAT ++ print_bool b] rs w'.
Proof using HGS.
  clear HG. intros H. destruct (calm_repeat b _ _ _ H) as (w' & E & H'). exists w'. split; [done|].
  apply restores_line; [bool_line b|]. intros fp. which_line. by rewrite print_bool_one, E.
Qed.

Lemma restores_single rs q f w b :
  calm q f w ->
  exists w', calm (set_modes (q_repeat q) b (q_consume q) (q_random q) q) f w' /\
    restores rs w [lit PLAYLIST_STATE_FILE_SINGLE ++ print_bool b] rs w'.
Proof using HGS.
  clear HG. intros H. destruct (calm_single b _ _ _ H) as (w' & E & H'). exists w'. split; [done|].
  apply restores_line; [bool_line b|]. intros fp. which_line. by rewrite print_bool_one, E.
Qed.

Lemma restores_consume rs q f w b :
  calm q f w ->
  exists w', calm (set_modes (q_repeat q) (q_single q) b (q_random q) q) f w' /\
    restores rs w [lit PLAYLIST_STATE_FILE_CONSUME ++ print_bool b] rs w'.
Proof using HGS.
  clear HG. intros H. exists (playlist_set_consume b w). split; [by apply calm_consume|].
  apply restores_line; [bool_line b|]. intros fp. which_line. by rewrite print_bool_one.
Qed.

(** [pc_set_cross_fade()] does not take negative numbers. *)
Definition stored_fade (i : Z) : float := if f_ltb (f32_of_Z i) f_zero then f_zero else f32_of_Z i.

Lemma restores_crossfade rs q cf db dl w i :
  calm q (cf, db, dl) w -> - 2 ^ 31 <= i < 2 ^ 31 ->
  exists w', calm q (stored_fade i, db, dl) w' /\
    restores rs w [lit PLAYLIST_STATE_FILE_CROSSFADE ++ print_i i] rs w'.
Proof using HGS.
  clear HG. intros H Hi. exists (set_player (pc_set_cross_fade (f32_of_Z i) (w_player w)) w). split.
  - pose proof (calm_fading _ _ _ H) as [= <- <- <-].
    apply (calm_fade _ _ _ (pc_set_cross_fade (f32_of_Z i) (w_player w)) H); done.
  - apply restores_line; [apply good_clean; [clean|done|short]|]. intros fp. which_line. unfold atoi.
    rewrite <- (app_nil_r (print_i i)), strtol_print_i by (done || lia). cbn [fst]. by rewrite i32_small by lia.
Qed.

Lemma restores_mixrampdb rs q cf db dl w x :
  calm q (cf, db, dl) w ->
  exists w', calm q (cf, stored_float x, dl) w' /\
    restores rs w [lit PLAYLIST_STATE_FILE_MIXRAMPDB ++ print_f 6 (f64_of_f32 x)] rs w'.
Proof using HGS.
  clear HG. intros H. exists (set_player (pc_set_mixramp_db (stored_float x) (w_player w)) w). split.
  - pose proof (calm_fading _ _ _ H) as [= <- <- <-].
    apply (calm_fade _ _ _ (pc_set_mixramp_db (stored_float x) (w_player w)) H); done.
  - apply restores_line; [apply good_prefix; [done|done|simpl; lia|apply print_f_good]|]. intros fp. by which_line.
Qed.

Lemma restores_mixrampdelay rs q cf db dl w x :
  calm q (cf, db, dl) w ->
  exists w', calm q (cf, db, stored_float x) w' /\
    restores rs w [lit PLAYLIST_STATE_FILE_MIXRAMPDELAY ++ print_f 6 (f64_of_f32 x)] rs w'.
Proof using HGS.
  clear HG. intros H. exists (set_player (pc_set_mixramp_delay (stored_float x) (w_player w)) w). split.
  - pose proof (calm_fading _ _ _ H) as [= <- <- <-].
    apply (calm_fade _ _ _ (pc_set_mixramp_delay (stored_float x) (w_player w)) H); done.
  - apply restores_line; [apply good_prefix; [done|done|simpl; lia|apply print_f_good]|]. intros fp. by which_line.
Qed.

(** *** The songs *)

Lemma unversioned_kept its its' : unversioned its' = unversioned its -> map kept its' = map kept its.
Proof using.
  clear. intros H. assert (E : forall l, map kept l = map kept (unversioned l)).
  { intros l. unfold unversioned. change (item_set_version 0 <$> l) with (map (item_set_version 0) l). by rewrite map_map. }
  by rewrite E, H, <- E.
Qed.

Lemma reads_shorter fp fp' a b : reads fp (a ++ b) -> reads fp' b -> (length (r_rest fp') <= length (r_rest fp))%nat.
Proof using. clear. intros [-> _] [-> _]. rewrite unlines_app, length_app. lia. Qed.

Lemma state_load_ok q f w ord its2 fp more :
  calm q f w -> q_inv q [] ord -> Forall (good_entry db_get_song) its2 -> Z.of_nat (length its2) <= q_max_length q ->
  reads fp (items_lines 0 its2 ++ [lit PLAYLIST_STATE_FILE_PLAYLIST_END] ++ more) ->
  exists q' its' ord' fp', playlist_state_load db_get_song malloc fp w = Ok (set_queue q' w, fp') /\
    q_inv q' its' ord' /\ q_frame q q' /\ map kept its' = map kept its2 /\ reads fp' more.
Proof using HGS.
  clear HG. intros Hc Hinv Hg Hroom Hr. unfold playlist_state_load.
  pose proof (rep_max _ _ _ (inv_rep _ _ _ Hinv)) as [_ Hmax]. unfold QUEUE_HASH_MULT in Hmax.
  destruct (next_line_good db_get_song 0 its2 more Hg) as (line & ls & El & Hl); [lia|]. rewrite El in Hr.
  destruct (read_line fp line ls Hr Hl) as (fp1 & E1 & Hr1 & _). rewrite E1, bind_value. rewrite (calm_queue _ _ _ Hc).
  assert (Hlen : (length its2 <= length (r_rest fp1))%nat).
  { pose proof (lines_rest _ _ Hr1) as H1. pose proof (items_lines_length 0 its2) as H2.
    pose proof (f_equal length El) as H3. rewrite !length_app in H3. simpl in H3. lia. }
  destruct (load_loop_ok db_get_song malloc its2 (length (r_rest fp1)) 0 q [] ord line fp1 more Hinv) as (its' & q1 & ord' & fp' & E & Hinv' & Hf & Hk & Hr').
  - simpl. lia.
  - done.
  - lia.
  - done.
  - by exists ls.
  - rewrite E. cbn [mbind res_bind].
    destruct (q_inv_increment_version q1 its' ord' Hinv') as (q2 & its2' & E2 & Hinv2 & Hf2 & Hu). rewrite E2. cbn [mbind res_bind].
    exists q2, its2', ord', fp'. split; [done|]. split; [done|]. split; [by etrans|]. split; [|done].
    by rewrite (unversioned_kept _ _ Hu).
Qed.

Definition song_lines (its : list queue_item) : list cstring :=
  [lit PLAYLIST_STATE_FILE_PLAYLIST_BEGIN] ++ items_lines 0 its ++ [lit PLAYLIST_STATE_FILE_PLAYLIST_END].

Lemma restore_songs rs q f w ord its2 fp fuel :
  calm q f w -> q_inv q [] ord -> Forall (good_entry db_get_song) its2 -> Z.of_nat (length its2) <= q_max_length q ->
  reads fp (song_lines its2) -> (length (r_rest fp) <= fuel)%nat ->
  exists q' its' ord' fp', restore_loop db_get_song malloc fuel rs w fp = Ok (rs, set_queue q' w, fp') /\
    q_inv q' its' ord' /\ q_frame q q' /\ map kept its' = map kept its2 /\ reads fp' [].
Proof using HGS.
  clear HG. intros Hc Hinv Hg Hroom Hr Hf. unfold song_lines in Hr.
  destruct (read_line fp _ _ Hr) as (fp1 & E1 & Hr1 & Hlt); [by apply good_clean; [vm_compute| |simpl; lia]|].
  rewrite <- (app_nil_r (items_lines 0 its2 ++ _)), <- app_assoc in Hr1.
  destruct (state_load_ok q f w ord its2 fp1 [] Hc Hinv Hg Hroom Hr1) as (q' & its' & ord' & fp' & E & Hinv' & Hf' & Hk & Hr').
  exists q', its', ord', fp'. split; [|by split_and!]. destruct fuel as [|fuel]; [lia|].
  rewrite (restore_step fuel rs w fp _ fp1 (rs, set_queue q' w, fp') E1).
  - cbn [fst snd]. destruct fuel; cbn [restore_loop]; by rewrite (read_end fp' Hr').
  - unfold restore_line. change (after_prefix (lit ?p) (lit PLAYLIST_STATE_FILE_PLAYLIST_BEGIN)) with (@None cstring). cbv iota.
    change (has_prefix _ _) with true. cbv iota. by rewrite E.
Qed.

(** *** All options *)

Definition option_lines (q : queue) (cf : Z) (db dl : float) : list cstring :=
  [lit PLAYLIST_STATE_FILE_RANDOM ++ print_bool (q_random q); lit PLAYLIST_STATE_FILE_REPEAT ++ print_bool (q_repeat q);
   lit PLAYLIST_STATE_FILE_SINGLE ++ print_bool (q_single q); lit PLAYLIST_STATE_FILE_CONSUME ++ print_bool (q_consume q);
   lit PLAYLIST_STATE_FILE_CROSSFADE ++ print_i cf;
   lit PLAYLIST_STATE_FILE_MIXRAMPDB ++ print_f 6 (f64_of_f32 db);
   lit PLAYLIST_STATE_FILE_MIXRAMPDELAY ++ print_f 6 (f64_of_f32 dl)].

Lemma save_options_ok w i :
  f_to_int (pc_get_cross_fade (w_player w)) = Some i ->
  save_options w = Ok (unlines (option_lines (w_queue w) i (pc_get_mixramp_db (w_player w)) (pc_get_mixramp_delay (w_player w)))).
Proof using.
  clear. intros E. unfold save_options, float_to_int. rewrite E. cbn [mbind res_bind]. unfold option_lines.
  change (?a :: ?b :: ?c :: ?d :: ?e :: ?f :: [?g]) with ([a] ++ [b] ++ [c] ++ [d] ++ [e] ++ [f] ++ [g]).
  by rewrite !unlines_app, !put_line_unlines.
Qed.

Lemma restores_options rs q f w sq i db dl :
  calm q f w -> - 2 ^ 31 <= i < 2 ^ 31 ->
  exists w', calm (set_modes (q_repeat sq) (q_single sq) (q_consume sq) (q_random q) q) (stored_fade i, stored_float db, stored_float dl) w' /\
    restores rs w (option_lines sq i db dl) (Restore (rs_current rs) (rs_seek_time rs) (q_random sq)) w'.
Proof using HGS.
  clear HG. intros H0 Hi. set (rs1 := Restore _ _ _). destruct f as [[cf0 db0] dl0].
  destruct (restores_repeat rs1 _ _ _ (q_repeat sq) H0) as (w1 & H1 & R1).
  destruct (restores_single rs1 _ _ _ (q_single sq) H1) as (w2 & H2 & R2).
  destruct (restores_consume rs1 _ _ _ (q_consume sq) H2) as (w3 & H3 & R3).
  destruct (restores_crossfade rs1 _ _ _ _ _ i H3 Hi) as (w4 & H4 & R4).
  destruct (restores_mixrampdb rs1 _ _ _ _ _ db H4) as (w5 & H5 & R5).
  destruct (restores_mixrampdelay rs1 _ _ _ _ _ dl H5) as (w6 & H6 & R6).
  exists w6. split; [exact H6|]. unfold option_lines.
  change (?a :: ?b :: ?c :: ?d :: ?e :: ?f :: [?g]) with ([a] ++ [b] ++ [c] ++ [d] ++ [e] ++ [f] ++ [g]).
  repeat (eapply restores_trans; [eassumption || by apply restores_random|]). exact R6.
Qed.

(** *** Playback *)

Lemma calm_inv q f w its ord : calm q f w -> q_inv q its ord -> w_inv w its ord.
Proof using.
  clear. intros [<- Hp Hc Hqd Hf Hpl Hn] Hq. split; rewrite ?Hp, ?Hc, ?Hqd; try done; lia.
Qed.

(** Nothing is played: random mode only shuffles. *)
Lemma calm_random b q f w its ord :
  calm q f w -> q_inv q its ord -> q_random q = false ->
  exists q' w' ord', playlist_set_random b w = Ok w' /\ calm q' f w' /\ q_inv q' its ord' /\
    q_max_length q' = q_max_length q /\ q_repeat q' = q_repeat q /\ q_single q' = q_single q /\ q_consume q' = q_consume q /\ q_random q' = b.
Proof using HG.
  clear HGS. intros Hc Hq Hr. unfold playlist_set_random. rewrite (calm_queue _ _ _ Hc), Hr. destruct b; cbn [Bool.eqb].
  - rewrite (calm_queued_song _ _ _ Hc). cbn [mbind res_bind]. set (q1 := set_modes _ _ _ true q).
    pose proof (calm_set_queue _ _ _ q1 Hc) as Hc1. rewrite (calm_queue _ _ _ Hc1). change (q_random q1) with true. cbv iota.
    rewrite (calm_playing _ _ _ Hc1). cbn [andb mbind res_bind].
    assert (Hq1 : q_inv q1 its ord).
    { destruct Hq as [Hrep _ Hv Hvs]. split; [by apply set_random_rep|by intros [=]|done|done]. }
    destruct (q_inv_shuffle_order q1 its ord Hq1 eq_refl) as (q2 & ord2 & E & Hq2 & [Hm H1 H2 H3 H4] & _).
    rewrite E. cbn [mbind res_bind].
    change (0 <=? -1) with false. cbv iota. cbn [mbind res_bind].
    assert (Hc2 : calm q2 f (set_current (-1) (set_queue q2 (set_queue q1 w)))).
    { destruct Hc1. by split. }
    rewrite (calm_update _ _ _ _ Hc2). cbn [mbind res_bind]. exists q2. eexists _, ord2. split; [done|].
    split; [by apply calm_idle|]. by split_and!.
  - exists q, w, ord. by split_and!.
Qed.

Lemma valid_position q its ord c :
  q_rep q its ord -> its <> [] -> - 2 ^ 31 <= c < 2 ^ 31 ->
  (if negb (queue_valid_position q (u32 c)) then 0 else c) = if (0 <=? c) && (c <? Z.of_nat (length its)) then c else 0.
Proof using.
  clear. intros Hrep Hne Hc. pose proof (rep_length_pos _ _ _ Hrep). unfold queue_valid_position. rewrite (rep_len _ _ _ Hrep).
  destruct (Z.leb_spec 0 c) as [H0|H0].
  - rewrite u32_small by lia. by destruct (c <? Z.of_nat (length its)).
  - rewrite (u32_wrap c (-1)) by lia. by rewrite (proj2 (Z.ltb_ge _ _)) by lia.
Qed.

(** The state that is left when nothing is played. *)
Lemma stopped_playback rp rs q f w its ord :
  calm q f w -> q_inv q its ord -> q_random q = false -> - 2 ^ 31 <= rs_current rs < 2 ^ 31 ->
  exists w' ord', restore_playback rp PLAYER_STATE_STOP rs w = Ok w' /\ w_inv w' its ord' /\
    w_playing w' = false /\ fading (w_player w') = f /\
    q_repeat (w_queue w') = q_repeat q /\ q_single (w_queue w') = q_single q /\ q_consume (w_queue w') = q_consume q /\
    q_random (w_queue w') = rs_random_mode rs /\
    w_current w' = (if decide (its = []) then -1
                    else if (0 <=? rs_current rs) && (rs_current rs <? Z.of_nat (length its)) then rs_current rs else 0).
Proof using HG.
  clear HGS. intros Hc Hq Hr Hrange. unfold restore_playback.
  destruct (calm_random (rs_random_mode rs) q f w its ord Hc Hq Hr) as (q' & w' & ord' & E & Hc' & Hq' & Hm & H1 & H2 & H3 & H4).
  rewrite E, bind_value, (calm_queue _ _ _ Hc'). pose proof (calm_inv _ _ _ _ _ Hc' Hq') as Hinv.
  unfold queue_is_empty. pose proof (inv_rep _ _ _ Hq') as Hrep. pose proof (rep_length_pos _ _ _ Hrep). rewrite (rep_len _ _ _ Hrep).
  destruct (decide (its = [])) as [->|Hne]; cbn [length].
  - exists w', ord'. destruct Hc' as [Hqq Hp Hcu Hqd Hfa Hpl Hn]. rewrite Hqq. by split_and!.
  - assert (Hpos : (0 < length its)%nat) by (destruct its; [done|simpl; lia]).
    rewrite (proj2 (Z.eqb_neq _ _)) by lia. rewrite (bool_decide_false (PLAYER_STATE_STOP = PLAYER_STATE_PLAY)) by done. cbn [andb].
    rewrite (bool_decide_true (PLAYER_STATE_STOP = PLAYER_STATE_STOP)) by done. cbn [mbind res_bind]. rewrite (bool_decide_false (PLAYER_STATE_STOP = PLAYER_STATE_PAUSE)) by done.
    set (c := if negb _ then 0 else _).
    assert (c = if (0 <=? rs_current rs) && (rs_current rs <? Z.of_nat (length its)) then rs_current rs else 0) as ->.
    { unfold c. by apply (valid_position q' its ord'). }
    set (c' := if _ && _ then rs_current rs else 0).
    assert (0 <= c' < Z.of_nat (length its)) as Hcr.
    { unfold c'. destruct (Z.leb_spec 0 (rs_current rs)), (Z.ltb_spec (rs_current rs) (Z.of_nat (length its))); cbn [andb]; lia. }
    exists (set_current c' w'), ord'. destruct Hc' as [Hqq Hp Hcu Hqd Hfa Hpl Hn].
    change (w_queue (set_current c' w')) with (w_queue w'). rewrite Hqq. split_and!; try done.
    destruct Hinv. split; try done; [|intros _]; change (w_current (set_current c' w')) with c'; lia.
Qed.

(** A command that leaves [next_song] to the thread keeps the playlist. *)
Lemma w_inv_keeps w its ord p : w_inv w its ord -> keeps_next (w_player w) p -> w_inv (set_player p w) its ord.
Proof using.
  clear. intros [H1 H2 H3 H4 H5 H6 H7] [Hok Hn]. split; try done. intros Hq. change (w_player (set_player p w)) with p.
  destruct Hn as [E|E]; rewrite E; [by apply H7|done].
Qed.

(** The song at [p] is the current one, and the playlist is playing. *)
Definition on_air (q : queue) (its : list queue_item) (p : nat) (w' : world) : Prop :=
  exists ord', w_inv w' its ord' /\ w_playing w' = true /\ q_frame q (w_queue w') /\
    cursor_id its ord' (w_current w') = item_id <$> its !! p.

Lemma play_position_ok w its ord p :
  w_inv w its ord -> (p < length its)%nat ->
  safe (may_hang (w_player w)) (playlist_play (Z.of_nat p) w) (fun '(_, w') => on_air (w_queue w) its p w').
Proof using HG.
  clear HGS. intros Hinv Hp. pose proof (w_inv_clear_error _ _ _ Hinv) as Hinv1. unfold playlist_play.
  pose proof (inv_rep _ _ _ (inv_queue _ _ _ Hinv)) as Hrep. pose proof (rep_length_pos _ _ _ Hrep).
  rewrite (proj2 (Z.eqb_neq _ _)) by lia. unfold queue_valid_position. change (w_queue (set_player _ w)) with (w_queue w).
  rewrite u32_small, (rep_len _ _ _ Hrep), (proj2 (Z.ltb_lt _ _)) by lia. cbn [negb].
  destruct (rep_ord_find _ _ _ Hrep p Hp) as [i Hi]. pose proof (lookup_lt_Some _ _ _ Hi) as Hil. rewrite (rep_length_ord _ _ _ Hrep) in Hil.
  eapply safe_mono; [apply (play_start_ok _ its ord i _ (Z.of_nat p) Hinv1 Hil); rewrite ?Nat2Z.id; try done; try lia|].
  - intros [|Hr]; [lia|]. rewrite (inv_ident _ _ _ (inv_queue _ _ _ Hinv) Hr) in Hi. apply lookup_seq in Hi as [-> _]. done.
  - intros [r w'] (_ & o & ord' & q' & (Hw & Hc & Hpl & Hq & _) & Hf & Ho). exists ord'. split_and!; [done|done|by rewrite Hq|].
    rewrite Hc, cursor_nat. unfold order_id. by rewrite Ho, Hi.
Qed.

Lemma start_playback q its ord w p t :
  w_inv w its ord -> w_queue w = q -> (p < length its)%nat -> (t <> 0 -> seek_fits (f64_of_f32 (f32_of_Z t)) = true) ->
  safe thread_may_hang
    (if t =? 0 then '(_, w) ← playlist_play (Z.of_nat p) w; Ok w
     else '(_, w) ← playlist_seek_song (u32 (Z.of_nat p)) (f32_of_Z t) w; Ok w) (on_air q its p).
Proof using HG.
  clear HGS. intros Hinv <- Hp Hfit. pose proof (rep_length_pos _ _ _ (inv_rep _ _ _ (inv_queue _ _ _ Hinv))) as Hlen.
  destruct (Z.eqb_spec t 0) as [_|Ht].
  - eapply safe_bind_mono; [eapply weaken_hang, (play_position_ok w its ord); done|]. by intros [r w'].
  - rewrite u32_small by lia. eapply safe_bind_mono; [apply (playlist_seek_song_ok w its ord); auto|].
    intros [r w'] (_ & ord' & Hinv' & Hc & Hpl & Hf). by exists ord'.
Qed.

(** What the player is told to play song [s] from the second [t]; another one
    may be queued behind it. *)
Definition told_to_play (s : Song.song) (t : Z) (p p' : player) : Prop :=
  if t =? 0 then pc_play s p = Ok p'
  else exists p1, pc_seek s (f32_of_Z t) p = Ok (true, p1) /\ (p' = p1 \/ exists s', pc_enqueue_song s' p1 = Ok p').

(** The player, with the options [f], opens the outputs, is told to play the
    song at [pos] from [t], and after that to pause if it is to be paused. *)
Definition resumed (f : float * float * float) (its : list queue_item) (pos : nat) (t : Z) (paused : bool) (p' : player) : Prop :=
  exists p0 p1 p2 it, fading p0 = f /\ its !! pos = Some it /\ pc_update_audio p0 = Ok p1 /\
    told_to_play (item_song it) t (pc_clear_error p1) p2 /\
    (if paused then pc_pause p2 = Ok p' else p' = p2).

Record plays (f : float * float * float) (q : queue) (its : list queue_item) (pos : nat) (t : Z) (paused : bool) (w' : world) : Prop := {
  plays_current : on_air q its pos w';
  plays_resumed : resumed f its pos t paused (w_player w');
}.

Lemma play_order_told o w w' :
  playlist_play_order o w = Ok w' ->
  exists s, queue_get_order (w_queue w') (u32 (w_current w')) = Ok s /\ pc_play s (w_player w) = Ok (w_player w').
Proof using.
  clear. unfold playlist_play_order, with_player. intros E.
  destruct (queue_get_order _ _) as [s|] eqn:Es; [|done]. cbn [mbind res_bind] in E.
  destruct (pc_play _ _) as [p|] eqn:Ep; [|done]. injection E as <-. by exists s.
Qed.

Lemma play_start_told song i w r w' :
  playlist_play_start song i w = Ok (r, w') ->
  exists s, queue_get_order (w_queue w') (u32 (w_current w')) = Ok s /\ pc_play s (w_player w) = Ok (w_player w').
Proof using.
  clear. unfold playlist_play_start. intros E.
  assert (H : forall j w1, w_player w1 = w_player w ->
    ('(i, w) ← Ok (j, w1); w ← playlist_play_order (i32 i) (set_error_count 0 (set_stop_on_error false w)); Ok (MPD_SUCCESS, w)) = Ok (r, w') ->
    exists s, queue_get_order (w_queue w') (u32 (w_current w')) = Ok s /\ pc_play s (w_player w) = Ok (w_player w')).
  { intros j w1 Hp E1. cbn [mbind res_bind] in E1. destruct (playlist_play_order _ _) as [w2|] eqn:Eo; [|done]. injection E1 as _ <-.
    apply play_order_told in Eo as (s & Hs & Hpl). exists s. split; [done|]. by rewrite <- Hp. }
  destruct (q_random (w_queue w)); [|by apply (H i w)].
  destruct (if 0 <=? song then _ else _) as [j|]; [|done]. cbn [mbind res_bind] in E.
  destruct (queue_swap_order _ _ _) as [q'|]; [|done]. eapply H, E. by destruct (negb _).
Qed.

Lemma play_told w its p q r w' :
  w_inv w its q -> (p < length its)%nat -> playlist_play (Z.of_nat p) w = Ok (r, w') -> on_air (w_queue w) its p w' ->
  exists it, its !! p = Some it /\ pc_play (item_song it) (pc_clear_error (w_player w)) = Ok (w_player w').
Proof using HG.
  clear HGS. intros Hinv Hp E (ord' & Hinv' & Hpl & _ & Hcu). unfold playlist_play in E.
  pose proof (inv_rep _ _ _ (inv_queue _ _ _ Hinv)) as Hrep. pose proof (rep_length_pos _ _ _ Hrep).
  rewrite (proj2 (Z.eqb_neq _ _)) in E by lia. unfold queue_valid_position in E. change (w_queue (set_player _ w)) with (w_queue w) in E.
  rewrite u32_small, (rep_len _ _ _ Hrep), (proj2 (Z.ltb_lt _ _)) in E by lia. cbn [negb] in E.
  apply play_start_told in E as (s & Hs & E). pose proof (inv_rep _ _ _ (inv_queue _ _ _ Hinv')) as Hrep'.
  destruct (lookup_lt_is_Some_2 its p Hp) as [it Hit]. exists it. split; [done|]. rewrite Hit in Hcu. cbn in Hcu.
  destruct (cursor_valid (w_current w') (length its)) as (o & Ho & Hol).
  { pose proof (inv_current _ _ _ Hinv'). pose proof (inv_playing _ _ _ Hinv' Hpl). lia. }
  rewrite Ho, cursor_nat in Hcu. unfold order_id in Hcu. destruct (rep_ord_is_Some _ _ _ Hrep' o Hol) as [x Hx]. rewrite Hx in Hcu. simpl in Hcu.
  destruct (its !! x) as [it'|] eqn:Hx'; [|done]. injection Hcu as Hcu.
  rewrite Ho, u32_small, (queue_get_order_ok _ _ _ Hrep' _ _ _ Hx Hx') in Hs by lia. injection Hs as <-.
  assert (x = p) as -> by (by eapply (ids_injective _ _ _ _ _ _ _ (rep_ids _ _ _ Hrep'))). by simplify_eq.
Qed.

Lemma update_queued_told w w' :
  playlist_update_queued_song None w = Ok w' ->
  w_player w' = w_player w \/ exists s, pc_enqueue_song s (w_player w) = Ok (w_player w').
Proof using.
  clear. unfold playlist_update_queued_song. intros E. destruct (negb (w_playing w)); [injection E as <-; by left|].
  destruct (negb (queue_is_empty _)); [|done]. destruct (Bool.eqb _ _); [|done]. cbn [assert mbind res_bind] in E.
  destruct (if 0 <=? w_current w then _ else _) as [n|]; [|done]. cbn [mbind res_bind] in E.
  destruct (if _ && _ then playlist_reshuffle w else Ok w) as [w1|] eqn:E1; [|done]. cbn [mbind res_bind] in E.
  assert (w_player w1 = w_player w) as Hp.
  { match type of E1 with (if ?b then _ else _) = _ => destruct b end; [|by injection E1 as <-]. unfold playlist_reshuffle in E1.
    destruct (queue_order_to_position _ _); [|done]. cbn [mbind res_bind] in E1. destruct (queue_shuffle_order _); [|done].
    cbn [mbind res_bind] in E1. destruct (queue_position_to_order _ _); [|done]. by injection E1 as <-. }
  destruct (if 0 <=? n then _ else _) as [nx|]; [|done]. cbn [mbind res_bind] in E.
  rewrite bool_decide_true in E by done. cbn [negb andb mbind res_bind] in E.
  destruct (0 <=? n); [|injection E as <-; by left].
  match type of E with (if ?b then _ else _) = _ => destruct b end; [|injection E as <-; by left]. unfold playlist_queue_song_order, with_player in E.
  destruct (queue_valid_order _ _); [|done]. cbn [assert mbind res_bind] in E.
  destruct (queue_get_order _ _) as [s|]; [|done]. cbn [mbind res_bind] in E.
  destruct (pc_enqueue_song _ _) as [p|] eqn:Ep; [|done]. injection E as <-. right. exists s. by rewrite <- Hp.
Qed.

Lemma seek_told w its ord p t r w' :
  w_inv w its ord -> (p < length its)%nat -> playlist_seek_song (Z.of_nat p) t w = Ok (r, w') ->
  r = MPD_SUCCESS ->
  exists it p1, its !! p = Some it /\ pc_seek (item_song it) t (pc_clear_error (w_player w)) = Ok (true, p1) /\
    (w_player w' = p1 \/ exists s', pc_enqueue_song s' p1 = Ok (w_player w')).
Proof using HG.
  clear HGS. intros Hinv Hp E ->. pose proof (inv_queue _ _ _ Hinv) as Hq.
  pose proof (inv_rep _ _ _ Hq) as Hrep. pose proof (rep_length_pos _ _ _ Hrep).
  unfold playlist_seek_song, queue_valid_position in E. rewrite (rep_lt_length _ _ _ Hrep) in E by done. cbn [negb] in E.
  destruct (playlist_get_queued_song _) as [queued|]; [|done]. cbn [mbind res_bind] in E.
  destruct (rep_ord_find _ _ _ Hrep p Hp) as [i Hi]. pose proof (lookup_lt_Some _ _ _ Hi) as Hil. rewrite (rep_length_ord _ _ _ Hrep) in Hil.
  replace (if q_random (w_queue w) then _ else _) with (Ok (Z.of_nat i)) in E.
  2:{ destruct (q_random (w_queue w)) eqn:Hr; [by rewrite (queue_position_to_order_ok _ _ _ Hrep i)|].
      rewrite (inv_ident _ _ _ Hq Hr) in Hi. apply lookup_seq in Hi as [-> _]. done. }
  cbn [mbind res_bind] in E. destruct (lookup_lt_is_Some_2 its p Hp) as [it Hit].
  destruct (if negb _ || _ then _ else _) as [queued' w2] eqn:E2.
  assert (w_queue w2 = w_queue w /\ w_player w2 = pc_clear_error (w_player w)) as [Hq2 Hp2].
  { destruct (negb _ || _); by injection E2 as _ <-. }
  rewrite Hq2, (queue_get_order_ok _ _ _ Hrep _ _ _ Hi Hit), Hp2 in E. cbn [mbind res_bind] in E.
  destruct (pc_seek _ _ _) as [[b p1]|] eqn:Es; [|done]. cbn [mbind res_bind] in E. destruct b; cbn [negb] in E.
  - destruct (playlist_update_queued_song None _) as [w3|] eqn:Eu; [|done]. injection E as <-.
    exists it, p1. split; [done|]. split; [done|]. apply update_queued_told in Eu as [Eu|[s' Eu]]; [by left|right; by exists s'].
  - destruct (playlist_update_queued_song _ _); [|done]. done.
Qed.

Lemma start_told q its ord w p t w' :
  w_inv w its ord -> w_queue w = q -> (p < length its)%nat -> on_air q its p w' ->
  (if t =? 0 then '(_, w) ← playlist_play (Z.of_nat p) w; Ok w
   else '(_, w) ← playlist_seek_song (u32 (Z.of_nat p)) (f32_of_Z t) w; Ok w) = Ok w' ->
  (t <> 0 -> seek_fits (f64_of_f32 (f32_of_Z t)) = true) ->
  exists it, its !! p = Some it /\ told_to_play (item_song it) t (pc_clear_error (w_player w)) (w_player w').
Proof using HG.
  clear HGS. intros Hinv <- Hp Ha E Hfit. pose proof (rep_length_pos _ _ _ (inv_rep _ _ _ (inv_queue _ _ _ Hinv))).
  unfold told_to_play. destruct (Z.eqb_spec t 0) as [_|Ht].
  - destruct (playlist_play _ _) as [[r w1]|] eqn:E1; [|done]. injection E as <-. by eapply (play_told w its p ord r w1).
  - rewrite u32_small in E by lia. pose proof (playlist_seek_song_ok w its ord p (f32_of_Z t) Hinv Hp (Hfit Ht)) as Hs.
    destruct (playlist_seek_song _ _ _) as [[r w1]|] eqn:E1; [|done]. injection E as <-. destruct Hs as [-> _].
    destruct (seek_told w its ord p _ _ w1 Hinv Hp E1 eq_refl) as (it & p1 & ? & ? & ?). exists it. split; [done|]. by exists p1.
Qed.

(** A call that does not fail, with what is known of its result. *)
Lemma safe_result {A} h (m : res A) (Q : A -> Prop) : safe h m Q -> safe h m (fun x => m = Ok x /\ Q x).
Proof using. clear. by destruct m as [|[]]. Qed.

(** Is playback paused at once? *)
Definition starts_paused (rp : bool) (state : player_state) : bool :=
  bool_decide (state = PLAYER_STATE_PAUSE) || (bool_decide (state = PLAYER_STATE_PLAY) && rp).

(** The state after playback has been started, and perhaps paused. *)
Lemma started_playback rp state rs q f w its ord (p : nat) :
  calm q f w -> q_inv q its ord -> q_random q = false -> state <> PLAYER_STATE_STOP ->
  rs_current rs = Z.of_nat p -> (p < length its)%nat ->
  (rs_seek_time rs <> 0 -> seek_fits (f64_of_f32 (f32_of_Z (rs_seek_time rs))) = true) ->
  safe thread_may_hang (restore_playback rp state rs w)
    (plays f (set_modes (q_repeat q) (q_single q) (q_consume q) (rs_random_mode rs) q) its p
       (rs_seek_time rs) (starts_paused rp state)).
Proof using HG.
  clear HGS. intros Hc Hq Hr Hst Hcur Hp Hfit. unfold restore_playback. rewrite Hcur.
  destruct (calm_random (rs_random_mode rs) q f w its ord Hc Hq Hr) as (q' & w1 & ord' & E & Hc' & Hq' & Hm & H1 & H2 & H3 & H4).
  rewrite E, bind_value, (calm_queue _ _ _ Hc'). pose proof (calm_inv _ _ _ _ _ Hc' Hq') as Hinv.
  pose proof (inv_rep _ _ _ Hq') as Hrep. pose proof (rep_length_pos _ _ _ Hrep). unfold queue_is_empty. rewrite (rep_len _ _ _ Hrep).
  rewrite (proj2 (Z.eqb_neq _ _)) by lia. unfold queue_valid_position. rewrite (rep_len _ _ _ Hrep), u32_small by lia.
  rewrite (proj2 (Z.ltb_lt _ _)) by lia. cbn [negb]. set (st := if _ && rp then _ else state).
  assert (Hst' : st <> PLAYER_STATE_STOP) by (unfold st; by destruct (_ && rp)).
  assert (Hpaused : starts_paused rp state = bool_decide (st = PLAYER_STATE_PAUSE)) by (unfold st; by destruct state, rp).
  rewrite (bool_decide_false (st = PLAYER_STATE_STOP)) by done. apply safe_bind.
  eapply with_player_safe; [eapply safe_result, weaken_hang, plain_command_ok; [apply (calm_player _ _ _ Hc')|done]|].
  intros p1 [Eup [Hok1 Hn1]]. assert (Hinv1 : w_inv (set_player p1 w1) its ord') by (apply w_inv_keeps; done).
  eapply safe_bind_mono; [apply safe_result, (start_playback q' its ord' _ p (rs_seek_time rs) Hinv1); [apply (calm_queue _ _ _ Hc')|done|done]|].
  intros w2 [Est Hair].
  destruct (start_told q' its ord' (set_player p1 w1) p (rs_seek_time rs) w2 Hinv1 (calm_queue _ _ _ Hc') Hp Hair Est Hfit) as (it & Hit & Htold).
  pose proof Hair as (ord2 & Hinv2 & Hpl2 & Hf2 & Hcu2).
  assert (Hf : q_frame (set_modes (q_repeat q) (q_single q) (q_consume q) (rs_random_mode rs) q) (w_queue w2)).
  { destruct Hf2. split; cbn; congruence. }
  assert (Hres : forall p', (if starts_paused rp state then pc_pause (w_player w2) = Ok p' else p' = w_player w2) ->
    resumed f its p (rs_seek_time rs) (starts_paused rp state) p').
  { intros p' Hp'. exists (w_player w1), p1, (w_player w2), it. split; [apply (calm_fading _ _ _ Hc')|]. done. }
  rewrite Hpaused in Hres |- *. destruct (bool_decide (st = PLAYER_STATE_PAUSE)); [|split; [by exists ord2|by apply Hres]].
  eapply with_player_safe; [eapply safe_result, weaken_hang, pc_pause_ok, (inv_player _ _ _ Hinv2)|].
  intros p2 [Epa Hk2]. split; [|by apply Hres]. exists ord2. split; [by apply w_inv_keeps|]. done.
Qed.

End options.

(** ** The volume and the outputs *)

Section outputs.
Context {D : Type}.
Implicit Types (os : list (audio_output D)).

(** What the file says about an output. *)
Definition switch (ao : audio_output D) : cstring * bool := (ao_name ao, ao_enabled ao).

Lemma software_volume_ok v os :
  v <= 100 -> exists os', mixer_all_set_software_volume v os = Ok os' /\ map switch os' = map switch os.
Proof.
  intros Hv. unfold mixer_all_set_software_volume. rewrite (proj2 (Z.leb_le v PCM_VOLUME_1)) by (unfold PCM_VOLUME_1; lia).
  cbn [assert mbind res_bind].
  assert (H : exists rs os', for_all (set_software_volume v) os = Ok (rs, os') /\ map switch os' = map switch os).
  { induction os as [|ao os (rs & os' & E & Hs)]; [by exists [], []|]. cbn [for_all].
    assert (exists r ao', set_software_volume v ao = Ok (r, ao') /\ switch ao' = switch ao) as (r & ao' & -> & Hao).
    { unfold set_software_volume. destruct (ao_mixer ao) as [m|]; [|by do 2 eexists].
      destruct (mp_software _); [|by do 2 eexists]. destruct (mixer_set_volume_ok m v Hv) as (ret & m' & -> & _).
      by do 2 eexists. }
    cbn [mbind res_bind]. rewrite E. cbn [mbind res_bind fst snd]. do 2 eexists. split; [done|]. cbn [map]. by rewrite Hao, Hs. }
  destruct H as (rs & os' & E & Hs). rewrite E. by exists os'.
Qed.

Lemma read_volume_ok v vs os :
  0 <= v <= 100 ->
  exists os', read_sw_volume_state (SW_VOLUME_STATE ++ print_u v) vs os =
      Ok (true, (VolumeState v (last_hardware_volume vs) (vs_idle vs), os')) /\ map switch os' = map switch os.
Proof.
  intros Hv. unfold read_sw_volume_state. rewrite has_prefix_app. cbn [negb]. rewrite drop_app_length.
  rewrite <- (app_nil_r (print_u v)), strtol_print by (done || lia). rewrite bool_decide_true by done.
  rewrite (proj2 (Z.leb_le 0 v)), (proj2 (Z.leb_le v 100)) by lia. cbn [andb].
  unfold software_volume_change. rewrite (proj2 (Z.leb_le v 100)) by lia. cbn [assert mbind res_bind].
  destruct (software_volume_ok v os ltac:(lia)) as (os' & -> & Hs). by exists os'.
Qed.

(** One line of an output. *)
Definition switch_line (s : cstring * bool) : cstring :=
  AUDIO_DEVICE_STATE ++ print_i (if s.2 then 1 else 0) ++ lit ":" ++ s.1.

Definition switch_off (s : cstring * bool) (os : list (audio_output D)) : list (audio_output D) :=
  if s.2 then os else match audio_output_find s.1 os with Some i => alter (set_enabled false) i os | None => os end.

Lemma read_switch s os : audio_output_state_read (switch_line s) os = (true, switch_off s os).
Proof.
  unfold audio_output_state_read, switch_line. rewrite has_prefix_app. cbn [negb]. rewrite drop_app_length.
  destruct s as [name on]. cbn [fst snd]. rewrite strtol_print_i by (destruct on; (done || lia)).
  change (lit ":" ++ name) with (":"%char :: name). cbv iota beta. rewrite bool_decide_true by done.
  unfold switch_off. cbn [fst snd]. destruct on; cbn; [done|]. by destruct (audio_output_find name os).
Qed.

Lemma find_app name a (ao : audio_output D) b :
  Forall (fun ao' => ao_name ao' <> name) a -> ao_name ao = name ->
  audio_output_find name (a ++ ao :: b) = Some (length a).
Proof.
  intros Ha Hn. induction Ha as [|x a Hx _ IH]; cbn [app audio_output_find length].
  - by rewrite bool_decide_true.
  - rewrite bool_decide_false by done. by rewrite IH.
Qed.

(** All lines: every output that was off is switched off. *)
Lemma switch_all_off ss : forall a b,
  NoDup (map ao_name (a ++ b)) -> map ao_name b = map fst ss ->
  map switch (foldl (fun os s => switch_off s os) (a ++ b) ss) =
    map switch a ++ zip_with (fun ao s => (s.1, ao_enabled ao && s.2)) b ss.
Proof.
  induction ss as [|s ss IH]; intros a b Hnd Hb; destruct b as [|ao b]; try done.
  - cbn [foldl zip_with]. by rewrite map_app.
  - injection Hb as Hn Hb. cbn [foldl zip_with].
    assert (E : switch_off s (a ++ ao :: b) = (a ++ [set_enabled (ao_enabled ao && s.2) ao]) ++ b).
    { unfold switch_off. rewrite <- app_assoc. cbn [app]. destruct (s.2); [by rewrite andb_true_r; destruct ao|].
      rewrite andb_false_r, (find_app (s.1) a ao b); [|apply Forall_forall|done].
      - by rewrite alter_app_r_alt, Nat.sub_diag by lia.
      - intros x Hx E. rewrite map_app in Hnd. apply NoDup_app in Hnd as (_ & Hd & _). apply (Hd (ao_name x)).
        + apply list_elem_of_In, in_map, list_elem_of_In, Hx.
        + cbn [map]. rewrite E, Hn. by left. }
    rewrite E, IH.
    + rewrite map_app, <- app_assoc. cbn [map app]. f_equal. f_equal. unfold switch. by rewrite <- Hn.
    + rewrite <- app_assoc. cbn [app]. rewrite map_app in *. cbn [map] in *. done.
    + done.
Qed.

End outputs.

(** ** The whole file *)

Section whole.
Context {G : GLib} {HG : GLibSpec G} {T : PlayerThread} {HT : PlayerThreadSpec T} {GS : GString} {HGS : GStringSpec GS} {D : Type}.
Variable db_get_song : string -> option song.
Variable malloc : Z -> Z.
Variable rp : bool.

Abbreviation lines_of_state := (state_lines (D := D) db_get_song malloc rp).
Abbreviation line_of_state := (read_state_line (D := D) db_get_song malloc rp).

(** *** The player *)

Definition head_lines (current time : option Z) : list cstring :=
  match current with Some p => [lit PLAYLIST_STATE_FILE_CURRENT ++ print_i p] | None => [] end ++
  match time with Some t => [lit PLAYLIST_STATE_FILE_TIME ++ print_i t] | None => [] end.

Definition int_option (x : option Z) : Prop := match x with Some i => - 2 ^ 31 <= i < 2 ^ 31 | None => True end.

Lemma restores_head rs w current time :
  int_option current -> int_option time ->
  restores db_get_song malloc rs w (head_lines current time)
    (Restore (default (rs_current rs) current) (default (rs_seek_time rs) time) (rs_random_mode rs)) w.
Proof using HGS.
  clear HG HT. intros Hc Ht. unfold head_lines. eapply (restores_trans _ _ rs w _ (Restore (default (rs_current rs) current) (rs_seek_time rs) (rs_random_mode rs)) w).
  - destruct current as [p|]; [by apply restores_current|]. destruct rs. apply restores_nil.
  - destruct time as [t|]; [by apply (restores_seek _ _ (Restore _ _ _))|]. apply restores_nil.
Qed.

Lemma restore_state_ok name current time sq i db dl its2 q f w ord fp :
  calm q f w -> q_inv q [] ord -> Forall (good_entry db_get_song) its2 -> Z.of_nat (length its2) <= q_max_length q ->
  int_option current -> int_option time -> - 2 ^ 31 <= i < 2 ^ 31 ->
  reads fp (head_lines current time ++ option_lines sq i db dl ++ song_lines its2) ->
  exists q' w' its' ord' fp',
    playlist_state_restore db_get_song malloc rp (lit PLAYLIST_STATE_FILE_STATE ++ name) fp w =
      (w'' ← restore_playback rp (state_of_name name) (Restore (default (-1) current) (default 0 time) (q_random sq)) w';
       Ok (Some (w'', fp'))) /\
    calm q' (stored_fade i, stored_float db, stored_float dl) w' /\ q_inv q' its' ord' /\
    q_frame (set_modes (q_repeat sq) (q_single sq) (q_consume sq) (q_random q) q) q' /\
    map kept its' = map kept its2 /\ reads fp' [].
Proof using HGS.
  clear HG. intros Hc Hq Hg Hroom Hcur Htime Hi Hr. unfold playlist_state_restore. rewrite after_prefix_app.
  pose proof (restores_head (Restore (-1) 0 false) w current time Hcur Htime) as R1. cbn [rs_current rs_seek_time rs_random_mode] in R1.
  destruct (restores_options db_get_song malloc (Restore (default (-1) current) (default 0 time) false) q f w sq i db dl Hc Hi) as (w1 & Hc1 & R2).
  cbn [rs_current rs_seek_time] in R2. pose proof (restores_trans _ _ _ _ _ _ _ _ _ _ R1 R2) as R.
  rewrite app_assoc in Hr. destruct (R fp (length (r_rest fp)) _ Hr (le_n _)) as (fp1 & fuel1 & E1 & Hr1 & Hf1). rewrite E1.
  set (q1 := set_modes _ _ _ _ q) in *.
  assert (Hq1 : q_inv q1 [] ord) by (destruct Hq as [Hrep Hid Hv Hvs]; split; [by apply set_random_rep|done|done|done]).
  destruct (restore_songs db_get_song malloc (Restore (default (-1) current) (default 0 time) (q_random sq)) q1 _ w1 ord its2 fp1 fuel1
    Hc1 Hq1 Hg Hroom Hr1 Hf1) as (q' & its' & ord' & fp' & E & Hq' & Hf' & Hk & Hr').
  rewrite E, bind_value. exists q', (set_queue q' w1), its', ord', fp'. split; [done|]. split; [by eapply calm_set_queue|]. done.
Qed.

(** *** Lines of the file *)

Lemma state_step fuel fp line fp1 ps r :
  db_read_text_line fp = Ok (Some (line, fp1)) -> line_of_state line fp1 ps = r ->
  lines_of_state (S fuel) fp ps = ('(ps, fp) ← r; lines_of_state fuel fp ps).
Proof using. clear. intros E <-. cbn [state_lines]. by rewrite E. Qed.

Lemma read_switches ss : forall fuel fp ps more,
  Forall (fun s => good_text s.1) ss -> reads fp (map switch_line ss ++ more) -> (length (r_rest fp) <= fuel)%nat ->
  exists fp' fuel', lines_of_state fuel fp ps =
      lines_of_state fuel' fp' (ProgramState (ps_volume ps) (foldl (fun os s => switch_off s os) (ps_outputs ps) ss)
        (ps_output_version ps) (ps_world ps)) /\
    reads fp' more /\ (length (r_rest fp') <= fuel')%nat.
Proof using HGS.
  clear HG HT. induction ss as [|s ss IH]; intros fuel fp ps more Hg Hr Hf.
  - exists fp, fuel. by destruct ps.
  - apply Forall_cons in Hg as [Hs Hg]. destruct (read_line fp (switch_line s) _ Hr) as (fp1 & E1 & Hr1 & Hlt).
    { unfold switch_line. rewrite 2!app_assoc. apply good_prefix; [by destruct s as [? []]|by destruct s as [? []]|destruct s as [? []]; simpl; lia|done]. }
    destruct fuel as [|fuel]; [lia|].
    assert (E2 : line_of_state (switch_line s) fp1 ps = Ok (ProgramState (ps_volume ps) (switch_off s (ps_outputs ps)) (ps_output_version ps) (ps_world ps), fp1)).
    { unfold read_state_line. assert (read_sw_volume_state (switch_line s) (ps_volume ps) (ps_outputs ps) = Ok (false, (ps_volume ps, ps_outputs ps))) as -> by done.
      cbn [mbind res_bind ps_outputs]. by rewrite read_switch. }
    rewrite (state_step fuel fp _ fp1 ps _ E1 E2). cbn [mbind res_bind].
    destruct (IH fuel fp1 (ProgramState (ps_volume ps) (switch_off s (ps_outputs ps)) (ps_output_version ps) (ps_world ps)) more Hg Hr1) as (fp' & fuel' & E & Hr' & Hf'); [lia|].
    exists fp', fuel'. by rewrite E.
Qed.

Definition file_lines (v : Z) (ss : list (cstring * bool)) (name : cstring) (current time : option Z) (sq : queue) (i : Z) (db dl : float)
    (its : list queue_item) : list cstring :=
  [SW_VOLUME_STATE ++ print_u v] ++ map switch_line ss ++ [lit PLAYLIST_STATE_FILE_STATE ++ name] ++
  head_lines current time ++ option_lines sq i db dl ++ song_lines its.

(** A program that has just been started, with the same outputs. *)
Record fresh_state (names : list cstring) (capacity : nat) (ps : program_state D) : Prop := {
  fresh_names : map ao_name (ps_outputs ps) = names;
  fresh_on : Forall (fun ao => ao_enabled ao = true) (ps_outputs ps);
  fresh_world : exists f, calm (w_queue (ps_world ps)) f (ps_world ps);
  fresh_queue : exists ord, q_inv (w_queue (ps_world ps)) [] ord;
  fresh_random : q_random (w_queue (ps_world ps)) = false;
  fresh_room : Z.of_nat capacity <= q_max_length (w_queue (ps_world ps));
}.

Record good_state (v : Z) (ss : list (cstring * bool)) (its : list queue_item) : Prop := {
  good_volume : 0 <= v <= 100;
  good_names : NoDup (map fst ss) /\ Forall (fun s => good_text s.1) ss;
  good_items : Forall (good_entry db_get_song) its;
}.

Definition good_state_name (name : cstring) : Prop :=
  name ∈ [lit PLAYLIST_STATE_FILE_STATE_PLAY; lit PLAYLIST_STATE_FILE_STATE_PAUSE; lit PLAYLIST_STATE_FILE_STATE_STOP].

Lemma name_line_good name : good_state_name name -> good_line (lit PLAYLIST_STATE_FILE_STATE ++ name).
Proof using.
  clear. unfold good_state_name. intros H. apply good_clean; [| |]; repeat (apply elem_of_cons in H as [->|H]; [vm_compute; try done; lia|]);
    by apply elem_of_nil in H.
Qed.

(** The outputs after all lines have been read. *)
Lemma switches_restored ss (os : list (audio_output D)) :
  NoDup (map fst ss) -> map ao_name os = map fst ss -> Forall (fun ao => ao_enabled ao = true) os ->
  map switch (foldl (fun os s => switch_off s os) os ss) = ss.
Proof using.
  clear. intros Hnd Hn Hon. rewrite <- (app_nil_l os), switch_all_off; [|by rewrite app_nil_l, Hn|done]. cbn [map app].
  clear Hnd. revert ss Hn. induction Hon as [|ao os Ha _ IH]; intros [|[n b] ss] Hn; try done.
  injection Hn as Hn Hns. cbn [zip_with]. rewrite Ha, (IH ss Hns). done.
Qed.

Lemma switches_same (os1 os : list (audio_output D)) :
  map switch os1 = map switch os -> Forall (fun ao => ao_enabled ao = true) os ->
  Forall (fun ao => ao_enabled ao = true) os1 /\ map ao_name os1 = map ao_name os.
Proof using.
  clear. intros E Hon. revert os E Hon. induction os1 as [|ao os1 IH]; intros [|ao' os] E Hon; try done.
  injection E as E1 E2 E. apply Forall_cons in Hon as [Ha Hon]. destruct (IH os E Hon) as [H1 H2].
  split; [constructor; [congruence|done]|]. cbn [map]. by rewrite E1, H2.
Qed.

Lemma read_file v ss name current time sq i db dl its ps :
  good_state v ss its -> good_state_name name -> fresh_state (map fst ss) (length its) ps ->
  int_option current -> int_option time -> - 2 ^ 31 <= i < 2 ^ 31 ->
  let text := unlines (file_lines v ss name current time sq i db dl its) in
  exists q' w' its' ord' vs os',
    lines_of_state (length text) (Reader new_buffer text) ps =
      (w'' ← restore_playback rp (state_of_name name) (Restore (default (-1) current) (default 0 time) (q_random sq)) w';
       Ok (ProgramState vs os' (ps_output_version ps) w'')) /\
    volume_software_set vs = v /\ map switch os' = ss /\
    calm q' (stored_fade i, stored_float db, stored_float dl) w' /\ q_inv q' its' ord' /\
    q_frame (set_modes (q_repeat sq) (q_single sq) (q_consume sq) false (w_queue (ps_world ps))) q' /\ map kept its' = map kept its.
Proof using HGS.
  clear HG. intros [Hv [Hnd Hgn] Hg] Hname [Hfn Hon [f Hc] [ord Hq] Hrand Hroom] Hcur Htime Hi text.
  set (fp0 := Reader new_buffer text).
  assert (Hr0 : reads fp0 (file_lines v ss name current time sq i db dl its)).
  { split; [done|]. cbn [fp0 r_buffer new_buffer gs_len]. pose proof max_length_eq. lia. }
  unfold file_lines in Hr0. destruct (read_line fp0 _ _ Hr0) as (fp1 & E1 & Hr1 & Hlt1); [apply good_clean; [clean|done|short]|].
  change (r_rest fp0) with text in Hlt1. destruct (length text) as [|fuel]; [lia|].
  destruct (read_volume_ok v (ps_volume ps) (ps_outputs ps) Hv) as (os1 & Ev & Hs1).
  set (vs := VolumeState _ _ _) in Ev. set (ps1 := ProgramState vs os1 (ps_output_version ps) (ps_world ps)).
  assert (E1' : line_of_state (SW_VOLUME_STATE ++ print_u v) fp1 ps = Ok (ps1, fp1)) by (unfold read_state_line; by rewrite Ev).
  rewrite (state_step fuel fp0 _ fp1 ps _ E1 E1'), bind_value.
  destruct (read_switches ss fuel fp1 ps1 _ Hgn Hr1) as (fp2 & fuel2 & E2 & Hr2 & Hf2); [lia|]. rewrite E2. cbn [ps1 ps_volume ps_outputs ps_output_version ps_world].
  destruct (read_line fp2 _ _ Hr2 (name_line_good _ Hname)) as (fp3 & E3 & Hr3 & Hlt3). destruct fuel2 as [|fuel2]; [lia|].
  destruct (restore_state_ok name current time sq i db dl its _ f _ ord fp3 Hc Hq Hg Hroom Hcur Htime Hi Hr3)
    as (q' & w' & its' & ord' & fp' & E & Hc' & Hq' & Hf' & Hk & Hr').
  set (os' := foldl _ os1 ss). rewrite (state_step fuel2 fp2 _ fp3 _ _ E3 eq_refl).
  exists q', w', its', ord', vs, os'. split; [|split; [done|split; [|by rewrite Hrand in Hf'; split_and!]]].
  - unfold read_state_line. cbn [ps_volume ps_outputs ps_output_version ps_world].
    assert (read_sw_volume_state (lit PLAYLIST_STATE_FILE_STATE ++ name) vs os' = Ok (false, (vs, os'))) as -> by done. rewrite bind_value. cbn [fst snd].
    assert (audio_output_state_read (lit PLAYLIST_STATE_FILE_STATE ++ name) os' = (false, os')) as -> by done. rewrite E.
    destruct (restore_playback _ _ _ w') as [w''|e]; [|done]. cbn [mbind res_bind on_world].
    destruct fuel2; cbn [state_lines]; by rewrite (read_end fp' Hr').
  - destruct (switches_same _ _ Hs1 Hon) as [Hon1 Hn1]. apply switches_restored; [done|by rewrite Hn1|done].
Qed.

(** *** What is written *)

Definition saved_position (ord : list nat) (c : Z) : option Z := if 0 <=? c then Z.of_nat <$> ord !! Z.to_nat c else None.

Lemma save_current_ok w its ord (o p : nat) :
  w_inv w its ord -> w_current w = Z.of_nat o -> ord !! o = Some p ->
  save_current w = Ok (unlines [lit PLAYLIST_STATE_FILE_CURRENT ++ print_i (Z.of_nat p)]) /\ (p < length its)%nat.
Proof using.
  clear. intros Hinv Hc Ho. pose proof (inv_rep _ _ _ (inv_queue _ _ _ Hinv)) as Hrep. pose proof (rep_length_pos _ _ _ Hrep).
  pose proof (rep_ord_lt _ _ _ Hrep _ _ Ho) as Hp. pose proof (inv_current _ _ _ Hinv). split; [|done].
  unfold save_current. rewrite Hc, u32_small by lia. rewrite (queue_order_to_position_ok _ _ _ Hrep _ _ Ho).
  cbn [mbind res_bind]. by rewrite i32_small, put_line_unlines by lia.
Qed.

Lemma current_position w its ord :
  w_inv w its ord -> w_current w < 0 /\ saved_position ord (w_current w) = None \/
  exists o p, w_current w = Z.of_nat o /\ ord !! o = Some p /\ (p < length its)%nat /\
    saved_position ord (w_current w) = Some (Z.of_nat p).
Proof using.
  clear. intros Hinv. pose proof (inv_rep _ _ _ (inv_queue _ _ _ Hinv)) as Hrep. pose proof (inv_current _ _ _ Hinv) as Hc.
  unfold saved_position. destruct (Z.leb_spec 0 (w_current w)); [right|by left].
  destruct (rep_ord_is_Some _ _ _ Hrep (Z.to_nat (w_current w))) as [p Hp]; [lia|].
  exists (Z.to_nat (w_current w)), p. split; [lia|]. split; [done|]. split; [by eapply rep_ord_lt|]. by rewrite Hp.
Qed.

Lemma save_stopped st w its ord :
  w_inv w its ord -> w_playing w = false ->
  save_state st w = Ok (unlines ([lit PLAYLIST_STATE_FILE_STATE ++ lit PLAYLIST_STATE_FILE_STATE_STOP] ++
    head_lines (saved_position ord (w_current w)) None)).
Proof using.
  clear. intros Hinv Hp. unfold save_state. rewrite Hp.
  destruct (current_position w its ord Hinv) as [[Hc E]|(o & p & Hc & Ho & Hlt & E)]; rewrite E; unfold head_lines; rewrite app_nil_r.
  - rewrite (proj2 (Z.leb_gt _ _)) by done. cbn [mbind res_bind]. by rewrite !app_nil_r, put_line_unlines.
  - rewrite (proj2 (Z.leb_le _ _)) by lia. destruct (save_current_ok w its ord o p Hinv Hc Ho) as [-> _]. cbn [mbind res_bind].
    by rewrite put_line_unlines, unlines_app.
Qed.

Definition playing_name (st : player_state) : cstring :=
  lit (if decide (st = PLAYER_STATE_PAUSE) then PLAYLIST_STATE_FILE_STATE_PAUSE else PLAYLIST_STATE_FILE_STATE_PLAY).

Lemma playing_state st :
  state_of_name (playing_name st) = if decide (st = PLAYER_STATE_PAUSE) then PLAYER_STATE_PAUSE else PLAYER_STATE_PLAY.
Proof using. unfold playing_name. by destruct (decide _). Qed.

Lemma save_playing st info w its ord (o p : nat) t :
  w_inv w its ord -> w_playing w = true -> w_current w = Z.of_nat o -> ord !! o = Some p -> f_to_int info.2 = Some t ->
  save_state (PlayerStatus st (Some info)) w =
    Ok (unlines ([lit PLAYLIST_STATE_FILE_STATE ++ playing_name st] ++ head_lines (Some (Z.of_nat p)) (Some t))).
Proof using.
  clear. intros Hinv Hp Hc Ho Ht. unfold save_state. rewrite Hp. destruct (save_current_ok w its ord o p Hinv Hc Ho) as [-> _].
  cbn [mbind res_bind status_info status_state]. destruct info as [[[br af] total] elapsed]. cbn [snd] in Ht.
  unfold float_to_int. rewrite Ht. cbn [mbind res_bind]. unfold head_lines. by rewrite !put_line_unlines, !unlines_app.
Qed.

Lemma save_outputs_ok (os : list (audio_output D)) :
  os <> [] -> audio_output_state_save os = Ok (unlines (map switch_line (map switch os))).
Proof using.
  clear. intros Hne. unfold audio_output_state_save, audio_output_count.
  rewrite (proj2 (Z.ltb_lt _ _)) by (destruct os; [done|simpl; lia]). cbn [assert mbind res_bind]. f_equal. clear Hne.
  induction os as [|ao os IH]; [done|]. cbn [map concat]. rewrite unlines_cons, IH. unfold device_line, switch_line, switch.
  cbn [fst snd]. by rewrite <- !app_assoc.
Qed.

(** The state and its file, if the player has answered [REFRESH] with [p]. *)
Lemma state_text_ok (ps : program_state D) st p its ord i name current time :
  let w := set_player p (ps_world ps) in
  ps_outputs ps <> [] -> pc_get_status (w_player (ps_world ps)) = Ok (st, p) -> w_inv w its ord ->
  f_to_int (pc_get_cross_fade p) = Some i -> Forall (good_entry db_get_song) its ->
  save_state st w = Ok (unlines ([lit PLAYLIST_STATE_FILE_STATE ++ name] ++ head_lines current time)) ->
  state_text ps = Ok (unlines (file_lines (volume_software_set (ps_volume ps)) (map switch (ps_outputs ps)) name current time
    (w_queue w) i (pc_get_mixramp_db p) (pc_get_mixramp_delay p) its), on_world w ps).
Proof using.
  clear. intros w Hne Hst Hinv Hi Hg Hs. unfold state_text. rewrite (save_outputs_ok _ Hne), bind_value.
  unfold playlist_state_save. rewrite Hst, bind_value. fold w. rewrite Hs, bind_value, (save_options_ok w i Hi), bind_value.
  rewrite (queue_save_ok _ _ _ _ (inv_rep _ _ _ (inv_queue _ _ _ Hinv)) Hg), bind_value. cbn [mbind res_bind].
  apply (f_equal (fun t => Ok (t, on_world w ps))).
  assert (save_sw_volume_state (ps_volume ps) = unlines [SW_VOLUME_STATE ++ print_u (volume_software_set (ps_volume ps))]) as ->.
  { unfold save_sw_volume_state, unlines. cbn [map concat]. by rewrite app_nil_r, <- app_assoc. }
  unfold file_lines, song_lines. by rewrite !put_line_unlines, !app_nil_r, !unlines_app, <- !app_assoc.
Qed.

(** *** Theorems *)

Record same_modes (q q' : queue) : Prop := {
  same_repeat : q_repeat q' = q_repeat q;
  same_single : q_single q' = q_single q;
  same_consume : q_consume q' = q_consume q;
  same_random : q_random q' = q_random q;
}.

Lemma map_fst_switch (os : list (audio_output D)) : map ao_name os = map fst (map switch os).
Proof using. clear. by rewrite map_map. Qed.

Lemma position_range (ord : list nat) its c w :
  w_inv w its ord -> c = w_current w -> int_option (saved_position ord c).
Proof using.
  clear. intros Hinv ->. pose proof (rep_length_pos _ _ _ (inv_rep _ _ _ (inv_queue _ _ _ Hinv))).
  destruct (current_position w its ord Hinv) as [[_ ->]|(o & p & _ & _ & Hp & ->)]; [done|]. simpl. lia.
Qed.

Lemma f_to_int_range x i : f_to_int x = Some i -> - 2 ^ 31 <= i < 2 ^ 31.
Proof using.
  clear. unfold f_to_int. destruct (f_trunc x) as [j|]; [|done]. cbn [mbind option_bind].
  destruct (Z.leb_spec (- 2 ^ 31) j), (Z.ltb_spec j (2 ^ 31)); cbn [andb]; [|done..]. intros [= <-]. lia.
Qed.

Lemma restored_current w its ord (its' : list queue_item) :
  w_inv w its ord -> length its' = length its ->
  let c := default (-1) (saved_position ord (w_current w)) in
  (if decide (its' = []) then -1 else if (0 <=? c) && (c <? Z.of_nat (length its')) then c else 0) =
  (if decide (its = []) then -1 else default 0 (saved_position ord (w_current w))).
Proof using.
  clear. intros Hinv Hlen c. destruct (decide (its' = [])) as [->|Hne], (decide (its = [])) as [->|Hne']; try done.
  - by destruct its.
  - by destruct its'.
  - unfold c. destruct (current_position w its ord Hinv) as [[_ ->]|(o & p & _ & _ & Hp & ->)]; [done|]. cbn [default option_map from_option id].
    rewrite (proj2 (Z.leb_le _ _)), (proj2 (Z.ltb_lt _ _)) by lia. done.
Qed.

(** C36: the state of a stopped player is found again when the program starts:
    the volume, the outputs, the songs with their priorities, and all options
    (the cross-fade in whole seconds), provided that every song is found again
    by what is written about it ([restorable]: a URL, or a song of the
    database under its URI; a file outside of the database is written and
    lost, [local_file_defect]), that names and URIs stay on one line
    ([good_state]), and that the program starts with the same outputs, switched
    on, an empty playlist and enough room ([fresh_state]).
    The current song is found again in normal mode; in random mode its
    position is taken for an order number. *)
Theorem state_file_roundtrip (ps ps0 : program_state D) st p its ord i :
  let w := set_player p (ps_world ps) in
  pc_get_status (w_player (ps_world ps)) = Ok (st, p) -> f_to_int (pc_get_cross_fade p) = Some i ->
  w_inv w its ord -> w_playing w = false -> ps_outputs ps <> [] ->
  good_state (volume_software_set (ps_volume ps)) (map switch (ps_outputs ps)) its ->
  fresh_state (map ao_name (ps_outputs ps)) (length its) ps0 ->
  exists text ps1 ps' its' ord', state_text ps = Ok (text, ps1) /\
    state_lines db_get_song malloc rp (length text) (Reader new_buffer text) ps0 = Ok ps' /\
    w_inv (ps_world ps') its' ord' /\ map kept its' = map kept its /\
    volume_software_set (ps_volume ps') = volume_software_set (ps_volume ps) /\
    map switch (ps_outputs ps') = map switch (ps_outputs ps) /\
    same_modes (w_queue w) (w_queue (ps_world ps')) /\ w_playing (ps_world ps') = false /\
    fading (w_player (ps_world ps')) = (stored_fade i, stored_float (pc_get_mixramp_db p), stored_float (pc_get_mixramp_delay p)) /\
    w_current (ps_world ps') = (if decide (its = []) then -1 else default 0 (saved_position ord (w_current w))).
Proof using HG HGS.
  intros w Hst Hi Hinv Hpl Hne Hgood Hfresh. pose proof Hgood as [_ _ Hg].
  pose proof (position_range _ _ _ w Hinv eq_refl) as Hpos. pose proof (f_to_int_range _ _ Hi) as Hir.
  pose proof (state_text_ok ps st p its ord i _ _ _ Hne Hst Hinv Hi Hg (save_stopped st w its ord Hinv Hpl)) as Etext.
  rewrite map_fst_switch in Hfresh.
  edestruct (read_file (volume_software_set (ps_volume ps)) (map switch (ps_outputs ps)) (lit PLAYLIST_STATE_FILE_STATE_STOP)
    (saved_position ord (w_current w)) None (w_queue w) i (pc_get_mixramp_db p) (pc_get_mixramp_delay p) its ps0 Hgood)
    as (q' & w' & its' & ord' & vs & os' & E & Hvs & Hos & Hc' & Hq' & Hf' & Hk); [by do 2 right; left|done|done|done|done|].
  fold w in Etext. set (text := unlines _) in *.
  change (state_of_name (lit PLAYLIST_STATE_FILE_STATE_STOP)) with PLAYER_STATE_STOP in E.
  set (rs := Restore _ _ _) in E. destruct Hf' as [Hm H1 H2 H3 H4].
  destruct (stopped_playback rp rs q' _ w' its' ord' Hc' Hq' H4) as (w'' & ord'' & Ew & Hinv'' & Hp'' & Hfa & Hr & Hs & Hcs & Hrd & Hcur).
  { unfold rs. cbn [rs_current]. destruct (saved_position ord (w_current w)); simpl in *; lia. }
  rewrite Ew, bind_value in E. do 5 eexists. split; [exact Etext|]. split; [exact E|]. cbn [ps_world ps_volume ps_outputs].
  split; [exact Hinv''|]. split; [done|]. split; [done|]. split; [done|]. split.
  { split; [by rewrite Hr, H1|by rewrite Hs, H2|by rewrite Hcs, H3|by rewrite Hrd]. }
  split; [done|]. split; [done|]. rewrite Hcur. apply (f_equal length) in Hk as Hlen. rewrite !length_map in Hlen.
  by apply (restored_current w its ord).
Qed.

(** C37: if a song was playing or paused, then after a restart the songs, the
    modes, the volume, the outputs and the cross-fade and MixRamp options are
    as they were; the song at the same position is the current one; and the
    player is told to play it from the second where it was (from its start
    if that was the second 0), and after that to pause if it was paused or the
    configuration asks for it.  Each of these commands may wait for the player
    thread forever, where [thread_may_hang] allows it.  Conditions: those of
    C36, and the elapsed time fits into an [int], its milliseconds into an
    [unsigned]. *)
Theorem state_file_resumes (ps ps0 : program_state D) st info p its ord i (o pos : nat) t :
  let w := set_player p (ps_world ps) in
  pc_get_status (w_player (ps_world ps)) = Ok (PlayerStatus st (Some info), p) -> f_to_int (pc_get_cross_fade p) = Some i ->
  f_to_int info.2 = Some t -> (t <> 0 -> seek_fits (f64_of_f32 (f32_of_Z t)) = true) ->
  w_inv w its ord -> w_playing w = true -> w_current w = Z.of_nat o -> ord !! o = Some pos -> ps_outputs ps <> [] ->
  good_state (volume_software_set (ps_volume ps)) (map switch (ps_outputs ps)) its ->
  fresh_state (map ao_name (ps_outputs ps)) (length its) ps0 ->
  exists text ps1, state_text ps = Ok (text, ps1) /\
    safe thread_may_hang (state_lines db_get_song malloc rp (length text) (Reader new_buffer text) ps0) (fun ps' =>
      exists its' q', plays (stored_fade i, stored_float (pc_get_mixramp_db p), stored_float (pc_get_mixramp_delay p))
          q' its' pos t (starts_paused rp (if decide (st = PLAYER_STATE_PAUSE) then PLAYER_STATE_PAUSE else PLAYER_STATE_PLAY)) (ps_world ps') /\
        map kept its' = map kept its /\ same_modes (w_queue w) q' /\
        volume_software_set (ps_volume ps') = volume_software_set (ps_volume ps) /\
        map switch (ps_outputs ps') = map switch (ps_outputs ps)).
Proof using HG HGS.
  intros w Hst Hi Ht Hfit Hinv Hpl Hc Ho Hne Hgood Hfresh. pose proof Hgood as [_ _ Hg].
  pose proof (f_to_int_range _ _ Hi) as Hir. pose proof (f_to_int_range _ _ Ht) as Htr.
  pose proof (rep_length_pos _ _ _ (inv_rep _ _ _ (inv_queue _ _ _ Hinv))) as Hlen.
  destruct (save_current_ok w its ord o pos Hinv Hc Ho) as [_ Hpos].
  pose proof (state_text_ok ps _ p its ord i _ _ _ Hne Hst Hinv Hi Hg (save_playing st info w its ord o pos t Hinv Hpl Hc Ho Ht)) as Etext.
  rewrite map_fst_switch in Hfresh.
  edestruct (read_file (volume_software_set (ps_volume ps)) (map switch (ps_outputs ps)) (playing_name st)
    (Some (Z.of_nat pos)) (Some t) (w_queue w) i (pc_get_mixramp_db p) (pc_get_mixramp_delay p) its ps0 Hgood)
    as (q' & w' & its' & ord' & vs & os' & E & Hvs & Hos & Hc' & Hq' & [Hm H1 H2 H3 H4] & Hk);
    [unfold playing_name; destruct (decide _); [right|]; by left|done|simpl; lia|done|done|].
  fold w in Etext. set (text := unlines _) in *. exists text. eexists. split; [exact Etext|]. rewrite E.
  apply (f_equal length) in Hk as Hlen'. rewrite !length_map in Hlen'.
  eapply safe_bind_mono; [apply (started_playback rp _ _ q' _ w' its' ord' pos Hc' Hq' H4)|].
  - unfold playing_name. by destruct (decide _).
  - done.
  - lia.
  - done.
  - intros w'' Hplays. cbn [safe]. do 2 eexists. split.
    { rewrite playing_state in Hplays. exact Hplays. } split; [done|]. split; [|done].
    split; cbn [set_modes q_repeat q_single q_consume q_random]; congruence || done.
Qed.

End whole.

(** ** At concrete states *)

Definition no_songs (uri : string) : option song := None.

Lemma demo_entry_good k id v prio : 0 <= prio < 256 -> good_entry no_songs (Item (demo_song k) id v prio).
Proof.
  intros Hp. split; [|done]. split. exists "http://example.org/stream"%string. split; [done|]. split; [|split; [done|by left]].
  split; [by apply clean_newline|by apply clean_last|]. pose proof max_length_eq. simpl. lia.
Qed.

Definition with_name (name : string) (on : bool) (ao : audio_output unit) : audio_output unit :=
  set_enabled on (AudioOutput (lit name) (ao_has_enable ao) (ao_has_disable ao) (ao_has_pause ao) (ao_mixer ao)
    (ao_always_on ao) (ao_config_audio_format ao) (ao_enabled ao) (ao_really_enabled ao) (ao_open ao) (ao_pause ao)
    (ao_allow_play ao) (ao_fail_timer ao) (ao_in_audio_format ao) (ao_out_audio_format ao) (ao_thread ao)
    (ao_pending ao) (ao_pipe ao) (ao_chunk ao) (ao_chunk_finished ao)).

(** Two outputs, one of which is off, and the volume 70. *)
Definition demo_state (w : world) : program_state unit :=
  ProgramState (VolumeState 70 (-1) 0) [with_name "speakers" true sample_output; with_name "radio: 2" false sample_output] 0 w.

(** The program as it starts. *)
Definition empty_world : world := sample 0 [].
Definition started_state : program_state unit :=
  ProgramState (VolumeState 100 (-1) 0) [with_name "speakers" true sample_output; with_name "radio: 2" true sample_output] 0 empty_world.

Lemma started_state_fresh n : (n <= 16)%nat -> fresh_state [lit "speakers"; lit "radio: 2"] n started_state.
Proof.
  intros Hn. pose proof (w_check_ok empty_world [] [] ltac:(vm_compute; reflexivity)) as Hinv. split.
  - reflexivity.
  - repeat constructor.
  - eexists. destruct Hinv. split; done.
  - exists []. apply (inv_queue _ _ _ Hinv).
  - reflexivity.
  - change (q_max_length _) with 16. lia.
Qed.

(** A stopped player with a current song, and one that plays. *)
Definition halted_world : world := sample 5 [CmdConsume true; CmdPlay 1; CmdStop].

Definition after_refresh (w : world) : player_status * player :=
  match pc_get_status (w_player w) with Ok r => r | Err _ => (PlayerStatus PLAYER_STATE_STOP None, w_player w) end.

Definition refreshed (w : world) : world := set_player (after_refresh w).2 w.

Lemma demo_good its :
  Forall (fun it => 0 <= item_priority it < 256 /\ exists k, item_song it = demo_song k) its ->
  good_state no_songs 70 [(lit "speakers", true); (lit "radio: 2", false)] its.
Proof.
  intros H. split; [lia| |].
  - split; [by apply (bool_decide_unpack _); vm_compute|]. repeat constructor;
      (apply clean_newline || apply clean_last || (pose proof max_length_eq; simpl; lia)); done.
  - eapply Forall_impl; [exact H|]. intros [s id v prio] [Hp [k Hk]]. simpl in *. subst s. by apply demo_entry_good.
Qed.

Lemma demo_songs : forall w, w = halted_world \/ w = playing_world ->
  Forall (fun it => 0 <= item_priority it < 256 /\ exists k, item_song it = demo_song k) (its_of w).
Proof.
  intros w [-> | ->]; (match goal with |- Forall _ ?l => let l' := eval vm_compute in l in change l with l' end);
    repeat (apply Forall_cons_2; [simpl; split; [lia|]|]); try apply Forall_nil_2;
    [exists 0|exists 1|exists 2|exists 3|exists 4|exists 0|exists 1|exists 2|exists 3|exists 4]; reflexivity.
Qed.

Lemma state_file_roundtrip_witness :
  w_playing (refreshed halted_world) = false /\ w_current (refreshed halted_world) = 1 /\
  exists text ps1 ps' its' ord', state_text (demo_state halted_world) = Ok (text, ps1) /\
    state_lines no_songs id false (length text) (Reader new_buffer text) started_state = Ok ps' /\
    w_inv (ps_world ps') its' ord' /\ map kept its' = map kept (its_of halted_world) /\
    volume_software_set (ps_volume ps') = 70 /\
    map switch (ps_outputs ps') = [(lit "speakers", true); (lit "radio: 2", false)] /\ w_current (ps_world ps') = 1.
Proof.
  split; [vm_compute; reflexivity|]. split; [vm_compute; reflexivity|].
  pose proof (w_check_ok (refreshed halted_world) (its_of halted_world) [0; 1; 2; 3; 4]%nat ltac:(vm_compute; reflexivity)) as Hinv.
  destruct (state_file_roundtrip no_songs id false (demo_state halted_world) started_state (after_refresh halted_world).1
    (after_refresh halted_world).2 (its_of halted_world) [0; 1; 2; 3; 4]%nat 0)
    as (text & ps1 & ps' & its' & ord' & E1 & E2 & Hinv' & Hk & Hv & Hs & _ & _ & _ & Hc).
  - vm_compute. reflexivity.
  - vm_compute. reflexivity.
  - exact Hinv.
  - vm_compute. reflexivity.
  - discriminate.
  - apply demo_good, demo_songs. by left.
  - apply started_state_fresh. vm_compute. lia.
  - exists text, ps1, ps', its', ord'. split; [exact E1|]. split; [exact E2|]. split; [exact Hinv'|]. split; [exact Hk|].
    split; [exact Hv|]. split; [exact Hs|]. rewrite Hc. vm_compute. reflexivity.
Defined.

Lemma state_file_resumes_witness :
  w_playing (refreshed playing_world) = true /\
  exists text ps1, state_text (demo_state playing_world) = Ok (text, ps1) /\
    safe thread_may_hang (state_lines no_songs id false (length text) (Reader new_buffer text) started_state) (fun ps' =>
      exists its' q', plays (stored_fade 0, stored_float (pc_get_mixramp_db (after_refresh playing_world).2),
          stored_float (pc_get_mixramp_delay (after_refresh playing_world).2)) q' its' 1 0 false (ps_world ps') /\ map kept its' = map kept (its_of playing_world) /\
        volume_software_set (ps_volume ps') = 70 /\
        map switch (ps_outputs ps') = [(lit "speakers", true); (lit "radio: 2", false)]).
Proof.
  split; [vm_compute; reflexivity|].
  pose proof (w_check_ok (refreshed playing_world) (its_of playing_world) [0; 1; 2; 3; 4]%nat ltac:(vm_compute; reflexivity)) as Hinv.
  destruct (status_info (after_refresh playing_world).1) as [info|] eqn:Einfo; [|vm_compute in Einfo; discriminate].
  vm_compute in Einfo. injection Einfo as Einfo.
  destruct (state_file_resumes no_songs id false (demo_state playing_world) started_state PLAYER_STATE_PLAY info
    (after_refresh playing_world).2 (its_of playing_world) [0; 1; 2; 3; 4]%nat 0 1 1 0) as (text & ps1 & E1 & E2).
  - rewrite <- Einfo. vm_compute. reflexivity.
  - vm_compute. reflexivity.
  - rewrite <- Einfo. vm_compute. reflexivity.
  - intros H. done.
  - exact Hinv.
  - vm_compute. reflexivity.
  - vm_compute. reflexivity.
  - vm_compute. reflexivity.
  - discriminate.
  - apply demo_good, demo_songs. by right.
  - apply started_state_fresh. vm_compute. lia.
  - exists text, ps1. split; [exact E1|]. eapply safe_mono; [exact E2|]. intros ps' (its' & q' & Hp & Hk & Hm & Hv & Hs).
    exists its', q'. split; [exact Hp|]. split; [exact Hk|]. split; [exact Hv|exact Hs].
Defined.

(** ** Defects *)

(** The position of the current song before and after. *)
Definition position_after_restart (w : world) : res (Z * Z) :=
  '(text, _) ← state_text (demo_state w);
  ps ← state_lines no_songs id false (length text) (Reader new_buffer text) started_state;
  let w' := ps_world ps in
  before ← queue_order_to_position (w_queue w) (u32 (w_current w));
  after ← queue_order_to_position (w_queue w') (u32 (w_current w'));
  Ok (before, after).

(** In random mode another song is the current one after a restart. *)
Lemma restored_random_defect :
  position_after_restart (sample 5 [CmdRandom true; CmdPlay 3; CmdStop]) = Ok (3, 1).
Proof. vm_compute. reflexivity. Qed.

(** The player has stopped, and the playlist does not know yet: the time that
    is written was never set. *)
Lemma player_may_stop (p : player) :
  next_song p = None -> simple_move (tt, p_control p, p_notify p) (tt, p_control (on_control simple_stop p), p_notify p).
Proof. apply SimpleEnd. Qed.

Lemma save_stopped_player_defect :
  next_song (w_player playing_world) = None /\
  state_text (demo_state (set_player (on_control simple_stop (w_player playing_world)) playing_world)) = Err Uninitialized.
Proof. vm_compute. split; reflexivity. Qed.

(** A file outside of the database is written, and not found again. *)
Lemma local_file_defect :
  let s := Song 1 "/home/me/song.ogg"%string None 0 0 None in
  queue_save_song 0 s = Ok (lit "0:/home/me/song.ogg" ++ [newline]) /\ get_song no_songs (lit "/home/me/song.ogg") 1 = Ok None.
Proof. split; vm_compute; reflexivity. Qed.
