(* ===== verification/Icy.v ===== *)
(** * Icy streams

    Radio stations put the title of a song into the audio stream: after every
    [metaint] bytes of audio there is a block of text.  [src/input/icy_metadata.c]
    takes the blocks out again, on behalf of the buffers of [src/input/curl.c];
    [src/output/icy_server.c] makes them. *)

From S2P Require Import Prelude Err CString TagPool TagValue Tag Tokenizer Permission FifoBuffer ClientRead.
Local Open Scope Z_scope.

(** ** The parser *)

(** What [icy_metadata.tag] points to: nothing, a tag, or a tag that has been
    freed. *)
Inductive tag_ptr := NoTag | TagAt (t : tag) | Dangling.

(** [im_meta_data] is [None] unless it points to memory. *)
Record icy_metadata := IcyMetadata {
  im_data_size : Z;
  im_data_rest : Z;
  im_meta_size : Z;
  im_meta_position : Z;
  im_meta_data : option (cells ascii);
  im_tag : tag_ptr;
}.

Definition im_set_rest (r : Z) (im : icy_metadata) : icy_metadata :=
  IcyMetadata (im_data_size im) r (im_meta_size im) (im_meta_position im) (im_meta_data im) (im_tag im).
Definition im_set_meta (size position : Z) (data : option (cells ascii)) (im : icy_metadata) : icy_metadata :=
  IcyMetadata (im_data_size im) (im_data_rest im) size position data (im_tag im).
Definition im_set_tag (t : tag_ptr) (im : icy_metadata) : icy_metadata :=
  IcyMetadata (im_data_size im) (im_data_rest im) (im_meta_size im) (im_meta_position im) (im_meta_data im) t.

Definition icy_clear (im : icy_metadata) : icy_metadata :=
  IcyMetadata 0 (im_data_rest im) (im_meta_size im) (im_meta_position im) (im_meta_data im) (im_tag im).

Definition icy_start (data_size : Z) (im : icy_metadata) : icy_metadata :=
  IcyMetadata data_size data_size 0 (im_meta_position im) (im_meta_data im) NoTag.

Definition icy_defined (im : icy_metadata) : bool := 0 <? im_data_size im.

Definition free_tag (t : tag_ptr) (g : tags) : res tags :=
  match t with NoTag => Ok g | TagAt t => tag_free t g | Dangling => Err BadFree end.

(** [free()] of the pointer [p]. *)
Definition free_ptr {A} (p : option A) : res unit := match p with Some _ => Ok tt | None => Err BadFree end.

Definition icy_deinit (im : icy_metadata) (g : tags) : res (icy_metadata * tags) :=
  if negb (icy_defined im) then Ok (im, g) else
  (if (im_data_rest im =? 0) && (0 <? im_meta_size im) then free_ptr (im_meta_data im) else Ok tt);;
  let im := if (im_data_rest im =? 0) && (0 <? im_meta_size im)
            then im_set_meta (im_meta_size im) (im_meta_position im) None im else im in
  g ← free_tag (im_tag im) g;
  Ok (match im_tag im with NoTag => im | _ => im_set_tag Dangling im end, g).

Definition icy_reset (im : icy_metadata) (g : tags) : res (icy_metadata * tags) :=
  if negb (icy_defined im) then Ok (im, g) else
  '(im, g) ← icy_deinit im g;
  Ok (im_set_meta 0 (im_meta_position im) (im_meta_data im) (im_set_rest (im_data_size im) im), g).

(** The number of bytes of audio, at most [length]. *)
Definition icy_data (im : icy_metadata) (length : Z) : res (Z * icy_metadata) :=
  assert (0 <? length);;
  if negb (icy_defined im) then Ok (length, im)
  else if im_data_rest im =? 0 then Ok (0, im)
  else if im_data_rest im <=? length then Ok (im_data_rest im, im_set_rest 0 im)
  else Ok (length, im_set_rest (u64 (im_data_rest im - length)) im).

Definition icy_tag (im : icy_metadata) : tag_ptr * icy_metadata := (im_tag im, im_set_tag NoTag im).

(** [value] without single quotes around it. *)
Definition quoted (value : cstring) : bool :=
  (2 <=? length value)%nat && bool_decide (head value = Some squote) && bool_decide (last value = Some squote).

Section parse.
Context {C : Charset}.

Definition icy_add_item (t : tag) (type : tag_type) (value : cstring) (g : tags) : res (tag * tags) :=
  let '(p, len) := if quoted value then (drop 1 value, (length value - 2)%nat) else (value, length value) in
  if (0 <? len)%nat then tag_add_item_n t type (Some (p ++ [nul])) len g else Ok (t, g).

Definition icy_parse_tag_item (t : tag) (item : cstring) (g : tags) : res (tag * tags) :=
  match g_strsplit item "=" with
  | p0 :: p1 :: _ =>
      if bool_decide (p0 = lit "StreamTitle") then icy_add_item t TAG_TITLE p1 g else Ok (t, g)
  | _ => Ok (t, g)
  end.

Fixpoint parse_items (items : list cstring) (t : tag) (g : tags) : res (tag * tags) :=
  match items with
  | [] => Ok (t, g)
  | item :: items => r ← icy_parse_tag_item t item g; parse_items items r.1 r.2
  end.

Definition icy_parse_tag (p : cstring) (g : tags) : res (tag * tags) :=
  parse_items (g_strsplit p ";") tag_new g.

(** [memcpy(a + i, bytes)]. *)
Definition copy_to {A} (a : cells A) (i : Z) (bytes : list A) : res (cells A) :=
  if (0 <=? i) && (i + Z.of_nat (length bytes) <=? Z.of_nat (length a))
  then Ok (list_inserts (Z.to_nat i) (Some <$> bytes) a) else Err OutOfBounds.

(** Reading the size of a block: [meta_size] and the bytes that are left. *)
Definition begin_block (im : icy_metadata) (data : cstring) : res (icy_metadata * cstring) :=
  if im_meta_size im =? 0 then
    match data with
    | [] => Err OutOfBounds
    | c :: p =>
        let size := char_code c * 16 in
        if size =? 0 then Ok (im, p)
        else Ok (im_set_meta size 0 (Some (replicate (Z.to_nat (size + 1)) None)) im, p)
    end
  else Ok (im, data).

(** The end of a block. *)
Definition end_block (im : icy_metadata) (a : cells ascii) (g : tags) : res (icy_metadata * tags) :=
  a ← aset a (im_meta_size im) nul;
  g ← free_tag (im_tag im) g;
  text ← defined_cells a;
  '(t, g) ← icy_parse_tag (c_str text) g;
  Ok (IcyMetadata (im_data_size im) (im_data_size im) 0 (im_meta_position im) None (TagAt t), g).

(** The rest of a block: the number of bytes of [p] that belong to it. *)
Definition fill_block (im : icy_metadata) (p : cstring) (g : tags) : res (Z * icy_metadata * tags) :=
  assert (im_meta_position im <? im_meta_size im);;
  let length := Z.min (Z.of_nat (Datatypes.length p)) (u64 (im_meta_size im - im_meta_position im)) in
  match im_meta_data im with
  | None => Err OutOfBounds
  | Some a =>
      a ← copy_to a (im_meta_position im) (take (Z.to_nat length) p);
      let im := im_set_meta (im_meta_size im) (im_meta_position im + length) (Some a) im in
      if im_meta_position im =? im_meta_size im then
        '(im, g) ← end_block im a g; Ok (length, im, g)
      else Ok (length, im, g)
  end.

(** The number of bytes consumed. *)
Definition icy_meta (im : icy_metadata) (data : cstring) (g : tags) : res (Z * icy_metadata * tags) :=
  assert (icy_defined im);;
  assert (im_data_rest im =? 0);;
  assert (0 <? Z.of_nat (length data));;
  let first := im_meta_size im =? 0 in
  '(im, p) ← begin_block im data;
  if im_meta_size im =? 0 then Ok (1, im_set_rest (im_data_size im) im, g) else
  '(length, im, g) ← fill_block im p g;
  Ok (if first then length + 1 else length, im, g).

End parse.

(** ** The buffers of an HTTP stream *)

(** A piece that libcurl has delivered. *)
Record buffer := Buffer { bf_data : cstring; bf_consumed : Z }.

Definition bf_size (b : buffer) : Z := Z.of_nat (length (bf_data b)).
Definition unread (b : buffer) : cstring := drop (Z.to_nat (bf_consumed b)) (bf_data b).

(** [ic_easy]: the request is active; [ic_postponed_error] is 0 or the code
    of an error. *)
Record input_curl := InputCurl {
  ic_easy : bool;
  ic_buffers : list buffer;
  ic_paused : bool;
  ic_icy : icy_metadata;
  ic_meta_name : option cstring;
  ic_tag : tag_ptr;
  ic_postponed_error : Z;
  ic_ready : bool;
  ic_seekable : bool;
  ic_size : Z;
  ic_offset : Z;
  ic_mime : option cstring;
}.

Definition ic_set_stream (bs : list buffer) (im : icy_metadata) (c : input_curl) : input_curl :=
  InputCurl (ic_easy c) bs (ic_paused c) im (ic_meta_name c) (ic_tag c) (ic_postponed_error c) (ic_ready c)
    (ic_seekable c) (ic_size c) (ic_offset c) (ic_mime c).
Definition ic_set_tag (t : tag_ptr) (c : input_curl) : input_curl :=
  InputCurl (ic_easy c) (ic_buffers c) (ic_paused c) (ic_icy c) (ic_meta_name c) t (ic_postponed_error c) (ic_ready c)
    (ic_seekable c) (ic_size c) (ic_offset c) (ic_mime c).
Definition ic_set_name (n : cstring) (c : input_curl) : input_curl :=
  InputCurl (ic_easy c) (ic_buffers c) (ic_paused c) (ic_icy c) (Some n) (ic_tag c) (ic_postponed_error c) (ic_ready c)
    (ic_seekable c) (ic_size c) (ic_offset c) (ic_mime c).
Definition ic_set_flags (paused ready : bool) (c : input_curl) : input_curl :=
  InputCurl (ic_easy c) (ic_buffers c) paused (ic_icy c) (ic_meta_name c) (ic_tag c) (ic_postponed_error c) ready
    (ic_seekable c) (ic_size c) (ic_offset c) (ic_mime c).
Definition ic_set_error (e : Z) (c : input_curl) : input_curl :=
  InputCurl (ic_easy c) (ic_buffers c) (ic_paused c) (ic_icy c) (ic_meta_name c) (ic_tag c) e (ic_ready c)
    (ic_seekable c) (ic_size c) (ic_offset c) (ic_mime c).
Definition ic_set_base (seekable : bool) (size offset : Z) (mime : option cstring) (c : input_curl) : input_curl :=
  InputCurl (ic_easy c) (ic_buffers c) (ic_paused c) (ic_icy c) (ic_meta_name c) (ic_tag c) (ic_postponed_error c)
    (ic_ready c) seekable size offset mime.

(** [None]: everything is consumed and the buffer is freed. *)
Definition consume_buffer (b : buffer) (length : Z) : res (option buffer) :=
  assert (bf_consumed b <? bf_size b);;
  let b := Buffer (bf_data b) (bf_consumed b + length) in
  if bf_consumed b <? bf_size b then Ok (Some b)
  else assert (bf_consumed b =? bf_size b);; Ok None.

Definition the_buffer (b : option buffer) : res buffer :=
  match b with Some b => Ok b | None => Err AssertFailed end.

Definition CURL_MAX_BUFFERED : Z := 512 * 1024.
Definition CURL_RESUME_AT : Z := 384 * 1024.

Definition curl_total_buffer_size (c : input_curl) : Z := foldl (fun n b => n + bf_size b) 0 (ic_buffers c).

(** The number of bytes that are accepted, or [None] for
    [CURL_WRITEFUNC_PAUSE]. *)
Definition input_curl_writefunction (bytes : cstring) (c : input_curl) : option Z * input_curl :=
  let size := Z.of_nat (length bytes) in
  if size =? 0 then (Some 0, c)
  else if CURL_MAX_BUFFERED <=? curl_total_buffer_size c + size then (None, ic_set_flags true (ic_ready c) c)
  else (Some size, ic_set_flags (ic_paused c) true (ic_set_stream (ic_buffers c ++ [Buffer bytes 0]) (ic_icy c) c)).

Definition input_curl_available (c : input_curl) : bool :=
  negb (ic_postponed_error c =? 0) || negb (ic_easy c) || negb (bool_decide (ic_buffers c = [])).

Definition input_curl_eof (c : input_curl) : bool := negb (ic_easy c) && bool_decide (ic_buffers c = []).

Definition input_curl_tag (c : input_curl) : tag_ptr * input_curl := (ic_tag c, ic_set_tag NoTag c).

(** The wait ends when the request ends or a buffer arrives. *)
Definition fill_buffer (c : input_curl) : res (Z * input_curl) :=
  if ic_easy c && bool_decide (ic_buffers c = []) then Err NoAnswer
  else if negb (ic_postponed_error c =? 0) then Ok (ic_postponed_error c, ic_set_error 0 c)
  else Ok (if bool_decide (ic_buffers c = []) then 0 else 1, c).

Section read.
Context {C : Charset}.

(** A part of the buffer has been used. *)
Definition consume_chunk (b : buffer) (chunk length : Z) : res (option buffer * Z) :=
  if 0 <? chunk then b ← consume_buffer b chunk; Ok (b, length - chunk) else Ok (Some b, length).

(** What one call moves on: the bytes copied, the parser, the buffer in work
    and the memory of tags. *)
Fixpoint read_loop (fuel : nat) (im : icy_metadata) (b : buffer) (length : Z) (dest : cstring) (g : tags)
  : res (cstring * icy_metadata * option buffer * tags) :=
  match fuel with
  | O => Err OutOfFuel
  | S fuel =>
      '(chunk, im) ← icy_data im length;
      let dest := dest ++ take (Z.to_nat chunk) (unread b) in
      '(b, length) ← consume_chunk b chunk length;
      if length =? 0 then Ok (dest, im, b, g) else
      b ← the_buffer b;
      '(chunk, im, g) ← icy_meta im (take (Z.to_nat length) (unread b)) g;
      '(b, length) ← consume_chunk b chunk length;
      if length =? 0 then Ok (dest, im, b, g) else
      b ← the_buffer b;
      read_loop fuel im b length dest g
  end.

Definition read_from_buffer (im : icy_metadata) (buffers : list buffer) (length : Z) (g : tags)
  : res (cstring * icy_metadata * list buffer * tags) :=
  match buffers with
  | [] => Err OutOfBounds
  | b :: buffers =>
      assert (0 <? bf_size b);;
      assert (bf_consumed b <? bf_size b);;
      let length := Z.min length (u64 (bf_size b - bf_consumed b)) in
      '(dest, im, b, g) ← read_loop (S (Z.to_nat length)) im b length [] g;
      Ok (dest, im, match b with Some b => b :: buffers | None => buffers end, g)
  end.

(** The inner loop of [input_curl_read()]: "send buffer contents". *)
Fixpoint send_buffers (fuel : nat) (im : icy_metadata) (buffers : list buffer) (size : Z) (dest : cstring) (g : tags)
  : res (cstring * icy_metadata * list buffer * tags) :=
  if (0 <? size) && negb (bool_decide (buffers = [])) then
    match fuel with
    | O => Err OutOfFuel
    | S fuel =>
        '(copied, im, buffers, g) ← read_from_buffer im buffers size g;
        send_buffers fuel im buffers (size - Z.of_nat (length copied)) (dest ++ copied) g
    end
  else Ok (dest, im, buffers, g).

(** Every call consumes a byte. *)
Definition pending (buffers : list buffer) : cstring := concat (unread <$> buffers).

Definition copy_icy_tag (c : input_curl) (g : tags) : res (input_curl * tags) :=
  let '(t, im) := icy_tag (ic_icy c) in
  let c := ic_set_stream (ic_buffers c) im c in
  match t with
  | NoTag => Ok (c, g)
  | Dangling => Err OutOfBounds
  | TagAt t =>
      g ← free_tag (ic_tag c) g;
      '(t, g) ←
        match ic_meta_name c with
        | Some name => has ← tag_has_type t TAG_NAME g;
                       if has : bool then Ok (t, g) else tag_add_item t TAG_NAME (name ++ [nul]) g
        | None => Ok (t, g)
        end;
      Ok (ic_set_tag (TagAt t) c, g)
  end.

(** The rounds of the outer loop are counted by [fuel]; the number returned
    and the bytes stored. *)
Fixpoint input_curl_read (fuel : nat) (size : Z) (dest : cstring) (c : input_curl) (g : tags)
  : res (Z * cstring * input_curl * tags) :=
  match fuel with
  | O => Err OutOfFuel
  | S fuel =>
      '(ret, c) ← fill_buffer c;
      if negb (ret =? 0) then Ok (ret, dest, c, g) else
      '(copied, im, buffers, g) ←
        send_buffers (length (pending (ic_buffers c))) (ic_icy c) (ic_buffers c) size [] g;
      let c := ic_set_stream buffers im c in
      let size := size - Z.of_nat (length copied) in
      let dest := dest ++ copied in
      if (length dest =? 0)%nat then input_curl_read fuel size dest c g else
      '(c, g) ← (if icy_defined (ic_icy c) then copy_icy_tag c g else Ok (c, g));
      let c := ic_set_base (ic_seekable c) (ic_size c) (ic_offset c + Z.of_nat (length dest)) (ic_mime c) c in
      Ok (Z.of_nat (length dest), dest,
          if ic_paused c && (curl_total_buffer_size c <? CURL_RESUME_AT) then ic_set_flags false (ic_ready c) c else c, g)
  end.

End read.

(** The end of a request: whether libcurl succeeded, and the status of the
    answer. *)
Definition input_curl_request_done (ok : bool) (status : Z) (c : input_curl) : res input_curl :=
  assert (negb (ic_easy c));;
  assert (ic_postponed_error c =? 0);;
  let e := if negb ok then error MPD_3RD
           else if (status <? 200) || (300 <=? status) then error MPD_ACCESS else 0 in
  Ok (ic_set_flags (ic_paused c) true (ic_set_error e c)).

Definition input_curl_check (c : input_curl) : Z * input_curl := (ic_postponed_error c, ic_set_error 0 c).

Definition ic_set_easy (easy : bool) (c : input_curl) : input_curl :=
  InputCurl easy (ic_buffers c) (ic_paused c) (ic_icy c) (ic_meta_name c) (ic_tag c) (ic_postponed_error c) (ic_ready c)
    (ic_seekable c) (ic_size c) (ic_offset c) (ic_mime c).

(** The request is ended, and the buffers and the tag that was not fetched
    are freed; the tag of the parser and its memory are not. *)
Definition input_curl_free (c : input_curl) (g : tags) : res tags := free_tag (ic_tag c) g.

(** *** Requests

    [handle] and [url_ok]: what [curl_easy_init()] and the option
    [CURLOPT_URL] answer; [add]: what [input_curl_easy_add_indirect()] does;
    [answer]: what has happened to the stream when it is ready. *)
Section request.
Variable handle url_ok : bool.
Variable add : Z.
Variable answer : input_curl -> input_curl.

Definition input_curl_easy_init (c : input_curl) : Z * input_curl :=
  if negb handle then (error MPD_3RD, ic_set_easy false c)
  else if negb url_ok then (error MPD_3RD, ic_set_easy true c)
  else (1, ic_set_easy true c).

(** The value of [ERR_PTR()], or the stream. *)
Definition input_curl_open (url : cstring) (g : tags) : res (Z + input_curl) :=
  if negb (has_prefix (lit "http://") url) then Ok (inl (error MPD_INVAL)) else
  let c := InputCurl false [] false (icy_clear (IcyMetadata 0 0 0 0 None NoTag)) None NoTag 0 false false (-1) 0 None in
  let '(ret, c) := input_curl_easy_init c in
  if negb (ret =? 0) then input_curl_free c g;; Ok (inl ret)
  else if negb (add =? 0) then input_curl_free c g;; Ok (inl add)
  else Ok (inr c).

Inductive whence := SEEK_SET | SEEK_CUR | SEEK_END | SEEK_OTHER.

#[global] Instance whence_eq_dec : EqDecision whence.
Proof. solve_decision. Defined.

(** Data up to [offset] is dropped. *)
Fixpoint fast_forward (fuel : nat) (offset position : Z) (buffers : list buffer) : res (Z * list buffer) :=
  if (position <? offset) && negb (bool_decide (buffers = [])) then
    match fuel, buffers with
    | S fuel, b :: buffers =>
        let left := u64 (bf_size b - bf_consumed b) in
        let length := if offset - position <? left then offset - position else left in
        b ← consume_buffer b length;
        fast_forward fuel offset (position + length) (match b with Some b => b :: buffers | None => buffers end)
    | _, _ => Err OutOfFuel
    end
  else Ok (position, buffers).

Definition ic_set_offset (offset : Z) (c : input_curl) : input_curl :=
  ic_set_base (ic_seekable c) (ic_size c) offset (ic_mime c) c.

(** The result, whether the mutex is held afterwards, and the stream. *)
Definition input_curl_seek (offset : Z) (w : whence) (c : input_curl) : res (Z * bool * input_curl) :=
  assert (ic_ready c);;
  if decide (w = SEEK_SET /\ offset = ic_offset c) then Ok (1, true, c) else
  if negb (ic_seekable c) then Ok (0, true, c) else
  let absolute :=
    match w with
    | SEEK_SET => inr offset
    | SEEK_CUR => inr (offset + ic_offset c)
    | SEEK_END => if ic_size c <? 0 then inl 0 else inr (offset + ic_size c)
    | SEEK_OTHER => inl (error MPD_INVAL)
    end in
  match absolute with
  | inl ret => Ok (ret, true, c)
  | inr offset =>
      if offset <? 0 then Ok (error MPD_INVAL, true, c) else
      '(position, buffers) ← fast_forward (S (length (ic_buffers c))) offset (ic_offset c) (ic_buffers c);
      let c := ic_set_offset position (ic_set_stream buffers (ic_icy c) c) in
      if offset =? position then Ok (0, true, c) else
      let c := ic_set_offset offset (ic_set_stream [] (ic_icy c) (ic_set_easy false c)) in
      if offset =? ic_size c then Ok (0, false, c) else
      let '(ret, c) := input_curl_easy_init c in
      if negb (ret =? 0) then Ok (ret, false, c) else
      let c := ic_set_flags (ic_paused c) false c in
      if negb (add =? 0) then Ok (add, false, c) else
      let c := answer c in
      Ok (ic_postponed_error c, true, c)
  end.

End request.

(** ** Response headers *)

Section headers.
Context {C : Charset}.

(** [goffset] is signed. *)
Definition i64 (x : Z) : Z := (x + 2 ^ 63) mod 2 ^ 64 - 2 ^ 63.

(** [g_ascii_strtoull()] for base 10. *)
Definition g_ascii_strtoull (s : cstring) : Z := (strtoul s).1.

Definition header_is (name : cstring) (s : string) : bool := g_ascii_strcasecmp_eq name (lit s).

(** The text behind the colon without white space around it. *)
Definition header_value (s : cstring) : cstring := rstrip (strchug_fast s).

Definition set_stream_name (name : cstring) (c : input_curl) (g : tags) : res (input_curl * tags) :=
  g ← free_tag (ic_tag c) g;
  '(t, g) ← tag_add_item tag_new TAG_NAME (name ++ [nul]) g;
  Ok (ic_set_tag (TagAt t) (ic_set_name name c), g).

(** [header] is a line of the response; [extent] is [end - header]. *)
Definition input_curl_headerfunction (header : cstring) (c : input_curl) (g : tags) : res (input_curl * tags) :=
  match before ":" header with
  | None => Ok (c, g)
  | Some name =>
      if (64 <=? length name)%nat then Ok (c, g) else
      let value := header_value (drop (S (length name)) header) in
      let extent := (length name + 1 + length (span g_ascii_isspace (drop (S (length name)) header)).1 + length value)%nat in
      let name := c_str name in
      if header_is name "accept-ranges" then
        Ok (if icy_defined (ic_icy c) then c else ic_set_base true (ic_size c) (ic_offset c) (ic_mime c) c, g)
      else if header_is name "content-length" then
        if (64 <=? extent)%nat then Ok (c, g)
        else Ok (ic_set_base (ic_seekable c) (i64 (ic_offset c + g_ascii_strtoull (c_str value))) (ic_offset c) (ic_mime c) c, g)
      else if header_is name "content-type" then
        Ok (ic_set_base (ic_seekable c) (ic_size c) (ic_offset c) (Some (c_str value)) c, g)
      else if header_is name "icy-name" || header_is name "ice-name" || header_is name "x-audiocast-name" then
        set_stream_name (c_str value) c g
      else if header_is name "icy-metaint" then
        if (64 <=? extent)%nat || icy_defined (ic_icy c) then Ok (c, g) else
        let icy_metaint := g_ascii_strtoull (c_str value) in
        if 0 <? icy_metaint then
          Ok (ic_set_base false (ic_size c) (ic_offset c) (ic_mime c)
                (ic_set_stream (ic_buffers c) (icy_start icy_metaint (ic_icy c)) c), g)
        else Ok (c, g)
      else Ok (c, g)
  end.

End headers.

(** ** The server's side *)

Definition crlf : cstring := [char_of 13; newline].

Definition icy_server_metadata_header (name genre url content_type : cstring) (metaint : Z) : cstring :=
  lit "ICY 200 OK" ++ crlf ++
  lit "icy-notice1:<BR>This stream requires an audio player!<BR>" ++ crlf ++
  lit "icy-notice2:MPD - The music player daemon<BR>" ++ crlf ++
  lit "icy-name: " ++ name ++ crlf ++
  lit "icy-genre: " ++ genre ++ crlf ++
  lit "icy-url: " ++ url ++ crlf ++
  lit "icy-pub:1" ++ crlf ++
  lit "icy-metaint:" ++ print_u metaint ++ crlf ++
  lit "Content-Type: " ++ content_type ++ crlf ++
  lit "Connection: close" ++ crlf ++
  lit "Pragma: no-cache" ++ crlf ++
  lit "Cache-Control: no-cache, no-store" ++ crlf ++ crlf.

(** The text of a block. *)
Definition metadata_text (title url : cstring) : cstring :=
  lit "StreamTitle='" ++ title ++ lit "';" ++ lit "StreamUrl='" ++ url ++ lit "';".

(** The string with the size, in blocks of 16 bytes, in place of its first
    character; [None] is [NULL]. *)
Definition icy_server_metadata_string (stream_title stream_url : cstring) : option cstring :=
  let text := metadata_text stream_title stream_url in
  let meta_length := u32 (Z.of_nat (length text)) in
  let meta_length := i32 meta_length / 16 + 1 in
  if 255 <? meta_length then None else Some (char_of (meta_length mod 256) :: text).

(** [sizeof(stream_title)]. *)
Definition STREAM_TITLE_SIZE : Z := (1 + 255 - 28) * 16.

(** [g_strlcpy(stream_title + position, src, sizeof(stream_title) - position)]:
    at most the size less one byte is copied, and a null byte. *)
Definition strlcpy_at (a : cells ascii) (position : Z) (src : cstring) : res (cells ascii) :=
  let size := u64 (STREAM_TITLE_SIZE - position) in
  if size =? 0 then Ok a
  else copy_to a position (take (Z.to_nat (Z.min (size - 1) (Z.of_nat (length src)))) src ++ [nul]).

(** The loop over the values of the tag. *)
Fixpoint title_loop (items : list cstring) (a : cells ascii) (position : Z) : res (cells ascii) :=
  match items with
  | [] => Ok a
  | item :: items =>
      if negb (position <? STREAM_TITLE_SIZE) then Ok a else
      a ← strlcpy_at a position item;
      let position := u32 (position + i32 (Z.of_nat (length item))) in
      match items with
      | [] => Ok a
      | _ =>
          a ← strlcpy_at a position (lit " - ");
          title_loop items a (u32 (position + 3))
      end
  end.

(** The string in an array of which not every cell has been written. *)
Fixpoint cells_str (a : cells ascii) : res cstring :=
  match a with
  | [] => Err OutOfBounds
  | None :: _ => Err Uninitialized
  | Some c :: a => if is_nul c then Ok [] else cons c <$> cells_str a
  end.

Definition stream_title (items : list cstring) : res cstring :=
  a ← copy_to (replicate (Z.to_nat STREAM_TITLE_SIZE) None) 0 [nul];
  a ← title_loop items a 0;
  cells_str a.

(** The values of a tag, in the order of the types. *)
Fixpoint tag_values (types : list tag_type) (t : tag) (g : tags) : res (list cstring) :=
  match types with
  | [] => Ok []
  | type :: types =>
      v ← tag_get_value t type g;
      vs ← tag_values types t g;
      Ok (match v with Some v => v :: vs | None => vs end)
  end.

(** [page_new_copy(p, size)] where the bytes at [p] and behind it are [mem]. *)
Definition copy_bytes (mem : cstring) (size : Z) : res cstring :=
  if u64 size <=? Z.of_nat (length mem) then
    assert (0 <? u64 size);; Ok (take (Z.to_nat size) mem)
  else Err OutOfBounds.

(** The bytes of the page; [heap] is what lies behind the string in memory. *)
Definition icy_server_metadata_page (t : tag) (types : list tag_type) (heap : cstring) (g : tags)
  : res (option cstring) :=
  items ← tag_values types t g;
  title ← stream_title items;
  match icy_server_metadata_string title [] with
  | None => Ok None
  | Some s => Some <$> copy_bytes (s ++ [nul] ++ heap) (schar (default nul (head s)) * 16 + 1)
  end.

(** * Icy streams: proofs

    What a stream means, byte by byte: audio, the size of a block, or its
    text.  The parser, which works on whole buffers, follows this automaton
    however the stream is cut. *)

(** [Audio n]: [n] more bytes of audio, at least one. *)
Inductive reader := Audio (rest : Z) | BlockSize | Block (size : Z) (text : cstring).

Section feed.
Variable metaint : Z.

(** After the bytes [s]: the automaton, the audio, and the text of the last
    block that was completed. *)
Definition feed_byte (c : ascii) (r : reader) : reader * cstring * option cstring :=
  match r with
  | Audio n => (if n =? 1 then BlockSize else Audio (n - 1), [c], None)
  | BlockSize => (if char_code c =? 0 then Audio metaint else Block (char_code c * 16) [], [], None)
  | Block size text =>
      let text := text ++ [c] in
      if Z.of_nat (length text) =? size then (Audio metaint, [], Some text) else (Block size text, [], None)
  end.

(** The later of two blocks. *)
Definition later {A} (a b : option A) : option A := match b with Some _ => b | None => a end.

Fixpoint feed (s : cstring) (r : reader) : reader * cstring * option cstring :=
  match s with
  | [] => (r, [], None)
  | c :: s =>
      let '(r, a, b) := feed_byte c r in
      let '(r', a', b') := feed s r in (r', a ++ a', later b b')
  end.

Definition feed_reader (s : cstring) (r : reader) : reader := (feed s r).1.1.
Definition feed_audio (s : cstring) (r : reader) : cstring := (feed s r).1.2.
Definition feed_block (s : cstring) (r : reader) : option cstring := (feed s r).2.

Lemma feed_eta s r : feed s r = (feed_reader s r, feed_audio s r, feed_block s r).
Proof. unfold feed_reader, feed_audio, feed_block. by destruct (feed s r) as [[? ?] ?]. Qed.

Lemma later_none {A} (a : option A) : later a None = a.
Proof. done. Qed.

Lemma later_assoc {A} (a b c : option A) : later a (later b c) = later (later a b) c.
Proof. by destruct c. Qed.

Lemma feed_app s1 s2 r :
  feed (s1 ++ s2) r =
    (feed_reader s2 (feed_reader s1 r), feed_audio s1 r ++ feed_audio s2 (feed_reader s1 r),
     later (feed_block s1 r) (feed_block s2 (feed_reader s1 r))).
Proof.
  revert r. induction s1 as [|c s1 IH]; intros r; unfold feed_reader, feed_audio, feed_block in *; cbn [app feed].
  - cbn. by destruct (feed s2 r) as [[? ?] [?|]].
  - destruct (feed_byte c r) as [[r1 a1] b1]. rewrite IH. destruct (feed s1 r1) as [[r2 a2] b2]. cbn [fst snd].
    by rewrite app_assoc, later_assoc.
Qed.

Lemma feed_reader_app s1 s2 r : feed_reader (s1 ++ s2) r = feed_reader s2 (feed_reader s1 r).
Proof. unfold feed_reader at 1. by rewrite feed_app. Qed.

Lemma feed_audio_app s1 s2 r : feed_audio (s1 ++ s2) r = feed_audio s1 r ++ feed_audio s2 (feed_reader s1 r).
Proof. unfold feed_audio at 1. by rewrite feed_app. Qed.

Lemma feed_block_app s1 s2 r : feed_block (s1 ++ s2) r = later (feed_block s1 r) (feed_block s2 (feed_reader s1 r)).
Proof. unfold feed_block at 1. by rewrite feed_app. Qed.

Definition reader_ok (r : reader) : Prop :=
  match r with
  | Audio n => 0 < n <= metaint
  | BlockSize => True
  | Block size text => 0 < size <= 255 * 16 /\ Z.of_nat (length text) < size
  end.

(** Runs of audio and of text. *)
Lemma feed_audio_run s n : 0 < n -> Z.of_nat (length s) <= n ->
  feed s (Audio n) = (if Z.of_nat (length s) =? n then BlockSize else Audio (n - Z.of_nat (length s)), s, None).
Proof.
  revert n. induction s as [|c s IH]; intros n Hn Hl.
  - cbn [feed length]. rewrite (proj2 (Z.eqb_neq (Z.of_nat 0) n)) by lia. do 3 f_equal. lia.
  - cbn [feed feed_byte length] in *. destruct (Z.eqb_spec n 1) as [->|].
    + destruct s; [|simpl in Hl; lia]. done.
    + rewrite IH by lia. cbn [later]. rewrite Nat2Z.inj_succ. replace (Z.succ (Z.of_nat (length s)) =? n) with (Z.of_nat (length s) =? n - 1).
      { case_match; [done|]. do 3 f_equal. lia. }
      destruct (Z.eqb_spec (Z.of_nat (length s)) (n - 1)), (Z.eqb_spec (Z.succ (Z.of_nat (length s))) n); (done || lia).
Qed.

Lemma feed_block_run s size text : Z.of_nat (length text) < size -> Z.of_nat (length text + length s) <= size ->
  feed s (Block size text) =
    (if Z.of_nat (length text + length s) =? size then (Audio metaint, [], Some (text ++ s)) else (Block size (text ++ s), [], None)).
Proof.
  revert text. induction s as [|c s IH]; intros text Ht Hl.
  - cbn [feed length]. rewrite Nat.add_0_r, app_nil_r. by rewrite (proj2 (Z.eqb_neq _ _)) by lia.
  - cbn [feed feed_byte length] in *. rewrite length_app. cbn [length].
    destruct (Z.eqb_spec (Z.of_nat (length text + 1)) size) as [E|E].
    + destruct s; [|simpl in Hl; lia]. cbn [feed later app length]. by rewrite (proj2 (Z.eqb_eq _ _)) by lia.
    + rewrite IH by (rewrite length_app; simpl; lia). rewrite length_app. cbn [length].
      replace (length text + 1 + length s)%nat with (length text + S (length s))%nat by lia.
      rewrite <- app_assoc. cbn [app]. by destruct (_ =? size).
Qed.

Lemma feed_audio_length s r : (length (feed_audio s r) <= length s)%nat.
Proof.
  revert r. induction s as [|c s IH]; intros r; [done|]. unfold feed_audio. cbn [feed].
  destruct (feed_byte c r) as [[r1 a1] b1] eqn:E. rewrite feed_eta. cbn [fst snd length]. rewrite length_app.
  specialize (IH r1). enough (length a1 <= 1)%nat by lia.
  unfold feed_byte in E. destruct r; [| |destruct (_ =? size)]; simplify_eq; simpl; lia.
Qed.

End feed.

(** ** The tag of a block *)

(** Every string can be converted from ISO-8859-1, which assigns a character
    to every byte. *)
Class Latin1 (C : Charset) : Prop := convert_total s : is_Some (g_convert s).

Definition unquote (value : cstring) : cstring :=
  if quoted value then take (length value - 2) (drop 1 value) else value.

Definition title_of (item : cstring) : list cstring :=
  match g_strsplit item "=" with
  | p0 :: p1 :: _ => if bool_decide (p0 = lit "StreamTitle") then [unquote p1] else []
  | _ => []
  end.

Definition icy_titles (text : cstring) : list cstring := concat (map title_of (g_strsplit (c_str text) ";")).

Section tags.
Context {C : Charset} {HC : CharsetSpec C} {HL : Latin1 C}.

(** The items of the tag for a block. *)
Definition icy_items (g : tags) (text : cstring) : list item :=
  concat (map (added (ignored g TAG_TITLE) TAG_TITLE) (icy_titles text)).

(** The parser's tag holds these items, and [R] are all other references. *)
Definition tag_rep (R : gmultiset loc) (g : tags) (p : tag_ptr) (its : option (list item)) : Prop :=
  match p, its with
  | NoTag, None => world g R
  | TagAt t, Some its => holding R g t its /\ is_bulk (tag_items t) = false
  | _, _ => False
  end.

Lemma free_tag_ok R g p its :
  tag_rep R g p its -> wp (free_tag p g) (fun g' => world g' R /\ others_kept g g' R).
Proof using.
  clear. destruct p, its; cbn [tag_rep free_tag]; try done.
  intros [Hh Hb]. eapply wp_mono; [by eapply tag_free_ok|]. intros g' (Hw & Hk & Hbb & Hbi & Hi).
  split; [done|]. split; [done|by rewrite Hbb, Hb|done|done].
Qed.

Definition grown (R : gmultiset loc) (g : tags) (its : list item) (r : tag * tags) : Prop :=
  holding R r.2 r.1 its /\ is_bulk (tag_items r.1) = false /\ others_kept g r.2 R.

Lemma convertible_any s : convertible s.
Proof using HL. right. apply convert_total. Qed.

Lemma icy_add_item_ok g R t its value :
  holding R g t its -> is_bulk (tag_items t) = false -> Z.of_nat (length its) + 1 < 2 ^ 31 ->
  wp (icy_add_item t TAG_TITLE value g) (grown R g (its ++ added (ignored g TAG_TITLE) TAG_TITLE (unquote value))).
Proof using HC HL.
  intros Hh Hb Hlen. unfold icy_add_item, unquote.
  assert (Hadd : forall p len, (len <= length p)%nat ->
    wp (if (0 <? len)%nat then tag_add_item_n t TAG_TITLE (Some (p ++ [nul])) len g else Ok (t, g))
       (grown R g (its ++ added (ignored g TAG_TITLE) TAG_TITLE (take len p)))).
  { intros p len Hl. destruct (Nat.ltb_spec 0 len).
    - eapply wp_mono; [apply (tag_add_item_n_ok g R t its); [done|rewrite length_app; simpl; lia|apply convertible_any|done]|].
      intros [t' g'] (Hh' & Hk & Hbu & Hi & _ & _ & Hst). cbn [fst snd] in *. destruct (Hst Hb) as [Hb' Hbi].
      rewrite take_app_le in Hh' by done. split; [done|]. split; [done|]. by split.
    - replace len with 0%nat by lia. unfold added. rewrite take_0, orb_true_r, app_nil_r.
      apply wp_ok. split; [done|]. split; [done|apply others_refl]. }
  destruct (quoted value) eqn:Eq.
  - apply Hadd. rewrite length_drop. lia.
  - specialize (Hadd value (length value) ltac:(lia)). by rewrite firstn_all in Hadd.
Qed.

Lemma icy_parse_tag_item_ok g R t its i :
  holding R g t its -> is_bulk (tag_items t) = false -> Z.of_nat (length its) + 1 < 2 ^ 31 ->
  wp (icy_parse_tag_item t i g) (grown R g (its ++ concat (map (added (ignored g TAG_TITLE) TAG_TITLE) (title_of i)))).
Proof using HC HL.
  intros Hh Hb Hlen. unfold icy_parse_tag_item, title_of.
  assert (Hsame : grown R g (its ++ []) (t, g)) by (rewrite app_nil_r; split; [done|split; [done|apply others_refl]]).
  destruct (g_strsplit i "=") as [|p0 [|p1 ps]]; [by apply wp_ok..|].
  destruct (bool_decide _); [|by apply wp_ok]. cbn [map concat]. rewrite app_nil_r. by apply icy_add_item_ok.
Qed.

Lemma title_of_length i : (length (title_of i) <= 1)%nat.
Proof using. clear. unfold title_of. destruct (g_strsplit i "=") as [|? [|? ?]]; [simpl; lia..|]. case_match; simpl; lia. Qed.

Lemma added_list_length b ty l : (length (concat (map (added b ty) l)) <= length l)%nat.
Proof using.
  clear HC HL. induction l as [|x l IH]; [done|]. cbn [map concat]. rewrite length_app. cbn [length].
  enough (length (added b ty x) <= 1)%nat by lia. unfold added. case_match; simpl; lia.
Qed.

Lemma parse_items_ok items R g t its :
  holding R g t its -> is_bulk (tag_items t) = false -> Z.of_nat (length its + length items) + 1 < 2 ^ 31 ->
  wp (parse_items items t g)
    (grown R g (its ++ concat (map (added (ignored g TAG_TITLE) TAG_TITLE) (concat (map title_of items))))).
Proof using HC HL.
  revert g t its. induction items as [|i items IH]; intros g t its Hh Hb Hlen; cbn [parse_items map concat].
  - rewrite app_nil_r. apply wp_ok. split; [done|]. split; [done|apply others_refl].
  - cbn [length] in Hlen. eapply wp_bind_mono; [apply icy_parse_tag_item_ok; [done|done|lia]|].
    intros [t1 g1] (Hh1 & Hb1 & Hk1). cbn [fst snd] in *.
    assert (Ei : ignored g1 TAG_TITLE = ignored g TAG_TITLE) by (unfold ignored; by rewrite (kept_ignore _ _ _ Hk1)).
    pose proof (added_list_length (ignored g TAG_TITLE) TAG_TITLE (title_of i)). pose proof (title_of_length i).
    eapply wp_mono; [apply (IH g1 t1 _ Hh1 Hb1); rewrite length_app; lia|]. intros [t2 g2] (Hh2 & Hb2 & Hk2). cbn [fst snd] in *.
    rewrite Ei, <- app_assoc, <- concat_app, <- map_app in Hh2. split; [exact Hh2|]. split; [done|].
    by eapply others_trans.
Qed.

End tags.

(** ** The parser follows the automaton *)

Definition in_audio (r : reader) : bool := match r with Audio _ => true | _ => false end.

Record im_rep (metaint : Z) (im : icy_metadata) (r : reader) : Prop := {
  rep_size : im_data_size im = metaint;
  rep_reader : reader_ok metaint r;
  rep_state :
    match r with
    | Audio n => im_data_rest im = n /\ im_meta_size im = 0
    | BlockSize => im_data_rest im = 0 /\ im_meta_size im = 0
    | Block size text =>
        im_data_rest im = 0 /\ im_meta_size im = size /\ im_meta_position im = Z.of_nat (length text) /\
        exists rest, im_meta_data im = Some ((Some <$> text) ++ rest) /\
          Z.of_nat (length rest) = size + 1 - Z.of_nat (length text)
    end;
}.

Lemma icy_data_ok metaint im r len s :
  0 < metaint < 2 ^ 62 -> im_rep metaint im r -> 0 < len <= Z.of_nat (length s) -> len < 2 ^ 62 ->
  wp (icy_data im len) (fun '(k, im') => exists r',
    0 <= k <= len /\ feed metaint (take (Z.to_nat k) s) r = (r', take (Z.to_nat k) s, None) /\
    im_rep metaint im' r' /\ im_tag im' = im_tag im /\
    (k < len -> in_audio r' = false) /\ (k = 0 -> r' = r)).
Proof.
  intros Hm [Hs Hok Hst] Hlen Hlen2. unfold icy_data, icy_defined. rewrite Hs.
  rewrite (proj2 (Z.ltb_lt 0 len)) by lia. cbn [assert mbind res_bind]. rewrite (proj2 (Z.ltb_lt 0 metaint)) by lia.
  cbn [negb]. destruct r as [n| |size text]; cbn [reader_ok] in Hok.
  - destruct Hst as [Hr Hz]. rewrite Hr. rewrite (proj2 (Z.eqb_neq n 0)) by lia. destruct (Z.leb_spec n len).
    + apply wp_ok. exists BlockSize. split; [lia|].
      assert (Hl : length (take (Z.to_nat n) s) = Z.to_nat n) by (rewrite length_take; lia).
      rewrite feed_audio_run by lia. rewrite Hl, Z2Nat.id, Z.eqb_refl by lia. repeat split; intros; (done || lia).
    + apply wp_ok. exists (Audio (n - len)). split; [lia|].
      assert (Hl : length (take (Z.to_nat len) s) = Z.to_nat len) by (rewrite length_take; lia).
      rewrite feed_audio_run by lia. rewrite Hl, Z2Nat.id by lia. rewrite (proj2 (Z.eqb_neq len n)) by lia.
      repeat split; cbn; intros; rewrite ?u64_small by lia; (lia || done).
  - destruct Hst as [Hr Hz]. rewrite Hr. apply wp_ok. exists BlockSize. split; [lia|].
    change (Z.to_nat 0) with O. rewrite take_0. by repeat split.
  - pose proof Hst as [Hr _]. rewrite Hr. apply wp_ok. exists (Block size text). split; [lia|].
    change (Z.to_nat 0) with O. rewrite take_0. split; [done|]. split; [|done]. by split.
Qed.

Lemma copy_to_next {A} (xs ys : list A) rest :
  (length ys <= length rest)%nat ->
  copy_to ((Some <$> xs) ++ rest) (Z.of_nat (length xs)) ys = Ok ((Some <$> (xs ++ ys)) ++ drop (length ys) rest).
Proof.
  intros H. unfold copy_to. rewrite length_app, length_fmap.
  rewrite (proj2 (Z.leb_le _ _)), (proj2 (Z.leb_le _ _)) by lia. cbn [andb]. f_equal. rewrite Nat2Z.id.
  rewrite <- (take_drop (length ys) rest) at 1. rewrite fmap_app, <- app_assoc.
  rewrite <- (length_fmap Some xs), <- (Nat.add_0_r (length (Some <$> xs))), list_inserts_app_r. f_equal.
  apply list_inserts_0_r. rewrite length_fmap, length_take. lia.
Qed.

Lemma c_str_stop s t : c_str (s ++ nul :: t) = c_str s.
Proof.
  unfold c_str. induction s as [|c s IH]; [done|]. cbn [app span]. destruct (negb (is_nul c)); [|done].
  destruct (span _ (s ++ _)), (span _ s). cbn [fst] in *. by rewrite IH.
Qed.

Lemma c_str_length s : (length (c_str s) <= length s)%nat.
Proof.
  unfold c_str. induction s as [|c s IH]; [done|]. cbn [span]. destruct (negb (is_nul c)); [|simpl; lia].
  destruct (span _ s). cbn [fst length] in *. lia.
Qed.

Lemma g_strsplit_length s sep : (length (g_strsplit s sep) <= S (length s))%nat.
Proof.
  enough (length (split_at sep s) <= S (length s))%nat by (unfold g_strsplit; destruct s; simpl in *; lia).
  induction s as [|c s IH]; [done|]. cbn [split_at length]. destruct (decide _); cbn [length]; [lia|].
  destruct (split_at sep s); simpl in *; lia.
Qed.

Section parser.
Context {C : Charset} {HC : CharsetSpec C} {HL : Latin1 C}.
Context (metaint : Z) (metaint_ok : 0 < metaint < 2 ^ 62).

Lemma icy_items_ignore g g' text : ignore_tag_items g' = ignore_tag_items g -> icy_items g' text = icy_items g text.
Proof using. clear. intros E. unfold icy_items, ignored. by rewrite E. Qed.

Lemma icy_parse_tag_ok R g text :
  world g R -> Z.of_nat (length text) < 2 ^ 30 ->
  wp (icy_parse_tag (c_str text) g) (grown R g (icy_items g text)).
Proof using HC HL.
  intros Hw Hl. pose proof (c_str_length text). pose proof (g_strsplit_length (c_str text) ";").
  apply (parse_items_ok _ R g tag_new []); [by apply tag_new_holding|done|simpl; lia].
Qed.

(** [last]: the text of the block that the tag is from. *)
Definition parser_rep (R : gmultiset loc) (g : tags) (im : icy_metadata) (r : reader) (last : option cstring) : Prop :=
  im_rep metaint im r /\ tag_rep R g (im_tag im) (icy_items g <$> last).

Lemma end_block_ok R g im text x last :
  im_data_size im = metaint -> im_meta_size im = Z.of_nat (length text) -> im_meta_size im <= 255 * 16 ->
  tag_rep R g (im_tag im) (icy_items g <$> last) ->
  wp (end_block im ((Some <$> text) ++ [x]) g) (fun '(im', g') =>
    parser_rep R g' im' (Audio metaint) (Some text) /\ others_kept g g' R).
Proof using HC HL metaint_ok.
  intros Hs Hm Hb Ht. unfold end_block. rewrite Hm, aset_ok by (rewrite length_app, length_fmap; simpl; lia).
  cbn [mbind res_bind]. rewrite <- (length_fmap Some text), <- (Nat.add_0_r (length _)), insert_app_r.
  cbn [list_insert insert]. eapply wp_bind_mono; [by apply (free_tag_ok R g _ _ Ht)|]. intros g1 [Hw1 Hk1].
  change (_ ++ [Some nul]) with ((Some <$> text) ++ (Some <$> [nul])). rewrite <- fmap_app, defined_cells_ok.
  cbn [mbind res_bind]. rewrite c_str_stop. eapply wp_bind_mono; [apply icy_parse_tag_ok; [done|lia]|].
  intros [t g2] (Hh & Hnb & Hk2). cbn [fst snd] in *. apply wp_ok. split; [|by eapply others_trans].
  split; [by repeat split; cbn; lia|]. cbn [im_tag tag_rep fmap option_fmap option_map].
  rewrite (icy_items_ignore g1 g2) by by rewrite (kept_ignore _ _ _ Hk2). done.
Qed.

Lemma fill_block_ok R g im size text last p :
  parser_rep R g im (Block size text) last ->
  wp (fill_block im p g) (fun '(n, im', g') => exists r' b,
    n = Z.min (Z.of_nat (length p)) (size - Z.of_nat (length text)) /\
    feed metaint (take (Z.to_nat n) p) (Block size text) = (r', [], b) /\
    parser_rep R g' im' r' (later last b) /\ others_kept g g' R /\ (n < Z.of_nat (length p) -> in_audio r' = true)).
Proof using HC HL metaint_ok.
  intros [[Hs [Hsz Htx] (Hr & Hms & Hmp & rest & Hmd & Hrest)] Ht]. unfold fill_block. rewrite Hmp, Hms.
  rewrite (proj2 (Z.ltb_lt _ _)) by lia. cbn [assert mbind res_bind]. rewrite u64_small by lia. rewrite Hmd.
  set (n := Z.min _ _). assert (Hn : length (take (Z.to_nat n) p) = Z.to_nat n) by (rewrite length_take; lia).
  rewrite copy_to_next by lia. cbn [mbind res_bind im_set_meta im_meta_position im_meta_size]. rewrite Hn.
  pose proof (feed_block_run metaint (take (Z.to_nat n) p) size text Htx ltac:(lia)) as Hf. rewrite Hn in Hf.
  set (text' := text ++ take (Z.to_nat n) p) in *.
  assert (Hl' : length text' = (length text + Z.to_nat n)%nat) by (unfold text'; rewrite length_app; lia).
  replace (Z.of_nat (length text + Z.to_nat n)) with (Z.of_nat (length text) + n) in Hf by lia.
  destruct (Z.eqb_spec (Z.of_nat (length text) + n) size) as [E|E].
  - destruct (drop (Z.to_nat n) rest) as [|x [|]] eqn:Ed; apply (f_equal length) in Ed;
      rewrite length_drop in Ed; cbn [length] in Ed; [lia| |lia].
    eapply wp_bind_mono; [apply (end_block_ok R g _ text' x last); cbn; [done|lia|lia|done]|].
    intros [im' g'] (Hp & Hk). apply wp_ok. exists (Audio metaint), (Some text'). by repeat split; try apply Hp; try apply Hk.
  - apply wp_ok. exists (Block size text'), None. split; [done|]. split; [done|].
    assert (Hlt : Z.of_nat (length text') < size) by lia. repeat split; cbn; try (lia || done || apply others_refl).
    exists (drop (Z.to_nat n) rest). split; [done|]. rewrite length_drop. lia.
Qed.

Lemma icy_meta_ok R g im r last data :
  parser_rep R g im r last -> in_audio r = false -> data <> [] -> Z.of_nat (length data) < 2 ^ 62 ->
  wp (icy_meta im data g) (fun '(k, im', g') => exists r' b,
    1 <= k <= Z.of_nat (length data) /\ feed metaint (take (Z.to_nat k) data) r = (r', [], b) /\
    parser_rep R g' im' r' (later last b) /\ others_kept g g' R /\ (k < Z.of_nat (length data) -> in_audio r' = true)).
Proof using HC HL metaint_ok.
  intros [[Hs Hok Hst] Ht] Hna Hd Hlen. unfold icy_meta, icy_defined. rewrite Hs, (proj2 (Z.ltb_lt 0 metaint)) by lia.
  destruct data as [|c p]; [done|]. cbn [length] in *.
  assert (Hr : im_data_rest im = 0) by by destruct r; [|apply Hst..].
  rewrite Hr, (proj2 (Z.ltb_lt 0 (Z.of_nat (S (length p))))) by lia. cbn [assert mbind res_bind Z.eqb]. unfold begin_block.
  destruct r as [| |size text]; [done| |].
  - destruct Hst as [_ Hm]. rewrite Hm. change (0 =? 0) with true. cbv iota. cbn [mbind res_bind].
    pose proof (N_ascii_bounded c) as Hb. assert (Hc : 0 <= char_code c < 256) by (unfold char_code; lia).
    destruct (Z.eqb_spec (char_code c * 16) 0) as [E|E].
    + cbn [mbind res_bind]. rewrite Hm. cbn [Z.eqb]. apply wp_ok. exists (Audio metaint), None. rewrite Hs.
      split; [lia|]. change (Z.to_nat 1) with 1%nat. cbn [take]. rewrite take_0. cbn [feed feed_byte].
      rewrite (proj2 (Z.eqb_eq _ _)) by lia. split; [done|]. split; [split; [by repeat split; cbn; lia|done]|].
      split; [apply others_refl|done].
    + cbn [mbind res_bind im_set_meta im_meta_size]. rewrite (proj2 (Z.eqb_neq _ _)) by done.
      eapply wp_bind_mono; [apply (fill_block_ok R g _ (char_code c * 16) [] last p)|].
      { split; [|done]. split; [done|cbn [reader_ok length]; lia|]. repeat split; try done.
        exists (replicate (Z.to_nat (char_code c * 16 + 1)) None). split; [done|]. rewrite length_replicate.
        cbn [length]. lia. }
      intros [[n im'] g'] (r' & b & En & Hf & Hp & Hk & Ha). cbn [length] in *. apply wp_ok.
      exists r', b. split; [lia|]. rewrite Z2Nat.inj_add by lia. change (Z.to_nat 1) with 1%nat. rewrite Nat.add_1_r.
      cbn [take feed feed_byte]. rewrite (proj2 (Z.eqb_neq _ _)) by lia. rewrite Hf.
      repeat split; try apply Hp; try apply Hk; [by destruct b|]. intros. apply Ha. lia.
  - pose proof Hst as (_ & Hm & _). destruct Hok as [Hsz Htx]. rewrite Hm, (proj2 (Z.eqb_neq size 0)) by lia.
    cbn [mbind res_bind]. rewrite Hm, (proj2 (Z.eqb_neq size 0)) by lia.
    eapply wp_bind_mono; [apply (fill_block_ok R g im size text last (c :: p)); split; [by split|done]|].
    intros [[n im'] g'] (r' & b & En & Hf & Hp & Hk & Ha). apply wp_ok. exists r', b. cbn [length] in *.
    split; [lia|]. by split.
Qed.

(** ** Buffers *)

Definition buffer_ok (b : buffer) : Prop := 0 <= bf_consumed b < bf_size b /\ bf_size b < 2 ^ 62.

Definition rest_of (b : option buffer) : cstring := match b with Some b => unread b | None => [] end.

Lemma unread_length b : buffer_ok b -> Z.of_nat (length (unread b)) = bf_size b - bf_consumed b.
Proof using. clear. unfold buffer_ok, bf_size, unread. rewrite length_drop. lia. Qed.

Lemma consume_buffer_ok b k :
  buffer_ok b -> 0 < k <= Z.of_nat (length (unread b)) ->
  wp (consume_buffer b k) (fun b' => rest_of b' = drop (Z.to_nat k) (unread b) /\
    match b' with Some b' => buffer_ok b' | None => True end /\
    (b' = None <-> k = Z.of_nat (length (unread b)))).
Proof using.
  clear. intros Hb Hk. pose proof (unread_length b Hb) as Hl. destruct Hb as [Hc Hs]. unfold consume_buffer.
  rewrite (proj2 (Z.ltb_lt (bf_consumed b) (bf_size b))) by lia. cbn [assert mbind res_bind bf_consumed].
  change (bf_size (Buffer (bf_data b) (bf_consumed b + k))) with (bf_size b).
  destruct (Z.ltb_spec (bf_consumed b + k) (bf_size b)).
  - apply wp_ok. split; [|split; [|split; [done|intros; exfalso; lia]]].
    + cbn [rest_of]. unfold unread. cbn. rewrite drop_drop. f_equal. lia.
    + unfold buffer_ok, bf_size in *. cbn [bf_consumed bf_data]. lia.
  - rewrite (proj2 (Z.eqb_eq _ _)) by lia. apply wp_ok. split; [|split; [done|split; [lia|done]]].
    cbn [rest_of]. symmetry. apply drop_ge. lia.
Qed.

Definition rest_ok (b : option buffer) : Prop := match b with Some b => buffer_ok b | None => True end.

Lemma consume_chunk_ok b k len :
  buffer_ok b -> 0 <= k <= len -> len <= Z.of_nat (length (unread b)) ->
  wp (consume_chunk b k len) (fun '(b', len') => len' = len - k /\ rest_of b' = drop (Z.to_nat k) (unread b) /\
    rest_ok b' /\ (k < len -> exists b1, b' = Some b1)).
Proof using.
  clear. intros Hb Hk Hlen. unfold consume_chunk. destruct (Z.ltb_spec 0 k).
  - eapply wp_bind_mono; [apply consume_buffer_ok; [done|lia]|]. intros b' (Hr & Hok & Hn). apply wp_ok.
    split; [done|]. split; [done|]. split; [done|]. intros Hlt. destruct b' as [b1|]; [by exists b1|].
    destruct Hn as [Hn _]. specialize (Hn eq_refl). lia.
  - apply wp_ok. replace k with 0 by lia. change (Z.to_nat 0) with O. rewrite drop_0.
    split; [lia|]. split; [done|]. split; [done|]. intros _. by exists b.
Qed.

(** The audio, the parser and the tag after the bytes [s]. *)
Definition parsed (R : gmultiset loc) (g : tags) (s : cstring) (r : reader) (last : option cstring)
    (audio : cstring) (im' : icy_metadata) (g' : tags) : Prop :=
  audio = feed_audio metaint s r /\ others_kept g g' R /\
  parser_rep R g' im' (feed_reader metaint s r) (later last (feed_block metaint s r)).

Lemma parsed_app R g1 g2 g3 s1 s2 r last a1 a2 im2 im3 :
  parsed R g1 s1 r last a1 im2 g2 ->
  parsed R g2 s2 (feed_reader metaint s1 r) (later last (feed_block metaint s1 r)) a2 im3 g3 ->
  parsed R g1 (s1 ++ s2) r last (a1 ++ a2) im3 g3.
Proof using.
  clear. intros (-> & Hk1 & _) (-> & Hk2 & Hp). unfold parsed.
  rewrite feed_audio_app, feed_reader_app, feed_block_app, later_assoc. split; [done|]. split; [by eapply others_trans|done].
Qed.

Lemma parsed_intro R g s r last r' a b im' g' :
  feed metaint s r = (r', a, b) -> others_kept g g' R -> parser_rep R g' im' r' (later last b) ->
  parsed R g s r last a im' g'.
Proof using.
  clear. intros E Hk Hp. unfold parsed, feed_audio, feed_reader, feed_block. rewrite E. by split_and!.
Qed.

Lemma take_split {A} (k n : Z) (s : list A) :
  0 <= k <= n -> take (Z.to_nat n) s = take (Z.to_nat k) s ++ take (Z.to_nat (n - k)) (drop (Z.to_nat k) s).
Proof using. clear. intros. rewrite take_take_drop. f_equal. lia. Qed.

Lemma icy_data_parsed R g im r last len s :
  parser_rep R g im r last -> 0 < len <= Z.of_nat (length s) -> len < 2 ^ 62 ->
  wp (icy_data im len) (fun '(k, im') => 0 <= k <= len /\
    parsed R g (take (Z.to_nat k) s) r last (take (Z.to_nat k) s) im' g /\
    (k < len -> in_audio (feed_reader metaint (take (Z.to_nat k) s) r) = false)).
Proof using metaint_ok.
  intros [Hrep Ht] Hlen Hb. eapply wp_mono; [by apply (icy_data_ok metaint im r len s)|].
  intros [k im'] (r' & Hk & Hf & Hrep' & Ht' & Ha & _). split; [done|]. split.
  - apply (parsed_intro _ _ _ _ _ _ _ _ _ _ Hf); [apply others_refl|]. split; [done|]. by rewrite Ht'.
  - unfold feed_reader. rewrite Hf. exact Ha.
Qed.

Lemma icy_meta_parsed R g im r last data :
  parser_rep R g im r last -> in_audio r = false -> data <> [] -> Z.of_nat (length data) < 2 ^ 62 ->
  wp (icy_meta im data g) (fun '(k, im', g') => 1 <= k <= Z.of_nat (length data) /\
    parsed R g (take (Z.to_nat k) data) r last [] im' g').
Proof using HC HL metaint_ok.
  intros Hp Ha Hd Hl. eapply wp_mono; [by apply icy_meta_ok|]. intros [[k im'] g'] (r' & b & Hk & Hf & Hp' & Hkept & _).
  split; [done|]. by apply (parsed_intro _ _ _ _ _ _ _ _ _ _ Hf).
Qed.

Lemma buffer_loop_ok R fuel im b len dest g r last :
  parser_rep R g im r last -> buffer_ok b -> 0 < len <= Z.of_nat (length (unread b)) -> (Z.to_nat len < fuel)%nat ->
  wp (read_loop fuel im b len dest g) (fun '(dest', im', b', g') => exists audio,
    dest' = dest ++ audio /\ parsed R g (take (Z.to_nat len) (unread b)) r last audio im' g' /\
    rest_of b' = drop (Z.to_nat len) (unread b) /\ rest_ok b').
Proof using HC HL metaint_ok.
  revert im b len dest g r last. induction fuel as [|fuel IH]; intros im b len dest g r last Hp Hb Hlen Hf; [lia|].
  cbn [read_loop]. pose proof (unread_length b Hb) as Hul. pose proof Hb as [Hbc Hbs]. set (u := unread b) in *.
  eapply wp_bind_mono; [apply (icy_data_parsed R g im r last len u); [done|lia|lia]|].
  intros [k1 im1] (Hk1 & Hp1 & Ha1).
  eapply wp_bind_mono; [apply (consume_chunk_ok b k1 len); [done|lia|unfold u in *; lia]|].
  intros [b1 len1] (-> & Hr1 & Hok1 & Hb1). destruct (Z.eqb_spec (len - k1) 0) as [E1|E1].
  { apply wp_ok. replace len with k1 by lia. by eexists. }
  destruct (Hb1 ltac:(lia)) as [b1' ->]. cbn [the_buffer mbind res_bind rest_of rest_ok] in *. fold u in Hr1. rewrite Hr1.
  set (data := take (Z.to_nat (len - k1)) (drop (Z.to_nat k1) u)).
  assert (Hd : Z.of_nat (length data) = len - k1) by (unfold data; rewrite length_take, length_drop; lia).
  eapply wp_bind_mono; [apply icy_meta_parsed; [apply Hp1|apply Ha1; lia| |lia]|].
  { intros E. rewrite E in Hd. simpl in Hd. lia. }
  intros [[k2 im2] g2] (Hk2 & Hp2). pose proof (parsed_app _ _ _ _ _ _ _ _ _ _ _ _ Hp1 Hp2) as Hp12.
  assert (Es : take (Z.to_nat k1) u ++ take (Z.to_nat k2) data = take (Z.to_nat (k1 + k2)) u).
  { unfold data. rewrite take_take, Nat.min_l, take_take_drop by lia. f_equal. lia. }
  rewrite Es, app_nil_r in Hp12.
  eapply wp_bind_mono; [apply (consume_chunk_ok b1' k2 (len - k1)); [done|lia|rewrite Hr1, length_drop; lia]|].
  intros [b2 len2] (-> & Hr2 & Hok2 & Hb2). rewrite Hr1, drop_drop in Hr2.
  replace (Z.to_nat k1 + Z.to_nat k2)%nat with (Z.to_nat (k1 + k2)) in Hr2 by lia.
  destruct (Z.eqb_spec (len - k1 - k2) 0) as [E2|E2].
  { apply wp_ok. replace len with (k1 + k2) by lia. by eexists. }
  destruct (Hb2 ltac:(lia)) as [b2' ->]. cbn [the_buffer mbind res_bind rest_of rest_ok] in *.
  eapply wp_mono; [apply (IH im2 b2' (len - k1 - k2)); [apply Hp12|done|rewrite Hr2, length_drop; lia|lia]|].
  intros [[[dest' im'] b'] g'] (audio & -> & Hp3 & Hr3 & Hok3). rewrite Hr2 in Hp3, Hr3.
  pose proof (parsed_app _ _ _ _ _ _ _ _ _ _ _ _ Hp12 Hp3) as Hall.
  replace (len - k1 - k2) with (len - (k1 + k2)) in * by lia. rewrite <- take_split in Hall by lia.
  eexists. split; [by rewrite <- app_assoc|]. split; [exact Hall|]. split; [|done].
  rewrite Hr3, drop_drop. f_equal. lia.
Qed.

Lemma parsed_nil R g im r last : parser_rep R g im r last -> parsed R g [] r last [] im g.
Proof using. clear. intros Hp. split; [done|]. split; [apply others_refl|done]. Qed.

Lemma read_from_buffer_ok R im b bs len g r last :
  parser_rep R g im r last -> Forall buffer_ok (b :: bs) -> 0 < len ->
  wp (read_from_buffer im (b :: bs) len g) (fun '(audio, im', bs', g') => exists n,
    (0 < n <= length (unread b))%nat /\ Z.of_nat n <= len /\
    parsed R g (take n (pending (b :: bs))) r last audio im' g' /\
    pending bs' = drop n (pending (b :: bs)) /\ Forall buffer_ok bs').
Proof using HC HL metaint_ok.
  intros Hp [Hb Hbs]%Forall_cons Hlen. pose proof (unread_length b Hb) as Hul. pose proof Hb as [Hbc Hbz].
  unfold read_from_buffer. rewrite (proj2 (Z.ltb_lt 0 (bf_size b))), (proj2 (Z.ltb_lt (bf_consumed b) (bf_size b))) by lia.
  cbn [assert mbind res_bind]. rewrite u64_small by lia. set (n := Z.min len _).
  eapply wp_bind_mono; [apply (buffer_loop_ok R _ im b n [] g r last); [done|done|lia|lia]|].
  intros [[[dest im'] b'] g'] (audio & -> & Hpar & Hr & Hok). apply wp_ok. exists (Z.to_nat n).
  assert (Hn : (Z.to_nat n <= length (unread b))%nat) by lia.
  split; [lia|]. split; [lia|]. unfold pending. cbn [fmap list_fmap concat app].
  rewrite take_app_le, drop_app_le by done. split; [done|]. rewrite <- Hr.
  destruct b' as [b'|]; cbn [rest_of rest_ok] in *; [by split; [|constructor]|done].
Qed.

Lemma send_buffers_ok R fuel im bs size dest g r last :
  parser_rep R g im r last -> Forall buffer_ok bs -> 0 <= size -> (length (pending bs) <= fuel)%nat ->
  wp (send_buffers fuel im bs size dest g) (fun '(dest', im', bs', g') => exists n audio,
    (n <= length (pending bs))%nat /\ dest' = dest ++ audio /\ parsed R g (take n (pending bs)) r last audio im' g' /\
    pending bs' = drop n (pending bs) /\ Forall buffer_ok bs' /\ Z.of_nat (length audio) <= size /\
    (Z.of_nat (length audio) = size \/ bs' = [])).
Proof using HC HL metaint_ok.
  revert im bs size dest g r last. induction fuel as [|fuel IH]; intros im bs size dest g r last Hp Hbs Hsize Hf.
  all: assert (Hstop : forall bs', bs' = bs -> (Z.of_nat 0 = size \/ bs' = []) ->
    wp (Ok (dest, im, bs', g)) (fun '(dest', im', bs', g') => exists n audio,
    (n <= length (pending bs))%nat /\ dest' = dest ++ audio /\ parsed R g (take n (pending bs)) r last audio im' g' /\
    pending bs' = drop n (pending bs) /\ Forall buffer_ok bs' /\ Z.of_nat (length audio) <= size /\
    (Z.of_nat (length audio) = size \/ bs' = [])));
    [intros bs' -> Hor; apply wp_ok; exists O, []; rewrite take_0, drop_0, app_nil_r;
     split_and!; (done || lia || by apply parsed_nil)|].
  all: cbn [send_buffers]; destruct bs as [|b bs]; [cbn [bool_decide]; rewrite andb_false_r; apply Hstop; [done|by right]|].
  - destruct (Z.ltb_spec 0 size); [|apply Hstop; [done|left; lia]]. exfalso. apply Forall_cons in Hbs as [Hb _].
    pose proof (unread_length b Hb). destruct Hb as [Hbc _]. unfold pending in Hf. cbn [fmap list_fmap concat] in Hf.
    rewrite length_app in Hf. lia.
  - destruct (Z.ltb_spec 0 size); [|apply Hstop; [done|left; lia]]. cbn [bool_decide andb negb].
    eapply wp_bind_mono; [by apply read_from_buffer_ok|]. intros [[[a1 im1] bs1] g1] (n1 & Hn1 & Hle1 & Hp1 & Hpend & Hbs1).
    assert (Hn1' : (n1 <= length (pending (b :: bs)))%nat).
    { unfold pending. cbn [fmap list_fmap concat]. rewrite length_app. lia. }
    assert (Ha1 : (length a1 <= n1)%nat).
    { destruct Hp1 as (-> & _). pose proof (feed_audio_length metaint (take n1 (pending (b :: bs))) r) as Hal.
      rewrite length_take in Hal. lia. }
    eapply wp_mono; [apply (IH im1 bs1 (size - Z.of_nat (length a1))); [apply Hp1|done|lia|]|].
    { rewrite Hpend, length_drop. lia. }
    intros [[[dest' im'] bs'] g'] (n2 & a2 & Hn2 & -> & Hp2 & Hpend2 & Hbs2 & Hle2 & Hor).
    rewrite Hpend in Hn2, Hp2, Hpend2. rewrite length_drop in Hn2. exists (n1 + n2)%nat, (a1 ++ a2).
    split; [lia|]. split; [by rewrite app_assoc|]. rewrite length_app.
    split; [rewrite <- take_take_drop; by eapply parsed_app|]. split; [by rewrite Hpend2, drop_drop|].
    split; [done|]. split; [lia|]. destruct Hor as [?|?]; [left; lia|by right].
Qed.

Lemma writefunction_ok bytes c :
  Forall buffer_ok (ic_buffers c) -> Z.of_nat (length bytes) < 2 ^ 62 ->
  let '(r, c') := input_curl_writefunction bytes c in
  Forall buffer_ok (ic_buffers c') /\ ic_icy c' = ic_icy c /\
  pending (ic_buffers c') = pending (ic_buffers c) ++ (match r with Some _ => bytes | None => [] end).
Proof using.
  clear. intros Hb Hl. unfold input_curl_writefunction. destruct (Z.eqb_spec (Z.of_nat (length bytes)) 0) as [E|E].
  - destruct bytes; [|simpl in E; lia]. by rewrite app_nil_r.
  - destruct (CURL_MAX_BUFFERED <=? _); [by rewrite app_nil_r|]. cbn [ic_set_flags ic_set_stream ic_buffers ic_icy]. split; [|split; [done|]].
    + apply Forall_app. split; [done|]. constructor; [|constructor]. split; [cbn|exact Hl]. unfold bf_size. cbn. lia.
    + unfold pending. rewrite fmap_app, concat_app. cbn. by rewrite app_nil_r.
Qed.

End parser.

(** ** The block that the server makes *)

Definition SEPARATOR : cstring := lit " - ".

Fixpoint join_title (items : list cstring) : cstring :=
  match items with
  | [] => []
  | [item] => item
  | item :: items => item ++ SEPARATOR ++ join_title items
  end.

Lemma strlcpy_at_ok t src rest :
  Z.of_nat (length t + length rest) = STREAM_TITLE_SIZE -> (length src < length rest)%nat ->
  strlcpy_at ((Some <$> t) ++ rest) (Z.of_nat (length t)) src =
    Ok ((Some <$> (t ++ src)) ++ Some nul :: drop (S (length src)) rest).
Proof.
  intros Hs Hl. unfold strlcpy_at. assert (STREAM_TITLE_SIZE < 2 ^ 32) by (vm_compute; done).
  rewrite u64_small by lia. rewrite (proj2 (Z.eqb_neq _ 0)) by lia. rewrite take_ge by lia.
  rewrite copy_to_next by (rewrite length_app; simpl; lia). rewrite app_assoc, fmap_app, <- app_assoc, length_app.
  cbn [length fmap list_fmap app]. by rewrite Nat.add_1_r.
Qed.

Lemma cells_str_ok t rest : no_nul t -> cells_str ((Some <$> t) ++ Some nul :: rest) = Ok t.
Proof.
  unfold no_nul. induction t as [|c t IH]; intros Hn; [done|]. cbn [forallb] in Hn. apply andb_prop in Hn as [Hc Hn].
  cbn [fmap list_fmap app cells_str]. destruct (is_nul c); [done|]. by rewrite IH.
Qed.

Lemma title_loop_ok items t rest :
  Z.of_nat (length t + length rest) = STREAM_TITLE_SIZE -> (length (join_title items) < length rest)%nat ->
  head rest = Some (Some nul) ->
  exists rest', title_loop items ((Some <$> t) ++ rest) (Z.of_nat (length t)) =
    Ok ((Some <$> (t ++ join_title items)) ++ Some nul :: rest').
Proof.
  assert (STREAM_TITLE_SIZE < 2 ^ 31) by (vm_compute; done).
  revert t rest. induction items as [|item items IH]; intros t rest Hs Hl Hh.
  - destruct rest as [|x rest]; [done|]. injection Hh as ->. exists rest. cbn [title_loop join_title]. by rewrite app_nil_r.
  - cbn [title_loop]. rewrite (proj2 (Z.ltb_lt _ _)) by lia. cbn [negb].
    assert (Hi : (length item <= length (join_title (item :: items)))%nat).
    { cbn [join_title]. destruct items; [done|]. rewrite !length_app. lia. }
    rewrite strlcpy_at_ok by lia. cbn [mbind res_bind]. rewrite i32_small by lia.
    destruct items as [|item2 items]; [by eexists|].
    set (more := item2 :: items) in *. change (join_title (item :: more)) with (item ++ SEPARATOR ++ join_title more) in *.
    rewrite !length_app in Hl. change (length SEPARATOR) with 3%nat in Hl.
    rewrite (u32_small (Z.of_nat (length t) + Z.of_nat (length item))) by lia.
    rewrite <- Nat2Z.inj_add, <- length_app.
    assert (Hr : length (Some nul :: drop (S (length item)) rest) = (length rest - length item)%nat).
    { cbn [length]. rewrite length_drop. lia. }
    rewrite strlcpy_at_ok; [|rewrite Hr, length_app; lia|rewrite Hr; simpl; lia]. cbn [mbind res_bind].
    replace (u32 (Z.of_nat (length (t ++ item)) + 3)) with (Z.of_nat (length ((t ++ item) ++ SEPARATOR))).
    2: { rewrite !length_app. rewrite u32_small by lia. change (length SEPARATOR) with 3%nat. lia. }
    destruct (IH ((t ++ item) ++ SEPARATOR) (Some nul :: drop (S (length SEPARATOR)) (Some nul :: drop (S (length item)) rest)))
      as [rest' E].
    { cbn [length]. rewrite length_drop, Hr, !length_app. change (length SEPARATOR) with 3%nat. lia. }
    { cbn [length]. rewrite length_drop, Hr. change (length SEPARATOR) with 3%nat. lia. }
    { done. }
    exists rest'. rewrite !app_assoc. change (lit " - ") with SEPARATOR. exact E.
Qed.

Lemma stream_title_ok items :
  Z.of_nat (length (join_title items)) < STREAM_TITLE_SIZE -> no_nul (join_title items) ->
  stream_title items = Ok (join_title items).
Proof.
  intros Hl Hn. unfold stream_title.
  pose proof (copy_to_next (@nil ascii) [nul] (replicate (Z.to_nat STREAM_TITLE_SIZE) None)) as E. cbn [length fmap list_fmap app] in E.
  change (Z.of_nat 0) with 0 in E. rewrite E by (rewrite length_replicate; apply Nat2Z.inj_le; vm_compute; done).
  cbn [mbind res_bind].
  destruct (title_loop_ok items [] (Some nul :: drop 1 (replicate (Z.to_nat STREAM_TITLE_SIZE) None))) as [rest' El].
  { cbn [length]. rewrite length_drop, length_replicate. assert (0 < STREAM_TITLE_SIZE) by (vm_compute; done). lia. }
  { cbn [length]. rewrite length_drop, length_replicate. lia. }
  { done. }
  change (Z.of_nat (length [])) with 0 in El. cbn [fmap list_fmap app] in El. rewrite El. cbn [mbind res_bind].
  by apply cells_str_ok.
Qed.

(** A block: its size and as many bytes. *)
Definition block_ok (page : cstring) : Prop :=
  exists c text, page = c :: text /\ Z.of_nat (length text) = char_code c * 16 /\ 0 < char_code c.

Definition TEXT_MAX : Z := 127 * 16.

Lemma char_code_bound c : 0 <= char_code c < 256.
Proof. pose proof (N_ascii_bounded c). unfold char_code. lia. Qed.

(** The size in front of a text that is not too long for a [char]. *)
Lemma metadata_string_ok title :
  let text := metadata_text title [] in
  Z.of_nat (length text) < TEXT_MAX ->
  icy_server_metadata_string title [] = Some (char_of (Z.of_nat (length text) / 16 + 1) :: text) /\
  0 < Z.of_nat (length text) / 16 + 1 < 128.
Proof.
  intros text Hl. unfold TEXT_MAX in Hl. assert (0 <= Z.of_nat (length text) / 16 < 127).
  { split; [apply Z.div_pos; lia|]. apply Z.div_lt_upper_bound; lia. }
  unfold icy_server_metadata_string. fold text. rewrite u32_small, i32_small by lia.
  rewrite (proj2 (Z.ltb_ge _ _)) by lia. rewrite Z.mod_small by lia. split; [done|lia].
Qed.

Lemma server_page_ok t types items heap g :
  tag_values types t g = Ok items -> no_nul (join_title items) ->
  Z.of_nat (length (metadata_text (join_title items) [])) < TEXT_MAX -> (15 <= length heap)%nat ->
  exists page, icy_server_metadata_page t types heap g = Ok (Some page) /\ block_ok page /\
    c_str (drop 1 page) = metadata_text (join_title items) [].
Proof.
  intros Hv Hn Hl Hheap. unfold icy_server_metadata_page. rewrite Hv. cbn [mbind res_bind].
  destruct (metadata_string_ok _ Hl) as [E Hsz]. set (text := metadata_text (join_title items) []) in *.
  set (m := Z.of_nat (length text) / 16 + 1) in *.
  rewrite stream_title_ok; [|unfold TEXT_MAX in Hl; unfold text, metadata_text in Hl; rewrite !length_app in Hl; unfold STREAM_TITLE_SIZE; lia|done].
  cbn [mbind res_bind]. rewrite E. cbn [head default from_option id app].
  assert (Hc : char_code (char_of m) = m) by (apply char_code_of; lia).
  assert (Hs : schar (char_of m) = m) by (unfold schar; rewrite Hc, (proj2 (Z.leb_gt _ _)); lia).
  unfold copy_bytes. rewrite Hs, u64_small by lia.
  assert (Hfit : 16 * (Z.of_nat (length text) / 16) <= Z.of_nat (length text) < 16 * m).
  { unfold m. pose proof (Z.div_mod (Z.of_nat (length text)) 16 ltac:(lia)). pose proof (Z.mod_pos_bound (Z.of_nat (length text)) 16 ltac:(lia)). lia. }
  cbn [length]. rewrite !length_app. cbn [length].
  rewrite (proj2 (Z.leb_le _ _)), (proj2 (Z.ltb_lt 0 _)) by lia. cbn [assert mbind res_bind fmap res_fmap].
  replace (Z.to_nat (m * 16 + 1)) with (S (Z.to_nat (m * 16))) by lia. cbn [take].
  set (body := take _ _). assert (Hb : length body = Z.to_nat (m * 16)).
  { unfold body. rewrite length_take, length_app. cbn [length]. lia. }
  eexists. split; [done|]. split.
  - exists (char_of m), body. rewrite Hc, Hb. split; [done|]. lia.
  - cbn [drop]. unfold body. rewrite take_app_ge by lia.
    replace (Z.to_nat (m * 16) - length text)%nat with (S (Z.to_nat (m * 16) - length text - 1)) by lia.
    cbn [app take]. rewrite drop_0, c_str_stop. apply c_str_no_nul. unfold no_nul, text, metadata_text.
    rewrite !forallb_app. by rewrite Hn.
Qed.

(** *** What the listener makes of it *)

Lemma split_at_none sep s : sep ∉ s -> split_at sep s = [s].
Proof.
  induction s as [|c s IH]; intros Hs; [done|]. apply not_elem_of_cons in Hs as [Hc Hs].
  cbn [split_at]. rewrite decide_False by done. by rewrite IH.
Qed.

Lemma split_at_app sep s t : sep ∉ s -> split_at sep (s ++ sep :: t) = s :: split_at sep t.
Proof.
  induction s as [|c s IH]; intros Hs; cbn [app split_at]; [by rewrite decide_True|].
  apply not_elem_of_cons in Hs as [Hc Hs]. rewrite decide_False by done. by rewrite IH.
Qed.

Lemma g_strsplit_cons sep c s : g_strsplit (c :: s) sep = split_at sep (c :: s).
Proof. done. Qed.

Lemma icy_titles_ok title :
  no_nul title -> ";"%char ∉ title -> "="%char ∉ title -> icy_titles (metadata_text title []) = [title].
Proof.
  intros Hn Hsemi Heq. unfold icy_titles.
  rewrite c_str_no_nul by (unfold no_nul, metadata_text; rewrite !forallb_app; by rewrite Hn).
  set (quote := [squote]). set (p0 := lit "StreamTitle").
  assert (E : metadata_text title [] = (p0 ++ "="%char :: quote ++ title ++ quote) ++ ";"%char :: lit "StreamUrl=''" ++ [";"%char]).
  { unfold metadata_text, p0, quote. cbn. by rewrite <- app_assoc. }
  rewrite E. unfold p0 at 1. cbn [lit String.list_ascii_of_string app]. rewrite g_strsplit_cons.
  match goal with |- context [split_at _ ?s] => change s with ((p0 ++ "="%char :: quote ++ title ++ quote) ++ ";"%char :: lit "StreamUrl=''" ++ [";"%char]) end.
  rewrite split_at_app.
  2: { unfold p0, quote. rewrite !elem_of_app, elem_of_cons, !elem_of_app. intros [H|[H|[H|[H|H]]]]; try done.
       all: apply list_elem_of_In in H; vm_compute in H; intuition discriminate. }
  change (split_at ";" (lit "StreamUrl=''" ++ [";"%char])) with [lit "StreamUrl=''"; []]. cbn [map concat].
  change (title_of (lit "StreamUrl=''")) with (@nil cstring). change (title_of []) with (@nil cstring). rewrite !app_nil_r.
  unfold title_of. unfold p0 at 1. cbn [lit String.list_ascii_of_string app]. rewrite g_strsplit_cons.
  match goal with |- context [split_at _ ?s] => change s with (p0 ++ "="%char :: quote ++ title ++ quote) end.
  rewrite split_at_app by (intros H; apply list_elem_of_In in H; vm_compute in H; intuition discriminate).
  rewrite split_at_none.
  2: { unfold quote. rewrite !elem_of_app. intros [H|[H|H]]; [|done|].
       all: apply list_elem_of_In in H; vm_compute in H; intuition discriminate. }
  rewrite bool_decide_true by done. unfold unquote, quoted, quote. cbn [app length head]. rewrite length_app. cbn [length].
  rewrite last_cons, last_snoc. cbn [default from_option]. rewrite !bool_decide_true by done.
  rewrite (proj2 (Nat.leb_le _ _)) by lia. cbn [andb drop].
  replace (S (length title + 1) - 2)%nat with (length title) by lia. by rewrite drop_0, take_app_length.
Qed.
