(* ===== verification/Httpd.v ===== *)
(** * The HTTP server for audio

    [src/output/httpd.c] with [src/output/httpd_client.c]: an output that sends
    what its encoder produces to every client, in pages ([src/page.c]) that the
    clients share, and puts Icy blocks into the stream of those that ask for
    them. *)

From S2P Require Import Prelude Err CString TagPool TagValue Tag Tokenizer FifoBuffer ClientRead ClientWrite Icy.
Local Open Scope Z_scope.

(** ** Pages *)

(** [ref] counts pointers that are in memory somewhere: it is not bounded
    here. *)
Record page := Page { pg_ref : Z; pg_data : cstring }.

Abbreviation heap := (gmap loc page).

Definition pg_size (p : page) : Z := Z.of_nat (length (pg_data p)).

Definition page_at (h : heap) (l : loc) : res page :=
  match h !! l with Some p => Ok p | None => Err OutOfBounds end.

Definition page_new_copy (data : cstring) (h : heap) : res (loc * heap) :=
  assert (0 <? Z.of_nat (length data));;
  let l := fresh (dom h) in
  Ok (l, <[l := Page 1 data]> h).

Definition page_new_concat (a b : loc) (h : heap) : res (loc * heap) :=
  pa ← page_at h a; pb ← page_at h b; page_new_copy (pg_data pa ++ pg_data pb) h.

Definition page_ref (l : loc) (h : heap) : res heap :=
  p ← page_at h l; Ok (<[l := Page (pg_ref p + 1) (pg_data p)]> h).

(** Whether the page has been freed. *)
Definition page_unref (l : loc) (h : heap) : res (bool * heap) :=
  p ← page_at h l;
  if pg_ref p - 1 =? 0 then Ok (true, delete l h)
  else Ok (false, <[l := Page (pg_ref p - 1) (pg_data p)]> h).

(** [page_unref()] of a pointer that may be [NULL]. *)
Definition unref_opt (l : option loc) (h : heap) : res heap :=
  match l with Some l => snd <$> page_unref l h | None => Ok h end.

Fixpoint unref_all (ls : list loc) (h : heap) : res heap :=
  match ls with
  | [] => Ok h
  | l :: ls => r ← page_unref l h; unref_all ls r.2
  end.

(** ** Clients *)

Inductive client_state := REQUEST | HEADERS | RESPONSE.

#[global] Instance client_state_eq_dec : EqDecision client_state.
Proof. solve_decision. Defined.

(** [hc_input] is [None] when the buffer has been freed; [hc_write_source]:
    [write_source_id] is not 0. *)
Record httpd_client := HttpdClient {
  hc_channel : sink;
  hc_write_source : bool;
  hc_input : option fifo_buffer;
  hc_state : client_state;
  hc_pages : list loc;
  hc_current_page : option loc;
  hc_current_position : Z;
  hc_dlna_streaming_requested : bool;
  hc_metadata_supported : bool;
  hc_metadata_requested : bool;
  hc_metadata_sent : bool;
  hc_metaint : Z;
  hc_metadata : option loc;
  hc_metadata_current_position : Z;
  hc_metadata_fill : Z;
}.

Definition hc_set_channel (ch : sink) (c : httpd_client) : httpd_client :=
  HttpdClient ch (hc_write_source c) (hc_input c) (hc_state c) (hc_pages c) (hc_current_page c) (hc_current_position c)
    (hc_dlna_streaming_requested c) (hc_metadata_supported c) (hc_metadata_requested c) (hc_metadata_sent c)
    (hc_metaint c) (hc_metadata c) (hc_metadata_current_position c) (hc_metadata_fill c).
Definition hc_set_input (i : option fifo_buffer) (c : httpd_client) : httpd_client :=
  HttpdClient (hc_channel c) (hc_write_source c) i (hc_state c) (hc_pages c) (hc_current_page c) (hc_current_position c)
    (hc_dlna_streaming_requested c) (hc_metadata_supported c) (hc_metadata_requested c) (hc_metadata_sent c)
    (hc_metaint c) (hc_metadata c) (hc_metadata_current_position c) (hc_metadata_fill c).
Definition hc_set_state (s : client_state) (c : httpd_client) : httpd_client :=
  HttpdClient (hc_channel c) (hc_write_source c) (hc_input c) s (hc_pages c) (hc_current_page c) (hc_current_position c)
    (hc_dlna_streaming_requested c) (hc_metadata_supported c) (hc_metadata_requested c) (hc_metadata_sent c)
    (hc_metaint c) (hc_metadata c) (hc_metadata_current_position c) (hc_metadata_fill c).
Definition hc_set_queue (source : bool) (pages : list loc) (current : option loc) (position : Z) (c : httpd_client)
  : httpd_client :=
  HttpdClient (hc_channel c) source (hc_input c) (hc_state c) pages current position
    (hc_dlna_streaming_requested c) (hc_metadata_supported c) (hc_metadata_requested c) (hc_metadata_sent c)
    (hc_metaint c) (hc_metadata c) (hc_metadata_current_position c) (hc_metadata_fill c).
Definition hc_set_wishes (dlna supported requested : bool) (c : httpd_client) : httpd_client :=
  HttpdClient (hc_channel c) (hc_write_source c) (hc_input c) (hc_state c) (hc_pages c) (hc_current_page c)
    (hc_current_position c) dlna supported requested (hc_metadata_sent c)
    (hc_metaint c) (hc_metadata c) (hc_metadata_current_position c) (hc_metadata_fill c).
Definition hc_set_metadata (sent : bool) (metadata : option loc) (position fill : Z) (c : httpd_client) : httpd_client :=
  HttpdClient (hc_channel c) (hc_write_source c) (hc_input c) (hc_state c) (hc_pages c) (hc_current_page c)
    (hc_current_position c) (hc_dlna_streaming_requested c) (hc_metadata_supported c) (hc_metadata_requested c) sent
    (hc_metaint c) metadata position fill.

(** The fields that [httpd_client_begin_response()] sets are unused before
    it. *)
Definition httpd_client_new (channel : sink) (metadata_supported : bool) : res httpd_client :=
  input ← fifo_buffer_new 4096;
  Ok (HttpdClient channel false (Some input) REQUEST [] None 0 false metadata_supported false true 8192 None 0 0).

(** The queue is given up with its references. *)
Definition httpd_client_free (c : httpd_client) (h : heap) : res heap :=
  h ← (if decide (hc_state c = RESPONSE) then
         h ← unref_opt (hc_current_page c) h; unref_all (hc_pages c) h
       else free_ptr (hc_input c);; Ok h);
  unref_opt (hc_metadata c) h.

Definition page_sizes (ls : list loc) (h : heap) : res Z :=
  foldr (fun l n => p ← page_at h l; n ← n; Ok (pg_size p + n)) (Ok 0) ls.

Definition httpd_client_queue_size (c : httpd_client) (h : heap) : res Z :=
  if decide (hc_state c = RESPONSE) then page_sizes (hc_pages c) h else Ok 0.

Definition is_none {A} (p : option A) : bool := match p with None => true | Some _ => false end.

Definition httpd_client_cancel (c : httpd_client) (h : heap) : res (httpd_client * heap) :=
  if decide (hc_state c = RESPONSE) then
    h ← unref_all (hc_pages c) h;
    let source := if hc_write_source c && is_none (hc_current_page c) then false else hc_write_source c in
    Ok (hc_set_queue source [] (hc_current_page c) (hc_current_position c) c, h)
  else Ok (c, h).

Definition httpd_client_send (l : loc) (c : httpd_client) (h : heap) : res (httpd_client * heap) :=
  if decide (hc_state c = RESPONSE) then
    h ← page_ref l h;
    Ok (hc_set_queue true (hc_pages c ++ [l]) (hc_current_page c) (hc_current_position c) c, h)
  else Ok (c, h).

(** [page] may be [NULL]. *)
Definition httpd_client_send_metadata (page : option loc) (c : httpd_client) (h : heap) : res (httpd_client * heap) :=
  h ← unref_opt (hc_metadata c) h;
  let set sent m := hc_set_metadata sent m (hc_metadata_current_position c) (hc_metadata_fill c) c in
  match page with
  | None => Ok (set (hc_metadata_sent c) None, h)
  | Some l => h ← page_ref l h; Ok (set false (Some l), h)
  end.

(** *** The request *)

(** What a response needs to know of the output. *)
Record station := Station {
  st_name : cstring;
  st_genre : cstring;
  st_website : cstring;
  st_content_type : cstring;
}.

Section request.
Variable st : station.
(** [httpd->header]. *)
Variable header : option loc.

Definition httpd_output_send_header (c : httpd_client) (h : heap) : res (httpd_client * heap) :=
  match header with Some l => httpd_client_send l c h | None => Ok (c, h) end.

Definition httpd_client_begin_response (c : httpd_client) (h : heap) : res (httpd_client * heap) :=
  assert (negb (bool_decide (hc_state c = RESPONSE)));;
  httpd_output_send_header (hc_set_queue false [] None (hc_current_position c) (hc_set_state RESPONSE c)) h.

(** [g_ascii_strncasecmp(line, prefix, strlen(prefix)) == 0]. *)
Definition has_prefix_i (prefix line : cstring) : bool :=
  g_ascii_strcasecmp_eq prefix (take (length prefix) line).

Definition httpd_client_handle_line (line : cstring) (c : httpd_client) (h : heap) : res (bool * httpd_client * heap) :=
  assert (negb (bool_decide (hc_state c = RESPONSE)));;
  if decide (hc_state c = REQUEST) then
    if negb (has_prefix (lit "GET /") line) then Ok (false, c, h) else
    match strchr " " (drop 5 line) with
    | Some rest =>
        if has_prefix (lit "HTTP/") (drop 1 rest) then Ok (true, hc_set_state HEADERS c, h)
        else '(c, h) ← httpd_client_begin_response c h; Ok (true, c, h)
    | None => '(c, h) ← httpd_client_begin_response c h; Ok (true, c, h)
    end
  else if bool_decide (line = []) then
    '(c, h) ← httpd_client_begin_response c h; Ok (true, c, h)
  else if has_prefix_i (lit "Icy-MetaData: 1") line then
    Ok (true, hc_set_wishes (hc_dlna_streaming_requested c) (hc_metadata_supported c) (hc_metadata_supported c) c, h)
  else if has_prefix_i (lit "transferMode.dlna.org: Streaming") line then
    Ok (true, hc_set_wishes true false false c, h)
  else Ok (true, c, h).

Definition httpd_client_read_line (c : httpd_client) : res (option cstring * httpd_client) :=
  assert (negb (bool_decide (hc_state c = RESPONSE)));;
  match hc_input c with
  | None => Err OutOfBounds
  | Some b => '(line, b) ← client_read_line b; Ok (line, hc_set_input (Some b) c)
  end.

(** [char buffer[1024]]. *)
Definition response_text (c : httpd_client) : cstring :=
  take 1023
    (if hc_dlna_streaming_requested c then
       lit "HTTP/1.1 206 OK" ++ crlf ++
       lit "Content-Type: " ++ st_content_type st ++ crlf ++
       lit "Content-Length: 10000" ++ crlf ++
       lit "Content-RangeX: 0-1000000/1000000" ++ crlf ++
       lit "transferMode.dlna.org: Streaming" ++ crlf ++
       lit "Accept-Ranges: bytes" ++ crlf ++
       lit "Connection: close" ++ crlf ++
       lit "realTimeInfo.dlna.org: DLNA.ORG_TLAG=*" ++ crlf ++
       lit "contentFeatures.dlna.org: DLNA.ORG_OP=01;DLNA.ORG_CI=0" ++ crlf ++ crlf
     else if hc_metadata_requested c then
       icy_server_metadata_header (st_name st) (st_genre st) (st_website st) (st_content_type st) (hc_metaint c)
     else
       lit "HTTP/1.1 200 OK" ++ crlf ++
       lit "Content-Type: " ++ st_content_type st ++ crlf ++
       lit "Connection: close" ++ crlf ++
       lit "Pragma: no-cache" ++ crlf ++
       lit "Cache-Control: no-cache, no-store" ++ crlf ++ crlf).

(** A client that has been closed is [None]: [httpd_client_close()] frees it
    and takes it out of the list of the output. *)
Definition httpd_client_close (c : option httpd_client) (h : heap) : res heap :=
  match c with Some c => httpd_client_free c h | None => Err BadFree end.

Definition httpd_client_send_response (c : httpd_client) (h : heap) : res (bool * option httpd_client * heap) :=
  assert (bool_decide (hc_state c = RESPONSE));;
  let '(status, ch) := write_chars (response_text c) (hc_channel c) in
  let c := hc_set_channel ch c in
  match status with
  | WNormal _ | WAgain => Ok (true, Some c, h)
  | WEof | WError => h ← httpd_client_close (Some c) h; Ok (false, None, h)
  end.

Fixpoint received_loop (fuel : nat) (c : httpd_client) (h : heap) : res (bool * option httpd_client * heap) :=
  match fuel with
  | O => Err OutOfFuel
  | S fuel =>
      '(line, c) ← httpd_client_read_line c;
      match line with
      | None => Ok (true, Some c, h)
      | Some line =>
          '(success, c, h) ← httpd_client_handle_line line c h;
          if negb success then
            assert (negb (bool_decide (hc_state c = RESPONSE)));; Ok (false, Some c, h)
          else if decide (hc_state c = RESPONSE) then
            match hc_input c with
            | None => Err OutOfBounds
            | Some b =>
                if negb (fifo_buffer_is_empty b) then Ok (false, Some c, h)
                else httpd_client_send_response (hc_set_input None c) h
            end
          else received_loop fuel c h
      end
  end.

(** Every line takes a byte out of the buffer. *)
Definition httpd_client_received (c : httpd_client) (h : heap) : res (bool * option httpd_client * heap) :=
  assert (negb (bool_decide (hc_state c = RESPONSE)));;
  received_loop (S (match hc_input c with Some b => Z.to_nat (fifo_buffer_available b) | None => 0 end)) c h.

(** [io]: what the socket answers. *)
Definition httpd_client_read (io : io_status) (c : httpd_client) (h : heap) : res (bool * option httpd_client * heap) :=
  if decide (hc_state c = RESPONSE) then Ok (false, Some c, h) else
  match hc_input c with
  | None => Err OutOfBounds
  | Some b =>
      '(room, b) ← fifo_buffer_write b;
      let c := hc_set_input (Some b) c in
      match room with
      | None => Ok (false, Some c, h)
      | Some max_length =>
          match io with
          | IoNormal bytes =>
              let bytes := take (Z.to_nat max_length) bytes in
              b ← fifo_store bytes b;
              b ← fifo_buffer_append (Z.of_nat (length bytes)) b;
              httpd_client_received (hc_set_input (Some b) c) h
          | IoAgain => Ok (true, Some c, h)
          | IoEof | IoError => Ok (false, Some c, h)
          end
      end
  end.

(** [input_ready]: [condition == G_IO_IN]. *)
Definition httpd_client_in_event (input_ready : bool) (io : io_status) (c : httpd_client) (h : heap)
  : res (option httpd_client * heap) :=
  '(ok, c, h) ← (if input_ready then httpd_client_read io c h else Ok (false, Some c, h));
  if ok : bool then Ok (c, h) else h ← httpd_client_close c h; Ok (None, h).

End request.

(** *** The stream *)

Definition write_page_to_channel (ch : sink) (p : page) (position : Z) : res (io_write * sink) :=
  assert (position <? pg_size p);;
  Ok (write_chars (drop (Z.to_nat position) (pg_data p)) ch).

Definition write_n_bytes_to_channel (ch : sink) (p : page) (position n : Z) : res (io_write * sink) :=
  assert (position <? pg_size p);;
  if n =? -1 then write_page_to_channel ch p position
  else Ok (write_chars (take (Z.to_nat n) (drop (Z.to_nat position) (pg_data p))) ch).

(** [*bytes_written_r]. *)
Definition bytes_written (status : io_write) : Z := match status with WNormal n => Z.of_nat n | _ => 0 end.

Definition the_page (l : option loc) (h : heap) : res page :=
  match l with Some l => page_at h l | None => Err OutOfBounds end.

Definition bytes_left_till_metadata (c : httpd_client) (h : heap) : res Z :=
  if negb (hc_metadata_requested c) then Ok (-1) else
  p ← the_page (hc_current_page c) h;
  let left := u32 (hc_metaint c - hc_metadata_fill c) in
  Ok (if left <? u64 (pg_size p - hc_current_position c) then i32 left else -1).

(** The next page becomes the current one. *)
Definition next_page (c : httpd_client) : httpd_client :=
  match hc_current_page c with
  | Some _ => c
  | None => hc_set_queue (hc_write_source c) (tail (hc_pages c)) (head (hc_pages c)) 0 c
  end.

(** A part of the metadata, or the empty block. *)
Definition send_block (c : httpd_client) (h : heap) : res (io_write * httpd_client * heap) :=
  let position := hc_metadata_current_position c in
  if negb (hc_metadata_sent c) then
    p ← the_page (hc_metadata c) h;
    '(status, ch) ← write_page_to_channel (hc_channel c) p position;
    let position := position + bytes_written status in
    let c := hc_set_channel ch c in
    Ok (status,
        if pg_size p - position =? 0 then hc_set_metadata true (hc_metadata c) 0 0 c
        else hc_set_metadata false (hc_metadata c) position (hc_metadata_fill c) c, h)
  else
    '(l, h) ← page_new_copy [nul] h;
    p ← page_at h l;
    '(status, ch) ← write_page_to_channel (hc_channel c) p position;
    let position := position + bytes_written status in
    let c := hc_set_channel ch c in
    Ok (status,
        if pg_size p - position =? 0 then hc_set_metadata true (hc_metadata c) 0 0 c
        else hc_set_metadata true (hc_metadata c) position (hc_metadata_fill c) c, h).

Definition count_sent (n : Z) (c : httpd_client) : httpd_client :=
  if hc_metadata_requested c
  then hc_set_metadata (hc_metadata_sent c) (hc_metadata c) (hc_metadata_current_position c)
         (u32 (hc_metadata_fill c + n)) c
  else c.

(** After a successful write of [n] bytes of the current page; whether the
    event source stays. *)
Definition page_sent (n : Z) (c : httpd_client) (h : heap) : res (bool * httpd_client * heap) :=
  p ← the_page (hc_current_page c) h;
  let position := hc_current_position c + n in
  assert (position <=? pg_size p);;
  let c := hc_set_queue (hc_write_source c) (hc_pages c) (hc_current_page c) position c in
  let c := count_sent n c in
  if pg_size p <=? position then
    h ← unref_opt (hc_current_page c) h;
    if bool_decide (hc_pages c = [])
    then Ok (false, hc_set_queue false [] None position c, h)
    else Ok (true, hc_set_queue (hc_write_source c) (hc_pages c) None position c, h)
  else Ok (true, c, h).

(** The answer of the socket, and the bytes of the page that it took. *)
Definition written (status : io_write) (n : Z) (c : httpd_client) (h : heap) : res (bool * option httpd_client * heap) :=
  match status with
  | WNormal _ => '(r, c, h) ← page_sent n c h; Ok (r, Some c, h)
  | WAgain => Ok (true, Some c, h)
  | WEof | WError => h ← httpd_client_close (Some c) h; Ok (false, None, h)
  end.

Definition httpd_client_out_event (c : httpd_client) (h : heap) : res (bool * option httpd_client * heap) :=
  assert (bool_decide (hc_state c = RESPONSE));;
  if negb (hc_write_source c) then Ok (false, Some c, h) else
  let c := next_page c in
  bytes_to_write ← bytes_left_till_metadata c h;
  '(status, n, c, h) ←
    (if bytes_to_write =? 0 then
       '(status, c, h) ← send_block c h; Ok (status, 0, c, h)
     else
       p ← the_page (hc_current_page c) h;
       '(status, ch) ← write_n_bytes_to_channel (hc_channel c) p (hc_current_position c) bytes_to_write;
       Ok (status, bytes_written status, hc_set_channel ch c, h));
  written status n c h.

(** ** Encoders

    [src/encoder_plugin.h]: the plugin is a parameter, and the flags follow
    the order of the calls. *)

Class EncoderPlugin := {
  plugin_state : Type;
  plugin_open : plugin_state -> Z * plugin_state;
  plugin_close : plugin_state -> plugin_state;
  plugin_flush : plugin_state -> plugin_state;
  plugin_pre_tag : plugin_state -> Z * plugin_state;
  (** [None]: the plugin has no method [tag]. *)
  plugin_tag : option (tag -> plugin_state -> plugin_state);
  plugin_write : cstring -> plugin_state -> Z * plugin_state;
  plugin_read : Z -> plugin_state -> cstring * plugin_state;
  (** How much output there is. *)
  plugin_pending : plugin_state -> nat;
}.

(** At most as much as there is room for is read, and reading "repeatedly"
    comes to an end. *)
Class EncoderPluginSpec (P : EncoderPlugin) : Prop := {
  plugin_read_room n p : 0 <= n -> Z.of_nat (length (plugin_read n p).1) <= n;
  plugin_read_less n p : (plugin_read n p).1 <> [] -> (plugin_pending (plugin_read n p).2 < plugin_pending p)%nat;
  plugin_flush_pending p : (plugin_pending (plugin_flush p) <= plugin_pending p)%nat;
}.

Section output.
Context {P : EncoderPlugin}.

Record encoder := Encoder {
  en_plugin : plugin_state;
  en_open : bool;
  en_pre_tag : bool;
  en_tag : bool;
  en_end : bool;
}.

Definition en_set_plugin (p : plugin_state) (e : encoder) : encoder :=
  Encoder p (en_open e) (en_pre_tag e) (en_tag e) (en_end e).
Definition en_set_flags (pre_tag tag : bool) (e : encoder) : encoder :=
  Encoder (en_plugin e) (en_open e) pre_tag tag (en_end e).

Definition encoder_ready (e : encoder) : bool :=
  en_open e && negb (en_pre_tag e) && negb (en_tag e) && negb (en_end e).

Definition encoder_open (e : encoder) : res (Z * encoder) :=
  assert (negb (en_open e));;
  let '(ret, p) := plugin_open (en_plugin e) in
  Ok (ret, Encoder p (ret =? 0) false false false).

Definition encoder_close (e : encoder) : res encoder :=
  assert (en_open e);;
  Ok (Encoder (plugin_close (en_plugin e)) false (en_pre_tag e) (en_tag e) (en_end e)).

Definition encoder_flush (e : encoder) : res encoder :=
  assert (encoder_ready e);; Ok (en_set_plugin (plugin_flush (en_plugin e)) e).

Definition encoder_pre_tag (e : encoder) : res encoder :=
  assert (encoder_ready e);;
  let '(ret, p) := plugin_pre_tag (en_plugin e) in
  Ok (en_set_flags (ret =? 0) (en_tag e) (en_set_plugin p e)).

Definition encoder_tag (t : tag) (e : encoder) : res encoder :=
  assert (en_open e);; assert (negb (en_pre_tag e));; assert (en_tag e);; assert (negb (en_end e));;
  let e := en_set_flags (en_pre_tag e) false e in
  Ok (match plugin_tag with Some f => en_set_plugin (f t (en_plugin e)) e | None => e end).

(** The result of the plugin as a [bool]. *)
Definition encoder_write (data : cstring) (e : encoder) : res (Z * encoder) :=
  assert (encoder_ready e);;
  let '(ret, p) := plugin_write data (en_plugin e) in
  Ok (if ret =? 0 then 0 else 1, en_set_plugin p e).

Definition encoder_read (room : Z) (e : encoder) : res (cstring * encoder) :=
  assert (en_open e);;
  assert (negb (en_pre_tag e) || negb (en_tag e));;
  let e := if en_pre_tag e then en_set_flags false true e else e in
  let '(data, p) := plugin_read room (en_plugin e) in
  Ok (data, en_set_plugin p e).

(** ** Timers

    [src/timer.c]; the clock is a parameter. *)

Record timer := Timer { tm_time : Z; tm_started : bool; tm_rate : Z }.

Definition timer_new (rate : Z) : timer := Timer 0 false rate.
Definition timer_start (now : Z) (t : timer) : timer := Timer now true (tm_rate t).
Definition timer_reset (t : timer) : timer := Timer 0 false (tm_rate t).
Definition timer_add (size : Z) (t : timer) : res timer :=
  assert (tm_started t);;
  (if u64 (tm_rate t) =? 0 then Err BadArithmetic else Ok tt);;
  Ok (Timer (u64 (tm_time t + u64 (u64 size * 1000000) / u64 (tm_rate t))) true (tm_rate t)).
Definition timer_delay (now : Z) (t : timer) : Z :=
  let delay := Z.quot (i64 (u64 (tm_time t - now))) 1000 in
  if delay <? 0 then 0 else Z.min delay (2 ^ 31 - 1).

(** ** The output *)

(** The clients have numbers in place of addresses. *)
Record httpd_output := HttpdOutput {
  ht_open : bool;
  ht_encoder : encoder;
  ht_unflushed_input : Z;
  ht_header : option loc;
  ht_metadata : option loc;
  ht_clients : list (nat * httpd_client);
  ht_clients_max : Z;
  ht_clients_cnt : Z;
  ht_timer : timer;
  ht_station : station;
  ht_heap : heap;
}.

Definition ht_set_encoder (e : encoder) (unflushed : Z) (ht : httpd_output) : httpd_output :=
  HttpdOutput (ht_open ht) e unflushed (ht_header ht) (ht_metadata ht) (ht_clients ht) (ht_clients_max ht)
    (ht_clients_cnt ht) (ht_timer ht) (ht_station ht) (ht_heap ht).
Definition ht_set_clients (cs : list (nat * httpd_client)) (cnt : Z) (h : heap) (ht : httpd_output) : httpd_output :=
  HttpdOutput (ht_open ht) (ht_encoder ht) (ht_unflushed_input ht) (ht_header ht) (ht_metadata ht) cs
    (ht_clients_max ht) cnt (ht_timer ht) (ht_station ht) h.
Definition ht_set_pages (header metadata : option loc) (h : heap) (ht : httpd_output) : httpd_output :=
  HttpdOutput (ht_open ht) (ht_encoder ht) (ht_unflushed_input ht) header metadata (ht_clients ht)
    (ht_clients_max ht) (ht_clients_cnt ht) (ht_timer ht) (ht_station ht) h.
Definition ht_set_timer (t : timer) (ht : httpd_output) : httpd_output :=
  HttpdOutput (ht_open ht) (ht_encoder ht) (ht_unflushed_input ht) (ht_header ht) (ht_metadata ht) (ht_clients ht)
    (ht_clients_max ht) (ht_clients_cnt ht) t (ht_station ht) (ht_heap ht).

Definition httpd_output_has_clients (ht : httpd_output) : bool := negb (bool_decide (ht_clients ht = [])).

(** [g_list_foreach()] over the clients. *)
Fixpoint foreach (f : httpd_client -> heap -> res (httpd_client * heap)) (cs : list (nat * httpd_client)) (h : heap)
  : res (list (nat * httpd_client) * heap) :=
  match cs with
  | [] => Ok ([], h)
  | (i, c) :: cs => '(c, h) ← f c h; '(cs, h) ← foreach f cs h; Ok ((i, c) :: cs, h)
  end.

Definition on_clients (f : httpd_client -> heap -> res (httpd_client * heap)) (ht : httpd_output) : res httpd_output :=
  '(cs, h) ← foreach f (ht_clients ht) (ht_heap ht); Ok (ht_set_clients cs (ht_clients_cnt ht) h ht).

Definition httpd_output_remove_client (i : nat) (ht : httpd_output) : httpd_output :=
  ht_set_clients (filter (fun ic => ic.1 <> i) (ht_clients ht)) (u32 (ht_clients_cnt ht - 1)) (ht_heap ht) ht.

(** An event of the client [i]; a client that has closed itself leaves the
    list. *)
Definition client_event (i : nat) (f : httpd_client -> heap -> res (option httpd_client * heap)) (ht : httpd_output)
  : res httpd_output :=
  match list_find (fun ic => ic.1 = i) (ht_clients ht) with
  | None => Err OutOfBounds
  | Some (k, (_, c)) =>
      '(c, h) ← f c (ht_heap ht);
      match c with
      | Some c => Ok (ht_set_clients (<[k := (i, c)]> (ht_clients ht)) (ht_clients_cnt ht) h ht)
      | None => Ok (ht_set_clients (ht_clients (httpd_output_remove_client i ht))
                      (ht_clients_cnt (httpd_output_remove_client i ht)) h ht)
      end
  end.

Definition client_in (i : nat) (input_ready : bool) (io : io_status) (ht : httpd_output) : res httpd_output :=
  client_event i (httpd_client_in_event (ht_station ht) (ht_header ht) input_ready io) ht.

Definition client_out (i : nat) : httpd_output -> res httpd_output :=
  client_event i (fun c h => '(_, c, h) ← httpd_client_out_event c h; Ok (c, h)).

Definition httpd_client_add (i : nat) (channel : sink) (ht : httpd_output) : res httpd_output :=
  c ← httpd_client_new channel (is_none plugin_tag);
  '(c, h) ← (match ht_metadata ht with
             | Some l => httpd_client_send_metadata (Some l) c (ht_heap ht)
             | None => Ok (c, ht_heap ht)
             end);
  Ok (ht_set_clients ((i, c) :: ht_clients ht) (u32 (ht_clients_cnt ht + 1)) h ht).

(** A connection, or the error of [accept()]; without libwrap. *)
Definition httpd_listen_in_event (i : nat) (channel : option sink) (ht : httpd_output) : res httpd_output :=
  match channel with
  | Some channel =>
      if ht_open ht && ((ht_clients_max ht =? 0) || (ht_clients_cnt ht <? ht_clients_max ht))
      then httpd_client_add i channel ht else Ok ht
  | None => Ok ht
  end.

(** [sizeof(httpd->buffer)]. *)
Definition HTTPD_BUFFER : Z := 32768.

Fixpoint read_page_loop (fuel : nat) (acc : cstring) (unflushed : Z) (e : encoder) : res (cstring * Z * encoder) :=
  match fuel with
  | O => Err OutOfFuel
  | S fuel =>
      '(data, e) ← encoder_read (HTTPD_BUFFER - Z.of_nat (length acc)) e;
      if bool_decide (data = []) then Ok (acc, unflushed, e) else
      let acc := acc ++ data in
      if Z.of_nat (length acc) <? HTTPD_BUFFER then read_page_loop fuel acc 0 e else Ok (acc, 0, e)
  end.

Definition httpd_output_read_page (ht : httpd_output) : res (option loc * httpd_output) :=
  ht ← (if 65536 <=? ht_unflushed_input ht
        then e ← encoder_flush (ht_encoder ht); Ok (ht_set_encoder e 0 ht) else Ok ht);
  '(data, unflushed, e) ←
    read_page_loop (S (plugin_pending (en_plugin (ht_encoder ht)))) [] (ht_unflushed_input ht) (ht_encoder ht);
  let ht := ht_set_encoder e unflushed ht in
  if bool_decide (data = []) then Ok (None, ht) else
  '(l, h) ← page_new_copy data (ht_heap ht);
  Ok (Some l, ht_set_clients (ht_clients ht) (ht_clients_cnt ht) h ht).

Definition httpd_output_broadcast_page (l : loc) : httpd_output -> res httpd_output :=
  on_clients (httpd_client_send l).

Definition httpd_client_check_queue (c : httpd_client) (h : heap) : res (httpd_client * heap) :=
  n ← httpd_client_queue_size c h;
  if 256 * 1024 <? n then httpd_client_cancel c h else Ok (c, h).

Definition unref_page (l : loc) (ht : httpd_output) : res httpd_output :=
  '(_, h) ← page_unref l (ht_heap ht); Ok (ht_set_clients (ht_clients ht) (ht_clients_cnt ht) h ht).

Fixpoint pages_loop (fuel : nat) (ht : httpd_output) : res httpd_output :=
  match fuel with
  | O => Err OutOfFuel
  | S fuel =>
      '(l, ht) ← httpd_output_read_page ht;
      match l with
      | None => Ok ht
      | Some l => ht ← httpd_output_broadcast_page l ht; ht ← unref_page l ht; pages_loop fuel ht
      end
  end.

(** Every page takes output from the encoder. *)
Definition httpd_output_encoder_to_clients (ht : httpd_output) : res httpd_output :=
  ht ← on_clients httpd_client_check_queue ht;
  pages_loop (S (plugin_pending (en_plugin (ht_encoder ht)))) ht.

Definition httpd_output_encode_and_play (chunk : cstring) (ht : httpd_output) : res (Z * httpd_output) :=
  '(ret, e) ← encoder_write chunk (ht_encoder ht);
  let ht := ht_set_encoder e (ht_unflushed_input ht) ht in
  if ret <? 0 then Ok (ret, ht) else
  let ht := ht_set_encoder e (u64 (ht_unflushed_input ht + Z.of_nat (length chunk))) ht in
  ht ← httpd_output_encoder_to_clients ht;
  Ok (0, ht).

Definition httpd_output_play (now : Z) (chunk : cstring) (ht : httpd_output) : res (Z * httpd_output) :=
  '(ret, ht) ← (if httpd_output_has_clients ht then httpd_output_encode_and_play chunk ht else Ok (0, ht));
  if negb (ret =? 0) then Ok (0, ht) else
  let t := if tm_started (ht_timer ht) then ht_timer ht else timer_start now (ht_timer ht) in
  t ← timer_add (Z.of_nat (length chunk)) t;
  Ok (Z.of_nat (length chunk), ht_set_timer t ht).

Definition silence : cstring := replicate 1020 nul.

Definition httpd_output_pause (now : Z) (ht : httpd_output) : res (bool * httpd_output) :=
  if httpd_output_has_clients ht then '(n, ht) ← httpd_output_play now silence ht; Ok (0 <? n, ht)
  else Ok (true, ht).

Definition httpd_output_delay (now : Z) (pause : bool) (ht : httpd_output) : Z * httpd_output :=
  if negb (httpd_output_has_clients ht) && pause then (1000, ht_set_timer (timer_reset (ht_timer ht)) ht)
  else (if tm_started (ht_timer ht) then timer_delay now (ht_timer ht) else 0, ht).

Definition httpd_output_cancel : httpd_output -> res httpd_output := on_clients httpd_client_cancel.

(** The tag goes to the encoder, which starts a new stream, ... *)
Definition embed_tag (t : tag) (ht : httpd_output) : res httpd_output :=
  e ← encoder_pre_tag (ht_encoder ht);
  ht ← httpd_output_encoder_to_clients (ht_set_encoder e (ht_unflushed_input ht) ht);
  e ← encoder_tag t (ht_encoder ht);
  '(l, ht) ← httpd_output_read_page (ht_set_encoder e (ht_unflushed_input ht) ht);
  match l with
  | None => Ok ht
  | Some l =>
      h ← unref_opt (ht_header ht) (ht_heap ht);
      httpd_output_broadcast_page l (ht_set_pages (Some l) (ht_metadata ht) h ht)
  end.

(** ... or, in three steps, into the stream: the old page is given up, the
    new one is made, and the clients get it.  Only the third holds the
    mutex. *)
Definition drop_metadata (ht : httpd_output) : res httpd_output :=
  h ← unref_opt (ht_metadata ht) (ht_heap ht); Ok (ht_set_pages (ht_header ht) (ht_metadata ht) h ht).

Definition make_metadata (t : tag) (beyond : cstring) (g : tags) (ht : httpd_output) : res httpd_output :=
  page ← icy_server_metadata_page t [TAG_ALBUM; TAG_ARTIST; TAG_TITLE] beyond g;
  match page with
  | None => Ok (ht_set_pages (ht_header ht) None (ht_heap ht) ht)
  | Some bytes =>
      '(l, h) ← page_new_copy bytes (ht_heap ht);
      Ok (ht_set_pages (ht_header ht) (Some l) h ht)
  end.

Definition announce (ht : httpd_output) : res httpd_output :=
  match ht_metadata ht with
  | Some l => on_clients (httpd_client_send_metadata (Some l)) ht
  | None => Ok ht
  end.

(** [beyond]: the bytes in memory behind the string of the page. *)
Definition httpd_output_tag (t : tag) (beyond : cstring) (g : tags) (ht : httpd_output) : res httpd_output :=
  match plugin_tag with
  | Some _ => embed_tag t ht
  | None => ht ← drop_metadata ht; ht ← make_metadata t beyond g ht; announce ht
  end.

Definition httpd_output_encoder_open (ht : httpd_output) : res (Z * httpd_output) :=
  '(ret, e) ← encoder_open (ht_encoder ht);
  let ht := ht_set_encoder e (ht_unflushed_input ht) ht in
  if negb (ret =? 0) then Ok (ret, ht) else
  '(l, ht) ← httpd_output_read_page ht;
  Ok (0, ht_set_encoder (ht_encoder ht) 0 (ht_set_pages l (ht_metadata ht) (ht_heap ht) ht)).

(** [rate]: bytes per second of the audio format. *)
Definition httpd_output_open (rate : Z) (ht : httpd_output) : res (Z * httpd_output) :=
  '(ret, ht) ← httpd_output_encoder_open ht;
  if negb (ret =? 0) then Ok (ret, ht) else
  Ok (0, HttpdOutput true (ht_encoder ht) (ht_unflushed_input ht) (ht_header ht) (ht_metadata ht) [] (ht_clients_max ht)
           0 (timer_new rate) (ht_station ht) (ht_heap ht)).

Fixpoint free_clients (cs : list (nat * httpd_client)) (h : heap) : res heap :=
  match cs with
  | [] => Ok h
  | (_, c) :: cs => h ← httpd_client_free c h; free_clients cs h
  end.

(** The pointers [header] and [clients] are left as they are. *)
Definition httpd_output_close (ht : httpd_output) : res httpd_output :=
  h ← free_clients (ht_clients ht) (ht_heap ht);
  h ← unref_opt (ht_header ht) h;
  e ← encoder_close (ht_encoder ht);
  Ok (HttpdOutput false e (ht_unflushed_input ht) (ht_header ht) (ht_metadata ht) (ht_clients ht) (ht_clients_max ht)
        (ht_clients_cnt ht) (ht_timer ht) (ht_station ht) h).

End output.

(** * The HTTP server: proofs *)

(** ** Pages

    [R] are the references to pages, with multiplicity. *)

Definition content (h : heap) (l : loc) : option cstring := pg_data <$> h !! l.

Definition heap_ok (h : heap) (R : gmultiset loc) : Prop :=
  forall l, match h !! l with
            | Some p => pg_ref p = Z.of_nat (multiplicity l R) /\ 0 < pg_ref p /\ 0 < pg_size p < 2 ^ 62
            | None => multiplicity l R = 0%nat
            end.

Lemma heap_ok_eq h R R' : heap_ok h R -> R = R' -> heap_ok h R'.
Proof. by intros ? <-. Qed.

(** The pages in [R] keep their contents. *)
Definition kept (h h' : heap) (R : gmultiset loc) : Prop := forall l, l ∈ R -> content h' l = content h l.

Lemma kept_refl h R : kept h h R.
Proof. done. Qed.

Lemma kept_trans h1 h2 h3 R : kept h1 h2 R -> kept h2 h3 R -> kept h1 h3 R.
Proof. intros H1 H2 l Hl. by rewrite H2, H1. Qed.

Lemma kept_sub h h' R R' : R' ⊆ R -> kept h h' R -> kept h h' R'.
Proof. intros Hs H l Hl. apply H. by eapply gmultiset_elem_of_subseteq. Qed.

Lemma heap_page h R l : heap_ok h R -> l ∈ R ->
  exists p, h !! l = Some p /\ pg_ref p = Z.of_nat (multiplicity l R) /\ 0 < pg_ref p /\ 0 < pg_size p < 2 ^ 62.
Proof.
  intros H Hl. specialize (H l). pose proof (proj1 (elem_of_multiplicity l R) Hl). revert H.
  destruct (h !! l) as [p|]; intros H; [by exists p|lia].
Qed.

Lemma heap_content h R l : heap_ok h R -> l ∈ R ->
  exists s, content h l = Some s /\ (0 < length s)%nat /\ Z.of_nat (length s) < 2 ^ 62 /\ page_at h l = Ok (Page (Z.of_nat (multiplicity l R)) s).
Proof.
  intros H Hl. destruct (heap_page h R l H Hl) as (p & E & Er & _ & Hs). exists (pg_data p).
  unfold content, page_at. rewrite E. unfold pg_size in Hs. split; [done|]. split; [lia|]. split; [lia|].
  f_equal. destruct p. cbn in *. by subst.
Qed.

Lemma page_new_copy_ok h R data :
  heap_ok h R -> (0 < length data)%nat -> Z.of_nat (length data) < 2 ^ 62 ->
  wp (page_new_copy data h) (fun '(l, h') => heap_ok h' ({[+ l +]} ⊎ R) /\ kept h h' R /\
    content h' l = Some data /\ l ∉ R).
Proof.
  intros H Hd Hb. unfold page_new_copy. rewrite (proj2 (Z.ltb_lt _ _)) by lia. cbn [assert mbind res_bind].
  set (l := fresh (dom h)). assert (Hn : h !! l = None) by (apply not_elem_of_dom, is_fresh).
  assert (Hm : multiplicity l R = 0%nat) by (specialize (H l); by rewrite Hn in H).
  assert (Hl : l ∉ R) by (rewrite elem_of_multiplicity; lia). apply wp_ok. split_and!; [| | |done].
  - intros l'. destruct (decide (l' = l)) as [->|Hne].
    + rewrite lookup_insert_eq. rewrite multiplicity_disj_union, multiplicity_singleton_eq, Hm. unfold pg_size. cbn [pg_ref pg_data]. lia.
    + rewrite lookup_insert_ne by done. specialize (H l').
      rewrite multiplicity_disj_union, multiplicity_singleton_ne by done. done.
  - intros l' Hl'. unfold content. rewrite lookup_insert_ne; [done|]. by intros <-.
  - unfold content. by rewrite lookup_insert_eq.
Qed.

Lemma page_ref_ok h R l :
  heap_ok h R -> l ∈ R -> wp (page_ref l h) (fun h' => heap_ok h' ({[+ l +]} ⊎ R) /\ kept h h' R).
Proof.
  intros H Hl. destruct (heap_page h R l H Hl) as (p & E & Er & Hp & Hs). unfold page_ref, page_at. rewrite E.
  apply wp_ok. split.
  - intros l'. rewrite multiplicity_disj_union. destruct (decide (l' = l)) as [->|Hne].
    + rewrite lookup_insert_eq, multiplicity_singleton_eq. unfold pg_size in *. cbn [pg_ref pg_data]. lia.
    + rewrite lookup_insert_ne, multiplicity_singleton_ne by done. apply H.
  - intros l' _. unfold content. destruct (decide (l' = l)) as [->|Hne].
    + by rewrite lookup_insert_eq, E.
    + by rewrite lookup_insert_ne.
Qed.

Lemma page_unref_ok h R l :
  heap_ok h ({[+ l +]} ⊎ R) -> wp (page_unref l h) (fun '(_, h') => heap_ok h' R /\ kept h h' R).
Proof.
  intros H. destruct (heap_page h _ l H) as (p & E & Er & Hp & Hs); [multiset_solver|]. unfold page_unref, page_at. rewrite E.
  rewrite multiplicity_disj_union, multiplicity_singleton_eq in Er. cbn [mbind res_bind].
  assert (Hother : forall l', l' <> l -> match h !! l' with
            | Some p => pg_ref p = Z.of_nat (multiplicity l' R) /\ 0 < pg_ref p /\ 0 < pg_size p < 2 ^ 62
            | None => multiplicity l' R = 0%nat end).
  { intros l' Hne. specialize (H l'). rewrite multiplicity_disj_union, multiplicity_singleton_ne in H by done. exact H. }
  destruct (Z.eqb_spec (pg_ref p - 1) 0); apply wp_ok; split.
  - intros l'. destruct (decide (l' = l)) as [->|Hne]; [rewrite lookup_delete_eq; lia|].
    rewrite lookup_delete_ne by done. by apply Hother.
  - intros l' Hl'. unfold content. rewrite lookup_delete_ne; [done|]. intros <-.
    pose proof (proj1 (elem_of_multiplicity _ _) Hl'). lia.
  - intros l'. destruct (decide (l' = l)) as [->|Hne].
    + rewrite lookup_insert_eq. unfold pg_size in *. cbn [pg_ref pg_data]. lia.
    + rewrite lookup_insert_ne by done. by apply Hother.
  - intros l' _. unfold content. destruct (decide (l' = l)) as [->|Hne].
    + by rewrite lookup_insert_eq, E.
    + by rewrite lookup_insert_ne.
Qed.

Definition opt_list (l : option loc) : list loc := match l with Some l => [l] | None => [] end.

Lemma refs_cons l ls : refs_of (l :: ls) = {[+ l +]} ⊎ refs_of ls.
Proof. done. Qed.

Lemma refs_app ls1 ls2 : refs_of (ls1 ++ ls2) = refs_of ls1 ⊎ refs_of ls2.
Proof. apply list_to_set_disj_app. Qed.

Lemma unref_opt_ok h R l :
  heap_ok h (refs_of (opt_list l) ⊎ R) -> wp (unref_opt l h) (fun h' => heap_ok h' R /\ kept h h' R).
Proof.
  intros H. destruct l as [l|]; cbn [opt_list unref_opt] in *.
  - rewrite refs_cons in H. change (refs_of []) with (∅ : gmultiset loc) in H.
    replace ({[+ l +]} ⊎ ∅ ⊎ R) with ({[+ l +]} ⊎ R) in H by multiset_solver.
    pose proof (page_unref_ok _ _ _ H) as Hw. destruct (page_unref l h) as [[f h']|]; done.
  - apply wp_ok. split; [|done]. by replace R with (refs_of [] ⊎ R) by multiset_solver.
Qed.

Lemma unref_all_ok ls h R :
  heap_ok h (refs_of ls ⊎ R) -> wp (unref_all ls h) (fun h' => heap_ok h' R /\ kept h h' R).
Proof.
  revert h. induction ls as [|l ls IH]; intros h H; cbn [unref_all].
  - apply wp_ok. split; [|done]. by replace R with (refs_of [] ⊎ R) by multiset_solver.
  - rewrite refs_cons, <- gmultiset_disj_union_assoc in H.
    eapply wp_bind_mono; [apply page_unref_ok; exact H|]. intros [f h1] [H1 Hk1]. cbn [snd].
    eapply wp_mono; [apply IH; exact H1|]. intros h2 [H2 Hk2]. split; [done|].
    eapply kept_trans; [|exact Hk2]. eapply kept_sub; [|exact Hk1]. multiset_solver.
Qed.

#[export] Hint Resolve kept_refl : mpd.

(** ** A client that receives the stream *)

Definition METAINT : Z := 8192.

Definition bytes_of (h : heap) (l : option loc) : cstring := default [] (l ≫= content h).

(** The references of a client. *)
Definition hc_refs (c : httpd_client) : gmultiset loc :=
  refs_of (opt_list (hc_current_page c)) ⊎ refs_of (hc_pages c) ⊎ refs_of (opt_list (hc_metadata c)).

(** What is left to send. *)
Definition left_of (h : heap) (c : httpd_client) : cstring :=
  drop (Z.to_nat (hc_current_position c)) (bytes_of h (hc_current_page c)) ++
  concat (map (fun l => bytes_of h (Some l)) (hc_pages c)).

(** [k] bytes of a block have been sent. *)
Definition block_reader (block : cstring) (k : Z) : reader :=
  match block with
  | c :: text => if k =? 0 then BlockSize else Block (char_code c * 16) (take (Z.to_nat (k - 1)) text)
  | [] => BlockSize
  end.

(** Where a listener is. *)
Definition reader_of (h : heap) (c : httpd_client) : reader :=
  if hc_metadata_fill c =? METAINT then block_reader (bytes_of h (hc_metadata c)) (hc_metadata_current_position c)
  else Audio (METAINT - hc_metadata_fill c).

Record meta_ok (h : heap) (c : httpd_client) : Prop := {
  meta_int : hc_metaint c = METAINT;
  meta_fill : 0 <= hc_metadata_fill c <= METAINT;
  meta_block :
    if hc_metadata_sent c then hc_metadata_current_position c = 0
    else exists l s, hc_metadata c = Some l /\ content h l = Some s /\ block_ok s /\
      0 <= hc_metadata_current_position c < Z.of_nat (length s) /\
      (hc_metadata_current_position c <> 0 -> hc_metadata_fill c = METAINT);
}.

Record queue_ok (h : heap) (c : httpd_client) : Prop := {
  queue_state : hc_state c = RESPONSE;
  queue_source : if hc_write_source c then is_Some (hc_current_page c) \/ hc_pages c <> []
                 else hc_current_page c = None /\ hc_pages c = [];
  queue_position : forall l s, hc_current_page c = Some l -> content h l = Some s ->
    0 <= hc_current_position c < Z.of_nat (length s);
}.

(** [t]: the text of the last block that the listener has received.  When
    the metadata has been sent, it is that text. *)
Definition told (h : heap) (c : httpd_client) (t : option cstring) : Prop :=
  hc_metadata_sent c = true -> forall l, hc_metadata c = Some l -> t = Some (drop 1 (bytes_of h (Some l))).

Lemma bytes_kept h h' R l : kept h h' R -> (forall x, l = Some x -> x ∈ R) -> bytes_of h' l = bytes_of h l.
Proof. intros Hk Hl. unfold bytes_of. destruct l as [l|]; [|done]. cbn. by rewrite Hk by by apply Hl. Qed.

Lemma reader_block_nil k : block_reader [] k = BlockSize.
Proof. done. Qed.

(** The bytes of a block take the listener through it. *)
Lemma feed_block_bytes block k j :
  block_ok block -> 0 <= k < Z.of_nat (length block) -> 0 <= j <= Z.of_nat (length block) - k ->
  feed METAINT (take (Z.to_nat j) (drop (Z.to_nat k) block)) (block_reader block k) =
    if k + j =? Z.of_nat (length block) then (Audio METAINT, [], Some (drop 1 block))
    else (block_reader block (k + j), [], None).
Proof.
  intros (c & text & -> & Hl & Hc) Hk Hj. cbn [length block_reader] in *. pose proof (char_code_bound c).
  assert (Hrun : forall k j, 1 <= k -> 0 <= j -> k + j <= 1 + Z.of_nat (length text) -> (k = 1 -> True) ->
    Z.of_nat (length (take (Z.to_nat (k - 1)) text)) < char_code c * 16 ->
    feed METAINT (take (Z.to_nat j) (drop (Z.to_nat (k - 1)) text)) (Block (char_code c * 16) (take (Z.to_nat (k - 1)) text)) =
      if k + j =? Z.of_nat (S (length text)) then (Audio METAINT, [], Some text)
      else (Block (char_code c * 16) (take (Z.to_nat (k + j - 1)) text), [], None)).
  { intros k' j' H1 H2 H3 _ H4. assert (Hlen : length (take (Z.to_nat (k' - 1)) text) = Z.to_nat (k' - 1)) by (rewrite length_take; lia).
    assert (Hlen2 : length (take (Z.to_nat j') (drop (Z.to_nat (k' - 1)) text)) = Z.to_nat j')
      by (rewrite length_take, length_drop; lia).
    rewrite feed_block_run by (rewrite ?Hlen, ?Hlen2; lia). rewrite Hlen, Hlen2, take_take_drop.
    replace (Z.to_nat (k' - 1) + Z.to_nat j')%nat with (Z.to_nat (k' + j' - 1)) by lia.
    destruct (Z.eqb_spec (k' + j') (Z.of_nat (S (length text)))).
    - rewrite (proj2 (Z.eqb_eq _ _)) by lia. by rewrite (take_ge text) by lia.
    - by rewrite (proj2 (Z.eqb_neq _ _)) by lia. }
  destruct (Z.eqb_spec k 0) as [->|Hk0].
  - change (Z.to_nat 0) with O. rewrite drop_0. destruct (Z.eqb_spec j 0) as [->|Hj0].
    + change (Z.to_nat 0) with O. rewrite take_0. rewrite (proj2 (Z.eqb_neq _ _)) by lia. done.
    + replace (Z.to_nat j) with (S (Z.to_nat (j - 1))) by lia. cbn [take feed feed_byte].
      rewrite (proj2 (Z.eqb_neq (char_code c) 0)) by lia.
      specialize (Hrun 1 (j - 1) ltac:(lia) ltac:(lia) ltac:(lia) ltac:(done)). rewrite take_0 in Hrun.
      specialize (Hrun ltac:(simpl; lia)). change (Z.to_nat (1 - 1)) with O in Hrun. rewrite drop_0 in Hrun. rewrite Hrun.
      replace (1 + (j - 1)) with (0 + j) by lia. destruct (Z.eqb_spec (0 + j) (Z.of_nat (S (length text)))); [done|].
      by rewrite (proj2 (Z.eqb_neq (0 + j) 0)) by lia.
  - replace (Z.to_nat k) with (S (Z.to_nat (k - 1))) by lia. cbn [drop].
    rewrite Hrun by (try (rewrite length_take); lia || done).
    destruct (Z.eqb_spec (k + j) (Z.of_nat (S (length text)))); [done|].
    by rewrite (proj2 (Z.eqb_neq (k + j) 0)) by lia.
Qed.

Lemma write_chars_ok data ch :
  let '(status, ch') := write_chars data ch in exists j,
    bytes_written status = Z.of_nat j /\ (j <= length data)%nat /\
    sk_accepted ch' = sk_accepted ch ++ take j data.
Proof.
  unfold write_chars. destruct (head (sk_schedule ch)) as [[n| | |]|]; cbn [bytes_written].
  - exists (Nat.min n (length data)). split_and!; [done|lia|done].
  - exists O. rewrite take_0, app_nil_r. split_and!; [done|lia|done].
  - exists O. rewrite take_0, app_nil_r. split_and!; [done|lia|done].
  - exists O. rewrite take_0, app_nil_r. split_and!; [done|lia|done].
  - exists (length data). rewrite firstn_all. split_and!; [done|lia|done].
Qed.

Lemma ref_current c l : hc_current_page c = Some l -> l ∈ hc_refs c.
Proof. intros E. unfold hc_refs. rewrite E. cbn [opt_list]. rewrite refs_cons. multiset_solver. Qed.

Lemma ref_metadata c l : hc_metadata c = Some l -> l ∈ hc_refs c.
Proof. intros E. unfold hc_refs. rewrite E. cbn [opt_list]. rewrite refs_cons. multiset_solver. Qed.

Lemma ref_pages c l : l ∈ hc_pages c -> l ∈ hc_refs c.
Proof. intros E%refs_elem. unfold hc_refs. multiset_solver. Qed.

Lemma elem_more (l : loc) (A B : gmultiset loc) : l ∈ A -> l ∈ A ⊎ B.
Proof. multiset_solver. Qed.

#[export] Hint Resolve ref_current ref_metadata ref_pages elem_more : mpd.

(** Everything but the channel and the metadata. *)
Definition same_queue (c c' : httpd_client) : Prop :=
  hc_state c' = hc_state c /\ hc_write_source c' = hc_write_source c /\ hc_pages c' = hc_pages c /\
  hc_current_page c' = hc_current_page c /\ hc_current_position c' = hc_current_position c /\
  hc_metadata_requested c' = hc_metadata_requested c.

Lemma same_queue_left h h' R c c' :
  same_queue c c' -> kept h h' (hc_refs c ⊎ R) -> left_of h' c' = left_of h c.
Proof.
  intros (_ & _ & Hp & Hc & Hpos & _) Hk. unfold left_of. rewrite Hp, Hc, Hpos. f_equal.
  - f_equal. eapply bytes_kept; [exact Hk|]. eauto with mpd.
  - f_equal. apply map_ext_in. intros l Hl. eapply bytes_kept; [exact Hk|]. intros x [= <-].
    apply list_elem_of_In in Hl. auto with mpd.
Qed.

Lemma next_page_ok h R c :
  heap_ok h (hc_refs c ⊎ R) -> queue_ok h c -> hc_write_source c = true ->
  exists l s, hc_current_page (next_page c) = Some l /\ content h l = Some s /\
    0 <= hc_current_position (next_page c) < Z.of_nat (length s) /\ Z.of_nat (length s) < 2 ^ 62 /\
    left_of h (next_page c) = left_of h c /\ hc_refs (next_page c) = hc_refs c /\
    hc_pages (next_page c) = (match hc_current_page c with Some _ => hc_pages c | None => tail (hc_pages c) end).
Proof.
  intros Hh [Hst Hsrc Hpos] Hw. rewrite Hw in Hsrc. unfold next_page. destruct (hc_current_page c) as [l|] eqn:Ec.
  - destruct (heap_content h _ l Hh) as (s & Es & H1 & H2 & _).
    { auto with mpd. }
    exists l, s. split; [done|]. split; [done|]. split; [by eapply Hpos|]. by split_and!.
  - destruct (hc_pages c) as [|l ls] eqn:Ep; [by destruct Hsrc as [[? [=]]|[]]|].
    destruct (heap_content h _ l Hh) as (s & Es & H1 & H2 & _).
    { apply elem_more, ref_pages. rewrite Ep. by left. }
    exists l, s. cbn. split; [done|]. split; [done|]. split; [lia|]. split; [lia|]. split; [|split; [|done]].
    + unfold left_of. cbn [hc_set_queue hc_current_page hc_pages hc_current_position]. rewrite Ec, Ep. cbn. by rewrite drop_nil.
    + unfold hc_refs. cbn [hc_set_queue hc_current_page hc_pages hc_metadata]. rewrite Ec, Ep, refs_cons. cbn [opt_list tail head].
      rewrite refs_cons. multiset_solver.
Qed.

(** The block at the end of an interval: the metadata, or an empty block,
    whose page is never freed. *)
Lemma send_block_ok h R c t :
  heap_ok h (hc_refs c ⊎ R) -> meta_ok h c -> hc_metadata_fill c = METAINT -> told h c t ->
  wp (send_block c h) (fun '(status, c', h') => exists s b lost,
    sk_accepted (hc_channel c') = sk_accepted (hc_channel c) ++ s /\
    heap_ok h' (hc_refs c' ⊎ (lost ⊎ R)) /\ kept h h' (hc_refs c ⊎ R) /\ meta_ok h' c' /\
    feed METAINT s (reader_of h c) = (reader_of h' c', [], b) /\ told h' c' (later t b) /\
    same_queue c c' /\ hc_metadata c' = hc_metadata c).
Proof.
  intros Hh [Hint Hfill Hblock] Hf Ht. unfold send_block. destruct (hc_metadata_sent c) eqn:Esent; cbn [negb].
  - assert (Hread : reader_of h c = BlockSize).
    { unfold reader_of. rewrite Hf, Hblock. cbn. by destruct (bytes_of h (hc_metadata c)). }
    eapply wp_bind_mono; [apply (page_new_copy_ok h _ [nul] Hh); [simpl; lia|done]|]. intros [l h1] (Hh1 & Hk1 & Hc1 & Hl1).
    destruct (heap_content h1 _ l Hh1) as (s1 & Es1 & _ & _ & Ep); [multiset_solver|]. rewrite Hc1 in Es1. injection Es1 as <-.
    rewrite Ep. cbn [mbind res_bind]. unfold write_page_to_channel. rewrite Hblock. cbn [pg_size pg_data length].
    change (drop (Z.to_nat 0) [nul]) with [nul].
    pose proof (write_chars_ok [nul] (hc_channel c)) as Hwr. destruct (write_chars [nul] (hc_channel c)) as [status ch].
    destruct Hwr as (j & Ej & Hj & Hacc). cbn [assert mbind res_bind Z.ltb]. apply wp_ok. cbn [length] in Hj.
    exists (take j [nul]), None, {[+ l +]}.
    assert (Hrefs : forall c', hc_metadata c' = hc_metadata c -> hc_pages c' = hc_pages c -> hc_current_page c' = hc_current_page c ->
      heap_ok h1 (hc_refs c' ⊎ ({[+ l +]} ⊎ R))).
    { intros c' E1 E2 E3. unfold hc_refs. rewrite E1, E2, E3. fold (hc_refs c).
      by replace (hc_refs c ⊎ ({[+ l +]} ⊎ R)) with ({[+ l +]} ⊎ (hc_refs c ⊎ R)) by multiset_solver. }
    assert (Htold : forall c', hc_metadata c' = hc_metadata c -> told h1 c' t).
    { intros c' E Hs' l' Hl'. rewrite E in Hl'. rewrite (Ht Esent l' Hl'). do 2 f_equal. symmetry.
      eapply bytes_kept; [exact Hk1|]. intros x [= <-]. auto with mpd. }
    rewrite Ej. destruct j as [|[|]]; [| |lia].
    + change (_ =? 0) with false. cbv iota. split; [done|]. split; [by apply Hrefs|]. split; [done|].
      split; [split; cbn; [done|lia|done]|]. split; [|split; [by apply Htold|by repeat split]].
      rewrite Hread. unfold reader_of. cbn [hc_set_metadata hc_metadata_fill hc_metadata_current_position hc_metadata hc_set_channel].
      rewrite Hf. cbn. by destruct (bytes_of h1 (hc_metadata c)).
    + change (_ =? 0) with true. cbv iota. split; [done|]. split; [by apply Hrefs|]. split; [done|].
      split; [split; cbn; unfold METAINT; [done|lia|done]|]. split; [|split; [by apply Htold|by repeat split]].
      rewrite Hread. done.
  - destruct Hblock as (l & block & El & Ec & Hbok & Hp & _).
    assert (Hlr : l ∈ hc_refs c ⊎ R) by auto with mpd.
    destruct (heap_content h _ l Hh Hlr) as (s1 & Es1 & _ & _ & Ep). rewrite Ec in Es1. injection Es1 as <-.
    rewrite El. cbn [the_page]. rewrite Ep. cbn [mbind res_bind]. unfold write_page_to_channel, pg_size. cbn [pg_data].
    set (k := hc_metadata_current_position c) in *. rewrite (proj2 (Z.ltb_lt k _)) by lia. cbn [assert mbind res_bind].
    pose proof (write_chars_ok (drop (Z.to_nat k) block) (hc_channel c)) as Hwr.
    destruct (write_chars _ (hc_channel c)) as [status ch]. destruct Hwr as (j & Ej & Hj & Hacc). rewrite length_drop in Hj.
    apply wp_ok. rewrite Ej.
    assert (Hb : bytes_of h (Some l) = block) by (unfold bytes_of; cbn; by rewrite Ec).
    assert (Hread : reader_of h c = block_reader block k) by (unfold reader_of; by rewrite Hf, El, Hb).
    pose proof (feed_block_bytes block k (Z.of_nat j) Hbok ltac:(lia) ltac:(lia)) as Hfeed. rewrite Nat2Z.id in Hfeed.
    exists (take j (drop (Z.to_nat k) block)).
    assert (Hrefs : forall c', hc_metadata c' = Some l -> hc_pages c' = hc_pages c -> hc_current_page c' = hc_current_page c ->
      heap_ok h (hc_refs c' ⊎ (∅ ⊎ R))).
    { intros c' E1 E2 E3. unfold hc_refs. rewrite E1, E2, E3, <- El. fold (hc_refs c).
      by replace (hc_refs c ⊎ (∅ ⊎ R)) with (hc_refs c ⊎ R) by multiset_solver. }
    destruct (Z.eqb_spec (k + Z.of_nat j) (Z.of_nat (length block))) as [E|E].
    + exists (Some (drop 1 block)), ∅. rewrite (proj2 (Z.eqb_eq _ 0)) by lia.
      split; [done|]. split; [by apply Hrefs|]. split; [done|]. split; [split; cbn; unfold METAINT; [done|lia|done]|].
      split; [by rewrite Hread|]. split; [|by repeat split; rewrite ?El].
      intros _ l' Hl'. assert (l' = l) as -> by (cbn in Hl'; congruence). by rewrite Hb.
    + exists None, ∅. rewrite (proj2 (Z.eqb_neq _ 0)) by lia.
      split; [done|]. split; [by apply Hrefs|]. split; [done|].
      split; [split; cbn; [done|lia|exists l, block; split_and!; try done; lia]|].
      split; [|split; [by intros Hs'|by repeat split; rewrite ?El]].
      rewrite Hread, Hfeed. unfold reader_of. cbn [hc_set_metadata hc_set_channel hc_metadata hc_metadata_fill hc_metadata_current_position].
      by rewrite Hf, Z.eqb_refl, El, Hb.
Qed.

Lemma block_reader_0 block : block_reader block 0 = BlockSize.
Proof. by destruct block. Qed.

Lemma drop_take_drop {A} (n k : nat) (s : list A) : drop k s = take n (drop k s) ++ drop (k + n) s.
Proof. by rewrite <- drop_drop, take_drop. Qed.

Definition same_meta (c c' : httpd_client) : Prop :=
  hc_metadata c' = hc_metadata c /\ hc_metadata_sent c' = hc_metadata_sent c /\
  hc_metadata_current_position c' = hc_metadata_current_position c /\ hc_metaint c' = hc_metaint c /\
  hc_metadata_requested c' = hc_metadata_requested c.

Lemma page_sent_ok h R c l data n :
  heap_ok h (hc_refs c ⊎ R) -> hc_state c = RESPONSE -> hc_write_source c = true ->
  hc_current_page c = Some l -> content h l = Some data ->
  0 <= hc_current_position c < Z.of_nat (length data) -> 0 <= n -> hc_current_position c + n <= Z.of_nat (length data) ->
  (hc_metadata_requested c = true -> 0 <= hc_metadata_fill c + n <= METAINT) ->
  wp (page_sent n c h) (fun '(_, c', h') =>
    heap_ok h' (hc_refs c' ⊎ R) /\ kept h h' (hc_refs c' ⊎ R) /\ queue_ok h' c' /\ same_meta c c' /\ hc_channel c' = hc_channel c /\
    hc_metadata_fill c' = (if hc_metadata_requested c then hc_metadata_fill c + n else hc_metadata_fill c) /\
    left_of h c = take (Z.to_nat n) (drop (Z.to_nat (hc_current_position c)) data) ++ left_of h' c').
Proof.
  intros Hh Hst Hsrc Hc Hd Hpos Hn Hle Hfill. unfold page_sent. rewrite Hc. cbn [the_page].
  destruct (heap_content h _ l Hh ltac:(auto with mpd)) as (s & Es & _ & Hs & Ep). rewrite Hd in Es. injection Es as <-.
  rewrite Ep. cbn [mbind res_bind]. unfold pg_size. cbn [pg_data]. rewrite (proj2 (Z.leb_le (hc_current_position c + n) _)) by done.
  cbn [assert mbind res_bind].
  set (c1 := count_sent n _).
  assert (Hm : same_meta c c1 /\ hc_channel c1 = hc_channel c /\ hc_metadata_fill c1 = (if hc_metadata_requested c then hc_metadata_fill c + n else hc_metadata_fill c) /\
    hc_state c1 = RESPONSE /\ hc_write_source c1 = true /\ hc_pages c1 = hc_pages c /\ hc_current_page c1 = Some l /\
    hc_current_position c1 = hc_current_position c + n).
  { unfold c1, count_sent, same_meta. cbn [hc_set_queue hc_metadata_requested]. destruct (hc_metadata_requested c) eqn:Er; cbn; rewrite ?Er.
    - specialize (Hfill eq_refl). unfold METAINT in Hfill. rewrite u32_small by lia. by rewrite ?Hsrc, ?Hst, ?Hc.
    - by rewrite ?Hsrc, ?Hst, ?Hc. }
  clearbody c1. destruct Hm as (Hsame & Hch & Hf & Hst1 & Hsrc1 & Hp1 & Hc1 & Hpos1).
  assert (Hleft : forall h' R' c', hc_current_page c' = None -> hc_pages c' = hc_pages c -> kept h h' (hc_refs c' ⊎ R') ->
    hc_current_position c + n = Z.of_nat (length data) ->
    left_of h c = take (Z.to_nat n) (drop (Z.to_nat (hc_current_position c)) data) ++ left_of h' c').
  { intros h' R' c' E1 E2 Hk He. unfold left_of. rewrite Hc, E1, E2. unfold bytes_of at 1. cbn [mbind option_bind]. rewrite Hd.
    cbn [default from_option id]. unfold bytes_of at 2. cbn [mbind option_bind default from_option]. rewrite drop_nil. cbn [app].
    f_equal.
    - rewrite (take_ge (drop _ _)); [done|]. rewrite length_drop. lia.
    - f_equal. apply map_ext_in. intros l' Hl'. symmetry. eapply bytes_kept; [exact Hk|]. intros x [= <-].
      apply list_elem_of_In in Hl'. rewrite <- E2 in Hl'. auto with mpd. }
  destruct (Z.leb_spec (Z.of_nat (length data)) (hc_current_position c + n)) as [Hge|Hlt].
  - rewrite Hc1. cbn [mbind res_bind].
    set (R' := refs_of (hc_pages c) ⊎ refs_of (opt_list (hc_metadata c)) ⊎ R).
    assert (Hh' : heap_ok h (refs_of (opt_list (Some l)) ⊎ R')).
    { eapply heap_ok_eq; [exact Hh|]. unfold R', hc_refs. rewrite Hc. multiset_solver. }
    eapply wp_bind_mono; [apply unref_opt_ok; exact Hh'|]. intros h' [Hh2 Hk]. rewrite Hp1.
    assert (Hmeta : hc_metadata c1 = hc_metadata c) by apply Hsame.
    assert (Hrefs : forall (src : bool) (pos : Z), hc_refs (hc_set_queue src (hc_pages c) None pos c1) ⊎ R = R').
    { intros. unfold hc_refs, R'. cbn [hc_set_queue hc_current_page hc_pages hc_metadata opt_list]. rewrite Hmeta.
      change (refs_of []) with (∅ : gmultiset loc). multiset_solver. }
    assert (Hres : forall src : bool, (if src then hc_pages c <> [] else hc_pages c = []) ->
      let c' := hc_set_queue src (hc_pages c) None (hc_current_position c + n) c1 in
      heap_ok h' (hc_refs c' ⊎ R) /\ kept h h' (hc_refs c' ⊎ R) /\ queue_ok h' c' /\ same_meta c c' /\ hc_channel c' = hc_channel c /\
      hc_metadata_fill c' = (if hc_metadata_requested c then hc_metadata_fill c + n else hc_metadata_fill c) /\
      left_of h c = take (Z.to_nat n) (drop (Z.to_nat (hc_current_position c)) data) ++ left_of h' c').
    { intros src Hs'. cbv zeta. rewrite Hrefs. split; [done|]. split; [done|]. split.
      { split; cbn; [done| |done]. destruct src; [by right|done]. }
      split; [exact Hsame|]. split; [exact Hch|]. split; [exact Hf|]. apply (Hleft h' R); [done|done|by rewrite Hrefs|lia]. }
    destruct (bool_decide (hc_pages c = [])) eqn:Eb.
    + apply bool_decide_eq_true in Eb. apply wp_ok. rewrite <- Eb. by apply (Hres false).
    + apply bool_decide_eq_false in Eb. apply wp_ok. rewrite Hsrc1. by apply (Hres true).
  - apply wp_ok. assert (Hrefs : hc_refs c1 = hc_refs c).
    { unfold hc_refs. by rewrite Hc1, Hp1, Hc, (proj1 Hsame). }
    rewrite Hrefs. split; [done|]. split; [done|]. split; [|split; [done|split; [done|split; [done|]]]].
    + split; [done|rewrite Hsrc1; left; by rewrite Hc1|]. intros l' s' El' Es'. rewrite Hc1 in El'. injection El' as <-.
      rewrite Hd in Es'. injection Es' as <-. rewrite Hpos1. lia.
    + unfold left_of. rewrite Hc1, Hp1, Hpos1, Hc. unfold bytes_of at 1 3. cbn [mbind option_bind]. rewrite Hd.
      cbn [default from_option id]. rewrite app_assoc. f_equal. rewrite (drop_take_drop (Z.to_nat n) (Z.to_nat (hc_current_position c)) data).
      f_equal; [|f_equal; lia]. rewrite <- (drop_take_drop (Z.to_nat n)). done.
Qed.

Lemma free_response_ok h R c :
  heap_ok h (hc_refs c ⊎ R) -> hc_state c = RESPONSE ->
  wp (httpd_client_free c h) (fun h' => heap_ok h' R /\ kept h h' R).
Proof.
  intros Hh Hst. unfold httpd_client_free. rewrite decide_True by done. apply wp_bind.
  assert (Hh1 : heap_ok h (refs_of (opt_list (hc_current_page c)) ⊎ (refs_of (hc_pages c) ⊎ (refs_of (opt_list (hc_metadata c)) ⊎ R)))).
  { eapply heap_ok_eq; [exact Hh|]. unfold hc_refs. multiset_solver. }
  eapply wp_bind_mono; [apply unref_opt_ok; exact Hh1|]. intros h1 [Hh2 Hk1].
  eapply wp_mono; [apply unref_all_ok; exact Hh2|]. intros h2 [Hh3 Hk2].
  eapply wp_mono; [apply unref_opt_ok; exact Hh3|]. intros h3 [Hh4 Hk3]. split; [done|].
  eapply kept_trans; [eapply kept_sub; [|exact Hk1]; multiset_solver|].
  eapply kept_trans; [eapply kept_sub; [|exact Hk2]; multiset_solver|exact Hk3].
Qed.

(** What an event adds to the stream: the bytes [s], of which [audio] are
    audio for the listener; [lost] are pages that are never freed. *)
Record streamed (R : gmultiset loc) (h h' : heap) (c c' : httpd_client) (t : option cstring) (s audio : cstring)
    (b : option cstring) (lost : gmultiset loc) : Prop := {
  streamed_bytes : sk_accepted (hc_channel c') = sk_accepted (hc_channel c) ++ s;
  streamed_heap : heap_ok h' (hc_refs c' ⊎ (lost ⊎ R));
  streamed_kept : kept h h' R;
  streamed_queue : queue_ok h' c';
  streamed_meta : meta_ok h' c';
  streamed_requested : hc_metadata_requested c' = hc_metadata_requested c;
  streamed_told : told h' c' (later t b);
  streamed_left : left_of h c = audio ++ left_of h' c';
  streamed_heard :
    if hc_metadata_requested c
    then feed METAINT s (reader_of h c) = (reader_of h' c', audio, b)
    else s = audio /\ lost = ∅;
}.

(** Listening to [j] bytes of audio. *)
Lemma feed_audio_part h c h' c' s :
  0 <= hc_metadata_fill c < METAINT -> Z.of_nat (length s) <= METAINT - hc_metadata_fill c ->
  hc_metadata_fill c' = hc_metadata_fill c + Z.of_nat (length s) -> hc_metadata_current_position c' = 0 ->
  feed METAINT s (reader_of h c) = (reader_of h' c', s, None).
Proof.
  intros Hf Hs Hf' Hp. unfold reader_of. rewrite (proj2 (Z.eqb_neq (hc_metadata_fill c) METAINT)) by lia.
  rewrite feed_audio_run by lia. rewrite Hf', Hp, block_reader_0.
  destruct (Z.eqb_spec (Z.of_nat (length s)) (METAINT - hc_metadata_fill c)).
  - by rewrite (proj2 (Z.eqb_eq _ _)) by lia.
  - rewrite (proj2 (Z.eqb_neq _ _)) by lia. do 3 f_equal. lia.
Qed.

Lemma meta_ok_moves h h' R c c' :
  meta_ok h c -> same_meta c c' -> kept h h' (hc_refs c' ⊎ R) -> 0 <= hc_metadata_fill c' <= METAINT ->
  (hc_metadata_current_position c <> 0 -> hc_metadata_fill c' = METAINT) -> meta_ok h' c'.
Proof.
  intros [Hi Hf Hb] (Em & Es & Ep & Ei & _) Hk Hf' Hm. split; [congruence|done|]. rewrite Es, Ep.
  destruct (hc_metadata_sent c); [done|]. destruct Hb as (l & s & El & Ec & Hbok & Hp & Hfl).
  exists l, s. rewrite Em. split; [done|]. split; [|split; [done|by split]]. rewrite Hk; [done|]. rewrite <- Em in El. auto with mpd.
Qed.

Lemma told_moves h h' R c c' t :
  told h c t -> same_meta c c' -> kept h h' (hc_refs c' ⊎ R) -> told h' c' t.
Proof.
  intros Ht (Em & Es & _) Hk Hs l El. rewrite Es in Hs. pose proof El as El'. rewrite Em in El. rewrite (Ht Hs l El).
  do 2 f_equal. symmetry. eapply bytes_kept; [exact Hk|]. intros x [= <-]. auto with mpd.
Qed.

(** The state in which bytes have been written and not yet counted. *)
Definition out_post (R : gmultiset loc) (h : heap) (c : httpd_client) (t : option cstring)
    (r : bool * option httpd_client * heap) : Prop :=
  match r.1.2 with
  | Some c' => exists s audio b lost, streamed R h r.2 c c' t s audio b lost
  | None => exists lost, heap_ok r.2 (lost ⊎ R) /\ kept h r.2 R /\ (hc_metadata_requested c = false -> lost = ∅)
  end.

(** The current page and where it is. *)
Definition at_page (h : heap) (c : httpd_client) (l : loc) (data : cstring) : Prop :=
  hc_state c = RESPONSE /\ hc_write_source c = true /\ hc_current_page c = Some l /\ content h l = Some data /\
  0 <= hc_current_position c < Z.of_nat (length data).

Lemma at_page_queue h c l data : at_page h c l data -> queue_ok h c.
Proof.
  intros (Hst & Hsrc & Hc & Hd & Hp). split; [done|rewrite Hsrc; left; by rewrite Hc|].
  intros l' s El Es. rewrite Hc in El. injection El as <-. rewrite Hd in Es. by injection Es as <-.
Qed.

Lemma written_close h R c status n :
  heap_ok h (hc_refs c ⊎ R) -> hc_state c = RESPONSE -> status = WEof \/ status = WError ->
  wp (written status n c h) (fun r => r.1.2 = None /\ heap_ok r.2 R /\ kept h r.2 R).
Proof.
  intros Hh Hst [-> | ->]; cbn [written httpd_client_close].
  all: eapply wp_bind_mono; [by apply (free_response_ok h R c)|]; intros h' [? ?]; by apply wp_ok.
Qed.

Definition at_start (c : httpd_client) : Prop :=
  hc_metadata_requested c = true -> hc_metadata_current_position c = 0 /\ hc_metadata_fill c < METAINT.

Lemma meta_start h c : meta_ok h c -> (hc_metadata_requested c = true -> hc_metadata_fill c < METAINT) -> at_start c.
Proof.
  intros Hm Hf E. specialize (Hf E). split; [|done].
  destruct (decide (hc_metadata_current_position c = 0)) as [|Hne]; [done|].
  pose proof (meta_block _ _ Hm) as Hb. destruct (hc_metadata_sent c); [done|].
  destruct Hb as (? & ? & _ & _ & _ & _ & Hb). specialize (Hb Hne). lia.
Qed.

(** Some bytes of the current page [c1] have gone out, and [c'] is the client
    afterwards. *)
Lemma streamed_audio R h h' c c1 c' t piece j :
  same_meta c c1 -> same_meta c1 c' -> meta_ok h c -> told h c t -> at_start c ->
  hc_metadata_fill c1 = hc_metadata_fill c -> left_of h c1 = left_of h c ->
  (j <= length piece)%nat ->
  (hc_metadata_requested c = true -> Z.of_nat (length piece) <= METAINT - hc_metadata_fill c) ->
  hc_metadata_fill c' = (if hc_metadata_requested c then hc_metadata_fill c + Z.of_nat j else hc_metadata_fill c) ->
  sk_accepted (hc_channel c') = sk_accepted (hc_channel c) ++ take j piece ->
  heap_ok h' (hc_refs c' ⊎ R) -> kept h h' (hc_refs c' ⊎ R) -> queue_ok h' c' ->
  left_of h c1 = take j piece ++ left_of h' c' ->
  streamed R h h' c c' t (take j piece) (take j piece) None ∅.
Proof.
  intros Hs1 Hs2 Hm Ht Hstart Hfill Hleft Hj Hreq Hf' Hacc Hh Hk Hq Hl.
  assert (Hs : same_meta c c') by (destruct Hs1 as (?&?&?&?&?), Hs2 as (?&?&?&?&?); repeat split; congruence).
  assert (Hlen : length (take j piece) = j) by (rewrite length_take; lia).
  assert (Hfill' : 0 <= hc_metadata_fill c' <= METAINT).
  { pose proof (meta_fill _ _ Hm). rewrite Hf'. destruct (hc_metadata_requested c); [|done]. specialize (Hreq eq_refl). lia. }
  split; [done|by eapply heap_ok_eq; [exact Hh|multiset_solver]|eapply kept_sub; [|exact Hk]; multiset_solver|done| | | |by rewrite <- Hleft|].
  - apply (meta_ok_moves h h' R c c' Hm Hs Hk Hfill'). intros Hp. destruct (hc_metadata_requested c) eqn:Er.
    + by destruct (Hstart Er).
    + pose proof (meta_block _ _ Hm) as Hb. rewrite Hf'. destruct (hc_metadata_sent c); [done|].
      destruct Hb as (? & ? & _ & _ & _ & _ & Hb). by apply Hb.
  - apply Hs.
  - by apply (told_moves h h' R c c').
  - destruct (hc_metadata_requested c) eqn:Er; [|done]. destruct (Hstart Er) as [Hp0 Hlt]. pose proof (meta_fill _ _ Hm).
    apply feed_audio_part; [lia|rewrite Hlen; specialize (Hreq eq_refl); lia|by rewrite Hlen|].
    destruct Hs as (_ & _ & Hp & _). by rewrite Hp.
Qed.

(** A part of the current page. *)
Lemma written_audio_ok R h c c1 t l data m :
  heap_ok h (hc_refs c1 ⊎ R) -> meta_ok h c -> told h c t -> same_meta c c1 -> hc_channel c1 = hc_channel c ->
  hc_metadata_fill c1 = hc_metadata_fill c -> left_of h c1 = left_of h c -> at_page h c1 l data -> at_start c ->
  let piece := take m (drop (Z.to_nat (hc_current_position c1)) data) in
  (hc_metadata_requested c = true -> Z.of_nat (length piece) <= METAINT - hc_metadata_fill c) ->
  let '(status, ch) := write_chars piece (hc_channel c1) in
  wp (written status (bytes_written status) (hc_set_channel ch c1) h) (out_post R h c t).
Proof.
  intros Hh Hmeta Ht Hsame Hch Hfill Hleft Hat Hstart piece Hreq.
  pose proof (write_chars_ok piece (hc_channel c1)) as Hw. destruct (write_chars piece _) as [status ch].
  destruct Hw as (j & Ej & Hj & Hacc). set (c2 := hc_set_channel ch c1). rewrite Hch in Hacc.
  assert (Hpiece : Z.of_nat (length piece) + hc_current_position c1 <= Z.of_nat (length data)).
  { unfold piece. rewrite length_take, length_drop. destruct Hat as (_ & _ & _ & _ & Hp). lia. }
  assert (Hclosed : status = WEof \/ status = WError -> wp (written status (bytes_written status) c2 h) (out_post R h c t)).
  { intros Hs. eapply wp_mono; [by apply (written_close h R c2); [exact Hh|apply Hat|]|].
    intros r (E & Hh' & Hk). unfold out_post. rewrite E. exists ∅. split; [|done].
    by eapply heap_ok_eq; [exact Hh'|multiset_solver]. }
  destruct status as [n| | |]; [| |apply Hclosed; by left|apply Hclosed; by right]; clear Hclosed; cbn [bytes_written] in Ej.
  - cbn [written bytes_written]. rewrite Ej. pose proof Hat as (Hst & Hsrc & Hc & Hd & Hp).
    pose proof (meta_fill _ _ Hmeta) as Hf0. pose proof Hsame as (_ & _ & _ & _ & Er).
    eapply wp_bind_mono; [apply (page_sent_ok h R c2 l data (Z.of_nat j)); try done;
      [lia|change (hc_current_position c2) with (hc_current_position c1); lia|]|].
    { intros E. change (hc_metadata_requested c2) with (hc_metadata_requested c1) in E. rewrite Er in E. specialize (Hreq E).
      change (hc_metadata_fill c2) with (hc_metadata_fill c1). lia. }
    intros [[r' c'] h'] (Hh' & Hk & Hq & Hsm & Hch' & Hf & Hl). apply wp_ok. unfold out_post. cbn [fst snd].
    rewrite Nat2Z.id in Hl. change (hc_current_position c2) with (hc_current_position c1) in Hl.
    assert (Epiece : take j (drop (Z.to_nat (hc_current_position c1)) data) = take j piece).
    { unfold piece. rewrite take_take. f_equal. unfold piece in Hj. rewrite length_take in Hj. lia. }
    rewrite Epiece in Hl. eexists _, _, _, _.
    apply (streamed_audio R h h' c c1 c' t piece j); try done.
    + change (hc_metadata_requested c2) with (hc_metadata_requested c1) in Hf. rewrite Er in Hf.
      change (hc_metadata_fill c2) with (hc_metadata_fill c1) in Hf. by rewrite Hf, Hfill.
    + by rewrite Hch'.
  - assert (j = 0)%nat as -> by lia. cbn [written bytes_written]. apply wp_ok. unfold out_post. cbn [fst snd].
    eexists _, _, _, _. apply (streamed_audio R h h c c1 c2 t piece 0); try done.
    + change (hc_metadata_fill c2) with (hc_metadata_fill c1). rewrite Hfill. destruct (hc_metadata_requested c); lia.
    + by apply (at_page_queue h c2 l data).
Qed.

Lemma reader_moves h h' R c c' :
  same_meta c c' -> hc_metadata_fill c' = hc_metadata_fill c -> kept h h' (hc_refs c' ⊎ R) ->
  reader_of h' c' = reader_of h c.
Proof.
  intros (Em & _ & Ep & _) Ef Hk. unfold reader_of. rewrite Ef, Ep, Em.
  replace (bytes_of h' (hc_metadata c)) with (bytes_of h (hc_metadata c)); [done|]. symmetry.
  eapply bytes_kept; [exact Hk|]. intros x Hx. rewrite <- Em in Hx. auto with mpd.
Qed.

Lemma at_page_moves h h' R c c' l data :
  at_page h c l data -> same_queue c c' -> kept h h' (hc_refs c ⊎ R) -> at_page h' c' l data.
Proof.
  intros (Hst & Hsrc & Hc & Hd & Hp) (E1 & E2 & _ & E4 & E5 & _) Hk. unfold at_page.
  rewrite E1, E2, E4, E5. split_and!; try done; try apply Hp. rewrite Hk; [done|]. auto with mpd.
Qed.

(** A block, or a part of it. *)
Lemma written_block_ok R h c c1 t l data :
  heap_ok h (hc_refs c1 ⊎ R) -> meta_ok h c -> told h c t -> same_meta c c1 -> hc_channel c1 = hc_channel c ->
  hc_metadata_fill c1 = hc_metadata_fill c -> left_of h c1 = left_of h c -> at_page h c1 l data ->
  hc_metadata_requested c = true -> hc_metadata_fill c = METAINT ->
  wp ('(status, c2, h2) ← send_block c1 h; written status 0 c2 h2) (out_post R h c t).
Proof.
  intros Hh Hmeta Ht Hsame Hch Hfill Hleft Hat Hreq Hf. pose proof (kept_refl h (hc_refs c1 ⊎ R)) as Hk0.
  assert (Hm1 : meta_ok h c1) by (apply (meta_ok_moves h h R c); rewrite ?Hfill, ?Hf; done).
  eapply wp_bind_mono; [apply (send_block_ok h R c1 t); [done|done|by rewrite Hfill|by apply (told_moves h h R c c1)]|].
  intros [[status c2] h2] (s & b & lost & Hacc & Hh2 & Hk2 & Hm2 & Hfeed & Ht2 & Hsq & Em2).
  pose proof (at_page_moves _ _ _ _ _ _ _ Hat Hsq Hk2) as Hat2. pose proof (same_queue_left _ _ _ _ _ Hsq Hk2) as Hl2.
  rewrite (reader_moves h h R c c1 Hsame Hfill Hk0) in Hfeed. rewrite Hch in Hacc.
  assert (Hreq2 : hc_metadata_requested c2 = true).
  { destruct Hsq as (_ & _ & _ & _ & _ & ->). destruct Hsame as (_ & _ & _ & _ & ->). exact Hreq. }
  assert (Hsent : forall h' c', heap_ok h' (hc_refs c' ⊎ (lost ⊎ R)) -> kept h2 h' (hc_refs c' ⊎ (lost ⊎ R)) -> queue_ok h' c' ->
    same_meta c2 c' -> hc_channel c' = hc_channel c2 -> hc_metadata_fill c' = hc_metadata_fill c2 ->
    left_of h2 c2 = left_of h' c' -> out_post R h c t (true, Some c', h')).
  { intros h' c' Hh' Hk' Hq' Hsm' Hch' Hf' Hl'. unfold out_post. cbn [fst snd]. exists s, [], b, lost.
    split; [by rewrite Hch'|done| |done| | | |by rewrite <- Hleft, <- Hl2, Hl'|].
    - eapply kept_trans; [eapply kept_sub; [|exact Hk2]|eapply kept_sub; [|exact Hk']]; multiset_solver.
    - apply (meta_ok_moves h2 h' (lost ⊎ R) c2 c' Hm2 Hsm' Hk'); rewrite Hf'; [apply Hm2|].
      intros Hp. pose proof (meta_block _ _ Hm2) as Hb. destruct (hc_metadata_sent c2); [done|].
      destruct Hb as (? & ? & _ & _ & _ & _ & Hb). by apply Hb.
    - destruct Hsm' as (_ & _ & _ & _ & ->). by rewrite Hreq2, Hreq.
    - by apply (told_moves h2 h' (lost ⊎ R) c2 c').
    - rewrite Hreq, Hfeed. by rewrite (reader_moves h2 h' (lost ⊎ R) c2 c' Hsm' Hf' Hk'). }
  assert (Hclosed : status = WEof \/ status = WError -> wp (written status 0 c2 h2) (out_post R h c t)).
  { intros Hs. eapply wp_mono; [by apply (written_close h2 (lost ⊎ R) c2); [exact Hh2|apply Hat2|]|].
    intros r (E & Hh' & Hk). unfold out_post. rewrite E. exists lost. split; [done|]. split; [|by rewrite Hreq].
    eapply kept_trans; [eapply kept_sub; [|exact Hk2]|eapply kept_sub; [|exact Hk]]; multiset_solver. }
  destruct status as [n| | |]; [| |apply Hclosed; by left|apply Hclosed; by right]; clear Hclosed; cbn [written].
  - pose proof Hat2 as (Hst & Hsrc & Hc & Hd & Hp). pose proof (meta_fill _ _ Hm2).
    eapply wp_bind_mono; [apply (page_sent_ok h2 (lost ⊎ R) c2 l data 0); try done; lia|].
    intros [[r' c'] h'] (Hh' & Hk' & Hq & Hsm & Hch' & Hf' & Hl'). apply wp_ok.
    specialize (Hsent h' c' Hh' Hk' Hq Hsm Hch'). unfold out_post in *. cbn [fst snd] in *. apply Hsent; [|done].
    rewrite Hf', Hreq2. lia.
  - apply wp_ok. apply (Hsent h2 c2); try done. by apply (at_page_queue h2 c2 l data).
Qed.

(** An event: audio and blocks, as the listener expects them. *)
Lemma httpd_client_out_event_ok R h c t :
  heap_ok h (hc_refs c ⊎ R) -> queue_ok h c -> meta_ok h c -> told h c t ->
  wp (httpd_client_out_event c h) (out_post R h c t).
Proof.
  intros Hh Hq Hmeta Ht. unfold httpd_client_out_event. rewrite bool_decide_true by apply Hq. cbn [assert mbind res_bind].
  destruct (hc_write_source c) eqn:Hsrc; cbn [negb].
  2: { apply wp_ok. unfold out_post. cbn [fst snd]. exists [], [], None, ∅. split; try done.
       - by rewrite app_nil_r.
       - by eapply heap_ok_eq; [exact Hh|multiset_solver].
       - by destruct (hc_metadata_requested c). }
  destruct (next_page_ok h R c Hh Hq Hsrc) as (l & data & Hc & Hd & Hp & Hsz & Hl & Hrefs & _).
  set (c1 := next_page c) in *.
  assert (Hsame : same_meta c c1 /\ hc_channel c1 = hc_channel c /\ hc_metadata_fill c1 = hc_metadata_fill c /\
    hc_state c1 = hc_state c /\ hc_write_source c1 = hc_write_source c).
  { unfold c1, next_page. destruct (hc_current_page c); by repeat split. }
  destruct Hsame as (Hsame & Hch & Hfill & Hst & Hsrc1). pose proof (meta_fill _ _ Hmeta) as Hf.
  assert (Hat : at_page h c1 l data) by (split; [by rewrite Hst, (queue_state _ _ Hq)|by rewrite Hsrc1]).
  assert (Hh1 : heap_ok h (hc_refs c1 ⊎ R)) by by rewrite Hrefs.
  destruct (heap_content h _ l Hh1 ltac:(auto with mpd)) as (d & Ed & Hdl & Hdb & Epage). rewrite Hd in Ed. injection Ed as <-.
  assert (Haudio : forall (bytes : Z) m, at_start c ->
    (bytes = -1 -> m = length (drop (Z.to_nat (hc_current_position c1)) data)) -> (bytes <> -1 -> m = Z.to_nat bytes) -> bytes <> 0 ->
    (hc_metadata_requested c = true -> Z.of_nat (length (take m (drop (Z.to_nat (hc_current_position c1)) data))) <= METAINT - hc_metadata_fill c) ->
    wp ('(status, n, c, h) ←
        (p ← the_page (hc_current_page c1) h;
         '(status, ch) ← write_n_bytes_to_channel (hc_channel c1) p (hc_current_position c1) bytes;
         Ok (status, bytes_written status, hc_set_channel ch c1, h));
      written status n c h) (out_post R h c t)).
  { intros bytes m Hstart Hm1 Hm2 H0 Hreq. rewrite Hc. cbn [the_page]. rewrite Epage. cbn [mbind res_bind].
    unfold write_n_bytes_to_channel, write_page_to_channel, pg_size. cbn [pg_data]. rewrite (proj2 (Z.ltb_lt _ _)) by lia.
    cbn [assert mbind res_bind].
    pose proof (written_audio_ok R h c c1 t l data m Hh1 Hmeta Ht Hsame Hch Hfill Hl Hat Hstart Hreq) as Hw.
    destruct (Z.eqb_spec bytes (-1)) as [E|E].
    - rewrite (Hm1 E), firstn_all in Hw. destruct (write_chars _ _) as [status ch]. exact Hw.
    - rewrite <- (Hm2 E). destruct (write_chars _ _) as [status ch]. exact Hw. }
  unfold bytes_left_till_metadata. pose proof Hsame as (_ & _ & _ & Hint & Er). rewrite Er.
  destruct (hc_metadata_requested c) eqn:Ereq; cbn [negb mbind res_bind].
  - rewrite Hc at 1. cbn [the_page]. rewrite Epage. cbn [mbind res_bind]. unfold pg_size. cbn [pg_data].
    rewrite Hint, (meta_int _ _ Hmeta), Hfill. assert (METAINT < 2 ^ 31) by (vm_compute; done).
    rewrite u32_small, u64_small, i32_small by lia.
    destruct (Z.ltb_spec (METAINT - hc_metadata_fill c) (Z.of_nat (length data) - hc_current_position c1)).
    + destruct (Z.eqb_spec (METAINT - hc_metadata_fill c) 0) as [E|E].
      * pose proof (written_block_ok R h c c1 t l data Hh1 Hmeta Ht) as Hw.
        specialize (Hw Hsame Hch Hfill Hl Hat Ereq ltac:(lia)). destruct (send_block c1 h) as [[[status c2] h2]|]; exact Hw.
      * apply (Haudio _ (Z.to_nat (METAINT - hc_metadata_fill c))); [apply (meta_start h c Hmeta); lia|lia|done|done|].
        intros _. rewrite length_take. lia.
    + change (-1 =? 0) with false. cbv iota.
      apply (Haudio (-1) (length (drop (Z.to_nat (hc_current_position c1)) data))); [apply (meta_start h c Hmeta); lia|done|done|done|].
      intros _. rewrite length_take, length_drop. lia.
  - change (-1 =? 0) with false. cbv iota.
    apply (Haudio (-1) (length (drop (Z.to_nat (hc_current_position c1)) data))); try done. intros E. congruence.
Qed.

(** ** A listener over time

    What happens to one client that receives the stream: a page or metadata
    for it, the queue is given up, the socket can take more.  [off] is the
    audio that the client has been offered, less what was given up; [R] are
    the references that others hold. *)

Inductive radio_event := Send (l : loc) | Announce (l : loc) | Cancel | Ready.

Definition radio_exec (e : radio_event) (c : httpd_client) (h : heap) : res (option httpd_client * heap) :=
  match e with
  | Send l => '(c, h) ← httpd_client_send l c h; Ok (Some c, h)
  | Announce l => '(c, h) ← httpd_client_send_metadata (Some l) c h; Ok (Some c, h)
  | Cancel => '(c, h) ← httpd_client_cancel c h; Ok (Some c, h)
  | Ready => '(_, c, h) ← httpd_client_out_event c h; Ok (c, h)
  end.

Definition queued (h : heap) (c : httpd_client) : cstring := concat (map (fun l => bytes_of h (Some l)) (hc_pages c)).

Definition radio_offered (e : radio_event) (h : heap) (c : httpd_client) (off : cstring) : cstring :=
  match e with
  | Send l => off ++ bytes_of h (Some l)
  | Cancel => take (length off - length (queued h c)) off
  | _ => off
  end.

(** New metadata does not come while the old is partly sent. *)
Definition radio_allowed (R : gmultiset loc) (h : heap) (c : httpd_client) (e : radio_event) : Prop :=
  match e with
  | Send l => l ∈ R
  | Announce l => l ∈ R /\ block_ok (bytes_of h (Some l)) /\ hc_metadata_current_position c = 0
  | _ => True
  end.

(** A client that has just been sent the response with the header of the
    Icy protocol. *)
Definition radio_start (h : heap) (c : httpd_client) : Prop :=
  hc_state c = RESPONSE /\ hc_metadata_requested c = true /\ hc_write_source c = false /\ hc_pages c = [] /\
  hc_current_page c = None /\ meta_ok h c /\ hc_metadata_fill c = 0 /\
  (hc_metadata_sent c = true -> hc_metadata c = None).

Inductive radio (R : gmultiset loc) (c0 : httpd_client) (h0 : heap) : httpd_client -> heap -> cstring -> Prop :=
| radio_begin : radio R c0 h0 c0 h0 []
| radio_next c h off e c' h' :
    radio R c0 h0 c h off -> radio_allowed R h c e ->
    radio_exec e c h = Ok (Some c', h') ->
    radio R c0 h0 c' h' (radio_offered e h c off).

(** What the operations on a client keep, besides its queue. *)
Definition undisturbed (R : gmultiset loc) (h h' : heap) (c c' : httpd_client) : Prop :=
  heap_ok h' (hc_refs c' ⊎ R) /\ kept h h' R /\ meta_ok h' c' /\ hc_channel c' = hc_channel c /\
  hc_metadata_requested c' = hc_metadata_requested c /\ reader_of h' c' = reader_of h c /\
  hc_metadata_current_position c' = hc_metadata_current_position c /\
  (forall t, told h c t -> told h' c' t).

Lemma undisturbed_intro R h h' c c' :
  heap_ok h' (hc_refs c' ⊎ R) -> kept h h' (hc_refs c' ⊎ R) -> meta_ok h c -> same_meta c c' ->
  hc_metadata_fill c' = hc_metadata_fill c -> hc_channel c' = hc_channel c -> undisturbed R h h' c c'.
Proof.
  intros Hh Hk Hm Hs Hf Hch. split; [done|]. split; [eapply kept_sub; [|exact Hk]; multiset_solver|].
  split; [|split; [done|split; [apply Hs|split; [by eapply reader_moves|split; [apply Hs|]]]]].
  - apply (meta_ok_moves h h' R c c' Hm Hs Hk); rewrite Hf; [apply Hm|].
    intros Hp. pose proof (meta_block _ _ Hm) as Hb. destruct (hc_metadata_sent c); [done|].
    destruct Hb as (? & ? & _ & _ & _ & _ & Hb). by apply Hb.
  - intros t Ht. by apply (told_moves h h' R c c').
Qed.

Lemma send_ok R h c l :
  heap_ok h (hc_refs c ⊎ R) -> queue_ok h c -> meta_ok h c -> l ∈ R ->
  wp (httpd_client_send l c h) (fun '(c', h') => undisturbed R h h' c c' /\ queue_ok h' c' /\
    left_of h' c' = left_of h c ++ bytes_of h (Some l)).
Proof.
  intros Hh Hq Hm Hl. unfold httpd_client_send. rewrite decide_True by apply Hq.
  eapply wp_bind_mono; [apply (page_ref_ok h _ l Hh); multiset_solver|]. intros h' [Hh' Hk]. apply wp_ok.
  set (c' := hc_set_queue _ _ _ _ c).
  assert (Hrefs : hc_refs c' = {[+ l +]} ⊎ hc_refs c).
  { unfold hc_refs, c'. cbn [hc_set_queue hc_current_page hc_pages hc_metadata]. rewrite refs_app, refs_cons.
    change (refs_of []) with (∅ : gmultiset loc). multiset_solver. }
  assert (Hk' : kept h h' (hc_refs c' ⊎ R)).
  { intros x Hx. apply Hk. rewrite Hrefs in Hx. multiset_solver. }
  assert (Hbytes : forall x, (forall y, x = Some y -> y ∈ hc_refs c ⊎ R) -> bytes_of h' x = bytes_of h x) by (intros x Hx; eapply bytes_kept; [exact Hk|exact Hx]).
  split; [|split].
  - apply undisturbed_intro; try done. rewrite Hrefs. eapply heap_ok_eq; [exact Hh'|multiset_solver].
  - split; [apply Hq|right; cbn; by destruct (hc_pages c)|]. intros x s E1 E2. cbn in E1 |- *.
    rewrite Hk in E2 by auto with mpd. by eapply queue_position.
  - unfold left_of. cbn [c' hc_set_queue hc_current_page hc_pages hc_current_position].
    rewrite map_app, concat_app. cbn [map concat]. rewrite app_nil_r, <- app_assoc.
    rewrite !Hbytes by (intros y E; auto with mpd; injection E as <-; multiset_solver). do 2 f_equal.
    f_equal. apply map_ext_in. intros x Hx. apply Hbytes. intros y [= <-]. apply list_elem_of_In in Hx. auto with mpd.
Qed.

Lemma cancel_ok R h c :
  heap_ok h (hc_refs c ⊎ R) -> queue_ok h c -> meta_ok h c ->
  wp (httpd_client_cancel c h) (fun '(c', h') => undisturbed R h h' c c' /\ queue_ok h' c' /\
    left_of h c = left_of h' c' ++ queued h c).
Proof.
  intros Hh Hq Hm. unfold httpd_client_cancel. rewrite decide_True by apply Hq.
  set (R' := refs_of (opt_list (hc_current_page c)) ⊎ refs_of (opt_list (hc_metadata c)) ⊎ R).
  eapply wp_bind_mono; [apply (unref_all_ok (hc_pages c) h R'); eapply heap_ok_eq; [exact Hh|unfold R', hc_refs; multiset_solver]|].
  intros h' [Hh' Hk]. apply wp_ok. set (c' := hc_set_queue _ _ _ _ c).
  assert (Hrefs : hc_refs c' ⊎ R = R').
  { unfold hc_refs, c', R'. cbn [hc_set_queue hc_current_page hc_pages hc_metadata].
    change (refs_of []) with (∅ : gmultiset loc). multiset_solver. }
  split; [|split].
  - apply undisturbed_intro; rewrite ?Hrefs; done.
  - split; [apply Hq| |].
    + pose proof (queue_source _ _ Hq) as Hs. cbn [c' hc_set_queue hc_write_source hc_current_page hc_pages].
      destruct (hc_write_source c), (hc_current_page c) as [l|] eqn:Ec; cbn [is_none andb]; try done; [by left|]. by destruct Hs.
    + intros x s E1 E2. cbn in E1 |- *. rewrite Hk in E2; [by eapply queue_position|].
      unfold R'. rewrite E1. cbn [opt_list]. rewrite refs_cons. multiset_solver.
  - unfold left_of, queued. cbn [c' hc_set_queue hc_current_page hc_pages hc_current_position map concat]. rewrite app_nil_r.
    do 2 f_equal. symmetry. eapply bytes_kept; [exact Hk|]. intros x E. unfold R'. rewrite E. cbn [opt_list].
    rewrite refs_cons. multiset_solver.
Qed.

Lemma send_metadata_ok R h c l :
  heap_ok h (hc_refs c ⊎ R) -> meta_ok h c -> l ∈ R -> block_ok (bytes_of h (Some l)) ->
  hc_metadata_current_position c = 0 ->
  wp (httpd_client_send_metadata (Some l) c h) (fun '(c', h') => undisturbed R h h' c c' /\ same_queue c c' /\
    kept h h' (refs_of (opt_list (hc_current_page c)) ⊎ refs_of (hc_pages c) ⊎ R) /\ hc_input c' = hc_input c).
Proof.
  intros Hh Hm Hl Hb Hp. unfold httpd_client_send_metadata.
  set (R' := refs_of (opt_list (hc_current_page c)) ⊎ refs_of (hc_pages c) ⊎ R).
  eapply wp_bind_mono; [apply (unref_opt_ok h R'); eapply heap_ok_eq; [exact Hh|unfold R', hc_refs; multiset_solver]|].
  intros h1 [Hh1 Hk1]. eapply wp_bind_mono; [apply (page_ref_ok h1 R' l Hh1); unfold R'; multiset_solver|].
  intros h' [Hh' Hk2]. apply wp_ok. pose proof (kept_trans _ _ _ _ Hk1 Hk2) as Hk.
  destruct (heap_content h _ l Hh ltac:(multiset_solver)) as (s & Es & Hs & _).
  assert (Eb : bytes_of h (Some l) = s) by (unfold bytes_of; cbn; by rewrite Es). rewrite Eb in Hb.
  set (c' := hc_set_metadata _ _ _ _ c).
  assert (Hrefs : hc_refs c' ⊎ R = {[+ l +]} ⊎ R').
  { unfold hc_refs, c', R'. cbn [hc_set_metadata hc_current_page hc_pages hc_metadata opt_list]. rewrite refs_cons.
    change (refs_of []) with (∅ : gmultiset loc). multiset_solver. }
  split; [|split; [done|split; [done|done]]]. unfold undisturbed. rewrite Hrefs. split; [done|].
  split; [eapply kept_sub; [|exact Hk]; unfold R'; multiset_solver|]. split; [|split; [done|split; [done|split; [|done]]]].
  - split; [apply Hm|apply Hm|]. cbn. exists l, s. split; [done|]. split; [|split; [done|]].
    + rewrite Hk; [done|]. unfold R'. multiset_solver.
    + rewrite Hp. split; [lia|done].
  - unfold reader_of. cbn [c' hc_set_metadata hc_metadata_fill hc_metadata_current_position]. by rewrite Hp, !block_reader_0.
Qed.

(** The client, what it has sent and what it has been offered. *)
Record on_air (R : gmultiset loc) (c0 c : httpd_client) (h : heap) (off wire : cstring) : Prop := {
  air_bytes : sk_accepted (hc_channel c) = sk_accepted (hc_channel c0) ++ wire;
  air_heap : exists lost, heap_ok h (hc_refs c ⊎ (lost ⊎ R));
  air_queue : queue_ok h c;
  air_meta : meta_ok h c;
  air_requested : hc_metadata_requested c = true;
  air_reader : feed_reader METAINT wire (Audio METAINT) = reader_of h c;
  air_told : told h c (feed_block METAINT wire (Audio METAINT));
  air_audio : off = feed_audio METAINT wire (Audio METAINT) ++ left_of h c;
}.

Lemma on_air_step R c0 c h off wire e :
  on_air R c0 c h off wire -> radio_allowed R h c e ->
  wp (radio_exec e c h) (fun '(c', h') => kept h h' R /\
    match c' with
    | Some c' => exists s, on_air R c0 c' h' (radio_offered e h c off) (wire ++ s)
    | None => exists lost, heap_ok h' (lost ⊎ R)
    end).
Proof.
  intros [Hacc [lost Hh] Hq Hm Hreq Hr Ht Hoff] Hal.
  assert (Hquiet : forall h' c' off', undisturbed (lost ⊎ R) h h' c c' -> queue_ok h' c' ->
    off' = feed_audio METAINT wire (Audio METAINT) ++ left_of h' c' ->
    kept h h' R /\ exists s, on_air R c0 c' h' off' (wire ++ s)).
  { intros h' c' off' (Hh' & Hk & Hm' & Hch & Hreq' & Hr' & _ & Ht') Hq' E.
    split; [eapply kept_sub; [|exact Hk]; multiset_solver|]. exists []. rewrite app_nil_r.
    split; try done; [by rewrite Hch|by exists lost|by rewrite Hreq'|by rewrite Hr'|by apply Ht']. }
  destruct e as [l|l| |]; cbn [radio_exec radio_allowed radio_offered] in *.
  - eapply wp_bind_mono; [apply (send_ok (lost ⊎ R) h c l Hh Hq Hm); multiset_solver|]. intros [c' h'] (Hu & Hq' & Hl).
    apply wp_ok. apply Hquiet; [done|done|]. by rewrite Hl, Hoff, app_assoc.
  - destruct Hal as (Hl & Hb & Hp).
    eapply wp_bind_mono; [apply (send_metadata_ok (lost ⊎ R) h c l Hh Hm ltac:(multiset_solver) Hb Hp)|].
    intros [c' h'] (Hu & Hsq & Hk & _). apply wp_ok.
    assert (Hl' : left_of h' c' = left_of h c).
    { destruct Hsq as (_ & _ & E2 & E3 & E4 & _). unfold left_of. rewrite E2, E3, E4. f_equal.
      - f_equal. eapply bytes_kept; [exact Hk|]. intros x E. rewrite E. cbn [opt_list]. rewrite refs_cons. multiset_solver.
      - f_equal. apply map_ext_in. intros x Hx. eapply bytes_kept; [exact Hk|]. intros y [= <-].
        apply list_elem_of_In, refs_elem in Hx. multiset_solver. }
    apply Hquiet; [done| |by rewrite Hl', Hoff]. destruct Hsq as (E0 & E1 & E2 & E3 & E4 & _).
    split; [by rewrite E0; apply Hq|rewrite E1, E2, E3; apply Hq|]. intros x s E Es. rewrite E3 in E. rewrite E4.
    rewrite Hk in Es; [by eapply queue_position|]. rewrite E. cbn [opt_list]. rewrite refs_cons. multiset_solver.
  - eapply wp_bind_mono; [apply (cancel_ok (lost ⊎ R) h c Hh Hq Hm)|]. intros [c' h'] (Hu & Hq' & Hl).
    apply wp_ok. apply Hquiet; [done|done|]. rewrite Hoff, Hl, app_assoc.
    rewrite length_app, Nat.add_sub. by rewrite take_app_length.
  - eapply wp_bind_mono; [apply (httpd_client_out_event_ok (lost ⊎ R) h c _ Hh Hq Hm Ht)|].
    intros [[r c'] h'] Hpost. apply wp_ok. unfold out_post in Hpost. cbn [fst snd] in Hpost. destruct c' as [c'|].
    + destruct Hpost as (s & audio & b & lost' & [Hb1 Hh1 Hk1 Hq1 Hm1 Hr1 Ht1 Hl1 Hf1]). rewrite Hreq in Hf1.
      split; [eapply kept_sub; [|exact Hk1]; multiset_solver|]. exists s.
      pose proof (feed_app METAINT wire s (Audio METAINT)) as Hfa. rewrite Hr in Hfa.
      split; try done.
      * by rewrite Hb1, Hacc, app_assoc.
      * exists (lost' ⊎ lost). eapply heap_ok_eq; [exact Hh1|multiset_solver].
      * by rewrite Hr1.
      * rewrite feed_reader_app, Hr. unfold feed_reader. by rewrite Hf1.
      * rewrite feed_block_app, Hr. unfold feed_block at 2. by rewrite Hf1.
      * rewrite feed_audio_app, Hr. unfold feed_audio at 2. rewrite Hf1. cbn [fst snd]. by rewrite Hoff, Hl1, app_assoc.
    + destruct Hpost as (lost' & Hh1 & Hk1 & _). split; [eapply kept_sub; [|exact Hk1]; multiset_solver|].
      exists (lost' ⊎ lost). eapply heap_ok_eq; [exact Hh1|multiset_solver].
Qed.

Lemma on_air_start R c h :
  heap_ok h (hc_refs c ⊎ R) -> radio_start h c -> on_air R c c h [] [].
Proof.
  intros Hh (Hst & Hreq & Hsrc & Hp & Hc & Hm & Hf & Hs). split; try done.
  - by rewrite app_nil_r.
  - exists ∅. eapply heap_ok_eq; [exact Hh|multiset_solver].
  - split; [done|by rewrite Hsrc|]. intros l s E. by rewrite Hc in E.
  - unfold reader_of. rewrite Hf. done.
  - intros E l El. by rewrite (Hs E) in El.
  - unfold left_of. rewrite Hc, Hp. cbn. by rewrite drop_nil.
Qed.

Lemma radio_on_air R c0 h0 c h off :
  heap_ok h0 (hc_refs c0 ⊎ R) -> radio_start h0 c0 -> radio R c0 h0 c h off ->
  kept h0 h R /\ exists wire, on_air R c0 c h off wire.
Proof.
  intros Hh Hs Hr. induction Hr as [|c h off e c' h' Hr [Hk [wire IH]] Hal E].
  - split; [done|]. exists []. by apply on_air_start.
  - pose proof (on_air_step _ _ _ _ _ _ _ IH Hal) as Hstep. rewrite E in Hstep. destruct Hstep as [Hk' [s Hs']].
    split; [by eapply kept_trans|]. by exists (wire ++ s).
Qed.

