(* ===== verification/IcyTheorems.v ===== *)
(** * Streams with Icy metadata: properties

    The buffers and the parser of a stream over any cut of the bytes ([Icy]),
    what a listener of the server is sent and told ([Httpd]), and the way of a
    title from one to the other; and where the code does something else. *)

From S2P Require Import Prelude Err CString TagPool TagValue Tag TagTheorems Tokenizer FifoBuffer ClientRead ClientWrite Icy Httpd.
Local Open Scope Z_scope.

#[export] Instance ascii_latin1 : Latin1 ascii_charset.
Proof. intros s. by eexists. Qed.

(** ** The reader *)

(** A stream whose answer has an [icy-metaint], before the first byte. *)
Definition tuned_in (metaint : Z) (c : input_curl) : Prop :=
  ic_buffers c = [] /\ exists im, ic_icy c = icy_start metaint im.

(** Of the bytes [fed] that libcurl has delivered so far, the first [n] have
    been taken out of the buffers: the automaton [feed] says what they were. *)
Record follows {C : Charset} (R : gmultiset loc) (g0 : tags) (metaint : Z) (c : input_curl) (g : tags) (fed : cstring) (n : nat) : Prop := {
  follows_taken : (n <= length fed)%nat;
  follows_waiting : pending (ic_buffers c) = drop n fed;
  follows_buffers : Forall buffer_ok (ic_buffers c);
  follows_parser : im_rep metaint (ic_icy c) (feed_reader metaint (take n fed) (Audio metaint));
  follows_tag : tag_rep R g (im_tag (ic_icy c)) (icy_items g0 <$> feed_block metaint (take n fed) (Audio metaint));
  follows_others : others_kept g0 g R;
}.

Lemma icy_items_kept {C : Charset} g0 g R (o : option cstring) : others_kept g0 g R -> icy_items g0 <$> o = icy_items g <$> o.
Proof. intros Hk. destruct o; [|done]. cbn. f_equal. symmetry. apply icy_items_ignore. by apply kept_ignore in Hk. Qed.

Lemma follows_start {C : Charset} R g metaint c :
  0 < metaint -> tuned_in metaint c -> world g R -> follows R g metaint c g [] 0.
Proof.
  intros Hm [Hb [im Ei]] Hw. split; rewrite ?Hb, ?Ei; cbn; [lia|done|done| |done|apply others_refl]. split; cbn; [done|lia|done].
Qed.

Lemma follows_written {C : Charset} R g0 metaint c g fed n bytes :
  follows R g0 metaint c g fed n -> Z.of_nat (length bytes) < 2 ^ 62 ->
  let '(r, c') := input_curl_writefunction bytes c in
  follows R g0 metaint c' g (fed ++ match r with Some _ => bytes | None => [] end) n.
Proof.
  intros [Hn Hp Hb Hi Ht Hk] Hl. pose proof (writefunction_ok bytes c Hb Hl) as Hw.
  destruct (input_curl_writefunction bytes c) as [r c']. destruct Hw as (Hb' & Ei & Ep).
  split; rewrite ?Ei, ?take_app_le by done; try done.
  - rewrite length_app. lia.
  - by rewrite Ep, Hp, drop_app_le by done.
Qed.

Lemma follows_read {C : Charset} {HC : CharsetSpec C} {HL : Latin1 C} R g0 metaint c g fed n len :
  0 < metaint < 2 ^ 62 -> follows R g0 metaint c g fed n -> ic_buffers c <> [] -> 0 < len ->
  exists audio im bs g' n', read_from_buffer (ic_icy c) (ic_buffers c) len g = Ok (audio, im, bs, g') /\
    follows R g0 metaint (ic_set_stream bs im c) g' fed n' /\ (n < n')%nat /\ Z.of_nat n' <= Z.of_nat n + len /\
    feed_audio metaint (take n' fed) (Audio metaint) = feed_audio metaint (take n fed) (Audio metaint) ++ audio.
Proof.
  intros Hm [Hn Hp Hb Hi Ht Hk] Hne Hlen. destruct (ic_buffers c) as [|b bs] eqn:Eb; [done|].
  assert (Hrep : parser_rep metaint R g (ic_icy c) (feed_reader metaint (take n fed) (Audio metaint))
    (feed_block metaint (take n fed) (Audio metaint))).
  { split; [done|]. rewrite (icy_items_kept g0 g R _ Hk) in Ht. exact Ht. }
  pose proof (read_from_buffer_ok metaint Hm R _ b bs len g _ _ Hrep Hb Hlen) as Hr.
  destruct (read_from_buffer _ _ _ _) as [[[[audio im] bs'] g']|]; [|done].
  destruct Hr as (k & Hk1 & Hk2 & (Ha & Hk' & Him & Htag) & Hpend & Hb'). rewrite Hp in Ha, Him, Htag, Hpend.
  assert (Hlen' : (k <= length (drop n fed))%nat).
  { rewrite <- Hp. unfold pending. cbn [fmap list_fmap concat]. rewrite length_app. lia. }
  rewrite length_drop in Hlen'.
  assert (Ek : take (n + k) fed = take n fed ++ take k (drop n fed)) by (by rewrite take_take_drop).
  exists audio, im, bs', g', (n + k)%nat. split; [done|].
  split; [|split; [lia|]; split; [lia|]; by rewrite Ek, feed_audio_app, Ha].
  split; cbn [ic_set_stream ic_buffers ic_icy]; [lia|by rewrite Hpend, drop_drop|done| | |by eapply others_trans].
  - by rewrite Ek, feed_reader_app.
  - rewrite Ek, feed_block_app, (icy_items_kept g0 g' R); [done|by eapply others_trans].
Qed.

(** [fill_buffer()] answers [true] when there is data, which is not
    [MPD_SUCCESS]: [input_curl_read()] returns it as the number of bytes
    read, and has stored none. *)
Lemma input_curl_read_data {C : Charset} fuel size c g :
  ic_buffers c <> [] -> ic_postponed_error c = 0 ->
  input_curl_read (S fuel) size [] c g = Ok (1, [], c, g).
Proof.
  intros Hb He. cbn [input_curl_read]. unfold fill_buffer. rewrite bool_decide_false, andb_false_r, He by done.
  reflexivity.
Qed.

(** C38: the buffers and the parser of an Icy stream follow the automaton
    [feed], however the network cuts the stream into pieces and however much
    is asked for at a time: what libcurl delivers is appended; each
    [read_from_buffer()] takes at least one byte and stores exactly the audio
    that is in what it takes, and the tag of the parser is then the one of the
    last block that has come through; no assertion fails and no other tag
    changes.  Only [input_curl_read()] calls [read_from_buffer()], and it
    never does when there is something to read: it returns 1 before, and
    stores nothing. *)
Theorem icy_stream_any_cut {C : Charset} {HC : CharsetSpec C} {HL : Latin1 C} R g0 metaint c g :
  0 < metaint < 2 ^ 62 ->
  (tuned_in metaint c -> world g R -> follows R g metaint c g [] 0) /\
  (forall fed n bytes, follows R g0 metaint c g fed n -> Z.of_nat (length bytes) < 2 ^ 62 ->
     let '(r, c') := input_curl_writefunction bytes c in
     follows R g0 metaint c' g (fed ++ match r with Some _ => bytes | None => [] end) n) /\
  (forall fed n len, follows R g0 metaint c g fed n -> ic_buffers c <> [] -> 0 < len ->
     exists audio im bs g' n', read_from_buffer (ic_icy c) (ic_buffers c) len g = Ok (audio, im, bs, g') /\
       follows R g0 metaint (ic_set_stream bs im c) g' fed n' /\ (n < n')%nat /\ Z.of_nat n' <= Z.of_nat n + len /\
       feed_audio metaint (take n' fed) (Audio metaint) = feed_audio metaint (take n fed) (Audio metaint) ++ audio) /\
  (forall fuel size, ic_buffers c <> [] -> ic_postponed_error c = 0 ->
     input_curl_read (S fuel) size [] c g = Ok (1, [], c, g)).
Proof.
  intros Hm. split; [intros; apply follows_start; [apply Hm|done|done]|]. split; [intros fed n bytes; apply follows_written|].
  split; [intros fed n len; by apply follows_read|]. intros fuel size. apply input_curl_read_data.
Qed.

(** Concrete streams: intervals of four bytes, and a title. *)
Definition four : input_curl :=
  InputCurl true [] false (icy_start 4 (IcyMetadata 0 0 0 0 None NoTag)) None NoTag 0 false false 0 0 None.

Definition song_block : cstring := char_of 3 :: take 48 (metadata_text (lit "A - B") [] ++ replicate 16 nul).

Definition four_wire : cstring := lit "abcd" ++ song_block ++ lit "efgh" ++ [nul] ++ lit "i".

Definition four_fed : input_curl := (input_curl_writefunction four_wire four).2.

Definition four_read : cstring * icy_metadata * list buffer * tags :=
  match read_from_buffer (ic_icy four_fed) (ic_buffers four_fed) 200 tags0 with Ok r => r | Err _ => ([], ic_icy four, [], tags0) end.

Example example_stream : four_read.1.1.1 = lit "abcdefghi" /\ four_read.1.2 = [].
Proof. split; vm_compute; reflexivity. Qed.

Lemma icy_stream_any_cut_witness :
  follows ∅ tags0 4 four_fed tags0 four_wire 0 /\
  exists audio im bs g n, read_from_buffer (ic_icy four_fed) (ic_buffers four_fed) 7 tags0 = Ok (audio, im, bs, g) /\
    follows ∅ tags0 4 (ic_set_stream bs im four_fed) g four_wire n /\
    feed_audio 4 (take n four_wire) (Audio 4) = audio.
Proof.
  destruct (icy_stream_any_cut ∅ tags0 4 four tags0 ltac:(lia)) as (Hstart & Hwrite & _ & _).
  assert (H0 : follows ∅ tags0 4 four tags0 [] 0).
  { apply Hstart; [split; [reflexivity|by eexists]|apply tags0_world]. }
  specialize (Hwrite [] 0%nat four_wire H0 ltac:(vm_compute; reflexivity)).
  assert (H1 : follows ∅ tags0 4 four_fed tags0 four_wire 0).
  { unfold four_fed. destruct (input_curl_writefunction four_wire four) as [r c] eqn:E. vm_compute in E. injection E as <- _. exact Hwrite. }
  split; [exact H1|].
  destruct (icy_stream_any_cut ∅ tags0 4 four_fed tags0 ltac:(lia)) as (_ & _ & Hread & _).
  destruct (Hread four_wire 0%nat 7 H1) as (audio & im & bs & g & n & E & Hf & _ & _ & Ha); [discriminate|lia|].
  exists audio, im, bs, g, n. split; [exact E|]. split; [exact Hf|]. rewrite Ha, take_0. reflexivity.
Defined.

(** ** The listener of the server *)

(** C39: as long as new metadata does not come while a block is partly sent
    ([radio_allowed]; [metadata_replaced_fails] shows what happens otherwise),
    and metadata pages are well-formed blocks, a listener that asked for
    metadata gets a stream whose audio is what the clients were sent, less what
    is still queued or was cancelled, with the blocks where the listener
    expects them; when the client counts its metadata as sent, it is what the
    listener was last told.  Pages that are shared stay as they are, and no
    event that is allowed fails. *)
Theorem radio_listener_hears R c0 h0 c h off :
  heap_ok h0 (hc_refs c0 ⊎ R) -> radio_start h0 c0 -> radio R c0 h0 c h off ->
  exists wire,
    sk_accepted (hc_channel c) = sk_accepted (hc_channel c0) ++ wire /\
    off = feed_audio METAINT wire (Audio METAINT) ++ left_of h c /\
    (hc_metadata_sent c = true -> forall l, hc_metadata c = Some l ->
       feed_block METAINT wire (Audio METAINT) = Some (drop 1 (bytes_of h (Some l)))) /\
    kept h0 h R /\
    forall e, radio_allowed R h c e -> exists c' h', radio_exec e c h = Ok (c', h').
Proof.
  intros Hh Hs Hr. destruct (radio_on_air R c0 h0 c h off Hh Hs Hr) as (Hk & wire & Ha). exists wire.
  split; [apply Ha|]. split; [apply Ha|]. split; [apply Ha|]. split; [done|]. intros e He.
  pose proof (on_air_step R c0 c h off wire e Ha He) as Hw. destruct (radio_exec e c h) as [[c' h']|]; [by do 2 eexists|done].
Qed.

(** A station with two pages: a second of audio, and the block of a song. *)
Definition page_of_audio : loc := 1%positive.
Definition page_of_song : loc := 2%positive.

Definition on_the_air : heap :=
  <[page_of_audio := Page 1 (replicate (Z.to_nat 9000) "x"%char)]> (<[page_of_song := Page 1 song_block]> ∅).

Definition station_refs : gmultiset loc := refs_of [page_of_audio; page_of_song].

Definition listener : httpd_client :=
  HttpdClient (Sink [WNormal 100; WAgain; WNormal 9000; WNormal 10] []) false None RESPONSE [] None 0 false true true true
    METAINT None 0 0.

(** The state after an event. *)
Definition then_do (e : radio_event) (s : httpd_client * heap) : httpd_client * heap :=
  match radio_exec e s.1 s.2 with Ok (Some c, h) => (c, h) | _ => s end.

Definition goes_on (e : radio_event) (s : httpd_client * heap) : bool :=
  match radio_exec e s.1 s.2 with Ok (Some _, _) => true | _ => false end.

Lemma radio_then R c0 h0 s off e :
  radio R c0 h0 s.1 s.2 off -> radio_allowed R s.2 s.1 e -> goes_on e s = true ->
  radio R c0 h0 (then_do e s).1 (then_do e s).2 (radio_offered e s.2 s.1 off).
Proof.
  intros Hr Ha Hg. unfold then_do, goes_on in *. destruct (radio_exec e s.1 s.2) as [[[c'|] h']|] eqn:E; try done.
  by apply (radio_next R c0 h0 s.1 s.2 off e c' h').
Qed.

Fixpoint broadcast (es : list radio_event) (s : httpd_client * heap) (off : cstring) : httpd_client * heap * cstring :=
  match es with [] => (s, off) | e :: es => broadcast es (then_do e s) (radio_offered e s.2 s.1 off) end.

Fixpoint plan_ok (R : gmultiset loc) (es : list radio_event) (s : httpd_client * heap) : Prop :=
  match es with
  | [] => True
  | e :: es => radio_allowed R s.2 s.1 e /\ goes_on e s = true /\ plan_ok R es (then_do e s)
  end.

Lemma broadcast_radio R c0 h0 es s off :
  radio R c0 h0 s.1 s.2 off -> plan_ok R es s ->
  radio R c0 h0 (broadcast es s off).1.1 (broadcast es s off).1.2 (broadcast es s off).2.
Proof.
  revert s off. induction es as [|e es IH]; intros s off Hr Hp; [done|]. destruct Hp as (Ha & Hg & Hp).
  cbn [broadcast]. apply IH; [by apply radio_then|done].
Qed.

Definition programme : list radio_event :=
  [Send page_of_audio; Announce page_of_song; Ready; Ready; Ready; Ready; Ready; Ready].

Lemma station_heap : heap_ok on_the_air (hc_refs listener ⊎ station_refs).
Proof.
  intros l. unfold on_the_air. destruct (decide (l = page_of_audio)) as [->|H1]; [|destruct (decide (l = page_of_song)) as [->|H2]].
  - rewrite lookup_insert_eq. vm_compute. split_and!; congruence.
  - rewrite lookup_insert_ne, lookup_insert_eq by done. vm_compute. split_and!; congruence.
  - rewrite !lookup_insert_ne by done. change (hc_refs listener ⊎ station_refs) with (∅ ⊎ ∅ ⊎ ∅ ⊎ station_refs).
    rewrite lookup_empty. unfold station_refs. rewrite !refs_cons. change (refs_of []) with (∅ : gmultiset loc).
    rewrite !multiplicity_disj_union, !multiplicity_singleton_ne, !multiplicity_empty by done. done.
Qed.

Lemma song_block_ok : block_ok song_block.
Proof. do 2 eexists. split; [reflexivity|]. vm_compute. split; congruence. Qed.

Definition played : httpd_client * heap * cstring := broadcast programme (listener, on_the_air) [].

Lemma programme_runs :
  radio station_refs listener on_the_air played.1.1 played.1.2 played.2.
Proof.
  assert (Hin : page_of_audio ∈ station_refs /\ page_of_song ∈ station_refs).
  { unfold station_refs. split; apply refs_elem; set_solver. }
  apply broadcast_radio; [apply radio_begin|].
  split; [apply Hin|split; [vm_compute; reflexivity|]].
  split; [split; [apply Hin|split; [apply song_block_ok|vm_compute; reflexivity]]|split; [vm_compute; reflexivity|]].
  do 6 (split; [exact I|split; [vm_compute; reflexivity|]]). exact I.
Qed.

Lemma listener_start : radio_start on_the_air listener.
Proof. repeat split; done || (cbn; unfold METAINT; lia). Qed.

Lemma played_song : hc_metadata played.1.1 = Some page_of_song.
Proof. vm_compute. reflexivity. Qed.

Lemma played_content : content played.1.2 page_of_song = Some song_block.
Proof. vm_compute. reflexivity. Qed.

Lemma played_block : bytes_of played.1.2 (Some page_of_song) = song_block.
Proof. vm_compute. reflexivity. Qed.

Lemma radio_listener_hears_witness :
  played.2 = replicate (Z.to_nat 9000) "x"%char /\ hc_metadata_sent played.1.1 = true /\
  exists wire, sk_accepted (hc_channel played.1.1) = wire /\
    played.2 = feed_audio METAINT wire (Audio METAINT) ++ left_of played.1.2 played.1.1 /\
    feed_block METAINT wire (Audio METAINT) = Some (drop 1 song_block).
Proof.
  assert (Hs : hc_metadata_sent played.1.1 = true) by (vm_compute; reflexivity).
  split; [vm_compute; reflexivity|]. split; [exact Hs|].
  destruct (radio_listener_hears station_refs listener on_the_air played.1.1 played.1.2 played.2
    station_heap listener_start programme_runs) as (wire & Hw & Ho & Hb & _).
  exists wire. split; [exact Hw|]. split; [exact Ho|]. rewrite (Hb Hs _ played_song), played_block. reflexivity.
Defined.

(** ** From the server to another player *)

(** C40: the block that the server makes from the tag of a song has the size
    that its first byte says, takes a reader through exactly one block, and
    [icy_parse_tag()] turns its text into a tag whose only item is the title:
    the values of the song, joined (unless titles are ignored or it is empty).
    This takes values without zero bytes, [;] and [=], a text of less than
    2032 bytes, and 15 readable bytes behind the string that the page is
    copied from; otherwise see [stream_title_overflows] and
    [metadata_page_limits]. *)
Theorem icy_metadata_roundtrip {C : Charset} {HC : CharsetSpec C} {HL : Latin1 C} gs t types items beyond R g :
  tag_values types t gs = Ok items ->
  no_nul (join_title items) -> ";"%char ∉ join_title items -> "="%char ∉ join_title items ->
  Z.of_nat (length (metadata_text (join_title items) [])) < TEXT_MAX -> (15 <= length beyond)%nat -> world g R ->
  exists page t' g', icy_server_metadata_page t types beyond gs = Ok (Some page) /\ block_ok page /\
    feed METAINT page BlockSize = (Audio METAINT, [], Some (drop 1 page)) /\
    icy_parse_tag (c_str (drop 1 page)) g = Ok (t', g') /\
    tag_rep R g' (TagAt t') (Some (added (ignored g TAG_TITLE) TAG_TITLE (join_title items))) /\
    others_kept g g' R.
Proof.
  intros Hv Hn Hsemi Heq Hlen Hbeyond Hw.
  destruct (server_page_ok t types items beyond gs Hv Hn Hlen Hbeyond) as (page & E & Hblock & Etext).
  pose proof Hblock as (ch & text & -> & Ht & Hch). pose proof (char_code_bound ch).
  pose proof (icy_parse_tag_ok R g (drop 1 (ch :: text)) Hw) as Hp. cbn [drop] in *. rewrite drop_0 in *.
  specialize (Hp ltac:(lia)). destruct (icy_parse_tag _ g) as [[t' g']|] eqn:Ep; [|done]. destruct Hp as (Hh & Hb & Hk). cbn [fst snd] in *.
  exists (ch :: text), t', g'. split; [exact E|]. split; [exact Hblock|]. split.
  { pose proof (feed_block_bytes (ch :: text) 0 (Z.of_nat (length (ch :: text))) Hblock ltac:(simpl; lia) ltac:(lia)) as Hfeed.
    rewrite Nat2Z.id, Z.add_0_l, Z.eqb_refl in Hfeed. change (Z.to_nat 0) with O in Hfeed. rewrite drop_0, firstn_all in Hfeed. exact Hfeed. }
  cbn [drop]. rewrite drop_0. split; [exact Ep|]. split; [|exact Hk]. split; [|exact Hb]. revert Hh. unfold icy_items, icy_titles. rewrite Etext.
  pose proof (icy_titles_ok _ Hn Hsemi Heq) as Etitles. unfold icy_titles in Etitles.
  rewrite c_str_no_nul in Etitles by (unfold no_nul, metadata_text; rewrite !forallb_app; by rewrite Hn).
  rewrite Etitles. cbn [map concat]. by rewrite app_nil_r.
Qed.

(** A song of an artist. *)
Definition song : tag * tags :=
  match build_tag [(TAG_ARTIST, lit "A"); (TAG_TITLE, lit "B")] tags0 with Ok r => r | Err _ => (tag_new, tags0) end.

Lemma song_page : icy_server_metadata_page song.1 [TAG_ALBUM; TAG_ARTIST; TAG_TITLE] (replicate 15 nul) song.2 = Ok (Some song_block).
Proof. vm_compute. reflexivity. Qed.

Lemma icy_metadata_roundtrip_witness :
  exists t g, icy_parse_tag (c_str (drop 1 song_block)) tags0 = Ok (t, g) /\
    tag_rep ∅ g (TagAt t) (Some (added false TAG_TITLE (lit "A - B"))).
Proof.
  destruct (icy_metadata_roundtrip song.2 song.1 [TAG_ALBUM; TAG_ARTIST; TAG_TITLE] [lit "A"; lit "B"] (replicate 15 nul) ∅ tags0)
    as (page & t & g & E & _ & _ & Ep & Ht & _).
  - vm_compute. reflexivity.
  - vm_compute. reflexivity.
  - apply (bool_decide_unpack _). vm_compute. exact I.
  - apply (bool_decide_unpack _). vm_compute. exact I.
  - vm_compute. reflexivity.
  - apply Nat.leb_le. reflexivity.
  - apply tags0_world.
  - rewrite song_page in E. injection E as <-. exists t, g. split; [exact Ep|exact Ht].
Defined.

(** ** What the code does differently

    *** The input plugin

    When there is data, [input_curl_read()] stores none
    ([input_curl_read_data]); at the end of the stream, it does not return. *)

Lemma input_curl_read_eof {C : Charset} fuel size c g :
  ic_easy c = false -> ic_buffers c = [] -> ic_postponed_error c = 0 ->
  input_curl_read fuel size [] c g = Err OutOfFuel.
Proof.
  revert size c. induction fuel as [|fuel IH]; intros size c He Hb Hp; [done|]. cbn [input_curl_read].
  unfold fill_buffer. rewrite He, Hb, Hp. rewrite bool_decide_true by done. cbn [andb negb Z.eqb mbind res_bind].
  rewrite Hb. cbn [pending fmap list_fmap concat length send_buffers]. rewrite bool_decide_true by done. rewrite andb_false_r.
  cbn [mbind res_bind app length Nat.eqb]. by apply IH.
Qed.

(** No stream is opened: what is returned is 1 as a pointer, which
    [IS_ERR()] does not take for an error. *)
Lemma input_curl_open_never add url g :
  has_prefix (lit "http://") url = true -> input_curl_open true true add url g = Ok (inl 1).
Proof. intros H. unfold input_curl_open. by rewrite H. Qed.

(** Seeking to the end, and every seek that makes a new request, returns
    without the mutex that the caller holds and releases. *)
Lemma input_curl_seek_unlocks add answer c offset :
  ic_ready c = true -> ic_seekable c = true -> ic_buffers c = [] -> 0 <= offset -> offset <> ic_offset c ->
  exists ret c', input_curl_seek true true add answer offset SEEK_SET c = Ok (ret, false, c').
Proof.
  intros Hr Hs Hb Ho Hne. unfold input_curl_seek. rewrite Hr, Hs, Hb. cbn [assert mbind res_bind negb].
  rewrite decide_False by tauto. rewrite (proj2 (Z.ltb_ge offset 0)) by lia. cbn [length fast_forward].
  rewrite bool_decide_true by done. rewrite andb_false_r. cbn [mbind res_bind]. rewrite (proj2 (Z.eqb_neq _ _)) by done.
  cbn. destruct (offset =? ic_size c); by do 2 eexists.
Qed.

(** [icy_reset()] frees the tag and keeps the pointer, so that the next block
    frees it again. *)
Definition tagged : icy_metadata * tags := (four_read.1.1.2, four_read.2).

Lemma icy_reset_dangles :
  (im ← icy_reset tagged.1 tagged.2; Ok (im_tag im.1)) = Ok Dangling /\
  (im ← icy_reset tagged.1 tagged.2; '(_, im1) ← icy_data im.1 4; icy_meta im1 song_block im.2) = Err BadFree.
Proof. split; vm_compute; reflexivity. Qed.

(** *** The server

    The title is built in 3648 bytes; [strlcpy()] is told how many are left
    as an unsigned number, which wraps. *)
Lemma stream_title_overflows : stream_title [replicate (Z.to_nat 3650) "x"%char; lit "y"] = Err OutOfBounds.
Proof. vm_compute. reflexivity. Qed.

(** The size in front of a long text is negative as a [char]; behind a text
    whose length is not 15 modulo 16, bytes are copied from beyond the
    string. *)
Definition page_of (items : list item) (beyond : cstring) : res (option cstring) :=
  '(t, g) ← build_tag items tags0; icy_server_metadata_page t [TAG_ALBUM; TAG_ARTIST; TAG_TITLE] beyond g.

Lemma metadata_page_limits :
  page_of [(TAG_TITLE, replicate (Z.to_nat 2020) "x"%char)] (replicate 16 nul) = Err OutOfBounds /\
  page_of [(TAG_ARTIST, lit "A"); (TAG_TITLE, lit "B")] (replicate 13 nul) = Err OutOfBounds.
Proof. split; vm_compute; reflexivity. Qed.

(** New metadata does not restart the block that is being sent. *)
Definition short_block : cstring := char_of 2 :: metadata_text [] [] ++ replicate 4 nul.
Definition page_of_silence : loc := 3%positive.

Definition between_blocks : httpd_client * heap :=
  let slow := hc_set_channel (Sink [WNormal 9000; WNormal 40] []) listener in
  let h := <[page_of_silence := Page 1 short_block]> on_the_air in
  (broadcast [Send page_of_audio; Announce page_of_song; Ready; Ready] (slow, h) []).1.

Lemma metadata_replaced_fails :
  (s ← radio_exec (Announce page_of_silence) between_blocks.1 between_blocks.2;
   match s.1 with Some c => _ ← radio_exec Ready c s.2; Ok () | None => Ok () end) = Err AssertFailed.
Proof. vm_compute. reflexivity. Qed.

(** A client that cannot be sent the response is closed twice. *)
Lemma failed_response_closes_twice :
  (c ← httpd_client_new (Sink [WError] []) true;
   '(_, h) ← httpd_client_in_event (Station (lit "radio") [] [] (lit "audio/mpeg")) None true
     (IoNormal (lit "GET / HTTP/1.0" ++ crlf ++ crlf)) c ∅; Ok (size h)) = Err BadFree.
Proof. vm_compute. reflexivity. Qed.

(** The page of an empty block is never freed: one page per interval. *)
Lemma empty_block_leaks :
  let c := hc_set_channel (Sink [] []) listener in
  let s := (broadcast [Send page_of_audio; Ready; Ready; Ready] (c, on_the_air) []).1 in
  hc_refs s.1 = ∅ /\ size s.2 = S (size on_the_air).
Proof. split; vm_compute; reflexivity. Qed.
